(* ===== verification/_CoqProject ===== *)
-Q . S2P
Prelude.v
Sha256.v
Json.v
Float64.v
Errors.v
Schemas.v
Decision.v
Ledger.v
Text.v
Slices.v
Numerals.v
JsonText.v
Reverse.v
Actions.v
Approval.v
Idempotency.v
Metrics.v
AgentLimits.v
Observability.v
Tables.v
Delegations.v
ThreadState.v
Codec.v
Workflow.v
Intake.v
RiskOps.v
Knowledge.v
StreamBridge.v
CircuitBreaker.v
Retry.v
RunStore.v
RunEvents.v
EventLog.v
EventStores.v
ToolCalls.v
OrderedDict.v
Evaluation.v
LoopDetection.v
LoopGuard.v
TokenBudget.v
BudgetGuard.v
PosixPaths.v
Shlex.v
SandboxPaths.v
SandboxOutput.v
SandboxCalls.v
FilePaths.v
FileSearch.v
LocalSandbox.v
BashGuard.v
BashSafety.v
SandboxTools.v
Memory.v
MemoryFacts.v
Uploads.v
UploadSafety.v
UploadSpec.v
SandboxSafety.v
SearchSafety.v
ToolResults.v
WriteGate.v
GateSafety.v
ToolOutput.v
ToolProgress.v
ProgressGuard.v
OutputSafety.v
OutputBudget.v
RunManager.v
Coroutines.v
Scheduler.v
SchedulerFacts.v
World.v
Repository.v
Guardrail.v
Guarantee.v
Chain.v
Operations.v
Tools.v
Router.v
System.v
