(* ===== verification/Prelude.v ===== *)
(** * AfterFlow: a verification library for the after-sales decision and
    execution engine

    AfterFlow answers a customer complaint: an intake turns free text into a
    case, a deterministic engine decides it, supervisors approve the resulting
    action, and a guarded execution moves the money once.  An agent harness
    (deerflow) runs a language model beside it.  This library models the Python
    of the backend: [src/backend/app/after_sales], its router
    [src/backend/app/gateway/routers/after_sales.py], its tables, the scheduler
    [src/backend/app/scheduler], and of the harness
    [src/backend/packages/harness/deerflow] the parts that keep state or guard
    what the model may do.  Definitions keep the names of the source; the first
    comment of each file names the module it models.

    ** Parts and files

    Foundations.  [Prelude]: tactics, hints, list lemmas, [dict.fromkeys].
    [Sha256]: the digest below every fingerprint.  [Json], [JsonText]: JSON
    values, the canonical [json.dumps] and [json.loads].  [Numerals]: the
    numerals Python reads.  [Float64]: correctly rounded binary64 arithmetic.
    [Text] (with [Clock]), [Slices]: strings by code points, their slices, the texts
    of instants.  [OrderedDict]: dictionaries by insertion.  [Errors]: the
    exception classes, the result monad and [failure_taxonomy.py].

    Deciding.  [Schemas] ([schemas.py]), [Decision] ([risk_scoring.py],
    [decision.py]), [Reverse] ([reverse.py], [reverse_execution.py]), [Workflow]
    ([mock_data.py] and the graph of [workflow.py]), [Intake] ([intake.py]),
    [RiskOps] ([risk_ops.py]).

    Acting.  [Ledger] (the refund executor of [actions.py]), [Actions] (the rest
    of it, and [balance_check.py]), [Approval] (the life of an action as a step
    relation), [Guardrail] ([guardrail.py] and the middleware that asks it).

    Storing.  [Tables] ([persistence/after_sales/model.py]), [Codec] (stored
    forms), [Repository] ([repository.py]), [Idempotency] ([idempotency.py],
    [idempotency_orm.py]), [Observability] ([knowledge_health.py],
    [tool_audit.py]), [Knowledge] ([knowledge.py]), [Metrics] ([metrics.py]),
    [AgentLimits] ([tool_policy.py], [cancellation.py]), [Evaluation]
    ([evaluation.py]: the scoring of a labelled set).

    Serving.  [Coroutines] (coroutines and their logic), [World] (the state of
    the service), [Operations] ([operations.py]), [Tools] ([tools.py]), [Router]
    (every endpoint), [Guarantee] and [Chain] (what the repository keeps),
    [System] (what the whole service keeps).

    Scheduling.  [Scheduler] (module [Schedules]: [scheduler/schedules.py] and the
    rows; module [Scheduler]: both repositories, [app/scheduler/service.py] and
    its router), [SchedulerFacts].

    Runs.  [RunManager], [Retry] ([runtime/runs/manager.py]), [RunStore]
    ([runs/store/memory.py]), [StreamBridge] ([stream_bridge/memory.py]),
    [RunEvents] (the three stores of [runtime/events/store]), [EventLog] (what
    they promise), [EventStores] (that they keep it).

    Sandbox.  [PosixPaths] ([posixpath] and [pathlib] as the tools use them),
    [Shlex] (splitting and quoting), [SandboxPaths], [SandboxOutput],
    [BashGuard], [SandboxTools] ([sandbox/tools.py]: the policy on paths, on
    output, on commands, and the seven tools over the calls of [SandboxCalls]),
    [LocalSandbox] ([sandbox/local/local_sandbox.py]),
    [FileSearch] ([sandbox/search.py], [sandbox/local/list_dir.py]); the
    theorems are in [BashSafety], [SandboxSafety], [SearchSafety] and
    [OutputSafety].  [FilePaths] ([config/paths.py], [config/runtime_paths.py]):
    the directories of users and threads.  [Uploads] (module [UploadDir]: a
    directory others may change between any two calls; module [Uploads]:
    [uploads/manager.py], [gateway/routers/uploads.py]), [UploadSafety],
    [UploadSpec].

    Long-term memory.  [Memory], one module per file of
    [agents/memory]: [Memory] ([updater.py]: what the model's answer does to the
    remembered facts), [MemoryStore] ([storage.py] and the edits that the router
    offers), [MemoryQueue] ([queue.py], a step relation); [MemoryFacts].

    Guards of the agent.  [CircuitBreaker] ([llm_error_handling_middleware.py]),
    [ToolOutput] and [OutputBudget] ([tool_output_budget_middleware.py]),
    [ToolCalls] ([dangling_tool_call_middleware.py]), [LoopDetection] and
    [LoopGuard] ([loop_detection_middleware.py]), [TokenBudget] and
    [BudgetGuard] ([token_budget_middleware.py]), [ToolResults]
    ([tool_result_meta.py]), [ToolProgress] and [ProgressGuard]
    ([tool_progress_middleware.py]), [WriteGate] and [GateSafety]
    ([read_before_write_middleware.py]), [Delegations] ([status_contract.py],
    [delegation_ledger.py]), [ThreadState] ([thread_state.py]).

    ** How the parts interact

    The gateway is one event loop.  A coroutine is a resumption over the shared
    state [World] (tables, ledger, outbound adapter, idempotency store,
    recorders, locks); it yields at every [await] -- so at every statement the
    repository sends -- and [Coroutines.pool_step] interleaves any number of
    them.  [Operations], [Router], [Tools] and [Scheduler] are programs in that
    monad, composed the way the source composes the functions.  A rely/guarantee
    logic, proved sound for every interleaving, carries the invariant of
    [Guarantee] through each program; [System] draws the conclusions for every
    reachable state.  Objects behind a Python lock ([Ledger], [Metrics],
    [AgentLimits], [Idempotency] in memory, [CircuitBreaker], [StreamBridge],
    [RunManager], [LoopDetection], [TokenBudget], [ToolProgress]) have one
    function per critical section.  The sandbox tools are programs whose every
    call of the provider is a node, so that a theorem speaks of the calls made
    whatever is answered.  A call under the read-before-write gate is a state
    machine with a transition per segment between two awaits.
    [Idempotency.IdempotencyStore] and [RunEvents.RunEventStore] are the
    interfaces their clients are proved against; every store is an instance.

    ** What the theorems show

    - Money.  [Ledger.ledger_conserves_money], [System.service_solvent],
      [Approval.execution_pays_once], [Approval.execution_spec]: no sequence of
      operations, and no interleaving of requests, creates or loses money, and a
      retried execution pays once.
    - Authority.  [System.service_four_eyes], [Approval.four_eyes_enforced],
      [Approval.payload_bound], [Approval.lifecycle_machine],
      [Guardrail.guarded_tool_call]: what is executed was approved by enough
      people other than the requester, for that very payload, along the legal
      transitions; the agent's own calls pass the same gate, fail-closed.
    - Records.  [System.service_keeps_records], [System.service_audit_sound],
      [Chain.appends_never_fork], [Chain.append_event_alone],
      [Chain.chain_tamper_evident]: nothing recorded disappears, concurrent
      appends never fork a chain, and altering a verified chain needs a SHA-256
      collision (the theorem exhibits the two colliding texts).
    - Decisions.  [Decision.decide_resolution_spec],
      [Workflow.case_evaluation_spec], [Reverse.decide_reverse_optimal],
      [Intake.intake_decides_complete], [Tools.reverse_tool_agrees],
      [RiskOps.anomaly_scan_spec]: every branch of the deciders, the optimality
      of the cheapest outcome, the agreement of the two ways to reach it.
    - Stores.  [Idempotency.idempotency_contract],
      [Idempotency.sql_store_refines_memory], [Codec.decision_roundtrip],
      [Metrics.counters_exact], [Observability.retrieval_fails_open],
      [EventStores.event_store_contract], [EventStores.event_stores_agree],
      [Evaluation.score_counts_cases].
    - Scheduling.  [SchedulerFacts.scheduled_runs_capped] over every
      interleaving of pollers, completions and requests, and
      [SchedulerFacts.dispatch_task_spec] for every branch of a dispatch.
    - Runs.  [RunManager.one_live_run], [RunManager.create_or_reject_spec],
      [StreamBridge.stream_reconnect], [StreamBridge.stream_delivery],
      [Retry.retryable_iff_reachable]: one run of a thread at a time, no event
      delivered twice or skipped silently, bounded retries.
    - Sandbox.  [SandboxSafety.sandbox_tools_confined],
      [BashSafety.bash_validation_spec], [BashSafety.prefixes_read_back],
      [LocalSandbox.local_write_confined], [SearchSafety.file_search_spec],
      [OutputSafety.truncations_bounded], [OutputSafety.secrets_masked],
      [FilePaths.threads_kept_apart]: where the tools can read, write and run;
      exactly which commands are accepted; no write below a read-only mount;
      exactly what a search finds; no path in the data of two threads.
    - Uploads.  [UploadSafety.uploads_confined]: whatever happens between two
      calls, no upload writes through a link or into a file known elsewhere;
      [UploadSpec.uploads_stored_or_undone]: every file under a name of its own,
      or none.
    - Memory.  [MemoryFacts.memory_update_spec]: every fact of an updated memory
      is accounted for, and so is every fact that is gone;
      [MemoryFacts.memory_edits_spec]: what each edit stores or refuses;
      [MemoryFacts.load_fresh]: a load never misses a newer file;
      [MemoryFacts.memory_queue_spec]: no scheduled conversation is lost or
      merged with another user's, and the queue drains.
    - Guards.  [GateSafety.write_gate_sound], [GateSafety.write_gate_finishes],
      [ProgressGuard.tool_progress_spec], [LoopGuard.loop_guard_spec],
      [BudgetGuard.token_budget_spec], [BudgetGuard.token_budgets_private],
      [OutputBudget.output_budget_spec], [ToolCalls.repair_spec], [CircuitBreaker.breaker_machine],
      [CircuitBreaker.wrap_model_call_spec], and the theorems of [Delegations]
      and [ThreadState]: a file is changed only at the version that was read,
      however calls interleave; no guard loses a count, leaks another run's, or
      blocks for ever.
    - Limits and errors.  [AgentLimits.tool_caps_enforced],
      [Errors.recovery_policy_sound], [Reverse.lifecycle_settles].

    Several lemmas are counterexamples, on concrete inputs, to what a comment or
    a test promises: [Chain.audit_separator_ambiguous],
    [System.losing_approver_unfunds], [Intake.known_order_reported_missing],
    [CircuitBreaker.lost_probe_wedges], [CircuitBreaker.infinite_retry_after],
    [RunManager.cancelled_unstarted_blocks],
    [RunManager.interrupted_run_starts], [RunManager.history_hidden],
    [RiskOps.uplift_boundary_missed], [EventStores.jsonl_loses_event],
    [EventStores.db_reuses_number], [LoopGuard.frequency_spans_runs],
    [LoopGuard.infinite_line_raises],
    [SchedulerFacts.finished_run_stays_active],
    [SchedulerFacts.skip_of_used_task_fails],
    [BashSafety.redirection_hides_cd], [SandboxSafety.mounts_not_searched],
    [SandboxSafety.disabled_skill_read], [SandboxSafety.replace_in_empty_file],
    [SandboxSafety.replaces_first_of_many], [OutputSafety.marker_shows_secret],
    [OutputSafety.sibling_masked], [LocalFiles.children_listed_twice],
    [GateSafety.shell_between_read_and_mark],
    [ProgressGuard.log_file_blocks_reading], [OutputBudget.preview_tail_grows],
    [OutputBudget.nameless_missed], [FilePaths.bucket_shared],
    [FilePaths.newline_accepted], [UploadSafety.unlinked_before_fstat],
    [UploadSafety.conversion_follows_link],
    [UploadSafety.refused_request_removes],
    [UploadSafety.staging_name_vanishes], [UploadSpec.long_duplicate_fails],
    [MemoryFacts.idless_fact_blocks_merges],
    [MemoryFacts.null_confidence_blocks_updates],
    [MemoryFacts.new_confidence_unbounded], [MemoryFacts.uploads_push_facts_out],
    [MemoryFacts.upload_path_unnoticed], [MemoryFacts.half_a_sentence_left],
    [MemoryFacts.two_zones], [MemoryFacts.save_hides_newer],
    [MemoryFacts.reload_hides_newer], [MemoryFacts.created_fact_lost],
    [MemoryFacts.flushed_messages_lost].

    ** Choices of the model

    - Amounts are integers of cents, instants integers of microseconds (in
      [RunStore] and [RunManager] bare integers: their [isoformat] texts sort the
      same way).  Floats are exact binary64 values without exponent bounds.
    - Strings are UTF-8 bytes; operations by code point split them first.
      Whitespace is Python's; word and digit classes of regular expressions
      beyond ASCII are parameters, and so is [str.lower] of the progress guard.
      [int] and [float] of a text read ASCII digits.
    - A statement of the repository is atomic on the committed state.  The
      idempotency endpoints hold the key's lock, so its store's methods run
      without interruption.  Reserving takes the action's order number, or the
      empty text where it has none.  A failed creation uses up one fresh
      identifier that nothing shows.
    - Bodies are validated by the framework before an endpoint runs; the model
      starts from validated bodies.
    - The guardrail reads its latency from a clock the model does not keep.  A
      tool's answer is the JSON value whose text the source returns.
    - [create_or_reject] keeps the registry's lock while the row is written, so
      it is one function with the outcome of the write as an argument.
    - A token count reported in something other than a dictionary reads as zero.
    - The parser of HTTP dates, part of Python's [email] package, is a parameter
      of [CircuitBreaker].
    - In [Scheduler] what a session reads and what it flushes are separate
      statements, and a claim is one transaction.  The time zone database, the
      cron library and the reading of ISO texts are parameters; starting an
      agent run records the request.  The poller takes its rounds as a number.
    - In the sandbox, [resolve] is a function: links do not change while a tool
      runs.  Lookups of the configuration are values of [SandboxPaths.Host], and
      thread ids are texts.  The lock around the file operations of one path is
      only sequencing.
    - The budget of tool outputs runs over a record of operations of the disk and
      the sandbox, which may fail as they like.  Links, the environment and the
      working directory are parameters of [FilePaths].
    - An upload directory is a map from names to files by number; what others do
      before the [k]-th call, whether that call fails, and how links resolve are
      fields of [UploadDir.Env].  Only the POSIX branch of the exclusive open is
      modelled, handles write through their buffer, and what the document
      converters make of a file is a parameter.
    - The [==] of Python on JSON values is [Evaluation.py_eq]; a literal beyond the
      range of floats is infinite.
    - A search walks a tree of nodes.  Reading bytes as text and the search of a
      regular expression are parameters; [PurePath.match] is the one that
      matches component by component.
    - A memory is the JSON value that [json.load] reads, without a schema.
      [fromisoformat], [casefold], fresh identifiers, the model and the order
      [sorted] gives to facts without comparable confidences are parameters; the
      readings of the clock are arguments.  An integer of more than 4300 digits
      makes an answer malformed.  Looking up a file's time does not fail; what
      other processes do to it between two calls is a parameter of [MemoryStore].
    - The gate's tools and its reader of contents are parameters with the laws
      [GateSafety] states, and [GateSafety.Store] shows that they can hold.

    ** Fuel and bounds

    [append_event] tries eight times, as the source does.  [StreamBridge.drain]
    takes one turn more than the buffer holds; [Retry.search] four times the
    number of exceptions and four; [Delegations.make_room] one turn per line;
    [BashGuard.command_loop] one turn per word; the scanners of [FileSearch],
    [JsonText] and [SandboxOutput] one turn per character or byte; each uses up
    input on every turn.  [Uploads.next_free] takes as many turns as names are
    taken ([UploadSpec.next_free_fresh]), [Uploads.write_chunks] one per byte,
    [UploadDir.first_free] the [TMP_MAX] of [tempfile], [Memory.without_blocks] and
    [Memory.without_uploads] one per character.  Walks over directories recur on the tree.  [Coroutines.run]
    and the demonstrations take the number of segments as an argument, and the
    theorems that need an answer prove that there is one.

    ** Not modelled

    - The MCP transport of [knowledge.py], a library, and the bind-mount paths of
      [config/paths.py], which may be in Windows form.
    - The gateway's wiring, authentication, permission decorators and its other
      routers: they call FastAPI and the harness.
    - Of [worker.py] only the steps on the registry: streaming a LangGraph graph,
      checkpoints and the journal are calls of that library; the SQL run store
      and the Redis bridge are clients of external services.
    - Running a process in the local sandbox, the other sandbox providers,
      skills, MCP servers, channels and the remaining middlewares: processes,
      network and model calls.
    - Of the memory, the prompts sent to the model beyond their variable sections,
      and what the agent's own prompt says of it, which counts tokens with a
      library.
    - The frontend. *)
From stdpp Require Export prelude gmap strings list pretty sorting.
From Stdlib Require Export ZArith Lia Ascii.
#[export] Set Default Goal Selector "!".
Open Scope Z_scope.

Declare Scope afterflow_scope.
Delimit Scope afterflow_scope with af.
Open Scope afterflow_scope.

(** ** Automation *)

Create HintDb afterflow.
Create Rewrite HintDb afterflow.

(** Case analysis on the scrutinee of a [match] or [if] of the goal or of a
    hypothesis, keeping the equation. *)
Ltac case_in_goal :=
  match goal with
  | |- context [match ?e with _ => _ end] =>
      lazymatch e with
      | context [match _ with _ => _ end] => fail
      | _ => let E := fresh "E" in destruct e eqn:E
      end
  end.

Ltac case_in H :=
  match type of H with
  | context [match ?e with _ => _ end] =>
      lazymatch e with
      | context [match _ with _ => _ end] => fail
      | _ => let E := fresh "E" in destruct e eqn:E
      end
  end.

(** Turns boolean comparisons of the code into propositions. *)
Ltac bprop :=
  repeat match goal with
  | H : (_ && _) = true |- _ => apply andb_true_iff in H as [? ?]
  | H : (_ || _) = false |- _ => apply orb_false_iff in H as [? ?]
  | H : negb _ = true |- _ => apply negb_true_iff in H
  | H : negb _ = false |- _ => apply negb_false_iff in H
  | H : (_ <? _) = true |- _ => apply Z.ltb_lt in H
  | H : (_ <? _) = false |- _ => apply Z.ltb_ge in H
  | H : (_ <=? _) = true |- _ => apply Z.leb_le in H
  | H : (_ <=? _) = false |- _ => apply Z.leb_gt in H
  | H : (_ =? _) = true |- _ => apply Z.eqb_eq in H
  | H : (_ =? _) = false |- _ => apply Z.eqb_neq in H
  | H : bool_decide _ = true |- _ => apply bool_decide_eq_true in H
  | H : bool_decide _ = false |- _ => apply bool_decide_eq_false in H
  | H : (_ =? _)%string = true |- _ => apply String.eqb_eq in H
  | H : (_ =? _)%string = false |- _ => apply String.eqb_neq in H
  end.

(** ** Lists *)

Section lists.
Context {A : Type}.
Implicit Types (l : list A) (f : A -> bool).

(** Update of every element that satisfies [f]: what a SQL
[UPDATE ... WHERE] does to a table. *)
Definition map_where f (g : A -> A) l : list A :=
map (fun x => if f x then g x else x) l.

Lemma length_map_where f g l : length (map_where f g l) = length l.
Proof. apply length_map. Qed.

Lemma map_where_none f g l :
List.filter f l = [] -> map_where f g l = l.
Proof.
induction l as [|x l IH]; simpl; [done|].
destruct (f x); [done|]. intros H. by rewrite IH.
Qed.

Lemma elem_of_map_where f g l y :
y ∈ map_where f g l <-> exists x, x ∈ l /\ y = if f x then g x else x.
Proof. unfold map_where. rewrite list_elem_of_fmap. naive_solver. Qed.

Lemma filter_perm f l1 l2 : l1 ≡ₚ l2 -> List.filter f l1 ≡ₚ List.filter f l2.
Proof.
induction 1; simpl; [done| | |by etransitivity].
- destruct (f x); [by constructor|done].
- destruct (f x), (f y); try done. constructor.
Qed.

Lemma filter_elem f l x : x ∈ List.filter f l <-> x ∈ l /\ f x = true.
Proof. by rewrite !list_elem_of_In, filter_In. Qed.

Lemma filter_filter f g l : List.filter f (List.filter g l) = List.filter (fun x => g x && f x) l.
Proof. induction l as [|x l IH]; [done|]. cbn. destruct (g x); cbn; [|done]. by rewrite IH. Qed.

Lemma filter_none f l : (forall x, x ∈ l -> f x = false) -> List.filter f l = [].
Proof.
  induction l as [|x l IH]; [done|]. intros H. cbn. rewrite (H x ltac:(left)). apply IH. intros y Hy. apply H. by right.
Qed.

Lemma map_filter_nodup {B} (g : A -> B) f l : NoDup (map g l) -> NoDup (map g (List.filter f l)).
Proof.
induction l as [|x l IH]; simpl; [done|]. intros [N1 N2]%NoDup_cons.
destruct (f x); simpl; [|auto]. apply NoDup_cons. split; [|auto].
intros (y&E&Y)%list_elem_of_fmap. apply filter_elem in Y as [Y _].
destruct N1. rewrite E. apply list_elem_of_fmap. by exists y.
Qed.
End lists.

(** The element of [l] chosen by [pick], if any; [List.find] with its two
    elimination lemmas under one name. *)
Lemma find_some_elem {A} (f : A -> bool) l x :
  List.find f l = Some x -> x ∈ l /\ f x = true.
Proof. intros H%find_some. by rewrite list_elem_of_In. Qed.

Lemma find_none_elem {A} (f : A -> bool) l x :
  List.find f l = None -> x ∈ l -> f x = false.
Proof. intros H Hx. eapply find_none; [done|]. by apply list_elem_of_In. Qed.

Lemma find_app {A} (f : A -> bool) l1 l2 :
  List.find f (l1 ++ l2) =
  match List.find f l1 with Some x => Some x | None => List.find f l2 end.
Proof. induction l1 as [|x l1 IH]; simpl; [done|]. by destruct (f x). Qed.

(** Lookup by a key that the update leaves alone. *)
Lemma find_map_where {A} (f cond : A -> bool) (g : A -> A) l :
  (forall x, cond x = true -> f (g x) = f x) ->
  List.find f (map_where cond g l)
  = option_map (fun x => if cond x then g x else x) (List.find f l).
Proof.
  intros H. induction l as [|x l IH]; simpl; [done|].
  destruct (cond x) eqn:C; simpl.
  - rewrite H by done. destruct (f x); simpl; [by rewrite C|done].
  - destruct (f x); simpl; [by rewrite C|done].
Qed.

(** [list(dict.fromkeys(l))]: the first occurrence of every element. *)
Section fromkeys.
Context {A : Type} `{EqDecision A}.
Implicit Types (l : list A).

Definition add_key l (x : A) : list A := if decide (x ∈ l) then l else l ++ [x].
Definition fromkeys l : list A := foldl add_key [] l.

Lemma add_key_nodup l x : NoDup l -> NoDup (add_key l x).
Proof.
intros N. unfold add_key. destruct (decide (x ∈ l)); [done|].
apply NoDup_app. split_and!; [done| |apply NoDup_singleton]. set_solver.
Qed.

Lemma elem_of_add_key l x y : y ∈ add_key l x <-> y ∈ l \/ y = x.
Proof. unfold add_key. destruct (decide (x ∈ l)); set_solver. Qed.

Lemma fold_keys_nodup l' : forall l, NoDup l -> NoDup (foldl add_key l l').
Proof. induction l' as [|x l' IH]; intros l N; simpl; [done|]. by apply IH, add_key_nodup. Qed.

Lemma fromkeys_nodup l : NoDup (fromkeys l).
Proof. apply fold_keys_nodup. constructor. Qed.

Lemma elem_of_fold_keys l' : forall l y, y ∈ foldl add_key l l' <-> y ∈ l \/ y ∈ l'.
Proof.
induction l' as [|x l' IH]; intros l y; simpl; [set_solver|]. rewrite IH, elem_of_add_key. set_solver.
Qed.

Lemma elem_of_fromkeys l y : y ∈ fromkeys l <-> y ∈ l.
Proof. unfold fromkeys. rewrite elem_of_fold_keys. set_solver. Qed.

Lemma fold_keys_fresh l' : forall l, NoDup (l ++ l') -> foldl add_key l l' = l ++ l'.
Proof.
induction l' as [|x l' IH]; intros l N; simpl; [by rewrite app_nil_r|].
unfold add_key. rewrite decide_False.
- rewrite IH; by rewrite <-app_assoc.
- apply NoDup_app in N as (_&N&_). intros Hx. apply (N x Hx). left.
Qed.

Lemma fromkeys_id l : NoDup l -> fromkeys l = l.
Proof. intros N. by apply (fold_keys_fresh l []). Qed.

Lemma fromkeys_app l l' : NoDup l -> fromkeys (l ++ l') = foldl add_key l l'.
Proof. intros N. unfold fromkeys. rewrite foldl_app. f_equal. by apply fromkeys_id. Qed.

Lemma fold_keys_known l' : forall l, (forall x, x ∈ l' -> x ∈ l) -> foldl add_key l l' = l.
Proof.
induction l' as [|x l' IH]; intros l N; simpl; [done|]. unfold add_key at 2.
rewrite decide_True by (apply N; left). apply IH. intros y Hy. apply N. by right.
Qed.
End fromkeys.

(** Python's [sum] of a mapped list. *)
Definition sumZ {A} (f : A -> Z) (l : list A) : Z :=
  foldr (fun x acc => f x + acc) 0 l.

Lemma sumZ_app {A} (f : A -> Z) l1 l2 :
  sumZ f (l1 ++ l2) = sumZ f l1 + sumZ f l2.
Proof. induction l1; simpl; lia. Qed.

Lemma sumZ_nonneg {A} (f : A -> Z) l :
  (forall x, x ∈ l -> 0 <= f x) -> 0 <= sumZ f l.
Proof.
  induction l as [|x l IH]; simpl; intros H; [done|].
  specialize (IH (fun y Hy => H y (list_elem_of_further _ _ _ Hy))).
  specialize (H x (list_elem_of_here _ _)). lia.
Qed.

Lemma StronglySorted_filter {A} (R : A -> A -> Prop) (f : A -> bool) l :
  StronglySorted R l -> StronglySorted R (List.filter f l).
Proof.
  induction 1 as [|x l S IH F]; simpl; [constructor|]. destruct (f x); [|done].
  constructor; [done|]. rewrite Forall_forall. intros y [Hy _]%filter_elem.
  by eapply Forall_forall in F.
Qed.

(** ** Stable sorting

    Python's [sorted] and SQL's [ORDER BY ... , id]: elements with equal keys
    keep their order. *)
Section sort.
Context {A : Type} (le : A -> A -> bool).

Fixpoint insert_sorted (x : A) (l : list A) : list A :=
match l with
| [] => [x]
| y :: l' => if le x y then x :: l else y :: insert_sorted x l'
end.

Definition stable_sort (l : list A) : list A := foldr insert_sorted [] l.

Lemma insert_sorted_perm x l : insert_sorted x l ≡ₚ x :: l.
Proof.
induction l as [|y l IH]; simpl; [done|]. destruct (le x y); [done|].
rewrite IH. constructor.
Qed.

Lemma stable_sort_perm l : stable_sort l ≡ₚ l.
Proof. induction l as [|x l IH]; simpl; [done|]. by rewrite insert_sorted_perm, IH. Qed.

(** A list already in order is left alone. *)
Lemma stable_sort_id l : StronglySorted (fun x y => le x y = true) l -> stable_sort l = l.
Proof.
induction 1 as [|x l _ IH F]; simpl; [done|]. rewrite IH.
destruct l as [|y l]; [done|]. simpl. apply Forall_cons in F as [F _]. by rewrite F.
Qed.

Context (le_total : forall x y, le x y = true \/ le y x = true)
    (le_trans : forall x y z, le x y = true -> le y z = true -> le x z = true).

Lemma insert_sorted_sorted x l :
StronglySorted (fun x y => le x y = true) l ->
StronglySorted (fun x y => le x y = true) (insert_sorted x l).
Proof.
induction 1 as [|y l S IH F]; simpl; [by repeat constructor|].
destruct (le x y) eqn:E.
- constructor; [by constructor|]. constructor; [done|].
eapply Forall_impl; [exact F|]. intros z Hz. by eapply le_trans.
- constructor; [done|]. rewrite Forall_forall. intros z.
rewrite insert_sorted_perm, elem_of_cons. intros [->|Hz].
+ destruct (le_total x y); congruence.
+ by eapply Forall_forall in F.
Qed.

Lemma stable_sort_sorted l : StronglySorted (fun x y => le x y = true) (stable_sort l).
Proof. induction l; simpl; [constructor|by apply insert_sorted_sorted]. Qed.
End sort.
