(* ===== verification/Sha256.v ===== *)
(** * SHA-256

    The digest of [hashlib.sha256(...).hexdigest()] (FIPS 180-4), computed on
    the bytes of a UTF-8 string.  Every fingerprint of the program (payload
    hash, business idempotency key, request fingerprint, tool-argument
    fingerprint, event hash, transaction reference) goes through it.  It is
    kept concrete so that every fingerprint of a concrete value evaluates;
    no theorem assumes that it is injective, and those that need two inputs
    to agree conclude with an explicit collision instead. *)
From S2P Require Import Prelude.

Module Sha256.

Definition mask32 : Z := 4294967295.
Definition add32 (x y : Z) : Z := Z.land (x + y) mask32.
Definition rotr (n x : Z) : Z :=
  Z.lor (Z.shiftr x n) (Z.land (Z.shiftl x (32 - n)) mask32).
Definition lnot32 (x : Z) : Z := Z.lxor x mask32.

Definition bsig0 x := Z.lxor (rotr 2 x) (Z.lxor (rotr 13 x) (rotr 22 x)).
Definition bsig1 x := Z.lxor (rotr 6 x) (Z.lxor (rotr 11 x) (rotr 25 x)).
Definition ssig0 x := Z.lxor (rotr 7 x) (Z.lxor (rotr 18 x) (Z.shiftr x 3)).
Definition ssig1 x := Z.lxor (rotr 17 x) (Z.lxor (rotr 19 x) (Z.shiftr x 10)).
Definition ch x y z := Z.lxor (Z.land x y) (Z.land (lnot32 x) z).
Definition maj x y z := Z.lxor (Z.land x y) (Z.lxor (Z.land x z) (Z.land y z)).

Definition round_constants : list Z :=
  [1116352408; 1899447441; 3049323471; 3921009573; 961987163; 1508970993;
   2453635748; 2870763221; 3624381080; 310598401; 607225278; 1426881987;
   1925078388; 2162078206; 2614888103; 3248222580; 3835390401; 4022224774;
   264347078; 604807628; 770255983; 1249150122; 1555081692; 1996064986;
   2554220882; 2821834349; 2952996808; 3210313671; 3336571891; 3584528711;
   113926993; 338241895; 666307205; 773529912; 1294757372; 1396182291;
   1695183700; 1986661051; 2177026350; 2456956037; 2730485921; 2820302411;
   3259730800; 3345764771; 3516065817; 3600352804; 4094571909; 275423344;
   430227734; 506948616; 659060556; 883997877; 958139571; 1322822218;
   1537002063; 1747873779; 1955562222; 2024104815; 2227730452; 2361852424;
   2428436474; 2756734187; 3204031479; 3329325298].

Definition initial_hash : list Z :=
  [1779033703; 3144134277; 1013904242; 2773480762; 1359893119; 2600822924;
   528734635; 1541459225].

(** Message schedule; the list is kept most recent word first. *)
Fixpoint schedule (n : nat) (w : list Z) : list Z :=
  match n with
  | O => rev w
  | S n =>
      let t := add32 (add32 (ssig1 (nth 1 w 0)) (nth 6 w 0))
                     (add32 (ssig0 (nth 14 w 0)) (nth 15 w 0)) in
      schedule n (t :: w)
  end.

Definition round (st : list Z) (kw : Z * Z) : list Z :=
  match st with
  | [a; b; c; d; e; f; g; h] =>
      let t1 := add32 (add32 h (bsig1 e)) (add32 (ch e f g) (add32 kw.1 kw.2)) in
      let t2 := add32 (bsig0 a) (maj a b c) in
      [add32 t1 t2; a; b; c; add32 d t1; e; f; g]
  | _ => st
  end.

Definition compress (st block : list Z) : list Z :=
  let w := schedule 48 (rev block) in
  zip_with add32 st (foldl round st (zip round_constants w)).

Definition byte_of (c : ascii) : Z := Z.of_N (N_of_ascii c).

(** Padding to a multiple of 64 bytes with the 64-bit bit length. *)
Definition pad (bytes : list Z) : list Z :=
  let len := Z.of_nat (length bytes) in
  let zeros := Z.to_nat ((55 - len) mod 64) in
  bytes ++ [0x80] ++ repeat 0 zeros ++
  map (fun i => Z.land (Z.shiftr (8 * len) (8 * Z.of_nat i)) 0xff) (rev (seq 0 8)).

Fixpoint words (bytes : list Z) : list Z :=
  match bytes with
  | a :: b :: c :: d :: rest =>
      Z.lor (Z.shiftl a 24) (Z.lor (Z.shiftl b 16) (Z.lor (Z.shiftl c 8) d)) :: words rest
  | _ => []
  end.

(** One block of sixteen words at a time; the fuel is the number of words. *)
Fixpoint blocks (fuel : nat) (ws st : list Z) : list Z :=
  match fuel, ws with
  | S fuel, _ :: _ => blocks fuel (drop 16 ws) (compress st (take 16 ws))
  | _, _ => st
  end.

Definition hex_digit (n : Z) : ascii :=
  ascii_of_N (Z.to_N (if n <? 10 then 48 + n else 87 + n)).

Definition hex32 (w : Z) : string :=
  foldr (fun i s => String (hex_digit (Z.land (Z.shiftr w (4 * i)) 0xf)) s) ""
        [7; 6; 5; 4; 3; 2; 1; 0].

Definition sha256 (s : string) : string :=
  let ws := words (pad (map byte_of (String.list_ascii_of_string s))) in
  foldr (fun w acc => hex32 w +:+ acc) "" (blocks (length ws) ws initial_hash).

#[global] Arguments sha256 : simpl never.

(** Two different inputs with the same digest. *)
Definition collision (s1 s2 : string) : Prop := s1 <> s2 /\ sha256 s1 = sha256 s2.

Lemma sha256_eq_or_collision s1 s2 :
  sha256 s1 = sha256 s2 -> s1 = s2 \/ collision s1 s2.
Proof. intros H. destruct (decide (s1 = s2)); [by left|by right]. Qed.

(** The FIPS 180-4 test vectors. *)
Example sha256_empty :
  sha256 "" = "e3b0c44298fc1c149afbf4c8996fb92427ae41e4649b934ca495991b7852b855".
Proof. vm_compute. reflexivity. Qed.

Example sha256_abc :
  sha256 "abc" = "ba7816bf8f01cfea414140de5dae2223b00361a396177a9cb410ff61f20015ad".
Proof. vm_compute. reflexivity. Qed.

Example sha256_two_blocks :
  sha256 "abcdbcdecdefdefgefghfghighijhijkijkljklmklmnlmnomnopnopq"
  = "248d6a61d20638b8e5c026930c3e6039a33ce45964ff2167f6ecedd419db06c1".
Proof. vm_compute. reflexivity. Qed.

End Sha256.
