(* ===== verification/Json.v ===== *)
(** * JSON values and Python's canonical [json.dumps]

    Python dictionaries, lists and scalars that the program stores, hashes or
    returns.  [dumps] is
    [json.dumps(v, ensure_ascii=False, sort_keys=True, separators=(",", ":"))],
    the encoding below every fingerprint of the program; strings are the
    UTF-8 bytes of the Python [str]. *)
From S2P Require Import Prelude Sha256.
Import Sha256.

#[export] Set Warnings "-register-all".

Module Json.

(** A dictionary keeps its insertion order; a float carries the text of its
    [repr], which is what [json.dumps] prints. *)
Inductive json :=
| JNull
| JBool (b : bool)
| JInt (z : Z)
| JFloat (repr : string)
| JStr (s : string)
| JList (l : list json)
| JObj (kvs : list (string * json)).

Abbreviation dict := (list (string * json)).

(** [d.get(k)] *)
Definition get (k : string) (d : dict) : option json :=
  option_map snd (List.find (fun kv => (kv.1 =? k)%string) d).

(** [{**d, k: v}] / [d[k] = v]: an existing key keeps its place. *)
Definition set_key (k : string) (v : json) (d : dict) : dict :=
  match get k d with
  | Some _ => map_where (fun kv => (kv.1 =? k)%string) (fun kv => (kv.1, v)) d
  | None => d ++ [(k, v)]
  end.

Definition jopt (o : option string) : json :=
  match o with Some s => JStr s | None => JNull end.

(** Python truth value. *)
Definition truthy (j : json) : bool :=
  match j with
  | JNull => false
  | JBool b => b
  | JInt z => negb (z =? 0)
  | JFloat r => negb (bool_decide (r ∈ ["0.0"; "-0.0"]))
  | JStr s => negb (s =? "")%string
  | JList l => negb (bool_decide (length l = 0%nat))
  | JObj kvs => negb (bool_decide (length kvs = 0%nat))
  end.

(** ** Printing *)

(** Escape of one byte inside a string literal (control characters below
    0x20, the quote and the backslash; everything else is copied). *)
Definition quote : string := String (ascii_of_N 34) "".
Definition backslash : string := String (ascii_of_N 92) "".

Definition esc_char (c : ascii) : string :=
  let n := N_of_ascii c in
  if (n =? 34)%N then backslash +:+ quote else
  if (n =? 92)%N then backslash +:+ backslash else
  if (n =? 10)%N then backslash +:+ "n" else
  if (n =? 13)%N then backslash +:+ "r" else
  if (n =? 9)%N then backslash +:+ "t" else
  if (n =? 8)%N then backslash +:+ "b" else
  if (n =? 12)%N then backslash +:+ "f" else
  if (n <? 32)%N then
    backslash +:+ ("u00" +:+
      String (hex_digit (Z.of_N (n / 16))) (String (hex_digit (Z.of_N (n mod 16))) ""))
  else String c "".

Fixpoint escape (s : string) : string :=
  match s with
  | EmptyString => ""
  | String c s => esc_char c +:+ escape s
  end.

Definition quoted (s : string) : string := quote +:+ (escape s +:+ quote).

Definition join (sep : string) (l : list string) : string :=
  match l with
  | [] => ""
  | x :: l => x +:+ foldr (fun y acc => sep +:+ (y +:+ acc)) "" l
  end.

(** [json.dumps(j, ensure_ascii=False, separators=(",", ":"))] *)
Fixpoint print (j : json) : string :=
  match j with
  | JNull => "null"
  | JBool true => "true"
  | JBool false => "false"
  | JInt z => pretty z
  | JFloat r => r
  | JStr s => quoted s
  | JList l => "[" +:+ (join "," (map print l) +:+ "]")
  | JObj kvs =>
      "{" +:+ (join "," (map (fun kv => quoted kv.1 +:+ (":" +:+ print kv.2)) kvs) +:+ "}")
  end.

(** [sort_keys=True]: items are emitted in the order of their keys
    (code-point order, which UTF-8 byte order refines), at every depth. *)
Definition key_le (a b : string * json) : Prop := String.le a.1 b.1.
#[export] Instance key_le_dec : RelDecision key_le := fun a b => String.le_dec a.1 b.1.

Fixpoint sort_keys (j : json) : json :=
  match j with
  | JList l => JList (map sort_keys l)
  | JObj kvs => JObj (merge_sort key_le (map (fun kv => (kv.1, sort_keys kv.2)) kvs))
  | _ => j
  end.

Definition dumps (j : json) : string := print (sort_keys j).

(** [hashlib.sha256(dumps(d).encode()).hexdigest()] *)
Definition fingerprint (d : dict) : string := sha256 (dumps (JObj d)).

Example dumps_example :
  dumps (JObj [("order_id", JStr "ORDER-1001"); ("amount", JInt 90900)])
  = "{" +:+ quoted "amount" +:+ ":90900," +:+ quoted "order_id" +:+ ":"
    +:+ quoted "ORDER-1001" +:+ "}".
Proof. vm_compute. reflexivity. Qed.

Example fingerprint_example :
  fingerprint [("order_id", JStr "ORDER-1001"); ("amount", JInt 90900)]
  = "1676576afd3d94e5b3cb46c2565415e628d70c80aeb7a80c0be6a46ea1781c8c".
Proof. vm_compute. reflexivity. Qed.

(** ** Well-formed values

    A [repr] text is made of token characters and is no integer literal or
    constant; the keys of a dictionary are distinct. *)
Definition tok (c : ascii) : bool :=
  let n := N_of_ascii c in
  ((48 <=? n) && (n <=? 57) || (65 <=? n) && (n <=? 90) ||
   (97 <=? n) && (n <=? 122) || (n =? 43) || (n =? 45) || (n =? 46))%N.
Definition intchar (c : ascii) : bool :=
  let n := N_of_ascii c in ((48 <=? n) && (n <=? 57) || (n =? 45))%N.

Fixpoint all_chars (f : ascii -> bool) (s : string) : bool :=
  match s with EmptyString => true | String c s => f c && all_chars f s end.

Definition float_repr_ok (r : string) : bool :=
  all_chars tok r && negb (all_chars intchar r) &&
  negb (bool_decide (r ∈ ["null"; "true"; "false"])).

Fixpoint jwf (j : json) : bool :=
  match j with
  | JFloat r => float_repr_ok r
  | JList l => forallb jwf l
  | JObj kvs => bool_decide (NoDup (map fst kvs)) && forallb (fun kv => jwf kv.2) kvs
  | _ => true
  end.

(** The text of a value that is neither string, list nor dictionary. *)
Definition scalar (j : json) : bool :=
  match j with JStr _ | JList _ | JObj _ => false | _ => true end.

(** What can follow a printed value: nothing, or a character outside the
    token alphabet. *)
Definition stops (r : string) : bool :=
  match r with EmptyString => true | String c _ => negb (tok c) end.

(** ** The printer is unambiguous *)

Lemma sapp_cons c s t : String c s +:+ t = String c (s +:+ t).
Proof. done. Qed.

Lemma sapp_nil s : "" +:+ s = s.
Proof. done. Qed.

Lemma sapp_assoc s t u : (s +:+ t) +:+ u = s +:+ (t +:+ u).
Proof. induction s; [done|]. rewrite !sapp_cons. by f_equal. Qed.

Lemma sapp_nil_r s : s +:+ "" = s.
Proof. induction s; [done|]. rewrite sapp_cons. by f_equal. Qed.

Lemma span_inj f s1 s2 r1 r2 :
  all_chars f s1 = true -> all_chars f s2 = true ->
  match r1 with EmptyString => true | String c _ => negb (f c) end = true ->
  match r2 with EmptyString => true | String c _ => negb (f c) end = true ->
  s1 +:+ r1 = s2 +:+ r2 -> s1 = s2 /\ r1 = r2.
Proof.
  revert s2. induction s1 as [|c s1 IH]; intros [|c2 s2]; simpl;
    intros H1 H2 Hr1 Hr2; rewrite ?sapp_nil, ?sapp_cons; intros E; simplify_eq; simpl in *.
  - done.
  - bprop. congruence.
  - bprop. congruence.
  - bprop. edestruct IH as [-> ->]; done.
Qed.

(** Decoder of one escaped character, the left inverse of [esc_char]. *)
Definition hex_value (c : ascii) : N :=
  let n := N_of_ascii c in (if n <? 58 then n - 48 else n - 87)%N.

Definition unesc_char (s : string) : option (ascii * string) :=
  match s with
  | EmptyString => None
  | String c r =>
      if (N_of_ascii c =? 92)%N then
        match r with
        | EmptyString => None
        | String e r =>
            match N_of_ascii e with
            | 110%N => Some (ascii_of_N 10, r)
            | 114%N => Some (ascii_of_N 13, r)
            | 116%N => Some (ascii_of_N 9, r)
            | 98%N => Some (ascii_of_N 8, r)
            | 102%N => Some (ascii_of_N 12, r)
            | 117%N =>
                match r with
                | String _ (String _ (String h (String l r))) =>
                    Some (ascii_of_N (16 * hex_value h + hex_value l), r)
                | _ => None
                end
            | _ => Some (e, r)
            end
        end
      else Some (c, r)
  end.

Lemma unesc_esc c r : unesc_char (esc_char c +:+ r) = Some (c, r).
Proof. by destruct c as [[] [] [] [] [] [] [] []]. Qed.

Lemma esc_char_inj c1 c2 r1 r2 :
  esc_char c1 +:+ r1 = esc_char c2 +:+ r2 -> c1 = c2 /\ r1 = r2.
Proof.
  intros H. apply (f_equal unesc_char) in H.
  rewrite !unesc_esc in H. by simplify_eq.
Qed.

Lemma esc_char_not_quote c r1 r2 : esc_char c +:+ r1 <> quote +:+ r2.
Proof. by destruct c as [[] [] [] [] [] [] [] []]. Qed.

Lemma quoted_inj s1 s2 r1 r2 :
  quoted s1 +:+ r1 = quoted s2 +:+ r2 -> s1 = s2 /\ r1 = r2.
Proof.
  unfold quoted. rewrite !sapp_assoc. intros H%(inj _).
  revert s2 H. induction s1 as [|c s1 IH]; intros [|c2 s2]; simpl;
    rewrite ?sapp_nil, ?sapp_assoc; intros H.
  - by apply (inj _) in H.
  - by symmetry in H; apply esc_char_not_quote in H.
  - by apply esc_char_not_quote in H.
  - apply esc_char_inj in H as [-> H]. by apply IH in H as [-> ->].
Qed.

(** *** Scalars *)

Lemma pretty_N_char_digit x : intchar (pretty_N_char (x mod 10)) = true.
Proof.
  assert (x mod 10 < 10)%N as H by (apply N.mod_lt; lia).
  revert H. generalize (x mod 10)%N as d. intros d H.
  destruct d as [|p]; [done|].
  do 4 (destruct p as [p|p|]; try done; try lia).
Qed.

Lemma pretty_N_go_intchars x s :
  all_chars intchar s = true -> all_chars intchar (pretty_N_go x s) = true.
Proof.
  revert s. induction (N.lt_wf_0 x) as [x _ IH]. intros s Hs.
  destruct (decide (x = 0%N)) as [->|Hx]; [by rewrite pretty_N_go_0|].
  rewrite pretty_N_go_step by lia. apply IH; [apply N.div_lt; lia|].
  simpl. by rewrite pretty_N_char_digit.
Qed.

Lemma pretty_N_intchars (n : N) : all_chars intchar (pretty n) = true.
Proof.
  unfold pretty, pretty_N. destruct (decide _); [done|].
  by apply pretty_N_go_intchars.
Qed.

Lemma pretty_Z_intchars (z : Z) : all_chars intchar (pretty z) = true.
Proof.
  destruct z as [|p|p]; [done| |].
  - apply (pretty_N_intchars (Npos p)).
  - change (pretty (Z.neg p)) with (String "-" (pretty (Npos p))).
    simpl. apply pretty_N_intchars.
Qed.

Lemma all_chars_mono (f g : ascii -> bool) s :
  (forall c, f c = true -> g c = true) -> all_chars f s = true -> all_chars g s = true.
Proof. induction s; simpl; [done|]. intros. bprop. rewrite H; auto. Qed.

Lemma intchar_tok c : intchar c = true -> tok c = true.
Proof. by destruct c as [[] [] [] [] [] [] [] []]. Qed.

Lemma scalar_tok j : scalar j = true -> jwf j = true -> all_chars tok (print j) = true.
Proof.
  destruct j as [|[]|z|r| | |]; simpl; intros; try done.
  - eapply all_chars_mono, pretty_Z_intchars. apply intchar_tok.
  - unfold float_repr_ok in *. by bprop.
Qed.

Lemma scalar_inj j1 j2 :
  scalar j1 = true -> scalar j2 = true -> jwf j1 = true -> jwf j2 = true ->
  print j1 = print j2 -> j1 = j2.
Proof.
  assert (forall (z : Z) r, pretty z = r -> float_repr_ok r = true -> False) as Hf.
  { intros z r <-. unfold float_repr_ok. intros. bprop.
    by rewrite pretty_Z_intchars in *. }
  assert (forall (z : Z) r, pretty z = r -> all_chars intchar r = true) as Hz.
  { intros z r <-. apply pretty_Z_intchars. }
  assert (forall r, float_repr_ok r = true -> r <> "null" /\ r <> "true" /\ r <> "false") as Hc.
  { unfold float_repr_ok. intros r Hr. by repeat split; intros ->. }
  destruct j1 as [|[]|z|r| | |], j2 as [|[]|z2|r2| | |]; simpl; intros S1 S2 W1 W2 E;
    try done.
  all: try match goal with
  | |- JInt _ = JInt _ => by f_equal; apply (inj pretty)
  | |- JFloat _ = JFloat _ => by f_equal
  end.
  all: try by (apply Hz in E).
  all: try by (symmetry in E; apply Hz in E).
  all: try by (destruct (Hf _ _ E W2)).
  all: try by (symmetry in E; destruct (Hf _ _ E W1)).
  all: try by (destruct (Hc _ W2) as (?&?&?); congruence).
  all: by (destruct (Hc _ W1) as (?&?&?); congruence).
Qed.

Lemma pretty_N_go_nonempty x s :
  (0 < x)%N \/ s <> "" -> pretty_N_go x s <> "".
Proof.
  revert s. induction (N.lt_wf_0 x) as [x _ IH]. intros s Hs.
  destruct (decide (x = 0%N)) as [->|Hx].
  - rewrite pretty_N_go_0. destruct Hs; [lia|done].
  - rewrite pretty_N_go_step by lia. apply IH; [apply N.div_lt; lia|]. by right.
Qed.

Lemma scalar_nonempty j : scalar j = true -> jwf j = true -> print j <> "".
Proof.
  destruct j as [|[]|z|r| | |]; simpl; intros S W; try done.
  - destruct z as [|p|p]; [done| |].
    + change (pretty (Npos p) <> ""). unfold pretty, pretty_N.
      destruct (decide _); [done|]. apply pretty_N_go_nonempty. by left.
    + change (String "-" (pretty (Npos p)) <> ""). done.
  - intros ->. done.
Qed.

(** *** Sequences *)

Section sequences.
Context {A : Type} (f : A -> string) (close : ascii).
Context (Hclose : tok close = false) (Hcomma : close <> ","%char).

Let tail (l : list A) : string :=
foldr (fun y acc => "," +:+ (y +:+ acc)) "" (map f l).

Lemma tail_stops l r : stops (tail l +:+ String close r) = true.
Proof using Hclose. destruct l; simpl; [by rewrite Hclose|done]. Qed.

Definition separates (x y : A) : Prop :=
forall r r', stops r = true -> stops r' = true ->
f x +:+ r = f y +:+ r' -> x = y /\ r = r'.

Lemma tail_inj l1 l2 r1 r2 :
(forall x y, x ∈ l1 -> y ∈ l2 -> separates x y) ->
tail l1 +:+ String close r1 = tail l2 +:+ String close r2 -> l1 = l2 /\ r1 = r2.
Proof using Hclose Hcomma.
revert l2. induction l1 as [|x l1 IH]; intros [|y l2] Hsep; simpl;
rewrite ?sapp_nil, ?sapp_cons, ?sapp_nil, ?sapp_assoc; intros E.
- by injection E.
- by injection E as E _.
- by injection E as E _.
- injection E as E. rewrite ?sapp_nil, ?sapp_assoc in E.
destruct (Hsep x y (list_elem_of_here _ _) (list_elem_of_here _ _)
            _ _ (tail_stops _ _) (tail_stops _ _) E) as [-> E'].
apply IH in E' as [-> ->]; eauto using list_elem_of_further.
Qed.

Lemma join_inj l1 l2 r1 r2 :
(forall x y, x ∈ l1 -> y ∈ l2 -> separates x y) ->
(forall x r r', x ∈ l1 ++ l2 -> f x +:+ r <> String close r') ->
join "," (map f l1) +:+ String close r1 = join "," (map f l2) +:+ String close r2 ->
l1 = l2 /\ r1 = r2.
Proof using Hclose Hcomma.
destruct l1 as [|x l1], l2 as [|y l2]; intros Hsep Hne; simpl;
rewrite ?sapp_nil, ?sapp_assoc; intros E.
- by simplify_eq.
- symmetry in E. apply Hne in E; [done|set_solver].
- apply Hne in E; [done|set_solver].
- destruct (Hsep x y (list_elem_of_here _ _) (list_elem_of_here _ _)
            _ _ (tail_stops _ _) (tail_stops _ _) E) as [-> E'].
apply tail_inj in E' as [-> ->]; [done|].
eauto using list_elem_of_further.
Qed.
End sequences.

(** *** Values *)

(** The first character tells the kind of the value. *)
Definition kind (j : json) : nat :=
  match j with JStr _ => 1 | JList _ => 2 | JObj _ => 3 | _ => 0 end.

Definition kind_of_first (s : string) : nat :=
  match s with
  | String c _ =>
      if (N_of_ascii c =? 34)%N then 1 else
      if (N_of_ascii c =? 91)%N then 2 else
      if (N_of_ascii c =? 123)%N then 3 else
      if tok c then 0 else 4
  | EmptyString => 4
  end.

Lemma tok_kind c t : tok c = true -> kind_of_first (String c t) = 0%nat.
Proof. by destruct c as [[] [] [] [] [] [] [] []]. Qed.

Lemma print_kind j r : jwf j = true -> kind_of_first (print j +:+ r) = kind j.
Proof.
  intros W. destruct (scalar j) eqn:S.
  - pose proof (scalar_tok j S W) as T. pose proof (scalar_nonempty j S W) as N.
    destruct (print j) as [|c t]; [done|]. simpl in T. bprop.
    rewrite sapp_cons, tok_kind by done. by destruct j.
  - by destruct j.
Qed.

Lemma value_not_close j r r' (c : ascii) :
  jwf j = true -> c = "]"%char \/ c = "}"%char -> print j +:+ r <> String c r'.
Proof.
  intros W Hc E. pose proof (print_kind j r W) as H. rewrite E in H.
  destruct Hc; subst; destruct j; done.
Qed.

Fixpoint jsize (j : json) : nat :=
  match j with
  | JList l => S (foldr (fun j n => (jsize j + n)%nat) 0%nat l)
  | JObj kvs => S (foldr (fun kv n => (jsize kv.2 + n)%nat) 0%nat kvs)
  | _ => 1
  end.

Lemma jsize_list j l : j ∈ l -> (jsize j < jsize (JList l))%nat.
Proof.
  simpl. induction l as [|x l IH]; simpl; intros H; [by apply not_elem_of_nil in H|].
  apply elem_of_cons in H as [->|H]; [|apply IH in H]; lia.
Qed.

Lemma jsize_obj kv kvs : kv ∈ kvs -> (jsize kv.2 < jsize (JObj kvs))%nat.
Proof.
  simpl. induction kvs as [|x l IH]; simpl; intros H; [by apply not_elem_of_nil in H|].
  apply elem_of_cons in H as [->|H]; [|apply IH in H]; lia.
Qed.

Lemma jwf_list j l : jwf (JList l) = true -> j ∈ l -> jwf j = true.
Proof. simpl. rewrite forallb_forall. intros H Hj. apply H. by apply list_elem_of_In. Qed.

Lemma jwf_obj kv kvs : jwf (JObj kvs) = true -> kv ∈ kvs -> jwf kv.2 = true.
Proof.
  simpl. intros H Hj. bprop. rewrite forallb_forall in *.
  match goal with H : forall x, In x kvs -> _ |- _ => apply (H kv) end.
  by apply list_elem_of_In.
Qed.

Lemma values_separate n j1 :
  (jsize j1 <= n)%nat -> forall j2 r1 r2,
  jwf j1 = true -> jwf j2 = true -> stops r1 = true -> stops r2 = true ->
  print j1 +:+ r1 = print j2 +:+ r2 -> j1 = j2 /\ r1 = r2.
Proof.
  revert j1. induction n as [|n IH]; intros j1 Hn j2 r1 r2 W1 W2 S1 S2 E;
    [destruct j1; simpl in Hn; lia|].
  assert (kind j1 = kind j2) as K.
  { by rewrite <-(print_kind j1 r1), <-(print_kind j2 r2), E. }
  destruct (scalar j1) eqn:Sc1.
  - assert (scalar j2 = true) as Sc2 by (destruct j1, j2; done).
    destruct (span_inj tok (print j1) (print j2) r1 r2) as [E' ->]; auto using scalar_tok.
    split; [by apply scalar_inj|done].
  - destruct j1 as [| | | |s1|l1|k1], j2 as [| | | |s2|l2|k2]; try done; clear K.
    + apply quoted_inj in E as [-> ->]. done.
    + simpl in E. rewrite !sapp_assoc in E. apply (inj _) in E.
      apply (join_inj print "]") in E as [-> ->]; try done.
      * intros x y Hx Hy r r' Hr Hr' E'.
        apply (IH x); eauto using jwf_list. apply jsize_list in Hx. lia.
      * intros x r r' [Hx|Hx]%elem_of_app; eapply value_not_close; eauto using jwf_list.
    + simpl in E. rewrite !sapp_assoc in E. apply (inj _) in E.
      apply (join_inj (fun kv => quoted kv.1 +:+ (":" +:+ print kv.2)) "}") in E
        as [-> ->]; try done.
      intros [kx x] [ky y] Hx Hy r r' Hr Hr' E'; simpl in *.
      rewrite !sapp_assoc in E'. apply quoted_inj in E' as [-> E'].
      apply (inj _) in E'.
      destruct (IH x) with (4 := Hr) (5 := Hr') (6 := E') as [-> ->]; eauto.
      * apply jsize_obj in Hx. simpl in Hx. lia.
      * by apply (jwf_obj (ky, x) k1).
      * by apply (jwf_obj (ky, y) k2).
Qed.

(** Distinct well-formed values print differently. *)
Lemma print_inj j1 j2 : jwf j1 = true -> jwf j2 = true -> print j1 = print j2 -> j1 = j2.
Proof.
  intros W1 W2 E.
  destruct (values_separate _ j1 (le_n _) j2 "" "") as [-> _]; auto.
  by rewrite !sapp_nil_r.
Qed.

(** ** Dictionaries up to key order *)

Lemma json_ind' (P : json -> Prop) :
  P JNull -> (forall b, P (JBool b)) -> (forall z, P (JInt z)) ->
  (forall r, P (JFloat r)) -> (forall s, P (JStr s)) ->
  (forall l, (forall j, j ∈ l -> P j) -> P (JList l)) ->
  (forall kvs, (forall kv, kv ∈ kvs -> P kv.2) -> P (JObj kvs)) ->
  forall j, P j.
Proof.
  intros Hn Hb Hi Hf Hs Hl Ho j.
  remember (jsize j) as n eqn:En. revert j En.
  induction (lt_wf n) as [n _ IH]. intros j ->.
  destruct j; auto.
  - apply Hl. intros j Hj. eapply IH; [|done]. by apply jsize_list.
  - apply Ho. intros kv Hj. eapply IH; [|done]. by apply jsize_obj.
Qed.

(** ** Equality *)

Fixpoint json_eqb (a b : json) : bool :=
  match a, b with
  | JNull, JNull => true
  | JBool x, JBool y => Bool.eqb x y
  | JInt x, JInt y => x =? y
  | JFloat x, JFloat y | JStr x, JStr y => (x =? y)%string
  | JList l, JList l' =>
      (fix go l l' := match l, l' with
                      | [], [] => true
                      | x :: l, y :: l' => json_eqb x y && go l l'
                      | _, _ => false end) l l'
  | JObj d, JObj d' =>
      (fix go d d' := match d, d' with
                      | [], [] => true
                      | (k, x) :: d, (k', y) :: d' => (k =? k')%string && json_eqb x y && go d d'
                      | _, _ => false end) d d'
  | _, _ => false
  end.

Lemma json_eqb_eq a : forall b, json_eqb a b = true <-> a = b.
Proof.
  induction a as [|x|x|x|x|l IH|d IH] using json_ind'; intros [|y|y|y|y|l'|d']; try done; cbn [json_eqb].
  - rewrite Bool.eqb_true_iff. naive_solver.
  - rewrite Z.eqb_eq. naive_solver.
  - rewrite String.eqb_eq. naive_solver.
  - rewrite String.eqb_eq. naive_solver.
  - revert l'. induction l as [|x l IHl]; intros [|y l']; try done.
    rewrite andb_true_iff, IH by left. rewrite IHl by (intros; apply IH; by right). naive_solver.
  - revert d'. induction d as [|[k x] d IHd]; intros [|[k' y] d']; try done.
    rewrite !andb_true_iff, String.eqb_eq, (IH (k, x)) by left.
    rewrite IHd by (intros; apply IH; by right). naive_solver.
Qed.

#[export] Instance json_eq_dec : EqDecision json.
Proof.
  intros a b. destruct (json_eqb a b) eqn:E; [left|right].
  - by apply json_eqb_eq.
  - intros H%json_eqb_eq. congruence.
Defined.

(** ** Keys of a dictionary *)

Lemma get_set_same k v d : get k (set_key k v d) = Some v.
Proof.
  unfold set_key. destruct (get k d) as [w|] eqn:G; unfold get in *.
  - clear -G. induction d as [|[k' x] d IH]; [done|]. cbn in *.
    destruct (String.eqb_spec k' k) as [->|N]; cbn; [by rewrite String.eqb_refl|].
    destruct (String.eqb_spec k' k); [done|]. by apply IH.
  - rewrite find_app. destruct (List.find _ d); [done|]. cbn. by rewrite String.eqb_refl.
Qed.

Lemma get_set_other k k' v d : k <> k' -> get k (set_key k' v d) = get k d.
Proof.
  intros N. unfold set_key. destruct (get k' d) as [w|]; unfold get in *.
  - induction d as [|[k0 x] d IH]; [done|]. cbn in *.
    destruct (String.eqb_spec k0 k') as [->|N']; cbn.
    + destruct (String.eqb_spec k' k); [congruence|]. exact IH.
    + destruct (String.eqb_spec k0 k); [done|]. exact IH.
  - rewrite find_app. destruct (List.find _ d); [done|]. cbn.
    destruct (String.eqb_spec k' k); [congruence|done].
Qed.

Lemma set_set k v w d : set_key k v (set_key k w d) = set_key k v d.
Proof.
  unfold set_key at 1. rewrite get_set_same. unfold set_key. destruct (get k d) as [x|] eqn:G.
  - clear G. unfold map_where. rewrite map_map. apply map_ext. intros [k' y]. cbn.
    destruct (String.eqb_spec k' k) as [->|N]; cbn; [by rewrite String.eqb_refl|].
    by destruct (String.eqb_spec k' k).
  - unfold map_where. rewrite map_app. cbn. rewrite String.eqb_refl. f_equal.
    unfold get in G. induction d as [|[k' y] d IH]; [done|]. cbn in *.
    destruct (String.eqb_spec k' k) as [->|N]; [done|]. cbn. f_equal. by apply IH.
Qed.

Lemma get_in k v d : NoDup (map fst d) -> get k d = Some v <-> (k, v) ∈ d.
Proof.
  unfold get. induction d as [|[k' v'] d IH]; simpl; intros N.
  { split; [done|]. by intros ?%not_elem_of_nil. }
  apply NoDup_cons in N as [N1 N2]. rewrite elem_of_cons.
  destruct (k' =? k)%string eqn:E; bprop; simpl.
  - subst. split; [intros; simplify_eq; by left|].
    intros [?|H]; [by simplify_eq|]. destruct N1. apply list_elem_of_fmap. by exists (k, v).
  - rewrite IH by done. split; [by right|]. intros [?|?]; [by simplify_eq|done].
Qed.

Lemma get_perm k d1 d2 : NoDup (map fst d1) -> d1 ≡ₚ d2 -> get k d1 = get k d2.
Proof.
  intros N P. assert (NoDup (map fst d2)) as N2.
  { by rewrite <-(Permutation_map fst P). }
  apply option_eq. intros v. by rewrite !get_in, P.
Qed.

Lemma sort_items_keys (f : json -> json) kvs :
  map fst (merge_sort key_le (map (fun kv => (kv.1, f kv.2)) kvs)) ≡ₚ map fst kvs.
Proof. rewrite merge_sort_Permutation, map_map. done. Qed.

Lemma jwf_sort_keys j : jwf j = true -> jwf (sort_keys j) = true.
Proof.
  induction j as [| | | | |l IH|kvs IH] using json_ind'; try done; intros W.
  - simpl. apply forallb_forall. intros x Hx%list_elem_of_In.
    apply list_elem_of_fmap in Hx as (y&->&Hy). eauto using jwf_list.
  - assert (NoDup (map fst kvs)) as N by (simpl in W; by bprop).
    simpl. apply andb_true_iff; split.
    + apply bool_decide_eq_true. by rewrite sort_items_keys.
    + apply forallb_forall. intros x Hx%list_elem_of_In.
      rewrite merge_sort_Permutation in Hx.
      apply list_elem_of_fmap in Hx as (y&->&Hy). eauto using jwf_obj.
Qed.

(** Equal up to the order of keys, at every depth. *)
Definition same_value (j1 j2 : json) : Prop := sort_keys j1 = sort_keys j2.

#[export] Instance same_value_equiv : Equivalence same_value.
Proof. unfold same_value. split; congruence. Qed.

Lemma dumps_same j1 j2 : same_value j1 j2 -> dumps j1 = dumps j2.
Proof. unfold dumps. by intros ->. Qed.

#[export] Instance dumps_proper : Proper (same_value ==> eq) dumps.
Proof. exact dumps_same. Qed.

Lemma dumps_inj j1 j2 :
  jwf j1 = true -> jwf j2 = true -> dumps j1 = dumps j2 -> same_value j1 j2.
Proof. intros. apply print_inj; auto using jwf_sort_keys. Qed.

Lemma same_value_perm kvs1 kvs2 :
  NoDup (map fst kvs1) -> kvs1 ≡ₚ kvs2 -> same_value (JObj kvs1) (JObj kvs2).
Proof.
  intros N P. unfold same_value. simpl. f_equal.
  apply (StronglySorted_unique_strong key_le).
  - intros [k1 v1] [k2 v2] H1 H2 L1 L2. unfold key_le in *; simpl in *.
    assert (k1 = k2) as -> by (by apply (anti_symm String.le)). f_equal.
    rewrite merge_sort_Permutation in H1, H2.
    set (g := fun kv : string * json => (kv.1, sort_keys kv.2)) in *.
    assert (NoDup (map fst (map g kvs1))) as N' by (by rewrite map_map).
    rewrite <-P in H2. apply (get_in _ _ _ N') in H1, H2. congruence.
  - apply StronglySorted_merge_sort; [|intros ??; apply (total String.le)].
    intros ? ? ?; unfold key_le; apply transitivity.
  - apply StronglySorted_merge_sort; [|intros ??; apply (total String.le)].
    intros ? ? ?; unfold key_le; apply transitivity.
  - rewrite !merge_sort_Permutation. by apply Permutation_map.
Qed.

(** Equal dictionaries have equal entries. *)
Lemma same_value_get k d1 d2 :
  jwf (JObj d1) = true -> jwf (JObj d2) = true -> same_value (JObj d1) (JObj d2) ->
  option_map sort_keys (get k d1) = option_map sort_keys (get k d2).
Proof.
  intros W1 W2 H.
  assert (forall d, jwf (JObj d) = true -> option_map sort_keys (get k d)
    = get k (merge_sort key_le (map (fun kv => (kv.1, sort_keys kv.2)) d))) as E.
  { intros d W. assert (NoDup (map fst d)) as N by (simpl in W; by bprop).
    transitivity (get k (map (fun kv => (kv.1, sort_keys kv.2)) d)).
    - clear. unfold get. induction d as [|[k' v] d IH]; [done|].
      simpl. destruct (k' =? k)%string; [done|exact IH].
    - symmetry. apply get_perm; [by rewrite sort_items_keys|].
      apply merge_sort_Permutation. }
  rewrite !E by done. unfold same_value in H. simpl in H. by injection H as ->.
Qed.

(** The digest of a dictionary binds its value: two dictionaries with the same
    fingerprint are the same value, or exhibit a SHA-256 collision. *)
Lemma fingerprint_binds d1 d2 :
  jwf (JObj d1) = true -> jwf (JObj d2) = true ->
  fingerprint d1 = fingerprint d2 ->
  same_value (JObj d1) (JObj d2) \/ collision (dumps (JObj d1)) (dumps (JObj d2)).
Proof.
  intros W1 W2 [E|C]%sha256_eq_or_collision; [left|by right]. by apply dumps_inj.
Qed.

Lemma fingerprint_perm d1 d2 :
  NoDup (map fst d1) -> d1 ≡ₚ d2 -> fingerprint d1 = fingerprint d2.
Proof. intros N P. unfold fingerprint. by rewrite (same_value_perm _ _ N P). Qed.

End Json.
