(* ===== verification/Float64.v ===== *)
(** * Python floats

    The finite binary64 values the program computes with (recovery factors,
    issue rates, accuracy ratios, refund rates): a float is an integer
    mantissa scaled by a power of two, and every operation is the correctly
    rounded one (round to nearest, ties to even, 53 bits).  Exponents are not
    bounded: the quantities involved are currency amounts, counters and
    ratios of counters, far inside the binary64 range. *)
From S2P Require Import Prelude.

Module Float64.

Record float := Float { mant : Z; expo : Z }.

#[export] Instance float_eq_dec : EqDecision float.
Proof. solve_decision. Defined.

(** Nearest integer to [n / d], ties to even. *)
Definition round_half_even (n d : Z) : Z :=
  let q := n / d in
  let r := n mod d in
  match 2 * r ?= d with
  | Lt => q
  | Gt => q + 1
  | Eq => if Z.even q then q else q + 1
  end.

(** [a / (q * 2^k)] as a quotient of integers. *)
Definition scaled (a q k : Z) : Z * Z :=
  if 0 <=? k then (a, q * 2 ^ k) else (a * 2 ^ (- k), q).

(** The exponent that leaves 53 significant bits. *)
Definition exponent (a q : Z) : Z :=
  let k := Z.log2 a - Z.log2 q - 52 in
  let '(n, d) := scaled a q k in
  if n <? 2 ^ 52 * d then k - 1 else k.

(** The float nearest to [p / q] ([0 < q]). *)
Definition rnd (p q : Z) : float :=
  if p =? 0 then Float 0 0 else
  let k := exponent (Z.abs p) q in
  let '(n, d) := scaled (Z.abs p) q k in
  Float (Z.sgn p * round_half_even n d) k.

(** [float(n)] *)
Definition of_int (n : Z) : float := rnd n 1.

(** The value as a quotient of integers. *)
Definition num (x : float) : Z := if 0 <=? expo x then mant x * 2 ^ expo x else mant x.
Definition den (x : float) : Z := if 0 <=? expo x then 1 else 2 ^ (- expo x).

(** [x * y], and [n / d] on two ints (correctly rounded by CPython). *)
Definition fmul (x y : float) : float := rnd (num x * num y) (den x * den y).
Definition int_div (n d : Z) : float := rnd n d.

Definition fle (x y : float) : bool := num x * den y <=? num y * den x.
Definition feq (x y : float) : bool := num x * den y =? num y * den x.
Definition fzero : float := Float 0 0.

(** [round(x)] and [round(x, 6)] *)
Definition round_int (x : float) : Z := round_half_even (num x) (den x).
Definition round6 (x : float) : float :=
  rnd (round_half_even (num x * 10 ^ 6) (den x)) (10 ^ 6).

(** ** Facts *)

Lemma round_half_even_error n d :
  0 < d -> - d <= 2 * (round_half_even n d * d - n) <= d.
Proof.
  intros Hd. unfold round_half_even.
  pose proof (Z.div_mod n d ltac:(lia)). pose proof (Z.mod_pos_bound n d Hd).
  destruct (Z.compare_spec (2 * (n mod d)) d); [destruct (Z.even _)| |]; nia.
Qed.

Lemma round_half_even_exact k d : 0 < d -> round_half_even (k * d) d = k.
Proof.
  intros Hd. unfold round_half_even. rewrite Z.div_mul, Z.mod_mul by lia.
  destruct (Z.compare_spec (2 * 0) d); lia.
Qed.

Lemma round_half_even_le n d v : 0 < d -> n <= v * d -> round_half_even n d <= v.
Proof.
  intros Hd Hn. pose proof (round_half_even_error n d Hd).
  destruct (Z.eq_dec n (v * d)) as [->|].
  - rewrite round_half_even_exact; lia.
  - nia.
Qed.

Lemma round_half_even_ge n d v : 0 < d -> v * d <= n -> v <= round_half_even n d.
Proof.
  intros Hd Hn. pose proof (round_half_even_error n d Hd).
  destruct (Z.eq_dec n (v * d)) as [->|].
  - rewrite round_half_even_exact; lia.
  - nia.
Qed.

Lemma den_pos x : 0 < den x.
Proof. unfold den. destruct (0 <=? expo x) eqn:E; bprop; [lia|]. apply Z.pow_pos_nonneg; lia. Qed.

Lemma scaled_pos a q k : 0 < a -> 0 < q -> 0 < (scaled a q k).1 /\ 0 < (scaled a q k).2.
Proof.
  intros. unfold scaled. pose proof (Z.pow_pos_nonneg 2 k).
  pose proof (Z.pow_pos_nonneg 2 (- k)). destruct (0 <=? k) eqn:E; bprop; simpl; nia.
Qed.

Lemma exponent_spec a q :
  0 < a -> 0 < q ->
  2 ^ 52 * (scaled a q (exponent a q)).2 <= (scaled a q (exponent a q)).1.
Proof.
  intros Ha Hq. unfold exponent.
  set (k := Z.log2 a - Z.log2 q - 52).
  destruct (scaled a q k) as [n d] eqn:S.
  destruct (n <? 2 ^ 52 * d) eqn:E; bprop; [|by rewrite S].
  pose proof (Z.log2_spec a Ha) as [La _]. pose proof (Z.log2_spec q Hq) as [_ Lq].
  pose proof (Z.log2_nonneg a). pose proof (Z.log2_nonneg q).
  unfold scaled. destruct (0 <=? k - 1) eqn:K; bprop; simpl.
  - replace (Z.log2 a) with (52 + Z.succ (Z.log2 q) + (k - 1)) in La by lia.
    rewrite !Z.pow_add_r in La by lia. pose proof (Z.pow_pos_nonneg 2 (k - 1)). nia.
  - assert (2 ^ 52 * 2 ^ Z.succ (Z.log2 q) = 2 ^ Z.log2 a * 2 ^ (- (k - 1))) as E2.
    { rewrite <-!Z.pow_add_r by lia. f_equal. lia. }
    pose proof (Z.pow_pos_nonneg 2 (- (k - 1))). nia.
Qed.

Lemma rnd_unfold p q :
  0 < p -> 0 < q ->
  exists n d, scaled p q (exponent p q) = (n, d) /\ 0 < d /\ 2 ^ 52 * d <= n /\
    rnd p q = Float (round_half_even n d) (exponent p q).
Proof.
  intros Hp Hq. pose proof (exponent_spec p q Hp Hq) as H.
  pose proof (scaled_pos p q (exponent p q) Hp Hq) as [_ Hd].
  unfold rnd. rewrite (Z.abs_eq p), (Z.sgn_pos p) by lia.
  destruct (p =? 0) eqn:E; bprop; [lia|].
  destruct (scaled p q (exponent p q)) as [n' d']. simpl in *.
  exists n', d'. rewrite Z.mul_1_l. done.
Qed.

(** The relative error of a correctly rounded result is at most [2^-53]. *)
Lemma rnd_error p q :
  0 < p -> 0 < q ->
  2 ^ 53 * Z.abs (num (rnd p q) * q - p * den (rnd p q)) <= p * den (rnd p q).
Proof.
  intros Hp Hq. destruct (rnd_unfold p q Hp Hq) as (n&d&S&Hd&Hn&->).
  pose proof (round_half_even_error n d Hd).
  unfold num, den, scaled in *; simpl.
  destruct (0 <=? exponent p q); simplify_eq; lia.
Qed.

(** A quotient whose value is an int below [2^53] is exact. *)
Lemma rnd_exact v q :
  0 <= v < 2 ^ 53 -> 0 < q -> num (rnd (v * q) q) = v * den (rnd (v * q) q).
Proof.
  intros Hv Hq. destruct (Z.eq_dec v 0) as [->|Hne]; [done|].
  destruct (rnd_unfold (v * q) q) as (n&d&S&Hd&Hn&->); [nia|lia|].
  unfold num, den; simpl. revert S Hn. set (k := exponent (v * q) q).
  destruct (Z.leb_spec 0 k) as [K|K]; unfold scaled;
    destruct (Z.leb_spec 0 k); try lia; intros [= <- <-] Hn.
  - assert (k = 0) as ->.
    { destruct (Z.eq_dec k 0); [done|]. exfalso.
      assert (2 ^ 1 <= 2 ^ k) by (apply Z.pow_le_mono_r; lia).
      change (2 ^ 1) with 2 in *. nia. }
    change (2 ^ 0) with 1. rewrite !Z.mul_1_r, round_half_even_exact; lia.
  - replace (v * q * 2 ^ (- k)) with (v * 2 ^ (- k) * q) by lia.
    by rewrite round_half_even_exact.
Qed.

(** An int below [2^53] is a float. *)
Lemma of_int_exact v : 0 <= v < 2 ^ 53 -> num (of_int v) = v * den (of_int v).
Proof.
  intros Hv. pose proof (rnd_exact v 1 Hv ltac:(lia)) as E.
  by rewrite Z.mul_1_r in E.
Qed.

Lemma round_int_exact x v : num x = v * den x -> round_int x = v.
Proof. intros E. unfold round_int. rewrite E. apply round_half_even_exact, den_pos. Qed.

Lemma of_int_le a b :
  0 <= a < 2 ^ 53 -> 0 <= b < 2 ^ 53 -> fle (of_int a) (of_int b) = (a <=? b).
Proof.
  intros Ha Hb. unfold fle. rewrite (of_int_exact a), (of_int_exact b) by done.
  pose proof (den_pos (of_int a)). pose proof (den_pos (of_int b)).
  apply eq_true_iff_eq. rewrite !Z.leb_le.
  set (da := den (of_int a)) in *. set (db := den (of_int b)) in *.
  replace (b * db * da) with (b * (da * db)) by lia.
  replace (a * da * db) with (a * (da * db)) by lia.
  symmetry. apply Z.mul_le_mono_pos_r. nia.
Qed.

Lemma fle_total x y : fle x y = true \/ fle y x = true.
Proof. unfold fle. rewrite !Z.leb_le. lia. Qed.

Lemma fle_trans x y z : fle x y = true -> fle y z = true -> fle x z = true.
Proof.
  unfold fle. rewrite !Z.leb_le. pose proof (den_pos x). pose proof (den_pos y).
  pose proof (den_pos z) as Hz. intros L1 L2.
  apply (Z.mul_le_mono_nonneg_r _ _ (den z)) in L1; [|lia].
  apply (Z.mul_le_mono_nonneg_r _ _ (den x)) in L2; [|lia].
  apply (Z.mul_le_mono_pos_r _ _ (den y)); lia.
Qed.

Lemma round_half_even_scale n d c : 0 < d -> 0 < c -> round_half_even (n * c) (d * c) = round_half_even n d.
Proof.
  intros Hd Hc. unfold round_half_even.
  rewrite Z.div_mul_cancel_r, Zmult_mod_distr_r by lia.
  assert ((2 * (n mod d * c) ?= d * c) = (2 * (n mod d) ?= d)) as ->; [|done].
  rewrite Z.mul_assoc. destruct (Z.compare_spec (2 * (n mod d)) d) as [->|L|L].
  - apply Z.compare_refl.
  - apply Z.compare_lt_iff. nia.
  - apply Z.compare_gt_iff. nia.
Qed.

Lemma round_half_even_mono n d n' d' :
  0 < d -> 0 < d' -> n * d' <= n' * d -> round_half_even n d <= round_half_even n' d'.
Proof.
  intros Hd Hd' L. destruct (Z.eq_dec (n * d') (n' * d)) as [E|E].
  - rewrite <-(round_half_even_scale n d d'), <-(round_half_even_scale n' d' d), E, (Z.mul_comm d d') by done.
    done.
  - pose proof (round_half_even_error n d Hd). pose proof (round_half_even_error n' d' Hd').
    set (v := round_half_even n d) in *. set (v' := round_half_even n' d') in *.
    destruct (Z.le_gt_cases v v'); [done|]. exfalso.
    assert ((v' + 1) * (d * d') <= v * (d * d')) by nia. nia.
Qed.

(** Integers only: shifting both exponents by a large enough [N]. *)
Lemma scaled_shift a q k N :
  0 <= N -> 0 <= k + N ->
  (scaled a q k).1 * (q * 2 ^ (k + N)) = (scaled a q k).2 * (a * 2 ^ N).
Proof.
  intros HN HkN. unfold scaled. destruct (Z.leb_spec 0 k); simpl.
  - rewrite Z.pow_add_r by lia. lia.
  - assert (2 ^ N = 2 ^ (- k) * 2 ^ (k + N)) as -> by (rewrite <-Z.pow_add_r by lia; f_equal; lia). lia.
Qed.

Lemma value_shift m k N :
  0 <= N -> 0 <= k + N -> num (Float m k) * 2 ^ N = m * 2 ^ (k + N) * den (Float m k).
Proof.
  intros HN HkN. unfold num, den. simpl. destruct (Z.leb_spec 0 k).
  - rewrite Z.pow_add_r by lia. lia.
  - assert (2 ^ N = 2 ^ (- k) * 2 ^ (k + N)) as -> by (rewrite <-Z.pow_add_r by lia; f_equal; lia). lia.
Qed.

Lemma exponent_upper a q :
  0 < a -> 0 < q -> (scaled a q (exponent a q)).1 < 2 ^ 53 * (scaled a q (exponent a q)).2.
Proof.
  intros Ha Hq. pose proof (Z.log2_spec a Ha) as [_ La]. pose proof (Z.log2_spec q Hq) as [Lq _].
  pose proof (Z.log2_nonneg a) as Na. pose proof (Z.log2_nonneg q) as Nq.
  set (k := Z.log2 a - Z.log2 q - 52).
  set (N := Z.log2 q + 53).
  assert (0 < 2 ^ N) by (apply Z.pow_pos_nonneg; lia).
  unfold exponent. fold k. destruct (scaled a q k) as [n d] eqn:S.
  destruct (Z.ltb_spec n (2 ^ 52 * d)) as [L|L].
  - pose proof (scaled_shift a q k N ltac:(lia) ltac:(lia)) as E. rewrite S in E. simpl in E.
    pose proof (scaled_shift a q (k - 1) N ltac:(lia) ltac:(lia)) as E'.
    destruct (scaled_pos a q (k - 1) Ha Hq) as [P1 P2]. destruct (scaled_pos a q k Ha Hq) as [P3 P4].
    rewrite S in P3, P4. simpl in P3, P4. destruct (scaled a q (k - 1)) as [n' d']. simpl in *.
    assert (2 ^ (k + N) = 2 * 2 ^ (k - 1 + N)) as T.
    { rewrite <-Z.pow_succ_r by lia. f_equal. lia. }
    assert (0 < 2 ^ (k - 1 + N)) by (apply Z.pow_pos_nonneg; lia).
    rewrite T in E. set (x := 2 ^ (k - 1 + N)) in *. set (y := 2 ^ N) in *.
    change (2 ^ 53) with (2 * 2 ^ 52). set (c := 2 ^ 52) in *.
    assert (0 < c) by (subst c; lia).
    assert (a * y < 2 * c * (q * x)).
    { apply (Z.mul_lt_mono_pos_l d); [lia|]. rewrite <-E.
      replace (d * (2 * c * (q * x))) with (c * d * (q * (2 * x))) by lia.
      apply Z.mul_lt_mono_pos_r; [nia|done]. }
    assert (0 < q * x) by nia.
    apply (Z.mul_lt_mono_pos_r (q * x)); [done|]. rewrite E'.
    replace (2 * c * d' * (q * x)) with (d' * (2 * c * (q * x))) by lia.
    by apply Z.mul_lt_mono_pos_l.
  - pose proof (scaled_shift a q k N ltac:(lia) ltac:(lia)) as E. rewrite S in E.
    destruct (scaled_pos a q k Ha Hq) as [P3 P4]. rewrite S in *. simpl in *.
    assert (2 ^ Z.succ (Z.log2 a) * 2 ^ N = 2 ^ 53 * (2 ^ Z.log2 q * 2 ^ (k + N))) as T.
    { rewrite <-!Z.pow_add_r by lia. f_equal. lia. }
    assert (0 < 2 ^ (k + N)) by (apply Z.pow_pos_nonneg; lia).
    assert (a * 2 ^ N < 2 ^ 53 * (q * 2 ^ (k + N))).
    { apply Z.lt_le_trans with (2 ^ Z.succ (Z.log2 a) * 2 ^ N); [by apply Z.mul_lt_mono_pos_r|].
      rewrite T. apply Z.mul_le_mono_nonneg_l; [lia|]. by apply Z.mul_le_mono_nonneg_r; [lia|]. }
    assert (0 < q * 2 ^ (k + N)) by nia.
    apply (Z.mul_lt_mono_pos_r (q * 2 ^ (k + N))); [done|]. rewrite E.
    replace (2 ^ 53 * d * (q * 2 ^ (k + N))) with (d * (2 ^ 53 * (q * 2 ^ (k + N)))) by lia.
    by apply Z.mul_lt_mono_pos_l.
Qed.

Lemma fle_float m k m' k' N :
  0 <= N -> 0 <= k + N -> 0 <= k' + N ->
  fle (Float m k) (Float m' k') = true <-> m * 2 ^ (k + N) <= m' * 2 ^ (k' + N).
Proof.
  intros HN H1 H2. unfold fle. rewrite Z.leb_le.
  pose proof (value_shift m k N HN H1) as E1. pose proof (value_shift m' k' N HN H2) as E2.
  pose proof (den_pos (Float m k)) as P1. pose proof (den_pos (Float m' k')) as P2.
  assert (0 < 2 ^ N) as P by (apply Z.pow_pos_nonneg; lia).
  set (u := num (Float m k)) in *. set (v := num (Float m' k')) in *.
  set (d := den (Float m k)) in *. set (d' := den (Float m' k')) in *.
  rewrite (Z.mul_le_mono_pos_r (m * _) _ (d * d')) by nia.
  replace (m * 2 ^ (k + N) * (d * d')) with (u * d' * 2 ^ N) by nia.
  replace (m' * 2 ^ (k' + N) * (d * d')) with (v * d * 2 ^ N) by nia.
  apply Z.mul_le_mono_pos_r, P.
Qed.

(** Rounding is monotone. *)
Lemma rnd_mono p q p' q' :
  0 <= p -> 0 < q -> 0 <= p' -> 0 < q' -> p * q' <= p' * q -> fle (rnd p q) (rnd p' q') = true.
Proof.
  intros Hp Hq Hp' Hq' L.
  destruct (Z.eq_dec p 0) as [->|Np].
  { destruct (Z.eq_dec p' 0) as [->|Np']; [done|].
    destruct (rnd_unfold p' q') as (n'&d'&_&Hd'&Hn'&->); [lia..|].
    pose proof (round_half_even_ge n' d' 0 Hd' ltac:(nia)).
    apply (fle_float 0 0 _ _ (Z.abs (exponent p' q'))); [lia..|].
    pose proof (Z.pow_nonneg 2 (exponent p' q' + Z.abs (exponent p' q'))). nia. }
  assert (0 < p') as Np' by nia.
  destruct (rnd_unfold p q) as (n&d&S&Hd&Hn&->); [lia..|].
  destruct (rnd_unfold p' q') as (n'&d'&S'&Hd'&Hn'&->); [lia..|].
  pose proof (exponent_upper p q ltac:(lia) Hq) as U. pose proof (exponent_upper p' q' Np' Hq') as U'.
  set (k := exponent p q) in *. set (k' := exponent p' q') in *. rewrite S in U. rewrite S' in U'.
  simpl in U, U'. set (N := Z.abs k + Z.abs k').
  pose proof (scaled_shift p q k N ltac:(lia) ltac:(lia)) as E. rewrite S in E. simpl in E.
  pose proof (scaled_shift p' q' k' N ltac:(lia) ltac:(lia)) as E'. rewrite S' in E'. simpl in E'.
  apply (fle_float _ _ _ _ N); [lia..|].
  assert (0 < 2 ^ (k + N)) as X by (apply Z.pow_pos_nonneg; lia).
  assert (0 < 2 ^ (k' + N)) as X' by (apply Z.pow_pos_nonneg; lia).
  set (x := 2 ^ (k + N)) in *. set (x' := 2 ^ (k' + N)) in *.
  assert (0 < 2 ^ N) as Y by (apply Z.pow_pos_nonneg; lia). set (y := 2 ^ N) in *.
  assert (n * d' * x <= n' * d * x') as M.
  { apply (Z.mul_le_mono_pos_r _ _ (q * q')); [nia|].
    replace (n * d' * x * (q * q')) with (n * (q * x) * d' * q') by lia. rewrite E.
    replace (n' * d * x' * (q * q')) with (n' * (q' * x') * d * q) by lia. rewrite E'.
    replace (d * (p * y) * d' * q') with (d * d' * y * (p * q')) by lia.
    replace (d' * (p' * y) * d * q) with (d * d' * y * (p' * q)) by lia.
    apply Z.mul_le_mono_nonneg_l; nia. }
  destruct (Z.lt_trichotomy k k') as [C|[C|C]].
  - pose proof (round_half_even_le n d (2 ^ 53) Hd ltac:(lia)) as B.
    pose proof (round_half_even_ge n' d' (2 ^ 52) Hd' Hn') as B'.
    assert (2 * x <= x') as T.
    { subst x x'. rewrite <-Z.pow_succ_r by lia. apply Z.pow_le_mono_r; lia. }
    change (2 ^ 53) with (2 * 2 ^ 52) in B. set (c := 2 ^ 52) in *. assert (0 < c) by (subst c; lia).
    set (m := round_half_even n d) in *. set (m' := round_half_even n' d') in *. clearbody m m' x x' c.
    apply Z.le_trans with (2 * c * x); [nia|]. apply Z.le_trans with (c * x'); nia.
  - assert (x = x') as <- by (subst x x'; by rewrite C).
    apply Z.mul_le_mono_nonneg_r; [lia|]. apply round_half_even_mono; [done..|].
    by apply (Z.mul_le_mono_pos_r _ _ x).
  - exfalso. assert (2 * x' <= x) as T.
    { subst x x'. rewrite <-Z.pow_succ_r by lia. apply Z.pow_le_mono_r; lia. }
    change (2 ^ 53) with (2 * 2 ^ 52) in U'. set (c := 2 ^ 52) in *. assert (0 < c) by (subst c; lia).
    clearbody x x' c.
    assert (n' * d * x' < 2 * c * d' * (d * x')) by (assert (0 < d * x') by nia; nia).
    assert (c * d * d' * (2 * x') <= n * d' * x).
    { apply Z.le_trans with (c * d * d' * x); [apply Z.mul_le_mono_nonneg_l; nia|].
      replace (c * d * d' * x) with (c * d * (d' * x)) by lia.
      replace (n * d' * x) with (n * (d' * x)) by lia. apply Z.mul_le_mono_nonneg_r; nia. }
    lia.
Qed.

(** Rounding moves a quotient by at most one part in [2^53]. *)
Lemma rnd_upper p q :
  0 < p -> 0 < q -> 2 ^ 53 * (num (rnd p q) * q) <= (2 ^ 53 + 1) * (p * den (rnd p q)).
Proof. intros Hp Hq. pose proof (rnd_error p q Hp Hq). lia. Qed.

Lemma rnd_lower p q :
  0 < p -> 0 < q -> (2 ^ 53 - 1) * (p * den (rnd p q)) <= 2 ^ 53 * (num (rnd p q) * q).
Proof. intros Hp Hq. pose proof (rnd_error p q Hp Hq). lia. Qed.

Lemma rnd_positive p q : 0 < p -> 0 < q -> 0 < num (rnd p q).
Proof.
  intros Hp Hq. pose proof (rnd_lower p q Hp Hq). pose proof (den_pos (rnd p q)). nia.
Qed.

(** CPython: [0.7], [round(2.5)], [round(1/3, 6)]. *)
Example rnd_point_seven : rnd 7 10 = Float 6305039478318694 (-53).
Proof. reflexivity. Qed.
Example round_int_ties : map (fun n => round_int (rnd n 2)) [1; 3; 5; 7] = [0; 2; 2; 4].
Proof. reflexivity. Qed.
Example round6_third : round6 (int_div 1 3) = rnd 333333 1000000.
Proof. reflexivity. Qed.

End Float64.
