(* ===== verification/Errors.v ===== *)
(** * Exceptions and the failure taxonomy

    The exception classes the after-sales code raises, catches or classifies,
    with Python's single-inheritance lineage; the result type of fallible
    functions; and [failure_taxonomy.py], the closed table that binds every
    failure class to one recovery decision. *)
From S2P Require Import Prelude Sha256 Json.
Import Json.

Module Errors.

(** ** Exception classes *)

Inductive exn_class :=
(* builtins *)
| BaseException | ExceptionC | ArithmeticError | LookupError | OSError | RuntimeError
| TypeError | ValueError | KeyError | PermissionError | TimeoutError | ConnectionError
| NotImplementedError
(* after_sales *)
| ActionConflict | ActionForbidden | BalanceCheckFailed | ConcurrentActionError
| DispositionConflict | IdempotencyConflict | StepBudgetExceeded | Cancelled
(* libraries: starlette, sqlalchemy, pydantic *)
| HTTPException | IntegrityError | ValidationError
(* any further class, by its base *)
| Subclass (name : string) (base : exn_class).

#[export] Instance exn_class_eq_dec : EqDecision exn_class.
Proof. solve_decision. Defined.

(** The lineage of a class, itself first ([cls.__mro__] without [object]). *)
Fixpoint mro (c : exn_class) : list exn_class :=
  match c with
  | BaseException => [BaseException]
  | ExceptionC => [ExceptionC; BaseException]
  | ArithmeticError | LookupError | OSError | RuntimeError | TypeError | ValueError
  | IdempotencyConflict | StepBudgetExceeded | Cancelled | HTTPException
  | IntegrityError => [c; ExceptionC; BaseException]
  | KeyError => [c; LookupError; ExceptionC; BaseException]
  | PermissionError | TimeoutError | ConnectionError =>
      [c; OSError; ExceptionC; BaseException]
  | NotImplementedError | ConcurrentActionError =>
      [c; RuntimeError; ExceptionC; BaseException]
  | ActionConflict | DispositionConflict | ValidationError =>
      [c; ValueError; ExceptionC; BaseException]
  | ActionForbidden => [c; PermissionError; OSError; ExceptionC; BaseException]
  | BalanceCheckFailed => [c; ActionConflict; ValueError; ExceptionC; BaseException]
  | Subclass _ b => c :: mro b
  end.

Definition isinstance (c t : exn_class) : bool := bool_decide (t ∈ mro c).

(** A raised exception: its class and message, or an HTTP error with its
    status and detail. *)
Inductive exn :=
| Exn (c : exn_class) (msg : string)
| HTTPError (status : Z) (detail : json).

Definition class_of (e : exn) : exn_class :=
  match e with Exn c _ => c | HTTPError _ _ => HTTPException end.

(** [str(error)] *)
Definition message (e : exn) : json :=
  match e with Exn _ m => JStr m | HTTPError _ d => d end.

(** ** Results *)

Inductive result (A : Type) :=
| Ok (a : A)
| Raise (e : exn).
#[global] Arguments Ok {A} a.
#[global] Arguments Raise {A} e.

Definition rbind {A B} (r : result A) (k : A -> result B) : result B :=
  match r with Ok a => k a | Raise e => Raise e end.

(** [if cond: raise e] *)
Definition raise_if (cond : bool) (e : exn) : result unit :=
  if cond then Raise e else Ok tt.

Definition of_option {A} (o : option A) (e : exn) : result A :=
  match o with Some a => Ok a | None => Raise e end.

Definition is_ok {A} (r : result A) : bool := match r with Ok _ => true | _ => false end.

Notation "x <-? r ;; k" := (rbind r (fun x => k))
  (at level 100, r at next level, right associativity) : afterflow_scope.
Notation "'ensure' r ;; k" := (rbind r (fun _ : unit => k))
  (at level 100, r at next level, right associativity) : afterflow_scope.

Lemma rbind_ok {A B} (r : result A) (k : A -> result B) b :
  rbind r k = Ok b <-> exists a, r = Ok a /\ k a = Ok b.
Proof. destruct r; simpl; [|by split; [|intros (?&?&?)]]. split; [eauto|by intros (?&[= ->]&?)]. Qed.

Lemma rbind_raise {A B} (r : result A) (k : A -> result B) e :
  rbind r k = Raise e <-> r = Raise e \/ exists a, r = Ok a /\ k a = Raise e.
Proof.
  destruct r; simpl; split; intros H; eauto.
  - by destruct H as [?|(?&[= ->]&?)].
  - left. congruence.
  - destruct H as [[= ->]|(?&?&?)]; done.
Qed.

Lemma raise_if_ok cond e u : raise_if cond e = Ok u <-> cond = false.
Proof. destruct cond, u; simpl; naive_solver. Qed.

Lemma ensure_ok {B} (r : result unit) (k : result B) b :
  (ensure r ;; k) = Ok b <-> r = Ok tt /\ k = Ok b.
Proof. rewrite rbind_ok. split; [intros [[] ?]; done|eauto]. Qed.

Lemma of_option_ok {A} (o : option A) e a : of_option o e = Ok a <-> o = Some a.
Proof. destruct o; simpl; naive_solver. Qed.

Lemma ensure_raise_if {B} cond e (k : result B) :
  (ensure raise_if cond e ;; k) = if cond then Raise e else k.
Proof. by destruct cond. Qed.

#[export] Hint Rewrite @ensure_raise_if : afterflow.

End Errors.

(** ** failure_taxonomy.py *)
Module FailureTaxonomy.
Import Errors.

Inductive FailureClass :=
| USER_ERROR | BUSINESS_RULE_REJECTION | PERMISSION_ERROR | INVALID_STATE
| VERSION_CONFLICT | MODEL_ERROR | TOOL_ERROR_TRANSIENT | TOOL_ERROR_PERMANENT
| TIMEOUT | EXTERNAL_DEPENDENCY_UNAVAILABLE | INTERNAL_BUG.

Inductive Decision :=
| RETRY | RETRY_WITH_BACKOFF | ASK_USER | HUMAN_REVIEW | FALLBACK | REJECT | FAIL
| FAIL_CLOSED.

#[export] Instance FailureClass_eq_dec : EqDecision FailureClass.
Proof. solve_decision. Defined.
#[export] Instance Decision_eq_dec : EqDecision Decision.
Proof. solve_decision. Defined.

Definition decision_table : list (FailureClass * Decision) :=
  [(USER_ERROR, ASK_USER);
   (BUSINESS_RULE_REJECTION, REJECT);
   (PERMISSION_ERROR, FAIL_CLOSED);
   (INVALID_STATE, FAIL);
   (VERSION_CONFLICT, FAIL);
   (MODEL_ERROR, HUMAN_REVIEW);
   (TOOL_ERROR_TRANSIENT, RETRY);
   (TOOL_ERROR_PERMANENT, REJECT);
   (TIMEOUT, RETRY_WITH_BACKOFF);
   (EXTERNAL_DEPENDENCY_UNAVAILABLE, FALLBACK);
   (INTERNAL_BUG, HUMAN_REVIEW)].

(** [_DECISION_TABLE[failure_class]]; a class without a row is a [KeyError]. *)
Definition decision_for (fc : FailureClass) : result Decision :=
  of_option (option_map snd (List.find (fun row => bool_decide (row.1 = fc)) decision_table))
            (Exn KeyError "").

Definition retryable : list FailureClass :=
  [TIMEOUT; TOOL_ERROR_TRANSIENT; EXTERNAL_DEPENDENCY_UNAVAILABLE].

Definition is_safe_to_retry (fc : FailureClass) : bool := bool_decide (fc ∈ retryable).

Definition classify_error (error : exn_class) : FailureClass :=
  if isinstance error ActionForbidden then PERMISSION_ERROR else
  if isinstance error ConcurrentActionError then VERSION_CONFLICT else
  if isinstance error ActionConflict then INVALID_STATE else
  if isinstance error PermissionError then PERMISSION_ERROR else
  if isinstance error TimeoutError then TIMEOUT else
  if isinstance error ValueError then BUSINESS_RULE_REJECTION else
  if isinstance error KeyError then USER_ERROR else
  if isinstance error ConnectionError then EXTERNAL_DEPENDENCY_UNAVAILABLE else
  if isinstance error NotImplementedError then INTERNAL_BUG else
  INTERNAL_BUG.

(** Membership in a lineage is inherited. *)
Lemma isinstance_subclass n b t :
  t <> Subclass n b -> isinstance (Subclass n b) t = isinstance b t.
Proof.
  intros Hne. unfold isinstance. simpl. apply bool_decide_ext.
  rewrite elem_of_cons. tauto.
Qed.

(** ** Properties *)

(** C40: the taxonomy is closed and conservative for every exception class,
    library subclasses included: every class has a recovery decision; an
    error may be retried automatically only if it is a timeout or a lost
    connection; side effects are denied (FAIL_CLOSED) exactly for permission
    errors. *)
Theorem recovery_policy_sound (error : exn_class) :
  (exists d, decision_for (classify_error error) = Ok d) /\
  (is_safe_to_retry (classify_error error) =
     isinstance error TimeoutError || isinstance error ConnectionError) /\
  (decision_for (classify_error error) = Ok FAIL_CLOSED <->
     isinstance error PermissionError = true).
Proof.
  induction error as [| | | | | | | | | | | | | | | | | | | | | | | |n b IH].
  1-24: vm_compute; split_and!; [by eexists|done..].
  assert (classify_error (Subclass n b) = classify_error b) as ->
    by (unfold classify_error; by rewrite !isinstance_subclass).
  by rewrite !isinstance_subclass.
Qed.

End FailureTaxonomy.
