(* ===== verification/Schemas.v ===== *)
(** * Business contracts of the decision engine

    [schemas.py]: the enumerations, the inputs and the result of a
    deterministic after-sales decision, and the [Field] constraints that
    construction checks. *)
From S2P Require Import Prelude Sha256 Json Errors Float64.
Import Json Errors.

Module Schemas.
Export Float64.

Inductive IssueType :=
| DELIVERY_NOT_RECEIVED | DAMAGED_ITEM | WRONG_ITEM | QUALITY_ISSUE | REFUND_AMOUNT_DISPUTE.
Inductive Eligibility := ELIGIBLE | ELIGIBLE_WITH_APPROVAL | INELIGIBLE | NEEDS_EVIDENCE.
Inductive RiskLevel := LOW | MEDIUM | HIGH.
Inductive RiskTier := AUTO | REVIEW | SUPERVISOR | FOUR_EYES.
Inductive ResolutionAction := REFUND_ORIGINAL_PAYMENT | RETURN_AND_REFUND | MANUAL_REVIEW.

#[export] Instance IssueType_eq_dec : EqDecision IssueType.
Proof. solve_decision. Defined.
#[export] Instance Eligibility_eq_dec : EqDecision Eligibility.
Proof. solve_decision. Defined.
#[export] Instance RiskLevel_eq_dec : EqDecision RiskLevel.
Proof. solve_decision. Defined.
#[export] Instance RiskTier_eq_dec : EqDecision RiskTier.
Proof. solve_decision. Defined.
#[export] Instance ResolutionAction_eq_dec : EqDecision ResolutionAction.
Proof. solve_decision. Defined.

(** [StrEnum] values. *)
Definition issue_value (i : IssueType) : string :=
  match i with
  | DELIVERY_NOT_RECEIVED => "delivery_not_received"
  | DAMAGED_ITEM => "damaged_item"
  | WRONG_ITEM => "wrong_item"
  | QUALITY_ISSUE => "quality_issue"
  | REFUND_AMOUNT_DISPUTE => "refund_amount_dispute"
  end.

Definition all_issues : list IssueType :=
  [DELIVERY_NOT_RECEIVED; DAMAGED_ITEM; WRONG_ITEM; QUALITY_ISSUE; REFUND_AMOUNT_DISPUTE].

(** [IssueType(value)], a [ValueError] for any other text. *)
Definition issue_of_value (s : string) : result IssueType :=
  of_option (List.find (fun i => (issue_value i =? s)%string) all_issues)
            (Exn ValueError (s +:+ " is not a valid IssueType")).

Definition eligibility_value (e : Eligibility) : string :=
  match e with
  | ELIGIBLE => "eligible"
  | ELIGIBLE_WITH_APPROVAL => "eligible_with_approval"
  | INELIGIBLE => "ineligible"
  | NEEDS_EVIDENCE => "needs_evidence"
  end.

Record OrderContext := { oc_order_id : string; item_paid : Z; shipping_paid : Z }.
Record PaymentContext := { refundable_balance : Z }.
Record LogisticsEvidence := { le_status : string; proof_of_delivery : bool }.
Record CustomerRiskContext := { not_received_claims_180d : Z; refund_cases_180d : Z }.

Record PolicySnapshot := {
  policy_id : string;
  policy_version : string;
  covered_issues : list IssueType;
  refund_shipping_issues : list IssueType;
  return_required_issues : list IssueType;
  manual_review_amount : Z;
  high_value_amount : Z
}.

Record DecisionInput := {
  issue_type : IssueType;
  order : OrderContext;
  payment : PaymentContext;
  logistics : option LogisticsEvidence;
  customer_risk : CustomerRiskContext;
  policy : PolicySnapshot;
  operator_refund_limit : Z;
  visual_evidence_confirmed : bool;
  sign_receipt_hours : option Z;
  account_age_days : option Z;
  historical_refund_rate : option float;
  address_changes_30d : Z;
  device_reuse : bool
}.

(** [risk_scoring.RiskContribution] *)
Record RiskContribution := { signal : string; points : Z; reason : string }.

Record DecisionResult := {
  eligibility : Eligibility;
  action : ResolutionAction;
  refund_amount : Z;
  risk_level : RiskLevel;
  reason_code : string;
  approval_required : bool;
  approval_reasons : list string;
  signals : list string;
  missing_evidence : list string;
  policy_refs : list string;
  risk_score : Z;
  risk_tier : RiskTier;
  risk_signals : list RiskContribution
}.

(** The [Field(ge=...)] and [Field(min_length=1)] constraints. *)
Definition nonempty (s : string) : bool := negb (s =? "")%string.

Definition order_valid (o : OrderContext) : bool :=
  nonempty (oc_order_id o) && (0 <=? item_paid o) && (0 <=? shipping_paid o).
Definition payment_valid (p : PaymentContext) : bool := 0 <=? refundable_balance p.
Definition logistics_valid (l : LogisticsEvidence) : bool := nonempty (le_status l).
Definition customer_risk_valid (c : CustomerRiskContext) : bool :=
  (0 <=? not_received_claims_180d c) && (0 <=? refund_cases_180d c).
Definition policy_valid (p : PolicySnapshot) : bool :=
  nonempty (policy_id p) && nonempty (policy_version p) &&
  (0 <=? manual_review_amount p) && (0 <=? high_value_amount p).

Definition decision_input_valid (c : DecisionInput) : bool :=
  order_valid (order c) && payment_valid (payment c) &&
  match logistics c with Some l => logistics_valid l | None => true end &&
  customer_risk_valid (customer_risk c) && policy_valid (policy c) &&
  (0 <=? operator_refund_limit c).

Definition decision_result_valid (r : DecisionResult) : bool :=
  (0 <=? refund_amount r) && (0 <=? risk_score r) && (risk_score r <=? 100).

Lemma issue_of_value_value i : issue_of_value (issue_value i) = Ok i.
Proof. by destruct i. Qed.

Lemma issue_of_value_ok s i : issue_of_value s = Ok i <-> s = issue_value i.
Proof.
  split; [|intros ->; apply issue_of_value_value].
  unfold issue_of_value. intros [_ H]%of_option_ok%find_some_elem. by bprop.
Qed.

End Schemas.
