(* ===== verification/Decision.v ===== *)
(** * Risk scorecard and refund decision

    [risk_scoring.py] and [decision.py]: the transparent 0-100 scorecard, its
    intervention tier, and the deterministic decision that no language model
    takes part in. *)
From S2P Require Import Prelude Sha256 Json Errors Float64 Schemas.
Import Json Errors Schemas.

(** ** risk_scoring.py *)
Module RiskScoring.

Record RiskSignals := {
  rs_not_received_claims_180d : Z;
  rs_refund_cases_180d : Z;
  carrier_has_proof_of_delivery : bool;
  is_delivery_not_received : bool;
  high_value_refund : bool;
  rs_sign_receipt_hours : option Z;
  rs_account_age_days : option Z;
  rs_historical_refund_rate : option float;
  rs_address_changes_30d : Z;
  rs_device_reuse : bool
}.

Record RiskAssessment := {
  score : Z;
  level : RiskLevel;
  tier : RiskTier;
  contributions : list RiskContribution;
  rule_override : option string
}.

Definition DEFAULT_DUAL_APPROVAL_THRESHOLD : Z := 500000.
Definition IMMEDIATE_SIGN_RECEIPT_HOURS : Z := 2.
Definition LATE_SIGN_RECEIPT_HOURS : Z := 30 * 24.

(** The scorecard under construction: the contributions so far and the score. *)
Definition scorecard : Type := list RiskContribution * Z.

Definition _add (sc : scorecard) (sig : string) (pts : Z) (why : string) : scorecard :=
  (if pts =? 0 then sc.1 else sc.1 ++ [{| signal := sig; points := pts; reason := why |}],
   sc.2 + pts).

Definition repeat_claimant (s : RiskSignals) : bool := 3 <=? rs_not_received_claims_180d s.
Definition pod_conflict (s : RiskSignals) : bool :=
  is_delivery_not_received s && carrier_has_proof_of_delivery s.

Definition score_claims (s : RiskSignals) (sc : scorecard) : scorecard :=
  if repeat_claimant s then
    _add sc "repeat_not_received_claims" 40 "≥3 未收到货索赔，疑似重复薅羊毛"
  else if rs_not_received_claims_180d s =? 2 then
    _add sc "elevated_not_received_claims" 20 "2 次未收到货索赔"
  else sc.

Definition score_pod (s : RiskSignals) (sc : scorecard) : scorecard :=
  if pod_conflict s then
    _add sc "carrier_proof_of_delivery_conflict" 30 "承运商有签收凭证但用户称未收到"
  else sc.

Definition score_value (s : RiskSignals) (sc : scorecard) : scorecard :=
  if high_value_refund s then _add sc "high_value_refund" 15 "退款金额达高价值线" else sc.

Definition score_volume (s : RiskSignals) (sc : scorecard) : scorecard :=
  if 5 <=? rs_refund_cases_180d s then
    _add sc "high_refund_volume" 10 "180 天退款次数偏高"
  else if 3 <=? rs_refund_cases_180d s then
    _add sc "elevated_refund_volume" 5 "180 天退款次数略高"
  else sc.

Definition score_receipt (s : RiskSignals) (sc : scorecard) : scorecard :=
  match rs_sign_receipt_hours s with
  | None => sc
  | Some h =>
      if h <=? IMMEDIATE_SIGN_RECEIPT_HOURS then
        _add sc "immediate_claim_after_receipt" 15 "签收后极短时间即投诉"
      else if LATE_SIGN_RECEIPT_HOURS <=? h then
        _add sc "late_claim_after_delivery" 15 "签收后很久才投诉"
      else sc
  end.

Definition score_account (s : RiskSignals) (sc : scorecard) : scorecard :=
  match rs_account_age_days s with
  | Some d => if d <? 30 then _add sc "young_account" 8 "新账号" else sc
  | None => sc
  end.

Definition score_rate (s : RiskSignals) (sc : scorecard) : scorecard :=
  match rs_historical_refund_rate s with
  | None => sc
  | Some r =>
      if fle (rnd 3 10) r then _add sc "high_refund_rate" 15 "历史退款率≥30%"
      else if fle (rnd 15 100) r then _add sc "elevated_refund_rate" 8 "历史退款率偏高"
      else sc
  end.

Definition score_network (s : RiskSignals) (sc : scorecard) : scorecard :=
  let sc := if 2 <=? rs_address_changes_30d s
            then _add sc "frequent_address_change" 10 "近 30 天地址变更频繁" else sc in
  if rs_device_reuse s then _add sc "device_reuse" 20 "设备关联多个账号" else sc.

Definition assess_risk (s : RiskSignals) (refund_amount dual_approval_threshold : Z)
  : RiskAssessment :=
  let sc := score_claims s ([], 0) in
  let sc := score_pod s sc in
  let decisive_high := repeat_claimant s || pod_conflict s in
  let sc := score_value s sc in
  let sc := score_volume s sc in
  let sc := score_receipt s sc in
  let sc := score_account s sc in
  let sc := score_rate s sc in
  let sc := score_network s sc in
  let sco := Z.min 100 sc.2 in
  let lvl :=
    if decisive_high || (60 <=? sco) then HIGH
    else if (rs_not_received_claims_180d s =? 2) || high_value_refund s || (30 <=? sco)
         then MEDIUM
    else LOW in
  let tr :=
    if bool_decide (lvl = HIGH) && (dual_approval_threshold <=? refund_amount) then FOUR_EYES
    else if bool_decide (lvl = HIGH) then SUPERVISOR
    else if bool_decide (lvl = MEDIUM) then REVIEW
    else AUTO in
  {| score := sco; level := lvl; tier := tr; contributions := sc.1;
     rule_override :=
       if decisive_high then Some "repeat_claims_or_pod_conflict" else None |}.

(** ** Facts *)

(** A scorecard is sound when its score is the sum of its contributions and
    every contribution is positive. *)
Definition sound (sc : scorecard) : Prop :=
  sc.2 = sumZ points sc.1 /\ Forall (fun c => 0 < points c) sc.1.

Lemma add_sound sc sig pts why : 0 < pts -> sound sc -> sound (_add sc sig pts why).
Proof.
  intros Hp [Hs Hf]. unfold sound, _add. simpl.
  destruct (pts =? 0) eqn:E; bprop; [lia|]. split.
  - rewrite sumZ_app. simpl. lia.
  - apply Forall_app; split; [done|]. by apply Forall_singleton.
Qed.

#[local] Hint Resolve add_sound : afterflow.
#[local] Hint Extern 1 (0 < _) => lia : afterflow.

Ltac scorecard_step f :=
  intros H; unfold f; repeat case_in_goal; auto with afterflow.

Lemma score_claims_sound s sc : sound sc -> sound (score_claims s sc).
Proof. scorecard_step score_claims. Qed.
Lemma score_pod_sound s sc : sound sc -> sound (score_pod s sc).
Proof. scorecard_step score_pod. Qed.
Lemma score_value_sound s sc : sound sc -> sound (score_value s sc).
Proof. scorecard_step score_value. Qed.
Lemma score_volume_sound s sc : sound sc -> sound (score_volume s sc).
Proof. scorecard_step score_volume. Qed.
Lemma score_receipt_sound s sc : sound sc -> sound (score_receipt s sc).
Proof. scorecard_step score_receipt. Qed.
Lemma score_account_sound s sc : sound sc -> sound (score_account s sc).
Proof. scorecard_step score_account. Qed.
Lemma score_rate_sound s sc : sound sc -> sound (score_rate s sc).
Proof. scorecard_step score_rate. Qed.
Lemma score_network_sound s sc : sound sc -> sound (score_network s sc).
Proof. scorecard_step score_network. Qed.

#[export] Hint Resolve score_claims_sound score_pod_sound score_value_sound
  score_volume_sound score_receipt_sound score_account_sound score_rate_sound
  score_network_sound : afterflow.

Lemma empty_sound : sound ([], 0).
Proof. by split. Qed.
#[export] Hint Resolve empty_sound : afterflow.

(** The reported score is explained by the reported contributions. *)
Lemma assess_risk_score s amt thr :
  let a := assess_risk s amt thr in
  score a = Z.min 100 (sumZ points (contributions a)) /\
  Forall (fun c => 0 < points c) (contributions a).
Proof.
  unfold assess_risk. cbv zeta. simpl.
  match goal with |- context [score_network s ?sc] =>
    assert (sound (score_network s sc)) as [Hs Hf] by auto 20 with afterflow end.
  by rewrite Hs.
Qed.

Lemma sumZ_pos_nonneg (l : list RiskContribution) :
  Forall (fun c => 0 < points c) l -> 0 <= sumZ points l.
Proof. induction 1; simpl; lia. Qed.

Lemma assess_risk_range s amt thr : 0 <= score (assess_risk s amt thr) <= 100.
Proof.
  destruct (assess_risk_score s amt thr) as [-> H]. apply sumZ_pos_nonneg in H. lia.
Qed.

Lemma assess_risk_level s amt thr :
  let a := assess_risk s amt thr in
  level a = if repeat_claimant s || pod_conflict s || (60 <=? score a) then HIGH
            else if (rs_not_received_claims_180d s =? 2) || high_value_refund s
                    || (30 <=? score a) then MEDIUM else LOW.
Proof. done. Qed.

Lemma assess_risk_tier s amt thr :
  let a := assess_risk s amt thr in
  tier a = match level a with
           | HIGH => if thr <=? amt then FOUR_EYES else SUPERVISOR
           | MEDIUM => REVIEW
           | LOW => AUTO
           end.
Proof.
  unfold assess_risk. cbv zeta. simpl.
  match goal with |- context [bool_decide (?l = HIGH)] => generalize l end.
  by intros [].
Qed.

(** The scorecard is explained by its contributions and bounded, and the
    intervention tier follows from it: no human signs only when no decisive
    signal, no elevated claim count and no high-value amount is present and
    the score is below 30; two humans sign exactly for a high-risk claim at or
    above the dual-approval threshold. *)
Theorem risk_scorecard_tiers s amt thr :
  let a := assess_risk s amt thr in
  0 <= score a <= 100 /\
  score a = Z.min 100 (sumZ points (contributions a)) /\
  (tier a = AUTO <->
     repeat_claimant s = false /\ pod_conflict s = false /\ score a < 30 /\
     rs_not_received_claims_180d s <> 2 /\ high_value_refund s = false) /\
  (tier a = FOUR_EYES <->
     (repeat_claimant s = true \/ pod_conflict s = true \/ 60 <= score a) /\ thr <= amt).
Proof.
  intros a. pose proof (assess_risk_range s amt thr) as R.
  pose proof (assess_risk_score s amt thr) as [Sc _].
  pose proof (assess_risk_level s amt thr) as L. pose proof (assess_risk_tier s amt thr) as T.
  fold a in R, Sc, L, T. cbv zeta in *.
  do 2 (split; [done|]). rewrite T, L. clear T L Sc. clearbody a.
  destruct (repeat_claimant s), (pod_conflict s), (high_value_refund s); simpl;
    destruct (Z.leb_spec 60 (score a)), (Z.eqb_spec (rs_not_received_claims_180d s) 2),
      (Z.leb_spec 30 (score a)), (Z.leb_spec thr amt); simpl; intuition (done || lia).
Qed.

End RiskScoring.

(** ** decision.py *)
Module Decision.
Import RiskScoring.

Definition _missing_evidence (c : DecisionInput) : list string :=
  if bool_decide (issue_type c = DELIVERY_NOT_RECEIVED) && bool_decide (logistics c = None) then
    ["logistics_evidence"]
  else if bool_decide (issue_type c ∈ [DAMAGED_ITEM; WRONG_ITEM])
          && negb (visual_evidence_confirmed c) then
    ["visual_evidence"]
  else [].

Definition rejected (elig : Eligibility) (code : string) (sigs missing : list string)
    (policy_ref : string) : DecisionResult :=
  {| eligibility := elig; action := MANUAL_REVIEW; refund_amount := 0; risk_level := LOW;
     reason_code := code; approval_required := false; approval_reasons := [];
     signals := sigs; missing_evidence := missing; policy_refs := [policy_ref];
     risk_score := 0; risk_tier := AUTO; risk_signals := [] |}.

Definition requested_amount (c : DecisionInput) : Z :=
  item_paid (order c) +
  if bool_decide (issue_type c ∈ refund_shipping_issues (policy c))
  then shipping_paid (order c) else 0.

Definition refund_of (c : DecisionInput) : Z :=
  Z.min (requested_amount c) (refundable_balance (payment c)).

Definition has_pod (c : DecisionInput) : bool :=
  match logistics c with Some l => proof_of_delivery l | None => false end.

(** The coarse signals shown on the approval desk. *)
Definition decision_signals (c : DecisionInput) : list string :=
  let claims := not_received_claims_180d (customer_risk c) in
  (if refund_of c <? requested_amount c then ["refund_capped_by_payment_balance"] else []) ++
  (if 3 <=? claims then ["repeat_not_received_claims"]
   else if claims =? 2 then ["elevated_not_received_claims"] else []) ++
  (if bool_decide (issue_type c = DELIVERY_NOT_RECEIVED) then
     match logistics c with
     | Some l => if proof_of_delivery l then ["carrier_has_proof_of_delivery"]
                 else ["carrier_no_proof_of_delivery"]
     | None => []
     end
   else []) ++
  (if high_value_amount (policy c) <=? refund_of c then ["high_value_refund"] else []).

Definition risk_signals_of (c : DecisionInput) : RiskSignals :=
  {| rs_not_received_claims_180d := not_received_claims_180d (customer_risk c);
     rs_refund_cases_180d := refund_cases_180d (customer_risk c);
     carrier_has_proof_of_delivery := has_pod c;
     is_delivery_not_received := bool_decide (issue_type c = DELIVERY_NOT_RECEIVED);
     high_value_refund := high_value_amount (policy c) <=? refund_of c;
     rs_sign_receipt_hours := sign_receipt_hours c;
     rs_account_age_days := account_age_days c;
     rs_historical_refund_rate := historical_refund_rate c;
     rs_address_changes_30d := address_changes_30d c;
     rs_device_reuse := device_reuse c |}.

Definition approval_reasons_of (c : DecisionInput) (a : RiskAssessment) : list string :=
  (if operator_refund_limit c <? refund_of c then ["exceeds_operator_limit"] else []) ++
  (if manual_review_amount (policy c) <=? refund_of c
   then ["policy_manual_review_threshold"] else []) ++
  (if bool_decide (level a = HIGH) then ["high_risk_case"] else []) ++
  (if bool_decide (tier a <> AUTO) then ["risk_score_requires_review"] else []).

Definition decide_resolution (c : DecisionInput) : DecisionResult :=
  let policy_ref := policy_id (policy c) +:+ "@" +:+ policy_version (policy c) in
  if negb (bool_decide (issue_type c ∈ covered_issues (policy c))) then
    rejected INELIGIBLE "ISSUE_NOT_COVERED" [] [] policy_ref
  else
  let missing := _missing_evidence c in
  if negb (bool_decide (missing = [])) then
    rejected NEEDS_EVIDENCE "REQUIRED_EVIDENCE_MISSING" [] missing policy_ref
  else
  if refundable_balance (payment c) =? 0 then
    rejected INELIGIBLE "NO_REFUNDABLE_BALANCE" ["payment_balance_exhausted"] [] policy_ref
  else
  let assessment :=
    assess_risk (risk_signals_of c) (refund_of c) DEFAULT_DUAL_APPROVAL_THRESHOLD in
  let reasons := approval_reasons_of c assessment in
  let required := negb (bool_decide (reasons = [])) in
  {| eligibility := if required then ELIGIBLE_WITH_APPROVAL else ELIGIBLE;
     action := if bool_decide (issue_type c ∈ return_required_issues (policy c))
               then RETURN_AND_REFUND else REFUND_ORIGINAL_PAYMENT;
     refund_amount := refund_of c;
     risk_level := level assessment;
     reason_code := "POLICY_MATCHED";
     approval_required := required;
     approval_reasons := reasons;
     signals := decision_signals c;
     missing_evidence := [];
     policy_refs := [policy_ref];
     risk_score := score assessment;
     risk_tier := tier assessment;
     risk_signals := contributions assessment |}.

(** ** Facts *)

Lemma refund_of_bounds c :
  decision_input_valid c = true ->
  0 <= refund_of c <= refundable_balance (payment c) /\ refund_of c <= requested_amount c.
Proof.
  unfold decision_input_valid, order_valid, payment_valid. intros H. bprop.
  unfold refund_of, requested_amount. case_bool_decide; lia.
Qed.

Lemma decide_resolution_valid c :
  decision_input_valid c = true -> decision_result_valid (decide_resolution c) = true.
Proof.
  intros H. pose proof (refund_of_bounds c H) as [B _].
  pose proof (assess_risk_range (risk_signals_of c) (refund_of c)
                DEFAULT_DUAL_APPROVAL_THRESHOLD) as R.
  unfold decide_resolution, decision_result_valid. cbv zeta.
  set (a := assess_risk _ _ _) in *. clearbody a. repeat (case_in_goal; [done|]).
  simpl. rewrite !andb_true_iff, !Z.leb_le. lia.
Qed.

Lemma decide_resolution_amount c :
  decision_input_valid c = true ->
  0 <= refund_amount (decide_resolution c) <= refundable_balance (payment c).
Proof.
  intros H. pose proof (refund_of_bounds c H) as [B _].
  assert (0 <= refundable_balance (payment c)) as N.
  { unfold decision_input_valid, payment_valid in H. bprop. lia. }
  unfold decide_resolution. cbv zeta. repeat (case_in_goal; [done|]). done.
Qed.

Definition refund_eligible (r : DecisionResult) : bool :=
  bool_decide (eligibility r = ELIGIBLE) || bool_decide (eligibility r = ELIGIBLE_WITH_APPROVAL).

(** The decision is positive exactly when the issue is covered, the evidence
    is complete and money is left. *)
Definition payable (c : DecisionInput) : bool :=
  bool_decide (issue_type c ∈ covered_issues (policy c)) &&
  bool_decide (_missing_evidence c = []) && negb (refundable_balance (payment c) =? 0).

Lemma approval_reasons_nil c a :
  approval_reasons_of c a = [] <->
  refund_of c <= operator_refund_limit c /\ refund_of c < manual_review_amount (policy c) /\
  level a <> HIGH /\ tier a = AUTO.
Proof.
  unfold approval_reasons_of. rewrite !app_nil.
  repeat case_bool_decide; destruct (Z.ltb_spec (operator_refund_limit c) (refund_of c)),
    (Z.leb_spec (manual_review_amount (policy c)) (refund_of c));
    intuition (done || lia || (destruct (tier a); done)).
Qed.

(** C10: for every valid input the decision satisfies its schema; it pays
    nothing unless the issue is covered, the evidence complete and the balance
    positive; then it pays what was asked for (shipping only where the policy
    refunds it) capped by the refundable balance; and it needs no human exactly
    when the amount is within the operator's own limit, below the policy's
    review threshold and the risk tier is AUTO. *)
Theorem decide_resolution_spec c (H : decision_input_valid c = true) :
  let r := decide_resolution c in
  decision_result_valid r = true /\
  refund_eligible r = payable c /\
  (payable c = false -> refund_amount r = 0 /\ action r = MANUAL_REVIEW) /\
  (payable c = true ->
     refund_amount r = Z.min (requested_amount c) (refundable_balance (payment c)) /\
     (approval_required r = false <->
        refund_amount r <= operator_refund_limit c /\
        refund_amount r < manual_review_amount (policy c) /\ risk_tier r = AUTO)).
Proof.
  cbv zeta. split; [by apply decide_resolution_valid|].
  pose proof (assess_risk_tier (risk_signals_of c) (refund_of c)
    DEFAULT_DUAL_APPROVAL_THRESHOLD) as T. cbv zeta in T.
  unfold decide_resolution, payable, refund_eligible. cbv zeta.
  set (a := assess_risk _ _ _) in *. clearbody a.
  destruct (bool_decide (issue_type c ∈ _)); simpl; [|done].
  destruct (bool_decide (_missing_evidence c = [])); simpl; [|done].
  destruct (refundable_balance (payment c) =? 0); simpl; [done|].
  assert (tier a = AUTO -> level a <> HIGH) as TL.
  { intros E L. rewrite T, L in E. by case_in E. }
  split_and!.
  - by destruct (negb _).
  - done.
  - intros _. split; [done|]. rewrite negb_false_iff, bool_decide_eq_true.
    rewrite approval_reasons_nil. naive_solver.
Qed.

Definition demo_case : DecisionInput :=
  {| issue_type := WRONG_ITEM;
     order := {| oc_order_id := "ORDER-1"; item_paid := 800; shipping_paid := 50 |};
     payment := {| refundable_balance := 500 |}; logistics := None;
     customer_risk := {| not_received_claims_180d := 0; refund_cases_180d := 0 |};
     policy := {| policy_id := "P"; policy_version := "1"; covered_issues := [WRONG_ITEM];
                  refund_shipping_issues := [WRONG_ITEM]; return_required_issues := [];
                  manual_review_amount := 1000; high_value_amount := 1000 |};
     operator_refund_limit := 600; visual_evidence_confirmed := true;
     sign_receipt_hours := None; account_age_days := None; historical_refund_rate := None;
     address_changes_30d := 0; device_reuse := false |}.

Lemma decide_resolution_spec_witness :
  payable demo_case = true /\
  refund_amount (decide_resolution demo_case) = Z.min 850 500 /\
  approval_required (decide_resolution demo_case) = false.
Proof.
  destruct (decide_resolution_spec demo_case eq_refl) as (_&_&_&H).
  destruct (H eq_refl) as [H1 [_ H2]]. split; [reflexivity|split; [exact H1|]].
  apply H2. vm_compute. split; [discriminate|split; reflexivity].
Defined.

End Decision.
