(* ===== verification/Ledger.v ===== *)
(** * The refund ledger

    [actions.MockRefundExecutor]: the authorize-then-capture adapter.  Every
    method runs under the executor's lock, so concurrent callers amount to a
    sequence of atomic operations; [ledger_op] is such an operation. *)
From S2P Require Import Prelude Sha256 Json Errors.
Import Sha256 Json Errors.

Module Ledger.

Record RefundExecutor := {
  transactions : gmap string string;
  available : gmap string Z;
  reserved : gmap string Z;
  settled : gset string
}.

Definition REFUND_CHANNEL : string := "original_payment".
Definition REFUND_ETA_HOURS : Z := 24.

Definition new_executor (initial_balances : gmap string Z) : RefundExecutor :=
  {| transactions := ∅; available := initial_balances; reserved := ∅; settled := ∅ |}.

Definition balance_of (e : RefundExecutor) (order_id : string) : Z :=
  default 0 (available e !! order_id).

Definition reserved_of (e : RefundExecutor) (order_id : string) : Z :=
  default 0 (reserved e !! order_id).

Definition with_pools (e : RefundExecutor) (order_id : string) (av rs : Z) : RefundExecutor :=
  {| transactions := transactions e;
     available := <[order_id := av]> (available e);
     reserved := <[order_id := rs]> (reserved e);
     settled := settled e |}.

Definition reserve (e : RefundExecutor) (order_id : string) (amount : Z)
  : bool * RefundExecutor :=
  let av := balance_of e order_id in
  if av <? amount then (false, e)
  else (true, with_pools e order_id (av - amount) (reserved_of e order_id + amount)).

Definition release (e : RefundExecutor) (order_id : string) (amount : Z) : RefundExecutor :=
  let rs := reserved_of e order_id in
  let released := Z.min rs amount in
  with_pools e order_id (balance_of e order_id + released) (rs - released).

Definition is_settled (e : RefundExecutor) (idempotency_key : string) : bool :=
  bool_decide (idempotency_key ∈ settled e).

Definition settle (e : RefundExecutor) (idempotency_key : string) : RefundExecutor :=
  match transactions e !! idempotency_key with
  | Some _ =>
      {| transactions := transactions e; available := available e; reserved := reserved e;
         settled := {[idempotency_key]} ∪ settled e |}
  | None => e
  end.

Definition transaction_reference (order_id : string) (amount : Z) (key : string) : string :=
  "MOCK-REFUND-" +:+
  String.substring 0 16 (sha256 (order_id +:+ ":" +:+ pretty amount +:+ ":" +:+ key)).

Definition refund (e : RefundExecutor) (order_id : string) (amount : Z)
    (idempotency_key : string) : result string * RefundExecutor :=
  match transactions e !! idempotency_key with
  | Some reference => (Ok reference, e)
  | None =>
      let rs := reserved_of e order_id in
      if rs <? amount then
        (Raise (Exn ActionConflict "insufficient reserved refund balance"), e)
      else
        let reference := transaction_reference order_id amount idempotency_key in
        (Ok reference,
         {| transactions := <[idempotency_key := reference]> (transactions e);
            available := available e;
            reserved := <[order_id := rs - amount]> (reserved e);
            settled := settled e |})
  end.

(** ** Sequences of operations *)

Inductive ledger_op :=
| OpReserve (order_id : string) (amount : Z)
| OpRelease (order_id : string) (amount : Z)
| OpRefund (order_id : string) (amount : Z) (key : string)
| OpSettle (key : string).

Definition apply_op (e : RefundExecutor) (op : ledger_op) : RefundExecutor :=
  match op with
  | OpReserve o a => (reserve e o a).2
  | OpRelease o a => release e o a
  | OpRefund o a k => (refund e o a k).2
  | OpSettle k => settle e k
  end.

(** Money that leaves the ledger of [order] in one operation: the amount of a
    refund under a key seen for the first time. *)
Definition captured (e : RefundExecutor) (op : ledger_op) (order : string) : Z :=
  match op with
  | OpRefund o a k =>
      match transactions e !! k with
      | Some _ => 0
      | None => if reserved_of e o <? a then 0 else if bool_decide (o = order) then a else 0
      end
  | _ => 0
  end.

Fixpoint run (e : RefundExecutor) (ops : list ledger_op) (order : string)
  : RefundExecutor * Z :=
  match ops with
  | [] => (e, 0)
  | op :: ops =>
      let '(e', total) := run (apply_op e op) ops order in
      (e', captured e op order + total)
  end.

Definition op_amount (op : ledger_op) : Z :=
  match op with
  | OpReserve _ a | OpRelease _ a | OpRefund _ a _ => a
  | OpSettle _ => 0
  end.

(** ** Facts *)

Lemma balance_with_pools e o av rs o' :
  balance_of (with_pools e o av rs) o' = if decide (o = o') then av else balance_of e o'.
Proof. unfold balance_of, with_pools; simpl. rewrite lookup_insert. by case_decide. Qed.

Lemma reserved_with_pools e o av rs o' :
  reserved_of (with_pools e o av rs) o' = if decide (o = o') then rs else reserved_of e o'.
Proof. unfold reserved_of, with_pools; simpl. rewrite lookup_insert. by case_decide. Qed.

#[export] Hint Rewrite balance_with_pools reserved_with_pools : afterflow.

(** Both pools of every order are non-negative. *)
Definition solvent (e : RefundExecutor) : Prop :=
  forall o, 0 <= balance_of e o /\ 0 <= reserved_of e o.

Ltac ledger :=
  autorewrite with afterflow in *; repeat case_decide; subst; try lia.

Lemma reserve_solvent e o a : 0 <= a -> solvent e -> solvent (reserve e o a).2.
Proof.
  intros Ha S o'. unfold reserve. pose proof (S o). pose proof (S o').
  destruct (balance_of e o <? a) eqn:E; bprop; simpl; [done|]. ledger.
Qed.

Lemma release_solvent e o a : 0 <= a -> solvent e -> solvent (release e o a).
Proof. intros Ha S o'. unfold release. pose proof (S o). pose proof (S o'). ledger. Qed.

Lemma settle_pools e k o :
  balance_of (settle e k) o = balance_of e o /\ reserved_of (settle e k) o = reserved_of e o.
Proof. unfold settle. by destruct (_ !! k). Qed.

(** Effect of a refund on the two pools. *)
Lemma refund_pools e o a k o' :
  balance_of (refund e o a k).2 o' = balance_of e o' /\
  reserved_of (refund e o a k).2 o' = reserved_of e o' - captured e (OpRefund o a k) o'.
Proof.
  unfold refund, captured. destruct (transactions e !! k); simpl; [split; [done|lia]|].
  destruct (reserved_of e o <? a) eqn:E; simpl; [split; [done|lia]|].
  split; [done|]. unfold reserved_of at 1; simpl. rewrite lookup_insert.
  repeat case_decide; case_bool_decide; simplify_eq; simpl; fold (reserved_of e o'); lia.
Qed.

Lemma captured_bounds e op o :
  0 <= op_amount op -> 0 <= reserved_of e o -> 0 <= captured e op o <= reserved_of e o.
Proof.
  destruct op as [| |o' a k|]; simpl; try lia. intros Ha Hr.
  destruct (transactions e !! k); [lia|].
  destruct (Z.ltb_spec (reserved_of e o') a); [lia|]. case_bool_decide; subst; lia.
Qed.

Lemma apply_op_solvent e op : 0 <= op_amount op -> solvent e -> solvent (apply_op e op).
Proof.
  intros Ha S o'. destruct op as [o a|o a|o a k|k].
  - by apply reserve_solvent.
  - by apply release_solvent.
  - simpl. destruct (refund_pools e o a k o') as [-> ->].
    pose proof (S o'). pose proof (captured_bounds e (OpRefund o a k) o' Ha). lia.
  - simpl. destruct (settle_pools e k o') as [-> ->]. apply S.
Qed.

(** No operation creates or destroys money. *)
Lemma apply_op_balance e op o :
  balance_of (apply_op e op) o + reserved_of (apply_op e op) o + captured e op o
  = balance_of e o + reserved_of e o.
Proof.
  destruct op as [o' a|o' a|o' a k|k]; unfold apply_op.
  - unfold reserve, captured. destruct (balance_of e o' <? a); simpl; ledger.
  - unfold release, captured. ledger.
  - destruct (refund_pools e o' a k o) as [-> ->]. lia.
  - destruct (settle_pools e k o) as [-> ->]. simpl. lia.
Qed.

Lemma run_solvent ops e o :
  Forall (fun op => 0 <= op_amount op) ops -> solvent e ->
  solvent (run e ops o).1 /\ 0 <= (run e ops o).2.
Proof.
  intros H. revert e. induction H as [|op ops Hop _ IH]; intros e S; simpl; [by split|].
  destruct (IH _ (apply_op_solvent e op Hop S)) as [S' T].
  destruct (run (apply_op e op) ops o) as [e' t]; simpl in *. split; [done|].
  pose proof (S o). pose proof (captured_bounds e op o Hop). lia.
Qed.

Lemma run_balance ops e o :
  balance_of (run e ops o).1 o + reserved_of (run e ops o).1 o + (run e ops o).2
  = balance_of e o + reserved_of e o.
Proof.
  revert e. induction ops as [|op ops IH]; intros e; simpl; [lia|].
  specialize (IH (apply_op e op)). pose proof (apply_op_balance e op o).
  destruct (run (apply_op e op) ops o) as [e' t]; simpl in *. lia.
Qed.

Lemma refund_transaction e o a k r e' :
  refund e o a k = (Ok r, e') -> transactions e' !! k = Some r.
Proof.
  unfold refund. destruct (transactions e !! k) eqn:T; [by intros; simplify_eq|].
  destruct (reserved_of e o <? a); intros; simplify_eq; simpl. apply lookup_insert_eq.
Qed.

Lemma transactions_persist e op k r :
  transactions e !! k = Some r -> transactions (apply_op e op) !! k = Some r.
Proof.
  intros H. destruct op as [o a|o a|o a k'|k']; simpl.
  - unfold reserve. by destruct (_ <? _).
  - done.
  - unfold refund. destruct (transactions e !! k') eqn:T; [done|].
    destruct (_ <? _); [done|]. simpl. rewrite lookup_insert_ne; [done|]. congruence.
  - unfold settle. by destruct (_ !! k').
Qed.

Lemma run_transactions_persist ops e o k r :
  transactions e !! k = Some r -> transactions (run e ops o).1 !! k = Some r.
Proof.
  revert e. induction ops as [|op ops IH]; intros e H; simpl; [done|].
  specialize (IH _ (transactions_persist e op k r H)).
  by destruct (run (apply_op e op) ops o).
Qed.

(** ** Properties *)

(** C2: money is conserved and never overdrawn.  From non-negative initial
    balances, after any sequence of reserve, release, refund and settle
    operations with non-negative amounts, available + reserved + captured of
    every order is its initial balance and all three are non-negative; in
    particular the captured total never exceeds the initial balance. *)
Theorem ledger_conserves_money (initial : gmap string Z) (ops : list ledger_op) (o : string)
    (Hinit : forall o', 0 <= default 0 (initial !! o'))
    (Hops : Forall (fun op => 0 <= op_amount op) ops) :
  let '(e, paid) := run (new_executor initial) ops o in
  balance_of e o + reserved_of e o + paid = default 0 (initial !! o) /\
  0 <= balance_of e o /\ 0 <= reserved_of e o /\ 0 <= paid <= default 0 (initial !! o).
Proof.
  assert (solvent (new_executor initial)) as S by (intros o'; split; [apply Hinit|done]).
  pose proof (run_balance ops (new_executor initial) o) as B.
  destruct (run_solvent ops (new_executor initial) o Hops S) as [S' P].
  destruct (run (new_executor initial) ops o) as [e paid]. simpl in *.
  specialize (S' o).
  change (balance_of (new_executor initial) o) with (default 0 (initial !! o)) in B.
  change (reserved_of (new_executor initial) o) with 0 in B. lia.
Qed.

Definition demo_ops : list ledger_op :=
  [OpReserve "ORDER-1" 60; OpReserve "ORDER-1" 60; OpRefund "ORDER-1" 60 "k1";
   OpRefund "ORDER-1" 60 "k1"; OpReserve "ORDER-1" 30; OpRelease "ORDER-1" 30].

Lemma ledger_conserves_money_witness :
  let '(e, paid) := run (new_executor {["ORDER-1" := 100]}) demo_ops "ORDER-1" in
  paid = 60 /\ balance_of e "ORDER-1" + reserved_of e "ORDER-1" + paid = 100.
Proof.
  pose proof (ledger_conserves_money {["ORDER-1" := 100]} demo_ops "ORDER-1") as H.
  assert ((run (new_executor {["ORDER-1" := 100]}) demo_ops "ORDER-1").2 = 60) as E
    by (vm_compute; reflexivity).
  destruct (run _ _ _) as [e paid]. split; [exact E|]. apply H.
  - intros o'. destruct (decide (o' = "ORDER-1")) as [->|Hne]; [done|].
    by rewrite lookup_singleton_ne.
  - repeat constructor; done.
Defined.

(** A refund is idempotent under its key.  Once a refund under [k] has
    returned a reference, then after any further operations a refund under [k],
    whatever its order and amount, returns that same reference and leaves the
    ledger as it is. *)
Theorem refund_replays e o a k r e1 ops order o' a' :
  refund e o a k = (Ok r, e1) ->
  let e2 := (run e1 ops order).1 in refund e2 o' a' k = (Ok r, e2).
Proof.
  intros H%refund_transaction e2.
  apply (run_transactions_persist ops _ order) in H. unfold refund, e2. by rewrite H.
Qed.

Lemma refund_replays_witness :
  let e := (reserve (new_executor {["O" := 10]}) "O" 10).2 in
  let e1 := (refund e "O" 10 "k").2 in
  exists r, refund e1 "OTHER" 999 "k" = (Ok r, e1).
Proof.
  intros e e1. exists (transaction_reference "O" 10 "k").
  apply (refund_replays e "O" 10 "k" _ e1 [] "O" "OTHER" 999). vm_compute. reflexivity.
Defined.

End Ledger.
