(* ===== verification/Text.v ===== *)
(** * Instants and texts

    [Clock]: an instant is a number of microseconds since the epoch, in UTC; here
    are the texts Python and pydantic give it.

    [Text]: operations of [str] the program uses, on the UTF-8 bytes of the text:
    splitting into code points, [strip], [lower], [in], [startswith] and slicing
    by code points. *)
From S2P Require Import Prelude Json.
Import Json.

Module Clock.

(** Year, month and day of a day number since the epoch. *)
Definition civil (days : Z) : Z * Z * Z :=
  let z := days + 719468 in
  let era := z / 146097 in
  let doe := z mod 146097 in
  let yoe := (doe - doe / 1460 + doe / 36524 - doe / 146096) / 365 in
  let doy := doe - (365 * yoe + yoe / 4 - yoe / 100) in
  let mp := (5 * doy + 2) / 153 in
  let m := if mp <? 10 then mp + 3 else mp - 9 in
  (yoe + era * 400 + (if m <=? 2 then 1 else 0), m, doy - (153 * mp + 2) / 5 + 1).

Fixpoint zeros (n : nat) : string :=
  match n with O => "" | S n => String "0" (zeros n) end.

(** [f"{n:0{width}d}"] for a non-negative [n]. *)
Definition padded (width : nat) (n : Z) : string :=
  let s := pretty n in zeros (width - String.length s) +:+ s.

Definition second : Z := 1000000.

(** [YYYY-MM-DD HH:MM:SS[.ffffff]], with a separator of date and time. *)
Definition timestamp (sep : string) (t : Z) : string :=
  let '(y, m, d) := civil (t / (86400 * second)) in
  let secs := (t / second) mod 86400 in
  let us := t mod second in
  padded 4 y +:+ "-" +:+ padded 2 m +:+ "-" +:+ padded 2 d +:+ sep +:+
  padded 2 (secs / 3600) +:+ ":" +:+ padded 2 (secs / 60 mod 60) +:+ ":" +:+
  padded 2 (secs mod 60) +:+ (if us =? 0 then "" else "." +:+ padded 6 us).

(** [isoformat()] and [str()] of a naive datetime. *)
Definition isoformat_naive : Z -> string := timestamp "T".
Definition str_naive : Z -> string := timestamp " ".

(** [datetime.now(UTC).isoformat()] *)
Definition isoformat (t : Z) : string := isoformat_naive t +:+ "+00:00".

(** [model_dump(mode="json")] of an aware UTC datetime. *)
Definition json_instant (t : Z) : string := isoformat_naive t +:+ "Z".

Example isoformat_epoch : isoformat 0 = "1970-01-01T00:00:00+00:00".
Proof. reflexivity. Qed.
Example isoformat_leap : json_instant (1709164799000001) = "2024-02-28T23:59:59.000001Z".
Proof. reflexivity. Qed.

End Clock.



Module Text.

(** A byte 0x80..0xBF continues a code point. *)
Definition continuation (c : ascii) : bool :=
  let n := N_of_ascii c in ((128 <=? n) && (n <? 192))%N.

Definition starts_continuation (s : string) : bool :=
  match s with String c _ => continuation c | EmptyString => false end.

(** The code points of a text, each as its bytes. *)
Fixpoint chars (s : string) : list string :=
  match s with
  | EmptyString => []
  | String c s =>
      match chars s with
      | x :: l => if starts_continuation x then String c x :: l
                  else String c "" :: x :: l
      | [] => [String c ""]
      end
  end.

Definition text_of (l : list string) : string := foldr (fun x acc => x +:+ acc) "" l.

(** [len(s)] and [s[:n]] *)
Definition len (s : string) : Z := Z.of_nat (length (chars s)).
Definition prefix (n : nat) (s : string) : string := text_of (take n (chars s)).

Definition bytes (l : list N) : string :=
  foldr (fun n acc => String (ascii_of_N n) acc) "" l.

(** [str.isspace] on one code point. *)
Definition whitespace : list string :=
  map bytes
    ([[9]; [10]; [11]; [12]; [13]; [28]; [29]; [30]; [31]; [32]; [0xc2; 0x85]; [0xc2; 0xa0];
      [0xe1; 0x9a; 0x80]; [0xe2; 0x80; 0xa8]; [0xe2; 0x80; 0xa9]; [0xe2; 0x80; 0xaf];
      [0xe2; 0x81; 0x9f]; [0xe3; 0x80; 0x80]]
     ++ map (fun i => [0xe2; 0x80; 0x80 + i]) [0; 1; 2; 3; 4; 5; 6; 7; 8; 9; 10])%N.

Definition is_space (c : string) : bool := bool_decide (c ∈ whitespace).

Fixpoint drop_while (f : string -> bool) (l : list string) : list string :=
  match l with
  | x :: l' => if f x then drop_while f l' else l
  | [] => []
  end.

(** [s.strip()] *)
Definition strip (s : string) : string :=
  text_of (rev (drop_while is_space (rev (drop_while is_space (chars s))))).

(** [s.lower()] as far as ASCII letters go. The texts the program compares
    with are ASCII without the letter k, or contain no letters, and no other
    code point lower-cases to an ASCII letter but k. *)
Definition lower_char (c : ascii) : ascii :=
  let n := N_of_ascii c in
  if ((65 <=? n) && (n <=? 90))%N then ascii_of_N (n + 32) else c.

Fixpoint lower (s : string) : string :=
  match s with EmptyString => "" | String c s => String (lower_char c) (lower s) end.

(** [s.lower()] where the letter k matters: U+212A lower-cases to it. *)
Fixpoint kelvin (s : string) : string :=
  match s with
  | String "226" (String "132" (String "170" s)) => String "k" (kelvin s)
  | String c s => String c (kelvin s)
  | EmptyString => ""
  end.
Definition lowered (s : string) : string := lower (kelvin s).

Fixpoint starts_with (p s : string) : bool :=
  match p, s with
  | EmptyString, _ => true
  | String a p, String b s => Ascii.eqb a b && starts_with p s
  | String _ _, EmptyString => false
  end.

(** [sub in s]; on well-formed UTF-8 a byte match is a code-point match. *)
Fixpoint contains (sub s : string) : bool :=
  starts_with sub s ||
  match s with EmptyString => false | String _ s => contains sub s end.

(** ** Numbers in texts *)

Definition digit_of (c : ascii) : option Z :=
  let n := N_of_ascii c in
  if ((48 <=? n) && (n <=? 57))%N then Some (Z.of_N n - 48) else None.

(** Decimal digits, with single underscores between them. *)
Fixpoint digits (acc : Z) (s : string) : option Z :=
  match s with
  | EmptyString => Some acc
  | String c s =>
      match digit_of c with
      | Some d => digits (acc * 10 + d) s
      | None =>
          if Ascii.eqb c "_"
          then match s with
               | String c' _ => match digit_of c' with Some _ => digits acc s | None => None end
               | EmptyString => None
               end
          else None
      end
  end.

Definition natural (s : string) : option Z :=
  match s with
  | String c _ => match digit_of c with Some _ => digits 0 s | None => None end
  | EmptyString => None
  end.

(** [int(s)], [None] for a [ValueError], on ASCII digits. *)
Definition int_of_text (s : string) : option Z :=
  match strip s with
  | String "-" s => option_map Z.opp (natural s)
  | String "+" s => natural s
  | s => natural s
  end.

(** [s.rpartition(sep)] on a one-character separator: what is before and after
    its last occurrence. *)
Fixpoint rpartition (sep : ascii) (s : string) : option (string * string) :=
  match s with
  | EmptyString => None
  | String c s' =>
      match rpartition sep s' with
      | Some (a, b) => Some (String c a, b)
      | None => if Ascii.eqb c sep then Some ("", s') else None
      end
  end.

(** ** Facts *)

Lemma text_of_chars s : text_of (chars s) = s.
Proof.
  induction s as [|c s IH]; [done|]. simpl.
  destruct (chars s) as [|x l] eqn:E; simpl in *.
  - by rewrite <-IH.
  - destruct (starts_continuation x); simpl; by rewrite <-IH.
Qed.

Lemma prefix_all s n : (length (chars s) <= n)%nat -> prefix n s = s.
Proof. intros. unfold prefix. rewrite take_ge by done. apply text_of_chars. Qed.

Lemma starts_with_spec p s : starts_with p s = true <-> exists r, s = p +:+ r.
Proof.
  revert s. induction p as [|a p IH]; intros s; simpl.
  - split; [by exists s|done].
  - destruct s as [|b s]; [split; [done|by intros [r [=]]]|].
    rewrite andb_true_iff, Ascii.eqb_eq, IH.
    split; [intros [-> [r ->]]; by exists r|].
    intros [r [= -> E]]. split; [done|]. by exists r.
Qed.

Lemma contains_spec sub s : contains sub s = true <-> exists l r, s = l +:+ (sub +:+ r).
Proof.
  induction s as [|c s IH]; simpl; rewrite orb_true_iff, starts_with_spec.
  - split; [|intros [l [r E]]].
    + intros [[r E]|]; [by exists "", r|done].
    + left. destruct l; [by exists r|done].
  - rewrite IH. split.
    + intros [[r E]|(l&r&->)]; [by exists "", r|by exists (String c l), r].
    + intros (l&r&E). destruct l as [|c' l]; [left; by exists r|].
      right. injection E as -> E. by exists l, r.
Qed.

Lemma digit_of_pretty x : digit_of (pretty_N_char (x mod 10)) = Some (Z.of_N (x mod 10)).
Proof.
  assert (x mod 10 < 10)%N as H by (apply N.mod_lt; lia). revert H. generalize (x mod 10)%N as d. intros d H.
  assert (d = 0 \/ d = 1 \/ d = 2 \/ d = 3 \/ d = 4 \/ d = 5 \/ d = 6 \/ d = 7 \/ d = 8 \/ d = 9)%N as E by lia.
  by repeat destruct E as [->|E]; [..|subst].
Qed.

Lemma digits_pretty_go x s : digits 0 (pretty_N_go x s) = digits (Z.of_N x) s.
Proof.
  revert s. induction (N.lt_wf_0 x) as [x _ IH]; intros s.
  destruct (decide (x = 0%N)) as [->|Nx]; [by rewrite pretty_N_go_0|].
  rewrite pretty_N_go_step by lia. rewrite IH by (apply N.div_lt; lia).
  simpl. rewrite digit_of_pretty. f_equal. pose proof (N.div_mod x 10 ltac:(lia)). lia.
Qed.

Lemma pretty_go_first x s :
  (0 < x)%N -> exists c r d, pretty_N_go x s = String c r /\ digit_of c = Some d.
Proof.
  revert s. induction (N.lt_wf_0 x) as [x _ IH]; intros s Hx.
  rewrite pretty_N_go_step by lia.
  destruct (decide (x / 10 = 0)%N) as [->|Nx].
  - rewrite pretty_N_go_0. eexists _, _, _. split; [done|apply digit_of_pretty].
  - apply IH; [apply N.div_lt; lia|by apply N.neq_0_lt_0].
Qed.

Lemma natural_pretty (n : N) : natural (pretty n) = Some (Z.of_N n).
Proof.
  unfold pretty, pretty_N. destruct (decide (n = 0%N)) as [->|Nn]; [done|].
  destruct (pretty_go_first n "" ltac:(lia)) as (c&r&d&E&D).
  pose proof (digits_pretty_go n "") as P. rewrite E in *. simpl. rewrite D. simpl in P. rewrite D in P. exact P.
Qed.

(** Texts of ASCII digits. *)
Fixpoint all_digits (s : string) : bool :=
  match s with
  | EmptyString => true
  | String c s => match digit_of c with Some _ => all_digits s | None => false end
  end.

Lemma digit_cases c d :
  digit_of c = Some d ->
  c ∈ ["0"; "1"; "2"; "3"; "4"; "5"; "6"; "7"; "8"; "9"]%char.
Proof. destruct c as [[] [] [] [] [] [] [] []]; intros [=]; set_solver. Qed.

Lemma digit_alone c d : digit_of c = Some d -> is_space (String c "") = false /\ continuation c = false.
Proof.
  intros H%digit_cases. repeat (apply elem_of_cons in H as [->|H]; [done|]). by apply not_elem_of_nil in H.
Qed.

Lemma all_digits_chars s :
  all_digits s = true ->
  chars s = map (fun c => String c "") (String.list_ascii_of_string s) /\
  Forall (fun x => is_space x = false) (chars s).
Proof.
  induction s as [|c s IH]; simpl; [by split|]. destruct (digit_of c) as [d|] eqn:D; [|done].
  intros H. destruct (IH H) as [E F]. rewrite E in *.
  destruct s as [|c' s]; simpl in *.
  - split; [done|]. constructor; [by apply (digit_alone c d)|done].
  - destruct (digit_of c') as [d'|] eqn:D'; [|done].
    destruct (digit_alone c' d' D') as [_ N]. rewrite N.
    split; [done|]. constructor; [by apply (digit_alone c d)|done].
Qed.

Lemma drop_while_none f l : Forall (fun x => f x = false) l -> drop_while f l = l.
Proof. destruct 1 as [|x l Hx _]; simpl; [done|by rewrite Hx]. Qed.

Lemma strip_digits s : all_digits s = true -> strip s = s.
Proof.
  intros [_ F]%all_digits_chars. unfold strip. rewrite (drop_while_none is_space (chars s)) by done.
  rewrite drop_while_none by (by apply List.Forall_rev). by rewrite rev_involutive, text_of_chars.
Qed.

Lemma pretty_go_digits x s : all_digits s = true -> all_digits (pretty_N_go x s) = true.
Proof.
  revert s. induction (N.lt_wf_0 x) as [x _ IH]. intros s Hs.
  destruct (decide (x = 0%N)) as [->|Hx]; [by rewrite pretty_N_go_0|].
  rewrite pretty_N_go_step by lia. apply IH; [apply N.div_lt; lia|].
  simpl. by rewrite digit_of_pretty.
Qed.

Lemma pretty_digits (z : Z) : 0 <= z -> all_digits (pretty z) = true.
Proof.
  destruct z as [|p|p]; intros Hz; [done| |lia].
  change (pretty (Z.pos p)) with (pretty (Npos p)). unfold pretty, pretty_N.
  destruct (decide _); [done|]. by apply pretty_go_digits.
Qed.

(** [int(str(z)) = z] *)
Lemma int_of_pretty (z : Z) : 0 <= z -> int_of_text (pretty z) = Some z.
Proof.
  intros Hz. pose proof (pretty_digits z Hz) as D. unfold int_of_text. rewrite strip_digits by done.
  assert (natural (pretty z) = Some z) as N.
  { destruct z as [|p|p]; [done| |lia]. exact (natural_pretty (Npos p)). }
  destruct (pretty z) as [|c s]; [done|]. simpl in D. destruct (digit_of c) eqn:E; [|done].
  apply digit_cases in E. repeat (apply elem_of_cons in E as [->|E]; [exact N|]).
  by apply not_elem_of_nil in E.
Qed.

Lemma rpartition_digits s : all_digits s = true -> rpartition "-" s = None.
Proof.
  induction s as [|c s IH]; simpl; [done|]. destruct (digit_of c) eqn:D; [|done].
  intros H. rewrite IH by done. apply digit_cases in D.
  repeat (apply elem_of_cons in D as [->|D]; [done|]). by apply not_elem_of_nil in D.
Qed.

Lemma rpartition_app sep s t :
  rpartition sep t = None -> rpartition sep (s +:+ String sep t) = Some (s, t).
Proof.
  intros E. induction s as [|c s IH]; simpl; [by rewrite E, Ascii.eqb_refl|].
  by rewrite IH.
Qed.

Example strip_example : strip (bytes [32; 0xe3; 0x80; 0x80]%N +:+ " 处理 ok " +:+ bytes [10%N]) = "处理 ok".
Proof. vm_compute. reflexivity. Qed.
Example len_example : len "处理ok" = 4.
Proof. reflexivity. Qed.

End Text.
