(* ===== verification/Slices.v ===== *)
(** * Slices of texts

    [s[:n]], [s[-n:]], [s.split()] and [" ".join(l)] on code points, and the
    head-and-tail truncation that several modules of the harness write out
    ([_bound_metadata_text], [_bound_text]), with the facts that make their
    lengths add up. *)
From S2P Require Import Prelude Json Text.
Import Text.

Module Slices.

(** [s[:n]] *)
Definition upto (n : Z) (s : string) : string :=
  prefix (Z.to_nat (if n <? 0 then len s + n else n)) s.

(** [s[-n:]] for [0 < n] *)
Definition suffix (n : Z) (s : string) : string :=
  text_of (drop (Z.to_nat (len s - n)) (chars s)).

(** The runs of characters that are not white space. *)
Fixpoint split_chars (run : list string) (l : list string) : list string :=
  let flush := match run with [] => [] | _ => [text_of (rev run)] end in
  match l with
  | [] => flush
  | x :: l => if is_space x then flush ++ split_chars [] l else split_chars (x :: run) l
  end.

(** [s.split()], and [" ".join(s.split())] *)
Definition split (s : string) : list string := split_chars [] (chars s).
Definition squeeze (s : string) : string := Json.join " " (split s).

Definition newline : string := String (ascii_of_N 10) "".
Definition omission : string := newline +:+ "..." +:+ newline.

(** The first two thirds and the rest from the end. *)
Definition ellipsize (cap : Z) (s : string) : string :=
  if len s <=? cap then s
  else if cap <=? len omission then upto cap s
  else
    let head := cap * 2 / 3 in
    let tail := cap - head - len omission in
    if tail <=? 0 then upto cap s else upto head s +:+ (omission +:+ suffix tail s).

(** ** Facts *)

(** What code points look like: bytes after the first continue it. *)
Definition piece (x : string) : bool :=
  match x with String _ r => Json.all_chars continuation r | EmptyString => false end.

(** A list that is the code points of a text. *)
Definition proper (l : list string) : Prop :=
  Forall (fun x => piece x = true) l /\ Forall (fun x => starts_continuation x = false) (tail l).

Lemma proper_chars s : proper (chars s).
Proof.
  induction s as [|c s [P L]]; simpl; [by split|].
  destruct (chars s) as [|x l]; [by repeat constructor|]. apply Forall_cons in P as [P1 P2].
  simpl in L. destruct (starts_continuation x) eqn:C; split; simpl; try done.
  - constructor; [|done]. destruct x as [|a x]; [done|]. simpl in *. by rewrite C, P1.
  - by repeat constructor.
  - by constructor.
Qed.

Lemma proper_tail x l : proper (x :: l) -> proper l.
Proof.
  intros [P L]. apply Forall_cons in P as [_ P]. split; [done|]. simpl in L. destruct l; [done|].
  by apply Forall_cons in L as [_ L].
Qed.

Lemma proper_take n l : proper l -> proper (take n l).
Proof.
  intros [P L]. split; [by apply Forall_take|]. destruct l as [|x l], n; simpl; try done.
  by apply Forall_take.
Qed.

Lemma proper_drop n l : proper l -> proper (drop n l).
Proof.
  revert l. induction n as [|n IH]; intros [|x l] H; simpl; try done. eapply IH, proper_tail, H.
Qed.

Lemma starts_text_of l : proper l ->
  starts_continuation (text_of l) = match l with x :: _ => starts_continuation x | [] => false end.
Proof.
  destruct l as [|x l]; simpl; [done|]. intros [P _]. apply Forall_cons in P as [P _].
  by destruct x.
Qed.

Lemma chars_cons c s :
  chars (String c s) =
  match chars s with
  | x :: l => if starts_continuation x then String c x :: l else String c "" :: x :: l
  | [] => [String c ""]
  end.
Proof. done. Qed.

Lemma chars_piece_app r : Json.all_chars continuation r = true ->
  forall c s, starts_continuation s = false -> chars (String c r +:+ s) = String c r :: chars s.
Proof.
  induction r as [|a r IH]; intros A c s N.
  - change (String c "" +:+ s) with (String c s). rewrite chars_cons.
    destruct (chars s) as [|x l] eqn:E; [done|].
    replace (starts_continuation x) with false; [done|].
    rewrite <-N, <-(text_of_chars s). rewrite starts_text_of, E by apply proper_chars. done.
  - simpl in A. apply andb_true_iff in A as [A1 A2].
    change (String c (String a r) +:+ s) with (String c (String a r +:+ s)). rewrite chars_cons, IH by done.
    simpl. by rewrite A1.
Qed.

(** Joining code points and taking them apart again. *)
Lemma chars_text_of l : proper l -> chars (text_of l) = l.
Proof.
  induction l as [|x l IH]; intros H; [done|]. simpl. pose proof H as H'. apply proper_tail in H'.
  destruct H as [P L]. apply Forall_cons in P as [P _]. destruct x as [|c r]; [done|].
  rewrite chars_piece_app; [by rewrite IH|done|]. rewrite starts_text_of by done.
  destruct l; [done|]. simpl in L. by apply Forall_cons in L as [L _].
Qed.

Lemma chars_app s t : starts_continuation t = false -> chars (s +:+ t) = chars s ++ chars t.
Proof.
  intros N. induction s as [|c s IH]; [done|].
  change (String c s +:+ t) with (String c (s +:+ t)). rewrite !chars_cons, IH.
  destruct (chars s) as [|x l]; simpl; [|by destruct (starts_continuation x)].
  destruct (chars t) as [|x l] eqn:E; [done|].
  replace (starts_continuation x) with false; [done|].
  rewrite <-N, <-(text_of_chars t). rewrite starts_text_of, E by apply proper_chars. done.
Qed.

Lemma len_app s t : starts_continuation t = false -> len (s +:+ t) = len s + len t.
Proof. intros N. unfold len. rewrite chars_app by done. rewrite length_app. lia. Qed.

Lemma len_nonneg s : 0 <= len s.
Proof. unfold len. lia. Qed.

Lemma chars_prefix n s : chars (prefix n s) = take n (chars s).
Proof. unfold prefix. apply chars_text_of, proper_take, proper_chars. Qed.

Lemma chars_upto n s : 0 <= n -> chars (upto n s) = take (Z.to_nat n) (chars s).
Proof. intros H. unfold upto. destruct (Z.ltb_spec n 0); [lia|]. apply chars_prefix. Qed.

Lemma chars_suffix n s : chars (suffix n s) = drop (Z.to_nat (len s - n)) (chars s).
Proof. unfold suffix. apply chars_text_of, proper_drop, proper_chars. Qed.

Lemma len_upto n s : 0 <= n -> len (upto n s) = Z.min n (len s).
Proof. intros H. unfold len. rewrite chars_upto, length_take by done. lia. Qed.

Lemma len_suffix n s : 0 <= n <= len s -> len (suffix n s) = n.
Proof. intros H. unfold len at 1. rewrite chars_suffix, length_drop. unfold len in *. lia. Qed.

(** A suffix that is not the whole text starts with a whole code point. *)
Lemma suffix_starts n s : n < len s -> starts_continuation (suffix n s) = false.
Proof.
  intros H. unfold suffix. rewrite starts_text_of by apply proper_drop, proper_chars.
  destruct (proper_chars s) as [_ L].
  destruct (drop _ (chars s)) as [|x l] eqn:E; [done|].
  rewrite Forall_forall in L. apply L. clear L. unfold len in *.
  destruct (chars s) as [|y r]; [by rewrite drop_nil in E|]. simpl in *.
  replace (Z.to_nat _) with (S (Z.to_nat (Z.of_nat (length r) - n))) in E by lia. simpl in E.
  rewrite <-(take_drop (Z.to_nat (Z.of_nat (length r) - n)) r), E. set_solver.
Qed.

(** The truncation keeps to its bound, and reaches it when it truncates. *)
Lemma len_ellipsize cap s :
  0 <= cap -> len (ellipsize cap s) = Z.min cap (len s).
Proof.
  intros C. unfold ellipsize. destruct (Z.leb_spec (len s) cap); [lia|].
  change (len omission) with 5.
  destruct (Z.leb_spec cap 5); [rewrite len_upto; lia|].
  pose proof (Z.div_le_upper_bound (cap * 2) 3 cap ltac:(lia) ltac:(lia)).
  pose proof (Z.div_pos (cap * 2) 3 ltac:(lia) ltac:(lia)).
  destruct (Z.leb_spec (cap - cap * 2 / 3 - 5) 0); [rewrite len_upto; lia|].
  rewrite len_app by done. rewrite (len_app omission) by (apply suffix_starts; lia).
  change (len omission) with 5. rewrite len_upto, len_suffix by lia. lia.
Qed.

(** ** Stripped texts *)

(** No white space at either end. *)
Definition trimmed (l : list string) : Prop :=
  match l with x :: _ => is_space x = false | [] => True end /\
  match last l with Some x => is_space x = false | None => True end.

Lemma drop_while_suffix f l : exists k, drop_while f l = drop k l.
Proof.
  induction l as [|x l [k IH]]; simpl; [by exists O|]. destruct (f x); [by exists (S k)|by exists O].
Qed.

Lemma drop_while_head f l : match drop_while f l with x :: _ => f x = false | [] => True end.
Proof. induction l as [|x l IH]; simpl; [done|]. by destruct (f x) eqn:E. Qed.

Lemma strip_slice s :
  exists a b, strip s = text_of (take b (drop a (chars s))) /\ trimmed (take b (drop a (chars s))).
Proof.
  unfold strip. destruct (drop_while_suffix is_space (chars s)) as [a Ea].
  pose proof (drop_while_head is_space (chars s)) as H1. rewrite Ea in *.
  set (m := drop a (chars s)) in *.
  destruct (drop_while_suffix is_space (rev m)) as [k Ek].
  pose proof (drop_while_head is_space (rev m)) as H2. rewrite Ek in *.
  exists a, (length m - k)%nat.
  assert (rev (drop k (rev m)) = take (length m - k) m) as ER.
  { by rewrite List.skipn_rev, rev_involutive. }
  change (drop a (chars s)) with m. split; [by rewrite ER|]. rewrite <-ER. split.
  - rewrite ER. destruct m as [|x m']; [by rewrite take_nil|].
    destruct (length (x :: m') - k)%nat; done.
  - destruct (drop k (rev m)) as [|x l]; [done|]. simpl. by rewrite last_snoc.
Qed.

Lemma trimmed_strip s : trimmed (chars (strip s)).
Proof.
  destruct (strip_slice s) as (a&b&->&T).
  by rewrite chars_text_of by apply proper_take, proper_drop, proper_chars.
Qed.

Lemma strip_trimmed s : trimmed (chars s) -> strip s = s.
Proof.
  intros [H1 H2]. unfold strip.
  assert (drop_while is_space (chars s) = chars s) as ->.
  { destruct (chars s) as [|x l]; simpl in *; [done|by rewrite H1]. }
  assert (drop_while is_space (rev (chars s)) = rev (chars s)) as ->.
  { revert H2. destruct (chars s) as [|x l _] using rev_ind; [done|].
    rewrite last_snoc, rev_app_distr. simpl. by intros ->. }
  by rewrite rev_involutive, text_of_chars.
Qed.

Lemma strip_idem s : strip (strip s) = strip s.
Proof. apply strip_trimmed, trimmed_strip. Qed.

Lemma len_strip s : len (strip s) <= len s.
Proof.
  destruct (strip_slice s) as (a&b&->&_). unfold len.
  rewrite chars_text_of by apply proper_take, proper_drop, proper_chars.
  rewrite length_take, length_drop. lia.
Qed.

Lemma last_drop_lt {A} n (l : list A) : (n < length l)%nat -> last (drop n l) = last l.
Proof.
  intros H. rewrite <-(take_drop n l) at 2. rewrite last_app.
  destruct (drop n l) as [|x r] eqn:E; [apply (f_equal length) in E; rewrite length_drop in E; simpl in E; lia|].
  by destruct (last (x :: r)) eqn:F; [|apply last_None in F].
Qed.

(** Truncating a stripped text leaves it stripped. *)
Lemma ellipsize_trimmed cap s : 17 < cap -> trimmed (chars s) -> trimmed (chars (ellipsize cap s)).
Proof.
  intros C [H1 H2]. unfold ellipsize. destruct (Z.leb_spec (len s) cap); [done|].
  change (len omission) with 5. destruct (Z.leb_spec cap 5); [lia|].
  pose proof (Z.div_mod (cap * 2) 3 ltac:(lia)). pose proof (Z.mod_pos_bound (cap * 2) 3 ltac:(lia)).
  destruct (Z.leb_spec (cap - cap * 2 / 3 - 5) 0); [lia|].
  rewrite chars_app by done. rewrite (chars_app omission) by (apply suffix_starts; lia).
  rewrite chars_upto, chars_suffix by lia. unfold len in *. split.
  - destruct (chars s) as [|x l]; [simpl in *; lia|].
    destruct (Z.to_nat (cap * 2 / 3)) eqn:E; [lia|]. done.
  - rewrite !last_app, last_drop_lt by lia.
    destruct (last (chars s)) eqn:E; [done|]. apply last_None in E. rewrite E in *. simpl in *. lia.
Qed.

End Slices.
