(* ===== verification/Numerals.v ===== *)
(** * Floats as texts

    [float(s)] and [repr(x)] of Python floats.  Finite values are those of
    Float64.v; overflow to infinity is at the binary64 bound, subnormal numbers
    keep all their digits. *)
From S2P Require Import Prelude Json Float64 Text.
Import Json Float64 Text.

Module Numerals.

(** A Python float as a text may denote it. *)
Inductive pyfloat := Finite (neg : bool) (x : float) | Infinite (neg : bool) | NaN.

(** [m * 10^e], rounded; from halfway to 2^1024 on, infinity. *)
Definition of_decimal (neg : bool) (m e : Z) : pyfloat :=
  let p := m * 10 ^ Z.max 0 e in
  let q := 10 ^ Z.max 0 (- e) in
  if (2 ^ 1024 - 2 ^ 970) * q <=? p then Infinite neg else Finite neg (rnd p q).

(** Digits with single underscores between them: their value, how many, and
    the rest of the text. *)
Fixpoint digit_run (acc n : Z) (s : string) : Z * Z * string :=
  match s with
  | String c s' =>
      match digit_of c with
      | Some d => digit_run (acc * 10 + d) (n + 1) s'
      | None =>
          match s' with
          | String c' _ =>
              if Ascii.eqb c "_" && (0 <? n) && bool_decide (is_Some (digit_of c'))
              then digit_run acc n s' else (acc, n, s)
          | EmptyString => (acc, n, s)
          end
      end
  | EmptyString => (acc, n, s)
  end.

(** The exponent part, up to the end of the text. *)
Definition exponent_part (s : string) : option Z :=
  match s with
  | EmptyString => Some 0
  | String c s =>
      if Ascii.eqb c "e" || Ascii.eqb c "E" then
        let '(neg, s) := match s with
                         | String "-" s => (true, s) | String "+" s => (false, s) | _ => (false, s)
                         end in
        match digit_run 0 0 s with
        | (e, n, EmptyString) => if 0 <? n then Some (if (neg : bool) then - e else e) else None
        | _ => None
        end
      else None
  end.

Definition unsigned_float (neg : bool) (s : string) : option pyfloat :=
  if bool_decide (lower s ∈ ["inf"; "infinity"]) then Some (Infinite neg)
  else if (lower s =? "nan")%string then Some NaN
  else
    let '(m, n, rest) := digit_run 0 0 s in
    let '(m, k, n, rest) := match rest with
                            | String "." rest =>
                                match rest with
                                | String "_" _ => (m, 0, 0, rest)
                                | _ => let '(m, k, rest) := digit_run m 0 rest in (m, k, n + k, rest)
                                end
                            | _ => (m, 0, n, rest)
                            end in
    if n =? 0 then None
    else option_map (fun e => of_decimal neg m (e - k)) (exponent_part rest).

(** [float(s)], [None] for a [ValueError], on ASCII digits. *)
Definition float_of_text (s : string) : option pyfloat :=
  match strip s with
  | String "-" s => unsigned_float true s
  | String "+" s => unsigned_float false s
  | s => unsigned_float false s
  end.

Example floats_of_text :
  map float_of_text [" 1.5 "; "2e1"; "-3"; "1_0"; ".5"; "1__0"; "e1"; "Infinity"; "1e400"; "."] =
  [Some (Finite false (rnd 3 2)); Some (Finite false (of_int 20)); Some (Finite true (of_int 3));
   Some (Finite false (of_int 10)); Some (Finite false (rnd 1 2)); None; None; Some (Infinite false);
   Some (Infinite false); None].
Proof. vm_compute. reflexivity. Qed.

(** ** repr

    The shortest decimal digits that read back as the same float and, among
    those, the closest. *)

(** The position of the decimal point: [10^(k-1) <= p/q < 10^k]. *)
Definition decimal_point (p q : Z) : Z :=
  let guess := (Z.log2 p - Z.log2 q) * 30103 / 100000 in
  let fits k := p * 10 ^ Z.max 0 (- k) <? q * 10 ^ Z.max 0 k in
  default guess (List.find fits [guess - 1; guess; guess + 1; guess + 2]).

(** The best [n] digits, as a number, when they denote [x]. *)
Definition with_digits (x : float) (k n : Z) : option Z :=
  let scale := n - k in
  let p := num x * 10 ^ Z.max 0 scale in
  let q := den x * 10 ^ Z.max 0 (- scale) in
  let lo := p / q in
  let same d := match of_decimal false d (- scale) with Finite _ y => feq x y | _ => false end in
  List.find same (if round_half_even p q =? lo then [lo; lo + 1] else [lo + 1; lo]).

Fixpoint shortest (x : float) (k : Z) (widths : list Z) : Z * Z :=
  match widths with
  | [] => (0, 0)
  | n :: widths =>
      match with_digits x k n with Some d => (d, k - n) | None => shortest x k widths end
  end.

(** The digits without trailing zeros. *)
Fixpoint without_zeros (fuel : nat) (d e : Z) : Z * Z :=
  match fuel with
  | O => (d, e)
  | S fuel => if d mod 10 =? 0 then without_zeros fuel (d / 10) (e + 1) else (d, e)
  end.

Definition zeros (n : Z) : string := text_of (repeat "0" (Z.to_nat n)).

(** [d * 10^e] in the layout of [repr]. *)
Definition layout (d e : Z) : string :=
  let ds := pretty d in
  let n := Z.of_nat (String.length ds) in
  let point := n + e in
  let dotted k := prefix (Z.to_nat k) ds +:+ "." +:+ text_of (drop (Z.to_nat k) (chars ds)) in
  if (-4 <? point) && (point <=? 16) then
    if point <=? 0 then "0." +:+ zeros (- point) +:+ ds
    else if n <=? point then ds +:+ zeros (point - n) +:+ ".0"
    else dotted point
  else
    let x := point - 1 in
    let digits := pretty (Z.abs x) in
    (if n =? 1 then ds else dotted 1) +:+ "e" +:+ (if x <? 0 then "-" else "+")
      +:+ (if Z.abs x <? 10 then "0" else "") +:+ digits.

Definition repr_finite (neg : bool) (x : float) : string :=
  (if neg then "-" else "") +:+
  (if num x =? 0 then "0.0" else
   let k := decimal_point (num x) (den x) in
   let '(d, e) := shortest x k (map Z.of_nat (seq 1 17)) in
   let '(d, e) := without_zeros 17 d e in layout d e).

(** [repr(float)] as [json.dumps] writes it. *)
Definition repr (x : pyfloat) : string :=
  match x with
  | Finite neg x => repr_finite neg x
  | Infinite neg => (if neg then "-" else "") +:+ "Infinity"
  | NaN => "NaN"
  end.

Example reprs :
  map (fun t => option_map repr (float_of_text t))
      ["0.1"; "100"; "1e16"; "123456789012345678"; "0.0001"; "0.00001"; "-2.50"; "1e22"; "1e23";
       "9007199254740993"; "0.30000000000000004"; "5e-324"; "1.7976931348623157e308"; "-0"; "2.675"] =
  map Some ["0.1"; "100.0"; "1e+16"; "1.2345678901234568e+17"; "0.0001"; "1e-05"; "-2.5"; "1e+22";
            "1e+23"; "9007199254740992.0"; "0.30000000000000004"; "5e-324"; "1.7976931348623157e+308";
            "-0.0"; "2.675"].
Proof. vm_compute. reflexivity. Qed.

(** ** What [repr] writes can be read

    A float of any size and sign is written as digits that [float] accepts. *)

Definition plain (c : ascii) : bool :=
  bool_decide (is_Some (digit_of c)) || bool_decide (c ∈ ["."; "e"; "+"; "-"]%char).

Lemma plain_alone c : plain c = true -> is_space (String c "") = false /\ continuation c = false.
Proof. destruct c as [[] [] [] [] [] [] [] []]; intros H; first [discriminate H|split; reflexivity]. Qed.

Lemma plain_chars s : all_chars plain s = true -> Forall (fun x => is_space x = false) (chars s).
Proof.
  induction s as [|c s IH]; [constructor|]. cbn [all_chars chars]. intros [H1 H2]%andb_true_iff. specialize (IH H2).
  destruct (plain_alone c H1) as [C1 _].
  assert (starts_continuation s = false) as S.
  { destruct s as [|d s]; [done|]. cbn in H2. apply andb_true_iff in H2 as [H2 _]. by destruct (plain_alone d H2). }
  destruct (chars s) as [|x l] eqn:E; [by constructor|].
  assert (starts_continuation x = false) as ->; [|by constructor].
  destruct s as [|d s]; [done|]. cbn in S, E. destruct (chars s) as [|y k].
  - injection E as <- _. exact S.
  - destruct (starts_continuation y); injection E as <- _; exact S.
Qed.

Lemma strip_plain s : all_chars plain s = true -> strip s = s.
Proof.
  intros F%plain_chars. unfold strip. rewrite (drop_while_none is_space (chars s)) by done.
  rewrite drop_while_none by (by apply List.Forall_rev). by rewrite rev_involutive, text_of_chars.
Qed.

Lemma chars_hold_app f s t : all_chars f (s +:+ t) = all_chars f s && all_chars f t.
Proof. induction s as [|c s IH]; [done|]. rewrite sapp_cons. cbn. by rewrite IH, andb_assoc. Qed.

Lemma all_digits_app s t : all_digits (s +:+ t) = all_digits s && all_digits t.
Proof. induction s as [|c s IH]; [done|]. rewrite sapp_cons. cbn. by destruct (digit_of c). Qed.

Lemma digits_plain s : all_digits s = true -> all_chars plain s = true.
Proof.
  induction s as [|c s IH]; [done|]. cbn. destruct (digit_of c) as [d|] eqn:D; [|done]. intros H. rewrite IH by done.
  unfold plain. by rewrite D.
Qed.

(** Slices of digits are digits. *)
Lemma digits_chars s : all_digits s = true -> Forall (fun x => all_digits x = true) (chars s).
Proof.
  intros H. destruct (all_digits_chars s H) as [-> _]. induction s as [|c s IH]; [constructor|]. cbn in *.
  destruct (digit_of c) eqn:D; [|done]. constructor; [cbn; by rewrite D|by apply IH].
Qed.

Lemma text_of_digits l : Forall (fun x => all_digits x = true) l -> all_digits (text_of l) = true.
Proof. induction 1 as [|x l H _ IH]; [done|]. change (text_of (x :: l)) with (x +:+ text_of l). by rewrite all_digits_app, H, IH. Qed.

Lemma digits_prefix k s : all_digits s = true -> all_digits (prefix k s) = true.
Proof. intros H. apply text_of_digits, Forall_take, digits_chars, H. Qed.

Lemma digits_drop k s : all_digits s = true -> all_digits (text_of (drop k (chars s))) = true.
Proof. intros H. apply text_of_digits, Forall_drop, digits_chars, H. Qed.

Lemma digits_zeros n : all_digits (zeros n) = true.
Proof. apply text_of_digits. induction (Z.to_nat n) as [|k IH]; cbn; [constructor|by constructor]. Qed.

(** A run of digits, up to a character that ends it. *)
Definition ends_run (s : string) : bool :=
  match s with String c _ => negb (bool_decide (is_Some (digit_of c))) && negb (Ascii.eqb c "_") | EmptyString => true end.

Lemma digit_run_all ds : forall a n rest, all_digits ds = true -> ends_run rest = true ->
  exists v, digit_run a n (ds +:+ rest) = (v, n + Z.of_nat (String.length ds), rest).
Proof.
  induction ds as [|c ds IH]; intros a n rest H R.
  - exists a. rewrite sapp_nil, Z.add_0_r. destruct rest as [|c r]; [done|]. cbn in *.
    destruct (digit_of c); [done|]. cbn in R. apply negb_true_iff in R. rewrite R. by destruct r.
  - rewrite sapp_cons. cbn in *. destruct (digit_of c) as [d|]; [|done]. destruct (IH (a * 10 + d) (n + 1) rest H R) as [v ->].
    exists v. do 2 f_equal. lia.
Qed.

(** An exponent: none, or a sign and digits. *)
Definition exponent_text (s : string) : Prop :=
  s = "" \/ exists sign ds, (sign = "-" \/ sign = "+") /\ ds <> "" /\ all_digits ds = true /\ s = "e" +:+ sign +:+ ds.

Lemma exponent_reads s : exponent_text s -> ends_run s = true /\ all_chars plain s = true /\ is_Some (exponent_part s).
Proof.
  intros [->|(sign&ds&S&N&D&->)]; [by split_and!|]. pose proof (digits_plain _ D) as P.
  destruct (digit_run_all ds 0 0 "" D eq_refl) as [v E]. rewrite sapp_nil_r in E.
  assert (0 < Z.of_nat (String.length ds)) by (destruct ds; cbn; [done|lia]).
  destruct S as [->| ->]; (split; [done|]; split; [exact P|]); rewrite !sapp_cons, !sapp_nil; unfold exponent_part; cbn -[digit_run]; rewrite E; cbn; (destruct (Z.ltb_spec 0 (0 + Z.of_nat (String.length ds))); [by eexists|lia]).
Qed.

(** Digits, a fraction perhaps, and an exponent perhaps. *)
Definition decimal_text (s : string) : Prop :=
  exists a e, a <> "" /\ all_digits a = true /\ exponent_text e /\
    (s = a +:+ e \/ exists b, all_digits b = true /\ s = a +:+ "." +:+ b +:+ e).

Lemma decimal_plain s : decimal_text s -> all_chars plain s = true.
Proof.
  intros (a&e&_&A&(_&E&_)%exponent_reads&[->|(b&B&->)]); rewrite !chars_hold_app, ?E, ?(digits_plain _ A); [done|].
  by rewrite (digits_plain _ B).
Qed.

Lemma decimal_head s : decimal_text s -> exists c r, s = String c r /\ is_Some (digit_of c).
Proof.
  intros (a&e&N&A&_&H). destruct a as [|c a]; [done|]. cbn in A. destruct (digit_of c) as [d|] eqn:D; [|done].
  destruct H as [->|(b&_&->)]; rewrite sapp_cons; by eexists c, _.
Qed.

Lemma dot_match {A} (f : string -> A) (y : A) s : match s with String c _ => Ascii.eqb c "." | _ => false end = false ->
  match s with String "." r => f r | _ => y end = y.
Proof. destruct s as [|[[] [] [] [] [] [] [] []] s]; intros H; first [reflexivity|discriminate H]. Qed.

Lemma underscore_match {A} (x y : A) s : match s with String c _ => Ascii.eqb c "_" | _ => false end = false ->
  match s with String "_" _ => x | _ => y end = y.
Proof. destruct s as [|[[] [] [] [] [] [] [] []] s]; intros H; first [reflexivity|discriminate H]. Qed.

Lemma digits_then b e : all_digits b = true -> exponent_text e ->
  match b +:+ e with String c _ => Ascii.eqb c "_" | _ => false end = false.
Proof.
  intros B E. destruct b as [|c b].
  - destruct E as [->|(sign&ds&_&_&_&->)]; done.
  - rewrite sapp_cons. cbn in B. destruct (digit_of c) as [d|] eqn:D; [|done]. apply digit_cases in D.
    repeat (apply elem_of_cons in D as [->|D]; [done|]). by apply not_elem_of_nil in D.
Qed.

Lemma decimal_reads neg s : decimal_text s -> exists m e, unsigned_float neg s = Some (of_decimal neg m e).
Proof.
  intros D. unfold unsigned_float.
  destruct (decimal_head s D) as (c&r&E&[d Dc]). apply digit_cases in Dc.
  assert (bool_decide (lower s ∈ ["inf"; "infinity"]) = false /\ (lower s =? "nan")%string = false) as [-> ->].
  { subst s. split; [apply bool_decide_eq_false; intros H|];
      repeat (apply elem_of_cons in Dc as [->|Dc]; [try done; cbn in H; set_solver|]); by apply not_elem_of_nil in Dc. }
  clear E Dc c r d. destruct D as (a&e&N&A&X&H). assert (0 < Z.of_nat (String.length a)) by (destruct a; cbn; [done|lia]).
  destruct (exponent_reads e X) as (R&_&[x Ex]). destruct H as [->|(b&B&->)].
  - destruct (digit_run_all a 0 0 e A R) as [v ->]. rewrite Z.add_0_l.
    rewrite dot_match by (destruct X as [->|(sign&ds&_&_&_&->)]; done). cbn iota.
    destruct (Z.eqb_spec (Z.of_nat (String.length a)) 0); [lia|]. rewrite Ex. by eexists _, _.
  - destruct (digit_run_all a 0 0 ("." +:+ b +:+ e) A eq_refl) as [v ->]. rewrite Z.add_0_l.
    change ("." +:+ b +:+ e) with (String "." (b +:+ e)). cbn iota beta.
    rewrite underscore_match by (by apply digits_then).
    destruct (digit_run_all b v 0 e B R) as [w ->]. cbn iota beta. rewrite Z.add_0_l.
    destruct (Z.eqb_spec (Z.of_nat (String.length a) + Z.of_nat (String.length b)) 0); [lia|]. rewrite Ex. by eexists _, _.
Qed.

(** The layout of digits is such a text. *)
Lemma pretty_nonempty (z : Z) : 0 <= z -> pretty z <> "".
Proof. intros H E. pose proof (int_of_pretty z H) as P. by rewrite E in P. Qed.

Lemma prefix_nonempty k s : s <> "" -> (0 < k)%nat -> prefix k s <> "".
Proof.
  intros N K. unfold prefix. pose proof (text_of_chars s) as T. destruct (chars s) as [|x l] eqn:E; [by subst s|].
  destruct k; [lia|]. cbn. destruct x; [|done]. exfalso.
  assert (Forall (fun x => x <> "") (chars s)) as F; [|rewrite E in F; by apply Forall_cons in F as []].
  clear. induction s as [|c s IH]; cbn; [constructor|]. destruct (chars s) as [|y l]; [by constructor|].
  destruct (starts_continuation y); (constructor; [done|]); [by apply Forall_cons in IH as []|done].
Qed.

Lemma layout_decimal d e : 0 <= d -> decimal_text (layout d e).
Proof.
  intros Hd. pose proof (pretty_digits d Hd) as D. pose proof (pretty_nonempty d Hd) as N. unfold layout.
  set (ds := pretty d) in *. set (n := Z.of_nat (String.length ds)). set (point := n + e).
  destruct ((-4 <? point) && (point <=? 16)).
  - destruct (Z.leb_spec point 0) as [P|P].
    { exists "0", "". split_and!; [done|done|by left|]. right. exists (zeros (- point) +:+ ds).
      rewrite all_digits_app, digits_zeros, D. split; [done|]. by rewrite sapp_nil_r. }
    destruct (Z.leb_spec n point) as [Q|Q].
    { exists (ds +:+ zeros (point - n)), "". split_and!; [by destruct ds|by rewrite all_digits_app, D, digits_zeros|by left|].
      right. exists "0". split; [done|]. by rewrite sapp_assoc. }
    exists (prefix (Z.to_nat point) ds), "". split_and!; [apply prefix_nonempty; [done|lia]|by apply digits_prefix|by left|].
    right. eexists. split; [by apply (digits_drop (Z.to_nat point) ds)|]. by rewrite sapp_nil_r.
  - set (x := point - 1).
    assert (exponent_text ("e" +:+ (if x <? 0 then "-" else "+") +:+ (if Z.abs x <? 10 then "0" else "") +:+ pretty (Z.abs x))) as X.
    { right. exists (if x <? 0 then "-" else "+"), ((if Z.abs x <? 10 then "0" else "") +:+ pretty (Z.abs x)).
      pose proof (pretty_digits (Z.abs x) ltac:(lia)) as P. pose proof (pretty_nonempty (Z.abs x) ltac:(lia)) as M.
      split; [destruct (x <? 0); [by left|by right]|]. split; [by destruct (Z.abs x <? 10)|]. split; [|done].
      rewrite all_digits_app, P. by destruct (Z.abs x <? 10). }
    destruct (n =? 1).
    + exists ds. eexists. split_and!; [done|done|exact X|]. by left.
    + exists (prefix (Z.to_nat 1) ds). eexists. split_and!; [apply prefix_nonempty; [done|lia]|by apply digits_prefix|exact X|].
      right. eexists. split; [by apply (digits_drop (Z.to_nat 1) ds)|]. by rewrite !sapp_assoc.
Qed.

Lemma without_zeros_nonneg fuel : forall d e, 0 <= d -> 0 <= (without_zeros fuel d e).1.
Proof.
  induction fuel as [|fuel IH]; intros d e H; cbn; [done|]. destruct (d mod 10 =? 0); [|done]. apply IH, Z.div_pos; lia.
Qed.

Lemma shortest_nonneg x k l : 0 <= num x -> 0 <= (shortest x k l).1.
Proof.
  intros H. induction l as [|n l IH]; cbn; [done|]. unfold with_digits.
  destruct (List.find _ _) as [d|] eqn:F; [|exact IH]. cbn. apply find_some_elem in F as [F _].
  assert (0 <= num x * 10 ^ Z.max 0 (n - k) / (den x * 10 ^ Z.max 0 (- (n - k)))) as P.
  { apply Z.div_pos; [apply Z.mul_nonneg_nonneg; [done|apply Z.pow_nonneg; lia]|].
    apply Z.mul_pos_pos; [apply den_pos|apply Z.pow_pos_nonneg; lia]. }
  destruct (_ =? _); repeat (apply elem_of_cons in F as [->|F]; [lia|]); by apply not_elem_of_nil in F.
Qed.

Lemma repr_decimal neg x : 0 <= num x -> exists s, decimal_text s /\ repr_finite neg x = (if neg then "-" else "") +:+ s.
Proof.
  intros H. unfold repr_finite. destruct (num x =? 0).
  - exists "0.0". split; [|done]. exists "0", "". split_and!; [done|done|by left|]. right. by exists "0".
  - destruct (shortest _ _ _) as [d e] eqn:S. destruct (without_zeros 17 d e) as [d' e'] eqn:W. eexists. split; [|done].
    apply layout_decimal. pose proof (shortest_nonneg x (decimal_point (num x) (den x)) (map Z.of_nat (seq 1 17)) H) as P.
    rewrite S in P. pose proof (without_zeros_nonneg 17 d e P) as Q. by rewrite W in Q.
Qed.

Lemma repr_reads neg x : 0 <= num x -> exists m e, float_of_text (repr_finite neg x) = Some (of_decimal neg m e).
Proof.
  intros H. destruct (repr_decimal neg x H) as (s&D&->). unfold float_of_text.
  assert (all_chars plain ((if neg then "-" else "") +:+ s) = true) as P by (rewrite chars_hold_app, (decimal_plain s D); by destruct neg).
  rewrite (strip_plain _ P). destruct neg; [by apply decimal_reads|]. rewrite sapp_nil.
  destruct (decimal_reads false s D) as (m&e&E). exists m, e. rewrite <- E.
  destruct (decimal_head s D) as (c&r&->&[d Dc]). apply digit_cases in Dc.
  repeat (apply elem_of_cons in Dc as [->|Dc]; [done|]). by apply not_elem_of_nil in Dc.
Qed.

End Numerals.
