(* ===== verification/JsonText.v ===== *)
(** * JSON texts

    [json.dumps(v, ensure_ascii=False)] and [json.loads(s)] of the standard
    library: what the stores write and read back, and how the arguments and
    answers of models and tool servers are read.  A [JSONDecodeError], like any
    other [ValueError] of [loads], is [None].  A lone surrogate is kept in its
    three-byte form; the depth of nesting is not limited. *)
From S2P Require Import Prelude Json Float64 Text Slices Numerals.
Import Json Float64 Text Slices Numerals.

Module JsonText.

(** ** Writing *)

(** Separators [", "] and [": "], items in insertion order. *)
Fixpoint dumps_text (j : json) : string :=
  match j with
  | JList l => "[" +:+ (join ", " (map dumps_text l) +:+ "]")
  | JObj kvs =>
      "{" +:+ (join ", " (map (fun kv => quoted kv.1 +:+ (": " +:+ dumps_text kv.2)) kvs) +:+ "}")
  | _ => print j
  end.

(** ** Strings *)

Definition hex_digit_of (c : ascii) : option N :=
  let n := N_of_ascii c in
  (if (48 <=? n) && (n <=? 57) then Some (n - 48)
   else if (65 <=? n) && (n <=? 70) then Some (n - 55)
   else if (97 <=? n) && (n <=? 102) then Some (n - 87) else None)%N.

Definition hex4 (a b c d : ascii) : option N :=
  match hex_digit_of a, hex_digit_of b, hex_digit_of c, hex_digit_of d with
  | Some a, Some b, Some c, Some d => Some (((a * 16 + b) * 16 + c) * 16 + d)%N
  | _, _, _, _ => None
  end.

(** The UTF-8 bytes of a code point. *)
Definition utf8 (n : N) : string :=
  bytes (if n <? 0x80 then [n]
         else if n <? 0x800 then [0xc0 + n / 64; 0x80 + n mod 64]
         else if n <? 0x10000 then [0xe0 + n / 4096; 0x80 + n / 64 mod 64; 0x80 + n mod 64]
         else [0xf0 + n / 262144; 0x80 + n / 4096 mod 64; 0x80 + n / 64 mod 64; 0x80 + n mod 64])%N.

Definition simple_escape (c : ascii) : option string :=
  match N_of_ascii c with
  | 34%N | 92%N | 47%N => Some (String c "")
  | 98%N => Some (String (ascii_of_N 8) "")
  | 102%N => Some (String (ascii_of_N 12) "")
  | 110%N => Some (String (ascii_of_N 10) "")
  | 114%N => Some (String (ascii_of_N 13) "")
  | 116%N => Some (String (ascii_of_N 9) "")
  | _ => None
  end.

Definition high_surrogate (u : N) : bool := ((0xd800 <=? u) && (u <=? 0xdbff))%N.
Definition low_surrogate (u : N) : bool := ((0xdc00 <=? u) && (u <=? 0xdfff))%N.

Definition before (t : string) (o : option (string * string)) : option (string * string) :=
  option_map (fun p => (t +:+ p.1, p.2)) o.

(** [scanstring(s, end, strict=True)], from behind the opening quote: the
    decoded text and what follows the closing quote. *)
Fixpoint scanstring (s : string) : option (string * string) :=
  match s with
  | EmptyString => None
  | String c s =>
      if (N_of_ascii c =? 34)%N then Some ("", s)
      else if (N_of_ascii c =? 92)%N then
        match s with
        | String "u" (String h1 (String h2 (String h3 (String h4 s)))) =>
            match hex4 h1 h2 h3 h4 with
            | None => None
            | Some u =>
                if high_surrogate u then
                  match s with
                  | String b (String "u" (String l1 (String l2 (String l3 (String l4 s'))))) =>
                      if (N_of_ascii b =? 92)%N then
                        match hex4 l1 l2 l3 l4 with
                        | None => None
                        | Some u2 =>
                            if low_surrogate u2
                            then before (utf8 (0x10000 + (u - 0xd800) * 1024 + (u2 - 0xdc00))%N)
                                   (scanstring s')
                            else before (utf8 u) (scanstring s)
                        end
                      else before (utf8 u) (scanstring s)
                  | _ => before (utf8 u) (scanstring s)
                  end
                else before (utf8 u) (scanstring s)
            end
        | String e s =>
            match simple_escape e with Some t => before t (scanstring s) | None => None end
        | EmptyString => None
        end
      else if (N_of_ascii c <? 32)%N then None
      else before (String c "") (scanstring s)
  end.

(** ** Numbers *)

Definition is_digit (c : ascii) : bool := bool_decide (is_Some (digit_of c)).

Fixpoint span (f : ascii -> bool) (s : string) : string * string :=
  match s with
  | String c s' => if f c then let '(a, b) := span f s' in (String c a, b) else ("", s)
  | EmptyString => ("", "")
  end.

Definition fraction (s : string) : string * string :=
  match s with
  | String "." s' => match span is_digit s' with (EmptyString, _) => ("", s) | p => p end
  | _ => ("", s)
  end.

(** The exponent, when there is one. *)
Definition exponent_of (s : string) : option Z * string :=
  match s with
  | String c s' =>
      if Ascii.eqb c "e" || Ascii.eqb c "E" then
        let '(neg, s'') := match s' with
                           | String "-" t => (true, t) | String "+" t => (false, t) | _ => (false, s')
                           end in
        match span is_digit s'' with
        | (EmptyString, _) => (None, s)
        | (ds, r) => let e := default 0 (digits 0 ds) in (Some (if (neg : bool) then - e else e), r)
        end
      else (None, s)
  | EmptyString => (None, s)
  end.

Definition integer_part (s : string) : option (string * string) :=
  match s with
  | String "0" r => Some ("0", r)
  | String c _ => if is_digit c then Some (span is_digit s) else None
  | EmptyString => None
  end.

(** [_match_number]: an int of more than 4300 digits is a [ValueError]. *)
Definition scan_number (s : string) : option (json * string) :=
  let '(neg, s1) := match s with String "-" t => (true, t) | _ => (false, s) end in
  match integer_part s1 with
  | None => None
  | Some (ds, r) =>
      let '(fs, r1) := fraction r in
      let '(x, r2) := exponent_of r1 in
      match fs, x with
      | EmptyString, None =>
          if 4300 <? Z.of_nat (String.length ds) then None
          else let n := default 0 (digits 0 ds) in
               Some (JInt (if (neg : bool) then - n else n), r2)
      | _, _ =>
          let m := default 0 (digits 0 (ds +:+ fs)) in
          Some (JFloat (repr (of_decimal neg m (default 0 x - Z.of_nat (String.length fs)))), r2)
      end
  end.

(** ** Values *)

Definition json_space (c : ascii) : bool := bool_decide (N_of_ascii c ∈ [32; 9; 10; 13]%N).

Fixpoint skip (s : string) : string :=
  match s with
  | String c s' => if json_space c then skip s' else s
  | EmptyString => s
  end.

(** The constants and what they denote. *)
Definition constants : list (string * json) :=
  [("null", JNull); ("true", JBool true); ("false", JBool false); ("NaN", JFloat "NaN");
   ("Infinity", JFloat "Infinity"); ("-Infinity", JFloat "-Infinity")].

Fixpoint drop_bytes (n : nat) (s : string) : string :=
  match n, s with S n, String _ s => drop_bytes n s | _, _ => s end.

Definition constant (s : string) : option (json * string) :=
  match List.find (fun kv => starts_with kv.1 s) constants with
  | Some (k, v) => Some (v, drop_bytes (String.length k) s)
  | None => None
  end.

Definition expect (c : ascii) (s : string) : option string :=
  match s with String d r => if Ascii.eqb d c then Some r else None | EmptyString => None end.

(** The key of an item and the colon behind it. *)
Definition key (s : string) : option (string * string) :=
  match expect (ascii_of_N 34) s with
  | None => None
  | Some s =>
      match scanstring s with
      | None => None
      | Some (k, r) => option_map (fun r => (k, skip r)) (expect ":" (skip r))
      end
  end.

(** [dict(pairs)] *)
Definition of_pairs (l : list (string * json)) : dict := foldl (fun d kv => set_key kv.1 kv.2 d) [] l.

(** [scan_once], and the loops of [JSONArray] and [JSONObject] at an item. *)
Fixpoint value (fuel : nat) (s : string) : option (json * string) :=
  match fuel, s with
  | S fuel, String c s' =>
      if (N_of_ascii c =? 34)%N then
        option_map (fun p => (JStr p.1, p.2)) (scanstring s')
      else if Ascii.eqb c "{" then
        match expect "}" (skip s') with
        | Some r => Some (JObj [], r)
        | None => option_map (fun p => (JObj (of_pairs p.1), p.2)) (members fuel (skip s'))
        end
      else if Ascii.eqb c "[" then
        match expect "]" (skip s') with
        | Some r => Some (JList [], r)
        | None => option_map (fun p => (JList p.1, p.2)) (elements fuel (skip s'))
        end
      else match constant s with Some p => Some p | None => scan_number s end
  | _, _ => None
  end
with elements (fuel : nat) (s : string) : option (list json * string) :=
  match fuel with
  | O => None
  | S fuel =>
      match value fuel s with
      | None => None
      | Some (v, r) =>
          match expect "]" (skip r), expect "," (skip r) with
          | Some r, _ => Some ([v], r)
          | None, Some r => option_map (fun p => (v :: p.1, p.2)) (elements fuel (skip r))
          | None, None => None
          end
      end
  end
with members (fuel : nat) (s : string) : option (list (string * json) * string) :=
  match fuel with
  | O => None
  | S fuel =>
      match key s with
      | None => None
      | Some (k, r) =>
          match value fuel r with
          | None => None
          | Some (v, r) =>
              match expect "}" (skip r), expect "," (skip r) with
              | Some r, _ => Some ([(k, v)], r)
              | None, Some r => option_map (fun p => ((k, v) :: p.1, p.2)) (members fuel (skip r))
              | None, None => None
              end
          end
      end
  end.

Definition byte_order_mark : string := bytes [0xef; 0xbb; 0xbf]%N.

(** [json.loads(s)] *)
Definition loads (s : string) : option json :=
  if starts_with byte_order_mark s then None else
  let s := skip s in
  match value (S (2 * String.length s)) s with
  | Some (v, r) => if (skip r =? "")%string then Some v else None
  | None => None
  end.

Example loads_examples :
  let q := quote in
  map loads [" {} "; "[1, -2.50, 1E3, 01]"; "[1, -2.50, 1E3]"; "[1,]"; "{" +:+ q +:+ "a" +:+ q +:+ ":1}";
             "{" +:+ q +:+ "a" +:+ q +:+ ":1, " +:+ q +:+ "a" +:+ q +:+ ": null}"; "-"; "-Infinity";
             q +:+ backslash +:+ "u00e9" +:+ backslash +:+ "ud83d" +:+ backslash +:+ "ude00" +:+ q; "nul"; "1e400"] =
  [Some (JObj []); None; Some (JList [JInt 1; JFloat "-2.5"; JFloat "1000.0"]); None;
   Some (JObj [("a", JInt 1)]); Some (JObj [("a", JNull)]); None; Some (JFloat "-Infinity");
   Some (JStr (bytes [0xc3; 0xa9; 0xf0; 0x9f; 0x98; 0x80]%N)); None; Some (JFloat "Infinity")].
Proof. vm_compute. reflexivity. Qed.


(** ** Facts about the scanners *)


Lemma scanstring_esc c r : scanstring (esc_char c +:+ r) = before (String c "") (scanstring r).
Proof. destruct c as [[] [] [] [] [] [] [] []]; reflexivity. Qed.

Lemma scanstring_escape t r : scanstring (escape t +:+ (quote +:+ r)) = Some (t, r).
Proof.
  induction t as [|c t IH]; [done|].
  cbn [escape]. by rewrite sapp_assoc, scanstring_esc, IH.
Qed.

Lemma stops_not_tok c t : stops (String c t) = true -> tok c = false.
Proof. cbn. by destruct (tok c). Qed.

Lemma span_app f s t : stops t = true -> (forall c, f c = true -> tok c = true) ->
  span f (s +:+ t) = ((span f s).1, (span f s).2 +:+ t).
Proof.
  intros Ht Hf. induction s as [|c s IH].
  - rewrite sapp_nil. destruct t as [|c t]; [done|]. apply stops_not_tok in Ht. cbn.
    destruct (f c) eqn:E; [by rewrite (Hf _ E) in Ht | done].
  - rewrite sapp_cons. cbn. destruct (f c); [|done]. rewrite IH. by destruct (span f s).
Qed.

Lemma digit_tok c : is_digit c = true -> tok c = true.
Proof.
  unfold is_digit. intros H%bool_decide_eq_true. destruct H as [d H].
  unfold digit_of, tok in *. by destruct ((48 <=? N_of_ascii c) && (N_of_ascii c <=? 57))%N.
Qed.

Lemma integer_part_app s t ds r : stops t = true -> integer_part s = Some (ds, r) ->
  integer_part (s +:+ t) = Some (ds, r +:+ t).
Proof.
  intros Ht H. destruct s as [|c s]; [done|]. rewrite sapp_cons.
  destruct (decide (c = "0"%char)) as [-> | N]; [by simplify_eq/=|].
  assert (integer_part (String c (s +:+ t)) =
          if is_digit c then Some (span is_digit (String c (s +:+ t))) else None) as ->.
  { by destruct c as [[] [] [] [] [] [] [] []]. }
  assert (integer_part (String c s) =
          if is_digit c then Some (span is_digit (String c s)) else None) as E.
  { by destruct c as [[] [] [] [] [] [] [] []]. }
  rewrite E in H. destruct (is_digit c); [|done].
  rewrite <- sapp_cons, span_app; [|done|apply digit_tok]. by simplify_eq/=; rewrite H.
Qed.

Lemma fraction_app s t : stops t = true -> fraction (s +:+ t) = ((fraction s).1, (fraction s).2 +:+ t).
Proof.
  intros Ht. destruct s as [|c s].
  - destruct t as [|c t]; [done|]. apply stops_not_tok in Ht.
    destruct (decide (c = "."%char)) as [-> | N]; [done|].
    by destruct c as [[] [] [] [] [] [] [] []].
  - rewrite sapp_cons. destruct (decide (c = "."%char)) as [-> | N].
    + cbn. rewrite span_app; [|done|apply digit_tok]. by destruct (span is_digit s) as [[|? ?] ?].
    + by destruct c as [[] [] [] [] [] [] [] []].
Qed.

Definition sign_of (s : string) : bool * string :=
  match s with String "-" t => (true, t) | String "+" t => (false, t) | _ => (false, s) end.

Lemma sign_of_app s t : stops t = true -> sign_of (s +:+ t) = ((sign_of s).1, (sign_of s).2 +:+ t).
Proof.
  intros Ht. destruct s as [|c s].
  - destruct t as [|c t]; [done|]. apply stops_not_tok in Ht.
    by destruct c as [[] [] [] [] [] [] [] []].
  - by destruct c as [[] [] [] [] [] [] [] []].
Qed.

Lemma exponent_of_app s t : stops t = true ->
  exponent_of (s +:+ t) = ((exponent_of s).1, (exponent_of s).2 +:+ t).
Proof.
  intros Ht. destruct s as [|c s].
  - destruct t as [|c t]; [done|]. apply stops_not_tok in Ht.
    by destruct c as [[] [] [] [] [] [] [] []].
  - rewrite sapp_cons. cbn [exponent_of].
    destruct (Ascii.eqb c "e" || Ascii.eqb c "E"); [|done].
    fold (sign_of (s +:+ t)). fold (sign_of s). rewrite (sign_of_app _ _ Ht).
    destruct (sign_of s) as [neg s'']. cbn [fst snd].
    rewrite span_app; [|done|apply digit_tok]. by destruct (span is_digit s'') as [[|? ?] ?].
Qed.

Lemma scan_number_app s t x r : stops t = true -> scan_number s = Some (x, r) ->
  scan_number (s +:+ t) = Some (x, r +:+ t).
Proof.
  intros Ht. unfold scan_number.
  set (neg_of s := match s with String "-" t => (true, t) | _ => (false, s) end).
  assert (s <> "" -> neg_of (s +:+ t) = ((neg_of s).1, (neg_of s).2 +:+ t)) as E.
  { destruct s as [|c s]; [done|]. intros _. by destruct c as [[] [] [] [] [] [] [] []]. }
  destruct (decide (s = "")) as [-> | N]; [done|]. fold (neg_of s) (neg_of (s +:+ t)).
  rewrite (E N). destruct (neg_of s) as [neg s1]. cbn [fst snd].
  destruct (integer_part s1) as [[ds r0]|] eqn:I; [|done].
  rewrite (integer_part_app _ _ _ _ Ht I), (fraction_app _ _ Ht).
  destruct (fraction r0) as [fs r1]. cbn [fst snd]. rewrite (exponent_of_app _ _ Ht).
  destruct (exponent_of r1) as [y r2]. cbn [fst snd].
  destruct fs, y; try (by intros [= <- <-]).
  destruct (4300 <? _); [done|]. by intros [= <- <-].
Qed.

(** ** Every scanner consumes what it reads *)

Abbreviation size := String.length.

Lemma size_skip s : (size (skip s) <= size s)%nat.
Proof. induction s as [|c s IH]; [done|]. cbn. destruct (json_space c); cbn; lia. Qed.

Lemma size_span f s : (size (span f s).2 <= size s)%nat.
Proof. induction s as [|c s IH]; [done|]. cbn. destruct (f c), (span f s); cbn in *; lia. Qed.

Lemma size_scanstring s : forall t r, scanstring s = Some (t, r) -> (size r < size s)%nat.
Proof.
  induction s as [s IH] using (induction_ltof1 _ size). unfold ltof in IH.
  assert (forall u p s', (size s' < size s)%nat -> before u (scanstring s') = Some p ->
            (size p.2 < size s)%nat) as K.
  { intros u p s' H. destruct (scanstring s') as [[t r]|] eqn:E; cbn; [|done].
    intros [= <-]. cbn. specialize (IH _ H _ _ E). lia. }
  intros t r H. destruct s as [|c s]; [done|]. cbn [scanstring] in H.
  repeat case_in H; simplify_eq; try (apply K in H; cbn in *; lia); cbn; lia.
Qed.

Lemma size_drop n s : (size (drop_bytes n s) <= size s - n)%nat.
Proof. revert s. induction n as [|n IH]; intros [|c s]; cbn; try lia. apply IH. Qed.

Lemma size_constant s v r : constant s = Some (v, r) -> (size r < size s)%nat.
Proof.
  unfold constant. destruct (List.find _ _) as [[k w]|] eqn:F; [|done]. intros [= <- <-].
  apply find_some_elem in F as [Hin Hs]. cbn [fst] in Hs.
  pose proof (size_drop (size k) s).
  apply starts_with_spec in Hs as [t ->].
  assert (0 < size k)%nat; [|].
  { unfold constants in Hin. repeat (apply elem_of_cons in Hin as [[= -> ->] | Hin]; [cbn; lia|]).
    by apply elem_of_nil in Hin. }
  assert (size k <= size (k +:+ t))%nat; [|lia].
  clear. induction k as [|c k IH]; [cbn; lia|]. rewrite sapp_cons. cbn. lia.
Qed.

Lemma size_scan_number s v r : scan_number s = Some (v, r) -> (size r < size s)%nat.
Proof.
  unfold scan_number.
  assert (size (match s with String "-" t => (true, t) | _ => (false, s) end).2 <= size s)%nat as Hs.
  { destruct s as [|c s]; [done|]. destruct c as [[] [] [] [] [] [] [] []]; cbn; lia. }
  destruct (match s with String "-" t => (true, t) | _ => (false, s) end) as [neg s1]. cbn [snd] in Hs.
  destruct (integer_part s1) as [[ds r0]|] eqn:I; [|done].
  assert (size r0 < size s1)%nat as H0.
  { destruct s1 as [|c s1]; [done|].
    assert (integer_part (String c s1) = Some ("0", s1) \/
            integer_part (String c s1) = if is_digit c then Some (span is_digit (String c s1)) else None) as [E|E].
    { destruct c as [[] [] [] [] [] [] [] []]; (by left) || by right. }
    - rewrite E in I. simplify_eq. cbn. lia.
    - rewrite E in I. destruct (is_digit c) eqn:D; [|done].
      assert (Some (span is_digit (String c s1)) = Some (ds, r0)) as I' by done.
      cbn in I'. rewrite D in I'. pose proof (size_span is_digit s1).
      destruct (span is_digit s1). cbn in *. simplify_eq. lia. }
  assert (size (fraction r0).2 <= size r0)%nat as H1.
  { destruct r0 as [|c r0]; [done|]. cbn. pose proof (size_span is_digit r0).
    destruct (span is_digit r0) as [[|? ?] ?]; destruct c as [[] [] [] [] [] [] [] []]; cbn in *; lia. }
  destruct (fraction r0) as [fs r1]. cbn [snd] in H1.
  assert (size (exponent_of r1).2 <= size r1)%nat as H2.
  { destruct r1 as [|c r1]; [done|]. cbn [exponent_of].
    destruct (Ascii.eqb c "e" || Ascii.eqb c "E"); [|done].
    fold (sign_of r1). assert (size (sign_of r1).2 <= size r1)%nat.
    { destruct r1 as [|d r1]; [done|]. destruct d as [[] [] [] [] [] [] [] []]; cbn; lia. }
    destruct (sign_of r1) as [b t]. cbn [snd] in *. pose proof (size_span is_digit t).
    destruct (span is_digit t) as [[|? ?] ?]; cbn in *; lia. }
  destruct (exponent_of r1) as [x r2]. cbn [snd] in H2.
  destruct fs, x; intros H; repeat case_in H; simplify_eq; lia.
Qed.

Lemma scalar_size s p : match constant s with Some p => Some p | None => scan_number s end = Some p ->
  (size p.2 < size s)%nat.
Proof.
  destruct p as [v r]. destruct (constant s) eqn:E.
  - intros [= ->]. by apply size_constant in E.
  - by apply size_scan_number.
Qed.

Lemma size_expect c s r : expect c s = Some r -> (size r < size s)%nat.
Proof. destruct s as [|d s]; cbn; [done|]. destruct (Ascii.eqb d c); intros [= ->]; lia. Qed.

Lemma size_key s k r : key s = Some (k, r) -> (size r < size s)%nat.
Proof.
  unfold key. destruct (expect _ s) as [s1|] eqn:E; [|done]. apply size_expect in E.
  destruct (scanstring s1) as [[t r1]|] eqn:F; [|done]. apply size_scanstring in F.
  pose proof (size_skip r1). destruct (expect _ (skip r1)) as [r2|] eqn:G; [|done].
  apply size_expect in G. pose proof (size_skip r2). cbn. intros [= _ <-]. lia.
Qed.

(** What an item leaves, whether it is the last or not. *)
Lemma size_expect_skip c s r : expect c (skip s) = Some r -> (size r < size s)%nat.
Proof. pose proof (size_skip s). intros H1%size_expect. lia. Qed.

Lemma parsers_consume n :
  (forall s v r, value n s = Some (v, r) -> (size r < size s)%nat) /\
  (forall s v r, elements n s = Some (v, r) -> (size r < size s)%nat) /\
  (forall s v r, members n s = Some (v, r) -> (size r < size s)%nat).
Proof.
  induction n as [|n (V & E & M)]; [done|]. split_and!.
  - intros [|c s] v r H; [done|]. cbn in H. pose proof (size_skip s).
    destruct (N_of_ascii c =? 34)%N.
    { destruct (scanstring s) as [[t r']|] eqn:F; [|done]. apply size_scanstring in F.
      simplify_eq/=. lia. }
    destruct (Ascii.eqb c "{").
    { destruct (expect _ _) eqn:K; [apply size_expect in K; simplify_eq/=; lia|].
      destruct (members n (skip s)) as [[p r']|] eqn:F; [|done]. apply M in F. simplify_eq/=. lia. }
    destruct (Ascii.eqb c "[").
    { destruct (expect _ _) eqn:K; [apply size_expect in K; simplify_eq/=; lia|].
      destruct (elements n (skip s)) as [[p r']|] eqn:F; [|done]. apply E in F. simplify_eq/=. lia. }
    by apply scalar_size in H.
  - intros s v r H. cbn in H. destruct (value n s) as [[w t]|] eqn:F; [|done]. apply V in F.
    destruct (expect "]" _) eqn:K; [apply size_expect_skip in K; simplify_eq; lia|].
    destruct (expect "," _) as [u|] eqn:K'; [|done]. apply size_expect_skip in K'.
    pose proof (size_skip u). destruct (elements n (skip u)) as [[p r']|] eqn:G; [|done].
    apply E in G. simplify_eq/=. lia.
  - intros s v r H. cbn in H. destruct (key s) as [[k s1]|] eqn:D; [|done]. apply size_key in D.
    destruct (value n s1) as [[w t]|] eqn:F; [|done]. apply V in F.
    destruct (expect "}" _) eqn:K; [apply size_expect_skip in K; simplify_eq; lia|].
    destruct (expect "," _) as [u|] eqn:K'; [|done]. apply size_expect_skip in K'.
    pose proof (size_skip u). destruct (members n (skip u)) as [[p r']|] eqn:G; [|done].
    apply M in G. simplify_eq/=. lia.
Qed.

Lemma value_S n c s : value (S n) (String c s) =
  if (N_of_ascii c =? 34)%N then option_map (fun p => (JStr p.1, p.2)) (scanstring s)
  else if Ascii.eqb c "{" then
    match expect "}" (skip s) with
    | Some r => Some (JObj [], r)
    | None => option_map (fun p => (JObj (of_pairs p.1), p.2)) (members n (skip s)) end
  else if Ascii.eqb c "[" then
    match expect "]" (skip s) with
    | Some r => Some (JList [], r)
    | None => option_map (fun p => (JList p.1, p.2)) (elements n (skip s)) end
  else match constant (String c s) with Some p => Some p | None => scan_number (String c s) end.
Proof. done. Qed.

Lemma elements_S n s : elements (S n) s =
  match value n s with
  | None => None
  | Some (v, r) =>
      match expect "]" (skip r), expect "," (skip r) with
      | Some r, _ => Some ([v], r)
      | None, Some r => option_map (fun p => (v :: p.1, p.2)) (elements n (skip r))
      | None, None => None end end.
Proof. done. Qed.

Lemma members_S n s : members (S n) s =
  match key s with
  | None => None
  | Some (k, r) =>
      match value n r with
      | None => None
      | Some (v, r) =>
          match expect "}" (skip r), expect "," (skip r) with
          | Some r, _ => Some ([(k, v)], r)
          | None, Some r => option_map (fun p => ((k, v) :: p.1, p.2)) (members n (skip r))
          | None, None => None end end end.
Proof. done. Qed.

(** Fuel of twice the text is as good as any more. *)
Lemma parsers_stable n :
  (forall s, (2 * size s < n)%nat -> value (S n) s = value n s) /\
  (forall s, (2 * size s + 1 < n)%nat -> elements (S n) s = elements n s) /\
  (forall s, (2 * size s + 1 < n)%nat -> members (S n) s = members n s).
Proof.
  induction n as [|n (V & E & M)]; [split_and!; intros; lia|]. split_and!.
  - intros [|c s] H; [done|]. cbn [size] in H. pose proof (size_skip s).
    by rewrite !value_S, (M (skip s)), (E (skip s)) by lia.
  - intros s H. rewrite (elements_S (S n)), (elements_S n s), V by lia.
    destruct (value n s) as [[v t]|] eqn:F; [|done].
    apply parsers_consume in F. destruct (expect "]" _); [done|].
    destruct (expect "," _) as [u|] eqn:K; [|done]. apply size_expect_skip in K.
    pose proof (size_skip u). by rewrite E by lia.
  - intros s H. rewrite (members_S (S n)), (members_S n s).
    destruct (key s) as [[k s1]|] eqn:D; [|done]. apply size_key in D.
    rewrite V by lia. destruct (value n s1) as [[v t]|] eqn:F; [|done].
    apply parsers_consume in F. destruct (expect "}" _); [done|].
    destruct (expect "," _) as [u|] eqn:K; [|done]. apply size_expect_skip in K.
    pose proof (size_skip u). by rewrite M by lia.
Qed.

Lemma value_fuel s k : value (k + S (2 * size s)) s = value (S (2 * size s)) s.
Proof.
  induction k as [|k IH]; [done|]. rewrite <- IH.
  apply (proj1 (parsers_stable (k + S (2 * size s)))). lia.
Qed.

(** ** What is written is read back *)

(** Values [dumps] writes as texts [loads] accepts: integers below the digit
    limit, floats carrying their [repr], distinct keys. *)
Fixpoint written (j : json) : bool :=
  match j with
  | JInt z => (Z.of_nat (size (pretty (Z.abs z))) <=? 4300)
  | JFloat r =>
      bool_decide (r ∈ ["NaN"; "Infinity"; "-Infinity"]) ||
      match scan_number r with Some (JFloat r', EmptyString) => (r' =? r)%string | _ => false end
  | JList l => forallb written l
  | JObj kvs => bool_decide (NoDup (map fst kvs)) && forallb (fun kv => written kv.2) kvs
  | _ => true
  end.

Lemma span_digits s : all_digits s = true -> span is_digit s = (s, "").
Proof.
  induction s as [|c s IH]; cbn; [done|]. unfold is_digit at 1.
  destruct (digit_of c) as [d|]; [|done]. intros H. by rewrite IH.
Qed.

(** No leading zero. *)
Lemma pretty_go_nonzero x s :
  (0 < x)%N -> exists c r d, pretty_N_go x s = String c r /\ digit_of c = Some d /\ c <> "0"%char.
Proof.
  revert s. induction (N.lt_wf_0 x) as [x _ IH]; intros s Hx. rewrite pretty_N_go_step by lia.
  destruct (decide (x / 10 = 0)%N) as [E|Nx].
  - rewrite E, pretty_N_go_0. pose proof (digit_of_pretty x) as D.
    eexists _, _, _. split_and!; [done|exact D|]. intros C. rewrite C in D.
    assert (x mod 10 <> 0)%N. { pose proof (N.div_mod x 10 ltac:(lia)). lia. }
    injection D as D. lia.
  - apply IH; [apply N.div_lt; lia|by apply N.neq_0_lt_0].
Qed.

Lemma integer_part_pretty (n : N) : integer_part (pretty n) = Some (pretty n, "").
Proof.
  pose proof (pretty_digits (Z.of_N n) ltac:(lia)) as A.
  replace (pretty (Z.of_N n)) with (pretty n) in A by by destruct n.
  unfold pretty, pretty_N in *. destruct (decide (n = 0%N)) as [->|Nn]; [done|].
  destruct (pretty_go_nonzero n "" ltac:(lia)) as (c & r & d & E & D & C). rewrite E in *.
  assert (integer_part (String c r) = if is_digit c then Some (span is_digit (String c r)) else None) as ->.
  { by destruct c as [[] [] [] [] [] [] [] []]. }
  unfold is_digit at 1. rewrite D. cbn [bool_decide]. by rewrite span_digits.
Qed.

Lemma digits_of_pretty (n : N) : digits 0 (pretty n) = Some (Z.of_N n).
Proof.
  pose proof (natural_pretty n) as H. unfold natural in H.
  destruct (pretty n) as [|c s]; [done|]. by destruct (digit_of c).
Qed.

Lemma scan_number_pretty z : (Z.of_nat (size (pretty (Z.abs z))) <=? 4300) = true ->
  scan_number (pretty z) = Some (JInt z, "").
Proof.
  assert (forall n : N, (Z.of_nat (size (pretty n)) <=? 4300) = true -> forall neg : bool,
    match integer_part (pretty n) with
    | None => None
    | Some (ds, r) =>
        let '(fs, r1) := fraction r in
        let '(x, r2) := exponent_of r1 in
        match fs, x with
        | EmptyString, None =>
            if 4300 <? Z.of_nat (String.length ds) then None
            else let n := default 0 (digits 0 ds) in Some (JInt (if neg then - n else n), r2)
        | _, _ => Some (JFloat (repr (of_decimal neg (default 0 (digits 0 (ds +:+ fs)))
                    (default 0 x - Z.of_nat (String.length fs)))), r2)
        end
    end = Some (JInt (if neg then - Z.of_N n else Z.of_N n), "")) as K.
  { intros n Hn neg. rewrite integer_part_pretty. cbn.
    destruct (4300 <? _) eqn:L; [bprop; lia|].
    by rewrite digits_of_pretty. }
  intros H. destruct z as [|p|p].
  - done.
  - change (pretty (Z.pos p)) with (pretty (Npos p)).
    change (JInt (Z.pos p)) with (JInt (Z.of_N (Npos p))).
    refine (eq_trans _ (K (Npos p) H false)). unfold scan_number. pose proof (integer_part_pretty (Npos p)) as I.
    destruct (pretty (N.pos p)) as [|c s]; [done|]. destruct c as [[] [] [] [] [] [] [] []]; done.
  - change (pretty (Z.neg p)) with (String "-" (pretty (Npos p))). exact (K (Npos p) H true).
Qed.

(** The first character of a number. *)
Lemma number_head s p : scan_number s = Some p ->
  exists c t, s = String c t /\ (N_of_ascii c =? 34)%N = false /\ Ascii.eqb c "{" = false /\
    Ascii.eqb c "[" = false /\ Ascii.eqb c "]" = false /\ json_space c = false /\
    (N_of_ascii c <? 128)%N = true /\ constant s = None.
Proof.
  destruct s as [|c t]; [done|]. intros H. exists c, t.
  destruct c as [[] [] [] [] [] [] [] []]; try discriminate H; split_and!; try reflexivity.
  destruct t as [|d t]; [done|].
  destruct d as [[] [] [] [] [] [] [] []]; try discriminate H; reflexivity.
Qed.

Lemma value_number n s r x : stops r = true -> scan_number s = Some (x, "") ->
  value (S n) (s +:+ r) = Some (x, r).
Proof.
  intros Hr H. apply (scan_number_app _ r) in H; [|done]. rewrite sapp_nil in H.
  destruct (number_head _ _ H) as (c & t & E & Q & B & C & _ & _ & _ & K). rewrite E in *.
  by rewrite value_S, Q, B, C, K.
Qed.

Definition head_ok (s : string) : Prop :=
  exists c t, s = String c t /\ Ascii.eqb c "]" = false /\ json_space c = false /\
    (N_of_ascii c <? 128)%N = true.

Lemma text_head j : written j = true -> head_ok (dumps_text j).
Proof.
  assert (forall s p, scan_number s = Some p -> head_ok s) as K.
  { intros s p H. destruct (number_head _ _ H) as (c & t & -> & _ & _ & _ & ? & ? & ? & _).
    by exists c, t. }
  destruct j as [|[]|z|r|s|l|kvs]; cbn; intros H; try (eexists _, _; split_and!; reflexivity).
  - by eapply K, scan_number_pretty.
  - bprop. apply orb_true_iff in H as [H|H].
    + bprop. repeat (apply elem_of_cons in H as [-> | H]; [eexists _, _; split_and!; reflexivity|]).
      by apply elem_of_nil in H.
    + destruct (scan_number r) as [p|] eqn:E; [by eapply K|done].
Qed.

Lemma skip_head s r : head_ok s -> skip (s +:+ r) = s +:+ r /\ expect "]" (s +:+ r) = None.
Proof.
  intros (c & t & -> & B & S & _). rewrite sapp_cons. split; cbn; by rewrite ?S, ?B.
Qed.

Lemma join_cons2 sep x y l : join sep (x :: y :: l) = x +:+ (sep +:+ join sep (y :: l)).
Proof. done. Qed.

Lemma skip_comma s : skip (", " +:+ s) = String "," (String " " s).
Proof. done. Qed.
Lemma skip_space s : skip (String " " s) = skip s.
Proof. done. Qed.
Lemma expect_same c s : expect c (String c s) = Some s.
Proof. cbn. by rewrite Ascii.eqb_refl. Qed.

(** Enough fuel to read the text of [j] before any [r]. *)
Definition reads (j : json) : Prop :=
  exists n, forall m r, (n <= m)%nat -> stops r = true -> value m (dumps_text j +:+ r) = Some (j, r).

Lemma reads_list x l :
  (forall j, j ∈ x :: l -> written j = true /\ reads j) ->
  exists n, forall m r, (n <= m)%nat ->
    elements m (join ", " (map dumps_text (x :: l)) +:+ String "]" r) = Some (x :: l, r).
Proof.
  revert x. induction l as [|y l IH]; intros x H.
  - destruct (proj2 (H x ltac:(left))) as [n Hn]. exists (S n). intros [|m] r Hm; [lia|].
    change (join ", " (map dumps_text [x])) with (dumps_text x +:+ ""). rewrite sapp_nil_r.
    rewrite elements_S, Hn by (done || lia). done.
  - destruct (proj2 (H x ltac:(left))) as [n Hn].
    destruct (IH y) as [n' Hn']; [intros j Hj; apply H; by right|].
    exists (S (n + n')). intros [|m] r Hm; [lia|]. cbn [map]. rewrite join_cons2, !sapp_assoc.
    rewrite elements_S, Hn by (done || lia).
    rewrite skip_comma, expect_same, skip_space.
    assert (head_ok (join ", " (map dumps_text (y :: l)))) as Hh.
    { destruct (text_head y) as (c & t & E & ?); [apply H; right; left|].
      cbn. rewrite E. by eexists _, _. }
    cbn [map] in Hh, Hn'. destruct (skip_head _ (String "]" r) Hh) as [-> _]. by rewrite Hn' by lia.
Qed.

Lemma key_text k r : head_ok r -> key (quoted k +:+ (": " +:+ r)) = Some (k, r).
Proof.
  intros H. unfold key, quoted. rewrite !sapp_assoc.
  change (quote +:+ (escape k +:+ (quote +:+ (": " +:+ r))))
    with (String (ascii_of_N 34) (escape k +:+ (quote +:+ (": " +:+ r)))).
  rewrite expect_same, scanstring_escape. change (skip (": " +:+ r)) with (String ":" (String " " r)).
  rewrite expect_same. cbn [option_map]. rewrite skip_space.
  destruct (skip_head _ "" H) as [E _]. rewrite sapp_nil_r in E. by rewrite E.
Qed.

Definition item (kv : string * json) : string := quoted kv.1 +:+ (": " +:+ dumps_text kv.2).

Lemma head_ok_app s r : head_ok s -> head_ok (s +:+ r).
Proof. intros (c & t & -> & ?). by exists c, (t +:+ r). Qed.

Lemma reads_members x l :
  (forall kv, kv ∈ x :: l -> written kv.2 = true /\ reads kv.2) ->
  exists n, forall m r, (n <= m)%nat ->
    members m (join ", " (map item (x :: l)) +:+ String "}" r) = Some (x :: l, r).
Proof.
  revert x. induction l as [|y l IH]; intros x H; pose proof (H x ltac:(left)) as [W [n Hn]].
  - exists (S n). intros [|m] r Hm; [lia|]. change (join ", " (map item [x])) with (item x +:+ "").
    rewrite sapp_nil_r. unfold item. rewrite !sapp_assoc, members_S, key_text
      by (by apply head_ok_app, text_head).
    rewrite Hn by (done || lia). by destruct x.
  - destruct (IH y) as [n' Hn']; [intros j Hj; apply H; by right|].
    exists (S (n + n')). intros [|m] r Hm; [lia|]. cbn [map]. rewrite join_cons2.
    unfold item at 1. rewrite !sapp_assoc, members_S, key_text by (by apply head_ok_app, text_head).
    rewrite Hn by (done || lia).
    rewrite skip_comma, expect_same.
    cbn [map] in Hn'. change (skip (String " " (join ", " (item y :: map item l) +:+ String "}" r)))
      with (join ", " (item y :: map item l) +:+ String "}" r).
    rewrite Hn' by lia. by destruct x.
Qed.

Lemma of_pairs_distinct l : NoDup (map fst l) -> of_pairs l = l.
Proof.
  intros H. unfold of_pairs. rewrite <- (app_nil_l l) in H at 1 |- * at 2. revert H.
  generalize (@nil (string * json)) as d. induction l as [|[k v] l IH]; intros d H.
  - by rewrite app_nil_r.
  - cbn [foldl fst snd]. assert (set_key k v d = d ++ [(k, v)]) as ->.
    { unfold set_key. destruct (get k d) as [w|] eqn:G; [|done].
      unfold get in G. destruct (List.find _ d) as [[k' w']|] eqn:F; [|done].
      apply find_some_elem in F as [F E]. cbn in E. bprop. subst k'.
      rewrite map_app in H. apply NoDup_app in H as (_ & H & _). exfalso. apply (H k); [|left].
      apply list_elem_of_fmap. by exists (k, w'). }
    rewrite IH; [by rewrite <- app_assoc|]. by rewrite <- app_assoc.
Qed.

Lemma reads_written j : written j = true -> reads j.
Proof.
  induction j as [|b|z|r|s|l IH|kvs IH] using json_ind'; intros W.
  - exists 1%nat. by intros [|m] r Hm Hr; [lia|].
  - exists 1%nat. by intros [|m] r Hm Hr; [lia|destruct b].
  - exists 1%nat. intros [|m] r Hm Hr; [lia|]. apply value_number; [done|]. by apply scan_number_pretty.
  - exists 1%nat. intros [|m] t Hm Ht; [lia|]. cbn in W. apply orb_true_iff in W as [W|W].
    + bprop. repeat (apply elem_of_cons in W as [-> | W]; [done|]). by apply elem_of_nil in W.
    + apply value_number; [done|]. cbn [print dumps_text].
      destruct (scan_number r) as [[[] []]|]; try done. bprop. by subst.
  - exists 1%nat. intros [|m] r Hm Hr; [lia|]. cbn [dumps_text print]. unfold quoted.
    rewrite !sapp_assoc. change (quote +:+ ?s) with (String (ascii_of_N 34) s) at 1.
    rewrite value_S. cbn [N_of_ascii]. by rewrite scanstring_escape.
  - destruct l as [|x l].
    { exists 1%nat. by intros [|m] r Hm Hr; [lia|]. }
    assert (forall j, j ∈ x :: l -> written j = true /\ reads j) as H.
    { intros j Hj. cbn [written] in W. rewrite forallb_forall in W.
      assert (written j = true) by (by apply W, list_elem_of_In). auto. }
    destruct (reads_list x l H) as [n Hn]. exists (S n). intros [|m] r Hm Hr; [lia|].
    change (dumps_text (JList (x :: l)) +:+ r)
      with (String "[" ((join ", " (map dumps_text (x :: l)) +:+ "]") +:+ r)).
    rewrite sapp_assoc. change ("]" +:+ r) with (String "]" r). rewrite value_S. cbn -[expect skip join elements].
    assert (head_ok (join ", " (map dumps_text (x :: l)))) as Hh.
    { destruct (text_head x) as (c & t & E & ?); [apply H; left|]. cbn. rewrite E. by eexists _, _. }
    cbn [map] in Hh, Hn |- *. destruct (skip_head _ (String "]" r) Hh) as [-> ->]. by rewrite Hn by lia.
  - destruct kvs as [|x l].
    { exists 1%nat. by intros [|m] r Hm Hr; [lia|]. }
    cbn [written] in W. apply andb_true_iff in W as [Nd W].
    assert (forall kv, kv ∈ x :: l -> written kv.2 = true /\ reads kv.2) as H.
    { intros kv Hk. rewrite forallb_forall in W.
      assert (written kv.2 = true) by (by apply (W kv), list_elem_of_In). auto. }
    destruct (reads_members x l H) as [n Hn]. exists (S n). intros [|m] r Hm Hr; [lia|].
    change (dumps_text (JObj (x :: l)) +:+ r)
      with (String "{" ((join ", " (map item (x :: l)) +:+ "}") +:+ r)).
    rewrite sapp_assoc. change ("}" +:+ r) with (String "}" r). rewrite value_S.
    change (skip (join ", " (map item (x :: l)) +:+ String "}" r))
      with (join ", " (map item (x :: l)) +:+ String "}" r).
    cbn -[members join map of_pairs]. rewrite Hn by lia. cbn -[of_pairs].
    rewrite of_pairs_distinct; [done|by bprop].
Qed.

(** [json.loads(json.dumps(v, ensure_ascii=False)) == v]. *)
Theorem loads_dumps j : written j = true -> loads (dumps_text j) = Some j.
Proof.
  intros W. destruct (reads_written j W) as [n Hn]. pose proof (text_head j W) as Hh.
  specialize (Hn (n + S (2 * size (dumps_text j)))%nat "" ltac:(lia) eq_refl).
  rewrite sapp_nil_r, value_fuel in Hn. unfold loads.
  destruct (skip_head _ "" Hh) as [E _]. rewrite sapp_nil_r in E.
  assert (starts_with byte_order_mark (dumps_text j) = false) as ->.
  { destruct Hh as (c & t & -> & _ & _ & Hc).
    destruct c as [[] [] [] [] [] [] [] []]; try discriminate Hc; reflexivity. }
  by rewrite E, Hn.
Qed.

(** ** Lines of JSON texts

    [str.splitlines()] breaks at more than the newline: also at U+0085, U+2028
    and U+2029, which [dumps] does not escape. *)

(** What follows a line break at the head of [s]. *)
Definition after_break (s : string) : option string :=
  match s with
  | String c s =>
      let n := N_of_ascii c in
      if (n =? 13)%N then Some (match s with String "010" s => s | _ => s end)
      else if bool_decide (n ∈ [10; 11; 12; 28; 29; 30]%N) then Some s
      else if (n =? 0xc2)%N then
        match s with String d s => if (N_of_ascii d =? 0x85)%N then Some s else None | _ => None end
      else if (n =? 0xe2)%N then
        match s with
        | String d (String e s) =>
            if (N_of_ascii d =? 0x80)%N && bool_decide (N_of_ascii e ∈ [0xa8; 0xa9]%N) then Some s else None
        | _ => None
        end
      else None
  | EmptyString => None
  end.

Definition to_line (c : ascii) (l : list string) : list string :=
  match l with [] => [String c ""] | x :: l => String c x :: l end.

Fixpoint lines (fuel : nat) (s : string) : list string :=
  match fuel, s with
  | S fuel, String c s' =>
      match after_break s with Some r => "" :: lines fuel r | None => to_line c (lines fuel s') end
  | _, _ => []
  end.

(** [s.splitlines()] *)
Definition splitlines (s : string) : list string := lines (size s) s.

(** No line break in a text. *)
Fixpoint one_line (s : string) : bool :=
  match s with
  | String c s' => match after_break s with Some _ => false | None => true end && one_line s'
  | EmptyString => true
  end.

(** None that [dumps] would leave in place. *)
Definition unbroken (s : string) : bool := one_line (escape s).

Fixpoint unbroken_json (j : json) : bool :=
  match j with
  | JStr s => unbroken s
  | JFloat r => one_line r
  | JList l => forallb unbroken_json l
  | JObj kvs => forallb (fun kv => unbroken kv.1 && unbroken_json kv.2) kvs
  | _ => true
  end.

(** The readable values on the lines of a file: [json.loads] of each line,
    those that raise left out. *)
Definition json_lines (text : string) : list json :=
  omap loads (List.filter (fun l => negb (l =? "")%string) (splitlines (strip text))).

(** The text after [f.write(json.dumps(v) + "\n")]. *)
Definition write_line (text : string) (j : json) : string :=
  text +:+ (dumps_text j +:+ String (ascii_of_N 10) "").

Example split_examples :
  splitlines (bytes [97; 10; 10; 98; 13; 10; 0xe2; 0x80; 0xa8; 99; 0xc3; 0xa9; 10]%N) =
  ["a"; ""; "b"; ""; bytes [99; 0xc3; 0xa9]%N].
Proof. vm_compute. reflexivity. Qed.

Lemma size_after_break s r : after_break s = Some r -> (size r < size s)%nat.
Proof.
  destruct s as [|c s]; [done|]. unfold after_break. intros H.
  destruct (N_of_ascii c =? 13)%N.
  { destruct s as [|d s]; simplify_eq/=; [lia|].
    destruct d as [[] [] [] [] [] [] [] []]; simplify_eq/=; lia. }
  repeat case_in H; simplify_eq/=; lia.
Qed.

Lemma lines_fuel s : forall n, (size s <= n)%nat -> lines n s = splitlines s.
Proof.
  induction s as [s IH] using (induction_ltof1 _ size). unfold ltof in IH.
  intros n Hn. unfold splitlines. destruct s as [|c s]; [by destruct n|].
  destruct n as [|n]; cbn [size] in *; [lia|]. cbn [lines].
  destruct (after_break (String c s)) as [r|] eqn:E.
  - apply size_after_break in E. cbn [size] in E. f_equal.
    rewrite !(IH r) by (cbn [size]; lia). done.
  - f_equal. rewrite !(IH s) by (cbn [size]; lia). done.
Qed.

(** Bytes that do not begin a character boundary: the tail of a break. *)
Definition plain_head (s : string) : bool :=
  match s with String c _ => (N_of_ascii c <? 128)%N | EmptyString => true end.

Lemma after_break_app s t : s <> "" -> after_break s = None -> plain_head t = true ->
  after_break (s +:+ t) = None.
Proof.
  destruct s as [|c s]; [done|]. intros _ H Ht. rewrite sapp_cons. unfold after_break in *.
  destruct (N_of_ascii c =? 13)%N; [done|]. destruct (bool_decide _); [done|].
  assert (forall d u, t = String d u -> (N_of_ascii d =? 0x85)%N = false /\ (N_of_ascii d =? 0x80)%N = false /\
    bool_decide (N_of_ascii d ∈ [0xa8; 0xa9]%N) = false) as K.
  { intros d u ->. cbn in Ht. by destruct d as [[] [] [] [] [] [] [] []]. }
  destruct (N_of_ascii c =? 0xc2)%N.
  { destruct s as [|d s]; [|rewrite sapp_cons; by destruct (N_of_ascii d =? _)%N]. rewrite sapp_nil. destruct t as [|d t]; [done|].
    by destruct (K d t eq_refl) as [-> _]. }
  destruct (N_of_ascii c =? 0xe2)%N; [|done].
  destruct s as [|d [|e s]]; [..|rewrite !sapp_cons; by destruct (_ && _)].
  - rewrite sapp_nil. destruct t as [|d [|e t]]; [done|done|].
    by destruct (K d _ eq_refl) as (_ & -> & _).
  - rewrite sapp_cons, sapp_nil. destruct t as [|e t]; [done|].
    destruct (K e _ eq_refl) as (_ & _ & ->). by rewrite andb_false_r.
Qed.

Lemma one_line_app s t : one_line s = true -> one_line t = true -> plain_head t = true ->
  one_line (s +:+ t) = true.
Proof.
  intros Hs Ht P. induction s as [|c s IH]; [done|]. rewrite sapp_cons. cbn [one_line] in *.
  apply andb_true_iff in Hs as [H Hs]. rewrite (IH Hs), <- sapp_cons.
  destruct (after_break (String c s)) eqn:E; [done|]. by rewrite after_break_app.
Qed.

Lemma splitlines_cons c s : splitlines (String c s) =
  match after_break (String c s) with
  | Some r => "" :: splitlines r
  | None => to_line c (splitlines s)
  end.
Proof.
  unfold splitlines at 1. cbn [size lines].
  destruct (after_break (String c s)) as [r|] eqn:E; [|done].
  apply size_after_break in E. cbn [size] in E. by rewrite lines_fuel by lia.
Qed.

Lemma lines_cons s t : s <> "" -> one_line s = true ->
  splitlines (s +:+ String (ascii_of_N 10) t) = s :: splitlines t.
Proof.
  induction s as [|c s IH]; [done|]. intros _ H. cbn [one_line] in H.
  apply andb_true_iff in H as [H Hs]. rewrite sapp_cons, splitlines_cons.
  rewrite <- sapp_cons, after_break_app; [|done|by destruct (after_break (String c s))|done].
  destruct s as [|d s]; [|by rewrite IH]. by rewrite sapp_nil, splitlines_cons.
Qed.

Lemma lines_last s : s <> "" -> one_line s = true -> splitlines s = [s].
Proof.
  induction s as [|c s IH]; [done|]. intros _ H. cbn [one_line] in H.
  apply andb_true_iff in H as [H Hs]. rewrite splitlines_cons.
  destruct (after_break (String c s)); [done|]. destruct s as [|d s]; [done|]. by rewrite IH.
Qed.

Lemma one_line_ascii s : all_chars (fun c => (32 <=? N_of_ascii c) && (N_of_ascii c <? 127))%N s = true ->
  one_line s = true.
Proof.
  induction s as [|c s IH]; [done|]. cbn [all_chars one_line]. intros [H Hs]%andb_true_iff.
  rewrite (IH Hs). by destruct c as [[] [] [] [] [] [] [] []].
Qed.

Lemma one_line_quoted s : unbroken s = true -> one_line (quoted s) = true.
Proof.
  intros H. unfold quoted. change (quote +:+ ?t) with (String (ascii_of_N 34) t).
  cbn [one_line]. rewrite one_line_app by done. done.
Qed.

(** A piece of a text: one line, and no byte of it completes a break begun
    before. *)
Definition piece_ok (s : string) : bool := one_line s && plain_head s.

Lemma piece_app s t : piece_ok s = true -> piece_ok t = true -> piece_ok (s +:+ t) = true.
Proof.
  unfold piece_ok. intros [H P]%andb_true_iff [H' P']%andb_true_iff.
  rewrite one_line_app by done. by destruct s.
Qed.

Lemma piece_join sep l : piece_ok sep = true -> (forall s, s ∈ l -> piece_ok s = true) ->
  piece_ok (join sep l) = true.
Proof.
  intros Hs H. destruct l as [|x l]; [done|]. cbn [join].
  apply piece_app; [apply H; left|].
  assert (forall s, s ∈ l -> piece_ok s = true) as H' by (intros; apply H; by right).
  clear H. induction l as [|y l IH]; [done|]. cbn [foldr].
  apply piece_app; [done|]. apply piece_app; [apply H'; left|]. apply IH. intros. apply H'. by right.
Qed.

Lemma head_ok_plain s : head_ok s -> plain_head s = true.
Proof. by intros (c & t & -> & _ & _ & ?). Qed.

Lemma piece_dumps j : written j = true -> unbroken_json j = true -> piece_ok (dumps_text j) = true.
Proof.
  induction j as [|b|z|r|s|l IH|kvs IH] using json_ind'; intros W U.
  - done.
  - by destruct b.
  - unfold piece_ok. rewrite (head_ok_plain _ (text_head _ W)), andb_true_r.
    apply one_line_ascii, (all_chars_mono intchar); [|apply pretty_Z_intchars].
    intros c. by destruct c as [[] [] [] [] [] [] [] []].
  - unfold piece_ok. rewrite (head_ok_plain _ (text_head _ W)), andb_true_r. exact U.
  - unfold piece_ok. rewrite (head_ok_plain _ (text_head (JStr s) W)), andb_true_r. by apply one_line_quoted.
  - cbn [dumps_text written unbroken_json] in *. rewrite forallb_forall in W, U.
    apply piece_app; [done|]. apply piece_app; [|done]. apply piece_join; [done|].
    intros s (j & -> & Hj)%list_elem_of_fmap. apply IH; [done|apply W|apply U]; by apply list_elem_of_In.
  - cbn [dumps_text written unbroken_json] in *. apply andb_true_iff in W as [_ W].
    rewrite forallb_forall in W, U.
    apply piece_app; [done|]. apply piece_app; [|done]. apply piece_join; [done|].
    intros s ([k j] & -> & Hj)%list_elem_of_fmap.
    assert (unbroken k = true /\ unbroken_json j = true) as [Uk Uj].
    { apply andb_true_iff. apply (U (k, j)). by apply list_elem_of_In. }
    assert (written j = true) as Wj by (apply (W (k, j)); by apply list_elem_of_In).
    apply piece_app; [by apply andb_true_iff; split; [apply one_line_quoted|]|].
    apply piece_app; [done|]. exact (IH (k, j) Hj Wj Uj).
Qed.

(** *** Files of lines *)

Lemma strip_lines s : (exists t, s = String "{" t /\ starts_continuation t = false) ->
  (exists t, s = t +:+ "}") -> strip (s +:+ String (ascii_of_N 10) "") = s.
Proof.
  intros (t & E1 & H1) (t' & E2). unfold strip.
  assert (exists l, chars s = "{" :: l) as [l El].
  { rewrite E1. change (String "{" t) with ("{" +:+ t). rewrite chars_app by done. by eexists. }
  assert (exists l', chars s = l' ++ ["}"]) as [l' El'].
  { rewrite E2, chars_app by done. by eexists. }
  rewrite chars_app by done.
  assert (drop_while is_space (chars s ++ chars (String (ascii_of_N 10) "")) =
          chars s ++ chars (String (ascii_of_N 10) "")) as -> by by rewrite El.
  rewrite rev_app_distr. change (rev (chars (String (ascii_of_N 10) ""))) with [String (ascii_of_N 10) ""].
  cbn [app drop_while]. change (is_space (String (ascii_of_N 10) "")) with true. cbn match.
  rewrite El' at 1. rewrite rev_app_distr. cbn [rev app drop_while].
  change (is_space "}") with false. cbn match. cbn [rev]. rewrite rev_involutive, <- El'.
  apply text_of_chars.
Qed.

Definition is_object (j : json) : bool := match j with JObj (_ :: _) => true | _ => false end.

Lemma object_text j : is_object j = true ->
  (exists t, dumps_text j = String "{" t /\ starts_continuation t = false) /\ exists t, dumps_text j = t +:+ "}".
Proof.
  destruct j as [| | | | | |[|[k v] l]]; try done. intros _. split.
  - by eexists.
  - cbn [dumps_text]. eexists. by rewrite <- sapp_assoc.
Qed.

Lemma starts_app s t : starts_continuation s = false -> starts_continuation t = false ->
  starts_continuation (s +:+ t) = false.
Proof. by destruct s. Qed.

Lemma object_starts j r : is_object j = true -> starts_continuation (dumps_text j +:+ r) = false.
Proof. intros H. destruct (object_text j H) as [(t & -> & _) _]. done. Qed.

Lemma write_snoc l j : foldl write_line "" (l ++ [j]) =
  foldl write_line "" l +:+ (dumps_text j +:+ String (ascii_of_N 10) "").
Proof. by rewrite foldl_app. Qed.

(** The objects written to a file, line by line, are those read from it. *)
Theorem json_lines_write (l : list json) :
  (forall j, j ∈ l -> is_object j && written j && unbroken_json j = true) ->
  json_lines (foldl write_line "" l) = l.
Proof.
  intros H. unfold json_lines. destruct l as [|j l _] using rev_ind; [done|].
  rewrite write_snoc.
  assert (forall x, x ∈ l ++ [j] -> is_object x = true /\ written x = true /\ unbroken_json x = true) as H'.
  { intros x Hx. specialize (H x Hx). bprop. done. }
  clear H. rewrite <- sapp_assoc.
  assert (forall x, x ∈ l ++ [j] -> dumps_text x <> "" /\ one_line (dumps_text x) = true) as T.
  { intros x Hx. destruct (H' x Hx) as (_ & W & U). pose proof (piece_dumps x W U) as P.
    apply andb_true_iff in P as [P _]. split; [|done]. by destruct (text_head x W) as (c & t & -> & _). }
  assert (forall l0 t, (forall x, x ∈ l0 -> x ∈ l ++ [j]) ->
    splitlines (foldl write_line "" l0 +:+ t) = map dumps_text l0 ++ splitlines t /\
    (l0 <> [] -> exists t', foldl write_line "" l0 = String "{" t' /\ starts_continuation t' = false)) as K.
  { induction l0 as [|x l0 IH] using rev_ind; intros t Hl; [by rewrite sapp_nil|].
    rewrite write_snoc. destruct (T x) as [N O]; [apply Hl; set_solver|].
    destruct (IH (dumps_text x +:+ String (ascii_of_N 10) t)) as [E F]; [intros; apply Hl; set_solver|].
    split.
    - rewrite !sapp_assoc. change (String (ascii_of_N 10) "" +:+ t) with (String (ascii_of_N 10) t).
      rewrite E, lines_cons by done. by rewrite map_app, <- app_assoc.
    - intros _. destruct l0 as [|y l0].
      + cbn [foldl]. rewrite sapp_nil. destruct (H' x) as [Ob _]; [apply Hl; set_solver|].
        destruct (object_text x Ob) as [(t' & -> & Ht) _]. exists (t' +:+ String (ascii_of_N 10) "").
        split; [done|]. by apply starts_app.
      + destruct F as (t' & -> & Ht); [done|]. eexists. split; [by rewrite sapp_cons|].
        apply starts_app, object_starts; [done|]. apply H', Hl. set_solver. }
  destruct (H' j) as (Ob & W & U); [set_solver|].
  destruct (T j) as [Nj Oj]; [set_solver|]. destruct (object_text j Ob) as [(t1 & E1 & C1) (t2 & E2)].
  destruct (K l (dumps_text j)) as [E F]; [set_solver|].
  rewrite strip_lines.
  - rewrite E, lines_last by done.
    assert (map dumps_text l ++ [dumps_text j] = map dumps_text (l ++ [j])) as -> by by rewrite map_app.
    clear -H' T. induction (l ++ [j]) as [|x l0 IH]; [done|]. cbn [map List.filter].
    destruct (T x ltac:(left)) as [N _]. destruct (String.eqb_spec (dumps_text x) ""); [done|].
    cbn [negb omap list_omap]. destruct (H' x ltac:(left)) as (_ & W & _). rewrite loads_dumps by done.
    f_equal. apply IH; intros; [apply H'|apply T]; by right.
  - destruct l as [|y l]; [rewrite sapp_nil; eauto|].
    destruct F as (t' & -> & Ht); [done|]. eexists. split; [by rewrite sapp_cons|].
    apply starts_app; [done|]. rewrite <- (sapp_nil_r (dumps_text j)). by apply object_starts.
  - rewrite E2. eexists. by rewrite <- sapp_assoc.
Qed.

End JsonText.
