(* ===== verification/Reverse.v ===== *)
(** * Reverse fulfilment

    [reverse.py] (which of return, replacement, resend or refund without return
    is cheapest, with the recovery value discounted by the damage) and
    [reverse_execution.py] (the disposition state machine, its SLA and the
    idempotent outbound adapter). *)
From S2P Require Import Prelude Sha256 Json Errors Float64 Schemas.
Import Sha256 Json Errors Schemas.

(** ** reverse.py *)
Module Reverse.

Inductive CustomerPreference := REFUND | REPLACEMENT.
Inductive ReverseAction :=
| REFUND_WITHOUT_RETURN | RETURN_AND_REFUND | REPLACE_AFTER_RETURN
| RESEND_WITHOUT_RETURN | MANUAL_REVIEW.
Inductive ReverseOutcome := DECIDED | NEEDS_EVIDENCE | UNSUPPORTED.
Inductive DamageLevel := none | minor | major | destroyed.
Inductive ReturnGrade := GradeA | GradeB | GradeC | GradeD.

#[export] Instance CustomerPreference_eq_dec : EqDecision CustomerPreference.
Proof. solve_decision. Defined.
#[export] Instance ReverseAction_eq_dec : EqDecision ReverseAction.
Proof. solve_decision. Defined.
#[export] Instance ReverseOutcome_eq_dec : EqDecision ReverseOutcome.
Proof. solve_decision. Defined.
#[export] Instance ReturnGrade_eq_dec : EqDecision ReturnGrade.
Proof. solve_decision. Defined.

Definition reverse_action_value (a : ReverseAction) : string :=
  match a with
  | REFUND_WITHOUT_RETURN => "refund_without_return"
  | RETURN_AND_REFUND => "return_and_refund"
  | REPLACE_AFTER_RETURN => "replace_after_return"
  | RESEND_WITHOUT_RETURN => "resend_without_return"
  | MANUAL_REVIEW => "manual_review"
  end.

Record VisualEvidence := {
  damage_level : DamageLevel;
  serial_matches : option bool;
  human_confirmed : bool
}.

Record ReverseInput := {
  ri_issue_type : IssueType;
  item_value : Z;
  ri_refund_amount : Z;
  return_shipping_cost : Z;
  handling_cost : Z;
  expected_recovery_value : Z;
  replacement_unit_cost : Z;
  replacement_shipping_cost : Z;
  replacement_inventory : Z;
  customer_preference : CustomerPreference;
  visual_evidence : option VisualEvidence
}.

(** The [Field(ge=0)] constraints of [ReverseInput]. *)
Definition reverse_input_valid (c : ReverseInput) : bool :=
  (0 <=? item_value c) && (0 <=? ri_refund_amount c) && (0 <=? return_shipping_cost c) &&
  (0 <=? handling_cost c) && (0 <=? expected_recovery_value c) &&
  (0 <=? replacement_unit_cost c) && (0 <=? replacement_shipping_cost c) &&
  (0 <=? replacement_inventory c).

Record ReverseDecision := {
  outcome : ReverseOutcome;
  rd_action : ReverseAction;
  estimated_resolution_cost : Z;
  requires_return : bool;
  rd_signals : list string;
  rd_missing_evidence : list string;
  grade : option ReturnGrade;
  disposition : option string
}.

Definition RECOVERY_FACTOR (d : DamageLevel) : float :=
  match d with
  | none => rnd 1 1
  | minor => rnd 7 10
  | major => rnd 4 10
  | destroyed => rnd 0 1
  end.

Definition _grade (d : DamageLevel) : ReturnGrade * string :=
  match d with
  | none => (GradeA, "restock")
  | minor => (GradeB, "refurbish")
  | major => (GradeC, "liquidate")
  | destroyed => (GradeD, "dispose")
  end.

(** [round(case.expected_recovery_value * RECOVERY_FACTOR[damage_level])] *)
Definition recovery_value (v : Z) (d : DamageLevel) : Z :=
  round_int (fmul (of_int v) (RECOVERY_FACTOR d)).

Definition undecided (o : ReverseOutcome) (ret : bool) (sigs missing : list string)
  : ReverseDecision :=
  {| outcome := o; rd_action := MANUAL_REVIEW; estimated_resolution_cost := 0;
     requires_return := ret; rd_signals := sigs; rd_missing_evidence := missing;
     grade := None; disposition := None |}.

Definition decided (a : ReverseAction) (cost : Z) (ret : bool) (sigs : list string)
    (g : ReturnGrade * string) : ReverseDecision :=
  {| outcome := DECIDED; rd_action := a; estimated_resolution_cost := cost;
     requires_return := ret; rd_signals := sigs; rd_missing_evidence := [];
     grade := Some g.1; disposition := Some g.2 |}.

Definition decide_reverse_fulfillment (c : ReverseInput) : ReverseDecision :=
  if negb (bool_decide (ri_issue_type c ∈ [DAMAGED_ITEM; WRONG_ITEM; QUALITY_ISSUE])) then
    undecided UNSUPPORTED false ["issue_not_supported_for_reverse_fulfillment"] []
  else
  match visual_evidence c with
  | None => undecided NEEDS_EVIDENCE false [] ["human_confirmed_visual_evidence"]
  | Some ve =>
  if negb (human_confirmed ve) then
    undecided NEEDS_EVIDENCE false [] ["human_confirmed_visual_evidence"]
  else
  if bool_decide (serial_matches ve = Some false)
     && negb (bool_decide (ri_issue_type c = WRONG_ITEM)) then
    undecided DECIDED true ["serial_mismatch_hold"] []
  else
  let g := _grade (damage_level ve) in
  let recovery := recovery_value (expected_recovery_value c) (damage_level ve) in
  let reverse_cost := return_shipping_cost c + handling_cost c in
  let return_refund_cost := Z.max 0 (ri_refund_amount c + reverse_cost - recovery) in
  let wants_replacement := bool_decide (customer_preference c = REPLACEMENT) in
  if wants_replacement && (0 <? replacement_inventory c) then
    if recovery <? reverse_cost then
      decided RESEND_WITHOUT_RETURN
        (Z.max 0 (replacement_unit_cost c + replacement_shipping_cost c)) false
        ["replacement_inventory_available"; "return_cost_exceeds_recovery"] g
    else
      decided REPLACE_AFTER_RETURN
        (Z.max 0 (replacement_unit_cost c + replacement_shipping_cost c + reverse_cost - recovery))
        true ["replacement_inventory_available"] g
  else
  let sigs := if wants_replacement then ["replacement_out_of_stock"] else [] in
  if reverse_cost <=? recovery then
    decided RETURN_AND_REFUND return_refund_cost true
      (sigs ++ ["recovery_covers_reverse_cost"]) g
  else
    decided REFUND_WITHOUT_RETURN (ri_refund_amount c) false
      (sigs ++ ["return_cost_exceeds_recovery"]) g
  end.

(** ** Facts *)

(** A factor below [71/100] never rounds a value up past the value itself. *)
Lemma fmul_bounds v x p q :
  0 < v < 2 ^ 53 -> 0 < mant x -> 0 < p -> 0 < q -> p * 100 <= q * 71 ->
  num x * q * 1000 <= den x * p * 1001 ->
  0 <= round_int (fmul (of_int v) x) <= v.
Proof.
  intros Hv Hm Hp Hq Hpq Hx.
  pose proof (of_int_exact v ltac:(lia)) as Ev.
  pose proof (den_pos (of_int v)) as Dv. pose proof (den_pos x) as Dx.
  assert (0 < num x) as Nx.
  { unfold num. destruct (0 <=? expo x) eqn:E; bprop; [|done].
    pose proof (Z.pow_pos_nonneg 2 (expo x)). nia. }
  unfold fmul. set (P := num (of_int v) * num x). set (Q := den (of_int v) * den x).
  assert (0 < P) as HP by (unfold P; nia). assert (0 < Q) as HQ by (unfold Q; nia).
  pose proof (rnd_error P Q HP HQ) as Er. pose proof (den_pos (rnd P Q)) as Dr.
  assert (P * 100000 <= v * Q * 71071) as HPQ.
  { unfold P, Q. rewrite Ev.
    assert (num x * 100000 <= den x * 71071) by nia. nia. }
  unfold round_int. split.
  - apply round_half_even_ge; [done|].
    assert (0 <= num (rnd P Q) * Q) by nia. nia.
  - apply round_half_even_le; [done|]. nia.
Qed.

Lemma recovery_value_none v : 0 <= v < 2 ^ 53 -> recovery_value v none = v.
Proof.
  intros Hv. unfold recovery_value, fmul. apply round_int_exact.
  rewrite (of_int_exact v Hv).
  change (num (RECOVERY_FACTOR none)) with (2 ^ 52).
  change (den (RECOVERY_FACTOR none)) with (2 ^ 52).
  rewrite <-Z.mul_assoc. apply rnd_exact; [done|].
  pose proof (den_pos (of_int v)). lia.
Qed.

Lemma recovery_value_destroyed v : recovery_value v destroyed = 0.
Proof.
  unfold recovery_value, fmul. change (num (RECOVERY_FACTOR destroyed)) with 0.
  by rewrite Z.mul_0_r.
Qed.

(** What survives the damage is between nothing and the whole value. *)
Lemma recovery_value_bounds v d : 0 <= v < 2 ^ 53 -> 0 <= recovery_value v d <= v.
Proof.
  intros Hv. destruct (Z.eq_dec v 0) as [->|Hne]; [by destruct d|].
  destruct d.
  - rewrite recovery_value_none; lia.
  - apply (fmul_bounds v _ 7 10); try done; lia.
  - apply (fmul_bounds v _ 4 10); try done; lia.
  - rewrite recovery_value_destroyed; lia.
Qed.

(** What the customer receives costs [base] before any return. *)
Definition base_cost (c : ReverseInput) : Z :=
  if bool_decide (customer_preference c = REPLACEMENT) && (0 <? replacement_inventory c)
  then replacement_unit_cost c + replacement_shipping_cost c
  else ri_refund_amount c.

Definition reverse_cost_of (c : ReverseInput) : Z := return_shipping_cost c + handling_cost c.

(** The evidence a human has confirmed, when nothing blocks an automatic
    decision. *)
Definition confirmed_evidence (c : ReverseInput) : option VisualEvidence :=
  match visual_evidence c with
  | Some ve =>
      if bool_decide (ri_issue_type c ∈ [DAMAGED_ITEM; WRONG_ITEM; QUALITY_ISSUE]) &&
         human_confirmed ve &&
         negb (bool_decide (serial_matches ve = Some false)
               && negb (bool_decide (ri_issue_type c = WRONG_ITEM)))
      then Some ve else None
  | None => None
  end.

(** The reverse decision is economically optimal and never automatic
    without evidence.  With confirmed evidence the item is returned exactly
    when the damage-discounted recovery covers the reverse cost, and the
    estimated cost is the cheaper of returning and not returning; otherwise
    the outcome is manual review at no cost. *)
Theorem decide_reverse_optimal c
    (Hv : reverse_input_valid c = true) (Hr : expected_recovery_value c < 2 ^ 53) :
  let r := decide_reverse_fulfillment c in
  match confirmed_evidence c with
  | Some ve =>
      let recovery := recovery_value (expected_recovery_value c) (damage_level ve) in
      0 <= recovery <= expected_recovery_value c /\
      outcome r = DECIDED /\ rd_action r <> MANUAL_REVIEW /\
      requires_return r = (reverse_cost_of c <=? recovery) /\
      estimated_resolution_cost r =
        Z.min (base_cost c) (Z.max 0 (base_cost c + reverse_cost_of c - recovery)) /\
      grade r = Some (_grade (damage_level ve)).1
  | None => rd_action r = MANUAL_REVIEW /\ estimated_resolution_cost r = 0 /\ grade r = None
  end.
Proof.
  unfold reverse_input_valid in Hv. bprop. unfold confirmed_evidence, decide_reverse_fulfillment.
  unfold base_cost, reverse_cost_of. destruct (visual_evidence c) as [ve|];
    destruct (bool_decide (ri_issue_type c ∈ _)); simpl; try done.
  destruct (human_confirmed ve); simpl; [|done].
  destruct (bool_decide (serial_matches ve = _) && _); simpl; [done|].
  pose proof (recovery_value_bounds (expected_recovery_value c) (damage_level ve) ltac:(lia)) as B.
  set (rv := recovery_value _ _) in *. clearbody rv.
  destruct (bool_decide (customer_preference c = REPLACEMENT)), (0 <? replacement_inventory c);
    simpl; split_and!; try done; try lia.
  all: destruct (Z.leb_spec (return_shipping_cost c + handling_cost c) rv),
         (Z.ltb_spec rv (return_shipping_cost c + handling_cost c)); simpl; try done; lia.
Qed.

Definition demo_input : ReverseInput :=
  {| ri_issue_type := DAMAGED_ITEM; item_value := 32800; ri_refund_amount := 32800;
     return_shipping_cost := 1200; handling_cost := 600; expected_recovery_value := 1000;
     replacement_unit_cost := 18000; replacement_shipping_cost := 800;
     replacement_inventory := 12; customer_preference := REPLACEMENT;
     visual_evidence := Some {| damage_level := minor; serial_matches := None;
                                human_confirmed := true |} |}.

Lemma decide_reverse_optimal_witness :
  estimated_resolution_cost (decide_reverse_fulfillment demo_input) = 18800 /\
  requires_return (decide_reverse_fulfillment demo_input) = false.
Proof.
  pose proof (decide_reverse_optimal demo_input eq_refl ltac:(done)) as H.
  change (confirmed_evidence demo_input) with
    (Some {| damage_level := minor; serial_matches := None; human_confirmed := true |}) in H.
  cbv zeta in H. destruct H as (_&_&_&H1&H2&_). split; [rewrite H2|rewrite H1]; done.
Defined.

End Reverse.

(** ** reverse_execution.py *)
Module ReverseExecution.
Import Reverse.

Inductive DispositionStatus :=
| PENDING | RETURN_LABEL_ISSUED | WAREHOUSE_RECEIVED | INSPECTED | SETTLED | CANCELLED.

#[export] Instance DispositionStatus_eq_dec : EqDecision DispositionStatus.
Proof. solve_decision. Defined.

Definition allowed_transitions (s : DispositionStatus) : list DispositionStatus :=
  match s with
  | PENDING => [RETURN_LABEL_ISSUED; SETTLED; CANCELLED]
  | RETURN_LABEL_ISSUED => [WAREHOUSE_RECEIVED; CANCELLED]
  | WAREHOUSE_RECEIVED => [INSPECTED]
  | INSPECTED => [SETTLED]
  | SETTLED => []
  | CANCELLED => []
  end.

Definition advance_disposition (current target : DispositionStatus)
  : result DispositionStatus :=
  ensure raise_if (negb (bool_decide (target ∈ allowed_transitions current)))
                  (Exn DispositionConflict "illegal disposition transition") ;;
  Ok target.

Record ReverseDisposition := {
  d_id : string;
  d_case_id : string;
  d_order_id : string;
  d_sku : string;
  d_action : string;
  d_status : DispositionStatus;
  d_requires_return : bool;
  d_grade : option ReturnGrade;
  d_dispatch_reference : option string;
  d_received_at : option Z;
  d_sla_deadline : option Z
}.

Definition hours (n : Z) : Z := n * 3600 * 1000000.
Definition RETURN_SLA_HOURS : Z := 48.

(** [model_copy(update={"status": ...})] *)
Definition set_status (d : ReverseDisposition) (st : DispositionStatus) : ReverseDisposition :=
  {| d_id := d_id d; d_case_id := d_case_id d; d_order_id := d_order_id d; d_sku := d_sku d;
     d_action := d_action d; d_status := st; d_requires_return := d_requires_return d;
     d_grade := d_grade d; d_dispatch_reference := d_dispatch_reference d;
     d_received_at := d_received_at d; d_sla_deadline := d_sla_deadline d |}.

Definition build_disposition (new_id case_id order_id sku : string) (decision : ReverseDecision)
  : ReverseDisposition :=
  {| d_id := new_id; d_case_id := case_id; d_order_id := order_id; d_sku := sku;
     d_action := reverse_action_value (rd_action decision);
     d_status := if requires_return decision then PENDING else SETTLED;
     d_requires_return := requires_return decision;
     d_grade := grade decision;
     d_dispatch_reference := None; d_received_at := None; d_sla_deadline := None |}.

Definition mark_received (d : ReverseDisposition) (received_at sla_hours : Z)
  : result ReverseDisposition :=
  label <-? advance_disposition (d_status d) RETURN_LABEL_ISSUED ;;
  status <-? advance_disposition label WAREHOUSE_RECEIVED ;;
  Ok {| d_id := d_id d; d_case_id := d_case_id d; d_order_id := d_order_id d; d_sku := d_sku d;
        d_action := d_action d; d_status := status; d_requires_return := d_requires_return d;
        d_grade := d_grade d; d_dispatch_reference := d_dispatch_reference d;
        d_received_at := Some received_at;
        d_sla_deadline := Some (received_at + hours sla_hours) |}.

Definition sla_breach (d : ReverseDisposition) (now : Z) : bool :=
  match d_received_at d, d_sla_deadline d with
  | Some _, Some deadline =>
      if negb (d_requires_return d) then false
      else if bool_decide (d_status d = SETTLED) || bool_decide (d_status d = CANCELLED)
      then false
      else deadline <=? now
  | _, _ => false
  end.

(** *** MockReverseExecutor *)

Record ReverseExecutor := { outbound : gmap string string; inventory : option (gmap string Z) }.

Definition stock (e : ReverseExecutor) (sku : string) : option Z :=
  option_map (fun inv => default 0 (inv !! sku)) (inventory e).

Definition upper_char (c : ascii) : ascii :=
  let n := N_of_ascii c in
  if ((97 <=? n) && (n <=? 122))%N then ascii_of_N (n - 32) else c.

Fixpoint upper (s : string) : string :=
  match s with EmptyString => "" | String c s => String (upper_char c) (upper s) end.

Definition dispatch_reference (order_id sku kind key : string) : string :=
  "MOCK-" +:+ upper kind +:+ "-" +:+
  String.substring 0 16 (sha256 (order_id +:+ ":" +:+ sku +:+ ":" +:+ kind +:+ ":" +:+ key)).

Definition dispatch (e : ReverseExecutor) (order_id sku kind idempotency_key : string)
  : result string * ReverseExecutor :=
  match outbound e !! idempotency_key with
  | Some reference => (Ok reference, e)
  | None =>
      let reference := dispatch_reference order_id sku kind idempotency_key in
      let record inv :=
        (Ok reference, {| outbound := <[idempotency_key := reference]> (outbound e);
                          inventory := inv |}) in
      match inventory e with
      | Some inv =>
          if (kind =? "resend")%string then
            let left := default 0 (inv !! sku) in
            if left <? 1 then
              (Raise (Exn DispositionConflict "replacement inventory unavailable"), e)
            else record (Some (<[sku := left - 1]> inv))
          else record (Some inv)
      | None => record None
      end
  end.

(** *** workflow.py: the disposition lifecycle graph

    Nodes [start], [receive], [inspect], [settle] and [dispose]; the compiled
    graph runs [start], then follows the conditional edges
    [_route_from_start] and [_route_after_inspect]. *)

Definition _disposition_receive (d : ReverseDisposition) (received_at sla_hours : Z)
  : result ReverseDisposition := mark_received d received_at sla_hours.

Definition _disposition_inspect (d : ReverseDisposition) : result ReverseDisposition :=
  status <-? advance_disposition (d_status d) INSPECTED ;; Ok (set_status d status).

Definition settled_disposition (d : ReverseDisposition) : result ReverseDisposition :=
  if bool_decide (d_status d = SETTLED) then Ok d
  else status <-? advance_disposition (d_status d) SETTLED ;; Ok (set_status d status).

Definition _disposition_settle (decision : ReverseDecision) (d : ReverseDisposition)
  : result (ReverseDisposition * string) :=
  d <-? settled_disposition d ;;
  Ok (d, match disposition decision with
         | Some r => if (r =? "")%string then "restock" else r
         | None => "restock"
         end).

Definition _disposition_dispose (d : ReverseDisposition)
  : result (ReverseDisposition * string) :=
  d <-? settled_disposition d ;; Ok (d, "dispose").

Definition _route_from_start (d : ReverseDisposition) : string :=
  if negb (d_requires_return d) then "settle" else "receive".

Definition _route_after_inspect (d : ReverseDisposition) : string :=
  if bool_decide (d_grade d = Some GradeD) then "dispose" else "settle".

Definition run_disposition_lifecycle (new_id case_id order_id sku : string)
    (decision : ReverseDecision) (received_at sla_hours : Z)
  : result (ReverseDisposition * string) :=
  let d := build_disposition new_id case_id order_id sku decision in
  if (_route_from_start d =? "settle")%string then _disposition_settle decision d
  else
    d <-? _disposition_receive d received_at sla_hours ;;
    d <-? _disposition_inspect d ;;
    if (_route_after_inspect d =? "dispose")%string then _disposition_dispose d
    else _disposition_settle decision d.

(** ** Properties *)

(** One legal move of a disposition. *)
Definition disposition_step (s t : DispositionStatus) : Prop := advance_disposition s t = Ok t.

Lemma disposition_step_allowed s t : disposition_step s t <-> t ∈ allowed_transitions s.
Proof.
  unfold disposition_step, advance_disposition.
  case_bool_decide; simpl; split; done.
Qed.

(** The disposition lifecycle terminates in [SETTLED] for every reverse
    decision: a returnless one settles at once without touching the SLA clock,
    a returned one is received, inspected and settled with its deadline at
    receipt plus the SLA, and a destroyed item is disposed of. *)
Theorem lifecycle_settles new_id case_id order_id sku dec received_at sla :
  exists d route,
    run_disposition_lifecycle new_id case_id order_id sku dec received_at sla = Ok (d, route) /\
    d_status d = SETTLED /\ d_case_id d = case_id /\ d_order_id d = order_id /\
    d_sla_deadline d = (if requires_return dec then Some (received_at + hours sla) else None) /\
    (requires_return dec = true -> grade dec = Some GradeD -> route = "dispose") /\
    (forall now, sla_breach d now = false).
Proof.
  unfold run_disposition_lifecycle, _route_from_start, build_disposition. simpl.
  destruct (requires_return dec) eqn:R; simpl.
  - unfold _disposition_inspect, _route_after_inspect, _disposition_dispose,
      _disposition_settle, settled_disposition. simpl.
    case_bool_decide; simpl; eexists _, _; repeat split; try done.
  - unfold _disposition_settle, settled_disposition. simpl.
    eexists _, _; repeat split; done.
Qed.

(** The disposition machine: a settled or cancelled disposition never
    moves again, an inspected one can only settle, and a disposition whose
    return was received can only reach settlement through inspection. *)
Theorem disposition_machine s t (H : rtc disposition_step s t) :
  (s = SETTLED \/ s = CANCELLED -> t = s) /\
  (s = WAREHOUSE_RECEIVED -> t = SETTLED ->
     rtc disposition_step s INSPECTED /\ rtc disposition_step INSPECTED t) /\
  (s = WAREHOUSE_RECEIVED -> t <> CANCELLED).
Proof.
  assert (forall a b, rtc disposition_step a b ->
    (a = SETTLED \/ a = CANCELLED -> b = a) /\
    (a = INSPECTED -> b = INSPECTED \/ b = SETTLED) /\
    (a = WAREHOUSE_RECEIVED -> b = WAREHOUSE_RECEIVED \/ b = INSPECTED \/ b = SETTLED)) as K.
  { induction 1 as [|a b c Hab _ IH]; [naive_solver|].
    apply disposition_step_allowed in Hab. destruct IH as (IH1&IH2&IH3).
    split_and!; intros; destruct_or?; subst; simpl in Hab;
      rewrite ?elem_of_cons, ?elem_of_nil in Hab; destruct_or?; subst; naive_solver. }
  destruct (K _ _ H) as (K1&K2&K3). split_and!; [done| |intros ->; destruct K3; naive_solver].
  intros -> ->. split; apply rtc_once, disposition_step_allowed; set_solver.
Qed.

Lemma disposition_machine_witness :
  rtc disposition_step WAREHOUSE_RECEIVED SETTLED /\ SETTLED <> CANCELLED.
Proof.
  assert (rtc disposition_step WAREHOUSE_RECEIVED SETTLED) as H.
  { apply (rtc_l _ _ INSPECTED); [|apply rtc_once];
      apply disposition_step_allowed; set_solver. }
  split; [exact H|]. by apply (disposition_machine _ _ H).
Defined.

(** Outbound dispatch is idempotent and never oversells: a dispatch under
    a known key replays its reference and changes nothing; a fresh resend
    takes exactly one unit of the sku, fails with no effect when none is
    left, and touches no other sku. *)
Theorem dispatch_spec e order_id sku kind key :
  match outbound e !! key with
  | Some reference => dispatch e order_id sku kind key = (Ok reference, e)
  | None =>
      let '(r, e') := dispatch e order_id sku kind key in
      match r with
      | Ok reference => outbound e' !! key = Some reference /\
          (kind = "resend" -> forall n, stock e sku = Some n ->
             1 <= n /\ stock e' sku = Some (n - 1)) /\
          (forall sku', sku' <> sku -> stock e' sku' = stock e sku')
      | Raise _ => e' = e /\ kind = "resend" /\ exists n, stock e sku = Some n /\ n < 1
      end
  end.
Proof.
  unfold dispatch, stock. destruct (outbound e !! key) eqn:O; [done|].
  destruct (inventory e) as [inv|]; simpl.
  2:{ split_and!; [by rewrite lookup_insert_eq|done|done]. }
  destruct (String.eqb_spec kind "resend") as [->|Hk]; simpl.
  - destruct (Z.ltb_spec (default 0 (inv !! sku)) 1); simpl.
    + split_and!; [done|done|by eexists].
    + split_and!; [by rewrite lookup_insert_eq| |].
      * intros _ n [= <-]. rewrite lookup_insert_eq. by split.
      * intros sku' Hne. by rewrite lookup_insert_ne.
  - split_and!; [by rewrite lookup_insert_eq|done|done].
Qed.

End ReverseExecution.
