(* ===== verification/Actions.v ===== *)
(** * Approval and execution boundary

    [actions.py] and [balance_check.py]: action requests, their creation from a
    decision, the maker-checker approval rules, and the guarded execution
    against the refund ledger or the outbound adapter. *)
From S2P Require Import Prelude Sha256 Json Errors Float64 Schemas Decision Text Reverse Ledger.
Import Sha256 Json Errors Schemas Text.

Module Actions.
Import Ledger.

Inductive ActionStatus := PENDING_APPROVAL | APPROVED | REJECTED | COMPLETED.

#[export] Instance ActionStatus_eq_dec : EqDecision ActionStatus.
Proof. solve_decision. Defined.

Definition status_value (s : ActionStatus) : string :=
  match s with
  | PENDING_APPROVAL => "pending_approval"
  | APPROVED => "approved"
  | REJECTED => "rejected"
  | COMPLETED => "completed"
  end.

(** An instant is a number of microseconds since the epoch, in UTC. *)
Record ActionRequest := {
  act_id : string;
  act_case_id : string;
  action_type : string;
  payload : dict;
  act_payload_hash : string;
  status : ActionStatus;
  act_risk_level : RiskLevel;
  requested_by : string;
  required_role : string;
  idempotency_key : string;
  approved_by : option string;
  comment : option string;
  approved_at : option Z;
  expires_at : Z;
  external_transaction_id : option string;
  version : Z;
  approvers_required : Z;
  approver_ids : list string;
  act_reserved : bool
}.

(** [model_copy(update=...)] of [approve_action] and [reject_action] *)
Definition copy_approval (a : ActionRequest) (st : ActionStatus) (by_ : string) (at_ : Z) (c : option string)
    (ids : list string) : ActionRequest :=
  {| act_id := act_id a; act_case_id := act_case_id a; action_type := action_type a;
     payload := payload a; act_payload_hash := act_payload_hash a; status := st;
     act_risk_level := act_risk_level a; requested_by := requested_by a;
     required_role := required_role a; idempotency_key := idempotency_key a;
     approved_by := Some by_; comment := c; approved_at := Some at_;
     expires_at := expires_at a; external_transaction_id := external_transaction_id a;
     version := version a + 1; approvers_required := approvers_required a; approver_ids := ids;
     act_reserved := act_reserved a |}.

(** [model_copy(update=...)] of the two executions *)
Definition copy_completed (a : ActionRequest) (reference : string) : ActionRequest :=
  {| act_id := act_id a; act_case_id := act_case_id a; action_type := action_type a;
     payload := payload a; act_payload_hash := act_payload_hash a; status := COMPLETED;
     act_risk_level := act_risk_level a; requested_by := requested_by a;
     required_role := required_role a; idempotency_key := idempotency_key a;
     approved_by := approved_by a; comment := comment a; approved_at := approved_at a;
     expires_at := expires_at a; external_transaction_id := Some reference;
     version := version a + 1; approvers_required := approvers_required a;
     approver_ids := approver_ids a; act_reserved := act_reserved a |}.

(** [model_copy(update={"reserved": b})] *)
Definition copy_reserved (a : ActionRequest) (b : bool) : ActionRequest :=
  {| act_id := act_id a; act_case_id := act_case_id a; action_type := action_type a;
     payload := payload a; act_payload_hash := act_payload_hash a; status := status a;
     act_risk_level := act_risk_level a; requested_by := requested_by a;
     required_role := required_role a; idempotency_key := idempotency_key a;
     approved_by := approved_by a; comment := comment a; approved_at := approved_at a;
     expires_at := expires_at a; external_transaction_id := external_transaction_id a;
     version := version a; approvers_required := approvers_required a;
     approver_ids := approver_ids a; act_reserved := b |}.

(** [model_copy(update={"version": v})] *)
Definition copy_version (a : ActionRequest) (v : Z) : ActionRequest :=
  {| act_id := act_id a; act_case_id := act_case_id a; action_type := action_type a;
     payload := payload a; act_payload_hash := act_payload_hash a; status := status a;
     act_risk_level := act_risk_level a; requested_by := requested_by a;
     required_role := required_role a; idempotency_key := idempotency_key a;
     approved_by := approved_by a; comment := comment a; approved_at := approved_at a;
     expires_at := expires_at a; external_transaction_id := external_transaction_id a;
     version := v; approvers_required := approvers_required a; approver_ids := approver_ids a;
     act_reserved := act_reserved a |}.

(** The columns [save_action] writes: all but the id and the case id. *)
Definition with_case_id (a : ActionRequest) (cid : string) : ActionRequest :=
  {| act_id := act_id a; act_case_id := cid; action_type := action_type a;
     payload := payload a; act_payload_hash := act_payload_hash a; status := status a;
     act_risk_level := act_risk_level a; requested_by := requested_by a;
     required_role := required_role a; idempotency_key := idempotency_key a;
     approved_by := approved_by a; comment := comment a; approved_at := approved_at a;
     expires_at := expires_at a; external_transaction_id := external_transaction_id a;
     version := version a; approvers_required := approvers_required a;
     approver_ids := approver_ids a; act_reserved := act_reserved a |}.

(** [model_copy(update=...)] of [invalidate_active_actions] *)
Definition copy_invalidated (a : ActionRequest) (why : string) : ActionRequest :=
  {| act_id := act_id a; act_case_id := act_case_id a; action_type := action_type a;
     payload := payload a; act_payload_hash := act_payload_hash a; status := REJECTED;
     act_risk_level := act_risk_level a; requested_by := requested_by a;
     required_role := required_role a; idempotency_key := idempotency_key a;
     approved_by := approved_by a; comment := Some why; approved_at := approved_at a;
     expires_at := expires_at a; external_transaction_id := external_transaction_id a;
     version := version a + 1; approvers_required := approvers_required a;
     approver_ids := approver_ids a; act_reserved := act_reserved a |}.

Definition payload_hash (p : dict) : string := fingerprint p.

(** [payload["amount"]] and [payload["order_id"]]: a missing key is a
    [KeyError]; a value of another type has no use as an amount or an id. *)
Definition amount_of (p : dict) : result Z :=
  match get "amount" p with
  | Some (JInt z) => Ok z
  | Some _ => Raise (Exn TypeError "amount")
  | None => Raise (Exn KeyError "amount")
  end.

Definition text_item (k : string) (p : dict) : result string :=
  match get k p with
  | Some (JStr s) => Ok s
  | Some _ => Raise (Exn TypeError k)
  | None => Raise (Exn KeyError k)
  end.

Definition day : Z := 24 * 3600 * 1000000.

Definition refund_payload (order_id : string) (d : DecisionResult) : dict :=
  [("order_id", JStr order_id); ("amount", JInt (refund_amount d))] ++
  (if bool_decide (Schemas.action d = Schemas.RETURN_AND_REFUND)
   then [("requires_return", JBool true)] else []).

Definition create_refund_action (new_id case_id order_id requester : string)
    (d : DecisionResult) (now ttl : Z) : result ActionRequest :=
  ensure raise_if (negb (bool_decide (eligibility d ∈ [ELIGIBLE; ELIGIBLE_WITH_APPROVAL])))
                  (Exn ValueError "decision is not eligible for an action") ;;
  ensure raise_if (negb (bool_decide (Schemas.action d ∈
                           [Schemas.REFUND_ORIGINAL_PAYMENT; Schemas.RETURN_AND_REFUND]))
                   || (refund_amount d <=? 0))
                  (Exn ValueError "decision does not contain an executable refund") ;;
  let p := refund_payload order_id d in
  let auto_approved := negb (approval_required d) && negb (bool_decide (risk_level d = HIGH)) in
  Ok {| act_id := new_id; act_case_id := case_id; action_type := "refund"; payload := p;
        act_payload_hash := payload_hash p;
        status := if auto_approved then APPROVED else PENDING_APPROVAL;
        act_risk_level := risk_level d; requested_by := requester; required_role := "admin";
        idempotency_key := sha256 (case_id +:+ ":refund:" +:+ payload_hash p);
        approved_by := if auto_approved then Some "system-policy" else None;
        comment := None;
        approved_at := if auto_approved then Some now else None;
        expires_at := now + ttl; external_transaction_id := None; version := 1;
        approvers_required := if bool_decide (risk_tier d = FOUR_EYES) then 2 else 1;
        approver_ids := []; act_reserved := false |}.

Definition create_resend_action (new_id case_id order_id sku requester : string)
    (estimated_cost now ttl : Z) : ActionRequest :=
  let p := [("order_id", JStr order_id); ("sku", JStr sku); ("kind", JStr "resend");
            ("estimated_cost", JInt estimated_cost)] in
  {| act_id := new_id; act_case_id := case_id; action_type := "resend"; payload := p;
     act_payload_hash := payload_hash p; status := PENDING_APPROVAL; act_risk_level := MEDIUM;
     requested_by := requester; required_role := "admin";
     idempotency_key := sha256 (case_id +:+ ":resend:" +:+ payload_hash p);
     approved_by := None; comment := None; approved_at := None; expires_at := now + ttl;
     external_transaction_id := None; version := 1; approvers_required := 1;
     approver_ids := []; act_reserved := false |}.

Definition _check_decision (a : ActionRequest) (approver_id : string)
    (approver_roles : list string) (expected_version now : Z) : result unit :=
  ensure raise_if (negb (bool_decide (status a = PENDING_APPROVAL)))
                  (Exn ActionConflict "action is not pending approval") ;;
  ensure raise_if (negb (version a =? expected_version))
                  (Exn ActionConflict "action version conflict") ;;
  ensure raise_if (expires_at a <=? now) (Exn ActionConflict "action expired") ;;
  ensure raise_if (negb (bool_decide (required_role a ∈ approver_roles)))
                  (Exn ActionForbidden "approver lacks required role") ;;
  raise_if (requested_by a =? approver_id)%string
           (Exn ActionForbidden "requester cannot approve own action").

(** [check_balance_before_approve]: reads the executor, changes nothing. *)
Definition check_balance_before_approve (e : RefundExecutor) (order_id : string) (amount : Z)
  : result unit :=
  let av := balance_of e order_id in
  raise_if (av <? amount)
    (Exn BalanceCheckFailed ("insufficient available balance: have " +:+ pretty av +:+
                             ", need " +:+ pretty amount)).

Definition payload_order_id (p : dict) : result string :=
  match get "order_id" p with None => Ok "" | Some _ => text_item "order_id" p end.

Definition approve_action (a : ActionRequest) (approver_id : string)
    (approver_roles : list string) (expected_version now : Z) (note : option string)
    (balance_check : option (string -> Z -> result unit)) : result ActionRequest :=
  ensure _check_decision a approver_id approver_roles expected_version now ;;
  ensure match balance_check with
         | Some check =>
             if negb (act_reserved a) then
               o <-? payload_order_id (payload a) ;;
               amount <-? amount_of (payload a) ;;
               check o amount
             else Ok tt
         | None => Ok tt
         end ;;
  ensure raise_if (bool_decide (approver_id ∈ approver_ids a))
                  (Exn ActionForbidden "approver already approved this action") ;;
  let ids := approver_ids a ++ [approver_id] in
  let st := if approvers_required a <=? Z.of_nat (length ids) then APPROVED
            else PENDING_APPROVAL in
  Ok (copy_approval a st approver_id now note ids).

Definition reject_action (a : ActionRequest) (approver_id : string)
    (approver_roles : list string) (expected_version : Z) (note : string) (now : Z)
  : result ActionRequest :=
  ensure raise_if (strip note =? "")%string (Exn ValueError "rejection comment is required") ;;
  ensure _check_decision a approver_id approver_roles expected_version now ;;
  Ok (copy_approval a REJECTED approver_id now (Some (strip note)) (approver_ids a)).

Definition requires_return_flag (p : dict) : bool :=
  match get "requires_return" p with Some j => truthy j | None => false end.

(** The guards of [execute_approved_action], in order, and what it then asks
    the executor to pay. *)
Definition refund_guards (a : ActionRequest) (submitted : dict)
    (expected_version current_refundable_balance : Z) (e : RefundExecutor) (now : Z)
  : result (string * Z) :=
  ensure raise_if (negb (bool_decide (status a = APPROVED)))
                  (Exn ActionForbidden "action is not approved") ;;
  ensure raise_if (negb (version a =? expected_version))
                  (Exn ActionConflict "action version conflict") ;;
  ensure raise_if (expires_at a <=? now) (Exn ActionConflict "action expired") ;;
  ensure raise_if (negb (payload_hash submitted =? act_payload_hash a)%string)
                  (Exn ActionConflict "payload hash mismatch") ;;
  ensure raise_if (requires_return_flag (payload a))
    (Exn ActionConflict "return receipt and inspection required before refund execution") ;;
  ensure (if bool_decide (is_Some (transactions e !! idempotency_key a)) then Ok tt
          else amount <-? amount_of (payload a) ;;
               raise_if (current_refundable_balance <? amount)
                        (Exn ActionConflict "refundable balance changed")) ;;
  o <-? text_item "order_id" (payload a) ;;
  amount <-? amount_of (payload a) ;;
  Ok (o, amount).

Definition execute_approved_action (a : ActionRequest) (submitted : dict)
    (expected_version current_refundable_balance : Z) (e : RefundExecutor) (now : Z)
  : result ActionRequest * RefundExecutor :=
  match refund_guards a submitted expected_version current_refundable_balance e now with
  | Raise x => (Raise x, e)
  | Ok (o, amount) =>
      let '(r, e') := refund e o amount (idempotency_key a) in
      (reference <-? r ;; Ok (copy_completed a reference), e')
  end.

(** The guards of [execute_approved_resend]. *)
Definition resend_guards (a : ActionRequest) (submitted : dict) (expected_version now : Z)
  : result (string * string) :=
  ensure raise_if (negb (action_type a =? "resend")%string)
                  (Exn ActionConflict "action is not a resend") ;;
  ensure raise_if (negb (bool_decide (status a = APPROVED)))
                  (Exn ActionForbidden "action is not approved") ;;
  ensure raise_if (negb (version a =? expected_version))
                  (Exn ActionConflict "action version conflict") ;;
  ensure raise_if (expires_at a <=? now) (Exn ActionConflict "action expired") ;;
  ensure raise_if (negb (payload_hash submitted =? act_payload_hash a)%string)
                  (Exn ActionConflict "payload hash mismatch") ;;
  o <-? text_item "order_id" (payload a) ;;
  sku <-? text_item "sku" (payload a) ;;
  Ok (o, sku).

Definition execute_approved_resend (a : ActionRequest) (submitted : dict)
    (expected_version : Z) (e : ReverseExecution.ReverseExecutor) (now : Z)
  : result ActionRequest * ReverseExecution.ReverseExecutor :=
  match resend_guards a submitted expected_version now with
  | Raise x => (Raise x, e)
  | Ok (o, sku) =>
      let '(r, e') := ReverseExecution.dispatch e o sku "resend" (idempotency_key a) in
      (reference <-? r ;; Ok (copy_completed a reference), e')
  end.

(** ** Facts *)

Lemma check_decision_ok a id roles v now :
  _check_decision a id roles v now = Ok tt <->
  status a = PENDING_APPROVAL /\ version a = v /\ now < expires_at a /\
  required_role a ∈ roles /\ requested_by a <> id.
Proof.
  unfold _check_decision. autorewrite with afterflow. unfold raise_if.
  repeat case_in_goal; bprop; intuition congruence || lia.
Qed.

Lemma check_balance_ok e o amount :
  check_balance_before_approve e o amount = Ok tt <-> amount <= balance_of e o.
Proof.
  unfold check_balance_before_approve, raise_if.
  case_in_goal; bprop; intuition (done || lia).
Qed.

(** The balance check of an approval, as a proposition. *)
Definition balance_checked (a : ActionRequest) (bc : option (string -> Z -> result unit)) : Prop :=
  match bc with
  | Some check => act_reserved a = false ->
      exists o amount, payload_order_id (payload a) = Ok o /\
        amount_of (payload a) = Ok amount /\ check o amount = Ok tt
  | None => True
  end.

Lemma approve_action_ok a id roles v now note bc a' :
  approve_action a id roles v now note bc = Ok a' <->
  _check_decision a id roles v now = Ok tt /\ balance_checked a bc /\
  id ∉ approver_ids a /\
  a' = copy_approval a
         (if approvers_required a <=? Z.of_nat (length (approver_ids a ++ [id]))
          then APPROVED else PENDING_APPROVAL) id now note (approver_ids a ++ [id]).
Proof.
  unfold approve_action, balance_checked.
  rewrite !ensure_ok, raise_if_ok, bool_decide_eq_false.
  assert (match bc with
          | Some check => if negb (act_reserved a) then
              o <-? payload_order_id (payload a) ;;
              amount <-? amount_of (payload a) ;; check o amount else Ok tt
          | None => Ok tt
          end = Ok tt <-> match bc with
          | Some check => act_reserved a = false ->
              exists o amount, payload_order_id (payload a) = Ok o /\
                amount_of (payload a) = Ok amount /\ check o amount = Ok tt
          | None => True
          end) as ->; [|naive_solver].
  destruct bc as [check|]; [|done]. destruct (act_reserved a); simpl; [done|].
  rewrite rbind_ok. setoid_rewrite rbind_ok. naive_solver.
Qed.

Lemma reject_action_ok a id roles v note now a' :
  reject_action a id roles v note now = Ok a' <->
  strip note <> "" /\ _check_decision a id roles v now = Ok tt /\
  a' = copy_approval a REJECTED id now (Some (strip note)) (approver_ids a).
Proof.
  unfold reject_action. rewrite !ensure_ok, raise_if_ok, String.eqb_neq. naive_solver.
Qed.

(** ** Execution *)

Lemma amount_of_ok p z : amount_of p = Ok z <-> get "amount" p = Some (JInt z).
Proof. unfold amount_of. destruct (get _ p) as [[]|]; naive_solver. Qed.

Lemma text_item_ok k p t : text_item k p = Ok t <-> get k p = Some (JStr t).
Proof. unfold text_item. destruct (get _ p) as [[]|]; naive_solver. Qed.

(** The conditions shared by the two executions. *)
Definition executable (a : ActionRequest) (submitted : dict) (v now : Z) : Prop :=
  status a = APPROVED /\ version a = v /\ now < expires_at a /\
  payload_hash submitted = act_payload_hash a.

Lemma refund_guards_ok a sub v bal e now o amount :
  refund_guards a sub v bal e now = Ok (o, amount) <->
  executable a sub v now /\ requires_return_flag (payload a) = false /\
  get "order_id" (payload a) = Some (JStr o) /\ get "amount" (payload a) = Some (JInt amount) /\
  (transactions e !! idempotency_key a = None -> amount <= bal).
Proof.
  unfold refund_guards, executable.
  rewrite !ensure_ok, !raise_if_ok, !negb_false_iff, !bool_decide_eq_true, Z.eqb_eq,
    String.eqb_eq, Z.leb_gt, rbind_ok.
  setoid_rewrite rbind_ok. setoid_rewrite text_item_ok. setoid_rewrite amount_of_ok.
  split.
  - intros (?&?&?&?&?&B&o'&?&z&?&[= -> ->]). split_and!; auto. intros T.
    rewrite T, bool_decide_eq_false_2 in B by (by intros [? ?]).
    apply rbind_ok in B as (z'&E%amount_of_ok&B%raise_if_ok). simplify_eq. by bprop.
  - intros ((?&?&?&?)&?&?&?&B). split_and!; eauto 6.
    case_bool_decide as T; [done|]. rewrite <-eq_None_not_Some in T.
    apply rbind_ok. exists amount. rewrite amount_of_ok, raise_if_ok, Z.ltb_ge. auto.
Qed.

Lemma resend_guards_ok a sub v now o sku :
  resend_guards a sub v now = Ok (o, sku) <->
  action_type a = "resend" /\ executable a sub v now /\
  get "order_id" (payload a) = Some (JStr o) /\ get "sku" (payload a) = Some (JStr sku).
Proof.
  unfold resend_guards, executable.
  rewrite !ensure_ok, !raise_if_ok, !negb_false_iff, !bool_decide_eq_true, Z.eqb_eq,
    !String.eqb_eq, Z.leb_gt, rbind_ok.
  setoid_rewrite rbind_ok. setoid_rewrite text_item_ok. split.
  - intros (?&?&?&?&?&o'&?&z&?&[= -> ->]). auto 10.
  - intros (?&(?&?&?&?)&?&?). split_and!; eauto 6.
Qed.

(** An execution succeeds exactly when its guards pass and the executor
    answers, with the executor's answer. *)
Lemma execute_ok a sub v bal e now a' e' :
  execute_approved_action a sub v bal e now = (Ok a', e') <->
  exists o amount r, refund_guards a sub v bal e now = Ok (o, amount) /\
    refund e o amount (idempotency_key a) = (Ok r, e') /\ a' = copy_completed a r.
Proof.
  unfold execute_approved_action. destruct (refund_guards _ _ _ _ _ _) as [[o amount]|x];
    [|split; [done|intros (?&?&?&[=]&_)]].
  destruct (refund e o amount _) as [[r|x] e1] eqn:R; simpl.
  - split; [intros; simplify_eq; eauto 10|]. intros (?&?&?&[= <- <-]&R'&->). congruence.
  - split; [done|]. intros (?&?&?&[= <- <-]&R'&->). congruence.
Qed.

Lemma execute_resend_ok a sub v e now a' e' :
  execute_approved_resend a sub v e now = (Ok a', e') <->
  exists o sku r, resend_guards a sub v now = Ok (o, sku) /\
    ReverseExecution.dispatch e o sku "resend" (idempotency_key a) = (Ok r, e') /\
    a' = copy_completed a r.
Proof.
  unfold execute_approved_resend. destruct (resend_guards _ _ _ _) as [[o sku]|x];
    [|split; [done|intros (?&?&?&[=]&_)]].
  destruct (ReverseExecution.dispatch _ _ _ _ _) as [[r|x] e1] eqn:R; simpl.
  - split; [intros; simplify_eq; eauto 10|]. intros (?&?&?&[= <- <-]&R'&->). congruence.
  - split; [done|]. intros (?&?&?&[= <- <-]&R'&->). congruence.
Qed.

Lemma refund_cases e o amount k :
  match transactions e !! k with
  | Some r => refund e o amount k = (Ok r, e)
  | None => if reserved_of e o <? amount
            then exists x, refund e o amount k = (Raise x, e)
            else exists r e', refund e o amount k = (Ok r, e') /\ transactions e' !! k = Some r
  end.
Proof.
  unfold refund. destruct (transactions e !! k); [done|].
  destruct (_ <? _); [eauto|]. eexists _, _. split; [done|]. apply lookup_insert_eq.
Qed.

Lemma refund_raise e o amount k x e' : refund e o amount k = (Raise x, e') -> e' = e.
Proof. unfold refund. repeat case_in_goal; intros; by simplify_eq. Qed.

Lemma execute_raise a sub v bal e now x e' :
  execute_approved_action a sub v bal e now = (Raise x, e') -> e' = e.
Proof.
  unfold execute_approved_action. destruct (refund_guards _ _ _ _ _ _) as [[o amount]|y];
    [|by intros; simplify_eq].
  destruct (refund e o amount _) as [[r|y] e1] eqn:R; simpl; intros; simplify_eq.
  by eapply refund_raise.
Qed.

End Actions.
