(* ===== verification/Approval.v ===== *)
(** * The life of an action request

    Every change the program makes to a stored action request is a
    [lifecycle_step]: an approval, a rejection, one of the two executions, an
    invalidation, or an update of the reservation flag.  The maker-checker rules hold
    along every sequence of such steps. *)
From S2P Require Import Prelude Sha256 Json Errors Schemas Decision Ledger Text Reverse Actions.
Import Sha256 Json Errors Schemas RiskScoring Decision Actions Ledger.

Module Approval.

Section lifecycle.
(** The roles each authenticated user holds. *)
Context (roles_of : string -> list string).

Inductive lifecycle_step : ActionRequest -> ActionRequest -> Prop :=
| step_approve a id v now note bc a' :
  approve_action a id (roles_of id) v now note bc = Ok a' -> lifecycle_step a a'
| step_reject a id v note now a' :
  reject_action a id (roles_of id) v note now = Ok a' -> lifecycle_step a a'
| step_execute a sub v bal e now a' e' :
  execute_approved_action a sub v bal e now = (Ok a', e') -> lifecycle_step a a'
| step_resend a sub v e now a' e' :
  execute_approved_resend a sub v e now = (Ok a', e') -> lifecycle_step a a'
| step_invalidate a why :
  status a ∈ [PENDING_APPROVAL; APPROVED] -> lifecycle_step a (copy_invalidated a why)
| step_reserved a b v :
  version a <= v -> lifecycle_step a (copy_version (copy_reserved a b) v).

(** The fields no step changes. *)
Definition same_request (a a' : ActionRequest) : Prop :=
act_id a' = act_id a /\ act_case_id a' = act_case_id a /\ action_type a' = action_type a /\
payload a' = payload a /\ act_payload_hash a' = act_payload_hash a /\
requested_by a' = requested_by a /\ required_role a' = required_role a /\
idempotency_key a' = idempotency_key a /\ approvers_required a' = approvers_required a /\
expires_at a' = expires_at a.

#[export] Instance same_request_equiv : Equivalence same_request.
Proof. unfold same_request. split; red; intuition congruence. Qed.

(** What a step does to the approval state. *)
Inductive effect (a a' : ActionRequest) : Prop :=
| eff_approve id :
  status a = PENDING_APPROVAL -> id ∉ approver_ids a -> id <> requested_by a ->
  required_role a ∈ roles_of id -> approver_ids a' = approver_ids a ++ [id] ->
  status a' = (if approvers_required a <=? Z.of_nat (length (approver_ids a'))
               then APPROVED else PENDING_APPROVAL) -> effect a a'
| eff_close :
  status a ∈ [PENDING_APPROVAL; APPROVED] -> approver_ids a' = approver_ids a ->
  status a' = REJECTED -> effect a a'
| eff_complete :
  status a = APPROVED -> approver_ids a' = approver_ids a -> status a' = COMPLETED ->
  is_Some (external_transaction_id a') -> effect a a'
| eff_none :
  approver_ids a' = approver_ids a -> status a' = status a ->
  external_transaction_id a' = external_transaction_id a -> effect a a'.

Lemma step_effect a a' : lifecycle_step a a' -> effect a a'.
Proof.
intros H. inversion H as [? id v now note bc ? A|? id v note now ? A
  |? sub v bal e now ? e' A|? sub v e now ? e' A|? why A|? b v A]; subst.
- apply approve_action_ok in A as ((?&_&_&?&?)%check_decision_ok&_&?&->).
  eapply (eff_approve _ _ id); eauto.
- apply reject_action_ok in A as (_&(?&_)%check_decision_ok&->).
  apply eff_close; [|done..]. rewrite H0. by left.
- apply execute_ok in A as (?&?&?&((?&_)&_)%refund_guards_ok&_&->). by apply eff_complete.
- apply execute_resend_ok in A as (?&?&?&(_&(?&_)&_)%resend_guards_ok&_&->).
  by apply eff_complete.
- by apply eff_close.
- by apply eff_none.
Qed.

Lemma step_same a a' : lifecycle_step a a' -> same_request a a' /\ version a <= version a'.
Proof.
intros H. inversion H as [? id v now note bc ? A|? id v note now ? A
  |? sub v bal e now ? e' A|? sub v e now ? e' A|? why A|? b v A]; subst.
- apply approve_action_ok in A as (_&_&_&->). simpl. split; [by split_and!|lia].
- apply reject_action_ok in A as (_&_&->). simpl. split; [by split_and!|lia].
- apply execute_ok in A as (?&?&?&_&_&->). simpl. split; [by split_and!|lia].
- apply execute_resend_ok in A as (?&?&?&_&_&->). simpl. split; [by split_and!|lia].
- simpl. split; [by split_and!|lia].
- simpl. split; [by split_and!|lia].
Qed.
(** The maker-checker invariant of everything [a0] can become. *)
Record controls (a0 a : ActionRequest) : Prop := {
ctl_same : same_request a0 a;
ctl_version : version a0 <= version a;
ctl_distinct : NoDup (approver_ids a);
ctl_approvers : Forall (fun id => id <> requested_by a0 /\ required_role a0 ∈ roles_of id)
                       (approver_ids a);
ctl_enough : status a ∈ [APPROVED; COMPLETED] ->
  approvers_required a0 <= Z.of_nat (length (approver_ids a)) \/
  approver_ids a = [] /\ status a0 <> PENDING_APPROVAL
}.

Lemma controls_step a0 a a' : lifecycle_step a a' -> controls a0 a -> controls a0 a'.
Proof.
intros S [Cs Cv Cd Ca Ce]. destruct (step_same _ _ S) as [S1 S2].
assert (same_request a0 a') as Sm by (by transitivity a).
destruct Cs as (_&_&_&_&_&Er&Ero&_&En&_).
destruct (step_effect _ _ S) as [id P Hn Hr Hro Hi Hst|P Hi Hst|P Hi Hst _|Hi Hst _].
- split; [done|lia| | |]; rewrite ?Hi.
  + apply NoDup_app. split_and!; [done| |apply NoDup_singleton].
    intros x Hx ->%list_elem_of_singleton. done.
  + apply Forall_app. split; [done|]. rewrite <-Er, <-Ero. by repeat constructor.
  + rewrite Hst, Hi, En. destruct (Z.leb_spec (approvers_required a0)
      (Z.of_nat (length (approver_ids a ++ [id])))) as [L|L]; [by left|].
    intros Hin. by repeat (apply elem_of_cons in Hin as [Hin|Hin]; [done|]);
      apply elem_of_nil in Hin.
- split; [done|lia|by rewrite Hi|by rewrite Hi|]. rewrite Hst. intros Hin.
  by repeat (apply elem_of_cons in Hin as [Hin|Hin]; [done|]); apply elem_of_nil in Hin.
- split; [done|lia|by rewrite Hi|by rewrite Hi|]. intros _. rewrite Hi. apply Ce.
  rewrite P. by left.
- split; [done|lia|by rewrite Hi|by rewrite Hi|]. by rewrite Hst, Hi.
Qed.

Lemma controls_reachable a0 a :
approver_ids a0 = [] -> rtc lifecycle_step a0 a -> controls a0 a.
Proof.
intros E0 H. refine (rtc_ind_r (controls a0) a0 _ _ a H); [|eauto using controls_step].
split; rewrite ?E0; [reflexivity|lia|constructor|constructor|].
intros Hin. right. split; [done|]. intros P. rewrite P in Hin. set_solver.
Qed.

(** ** Decisions and the actions made from them *)

(** What [create_refund_action] builds, when it builds something. *)
Lemma create_refund_ok nid cid oid req d now ttl a :
create_refund_action nid cid oid req d now ttl = Ok a ->
eligibility d ∈ [ELIGIBLE; ELIGIBLE_WITH_APPROVAL] /\ 0 < refund_amount d /\
Schemas.action d ∈ [Schemas.REFUND_ORIGINAL_PAYMENT; Schemas.RETURN_AND_REFUND] /\
payload a = refund_payload oid d /\ act_payload_hash a = payload_hash (payload a) /\
requested_by a = req /\ required_role a = "admin" /\ approver_ids a = [] /\
act_reserved a = false /\ external_transaction_id a = None /\ version a = 1 /\
approvers_required a = (if bool_decide (risk_tier d = FOUR_EYES) then 2 else 1) /\
status a = (if negb (approval_required d) && negb (bool_decide (risk_level d = HIGH))
            then APPROVED else PENDING_APPROVAL).
Proof.
unfold create_refund_action.
rewrite !ensure_ok, !raise_if_ok, negb_false_iff, orb_false_iff, negb_false_iff,
  !bool_decide_eq_true, Z.leb_gt.
intros (?&[? ?]&[= <-]). simpl. by split_and!.
Qed.

Lemma refund_payload_amount oid d : get "amount" (refund_payload oid d) = Some (JInt (refund_amount d)).
Proof. done. Qed.

Lemma refund_payload_return oid d :
requires_return_flag (refund_payload oid d) = bool_decide (Schemas.action d = Schemas.RETURN_AND_REFUND).
Proof. unfold refund_payload. by case_bool_decide. Qed.

Lemma refund_payload_jwf oid d : jwf (JObj (refund_payload oid d)) = true.
Proof. unfold refund_payload. by case_bool_decide. Qed.

End lifecycle.


(** An eligible decision that needs no approval is an automatic one. *)
Lemma unapproved_is_auto c :
  eligibility (decide_resolution c) ∈ [ELIGIBLE; ELIGIBLE_WITH_APPROVAL] ->
  approval_required (decide_resolution c) = false -> risk_tier (decide_resolution c) = AUTO.
Proof.
  unfold decide_resolution, rejected. cbv zeta.
  destruct (negb (bool_decide (issue_type c ∈ _))); simpl; [set_solver|].
  destruct (negb (bool_decide (_missing_evidence c = []))); simpl; [set_solver|].
  destruct (refundable_balance (payment c) =? 0); simpl; [set_solver|]. intros _.
  intros Ha%negb_false_iff%bool_decide_eq_true%approval_reasons_nil. apply Ha.
Qed.

(** The maker-checker rules for anything a refund request has become. *)
Lemma refund_controls roles_of d nid cid oid req now ttl a0 a :
  create_refund_action nid cid oid req d now ttl = Ok a0 ->
  rtc (lifecycle_step roles_of) a0 a -> status a ∈ [APPROVED; COMPLETED] ->
  payload a = refund_payload oid d /\ requested_by a = req /\
  (approval_required d = false /\ eligibility d ∈ [ELIGIBLE; ELIGIBLE_WITH_APPROVAL] /\
     approver_ids a = [] \/
   NoDup (approver_ids a) /\
   Forall (fun id => id <> req /\ "admin" ∈ roles_of id) (approver_ids a) /\
   (if bool_decide (risk_tier d = FOUR_EYES) then 2 else 1) <= Z.of_nat (length (approver_ids a))).
Proof.
  intros Hc Hr Hs. apply create_refund_ok in Hc as (He&_&_&Hp&_&Hq&Hro&Hi&_&_&_&Hn&Hst).
  destruct (controls_reachable _ _ _ Hi Hr) as [(_&_&_&Ep&_&Eq&_) _ Hd Ha Hen].
  rewrite Ep, Hp, Eq, Hq. split; [done|]. split; [done|].
  rewrite Hn, Hst in Hen. rewrite Hq, Hro in Ha. destruct (Hen Hs) as [Hen'|[Hnil Hst']].
  - right. by split_and!.
  - left. destruct (approval_required d) eqn:Er; simpl in Hst'; [done|]. by split_and!.
Qed.

(** What the status machine keeps along a life. *)
Lemma lifecycle_facts roles_of a a' :
  rtc (lifecycle_step roles_of) a a' ->
  same_request a a' /\ version a <= version a' /\
  (status a ∈ [REJECTED; COMPLETED] ->
     status a' = status a /\ approver_ids a' = approver_ids a /\
     external_transaction_id a' = external_transaction_id a) /\
  (status a' = COMPLETED -> status a = COMPLETED \/ is_Some (external_transaction_id a')).
Proof.
  intros H.
  refine (rtc_ind_r (fun a' => _) a _ _ a' H); clear a' H.
  { split_and!; [reflexivity|lia|done|by left]. }
  intros b b' _ S (I1&I2&I3&I4). destruct (step_same _ _ _ S) as [S1 S2].
  split_and!; [by transitivity b|lia| |].
  - intros T. destruct (I3 T) as (E1&E2&E3). rewrite <-E1 in T.
    assert (status b <> PENDING_APPROVAL /\ status b <> APPROVED) as [N1 N2].
    { split; intros E; rewrite E in T; set_solver. }
    destruct (step_effect _ _ _ S) as [? P|P|P|]; [done| |done|split_and!; congruence].
    apply elem_of_cons in P as [P|P%list_elem_of_singleton]; done.
  - intros C. destruct (step_effect _ _ _ S) as [id P _ _ _ _ Hst|P _ Hst|P _ Hst Ht|_ Hst Ht].
    + rewrite Hst in C. by destruct (_ <=? _).
    + congruence.
    + by right.
    + rewrite Hst in C. rewrite Ht. auto.
Qed.

(** ** Properties *)

(** Four eyes and maker-checker.  An action created from a decision that
    is, after any number of approvals, rejections, executions and updates,
    approved or completed still pays the decided amount, and either the
    decision needed no human and has the AUTO tier, or its approvers are
    distinct, none of them is the requester, all hold the admin role, and they
    are at least two when the tier is FOUR_EYES. *)
Theorem four_eyes_enforced roles_of c nid cid oid req now ttl a0 a
    (Hc : create_refund_action nid cid oid req (decide_resolution c) now ttl = Ok a0)
    (Hr : rtc (lifecycle_step roles_of) a0 a)
    (Hs : status a ∈ [APPROVED; COMPLETED]) :
  let d := decide_resolution c in
  get "amount" (payload a) = Some (JInt (refund_amount d)) /\
  (approval_required d = false /\ risk_tier d = AUTO /\ approver_ids a = [] \/
   NoDup (approver_ids a) /\
   Forall (fun id => id <> req /\ "admin" ∈ roles_of id) (approver_ids a) /\
   (if bool_decide (risk_tier d = FOUR_EYES) then 2 else 1) <= Z.of_nat (length (approver_ids a))).
Proof.
  cbv zeta. set (d := decide_resolution c) in *.
  destruct (refund_controls _ _ _ _ _ _ _ _ _ _ Hc Hr Hs) as (->&_&[(Ha&He&Hi)|H]).
  - split; [done|]. left. split_and!; [done| |done]. by apply (unapproved_is_auto c).
  - split; [done|]. by right.
Qed.

Definition demo_input (limit : Z) : DecisionInput :=
  {| issue_type := DAMAGED_ITEM;
     order := {| oc_order_id := "ORDER-1"; item_paid := 900000; shipping_paid := 0 |};
     payment := {| refundable_balance := 900000 |}; logistics := None;
     customer_risk := {| not_received_claims_180d := 3; refund_cases_180d := 0 |};
     policy := {| policy_id := "P"; policy_version := "1"; covered_issues := [DAMAGED_ITEM];
                  refund_shipping_issues := []; return_required_issues := [];
                  manual_review_amount := 100; high_value_amount := 100 |};
     operator_refund_limit := limit; visual_evidence_confirmed := true;
     sign_receipt_hours := None; account_age_days := None; historical_refund_rate := None;
     address_changes_30d := 0; device_reuse := false |}.

Definition demo_request : ActionRequest :=
  match create_refund_action "A" "C" "ORDER-1" "req" (decide_resolution (demo_input 10)) 0 day with
  | Ok a => a
  | Raise _ => copy_reserved (create_resend_action "" "" "" "" "" 0 0 0) false
  end.

Definition demo_approve (a : ActionRequest) (id : string) : ActionRequest :=
  match approve_action a id ["admin"] (version a) 1 None None with Ok a' => a' | Raise _ => a end.

Lemma four_eyes_enforced_witness :
  let a := demo_approve (demo_approve demo_request "sup1") "sup2" in
  status (demo_approve demo_request "sup1") = PENDING_APPROVAL /\ status a = APPROVED /\
  NoDup (approver_ids a) /\ 2 <= Z.of_nat (length (approver_ids a)).
Proof.
  split; [vm_compute; reflexivity|]. split; [vm_compute; reflexivity|].
  destruct (four_eyes_enforced (fun _ => ["admin"]) (demo_input 10) "A" "C" "ORDER-1" "req" 0 day
    demo_request (demo_approve (demo_approve demo_request "sup1") "sup2"))
    as (_ & [(H & _)|(H1 & _ & H2)]).
  - vm_compute. reflexivity.
  - eapply rtc_l; [apply (step_approve _ _ "sup1" 1 1 None None); vm_compute; reflexivity|].
    eapply rtc_l; [apply (step_approve _ _ "sup2" 2 1 None None); vm_compute; reflexivity|].
    apply rtc_refl.
  - vm_compute. left.
  - vm_compute in H. discriminate H.
  - split; [exact H1|]. vm_compute in H2 |- *. exact H2.
Defined.

(** C8: what an execution does.  It succeeds exactly when the action is
    approved, unexpired, at the expected version, not waiting for a return, the
    submitted payload has the stored hash and, on a first execution, the current
    balance and the reservation cover the amount; it then records the
    reference under the action's key, completes the action with it, leaves the
    available pools alone and takes exactly the amount, once, out of the
    order's reservation.  A failed execution changes nothing. *)
Theorem execution_spec a sub v bal e now :
  let '(r, e') := execute_approved_action a sub v bal e now in
  let fresh := bool_decide (transactions e !! idempotency_key a = None) in
  (is_ok r = true <->
     executable a sub v now /\ requires_return_flag (payload a) = false /\
     exists o amount, get "order_id" (payload a) = Some (JStr o) /\
       get "amount" (payload a) = Some (JInt amount) /\
       (fresh = true -> amount <= bal /\ amount <= reserved_of e o)) /\
  match r with
  | Raise _ => e' = e
  | Ok a' => exists o amount reference,
      get "order_id" (payload a) = Some (JStr o) /\ get "amount" (payload a) = Some (JInt amount) /\
      transactions e' !! idempotency_key a = Some reference /\
      a' = copy_completed a reference /\
      forall o', balance_of e' o' = balance_of e o' /\
        reserved_of e' o' = reserved_of e o'
                            - (if fresh && bool_decide (o = o') then amount else 0)
  end.
Proof.
  destruct (execute_approved_action a sub v bal e now) as [r e'] eqn:X. cbv zeta.
  split; [split|].
  - destruct r as [a'|]; [intros _|done].
    apply execute_ok in X as (o&z&rf&(?&?&?&?&B)%refund_guards_ok&R&->).
    split_and!; [done..|]. exists o, z. split_and!; [done..|]. intros T. bprop.
    pose proof (refund_cases e o z (idempotency_key a)) as RC. rewrite T in RC.
    destruct (Z.ltb_spec (reserved_of e o) z); [|by auto].
    destruct RC as [? RC]. congruence.
  - intros (Ex&Rt&o&z&Ho&Hz&B). destruct r as [|x]; [done|exfalso].
    assert (refund_guards a sub v bal e now = Ok (o, z)) as G.
    { apply refund_guards_ok. split_and!; [done..|]. intros T.
      by apply B, bool_decide_eq_true. }
    unfold execute_approved_action in X. rewrite G in X.
    pose proof (refund_cases e o z (idempotency_key a)) as RC.
    destruct (transactions e !! idempotency_key a) eqn:T; [by rewrite RC in X|].
    destruct B as [_ B]; [by apply bool_decide_eq_true|].
    destruct (Z.ltb_spec (reserved_of e o) z); [lia|].
    destruct RC as (?&?&RC&_). by rewrite RC in X.
  - destruct r as [a'|x]; [|by eapply execute_raise].
    apply execute_ok in X as (o&z&rf&(?&?&?&?&_)%refund_guards_ok&R&->).
    exists o, z, rf. split_and!; [done..|by eapply refund_transaction|done|]. intros o'.
    pose proof (refund_pools e o z (idempotency_key a) o') as [P1 P2].
    rewrite R in P1, P2. simpl in P1, P2. rewrite P1, P2. split; [done|].
    f_equal. pose proof (refund_cases e o z (idempotency_key a)) as RC.
    destruct (transactions e !! idempotency_key a); simpl; [done|].
    destruct (Z.ltb_spec (reserved_of e o) z); [|done]. destruct RC as [? RC]. congruence.
Qed.

(** C4: at most one payment per action.  After an execution has succeeded and
    whatever the ledger has done since, executing the same request again --
    a retry, or a caller holding a stale copy -- either fails or returns the
    same completed action, and in both cases moves no money. *)
Theorem execution_pays_once a sub v bal e now a1 e1 ops order sub' v' bal' now'
    (H : execute_approved_action a sub v bal e now = (Ok a1, e1)) :
  let e2 := (run e1 ops order).1 in
  let '(r, e3) := execute_approved_action a sub' v' bal' e2 now' in
  e3 = e2 /\ (is_ok r = true -> r = Ok a1).
Proof.
  cbv zeta. apply execute_ok in H as (o&z&rf&_&R%refund_transaction&->).
  apply (run_transactions_persist ops _ order) in R.
  destruct (execute_approved_action a sub' v' bal' (run e1 ops order).1 now') as [[a2|x] e3] eqn:X.
  - apply execute_ok in X as (o'&z'&rf'&_&R'&->).
    pose proof (refund_cases (run e1 ops order).1 o' z' (idempotency_key a)) as RC.
    rewrite R in RC. rewrite RC in R'. by simplify_eq.
  - apply execute_raise in X. by subst.
Qed.

Definition demo_approved : ActionRequest :=
  demo_approve (demo_approve demo_request "sup1") "sup2".

Definition demo_ledger : RefundExecutor := (reserve (new_executor {["ORDER-1" := 900000]}) "ORDER-1" 900000).2.

Lemma execution_pays_once_witness :
  let '(r1, e1) := execute_approved_action demo_approved (payload demo_approved) 3 900000 demo_ledger 5 in
  is_ok r1 = true /\ reserved_of e1 "ORDER-1" = 0 /\
  execute_approved_action demo_approved (payload demo_approved) 3 0 e1 5 = (r1, e1).
Proof.
  pose proof (execution_pays_once demo_approved (payload demo_approved) 3 900000 demo_ledger 5) as H.
  destruct (execute_approved_action demo_approved (payload demo_approved) 3 900000 demo_ledger 5)
    as [r1 e1] eqn:X.
  assert (is_ok r1 = true /\ reserved_of e1 "ORDER-1" = 0) as [K1 K2].
  { change r1 with (r1, e1).1. change (reserved_of e1) with (reserved_of (r1, e1).2).
    rewrite <-X. vm_compute. by split. }
  split; [exact K1|split; [exact K2|]].
  destruct r1 as [a1|]; [|discriminate K1].
  specialize (H a1 e1 [] "" (payload demo_approved) 3 0 5 eq_refl).
  cbv zeta in H. change (run e1 [] "").1 with e1 in H.
  destruct (execute_approved_action demo_approved (payload demo_approved) 3 0 e1 5)
    as [r3 e3] eqn:Y. destruct H as [-> H].
  rewrite H; [done|]. change r3 with (r3, e1).1. rewrite <-Y.
  change e1 with (Ok a1, e1).2. rewrite <-X. vm_compute. reflexivity.
Defined.

(** The executed payload is the decided one.  If an action made from a
    decision is executed, however it was approved in between, the payload the
    caller submitted is -- up to the order of its keys -- the payload stored at
    creation, in particular with the decided amount, unless the two
    serialisations are a SHA-256 collision. *)
Theorem payload_bound roles_of c nid cid oid req now ttl a0 a sub v bal e t a' e'
    (Hc : create_refund_action nid cid oid req (decide_resolution c) now ttl = Ok a0)
    (Hr : rtc (lifecycle_step roles_of) a0 a)
    (Hw : jwf (JObj sub) = true)
    (Hx : execute_approved_action a sub v bal e t = (Ok a', e')) :
  let p := refund_payload oid (decide_resolution c) in
  payload a' = p /\
  (same_value (JObj sub) (JObj p) /\
     get "amount" sub = Some (JInt (refund_amount (decide_resolution c))) \/
   collision (dumps (JObj sub)) (dumps (JObj p))).
Proof.
  cbv zeta. apply create_refund_ok in Hc as (_&_&_&Hp&Hh&_&_&Hi&_).
  destruct (controls_reachable _ _ _ Hi Hr) as [(_&_&_&Ep&Eh&_) _ _ _ _].
  apply execute_ok in Hx as (o&z&rf&((_&_&_&Hs)&_)%refund_guards_ok&_&->). simpl.
  rewrite Eh, Hh, Hp in Hs. split; [congruence|].
  destruct (fingerprint_binds _ _ Hw (refund_payload_jwf oid (decide_resolution c)) Hs)
    as [S|C]; [left|by right]. split; [done|].
  pose proof (same_value_get "amount" _ _ Hw (refund_payload_jwf oid (decide_resolution c)) S) as G.
  rewrite refund_payload_amount in G. destruct (get "amount" sub) as [[]|]; by simplify_eq/=.
Qed.

Lemma payload_bound_witness :
  let sub := [("amount", JInt 900000); ("order_id", JStr "ORDER-1")] in
  let '(r, e) := execute_approved_action demo_approved sub 3 900000 demo_ledger 5 in
  is_ok r = true /\
  (same_value (JObj sub) (JObj (payload demo_request)) \/
   collision (dumps (JObj sub)) (dumps (JObj (payload demo_request)))).
Proof.
  intros sub.
  destruct (execute_approved_action demo_approved sub 3 900000 demo_ledger 5) as [r e] eqn:X.
  assert (is_ok r = true) as K.
  { change r with (r, e).1. rewrite <-X. vm_compute. reflexivity. }
  split; [exact K|]. destruct r as [a'|]; [|discriminate K].
  destruct (payload_bound (fun _ => ["admin"]) (demo_input 10) "A" "C" "ORDER-1" "req" 0 day
    demo_request demo_approved sub 3 900000 demo_ledger 5 a' e) as [_ [[H _]|H]].
  - vm_compute. reflexivity.
  - eapply rtc_l; [apply (step_approve _ _ "sup1" 1 1 None None); vm_compute; reflexivity|].
    eapply rtc_l; [apply (step_approve _ _ "sup2" 2 1 None None); vm_compute; reflexivity|].
    apply rtc_refl.
  - vm_compute. reflexivity.
  - exact X.
  - left. exact H.
  - right. exact H.
Defined.

(** The status machine.  Along any life of a request the identity, the
    payload, its hash, the idempotency key, the requester and the expiry never
    change and the version never decreases; a rejected or completed request
    keeps its status, its approvers and its transaction for ever; and a
    completed one always has a transaction, reached from the approved state. *)
Theorem lifecycle_machine roles_of a a' (H : rtc (lifecycle_step roles_of) a a') :
  same_request a a' /\ version a <= version a' /\
  (status a ∈ [REJECTED; COMPLETED] ->
     status a' = status a /\ approver_ids a' = approver_ids a /\
     external_transaction_id a' = external_transaction_id a) /\
  (status a' = COMPLETED -> status a = COMPLETED \/ is_Some (external_transaction_id a')).
Proof.
  by apply lifecycle_facts in H.
Qed.

Lemma lifecycle_machine_witness :
  let a := copy_invalidated demo_request "superseded" in
  status a = REJECTED /\
  same_request a (copy_version (copy_reserved a true) 7) /\
  status (copy_version (copy_reserved a true) 7) = REJECTED.
Proof.
  intros a.
  destruct (lifecycle_machine (fun _ => []) a (copy_version (copy_reserved a true) 7))
    as (H1&_&H2&_).
  - apply rtc_once, step_reserved. vm_compute. discriminate.
  - split; [reflexivity|split; [exact H1|]]. apply H2. left.
Defined.

End Approval.
