(* ===== verification/Idempotency.v ===== *)
(** * The Idempotency-Key cache

    [idempotency.py] and [idempotency_orm.py]: the request fingerprint, the
    store interface, the SQL store (a table of rows with a unique index on
    [(key, endpoint)]), the in-memory store (a dictionary), and
    [apply_idempotency].  Both stores implement the interface, and the SQL
    store simulates the in-memory one. *)
From S2P Require Import Prelude Sha256 Json Errors Text.
Import Sha256 Json Errors Text.

Module Idempotency.

Definition fingerprint_request (body : dict) : string := fingerprint body.

(** [IdempotencyHit] and [IdempotencyMiss] *)
Inductive lookup_result :=
| IdempotencyMiss
| IdempotencyHit (response : json) (status_code : Z) (created_at : Z).

(** [repr] of a text of printable characters. *)
Definition apostrophe : string := String (ascii_of_N 39) "".

Definition repr_char (q : string) (c : ascii) : string :=
  let n := N_of_ascii c in
  if (n =? 92)%N then backslash +:+ backslash
  else if (String c "" =? q)%string then backslash +:+ q
  else if (n =? 10)%N then backslash +:+ "n"
  else if (n =? 13)%N then backslash +:+ "r"
  else if (n =? 9)%N then backslash +:+ "t"
  else if ((n <? 32) || (n =? 127))%N then
    backslash +:+ ("x" +:+ String (hex_digit (Z.of_N (n / 16)))
                             (String (hex_digit (Z.of_N (n mod 16))) ""))
  else String c "".

Fixpoint repr_body (q s : string) : string :=
  match s with EmptyString => "" | String c s => repr_char q c +:+ repr_body q s end.

Definition repr (s : string) : string :=
  let q := if contains apostrophe s && negb (contains quote s) then quote else apostrophe in
  q +:+ (repr_body q s +:+ q).

Definition conflict_message (key endpoint : string) : string :=
  "Idempotency-Key " +:+ repr key +:+
  " was previously used for a different request body on " +:+ endpoint.

(** One cached response. *)
Record record := {
  request_fingerprint : string;
  rec_response : json;
  rec_status_code : Z;
  rec_created_at : Z;
  rec_expires_at : Z
}.

(** Both stores answer a live record in the same way. *)
Definition answer (key endpoint : string) (body : dict) (r : record) : result lookup_result :=
  if negb (request_fingerprint r =? fingerprint_request body)%string then
    Raise (Exn IdempotencyConflict (conflict_message key endpoint))
  else Ok (IdempotencyHit (rec_response r) (rec_status_code r) (rec_created_at r)).

Definition new_record (body : dict) (response : json) (status_code now ttl : Z) : record :=
  {| request_fingerprint := fingerprint_request body; rec_response := response;
     rec_status_code := status_code; rec_created_at := now; rec_expires_at := now + ttl |}.

(** ** The interface

    [IdempotencyStore]: what a store does, the record it holds for a key
    scoped to an endpoint, and the laws its clients rely on. *)
Class IdempotencyStore (S : Type) := {
  lookup : S -> string -> string -> dict -> Z -> result lookup_result * S;
  store : S -> string -> string -> dict -> json -> Z -> Z -> S;
  ttl : S -> Z;
  live : S -> string -> string -> option record
}.

Class StoreLaws (S : Type) `{IdempotencyStore S} := {
  (** the representation invariant, kept by both operations *)
  wf : S -> Prop;
  lookup_wf s k e body now : wf s -> wf (lookup s k e body now).2;
  store_wf s k e body resp code now : wf s -> wf (store s k e body resp code now);
  (** a key never seen, or expired, is a miss, and an expired record is forgotten *)
  lookup_absent s k e body now :
    wf s -> live s k e = None -> lookup s k e body now = (Ok IdempotencyMiss, s);
  lookup_expired s k e body now r :
    wf s -> live s k e = Some r -> rec_expires_at r <= now ->
    (lookup s k e body now).1 = Ok IdempotencyMiss /\
    live (lookup s k e body now).2 k e = None;
  (** a live record answers a hit or a conflict *)
  lookup_live s k e body now r :
    wf s -> live s k e = Some r -> now < rec_expires_at r ->
    lookup s k e body now = (answer k e body r, s);
  (** the first writer wins *)
  store_new s k e body resp code now :
    wf s -> live s k e = None ->
    live (store s k e body resp code now) k e = Some (new_record body resp code now (ttl s));
  store_old s k e body resp code now r :
    wf s -> live s k e = Some r -> live (store s k e body resp code now) k e = Some r;
  (** other keys and the time to live are not touched *)
  lookup_other s k e k' e' body now :
    wf s -> (k', e') <> (k, e) -> live (lookup s k e body now).2 k' e' = live s k' e';
  store_other s k e k' e' body resp code now :
    wf s -> (k', e') <> (k, e) -> live (store s k e body resp code now) k' e' = live s k' e';
  lookup_ttl s k e body now : ttl (lookup s k e body now).2 = ttl s;
  store_ttl s k e body resp code now : ttl (store s k e body resp code now) = ttl s
}.

(** ** InMemoryIdempotencyStore *)
Record InMemoryIdempotencyStore := {
  _records : gmap (string * string) record;
  mem_ttl : Z
}.

Definition mem_lookup (s : InMemoryIdempotencyStore) (key endpoint : string) (body : dict)
    (now : Z) : result lookup_result * InMemoryIdempotencyStore :=
  match _records s !! (key, endpoint) with
  | None => (Ok IdempotencyMiss, s)
  | Some r =>
      if rec_expires_at r <=? now then
        (Ok IdempotencyMiss,
         {| _records := delete (key, endpoint) (_records s); mem_ttl := mem_ttl s |})
      else (answer key endpoint body r, s)
  end.

Definition mem_store (s : InMemoryIdempotencyStore) (key endpoint : string) (body : dict)
    (response : json) (status_code now : Z) : InMemoryIdempotencyStore :=
  match _records s !! (key, endpoint) with
  | Some _ => s
  | None =>
      {| _records := <[(key, endpoint) := new_record body response status_code now (mem_ttl s)]>
                       (_records s);
         mem_ttl := mem_ttl s |}
  end.

(** ** SqlIdempotencyStore *)
Record IdempotencyRecordRow := {
  row_id : Z;
  row_key : string;
  row_endpoint : string;
  row_record : record
}.

Record SqlIdempotencyStore := {
  rows : list IdempotencyRecordRow;
  next_row_id : Z;
  sql_ttl : Z
}.

Definition row_at (key endpoint : string) (r : IdempotencyRecordRow) : bool :=
  (row_key r =? key)%string && (row_endpoint r =? endpoint)%string.

Definition select_row (s : SqlIdempotencyStore) (key endpoint : string)
  : option IdempotencyRecordRow := List.find (row_at key endpoint) (rows s).

Definition sql_lookup (s : SqlIdempotencyStore) (key endpoint : string) (body : dict)
    (now : Z) : result lookup_result * SqlIdempotencyStore :=
  match select_row s key endpoint with
  | None => (Ok IdempotencyMiss, s)
  | Some row =>
      if rec_expires_at (row_record row) <=? now then
        (Ok IdempotencyMiss,
         {| rows := List.filter (fun r => negb (row_id r =? row_id row)) (rows s);
            next_row_id := next_row_id s; sql_ttl := sql_ttl s |})
      else (answer key endpoint body (row_record row), s)
  end.

(** The insert; the unique index turns a second row into an [IntegrityError],
    which the store swallows after a rollback. *)
Definition sql_store (s : SqlIdempotencyStore) (key endpoint : string) (body : dict)
    (response : json) (status_code now : Z) : SqlIdempotencyStore :=
  match select_row s key endpoint with
  | Some _ => s
  | None =>
      {| rows := rows s ++ [{| row_id := next_row_id s; row_key := key; row_endpoint := endpoint;
                               row_record := new_record body response status_code now (sql_ttl s) |}];
         next_row_id := next_row_id s + 1; sql_ttl := sql_ttl s |}
  end.

(** ** apply_idempotency *)
Record IdempotencyOutcome := {
  replay : bool;
  cached_response : option json;
  cached_status : option Z
}.

Definition fresh_outcome : IdempotencyOutcome :=
  {| replay := false; cached_response := None; cached_status := None |}.

Definition apply_idempotency {S} `{IdempotencyStore S} (s : S) (key : option string)
    (endpoint : string) (body : dict) (now : Z) : result IdempotencyOutcome * S :=
  match key with
  | None => (Ok fresh_outcome, s)
  | Some k =>
      if (k =? "")%string then (Ok fresh_outcome, s)
      else
        let '(r, s') := lookup s k endpoint body now in
        (x <-? r ;;
         Ok match x with
            | IdempotencyHit resp code _ =>
                {| replay := true; cached_response := Some resp; cached_status := Some code |}
            | IdempotencyMiss => fresh_outcome
            end, s')
  end.

(** ** The stores implement the interface *)

#[local] Obligation Tactic := idtac.

#[export] Instance mem_ops : IdempotencyStore InMemoryIdempotencyStore := {|
  lookup := mem_lookup; store := mem_store; ttl := mem_ttl;
  live s k e := _records s !! (k, e)
|}.

#[export] Program Instance mem_laws : StoreLaws InMemoryIdempotencyStore := {| wf _ := True |}.
Next Obligation. done. Qed.
Next Obligation. done. Qed.
Next Obligation. intros s k e body now _ H. simpl in *. unfold mem_lookup. by rewrite H. Qed.
Next Obligation.
  intros s k e body now r _ H L. simpl in *. unfold mem_lookup. rewrite H.
  apply Z.leb_le in L as ->. simpl. split; [done|apply lookup_delete_eq].
Qed.
Next Obligation.
  intros s k e body now r _ H L. simpl in *. unfold mem_lookup. rewrite H.
  by apply Z.leb_gt in L as ->.
Qed.
Next Obligation.
  intros s k e body resp code now _ H. simpl in *. unfold mem_store. rewrite H. simpl.
  apply lookup_insert_eq.
Qed.
Next Obligation. intros s k e body resp code now r _ H. simpl in *. unfold mem_store. by rewrite H. Qed.
Next Obligation.
  intros s k e k' e' body now _ N. simpl. unfold mem_lookup. case_match; [|done].
  case_match; [|done]. simpl. apply lookup_delete_ne. congruence.

Qed.
Next Obligation.
  intros s k e k' e' body resp code now _ N. simpl. unfold mem_store.
  case_match; [done|]. apply lookup_insert_ne. congruence.
Qed.
Next Obligation. intros. simpl. unfold mem_lookup. by repeat case_match. Qed.
Next Obligation. intros. simpl. unfold mem_store. by repeat case_match. Qed.

(** The unique index and the autoincrement column. *)
Definition sql_wf (s : SqlIdempotencyStore) : Prop :=
  NoDup (map (fun r => (row_key r, row_endpoint r)) (rows s)) /\
  NoDup (map row_id (rows s)) /\ Forall (fun r => row_id r < next_row_id s) (rows s).

#[export] Instance sql_ops : IdempotencyStore SqlIdempotencyStore := {|
  lookup := sql_lookup; store := sql_store; ttl := sql_ttl;
  live s k e := option_map row_record (select_row s k e)
|}.

Lemma row_at_spec k e r : row_at k e r = true <-> (row_key r, row_endpoint r) = (k, e).
Proof. unfold row_at. rewrite andb_true_iff, !String.eqb_eq. naive_solver. Qed.

(** Deleting the selected row leaves every other key's row in place. *)
Lemma find_row_delete l row k e k' e' :
  NoDup (map (fun r => (row_key r, row_endpoint r)) l) -> NoDup (map row_id l) ->
  List.find (row_at k e) l = Some row ->
  List.find (row_at k' e') (List.filter (fun r => negb (row_id r =? row_id row)) l) =
  if decide ((k', e') = (k, e)) then None else List.find (row_at k' e') l.
Proof.
  induction l as [|r l IH]; simpl; [done|].
  intros [N1 N]%NoDup_cons [M1 M]%NoDup_cons F.
  destruct (row_at k e r) eqn:R.
  - injection F as ->. rewrite Z.eqb_refl. simpl. apply row_at_spec in R.
    assert (List.filter (fun r => negb (row_id r =? row_id row)) l = l) as ->.
    { clear -M1. induction l as [|x l IH]; simpl; [done|].
      simpl in M1. apply not_elem_of_cons in M1 as [M1 M2].
      destruct (Z.eqb_spec (row_id x) (row_id row)); [congruence|]. simpl. f_equal. auto. }
    case_decide as D.
    + simplify_eq. destruct (List.find _ l) as [x|] eqn:X; [|done].
      apply find_some_elem in X as [X1 X2%row_at_spec]. destruct N1.
      rewrite <-X2. apply list_elem_of_fmap. by exists x.
    + destruct (row_at k' e' row) eqn:R'; [|done]. apply row_at_spec in R'. congruence.
  - assert (row_id r =? row_id row = false) as ->.
    { apply Z.eqb_neq. intros E. destruct M1. rewrite E. apply find_some_elem in F as [F _].
      apply list_elem_of_fmap. by exists row. }
    simpl. specialize (IH N M F). destruct (row_at k' e' r) eqn:R'; [|done].
    case_decide; [|done]. simplify_eq. congruence.
Qed.

Lemma sql_lookup_wf s k e body now : sql_wf s -> sql_wf (sql_lookup s k e body now).2.
Proof.
  intros (W1&W2&W3). unfold sql_lookup. destruct (select_row s k e); [|done].
  destruct (_ <=? _); [|done]. unfold sql_wf. simpl. split_and!; auto using map_filter_nodup.
  apply Forall_forall. intros x [Hx _]%filter_elem. by eapply Forall_forall in W3.
Qed.

Lemma select_none s k e :
  select_row s k e = None -> (k, e) ∉ map (fun r => (row_key r, row_endpoint r)) (rows s).
Proof.
  intros H (r&E&Hr)%list_elem_of_fmap. eapply find_none_elem in H; [|exact Hr].
  symmetry in E. apply row_at_spec in E. congruence.
Qed.

Lemma sql_store_wf s k e body resp code now :
  sql_wf s -> sql_wf (sql_store s k e body resp code now).
Proof.
  intros (W1&W2&W3). unfold sql_store. destruct (select_row s k e) eqn:F; [done|].
  unfold sql_wf. simpl. rewrite !map_app, !NoDup_app, Forall_app. simpl. split_and!; auto.
  - intros x Hx ->%list_elem_of_singleton. by apply select_none in F.
  - apply NoDup_singleton.
  - intros x Hx ->%list_elem_of_singleton. apply list_elem_of_fmap in Hx as (y&E&Hy).
    eapply Forall_forall in W3; [|exact Hy]. simpl in W3. lia.
  - apply NoDup_singleton.
  - eapply Forall_impl; [exact W3|]. simpl. lia.
  - repeat constructor. simpl. lia.
Qed.

#[export] Program Instance sql_laws : StoreLaws SqlIdempotencyStore := {| wf := sql_wf |}.
Next Obligation. apply sql_lookup_wf. Qed.
Next Obligation. apply sql_store_wf. Qed.
Next Obligation.
  intros s k e body now _. simpl. unfold sql_lookup. by destruct (select_row s k e).
Qed.
Next Obligation.
  intros s k e body now r (W1&W2&_). simpl. unfold sql_lookup.
  destruct (select_row s k e) as [row|] eqn:F; [|done]. simpl. intros [= <-] L.
  apply Z.leb_le in L as ->. simpl. split; [done|]. unfold select_row. simpl.
  rewrite (find_row_delete _ row k e) by done. by rewrite decide_True.
Qed.
Next Obligation.
  intros s k e body now r _. simpl. unfold sql_lookup.
  destruct (select_row s k e) as [row|]; [|done]. simpl. intros [= <-] L.
  by apply Z.leb_gt in L as ->.
Qed.
Next Obligation.
  intros s k e body resp code now _. simpl. unfold sql_store.
  destruct (select_row s k e) eqn:F; [done|]. intros _. unfold select_row in *. simpl.
  rewrite find_app, F. simpl.
  unfold row_at. simpl. by rewrite !String.eqb_refl.
Qed.
Next Obligation.
  intros s k e body resp code now r _. simpl. unfold sql_store.
  by destruct (select_row s k e) eqn:F; [rewrite F|].
Qed.
Next Obligation.
  intros s k e k' e' body now (W1&W2&_) N. simpl. unfold sql_lookup.
  destruct (select_row s k e) as [row|] eqn:F; [|done].
  destruct (_ <=? _); [|done]. unfold select_row. simpl.
  rewrite (find_row_delete _ row k e) by done. by rewrite decide_False.
Qed.
Next Obligation.
  intros s k e k' e' body resp code now _ N. simpl. unfold sql_store.
  destruct (select_row s k e) eqn:F; [done|]. unfold select_row. simpl.
  rewrite find_app. destruct (List.find (row_at k' e') (rows s)); [done|]. simpl.
  destruct (row_at k' e' _) eqn:R; [|done]. apply row_at_spec in R. simpl in R. congruence.
Qed.
Next Obligation. intros. simpl. unfold sql_lookup. by repeat case_match. Qed.
Next Obligation. intros. simpl. unfold sql_store. by repeat case_match. Qed.

(** ** Sequences of store operations *)

Inductive store_op :=
| OpLookup (k e : string) (body : dict) (now : Z)
| OpStore (k e : string) (body : dict) (resp : json) (code now : Z).

Definition op_time (op : store_op) : Z :=
  match op with OpLookup _ _ _ now | OpStore _ _ _ _ _ now => now end.

Section clients.
Context {S : Type} `{StoreLaws S}.

Definition apply_store (s : S) (op : store_op) : option (result lookup_result) * S :=
match op with
| OpLookup k e body now => let '(r, s') := lookup s k e body now in (Some r, s')
| OpStore k e body resp code now => (None, store s k e body resp code now)
end.

(** The answers a sequence of operations gets, and the final store. *)
Fixpoint run_store (s : S) (ops : list store_op) : list (option (result lookup_result)) * S :=
match ops with
| [] => ([], s)
| op :: ops =>
    let '(r, s') := apply_store s op in
    let '(rs, s'') := run_store s' ops in (r :: rs, s'')
end.

Lemma apply_store_wf s op : wf s -> wf (apply_store s op).2.
Proof.
destruct op as [k e body now|k e body resp code now]; simpl; [|apply store_wf].
pose proof (lookup_wf s k e body now). by destruct (lookup s k e body now).
Qed.

Lemma apply_store_ttl s op : ttl (apply_store s op).2 = ttl s.
Proof.
destruct op as [k e body now|k e body resp code now]; simpl; [|apply store_ttl].
pose proof (lookup_ttl s k e body now). by destruct (lookup s k e body now).
Qed.

(** A live record survives every operation before its expiry. *)
Lemma apply_store_keeps s op k e r :
wf s -> live s k e = Some r -> op_time op < rec_expires_at r ->
live (apply_store s op).2 k e = Some r.
Proof.
intros W L T. destruct op as [k' e' body now|k' e' body resp code now]; simpl in *.
- destruct (decide ((k, e) = (k', e'))) as [[= -> ->]|N].
  + by rewrite (lookup_live _ _ _ _ _ r).
  + pose proof (lookup_other s k' e' k e body now W N) as O.
    destruct (lookup s k' e' body now). simpl in *. congruence.
- destruct (decide ((k, e) = (k', e'))) as [[= -> ->]|N]; [by apply store_old|].
  by rewrite store_other.
Qed.

Lemma run_store_keeps ops s k e r :
wf s -> live s k e = Some r -> Forall (fun op => op_time op < rec_expires_at r) ops ->
wf (run_store s ops).2 /\ live (run_store s ops).2 k e = Some r.
Proof.
intros W L F. revert s W L. induction F as [|op ops T _ IH]; intros s W L; simpl; [done|].
pose proof (apply_store_wf s op W). pose proof (apply_store_keeps s op k e r W L T).
destruct (apply_store s op) as [x s']. simpl in *.
destruct (IH s') as [I1 I2]; [done..|]. by destruct (run_store s' ops).
Qed.
End clients.

(** ** Properties *)

(** C12: the Idempotency-Key contract, for any lawful store.  Once the response
    to a request has been stored under a fresh key, and whatever requests are
    served in between, a request with that key and endpoint before the time to
    live is over is never run again: with the same fingerprint it is answered
    by the first response and status, with another one it is an
    [IdempotencyConflict]. *)
Theorem idempotency_contract {S} `{StoreLaws S} (s : S) k e body resp code t0 ops body' now
    (Hw : wf s) (Hk : k <> "") (Hn : live s k e = None)
    (Ht : Forall (fun op => op_time op < t0 + ttl s) ops) (Hnow : now < t0 + ttl s) :
  let s' := (run_store (store s k e body resp code t0) ops).2 in
  apply_idempotency s' (Some k) e body' now =
  (if (fingerprint_request body' =? fingerprint_request body)%string
   then Ok {| replay := true; cached_response := Some resp; cached_status := Some code |}
   else Raise (Exn IdempotencyConflict (conflict_message k e)), s').
Proof.
  cbv zeta. pose proof (store_new s k e body resp code t0 Hw Hn) as L.
  destruct (run_store_keeps ops _ k e _ (store_wf s k e body resp code t0 Hw) L Ht) as [W' L'].
  set (s' := (run_store _ _).2) in *. clearbody s'. unfold apply_idempotency.
  apply String.eqb_neq in Hk as ->. rewrite (lookup_live _ _ _ _ _ _ W' L' Hnow).
  unfold answer. simpl. rewrite (String.eqb_sym (fingerprint_request body)).
  by destruct (_ =? _)%string.
Qed.

Definition demo_store : SqlIdempotencyStore := {| rows := []; next_row_id := 1; sql_ttl := 100 |}.

Lemma demo_store_wf : sql_wf demo_store.
Proof. split_and!; constructor. Qed.

Lemma idempotency_contract_witness :
  let s := sql_store demo_store "k" "/approve" [("v", JInt 1)] (JStr "done") 200 5 in
  apply_idempotency s (Some "k") "/approve" [("v", JInt 1)] 50 =
    (Ok {| replay := true; cached_response := Some (JStr "done"); cached_status := Some 200 |}, s) /\
  apply_idempotency s (Some "k") "/approve" [("v", JInt 2)] 50 =
    (Raise (Exn IdempotencyConflict (conflict_message "k" "/approve")), s).
Proof.
  pose proof (idempotency_contract demo_store "k" "/approve" [("v", JInt 1)] (JStr "done") 200 5 [])
    as H.
  split.
  - specialize (H [("v", JInt 1)] 50 demo_store_wf ltac:(discriminate) eq_refl ltac:(constructor) eq_refl).
    etransitivity; [exact H|vm_compute; reflexivity].
  - specialize (H [("v", JInt 2)] 50 demo_store_wf ltac:(discriminate) eq_refl ltac:(constructor) eq_refl).
    etransitivity; [exact H|vm_compute; reflexivity].
Defined.

(** Two stores that hold the same live records and time to live. *)
Definition same_store {S T} `{StoreLaws S} `{StoreLaws T} (s : S) (t : T) : Prop :=
  wf s /\ wf t /\ ttl s = ttl t /\ forall k e, live s k e = live t k e.

Lemma same_store_step {S T} `{StoreLaws S} `{StoreLaws T} (s : S) (t : T) op :
  same_store s t ->
  (apply_store s op).1 = (apply_store t op).1 /\
  same_store (apply_store s op).2 (apply_store t op).2.
Proof.
  intros (Ws&Wt&E&L).
  assert (forall k e, live (apply_store s op).2 k e = live (apply_store t op).2 k e) as L'.
  { intros k e. destruct op as [k' e' body now|k' e' body resp code now]; simpl.
    - destruct (decide ((k, e) = (k', e'))) as [[= -> ->]|N].
      + pose proof (L k' e') as Lk. destruct (live s k' e') as [r|] eqn:Ls.
        * destruct (Z_lt_le_dec now (rec_expires_at r)) as [B|B].
          -- rewrite (lookup_live s _ _ _ _ r), (lookup_live t _ _ _ _ r); auto.
          -- destruct (lookup_expired s k' e' body now r) as [_ X]; [done..|].
             destruct (lookup_expired t k' e' body now r) as [_ Y]; [done..|].
             by destruct (lookup s _ _ _ _), (lookup t _ _ _ _); simpl in *; rewrite X, Y.
        * rewrite (lookup_absent s), (lookup_absent t); auto.
      + pose proof (lookup_other s k' e' k e body now Ws N) as X.
        pose proof (lookup_other t k' e' k e body now Wt N) as Y.
        destruct (lookup s _ _ _ _), (lookup t _ _ _ _); simpl in *. by rewrite X, Y.
    - destruct (decide ((k, e) = (k', e'))) as [[= -> ->]|N].
      + pose proof (L k' e') as Lk. destruct (live s k' e') as [r|] eqn:Ls.
        * by rewrite (store_old s _ _ _ _ _ _ r), (store_old t _ _ _ _ _ _ r).
        * rewrite (store_new s), (store_new t); [by rewrite E|done..].
      + by rewrite !store_other. }
  split; [|split_and!; auto using apply_store_wf; by rewrite !apply_store_ttl].
  destruct op as [k e body now|k e body resp code now]; simpl; [|done].
  pose proof (L k e) as Lk. destruct (live s k e) as [r|] eqn:Ls.
  - destruct (Z_lt_le_dec now (rec_expires_at r)) as [B|B].
    + rewrite (lookup_live s _ _ _ _ r), (lookup_live t _ _ _ _ r); auto.
    + destruct (lookup_expired s k e body now r) as [X _]; [done..|].
      destruct (lookup_expired t k e body now r) as [Y _]; [done..|].
      destruct (lookup s _ _ _ _), (lookup t _ _ _ _); simpl in *. by rewrite X, Y.
  - rewrite (lookup_absent s), (lookup_absent t); auto.
Qed.

(** C35: the SQL store implements the in-memory one: started with the same
    records, the two give the same answers to every sequence of lookups and
    stores -- misses, expiries, replays and conflicts alike -- and end with
    the same records. *)
Theorem sql_store_refines_memory (s : SqlIdempotencyStore) (m : InMemoryIdempotencyStore) ops
    (Hs : same_store s m) :
  (run_store s ops).1 = (run_store m ops).1 /\ same_store (run_store s ops).2 (run_store m ops).2.
Proof.
  revert s m Hs. induction ops as [|op ops IH]; intros s m Hs; simpl; [done|].
  destruct (same_store_step s m op Hs) as [E H'].
  destruct (apply_store s op) as [r s'], (apply_store m op) as [r' m']. simpl in *. subst r'.
  destruct (IH s' m' H') as [I1 I2].
  destruct (run_store s' ops), (run_store m' ops). simpl in *. by subst.
Qed.

Lemma sql_store_refines_memory_witness :
  let ops := [OpStore "k" "/e" [] JNull 201 0; OpLookup "k" "/e" [] 99; OpLookup "k" "/e" [] 100] in
  (run_store demo_store ops).1 = [None; Some (Ok (IdempotencyHit JNull 201 0)); Some (Ok IdempotencyMiss)] /\
  (run_store demo_store ops).1 = (run_store {| _records := ∅; mem_ttl := 100 |} ops).1.
Proof.
  intros ops. split; [vm_compute; reflexivity|].
  destruct (sql_store_refines_memory demo_store {| _records := ∅; mem_ttl := 100 |} ops) as [H _].
  - split_and!; [exact demo_store_wf|done..].
  - exact H.
Defined.

End Idempotency.
