(* ===== verification/Metrics.v ===== *)
(** * Prometheus counters

    [metrics.py]: the registry of counter families, [inc], the text
    exposition [render] with its escaping, and [reset].  Every method runs
    under the registry's lock, so concurrent increments are a sequence. *)
From S2P Require Import Prelude Json.
Import Json.

Module Metrics.

Definition nl : string := String (ascii_of_N 10) "".

Definition _METRIC_HELP : list (string * string) :=
  [("decisions_total", "Total decisions made by the engine, by eligibility outcome.");
   ("actions_created_total", "Total refund actions created, by initial status.");
   ("approvals_total", "Total approval / rejection decisions made by supervisors.");
   ("executions_total", "Total approved-action executions, by terminal outcome.");
   ("idempotency_total", "Idempotency-Key lookups by result (hit=replay, miss=first-write, conflict=key reused with different body).");
   ("tool_audit_total", "Guardrail decisions on AfterFlow tool calls, by allow/deny.");
   ("reservation_reaped_total", "Expired reserved actions released by the reservation reaper.")].

Definition _METRIC_LABELS : list (string * list string) :=
  [("decisions_total", ["outcome"]); ("actions_created_total", ["status"]);
   ("approvals_total", ["decision"]); ("executions_total", ["outcome"]);
   ("idempotency_total", ["result"]); ("tool_audit_total", ["decision"]);
   ("reservation_reaped_total", [])].

(** [d.get(k)] on the literal tables and on keyword arguments. *)
Definition assoc {A} (k : string) (l : list (string * A)) : option A :=
  option_map snd (List.find (fun kv => (kv.1 =? k)%string) l).

Definition known (name : string) : bool := bool_decide (name ∈ map fst _METRIC_HELP).
Definition label_keys (name : string) : list string := default [] (assoc name _METRIC_LABELS).

(** [s.replace(c, t)] for a one-character [c]. *)
Fixpoint replace (c : ascii) (t s : string) : string :=
  match s with
  | EmptyString => ""
  | String x s => (if Ascii.eqb x c then t else String x "") +:+ replace c t s
  end.

Definition bs : ascii := ascii_of_N 92.
Definition dq : ascii := ascii_of_N 34.
Definition lf : ascii := ascii_of_N 10.

Definition _escape_label_value (value : string) : string :=
  replace lf (backslash +:+ "n")
    (replace dq (backslash +:+ quote)
      (replace bs (backslash +:+ backslash) value)).

(** [sorted] on texts. *)
Definition sorted (l : list string) : list string := merge_sort String.le l.

Definition _format_labels (labels : list (string * string)) : string :=
  match labels with
  | [] => ""
  | _ =>
      "{" +:+ (join "," (map (fun key =>
        key +:+ ("=" +:+ (quote +:+ (_escape_label_value (default "" (assoc key labels)) +:+ quote))))
        (sorted (map fst labels))) +:+ "}")
  end.

Abbreviation bucket := (gmap (list string) Z).
Record Metrics := { counters : gmap string bucket }.
Definition empty_metrics : Metrics := {| counters := ∅ |}.

Definition _ensure (m : Metrics) (name : string) : bucket := default ∅ (counters m !! name).

(** The tuple of label values of one call: the known labels it passes, in key
    order; extra labels are dropped. *)
Definition projected (name : string) (labels : list (string * string)) : list string :=
  map (fun k => default "" (assoc k labels))
    (sorted (List.filter (fun k => bool_decide (is_Some (assoc k labels))) (label_keys name))).

Definition inc (m : Metrics) (name : string) (labels : list (string * string)) : Metrics :=
  if negb (known name) then m
  else
    let key := projected name labels in
    let b := _ensure m name in
    {| counters := <[name := <[key := default 0 (b !! key) + 1]> b]> (counters m) |}.

Definition reset (_ : Metrics) : Metrics := empty_metrics.

Definition _metric_value (m : Metrics) (name : string) (labels : list (string * string)) : Z :=
  default 0 (default ∅ (counters m !! name) !! projected name labels).

(** Order of Python tuples of texts. *)
Fixpoint tuple_le (a b : list string) : bool :=
  match a, b with
  | [], _ => true
  | _ :: _, [] => false
  | x :: a, y :: b => if (x =? y)%string then tuple_le a b else bool_decide (String.le x y)
  end.

Definition sample_le (a b : list string * Z) : Prop := tuple_le a.1 b.1 = true.
#[export] Instance sample_le_dec : RelDecision sample_le := fun a b => decide (_ = true).

Definition sample_line (family : string) (kv : list string * Z) : string :=
  family +:+ (_format_labels (zip (label_keys family) kv.1) +:+ (" " +:+ pretty kv.2)).

Definition family_lines (m : Metrics) (family help_text : string) : list string :=
  let b := default ∅ (counters m !! family) in
  ["# HELP " +:+ (family +:+ (" " +:+ help_text)); "# TYPE " +:+ (family +:+ " counter")] ++
  (if bool_decide (map_to_list b = []) then
     match label_keys family with [] => [family +:+ " 0"] | _ => [] end
   else map (sample_line family) (merge_sort sample_le (map_to_list b))).

Definition render (m : Metrics) : string :=
  join nl (concat (map (fun fh => family_lines m fh.1 fh.2) _METRIC_HELP)) +:+ nl.

(** ** Facts *)

Definition inc_all (m : Metrics) (calls : list (string * list (string * string))) : Metrics :=
  foldl (fun m c => inc m c.1 c.2) m calls.

(** The increments that count for a sample. *)
Definition counts_for (name : string) (key : list string)
    (c : string * list (string * string)) : bool :=
  known c.1 && bool_decide (c.1 = name) && bool_decide (projected c.1 c.2 = key).

Definition value_at (m : Metrics) (name : string) (key : list string) : Z :=
  default 0 (default ∅ (counters m !! name) !! key).

Lemma inc_value m c name key :
  value_at (inc m c.1 c.2) name key
  = value_at m name key + (if counts_for name key c then 1 else 0).
Proof.
  unfold inc, counts_for, value_at. destruct (known c.1); simpl; [|lia].
  rewrite lookup_insert. case_decide as N; simpl.
  - subst. rewrite bool_decide_eq_true_2 by done. simpl. rewrite lookup_insert.
    unfold _ensure. case_decide as K; simpl; [|rewrite bool_decide_eq_false_2 by done; lia].
    subst. by rewrite bool_decide_eq_true_2.
  - rewrite (bool_decide_eq_false_2 (c.1 = name)) by done. simpl. lia.
Qed.

(** ** Properties *)

(** Counters are exact and the order of increments is irrelevant.  After
    any sequence of increments a sample's value is its initial value plus the
    number of calls that project onto it, so any two interleavings of the same
    calls are indistinguishable; calls on unknown families count for nothing. *)
Theorem counters_exact m calls calls' name key :
  value_at (inc_all m calls) name key
    = value_at m name key + Z.of_nat (length (List.filter (counts_for name key) calls)) /\
  (calls ≡ₚ calls' -> value_at (inc_all m calls) name key = value_at (inc_all m calls') name key).
Proof.
  assert (forall calls m, value_at (inc_all m calls) name key
    = value_at m name key + Z.of_nat (length (List.filter (counts_for name key) calls))) as E.
  { clear. induction calls as [|c calls IH]; intros m; simpl; [lia|].
    unfold inc_all in *. rewrite IH, inc_value. destruct (counts_for name key c); simpl; lia. }
  split; [apply E|]. intros P. rewrite !E. f_equal. f_equal.
  by rewrite (Permutation_length (filter_perm _ _ _ P)).
Qed.

Lemma counters_exact_witness :
  let a := ("approvals_total", [("decision", "granted"); ("actor", "u1")]) in
  let b := ("approvals_total", [("decision", "rejected")]) in
  let c := ("typo_total", []) in
  value_at (inc_all empty_metrics [a; b; a; c]) "approvals_total" ["granted"] = 2 /\
  value_at (inc_all empty_metrics [a; b; a; c]) "approvals_total" ["granted"] =
  value_at (inc_all empty_metrics [c; a; b; a]) "approvals_total" ["granted"].
Proof.
  intros a b c. split; [vm_compute; reflexivity|].
  destruct (counters_exact empty_metrics [a; b; a; c] [c; a; b; a] "approvals_total" ["granted"])
    as [_ H].
  apply H. apply (Permutation_app_comm [a; b; a] [c]).
Defined.

(** Undoes the label escaping. *)
Fixpoint unescape (s : string) : string :=
  match s with
  | String x (String y s' as t) =>
      if Ascii.eqb x bs then
        (if Ascii.eqb y (ascii_of_N 110) then String lf (unescape s') else String y (unescape s'))
      else String x (unescape t)
  | _ => s
  end.

(** What the three passes do to one character. *)
Definition escape_one (x : ascii) : string :=
  if Ascii.eqb x bs then backslash +:+ backslash
  else if Ascii.eqb x dq then backslash +:+ quote
  else if Ascii.eqb x lf then backslash +:+ "n"
  else String x "".

Lemma escape_cons x s :
  _escape_label_value (String x s) = escape_one x +:+ _escape_label_value s.
Proof.
  unfold _escape_label_value, escape_one. simpl.
  destruct (Ascii.eqb_spec x bs) as [->|N1]; [reflexivity|].
  destruct (Ascii.eqb_spec x dq) as [->|N2]; [reflexivity|]. simpl.
  destruct (Ascii.eqb_spec x dq) as [->|_]; [done|]. simpl.
  destruct (Ascii.eqb_spec x lf) as [->|N3]; [reflexivity|]. simpl.
  by destruct (Ascii.eqb_spec x lf).
Qed.

Lemma unescape_one x r : unescape (escape_one x +:+ r) = String x (unescape r).
Proof.
  unfold escape_one. destruct (Ascii.eqb_spec x bs) as [->|N1]; [reflexivity|].
  destruct (Ascii.eqb_spec x dq) as [->|N2]; [reflexivity|].
  destruct (Ascii.eqb_spec x lf) as [->|N3]; [reflexivity|].
  simpl. destruct r as [|y r]; [done|]. by destruct (Ascii.eqb_spec x bs).
Qed.

Lemma list_ascii_app s t :
  String.list_ascii_of_string (s +:+ t)
  = String.list_ascii_of_string s ++ String.list_ascii_of_string t.
Proof. induction s as [|x s IH]; simpl; [done|]. by rewrite <-IH. Qed.

Lemma escape_one_no_lf x : lf ∉ String.list_ascii_of_string (escape_one x).
Proof.
  unfold escape_one. destruct (Ascii.eqb_spec x bs) as [->|N1]; [by repeat (apply not_elem_of_cons; split; [done|]); apply not_elem_of_nil|].
  destruct (Ascii.eqb_spec x dq) as [->|N2]; [by repeat (apply not_elem_of_cons; split; [done|]); apply not_elem_of_nil|].
  destruct (Ascii.eqb_spec x lf) as [->|N3]; [by repeat (apply not_elem_of_cons; split; [done|]); apply not_elem_of_nil|].
  simpl. intros H%list_elem_of_singleton. by subst.
Qed.

(** Label values survive the exposition format.  Escaping is undone by
    reading a backslash pair back, so distinct label values never share a
    rendered sample, and an escaped value contains no line feed, so a label
    value can never start a forged sample line. *)
Theorem label_escape_roundtrip value :
  unescape (_escape_label_value value) = value /\
  lf ∉ String.list_ascii_of_string (_escape_label_value value).
Proof.
  induction value as [|x s [IH1 IH2]]; [split; [done|apply not_elem_of_nil]|].
  rewrite escape_cons, unescape_one, IH1, list_ascii_app, elem_of_app.
  split; [done|]. intros [H|H]; [by apply escape_one_no_lf in H|done].
Qed.

End Metrics.
