(* ===== verification/AgentLimits.v ===== *)
(** * Limits on the agent loop

    [tool_policy.py] (per-tool call caps and the step budget of a session) and
    [cancellation.py] (the process-local cancellation registry).  Every method
    runs under the store's lock: a session is a sequence of calls. *)
From S2P Require Import Prelude Json Errors Metrics.
Import Json Errors Metrics.

(** ** tool_policy.py *)
Module ToolPolicy.

Definition DEFAULT_PER_TOOL_LIMITS : list (string * Z) :=
  [("get_after_sales_order", 4); ("get_after_sales_payment", 3); ("get_logistics_evidence", 3);
   ("get_customer_refund_risk", 3); ("get_after_sales_policy", 2);
   ("get_replacement_inventory", 2); ("get_reverse_fulfillment_costs", 2);
   ("evaluate_reverse_fulfillment", 4); ("scan_after_sales_operations", 1);
   ("evaluate_after_sales_case", 4); ("search_after_sales_knowledge", 4);
   ("create_after_sales_case", 1); ("update_after_sales_case", 2);
   ("create_after_sales_action", 1); ("execute_approved_action", 1)].

Record ToolPolicy := {
  max_steps : Z;
  max_calls_per_session : Z;
  per_tool_overrides : gmap string Z
}.

Definition default_policy : ToolPolicy :=
  {| max_steps := 25; max_calls_per_session := 8; per_tool_overrides := ∅ |}.

(** [merged = dict(DEFAULT_PER_TOOL_LIMITS); merged.update(overrides)] *)
Definition per_tool_limits (p : ToolPolicy) : gmap string Z :=
  per_tool_overrides p ∪ list_to_map DEFAULT_PER_TOOL_LIMITS.

Definition cap_for (p : ToolPolicy) (tool_name : string) : Z :=
  default (max_calls_per_session p) (per_tool_limits p !! tool_name).

Record ToolCallThrottle := { allowed : bool; used : Z; cap : Z; tool_name : string }.

Record ToolPolicyStore := { _policy : ToolPolicy; _counts : gmap string Z; _steps : Z }.

Definition new_store (p : ToolPolicy) : ToolPolicyStore :=
  {| _policy := p; _counts := ∅; _steps := 0 |}.

Definition count_of (s : ToolPolicyStore) (tool : string) : Z := default 0 (_counts s !! tool).

Definition check_and_record (s : ToolPolicyStore) (tool : string) (args : dict)
  : ToolCallThrottle * ToolPolicyStore :=
  let c := cap_for (_policy s) tool in
  let new_count := count_of s tool + 1 in
  ({| allowed := new_count <=? c; used := new_count; cap := c; tool_name := tool |},
   {| _policy := _policy s; _counts := <[tool := new_count]> (_counts s); _steps := _steps s |}).

Definition record_step (s : ToolPolicyStore) : result unit * ToolPolicyStore :=
  let step := _steps s + 1 in
  (raise_if (max_steps (_policy s) <? step)
     (Exn StepBudgetExceeded ("agent step budget exceeded: step=" +:+ pretty step +:+
                              ", budget=" +:+ pretty (max_steps (_policy s)))),
   {| _policy := _policy s; _counts := _counts s; _steps := step |}).

Definition snapshot (s : ToolPolicyStore) : Z * gmap string Z := (_steps s, _counts s).

(** *** A session *)

Inductive session_op := CallTool (tool : string) (args : dict) | Step.

(** [Some tool] for an admitted call, and whether a step was within budget. *)
Definition session_step (s : ToolPolicyStore) (op : session_op)
  : (option string * bool) * ToolPolicyStore :=
  match op with
  | CallTool tool args =>
      let '(t, s') := check_and_record s tool args in
      ((if allowed t then Some tool else None, true), s')
  | Step => let '(r, s') := record_step s in ((None, is_ok r), s')
  end.

Fixpoint session (s : ToolPolicyStore) (ops : list session_op)
  : list (option string * bool) * ToolPolicyStore :=
  match ops with
  | [] => ([], s)
  | op :: ops =>
      let '(x, s1) := session_step s op in
      let '(xs, s2) := session s1 ops in (x :: xs, s2)
  end.

Definition calls_of (tool : string) (op : session_op) : bool :=
  match op with CallTool t _ => bool_decide (t = tool) | Step => false end.

Definition admitted (tool : string) (x : option string * bool) : bool :=
  bool_decide (x.1 = Some tool).

Definition count {A} (f : A -> bool) (l : list A) : Z := Z.of_nat (length (List.filter f l)).

Lemma count_cons {A} (f : A -> bool) x l : count f (x :: l) = (if f x then 1 else 0) + count f l.
Proof. unfold count. simpl. destruct (f x); simpl; lia. Qed.

Lemma session_policy s op : _policy (session_step s op).2 = _policy s.
Proof. by destruct op. Qed.

Lemma session_admitted ops s tool :
  count (admitted tool) (session s ops).1 =
  Z.max 0 (Z.min (count (calls_of tool) ops) (cap_for (_policy s) tool - count_of s tool)).
Proof.
  revert s. induction ops as [|op ops IH]; intros s; [simpl; unfold count; simpl; lia|].
  simpl. destruct (session_step s op) as [x s1] eqn:E. specialize (IH s1).
  assert (_policy s1 = _policy s) as P by (rewrite <-(session_policy s op); by rewrite E).
  rewrite P in IH. destruct (session s1 ops) as [xs s2]. simpl in *.
  rewrite !count_cons, IH. clear IH.
  assert (0 <= count (calls_of tool) ops) as Hc by (unfold count; lia).
  destruct op as [t args|]; simpl in E; injection E as <- <-.
  - unfold count_of in *. simpl. rewrite lookup_insert. unfold admitted. simpl.
    destruct (decide (t = tool)) as [->|N].
    + rewrite (bool_decide_eq_true_2 (tool = tool)) by done. simpl.
      destruct (Z.leb_spec (default 0 (_counts s !! tool) + 1) (cap_for (_policy s) tool)); simpl.
      * rewrite bool_decide_eq_true_2 by done. lia.
      * lia.
    + rewrite (bool_decide_eq_false_2 (t = tool)) by done. simpl.
      rewrite bool_decide_eq_false_2 by (case_match; congruence). lia.
  - unfold admitted, count_of. simpl. lia.
Qed.

(** The loop caps hold for every session.  From a fresh store, whatever
    tools are called in whatever order and with whatever arguments, the number
    of admitted calls of a tool is exactly the number of its calls cut at its
    cap; and a step is refused exactly when it is beyond the step budget. *)
Theorem tool_caps_enforced p ops tool :
  let '(xs, s) := session (new_store p) ops in
  count (admitted tool) xs = Z.max 0 (Z.min (count (calls_of tool) ops) (cap_for p tool)) /\
  (is_ok (record_step s).1 = true <-> _steps s < max_steps p).
Proof.
  pose proof (session_admitted ops (new_store p) tool) as A.
  assert (_policy (session (new_store p) ops).2 = p) as P.
  { change p with (_policy (new_store p)) at 2. generalize (new_store p).
    clear A. induction ops as [|op ops IH]; intros s; simpl; [done|].
    pose proof (session_policy s op) as E. destruct (session_step s op) as [x s1].
    specialize (IH s1). destruct (session s1 ops). simpl in *. congruence. }
  destruct (session (new_store p) ops) as [xs s]. simpl in *. split.
  - rewrite A. unfold count_of. simpl. rewrite lookup_empty. simpl. f_equal. f_equal. lia.
  - rewrite P. unfold raise_if. destruct (Z.ltb_spec (max_steps p) (_steps s + 1)); simpl;
      split; (done || lia).
Qed.

End ToolPolicy.

(** ** cancellation.py *)
Module Cancellation.

Record CancellationRegistry := { _cancelled : gmap string (string * Z) }.
Definition new_registry : CancellationRegistry := {| _cancelled := ∅ |}.

Definition cancel (r : CancellationRegistry) (run_id why : string) (now : Z) : CancellationRegistry :=
  {| _cancelled := <[run_id := (why, now)]> (_cancelled r) |}.

Definition is_cancelled (r : CancellationRegistry) (run_id : string) : bool :=
  bool_decide (is_Some (_cancelled r !! run_id)).

Definition reason (r : CancellationRegistry) (run_id : string) : option (string * Z) :=
  _cancelled r !! run_id.

Definition raise_if_cancelled (r : CancellationRegistry) (run_id : string) : result unit :=
  match reason r run_id with
  | Some (why, _) => Raise (Exn Cancelled why)
  | None => Ok tt
  end.

Definition cancel_all (r : CancellationRegistry) (calls : list (string * string * Z)) :=
  foldl (fun r c => cancel r c.1.1 c.1.2 c.2) r calls.

(** Cancellation is permanent and targeted.  After any sequence of
    cancellations a check raises exactly for the runs that were cancelled, with
    the reason of the last cancellation of that run; other runs go on. *)
Theorem cancellation_permanent calls run_id :
  raise_if_cancelled (cancel_all new_registry calls) run_id =
  match last (List.filter (fun c => bool_decide (c.1.1 = run_id)) calls) with
  | Some c => Raise (Exn Cancelled c.1.2)
  | None => Ok tt
  end.
Proof.
  assert (forall calls, reason (cancel_all new_registry calls) run_id =
    option_map (fun c : string * string * Z => (c.1.2, c.2))
      (last (List.filter (fun c => bool_decide (c.1.1 = run_id)) calls))) as R.
  { clear. intros calls. induction calls as [|c calls IH] using rev_ind; [done|].
    unfold cancel_all. rewrite foldl_app, List.filter_app, last_app. simpl.
    fold (cancel_all new_registry calls). unfold reason in *. simpl. rewrite lookup_insert.
    case_bool_decide; case_decide; simplify_eq; done. }
  unfold raise_if_cancelled. rewrite R. by destruct (last _) as [[[? ?] ?]|].
Qed.

End Cancellation.
