(* ===== verification/Observability.v ===== *)
(** * Health of the knowledge layer and the tool-call audit

    [knowledge_health.py] (the rolling counters of the fail-open retrieval
    layer, in memory and as a single SQL row), the retrieval of [knowledge.py]
    that records through it, and [tool_audit.py] (the audit rows, in memory and
    in SQL). *)
From S2P Require Import Prelude Sha256 Json Errors Text Idempotency.
Import Sha256 Json Errors Text.

(** ** knowledge_health.py *)
Module KnowledgeHealth.

Record KnowledgeHealth := {
  healthy : bool;
  attempt_count : Z;
  fallback_count : Z;
  consecutive_failures : Z;
  last_error : option string;
  last_attempt_at : option Z
}.

(** [KnowledgeHealthRecorder] *)
Class KnowledgeHealthRecorder (R : Type) := {
  record_success : R -> Z -> R;
  record_failure : R -> string -> Z -> R;
  snapshot : R -> KnowledgeHealth
}.

Record InMemoryKnowledgeHealthRecorder := {
  _threshold : Z;
  _attempt_count : Z;
  _fallback_count : Z;
  _consecutive_failures : Z;
  _last_error : option string;
  _last_attempt_at : option Z
}.

Definition new_memory_recorder (threshold : Z) : InMemoryKnowledgeHealthRecorder :=
  {| _threshold := threshold; _attempt_count := 0; _fallback_count := 0;
     _consecutive_failures := 0; _last_error := None; _last_attempt_at := None |}.

Definition mem_record_success (r : InMemoryKnowledgeHealthRecorder) (now : Z) :=
  {| _threshold := _threshold r; _attempt_count := _attempt_count r + 1;
     _fallback_count := _fallback_count r; _consecutive_failures := 0;
     _last_error := _last_error r; _last_attempt_at := Some now |}.

Definition mem_record_failure (r : InMemoryKnowledgeHealthRecorder) (reason : string) (now : Z) :=
  {| _threshold := _threshold r; _attempt_count := _attempt_count r + 1;
     _fallback_count := _fallback_count r + 1;
     _consecutive_failures := _consecutive_failures r + 1;
     _last_error := Some reason; _last_attempt_at := Some now |}.

Definition mem_snapshot (r : InMemoryKnowledgeHealthRecorder) : KnowledgeHealth :=
  {| healthy := _consecutive_failures r <? _threshold r; attempt_count := _attempt_count r;
     fallback_count := _fallback_count r; consecutive_failures := _consecutive_failures r;
     last_error := _last_error r; last_attempt_at := _last_attempt_at r |}.

#[export] Instance mem_recorder : KnowledgeHealthRecorder InMemoryKnowledgeHealthRecorder :=
  {| record_success := mem_record_success; record_failure := mem_record_failure;
     snapshot := mem_snapshot |}.

(** *** SqlKnowledgeHealthRecorder: the row [id = 1], once it exists *)
Record KnowledgeHealthRow := {
  k_attempt_count : Z;
  k_fallback_count : Z;
  k_consecutive_failures : Z;
  k_last_error : option string;
  k_last_attempt_at : option Z;
  k_updated_at : Z
}.

Record SqlKnowledgeHealthRecorder := { sql_threshold : Z; sql_row : option KnowledgeHealthRow }.

Definition new_sql_recorder (threshold : Z) : SqlKnowledgeHealthRecorder :=
  {| sql_threshold := threshold; sql_row := None |}.

(** [INSERT ... ON CONFLICT (id) DO UPDATE] *)
Definition upsert (r : SqlKnowledgeHealthRecorder) (fresh : KnowledgeHealthRow)
    (update : KnowledgeHealthRow -> KnowledgeHealthRow) : SqlKnowledgeHealthRecorder :=
  {| sql_threshold := sql_threshold r;
     sql_row := Some match sql_row r with None => fresh | Some row => update row end |}.

Definition sql_record_success (r : SqlKnowledgeHealthRecorder) (now : Z) :=
  upsert r
    {| k_attempt_count := 1; k_fallback_count := 0; k_consecutive_failures := 0;
       k_last_error := None; k_last_attempt_at := Some now; k_updated_at := now |}
    (fun row =>
       {| k_attempt_count := k_attempt_count row + 1; k_fallback_count := k_fallback_count row;
          k_consecutive_failures := 0; k_last_error := k_last_error row;
          k_last_attempt_at := Some now; k_updated_at := now |}).

Definition sql_record_failure (r : SqlKnowledgeHealthRecorder) (reason : string) (now : Z) :=
  upsert r
    {| k_attempt_count := 1; k_fallback_count := 1; k_consecutive_failures := 1;
       k_last_error := Some (prefix 512 reason); k_last_attempt_at := Some now;
       k_updated_at := now |}
    (fun row =>
       {| k_attempt_count := k_attempt_count row + 1; k_fallback_count := k_fallback_count row + 1;
          k_consecutive_failures := k_consecutive_failures row + 1;
          k_last_error := Some (prefix 512 reason); k_last_attempt_at := Some now;
          k_updated_at := now |}).

Definition sql_snapshot (r : SqlKnowledgeHealthRecorder) : KnowledgeHealth :=
  match sql_row r with
  | None => {| healthy := true; attempt_count := 0; fallback_count := 0;
               consecutive_failures := 0; last_error := None; last_attempt_at := None |}
  | Some row =>
      {| healthy := k_consecutive_failures row <? sql_threshold r;
         attempt_count := k_attempt_count row; fallback_count := k_fallback_count row;
         consecutive_failures := k_consecutive_failures row; last_error := k_last_error row;
         last_attempt_at := k_last_attempt_at row |}
  end.

#[export] Instance sql_recorder : KnowledgeHealthRecorder SqlKnowledgeHealthRecorder :=
  {| record_success := sql_record_success; record_failure := sql_record_failure;
     snapshot := sql_snapshot |}.

(** *** record_attempt *)

Fixpoint class_name (c : exn_class) : string :=
  match c with
  | BaseException => "BaseException" | ExceptionC => "Exception"
  | ArithmeticError => "ArithmeticError" | LookupError => "LookupError" | OSError => "OSError"
  | RuntimeError => "RuntimeError" | TypeError => "TypeError" | ValueError => "ValueError"
  | KeyError => "KeyError" | PermissionError => "PermissionError"
  | TimeoutError => "TimeoutError" | ConnectionError => "ConnectionError"
  | NotImplementedError => "NotImplementedError" | ActionConflict => "ActionConflict"
  | ActionForbidden => "ActionForbidden" | BalanceCheckFailed => "BalanceCheckFailed"
  | ConcurrentActionError => "ConcurrentActionError"
  | DispositionConflict => "DispositionConflict" | IdempotencyConflict => "IdempotencyConflict"
  | StepBudgetExceeded => "StepBudgetExceeded" | Cancelled => "Cancelled"
  | HTTPException => "HTTPException" | IntegrityError => "IntegrityError"
  | ValidationError => "ValidationError"
  | Subclass n _ => n
  end.

(** [str(exc)]; a [KeyError] shows the [repr] of its key. *)
Definition str_of (e : exn) : string :=
  match e with
  | Exn KeyError m => Idempotency.repr m
  | Exn _ m => m
  | HTTPError code (JStr d) => pretty code +:+ (": " +:+ d)
  | HTTPError code d => pretty code +:+ (": " +:+ dumps d)
  end.

Definition record_attempt {R A} `{KnowledgeHealthRecorder R} (recorder : R) (fn : result A)
    (now : Z) : result (option A) * R :=
  match fn with
  | Ok res => (Ok (Some res), record_success recorder now)
  | Raise exc =>
      if isinstance (class_of exc) ExceptionC then
        (Ok None, record_failure recorder (class_name (class_of exc) +:+ (": " +:+ str_of exc)) now)
      else (Raise exc, recorder)
  end.

(** [retrieve_knowledge]: [search] is what the client's search gives for the
    query, [mock] the deterministic knowledge. *)
Definition retrieve_knowledge {R} `{KnowledgeHealthRecorder R} (recorder : R)
    (search : result json) (mock : json) (now : Z) : result json * R :=
  let '(hits, recorder') := record_attempt recorder search now in
  (h <-? hits ;;
   Ok match h with Some j => if truthy j then j else mock | None => mock end, recorder').

(** ** Properties *)

Inductive attempt := Success (now : Z) | Failure (reason : string) (now : Z).

Definition apply_attempt {R} `{KnowledgeHealthRecorder R} (r : R) (a : attempt) : R :=
  match a with
  | Success now => record_success r now
  | Failure reason now => record_failure r reason now
  end.

Definition attempts {R} `{KnowledgeHealthRecorder R} (r : R) (l : list attempt) : R :=
  foldl apply_attempt r l.

(** A snapshot with its error text cut to the width of the column. *)
Definition truncated (h : KnowledgeHealth) : KnowledgeHealth :=
  {| healthy := healthy h; attempt_count := attempt_count h; fallback_count := fallback_count h;
     consecutive_failures := consecutive_failures h;
     last_error := option_map (prefix 512) (last_error h); last_attempt_at := last_attempt_at h |}.

(** The trailing run of failures. *)
Fixpoint failing (l : list attempt) : Z :=
  match l with Failure _ _ :: l => 1 + failing l | _ => 0 end.

Lemma mem_consecutive l t :
  consecutive_failures (snapshot (attempts (new_memory_recorder t) l)) = failing (rev l) /\
  _threshold (attempts (new_memory_recorder t) l) = t.
Proof.
  induction l as [|a l [IH1 IH2]] using rev_ind; [done|].
  unfold attempts in *. rewrite foldl_app, rev_app_distr. simpl in *.
  destruct a; simpl; rewrite ?IH1, ?IH2; split; try done. lia.
Qed.

(** The SQL health row implements the in-memory recorder -- after the same
    attempts both snapshots agree, the persisted error text being cut to 512
    characters -- and the layer is reported healthy exactly while fewer than
    [threshold] attempts have failed since the last success. *)
Theorem health_recorders_agree t (Ht : 0 < t) l :
  snapshot (attempts (new_sql_recorder t) l)
    = truncated (snapshot (attempts (new_memory_recorder t) l)) /\
  healthy (snapshot (attempts (new_memory_recorder t) l)) = (failing (rev l) <? t).
Proof.
  split.
  - assert (forall l, let m := attempts (new_memory_recorder t) l in
      let s := attempts (new_sql_recorder t) l in
      _threshold m = t /\ sql_threshold s = t /\
      match sql_row s with
      | None => l = []
      | Some row => k_attempt_count row = _attempt_count m /\
          k_fallback_count row = _fallback_count m /\
          k_consecutive_failures row = _consecutive_failures m /\
          k_last_error row = option_map (prefix 512) (_last_error m) /\
          k_last_attempt_at row = _last_attempt_at m
      end) as I.
    { clear l. intros l. induction l as [|a l IH] using rev_ind; [by split_and!|].
      unfold attempts in *. rewrite !foldl_app. cbn [foldl]. cbv zeta in *.
      set (m := foldl _ (new_memory_recorder t) l) in *.
      set (s := foldl _ (new_sql_recorder t) l) in *.
      destruct IH as (I1&I2&I3).
      destruct a; simpl; (split; [done|]; split; [done|]);
        (destruct (sql_row s) as [row|]; [destruct I3 as (E1&E2&E3&E4&E5); rewrite ?E1, ?E2, ?E3, ?E4, ?E5; by split_and!|]);
        unfold m; rewrite I3; by split_and!. }
    specialize (I l). cbv zeta in I. destruct I as (I1&I2&I3).
    simpl. unfold sql_snapshot, truncated, mem_snapshot. simpl.
    destruct (sql_row _) as [row|]; [destruct I3 as (->&->&->&->&->); by rewrite I1, I2|].
    subst l. simpl. by apply Z.ltb_lt in Ht as ->.
  - destruct (mem_consecutive l t) as [E1 E2]. simpl in *. by rewrite E1, E2.
Qed.

Lemma health_recorders_agree_witness :
  let l := [Failure "TimeoutError: a" 1; Success 2; Failure "b" 3; Failure "c" 4; Failure "d" 5] in
  healthy (snapshot (attempts (new_memory_recorder 3) l)) = false /\
  snapshot (attempts (new_sql_recorder 3) l) = truncated (snapshot (attempts (new_memory_recorder 3) l)).
Proof.
  intros l. destruct (health_recorders_agree 3 eq_refl l) as [H1 H2].
  split; [rewrite H2; reflexivity|exact H1].
Defined.

(** Retrieval fails open and visibly.  Whatever the knowledge client does
    -- answers, answers nothing, or raises any [Exception] -- retrieval
    returns a result, the client's hits when it has some and the deterministic
    policy text otherwise; and exactly the failures count as fallbacks. *)
Theorem retrieval_fails_open {R} `{KnowledgeHealthRecorder R} (r : R) search mock now
    (Hs : forall e, search = Raise e -> isinstance (class_of e) ExceptionC = true) :
  let '(res, r') := retrieve_knowledge r search mock now in
  match search with
  | Ok j => res = Ok (if truthy j then j else mock) /\ r' = record_success r now
  | Raise e => res = Ok mock /\ exists why, r' = record_failure r why now
  end.
Proof.
  unfold retrieve_knowledge, record_attempt. destruct search as [j|e]; [done|].
  rewrite (Hs e eq_refl). simpl. eauto.
Qed.

Lemma retrieval_fails_open_witness :
  let r := new_memory_recorder 3 in
  (retrieve_knowledge r (Raise (Exn TimeoutError "slow")) (JStr "mock") 7).1 = Ok (JStr "mock") /\
  fallback_count (snapshot (retrieve_knowledge r (Raise (Exn TimeoutError "slow")) (JStr "mock") 7).2) = 1.
Proof.
  intros r. pose proof (retrieval_fails_open r (Raise (Exn TimeoutError "slow")) (JStr "mock") 7) as H.
  destruct (retrieve_knowledge _ _ _ _) as [res r'] eqn:E.
  destruct H as [H1 [why H2]]; [by intros e [= <-]|].
  split; [exact H1|]. rewrite H2. reflexivity.
Defined.

End KnowledgeHealth.

(** ** tool_audit.py *)
Module ToolAudit.

Definition fingerprint_params (params : dict) : string := fingerprint params.

Inductive AuditDecision := ALLOW | DENY.
Definition decision_value (d : AuditDecision) : string :=
  match d with ALLOW => "allow" | DENY => "deny" end.
(** [AuditDecision(value)] *)
Definition decision_of_value (s : string) : result AuditDecision :=
  if (s =? "allow")%string then Ok ALLOW else if (s =? "deny")%string then Ok DENY
  else Raise (Exn ValueError (s +:+ " is not a valid AuditDecision")).

Record ToolCallAudit := {
  au_case_id : string;
  au_actor : string;
  au_user_role : string;
  au_tool_name : string;
  au_params_hash : string;
  au_decision : AuditDecision;
  au_reason_code : option string;
  au_latency_ms : Z;
  au_recorded_at : Z;
  au_metadata : dict
}.

(** [InMemoryToolCallAuditor]: the list of records. *)
Definition mem_record (l : list ToolCallAudit) (a : ToolCallAudit) : list ToolCallAudit := l ++ [a].
Definition mem_list_for_case (l : list ToolCallAudit) (case_id : string) : list ToolCallAudit :=
  List.filter (fun a => (au_case_id a =? case_id)%string) l.

(** [ToolCallAuditRow], the decision as its text. *)
Record ToolCallAuditRow := {
  tr_id : Z; tr_case_id : string; tr_actor : string; tr_user_role : string;
  tr_tool_name : string; tr_params_hash : string; tr_decision : string;
  tr_reason_code : option string; tr_latency_ms : Z; tr_recorded_at : Z; tr_metadata : dict
}.

Record SqlToolCallAuditor := { tr_rows : list ToolCallAuditRow; tr_next_id : Z }.

Definition sql_record (s : SqlToolCallAuditor) (a : ToolCallAudit) : SqlToolCallAuditor :=
  {| tr_rows := tr_rows s ++
       [{| tr_id := tr_next_id s; tr_case_id := au_case_id a; tr_actor := au_actor a;
           tr_user_role := au_user_role a; tr_tool_name := au_tool_name a;
           tr_params_hash := au_params_hash a; tr_decision := decision_value (au_decision a);
           tr_reason_code := au_reason_code a; tr_latency_ms := au_latency_ms a;
           tr_recorded_at := au_recorded_at a; tr_metadata := au_metadata a |}];
     tr_next_id := tr_next_id s + 1 |}.

Definition row_le (a b : ToolCallAuditRow) : bool :=
  if tr_recorded_at a =? tr_recorded_at b then tr_id a <=? tr_id b
  else tr_recorded_at a <? tr_recorded_at b.

Definition audit_of_row (r : ToolCallAuditRow) : result ToolCallAudit :=
  d <-? decision_of_value (tr_decision r) ;;
  Ok {| au_case_id := tr_case_id r; au_actor := tr_actor r; au_user_role := tr_user_role r;
        au_tool_name := tr_tool_name r; au_params_hash := tr_params_hash r; au_decision := d;
        au_reason_code := tr_reason_code r; au_latency_ms := tr_latency_ms r;
        au_recorded_at := tr_recorded_at r; au_metadata := tr_metadata r |}.

Fixpoint map_result {A B} (f : A -> result B) (l : list A) : result (list B) :=
  match l with
  | [] => Ok []
  | x :: l => y <-? f x ;; ys <-? map_result f l ;; Ok (y :: ys)
  end.

Definition sql_list_for_case (s : SqlToolCallAuditor) (case_id : string)
  : result (list ToolCallAudit) :=
  map_result audit_of_row
    (stable_sort row_le (List.filter (fun r => (tr_case_id r =? case_id)%string) (tr_rows s))).

(** ** Properties *)

Definition row_of (n : Z) (a : ToolCallAudit) : ToolCallAuditRow :=
  {| tr_id := n; tr_case_id := au_case_id a; tr_actor := au_actor a;
     tr_user_role := au_user_role a; tr_tool_name := au_tool_name a;
     tr_params_hash := au_params_hash a; tr_decision := decision_value (au_decision a);
     tr_reason_code := au_reason_code a; tr_latency_ms := au_latency_ms a;
     tr_recorded_at := au_recorded_at a; tr_metadata := au_metadata a |}.

Fixpoint rows_from (n : Z) (l : list ToolCallAudit) : list ToolCallAuditRow :=
  match l with [] => [] | a :: l => row_of n a :: rows_from (n + 1) l end.

Lemma sql_rows l s : tr_rows (foldl sql_record s l) = tr_rows s ++ rows_from (tr_next_id s) l.
Proof.
  revert s. induction l as [|a l IH]; intros s; simpl; [by rewrite app_nil_r|].
  rewrite IH. simpl. by rewrite <-app_assoc.
Qed.

Lemma rows_from_bounds l n t :
  Forall (fun a => t <= au_recorded_at a) l ->
  Forall (fun r => t <= tr_recorded_at r /\ n <= tr_id r) (rows_from n l).
Proof.
  intros F. revert n. induction F as [|a l T _ IH]; intros n; simpl; [constructor|].
  constructor; [simpl; lia|]. eapply Forall_impl; [apply (IH (n + 1))|]. simpl. lia.
Qed.

Lemma rows_from_sorted l n :
  StronglySorted (fun a b => au_recorded_at a <= au_recorded_at b) l ->
  StronglySorted (fun a b => row_le a b = true) (rows_from n l).
Proof.
  intros S. revert n. induction S as [|a l _ IH F]; intros n; simpl; [constructor|].
  constructor; [done|]. eapply Forall_impl; [apply (rows_from_bounds l (n + 1) _ F)|].
  intros r [H1 H2]. unfold row_le. simpl.
  destruct (Z.eqb_spec (au_recorded_at a) (tr_recorded_at r)); [apply Z.leb_le|apply Z.ltb_lt]; lia.
Qed.

Lemma rows_from_read l n case_id :
  map_result audit_of_row
    (List.filter (fun r => (tr_case_id r =? case_id)%string) (rows_from n l))
  = Ok (mem_list_for_case l case_id).
Proof.
  revert n. induction l as [|a l IH]; intros n; simpl; [done|].
  destruct (au_case_id a =? case_id)%string; [|apply IH]. cbn [map_result].
  assert (audit_of_row (row_of n a) = Ok a) as -> by (by destruct a as [? ? ? ? ? []]).
  simpl. by rewrite IH.
Qed.

(** The SQL auditor implements the in-memory one: with a clock that never
    goes back, the rows read for a case, ordered by time and id, are exactly
    the audits recorded for it, in the order they were recorded, with every
    field as it was. *)
Theorem sql_auditor_refines_memory l case_id
    (Hclock : StronglySorted (fun a b => au_recorded_at a <= au_recorded_at b) l) :
  sql_list_for_case (foldl sql_record {| tr_rows := []; tr_next_id := 1 |} l) case_id
  = Ok (mem_list_for_case (foldl mem_record [] l) case_id).
Proof.
  assert (forall l acc, foldl mem_record acc l = acc ++ l) as M.
  { clear. induction l as [|a l IH]; intros acc; simpl; [by rewrite app_nil_r|].
    rewrite IH. unfold mem_record. by rewrite <-app_assoc. }
  rewrite M. simpl. unfold sql_list_for_case. rewrite sql_rows. simpl.
  rewrite stable_sort_id by (by apply StronglySorted_filter, rows_from_sorted).
  apply rows_from_read.
Qed.

Definition demo_audit (case_id : string) (d : AuditDecision) (t : Z) : ToolCallAudit :=
  {| au_case_id := case_id; au_actor := "u"; au_user_role := "user"; au_tool_name := "execute_approved_action";
     au_params_hash := ""; au_decision := d; au_reason_code := None; au_latency_ms := 1;
     au_recorded_at := t; au_metadata := [] |}.

Lemma sql_auditor_refines_memory_witness :
  sql_list_for_case (foldl sql_record {| tr_rows := []; tr_next_id := 1 |}
    [demo_audit "c1" DENY 5; demo_audit "c2" ALLOW 5; demo_audit "c1" ALLOW 5]) "c1"
  = Ok [demo_audit "c1" DENY 5; demo_audit "c1" ALLOW 5].
Proof.
  apply (sql_auditor_refines_memory
    [demo_audit "c1" DENY 5; demo_audit "c2" ALLOW 5; demo_audit "c1" ALLOW 5] "c1").
  repeat constructor; simpl; lia.
Defined.

End ToolAudit.
