(* ===== verification/Tables.v ===== *)
(** * The after-sales tables

    [persistence/after_sales/model.py]: the rows of [service_cases],
    [action_requests] and [case_events], their constraints, and the SQL
    statements the repository issues, each an atomic function on the committed
    state.  An [action_requests] row holds the fields of an [ActionRequest]
    (built from [action.model_dump()], read back by
    [ActionRequest.model_validate]), so the table is a list of them. *)
From S2P Require Import Prelude Sha256 Json Errors Schemas Ledger Actions.
Import Json Errors Schemas Actions.

Module Tables.

Record ServiceCaseRow := {
  c_id : string;
  c_user_id : string;
  c_thread_id : option string;
  c_order_id : option string;
  c_issue_type : option string;
  c_status : string;
  c_complaint_text : string;
  c_customer_expectation : option string;
  c_next_step : string;
  c_reply_draft : string;
  c_evidence_json : dict;
  c_decision_json : dict;
  c_version : Z;
  c_created_at : Z;
  c_updated_at : Z
}.

Record CaseEventRow := {
  ev_id : string;
  ev_case_id : string;
  ev_event_type : string;
  ev_actor : string;
  ev_run_id : option string;
  ev_trace_id : option string;
  ev_metadata : dict;
  ev_prev_hash : string;
  ev_event_hash : string;
  ev_created_at : Z;
  ev_seq : Z
}.

Record Db := {
  cases : list ServiceCaseRow;
  actions : list ActionRequest;
  events : list CaseEventRow
}.

Definition empty_db : Db := {| cases := []; actions := []; events := [] |}.

Definition with_cases (d : Db) (l : list ServiceCaseRow) : Db :=
  {| cases := l; actions := actions d; events := events d |}.
Definition with_actions (d : Db) (l : list ActionRequest) : Db :=
  {| cases := cases d; actions := l; events := events d |}.
Definition with_events (d : Db) (l : list CaseEventRow) : Db :=
  {| cases := cases d; actions := actions d; events := l |}.

(** ** Constraints *)

(** [status IN ('pending_approval', 'approved')] *)
Definition active (a : ActionRequest) : bool :=
  bool_decide (status a = PENDING_APPROVAL) || bool_decide (status a = APPROVED).

(** The primary key, the unique idempotency key, and the partial unique index
    [uq_action_one_active_per_case]. *)
Definition actions_ok (l : list ActionRequest) : bool :=
  bool_decide (NoDup (map act_id l)) && bool_decide (NoDup (map idempotency_key l)) &&
  bool_decide (NoDup (map act_case_id (List.filter active l))).

(** The primary key and [uq_case_events_case_id_seq]. *)
Definition events_ok (l : list CaseEventRow) : bool :=
  bool_decide (NoDup (map ev_id l)) &&
  bool_decide (NoDup (map (fun e => (ev_case_id e, ev_seq e)) l)).

Definition cases_ok (l : list ServiceCaseRow) : bool := bool_decide (NoDup (map c_id l)).

Definition case_exists (d : Db) (case_id : string) : bool :=
  existsb (fun c => (c_id c =? case_id)%string) (cases d).

Definition integrity_error : exn := Exn IntegrityError "constraint failed".

(** ** Statements

    A statement that breaks a constraint raises [IntegrityError] and leaves
    the committed state alone. *)

Definition insert_case (row : ServiceCaseRow) (d : Db) : result unit * Db :=
  let l := cases d ++ [row] in
  if cases_ok l then (Ok tt, with_cases d l) else (Raise integrity_error, d).

Definition insert_action (row : ActionRequest) (d : Db) : result unit * Db :=
  let l := actions d ++ [row] in
  if actions_ok l && case_exists d (act_case_id row) then (Ok tt, with_actions d l)
  else (Raise integrity_error, d).

Definition insert_event (row : CaseEventRow) (d : Db) : result unit * Db :=
  let l := events d ++ [row] in
  if events_ok l && case_exists d (ev_case_id row) then (Ok tt, with_events d l)
  else (Raise integrity_error, d).

(** [UPDATE ... WHERE]: the number of matched rows. *)
Definition update_cases (cond : ServiceCaseRow -> bool) (upd : ServiceCaseRow -> ServiceCaseRow)
    (d : Db) : result Z * Db :=
  let l := map_where cond upd (cases d) in
  if cases_ok l then (Ok (Z.of_nat (length (List.filter cond (cases d)))), with_cases d l)
  else (Raise integrity_error, d).

Definition update_actions (cond : ActionRequest -> bool) (upd : ActionRequest -> ActionRequest)
    (d : Db) : result Z * Db :=
  let l := map_where cond upd (actions d) in
  if actions_ok l then (Ok (Z.of_nat (length (List.filter cond (actions d)))), with_actions d l)
  else (Raise integrity_error, d).

(** [SELECT ... WHERE id = ?] *)
Definition select_case (d : Db) (case_id : string) : option ServiceCaseRow :=
  List.find (fun c => (c_id c =? case_id)%string) (cases d).
Definition select_action (d : Db) (action_id : string) : option ActionRequest :=
  List.find (fun a => (act_id a =? action_id)%string) (actions d).

Definition owned (user_id : option string) (c : ServiceCaseRow) : bool :=
  match user_id with Some u => (c_user_id c =? u)%string | None => true end.

Definition case_owner (d : Db) (case_id : string) (user_id : option string) : bool :=
  match select_case d case_id with Some c => owned user_id c | None => false end.

(** The events of a case in order of [seq]. *)
Definition seq_le (a b : CaseEventRow) : bool := ev_seq a <=? ev_seq b.
Definition chain_of (d : Db) (case_id : string) : list CaseEventRow :=
  stable_sort seq_le (List.filter (fun e => (ev_case_id e =? case_id)%string) (events d)).

(** ** The invariant of the tables *)

Definition db_ok (d : Db) : Prop :=
  cases_ok (cases d) = true /\ actions_ok (actions d) = true /\ events_ok (events d) = true.

Lemma db_ok_empty : db_ok empty_db.
Proof. by split_and!. Qed.

Lemma insert_case_ok row d : db_ok d -> db_ok (insert_case row d).2.
Proof. intros (?&?&?). unfold insert_case. case_match; by split_and!. Qed.
Lemma insert_action_ok row d : db_ok d -> db_ok (insert_action row d).2.
Proof. intros (?&?&?). unfold insert_action. case_match; bprop; by split_and!. Qed.
Lemma insert_event_ok row d : db_ok d -> db_ok (insert_event row d).2.
Proof. intros (?&?&?). unfold insert_event. case_match; bprop; by split_and!. Qed.
Lemma update_cases_ok f g d : db_ok d -> db_ok (update_cases f g d).2.
Proof. intros (?&?&?). unfold update_cases. case_match; by split_and!. Qed.
Lemma update_actions_ok f g d : db_ok d -> db_ok (update_actions f g d).2.
Proof. intros (?&?&?). unfold update_actions. case_match; by split_and!. Qed.

Lemma db_ok_parts d :
  db_ok d ->
  NoDup (map c_id (cases d)) /\ NoDup (map act_id (actions d)) /\
  NoDup (map idempotency_key (actions d)) /\
  NoDup (map act_case_id (List.filter active (actions d))) /\
  NoDup (map ev_id (events d)) /\ NoDup (map (fun e => (ev_case_id e, ev_seq e)) (events d)).
Proof. intros (H1&H2&H3). unfold cases_ok, actions_ok, events_ok in *. bprop. by split_and!. Qed.

Lemma select_action_some d id a :
  select_action d id = Some a -> a ∈ actions d /\ act_id a = id.
Proof. intros [H1 H2]%find_some_elem. by bprop. Qed.

Lemma select_case_some d id c : select_case d id = Some c -> c ∈ cases d /\ c_id c = id.
Proof. intros [H1 H2]%find_some_elem. by bprop. Qed.

(** A row found by its primary key is the only one. *)
Lemma find_unique {A} (key : A -> string) (l : list A) x :
  NoDup (map key l) -> x ∈ l -> List.find (fun y => (key y =? key x)%string) l = Some x.
Proof.
  induction l as [|y l IH]; simpl; [by intros _ ?%not_elem_of_nil|].
  intros [N1 N2]%NoDup_cons Hx. destruct (String.eqb_spec (key y) (key x)) as [E|E].
  - apply elem_of_cons in Hx as [->|Hx]; [done|]. destruct N1. rewrite E.
    apply list_elem_of_fmap. by exists x.
  - apply elem_of_cons in Hx as [->|Hx]; [done|auto].
Qed.

Lemma select_action_elem d a :
  db_ok d -> a ∈ actions d -> select_action d (act_id a) = Some a.
Proof. intros H%db_ok_parts Ha. apply (find_unique act_id); [apply H|done]. Qed.

Lemma select_case_elem d c : db_ok d -> c ∈ cases d -> select_case d (c_id c) = Some c.
Proof. intros H%db_ok_parts Hc. apply (find_unique c_id); [apply H|done]. Qed.

End Tables.
