(* ===== verification/Delegations.v ===== *)
(** * Subagent results and the ledger of delegations

    [deerflow/subagents/status_contract.py]: the metadata a subagent's result
    carries and how it is read back; [agents/middlewares/delegation_ledger.py]:
    the ledger captured from a conversation and its rendering under a budget of
    characters; and [merge_delegations] of [agents/thread_state.py], the reducer
    that keeps the ledger of a thread. *)
From S2P Require Import Prelude Sha256 Json Errors Text Slices.
Import Sha256 Json Errors Slices.

Module SubagentStatus.

Definition SUBAGENT_METADATA_TEXT_MAX_CHARS : Z := 2000.

Definition SUBAGENT_STATUS_VALUES : list string :=
  ["completed"; "failed"; "cancelled"; "timed_out"; "polling_timed_out"].
Definition SUBAGENT_STOP_REASON_VALUES : list string := ["token_capped"; "turn_capped"; "loop_capped"].

Definition _STOP_REASON_LABELS (reason : string) : option string :=
  match reason with
  | "token_capped" => Some "token budget"
  | "turn_capped" => Some "turn budget"
  | "loop_capped" => Some "repeated tool-call loop"
  | _ => None
  end.

Definition _LEGACY_STATUS_NORMALIZATION (status : string) : option string :=
  if (status =? "max_turns_reached")%string then Some "turn_capped" else None.

Definition _bound_metadata_text (text : string) : string :=
  ellipsize SUBAGENT_METADATA_TEXT_MAX_CHARS (Text.strip text).

(** [isinstance(t, str) and t.strip()] *)
Definition filled (t : option string) : option string :=
  match t with
  | Some s => if (Text.strip s =? "")%string then None else Some s
  | None => None
  end.

Definition text_at (k : string) (d : dict) : option string :=
  match get k d with Some (JStr s) => Some s | _ => None end.

Definition entry_if {A} (k : string) (f : A -> string) (o : option A) : dict :=
  match o with Some a => [(k, JStr (f a))] | None => [] end.

Definition when {A} (b : bool) (o : option A) : option A := if b then o else None.

Definition make_subagent_additional_kwargs (status : string) (result error stop_reason : option string)
  : Errors.result dict :=
  ensure raise_if (negb (bool_decide (status ∈ SUBAGENT_STATUS_VALUES)))
           (Exn ValueError ("invalid subagent status " +:+ status)) ;;
  ensure raise_if (match stop_reason with
                   | Some r => negb (bool_decide (r ∈ SUBAGENT_STOP_REASON_VALUES)) | None => false
                   end)
           (Exn ValueError ("invalid subagent stop_reason " +:+ default "" stop_reason)) ;;
  let completed := (status =? "completed")%string in
  Ok ([("subagent_status", JStr status)]
      ++ entry_if "subagent_result_brief" _bound_metadata_text (when completed (filled result))
      ++ entry_if "subagent_result_sha256" sha256 (when completed (filled result))
      ++ entry_if "subagent_error" _bound_metadata_text (when (negb completed) (filled error))
      ++ entry_if "subagent_stop_reason" id stop_reason).

(** The text the model sees, and the normalized error. *)
Definition format_subagent_result_message (status : string) (result error stop_reason : option string)
  : string * option string :=
  let error_text := match error with Some e => Text.strip e | None => "" end in
  let detail_or text := if (error_text =? "")%string then text else error_text in
  let with_error text :=
    let detail := detail_or (text +:+ ".") in
    if (detail =? text +:+ ".")%string then (detail, Some detail)
    else (text +:+ ". Error: " +:+ detail, Some detail) in
  let capped := match stop_reason with Some r => _STOP_REASON_LABELS r | None => None end in
  if (status =? "completed")%string then
    match capped with
    | Some label => ("Task Succeeded (capped: " +:+ label +:+ "). Result: " +:+ default "" result, None)
    | None => ("Task Succeeded. Result: " +:+ default "" result, None)
    end
  else if (status =? "cancelled")%string then with_error "Task cancelled by user"
  else if (status =? "timed_out")%string then with_error "Task timed out"
  else if (status =? "polling_timed_out")%string then
    let detail := detail_or "Task polling timed out." in (detail, Some detail)
  else
    match capped with
    | Some label =>
        let detail := detail_or "Task failed." in
        if (detail =? "Task failed.")%string then ("Task failed (capped: " +:+ label +:+ ").", Some detail)
        else ("Task failed (capped: " +:+ label +:+ "). Error: " +:+ detail, Some detail)
    | None => with_error "Task failed"
    end.

Record StructuredSubagentResult := {
  sr_status : string;
  sr_stop_reason : option string;
  sr_result_brief : option string;
  sr_result_sha256 : option string;
  sr_error : option string
}.

(** [_SHA256_HEX_RE.fullmatch] *)
Definition hex_char (c : ascii) : bool :=
  let n := N_of_ascii c in (((48 <=? n) && (n <=? 57)) || ((97 <=? n) && (n <=? 102)))%N.
Definition sha256_hex (s : string) : bool := all_chars hex_char s && (String.length s =? 64)%nat.

(** The status on the wire, and the stop reason a legacy one stands for. *)
Definition wire_status (kwargs : dict) : option (string * option string) :=
  match text_at "subagent_status" kwargs with
  | None => None
  | Some raw =>
      match _LEGACY_STATUS_NORMALIZATION raw with
      | Some reason =>
          Some (match filled (text_at "subagent_result_brief" kwargs) with
                | Some _ => "completed" | None => "failed"
                end, Some reason)
      | None => if bool_decide (raw ∈ SUBAGENT_STATUS_VALUES) then Some (raw, None) else None
      end
  end.

(** An absent and an empty [additional_kwargs] both carry nothing. *)
Definition read_subagent_result_metadata (kwargs : dict) : option StructuredSubagentResult :=
  match wire_status kwargs with
  | None => None
  | Some (status, legacy) =>
      let completed := (status =? "completed")%string in
      let result := when completed (filled (text_at "subagent_result_brief" kwargs)) in
      let hash := match result with
                  | Some _ => match text_at "subagent_result_sha256" kwargs with
                              | Some h => if sha256_hex h then Some h else None | None => None
                              end
                  | None => None
                  end in
      let error := when (negb completed) (filled (text_at "subagent_error" kwargs)) in
      let stop_reason := match text_at "subagent_stop_reason" kwargs with
                         | Some r => if bool_decide (r ∈ SUBAGENT_STOP_REASON_VALUES) then Some r else legacy
                         | None => legacy
                         end in
      Some {| sr_status := status; sr_stop_reason := stop_reason;
              sr_result_brief := option_map _bound_metadata_text result; sr_result_sha256 := hash;
              sr_error := option_map _bound_metadata_text error |}
  end.

(** ** What is written is what is read *)

Lemma bound_trimmed s : trimmed (Text.chars (_bound_metadata_text s)).
Proof. apply ellipsize_trimmed; [done|apply trimmed_strip]. Qed.

Lemma bound_idem s : _bound_metadata_text (_bound_metadata_text s) = _bound_metadata_text s.
Proof.
  unfold _bound_metadata_text at 1. rewrite strip_trimmed by apply bound_trimmed.
  unfold ellipsize at 1. unfold _bound_metadata_text. rewrite len_ellipsize by done.
  destruct (Z.leb_spec (Z.min SUBAGENT_METADATA_TEXT_MAX_CHARS (Text.len (Text.strip s)))
              SUBAGENT_METADATA_TEXT_MAX_CHARS); [done|lia].
Qed.

Lemma len_nil s : Text.len s = 0 -> s = "".
Proof.
  intros H. rewrite <-(Text.text_of_chars s). unfold Text.len in H. by destruct (Text.chars s).
Qed.

Lemma bound_filled s : filled (Some s) = Some s ->
  filled (Some (_bound_metadata_text s)) = Some (_bound_metadata_text s).
Proof.
  simpl. rewrite (strip_trimmed (_bound_metadata_text s)) by apply bound_trimmed.
  destruct (String.eqb_spec (Text.strip s) ""); [done|]. intros _.
  destruct (String.eqb_spec (_bound_metadata_text s) "") as [E|]; [|done].
  apply (f_equal Text.len) in E. unfold _bound_metadata_text in E. rewrite len_ellipsize in E by done.
  change (Text.len "") with 0 in E. unfold SUBAGENT_METADATA_TEXT_MAX_CHARS in E.
  pose proof (len_nonneg (Text.strip s)). destruct n. apply len_nil. lia.
Qed.

Lemma filled_cases o : filled o = None \/ exists s, o = Some s /\ filled o = Some s.
Proof. destruct o as [s|]; simpl; [|by left]. destruct (Text.strip s =? "")%string; [by left|eauto]. Qed.

(** A digest is 64 lower-case hexadecimal digits. *)
Lemma hex32_shape w s :
  all_chars hex_char (hex32 w +:+ s) = all_chars hex_char s /\
  String.length (hex32 w +:+ s) = (8 + String.length s)%nat.
Proof.
  assert (forall x, hex_char (hex_digit (Z.land x 15)) = true) as H.
  { intros x. change 15 with (Z.ones 4). rewrite Z.land_ones by lia.
    pose proof (Z.mod_pos_bound x (2 ^ 4) ltac:(lia)) as B. revert B. generalize (x mod 2 ^ 4) as d. intros d B.
    assert (d = 0 \/ d = 1 \/ d = 2 \/ d = 3 \/ d = 4 \/ d = 5 \/ d = 6 \/ d = 7 \/ d = 8 \/ d = 9 \/
            d = 10 \/ d = 11 \/ d = 12 \/ d = 13 \/ d = 14 \/ d = 15) as E by lia.
    by repeat destruct E as [->|E]; [..|subst]. }
  unfold hex32. cbn [foldr]. rewrite !sapp_cons, sapp_nil. cbn [all_chars String.length].
  by rewrite !H.
Qed.

Lemma length_round st kw : length (round st kw) = length st.
Proof. unfold round. by do 9 (destruct st as [|? st]; [done|]). Qed.

Lemma length_compress st block : length (compress st block) = length st.
Proof.
  unfold compress. rewrite length_zip_with.
  assert (forall l st, length (foldl round st l) = length st) as ->; [|lia].
  induction l as [|x l IH]; intros st'; simpl; [done|]. by rewrite IH, length_round.
Qed.

Lemma length_blocks fuel ws st : length (blocks fuel ws st) = length st.
Proof.
  revert ws st. induction fuel as [|fuel IH]; intros [|w ws] st; simpl; try done.
  by rewrite IH, length_compress.
Qed.

Lemma sha256_shape s : sha256_hex (sha256 s) = true.
Proof.
  unfold sha256_hex, sha256. set (ws := words _).
  assert (forall l, all_chars hex_char (foldr (fun w acc => hex32 w +:+ acc) "" l) = true /\
    String.length (foldr (fun w acc => hex32 w +:+ acc) "" l) = (8 * length l)%nat) as H.
  { induction l as [|w l [IH1 IH2]]; [done|]. cbn [foldr].
    destruct (hex32_shape w (foldr (fun w acc => hex32 w +:+ acc) "" l)) as [-> ->].
    rewrite IH1, IH2. split; [done|]. simpl. lia. }
  destruct (H (blocks (length ws) ws initial_hash)) as [-> ->]. by rewrite length_blocks.
Qed.

(** What the reader should find of a result that was written. *)
Definition written (status : string) (result error stop_reason : option string)
  : StructuredSubagentResult :=
  let completed := (status =? "completed")%string in
  let result := when completed (filled result) in
  {| sr_status := status; sr_stop_reason := stop_reason;
     sr_result_brief := option_map _bound_metadata_text result;
     sr_result_sha256 := option_map sha256 result;
     sr_error := option_map _bound_metadata_text (when (negb completed) (filled error)) |}.

Lemma read_written status result error stop_reason kwargs :
  make_subagent_additional_kwargs status result error stop_reason = Ok kwargs ->
  read_subagent_result_metadata kwargs = Some (written status result error stop_reason).
Proof.
  unfold make_subagent_additional_kwargs. autorewrite with afterflow.
  destruct (bool_decide (status ∈ _)) eqn:S1; [|done]. simpl.
  destruct (match stop_reason with Some _ => _ | None => false end) eqn:S2; [done|].
  intros [= <-]. unfold read_subagent_result_metadata, wire_status. cbn -[_bound_metadata_text filled].
  assert (_LEGACY_STATUS_NORMALIZATION status = None) as ->.
  { apply bool_decide_eq_true in S1. unfold _LEGACY_STATUS_NORMALIZATION.
    by destruct (String.eqb_spec status "max_turns_reached") as [->|]; [set_solver|]. }
  rewrite S1. unfold written.
  destruct (status =? "completed")%string; cbn -[_bound_metadata_text filled].
  - destruct (filled_cases result) as [->|(s&->&F)].
    + destruct stop_reason as [r|]; cbn; [|done]. apply negb_false_iff in S2. by rewrite S2.
    + rewrite F. cbn -[_bound_metadata_text filled sha256].
      rewrite bound_filled by done. rewrite sha256_shape. cbn -[_bound_metadata_text sha256].
      rewrite bound_idem.
      destruct stop_reason as [r|]; cbn -[_bound_metadata_text sha256]; [|done]. apply negb_false_iff in S2.
      by rewrite S2.
  - destruct (filled_cases error) as [->|(s&->&F)].
    + destruct stop_reason as [r|]; cbn; [|done]. apply negb_false_iff in S2. by rewrite S2.
    + rewrite F. cbn -[_bound_metadata_text filled].
      rewrite bound_filled by done. cbn -[_bound_metadata_text]. rewrite bound_idem.
      destruct stop_reason as [r|]; cbn -[_bound_metadata_text]; [|done]. apply negb_false_iff in S2.
      by rewrite S2.
Qed.
End SubagentStatus.

(** [str(value)]: the text itself for a text; the representation of other
    values is left open. *)
Class PyStr := { py_str : json -> string; py_str_text : forall s, py_str (JStr s) = s }.

Module Delegations.
Import SubagentStatus.

Definition _RESULT_BRIEF_CAP : Z := 2000.
Definition _DESCRIPTION_CAP : Z := 200.
Definition _LEDGER_RENDER_CHAR_BUDGET : Z := 6000.
Definition _LEDGER_ENTRY_RESULT_RENDER_CAP : Z := 120.
Definition _DELEGATION_LEDGER_MAX_ENTRIES : nat := 50.

Definition _STATUS_ONLY_RESULT_BRIEFS (status : string) : option string :=
  match status with
  | "failed" => Some "Task failed."
  | "cancelled" => Some "Task cancelled by user."
  | "timed_out" => Some "Task timed out."
  | "polling_timed_out" => Some "Task polling timed out."
  | _ => None
  end.

Record DelegationEntry := {
  de_id : string;
  de_description : string;
  de_subagent_type : string;
  de_status : string;
  de_result_brief : option string;
  de_result_sha256 : option string;
  de_result_ref : option string;
  de_stop_reason : option string;
  de_created_at : option string
}.

(** ** Capture *)
Section capture.
Context `{PyStr}.

(** What the ledger reads of a tool call and of a message. *)
Record ToolCall := {
tc_name : option string;
tc_function_name : option string;
tc_id : option string;
tc_args : dict
}.

Inductive message :=
| AIMessage (tool_calls : list ToolCall)
| ToolMessage (tool_call_id : option string) (kwargs : dict) (message_id : option string)
| OtherMessage.

Definition _tool_call_name (c : ToolCall) : string :=
match tc_name c with Some n => n | None => default "" (tc_function_name c) end.

(** The id when it is not empty. *)
Definition _tool_call_id (c : ToolCall) : option string :=
match tc_id c with Some "" => None | i => i end.

(** [str(args.get(k) or ...)] *)
Fixpoint first_truthy (keys : list string) (d : dict) : string :=
match keys with
| [] => ""
| k :: keys =>
  match get k d with
  | Some v => if truthy v then py_str v else first_truthy keys d
  | None => first_truthy keys d
  end
end.

(** [entries_by_id] and [order] *)
Record Ledger := { by_id : gmap string DelegationEntry; order : list string }.

Definition empty_ledger : Ledger := {| by_id := ∅; order := [] |}.

Definition entries (l : Ledger) : list DelegationEntry := omap (fun i => by_id l !! i) (order l).

Definition put (e : DelegationEntry) (l : Ledger) : Ledger :=
{| by_id := <[de_id e := e]> (by_id l);
 order := match by_id l !! de_id e with Some _ => order l | None => order l ++ [de_id e] end |}.

Definition delegation (now : string) (c : ToolCall) : option DelegationEntry :=
if negb (_tool_call_name c =? "task")%string then None
else match _tool_call_id c with
   | None => None
   | Some i =>
       Some {| de_id := i;
               de_description := upto _DESCRIPTION_CAP (first_truthy ["description"; "prompt"] (tc_args c));
               de_subagent_type := first_truthy ["subagent_type"] (tc_args c);
               de_status := "in_progress"; de_result_brief := None; de_result_sha256 := None;
               de_result_ref := None; de_stop_reason := None; de_created_at := Some now |}
   end.

Definition calls_of (m : message) : list ToolCall :=
match m with AIMessage calls => calls | _ => [] end.

Definition delegate (now : string) (l : Ledger) (c : ToolCall) : Ledger :=
match delegation now c with Some e => put e l | None => l end.

(** [or] on optional texts: an empty one counts as absent. *)
Definition or_else (a b : option string) : option string :=
match a with None | Some "" => b | _ => a end.

Definition with_result (r : StructuredSubagentResult) (ref : string) (e : DelegationEntry) : DelegationEntry :=
let text := or_else (sr_result_brief r)
            (or_else (sr_error r) (_STATUS_ONLY_RESULT_BRIEFS (sr_status r))) in
let stop_reason := or_else (sr_stop_reason r) (de_stop_reason e) in
match or_else text None with
| Some text =>
  {| de_id := de_id e; de_description := de_description e; de_subagent_type := de_subagent_type e;
     de_status := sr_status r; de_result_brief := Some (ellipsize _RESULT_BRIEF_CAP text);
     de_result_sha256 := or_else (sr_result_sha256 r) (Some (sha256 text));
     de_result_ref := Some ref; de_stop_reason := stop_reason; de_created_at := de_created_at e |}
| None =>
  {| de_id := de_id e; de_description := de_description e; de_subagent_type := de_subagent_type e;
     de_status := sr_status r; de_result_brief := de_result_brief e;
     de_result_sha256 := de_result_sha256 e; de_result_ref := de_result_ref e;
     de_stop_reason := stop_reason; de_created_at := de_created_at e |}
end.

Definition settle (l : Ledger) (m : message) : Ledger :=
match m with
| ToolMessage call kwargs mid =>
  let i := default "" call in
  match by_id l !! i, read_subagent_result_metadata kwargs with
  | Some e, Some r =>
      {| by_id := <[i := with_result r (default i (or_else mid None)) e]> (by_id l); order := order l |}
  | _, _ => l
  end
| _ => l
end.

Definition extract_delegations (now : Z) (messages : list message) : list DelegationEntry :=
let called := foldl (delegate (Clock.json_instant now)) empty_ledger (messages ≫= calls_of) in
entries (foldl settle called messages).
End capture.

(** ** The reducer *)

Definition TERMINAL_STATUSES : list string := SUBAGENT_STATUS_VALUES.
Definition terminal (e : DelegationEntry) : bool := bool_decide (de_status e ∈ TERMINAL_STATUSES).

Definition with_created_at (t : option string) (e : DelegationEntry) : DelegationEntry :=
  {| de_id := de_id e; de_description := de_description e; de_subagent_type := de_subagent_type e;
     de_status := de_status e; de_result_brief := de_result_brief e;
     de_result_sha256 := de_result_sha256 e; de_result_ref := de_result_ref e;
     de_stop_reason := de_stop_reason e; de_created_at := t |}.

(** One round of the loop. *)
Definition merge_entry (l : Ledger) (e : DelegationEntry) : Ledger :=
  match by_id l !! de_id e with
  | Some previous =>
      if terminal previous && negb (terminal e) then l
      else put (with_created_at (or_else (de_created_at previous) (de_created_at e)) e) l
  | None => put e l
  end.

(** [l[-n:]] when [l] is longer *)
Definition last_of {A} (n : nat) (l : list A) : list A := drop (length l - n) l.

(** [None] and an empty list of updates leave the ledger alone. *)
Definition merge_delegations (existing new : list DelegationEntry) : list DelegationEntry :=
  match new with
  | [] => existing
  | _ => last_of _DELEGATION_LEDGER_MAX_ENTRIES (entries (foldl merge_entry empty_ledger (existing ++ new)))
  end.

(** ** Rendering *)

(** [html.escape(text, quote=False)] *)
Fixpoint html_escape (s : string) : string :=
  match s with
  | EmptyString => ""
  | String c s =>
      (if Ascii.eqb c "&" then "&amp;" else if Ascii.eqb c "<" then "&lt;"
       else if Ascii.eqb c ">" then "&gt;" else String c "") +:+ html_escape s
  end.

Definition _escape_context_text (value : string) : string := html_escape (squeeze value).

Definition _status_guidance (status : string) (stop_reason : option string) : string :=
  match or_else stop_reason None with
  | Some _ =>
      if (status =? "completed")%string
      then "hit a guardrail cap with a partial result; reuse the partial result, retry with a tighter scope, or raise the per-agent budget (max_turns / token_budget)"
      else "hit a guardrail cap with no usable result; retry with a tighter scope or raise the per-agent budget (max_turns / token_budget)"
  | None =>
      match status with
      | "in_progress" => "already delegated; do NOT delegate again; wait for or build on the result"
      | "completed" => "completed result; do NOT delegate again; reuse this result"
      | "failed" => "failed attempt; may retry with a changed plan"
      | "cancelled" => "cancelled attempt; may retry with a changed plan"
      | "timed_out" => "timed-out attempt; may retry with a changed plan"
      | "polling_timed_out" => "polling timed-out attempt; may retry with a changed plan"
      | _ => "prior attempt; inspect status before retrying"
      end
  end.

Definition _fits_budget (lines : list string) (candidate : string) (max_chars : Z) : bool :=
  Text.len (join newline (lines ++ [candidate])) <=? max_chars.

Definition _render_entry_line (e : DelegationEntry) : string :=
  "- [" +:+ _escape_context_text (de_status e) +:+ "] " +:+ _escape_context_text (de_description e) +:+
  " (via " +:+ _escape_context_text (de_subagent_type e) +:+ "; " +:+
  _status_guidance (de_status e) (de_stop_reason e) +:+ ")" +:+
  match or_else (de_result_brief e) None with
  | Some brief => " -> " +:+ _escape_context_text (ellipsize _LEDGER_ENTRY_RESULT_RENDER_CAP brief)
  | None => ""
  end.

(** The entries, newest first, until one does not fit: the lines and how many
    entries are left out. *)
Fixpoint fill (max_chars : Z) (lines : list string) (l : list DelegationEntry) : list string * Z :=
  match l with
  | [] => (lines, 0)
  | e :: l' =>
      if _fits_budget lines (_render_entry_line e) max_chars
      then fill max_chars (lines ++ [_render_entry_line e]) l'
      else (lines, Z.of_nat (length l))
  end.

Definition omitted_line (omitted : Z) : string :=
  "- ... " +:+ pretty omitted +:+
  " older delegation entries omitted from this model view because of context budget".

(** Lines are taken back until the note fits; one round per line. *)
Fixpoint make_room (fuel : nat) (max_chars : Z) (lines : list string) (omitted : Z) : list string * Z :=
  match fuel with
  | O => (lines, omitted)
  | S fuel =>
      if (1 <? Z.of_nat (length lines)) && negb (_fits_budget lines (omitted_line omitted) max_chars)
      then make_room fuel max_chars (removelast lines) (omitted + 1)
      else (lines, omitted)
  end.

Definition preamble : list string :=
  ["## Work already delegated";
   "Newest entries are shown first. In-progress entries are already delegated. Completed entries are reusable results. Failed, cancelled, or timed-out entries are prior attempts."].

Definition with_note (max_chars : Z) (lines : list string) (omitted : Z) : list string :=
  if omitted =? 0 then lines
  else
    let '(lines, omitted) := make_room (length lines) max_chars lines omitted in
    if _fits_budget lines (omitted_line omitted) max_chars then lines ++ [omitted_line omitted] else lines.

Definition render_delegation_ledger (l : list DelegationEntry) (max_chars : Z) : string :=
  match l with
  | [] => ""
  | _ =>
      let '(lines, omitted) := fill max_chars preamble (rev l) in
      let rendered := join newline (with_note max_chars lines omitted) in
      if Text.len rendered <=? max_chars then rendered
      else upto (Z.max 0 (max_chars - 4)) rendered +:+ (newline +:+ "...")
  end.

(** ** The ledger as a list *)

Definition ids (l : list DelegationEntry) : list string := map de_id l.

Record ledger_ok (l : Ledger) : Prop := {
  lo_nodup : NoDup (order l);
  lo_dom : forall i, i ∈ order l <-> is_Some (by_id l !! i);
  lo_id : forall i e, by_id l !! i = Some e -> de_id e = i
}.

Lemma ledger_ok_empty : ledger_ok empty_ledger.
Proof.
  split; simpl; [constructor| |done]. intros i. rewrite lookup_empty.
  split; [by intros ?%not_elem_of_nil|by intros [? [=]]].
Qed.

Lemma ledger_ok_put e l : ledger_ok l -> ledger_ok (put e l).
Proof.
  intros [N D I]. unfold put. split; simpl.
  - destruct (by_id l !! de_id e) eqn:E; [done|]. apply NoDup_app. split_and!; [done| |apply NoDup_singleton].
    intros x Hx ->%list_elem_of_singleton. apply D in Hx. rewrite E in Hx. by destruct Hx.
  - intros i. destruct (decide (i = de_id e)) as [->|Ne].
    + rewrite lookup_insert_eq. destruct (by_id l !! de_id e) eqn:E.
      * rewrite D, E. naive_solver.
      * rewrite elem_of_app, list_elem_of_singleton. naive_solver.
    + rewrite lookup_insert_ne by done. rewrite <-D.
      destruct (by_id l !! de_id e); [done|]. rewrite elem_of_app, list_elem_of_singleton. naive_solver.
  - intros i x [[<- <-]|[_ Hx]]%lookup_insert_Some; [done|by apply I].
Qed.

Lemma entries_ids l : ledger_ok l -> ids (entries l) = order l.
Proof.
  intros [_ D I]. unfold ids, entries.
  assert (Forall (fun i => is_Some (by_id l !! i)) (order l)) as F.
  { rewrite Forall_forall. intros i. apply D. }
  clear D.
  induction F as [|i o [e E] _ IH]; simpl; [done|]. rewrite E. simpl. f_equal; [by apply I|exact IH].
Qed.

Lemma elem_of_entries l e : ledger_ok l -> e ∈ entries l <-> by_id l !! de_id e = Some e.
Proof.
  intros [_ D I]. unfold entries. rewrite list_elem_of_omap. split.
  - intros (i&_&E). by rewrite (I i e E).
  - intros E. exists (de_id e). split; [apply D; by eexists|done].
Qed.

Lemma ledger_ok_merge_entry l e : ledger_ok l -> ledger_ok (merge_entry l e).
Proof.
  intros K. unfold merge_entry. destruct (by_id l !! de_id e) as [p|]; [|by apply ledger_ok_put].
  destruct (_ && _); [done|by apply ledger_ok_put].
Qed.

Lemma ledger_ok_fold {A} (f : Ledger -> A -> Ledger) xs l :
  (forall l x, ledger_ok l -> ledger_ok (f l x)) -> ledger_ok l -> ledger_ok (foldl f l xs).
Proof. intros F. revert l. induction xs; simpl; auto. Qed.

Lemma length_last_of {A} n (l : list A) : length (last_of n l) = Nat.min n (length l).
Proof. unfold last_of. rewrite length_drop. lia. Qed.

Lemma last_of_map {A B} (f : A -> B) n l : map f (last_of n l) = last_of n (map f l).
Proof. unfold last_of. rewrite length_map. symmetry. apply skipn_map. Qed.

Lemma last_of_elem {A} n (l : list A) x : x ∈ last_of n l -> x ∈ l.
Proof. intros H. unfold last_of in H. rewrite <-(take_drop (length l - n) l). set_solver. Qed.

Lemma last_of_nodup {A} n (l : list A) : NoDup l -> NoDup (last_of n l).
Proof. intros H. unfold last_of. rewrite <-(take_drop (length l - n) l) in H. by apply NoDup_app in H as (_&_&H). Qed.

(** ** Properties of the reducer *)

(** The entries on record for an id: what merging may put there. *)
Definition same_task (p e : DelegationEntry) : Prop :=
  de_id e = de_id p /\ (terminal p = true -> terminal e = true) /\
  (or_else (de_created_at p) None <> None -> de_created_at e = de_created_at p).

Lemma same_task_refl e : same_task e e.
Proof. done. Qed.

Lemma same_task_trans a b c : same_task a b -> same_task b c -> same_task a c.
Proof.
  intros (I1&T1&C1) (I2&T2&C2). split_and!; [congruence|auto|]. intros H. rewrite C2; [auto|]. by rewrite C1.
Qed.

Lemma merge_entry_keeps l e i p :
  by_id l !! i = Some p -> ledger_ok l ->
  exists q, by_id (merge_entry l e) !! i = Some q /\ same_task p q.
Proof.
  intros E K. unfold merge_entry. destruct (decide (de_id e = i)) as [<-|Ne].
  - rewrite E. destruct (terminal p && negb (terminal e)) eqn:T; [exists p; split; [done|apply same_task_refl]|].
    unfold put. simpl. rewrite lookup_insert_eq. eexists. split; [done|].
    pose proof (lo_id _ K _ _ E) as Ip. split_and!; simpl; [done| |].
    + intros T'. rewrite T' in T. simpl in T. by apply negb_false_iff in T.
    + destruct (de_created_at p) as [[|]|]; done.
  - exists p. split; [|apply same_task_refl].
    destruct (by_id l !! de_id e) as [x|]; [destruct (_ && _); [done|]|];
      unfold put; simpl; by rewrite lookup_insert_ne.
Qed.

Lemma merge_fold_keeps xs : forall l i p,
  by_id l !! i = Some p -> ledger_ok l ->
  exists q, by_id (foldl merge_entry l xs) !! i = Some q /\ same_task p q.
Proof.
  induction xs as [|x xs IH]; intros l i p E K; simpl; [exists p; split; [done|apply same_task_refl]|].
  destruct (merge_entry_keeps l x i p E K) as (q&Eq&S1).
  destruct (IH _ i q Eq (ledger_ok_merge_entry l x K)) as (r&Er&S2).
  exists r. split; [done|by eapply same_task_trans].
Qed.

(** Merging distinct entries on top of nothing keeps them. *)
Lemma merge_fold_fresh xs : forall l,
  ledger_ok l -> NoDup (ids xs) -> (forall i, i ∈ ids xs -> by_id l !! i = None) ->
  let l' := foldl merge_entry l xs in
  entries l' = entries l ++ xs /\ forall i, by_id l' !! i = match by_id l !! i with
                                            | Some e => Some e
                                            | None => List.find (fun e => (de_id e =? i)%string) xs
                                            end.
Proof.
  induction xs as [|x xs IH]; intros l K N F; simpl.
  { split; [by rewrite app_nil_r|]. intros i. by destruct (by_id l !! i). }
  simpl in N. apply NoDup_cons in N as [Nx N].
  assert (by_id l !! de_id x = None) as Ex by (apply F; left).
  assert (merge_entry l x = put x l) as -> by (unfold merge_entry; by rewrite Ex).
  destruct (IH (put x l)) as [IH1 IH2]; [by apply ledger_ok_put|done| |].
  { intros i Hi. unfold put. simpl. rewrite lookup_insert_ne by (by intros <-). apply F. by right. }
  split.
  - rewrite IH1. unfold entries, put. simpl. rewrite Ex, omap_app. simpl. rewrite lookup_insert_eq. simpl.
    rewrite <-app_assoc. f_equal. apply list_omap_ext, Forall2_same_length_lookup_2; [done|].
    intros k i j Hi Hj. assert (i = j) as -> by congruence.
    rewrite lookup_insert_ne; [done|]. intros <-. apply list_elem_of_lookup_2, (lo_dom _ K) in Hi.
    rewrite Ex in Hi. by destruct Hi.
  - intros i. rewrite IH2. unfold put. simpl. destruct (String.eqb_spec (de_id x) i) as [<-|Ne].
    + by rewrite lookup_insert_eq, Ex.
    + by rewrite lookup_insert_ne.
Qed.

Lemma order_merge_entry l e : ledger_ok l -> order (merge_entry l e) = add_key (order l) (de_id e).
Proof.
  intros K. unfold merge_entry, add_key, put. destruct (by_id l !! de_id e) as [p|] eqn:E.
  - rewrite decide_True by (apply (lo_dom _ K); by rewrite E).
    destruct (_ && _); [done|]. simpl. by rewrite E.
  - rewrite decide_False by (rewrite (lo_dom _ K), E; by intros []). done.
Qed.

Lemma order_merge_fold xs : forall l, ledger_ok l ->
  order (foldl merge_entry l xs) = foldl add_key (order l) (ids xs).
Proof.
  induction xs as [|x xs IH]; intros l K; simpl; [done|].
  by rewrite IH, order_merge_entry by (done || by apply ledger_ok_merge_entry).
Qed.

(** Where the entry recorded for an id comes from. *)
Lemma merge_fold_source xs : forall l e,
  ledger_ok l -> by_id (foldl merge_entry l xs) !! de_id e = Some e ->
  by_id l !! de_id e = Some e \/ exists n t, n ∈ xs /\ e = with_created_at t n.
Proof.
  induction xs as [|x xs IH]; intros l e K E; simpl in *; [by left|].
  apply IH in E as [E|(n&t&Hn&->)]; [|right; exists n, t; split; [by right|done]|by apply ledger_ok_merge_entry].
  unfold merge_entry, put in E. destruct (by_id l !! de_id x) as [p|] eqn:Ex.
  - destruct (_ && _); [by left|]. simpl in E. apply lookup_insert_Some in E as [[_ <-]|[_ E]]; [|by left].
    right. eexists x, _. split; [by left|done].
  - simpl in E. apply lookup_insert_Some in E as [[_ <-]|[_ E]]; [|by left].
    right. exists x, (de_created_at x). split; [by left|by destruct x].
Qed.

(** C18: the ledger of a thread stays well formed and keeps its word.  Merging
    any captured entries into a ledger of at most fifty distinct tasks gives
    one again: the ids are those known and those new, in the order first seen,
    cut to the last fifty; an entry for a known task is that task -- once it
    has finished it never goes back to running, and it keeps its date of
    creation; and every entry is an old one or one of the new ones. *)
Theorem merge_delegations_spec existing new :
  NoDup (ids existing) -> (length existing <= 50)%nat ->
  let m := merge_delegations existing new in
  NoDup (ids m) /\ (length m <= 50)%nat /\
  ids m = last_of 50 (fromkeys (ids existing ++ ids new)) /\
  (forall p e, p ∈ existing -> e ∈ m -> de_id e = de_id p -> same_task p e) /\
  (forall e, e ∈ m -> e ∈ existing \/ exists n t, n ∈ new /\ e = with_created_at t n).
Proof.
  intros N L m.
  assert (forall p e, p ∈ existing -> e ∈ existing -> de_id e = de_id p -> e = p) as U.
  { intros p e [i Hp]%list_elem_of_lookup_1 [j He]%list_elem_of_lookup_1 E.
    assert (i = j) as ->; [|congruence].
    eapply NoDup_lookup; [exact N| |]; unfold ids; rewrite list_lookup_fmap; [by rewrite Hp|by rewrite He, <-E]. }
  destruct new as [|n new].
  { subst m. simpl. rewrite app_nil_r. split_and!; [done|done| | |eauto].
    - rewrite fromkeys_id by done. unfold last_of. by replace (length (ids existing) - 50)%nat with 0%nat
        by (unfold ids; rewrite length_map; lia).
    - intros p e Hp He E. rewrite (U p e Hp He E). apply same_task_refl. }
  set (xs := n :: new) in *.
  assert (m = last_of 50 (entries (foldl merge_entry empty_ledger (existing ++ xs)))) as -> by done.
  rewrite foldl_app. pose proof (merge_fold_fresh existing empty_ledger ledger_ok_empty N) as [E1 E2]; [done|].
  set (l := foldl merge_entry empty_ledger existing) in *. simpl in E1.
  assert (ledger_ok l) as K by (apply ledger_ok_fold, ledger_ok_empty; apply ledger_ok_merge_entry).
  assert (ledger_ok (foldl merge_entry l xs)) as K' by (apply ledger_ok_fold, K; apply ledger_ok_merge_entry).
  assert (ids (last_of 50 (entries (foldl merge_entry l xs))) =
          last_of 50 (fromkeys (ids existing ++ ids xs))) as I.
  { unfold ids. rewrite last_of_map. fold (ids (entries (foldl merge_entry l xs))).
    rewrite entries_ids, order_merge_fold, fromkeys_app by done.
    by rewrite <-(entries_ids l K), E1. }
  split_and!; [|rewrite length_last_of; lia|done| |].
  - rewrite I. apply last_of_nodup, fromkeys_nodup.
  - intros p e Hp He%last_of_elem Ei. apply elem_of_entries in He; [|done].
    destruct (merge_fold_keeps xs l (de_id p) p) as (q&Eq&Sq); [|done|].
    + rewrite <-E1 in Hp. by apply elem_of_entries in Hp.
    + rewrite <-Ei, He in Eq. by injection Eq as <-.
  - intros e He%last_of_elem. apply elem_of_entries in He; [|done].
    apply merge_fold_source in He as [He|He]; [left|by right|done].
    rewrite <-E1. by apply elem_of_entries.
Qed.

Lemma merge_delegations_spec_witness :
  let e i s t := {| de_id := i; de_description := ""; de_subagent_type := "general"; de_status := s;
    de_result_brief := None; de_result_sha256 := None; de_result_ref := None; de_stop_reason := None;
    de_created_at := Some t |} in
  let old := [e "a" "completed" "1"; e "b" "in_progress" "1"] in
  let new := [e "a" "in_progress" "2"; e "b" "failed" "2"; e "c" "in_progress" "2"] in
  ids (merge_delegations old new) = ["a"; "b"; "c"] /\
  merge_delegations old new = [e "a" "completed" "1"; e "b" "failed" "1"; e "c" "in_progress" "2"].
Proof.
  intros e old new. split; [|reflexivity].
  destruct (merge_delegations_spec old new) as (_&_&I&_); [by repeat constructor; set_solver|simpl; lia|].
  rewrite I. reflexivity.
Defined.

(** ** What is captured *)
Section captured.
Context `{PyStr}.

Lemma read_status kwargs r :
read_subagent_result_metadata kwargs = Some r -> sr_status r ∈ TERMINAL_STATUSES.
Proof.
unfold read_subagent_result_metadata, wire_status. destruct (text_at _ kwargs) as [raw|]; [|done].
destruct (_LEGACY_STATUS_NORMALIZATION raw).
- destruct (filled _); intros [= <-]; unfold TERMINAL_STATUSES; simpl; set_solver.
- destruct (bool_decide (raw ∈ _)) eqn:E; [|done]. intros [= <-]. by apply bool_decide_eq_true in E.
Qed.

Lemma with_result_fields r ref e :
de_id (with_result r ref e) = de_id e /\ de_status (with_result r ref e) = sr_status r.
Proof. unfold with_result. by destruct (or_else (or_else _ _) None). Qed.

(** The message carries the result of the task [i]. *)
Definition reports (i : string) (m : message) : Prop :=
exists call kwargs mid r, m = ToolMessage call kwargs mid /\ default "" call = i /\
read_subagent_result_metadata kwargs = Some r.

Lemma settle_spec l m i :
order (settle l m) = order l /\
match by_id l !! i, by_id (settle l m) !! i with
| Some e, Some e' => de_id e' = de_id e /\ (reports i m -> terminal e' = true) /\ (e' = e \/ reports i m)
| None, None => True
| _, _ => False
end.
Proof.
assert (match by_id l !! i with
      | Some e => ~ reports i m -> de_id e = de_id e /\ (reports i m -> terminal e = true) /\ (e = e \/ reports i m)
      | None => True end) as Id by (destruct (by_id l !! i); naive_solver).
unfold settle. destruct m as [|call kwargs mid|].
1,3: split; [done|]; destruct (by_id l !! i); [apply Id; by intros (?&?&?&?&?&_)|done].
destruct (by_id l !! default "" call) as [e|] eqn:E.
2: { split; [done|]. destruct (by_id l !! i) eqn:Ei; [|done]. apply Id.
   intros (?&?&?&?&[= <- <- <-]&<-&_). congruence. }
destruct (read_subagent_result_metadata kwargs) as [r|] eqn:R.
2: { split; [done|]. destruct (by_id l !! i) eqn:Ei; [|done]. apply Id.
   intros (?&?&?&?&[= <- <- <-]&_&?). congruence. }
split; [done|]. simpl. destruct (decide (default "" call = i)) as [<-|Ne].
- rewrite E, lookup_insert_eq. set (ref := default _ _).
destruct (with_result_fields r ref e) as [F1 F2]. split_and!; [done| |].
+ intros _. unfold terminal. rewrite F2. apply bool_decide_eq_true. by eapply read_status.
+ right. by exists call, kwargs, mid, r.
- rewrite lookup_insert_ne by done. destruct (by_id l !! i); [|done]. apply Id.
by intros (?&?&?&?&[= <- <- <-]&?&_).
Qed.

Lemma settle_fold ms : forall l i,
order (foldl settle l ms) = order l /\
match by_id l !! i, by_id (foldl settle l ms) !! i with
| Some e, Some e' => de_id e' = de_id e /\
  (terminal e = true \/ Exists (reports i) ms -> terminal e' = true) /\
  (e' = e \/ Exists (reports i) ms)
| None, None => True
| _, _ => False
end.
Proof.
induction ms as [|m ms IH]; intros l i; simpl.
{ split; [done|]. destruct (by_id l !! i); [|done]. split_and!; [done| |by left].
by intros [?|?%Exists_nil]. }
destruct (settle_spec l m i) as [O1 S1]. destruct (IH (settle l m) i) as [O2 S2].
split; [congruence|]. destruct (by_id l !! i) as [e|], (by_id (settle l m) !! i) as [e1|]; try done.
destruct (by_id (foldl settle (settle l m) ms) !! i) as [e2|]; [|done].
destruct S1 as (I1&R1&C1), S2 as (I2&R2&C2). split_and!; [congruence| |].
- rewrite Exists_cons. intros [T|[T|T]]; apply R2; auto.
destruct C1 as [->|C1]; [by left|left; auto].
- rewrite Exists_cons. destruct C2 as [->|C2]; [|tauto]. destruct C1 as [->|C1]; tauto.
Qed.

Lemma called_fold now calls : forall l,
ledger_ok l -> (forall i e, by_id l !! i = Some e -> de_status e = "in_progress") ->
let l' := foldl (delegate now) l calls in
ledger_ok l' /\ (forall i e, by_id l' !! i = Some e -> de_status e = "in_progress") /\
order l' = foldl add_key (order l) (ids (omap (delegation now) calls)).
Proof.
induction calls as [|c calls IH]; intros l K P; simpl; [done|]. unfold delegate at 2 4 6.
destruct (delegation now c) as [e|] eqn:D; [|by apply IH]. simpl.
assert (order (put e l) = add_key (order l) (de_id e)) as <-.
{ unfold put, add_key. simpl. destruct (by_id l !! de_id e) eqn:E.
- rewrite decide_True; [done|]. apply (lo_dom _ K). by rewrite E.
- rewrite decide_False; [done|]. rewrite (lo_dom _ K), E. by intros []. }
apply IH; [by apply ledger_ok_put|]. intros i x. unfold put. simpl.
intros [[<- <-]|[_ Hx]]%lookup_insert_Some; [|by eapply P].
unfold delegation in D. destruct (negb _); [done|]. destruct (_tool_call_id c); [|done].
by injection D as <-.
Qed.

(** What the ledger captures of a conversation.  There is one entry per
task delegated, in the order of the calls; it is finished exactly when
some tool message answers its call with a readable result, and running
otherwise. *)
Theorem extract_delegations_spec now messages :
let l := extract_delegations now messages in
ids l = fromkeys (ids (omap (delegation (Clock.json_instant now)) (messages ≫= calls_of))) /\
forall e, e ∈ l ->
(terminal e = true <-> exists call kwargs mid r,
   ToolMessage call kwargs mid ∈ messages /\ default "" call = de_id e /\
   read_subagent_result_metadata kwargs = Some r) /\
(terminal e = false -> de_status e = "in_progress").
Proof.
intros l. subst l. unfold extract_delegations. set (calls := messages ≫= calls_of).
destruct (called_fold (Clock.json_instant now) calls empty_ledger ledger_ok_empty) as (K&P&O); [done|].
set (called := foldl _ empty_ledger calls) in *.
assert (ledger_ok (foldl settle called messages)) as K'.
{ destruct (settle_fold messages called "") as [O' _]. split.
- rewrite O'. apply (lo_nodup _ K).
- intros i. rewrite O', (lo_dom _ K). destruct (settle_fold messages called i) as [_ S].
  destruct (by_id called !! i), (by_id (foldl settle called messages) !! i); try done;
    split; intros []; by eexists.
- intros i e E. destruct (settle_fold messages called i) as [_ S]. rewrite E in S.
  destruct (by_id called !! i) as [e0|] eqn:E0; [|done]. destruct S as [-> _]. by apply (lo_id _ K). }
split.
- rewrite entries_ids by done. destruct (settle_fold messages called "") as [-> _]. exact O.
- intros e He. apply elem_of_entries in He; [|done].
destruct (settle_fold messages called (de_id e)) as [_ S]. rewrite He in S.
destruct (by_id called !! de_id e) as [e0|] eqn:E0; [|done]. destruct S as (_&R&C).
pose proof (P _ _ E0) as P0.
assert (terminal e0 = false) as T0 by (unfold terminal; rewrite P0; reflexivity).
assert (Exists (reports (de_id e)) messages <-> exists call kwargs mid r,
   ToolMessage call kwargs mid ∈ messages /\ default "" call = de_id e /\
   read_subagent_result_metadata kwargs = Some r) as X.
{ rewrite Exists_exists. unfold reports. naive_solver. }
rewrite <-X. split.
+ split; [|auto]. intros T. destruct C as [->|C]; [congruence|done].
+ intros T. destruct C as [->|C]; [done|]. rewrite R in T by auto. done.
Qed.
End captured.

(** A subagent's result survives the wire.  What the producer stamps on a
    tool message for a status and a stop reason of the contract, the reader
    gives back: the status, the reason, the result or the error bounded to 2000
    characters, and the digest of the whole result. *)
Theorem subagent_result_roundtrip status result error stop_reason :
  status ∈ SUBAGENT_STATUS_VALUES ->
  (forall r, stop_reason = Some r -> r ∈ SUBAGENT_STOP_REASON_VALUES) ->
  exists kwargs, make_subagent_additional_kwargs status result error stop_reason = Ok kwargs /\
    read_subagent_result_metadata kwargs = Some (written status result error stop_reason) /\
    forall t, sr_result_brief (written status result error stop_reason) = Some t \/
              sr_error (written status result error stop_reason) = Some t ->
      Text.len t <= 2000 /\ Text.strip t = t /\ t <> "".
Proof.
  intros S R.
  assert (exists kwargs, make_subagent_additional_kwargs status result error stop_reason = Ok kwargs) as [kw E].
  { unfold make_subagent_additional_kwargs. rewrite bool_decide_eq_true_2 by done. simpl.
    destruct stop_reason as [r|]; simpl; [|by eexists].
    rewrite bool_decide_eq_true_2 by auto. by eexists. }
  exists kw. split_and!; [done|by apply read_written|].
  assert (forall b o t, option_map _bound_metadata_text (when b (filled o)) = Some t ->
            Text.len t <= 2000 /\ Text.strip t = t /\ t <> "") as B.
  { intros b o t. destruct b; simpl; [|done].
    destruct (filled_cases o) as [->|(s&->&F)]; [done|]. rewrite F. intros [= <-]. split_and!.
    - unfold _bound_metadata_text. rewrite len_ellipsize by done. unfold SUBAGENT_METADATA_TEXT_MAX_CHARS. lia.
    - apply strip_trimmed, bound_trimmed.
    - pose proof (bound_filled s F) as G. intros G'. rewrite G' in G. done. }
  intros t [H|H]; simpl in H; by eapply B.
Qed.

Lemma subagent_result_roundtrip_witness :
  exists kwargs, make_subagent_additional_kwargs "failed" None (Some " no quota ") (Some "turn_capped") = Ok kwargs /\
    read_subagent_result_metadata kwargs =
      Some {| sr_status := "failed"; sr_stop_reason := Some "turn_capped"; sr_result_brief := None;
              sr_result_sha256 := None; sr_error := Some "no quota" |}.
Proof.
  destruct (subagent_result_roundtrip "failed" None (Some " no quota ") (Some "turn_capped")) as (kw&E&R&_).
  - right. left.
  - intros r [= <-]. right. left.
  - exists kw. split; [exact E|]. rewrite R. vm_compute. reflexivity.
Defined.

(** ** What the model is shown *)

Lemma note_fits n max_chars :
  0 <= n <= 50 -> 400 <= max_chars -> _fits_budget preamble (omitted_line n) max_chars = true.
Proof.
  intros Hn M. unfold _fits_budget. apply Z.leb_le.
  assert (forallb (fun k => Text.len (join newline (preamble ++ [omitted_line (Z.of_nat k)])) <=? 400) (seq 0 51)
          = true) as F by (vm_compute; reflexivity).
  rewrite forallb_forall in F. specialize (F (Z.to_nat n)). rewrite Z2Nat.id, Z.leb_le in F by lia.
  specialize (F ltac:(apply in_seq; lia)). lia.
Qed.

Lemma fill_spec max_chars l : forall lines,
  Text.len (join newline lines) <= max_chars ->
  exists k, (k <= length l)%nat /\
    fill max_chars lines l = (lines ++ map _render_entry_line (take k l), Z.of_nat (length l - k)) /\
    Text.len (join newline (lines ++ map _render_entry_line (take k l))) <= max_chars.
Proof.
  induction l as [|e l IH]; intros lines F; cbn [fill].
  { exists O. simpl. rewrite app_nil_r. done. }
  destruct (_fits_budget lines (_render_entry_line e) max_chars) eqn:B.
  - unfold _fits_budget in B. apply Z.leb_le in B.
    destruct (IH (lines ++ [_render_entry_line e]) B) as (k&Hk&->&Hl). exists (S k). simpl.
    rewrite <-app_assoc in *. split_and!; [lia|done|done].
  - exists O. simpl. rewrite app_nil_r. split_and!; [lia|done|done].
Qed.

Lemma make_room_spec max_chars : 400 <= max_chars -> forall es fuel omitted,
  (length es < fuel)%nat -> 0 <= omitted -> omitted + Z.of_nat (length es) <= 50 ->
  exists k, (k <= length es)%nat /\
    make_room fuel max_chars (preamble ++ es) omitted
      = (preamble ++ take k es, omitted + Z.of_nat (length es - k)) /\
    _fits_budget (preamble ++ take k es) (omitted_line (omitted + Z.of_nat (length es - k))) max_chars = true.
Proof.
  intros M es. induction es as [|e es IH] using rev_ind; intros [|fuel] omitted L Om N; try lia; cbn [make_room].
  - rewrite app_nil_r. rewrite note_fits by (simpl in N; lia). rewrite andb_false_r. exists O. simpl.
    rewrite Z.add_0_r. split_and!; [lia|done|]. apply note_fits; simpl in N; lia.
  - replace (1 <? Z.of_nat (length (preamble ++ es ++ [e]))) with true
      by (symmetry; apply Z.ltb_lt; rewrite !length_app; simpl; lia). rewrite andb_true_l.
    rewrite length_app in *. simpl in L, N.
    destruct (_fits_budget (preamble ++ es ++ [e]) (omitted_line omitted) max_chars) eqn:B; cbn [negb].
    + exists (length es + 1)%nat. simpl length. rewrite take_ge by (rewrite length_app; simpl; lia).
      rewrite Nat.sub_diag, Z.add_0_r. split_and!; [lia|done|done].
    + rewrite app_assoc, removelast_last.
      destruct (IH fuel (omitted + 1)) as (k&Hk&E&B'); [lia|lia|lia|]. exists k.
      rewrite take_app_le by lia. simpl length.
      replace (omitted + Z.of_nat (length es + 1 - k)) with (omitted + 1 + Z.of_nat (length es - k)) by lia.
      split_and!; [lia|done|done].
Qed.

(** What the model is shown of a ledger of at most fifty tasks, under any
    budget of at least 400 characters: the preamble, then whole lines for the
    newest tasks, newest first, then -- when tasks are left out -- a note with
    their exact number; and the text keeps to the budget. *)
Theorem render_delegation_ledger_spec l max_chars :
  l <> [] -> (length l <= 50)%nat -> 400 <= max_chars ->
  exists k, (k <= length l)%nat /\
    render_delegation_ledger l max_chars =
      join newline (preamble ++ map _render_entry_line (take k (rev l)) ++
        (if decide (k = length l) then [] else [omitted_line (Z.of_nat (length l - k))])) /\
    Text.len (render_delegation_ledger l max_chars) <= max_chars.
Proof.
  intros N L M. unfold render_delegation_ledger. destruct l as [|e0 l0]; [done|]. clear N.
  set (l := e0 :: l0) in *. rewrite <-(length_rev l) in *.
  destruct (fill_spec max_chars (rev l) preamble) as (k&Hk&->&F).
  { pose proof (note_fits 0 max_chars ltac:(lia) M) as B. change (Text.len (join newline preamble)) with 200. lia. }
  unfold with_note. destruct (Z.eqb_spec (Z.of_nat (length (rev l) - k)) 0) as [Z0|Z0].
  - exists k. rewrite (proj2 (Z.leb_le _ _) F), decide_True by lia. rewrite app_nil_r.
    split_and!; [lia|done|done].
  - set (es := map _render_entry_line (take k (rev l))) in *.
    assert (length es = k) as Le by (unfold es; rewrite length_map, length_take; lia).
    destruct (make_room_spec max_chars M es (length (preamble ++ es)) (Z.of_nat (length (rev l) - k)))
      as (k'&Hk'&E&B); [rewrite length_app; simpl; lia|lia|lia|].
    rewrite E, B. rewrite Le in *.
    replace (Z.of_nat (length (rev l) - k) + Z.of_nat (k - k')) with (Z.of_nat (length (rev l) - k')) in * by lia.
    unfold _fits_budget in B. rewrite B. apply Z.leb_le in B. rewrite <-app_assoc in *.
    exists k'. rewrite decide_False by lia.
    replace (take k' es) with (map _render_entry_line (take k' (rev l))) in *
      by (unfold es; rewrite firstn_map, take_take; f_equal; f_equal; lia).
    split_and!; [lia|done|done].
Qed.

Lemma render_delegation_ledger_spec_witness :
  let e i := {| de_id := i; de_description := "compare the <refund> policies"; de_subagent_type := "general";
    de_status := "completed"; de_result_brief := Some "two of them apply"; de_result_sha256 := None;
    de_result_ref := None; de_stop_reason := None; de_created_at := None |} in
  exists k, (k <= 3)%nat /\
    render_delegation_ledger [e "a"; e "b"; e "c"] 450 =
      join newline (preamble ++ map _render_entry_line (take k [e "c"; e "b"; e "a"]) ++
        (if decide (k = 3%nat) then [] else [omitted_line (Z.of_nat (3 - k))])).
Proof.
  intros e.
  destruct (render_delegation_ledger_spec [e "a"; e "b"; e "c"] 450) as (k&L&E&_);
    [discriminate|simpl; lia|lia|].
  exists k. split; [exact L|exact E].
Defined.
End Delegations.
