(* ===== verification/ThreadState.v ===== *)
(** * The reducers of a thread's state

    [deerflow/agents/thread_state.py]: how updates that several nodes write in
    one step are merged into each channel of the state ([merge_delegations] is
    in Delegations.v).  An absent value and [None] are both [None] here. *)
From S2P Require Import Prelude Json Errors Text Slices Delegations.
Import Json Errors Slices.

Module ThreadState.

(** The sandbox of a thread: its id, when it has one. *)
Definition SandboxState : Type := option string.

Definition repr (id : option string) : string :=
  match id with Some i => "'" +:+ i +:+ "'" | None => "None" end.

(** The message quotes the ids plainly. *)
Definition merge_sandbox (existing new : option SandboxState) : result (option SandboxState) :=
  match existing, new with
  | _, None => Ok existing
  | None, Some _ => Ok new
  | Some e, Some n =>
      if bool_decide (e = n) then Ok existing
      else Raise (Exn ValueError ("Conflicting sandbox state updates: " +:+ repr e +:+ " != " +:+ repr n))
  end.

Definition merge_artifacts (existing new : option (list string)) : list string :=
  match existing, new with
  | None, _ => default [] new
  | Some e, None => e
  | Some e, Some n => fromkeys (e ++ n)
  end.

(** Images by path; an empty update clears them. *)
Definition merge_viewed_images (existing new : option (gmap string json)) : gmap string json :=
  match existing, new with
  | None, _ => default ∅ new
  | Some e, None => e
  | Some e, Some n => if bool_decide (n = ∅) then ∅ else n ∪ e
  end.

Definition merge_todos {A} (existing new : option A) : option A :=
  match new with None => existing | Some _ => new end.
Definition merge_goal {A} (existing new : option A) : option A :=
  match new with None => existing | Some _ => new end.

Record PromotedTools := { catalog_hash : string; names : list string }.

(** An empty update counts as none. *)
Definition merge_promoted (existing new : option PromotedTools) : option PromotedTools :=
  match new with
  | None => existing
  | Some n =>
      match existing with
      | Some e =>
          if (catalog_hash e =? catalog_hash n)%string
          then Some {| catalog_hash := catalog_hash e; names := fromkeys (names e ++ names n) |}
          else Some {| catalog_hash := catalog_hash n; names := fromkeys (names n) |}
      | None => Some {| catalog_hash := catalog_hash n; names := fromkeys (names n) |}
      end
  end.

(** ** Skills *)

Definition _SKILL_CONTEXT_MAX_ENTRIES : nat := 8.
Definition _SKILL_DESCRIPTION_MAX_CHARS : Z := 500.

Record SkillEntry := { sk_name : string; sk_path : string; sk_description : string; sk_loaded_at : Z }.

(** What is read of a stored or new entry: the name when it is not empty, the
    description when it is a text, the index when it is an integer. *)
Record RawSkill := {
  raw_name : option string;
  raw_path : string;
  raw_description : option string;
  raw_loaded_at : option Z
}.

Definition _normalize_skill_entry (e : RawSkill) : SkillEntry :=
  {| sk_name := default "" (raw_name e); sk_path := raw_path e;
     sk_description := match raw_description e with
                       | Some d => upto _SKILL_DESCRIPTION_MAX_CHARS (squeeze d) | None => ""
                       end;
     sk_loaded_at := default 0 (raw_loaded_at e) |}.

(** [by_path] and [order] *)
Definition skills : Type := gmap string SkillEntry * list string.

(** The first loop: a later entry replaces an earlier one in its place. *)
Definition keep (s : skills) (e : SkillEntry) : skills :=
  (<[sk_path e := e]> s.1, match s.1 !! sk_path e with Some _ => s.2 | None => s.2 ++ [sk_path e] end).

(** [order.remove(path)] *)
Fixpoint remove_first (x : string) (l : list string) : list string :=
  match l with
  | [] => []
  | y :: l => if (y =? x)%string then l else y :: remove_first x l
  end.

(** The second loop: what is read again moves to the end. *)
Definition touch (s : skills) (e : SkillEntry) : skills :=
  (<[sk_path e := e]> s.1,
   match s.1 !! sk_path e with Some _ => remove_first (sk_path e) s.2 | None => s.2 end ++ [sk_path e]).

Definition listed (s : skills) : list SkillEntry := omap (fun p => s.1 !! p) s.2.

Definition merge_skill_context (existing new : list RawSkill) : list SkillEntry :=
  let old := map _normalize_skill_entry existing in
  match new with
  | [] => old
  | _ => Delegations.last_of _SKILL_CONTEXT_MAX_ENTRIES
           (listed (foldl touch (foldl keep (∅, []) old) (map _normalize_skill_entry new)))
  end.

(** ** What merging comes to *)

Definition paths (l : list SkillEntry) : list string := map sk_path l.
Definition without (p : string) : list SkillEntry -> list SkillEntry :=
  List.filter (fun e => negb (sk_path e =? p)%string).

(** The last entry of every path. *)
Fixpoint latest (l : list SkillEntry) : list SkillEntry :=
  match l with
  | [] => []
  | e :: l => if bool_decide (sk_path e ∈ paths l) then latest l else e :: latest l
  end.

(** The reading list: what was known and is not read again, then what is read,
    each path once. *)
Definition recency (old new : list SkillEntry) : list SkillEntry :=
  List.filter (fun e => negb (bool_decide (sk_path e ∈ paths new))) old ++ latest new.

(** The two structures are one list. *)
Definition shows (s : skills) (l : list SkillEntry) : Prop :=
  s.2 = paths l /\ NoDup (paths l) /\
  forall p, s.1 !! p = List.find (fun e => (sk_path e =? p)%string) l.

Lemma find_path l e : NoDup (paths l) -> e ∈ l ->
  List.find (fun x => (sk_path x =? sk_path e)%string) l = Some e.
Proof.
  induction l as [|x l IH]; intros N He; [by apply not_elem_of_nil in He|].
  simpl in N. apply NoDup_cons in N as [Nx N]. simpl. apply elem_of_cons in He as [->|He].
  { by rewrite String.eqb_refl. }
  destruct (String.eqb_spec (sk_path x) (sk_path e)) as [E|]; [|by apply IH].
  destruct Nx. rewrite E. by apply list_elem_of_fmap_2.
Qed.

Lemma shows_listed s l : shows s l -> listed s = l.
Proof.
  intros (O&N&L). unfold listed. rewrite O.
  assert (forall k, (forall e, e ∈ k -> e ∈ l) -> omap (fun p => s.1 !! p) (paths k) = k) as H; [|by apply H].
  induction k as [|e k IH]; intros I; [done|]. simpl. rewrite L, find_path by (done || (apply I; left)).
  f_equal. apply IH. intros x Hx. apply I. by right.
Qed.

Lemma shows_empty : shows (∅, []) [].
Proof. split_and!; [done|constructor|done]. Qed.

Lemma find_none_path l p : List.find (fun e => (sk_path e =? p)%string) l = None <-> p ∉ paths l.
Proof.
  induction l as [|x l IH]; simpl; [split; [intros _; apply not_elem_of_nil|done]|].
  destruct (String.eqb_spec (sk_path x) p) as [->|Ne].
  - split; [done|]. intros H. destruct H. left.
  - rewrite IH, not_elem_of_cons. naive_solver.
Qed.

Lemma shows_keep s l e : shows s l -> sk_path e ∉ paths l -> shows (keep s e) (l ++ [e]).
Proof.
  intros (O&N&L) F. unfold keep. split_and!; simpl.
  - rewrite L, (proj2 (find_none_path l _)) by done. rewrite O. unfold paths. by rewrite map_app.
  - unfold paths. rewrite map_app. apply NoDup_app. split_and!; [done|set_solver|apply NoDup_singleton].
  - intros p. rewrite find_app. simpl. destruct (String.eqb_spec (sk_path e) p) as [<-|Ne].
    + by rewrite lookup_insert_eq, (proj2 (find_none_path l _)).
    + rewrite lookup_insert_ne, L by done. by destruct (List.find _ l).
Qed.

Lemma shows_keep_all k : forall s l, shows s l -> NoDup (paths (l ++ k)) -> shows (foldl keep s k) (l ++ k).
Proof.
  induction k as [|e k IH]; intros s l Sh N; simpl; [by rewrite app_nil_r|].
  replace (l ++ e :: k) with ((l ++ [e]) ++ k) in * by (by rewrite <-app_assoc). apply IH; [|done].
  apply shows_keep; [done|]. unfold paths in N. rewrite !map_app in N. apply NoDup_app in N as (N&_).
  apply NoDup_app in N as (_&N&_). intros Hp. apply (N _ Hp). left.
Qed.

Lemma remove_first_paths p l : NoDup (paths l) -> remove_first p (paths l) = paths (without p l).
Proof.
  induction l as [|e l IH]; simpl; [done|]. intros [Ne N]%NoDup_cons.
  destruct (String.eqb_spec (sk_path e) p) as [<-|D]; simpl; [|by rewrite IH].
  unfold without. f_equal. symmetry.
  clear IH N. induction l as [|x l IH]; simpl; [done|]. simpl in Ne. apply not_elem_of_cons in Ne as [D Ne].
  destruct (String.eqb_spec (sk_path x) (sk_path e)) as [E|]; [by destruct D|]. simpl. by rewrite IH.
Qed.

Lemma without_fresh p l : p ∉ paths l -> without p l = l.
Proof.
  induction l as [|x l IH]; simpl; [done|]. intros [D N]%not_elem_of_cons.
  destruct (String.eqb_spec (sk_path x) p) as [E|]; [by destruct D|]. simpl. by rewrite IH.
Qed.

Lemma elem_of_paths_without p q l : q ∈ paths (without p l) <-> q ∈ paths l /\ q <> p.
Proof.
  unfold paths, without. rewrite !list_elem_of_fmap. split.
  - intros (e&->&[He Hf]%filter_elem). apply negb_true_iff, String.eqb_neq in Hf. naive_solver.
  - intros [(e&->&He) Ne]. exists e. split; [done|]. apply filter_elem. split; [done|].
    by apply negb_true_iff, String.eqb_neq.
Qed.

Lemma shows_touch s l e : shows s l -> shows (touch s e) (without (sk_path e) l ++ [e]).
Proof.
  intros (O&N&L). unfold touch. split_and!; simpl.
  - unfold paths at 1. rewrite map_app. simpl. f_equal. rewrite L, O.
    destruct (List.find _ l) eqn:E; [by apply remove_first_paths|].
    apply find_none_path in E. by rewrite without_fresh.
  - unfold paths. rewrite map_app. apply NoDup_app. split_and!; [by apply map_filter_nodup| |apply NoDup_singleton].
    intros q Hq ->%list_elem_of_singleton. by apply elem_of_paths_without in Hq as [_ []].
  - intros p. rewrite find_app. simpl. destruct (String.eqb_spec (sk_path e) p) as [<-|Ne].
    + rewrite lookup_insert_eq. rewrite (proj2 (find_none_path _ _)); [done|].
      rewrite elem_of_paths_without. tauto.
    + rewrite lookup_insert_ne, L by done. clear -Ne. unfold without.
      induction l as [|x l IH]; simpl; [done|].
      destruct (String.eqb_spec (sk_path x) p) as [Ex|], (String.eqb_spec (sk_path x) (sk_path e)) as [E|];
        simpl; [congruence| |done|].
      * by rewrite Ex, String.eqb_refl.
      * rewrite (proj2 (String.eqb_neq _ _)) by done. done.
Qed.

Lemma elem_of_latest p l : p ∈ paths (latest l) <-> p ∈ paths l.
Proof.
  induction l as [|x l IH]; simpl; [done|]. destruct (bool_decide (sk_path x ∈ paths l)) eqn:E; simpl.
  - apply bool_decide_eq_true in E. rewrite elem_of_cons, IH. split; [by right|by intros [->|]].
  - rewrite !elem_of_cons, IH. done.
Qed.

Lemma paths_app l k : paths (l ++ k) = paths l ++ paths k.
Proof. apply map_app. Qed.

Lemma latest_snoc l e : latest (l ++ [e]) = without (sk_path e) (latest l) ++ [e].
Proof.
  induction l as [|x l IH]; simpl; [done|]. rewrite paths_app, IH. simpl.
  destruct (decide (sk_path x ∈ paths l)) as [Hx|Hx].
  - rewrite !bool_decide_eq_true_2; [done|done|set_solver].
  - rewrite (bool_decide_eq_false_2 _ Hx). simpl. destruct (String.eqb_spec (sk_path x) (sk_path e)) as [E|E].
    + rewrite bool_decide_eq_true_2 by set_solver. done.
    + rewrite bool_decide_eq_false_2 by set_solver. done.
Qed.

Lemma recency_snoc old new e : recency old (new ++ [e]) = without (sk_path e) (recency old new) ++ [e].
Proof.
  unfold recency. rewrite latest_snoc. unfold without at 2. rewrite List.filter_app, filter_filter, <-app_assoc.
  f_equal. apply filter_ext. intros x. rewrite paths_app. simpl.
  destruct (String.eqb_spec (sk_path x) (sk_path e)) as [E|E]; simpl.
  - rewrite andb_false_r. rewrite bool_decide_eq_true_2 by set_solver. done.
  - rewrite andb_true_r. f_equal. apply bool_decide_ext. set_solver.
Qed.

Lemma shows_touch_all old new s : shows s old -> shows (foldl touch s new) (recency old new).
Proof.
  intros Sh. induction new as [|e new IH] using rev_ind.
  - unfold recency. simpl. rewrite app_nil_r. replace (List.filter _ old) with old; [done|].
    symmetry. clear. induction old as [|x old IH]; simpl; [done|]. by f_equal.
  - rewrite foldl_snoc, recency_snoc. by apply shows_touch.
Qed.

Lemma paths_normalized l : paths (map _normalize_skill_entry l) = map raw_path l.
Proof. unfold paths. rewrite map_map. done. Qed.

(** The dictionary and the order list of [merge_skill_context] are the
    plain reading list: what was known and is not read again, in its order,
    then what is read, each path once and by its last reading, cut to the last
    eight entries. *)
Theorem merge_skill_context_spec existing new :
  NoDup (map raw_path existing) -> (length existing <= 8)%nat ->
  merge_skill_context existing new =
  Delegations.last_of 8 (recency (map _normalize_skill_entry existing) (map _normalize_skill_entry new)).
Proof.
  intros N L. unfold merge_skill_context. set (old := map _normalize_skill_entry existing).
  assert (NoDup (paths old)) as N' by (unfold old; by rewrite paths_normalized).
  destruct new as [|n new].
  - unfold recency. simpl. rewrite app_nil_r.
    replace (List.filter _ old) with old
      by (symmetry; clear; induction old as [|x old IH]; simpl; [done|by f_equal]).
    unfold Delegations.last_of. replace (length old - 8)%nat with 0%nat; [done|].
    unfold old. rewrite length_map. lia.
  - set (xs := map _normalize_skill_entry (n :: new)). unfold _SKILL_CONTEXT_MAX_ENTRIES. f_equal.
    apply shows_listed, shows_touch_all. by apply (shows_keep_all old (∅, []) []), N'; try apply shows_empty.
Qed.

Lemma merge_skill_context_spec_witness :
  let s p d := {| raw_name := Some p; raw_path := p; raw_description := Some d; raw_loaded_at := Some 0 |} in
  let e p d := {| sk_name := p; sk_path := p; sk_description := d; sk_loaded_at := 0 |} in
  merge_skill_context [s "a" "old"; s "b" " b  b "] [s "c" "c"; s "a" "new"] =
  [e "b" "b b"; e "c" "c"; e "a" "new"].
Proof.
  intros s e.
  rewrite (merge_skill_context_spec [s "a" "old"; s "b" " b  b "] [s "c" "c"; s "a" "new"]);
    [vm_compute; reflexivity|repeat constructor; set_solver|simpl; lia].
Defined.

(** ** Well-formed channels *)

(** A skill reference: a bounded description. *)
Definition skill_ok (e : SkillEntry) : Prop := Text.len (sk_description e) <= 500.

Lemma normalize_ok e : skill_ok (_normalize_skill_entry e).
Proof.
  unfold skill_ok, _normalize_skill_entry. simpl. destruct (raw_description e); simpl; [|done].
  rewrite len_upto by done. unfold _SKILL_DESCRIPTION_MAX_CHARS. lia.
Qed.

Lemma elem_of_latest_entry e l : e ∈ latest l -> e ∈ l.
Proof. induction l as [|x l IH]; simpl; [done|]. destruct (bool_decide _); set_solver. Qed.

Lemma latest_nodup l : NoDup (paths (latest l)).
Proof.
  induction l as [|x l IH]; simpl; [constructor|]. destruct (bool_decide _) eqn:E; [done|].
  simpl. apply NoDup_cons. split; [|done]. apply bool_decide_eq_false in E. by rewrite elem_of_latest.
Qed.

Lemma recency_nodup old new : NoDup (paths old) -> NoDup (paths (recency old new)).
Proof.
  intros N. unfold recency, paths. rewrite map_app. apply NoDup_app.
  split_and!; [by apply map_filter_nodup| |apply latest_nodup].
  intros p Hp Hl. apply (elem_of_latest p new) in Hl. apply list_elem_of_fmap in Hp as (e&->&[_ He]%filter_elem).
  apply negb_true_iff, bool_decide_eq_false in He. done.
Qed.

(** The channels of a thread's state keep their types.  Whatever an update
    writes: the artifacts stay distinct, and all are kept; the promoted tools
    are distinct and of one catalogue, that of the update when it has one; the
    skills stay at most eight, of distinct paths and with descriptions of at
    most 500 characters; and two sandboxes of one thread are never merged. *)
Theorem reducers_well_formed :
  (forall e n, NoDup e -> NoDup (merge_artifacts (Some e) n) /\
     forall x, x ∈ merge_artifacts (Some e) n <-> x ∈ e \/ exists l, n = Some l /\ x ∈ l) /\
  (forall e n p, (forall q, e = Some q -> NoDup (names q)) -> merge_promoted e n = Some p ->
     NoDup (names p) /\
     (forall q, n = Some q -> catalog_hash p = catalog_hash q /\ forall x, x ∈ names q -> x ∈ names p)) /\
  (forall e n, NoDup (map raw_path e) -> (length e <= 8)%nat ->
     NoDup (paths (merge_skill_context e n)) /\ (length (merge_skill_context e n) <= 8)%nat /\
     Forall skill_ok (merge_skill_context e n)) /\
  (forall e n, (exists s, merge_sandbox (Some e) (Some n) = Ok (Some s)) <-> e = n).
Proof.
  split_and!.
  - intros e [l|] N; simpl; [|naive_solver]. split; [apply fromkeys_nodup|].
    intros x. rewrite elem_of_fromkeys, elem_of_app. naive_solver.
  - intros e [n|] p Hq; simpl; [|naive_solver].
    destruct e as [q|]; [destruct (String.eqb_spec (catalog_hash q) (catalog_hash n))|]; intros [= <-]; simpl;
      (split; [apply fromkeys_nodup|]); intros ? [= <-]; (split; [done|]); intros x;
      rewrite elem_of_fromkeys; set_solver.
  - intros e n N L. rewrite merge_skill_context_spec by done. split_and!.
    + unfold paths. rewrite Delegations.last_of_map. apply Delegations.last_of_nodup, recency_nodup.
      by rewrite paths_normalized.
    + rewrite Delegations.length_last_of. lia.
    + rewrite Forall_forall. intros x Hx%Delegations.last_of_elem. unfold recency in Hx.
      apply elem_of_app in Hx as [[Hx _]%filter_elem|Hx%elem_of_latest_entry];
        apply list_elem_of_fmap in Hx as (r&->&_); apply normalize_ok.
  - intros e n. simpl. destruct (decide (e = n)) as [->|Ne].
    + rewrite bool_decide_eq_true_2 by done. split; [done|]. by eexists.
    + rewrite bool_decide_eq_false_2 by done. split; [by intros [? [=]]|done].
Qed.
End ThreadState.
