(* ===== verification/Codec.v ===== *)
(** * Stored and returned forms

    [model_dump(mode="json")] of the decision, the reverse decision and the
    action request, and [DecisionResult.model_validate], which reads a stored
    decision back. *)
From S2P Require Import Prelude Sha256 Json Errors Schemas Decision Reverse Ledger Actions Text Tables.
Import Json Errors Schemas.

Module Codec.

Definition strings (l : list string) : json := JList (map JStr l).

(** ** Enumerations *)

Definition risk_level_value (r : RiskLevel) : string :=
  match r with LOW => "low" | MEDIUM => "medium" | HIGH => "high" end.
Definition risk_tier_value (t : RiskTier) : string :=
  match t with AUTO => "auto" | REVIEW => "review" | SUPERVISOR => "supervisor"
             | FOUR_EYES => "four_eyes" end.
Definition action_value (a : ResolutionAction) : string :=
  match a with REFUND_ORIGINAL_PAYMENT => "refund_original_payment"
             | RETURN_AND_REFUND => "return_and_refund" | MANUAL_REVIEW => "manual_review" end.
Definition outcome_value (o : Reverse.ReverseOutcome) : string :=
  match o with Reverse.DECIDED => "decided" | Reverse.NEEDS_EVIDENCE => "needs_evidence"
             | Reverse.UNSUPPORTED => "unsupported" end.
Definition grade_value (g : Reverse.ReturnGrade) : string :=
  match g with Reverse.GradeA => "a" | Reverse.GradeB => "b" | Reverse.GradeC => "c"
             | Reverse.GradeD => "d" end.

(** ** Dumps *)

Definition contribution_json (c : RiskContribution) : json :=
  JObj [("signal", JStr (signal c)); ("points", JInt (points c)); ("reason", JStr (reason c))].

Definition decision_json (d : DecisionResult) : dict :=
  [("eligibility", JStr (eligibility_value (eligibility d)));
   ("action", JStr (action_value (action d)));
   ("refund_amount", JInt (refund_amount d));
   ("risk_level", JStr (risk_level_value (risk_level d)));
   ("reason_code", JStr (reason_code d));
   ("approval_required", JBool (approval_required d));
   ("approval_reasons", strings (approval_reasons d));
   ("signals", strings (signals d));
   ("missing_evidence", strings (missing_evidence d));
   ("policy_refs", strings (policy_refs d));
   ("risk_score", JInt (risk_score d));
   ("risk_tier", JStr (risk_tier_value (risk_tier d)));
   ("risk_signals", JList (map contribution_json (risk_signals d)))].

Definition reverse_json (d : Reverse.ReverseDecision) : dict :=
  [("outcome", JStr (outcome_value (Reverse.outcome d)));
   ("action", JStr (Reverse.reverse_action_value (Reverse.rd_action d)));
   ("estimated_resolution_cost", JInt (Reverse.estimated_resolution_cost d));
   ("requires_return", JBool (Reverse.requires_return d));
   ("signals", strings (Reverse.rd_signals d));
   ("missing_evidence", strings (Reverse.rd_missing_evidence d));
   ("grade", jopt (option_map grade_value (Reverse.grade d)));
   ("disposition", jopt (Reverse.disposition d))].

Definition jinstant (t : option Z) : json := jopt (option_map Clock.json_instant t).

Definition action_json (a : Actions.ActionRequest) : dict :=
  [("id", JStr (Actions.act_id a));
   ("case_id", JStr (Actions.act_case_id a));
   ("action_type", JStr (Actions.action_type a));
   ("payload", JObj (Actions.payload a));
   ("payload_hash", JStr (Actions.act_payload_hash a));
   ("status", JStr (Actions.status_value (Actions.status a)));
   ("risk_level", JStr (risk_level_value (Actions.act_risk_level a)));
   ("requested_by", JStr (Actions.requested_by a));
   ("required_role", JStr (Actions.required_role a));
   ("idempotency_key", JStr (Actions.idempotency_key a));
   ("approved_by", jopt (Actions.approved_by a));
   ("comment", jopt (Actions.comment a));
   ("approved_at", jinstant (Actions.approved_at a));
   ("expires_at", JStr (Clock.json_instant (Actions.expires_at a)));
   ("external_transaction_id", jopt (Actions.external_transaction_id a));
   ("version", JInt (Actions.version a));
   ("approvers_required", JInt (Actions.approvers_required a));
   ("approver_ids", strings (Actions.approver_ids a));
   ("reserved", JBool (Actions.act_reserved a))].

(** [row.to_dict()], its instants written by [stamp]; SQLite gives them back
    without an offset. *)
Definition case_dict (stamp : Z -> string) (c : Tables.ServiceCaseRow) : dict :=
  [("id", JStr (Tables.c_id c));
   ("user_id", JStr (Tables.c_user_id c));
   ("thread_id", jopt (Tables.c_thread_id c));
   ("order_id", jopt (Tables.c_order_id c));
   ("issue_type", jopt (Tables.c_issue_type c));
   ("status", JStr (Tables.c_status c));
   ("complaint_text", JStr (Tables.c_complaint_text c));
   ("customer_expectation", jopt (Tables.c_customer_expectation c));
   ("next_step", JStr (Tables.c_next_step c));
   ("reply_draft", JStr (Tables.c_reply_draft c));
   ("evidence_json", JObj (Tables.c_evidence_json c));
   ("decision_json", JObj (Tables.c_decision_json c));
   ("version", JInt (Tables.c_version c));
   ("created_at", JStr (stamp (Tables.c_created_at c)));
   ("updated_at", JStr (stamp (Tables.c_updated_at c)))].

(** As FastAPI encodes it. *)
Definition case_json : Tables.ServiceCaseRow -> dict := case_dict Clock.isoformat_naive.

Definition event_json (e : Tables.CaseEventRow) : dict :=
  [("id", JStr (Tables.ev_id e));
   ("case_id", JStr (Tables.ev_case_id e));
   ("event_type", JStr (Tables.ev_event_type e));
   ("actor", JStr (Tables.ev_actor e));
   ("run_id", jopt (Tables.ev_run_id e));
   ("trace_id", jopt (Tables.ev_trace_id e));
   ("event_metadata", JObj (Tables.ev_metadata e));
   ("prev_hash", JStr (Tables.ev_prev_hash e));
   ("event_hash", JStr (Tables.ev_event_hash e));
   ("created_at", JStr (Clock.isoformat_naive (Tables.ev_created_at e)));
   ("seq", JInt (Tables.ev_seq e))].

(** ** Validation *)

Definition invalid {A} (field : string) : result A := Raise (Exn ValidationError field).

Definition field (k : string) (d : dict) : result json := of_option (get k d) (Exn ValidationError k).

Definition as_str (k : string) (j : json) : result string :=
  match j with JStr s => Ok s | _ => invalid k end.
Definition as_int (k : string) (j : json) : result Z :=
  match j with JInt z => Ok z | _ => invalid k end.
Definition as_bool (k : string) (j : json) : result bool :=
  match j with JBool b => Ok b | _ => invalid k end.

Fixpoint all_ok {A B} (f : A -> result B) (l : list A) : result (list B) :=
  match l with
  | [] => Ok []
  | x :: l => y <-? f x ;; ys <-? all_ok f l ;; Ok (y :: ys)
  end.

Definition as_list {A} (k : string) (f : json -> result A) (j : json) : result (list A) :=
  match j with JList l => all_ok f l | _ => invalid k end.

(** A member of a [StrEnum] from its value. *)
Definition as_enum {A} (k : string) (value : A -> string) (members : list A) (j : json) : result A :=
  match j with
  | JStr s => of_option (List.find (fun m => (value m =? s)%string) members) (Exn ValidationError k)
  | _ => invalid k
  end.

Definition opt_field {A} (k : string) (f : json -> result A) (default_value : A) (d : dict) : result A :=
  match get k d with Some j => f j | None => Ok default_value end.

Definition contribution_of (j : json) : result RiskContribution :=
  match j with
  | JObj o =>
      s <-? field "signal" o ;; s <-? as_str "signal" s ;;
      p <-? field "points" o ;; p <-? as_int "points" p ;;
      r <-? field "reason" o ;; r <-? as_str "reason" r ;;
      Ok {| signal := s; points := p; reason := r |}
  | _ => invalid "risk_signals"
  end.

(** [DecisionResult.model_validate]; [risk_signals] holds the contributions'
    own dumps. *)
Definition decision_of (d : dict) : result DecisionResult :=
  e <-? field "eligibility" d ;;
  e <-? as_enum "eligibility" eligibility_value
          [ELIGIBLE; ELIGIBLE_WITH_APPROVAL; INELIGIBLE; NEEDS_EVIDENCE] e ;;
  a <-? field "action" d ;;
  a <-? as_enum "action" action_value [REFUND_ORIGINAL_PAYMENT; RETURN_AND_REFUND; MANUAL_REVIEW] a ;;
  amt <-? field "refund_amount" d ;; amt <-? as_int "refund_amount" amt ;;
  ensure raise_if (amt <? 0) (Exn ValidationError "refund_amount") ;;
  lv <-? field "risk_level" d ;; lv <-? as_enum "risk_level" risk_level_value [LOW; MEDIUM; HIGH] lv ;;
  rc <-? field "reason_code" d ;; rc <-? as_str "reason_code" rc ;;
  ar <-? field "approval_required" d ;; ar <-? as_bool "approval_required" ar ;;
  ars <-? opt_field "approval_reasons" (as_list "approval_reasons" (as_str "approval_reasons")) [] d ;;
  sg <-? opt_field "signals" (as_list "signals" (as_str "signals")) [] d ;;
  me <-? opt_field "missing_evidence" (as_list "missing_evidence" (as_str "missing_evidence")) [] d ;;
  pr <-? opt_field "policy_refs" (as_list "policy_refs" (as_str "policy_refs")) [] d ;;
  sc <-? opt_field "risk_score" (as_int "risk_score") 0 d ;;
  ensure raise_if ((sc <? 0) || (100 <? sc)) (Exn ValidationError "risk_score") ;;
  ti <-? opt_field "risk_tier" (as_enum "risk_tier" risk_tier_value [AUTO; REVIEW; SUPERVISOR; FOUR_EYES])
           AUTO d ;;
  rs <-? opt_field "risk_signals" (as_list "risk_signals" contribution_of) [] d ;;
  Ok {| eligibility := e; action := a; refund_amount := amt; risk_level := lv; reason_code := rc;
        approval_required := ar; approval_reasons := ars; signals := sg; missing_evidence := me;
        policy_refs := pr; risk_score := sc; risk_tier := ti; risk_signals := rs |}.

(** ** Properties *)

Lemma all_ok_map {A B C} (f : B -> result C) (g : A -> B) (h : A -> C) l :
  (forall x, f (g x) = Ok (h x)) -> all_ok f (map g l) = Ok (map h l).
Proof. intros H. induction l as [|x l IH]; simpl; [done|]. rewrite H. simpl. by rewrite IH. Qed.

Lemma strings_read k l : as_list k (as_str k) (strings l) = Ok l.
Proof.
  unfold strings. simpl. rewrite (all_ok_map _ _ id); [|done]. by rewrite map_id.
Qed.

Lemma contributions_read l :
  as_list "risk_signals" contribution_of (JList (map contribution_json l)) = Ok l.
Proof. simpl. rewrite (all_ok_map _ _ id); [by rewrite map_id|]. by intros []. Qed.

Lemma decision_read d : decision_result_valid d = true -> decision_of (decision_json d) = Ok d.
Proof.
  intros H.
  unfold decision_result_valid in H. bprop. unfold decision_of.
  destruct d as [e a amt lv rc ar ars sg me pr sc ti rs]. cbn [refund_amount risk_score] in *.
  unfold opt_field, field. cbn -[as_enum as_list strings raise_if].
  assert (as_enum "eligibility" eligibility_value
    [ELIGIBLE; ELIGIBLE_WITH_APPROVAL; INELIGIBLE; NEEDS_EVIDENCE] (JStr (eligibility_value e)) = Ok e)
    as -> by (by destruct e).
  assert (as_enum "action" action_value [REFUND_ORIGINAL_PAYMENT; RETURN_AND_REFUND; MANUAL_REVIEW]
    (JStr (action_value a)) = Ok a) as -> by (by destruct a).
  assert (as_enum "risk_level" risk_level_value [LOW; MEDIUM; HIGH] (JStr (risk_level_value lv)) = Ok lv)
    as -> by (by destruct lv).
  assert (as_enum "risk_tier" risk_tier_value [AUTO; REVIEW; SUPERVISOR; FOUR_EYES]
    (JStr (risk_tier_value ti)) = Ok ti) as -> by (by destruct ti).
  cbn -[as_list strings raise_if]. rewrite !strings_read, contributions_read. unfold raise_if.
  cbn -[Z.ltb]. destruct (Z.ltb_spec amt 0); [lia|]. cbn -[Z.ltb].
  destruct (Z.ltb_spec sc 0); [lia|]. destruct (Z.ltb_spec 100 sc); [lia|]. done.
Qed.

(** A decision survives storage: reading back the stored JSON of any
    decision that satisfies its schema gives that decision, so an action is
    created from exactly what was decided. *)
Theorem decision_roundtrip d (H : decision_result_valid d = true) :
  decision_of (decision_json d) = Ok d.
Proof. by apply decision_read. Qed.

Lemma decision_roundtrip_witness :
  let d := Decision.decide_resolution Decision.demo_case in
  refund_amount d = 500 /\ decision_of (decision_json d) = Ok d.
Proof.
  intros d. split; [vm_compute; reflexivity|]. apply (decision_roundtrip d).
  vm_compute. reflexivity.
Defined.

End Codec.
