(* ===== verification/Workflow.v ===== *)
(** * Demo data and the case-evaluation graph

    [mock_data.py] (the inspectable dataset and the server-side refund limits)
    and the case-evaluation graph of [workflow.py]: [build_context], then the
    conditional edge to [reverse_decision] or [decide_refund]. *)
From S2P Require Import Prelude Sha256 Json Errors Float64 Schemas Decision Text Reverse.
Import Json Errors Schemas.

(** ** mock_data.py *)
Module MockData.

Definition ROLE_REFUND_LIMITS : list (string * Z) := [("user", 20000); ("admin", 1000000)].

Definition lookup {A} (k : string) (l : list (string * A)) : option A :=
  option_map snd (List.find (fun kv => (kv.1 =? k)%string) l).

Definition resolve_operator_refund_limit (system_role : option string) : Z :=
  default 20000 (lookup (default "" system_role) ROLE_REFUND_LIMITS).

Definition order_row (oid cust sku : string) (item ship : Z) (st : string) : string * dict :=
  (oid, [("order_id", JStr oid); ("customer_id", JStr cust); ("region", JStr "CN");
         ("sku", JStr sku); ("item_paid", JInt item); ("shipping_paid", JInt ship);
         ("status", JStr st)]).

Definition ORDERS : list (string * dict) :=
  [order_row "ORDER-1001" "CUSTOMER-001" "PHONE-X-256" 89900 1000 "shipped";
   order_row "ORDER-1002" "CUSTOMER-002" "HEADSET-LITE" 9900 0 "shipped";
   order_row "ORDER-1003" "CUSTOMER-003" "KETTLE-SMART" 32800 800 "delivered";
   order_row "ORDER-1004" "CUSTOMER-004" "LAPTOP-X" 800000 0 "delivered"].

Definition payment_row (oid : string) (bal : Z) : string * dict :=
  (oid, [("refundable_balance", JInt bal); ("currency", JStr "CNY");
         ("payment_status", JStr "paid")]).

Definition PAYMENTS : list (string * dict) :=
  [payment_row "ORDER-1001" 90900; payment_row "ORDER-1002" 9900;
   payment_row "ORDER-1003" 33600; payment_row "ORDER-1004" 800000].

Definition logistics_row (oid st : string) (pod : bool) : string * dict :=
  (oid, [("status", JStr st); ("proof_of_delivery", JBool pod); ("carrier", JStr "DEMO-EXPRESS")]).

Definition LOGISTICS : list (string * dict) :=
  [logistics_row "ORDER-1001" "in_transit" false; logistics_row "ORDER-1002" "delivered" true;
   logistics_row "ORDER-1003" "delivered" true; logistics_row "ORDER-1004" "delivered" false].

Definition risk_row (cust : string) (claims refunds : Z) : string * dict :=
  (cust, [("not_received_claims_180d", JInt claims); ("refund_cases_180d", JInt refunds)]).

Definition CUSTOMER_RISK : list (string * dict) :=
  [risk_row "CUSTOMER-001" 0 0; risk_row "CUSTOMER-002" 3 4; risk_row "CUSTOMER-003" 0 1;
   risk_row "CUSTOMER-004" 3 5].

Definition POLICIES : list (string * dict) :=
  [("CN", [("policy_id", JStr "AFTER-SALES-CN"); ("version", JStr "2026.07");
           ("covered_issues", JList (map (fun i => JStr (issue_value i)) all_issues));
           ("refund_shipping_issues", JList [JStr "delivery_not_received"]);
           ("return_required_issues", JList [JStr "damaged_item"; JStr "wrong_item"]);
           ("manual_review_amount", JInt 100000); ("high_value_amount", JInt 50000)])].

Definition inventory_row (sku : string) (n cost : Z) : string * dict :=
  (sku, [("available", JInt n); ("replacement_unit_cost", JInt cost)]).

Definition INVENTORY : list (string * dict) :=
  [inventory_row "PHONE-X-256" 3 61000; inventory_row "HEADSET-LITE" 0 5200;
   inventory_row "KETTLE-SMART" 12 18000].

Definition costs_row (sku : string) (ship hand recov repl : Z) : string * dict :=
  (sku, [("return_shipping_cost", JInt ship); ("handling_cost", JInt hand);
         ("expected_recovery_value", JInt recov); ("replacement_shipping_cost", JInt repl)]).

Definition REVERSE_COSTS : list (string * dict) :=
  [costs_row "PHONE-X-256" 1800 800 45000 1200; costs_row "HEADSET-LITE" 900 400 2000 600;
   costs_row "KETTLE-SMART" 1200 600 1000 800].

(** Not part of any stored evidence. *)
Record CustomerProfile := {
  account_age : option Z; refund_rate : option float; address_changes : Z; device : bool
}.

Definition CUSTOMER_PROFILES : list (string * CustomerProfile) :=
  [("CUSTOMER-001", {| account_age := Some 540; refund_rate := Some (rnd 5 100);
                       address_changes := 0; device := false |});
   ("CUSTOMER-002", {| account_age := Some 20; refund_rate := Some (rnd 55 100);
                       address_changes := 3; device := true |});
   ("CUSTOMER-003", {| account_age := Some 900; refund_rate := Some (rnd 10 100);
                       address_changes := 1; device := false |});
   ("CUSTOMER-004", {| account_age := Some 60; refund_rate := Some (rnd 40 100);
                       address_changes := 2; device := true |})].

Definition no_profile : CustomerProfile :=
  {| account_age := None; refund_rate := None; address_changes := 0; device := false |}.

Definition SIGN_RECEIPT_HOURS : list (string * option Z) :=
  [("ORDER-1001", None); ("ORDER-1002", None); ("ORDER-1003", Some 96); ("ORDER-1004", None)].

End MockData.

(** ** workflow.py *)
Module Workflow.
Import MockData Reverse.

(** Reads of the typed contexts from the dataset's dictionaries. *)
Definition item_int (k : string) (d : dict) : result Z :=
  match get k d with Some (JInt z) => Ok z | _ => Raise (Exn ValidationError k) end.
Definition item_str (k : string) (d : dict) : result string :=
  match get k d with Some (JStr s) => Ok s | _ => Raise (Exn ValidationError k) end.
Definition item_bool (k : string) (d : dict) : result bool :=
  match get k d with Some (JBool b) => Ok b | _ => Raise (Exn ValidationError k) end.

Fixpoint issue_list (l : list json) : result (list IssueType) :=
  match l with
  | [] => Ok []
  | JStr s :: l => i <-? issue_of_value s ;; is_ <-? issue_list l ;; Ok (i :: is_)
  | _ => Raise (Exn ValidationError "issues")
  end.

Definition item_issues (k : string) (d : dict) : result (list IssueType) :=
  match get k d with
  | Some (JList l) => issue_list l
  | Some _ => Raise (Exn ValidationError k)
  | None => Ok []
  end.

Definition order_context (d : dict) : result OrderContext :=
  o <-? item_str "order_id" d ;; i <-? item_int "item_paid" d ;; s <-? item_int "shipping_paid" d ;;
  Ok {| oc_order_id := o; item_paid := i; shipping_paid := s |}.

Definition policy_snapshot (d : dict) : result PolicySnapshot :=
  p <-? item_str "policy_id" d ;; v <-? item_str "version" d ;;
  c <-? item_issues "covered_issues" d ;; s <-? item_issues "refund_shipping_issues" d ;;
  r <-? item_issues "return_required_issues" d ;; m <-? item_int "manual_review_amount" d ;;
  h <-? item_int "high_value_amount" d ;;
  Ok {| policy_id := p; policy_version := v; covered_issues := c; refund_shipping_issues := s;
        return_required_issues := r; manual_review_amount := m; high_value_amount := h |}.

Definition logistics_evidence (d : dict) : result LogisticsEvidence :=
  s <-? item_str "status" d ;; p <-? item_bool "proof_of_delivery" d ;;
  Ok {| le_status := s; proof_of_delivery := p |}.

Definition default_int (k : string) (d : dict) : result Z :=
  match get k d with None => Ok 0 | Some _ => item_int k d end.

Definition customer_risk_context (d : dict) : result CustomerRiskContext :=
  n <-? default_int "not_received_claims_180d" d ;; r <-? default_int "refund_cases_180d" d ;;
  Ok {| not_received_claims_180d := n; refund_cases_180d := r |}.

(** The [Field] constraints are checked by the constructor. *)
Definition checked_input (c : DecisionInput) : result DecisionInput :=
  if decision_input_valid c then Ok c else Raise (Exn ValidationError "DecisionInput").

Definition REVERSE_ISSUES : list IssueType := [DAMAGED_ITEM; WRONG_ITEM; QUALITY_ISSUE].

(** [CaseEvalState]: the inputs, and what the nodes produced. *)
Record CaseInputs := {
  in_order_id : string;
  in_issue_type : string;
  in_operator_refund_limit : Z;
  in_visual_evidence_confirmed : bool;
  in_customer_preference : option string;
  in_damage_level : option string;
  in_human_confirmed : option bool;
  in_serial_matches : option bool
}.

Record CaseEvalState := {
  s_case : option DecisionInput;
  s_evidence : dict;
  s_error : option dict;
  s_route : string;
  s_decision : option DecisionResult;
  s_reverse : option ReverseDecision
}.

Definition failed (error : dict) (evidence : dict) (c : option DecisionInput) : CaseEvalState :=
  {| s_case := c; s_evidence := evidence; s_error := Some error; s_route := "error";
     s_decision := None; s_reverse := None |}.

Definition jdict (o : option dict) : json := match o with Some d => JObj d | None => JNull end.

Definition _build_context (i : CaseInputs) : result CaseEvalState :=
  match lookup (in_order_id i) ORDERS with
  | None => Ok (failed [("error", JStr "ORDER_NOT_FOUND"); ("order_id", JStr (in_order_id i))] [] None)
  | Some order =>
  match lookup (in_order_id i) PAYMENTS with
  | None => Ok (failed [("error", JStr "PAYMENT_NOT_FOUND"); ("order_id", JStr (in_order_id i))] [] None)
  | Some payment =>
  region <-? item_str "region" order ;;
  match lookup region POLICIES with
  | None => Ok (failed [("error", JStr "POLICY_NOT_FOUND"); ("region", JStr region)] [] None)
  | Some policy_data =>
  cust <-? item_str "customer_id" order ;;
  sku <-? item_str "sku" order ;;
  let logistics_data := lookup (in_order_id i) LOGISTICS in
  let risk_data := default [] (lookup cust CUSTOMER_RISK) in
  let profile := default no_profile (lookup cust CUSTOMER_PROFILES) in
  issue <-? issue_of_value (in_issue_type i) ;;
  oc <-? order_context order ;;
  bal <-? item_int "refundable_balance" payment ;;
  lg <-? match logistics_data with
         | Some d => l <-? logistics_evidence d ;; Ok (Some l)
         | None => Ok None
         end ;;
  cr <-? customer_risk_context risk_data ;;
  pol <-? policy_snapshot policy_data ;;
  c <-? checked_input
    {| issue_type := issue; order := oc; payment := {| refundable_balance := bal |};
       logistics := lg; customer_risk := cr; policy := pol;
       operator_refund_limit := in_operator_refund_limit i;
       visual_evidence_confirmed := in_visual_evidence_confirmed i;
       sign_receipt_hours := default None (lookup (in_order_id i) SIGN_RECEIPT_HOURS);
       account_age_days := account_age profile;
       historical_refund_rate := refund_rate profile;
       address_changes_30d := address_changes profile;
       device_reuse := device profile |} ;;
  Ok {| s_case := Some c;
        s_evidence :=
          [("order", JObj order); ("payment", JObj payment); ("logistics", jdict logistics_data);
           ("customer_risk", JObj risk_data); ("policy", JObj policy_data);
           ("inventory", jdict (lookup sku INVENTORY));
           ("reverse_costs", jdict (lookup sku REVERSE_COSTS));
           ("visual_evidence_confirmed", JBool (in_visual_evidence_confirmed i))];
        s_error := None; s_route := ""; s_decision := None; s_reverse := None |}
  end end end.

Definition _decide_refund (c : DecisionInput) (s : CaseEvalState) : CaseEvalState :=
  {| s_case := s_case s; s_evidence := s_evidence s; s_error := s_error s; s_route := "refund";
     s_decision := Some (Decision.decide_resolution c); s_reverse := s_reverse s |}.

Definition preference_of_value (v : string) : result CustomerPreference :=
  if (v =? "refund")%string then Ok REFUND
  else if (v =? "replacement")%string then Ok REPLACEMENT
  else Raise (Exn ValueError (v +:+ " is not a valid CustomerPreference")).

Definition damage_of_value (v : string) : result DamageLevel :=
  if (v =? "none")%string then Ok none else if (v =? "minor")%string then Ok minor
  else if (v =? "major")%string then Ok major else if (v =? "destroyed")%string then Ok destroyed
  else Raise (Exn ValidationError "damage_level").

(** [value or default] on optional texts. *)
Definition or_else (o : option string) (d : string) : string :=
  match o with Some s => if (s =? "")%string then d else s | None => d end.

Definition reverse_context (i : CaseInputs) (c : DecisionInput) (inventory costs : dict)
    (preference : string) : result ReverseInput :=
  rs <-? item_int "return_shipping_cost" costs ;; hc <-? item_int "handling_cost" costs ;;
  rv <-? item_int "expected_recovery_value" costs ;;
  ru <-? item_int "replacement_unit_cost" inventory ;;
  rp <-? item_int "replacement_shipping_cost" costs ;;
  av <-? item_int "available" inventory ;;
  pref <-? preference_of_value preference ;;
  dmg <-? damage_of_value (or_else (in_damage_level i) "none") ;;
  Ok {| ri_issue_type := issue_type c; item_value := item_paid (order c);
        ri_refund_amount := Z.min (item_paid (order c)) (refundable_balance (payment c));
        return_shipping_cost := rs; handling_cost := hc; expected_recovery_value := rv;
        replacement_unit_cost := ru; replacement_shipping_cost := rp; replacement_inventory := av;
        customer_preference := pref;
        visual_evidence := Some {| damage_level := dmg; serial_matches := in_serial_matches i;
                                   human_confirmed := default false (in_human_confirmed i) |} |}.

Definition _decide_reverse (i : CaseInputs) (c : DecisionInput) (preference : string)
    (s : CaseEvalState) : result CaseEvalState :=
  match get "inventory" (s_evidence s), get "reverse_costs" (s_evidence s) with
  | Some (JObj inventory), Some (JObj costs) =>
      case <-? reverse_context i c inventory costs preference ;;
      Ok {| s_case := s_case s; s_evidence := s_evidence s; s_error := s_error s;
            s_route := "reverse"; s_decision := s_decision s;
            s_reverse := Some (decide_reverse_fulfillment case) |}
  | _, _ =>
      sku <-? match get "order" (s_evidence s) with
              | Some (JObj order) => item_str "sku" order
              | _ => Raise (Exn KeyError "order")
              end ;;
      Ok (failed [("error", JStr "REVERSE_CONTEXT_NOT_FOUND"); ("sku", JStr sku)]
                 (s_evidence s) (s_case s))
  end.

Definition _route_case (i : CaseInputs) (s : CaseEvalState) : result string :=
  match s_error s with
  | Some _ => Ok "error"
  | None =>
      issue <-? issue_of_value (in_issue_type i) ;;
      Ok (if bool_decide (issue ∈ REVERSE_ISSUES)
             && negb (or_else (in_customer_preference i) "" =? "")%string
          then "reverse" else "refund")
  end.

(** The compiled graph: [build_context], the conditional edge, one decision
    node, the end. *)
Definition run_case_evaluation (i : CaseInputs) : result CaseEvalState :=
  s <-? _build_context i ;;
  route <-? _route_case i s ;;
  match s_case s with
  | Some c =>
      if (route =? "reverse")%string then
        _decide_reverse i c (default "" (in_customer_preference i)) s
      else if (route =? "refund")%string then Ok (_decide_refund c s) else Ok s
  | None => Ok s
  end.

(** [tools.evaluate_mock_case]: an error dictionary, or the decision and its
    evidence. *)
Definition evaluate_mock_case (order_id issue_type : string) (operator_refund_limit : Z)
    (visual_evidence_confirmed : bool) : result (dict + DecisionResult * dict) :=
  s <-? run_case_evaluation
    {| in_order_id := order_id; in_issue_type := issue_type;
       in_operator_refund_limit := operator_refund_limit;
       in_visual_evidence_confirmed := visual_evidence_confirmed;
       in_customer_preference := None; in_damage_level := None; in_human_confirmed := None;
       in_serial_matches := None |} ;;
  match s_error s, s_decision s with
  | Some e, _ => Ok (inl e)
  | None, Some d => Ok (inr (d, s_evidence s))
  | None, None => Raise (Exn KeyError "decision")
  end.

(** ** What the graph decides *)

(** What a row of the dataset says, read without the code's own readers. *)
Definition int_at (k : string) (d : dict) (z : Z) : Prop := get k d = Some (JInt z).
Definition str_at (k : string) (d : dict) (s : string) : Prop := get k d = Some (JStr s).
Definition count_at (k : string) (d : dict) (z : Z) : Prop :=
  match get k d with None => z = 0 | Some j => j = JInt z end.
Definition issues_at (k : string) (d : dict) (l : list IssueType) : Prop :=
  match get k d with None => l = [] | Some j => j = JList (map (fun i => JStr (issue_value i)) l) end.

Record policy_at (d : dict) (p : PolicySnapshot) : Prop := {
  pol_id : str_at "policy_id" d (policy_id p);
  pol_version : str_at "version" d (policy_version p);
  pol_covered : issues_at "covered_issues" d (covered_issues p);
  pol_shipping : issues_at "refund_shipping_issues" d (refund_shipping_issues p);
  pol_return : issues_at "return_required_issues" d (return_required_issues p);
  pol_review : int_at "manual_review_amount" d (manual_review_amount p);
  pol_high : int_at "high_value_amount" d (high_value_amount p)
}.

(** The one context a case is decided in: the order, its payment, its logistics,
    the record and the profile of the customer it belongs to, the policy of the
    region it was bought in, the operator's limit and the issue. *)
Record context_from (i : CaseInputs) (o p : dict) (cust : string) (pol : dict) (c : DecisionInput) : Prop := {
  ctx_valid : decision_input_valid c = true;
  ctx_order : lookup (in_order_id i) ORDERS = Some o;
  ctx_payment : lookup (in_order_id i) PAYMENTS = Some p;
  ctx_customer : str_at "customer_id" o cust;
  ctx_region : exists region, str_at "region" o region /\ lookup region POLICIES = Some pol;
  ctx_order_id : str_at "order_id" o (oc_order_id (order c));
  ctx_item : int_at "item_paid" o (item_paid (order c));
  ctx_shipping : int_at "shipping_paid" o (shipping_paid (order c));
  ctx_balance : int_at "refundable_balance" p (refundable_balance (payment c));
  ctx_logistics : match lookup (in_order_id i) LOGISTICS, logistics c with
                  | Some d, Some l => str_at "status" d (le_status l) /\
                                      get "proof_of_delivery" d = Some (JBool (proof_of_delivery l))
                  | None, None => True
                  | _, _ => False
                  end;
  ctx_claims : count_at "not_received_claims_180d" (default [] (lookup cust CUSTOMER_RISK))
                 (not_received_claims_180d (customer_risk c));
  ctx_refunds : count_at "refund_cases_180d" (default [] (lookup cust CUSTOMER_RISK))
                  (refund_cases_180d (customer_risk c));
  ctx_policy : policy_at pol (policy c);
  ctx_receipt : sign_receipt_hours c = match lookup (in_order_id i) SIGN_RECEIPT_HOURS with Some h => h | None => None end;
  ctx_profile : {| account_age := account_age_days c; refund_rate := historical_refund_rate c;
                   address_changes := address_changes_30d c; device := device_reuse c |}
                = match lookup cust CUSTOMER_PROFILES with Some f => f | None => no_profile end;
  ctx_issue : issue_value (issue_type c) = in_issue_type i;
  ctx_limit : operator_refund_limit c = in_operator_refund_limit i;
  ctx_visual : visual_evidence_confirmed c = in_visual_evidence_confirmed i
}.

Definition context_of (i : CaseInputs) (c : DecisionInput) : Prop :=
  exists o p cust pol, context_from i o p cust pol c.

Lemma int_at_fun k d y z : int_at k d y -> int_at k d z -> y = z.
Proof. unfold int_at. congruence. Qed.
Lemma str_at_fun k d y z : str_at k d y -> str_at k d z -> y = z.
Proof. unfold str_at. congruence. Qed.
Lemma count_at_fun k d y z : count_at k d y -> count_at k d z -> y = z.
Proof. unfold count_at. destruct (get k d); congruence. Qed.
Lemma issues_at_fun k d l1 l2 : issues_at k d l1 -> issues_at k d l2 -> l1 = l2.
Proof.
  unfold issues_at. destruct (get k d); [|congruence]. intros -> [= E]. revert l2 E.
  induction l1 as [|x l1 IH]; intros [|y l2]; simpl; [done..|]. intros [= E1 E2].
  rewrite (IH l2) by done. f_equal. destruct x, y; done.
Qed.

(** The data leave no choice: a case has at most one context. *)
Lemma context_unique i c1 c2 : context_of i c1 -> context_of i c2 -> c1 = c2.
Proof.
  intros (o1&p1&cu1&po1&A) (o2&p2&cu2&po2&B). destruct A, B. destruct ctx_region0 as (r1&R1&P1), ctx_region1 as (r2&R2&P2).
  assert (o1 = o2) as <- by congruence. assert (p1 = p2) as <- by congruence.
  assert (cu1 = cu2) as <- by (by eapply str_at_fun). assert (r1 = r2) as <- by (by eapply str_at_fun).
  assert (po1 = po2) as <- by congruence. destruct ctx_policy0, ctx_policy1.
  destruct c1 as [i1 [] [] l1 [] [] ? ? ? ? ? ? ?], c2 as [i2 [] [] l2 [] [] ? ? ? ? ? ? ?]; simpl in *.
  assert (i1 = i2) as <- by (rewrite <-ctx_issue1 in ctx_issue0; destruct i1, i2; done).
  assert (l1 = l2) as <-.
  { destruct (lookup _ LOGISTICS), l1 as [[]|], l2 as [[]|]; try done. simpl in *. destruct ctx_logistics0, ctx_logistics1.
    f_equal. f_equal; [by eapply str_at_fun|congruence]. }
  rewrite <-ctx_profile1 in ctx_profile0. injection ctx_profile0 as -> -> -> ->. subst.
  repeat match goal with
  | H1 : int_at ?k ?d ?y, H2 : int_at ?k ?d ?z |- _ => pose proof (int_at_fun _ _ _ _ H1 H2); clear H1; subst
  | H1 : str_at ?k ?d ?y, H2 : str_at ?k ?d ?z |- _ => pose proof (str_at_fun _ _ _ _ H1 H2); clear H1; subst
  | H1 : count_at ?k ?d ?y, H2 : count_at ?k ?d ?z |- _ => pose proof (count_at_fun _ _ _ _ H1 H2); clear H1; subst
  | H1 : issues_at ?k ?d ?y, H2 : issues_at ?k ?d ?z |- _ => pose proof (issues_at_fun _ _ _ _ H1 H2); clear H1; subst
  end. done.
Qed.

(** The economics a return or a replacement is decided with. *)
Record reverse_context_of (i : CaseInputs) (c : DecisionInput) (rc : ReverseInput) : Prop := {
  rev_data : exists o sku inventory costs,
    lookup (in_order_id i) ORDERS = Some o /\ str_at "sku" o sku /\
    lookup sku INVENTORY = Some inventory /\ lookup sku REVERSE_COSTS = Some costs /\
    int_at "return_shipping_cost" costs (return_shipping_cost rc) /\
    int_at "handling_cost" costs (handling_cost rc) /\
    int_at "expected_recovery_value" costs (expected_recovery_value rc) /\
    int_at "replacement_unit_cost" inventory (replacement_unit_cost rc) /\
    int_at "replacement_shipping_cost" costs (replacement_shipping_cost rc) /\
    int_at "available" inventory (replacement_inventory rc);
  rev_issue : ri_issue_type rc = issue_type c;
  rev_value : item_value rc = item_paid (order c);
  rev_refund : ri_refund_amount rc = Z.min (item_paid (order c)) (refundable_balance (payment c));
  rev_preference : in_customer_preference i
                   = Some (match customer_preference rc with REFUND => "refund" | REPLACEMENT => "replacement" end);
  rev_evidence : exists e, visual_evidence rc = Some e /\
    match damage_level e with none => "none" | minor => "minor" | major => "major" | destroyed => "destroyed" end
      = match in_damage_level i with None | Some "" => "none" | Some d => d end /\
    serial_matches e = in_serial_matches i /\
    human_confirmed e = match in_human_confirmed i with Some b => b | None => false end
}.

(** A reverse issue whose customer says what they want. *)
Definition wants_reverse (i : CaseInputs) : Prop :=
  in_issue_type i ∈ ["damaged_item"; "wrong_item"; "quality_issue"] /\
  match in_customer_preference i with None | Some "" => False | Some _ => True end.

(** The errors the graph ends with. *)
Inductive evaluation_error (i : CaseInputs) : dict -> Prop :=
| no_order : lookup (in_order_id i) ORDERS = None ->
    evaluation_error i [("error", JStr "ORDER_NOT_FOUND"); ("order_id", JStr (in_order_id i))]
| no_payment : lookup (in_order_id i) PAYMENTS = None ->
    evaluation_error i [("error", JStr "PAYMENT_NOT_FOUND"); ("order_id", JStr (in_order_id i))]
| no_policy o region : lookup (in_order_id i) ORDERS = Some o -> str_at "region" o region ->
    lookup region POLICIES = None ->
    evaluation_error i [("error", JStr "POLICY_NOT_FOUND"); ("region", JStr region)]
| no_economics o sku : wants_reverse i -> lookup (in_order_id i) ORDERS = Some o -> str_at "sku" o sku ->
    lookup sku INVENTORY = None \/ lookup sku REVERSE_COSTS = None ->
    evaluation_error i [("error", JStr "REVERSE_CONTEXT_NOT_FOUND"); ("sku", JStr sku)].

(** The code's readers read just that. *)
Lemma item_int_at k d z : item_int k d = Ok z <-> int_at k d z.
Proof. unfold item_int, int_at. destruct (get k d) as [[]|]; split; congruence. Qed.
Lemma item_str_at k d s : item_str k d = Ok s <-> str_at k d s.
Proof. unfold item_str, str_at. destruct (get k d) as [[]|]; split; congruence. Qed.
Lemma item_bool_at k d b : item_bool k d = Ok b -> get k d = Some (JBool b).
Proof. unfold item_bool. destruct (get k d) as [[]|]; congruence. Qed.
Lemma default_int_at k d z : default_int k d = Ok z -> count_at k d z.
Proof.
  unfold default_int, count_at. destruct (get k d) as [j|] eqn:E; [|by intros [= <-]].
  intros H%item_int_at. unfold int_at in H. congruence.
Qed.
Lemma issue_list_read l is_ : issue_list l = Ok is_ -> l = map (fun i => JStr (issue_value i)) is_.
Proof.
  revert is_. induction l as [|[] l IH]; simpl; intros is_ H; try done; [by injection H as <-|].
  apply rbind_ok in H as (i&Hi&H). apply rbind_ok in H as (r&Hr&[= <-]).
  apply issue_of_value_ok in Hi as ->. simpl. by rewrite (IH r).
Qed.
Lemma item_issues_at k d l : item_issues k d = Ok l -> issues_at k d l.
Proof.
  unfold item_issues, issues_at. destruct (get k d) as [[]|]; try done; [|by intros [= <-]].
  by intros ->%issue_list_read.
Qed.

(** Takes a chain of monadic reads apart. *)
Ltac rsplit H :=
  repeat (apply rbind_ok in H; let x := fresh "x" in let E := fresh "E" in destruct H as (x&E&H)).
Ltac read_rows :=
  repeat match goal with
  | H : item_int _ _ = Ok _ |- _ => apply item_int_at in H
  | H : item_str _ _ = Ok _ |- _ => apply item_str_at in H
  | H : item_bool _ _ = Ok _ |- _ => apply item_bool_at in H
  | H : default_int _ _ = Ok _ |- _ => apply default_int_at in H
  | H : item_issues _ _ = Ok _ |- _ => apply item_issues_at in H
  end.

Lemma policy_snapshot_read d p : policy_snapshot d = Ok p -> policy_at d p.
Proof. unfold policy_snapshot. intros H. rsplit H. read_rows. injection H as <-. by split. Qed.
Lemma logistics_evidence_read d l : logistics_evidence d = Ok l ->
  str_at "status" d (le_status l) /\ get "proof_of_delivery" d = Some (JBool (proof_of_delivery l)).
Proof. unfold logistics_evidence. intros H. rsplit H. read_rows. by injection H as <-. Qed.

(** What [build_context] leaves in the state of a case it could build. *)
Record built (i : CaseInputs) (c : DecisionInput) (s : CaseEvalState) : Prop := {
  blt_case : s_case s = Some c;
  blt_context : context_of i c;
  blt_logistics : get "logistics" (s_evidence s) = Some (jdict (lookup (in_order_id i) LOGISTICS));
  blt_stock : exists o sku, lookup (in_order_id i) ORDERS = Some o /\ str_at "sku" o sku /\
    get "order" (s_evidence s) = Some (JObj o) /\
    get "inventory" (s_evidence s) = Some (jdict (lookup sku INVENTORY)) /\
    get "reverse_costs" (s_evidence s) = Some (jdict (lookup sku REVERSE_COSTS))
}.

Lemma build_context_spec i s :
  _build_context i = Ok s ->
  s_decision s = None /\ s_reverse s = None /\
  match s_error s with
  | Some e => s_case s = None /\ evaluation_error i e
  | None => exists c, built i c s
  end.
Proof.
  unfold _build_context.
  destruct (lookup (in_order_id i) ORDERS) as [o|] eqn:Eo; [|intros [= <-]; do 2 (split; [done|]); split; [done|]; by apply no_order].
  destruct (lookup (in_order_id i) PAYMENTS) as [p|] eqn:Ep; [|intros [= <-]; do 2 (split; [done|]); split; [done|]; by apply no_payment].
  intros H. apply rbind_ok in H as (region&Hr&H). apply item_str_at in Hr.
  destruct (lookup region POLICIES) as [pd|] eqn:El;
    [|injection H as <-; do 2 (split; [done|]); split; [done|]; by eapply no_policy].
  apply rbind_ok in H as (cust&?&H). apply rbind_ok in H as (sku&?&H).
  apply rbind_ok in H as (issue&Hi&H). apply rbind_ok in H as (oc&Ho&H).
  apply rbind_ok in H as (bal&?&H). apply rbind_ok in H as (lg&Hl&H).
  apply rbind_ok in H as (cr&Hcr&H). apply rbind_ok in H as (pol&Hp%policy_snapshot_read&H).
  apply rbind_ok in H as (c&Hc&H). injection H as <-. simpl.
  do 2 (split; [done|]). exists c. split; [done| |done|].
  - unfold checked_input in Hc. destruct (decision_input_valid _) eqn:V; [|done]. injection Hc as <-.
    apply issue_of_value_ok in Hi. unfold order_context in Ho. rsplit Ho. injection Ho as <-.
    unfold customer_risk_context in Hcr. rsplit Hcr. injection Hcr as <-. read_rows.
    exists o, p, cust, pd. split; simpl; eauto.
    + destruct (lookup _ LOGISTICS) as [d|]; [|by injection Hl as <-].
      apply rbind_ok in Hl as (l&?%logistics_evidence_read&[= <-]). done.
    + destruct (lookup cust CUSTOMER_PROFILES) as [[]|]; done.
  - read_rows. exists o, sku. by split_and!.
Qed.

(** The edge the graph takes. *)
Lemma route_spec i s issue : s_error s = None -> in_issue_type i = issue_value issue ->
  exists b : bool, _route_case i s = Ok (if b then "reverse" else "refund")%string /\ (b = true <-> wants_reverse i).
Proof.
  intros E Hi. unfold _route_case. rewrite E, (proj2 (issue_of_value_ok _ _) Hi). simpl.
  exists (bool_decide (issue ∈ REVERSE_ISSUES) && negb (or_else (in_customer_preference i) "" =? "")%string).
  split; [done|]. unfold wants_reverse. rewrite Hi, andb_true_iff, bool_decide_eq_true, negb_true_iff.
  split; intros [A B]; (split; [|]).
  - unfold REVERSE_ISSUES in A. set_solver.
  - unfold or_else in B. by destruct (in_customer_preference i) as [[]|].
  - destruct issue; simpl in *; unfold REVERSE_ISSUES; set_solver.
  - unfold or_else. by destruct (in_customer_preference i) as [[]|].
Qed.

Lemma damage_of_value_ok v d : damage_of_value v = Ok d ->
  v = match d with none => "none" | minor => "minor" | major => "major" | destroyed => "destroyed" end.
Proof.
  unfold damage_of_value. repeat match goal with |- context [(v =? ?t)%string] =>
    destruct (String.eqb_spec v t) as [->|_]; [by intros [= <-]|] end. done.
Qed.

Lemma reverse_context_read i c inventory costs sku o rc :
  lookup (in_order_id i) ORDERS = Some o -> str_at "sku" o sku ->
  lookup sku INVENTORY = Some inventory -> lookup sku REVERSE_COSTS = Some costs -> wants_reverse i ->
  reverse_context i c inventory costs (default "" (in_customer_preference i)) = Ok rc -> reverse_context_of i c rc.
Proof.
  intros Ho Hs Hi Hc [_ W] H. unfold reverse_context in H.
  apply rbind_ok in H as (rs&?&H). apply rbind_ok in H as (hc&?&H). apply rbind_ok in H as (rv&?&H).
  apply rbind_ok in H as (ru&?&H). apply rbind_ok in H as (rp&?&H). apply rbind_ok in H as (av&?&H).
  apply rbind_ok in H as (pref&Hp&H). apply rbind_ok in H as (dmg&Hd&H). injection H as <-. read_rows.
  split; simpl; try done.
  - exists o, sku, inventory, costs. by split_and!.
  - unfold preference_of_value in Hp. destruct (in_customer_preference i) as [v|]; [|done]. simpl in Hp.
    destruct (String.eqb_spec v "refund") as [->|]; [by injection Hp as <-|].
    destruct (String.eqb_spec v "replacement") as [->|]; [by injection Hp as <-|done].
  - eexists. split; [done|]. simpl. split; [|by destruct (in_human_confirmed i)].
    apply damage_of_value_ok in Hd as <-. unfold or_else. by destruct (in_damage_level i) as [[]|].
Qed.

Lemma case_evaluation_cases i s :
  run_case_evaluation i = Ok s ->
  match s_error s with
  | Some e => s_decision s = None /\ s_reverse s = None /\ evaluation_error i e
  | None => exists c, context_of i c /\
      get "logistics" (s_evidence s) = Some (jdict (lookup (in_order_id i) LOGISTICS)) /\
      (~ wants_reverse i /\ s_decision s = Some (Decision.decide_resolution c) /\ s_reverse s = None \/
       wants_reverse i /\ exists rc, reverse_context_of i c rc /\ s_decision s = None /\
         s_reverse s = Some (decide_reverse_fulfillment rc))
  end.
Proof.
  unfold run_case_evaluation. intros H. apply rbind_ok in H as (s0&B&H).
  apply build_context_spec in B as (D0&R0&B). apply rbind_ok in H as (route&Hr&H).
  destruct (s_error s0) as [e|] eqn:E0.
  { destruct B as [B ?]. rewrite B in H. injection H as <-. by rewrite E0. }
  destruct B as (c&[Ec C L (o&sku&Ho&Hs&Go&Gi&Gc)]). rewrite Ec in H.
  assert (in_issue_type i = issue_value (issue_type c)) as Hi by (destruct C as (?&?&?&?&[]); done).
  destruct (route_spec i s0 _ E0 Hi) as (b&Er&W). rewrite Er in Hr. injection Hr as <-. destruct b; simpl in H.
  - unfold _decide_reverse in H. rewrite Gi, Gc, Go in H. cbn [rbind] in H.
    destruct (lookup sku INVENTORY) as [inv|] eqn:Ei; cbn [jdict] in H;
      [destruct (lookup sku REVERSE_COSTS) as [costs|] eqn:Es; cbn [jdict] in H|].
    + apply rbind_ok in H as (rc&Hrc&H). injection H as <-. simpl. rewrite E0. exists c. do 2 (split; [done|]). right.
      split; [by apply W|]. exists rc. split; [|done]. eapply reverse_context_read; try done. by apply W.
    + rewrite (proj2 (item_str_at _ _ _) Hs) in H. injection H as <-. split_and!; try done.
      eapply no_economics; [by apply W|done..|by right].
    + rewrite (proj2 (item_str_at _ _ _) Hs) in H. injection H as <-. split_and!; try done.
      eapply no_economics; [by apply W|done..|by left].
  - injection H as <-. simpl. rewrite E0. exists c. do 2 (split; [done|]). left. split; [|done].
    intros X%W. done.
Qed.

(** The inputs the graph accepts: an issue, a preference and a damage level that
    exist, and a limit that is not negative. *)
Record acceptable (i : CaseInputs) : Prop := {
  acc_issue : exists issue, in_issue_type i = issue_value issue;
  acc_limit : 0 <= in_operator_refund_limit i;
  acc_preference : in_customer_preference i ∈ [None; Some ""; Some "refund"; Some "replacement"];
  acc_damage : in_damage_level i ∈ [None; Some ""; Some "none"; Some "minor"; Some "major"; Some "destroyed"]
}.

(** The orders of the dataset. *)
Lemma order_known id o : lookup id ORDERS = Some o ->
  id ∈ ["ORDER-1001"; "ORDER-1002"; "ORDER-1003"; "ORDER-1004"].
Proof.
  unfold lookup, ORDERS, order_row. cbn [List.find fst]. repeat match goal with |- context [(?t =? id)%string] =>
    destruct (String.eqb_spec t id) as [<-|_]; [intros _; set_solver|] end. done.
Qed.

Lemma build_runs i issue : in_issue_type i = issue_value issue -> 0 <= in_operator_refund_limit i ->
  is_ok (_build_context i) = true.
Proof.
  intros Hi L. unfold _build_context. destruct (lookup (in_order_id i) ORDERS) as [o|] eqn:Eo; [|done].
  apply order_known in Eo as K. rewrite Hi. unfold checked_input, decision_input_valid.
  assert ((0 <=? in_operator_refund_limit i) = true) as L' by by apply Z.leb_le.
  rewrite !elem_of_cons in K. destruct K as [K|[K|[K|[K|K]]]]; [..|by apply not_elem_of_nil in K]; rewrite K in *;
    (injection Eo as <-); destruct issue; cbn -[Z.leb]; rewrite L'; reflexivity.
Qed.

Lemma reverse_runs i c sku inventory costs : acceptable i -> wants_reverse i ->
  lookup sku INVENTORY = Some inventory -> lookup sku REVERSE_COSTS = Some costs ->
  is_ok (reverse_context i c inventory costs (default "" (in_customer_preference i))) = true.
Proof.
  intros [_ _ P D] [_ W] Hi Hc. unfold reverse_context.
  assert (is_ok (preference_of_value (default "" (in_customer_preference i))) = true) as P'.
  { rewrite !elem_of_cons in P. destruct P as [P|[P|[P|[P|P]]]]; [..|by apply not_elem_of_nil in P]; by rewrite P in *. }
  assert (is_ok (damage_of_value (or_else (in_damage_level i) "none")) = true) as D'.
  { rewrite !elem_of_cons in D. destruct D as [D|[D|[D|[D|[D|[D|D]]]]]]; [..|by apply not_elem_of_nil in D]; by rewrite D. }
  destruct (preference_of_value _); [|done]. destruct (damage_of_value _); [|done].
  revert Hi Hc. unfold lookup, INVENTORY, REVERSE_COSTS, inventory_row, costs_row. cbn [List.find fst]. repeat match goal with |- context [(?t =? sku)%string] =>
    destruct (String.eqb_spec t sku) as [<-|_]; [by intros [= <-] [= <-]|] end. done.
Qed.

Lemma evaluation_runs i : acceptable i -> exists s, run_case_evaluation i = Ok s.
Proof.
  intros A. pose proof A as [[issue Hi] L _ _]. pose proof (build_runs i issue Hi L) as B. unfold run_case_evaluation.
  destruct (_build_context i) as [s0|] eqn:E; [|done]. apply build_context_spec in E as (_&_&E). cbn [rbind].
  destruct (s_error s0) as [e|] eqn:E0.
  { destruct E as [E _]. unfold _route_case. rewrite E0. cbn [rbind]. rewrite E. by eexists. }
  destruct E as (c&[Ec C _ (o&sku&_&Hs&Go&Gi&Gc)]). rewrite Ec.
  destruct (route_spec i s0 issue E0 Hi) as ([]&->&W); cbn [rbind]; [|by eexists].
  simpl. unfold _decide_reverse. rewrite Gi, Gc, Go.
  assert (item_str "sku" o = Ok sku) as Es by by apply item_str_at.
  destruct (lookup sku INVENTORY) as [inv|] eqn:Ei; cbn [jdict]; [|rewrite Es; by eexists].
  destruct (lookup sku REVERSE_COSTS) as [costs|] eqn:Es'; cbn [jdict]; [|rewrite Es; by eexists].
  pose proof (reverse_runs i c sku inv costs A (proj1 W eq_refl) Ei Es') as R.
  destruct (reverse_context _ _ _ _ _); [by eexists|done].
Qed.

(** C33: case evaluation is a function of the server's data.  On every
    acceptable input the graph ends.  Whenever it ends it has an error -- the
    order, its payment, its policy, or for a return or replacement the economics
    of its article, are not in the data -- and no decision, or exactly one
    decision, of the one context that the data give the case: that order, its
    payment, logistics and customer with record and profile, the policy of its
    region and the operator's limit.  A reverse issue with a preference gets the
    reverse decision of the article's economics, everything else the resolution,
    which never refunds more than the payment's balance. *)
Theorem case_evaluation_spec i :
  (acceptable i -> exists s, run_case_evaluation i = Ok s) /\
  forall s, run_case_evaluation i = Ok s ->
  match s_error s with
  | Some e => s_decision s = None /\ s_reverse s = None /\ evaluation_error i e
  | None => exists c, context_of i c /\ (forall c', context_of i c' -> c' = c) /\
      (~ wants_reverse i /\ s_reverse s = None /\ s_decision s = Some (Decision.decide_resolution c) /\
         0 <= refund_amount (Decision.decide_resolution c) <= refundable_balance (payment c) \/
       wants_reverse i /\ exists rc, reverse_context_of i c rc /\
         s_decision s = None /\ s_reverse s = Some (decide_reverse_fulfillment rc))
  end.
Proof.
  split; [apply evaluation_runs|]. intros s H. apply case_evaluation_cases in H. destruct (s_error s); [done|].
  destruct H as (c&C&_&D). exists c. split; [done|]. split; [intros c' C'; by eapply context_unique|].
  destruct D as [(W&D&R)|D]; [left|by right]. split_and!; try done;
    apply Decision.decide_resolution_amount; by destruct C as (?&?&?&?&[]).
Qed.

Definition demo_inputs (order issue : string) (pref : option string) : CaseInputs :=
  {| in_order_id := order; in_issue_type := issue; in_operator_refund_limit := 20000;
     in_visual_evidence_confirmed := true; in_customer_preference := pref;
     in_damage_level := Some "minor"; in_human_confirmed := Some true; in_serial_matches := None |}.

Lemma case_evaluation_spec_witness :
  let i := demo_inputs "ORDER-1003" "quality_issue" (Some "replacement") in
  acceptable i /\ exists s c rc, run_case_evaluation i = Ok s /\ s_error s = None /\ context_of i c /\
    reverse_context_of i c rc /\ s_reverse s = Some (decide_reverse_fulfillment rc) /\ item_value rc = 32800.
Proof.
  intros i. assert (acceptable i) as A by (split; [by exists QUALITY_ISSUE|done|simpl; set_solver|simpl; set_solver]).
  split; [exact A|]. destruct (case_evaluation_spec i) as [R S]. destruct (R A) as (s&E). specialize (S s E).
  assert (s_error s = None /\ s_decision s = None) as [N D] by (vm_compute in E; injection E as <-; split; reflexivity).
  rewrite N in S. destruct S as (c&C&_&[(_&_&D'&_)|(_&rc&Rc&_&Hr)]); [rewrite D in D'; discriminate D'|].
  exists s, c, rc. repeat (split; [done|]). rewrite (rev_value _ _ _ Rc).
  destruct C as (o&?&?&?&[V Ho]). injection Ho as <-. apply (int_at_fun "item_paid" (order_row "ORDER-1003" "CUSTOMER-003" "KETTLE-SMART" 32800 800 "delivered").2); [done|reflexivity].
Defined.

End Workflow.
