(* ===== verification/Intake.v ===== *)
(** * Complaint intake

    [intake.py]: extraction of the order number, the issue and the expectation
    from free text, and the evaluation of an intake into a case's status, next
    step, evidence and reply. *)
From S2P Require Import Prelude Sha256 Json Errors Float64 Schemas Decision Text Reverse Codec Workflow.
Import Json Errors Schemas Text Workflow.

Module Intake.

(** ** Text patterns *)

(** The Unicode classes of [re] outside ASCII: which code points [\w] and [\d]
    match. *)
Class UnicodeClasses := { unicode_word : string -> bool; unicode_digit : string -> bool }.

Section extraction.
Context `{UnicodeClasses}.

Definition ascii_between (lo hi : N) (c : string) : bool :=
match c with
| String a EmptyString => let n := N_of_ascii a in ((lo <=? n) && (n <=? hi))%N
| _ => false
end.

Definition is_ascii (c : string) : bool := ascii_between 0 127 c.

(** [\d] and [\w] on one code point *)
Definition is_digit (c : string) : bool :=
if is_ascii c then ascii_between 48 57 c else unicode_digit c.
Definition is_word (c : string) : bool :=
if is_ascii c then
ascii_between 48 57 c || ascii_between 65 90 c || ascii_between 97 122 c || (c =? "_")%string
else unicode_word c.

Fixpoint span (f : string -> bool) (l : list string) : nat :=
match l with x :: l => if f x then S (span f l) else O | [] => O end.

Definition ends_word (l : list string) : bool :=
match l with x :: _ => negb (is_word x) | [] => true end.

(** [\bORDER-\d+\b], ignoring case, at this position: the length of the
match. [prev] is the code point before.  A shorter run of digits never
helps, since the boundary after it would lie between two digits. *)
Definition match_order (prev : option string) (l : list string) : option nat :=
if match prev with Some c => is_word c | None => false end then None
else if negb (bool_decide (map lower (take 6 l) = ["o"; "r"; "d"; "e"; "r"; "-"])) then None
else
let n := span is_digit (drop 6 l) in
if bool_decide (n = O) then None
else if ends_word (drop (6 + n) l) then Some (6 + n)%nat else None.

(** [findall]: the matches from left to right, without overlap. *)
Fixpoint find_orders (prev : option string) (skip : nat) (l : list string) : list string :=
match l with
| [] => []
| x :: l' =>
  match skip with
  | S k => find_orders (Some x) k l'
  | O =>
      match match_order prev l with
      | Some n => text_of (take n l) :: find_orders (Some x) (pred n) l'
      | None => find_orders (Some x) O l'
      end
  end
end.

(** [list(dict.fromkeys(...))] *)
Fixpoint dedupe (seen : list string) (l : list string) : list string :=
match l with
| [] => []
| x :: l => if bool_decide (x ∈ seen) then dedupe seen l else x :: dedupe (x :: seen) l
end.

Definition order_ids (text : string) : list string :=
dedupe [] (map ReverseExecution.upper (find_orders None O (chars text))).

Definition _ISSUE_TERMS : list (IssueType * list string) :=
[(DELIVERY_NOT_RECEIVED, ["没收到"; "未收到"; "没有收到"; "not received"]);
 (WRONG_ITEM, ["错发"; "发错"; "wrong item"]);
 (DAMAGED_ITEM, ["破损"; "损坏"; "碎了"; "坏了"; "damaged"]);
 (QUALITY_ISSUE, ["没声音"; "故障"; "质量"; "不能用"; "quality"]);
 (REFUND_AMOUNT_DISPUTE, ["退款金额"; "少退"; "金额争议"])].

Definition _ISSUE_ALIASES : list (string * string) :=
[("not_received", "delivery_not_received"); ("delivery_issue", "delivery_not_received");
 ("damaged", "damaged_item"); ("wrong", "wrong_item"); ("quality", "quality_issue");
 ("refund_dispute", "refund_amount_dispute")].

Definition normalize_issue_type (value : option string) : option string :=
match value with
| None => None
| Some v =>
  let v := lower (strip v) in
  if bool_decide (v ∈ map issue_value all_issues) then Some v
  else MockData.lookup v _ISSUE_ALIASES
end.

Definition mentions (text : string) (terms : list string) : bool :=
existsb (fun term => contains term (lower text)) terms.

Record Extracted := {
x_order_id : option string; x_issue_type : option string; x_expectation : option string
}.

Definition extract_intake (complaint_text : string) : Extracted :=
let text := strip complaint_text in
{| x_order_id := match order_ids text with [o] => Some o | _ => None end;
 x_issue_type := normalize_issue_type
   (option_map (fun kt => issue_value kt.1)
      (List.find (fun kt => mentions text kt.2) _ISSUE_TERMS));
 x_expectation :=
   if mentions text ["换一个"; "换货"; "补发"; "replacement"; "replace"] then Some "replacement"
   else if mentions text ["退款"; "退钱"; "refund"] then Some "refund"
   else None |}.
End extraction.

(** ** Evaluation *)

Record IntakeInputs := {
  i_complaint_text : string;
  i_order_id : option string;
  i_issue_type : option string;
  i_customer_expectation : option string;
  i_operator_refund_limit : Z;
  i_visual_evidence_confirmed : bool;
  i_damage_level : option string;
  i_serial_matches : option bool;
  i_revision : Z
}.

Record Evaluated := {
  r_status : string;
  r_next_step : string;
  r_decision : dict;
  r_evidence : dict;
  r_reply_draft : string
}.

Definition jbool (b : option bool) : json := match b with Some b => JBool b | None => JNull end.

Definition intake_json (i : IntakeInputs) : dict :=
  [("complaint_text", JStr (i_complaint_text i));
   ("customer_expectation", jopt (i_customer_expectation i));
   ("visual_evidence_confirmed", JBool (i_visual_evidence_confirmed i));
   ("damage_level", jopt (i_damage_level i));
   ("serial_matches", jbool (i_serial_matches i))].

(** [not value] *)
Definition absent (o : option string) : bool :=
  match o with Some s => (s =? "")%string | None => true end.

Definition missing_fields (i : IntakeInputs) : list string :=
  (if absent (i_order_id i) then ["order_id"] else []) ++
  (if absent (i_issue_type i) then ["issue_type"] else []).

Definition bare_evidence (i : IntakeInputs) (missing : list string) : dict :=
  [("intake", JObj (intake_json i)); ("claims", JList [JStr (i_complaint_text i)]);
   ("facts", JList []); ("sources", JList []); ("missing", Codec.strings missing);
   ("conflicts", JList []); ("revision", JInt (i_revision i))].

Definition clarification (i : IntakeInputs) (missing : list string) : Evaluated :=
  {| r_status := "awaiting_clarification";
     r_next_step := "clarify_" +:+ hd "" missing;
     r_decision := [];
     r_evidence := bare_evidence i missing;
     r_reply_draft :=
       match missing with
       | [m] => "请补充" +:+ (if (m =? "order_id")%string then "订单号" else "具体问题")
                +:+ "后，我会继续处理。"
       | _ => "请补充订单号和具体问题后，我会继续处理。"
       end |}.

Definition unverified (i : IntakeInputs) : Evaluated :=
  {| r_status := "awaiting_clarification"; r_next_step := "verify_order"; r_decision := [];
     r_evidence := bare_evidence i ["valid_order"];
     r_reply_draft := "未找到该订单，请核对订单号。" |}.

Definition facts_of (raw : dict) (snapshot_at : string) : list (string * json) :=
  omap (fun kv : string * json =>
    match kv.2 with
    | JNull => None
    | v => if (kv.1 =? "visual_evidence_confirmed")%string then None
           else Some (kv.1, JObj [("source", JStr kv.1); ("value", v);
                                  ("acquired_at", JStr snapshot_at)])
    end) raw.

(** [raw.get("logistics", {}).get("proof_of_delivery")] *)
Definition raw_pod (raw : dict) : result bool :=
  match get "logistics" raw with
  | None => Ok false
  | Some (JObj l) => Ok (match get "proof_of_delivery" l with Some j => truthy j | None => false end)
  | Some _ => Raise (Exn (Subclass "AttributeError" ExceptionC) "get")
  end.

Definition conflicts_of (i : IntakeInputs) (raw : dict) : result (list string) :=
  if bool_decide (i_issue_type i = Some "delivery_not_received") then
    pod <-? raw_pod raw ;;
    Ok (if (pod : bool) then ["customer_reports_not_received_but_carrier_has_proof_of_delivery"] else [])
  else Ok [].

Definition full_evidence (i : IntakeInputs) (raw : dict) (snapshot_at : string)
    (missing conflicts : list string) : dict :=
  let facts := facts_of raw snapshot_at in
  foldl (fun d kv => set_key kv.1 kv.2 d) raw
    [("intake", JObj (intake_json i)); ("claims", JList [JStr (i_complaint_text i)]);
     ("facts", JList (map snd facts));
     ("sources", Codec.strings (merge_sort String.le (remove_dups (map fst facts))));
     ("missing", Codec.strings missing); ("conflicts", Codec.strings conflicts);
     ("snapshot_at", JStr snapshot_at); ("revision", JInt (i_revision i))].

Definition case_inputs (i : IntakeInputs) : CaseInputs :=
  {| in_order_id := default "" (i_order_id i);
     in_issue_type := default "" (i_issue_type i);
     in_operator_refund_limit := i_operator_refund_limit i;
     in_visual_evidence_confirmed := i_visual_evidence_confirmed i;
     in_customer_preference :=
       if bool_decide (i_customer_expectation i = Some "replacement") then Some "replacement" else None;
     in_damage_level := i_damage_level i;
     in_human_confirmed := Some (i_visual_evidence_confirmed i);
     in_serial_matches := i_serial_matches i |}.

Definition evaluate_intake (i : IntakeInputs) (now : Z) : result Evaluated :=
  let missing := missing_fields i in
  if negb (bool_decide (missing = [])) then Ok (clarification i missing)
  else
  state <-? run_case_evaluation (case_inputs i) ;;
  match s_error state with
  | Some _ => Ok (unverified i)
  | None =>
  let snapshot_at := Clock.isoformat now in
  let raw := s_evidence state in
  conflicts <-? conflicts_of i raw ;;
  match s_reverse state with
  | Some reverse =>
      let missing := Reverse.rd_missing_evidence reverse in
      let wait := negb (bool_decide (missing = [])) in
      Ok {| r_status := if wait then "awaiting_evidence" else "decided";
            r_next_step := if wait then "confirm_visual_evidence" else "create_action";
            r_decision := [("route", JStr "reverse"); ("reverse", JObj (Codec.reverse_json reverse))];
            r_evidence := full_evidence i raw snapshot_at missing conflicts;
            r_reply_draft := if wait then "需要客服人工确认图片证据后再继续。"
                             else "已根据库存、残值与履约成本形成处理方案，待提交审批。" |}
  | None =>
      refund <-? of_option (s_decision state) (Exn KeyError "decision") ;;
      let missing := Schemas.missing_evidence refund in
      let wait := negb (bool_decide (missing = [])) || negb (bool_decide (conflicts = [])) in
      Ok {| r_status := if wait then "awaiting_evidence" else "decided";
            r_next_step := if wait then "supplement_evidence" else "create_action";
            r_decision := Codec.decision_json refund;
            r_evidence := full_evidence i raw snapshot_at missing conflicts;
            r_reply_draft := if wait then "还需要补充证据或核对签收差异，当前不会执行退款。"
                             else "已完成规则评估，处理方案待提交审批。" |}
  end
  end.

(** ** What an evaluation concludes *)

Definition reverse_decision (r : Reverse.ReverseDecision) : dict :=
  [("route", JStr "reverse"); ("reverse", JObj (Codec.reverse_json r))].

(** An order and an issue are named. *)
Definition complete (i : IntakeInputs) : Prop :=
  (exists o, i_order_id i = Some o /\ o <> "") /\ (exists t, i_issue_type i = Some t /\ t <> "").

Lemma absent_spec o : absent o = false <-> exists s, o = Some s /\ s <> "".
Proof.
  unfold absent. destruct o as [s|]; [|by split; [|intros (?&?&?)]]. rewrite String.eqb_neq.
  split; [by exists s|]. by intros (?&[= <-]&?).
Qed.

Lemma missing_none i : missing_fields i = [] <-> complete i.
Proof.
  unfold missing_fields, complete. rewrite <-!absent_spec.
  destruct (absent (i_order_id i)), (absent (i_issue_type i)); simpl; naive_solver.
Qed.

(** The carrier can prove that it delivered what is reported as not received. *)
Definition contradicted (c : DecisionInput) : Prop :=
  Schemas.issue_type c = DELIVERY_NOT_RECEIVED /\ exists l, logistics c = Some l /\ proof_of_delivery l = true.

(** A status that waits for evidence until [ready]. *)
Definition waits_until (ready : Prop) (status : string) : Prop :=
  (ready /\ status = "decided") \/ (~ ready /\ status = "awaiting_evidence").

(** The three outcomes: the complaint has to be clarified, and nothing is
    decided; or it got the refund decision of its context; or a reverse one. *)
Inductive outcome (i : IntakeInputs) (r : Evaluated) : Prop :=
| out_clarify : ~ complete i \/ (exists e, evaluation_error (case_inputs i) e) ->
    r_status r = "awaiting_clarification" -> r_decision r = [] -> outcome i r
| out_refund c :
    complete i -> context_of (case_inputs i) c -> ~ wants_reverse (case_inputs i) ->
    r_decision r = Codec.decision_json (Decision.decide_resolution c) ->
    waits_until (missing_evidence (Decision.decide_resolution c) = [] /\ ~ contradicted c) (r_status r) ->
    outcome i r
| out_reverse c rc :
    complete i -> context_of (case_inputs i) c -> wants_reverse (case_inputs i) ->
    reverse_context_of (case_inputs i) c rc ->
    r_decision r = reverse_decision (Reverse.decide_reverse_fulfillment rc) ->
    waits_until (Reverse.rd_missing_evidence (Reverse.decide_reverse_fulfillment rc) = []) (r_status r) ->
    outcome i r.

Lemma conflicts_spec i raw c l :
  context_of (case_inputs i) c ->
  get "logistics" raw = Some (jdict (MockData.lookup (in_order_id (case_inputs i)) MockData.LOGISTICS)) ->
  i_issue_type i = Some (issue_value (Schemas.issue_type c)) ->
  conflicts_of i raw = Ok l -> l = [] <-> ~ contradicted c.
Proof.
  intros (?&?&?&?&C) L Hi H. unfold conflicts_of in H. rewrite Hi in H. unfold contradicted.
  case_bool_decide as D.
  - assert (Schemas.issue_type c = DELIVERY_NOT_RECEIVED) as E by (by destruct (Schemas.issue_type c)).
    apply rbind_ok in H as (pod&P&H). unfold raw_pod in P. rewrite L in P. pose proof (ctx_logistics _ _ _ _ _ _ C) as X.
    destruct (MockData.lookup _ MockData.LOGISTICS) as [d|]; [|done]. destruct (logistics c) as [e|]; [|done].
    destruct X as [_ X]. simpl in P. rewrite X in P. simpl in P. injection P as <-. injection H as <-.
    rewrite E. destruct (proof_of_delivery e) eqn:Pe; (split; [|try done]).
    + done.
    + intros []. split; [done|by exists e].
    + intros _ [_ (e'&[= <-]&?)]. congruence.
  - injection H as <-. split; [|done]. intros _ [E _]. by rewrite E in D.
Qed.

Lemma waits_if (b : bool) P : (b = false <-> P) ->
  waits_until P (if b then "awaiting_evidence" else "decided").
Proof. intros H. destruct b; [right|left]; (split; [|done]); [by intros ?%H|by apply H]. Qed.

Lemma evaluate_intake_outcome i now r : evaluate_intake i now = Ok r -> outcome i r.
Proof.
  unfold evaluate_intake. destruct (bool_decide (missing_fields i = [])) eqn:M; simpl;
    [apply bool_decide_eq_true in M|apply bool_decide_eq_false in M];
    [|intros [= <-]; apply out_clarify; try done; left; by rewrite <-missing_none].
  intros H. apply rbind_ok in H as (s&Hs&H). apply case_evaluation_cases in Hs.
  destruct (s_error s) as [e|]; [injection H as <-; apply out_clarify; try done; right; exists e; apply Hs|].
  destruct Hs as (c&C&L&Hs). apply rbind_ok in H as (conflicts&Hc&H). apply missing_none in M.
  destruct Hs as [(W&D&R)|(W&rc&Rc&D&R)]; rewrite R in H.
  - rewrite D in H. simpl in H. injection H as <-. apply (out_refund _ _ c); simpl; try done.
    apply waits_if. rewrite orb_false_iff, !negb_false_iff, !bool_decide_eq_true. apply and_iff_compat_l.
    eapply conflicts_spec; [exact C|exact L| |exact Hc]. destruct M as [_ (t&Et&_)].
    destruct C as (?&?&?&?&C). pose proof (ctx_issue _ _ _ _ _ _ C) as Ei. simpl in Ei. rewrite Et in *. by rewrite Ei.
  - injection H as <-. eapply (out_reverse _ _ c rc); simpl; try done.
    apply waits_if. by rewrite negb_false_iff, bool_decide_eq_true.
Qed.

(** C34: intake decides only what is complete, and on the case's own data.  An
    evaluation that does not name an order and an issue, or names ones that the
    data do not cover, asks for clarification and decides nothing.  Any other
    stores the one decision of the case's own context: a return or replacement
    on the economics of its article where that is asked for, else the
    resolution; it is decided exactly when the decision misses no evidence and,
    for a parcel reported as not received, the carrier has no proof of delivery,
    and until then it waits for evidence. *)
Theorem intake_decides_complete i now r (H : evaluate_intake i now = Ok r) :
  ((~ complete i \/ exists e, evaluation_error (case_inputs i) e) /\
     r_status r = "awaiting_clarification" /\ r_decision r = []) \/
  (complete i /\ exists c, context_of (case_inputs i) c /\ (forall c', context_of (case_inputs i) c' -> c' = c) /\
     ((~ wants_reverse (case_inputs i) /\
         r_decision r = Codec.decision_json (Decision.decide_resolution c) /\
         waits_until (missing_evidence (Decision.decide_resolution c) = [] /\ ~ contradicted c) (r_status r)) \/
      (wants_reverse (case_inputs i) /\ exists rc, reverse_context_of (case_inputs i) c rc /\
         r_decision r = reverse_decision (Reverse.decide_reverse_fulfillment rc) /\
         waits_until (Reverse.rd_missing_evidence (Reverse.decide_reverse_fulfillment rc) = []) (r_status r)))).
Proof.
  apply evaluate_intake_outcome in H as [M S D|c M C W D S|c rc M C W Rc D S]; [by left|right..];
    (split; [done|]); exists c; (split; [done|]); (split; [intros c' C'; by eapply context_unique|]).
  - left. by split_and!.
  - right. split; [done|]. by exists rc.
Qed.

Definition demo_intake (issue : string) (visual : bool) : IntakeInputs :=
  {| i_complaint_text := "text"; i_order_id := Some "ORDER-1001"; i_issue_type := Some issue;
     i_customer_expectation := None; i_operator_refund_limit := 20000;
     i_visual_evidence_confirmed := visual; i_damage_level := None; i_serial_matches := None;
     i_revision := 1 |}.

Lemma intake_decides_complete_witness :
  let i := demo_intake "delivery_not_received" false in
  exists r c, evaluate_intake i 0 = Ok r /\ r_status r = "decided" /\ complete i /\
    context_of (case_inputs i) c /\ r_decision r = Codec.decision_json (Decision.decide_resolution c) /\
    missing_evidence (Decision.decide_resolution c) = [].
Proof.
  intros i. destruct (evaluate_intake i 0) as [r|e] eqn:E; [|vm_compute in E; discriminate E].
  assert (r_status r = "decided") as S by (clear - E; vm_compute in E; injection E as <-; reflexivity).
  destruct (intake_decides_complete _ _ _ E) as [(_&S'&_)|(C&c&X&_&[(_&D&W)|([W _]&_)])].
  - rewrite S in S'. discriminate S'.
  - exists r, c. destruct W as [[[W _] _]|[_ W]]; [|rewrite S in W; discriminate W]. by split_and!.
  - simpl in W. by rewrite !elem_of_cons in W; destruct W as [W|[W|[W|W%not_elem_of_nil]]].
Defined.

(** The answer to an order the reverse data does not cover is misleading.
    A replacement for the existing order ORDER-1004 is answered like an
    unknown order: verify the order number, order not found. *)
Theorem known_order_reported_missing now :
  let i := {| i_complaint_text := "text"; i_order_id := Some "ORDER-1004";
              i_issue_type := Some "damaged_item"; i_customer_expectation := Some "replacement";
              i_operator_refund_limit := 20000; i_visual_evidence_confirmed := true;
              i_damage_level := None; i_serial_matches := None; i_revision := 1 |} in
  is_Some (MockData.lookup "ORDER-1004" MockData.ORDERS) /\
  evaluate_intake i now = Ok (unverified i) /\ r_next_step (unverified i) = "verify_order".
Proof. cbv zeta. split; [by eexists|]. split; [|done]. vm_compute. reflexivity. Qed.

End Intake.
