(* ===== verification/RiskOps.v ===== *)
(** * Detection of operating anomalies

    [risk_ops.py]: the alerts raised on the issue rates and losses of a sku, a
    carrier or a warehouse against the previous period, with Python's floats;
    and the demo metrics of [mock_data.py] the agent's tool scans. *)
From S2P Require Import Prelude Json Errors Float64 Text.
Import Errors Float64.

Module RiskOps.

Record MetricBucket := {
  dimension : string;
  value : string;
  issue_type : string;
  current_orders : Z;
  current_issue_cases : Z;
  previous_orders : Z;
  previous_issue_cases : Z;
  current_loss_amount : Z
}.

(** The constraints of the model's fields. *)
Definition bucket_valid (b : MetricBucket) : bool :=
  bool_decide (dimension b ∈ ["sku"; "carrier"; "warehouse"]) &&
  negb (value b =? "")%string && negb (issue_type b =? "")%string &&
  (0 <=? current_orders b) && (0 <=? current_issue_cases b) && (0 <=? previous_orders b) &&
  (0 <=? previous_issue_cases b) && (0 <=? current_loss_amount b).

Record OperationsAlert := {
  al_dimension : string;
  al_value : string;
  al_issue_type : string;
  severity : string;
  al_current_rate : float;
  al_previous_rate : float;
  al_current_loss_amount : Z;
  al_signals : list string
}.

Record Thresholds := {
  minimum_orders : Z;
  minimum_issue_cases : Z;
  minimum_issue_rate : float;
  minimum_rate_uplift : float;
  loss_threshold : Z
}.

Definition default_thresholds : Thresholds :=
  {| minimum_orders := 50; minimum_issue_cases := 5; minimum_issue_rate := rnd 5 100;
     minimum_rate_uplift := rnd 3 2; loss_threshold := 500000 |}.

Definition current_rate (b : MetricBucket) : float := int_div (current_issue_cases b) (current_orders b).

Definition previous_rate (b : MetricBucket) : float :=
  if previous_orders b =? 0 then fzero else int_div (previous_issue_cases b) (previous_orders b).

Definition rate_spike (t : Thresholds) (b : MetricBucket) : bool :=
  (minimum_issue_cases t <=? current_issue_cases b) && fle (minimum_issue_rate t) (current_rate b) &&
  (feq (previous_rate b) fzero || fle (fmul (previous_rate b) (minimum_rate_uplift t)) (current_rate b)).

Definition loss_spike (t : Thresholds) (b : MetricBucket) : bool :=
  loss_threshold t <=? current_loss_amount b.

Definition signals_of (t : Thresholds) (b : MetricBucket) : list string :=
  (if rate_spike t b then ["issue_rate_spike"] else []) ++
  (if loss_spike t b then ["loss_threshold_exceeded"] else []).

Definition severity_of (t : Thresholds) (b : MetricBucket) : string :=
  if fle (fmul (minimum_issue_rate t) (of_int 2)) (current_rate b)
     || (loss_threshold t * 2 <=? current_loss_amount b)
  then "high" else "medium".

Definition alert_of (t : Thresholds) (b : MetricBucket) : OperationsAlert :=
  {| al_dimension := dimension b; al_value := value b; al_issue_type := issue_type b;
     severity := severity_of t b; al_current_rate := round6 (current_rate b);
     al_previous_rate := round6 (previous_rate b);
     al_current_loss_amount := current_loss_amount b; al_signals := signals_of t b |}.

Definition ZeroDivisionError : exn_class := Subclass "ZeroDivisionError" ArithmeticError.

(** One round of the loop: nothing, an alert, or a division by no orders. *)
Definition examine (t : Thresholds) (b : MetricBucket) : result (option OperationsAlert) :=
  if current_orders b <? minimum_orders t then Ok None
  else if current_orders b =? 0 then Raise (Exn ZeroDivisionError "division by zero")
  else Ok (match signals_of t b with [] => None | _ :: _ => Some (alert_of t b) end).

Fixpoint alerts_of (t : Thresholds) (buckets : list MetricBucket) : result (list OperationsAlert) :=
  match buckets with
  | [] => Ok []
  | b :: buckets =>
      o <-? examine t b ;; l <-? alerts_of t buckets ;;
      Ok (match o with Some a => a :: l | None => l end)
  end.

(** [key(a) <= key(b)], the tuples [(severity != "high", -loss, value)]. *)
Definition alert_le (a b : OperationsAlert) : bool :=
  let ha := (severity a =? "high")%string in
  let hb := (severity b =? "high")%string in
  if negb (Bool.eqb ha hb) then ha
  else if negb (al_current_loss_amount a =? al_current_loss_amount b)
  then al_current_loss_amount b <? al_current_loss_amount a
  else bool_decide (String.le (al_value a) (al_value b)).

Definition detect_after_sales_anomalies (t : Thresholds) (buckets : list MetricBucket)
  : result (list OperationsAlert) :=
  l <-? alerts_of t buckets ;; Ok (stable_sort alert_le l).

(** ** mock_data.OPERATIONS_METRICS *)
Definition bucket (d v i : string) (o c po pc loss : Z) : MetricBucket :=
  {| dimension := d; value := v; issue_type := i; current_orders := o; current_issue_cases := c;
     previous_orders := po; previous_issue_cases := pc; current_loss_amount := loss |}.

Definition OPERATIONS_METRICS : list MetricBucket :=
  [bucket "sku" "KETTLE-SMART" "damaged_item" 100 12 100 3 700000;
   bucket "carrier" "DEMO-EXPRESS" "delivery_not_received" 1000 80 1100 30 1400000;
   bucket "warehouse" "WH-01" "wrong_item" 400 40 420 10 480000;
   bucket "sku" "HEADSET-LITE" "quality_issue" 500 8 480 7 60000].

(** [scan_after_sales_operations]: the tool's window and alerts. *)
Definition scan_after_sales_operations_tool (minimum_orders : Z) (minimum_issue_rate : float)
    (loss_threshold : Z) : result (string * list OperationsAlert) :=
  alerts <-? detect_after_sales_anomalies
    {| minimum_orders := minimum_orders; minimum_issue_cases := 5;
       minimum_issue_rate := minimum_issue_rate; minimum_rate_uplift := rnd 3 2;
       loss_threshold := loss_threshold |} OPERATIONS_METRICS ;;
  Ok ("current_30d_vs_previous_30d", alerts).

Example demo_scan :
  match scan_after_sales_operations_tool 50 (rnd 5 100) 500000 with
  | Ok (_, l) => map (fun a => (al_value a, severity a)) l
  | Raise _ => []
  end = [("DEMO-EXPRESS", "high"); ("KETTLE-SMART", "high"); ("WH-01", "high")].
Proof. vm_compute. reflexivity. Qed.

(** ** What is detected *)

Lemma alert_le_total a b : alert_le a b = true \/ alert_le b a = true.
Proof.
  unfold alert_le. destruct (severity a =? "high")%string, (severity b =? "high")%string; simpl; auto.
  all: rewrite (Z.eqb_sym (al_current_loss_amount b)).
  all: destruct (Z.eqb_spec (al_current_loss_amount a) (al_current_loss_amount b)); simpl.
  all: rewrite ?Z.ltb_lt, ?bool_decide_eq_true; try lia; apply (total String.le).
Qed.

Lemma alert_le_trans a b c : alert_le a b = true -> alert_le b c = true -> alert_le a c = true.
Proof.
  unfold alert_le.
  destruct (severity a =? "high")%string, (severity b =? "high")%string,
    (severity c =? "high")%string; simpl; try done.
  all: destruct (Z.eqb_spec (al_current_loss_amount a) (al_current_loss_amount b)) as [E1|E1],
         (Z.eqb_spec (al_current_loss_amount b) (al_current_loss_amount c)) as [E2|E2],
         (Z.eqb_spec (al_current_loss_amount a) (al_current_loss_amount c)) as [E3|E3]; simpl;
         rewrite ?Z.ltb_lt, ?bool_decide_eq_true; try lia.
  all: intros; by etransitivity.
Qed.

(** The alerts, bucket by bucket, when no bucket divides by zero. *)
Definition reported (t : Thresholds) (b : MetricBucket) : option OperationsAlert :=
  if (minimum_orders t <=? current_orders b) && negb (bool_decide (signals_of t b = []))
  then Some (alert_of t b) else None.

Lemma alerts_of_spec t l :
  0 < minimum_orders t -> alerts_of t l = Ok (omap (reported t) l).
Proof.
  intros M. induction l as [|b l IH]; simpl; [done|]. rewrite IH. unfold examine, reported.
  rewrite (Z.leb_antisym (current_orders b)). destruct (Z.ltb_spec (current_orders b) (minimum_orders t)); [done|].
  destruct (Z.eqb_spec (current_orders b) 0); [lia|]. by destruct (signals_of t b).
Qed.

(** A bucket like [b], with at least as many issues and losses. *)
Definition worse (b b' : MetricBucket) : Prop :=
  current_orders b' = current_orders b /\ previous_orders b' = previous_orders b /\
  previous_issue_cases b' = previous_issue_cases b /\
  current_issue_cases b <= current_issue_cases b' /\ current_loss_amount b <= current_loss_amount b'.

Lemma current_rate_mono b b' :
  0 < current_orders b -> 0 <= current_issue_cases b -> worse b b' ->
  fle (current_rate b) (current_rate b') = true.
Proof. intros O C (E&_&_&L&_). unfold current_rate. rewrite E. apply rnd_mono; nia. Qed.

Lemma signals_mono t b b' :
  0 < current_orders b -> 0 <= current_issue_cases b -> worse b b' ->
  forall x, x ∈ signals_of t b -> x ∈ signals_of t b'.
Proof.
  intros O C W x. pose proof (current_rate_mono b b' O C W) as M. destruct W as (_&E1&E2&L&L').
  unfold signals_of. rewrite !elem_of_app. intros [H|H]; [left|right].
  - destruct (rate_spike t b) eqn:R; [|by apply not_elem_of_nil in H].
    replace (rate_spike t b') with true; [done|]. symmetry. revert R. unfold rate_spike.
    assert (previous_rate b' = previous_rate b) as -> by (unfold previous_rate; by rewrite E1, E2).
    rewrite !andb_true_iff, !orb_true_iff, !Z.leb_le. intros ((R1&R2)&R3). split_and!; [lia| |].
    + by eapply fle_trans.
    + destruct R3; [by left|right]. by eapply fle_trans.
  - unfold loss_spike in *. destruct (Z.leb_spec (loss_threshold t) (current_loss_amount b));
      [|by apply not_elem_of_nil in H].
    destruct (Z.leb_spec (loss_threshold t) (current_loss_amount b')); [done|lia].
Qed.

Lemma severity_mono t b b' :
  0 < current_orders b -> 0 <= current_issue_cases b -> worse b b' ->
  severity_of t b = "high" -> severity_of t b' = "high".
Proof.
  intros O C W. pose proof (current_rate_mono b b' O C W) as M. destruct W as (_&_&_&_&L').
  unfold severity_of. destruct (_ || _) eqn:E; [|done]. intros _.
  replace (_ || _) with true; [done|]. symmetry. revert E. rewrite !orb_true_iff, !Z.leb_le.
  intros [R|R]; [left; by eapply fle_trans|right; lia].
Qed.

(** The scan is complete, ordered and monotone.  With a positive order
    minimum the scan succeeds and returns, sorted by severity, loss and value,
    exactly one alert for every bucket with enough orders and a signal; and a
    bucket with more issues and losses than a reported one is reported too,
    with all its signals and at least its severity. *)
Theorem anomaly_scan_spec t l (Hm : 0 < minimum_orders t) :
  exists alerts, detect_after_sales_anomalies t l = Ok alerts /\
    alerts ≡ₚ omap (reported t) l /\
    StronglySorted (fun a b => alert_le a b = true) alerts /\
    forall b b' a, bucket_valid b = true -> worse b b' -> reported t b = Some a ->
      exists a', reported t b' = Some a' /\ (forall x, x ∈ al_signals a -> x ∈ al_signals a') /\
        (severity a = "high" -> severity a' = "high").
Proof.
  exists (stable_sort alert_le (omap (reported t) l)). split_and!.
  - unfold detect_after_sales_anomalies. by rewrite alerts_of_spec.
  - apply stable_sort_perm.
  - apply stable_sort_sorted; [apply alert_le_total|apply alert_le_trans].
  - intros b b' a V W R. unfold bucket_valid in V. bprop. unfold reported in *.
    destruct (Z.leb_spec (minimum_orders t) (current_orders b)); simpl in R; [|done].
    destruct (bool_decide (signals_of t b = [])) eqn:N; simpl in R; [done|]. injection R as <-.
    assert (0 < current_orders b) as O by lia. assert (0 <= current_issue_cases b) as C by lia.
    pose proof (signals_mono t b b' O C W) as Sm. pose proof (severity_mono t b b' O C W) as Vm.
    exists (alert_of t b'). split_and!; [|done|done].
    destruct W as (->&_). destruct (Z.leb_spec (minimum_orders t) (current_orders b)); [|lia]. simpl.
    rewrite bool_decide_eq_false_2; [done|]. intros E. apply bool_decide_eq_false in N.
    destruct (signals_of t b) as [|x xs]; [done|]. specialize (Sm x ltac:(by left)).
    rewrite E in Sm. by apply not_elem_of_nil in Sm.
Qed.

Lemma anomaly_scan_spec_witness :
  exists alerts, detect_after_sales_anomalies default_thresholds OPERATIONS_METRICS = Ok alerts /\
    length alerts = 3%nat /\ StronglySorted (fun a b => alert_le a b = true) alerts.
Proof.
  destruct (anomaly_scan_spec default_thresholds OPERATIONS_METRICS) as (l&E&P&S&_); [reflexivity|].
  exists l. split; [exact E|]. split; [|exact S].
  rewrite (Permutation_length P). vm_compute. reflexivity.
Defined.

(** ** What the floats decide

    Under the default thresholds, in integers: five cases, one order in
    twenty, and half as much again as before. *)

Lemma min_rate_exact c o :
  0 <= c -> 0 < o -> 5 * o < 2 ^ 51 ->
  fle (rnd 5 100) (rnd c o) = true <-> o <= 20 * c.
Proof.
  intros Hc Ho Bo. split.
  - intros L. destruct (Z.eq_dec c 0) as [->|Nc]; [done|].
    pose proof (rnd_lower 5 100 ltac:(lia) ltac:(lia)) as L1.
    pose proof (rnd_upper c o ltac:(lia) Ho) as L2.
    unfold fle in L. apply Z.leb_le in L.
    set (A := num (rnd 5 100)) in *. set (B := den (rnd 5 100)) in *.
    assert (0 < B) by apply den_pos. pose proof (den_pos (rnd c o)) as HD.
    set (C := num (rnd c o)) in *. set (D := den (rnd c o)) in *. clearbody A B C D.
    assert ((2 ^ 53 - 1) * (5 * o) * (B * D) <= (2 ^ 53 + 1) * (100 * c) * (B * D)) as K.
    { apply Z.le_trans with (100 * o * (2 ^ 53 * (A * D))); [nia|].
      apply Z.le_trans with (100 * o * (2 ^ 53 * (C * B))); [nia|]. nia. }
    apply Z.mul_le_mono_pos_r in K; [lia|nia].
  - intros L. apply rnd_mono; lia.
Qed.

(** The relative error of the three roundings of the comparison of rates. *)
Lemma uplift_bounds c o p q :
  0 < c -> 0 < o -> 0 < p -> 0 < q ->
  let x := fmul (rnd p q) (rnd 3 2) in let y := rnd c o in
  (fle x y = true -> (2 ^ 53 - 1) ^ 2 * (3 * p * o) <= 2 ^ 53 * (2 ^ 53 + 1) * (2 * c * q)) /\
  (fle x y = false -> 2 ^ 53 * (2 ^ 53 - 1) * (2 * c * q) <= (2 ^ 53 + 1) ^ 2 * (3 * p * o)).
Proof.
  intros Hc Ho Hp Hq x y. unfold fmul in x.
  pose proof (rnd_upper p q Hp Hq) as U1. pose proof (rnd_lower p q Hp Hq) as L1.
  pose proof (rnd_upper c o Hc Ho) as U3. pose proof (rnd_lower c o Hc Ho) as L3.
  pose proof (rnd_positive p q Hp Hq) as PA. pose proof (den_pos (rnd p q)) as PB.
  assert (2 * num (rnd 3 2) = 3 * den (rnd 3 2)) as E by reflexivity.
  pose proof (den_pos (rnd 3 2)) as PS. assert (0 < num (rnd 3 2)) as PR by lia.
  pose proof (rnd_upper (num (rnd p q) * num (rnd 3 2)) (den (rnd p q) * den (rnd 3 2)) ltac:(nia) ltac:(nia)) as U2.
  pose proof (rnd_lower (num (rnd p q) * num (rnd 3 2)) (den (rnd p q) * den (rnd 3 2)) ltac:(nia) ltac:(nia)) as L2.
  fold x in U2, L2. fold y in U3, L3. unfold fle.
  pose proof (den_pos x) as PX. pose proof (den_pos y) as PD.
  assert (0 < num x) as PW by (apply rnd_positive; nia).
  set (W := num x) in *. set (X := den x) in *. set (C := num y) in *. set (D := den y) in *.
  set (A := num (rnd p q)) in *. set (B := den (rnd p q)) in *.
  set (R := num (rnd 3 2)) in *. set (S := den (rnd 3 2)) in *.
  clearbody A B R S W X C D. clear x y. set (e := 2 ^ 53) in *. assert (1 < e) as He by (subst e; lia).
  clearbody e. split.
  - intros Le%Z.leb_le.
    assert (3 * ((e - 1) ^ 2) * p * X <= 2 * e ^ 2 * q * W) as K1.
    { apply (Z.mul_le_mono_pos_r _ _ (B * S)); [nia|].
      replace (3 * (e - 1) ^ 2 * p * X * (B * S)) with ((e - 1) * ((e - 1) * (p * B)) * X * (3 * S)) by lia.
      rewrite <-E. apply Z.le_trans with ((e - 1) * (e * (A * q)) * X * (2 * R)).
      { apply Z.mul_le_mono_nonneg_r; [lia|]. apply Z.mul_le_mono_nonneg_r; [lia|].
        apply Z.mul_le_mono_nonneg_l; lia. }
      replace ((e - 1) * (e * (A * q)) * X * (2 * R)) with (2 * e * q * ((e - 1) * (A * R * X))) by lia.
      replace (2 * e ^ 2 * q * W * (B * S)) with (2 * e * q * (e * (W * (B * S)))) by lia.
      apply Z.mul_le_mono_nonneg_l; nia. }
    apply (Z.mul_le_mono_pos_r _ _ (X * D)); [nia|].
    replace ((e - 1) ^ 2 * (3 * p * o) * (X * D)) with (3 * (e - 1) ^ 2 * p * X * (o * D)) by lia.
    apply Z.le_trans with (2 * e ^ 2 * q * W * (o * D)); [apply Z.mul_le_mono_nonneg_r; nia|].
    replace (2 * e ^ 2 * q * W * (o * D)) with (2 * e ^ 2 * q * o * (W * D)) by lia.
    apply Z.le_trans with (2 * e ^ 2 * q * o * (C * X)); [apply Z.mul_le_mono_nonneg_l; nia|].
    replace (2 * e ^ 2 * q * o * (C * X)) with (2 * e * q * X * (e * (C * o))) by lia.
    replace (e * (e + 1) * (2 * c * q) * (X * D)) with (2 * e * q * X * ((e + 1) * (c * D))) by lia.
    apply Z.mul_le_mono_nonneg_l; nia.
  - intros Le%Z.leb_gt.
    assert (2 * e ^ 2 * q * W <= 3 * (e + 1) ^ 2 * p * X) as K1.
    { apply (Z.mul_le_mono_pos_r _ _ (B * S)); [nia|].
      replace (2 * e ^ 2 * q * W * (B * S)) with (2 * e * q * (e * (W * (B * S)))) by lia.
      apply Z.le_trans with (2 * e * q * ((e + 1) * (A * R * X))); [apply Z.mul_le_mono_nonneg_l; nia|].
      replace (2 * e * q * ((e + 1) * (A * R * X))) with ((e + 1) * (e * (A * q)) * X * (2 * R)) by lia.
      rewrite E. replace (3 * (e + 1) ^ 2 * p * X * (B * S)) with ((e + 1) * ((e + 1) * (p * B)) * X * (3 * S)) by lia.
      apply Z.mul_le_mono_nonneg_r; [lia|]. apply Z.mul_le_mono_nonneg_r; [lia|].
      apply Z.mul_le_mono_nonneg_l; lia. }
    apply (Z.mul_le_mono_pos_r _ _ (X * D)); [nia|].
    replace ((e + 1) ^ 2 * (3 * p * o) * (X * D)) with (3 * (e + 1) ^ 2 * p * X * (o * D)) by lia.
    apply Z.le_trans with (2 * e ^ 2 * q * W * (o * D)); [|apply Z.mul_le_mono_nonneg_r; nia].
    replace (2 * e ^ 2 * q * W * (o * D)) with (2 * e ^ 2 * q * o * (W * D)) by lia.
    apply Z.le_trans with (2 * e ^ 2 * q * o * (C * X)); [|apply Z.mul_le_mono_nonneg_l; nia].
    replace (2 * e ^ 2 * q * o * (C * X)) with (2 * e * q * X * (e * (C * o))) by lia.
    replace (e * (e - 1) * (2 * c * q) * (X * D)) with (2 * e * q * X * ((e - 1) * (c * D))) by lia.
    apply Z.mul_le_mono_nonneg_l; nia.
Qed.

(** The half-as-much-again of the source, as integers: [c/o] against [p/q]. *)
Definition rate_conditions (b : MetricBucket) (uplifted : Z -> Z -> Prop) : Prop :=
  5 <= current_issue_cases b /\ current_orders b <= 20 * current_issue_cases b /\
  (previous_orders b = 0 \/ previous_issue_cases b = 0 \/
   uplifted (3 * previous_issue_cases b * current_orders b)
            (2 * current_issue_cases b * previous_orders b)).

(** The floats decide what the thresholds say.  For counters of any
    realistic size a rate spike implies, in exact arithmetic, at least five
    cases, five percent, and one and a half times the previous rate; and these
    imply a rate spike whenever the last one holds strictly. *)
Theorem rate_spike_exact b
    (Hv : bucket_valid b = true) (Ho : 0 < current_orders b)
    (Hb : 5 * current_orders b < 2 ^ 51) (Hp : 3 * previous_issue_cases b * current_orders b < 2 ^ 51) :
  (rate_spike default_thresholds b = true -> rate_conditions b Z.le) /\
  (rate_conditions b Z.lt -> rate_spike default_thresholds b = true).
Proof.
  unfold bucket_valid in Hv. bprop. unfold rate_conditions, rate_spike, previous_rate, current_rate, int_div.
  simpl. rewrite !andb_true_iff, Z.leb_le, orb_true_iff, min_rate_exact by lia.
  destruct (Z.eqb_spec (previous_orders b) 0) as [Q|Q].
  { split; [intros ((?&?)&_)|intros (?&?&_)]; repeat split; auto. }
  destruct (Z.eq_dec (previous_issue_cases b) 0) as [P|P].
  { rewrite P. split; [intros ((?&?)&_)|intros (?&?&_)]; repeat split; auto. }
  assert (feq (rnd (previous_issue_cases b) (previous_orders b)) fzero = false) as ->.
  { apply Z.eqb_neq. pose proof (rnd_positive (previous_issue_cases b) (previous_orders b) ltac:(lia) ltac:(lia)).
    change (num fzero) with 0. change (den fzero) with 1. lia. }
  destruct (Z.le_gt_cases (current_issue_cases b) 0); [split; [intros ((?&?)&_)|intros (?&?&_)]; lia|].
  pose proof (uplift_bounds (current_issue_cases b) (current_orders b) (previous_issue_cases b)
                (previous_orders b)) as [B1 B2]; [lia..|].
  split.
  - intros ((?&?)&[E|E]); [done|]. specialize (B1 E). split_and!; [done|done|]. right. right. nia.
  - intros (?&?&[?|[?|L]]); [lia|lia|]. split_and!; [done|done|]. right.
    destruct (fle _ _) eqn:E; [done|]. specialize (B2 eq_refl). nia.
Qed.

Lemma rate_spike_exact_witness :
  rate_conditions (bucket "sku" "KETTLE-SMART" "damaged_item" 100 12 100 3 700000) Z.le.
Proof.
  apply (rate_spike_exact (bucket "sku" "KETTLE-SMART" "damaged_item" 100 12 100 3 700000));
    [reflexivity..|vm_compute; reflexivity].
Defined.

(** At the boundary the floats err: fifteen cases in a hundred orders after ten
    in a hundred are one and a half times as many, and no spike. *)
Lemma uplift_boundary_missed :
  let b := bucket "sku" "S" "damaged_item" 100 15 100 10 0 in
  rate_conditions b Z.le /\ rate_spike default_thresholds b = false.
Proof. split; [|vm_compute; reflexivity]. unfold rate_conditions. simpl. lia. Qed.

End RiskOps.
