(* ===== verification/Knowledge.v ===== *)
(** * The knowledge client

    The client half of [knowledge.py]: what is made of the answer of the search
    tool, the built-in knowledge that stands in for it, and the two tools of the
    agent.  Whatever the server answers, the agent gets something to cite. *)
From S2P Require Import Prelude Json Errors Text JsonText Idempotency Workflow Observability.
Import Json Errors Text JsonText Observability.KnowledgeHealth.

Module Knowledge.

Definition SEARCH_TOOL : string := "search_knowledge".

(** [item.get("text")] of the items that are dictionaries and have one. *)
Definition item_text (item : json) : option json :=
  match item with
  | JObj o => match get "text" o with Some t => if truthy t then Some t else None | None => None end
  | _ => None
  end.

Definition parse_text (raw : string) : list json :=
  match loads raw with Some (JList l) => l | _ => [] end.

(** [a or b] on two lookups *)
Definition first_truthy (a b : option json) : option json :=
  match a with Some j => if truthy j then Some j else b | None => b end.

Definition _parse_hits (raw : json) : list json :=
  match raw with
  | JStr s => parse_text s
  | JList l => l
  | JObj o =>
      match first_truthy (get "content" o) (get "output" o) with
      | Some (JList l) => omap item_text l
      | Some (JStr s) => parse_text s
      | _ => []
      end
  | _ => []
  end.

(** The parameters a client connects with. *)
Definition McpKnowledgeClient (server_name transport command : string) (args : option (list string)) (url : option string) : result (string * json) :=
  if (transport =? "stdio")%string
  then Ok (server_name, JObj [("transport", JStr "stdio"); ("command", JStr command);
         ("args", JList (map JStr (match args with None | Some [] => ["run"; "rag_mcp_server.py"] | Some l => l end)))])
  else match url with
       | None => Raise (Exn ValueError "sse/http transport requires a url")
       | Some u => Ok (server_name, JObj [("transport", JStr transport); ("url", JStr u)])
       end.

(** The tools of the server: their names and what they answer. *)
Definition search (server_name : string) (tools : list (string * (string -> result json))) (query : string) : result json :=
  match List.find (fun t => (t.1 =? SEARCH_TOOL)%string) tools with
  | None => Raise (Exn RuntimeError ("MCP server " +:+ Idempotency.repr server_name +:+ " has no " +:+ Idempotency.repr SEARCH_TOOL +:+ " tool"))
  | Some t => match t.2 query with Ok raw => Ok (JList (_parse_hits raw)) | Raise e => Raise e end
  end.

(** [policy.get(key, d)] in a formatted text *)
Definition shown (policy : dict) (key d : string) : string :=
  match get key policy with Some (JStr s) => s | Some (JInt z) => pretty z | _ => d end.
Definition issues (policy : dict) : list string :=
  match get "covered_issues" policy with Some (JList l) => omap (fun j => match j with JStr s => Some s | _ => None end) l | _ => [] end.

Definition _mock_knowledge (query : string) : json :=
  let policy := default [] (MockData.lookup "CN" MockData.POLICIES) in
  JList [JObj
    [("doc", JStr "AFTER-SALES-CN 售后政策");
     ("snippet", JStr ("政策版本 " +:+ shown policy "version" "?" +:+ "，覆盖问题：" +:+ join ", " (issues policy) +:+ "；高价值线 " +:+
        shown policy "high_value_amount" "0" +:+ " 分，人工审核线 " +:+ shown policy "manual_review_amount" "0" +:+ " 分。"));
     ("citation", JStr (shown policy "policy_id" "AFTER-SALES-CN" +:+ "@" +:+ shown policy "version" "?"))]].

Section tools.
Context {R : Type} `{KnowledgeHealthRecorder R}.

(** The recorder in place from now on, and the one it replaces. *)
Definition set_knowledge_health_recorder (_health_recorder recorder : R) : R * R := (recorder, _health_recorder).

Definition search_after_sales_knowledge_tool (recorder : R) (server_name : string) (tools : list (string * (string -> result json)))
    (query : string) (now : Z) : result string * R :=
  let '(hits, recorder) := retrieve_knowledge recorder (search server_name tools query) (_mock_knowledge query) now in
  (match hits with Ok j => Ok (dumps_text j) | Raise e => Raise e end, recorder).

(** [snap.last_attempt_at.isoformat()] is a parameter. *)
Definition get_knowledge_health_tool (isoformat : Z -> string) (recorder : R) : string :=
  let snap := snapshot recorder in
  dumps_text (JObj
    [("healthy", JBool (healthy snap)); ("attempt_count", JInt (attempt_count snap)); ("fallback_count", JInt (fallback_count snap));
     ("consecutive_failures", JInt (consecutive_failures snap));
     ("last_error", match last_error snap with Some e => JStr e | None => JNull end);
     ("last_attempt_at", match last_attempt_at snap with Some t => JStr (isoformat t) | None => JNull end)]).

(** The tool answers with hits or with the built-in knowledge, never with an
    empty list; only what is no [Exception] passes. *)
Lemma search_tool_answers recorder server tools query now :
  match (search_after_sales_knowledge_tool recorder server tools query now).1 with
  | Ok text => exists j, truthy j = true /\ text = dumps_text j
  | Raise e => isinstance (class_of e) ExceptionC = false
  end.
Proof.
  unfold search_after_sales_knowledge_tool, retrieve_knowledge, record_attempt. destruct (search _ _ _) as [j|e]; cbn.
  - destruct (truthy j) eqn:T; cbn; [by exists j|]. by exists (_mock_knowledge query).
  - destruct (isinstance (class_of e) ExceptionC) eqn:X; cbn; [by exists (_mock_knowledge query)|done].
Qed.
End tools.

(** What a server may answer: a text, hits, and the two wrapped forms. *)
Example parsed_hits :
  map _parse_hits
    [JStr "[1]"; JStr "oops"; JStr "{}"; JList [JInt 1]; JObj [("content", JList [JObj [("text", JStr "a")]; JObj [("text", JStr "")]; JInt 3])];
     JObj [("content", JStr ""); ("output", JStr "[2]")]; JNull] =
  [[JInt 1]; []; []; [JInt 1]; [JStr "a"]; [JInt 2]; []].
Proof. by vm_compute. Qed.

End Knowledge.
