(* ===== verification/StreamBridge.v ===== *)
(** * The stream of a run

    [deerflow/runtime/stream_bridge/memory.py]: the in-process event log
    between the worker that runs an agent and the clients that follow it, with
    bounded retention and replay from [Last-Event-ID].  Nothing awaits while it
    holds a stream's condition, so every critical section is one segment:
    publishing, and one turn of a subscriber's loop. *)
From S2P Require Import Prelude Json Text.
Import Json.

Module StreamBridge.

Record StreamEvent := { se_id : string; se_event : string; se_data : json }.

Definition HEARTBEAT_SENTINEL : StreamEvent :=
  {| se_id := ""; se_event := "__heartbeat__"; se_data := JNull |}.
Definition END_SENTINEL : StreamEvent :=
  {| se_id := ""; se_event := "__end__"; se_data := JNull |}.

Record RunStream := { events : list StreamEvent; ended : bool; start_offset : Z }.

Definition fresh_stream : RunStream := {| events := []; ended := false; start_offset := 0 |}.

(** Streams are objects: a subscriber keeps the one it has found after the
    bridge has forgotten it. *)
Record MemoryStreamBridge := {
  _maxsize : Z;
  heap : list RunStream;
  _streams : gmap string nat;
  _counters : gmap string Z
}.

Definition new_bridge (queue_maxsize : Z) : MemoryStreamBridge :=
  {| _maxsize := queue_maxsize; heap := []; _streams := ∅; _counters := ∅ |}.

Definition _get_or_create_stream (b : MemoryStreamBridge) (run_id : string)
  : nat * MemoryStreamBridge :=
  match _streams b !! run_id with
  | Some h => (h, b)
  | None =>
      (length (heap b),
       {| _maxsize := _maxsize b; heap := heap b ++ [fresh_stream];
          _streams := <[run_id := length (heap b)]> (_streams b);
          _counters := <[run_id := 0]> (_counters b) |})
  end.

Definition event_id (ts seq : Z) : string := pretty ts +:+ String "-" (pretty seq).

(** [ts] is the time in milliseconds. *)
Definition _next_id (b : MemoryStreamBridge) (run_id : string) (ts : Z)
  : string * MemoryStreamBridge :=
  let n := default 0 (_counters b !! run_id) + 1 in
  (event_id ts (n - 1),
   {| _maxsize := _maxsize b; heap := heap b; _streams := _streams b;
      _counters := <[run_id := n]> (_counters b) |}).

Definition _parse_event_seq (id : string) : option Z :=
  match Text.rpartition "-" id with
  | Some (_, seq_text) => Text.int_of_text seq_text
  | None => None
  end.

(** [events[i]] for [0 <= i]. *)
Definition at_index (l : list StreamEvent) (i : Z) : option StreamEvent :=
  if (0 <=? i) && (i <? Z.of_nat (length l)) then l !! Z.to_nat i else None.

Definition _resolve_start_offset (s : RunStream) (last_event_id : option string) : Z :=
  match last_event_id with
  | None => start_offset s
  | Some id =>
      match _parse_event_seq id with
      | Some seq =>
          match at_index (events s) (seq - start_offset s) with
          | Some e => if (se_id e =? id)%string then start_offset s + (seq - start_offset s) + 1
                      else start_offset s
          | None => start_offset s
          end
      | None => start_offset s
      end
  end.

(** The critical section of [publish]. *)
Definition append_event (maxsize : Z) (s : RunStream) (e : StreamEvent) : RunStream :=
  let l := events s ++ [e] in
  let overflow := Z.of_nat (length l) - maxsize in
  if 0 <? overflow
  then {| events := drop (Z.to_nat overflow) l; ended := ended s;
          start_offset := start_offset s + overflow |}
  else {| events := l; ended := ended s; start_offset := start_offset s |}.

Definition on_stream (b : MemoryStreamBridge) (h : nat) (f : RunStream -> RunStream) : MemoryStreamBridge :=
  {| _maxsize := _maxsize b; heap := alter f h (heap b); _streams := _streams b;
     _counters := _counters b |}.

Definition publish (b : MemoryStreamBridge) (run_id event : string) (data : json) (ts : Z)
  : MemoryStreamBridge :=
  let '(h, b) := _get_or_create_stream b run_id in
  let '(id, b) := _next_id b run_id ts in
  on_stream b h (fun s => append_event (_maxsize b) s
                            {| se_id := id; se_event := event; se_data := data |}).

Definition publish_end (b : MemoryStreamBridge) (run_id : string) : MemoryStreamBridge :=
  let '(h, b) := _get_or_create_stream b run_id in
  on_stream b h (fun s => {| events := events s; ended := true; start_offset := start_offset s |}).

(** ** Subscribers *)

Record Subscriber := { stream : nat; next_offset : Z }.

Definition stream_at (b : MemoryStreamBridge) (h : nat) : RunStream := default fresh_stream (heap b !! h).

Definition subscribe (b : MemoryStreamBridge) (run_id : string) (last_event_id : option string)
  : Subscriber * MemoryStreamBridge :=
  let '(h, b) := _get_or_create_stream b run_id in
  ({| stream := h; next_offset := _resolve_start_offset (stream_at b h) last_event_id |}, b).

(** One turn of the loop: an event, the end, or nothing yet -- then it waits to
    be notified, and yields the heartbeat when that takes too long. *)
Inductive turn := Yield (e : StreamEvent) (next : Z) | End | Wait (next : Z).

Definition poll (s : RunStream) (next : Z) : turn :=
  let next := if next <? start_offset s then start_offset s else next in
  match at_index (events s) (next - start_offset s) with
  | Some e => Yield e (next + 1)
  | None => if ended s then End else Wait next
  end.

(** What a subscriber yields with nobody publishing meanwhile, in at most
    [fuel] turns, and whether the stream ended. *)
Fixpoint drain (fuel : nat) (s : RunStream) (next : Z) : list StreamEvent * bool :=
  match fuel with
  | O => ([], false)
  | S fuel =>
      match poll s next with
      | Yield e next => let '(l, done) := drain fuel s next in (e :: l, done)
      | End => ([END_SENTINEL], true)
      | Wait _ => ([], false)
      end
  end.

Definition cleanup (b : MemoryStreamBridge) (run_id : string) : MemoryStreamBridge :=
  {| _maxsize := _maxsize b; heap := heap b; _streams := delete run_id (_streams b);
     _counters := delete run_id (_counters b) |}.

Definition close (b : MemoryStreamBridge) : MemoryStreamBridge :=
  {| _maxsize := _maxsize b; heap := heap b; _streams := ∅; _counters := ∅ |}.

(** ** A stream and the events published on it *)

(** The stream holds the last [maxsize] of the events [p]. *)
Definition holds (maxsize : Z) (s : RunStream) (p : list StreamEvent) : Prop :=
  start_offset s = Z.max 0 (Z.of_nat (length p) - maxsize) /\
  events s = drop (Z.to_nat (start_offset s)) p.

(** Every event has its position in its id. *)
Definition numbered (p : list StreamEvent) : Prop :=
  forall i e, p !! i = Some e -> exists ts, se_id e = event_id ts (Z.of_nat i).

Section stream.
Context (maxsize : Z) (Hmax : 0 <= maxsize).

Lemma holds_fresh : holds maxsize fresh_stream [].
Proof. split; simpl; [lia|done]. Qed.

Lemma holds_append s p e : holds maxsize s p -> holds maxsize (append_event maxsize s e) (p ++ [e]).
Proof.
intros [Hs He]. unfold append_event, holds. rewrite !length_app, He, length_drop. simpl.
assert (Z.to_nat (start_offset s) <= length p)%nat as Hle by lia.
destruct (Z.ltb_spec 0 (Z.of_nat (length p - Z.to_nat (start_offset s) + 1) - maxsize)); simpl.
- split; [lia|]. rewrite <-drop_app_le, drop_drop by lia. f_equal. lia.
- split; [lia|]. by rewrite drop_app_le by lia.
Qed.

Lemma holds_end s p :
holds maxsize s p -> holds maxsize {| events := events s; ended := true; start_offset := start_offset s |} p.
Proof. done. Qed.

Lemma holds_length s p : holds maxsize s p -> Z.of_nat (length (events s)) <= maxsize.
Proof. intros [Hs He]. rewrite He, length_drop. lia. Qed.

Lemma at_index_holds s p k :
holds maxsize s p -> start_offset s <= k -> at_index (events s) (k - start_offset s) = p !! Z.to_nat k.
Proof.
intros [Hs He] Hk. unfold at_index. rewrite He, length_drop.
destruct (Z.leb_spec 0 (k - start_offset s)); [|lia].
destruct (Z.ltb_spec (k - start_offset s) (Z.of_nat (length p - Z.to_nat (start_offset s)))); simpl.
- rewrite lookup_drop. f_equal. lia.
- symmetry. apply lookup_ge_None. lia.
Qed.

(** A turn of a subscriber that is to deliver the event at [k] next. *)
Lemma poll_holds s p k :
holds maxsize s p -> 0 <= k ->
let k' := Z.max k (start_offset s) in
poll s k = match p !! Z.to_nat k' with
         | Some e => Yield e (k' + 1)
         | None => if ended s then End else Wait k'
         end.
Proof.
intros H Hk k'. unfold poll.
replace (if k <? start_offset s then start_offset s else k) with k'.
- rewrite (at_index_holds s p) by (done || lia). done.
- subst k'. destruct (Z.ltb_spec k (start_offset s)); lia.
Qed.

Lemma drain_holds s p k fuel :
holds maxsize s p -> 0 <= k -> (length (events s) < fuel)%nat ->
drain fuel s k = (drop (Z.to_nat (Z.max k (start_offset s))) p
                  ++ (if ended s then [END_SENTINEL] else []), ended s).
Proof.
intros H Hk Hf.
assert (length p - Z.to_nat (Z.max k (start_offset s)) < fuel)%nat as F.
{ destruct H as [Hs He]. rewrite He, length_drop in Hf. lia. }
clear Hf. revert k Hk F. induction fuel as [|fuel IH]; intros k Hk F; [lia|].
simpl. rewrite (poll_holds s p) by done. set (k' := Z.max k (start_offset s)) in *.
destruct (p !! Z.to_nat k') as [e|] eqn:E.
- pose proof (lookup_lt_Some _ _ _ E). rewrite IH; [|lia|subst k'; lia].
rewrite (drop_S p e (Z.to_nat k')) by done.
replace (Z.to_nat (Z.max (k' + 1) (start_offset s))) with (S (Z.to_nat k')) by (subst k'; lia). done.
- apply lookup_ge_None in E. rewrite drop_ge by done. by destruct (ended s).
Qed.

Lemma parse_event_id ts seq : 0 <= seq -> _parse_event_seq (event_id ts seq) = Some seq.
Proof.
intros Hs. unfold _parse_event_seq, event_id.
rewrite Text.rpartition_app by (by apply Text.rpartition_digits, Text.pretty_digits).
by apply Text.int_of_pretty.
Qed.

(** Where a reconnecting client resumes. *)
Lemma resolve_known s p i e :
holds maxsize s p -> numbered p -> p !! i = Some e -> start_offset s <= Z.of_nat i ->
_resolve_start_offset s (Some (se_id e)) = Z.of_nat i + 1.
Proof.
intros H N E L. destruct (N i e E) as [ts Ei]. unfold _resolve_start_offset.
rewrite Ei, parse_event_id by lia. rewrite (at_index_holds s p) by done.
rewrite Nat2Z.id, E, Ei, String.eqb_refl. lia.
Qed.

Lemma resolve_unknown s p id :
holds maxsize s p -> (forall e, e ∈ events s -> se_id e <> id) ->
_resolve_start_offset s (Some id) = start_offset s.
Proof.
intros H N. unfold _resolve_start_offset. destruct (_parse_event_seq id) as [seq|]; [|done].
unfold at_index. destruct ((_ <=? _) && _); [|done].
destruct (events s !! _) as [e|] eqn:E; [|done].
destruct (String.eqb_spec (se_id e) id); [|done].
by destruct (N e); [eapply list_elem_of_lookup_2|].
Qed.
End stream.

(** ** The bridge *)

Inductive bridge_op :=
| Publish (run_id event : string) (data : json) (ts : Z)
| PublishEnd (run_id : string)
| Subscribe (run_id : string) (last_event_id : option string)
| Cleanup (run_id : string).

Definition apply_op (b : MemoryStreamBridge) (op : bridge_op) : MemoryStreamBridge :=
  match op with
  | Publish r e d ts => publish b r e d ts
  | PublishEnd r => publish_end b r
  | Subscribe r l => (subscribe b r l).2
  | Cleanup r => cleanup b r
  end.

(** What a run's stream should carry: the events published on it since it was
    last cleaned up, and whether it has ended. *)
Definition history_step (r : string) (hist : list StreamEvent * bool) (op : bridge_op)
  : list StreamEvent * bool :=
  match op with
  | Publish r' e d ts =>
      if (r' =? r)%string
      then (hist.1 ++ [{| se_id := event_id ts (Z.of_nat (length hist.1)); se_event := e; se_data := d |}],
            hist.2)
      else hist
  | PublishEnd r' => if (r' =? r)%string then (hist.1, true) else hist
  | Subscribe _ _ => hist
  | Cleanup r' => if (r' =? r)%string then ([], false) else hist
  end.

Definition history (r : string) (ops : list bridge_op) : list StreamEvent * bool :=
  foldl (history_step r) ([], false) ops.

Record tracks (b : MemoryStreamBridge) (hist : string -> list StreamEvent * bool) : Prop := {
  tr_range : forall r h, _streams b !! r = Some h -> (h < length (heap b))%nat;
  tr_inj : forall r r' h, _streams b !! r = Some h -> _streams b !! r' = Some h -> r = r';
  tr_stream : forall r h, _streams b !! r = Some h ->
    holds (_maxsize b) (stream_at b h) (hist r).1 /\ ended (stream_at b h) = (hist r).2 /\
    _counters b !! r = Some (Z.of_nat (length (hist r).1));
  tr_none : forall r, _streams b !! r = None -> hist r = ([], false);
  tr_numbered : forall r, numbered (hist r).1
}.

Lemma tracks_new n : tracks (new_bridge n) (fun _ => ([], false)).
Proof. by split. Qed.

Lemma tracks_create b hist r :
  0 <= _maxsize b -> tracks b hist ->
  let '(h, b') := _get_or_create_stream b r in
  tracks b' hist /\ _streams b' !! r = Some h /\ _maxsize b' = _maxsize b.
Proof.
  intros M T. unfold _get_or_create_stream. destruct (_streams b !! r) as [h|] eqn:E; [done|]. simpl.
  split_and!; [|by simplify_map_eq|done].
  assert (forall h, (h < length (heap b))%nat ->
    default fresh_stream ((heap b ++ [fresh_stream]) !! h) = default fresh_stream (heap b !! h)) as A.
  { intros h L. by rewrite lookup_app_l. }
  split; simpl.
  - intros r' h' [[<- <-]|[_ L%(tr_range _ _ T)]]%lookup_insert_Some; rewrite length_app; simpl; lia.
  - intros r1 r2 h' [[<- <-]|[N1 L1]]%lookup_insert_Some [[E2 E3]|[N2 L2]]%lookup_insert_Some; try done.
    + apply (tr_range _ _ T) in L2. lia.
    + apply (tr_range _ _ T) in L1. subst. lia.
    + by eapply (tr_inj _ _ T).
  - intros r' h' [[<- <-]|[N1 L1]]%lookup_insert_Some.
    + rewrite (tr_none _ _ T r E). simpl. unfold stream_at. simpl.
      rewrite lookup_app_r, Nat.sub_diag by done. simpl. simplify_map_eq.
      split_and!; [by apply holds_fresh|done|done].
    + pose proof (tr_range _ _ T _ _ L1). rewrite lookup_insert_ne by done.
      unfold stream_at. simpl. rewrite A by done. by apply (tr_stream _ _ T).
  - intros r' [L1 N1]%lookup_insert_None. by apply (tr_none _ _ T).
  - apply (tr_numbered _ _ T).
Qed.

Lemma numbered_snoc p e :
  numbered p -> (exists ts, se_id e = event_id ts (Z.of_nat (length p))) -> numbered (p ++ [e]).
Proof.
  intros N E i x [H|[H1 H2]]%lookup_app_Some; [by apply N|].
  apply list_lookup_singleton_Some in H2 as [H2 <-]. replace i with (length p) by lia. done.
Qed.

Lemma stream_at_alter b h h' f :
  stream_at (on_stream b h f) h' =
  if decide (h = h') then if decide (h < length (heap b))%nat then f (stream_at b h) else fresh_stream
  else stream_at b h'.
Proof.
  unfold stream_at, on_stream. simpl. destruct (decide (h = h')) as [<-|N].
  - rewrite list_lookup_alter_eq. destruct (decide (h < length (heap b))%nat) as [L|L].
    + by destruct (lookup_lt_is_Some_2 _ _ L) as [x ->].
    + by rewrite lookup_ge_None_2 by lia.
  - by rewrite list_lookup_alter_ne.
Qed.

(** A change to the stream of one run. *)
Lemma tracks_on b hist r h f counters hr :
  tracks b hist -> _streams b !! r = Some h ->
  holds (_maxsize b) (f (stream_at b h)) hr.1 -> ended (f (stream_at b h)) = hr.2 -> numbered hr.1 ->
  counters !! r = Some (Z.of_nat (length hr.1)) ->
  (forall r', r' <> r -> counters !! r' = _counters b !! r') ->
  tracks (on_stream {| _maxsize := _maxsize b; heap := heap b; _streams := _streams b;
                       _counters := counters |} h f)
    (fun r' => if (r =? r')%string then hr else hist r').
Proof.
  intros T E H1 H2 H3 C1 C2. split; simpl.
  - intros r' h' L. rewrite length_alter. by eapply (tr_range _ _ T).
  - apply (tr_inj _ _ T).
  - intros r' h' L. rewrite stream_at_alter. change (stream_at _ h) with (stream_at b h).
    change (stream_at _ h') with (stream_at b h').
    destruct (String.eqb_spec r r') as [<-|N].
    + replace h' with h by congruence. rewrite decide_True by done. simpl.
      rewrite decide_True by (by eapply (tr_range _ _ T)). done.
    + rewrite decide_False by (intros <-; apply N; by eapply (tr_inj _ _ T)).
      rewrite C2 by done. by apply (tr_stream _ _ T).
  - intros r' L. destruct (String.eqb_spec r r') as [<-|N]; [congruence|by apply (tr_none _ _ T)].
  - intros r'. destruct (r =? r')%string; [done|apply (tr_numbered _ _ T)].
Qed.

Lemma tracks_ext b h1 h2 : (forall r, h1 r = h2 r) -> tracks b h1 -> tracks b h2.
Proof.
  intros E T. split; try apply T; intros r; rewrite <-E; apply T.
Qed.

Lemma tracks_step b hist op :
  0 <= _maxsize b -> tracks b hist ->
  tracks (apply_op b op) (fun r => history_step r (hist r) op) /\
  _maxsize (apply_op b op) = _maxsize b.
Proof.
  intros M T. destruct op as [r e d ts|r|r l|r]; simpl; unfold publish, publish_end, subscribe, cleanup.
  - pose proof (tracks_create b hist r M T) as C.
    destruct (_get_or_create_stream b r) as [h b']. destruct C as (T'&E&M').
    destruct (tr_stream _ _ T' _ _ E) as (H1&H2&H3). unfold _next_id. rewrite H3. simpl.
    replace (Z.of_nat (length (hist r).1) + 1 - 1) with (Z.of_nat (length (hist r).1)) by lia.
    split; [|done]. eapply tracks_ext;
      [|eapply (tracks_on b' hist r h _ _ (history_step r (hist r) (Publish r e d ts)) T' E)]; simpl;
      rewrite ?String.eqb_refl; simpl.
    + intros r'. by destruct (r =? r')%string eqn:R; [apply String.eqb_eq in R as <-|].
    + rewrite M' in *. by apply holds_append.
    + by unfold append_event; destruct (0 <? _).
    + apply numbered_snoc; [apply (tr_numbered _ _ T)|by eexists].
    + simplify_map_eq. f_equal. rewrite length_app. simpl. lia.
    + intros r' N. by rewrite lookup_insert_ne.
  - pose proof (tracks_create b hist r M T) as C.
    destruct (_get_or_create_stream b r) as [h b']. destruct C as (T'&E&M').
    destruct (tr_stream _ _ T' _ _ E) as (H1&H2&H3). split; [|done].
    eapply tracks_ext;
      [|destruct b'; eapply (tracks_on _ hist r h _ _ ((hist r).1, true) T' E)]; simpl in *; try done.
    + intros r'. by destruct (r =? r')%string eqn:R; [apply String.eqb_eq in R as <-|].
    + apply (tr_numbered _ _ T).
  - pose proof (tracks_create b hist r M T) as C.
    destruct (_get_or_create_stream b r) as [h b']. simpl. by destruct C as (T'&E&M').
  - split; [|done]. split; simpl.
    + intros r' h [N L]%lookup_delete_Some. by eapply (tr_range _ _ T).
    + intros r1 r2 h [N1 L1]%lookup_delete_Some [N2 L2]%lookup_delete_Some. by eapply (tr_inj _ _ T).
    + intros r' h [N L]%lookup_delete_Some. destruct (String.eqb_spec r r'); [done|].
      rewrite lookup_delete_ne by done. by apply (tr_stream _ _ T).
    + intros r' L. destruct (String.eqb_spec r r') as [<-|N]; [done|].
      rewrite lookup_delete_ne in L by done. by apply (tr_none _ _ T).
    + intros r'. destruct (r =? r')%string; [|apply (tr_numbered _ _ T)]. intros i x; simpl. by rewrite lookup_nil.
Qed.

Lemma tracks_run n ops :
  0 <= n ->
  tracks (foldl apply_op (new_bridge n) ops) (fun r => history r ops) /\
  _maxsize (foldl apply_op (new_bridge n) ops) = n.
Proof.
  intros M. induction ops as [|op ops [T E]] using rev_ind; [split; [apply tracks_new|done]|].
  unfold history. rewrite foldl_app. simpl. rewrite <-E in M. destruct (tracks_step _ _ op M T) as [T' E'].
  split; [|congruence]. eapply tracks_ext; [|exact T']. intros r. simpl. unfold history.
  by rewrite foldl_app.
Qed.

(** What a client that subscribes now receives, the producer being done. *)
Definition replay (b : MemoryStreamBridge) (r : string) (last_event_id : option string)
  : list StreamEvent * bool :=
  let '(sub, b) := subscribe b r last_event_id in
  drain (S (length (events (stream_at b (stream sub))))) (stream_at b (stream sub)) (next_offset sub).

Definition ending (fin : bool) : list StreamEvent := if fin then [END_SENTINEL] else [].

Lemma replay_from n ops r last k :
  0 <= n -> let '(p, fin) := history r ops in
  (forall s, holds n s p -> Z.max (_resolve_start_offset s last) (start_offset s) = Z.of_nat k) ->
  (forall s, holds n s p -> 0 <= _resolve_start_offset s last) ->
  replay (foldl apply_op (new_bridge n) ops) r last = (drop k p ++ ending fin, fin).
Proof.
  intros M. destruct (history r ops) as [p fin] eqn:Hi. intros R R0.
  destruct (tracks_run n ops M) as [T E]. set (b := foldl apply_op (new_bridge n) ops) in *.
  rewrite <-E in M. pose proof (tracks_create b _ r M T) as C. unfold replay, subscribe.
  destruct (_get_or_create_stream b r) as [h b']. destruct C as (T'&L&E'). cbn [stream next_offset].
  destruct (tr_stream _ _ T' r h L) as (H&F&_). rewrite Hi, E', E in H. rewrite Hi in F. simpl in H, F.
  rewrite (drain_holds n) with (p := p) by (try done; try lia; by apply R0).
  by rewrite (R _ H), Nat2Z.id, F.
Qed.

(** C13: a client that reconnects misses nothing and sees nothing twice.
    Whatever was published, ended, subscribed to and cleaned up on any runs,
    let [p] be the events published on a run since its last cleanup, of which
    the last [n] are retained.  A new client receives exactly the retained
    ones; a client that names a retained event receives exactly the events
    after it, in order; one that names any other id receives the retained
    ones; and each then sees the end if the run has ended. *)
Theorem stream_reconnect n ops r (Hn : 0 <= n) :
  let b := foldl apply_op (new_bridge n) ops in let '(p, fin) := history r ops in
  let first := (length p - Z.to_nat n)%nat in
  replay b r None = (drop first p ++ ending fin, fin) /\
  (forall i e, p !! i = Some e -> (first <= i)%nat ->
     replay b r (Some (se_id e)) = (drop (S i) p ++ ending fin, fin)) /\
  (forall id, (forall e, e ∈ drop first p -> se_id e <> id) ->
     replay b r (Some id) = (drop first p ++ ending fin, fin)).
Proof.
  cbv zeta. destruct (history r ops) as [p fin] eqn:Hi.
  assert (numbered p) as N.
  { pose proof (tr_numbered _ _ (proj1 (tracks_run n ops Hn)) r) as N. simpl in N.
    by rewrite Hi in N. }
  assert (forall last k,
    (forall s, holds n s p -> Z.max (_resolve_start_offset s last) (start_offset s) = Z.of_nat k) ->
    (forall s, holds n s p -> 0 <= _resolve_start_offset s last) ->
    replay (foldl apply_op (new_bridge n) ops) r last = (drop k p ++ ending fin, fin)) as R.
  { intros last k. pose proof (replay_from n ops r last k Hn) as X. by rewrite Hi in X. }
  split_and!.
  - apply R; intros s [Hs _]; simpl; lia.
  - intros i e E L. apply R; intros s H; pose proof (proj1 H);
      rewrite (resolve_known n s p i e) by (done || lia); lia.
  - intros id Ni. apply R; intros s H; pose proof (proj1 H) as Hs;
      (rewrite (resolve_unknown n s p id H); [lia|]);
      intros e; rewrite (proj2 H); intros He; apply Ni; revert He;
      (replace (Z.to_nat (start_offset s)) with (length p - Z.to_nat n)%nat by lia); done.
Qed.

Definition demo_ops : list bridge_op :=
  [Publish "r" "a" JNull 5; Publish "q" "x" JNull 5; Publish "r" "b" JNull 6; Publish "r" "c" JNull 6;
   PublishEnd "r"].

Lemma stream_reconnect_witness :
  replay (foldl apply_op (new_bridge 2) demo_ops) "r" (Some "6-1")
  = ([{| se_id := "6-2"; se_event := "c"; se_data := JNull |}; END_SENTINEL], true).
Proof.
  destruct (stream_reconnect 2 demo_ops "r" ltac:(lia)) as (_&H&_).
  apply (H 1%nat {| se_id := "6-1"; se_event := "b"; se_data := JNull |}); [reflexivity|simpl; lia].
Defined.

(** ** A client that follows a run *)

(** One subscriber and the producer of its run, in any interleaving. *)
Inductive live_op := Produce (e : StreamEvent) | Finish | Turn.

Definition live_step (maxsize : Z) (st : RunStream * Z * list StreamEvent) (op : live_op)
  : RunStream * Z * list StreamEvent :=
  let '(s, next, seen) := st in
  match op with
  | Produce e => (append_event maxsize s e, next, seen)
  | Finish => ({| events := events s; ended := true; start_offset := start_offset s |}, next, seen)
  | Turn => match poll s next with
            | Yield e next => (s, next, seen ++ [e])
            | End => st
            | Wait next => (s, next, seen)
            end
  end.

Fixpoint produced (ops : list live_op) : list StreamEvent :=
  match ops with
  | [] => []
  | Produce e :: ops => e :: produced ops
  | _ :: ops => produced ops
  end.

Lemma produced_app a b : produced (a ++ b) = produced a ++ produced b.
Proof. induction a as [|[e| |] a IH]; simpl; by rewrite ?IH. Qed.

(** Seen so far: some of the events before [next], all of them while none has
    been evicted. *)
Lemma live_invariant maxsize ops :
  0 <= maxsize ->
  let '(s, next, seen) := foldl (live_step maxsize) (fresh_stream, 0, []) ops in
  let p := produced ops in
  holds maxsize s p /\ 0 <= next <= Z.of_nat (length p) /\
  seen `sublist_of` take (Z.to_nat next) p /\
  (Z.of_nat (length p) <= maxsize -> seen = take (Z.to_nat next) p).
Proof.
  intros M. induction ops as [|op ops IH] using rev_ind.
  { split_and!; [by apply holds_fresh|done..]. }
  rewrite foldl_app, produced_app. simpl.
  destruct (foldl (live_step maxsize) _ ops) as [[s next] seen].
  destruct IH as (H&(N1&N2)&Sb&P). set (p := produced ops) in *.
  destruct op as [e| |]; simpl.
  - rewrite length_app, take_app_le by lia. split_and!; try lia; try done; [by apply holds_append|].
    intros L. apply P. lia.
  - rewrite app_nil_r. by split_and!.
  - rewrite app_nil_r, (poll_holds maxsize s p) by done.
    set (k := Z.max next (start_offset s)).
    assert (start_offset s <= Z.of_nat (length p)) as B by (destruct H; lia).
    destruct (p !! Z.to_nat k) as [e|] eqn:E.
    + pose proof (lookup_lt_Some _ _ _ E).
      replace (Z.to_nat (k + 1)) with (S (Z.to_nat k)) by lia.
      rewrite (take_S_r _ _ e) by done. split_and!; [done|lia|lia| |].
      * apply sublist_app; [|done]. etransitivity; [exact Sb|].
        replace (take (Z.to_nat next) p) with (take (Z.to_nat next) (take (Z.to_nat k) p))
          by (rewrite take_take; f_equal; lia). apply sublist_take.
      * intros L. f_equal. rewrite P by done. f_equal. destruct H as [H _]. lia.
    + apply lookup_ge_None in E. assert (k = Z.of_nat (length p)) as Ek by lia. rewrite Ek.
      destruct (ended s); simpl; [by split_and!|]. rewrite Nat2Z.id. split_and!; [done|lia|lia| |].
      * etransitivity; [exact Sb|]. rewrite (take_ge p (length p)) by done. apply sublist_take.
      * intros L. rewrite P by done. f_equal. destruct H as [H _]. lia.
Qed.

(** A client that keeps up sees every event once, in order.  However the
    producer and a client interleave, the client has received events in the
    order of their production and none twice; as long as the run has produced
    no more events than the buffer holds, what it has received is a prefix of
    what was produced; and the buffer never holds more than its bound. *)
Theorem stream_delivery maxsize ops (Hm : 0 <= maxsize) :
  let '(s, next, seen) := foldl (live_step maxsize) (fresh_stream, 0, []) ops in
  seen `sublist_of` produced ops /\
  (Z.of_nat (length (produced ops)) <= maxsize -> seen `prefix_of` produced ops) /\
  Z.of_nat (length (events s)) <= maxsize.
Proof.
  pose proof (live_invariant maxsize ops Hm) as I.
  destruct (foldl (live_step maxsize) _ ops) as [[s next] seen]. destruct I as (H&_&S&P).
  split_and!; [|intros L; rewrite (P L); apply prefix_take|by eapply holds_length].
  etransitivity; [exact S|apply sublist_take].
Qed.

Definition demo_event (id : string) : StreamEvent :=
  {| se_id := id; se_event := "e"; se_data := JNull |}.

Definition demo_live : list live_op :=
  [Produce (demo_event "a"); Turn; Produce (demo_event "b"); Produce (demo_event "c");
   Produce (demo_event "d"); Turn; Turn; Turn].

Lemma stream_delivery_witness :
  map demo_event ["a"; "c"; "d"] `sublist_of` produced demo_live.
Proof.
  pose proof (stream_delivery 2 demo_live ltac:(lia)) as H.
  destruct (foldl (live_step 2) _ demo_live) as [[s next] seen] eqn:E.
  assert (seen = map demo_event ["a"; "c"; "d"]) as <-.
  { clear H. vm_compute in E. injection E as _ _ <-. reflexivity. }
  apply H.
Defined.

End StreamBridge.
