(* ===== verification/CircuitBreaker.v ===== *)
(** * The circuit breaker before the model provider

    [deerflow/agents/middlewares/llm_error_handling_middleware.py]: the
    classification of provider errors, the retry loop with its delays, the
    fallback messages, and the breaker that all calls of the process share.
    The breaker's methods hold its lock, so each is one step; the calls in
    flight interleave between them. *)
From S2P Require Import Prelude Json Errors Float64 Text Numerals.
Import Json Errors Float64 Numerals.

Module CircuitBreaker.

(** ** Numbers in headers *)

Definition OverflowError : exn_class := Subclass "OverflowError" ArithmeticError.

(** [max(0, int(x * multiplier))]; [None] for the [ValueError] of a NaN. *)
Definition scaled_int (x : pyfloat) (multiplier : Z) : result (option Z) :=
  match x with
  | NaN => Ok None
  | Infinite _ => Raise (Exn OverflowError "cannot convert float infinity to integer")
  | Finite neg x =>
      let p := num x * multiplier in
      if (2 ^ 1024 - 2 ^ 970) * den x <=? p
      then Raise (Exn OverflowError "cannot convert float infinity to integer")
      else if (neg : bool) then Ok (Some 0)
      else let y := rnd p (den x) in Ok (Some (num y / den y))
  end.

(** ** Provider errors

    What the middleware reads of an exception: its class name, whether it is
    an [IndexError], its text, its [message] when that is a text, the [str] of
    its error codes (an absent one is [None]), its status codes when they are
    integers, and the headers of its response. *)
Record LLMError := {
  err_class : string;
  is_index_error : bool;
  err_text : string;
  err_message : option string;
  err_codes : list (option string);
  err_body_codes : list (option string);
  err_statuses : list (option Z);
  err_headers : option (string -> option string)
}.

Definition _RETRIABLE_STATUS_CODES : list Z := [408; 409; 425; 429; 500; 502; 503; 504].

Definition _BUSY_PATTERNS : list string :=
  ["server busy"; "temporarily unavailable"; "try again later"; "please retry"; "please try again";
   "overloaded"; "high demand"; "rate limit"; "负载较高"; "服务繁忙"; "稍后重试"; "请稍后重试"].
Definition _QUOTA_PATTERNS : list string :=
  ["insufficient_quota"; "quota"; "billing"; "credit"; "payment"; "余额不足"; "超出限额"; "额度不足"; "欠费"].
Definition _AUTH_PATTERNS : list string :=
  ["authentication"; "unauthorized"; "invalid api key"; "invalid_api_key"; "permission"; "forbidden";
   "access denied"; "无权"; "未授权"].
Definition _STREAM_DROP_EXCEPTIONS : list string := ["StreamChunkTimeoutError"].
Definition _RETRY_BUDGET_OVERRIDES : list (string * Z) := [("StreamChunkTimeoutError", 2)].
Definition _TRANSIENT_CLASSES : list string :=
  ["APITimeoutError"; "APIConnectionError"; "InternalServerError"; "ReadError"; "RemoteProtocolError";
   "StreamChunkTimeoutError"].

Definition retry_max_attempts : Z := 3.
Definition retry_base_delay_ms : Z := 1000.
Definition retry_cap_delay_ms : Z := 8000.

Definition _matches_any (detail : string) (patterns : list string) : bool :=
  existsb (fun p => Text.contains p detail) patterns.

(** The first of the values that is neither absent nor empty. *)
Definition first_code (l : list (option string)) : option string :=
  head (omap (fun v => match v with Some "" => None | v => v end) l).

Definition _extract_error_code (e : LLMError) : option string :=
  match first_code (err_codes e) with Some c => Some c | None => first_code (err_body_codes e) end.

Definition _extract_status_code (e : LLMError) : option Z := head (omap id (err_statuses e)).

Definition _extract_error_detail (e : LLMError) : string :=
  let detail := Text.strip (err_text e) in
  if negb (detail =? "")%string then detail
  else match err_message e with
       | Some m => if negb (Text.strip m =? "")%string then Text.strip m else err_class e
       | None => err_class e
       end.

Definition _classify_error (e : LLMError) : bool * string :=
  let low := Text.lowered (_extract_error_detail e) in
  let code := Text.lowered (default "None" (_extract_error_code e)) in
  if _matches_any low _QUOTA_PATTERNS || _matches_any code _QUOTA_PATTERNS then (false, "quota")
  else if _matches_any low _AUTH_PATTERNS then (false, "auth")
  else if bool_decide (err_class e ∈ _TRANSIENT_CLASSES) then (true, "transient")
  else if is_index_error e then (true, "transient")
  else if match _extract_status_code e with
          | Some s => bool_decide (s ∈ _RETRIABLE_STATUS_CODES) | None => false
          end then (true, "transient")
  else if _matches_any low _BUSY_PATTERNS then (true, "busy")
  else (false, "generic").

Definition _max_attempts_for (e : LLMError) : Z :=
  match List.find (fun kv => (kv.1 =? err_class e)%string) _RETRY_BUDGET_OVERRIDES with
  | None => retry_max_attempts
  | Some (_, override) => Z.min override retry_max_attempts
  end.

(** ** Delays and messages *)
Section delays.

(** [parsedate_to_datetime(text).timestamp()] in milliseconds, [None] when it
raises. *)
Context (http_date : string -> option Z).

(** The first of the headers with a value, and its name. *)
Definition retry_after_header (headers : string -> option string) : option (string * string) :=
head (omap (fun k => match headers k with Some "" | None => None | Some v => Some (k, v) end)
      ["retry-after-ms"; "Retry-After-Ms"; "retry-after"; "Retry-After"]).

Definition _extract_retry_after_ms (e : LLMError) (now_ms : Z) : result (option Z) :=
match err_headers e with
| None => Ok None
| Some headers =>
  match retry_after_header headers with
  | None => Ok None
  | Some (name, raw) =>
      let multiplier := if Text.contains "ms" (Text.lower name) then 1 else 1000 in
      by_number <-? match float_of_text raw with
                    | Some x => scaled_int x multiplier
                    | None => Ok None
                    end ;;
      Ok (match by_number with
          | Some ms => Some ms
          | None => option_map (fun t => Z.max 0 (t - now_ms)) (http_date raw)
          end)
  end
end.

Definition _build_retry_delay_ms (attempt : Z) (e : LLMError) (now_ms : Z) : result Z :=
retry_after <-? _extract_retry_after_ms e now_ms ;;
Ok (match retry_after with
  | Some ms => ms
  | None => Z.min (retry_base_delay_ms * 2 ^ Z.max 0 (attempt - 1)) retry_cap_delay_ms
  end).
End delays.

Definition _build_retry_message (attempt wait_ms : Z) (reason : string) : string :=
  let seconds := Z.max 1 (round_int (int_div wait_ms 1000)) in
  "LLM request retry " +:+ pretty attempt +:+ "/" +:+ pretty retry_max_attempts +:+ ": " +:+
  (if (reason =? "busy")%string then "provider is busy" else "provider request failed temporarily")
  +:+ ". Retrying in " +:+ pretty seconds +:+ "s.".

Definition retry_event (attempt wait_ms : Z) (reason : string) : json :=
  JObj [("type", JStr "llm_retry"); ("attempt", JInt attempt); ("max_attempts", JInt retry_max_attempts);
        ("wait_ms", JInt wait_ms); ("reason", JStr reason);
        ("message", JStr (_build_retry_message attempt wait_ms reason))].

(** An [AIMessage]: its content and its additional arguments. *)
Definition _build_error_fallback_message (content error_type reason detail : string) : json :=
  JObj [("content", JStr content);
        ("additional_kwargs",
         JObj [("deerflow_error_fallback", JBool true); ("error_type", JStr error_type);
               ("error_reason", JStr reason); ("error_detail", JStr detail)])].

Definition circuit_open_message : json :=
  _build_error_fallback_message
    "The configured LLM provider is currently unavailable due to continuous failures. Circuit breaker is engaged to protect the system. Please wait a moment before trying again."
    "CircuitBreakerOpen" "circuit_open" "LLM circuit breaker is open".

Definition _build_user_message (e : LLMError) (reason : string) : string :=
  if (reason =? "quota")%string
  then "The configured LLM provider rejected the request because the account is out of quota, billing is unavailable, or usage is restricted. Please fix the provider account and try again."
  else if (reason =? "auth")%string
  then "The configured LLM provider rejected the request because authentication or access is invalid. Please check the provider credentials and try again."
  else if bool_decide (reason ∈ ["busy"; "transient"])
  then if bool_decide (err_class e ∈ _STREAM_DROP_EXCEPTIONS)
       then "The model's streaming response was interrupted before it could finish. This usually happens when a single response or tool call is very large — please ask the assistant to split the work into smaller steps, or shorten the requested output, and try again."
       else "The configured LLM provider is temporarily unavailable after multiple retries. Please wait a moment and continue the conversation."
  else "LLM request failed: " +:+ _extract_error_detail e.

Definition _build_user_fallback_message (e : LLMError) (reason : string) : json :=
  _build_error_fallback_message (_build_user_message e reason) (err_class e) reason
    (_extract_error_detail e).

(** ** The breaker *)

Inductive circuit_state := closed | open | half_open.

#[export] Instance circuit_state_eq_dec : EqDecision circuit_state.
Proof. solve_decision. Defined.

(** Instants in microseconds. *)
Record Circuit := {
  _circuit_failure_count : Z;
  _circuit_open_until : Z;
  _circuit_state : circuit_state;
  _circuit_probe_in_flight : bool
}.

Definition new_circuit : Circuit :=
  {| _circuit_failure_count := 0; _circuit_open_until := 0; _circuit_state := closed;
     _circuit_probe_in_flight := false |}.

Definition half_opened (c : Circuit) (probe : bool) : Circuit :=
  {| _circuit_failure_count := _circuit_failure_count c;
     _circuit_open_until := _circuit_open_until c;
     _circuit_state := half_open; _circuit_probe_in_flight := probe |}.

(** [true]: fail fast. *)
Definition _check_circuit (now : Z) (c : Circuit) : bool * Circuit :=
  let probe c := if _circuit_probe_in_flight c then (true, c) else (false, half_opened c true) in
  match _circuit_state c with
  | open => if now <? _circuit_open_until c then (true, c) else probe (half_opened c false)
  | half_open => probe c
  | closed => (false, c)
  end.

Definition _record_success (c : Circuit) : Circuit := new_circuit.

(** What the middleware does on LangGraph's control-flow signals. *)
Definition release_probe (c : Circuit) : Circuit :=
  match _circuit_state c with half_open => half_opened c false | _ => c end.

Section breaker.

(** [circuit_breaker.failure_threshold], and [recovery_timeout_sec] in
microseconds. *)
Context (circuit_failure_threshold circuit_recovery_timeout : Z).

Definition _record_failure (now : Z) (c : Circuit) : Circuit :=
match _circuit_state c with
| half_open =>
  {| _circuit_failure_count := _circuit_failure_count c;
     _circuit_open_until := now + circuit_recovery_timeout;
     _circuit_state := open; _circuit_probe_in_flight := false |}
| st =>
  let count := _circuit_failure_count c + 1 in
  if circuit_failure_threshold <=? count
  then {| _circuit_failure_count := count;
          _circuit_open_until := now + circuit_recovery_timeout;
          _circuit_state := open;
          _circuit_probe_in_flight := match st with open => _circuit_probe_in_flight c | _ => false end |}
  else {| _circuit_failure_count := count; _circuit_open_until := _circuit_open_until c;
          _circuit_state := st; _circuit_probe_in_flight := _circuit_probe_in_flight c |}
end.

(** ** A model call *)

(** How one call of the handler ends: with a response, with a LangGraph
signal, with an exception, or cut off by what is no [Exception] -- a
cancellation, also while it sleeps before that attempt. *)
Inductive outcome :=
| Response (r : json)
| BubbleUp
| Error (e : LLMError)
| Interrupt.

(** How a whole call ends. *)
Inductive ending := Answered | Signalled | Exhausted | Refused | Interrupted.

(** What the caller of the middleware gets. *)
Inductive answer :=
| Model (r : json)
| Fallback (m : json)
| Propagates (cause : outcome)
| Crashes (e : exn).

Record trace := { tr_events : list json; tr_ending : ending; tr_answer : answer; tr_calls : nat }.

Definition finished (e : ending) (a : answer) : trace :=
{| tr_events := []; tr_ending := e; tr_answer := a; tr_calls := 1 |}.

Context (http_date : string -> option Z).

(** The loop, from its [attempt]: [handler n] is the outcome of the n-th
call, [clock n] the milliseconds at its failure. *)
Fixpoint attempts (fuel : nat) (handler : Z -> outcome) (clock : Z -> Z) (attempt : Z) : option trace :=
match fuel with
| O => None
| S fuel =>
  match handler attempt with
  | Response r => Some (finished Answered (Model r))
  | BubbleUp => Some (finished Signalled (Propagates BubbleUp))
  | Interrupt => Some (finished Interrupted (Propagates Interrupt))
  | Error e =>
      let '(retriable, reason) := _classify_error e in
      if retriable && (attempt <? _max_attempts_for e) then
        match _build_retry_delay_ms http_date attempt e (clock attempt) with
        | Raise x => Some (finished Interrupted (Crashes x))
        | Ok wait_ms =>
            option_map (fun t =>
              {| tr_events := retry_event attempt wait_ms reason :: tr_events t;
                 tr_ending := tr_ending t; tr_answer := tr_answer t; tr_calls := S (tr_calls t) |})
              (attempts fuel handler clock (attempt + 1))
        end
      else Some (finished (if (retriable : bool) then Exhausted else Refused)
                          (Fallback (_build_user_fallback_message e reason)))
  end
end.

(** The attempts an error is given are at most three, so three rounds are
enough. *)
Definition call_fuel : nat := Z.to_nat retry_max_attempts.

(** The end of a call on the breaker. *)
Definition settle (now : Z) (e : ending) (c : Circuit) : Circuit :=
match e with
| Answered => _record_success c
| Signalled => release_probe c
| Exhausted => _record_failure now c
| Refused | Interrupted => c
end.

(** [wrap_model_call] alone: [now] at the check, [later] at the end. *)
Definition wrap_model_call (now later : Z) (handler : Z -> outcome) (clock : Z -> Z) (c : Circuit)
: option (answer * list json * Circuit) :=
match _check_circuit now c with
| (true, c) => Some (Fallback circuit_open_message, [], c)
| (false, c) =>
  option_map (fun t => (tr_answer t, tr_events t, settle later (tr_ending t) c))
    (attempts call_fuel handler clock 1)
end.

(** The outcome of the attempt that was the last. *)
Definition last_answer (handler : Z -> outcome) (clock : Z -> Z) (k : Z) (e : ending) (a : answer) : Prop :=
match handler k with
| Response r => e = Answered /\ a = Model r
| BubbleUp => e = Signalled /\ a = Propagates BubbleUp
| Interrupt => e = Interrupted /\ a = Propagates Interrupt
| Error x =>
  let '(retriable, reason) := _classify_error x in
  if retriable && (k <? _max_attempts_for x)
  then exists y, _build_retry_delay_ms http_date k x (clock k) = Raise y /\
                 e = Interrupted /\ a = Crashes y
  else e = (if retriable then Exhausted else Refused) /\
       a = Fallback (_build_user_fallback_message x reason)
end.

(** The attempt is followed by another: its error is transient and it has a
budget left. *)
Definition retried (handler : Z -> outcome) (clock : Z -> Z) (n : Z) : Prop :=
exists x ms, handler n = Error x /\ (_classify_error x).1 = true /\ n < _max_attempts_for x /\
_build_retry_delay_ms http_date n x (clock n) = Ok ms.

Lemma max_attempts_le x : _max_attempts_for x <= retry_max_attempts.
Proof. unfold _max_attempts_for. destruct (List.find _ _) as [[? o]|]; lia. Qed.

Lemma attempts_spec handler clock fuel n :
0 < Z.of_nat fuel -> retry_max_attempts < n + Z.of_nat fuel ->
exists t, attempts fuel handler clock n = Some t /\
let k := n + Z.of_nat (length (tr_events t)) in
tr_calls t = S (length (tr_events t)) /\ k < n + Z.of_nat fuel /\
(forall i, n <= i < k -> retried handler clock i) /\
last_answer handler clock k (tr_ending t) (tr_answer t).
Proof.
revert n. induction fuel as [|fuel IH]; intros n F B; [lia|]. simpl. unfold last_answer.
destruct (handler n) as [r| |x|] eqn:E.
1,2,4: eexists; split; [reflexivity|]; simpl; rewrite Z.add_0_r, E;
split_and!; [done|lia|intros; lia|done|done].
destruct (_classify_error x) as [retriable reason] eqn:C.
destruct (retriable && (n <? _max_attempts_for x)) eqn:R.
- apply andb_true_iff in R as [Rt Rn]. pose proof (max_attempts_le x). apply Z.ltb_lt in Rn.
destruct (_build_retry_delay_ms http_date n x (clock n)) as [ms|y] eqn:D.
+ destruct (IH (n + 1)) as (t&->&Ca&L&Re&La); [lia|lia|]. eexists. split; [reflexivity|]. simpl.
  replace (n + Z.of_nat (S (length (tr_events t)))) with (n + 1 + Z.of_nat (length (tr_events t))) by lia.
  split_and!; [by rewrite Ca|lia| |done]. intros i Hi.
  destruct (decide (i = n)) as [->|]; [|apply Re; lia].
  exists x, ms. rewrite C. done.
+ eexists. split; [reflexivity|]. simpl. rewrite Z.add_0_r, E, C, Rt, (proj2 (Z.ltb_lt _ _) Rn).
  split_and!; [done|lia|intros; lia|]. simpl. eauto.
- eexists. split; [reflexivity|]. simpl. rewrite Z.add_0_r, E, C, R.
split_and!; [done|lia|intros; lia|done|done].
Qed.

(** C37: a model call always ends.  A denied call does not reach the provider
and leaves the breaker alone; any other makes between one and three
attempts, each after the first because the one before failed with a
transient error that had budget left; the last one decides the answer, and
the breaker is told of that end alone. *)
Theorem wrap_model_call_spec now later handler clock c :
exists a evs c', wrap_model_call now later handler clock c = Some (a, evs, c') /\
match _check_circuit now c with
| (true, c1) => a = Fallback circuit_open_message /\ evs = [] /\ c' = c1
| (false, c1) =>
  exists k e, 1 <= k <= 3 /\ Z.of_nat (length evs) = k - 1 /\
    (forall i, 1 <= i < k -> retried handler clock i) /\
    last_answer handler clock k e a /\ c' = settle later e c1
end.
Proof.
unfold wrap_model_call. destruct (_check_circuit now c) as [[] c1]; [by eauto 10|].
destruct (attempts_spec handler clock call_fuel 1) as (t&->&_&L&Re&La); [done..|]. simpl in *.
eexists _, _, _. split; [reflexivity|]. exists (1 + Z.of_nat (length (tr_events t))), (tr_ending t).
change (Z.of_nat call_fuel) with 3 in L. split_and!; (lia || done).
Qed.

(** A header that denotes an infinite delay is not turned down: the overflow
of its conversion is not among the errors that are handled, and leaves the
middleware in place of a retry or a fallback. *)
Lemma infinite_retry_after now later c :
(_check_circuit now c).1 = false ->
let x := {| err_class := "APIConnectionError"; is_index_error := false; err_text := "reset";
          err_message := None; err_codes := []; err_body_codes := []; err_statuses := [];
          err_headers := Some (fun k => if (k =? "retry-after")%string then Some "1e999" else None) |} in
exists e evs c', wrap_model_call now later (fun _ => Error x) (fun _ => 0) c = Some (Crashes e, evs, c') /\
class_of e = OverflowError.
Proof.
intros F x. unfold wrap_model_call. destruct (_check_circuit now c) as [[] c1]; [done|].
assert (attempts call_fuel (fun _ => Error x) (fun _ => 0) 1 =
        Some (finished Interrupted (Crashes (Exn OverflowError "cannot convert float infinity to integer"))))
as -> by (vm_compute; reflexivity).
by eexists _, _, _.
Qed.

(** ** Calls in flight

[failures]: the exhausted calls since the last answered one, a ghost. *)
Record Traffic := { bk : Circuit; flying : nat; failures : Z }.

Definition quiet : Traffic := {| bk := new_circuit; flying := 0; failures := 0 |}.

Definition count_ending (e : ending) (n : Z) : Z :=
match e with Answered => 0 | Exhausted => n + 1 | _ => n end.

(** A call starts, or fails fast; a call in flight ends. *)
Inductive step : Traffic -> Traffic -> Prop :=
| step_start now s :
step s {| bk := (_check_circuit now (bk s)).2;
          flying := if (_check_circuit now (bk s)).1 then flying s else S (flying s);
          failures := failures s |}
| step_end now e s n :
flying s = S n ->
step s {| bk := settle now e (bk s); flying := n; failures := count_ending e (failures s) |}.

Definition steps : Traffic -> Traffic -> Prop := rtc step.

(** A schedule of calls, as a function. *)
Inductive event := Start (now : Z) | End (now : Z) (e : ending).

Definition play (s : Traffic) (ev : event) : Traffic :=
match ev with
| Start now =>
  {| bk := (_check_circuit now (bk s)).2;
     flying := if (_check_circuit now (bk s)).1 then flying s else S (flying s);
     failures := failures s |}
| End now e =>
  match flying s with
  | O => s
  | S n => {| bk := settle now e (bk s); flying := n; failures := count_ending e (failures s) |}
  end
end.

Lemma steps_play evs s : steps s (foldl play s evs).
Proof.
revert s. induction evs as [|[now|now e] evs IH]; intros s; simpl; [apply rtc_refl| |].
- eapply rtc_l; [apply step_start|apply IH].
- destruct (flying s) eqn:E; [apply IH|]. eapply rtc_l; [by eapply step_end|apply IH].
Qed.

(** The breaker against the count of failures. *)
Definition breaker_ok (s : Traffic) : Prop :=
0 <= _circuit_failure_count (bk s) <= failures s /\
(_circuit_probe_in_flight (bk s) = true -> _circuit_state (bk s) = half_open) /\
match _circuit_state (bk s) with
| closed => _circuit_failure_count (bk s) = failures s /\ failures s < Z.max 1 circuit_failure_threshold
| _ => Z.max 1 circuit_failure_threshold <= _circuit_failure_count (bk s)
end.

Lemma breaker_ok_quiet : breaker_ok quiet.
Proof. repeat split; simpl; (lia || done). Qed.

Lemma breaker_ok_check now s :
breaker_ok s -> breaker_ok {| bk := (_check_circuit now (bk s)).2; flying := flying s; failures := failures s |}.
Proof.
unfold breaker_ok, _check_circuit. destruct s as [[k u [] p] f n]; simpl; [done| |].
- destruct (now <? u); simpl; naive_solver.
- destruct p; simpl; naive_solver.
Qed.

Lemma breaker_ok_settle now e s :
breaker_ok s ->
breaker_ok {| bk := settle now e (bk s); flying := flying s; failures := count_ending e (failures s) |}.
Proof.
unfold breaker_ok. destruct s as [[k u st p] f n], e; simpl; try done.
- intros _. repeat split; (lia || done).
- unfold release_probe. destruct st; simpl; naive_solver lia.
- unfold _record_failure. destruct st; simpl;
  destruct (Z.leb_spec circuit_failure_threshold (k + 1)); simpl; naive_solver lia.
Qed.

Lemma breaker_ok_step s s' : step s s' -> breaker_ok s -> breaker_ok s'.
Proof.
intros [now s0|now e s0 n _] K.
- pose proof (breaker_ok_check now s0 K). by destruct (_check_circuit now (bk s0)) as [[] ?].
- by apply (breaker_ok_settle now e).
Qed.

Lemma breaker_ok_steps s s' : steps s s' -> breaker_ok s -> breaker_ok s'.
Proof. induction 1; eauto using breaker_ok_step. Qed.

(** When the breaker denies a call. *)
Definition denies (now : Z) (c : Circuit) : Prop :=
(_circuit_state c = open /\ now < _circuit_open_until c) \/
(_circuit_state c = half_open /\ _circuit_probe_in_flight c = true).

Lemma check_denies now s :
breaker_ok s -> (_check_circuit now (bk s)).1 = true <-> denies now (bk s).
Proof.
unfold breaker_ok, denies, _check_circuit. intros (_&P&_). revert P.
destruct (bk s) as [k u [] p]; simpl; [naive_solver| |].
- destruct (Z.ltb_spec now u); simpl; naive_solver lia.
- destruct p; naive_solver.
Qed.


(** A lost probe wedges the breaker.  When the only call in flight is the
probe and it ends with an error that is not retried, or is cut off, the
breaker stays half open with a probe it still counts as running: from then
on every call fails fast, at any time and whatever else happens. *)
Theorem lost_probe_wedges s now e s' s'' later :
_circuit_state (bk s) = half_open -> _circuit_probe_in_flight (bk s) = true -> flying s = 1%nat ->
e = Refused \/ e = Interrupted ->
s' = {| bk := settle now e (bk s); flying := 0; failures := count_ending e (failures s) |} ->
steps s' s'' -> (_check_circuit later (bk s'')).1 = true.
Proof.
intros H P _ E -> St.
assert (bk s'' = bk s /\ flying s'' = 0%nat) as [-> _].
2: { unfold _check_circuit. by rewrite H, P. }
remember {| bk := settle now e (bk s); flying := 0; failures := _ |} as s' eqn:Es.
assert (bk s' = bk s /\ flying s' = 0%nat) as F by (subst s'; by destruct E as [-> | ->]).
clear Es. induction St as [x|x y z S1 _ IH]; [done|]. apply IH. destruct F as [F1 F2].
destruct S1 as [t s1|t e1 s1 n N]; [|congruence]. simpl.
unfold _check_circuit. by rewrite F1, F2, H, P.
Qed.
End breaker.


(** Two exhausted calls trip the breaker; after its time the probe runs out
    of quota. *)
Lemma lost_probe_wedges_witness :
  let s := foldl (play 2 60) quiet
    [Start 0; End 1 Exhausted; Start 2; End 3 Exhausted; Start 70] in
  (_check_circuit 10000000 (settle 2 60 71 Refused (bk s))).1 = true.
Proof.
  intros s.
  apply (lost_probe_wedges 2 60 s 71 Refused
    {| bk := settle 2 60 71 Refused (bk s); flying := 0; failures := failures s |}
    {| bk := settle 2 60 71 Refused (bk s); flying := 0; failures := failures s |} 10000000);
    [reflexivity|reflexivity|reflexivity|by left|reflexivity|apply rtc_refl].
Defined.
End CircuitBreaker.
