(* ===== verification/Retry.v ===== *)
(** * Retried writes of the run store

    [_is_retryable_persistence_error] and [_call_store_with_retry] of
    [deerflow/runtime/runs/manager.py]: which exceptions are worth another
    attempt -- a search through the chained exceptions, which may be cyclic --
    and the bounded loop with its growing delays. *)
From stdpp Require Import fin_sets fin_maps fin_map_dom.
From S2P Require Import Prelude Json Errors Float64 Text.
Import Errors Float64.

Module Retry.

Definition _RETRYABLE_SQLITE_MESSAGES : list string :=
  ["database is locked"; "database table is locked"; "database is busy"].

(** [SQLITE_BUSY] and [SQLITE_LOCKED] *)
Definition _RETRYABLE_SQLITE_ERROR_CODES : list Z := [5; 6].

(** An exception object: its text, whether it is an operational or database
    error of sqlite3 and with which code, and the exceptions it points to by
    [orig], [__cause__] and [__context__]. *)
Record Raised := {
  text : string;
  is_sqlite : bool;
  sqlite_errorcode : option Z;
  orig : option nat;
  cause : option nat;
  context : option nat
}.

(** Exception objects by identity. *)
Abbreviation Heap := (gmap nat Raised).

Definition transient (e : Raised) : bool :=
  let message := Text.lowered (text e) in
  existsb (fun fragment => Text.contains fragment message) _RETRYABLE_SQLITE_MESSAGES
  || (is_sqlite e && match sqlite_errorcode e with
                     | Some c => bool_decide (c ∈ _RETRYABLE_SQLITE_ERROR_CODES) | None => false
                     end).

(** The chained exceptions, the last pushed first. *)
Definition chained (e : Raised) : list nat := omap id [context e; cause e; orig e].

(** The loop over the stack [pending], its top first. *)
Fixpoint search (fuel : nat) (h : Heap) (pending : list nat) (seen : gset nat) : option bool :=
  match fuel with
  | O => None
  | S fuel =>
      match pending with
      | [] => Some false
      | current :: pending =>
          if decide (current ∈ seen) then search fuel h pending seen
          else match h !! current with
               | None => search fuel h pending ({[current]} ∪ seen)
               | Some e => if transient e then Some true
                           else search fuel h (chained e ++ pending) ({[current]} ∪ seen)
               end
      end
  end.

(** Every exception is expanded once, and pushes at most three. *)
Definition search_fuel (h : Heap) : nat := (4 * size h + 4)%nat.

Definition _is_retryable_persistence_error (h : Heap) (exc : nat) : option bool :=
  search (search_fuel h) h [exc] ∅.

(** ** The search is reachability *)
Section search.
Context (h : Heap).

Definition link (i j : nat) : Prop := exists e, h !! i = Some e /\ j ∈ chained e.

Definition bad (i : nat) : Prop := exists e, h !! i = Some e /\ transient e = true.

Lemma length_chained e : (length (chained e) <= 3)%nat.
Proof. unfold chained. destruct (context e), (cause e), (orig e); simpl; lia. Qed.

Definition unseen (seen : gset nat) : nat := size (dom h ∖ seen).

Lemma unseen_step seen i e :
h !! i = Some e -> i ∉ seen -> (S (unseen ({[i]} ∪ seen)) <= unseen seen)%nat.
Proof.
intros E N. unfold unseen.
assert (i ∈ dom h ∖ seen) as Hi by (apply elem_of_difference; split; [by eapply elem_of_dom_2|done]).
apply subset_size. set_solver.
Qed.

Lemma unseen_mono seen i : (unseen ({[i]} ∪ seen) <= unseen seen)%nat.
Proof. unfold unseen. apply subseteq_size. set_solver. Qed.

(** [start] and everything expanded so far lead only to what is seen or
pending, and nothing seen is transient. *)
Lemma search_spec start fuel : forall pending seen,
(4 * unseen seen + length pending < fuel)%nat ->
start ∈ seen \/ start ∈ pending ->
(forall i, i ∈ pending -> rtc link start i) ->
(forall i j, i ∈ seen -> link i j -> j ∈ seen \/ j ∈ pending) ->
(forall i, i ∈ seen -> ~ bad i) ->
exists b, search fuel h pending seen = Some b /\ (b = true <-> exists i, rtc link start i /\ bad i).
Proof.
induction fuel as [|fuel IH]; intros pending seen F St R C B; [lia|]. simpl.
destruct pending as [|i pending].
{ exists false. split; [done|]. split; [done|]. intros (k&Rk&Bk). exfalso.
assert (forall j, rtc link start j -> j ∈ seen) as Hs.
{ intros j Rj. apply rtc_ind_r with (P := fun j => j ∈ seen) in Rj; [done| |].
  - destruct St as [|St]; [done|by apply not_elem_of_nil in St].
  - intros x y _ L Hx. destruct (C x y Hx L) as [|Hy]; [done|by apply not_elem_of_nil in Hy]. }
by apply (B k (Hs k Rk)). }
simpl in F. destruct (decide (i ∈ seen)) as [Hi|Hi].
{ apply IH; [lia|set_solver|set_solver| |done]. intros x y Hx L.
destruct (C x y Hx L) as [|[->|]%elem_of_cons]; auto. }
destruct (h !! i) as [e|] eqn:E.
- destruct (transient e) eqn:T.
{ exists true. split; [done|]. split; [intros _|done]. exists i. split; [apply R; left|by exists e]. }
pose proof (unseen_step seen i e E Hi). pose proof (length_chained e).
apply IH; [rewrite length_app; lia|set_solver| | |].
+ intros j [Hj|Hj]%elem_of_app; [|by apply R; right].
  eapply rtc_r; [apply R; left|by exists e].
+ intros x y [->%elem_of_singleton|Hx]%elem_of_union L.
  * destruct L as (e'&E'&Hy). rewrite E in E'. injection E' as <-. right. apply elem_of_app. by left.
  * destruct (C x y Hx L) as [|[->|]%elem_of_cons]; set_solver.
+ intros x [->%elem_of_singleton|Hx]%elem_of_union; [|by apply B].
  intros (e'&E'&T'). congruence.
- pose proof (unseen_mono seen i). apply IH; [lia|set_solver|set_solver| |].
+ intros x y [->%elem_of_singleton|Hx]%elem_of_union L; [destruct L as (?&?&_); congruence|].
  destruct (C x y Hx L) as [|[->|]%elem_of_cons]; set_solver.
+ intros x [->%elem_of_singleton|Hx]%elem_of_union; [intros (?&?&_); congruence|by apply B].
Qed.
End search.

(** An error of the store is retried exactly when it or an exception
    reachable from it -- through wrappers, causes and contexts, however they
    are linked, cycles included -- is a lock contention; the search always
    ends. *)
Theorem retryable_iff_reachable h exc :
  exists b, _is_retryable_persistence_error h exc = Some b /\
    (b = true <-> exists i, rtc (link h) exc i /\ bad h i).
Proof.
  unfold _is_retryable_persistence_error, search_fuel. apply search_spec.
  - unfold unseen. pose proof (subseteq_size (dom h ∖ (∅ : gset nat)) (dom h) ltac:(set_solver)) as S1.
    rewrite size_dom in S1. simpl. lia.
  - right. left.
  - intros i [->|Hi%not_elem_of_nil]%elem_of_cons; [apply rtc_refl|done].
  - intros i j Hi. by apply not_elem_of_empty in Hi.
  - intros i Hi. by apply not_elem_of_empty in Hi.
Qed.

(** A cycle of wrappers around a busy database. *)
Example retryable_cycle :
  let e t c o := {| text := t; is_sqlite := false; sqlite_errorcode := None; orig := o; cause := c; context := None |} in
  _is_retryable_persistence_error
    {[ 0%nat := e "flush failed" (Some 1%nat) None; 1%nat := e "wrapper" (Some 0%nat) (Some 2%nat);
       2%nat := e "Database is LOCKED" None None ]} 0 = Some true.
Proof. vm_compute. reflexivity. Qed.

(** ** The loop *)

Record PersistenceRetryPolicy := {
  max_attempts : Z;
  initial_delay : float;
  max_delay : float;
  backoff_factor : float
}.

Definition default_policy : PersistenceRetryPolicy :=
  {| max_attempts := 5; initial_delay := rnd 5 100; max_delay := of_int 1; backoff_factor := of_int 2 |}.

Definition fmin (x y : float) : float := if fle y x && negb (feq x y) then y else x.

(** The delay after [delay]. *)
Definition next_delay (p : PersistenceRetryPolicy) (delay : float) : float :=
  fmin (max_delay p) (if feq delay fzero then initial_delay p else fmul delay (backoff_factor p)).

(** One attempt of the operation: its value, or an exception and whether it is
    worth another attempt. *)
Definition attempt_outcome (A : Type) : Type := A + (exn * bool).

Record retried (A : Type) := {
  rt_result : Errors.result A;
  rt_attempts : Z;
  rt_delays : list float
}.
#[global] Arguments rt_result {A} r.
#[global] Arguments rt_attempts {A} r.
#[global] Arguments rt_delays {A} r.

(** [operation n] is the outcome of the n-th attempt. *)
Fixpoint call_loop {A} (fuel : nat) (p : PersistenceRetryPolicy) (operation : Z -> attempt_outcome A)
    (attempt : Z) (delay : float) : option (retried A) :=
  match fuel with
  | O => None
  | S fuel =>
      match operation attempt with
      | inl a => Some {| rt_result := Ok a; rt_attempts := attempt; rt_delays := [] |}
      | inr (e, retryable) =>
          if (max_attempts p <=? attempt) || negb retryable
          then Some {| rt_result := Raise e; rt_attempts := attempt; rt_delays := [] |}
          else
            option_map (fun r => {| rt_result := rt_result r; rt_attempts := rt_attempts r;
                                    rt_delays := delay :: rt_delays r |})
              (call_loop fuel p operation (attempt + 1) (next_delay p delay))
      end
  end.

Definition _call_store_with_retry {A} (p : PersistenceRetryPolicy) (operation : Z -> attempt_outcome A)
  : option (retried A) :=
  call_loop (Z.to_nat (Z.max 1 (max_attempts p))) p operation 1 (initial_delay p).

Lemma call_loop_spec {A} p (operation : Z -> attempt_outcome A) fuel : forall n delay,
  (0 < fuel)%nat -> max_attempts p < n + Z.of_nat fuel ->
  exists r, call_loop fuel p operation n delay = Some r /\ n <= rt_attempts r < n + Z.of_nat fuel /\
    Z.of_nat (length (rt_delays r)) = rt_attempts r - n /\
    (forall i, n <= i < rt_attempts r -> i < max_attempts p /\ exists e, operation i = inr (e, true)) /\
    match operation (rt_attempts r) with
    | inl a => rt_result r = Ok a
    | inr (e, retryable) => rt_result r = Raise e /\ (retryable = true -> max_attempts p <= rt_attempts r)
    end.
Proof.
  induction fuel as [|fuel IH]; intros n delay F L; [lia|]. simpl.
  destruct (operation n) as [a|[e retryable]] eqn:E.
  { eexists. split; [reflexivity|]. simpl. rewrite E. split_and!; [lia|lia|lia|intros; lia|done]. }
  destruct (Z.leb_spec (max_attempts p) n) as [M|M]; simpl.
  { eexists. split; [reflexivity|]. simpl. rewrite E. split_and!; [lia|lia|lia|intros; lia|done|done]. }
  destruct retryable; simpl.
  - destruct (IH (n + 1) (next_delay p delay)) as (r&->&B&D&P&R); [lia|lia|].
    eexists. split; [reflexivity|]. simpl. split_and!; [lia|lia|lia| |done].
    intros i Hi. destruct (decide (i = n)) as [->|]; [split; [done|by exists e]|apply P; lia].
  - eexists. split; [reflexivity|]. simpl. rewrite E. split_and!; [lia|lia|lia|intros; lia|done|done].
Qed.

(** A store operation is attempted at least once and at most
    [max_attempts] times, always ends, and each attempt but the last failed
    with a transient error; the caller gets the last attempt's value or its
    exception, which is transient only when the attempts are used up. *)
Theorem store_call_bounded {A} p (operation : Z -> attempt_outcome A) :
  exists r, _call_store_with_retry p operation = Some r /\
    1 <= rt_attempts r <= Z.max 1 (max_attempts p) /\
    Z.of_nat (length (rt_delays r)) = rt_attempts r - 1 /\
    (forall i, 1 <= i < rt_attempts r -> exists e, operation i = inr (e, true)) /\
    match operation (rt_attempts r) with
    | inl a => rt_result r = Ok a
    | inr (e, retryable) => rt_result r = Raise e /\ (retryable = true -> max_attempts p <= rt_attempts r)
    end.
Proof.
  unfold _call_store_with_retry.
  destruct (call_loop_spec p operation (Z.to_nat (Z.max 1 (max_attempts p))) 1 (initial_delay p))
    as (r&E&B&D&P&R); [lia|lia|].
  exists r. split_and!; [done|lia|lia|lia| |done]. intros i Hi. by apply P.
Qed.

(** The default delays: 50, 100, 200 and 400 milliseconds. *)
Example default_delays :
  match _call_store_with_retry default_policy (fun _ => inr (Exn RuntimeError "locked", true) : attempt_outcome unit) with
  | Some r => forallb id (zip_with feq (rt_delays r) [rnd 5 100; rnd 1 10; rnd 2 10; rnd 4 10]) && (rt_attempts r =? 5)
  | None => false
  end = true.
Proof. vm_compute. reflexivity. Qed.
End Retry.
