(* ===== verification/RunStore.v ===== *)
(** * The in-memory run store

    [deerflow/runtime/runs/store/memory.py]: the rows of the runs with their
    index by thread.  Instants are integers; the texts of the source
    ([isoformat] in UTC) sort as they do. *)
From S2P Require Import Prelude Json Errors Text.
Import Json Errors.

Module RunStore.

(** A row; [usage] holds the token counters and message fields written by
    [update_run_completion] and [update_run_progress]. *)
Record RunRow := {
  row_run_id : string;
  row_thread_id : string;
  row_assistant_id : option string;
  row_user_id : option string;
  row_model_name : option string;
  row_status : string;
  row_multitask_strategy : string;
  row_metadata : dict;
  row_kwargs : dict;
  row_error : option string;
  row_created_at : Z;
  row_updated_at : Z;
  row_usage : dict
}.

(** [_runs] in insertion order, and [_runs_by_thread]. *)
Record MemoryRunStore := { rows : list RunRow; by_thread : gmap string (list string) }.

Definition empty_store : MemoryRunStore := {| rows := []; by_thread := ∅ |}.

(** ** Indexes by thread

    The same two operations maintain the index of the store and of the
    manager. *)
Definition index_run (run_id thread_id : string) (ix : gmap string (list string)) : gmap string (list string) :=
  <[thread_id := add_key (default [] (ix !! thread_id)) run_id]> ix.

Definition drop_key (x : string) : list string -> list string := List.filter (fun y => negb (y =? x)%string).

(** An emptied bucket goes. *)
Definition unindex_run (run_id thread_id : string) (ix : gmap string (list string)) : gmap string (list string) :=
  match ix !! thread_id with
  | None => ix
  | Some bucket =>
      match drop_key run_id bucket with
      | [] => delete thread_id ix
      | bucket => <[thread_id := bucket]> ix
      end
  end.

Section indexed.
Context {A : Type} (id_of thread_of : A -> string).

(** The index lists, per thread, the ids of the items in their order. *)
Definition lockstep (items : list A) (ix : gmap string (list string)) : Prop :=
NoDup (map id_of items) /\
forall t, ix !! t = match map id_of (List.filter (fun x => (thread_of x =? t)%string) items) with
                  | [] => None | ids => Some ids
                  end.

(** What a scan of all the items finds for a thread. *)
Definition of_thread (t : string) (items : list A) : list A :=
List.filter (fun x => (thread_of x =? t)%string) items.

(** The indexed lookup. *)
Definition thread_items (items : list A) (ix : gmap string (list string)) (t : string) : list A :=
match ix !! t with
| None => []
| Some ids => omap (fun i => List.find (fun x => (id_of x =? i)%string) items) ids
end.

Lemma find_by_id items x : NoDup (map id_of items) -> x ∈ items ->
List.find (fun y => (id_of y =? id_of x)%string) items = Some x.
Proof.
induction items as [|y items IH]; intros N Hx; [by apply not_elem_of_nil in Hx|].
simpl in N. apply NoDup_cons in N as [Ny N]. simpl. apply elem_of_cons in Hx as [->|Hx].
{ by rewrite String.eqb_refl. }
destruct (String.eqb_spec (id_of y) (id_of x)) as [E|]; [|by apply IH].
destruct Ny. rewrite E. by apply list_elem_of_fmap_2.
Qed.

(** The index answers like the scan it replaces. *)
Lemma thread_items_scan items ix t : lockstep items ix -> thread_items items ix t = of_thread t items.
Proof.
intros [N L]. unfold thread_items. rewrite L. fold (of_thread t items).
assert (forall k, (forall x, x ∈ k -> x ∈ items) ->
omap (fun i => List.find (fun x => (id_of x =? i)%string) items) (map id_of k) = k) as H.
{ induction k as [|x k IH]; intros I; [done|]. simpl. rewrite find_by_id by (done || (apply I; left)).
f_equal. apply IH. intros y Hy. apply I. by right. }
specialize (H (of_thread t items)). destruct (map id_of (of_thread t items)) eqn:E.
- by apply map_eq_nil in E.
- apply H. intros x [Hx _]%filter_elem. done.
Qed.

Lemma lockstep_empty : lockstep [] ∅.
Proof. split; [constructor|]. intros t. by rewrite lookup_empty. Qed.

Lemma lockstep_snoc items ix x :
lockstep items ix -> id_of x ∉ map id_of items ->
lockstep (items ++ [x]) (index_run (id_of x) (thread_of x) ix).
Proof.
intros [N L] F. split.
{ rewrite map_app. apply NoDup_app. split_and!; [done|set_solver|apply NoDup_singleton]. }
intros t. rewrite List.filter_app, map_app. simpl. unfold index_run.
destruct (String.eqb_spec (thread_of x) t) as [<-|Ne]; simpl.
- rewrite lookup_insert_eq, L.
set (ids := map id_of (List.filter _ items)). unfold add_key. rewrite decide_False.
+ destruct ids; done.
+ intros Hi. apply F. assert (id_of x ∈ ids) as H' by (by destruct ids).
  unfold ids in H'. apply list_elem_of_fmap in H' as (y&Ey&[Hy _]%filter_elem). rewrite Ey.
  by apply list_elem_of_fmap_2.
- rewrite lookup_insert_ne by done. by rewrite app_nil_r, L.
Qed.

Lemma lockstep_update items ix f g :
lockstep items ix -> (forall x, id_of (g x) = id_of x /\ thread_of (g x) = thread_of x) ->
lockstep (map_where f g items) ix.
Proof.
intros [N L] G. assert (map id_of (map_where f g items) = map id_of items) as E.
{ unfold map_where. rewrite map_map. apply map_ext. intros x. destruct (f x); [apply G|done]. }
split; [by rewrite E|]. intros t. rewrite L. clear N E L.
assert (map id_of (List.filter (fun x => (thread_of x =? t)%string) (map_where f g items)) =
      map id_of (List.filter (fun x => (thread_of x =? t)%string) items)) as ->; [|done].
induction items as [|x items IH]; simpl; [done|].
assert (id_of (if f x then g x else x) = id_of x /\ thread_of (if f x then g x else x) = thread_of x)
as [E1 E2] by (destruct (f x); [apply G|done]).
rewrite E2. destruct (thread_of x =? t)%string; simpl; [by rewrite E1, IH|done].
Qed.

Lemma lockstep_remove items ix x :
lockstep items ix -> x ∈ items ->
lockstep (List.filter (fun y => negb (id_of y =? id_of x)%string) items)
(unindex_run (id_of x) (thread_of x) ix).
Proof.
intros [N L] Hx. split; [by apply map_filter_nodup|]. intros t.
assert (forall k, map id_of (List.filter (fun y => (thread_of y =? t)%string)
 (List.filter (fun y => negb (id_of y =? id_of x)%string) k)) =
 drop_key (id_of x) (map id_of (List.filter (fun y => (thread_of y =? t)%string) k))) as D.
{ induction k as [|y k IH]; simpl; [done|].
destruct (id_of y =? id_of x)%string eqn:E1, (thread_of y =? t)%string eqn:E2; simpl;
  rewrite ?E1, ?E2; simpl; congruence. }
rewrite D. unfold unindex_run. rewrite !L. fold (of_thread t items) (of_thread (thread_of x) items).
destruct (decide (thread_of x = t)) as [<-|Ne].
- destruct (map id_of (of_thread (thread_of x) items)) as [|i ids] eqn:E; [by rewrite L; unfold of_thread in E; rewrite E|].
destruct (drop_key (id_of x) (i :: ids)) eqn:E'; [by rewrite lookup_delete_eq|by rewrite lookup_insert_eq].
- assert (drop_key (id_of x) (map id_of (of_thread t items)) = map id_of (of_thread t items)) as ->.
{ unfold drop_key. clear D L. assert (forall y, y ∈ of_thread t items -> id_of y <> id_of x) as K.
  { intros y [Hy Ty]%filter_elem E. apply String.eqb_eq in Ty. apply Ne.
    pose proof (find_by_id items x N Hx) as F1. pose proof (find_by_id items y N Hy) as F2.
    rewrite E in F2. congruence. }
  induction (of_thread t items) as [|y l IH]; simpl; [done|].
  rewrite (proj2 (String.eqb_neq _ _)) by (apply K; left). simpl. f_equal. apply IH.
  intros z Hz. apply K. by right. }
destruct (map id_of (of_thread (thread_of x) items)) as [|i ids]; [by rewrite L|].
destruct (drop_key _ _); [by rewrite lookup_delete_ne, L|by rewrite lookup_insert_ne, L].
Qed.
End indexed.

(** ** Operations of the store *)

(** [user_id is None or row.user_id == user_id] *)
Definition visible (user_id : option string) (r : RunRow) : bool :=
  match user_id with None => true | Some _ => bool_decide (row_user_id r = user_id) end.

Definition find_row (s : MemoryRunStore) (run_id : string) : option RunRow :=
  List.find (fun r => (row_run_id r =? run_id)%string) (rows s).

(** [self._runs[run_id] = row]: a known run is written over in its place. *)
Definition put (r : RunRow) (s : MemoryRunStore) : MemoryRunStore :=
  {| rows := match find_row s (row_run_id r) with
             | Some _ => map_where (fun x => (row_run_id x =? row_run_id r)%string) (fun _ => r) (rows s)
             | None => rows s ++ [r]
             end;
     by_thread := index_run (row_run_id r) (row_thread_id r) (by_thread s) |}.

Definition get (run_id : string) (user_id : option string) (s : MemoryRunStore) : option RunRow :=
  match find_row s run_id with
  | Some r => if visible user_id r then Some r else None
  | None => None
  end.

(** Newest first, as a stable sort in reverse does. *)
Definition newest_first {A} (created : A -> Z) (l : list A) : list A :=
  stable_sort (fun a b => created b <=? created a) l.

(** [l[:limit]] *)
Definition first_of {A} (limit : Z) (l : list A) : list A :=
  take (Z.to_nat (if limit <? 0 then Z.of_nat (length l) + limit else limit)) l.

Definition list_by_thread (thread_id : string) (user_id : option string) (limit : Z) (s : MemoryRunStore)
  : list RunRow :=
  first_of limit (newest_first row_created_at
    (List.filter (visible user_id) (thread_items row_run_id (rows s) (by_thread s) thread_id))).

Definition on_row (run_id : string) (f : RunRow -> RunRow) (s : MemoryRunStore) : MemoryRunStore :=
  {| rows := map_where (fun r => (row_run_id r =? run_id)%string) f (rows s); by_thread := by_thread s |}.

Definition with_row (model_name : option string) (status : string) (error : option string) (usage : dict)
    (now : Z) (r : RunRow) : RunRow :=
  {| row_run_id := row_run_id r; row_thread_id := row_thread_id r; row_assistant_id := row_assistant_id r;
     row_user_id := row_user_id r; row_model_name := model_name; row_status := status;
     row_multitask_strategy := row_multitask_strategy r; row_metadata := row_metadata r;
     row_kwargs := row_kwargs r; row_error := error; row_created_at := row_created_at r;
     row_updated_at := now; row_usage := usage |}.

Definition known (run_id : string) (s : MemoryRunStore) : bool :=
  match find_row s run_id with Some _ => true | None => false end.

(** [False] when no row matched. *)
Definition update_status (run_id status : string) (error : option string) (now : Z) (s : MemoryRunStore)
  : bool * MemoryRunStore :=
  (known run_id s,
   on_row run_id (fun r => with_row (row_model_name r) status
                             (match error with Some _ => error | None => row_error r end)
                             (row_usage r) now r) s).

Definition update_model_name (run_id : string) (model_name : option string) (now : Z) (s : MemoryRunStore)
  : MemoryRunStore :=
  on_row run_id (fun r => with_row model_name (row_status r) (row_error r) (row_usage r) now r) s.

Definition delete (run_id : string) (s : MemoryRunStore) : MemoryRunStore :=
  match find_row s run_id with
  | Some r => {| rows := List.filter (fun x => negb (row_run_id x =? run_id)%string) (rows s);
                 by_thread := unindex_run run_id (row_thread_id r) (by_thread s) |}
  | None => s
  end.

(** [if value is not None: row[key] = value] *)
Definition merge_usage (values : dict) (usage : dict) : dict :=
  foldl (fun u kv => match kv.2 with JNull => u | v => set_key kv.1 v u end) usage values.

Definition update_run_completion (run_id status : string) (error : option string) (values : dict) (now : Z)
    (s : MemoryRunStore) : bool * MemoryRunStore :=
  (known run_id s,
   on_row run_id (fun r => with_row (row_model_name r) status
                             (match error with Some _ => error | None => row_error r end)
                             (merge_usage values (row_usage r)) now r) s).

Definition update_run_progress (run_id : string) (values : dict) (now : Z) (s : MemoryRunStore)
  : MemoryRunStore :=
  on_row run_id (fun r =>
    if (row_status r =? "running")%string
    then with_row (row_model_name r) (row_status r) (row_error r) (merge_usage values (row_usage r)) now r
    else r) s.

Definition oldest_first (l : list RunRow) : list RunRow :=
  stable_sort (fun a b => row_created_at a <=? row_created_at b) l.

Definition list_with (statuses : list string) (before : Z) (s : MemoryRunStore) : list RunRow :=
  oldest_first (List.filter (fun r => bool_decide (row_status r ∈ statuses) && (row_created_at r <=? before))
                  (rows s)).
Definition list_pending : Z -> MemoryRunStore -> list RunRow := list_with ["pending"].
Definition list_inflight : Z -> MemoryRunStore -> list RunRow := list_with ["pending"; "running"].

(** ** Token accounting *)

Definition counter (k : string) (d : dict) : Z := match Json.get k d with Some (JInt n) => n | _ => 0 end.

(** The model entries a run contributes to: those of its own breakdown, or its
    single model. *)
Definition contributions (r : RunRow) : list (string * Z) :=
  match Json.get "token_usage_by_model" (row_usage r) with
  | Some (JObj ((_ :: _) as usage)) =>
      map (fun kv => (kv.1, match kv.2 with JObj u => counter "total_tokens" u | _ => 0 end)) usage
  | _ => [(match row_model_name r with None | Some "" => "unknown" | Some m => m end,
           counter "total_tokens" (row_usage r))]
  end.

(** [by_model]: tokens and runs by model, in the order first seen. *)
Definition credit (acc : list (string * (Z * Z))) (c : string * Z) : list (string * (Z * Z)) :=
  match List.find (fun kv => (kv.1 =? c.1)%string) acc with
  | Some _ => map_where (fun kv => (kv.1 =? c.1)%string) (fun kv => (kv.1, (kv.2.1 + c.2, kv.2.2 + 1))) acc
  | None => acc ++ [(c.1, (c.2, 1))]
  end.

Record ThreadTokens := {
  total_tokens : Z; total_input_tokens : Z; total_output_tokens : Z; total_runs : Z;
  by_model : list (string * (Z * Z));
  by_lead_agent : Z; by_subagent : Z; by_middleware : Z
}.

Definition completed (include_active : bool) (thread_id : string) (s : MemoryRunStore) : list RunRow :=
  let statuses := if include_active then ["success"; "error"; "running"] else ["success"; "error"] in
  List.filter (fun r => bool_decide (row_status r ∈ statuses))
    (thread_items row_run_id (rows s) (by_thread s) thread_id).

Definition aggregate_tokens_by_thread (thread_id : string) (include_active : bool) (s : MemoryRunStore)
  : ThreadTokens :=
  let runs := completed include_active thread_id s in
  let total k := sumZ (fun r => counter k (row_usage r)) runs in
  {| total_tokens := total "total_tokens"; total_input_tokens := total "total_input_tokens";
     total_output_tokens := total "total_output_tokens"; total_runs := Z.of_nat (length runs);
     by_model := foldl credit [] (runs ≫= contributions);
     by_lead_agent := total "lead_agent_tokens"; by_subagent := total "subagent_tokens";
     by_middleware := total "middleware_tokens" |}.

(** ** The store's invariant *)

Definition store_ok (s : MemoryRunStore) : Prop := lockstep row_run_id row_thread_id (rows s) (by_thread s).

Lemma find_row_none s i : find_row s i = None -> i ∉ map row_run_id (rows s).
Proof.
  intros F Hi. apply list_elem_of_fmap in Hi as (r&->&Hr).
  pose proof (find_none_elem _ _ _ F Hr) as E. simpl in E. by rewrite String.eqb_refl in E.
Qed.

(** A run stays on its thread. *)
Definition same_thread (r : RunRow) (s : MemoryRunStore) : Prop :=
  forall x, find_row s (row_run_id r) = Some x -> row_thread_id x = row_thread_id r.

Lemma add_key_known (x : string) l : x ∈ l -> add_key l x = l.
Proof. intros H. unfold add_key. by rewrite decide_True. Qed.

Lemma store_ok_put r s : store_ok s -> same_thread r s -> store_ok (put r s).
Proof.
  intros K T. unfold put. destruct (find_row s (row_run_id r)) as [x|] eqn:E; unfold store_ok; simpl.
  - specialize (T x E). apply find_some_elem in E as [Hx Ex]. apply String.eqb_eq in Ex.
    assert (index_run (row_run_id r) (row_thread_id r) (by_thread s) = by_thread s) as ->.
    { unfold index_run. apply insert_id. rewrite <-T, <-Ex. destruct K as [N L]. rewrite L.
      assert (row_run_id x ∈ map row_run_id (List.filter (fun y => (row_thread_id y =? row_thread_id x)%string) (rows s))) as H.
      { apply list_elem_of_fmap_2, filter_elem. split; [done|apply String.eqb_refl]. }
      revert H. set (ids := map row_run_id (List.filter _ _)). intros H.
      destruct ids; [by apply not_elem_of_nil in H|]. simpl. by rewrite add_key_known. }
    destruct K as [N L].
    assert (map_where (fun y => (row_run_id y =? row_run_id r)%string) (fun _ => r) (rows s) =
            map_where (fun y => (row_run_id y =? row_run_id r)%string)
              (fun y => if (row_run_id y =? row_run_id r)%string && (row_thread_id y =? row_thread_id r)%string
                        then r else y) (rows s)) as ->.
    { unfold map_where. apply map_ext_in. intros y Hy%list_elem_of_In.
      destruct (String.eqb_spec (row_run_id y) (row_run_id r)) as [Ey|]; [|done]. simpl.
      assert (y = x) as ->; [|by rewrite T, String.eqb_refl].
      pose proof (find_by_id row_run_id _ _ N Hx) as F1. pose proof (find_by_id row_run_id _ _ N Hy) as F2.
      rewrite Ex in F1. rewrite Ey in F2. congruence. }
    apply lockstep_update; [by split|]. intros y.
    destruct (String.eqb_spec (row_run_id y) (row_run_id r)), (String.eqb_spec (row_thread_id y) (row_thread_id r));
      simpl; by rewrite ?e, ?e0.
  - apply lockstep_snoc; [done|by apply find_row_none].
Qed.

Lemma store_ok_on_row i f s :
  store_ok s -> (forall r, row_run_id (f r) = row_run_id r /\ row_thread_id (f r) = row_thread_id r) ->
  store_ok (on_row i f s).
Proof. intros K F. by apply lockstep_update. Qed.

Lemma store_ok_delete i s : store_ok s -> store_ok (delete i s).
Proof.
  intros K. unfold delete. destruct (find_row s i) as [r|] eqn:E; [|done].
  apply find_some_elem in E as [Hr Ei]. apply String.eqb_eq in Ei as <-.
  by apply (lockstep_remove row_run_id row_thread_id).
Qed.

(** What a model is credited with. *)
Definition tokens_of (m : string) (l : list (string * Z)) : Z :=
  sumZ snd (List.filter (fun c => (c.1 =? m)%string) l).
Definition runs_of (m : string) (l : list (string * Z)) : Z :=
  Z.of_nat (length (List.filter (fun c => (c.1 =? m)%string) l)).

Definition ledger_entry (m : string) (acc : list (string * (Z * Z))) : option (Z * Z) :=
  option_map snd (List.find (fun kv => (kv.1 =? m)%string) acc).

Lemma credit_entry acc c m :
  ledger_entry m (credit acc c) =
  if (c.1 =? m)%string
  then Some (let '(t, n) := default (0, 0) (ledger_entry m acc) in (t + c.2, n + 1))
  else ledger_entry m acc.
Proof.
  unfold ledger_entry, credit. destruct (List.find (fun kv => (kv.1 =? c.1)%string) acc) as [e|] eqn:E.
  - rewrite find_map_where by done. destruct (String.eqb_spec c.1 m) as [<-|Ne].
    + rewrite E. simpl. apply find_some_elem in E as [_ ->]. by destruct e as [? []].
    + destruct (List.find (fun kv => (kv.1 =? m)%string) acc) as [e'|] eqn:E'; [|done]. simpl.
      apply find_some_elem in E' as [_ Em]. apply String.eqb_eq in Em.
      rewrite (proj2 (String.eqb_neq _ _)) by congruence. done.
  - rewrite find_app. simpl. destruct (String.eqb_spec c.1 m) as [<-|Ne].
    + by rewrite E.
    + by destruct (List.find (fun kv => (kv.1 =? m)%string) acc).
Qed.

(** Every model's entry is the sum of what the runs contribute to it. *)
Lemma credits_spec l m :
  ledger_entry m (foldl credit [] l) =
  if bool_decide (m ∈ map fst l) then Some (tokens_of m l, runs_of m l) else None.
Proof.
  induction l as [|c l IH] using rev_ind; [done|]. rewrite foldl_snoc, credit_entry, IH.
  unfold tokens_of, runs_of. rewrite map_app, !List.filter_app, sumZ_app, length_app. simpl.
  destruct (String.eqb_spec c.1 m) as [<-|Ne]; simpl.
  - rewrite (bool_decide_eq_true_2 (c.1 ∈ map fst l ++ [c.1])) by set_solver.
    destruct (bool_decide (c.1 ∈ map fst l)) eqn:B; simpl; [repeat f_equal; lia|].
    apply bool_decide_eq_false in B.
    assert (List.filter (fun d : string * Z => (d.1 =? c.1)%string) l = []) as ->.
    { clear IH. induction l as [|d l IH]; simpl; [done|]. simpl in B. apply not_elem_of_cons in B as [B1 B2].
      rewrite (proj2 (String.eqb_neq _ _)) by congruence. by apply IH. }
    simpl. repeat f_equal; lia.
  - rewrite (bool_decide_ext (m ∈ map fst l ++ [c.1]) (m ∈ map fst l)) by set_solver.
    destruct (bool_decide _); [repeat f_equal; lia|done].
Qed.
End RunStore.
