(* ===== verification/RunEvents.v ===== *)
(** * Run event stores

    [deerflow/runtime/events/store]: the event log of a thread, kept in memory
    with projections of its messages and runs ([memory.py]), in a table
    ([db.py], with the row of [persistence/models/run_event.py]), or in one
    file of JSON lines per run ([jsonl.py]).  The three implement the interface
    of [base.py].  Writers of a thread are serialised (by the event loop, by a
    lock of the database, by a lock of the thread), so each method is one
    function of the store. *)
From S2P Require Import Prelude Json Errors Text Slices JsonText.
Import Json Errors Text JsonText.

Module RunEvents.

(** A record of an event; [owner] is its [user_id] key, which only records of the
    table have. *)
Record RunEvent := {
  thread_id : string;
  run_id : string;
  event_type : string;
  category : string;
  content : json;
  metadata : dict;
  seq : Z;
  created_at : string;
  owner : option (option string)
}.

(** The record of the same event with another [user_id] key. *)
Definition with_owner (u : option (option string)) (e : RunEvent) : RunEvent :=
  {| thread_id := thread_id e; run_id := run_id e; event_type := event_type e; category := category e;
     content := content e; metadata := metadata e; seq := seq e; created_at := created_at e; owner := u |}.

(** The arguments of [put]. *)
Record EventArgs := {
  a_thread_id : string;
  a_run_id : string;
  a_event_type : string;
  a_category : string;
  a_content : json;
  a_metadata : option dict;
  a_created_at : option string
}.

(** [created_at or datetime.now(UTC).isoformat()] *)
Definition time_or (created : option string) (now : string) : string :=
  match created with Some t => if (t =? "")%string then now else t | None => now end.

Definition record_of (a : EventArgs) (n : Z) (now : string) : RunEvent :=
  {| thread_id := a_thread_id a; run_id := a_run_id a; event_type := a_event_type a;
     category := a_category a; content := a_content a; metadata := default [] (a_metadata a);
     seq := n; created_at := time_or (a_created_at a) now; owner := None |}.

Definition is_message (e : RunEvent) : bool := (category e =? "message")%string.
Definition of_run (r : string) (e : RunEvent) : bool := (run_id e =? r)%string.

(** [(e.get("metadata") or {}).get("task_id") == task_id] *)
Definition of_task (t : string) (e : RunEvent) : bool :=
  match get "task_id" (metadata e) with Some (JStr s) => (s =? t)%string | _ => false end.

Definition of_type (types : list string) (e : RunEvent) : bool := bool_decide (event_type e ∈ types).

(** [l[start:stop]] *)
Definition slice_index (n i : Z) : Z := if i <? 0 then Z.max 0 (n + i) else Z.min n i.
Definition pyslice {A} (l : list A) (start stop : option Z) : list A :=
  let n := Z.of_nat (length l) in
  let lo := slice_index n (default 0 start) in
  let hi := slice_index n (default n stop) in
  take (Z.to_nat (hi - lo)) (drop (Z.to_nat lo) l).

(** ** The interface *)

(** The filters of [list_events]. *)
Record Query := {
  q_types : option (list string);
  q_task : option string;
  q_limit : Z;
  q_after : option Z
}.

Class RunEventStore (St : Type) := {
  put : string -> EventArgs -> St -> result RunEvent * St;
  put_batch : string -> list EventArgs -> St -> result (list RunEvent) * St;
  list_messages : string -> Z -> option Z -> option Z -> St -> result (list RunEvent);
  list_events : string -> string -> Query -> St -> result (list RunEvent);
  list_messages_by_run : string -> string -> Z -> option Z -> option Z -> St -> result (list RunEvent);
  count_messages : string -> St -> result Z;
  delete_by_thread : string -> St -> result Z * St;
  delete_by_run : string -> string -> St -> result Z * St
}.

(** ** memory.py *)

(** The loop of [bisect_left] and [bisect_right] with a key: [go_right x]
    tells whether the position is beyond [x]. *)
Fixpoint bisect (fuel : nat) (go_right : RunEvent -> bool) (l : list RunEvent) (lo hi : nat) : nat :=
  match fuel with
  | O => lo
  | S fuel =>
      if (lo <? hi)%nat then
        let mid := ((lo + hi) / 2)%nat in
        match l !! mid with
        | Some e => if go_right e then bisect fuel go_right l (S mid) hi
                    else bisect fuel go_right l lo mid
        | None => lo
        end
      else lo
  end.

Definition bisect_left (l : list RunEvent) (x : Z) : Z :=
  Z.of_nat (bisect (S (length l)) (fun e => seq e <? x) l 0 (length l)).
Definition bisect_right (l : list RunEvent) (x : Z) : Z :=
  Z.of_nat (bisect (S (length l)) (fun e => seq e <=? x) l 0 (length l)).

Record MemoryRunEventStore := {
  _events : gmap string (list RunEvent);
  _messages : gmap string (list RunEvent);
  _events_by_run : gmap string (gmap string (list RunEvent));
  _messages_by_run : gmap string (gmap string (list RunEvent));
  _seq_counters : gmap string Z
}.

Definition new_memory_store : MemoryRunEventStore :=
  {| _events := ∅; _messages := ∅; _events_by_run := ∅; _messages_by_run := ∅; _seq_counters := ∅ |}.

(** [m.setdefault(k, []).append(e)], and the same one level down. *)
Definition append_at (k : string) (e : RunEvent) (m : gmap string (list RunEvent)) :=
  <[k := default [] (m !! k) ++ [e]]> m.
Definition append_at2 (k r : string) (e : RunEvent) (m : gmap string (gmap string (list RunEvent))) :=
  <[k := append_at r e (default ∅ (m !! k))]> m.

Definition _put_one (now : string) (a : EventArgs) (s : MemoryRunEventStore)
    : RunEvent * MemoryRunEventStore :=
  let t := a_thread_id a in
  let n := default 0 (_seq_counters s !! t) + 1 in
  let e := record_of a n now in
  (e, {| _events := append_at t e (_events s);
         _messages := if is_message e then append_at t e (_messages s) else _messages s;
         _events_by_run := append_at2 t (a_run_id a) e (_events_by_run s);
         _messages_by_run := if is_message e then append_at2 t (a_run_id a) e (_messages_by_run s)
                             else _messages_by_run s;
         _seq_counters := <[t := n]> (_seq_counters s) |}).

Fixpoint mem_put_batch (now : string) (l : list EventArgs) (s : MemoryRunEventStore)
    : list RunEvent * MemoryRunEventStore :=
  match l with
  | [] => ([], s)
  | a :: l => let '(e, s) := _put_one now a s in
              let '(es, s) := mem_put_batch now l s in (e :: es, s)
  end.

Definition of_thread (m : gmap string (list RunEvent)) (t : string) : list RunEvent :=
  default [] (m !! t).
Definition of_thread_run (m : gmap string (gmap string (list RunEvent))) (t r : string) : list RunEvent :=
  default [] (default ∅ (m !! t) !! r).

Definition mem_list_messages (t : string) (limit : Z) (before_seq after_seq : option Z)
    (s : MemoryRunEventStore) : list RunEvent :=
  let messages := of_thread (_messages s) t in
  match before_seq, after_seq with
  | Some b, _ => let hi := bisect_left messages b in
                 pyslice messages (Some (Z.max 0 (hi - limit))) (Some hi)
  | None, Some a => let lo := bisect_right messages a in
                    pyslice messages (Some lo) (Some (lo + limit))
  | None, None => pyslice messages (Some (- limit)) None
  end.

(** The filters both the memory and the file store apply, in their order. *)
Definition filter_events (q : Query) (l : list RunEvent) : list RunEvent :=
  let l := match q_types q with Some ts => List.filter (of_type ts) l | None => l end in
  let l := match q_task q with Some k => List.filter (of_task k) l | None => l end in
  match q_after q with Some a => List.filter (fun e => a <? seq e) l | None => l end.

Definition mem_list_events (t r : string) (q : Query) (s : MemoryRunEventStore) : list RunEvent :=
  pyslice (filter_events q (of_thread_run (_events_by_run s) t r)) None (Some (q_limit q)).

Definition mem_list_messages_by_run (t r : string) (limit : Z) (before_seq after_seq : option Z)
    (s : MemoryRunEventStore) : list RunEvent :=
  let messages := of_thread_run (_messages_by_run s) t r in
  let lo := match after_seq with None => 0 | Some a => bisect_right messages a end in
  let hi := match before_seq with None => Z.of_nat (length messages) | Some b => bisect_left messages b end in
  let window := pyslice messages (Some lo) (Some hi) in
  match after_seq with
  | Some _ => pyslice window None (Some limit)
  | None => pyslice window (Some (- limit)) None
  end.

Definition mem_count_messages (t : string) (s : MemoryRunEventStore) : Z :=
  Z.of_nat (length (of_thread (_messages s) t)).

Definition mem_delete_by_thread (t : string) (s : MemoryRunEventStore) : Z * MemoryRunEventStore :=
  (Z.of_nat (length (of_thread (_events s) t)),
   {| _events := delete t (_events s); _messages := delete t (_messages s);
      _events_by_run := delete t (_events_by_run s); _messages_by_run := delete t (_messages_by_run s);
      _seq_counters := delete t (_seq_counters s) |}).

(** [m.get(k, {}).pop(r, None)] *)
Definition pop_at2 (k r : string) (m : gmap string (gmap string (list RunEvent))) :=
  match m !! k with Some inner => <[k := delete r inner]> m | None => m end.

Definition mem_delete_by_run (t r : string) (s : MemoryRunEventStore) : Z * MemoryRunEventStore :=
  let all_events := of_thread (_events s) t in
  match all_events with
  | [] => (0, s)
  | _ =>
      let remaining := List.filter (fun e => negb (of_run r e)) all_events in
      (Z.of_nat (length all_events) - Z.of_nat (length remaining),
       {| _events := <[t := remaining]> (_events s);
          _messages := <[t := List.filter is_message remaining]> (_messages s);
          _events_by_run := pop_at2 t r (_events_by_run s);
          _messages_by_run := pop_at2 t r (_messages_by_run s);
          _seq_counters := _seq_counters s |})
  end.

Definition ok_fst {A B} (p : A * B) : result A * B := (Ok p.1, p.2).

#[export] Instance memory_store : RunEventStore MemoryRunEventStore := {
  put now a s := ok_fst (_put_one now a s);
  put_batch now l s := ok_fst (mem_put_batch now l s);
  list_messages t limit b a s := Ok (mem_list_messages t limit b a s);
  list_events t r q s := Ok (mem_list_events t r q s);
  list_messages_by_run t r limit b a s := Ok (mem_list_messages_by_run t r limit b a s);
  count_messages t s := Ok (mem_count_messages t s);
  delete_by_thread t s := ok_fst (mem_delete_by_thread t s);
  delete_by_run t r s := ok_fst (mem_delete_by_run t r s)
}.

(** ** jsonl.py *)

Record JsonlRunEventStore := {
  files : gmap (string * string) string;   (* threads/<thread_id>/runs/<run_id>.jsonl *)
  j_counters : gmap string Z
}.

(** [_SAFE_ID_PATTERN]: [$] also matches before a final newline. *)
Definition safe_char (c : ascii) : bool :=
  let n := N_of_ascii c in
  ((48 <=? n) && (n <=? 57) || (65 <=? n) && (n <=? 90) || (97 <=? n) && (n <=? 122) ||
   (n =? 95) || (n =? 45))%N.
Fixpoint safe_tail (s : string) : bool :=
  match s with
  | EmptyString => true
  | String c EmptyString => safe_char c || (N_of_ascii c =? 10)%N
  | String c s => safe_char c && safe_tail s
  end.
Definition safe_id (s : string) : bool :=
  match s with EmptyString => false | String c s => safe_char c && safe_tail s end.

Definition _validate_id (s : string) : result unit := raise_if (negb (safe_id s)) (Exn ValueError "Invalid id").

(** The dictionary of an event, in the order its keys are written. *)
Definition event_json (e : RunEvent) : json :=
  JObj [("thread_id", JStr (thread_id e)); ("run_id", JStr (run_id e));
        ("event_type", JStr (event_type e)); ("category", JStr (category e));
        ("content", content e); ("metadata", JObj (metadata e)); ("seq", JInt (seq e));
        ("created_at", JStr (created_at e))].

(** What a parsed line holds; the files hold records only. *)
Definition event_of (j : json) : option RunEvent :=
  match j with
  | JObj d =>
      match get "thread_id" d, get "run_id" d, get "event_type" d, get "category" d,
            get "content" d, get "metadata" d, get "seq" d, get "created_at" d with
      | Some (JStr t), Some (JStr r), Some (JStr y), Some (JStr c), Some v, Some (JObj m),
        Some (JInt n), Some (JStr w) =>
          Some {| thread_id := t; run_id := r; event_type := y; category := c; content := v;
                  metadata := m; seq := n; created_at := w; owner := None |}
      | _, _, _, _, _, _, _, _ => None
      end
  | _ => None
  end.

Definition file_events (text : string) : list RunEvent := omap event_of (json_lines text).

Definition seq_le (a b : RunEvent) : bool := seq a <=? seq b.

Definition name_le (a b : string * string) : Prop := String.le a.1 b.1.
#[export] Instance name_le_dec : RelDecision name_le := fun a b => String.le_dec a.1 b.1.

(** The run files of a thread, in the order of their names. *)
Definition run_files (t : string) (s : JsonlRunEventStore) : list (string * string) :=
  merge_sort name_le
    (omap (fun kv : string * string * string => if (kv.1.1 =? t)%string then Some (kv.1.2, kv.2) else None) (map_to_list (files s))).

Definition _compute_max_seq (t : string) (s : JsonlRunEventStore) : Z :=
  foldl (fun m e => Z.max m (seq e)) 0 (concat (map (fun f => file_events f.2) (run_files t s))).

Definition _read_thread_events (t : string) (s : JsonlRunEventStore) : list RunEvent :=
  stable_sort seq_le (concat (map (fun f => file_events f.2) (run_files t s))).

Definition _read_run_events (t r : string) (s : JsonlRunEventStore) : list RunEvent :=
  stable_sort seq_le (file_events (default "" (files s !! (t, r)))).

Definition with_counter (t : string) (n : Z) (s : JsonlRunEventStore) : JsonlRunEventStore :=
  {| files := files s; j_counters := <[t := n]> (j_counters s) |}.

(** [_ensure_seq_loaded]: reading the directory validates the thread. *)
Definition _ensure_seq_loaded (t : string) (s : JsonlRunEventStore) : result unit * JsonlRunEventStore :=
  match j_counters s !! t with
  | Some _ => (Ok tt, s)
  | None => match _validate_id t with
            | Ok _ => (Ok tt, with_counter t (_compute_max_seq t s) s)
            | Raise e => (Raise e, s)
            end
  end.

Definition _write_record (e : RunEvent) (s : JsonlRunEventStore) : JsonlRunEventStore :=
  let f := (thread_id e, run_id e) in
  {| files := <[f := write_line (default "" (files s !! f)) (event_json e)]> (files s);
     j_counters := j_counters s |}.

Definition jsonl_put (now : string) (a : EventArgs) (s : JsonlRunEventStore)
    : result RunEvent * JsonlRunEventStore :=
  let t := a_thread_id a in
  match _ensure_seq_loaded t s with
  | (Raise x, s) => (Raise x, s)
  | (Ok _, s) =>
      let n := default 0 (j_counters s !! t) + 1 in
      let s := with_counter t n s in
      let e := record_of a n now in
      match (ensure _validate_id (a_run_id a) ;; _validate_id t) with
      | Raise x => (Raise x, s)
      | Ok _ => (Ok e, _write_record e s)
      end
  end.

Fixpoint jsonl_put_batch (now : string) (l : list EventArgs) (s : JsonlRunEventStore)
    : result (list RunEvent) * JsonlRunEventStore :=
  match l with
  | [] => (Ok [], s)
  | a :: l =>
      match jsonl_put now a s with
      | (Raise x, s) => (Raise x, s)
      | (Ok e, s) => let '(r, s) := jsonl_put_batch now l s in
                     (rbind r (fun es => Ok (e :: es)), s)
      end
  end.

Definition jsonl_list_messages (t : string) (limit : Z) (before_seq after_seq : option Z)
    (s : JsonlRunEventStore) : result (list RunEvent) :=
  ensure _validate_id t ;;
  let messages := List.filter is_message (_read_thread_events t s) in
  match before_seq, after_seq with
  | Some b, _ => Ok (pyslice (List.filter (fun e => seq e <? b) messages) (Some (- limit)) None)
  | None, Some a => Ok (pyslice (List.filter (fun e => a <? seq e) messages) None (Some limit))
  | None, None => Ok (pyslice messages (Some (- limit)) None)
  end.

Definition jsonl_list_events (t r : string) (q : Query) (s : JsonlRunEventStore) : result (list RunEvent) :=
  ensure (ensure _validate_id r ;; _validate_id t) ;;
  Ok (pyslice (filter_events q (_read_run_events t r s)) None (Some (q_limit q))).

Definition jsonl_list_messages_by_run (t r : string) (limit : Z) (before_seq after_seq : option Z)
    (s : JsonlRunEventStore) : result (list RunEvent) :=
  ensure (ensure _validate_id r ;; _validate_id t) ;;
  let filtered := List.filter is_message (_read_run_events t r s) in
  let filtered := match before_seq with Some b => List.filter (fun e => seq e <? b) filtered | None => filtered end in
  match after_seq with
  | Some a => Ok (pyslice (List.filter (fun e => a <? seq e) filtered) None (Some limit))
  | None => Ok (if limit <? Z.of_nat (length filtered)
                then pyslice filtered (Some (- limit)) None else filtered)
  end.

Definition jsonl_count_messages (t : string) (s : JsonlRunEventStore) : result Z :=
  ensure _validate_id t ;;
  Ok (Z.of_nat (length (List.filter is_message (_read_thread_events t s)))).

Definition jsonl_delete_by_thread (t : string) (s : JsonlRunEventStore) : result Z * JsonlRunEventStore :=
  match _validate_id t with
  | Raise x => (Raise x, s)
  | Ok _ =>
      (Ok (Z.of_nat (length (_read_thread_events t s))),
       {| files := filter (fun kv => kv.1.1 <> t) (files s); j_counters := delete t (j_counters s) |})
  end.

Definition jsonl_delete_by_run (t r : string) (s : JsonlRunEventStore) : result Z * JsonlRunEventStore :=
  match (ensure _validate_id r ;; _validate_id t) with
  | Raise x => (Raise x, s)
  | Ok _ => (Ok (Z.of_nat (length (_read_run_events t r s))),
             {| files := delete (t, r) (files s); j_counters := j_counters s |})
  end.

#[export] Instance jsonl_store : RunEventStore JsonlRunEventStore := {
  put := jsonl_put; put_batch := jsonl_put_batch; list_messages := jsonl_list_messages;
  list_events := jsonl_list_events; list_messages_by_run := jsonl_list_messages_by_run;
  count_messages := jsonl_count_messages; delete_by_thread := jsonl_delete_by_thread;
  delete_by_run := jsonl_delete_by_run
}.

(** ** db.py *)

Record RunEventRow := {
  row_thread_id : string;
  row_run_id : string;
  row_user_id : option string;
  row_event_type : string;
  row_category : string;
  row_content : string;
  event_metadata : dict;
  row_seq : Z;
  row_created_at : string
}.

(** [encoded[:n].decode("utf-8", errors="ignore")]: the code points that fit
    in [n] bytes. *)
Fixpoint fitting (n : nat) (l : list string) : string :=
  match l with
  | c :: l => if (String.length c <=? n)%nat then c +:+ fitting (n - String.length c) l else ""
  | [] => ""
  end.

Definition text_form (content : json) : string :=
  match content with JStr s => s | _ => dumps_text content end.

Definition _truncate_trace (max_trace_content : Z) (category : string) (content : json)
    (metadata : option dict) : json * dict :=
  let encoded := text_form content in
  if (category =? "trace")%string && (max_trace_content <? Z.of_nat (String.length encoded)) then
    (JStr (fitting (Z.to_nat max_trace_content) (chars encoded)),
     set_key "original_byte_length" (JInt (Z.of_nat (String.length encoded)))
       (set_key "content_truncated" (JBool true) (default [] metadata)))
  else (content, default [] metadata).

Definition _content_to_db (content : json) (metadata : dict) : string * dict :=
  match content with
  | JStr s => (s, metadata)
  | _ => let metadata := set_key "content_is_json" (JBool true) metadata in
         (dumps_text content,
          match content with JObj _ => set_key "content_is_dict" (JBool true) metadata | _ => metadata end)
  end.

Definition flag (k : string) (d : dict) : bool :=
  match get k d with Some v => truthy v | None => false end.

(** Every column is a key of the record but [id]. *)
Definition _row_to_dict (r : RunEventRow) : RunEvent :=
  {| thread_id := row_thread_id r; run_id := row_run_id r; event_type := row_event_type r;
     category := row_category r;
     content := if flag "content_is_json" (event_metadata r) || flag "content_is_dict" (event_metadata r)
                then default (JStr (row_content r)) (loads (row_content r))
                else JStr (row_content r);
     metadata := event_metadata r; seq := row_seq r; created_at := row_created_at r;
     owner := Some (row_user_id r) |}.

Definition row_le (a b : RunEventRow) : bool := row_seq a <=? row_seq b.

(** [SELECT ... ORDER BY seq LIMIT n], ascending or descending; a statement
    reads the committed rows. *)
Definition select_asc (where_ : RunEventRow -> bool) (limit : Z) (rows : list RunEventRow) :=
  take (Z.to_nat limit) (stable_sort row_le (List.filter where_ rows)).
Definition select_desc (where_ : RunEventRow -> bool) (limit : Z) (rows : list RunEventRow) :=
  take (Z.to_nat limit) (rev (stable_sort row_le (List.filter where_ rows))).

Definition in_thread (t : string) (r : RunEventRow) : bool := (row_thread_id r =? t)%string.
Definition in_run (x : string) (r : RunEventRow) : bool := (row_run_id r =? x)%string.
Definition a_message (r : RunEventRow) : bool := (row_category r =? "message")%string.
Definition beyond (after : option Z) (r : RunEventRow) : bool :=
  match after with Some a => a <? row_seq r | None => true end.
Definition below (before : option Z) (r : RunEventRow) : bool :=
  match before with Some b => row_seq r <? b | None => true end.

(** [user_context.resolve_user_id]: the user a query is for.  The default is the
    user of the context, and an error without one; [given None] asks for all. *)
Inductive user_arg := AUTO | given (u : option string).

Definition resolve_user_id (current : option string) (value : user_arg) (method_name : string) : result (option string) :=
  match value with
  | AUTO =>
      match current with
      | Some u => Ok (Some u)
      | None => Raise (Exn RuntimeError (method_name +:+ " called with user_id=AUTO but no user context is set; pass an explicit user_id, set the contextvar via auth middleware, or opt out with user_id=None for migration/CLI paths."))
      end
  | given u => Ok u
  end.

Definition owned (uid : option string) (r : RunEventRow) : bool :=
  match uid with Some u => bool_decide (row_user_id r = Some u) | None => true end.

Section DbRunEventStore.

(** What the database and its driver do: the text a JSON member is compared as
    ([as_string()]), and the instant read back for a stored ISO text ([None]
    for a text [fromisoformat] refuses).  [user] is the user of the context, if
    any, and stamps the rows; [uid] is the [user_id] argument of the queries. *)
Context (as_string : json -> option string) (stored_time : string -> option string).
Context (max_trace_content : Z) (user : option string) (uid : user_arg).

Definition for_user {A} (method_name : string) (k : option string -> A) : result A :=
  v <-? resolve_user_id user uid ("DbRunEventStore." +:+ method_name) ;; Ok (k v).

Definition of_task_sql (k : option string) (r : RunEventRow) : bool :=
  match k with
  | Some k => match get "task_id" (event_metadata r) with
              | Some v => bool_decide (as_string v = Some k)
              | None => false
              end
  | None => true
  end.

Definition of_types_sql (types : option (list string)) (r : RunEventRow) : bool :=
  match types with
  | Some (x :: l) => bool_decide (row_event_type r ∈ x :: l)
  | _ => true
  end.

Definition _max_seq_for_thread (t : string) (rows : list RunEventRow) : option Z :=
  foldl (fun m r => Some (match m with Some m => Z.max m (row_seq r) | None => row_seq r end)) None
        (List.filter (in_thread t) rows).

(** The row of an event, with the sequence number that is its turn. *)
Definition new_row (now : string) (n : Z) (a : EventArgs) : option RunEventRow :=
  let '(content, metadata) := _truncate_trace max_trace_content (a_category a) (a_content a) (a_metadata a) in
  let '(db_content, metadata) := _content_to_db content metadata in
  option_map (fun w =>
    {| row_thread_id := a_thread_id a; row_run_id := a_run_id a; row_user_id := user;
       row_event_type := a_event_type a; row_category := a_category a; row_content := db_content;
       event_metadata := metadata; row_seq := n; row_created_at := w |})
    (stored_time (time_or (a_created_at a) now)).

Definition bad_time : exn := Exn ValueError "Invalid isoformat string".

Definition db_put (now : string) (a : EventArgs) (rows : list RunEventRow)
    : result RunEvent * list RunEventRow :=
  let n := default 0 (_max_seq_for_thread (a_thread_id a) rows) + 1 in
  match new_row now n a with
  | Some r => (Ok (_row_to_dict r), rows ++ [r])
  | None => (Raise bad_time, rows)
  end.

Fixpoint new_rows (now : string) (n : Z) (l : list EventArgs) : option (list RunEventRow) :=
  match l with
  | [] => Some []
  | a :: l => match new_row now (n + 1) a, new_rows now (n + 1) l with
              | Some r, Some rs => Some (r :: rs)
              | _, _ => None
              end
  end.

Definition db_put_batch (now : string) (l : list EventArgs) (rows : list RunEventRow)
    : result (list RunEvent) * list RunEventRow :=
  match l with
  | [] => (Ok [], rows)
  | a :: _ =>
      if forallb (fun b => (a_thread_id b =? a_thread_id a)%string) l then
        match new_rows now (default 0 (_max_seq_for_thread (a_thread_id a) rows)) l with
        | Some rs => (Ok (map _row_to_dict rs), rows ++ rs)
        | None => (Raise bad_time, rows)
        end
      else (Raise (Exn ValueError "put_batch requires all events to belong to the same thread"), rows)
  end.

(** Forward from a cursor, or the last ones in ascending order. *)
Definition page_rows (where_ : RunEventRow -> bool) (limit : Z) (after_seq : option Z)
    (rows : list RunEventRow) : list RunEvent :=
  map _row_to_dict (match after_seq with
                    | Some _ => select_asc where_ limit rows
                    | None => rev (select_desc where_ limit rows)
                    end).

Definition db_list_messages (t : string) (limit : Z) (before_seq after_seq : option Z)
    (rows : list RunEventRow) : result (list RunEvent) :=
  for_user "list_messages" (fun u =>
    page_rows (fun r => in_thread t r && a_message r && owned u r && below before_seq r && beyond after_seq r)
              limit after_seq rows).

Definition db_list_events (t x : string) (q : Query) (rows : list RunEventRow) : result (list RunEvent) :=
  for_user "list_events" (fun u =>
    map _row_to_dict
      (select_asc (fun r => in_thread t r && in_run x r && owned u r && of_types_sql (q_types q) r &&
                            of_task_sql (q_task q) r && beyond (q_after q) r) (q_limit q) rows)).

Definition db_list_messages_by_run (t x : string) (limit : Z) (before_seq after_seq : option Z)
    (rows : list RunEventRow) : result (list RunEvent) :=
  for_user "list_messages_by_run" (fun u =>
    page_rows (fun r => in_thread t r && in_run x r && a_message r && owned u r && below before_seq r &&
                        beyond after_seq r) limit after_seq rows).

Definition db_count_messages (t : string) (rows : list RunEventRow) : result Z :=
  for_user "count_messages" (fun u =>
    Z.of_nat (length (List.filter (fun r => in_thread t r && a_message r && owned u r) rows))).

Definition delete_where (where_ : RunEventRow -> bool) (rows : list RunEventRow)
    : Z * list RunEventRow :=
  let count := Z.of_nat (length (List.filter where_ rows)) in
  (count, if 0 <? count then List.filter (fun r => negb (where_ r)) rows else rows).

Definition deletion (method_name : string) (where_ : option string -> RunEventRow -> bool) (rows : list RunEventRow)
    : result Z * list RunEventRow :=
  match for_user method_name (fun u => delete_where (where_ u) rows) with
  | Ok (n, rows) => (Ok n, rows)
  | Raise e => (Raise e, rows)
  end.

Definition db_delete_by_thread (t : string) := deletion "delete_by_thread" (fun u r => in_thread t r && owned u r).
Definition db_delete_by_run (t x : string) :=
  deletion "delete_by_run" (fun u r => in_thread t r && in_run x r && owned u r).

Definition db_store : RunEventStore (list RunEventRow) := {|
  put := db_put; put_batch := db_put_batch; list_messages := db_list_messages; list_events := db_list_events;
  list_messages_by_run := db_list_messages_by_run; count_messages := db_count_messages;
  delete_by_thread := db_delete_by_thread; delete_by_run := db_delete_by_run
|}.

End DbRunEventStore.

End RunEvents.
