(* ===== verification/EventLog.v ===== *)
(** * The contract of the run event stores

    What [base.py] promises of a [RunEventStore], as a log of events per
    thread, and that the three stores keep it.  [spec_step] says what each
    method answers; a store that [simulates] it answers so for every sequence
    of calls, and stores that do so in the strict form (no run deleted) give
    the same answers. *)
From S2P Require Import Prelude Json Errors Text Slices JsonText RunEvents.
Import Json Errors Text JsonText RunEvents.

Module EventLog.

(** ** The abstract log *)

Definition logs : Type := string -> list RunEvent.
Definition no_logs : logs := fun _ => [].

(** The sequence number given last. *)
Definition top (l : list RunEvent) : Z := match last l with Some e => seq e | None => 0 end.

Definition seq_lt (x y : RunEvent) : Prop := seq x < seq y.

(** The log of thread [t]: numbered upwards, within [1..bound]. *)
Definition log_ok (bound : Z) (t : string) (l : list RunEvent) : Prop :=
  StronglySorted seq_lt l /\ Forall (fun e => thread_id e = t /\ 0 < seq e <= bound) l.

Definition before_ (b : option Z) (l : list RunEvent) : list RunEvent :=
  match b with Some b => List.filter (fun e => seq e <? b) l | None => l end.
Definition after_ (a : option Z) (l : list RunEvent) : list RunEvent :=
  match a with Some a => List.filter (fun e => a <? seq e) l | None => l end.

Definition last_n {A} (n : Z) (l : list A) : list A := drop (length l - Z.to_nat n) l.

(** The first [limit] beyond a cursor, or else the last [limit]. *)
Definition page (limit : Z) (b a : option Z) (l : list RunEvent) : list RunEvent :=
  let l := after_ a (before_ b l) in
  match a with Some _ => take (Z.to_nat limit) l | None => last_n limit l end.

(** ** Calls *)

Inductive op :=
| Put (now : string) (a : EventArgs)
| PutBatch (now : string) (l : list EventArgs)
| ListMessages (t : string) (limit : Z) (b a : option Z)
| ListEvents (t r : string) (q : Query)
| ListMessagesByRun (t r : string) (limit : Z) (b a : option Z)
| CountMessages (t : string)
| DeleteByThread (t : string)
| DeleteByRun (t r : string).

Inductive output := Stored (l : list RunEvent) | Listed (l : list RunEvent) | Number (n : Z) | Failed (e : exn).

Definition answer {A} (f : A -> output) (r : result A) : output :=
  match r with Ok x => f x | Raise e => Failed e end.

Section exec.
Context {St : Type} `{RunEventStore St}.

Definition exec (o : op) (s : St) : output * St :=
match o with
| Put now a => let '(r, s) := put now a s in (answer (fun e => Stored [e]) r, s)
| PutBatch now l => let '(r, s) := put_batch now l s in (answer Stored r, s)
| ListMessages t n b a => (answer Listed (list_messages t n b a s), s)
| ListEvents t r q => (answer Listed (list_events t r q s), s)
| ListMessagesByRun t r n b a => (answer Listed (list_messages_by_run t r n b a s), s)
| CountMessages t => (answer Number (count_messages t s), s)
| DeleteByThread t => let '(r, s) := delete_by_thread t s in (answer Number r, s)
| DeleteByRun t r => let '(x, s) := delete_by_run t r s in (answer Number x, s)
end.

Fixpoint exec_all (l : list op) (s : St) : list output * St :=
match l with
| [] => ([], s)
| o :: l => let '(x, s) := exec o s in let '(xs, s) := exec_all l s in (x :: xs, s)
end.
End exec.

(** ** The specification *)

Definition upd (t : string) (l : list RunEvent) (L L' : logs) : Prop :=
  forall t', L' t' = if decide (t' = t) then l else L t'.

Definition same_logs (L L' : logs) : Prop := forall t, L' t = L t.

(** A stored event has a number above all of the log -- in the strict form the
    very next --, and its record the [user_id] key [u]. *)
Definition put_spec (strict : bool) (u : option (option string)) (now : string) (a : EventArgs) (e : RunEvent) (L L' : logs) : Prop :=
  let l := L (a_thread_id a) in
  exists n, top l < n /\ (strict = true -> n = top l + 1) /\ e = with_owner u (record_of a n now) /\
    upd (a_thread_id a) (l ++ [e]) L L'.

Fixpoint puts_spec (strict : bool) (u : option (option string)) (now : string) (l : list EventArgs) (es : list RunEvent)
    (L L' : logs) : Prop :=
  match l, es with
  | [], [] => same_logs L L'
  | a :: l, e :: es => exists L1, put_spec strict u now a e L L1 /\ puts_spec strict u now l es L1 L'
  | _, _ => False
  end.

Definition wanted (q : Query) (e : RunEvent) : bool :=
  match q_types q with Some ts => of_type ts e | None => true end &&
  match q_task q with Some k => of_task k e | None => true end &&
  match q_after q with Some a => a <? seq e | None => true end.

Definition count {A} (l : list A) : Z := Z.of_nat (length l).

Definition spec_step (strict : bool) (u : option (option string)) (L : logs) (o : op) (out : output) (L' : logs) : Prop :=
  match o with
  | Put now a => exists e, out = Stored [e] /\ put_spec strict u now a e L L'
  | PutBatch now l => exists es, out = Stored es /\ puts_spec strict u now l es L L'
  | ListMessages t n b a =>
      out = Listed (page n b a (List.filter is_message (L t))) /\ same_logs L L'
  | ListEvents t r q =>
      out = Listed (take (Z.to_nat (q_limit q)) (List.filter (wanted q) (List.filter (of_run r) (L t)))) /\
      same_logs L L'
  | ListMessagesByRun t r n b a =>
      out = Listed (page n b a (List.filter is_message (List.filter (of_run r) (L t)))) /\ same_logs L L'
  | CountMessages t => out = Number (count (List.filter is_message (L t))) /\ same_logs L L'
  | DeleteByThread t => out = Number (count (L t)) /\ upd t [] L L'
  | DeleteByRun t r =>
      out = Number (count (List.filter (of_run r) (L t))) /\
      upd t (List.filter (fun e => negb (of_run r e)) (L t)) L L'
  end.

Fixpoint spec_run (strict : bool) (u : option (option string)) (L : logs) (l : list op) (outs : list output) (L' : logs) : Prop :=
  match l, outs with
  | [], [] => same_logs L L'
  | o :: l, x :: outs => exists L1, spec_step strict u L o x L1 /\ spec_run strict u L1 l outs L'
  | _, _ => False
  end.

(** Calls on which the stores agree: a positive limit, one cursor for a
    thread's messages, no empty list of types, one thread per batch. *)
Definition op_ok (o : op) : Prop :=
  match o with
  | PutBatch _ l => forall x y, x ∈ l -> y ∈ l -> a_thread_id x = a_thread_id y
  | ListMessages _ n b a => 1 <= n /\ (b = None \/ a = None)
  | ListEvents _ _ q => 1 <= q_limit q /\ q_types q <> Some []
  | ListMessagesByRun _ _ n _ _ => 1 <= n
  | _ => True
  end.

Definition puts (o : op) : Z :=
  match o with Put _ _ => 1 | PutBatch _ l => count l | _ => 0 end.

Definition deletes_run (o : op) : bool := match o with DeleteByRun _ _ => true | _ => false end.

(** Numbers stay below [2^63], the range of the [seq] column. *)
Definition seq_bound : Z := 2 ^ 63.

(** What a store must provide: a view of its state as logs, kept by every
    call, whose answers are those of the specification. *)
Class EventStoreLaws (St : Type) `{RunEventStore St} := {
  stamp : option (option string);
  fits : op -> Prop;
  view : Z -> bool -> St -> logs -> Prop;
  view_log b k s L : view b k s L -> forall t, log_ok b t (L t);
  simulates b k s L o :
    view b k s L -> op_ok o -> fits o -> (k = true -> deletes_run o = false) -> b + puts o < seq_bound ->
    exists L', spec_step k stamp L o (exec o s).1 L' /\ view (b + puts o) k (exec o s).2 L'
}.

Section contract.
Context {St : Type} `{EventStoreLaws St}.

Lemma exec_all_simulates l : forall b k s L,
view b k s L -> Forall op_ok l -> Forall fits l ->
(k = true -> Forall (fun o => deletes_run o = false) l) ->
b + sumZ puts l < seq_bound ->
exists L', spec_run k stamp L l (exec_all l s).1 L' /\ view (b + sumZ puts l) k (exec_all l s).2 L'.
Proof.
assert (forall l, 0 <= sumZ puts l) as P.
{ intros l0. apply sumZ_nonneg. intros [] _; cbn; unfold count; lia. }
induction l as [|o l IH]; intros b k s L V Ok Fi De B.
- exists L. split; [done|]. cbn [sumZ foldr exec_all snd]. by rewrite Z.add_0_r.
- apply Forall_cons in Ok as [Ok Oks]. apply Forall_cons in Fi as [Fi Fis].
  change (sumZ puts (o :: l)) with (puts o + sumZ puts l) in *. specialize (P l).
  destruct (simulates b k s L o) as (L1 & S1 & V1); [done|done|done| |lia|].
  { intros K. by apply De, Forall_cons in K as [? _]. }
  destruct (IH (b + puts o) k (exec o s).2 L1) as (L' & S' & V'); [done|done|done| |lia|].
  { intros K. by apply De, Forall_cons in K as [_ ?]. }
  exists L'. cbn [exec_all]. destruct (exec o s) as [x s1]. cbn [fst snd] in *.
  destruct (exec_all l s1) as [xs s2]. cbn [fst snd] in *.
  rewrite Z.add_assoc. split; [|done]. by exists L1.
Qed.
End contract.

(** The strict specification leaves no choice. *)
Lemma put_spec_strict u now a e e' L1 L1' L2 L2' : same_logs L1 L2 ->
  put_spec true u now a e L1 L1' -> put_spec true u now a e' L2 L2' -> e' = e /\ same_logs L1' L2'.
Proof.
  intros E (n & _ & N & -> & U) (n' & _ & N' & -> & U').
  rewrite (E (a_thread_id a)) in *. rewrite (N eq_refl), (N' eq_refl) in *.
  split; [done|]. intros t. rewrite U, U'. by rewrite E.
Qed.

Lemma puts_spec_strict u now l : forall es es' L1 L1' L2 L2', same_logs L1 L2 ->
  puts_spec true u now l es L1 L1' -> puts_spec true u now l es' L2 L2' -> es' = es /\ same_logs L1' L2'.
Proof.
  induction l as [|a l IH]; intros [|e es] [|e' es'] L1 L1' L2 L2' E; cbn; try done.
  - intros A B. split; [done|]. intros t. by rewrite A, B.
  - intros (M1 & A & B) (M2 & A' & B').
    destruct (put_spec_strict _ _ _ _ _ _ _ _ _ E A A') as [-> E'].
    by destruct (IH _ _ _ _ _ _ E' B B') as [-> ?].
Qed.

Lemma spec_step_strict u o x x' L1 L1' L2 L2' : same_logs L1 L2 ->
  spec_step true u L1 o x L1' -> spec_step true u L2 o x' L2' -> x' = x /\ same_logs L1' L2'.
Proof.
  intros E. assert (forall t l L L' M M', same_logs L M -> upd t l L L' -> upd t l M M' -> same_logs L' M') as K.
  { intros t l L L' M M' Q U U' t'. rewrite U, U'. by destruct (decide _). }
  assert (forall L L' M M', same_logs L M -> same_logs L L' -> same_logs M M' -> same_logs L' M') as S.
  { intros L L' M M' Q U U' t'. by rewrite U', Q, U. }
  destruct o; cbn; intros A B.
  3-8: destruct A as [-> A], B as [-> B]; rewrite ?(E t) in *;
    (split; [done|]); first [exact (S _ _ _ _ E A B) | exact (K _ _ _ _ _ _ E A B)].
  - destruct A as (e & -> & A), B as (e' & -> & B).
    by destruct (put_spec_strict _ _ _ _ _ _ _ _ _ E A B) as [-> ?].
  - destruct A as (e & -> & A), B as (e' & -> & B).
    by destruct (puts_spec_strict _ _ _ _ _ _ _ _ _ E A B) as [-> ?].
Qed.

Lemma spec_run_strict u l : forall xs xs' L1 L1' L2 L2', same_logs L1 L2 ->
  spec_run true u L1 l xs L1' -> spec_run true u L2 l xs' L2' -> xs' = xs /\ same_logs L1' L2'.
Proof.
  induction l as [|o l IH]; intros [|x xs] [|x' xs'] L1 L1' L2 L2' E; cbn; try done.
  - intros A B. split; [done|]. intros t. by rewrite A, B.
  - intros (M1 & A & B) (M2 & A' & B').
    destruct (spec_step_strict _ _ _ _ _ _ _ _ E A A') as [-> E'].
    by destruct (IH _ _ _ _ _ _ E' B B') as [-> ?].
Qed.

(** ** Records with another [user_id] key

    The logs of a store that stamps its records are those of one that does not,
    stamped. *)

Section stamping.
Context (u : option (option string)).

Definition stamp_output (x : output) : output :=
match x with
| Stored l => Stored (map (with_owner u) l)
| Listed l => Listed (map (with_owner u) l)
| x => x
end.

Definition stamp_logs (L : logs) : logs := fun t => map (with_owner u) (L t).

Lemma filter_stamp (f : RunEvent -> bool) l : (forall e, f (with_owner u e) = f e) ->
List.filter f (map (with_owner u) l) = map (with_owner u) (List.filter f l).
Proof. intros H. induction l as [|e l IH]; simpl; [done|]. rewrite H. destruct (f e); simpl; by rewrite IH. Qed.

Lemma top_stamp l : top (map (with_owner u) l) = top l.
Proof. unfold top. induction l as [|e l _] using rev_ind; [done|]. rewrite map_app. cbn [map]. by rewrite !last_snoc. Qed.

Lemma page_stamp n b a l : page n b a (map (with_owner u) l) = map (with_owner u) (page n b a l).
Proof.
assert (before_ b (map (with_owner u) l) = map (with_owner u) (before_ b l)) as B.
{ destruct b; [|done]. by apply filter_stamp. }
assert (after_ a (before_ b (map (with_owner u) l)) = map (with_owner u) (after_ a (before_ b l))) as A.
{ rewrite B. destruct a; [|done]. by apply filter_stamp. }
unfold page. rewrite A. destruct a; [apply firstn_map|]. unfold last_n. rewrite length_map. apply skipn_map.
Qed.

Lemma upd_stamp t l L L' : upd t l L L' -> upd t (map (with_owner u) l) (stamp_logs L) (stamp_logs L').
Proof. intros U t'. unfold stamp_logs. rewrite U. by destruct (decide _). Qed.

Lemma same_stamp L L' : same_logs L L' -> same_logs (stamp_logs L) (stamp_logs L').
Proof. intros U t. unfold stamp_logs. by rewrite U. Qed.

Lemma put_stamp k now a e L L' : put_spec k None now a e L L' ->
put_spec k u now a (with_owner u e) (stamp_logs L) (stamp_logs L').
Proof.
intros (n & T & N & -> & U). exists n. unfold stamp_logs at 1. rewrite top_stamp. split_and!; [done| |done|].
- intros K. specialize (N K). unfold stamp_logs. by rewrite top_stamp.
- apply upd_stamp in U. by rewrite map_app in U.
Qed.

Lemma puts_stamp k now l : forall es L L', puts_spec k None now l es L L' ->
puts_spec k u now l (map (with_owner u) es) (stamp_logs L) (stamp_logs L').
Proof.
induction l as [|a l IH]; intros [|e es] L L'; cbn; try done; [apply same_stamp|].
intros (L1 & P & Q). exists (stamp_logs L1). split; [by apply put_stamp|by apply IH].
Qed.

Lemma spec_step_stamp k o x L L' : spec_step k None L o x L' ->
spec_step k u (stamp_logs L) o (stamp_output x) (stamp_logs L').
Proof.
destruct o; cbn.
- intros (e & -> & P). eexists. split; [done|]. by apply put_stamp.
- intros (es & -> & P). eexists. split; [done|]. by apply puts_stamp.
- intros [-> S]. split; [|by apply same_stamp]. cbn. unfold stamp_logs. by rewrite filter_stamp, page_stamp.
- intros [-> S]. split; [|by apply same_stamp]. cbn. unfold stamp_logs. rewrite filter_stamp by done.
  rewrite filter_stamp by done. by rewrite <- firstn_map.
- intros [-> S]. split; [|by apply same_stamp]. cbn. unfold stamp_logs. rewrite filter_stamp by done.
  by rewrite filter_stamp, page_stamp.
- intros [-> S]. split; [|by apply same_stamp]. unfold stamp_logs, count. by rewrite filter_stamp, length_map.
- intros [-> S]. split; [unfold stamp_logs, count; by rewrite length_map|]. exact (upd_stamp _ _ _ _ S).
- intros [-> S]. unfold stamp_logs at 1 2, count. rewrite !filter_stamp by done. rewrite length_map.
  split; [done|]. exact (upd_stamp _ _ _ _ S).
Qed.

Lemma spec_run_stamp k l : forall xs L L', spec_run k None L l xs L' ->
spec_run k u (stamp_logs L) l (map stamp_output xs) (stamp_logs L').
Proof.
induction l as [|o l IH]; intros [|x xs] L L'; cbn; try done; [apply same_stamp|].
intros (L1 & P & Q). exists (stamp_logs L1). split; [by apply spec_step_stamp|by apply IH].
Qed.
End stamping.

End EventLog.
