(* ===== verification/EventStores.v ===== *)
(** * The three run event stores keep the contract

    The laws of [EventLog.EventStoreLaws] for [memory.py], [jsonl.py] and
    [db.py], and what follows for every sequence of calls. *)
From S2P Require Import Prelude Json Errors Text Slices JsonText RunEvents EventLog.
Import Json Errors Text JsonText RunEvents EventLog.

Module EventStores.

(** ** Windows of a sorted log *)

Section windows.
Context (p : Z -> bool) (p_down : forall x y, x < y -> p y = true -> p x = true).

Let sel (e : RunEvent) : bool := p (seq e).

Lemma sorted_split l : StronglySorted seq_lt l ->
List.filter sel l = take (length (List.filter sel l)) l /\
List.filter (fun e => negb (sel e)) l = drop (length (List.filter sel l)) l.
Proof using p_down.
induction 1 as [|x l S IH F]; [done|]. simpl. destruct (sel x) eqn:E; simpl.
- destruct IH as [IH1 IH2]. split; [by f_equal|done].
- assert (List.filter sel l = []) as N.
  { destruct (List.filter sel l) as [|y r] eqn:G; [done|].
    assert (y ∈ List.filter sel l) as [Y Ys]%filter_elem by (rewrite G; left).
    rewrite Forall_forall in F. specialize (F y Y). unfold seq_lt, sel in *.
    rewrite (p_down _ _ F Ys) in E. done. }
  rewrite N in *. simpl in *. destruct IH as [_ IH]. split; [done|]. f_equal. by rewrite IH, drop_0.
Qed.

Lemma bisect_count l : StronglySorted seq_lt l -> forall fuel lo hi,
(hi - lo < fuel)%nat -> (lo <= length (List.filter sel l) <= hi)%nat -> (hi <= length l)%nat ->
bisect fuel sel l lo hi = length (List.filter sel l).
Proof using p_down.
intros S. destruct (sorted_split l S) as [A B]. set (c := length (List.filter sel l)) in *.
assert (forall i e, l !! i = Some e -> sel e = true <-> (i < c)%nat) as K.
{ intros i e H. split.
  - intros T. destruct (decide (i < c)%nat); [done|]. exfalso.
    assert (e ∈ List.filter (fun e => negb (sel e)) l) as [_ N]%filter_elem.
    { rewrite B. apply list_elem_of_lookup. exists (i - c)%nat. rewrite lookup_drop.
      by replace (c + (i - c))%nat with i by lia. }
    by rewrite T in N.
  - intros T. assert (e ∈ List.filter sel l) as [_ N]%filter_elem; [|done].
    rewrite A. apply list_elem_of_lookup. exists i. by rewrite lookup_take_lt. }
induction fuel as [|fuel IH]; intros lo hi F C L; [lia|]. cbn [bisect].
destruct (Nat.ltb_spec lo hi); [|lia].
assert (lo <= (lo + hi) / 2 < hi)%nat as M.
{ split; [apply Nat.div_le_lower_bound|apply Nat.div_lt_upper_bound]; lia. }
destruct (lookup_lt_is_Some_2 l ((lo + hi) / 2)%nat ltac:(lia)) as [e E]. rewrite E.
specialize (K _ _ E). destruct (sel e) eqn:T.
- apply IH; [lia| |lia]. destruct K as [K _]. specialize (K eq_refl). lia.
- apply IH; [lia| |lia]. assert (~ ((lo + hi) / 2 < c)%nat) by (intros X; by apply K in X). lia.
Qed.
End windows.

Lemma bisect_left_count l x : StronglySorted seq_lt l ->
  bisect_left l x = count (List.filter (fun e => seq e <? x) l).
Proof.
  intros S. unfold bisect_left, count. f_equal.
  apply (bisect_count (fun z => z <? x)); try done; try lia.
  split; [lia|apply filter_length_le].
Qed.

Lemma bisect_right_count l x : StronglySorted seq_lt l ->
  bisect_right l x = count (List.filter (fun e => seq e <=? x) l).
Proof.
  intros S. unfold bisect_right, count. f_equal.
  apply (bisect_count (fun z => z <=? x)); try done; try lia.
  split; [lia|apply filter_length_le].
Qed.

Lemma before_take l x : StronglySorted seq_lt l ->
  before_ (Some x) l = take (Z.to_nat (bisect_left l x)) l.
Proof.
  intros S. rewrite bisect_left_count by done. unfold count. rewrite Nat2Z.id.
  apply (sorted_split (fun z => z <? x)); [|done]. intros a b H. rewrite !Z.ltb_lt. lia.
Qed.

Lemma filter_ext {A} (f g : A -> bool) l : (forall x, x ∈ l -> f x = g x) -> List.filter f l = List.filter g l.
Proof.
  induction l as [|x l IH]; [done|]. intros H. simpl. rewrite (H x ltac:(left)), IH; [done|].
  intros y Hy. apply H. by right.
Qed.

(** Beyond [x] in a prefix of the log. *)
Lemma after_drop l x n : StronglySorted seq_lt l ->
  after_ (Some x) (take n l) = drop (Z.to_nat (bisect_right l x)) (take n l).
Proof.
  intros S. rewrite bisect_right_count by done. unfold count. rewrite Nat2Z.id.
  unfold after_. revert n. induction S as [|e l S IH F]; intros n; [by destruct n|].
  destruct n as [|n]; [by rewrite take_0, drop_nil|]. simpl.
  destruct (Z.leb_spec (seq e) x); destruct (Z.ltb_spec x (seq e)); try lia; simpl; [apply IH|].
  assert (List.filter (fun e => seq e <=? x) l = []) as ->.
  { destruct (List.filter _ l) as [|y r] eqn:G; [done|].
    assert (y ∈ List.filter (fun e => seq e <=? x) l) as [Y Ys]%filter_elem by (rewrite G; left).
    rewrite Forall_forall in F. specialize (F y Y). unfold seq_lt in F. bprop. lia. }
  simpl. f_equal. rewrite (filter_ext _ (fun _ => true)).
  { clear. induction (take n l) as [|y r IH]; simpl; [done|by rewrite IH]. }
  intros y Hy. apply Z.ltb_lt. assert (y ∈ l) as Y by (by eapply elem_of_take in Hy as (?&?&?); eapply list_elem_of_lookup_2).
  rewrite Forall_forall in F. specialize (F y Y). unfold seq_lt in F. lia.
Qed.

Lemma pyslice_first {A} (l : list A) n : 0 <= n -> pyslice l None (Some n) = take (Z.to_nat n) l.
Proof.
  intros Hn. unfold pyslice, slice_index. simpl. destruct (Z.ltb_spec n 0); [lia|].
  rewrite (Z.min_r _ 0) by lia. simpl. rewrite drop_0, Z.sub_0_r.
  destruct (Z.le_gt_cases n (Z.of_nat (length l))).
  - by rewrite Z.min_r by lia.
  - rewrite Z.min_l, Nat2Z.id, firstn_all by lia. by rewrite take_ge by lia.
Qed.

Lemma pyslice_last {A} (l : list A) n : 1 <= n -> pyslice l (Some (- n)) None = last_n n l.
Proof.
  intros Hn. unfold pyslice, slice_index, last_n. simpl. destruct (Z.ltb_spec (- n) 0); [|lia].
  destruct (Z.ltb_spec (Z.of_nat (length l)) 0); [lia|]. rewrite Z.min_id.
  rewrite take_ge; [f_equal; lia|]. rewrite length_drop. lia.
Qed.

Lemma pyslice_mid {A} (l : list A) lo hi : 0 <= lo -> 0 <= hi ->
  pyslice l (Some lo) (Some hi) = drop (Z.to_nat lo) (take (Z.to_nat hi) l).
Proof.
  intros Hl Hh. unfold pyslice, slice_index. simpl.
  destruct (Z.ltb_spec lo 0); [lia|]. destruct (Z.ltb_spec hi 0); [lia|].
  destruct (Z.le_gt_cases (Z.of_nat (length l)) lo).
  - rewrite (Z.min_l _ lo), Nat2Z.id, drop_all by lia. rewrite take_nil.
    rewrite drop_ge; [done|]. rewrite length_take. lia.
  - rewrite (Z.min_r _ lo) by lia. destruct (Z.le_gt_cases (Z.of_nat (length l)) hi).
    + rewrite (Z.min_l _ hi) by lia. rewrite (take_ge l) by lia. apply take_ge. rewrite length_drop. lia.
    + rewrite Z.min_r by lia. rewrite take_drop_commute. 
      destruct (Z.le_gt_cases lo hi).
      * f_equal. f_equal. lia.
      * rewrite !drop_ge; [done|rewrite length_take; lia..].
Qed.

(** ** Logs *)

Lemma log_ok_mono b b' t l : b <= b' -> log_ok b t l -> log_ok b' t l.
Proof.
  intros Hb [S F]. split; [done|]. eapply Forall_impl; [exact F|]. intros e [? ?]. split; [done|lia].
Qed.

Lemma log_ok_filter f b t l : log_ok b t l -> log_ok b t (List.filter f l).
Proof.
  intros [S F]. split; [by apply StronglySorted_filter|]. rewrite Forall_forall in *.
  intros e [He _]%filter_elem. by apply F.
Qed.

Lemma log_ok_nil b t : log_ok b t [].
Proof. split; constructor. Qed.

(** Every number of a log is at most the last. *)
Lemma top_ge b t l e : log_ok b t l -> e ∈ l -> seq e <= top l.
Proof.
  intros [S _]. unfold top. revert e. induction S as [|x l S IH F]; intros e H; [by apply elem_of_nil in H|].
  destruct l as [|y l].
  - apply list_elem_of_singleton in H as ->. done.
  - change (last (x :: y :: l)) with (last (y :: l)).
    apply elem_of_cons in H as [->|H]; [|by apply IH].
    apply Forall_cons in F as [F _]. specialize (IH y ltac:(left)). unfold seq_lt in F. lia.
Qed.

Lemma top_bound b t l : 0 <= b -> log_ok b t l -> 0 <= top l <= b.
Proof.
  intros Hb [_ F]. unfold top. destruct (last l) as [e|] eqn:E; [|lia].
  apply last_Some_elem_of in E. rewrite Forall_forall in F. destruct (F e E). lia.
Qed.

Lemma top_snoc l e : top (l ++ [e]) = seq e.
Proof. unfold top. by rewrite last_snoc. Qed.

Lemma log_put b b' u a n now l : log_ok b (a_thread_id a) l -> 0 <= b <= b' -> top l < n <= b' ->
  log_ok b' (a_thread_id a) (l ++ [with_owner u (record_of a n now)]).
Proof.
  intros Lo Hb Hn. pose proof (top_bound b _ l ltac:(lia) Lo) as T.
  pose proof (log_ok_mono b b' _ _ ltac:(lia) Lo) as [S F]. split.
  - assert (forall e, e ∈ l -> seq e < n) as G.
    { intros e He. pose proof (top_ge _ _ _ _ Lo He). lia. }
    clear -S G. induction S as [|x l S IH F]; [by repeat constructor|]. simpl. constructor.
    + apply IH. intros e He. apply G. by right.
    + apply Forall_app. split; [done|]. constructor; [|done]. apply (G x). left.
  - apply Forall_app. split; [done|]. constructor; [|done]. split; [done|]. simpl. lia.
Qed.

(** The logs after an event. *)
Definition logs_put (a : EventArgs) (e : RunEvent) (L : logs) : logs :=
  fun t => if decide (t = a_thread_id a) then L (a_thread_id a) ++ [e] else L t.

Lemma logs_put_same a e L : logs_put a e L (a_thread_id a) = L (a_thread_id a) ++ [e].
Proof. unfold logs_put. by rewrite decide_True. Qed.
Lemma logs_put_other a e L t : t <> a_thread_id a -> logs_put a e L t = L t.
Proof. intros H. unfold logs_put. by rewrite decide_False. Qed.

Lemma put_spec_intro (k : bool) u now a n L :
  top (L (a_thread_id a)) < n -> (k = true -> n = top (L (a_thread_id a)) + 1) ->
  put_spec k u now a (with_owner u (record_of a n now)) L (logs_put a (with_owner u (record_of a n now)) L).
Proof. intros H K. exists n. by split_and!. Qed.

Lemma filter_events_wanted q l : filter_events q l = List.filter (wanted q) l.
Proof.
  assert (forall f g (l : list RunEvent), List.filter f (List.filter g l) = List.filter (fun e => g e && f e) l) as C.
  { intros f g l0. induction l0 as [|x l0 IH]; simpl; [done|]. destruct (g x); simpl; [|done].
    destruct (f x); by rewrite IH. }
  assert (forall l : list RunEvent, l = List.filter (fun _ => true) l) as I.
  { intros l0. induction l0 as [|x l0 IH]; simpl; [done|by f_equal]. }
  unfold filter_events, wanted. destruct q as [[ts|] [k|] n [a|]]; simpl; rewrite ?C;
    try (apply filter_ext; intros; by rewrite ?andb_true_r, ?andb_assoc, ?andb_true_l).
  all: apply I.
Qed.

(** ** memory.py *)

Lemma before_elem b l e : e ∈ before_ b l -> e ∈ l.
Proof. destruct b; [|done]. by intros [? _]%filter_elem. Qed.

Lemma mem_page n b a l : StronglySorted seq_lt l -> 1 <= n -> (b = None \/ a = None) ->
  match b, a with
  | Some b, _ => let hi := bisect_left l b in pyslice l (Some (Z.max 0 (hi - n))) (Some hi)
  | None, Some a => let lo := bisect_right l a in pyslice l (Some lo) (Some (lo + n))
  | None, None => pyslice l (Some (- n)) None
  end = page n b a l.
Proof.
  intros S Hn Hc. unfold page. destruct b as [b|], a as [a|]; [by destruct Hc|..].
  - cbn [after_]. rewrite before_take by done.
    assert (0 <= bisect_left l b <= Z.of_nat (length l)).
    { rewrite bisect_left_count by done. unfold count. pose proof (filter_length_le (fun e => seq e <? b) l). lia. }
    cbv zeta. rewrite pyslice_mid by lia. unfold last_n. f_equal. rewrite length_take. lia.
  - cbn [before_]. pose proof (after_drop l a (length l) S) as D. rewrite take_ge in D by lia.
    rewrite D. cbv zeta. rewrite pyslice_mid by (unfold bisect_right; lia).
    rewrite take_drop_commute. f_equal. f_equal. unfold bisect_right. lia.
  - cbn [after_ before_]. by rewrite pyslice_last.
Qed.

Lemma mem_page_by_run n b a l : StronglySorted seq_lt l -> 1 <= n ->
  (let lo := match a with None => 0 | Some a => bisect_right l a end in
   let hi := match b with None => Z.of_nat (length l) | Some b => bisect_left l b end in
   let window := pyslice l (Some lo) (Some hi) in
   match a with
   | Some _ => pyslice window None (Some n)
   | None => pyslice window (Some (- n)) None
   end) = page n b a l.
Proof.
  intros S Hn. cbv zeta. set (hi := match b with None => _ | Some b => _ end).
  assert (0 <= hi) as Hh. { unfold hi, bisect_left. destruct b; lia. }
  assert (take (Z.to_nat hi) l = before_ b l) as Eh.
  { unfold hi. destruct b as [b|]; [by rewrite before_take|]. simpl. apply take_ge. lia. }
  unfold page. destruct a as [a|].
  - rewrite pyslice_mid by (unfold bisect_right; lia). rewrite pyslice_first by lia.
    rewrite <- Eh, after_drop by done. done.
  - rewrite pyslice_mid, drop_0, Eh, pyslice_last by lia. done.
Qed.

Definition mem_view (b : Z) (k : bool) (s : MemoryRunEventStore) (L : logs) : Prop :=
  0 <= b /\ forall t,
    let c := default 0 (_seq_counters s !! t) in
    of_thread (_events s) t = L t /\
    of_thread (_messages s) t = List.filter is_message (L t) /\
    (forall r, of_thread_run (_events_by_run s) t r = List.filter (of_run r) (L t)) /\
    (forall r, of_thread_run (_messages_by_run s) t r =
               List.filter is_message (List.filter (of_run r) (L t))) /\
    log_ok b t (L t) /\ top (L t) <= c <= b /\ (k = true -> c = top (L t)).

Lemma mem_view_new k : mem_view 0 k new_memory_store no_logs.
Proof.
  split; [lia|]. intros t. cbn -[top]. unfold of_thread, of_thread_run. rewrite !lookup_empty.
  split_and!; try done; try (intros r; by rewrite lookup_empty). apply log_ok_nil.
Qed.

Lemma of_thread_append t e m t' :
  of_thread (append_at t e m) t' = if decide (t' = t) then of_thread m t ++ [e] else of_thread m t'.
Proof.
  unfold of_thread, append_at. destruct (decide (t' = t)) as [->|N].
  - by rewrite lookup_insert_eq.
  - by rewrite lookup_insert_ne.
Qed.

Lemma of_thread_run_append t r e m t' r' :
  of_thread_run (append_at2 t r e m) t' r' =
  if decide (t' = t /\ r' = r) then of_thread_run m t r ++ [e] else of_thread_run m t' r'.
Proof.
  unfold of_thread_run, append_at2, append_at. destruct (decide (t' = t)) as [->|N].
  - rewrite lookup_insert_eq. cbn [from_option id]. destruct (decide (r' = r)) as [->|N].
    + rewrite decide_True by done. by rewrite lookup_insert_eq.
    + rewrite decide_False by naive_solver. by rewrite lookup_insert_ne.
  - rewrite decide_False by naive_solver. by rewrite lookup_insert_ne.
Qed.

Lemma mem_put_view b k s L now a : mem_view b k s L ->
  exists L', put_spec k None now a (_put_one now a s).1 L L' /\ mem_view (b + 1) k (_put_one now a s).2 L'.
Proof.
  intros [Hb V]. set (t := a_thread_id a). destruct (V t) as (E & M & ER & MR & Lo & C & K).
  set (n := default 0 (_seq_counters s !! t) + 1). set (e := record_of a n now).
  exists (logs_put a e L). split.
  { apply (put_spec_intro _ None _ _ n); fold t; [unfold n; lia|]. intros Ek. unfold n. rewrite (K Ek). lia. }
  split; [lia|]. intros t'. unfold _put_one. fold t n e.
  cbn [fst snd _events _messages _events_by_run _messages_by_run _seq_counters].
  pose proof (logs_put_same a e L : logs_put a e L t = L t ++ [e]) as LP.
  assert (forall x : list RunEvent, List.filter is_message (x ++ [e]) =
    if is_message e then List.filter is_message x ++ [e] else List.filter is_message x) as FM.
  { intros x. rewrite List.filter_app. simpl. destruct (is_message e); [done|apply app_nil_r]. }
  assert (forall r (x : list RunEvent), List.filter (of_run r) (x ++ [e]) =
    if decide (r = a_run_id a) then List.filter (of_run r) x ++ [e] else List.filter (of_run r) x) as FR.
  { intros r x. rewrite List.filter_app. simpl. unfold of_run at 2. simpl.
    destruct (decide (r = a_run_id a)) as [->|N].
    - by rewrite String.eqb_refl.
    - destruct (String.eqb_spec (a_run_id a) r); [congruence|]. apply app_nil_r. }
  destruct (decide (t' = t)) as [->|N].
  - rewrite !LP, lookup_insert_eq, of_thread_append, decide_True by done. cbn [from_option id].
    split_and!.
    + by rewrite E.
    + rewrite FM. destruct (is_message e); [|done]. rewrite of_thread_append, decide_True by done. by rewrite M.
    + intros r. rewrite FR, of_thread_run_append. destruct (decide (r = a_run_id a)) as [->|Nr].
      * rewrite decide_True by done. by rewrite ER.
      * rewrite decide_False by naive_solver. apply ER.
    + intros r. rewrite FR. destruct (decide (r = a_run_id a)) as [->|Nr].
      * rewrite FM. destruct (is_message e); [|apply MR].
        rewrite of_thread_run_append, decide_True by done. by rewrite MR.
      * destruct (is_message e); [|apply MR].
        rewrite of_thread_run_append, decide_False by naive_solver. apply MR.
    + apply (log_put b _ None _ n); [done|lia|unfold n; lia].
    + rewrite top_snoc. simpl. unfold n. lia.
    + unfold n. lia.
    + intros _. by rewrite top_snoc.
  - rewrite logs_put_other by done. destruct (V t') as (E' & M' & ER' & MR' & Lo' & C' & K').
    rewrite lookup_insert_ne, of_thread_append, decide_False by done. split_and!; try done.
    + destruct (is_message e); [|done]. by rewrite of_thread_append, decide_False.
    + intros r. rewrite of_thread_run_append, decide_False by naive_solver. apply ER'.
    + intros r. destruct (is_message e); [|apply MR'].
      rewrite of_thread_run_append, decide_False by naive_solver. apply MR'.
    + by apply (log_ok_mono b); [lia|].
    + lia.
    + lia.
Qed.

Lemma mem_put_batch_view now l : forall b k s L, mem_view b k s L ->
  exists L', puts_spec k None now l (mem_put_batch now l s).1 L L' /\
    mem_view (b + count l) k (mem_put_batch now l s).2 L'.
Proof.
  induction l as [|a l IH]; intros b k s L V.
  - exists L. unfold count. simpl. rewrite Z.add_0_r. by split.
  - destruct (mem_put_view b k s L now a V) as (L1 & P & V1). cbn [mem_put_batch].
    destruct (_put_one now a s) as [e s1]. cbn [fst snd] in *.
    destruct (IH _ _ _ _ V1) as (L2 & Q & V2). destruct (mem_put_batch now l s1) as [es s2].
    cbn [fst snd] in *. exists L2. split; [by exists L1|].
    replace (b + count (a :: l)) with (b + 1 + count l) by (unfold count; simpl; lia). done.
Qed.

Definition logs_set (t : string) (l : list RunEvent) (L : logs) : logs :=
  fun t' => if decide (t' = t) then l else L t'.

Lemma count_split {A} (f : A -> bool) l :
  count l - count (List.filter (fun e => negb (f e)) l) = count (List.filter f l).
Proof. unfold count. induction l as [|x l IH]; simpl; [done|]. destruct (f x); simpl; lia. Qed.

Lemma filter_comm {A} (f g : A -> bool) l : List.filter f (List.filter g l) = List.filter g (List.filter f l).
Proof.
  induction l as [|x l IH]; simpl; [done|].
  destruct (f x) eqn:F, (g x) eqn:G; simpl; rewrite ?F, ?G, IH; done.
Qed.

Lemma filter_run_removed r l : List.filter (of_run r) (List.filter (fun e => negb (of_run r e)) l) = [].
Proof. induction l as [|x l IH]; simpl; [done|]. destruct (of_run r x) eqn:E; simpl; by rewrite ?E. Qed.

Lemma filter_run_kept r r' l : r' <> r ->
  List.filter (of_run r') (List.filter (fun e => negb (of_run r e)) l) = List.filter (of_run r') l.
Proof.
  intros N. induction l as [|x l IH]; simpl; [done|].
  destruct (of_run r x) eqn:E; simpl; destruct (of_run r' x) eqn:E'; rewrite ?IH; try done.
  unfold of_run in *. bprop. congruence.
Qed.

Lemma of_thread_run_pop t r m t' r' :
  of_thread_run (pop_at2 t r m) t' r' = if decide (t' = t /\ r' = r) then [] else of_thread_run m t' r'.
Proof.
  unfold of_thread_run, pop_at2. destruct (m !! t) as [i|] eqn:E.
  - destruct (decide (t' = t)) as [->|N].
    + rewrite lookup_insert_eq, E. cbn [from_option id]. destruct (decide (r' = r)) as [->|N].
      * rewrite decide_True by done. by rewrite lookup_delete_eq.
      * rewrite decide_False by naive_solver. by rewrite lookup_delete_ne.
    + rewrite decide_False by naive_solver. by rewrite lookup_insert_ne.
  - destruct (decide _) as [[-> ->]|]; [|done]. rewrite E. cbn [from_option id]. by rewrite lookup_empty.
Qed.

Lemma top_filter b t f l : 0 <= b -> log_ok b t l -> top (List.filter f l) <= top l.
Proof.
  intros Hb Lo. unfold top at 1. destruct (last _) as [e|] eqn:E.
  - apply last_Some_elem_of in E. apply filter_elem in E as [E _]. by eapply top_ge.
  - by apply (top_bound b t).
Qed.

Lemma mem_delete_thread_view b k s L t : mem_view b k s L ->
  (mem_delete_by_thread t s).1 = count (L t) /\ mem_view b k (mem_delete_by_thread t s).2 (logs_set t [] L).
Proof.
  intros [Hb V]. split; [destruct (V t) as (E & _); cbn; by rewrite E|]. split; [done|]. intros t'.
  unfold logs_set, mem_delete_by_thread. cbn -[top]. unfold of_thread, of_thread_run.
  destruct (decide (t' = t)) as [->|N].
  - rewrite !lookup_delete_eq. cbn -[top]. split_and!; try done; try (by intros r; rewrite lookup_empty).
    apply log_ok_nil.
  - rewrite !lookup_delete_ne by done. exact (V t').
Qed.

Lemma mem_delete_run_view b s L t r : mem_view b false s L ->
  (mem_delete_by_run t r s).1 = count (List.filter (of_run r) (L t)) /\
  mem_view b false (mem_delete_by_run t r s).2 (logs_set t (List.filter (fun e => negb (of_run r e)) (L t)) L).
Proof.
  intros [Hb V]. destruct (V t) as (E & M & ER & MR & Lo & C & _). unfold mem_delete_by_run. rewrite E.
  destruct (L t) as [|e l] eqn:EL.
  { split; [done|]. split; [done|]. intros t'. unfold logs_set. destruct (decide (t' = t)) as [->|N]; [|apply V].
    specialize (V t). by rewrite EL in V. }
  rewrite <- EL in *. clear e l EL. cbn [fst snd]. split; [apply (count_split (of_run r))|].
  split; [done|]. intros t'. unfold logs_set.
  cbn [_events _messages _events_by_run _messages_by_run _seq_counters]. unfold of_thread in *.
  destruct (decide (t' = t)) as [->|N].
  - rewrite !lookup_insert_eq. cbn [from_option id]. split_and!; try done.
    + intros r'. rewrite of_thread_run_pop. destruct (decide (r' = r)) as [->|Nr].
      * rewrite decide_True by done. by rewrite filter_run_removed.
      * rewrite decide_False by naive_solver. by rewrite filter_run_kept.
    + intros r'. rewrite of_thread_run_pop. destruct (decide (r' = r)) as [->|Nr].
      * rewrite decide_True by done. by rewrite filter_run_removed.
      * rewrite decide_False by naive_solver. by rewrite filter_run_kept.
    + by apply log_ok_filter.
    + pose proof (top_filter b t (fun e => negb (of_run r e)) (L t) Hb Lo). lia.
    + lia.
  - rewrite !lookup_insert_ne by done. destruct (V t') as (E' & M' & ER' & MR' & R').
    unfold of_thread in *. split_and!; try done; try apply R'.
    + intros r'. rewrite of_thread_run_pop, decide_False by naive_solver. apply ER'.
    + intros r'. rewrite of_thread_run_pop, decide_False by naive_solver. apply MR'.
Qed.

#[export] Instance memory_laws : EventStoreLaws MemoryRunEventStore.
Proof.
  refine {| stamp := None; fits := fun _ => True; view := mem_view |}.
  - intros b k s L [_ V] t. apply V.
  - intros b k s L o V Ok _ De _. pose proof V as [Hb W].
    assert (forall t, StronglySorted seq_lt (L t)) as SL by (intros t; apply W).
    destruct o; cbn [exec put put_batch list_messages list_events list_messages_by_run count_messages
                      delete_by_thread delete_by_run memory_store ok_fst fst snd answer puts] in *;
      rewrite ?Z.add_0_r.
    + destruct (mem_put_view _ _ _ _ now a V) as (L' & P & V'). exists L'. split; [|done].
      by eexists.
    + destruct (mem_put_batch_view now l _ _ _ _ V) as (L' & P & V'). exists L'. split; [|done].
      by eexists.
    + exists L. split; [|done]. split; [|done]. f_equal. unfold mem_list_messages.
      destruct (W t) as (_ & -> & _). apply mem_page; [by apply StronglySorted_filter|apply Ok..].
    + exists L. split; [|done]. split; [|done]. f_equal. unfold mem_list_events.
      destruct (W t) as (_ & _ & -> & _). rewrite pyslice_first, filter_events_wanted by (cbn in Ok; lia). done.
    + exists L. split; [|done]. split; [|done]. f_equal. unfold mem_list_messages_by_run.
      destruct (W t) as (_ & _ & _ & -> & _). apply mem_page_by_run; [by do 2 apply StronglySorted_filter|done].
    + exists L. split; [|done]. split; [|done]. unfold mem_count_messages.
      by destruct (W t) as (_ & -> & _).
    + destruct (mem_delete_thread_view _ _ _ _ t V) as [E V']. exists (logs_set t [] L).
      split; [|done]. split; [by rewrite E|done].
    + destruct k; [by specialize (De eq_refl)|]. destruct (mem_delete_run_view _ _ _ t r V) as [E V'].
      eexists. split; [|exact V']. split; [by rewrite E|done].
Defined.

(** ** db.py *)

Lemma filter_twice {A} (f g : A -> bool) l :
  List.filter f (List.filter g l) = List.filter (fun e => g e && f e) l.
Proof.
  induction l as [|x l IH]; simpl; [done|]. destruct (g x); simpl; [|done]. destruct (f x); by rewrite IH.
Qed.

Lemma sorted_snoc {A} (R : A -> A -> Prop) l x :
  StronglySorted R (l ++ [x]) -> StronglySorted R l /\ Forall (fun y => R y x) l.
Proof.
  induction l as [|y l IH]; simpl; [by repeat constructor|].
  intros [S F]%StronglySorted_inv. apply Forall_app in F as [F Fx]. apply Forall_cons in Fx as [Fx _].
  destruct (IH S) as [S' F']. by split; constructor.
Qed.

Lemma filter_all {A} (f : A -> bool) l : (forall x, x ∈ l -> f x = true) -> List.filter f l = l.
Proof.
  induction l as [|x l IH]; [done|]. intros H. simpl. rewrite (H x ltac:(left)), IH; [done|].
  intros y Hy. apply H. by right.
Qed.

Lemma after_before m b a l :
  after_ a (before_ b (List.filter m l)) =
  List.filter (fun e => m e && match b with Some b => seq e <? b | None => true end &&
                        match a with Some a => a <? seq e | None => true end) l.
Proof.
  destruct b, a; cbn [after_ before_]; rewrite ?filter_twice; apply filter_ext; intros e _;
    by rewrite ?andb_true_r, ?andb_assoc.
Qed.

(** Queries that see all the rows the user has written: of the user of the
    context, which there is then, or of everybody. *)
Definition reads_own (user : option string) (uid : user_arg) : Prop :=
  match uid with AUTO => is_Some user | given v => v = None \/ v = user end.

Lemma for_user_own user uid : reads_own user uid -> exists v, (v = None \/ v = user) /\
  forall A name (k : option string -> A), for_user user uid name k = Ok (k v).
Proof.
  unfold for_user, reads_own. destruct uid as [|v]; simpl.
  - intros [u ->]. exists (Some u). split; [by right|done].
  - intros H. by exists v.
Qed.

Section db.
Context (as_string : json -> option string) (stored_time : string -> option string).
Context (max_trace_content : Z) (user : option string) (uid : user_arg).
Context (as_string_text : forall s, as_string (JStr s) = Some s).
Context (own : reads_own user uid).

#[local] Instance the_store : RunEventStore (list RunEventRow) :=
db_store as_string stored_time max_trace_content user uid.

(** Events the table gives back as they were put: the content is a text (other
  contents come back flagged, see [db_content]), short enough; the task is
  named by a text; the instant is in the form the column gives back. *)
Definition text_event (now : string) (a : EventArgs) : Prop :=
let m := default [] (a_metadata a) in
(exists s, a_content a = JStr s /\
   (a_category a = "trace" -> Z.of_nat (String.length s) <= max_trace_content)) /\
flag "content_is_json" m = false /\ flag "content_is_dict" m = false /\
(forall v, get "task_id" m = Some v -> exists s, v = JStr s) /\
stored_time (time_or (a_created_at a) now) = Some (time_or (a_created_at a) now).

Definition db_fits (o : op) : Prop :=
match o with
| Put now a => text_event now a
| PutBatch now l => forall a, a ∈ l -> text_event now a
| _ => True
end.

Definition row_ok (r : RunEventRow) : Prop :=
row_user_id r = user /\ forall v, get "task_id" (event_metadata r) = Some v -> exists s, v = JStr s.

Definition db_view (b : Z) (k : bool) (rows : list RunEventRow) (L : logs) : Prop :=
0 <= b /\ Forall row_ok rows /\
forall t, map _row_to_dict (List.filter (in_thread t) rows) = L t /\ log_ok b t (L t).

Lemma new_row_text now n a : text_event now a ->
exists r, new_row stored_time max_trace_content user now n a = Some r /\
  _row_to_dict r = with_owner (Some user) (record_of a n now) /\ row_ok r /\ row_thread_id r = a_thread_id a.
Proof.
intros ((s & C & Tr) & F1 & F2 & T & W). unfold new_row, _truncate_trace. rewrite C. cbn [text_form].
assert ((a_category a =? "trace")%string && (max_trace_content <? Z.of_nat (String.length s)) = false) as ->.
{ destruct (String.eqb_spec (a_category a) "trace") as [E|]; [|done].
  cbn [andb]. specialize (Tr E). destruct (Z.ltb_spec max_trace_content (Z.of_nat (String.length s))); [lia|done]. }
cbn [_content_to_db]. rewrite W. cbn [option_map]. eexists. split; [done|]. split_and!; [|by split|done].
unfold _row_to_dict, record_of. cbn -[default]. rewrite F1, F2, C. done.
Qed.

Lemma max_seq_top rows : StronglySorted (fun x y => row_seq x < row_seq y) rows ->
foldl (fun m r => Some (match m with Some m => Z.max m (row_seq r) | None => row_seq r end)) None rows =
option_map row_seq (last rows).
Proof.
induction rows as [|r rows IH] using rev_ind; [done|]. intros [S F]%sorted_snoc.
rewrite foldl_app, last_snoc, (IH S). cbn. destruct (last rows) as [y|] eqn:E; [|done]. cbn.
apply last_Some_elem_of in E. rewrite Forall_forall in F. specialize (F y E). f_equal. lia.
Qed.

Lemma map_sorted rows : StronglySorted seq_lt (map _row_to_dict rows) ->
StronglySorted (fun x y => row_seq x < row_seq y) rows.
Proof.
induction rows as [|r rows IH]; simpl; [constructor|]. intros [S F]%StronglySorted_inv.
constructor; [auto|]. rewrite Forall_forall. rewrite Forall_forall in F. intros x Hx. apply (F (_row_to_dict x)).
apply list_elem_of_fmap. by exists x.
Qed.

Lemma max_seq_view b k rows L t : db_view b k rows L ->
default 0 (_max_seq_for_thread t rows) = top (L t).
Proof.
intros (Hb & _ & V). destruct (V t) as [E Lo]. unfold _max_seq_for_thread.
rewrite max_seq_top by (apply map_sorted; rewrite E; apply Lo).
rewrite <- E. unfold top. clear. generalize (List.filter (in_thread t) rows) as l. intros l.
destruct l as [|r l _] using rev_ind; [done|]. rewrite map_app. cbn [map]. by rewrite !last_snoc.
Qed.

Lemma in_thread_snoc t rows r :
map _row_to_dict (List.filter (in_thread t) (rows ++ [r])) =
if decide (t = row_thread_id r) then map _row_to_dict (List.filter (in_thread t) rows) ++ [_row_to_dict r]
else map _row_to_dict (List.filter (in_thread t) rows).
Proof.
rewrite List.filter_app, map_app. simpl. unfold in_thread at 2.
destruct (decide (t = row_thread_id r)) as [->|N].
- by rewrite String.eqb_refl.
- destruct (String.eqb_spec (row_thread_id r) t); [congruence|]. apply app_nil_r.
Qed.

Lemma db_append_view b k rows L r a now : db_view b k rows L -> row_ok r ->
_row_to_dict r = with_owner (Some user) (record_of a (top (L (a_thread_id a)) + 1) now) -> row_thread_id r = a_thread_id a ->
put_spec k (Some user) now a (_row_to_dict r) L (logs_put a (_row_to_dict r) L) /\
db_view (b + 1) k (rows ++ [r]) (logs_put a (_row_to_dict r) L).
Proof.
intros (Hb & R & V) Rr E T. split.
{ rewrite E. apply put_spec_intro; [lia|done]. }
split_and!; [lia|by apply Forall_app; split; [|constructor]|].
intros t. rewrite in_thread_snoc, T. destruct (V t) as [Et Lo].
destruct (decide (t = a_thread_id a)) as [->|N].
- rewrite logs_put_same, Et. split; [done|]. rewrite E.
  pose proof (top_bound _ _ _ Hb Lo). apply (log_put b); [done|lia|lia].
- rewrite logs_put_other by done. split; [done|]. apply (log_ok_mono b); [lia|done].
Qed.

Lemma db_put_view b k rows L now a : db_view b k rows L -> text_event now a ->
exists r, db_put stored_time max_trace_content user now a rows = (Ok (_row_to_dict r), rows ++ [r]) /\
  put_spec k (Some user) now a (_row_to_dict r) L (logs_put a (_row_to_dict r) L) /\
  db_view (b + 1) k (rows ++ [r]) (logs_put a (_row_to_dict r) L).
Proof.
intros V T. destruct (new_row_text now (top (L (a_thread_id a)) + 1) a T) as (r & E & Er & Rr & Tr).
exists r. unfold db_put. rewrite (max_seq_view _ _ _ _ _ V), E. split; [done|].
by apply (db_append_view b k rows L r a now).
Qed.

Lemma db_put_batch_view now t l : forall b k rows L, db_view b k rows L ->
(forall a, a ∈ l -> text_event now a /\ a_thread_id a = t) ->
exists rs L', new_rows stored_time max_trace_content user now (top (L t)) l = Some rs /\
  puts_spec k (Some user) now l (map _row_to_dict rs) L L' /\ db_view (b + count l) k (rows ++ rs) L'.
Proof.
induction l as [|a l IH]; intros b k rows L V H.
- exists [], L. rewrite app_nil_r. unfold count. simpl. by rewrite Z.add_0_r.
- destruct (H a ltac:(left)) as [T <-].
  destruct (new_row_text now (top (L (a_thread_id a)) + 1) a T) as (r & E & Er & Rr & Tr).
  destruct (db_append_view b k rows L r a now V Rr Er Tr) as [P V1].
  destruct (IH _ _ _ _ V1) as (rs & L' & Ers & Q & V2); [intros; apply H; by right|].
  rewrite logs_put_same, top_snoc, Er in Ers. cbn [seq record_of with_owner] in Ers.
  exists (r :: rs), L'. cbn [new_rows]. rewrite E, Ers. split; [done|]. split.
  + exists (logs_put a (_row_to_dict r) L). done.
  + replace (b + count (a :: l)) with (b + 1 + count l) by (unfold count; simpl; lia).
    by rewrite <- app_assoc in V2.
Qed.

(** *** Queries *)

Lemma select_view b k rows L t (where_ : RunEventRow -> bool) (p : RunEvent -> bool) :
db_view b k rows L ->
(forall r, r ∈ rows -> row_ok r -> where_ r = in_thread t r && p (_row_to_dict r)) ->
stable_sort row_le (List.filter where_ rows) = List.filter where_ rows /\
map _row_to_dict (List.filter where_ rows) = List.filter p (L t).
Proof.
intros (Hb & R & V) H. destruct (V t) as [E [S _]].
assert (List.filter where_ rows = List.filter (fun r => p (_row_to_dict r)) (List.filter (in_thread t) rows)) as ->.
{ rewrite filter_twice. apply filter_ext. intros r Hr. rewrite Forall_forall in R. by apply H, R. }
split.
- apply stable_sort_id, StronglySorted_filter. rewrite <- E in S. apply map_sorted in S.
  clear -S. induction S as [|x l S IH F]; constructor; [done|]. eapply Forall_impl; [exact F|].
  intros y Hy. cbn in Hy. unfold row_le. apply Z.leb_le. lia.
- rewrite <- E. clear. induction (List.filter (in_thread t) rows) as [|r l IH]; simpl; [done|].
  destruct (p (_row_to_dict r)); simpl; by rewrite IH.
Qed.

Lemma owned_ok v r : v = None \/ v = user -> row_ok r -> owned v r = true.
Proof.
intros H [U _]. destruct H as [-> | ->]; [done|]. unfold owned. destruct user; [by apply bool_decide_eq_true|done].
Qed.

Lemma page_view b k rows L t (where_ : RunEventRow -> bool) (p : RunEvent -> bool) n bf af m :
db_view b k rows L ->
(forall r, r ∈ rows -> row_ok r -> where_ r = in_thread t r && p (_row_to_dict r)) ->
(forall e, p e = m e && match bf with Some b => seq e <? b | None => true end &&
                 match af with Some a => a <? seq e | None => true end) ->
page_rows where_ n af rows = page n bf af (List.filter m (L t)).
Proof.
intros V H P. destruct (select_view _ _ _ _ _ _ _ V H) as [S E]. unfold page. rewrite after_before.
unfold page_rows, select_asc, select_desc. rewrite S.
rewrite (filter_ext p (fun e => m e && _ && _) (L t)) in E by (intros; apply P).
rewrite <- E. destruct af as [a|].
- symmetry. apply firstn_map.
- unfold last_n. rewrite firstn_rev, rev_involutive, length_map. symmetry. apply skipn_map.
Qed.

Lemma of_task_view q r : row_ok r ->
of_task_sql as_string q r = match q with Some k => of_task k (_row_to_dict r) | None => true end.
Proof using as_string_text.
intros [_ T]. destruct q as [k|]; [|done]. unfold of_task_sql, of_task. cbn [metadata _row_to_dict].
destruct (get "task_id" (event_metadata r)) as [v|] eqn:G; [|done].
destruct (T v eq_refl) as [s ->]. rewrite as_string_text.
destruct (String.eqb_spec s k) as [->|N]; [by apply bool_decide_eq_true|].
apply bool_decide_eq_false. congruence.
Qed.

Lemma delete_where_view w rows : (delete_where w rows) =
(count (List.filter w rows), List.filter (fun r => negb (w r)) rows).
Proof.
unfold delete_where, count. f_equal. destruct (Z.ltb_spec 0 (Z.of_nat (length (List.filter w rows)))); [done|].
symmetry. apply filter_all. intros x Hx. destruct (w x) eqn:W; [|done].
assert (x ∈ List.filter w rows) as N by by apply filter_elem.
destruct (List.filter w rows); [by apply elem_of_nil in N|simpl in *; lia].
Qed.

Lemma db_delete_view b k rows L t (where_ : RunEventRow -> bool) (p : RunEvent -> bool) :
db_view b k rows L ->
(forall r, r ∈ rows -> row_ok r -> where_ r = in_thread t r && p (_row_to_dict r)) ->
(delete_where where_ rows).1 = count (List.filter p (L t)) /\
db_view b k (delete_where where_ rows).2 (logs_set t (List.filter (fun e => negb (p e)) (L t)) L).
Proof.
intros V H. destruct (select_view _ _ _ _ _ _ _ V H) as [_ E]. rewrite delete_where_view. cbn [fst snd].
split; [rewrite <- E; unfold count; by rewrite length_map|].
destruct V as (Hb & R & V). split_and!; [done| |].
{ rewrite Forall_forall in *. intros r [Hr _]%filter_elem. by apply R. }
intros t'. unfold logs_set. destruct (V t') as [Et Lo]. rewrite filter_twice.
destruct (decide (t' = t)) as [->|N].
- split; [|by apply log_ok_filter]. rewrite <- Et.
  rewrite (filter_ext _ (fun r => in_thread t r && negb (p (_row_to_dict r)))).
  { rewrite <- filter_twice. clear. induction (List.filter (in_thread t) rows) as [|r l IH]; simpl; [done|].
    destruct (p (_row_to_dict r)); simpl; by rewrite IH. }
  intros r Hr. rewrite Forall_forall in R. rewrite (H r Hr (R r Hr)). destruct (in_thread t r); [|done].
  by rewrite andb_true_r.
- split; [|done]. rewrite <- Et. f_equal. apply filter_ext. intros r Hr.
  rewrite Forall_forall in R. rewrite (H r Hr (R r Hr)).
  destruct (in_thread t' r) eqn:I'; [|by rewrite andb_false_r].
  destruct (in_thread t r) eqn:I; [|done]. unfold in_thread in *. bprop. congruence.
Qed.

Definition db_laws : EventStoreLaws (list RunEventRow).
Proof using as_string_text own.
refine {| stamp := Some user; fits := db_fits; view := db_view |}.
- intros b k s L (_ & _ & V) t. apply V.
- intros b k s L o V Ok Fi De _.
  destruct o; cbn [exec put put_batch list_messages list_events list_messages_by_run count_messages
                    delete_by_thread delete_by_run the_store db_store ok_fst fst snd answer puts] in *;
    rewrite ?Z.add_0_r.
  + destruct (db_put_view _ _ _ _ now a V Fi) as (r & E & P & V'). rewrite E. eexists. split; [|exact V'].
    by eexists.
  + destruct l as [|a l].
    { exists L. split; [by exists []|]. unfold count. cbn. by rewrite Z.add_0_r. }
    destruct (db_put_batch_view now (a_thread_id a) (a :: l) b k s L V) as (rs & L' & E & P & V').
    { intros x Hx. split; [by apply Fi|]. apply Ok; [done|left]. }
    unfold db_put_batch. rewrite (max_seq_view _ _ _ _ _ V), E.
    assert (forallb (fun x => (a_thread_id x =? a_thread_id a)%string) (a :: l) = true) as ->.
    { apply forallb_forall. intros x Hx%list_elem_of_In. apply String.eqb_eq. apply Ok; [done|left]. }
    exists L'. split; [|exact V']. by eexists.
  + exists L. split; [|done]. split; [|done]. unfold db_list_messages.
    destruct (for_user_own _ _ own) as (v & Hv & R). rewrite R. cbn [answer]. f_equal.
    eapply page_view; [exact V| |by intros e; reflexivity].
    intros r _ Rr. rewrite (owned_ok v r Hv Rr). cbn. unfold is_message, below, beyond, a_message. cbn.
    by rewrite ?andb_true_r, !andb_assoc.
  + exists L. split; [|done]. split; [|done]. unfold db_list_events, select_asc.
    destruct (for_user_own _ _ own) as (v & Hv & R). rewrite R. cbn [answer]. f_equal.
    destruct (select_view b k s L t (fun r0 => in_thread t r0 && in_run r r0 && owned v r0 &&
      of_types_sql (q_types q) r0 && of_task_sql as_string (q_task q) r0 && beyond (q_after q) r0)
      (fun e => of_run r e && wanted q e) V) as [-> E].
    { intros r0 _ Rr. rewrite (owned_ok v r0 Hv Rr), (of_task_view _ _ Rr). unfold wanted, of_run, in_run, beyond. cbn.
      destruct (q_types q) as [[|y ts]|] eqn:Q; [by destruct (proj2 Ok)|..]; cbn [of_types_sql of_type];
      by rewrite ?andb_true_r, ?andb_true_l, !andb_assoc. }
    rewrite <- firstn_map, E, filter_twice. done.
  + exists L. split; [|done]. split; [|done]. unfold db_list_messages_by_run.
    destruct (for_user_own _ _ own) as (v & Hv & R). rewrite R. cbn [answer]. f_equal.
    rewrite filter_twice. eapply page_view; [exact V| |by intros e; reflexivity].
    intros r0 _ Rr. rewrite (owned_ok v r0 Hv Rr). cbn. unfold is_message, below, beyond, a_message, in_run, of_run. cbn.
    by rewrite ?andb_true_r, !andb_assoc.
  + exists L. split; [|done]. split; [|done]. unfold db_count_messages.
    destruct (for_user_own _ _ own) as (v & Hv & R). rewrite R. cbn [answer]. f_equal.
    destruct (select_view b k s L t (fun r => in_thread t r && a_message r && owned v r) is_message V) as [_ E].
    { intros r _ Rr. rewrite (owned_ok v r Hv Rr). by rewrite andb_true_r. }
    rewrite <- E. unfold count. by rewrite length_map.
  + unfold db_delete_by_thread, deletion. destruct (for_user_own _ _ own) as (v & Hv & R). rewrite R.
    destruct (db_delete_view b k s L t (fun r => in_thread t r && owned v r) (fun _ => true) V) as [E V'].
    { intros r _ Rr. by rewrite (owned_ok v r Hv Rr). }
    destruct (delete_where _ s) as [c s']. cbn [fst snd] in *. eexists. split; [|exact V']. cbn [fst snd answer]. rewrite E. split.
    * by rewrite filter_all.
    * intros t'. unfold logs_set. by rewrite (filter_none (fun _ => negb true)).
  + unfold db_delete_by_run, deletion. destruct (for_user_own _ _ own) as (v & Hv & R). rewrite R.
    destruct (db_delete_view b k s L t (fun r0 => in_thread t r0 && in_run r r0 && owned v r0) (of_run r) V) as [E V'].
    { intros r0 _ Rr. rewrite (owned_ok v r0 Hv Rr). by rewrite andb_true_r. }
    destruct (delete_where _ s) as [c s']. cbn [fst snd] in *. eexists. split; [|exact V']. cbn [fst snd answer]. by rewrite E.
Defined.

End db.

(** ** jsonl.py *)

Lemma pretty_go_size k : forall x s, (x < 10 ^ N.of_nat k)%N ->
  (String.length (pretty_N_go x s) <= k + String.length s)%nat.
Proof.
  induction k as [|k IH]; intros x s H.
  - assert (x = 0%N) as -> by (cbn in H; lia). by rewrite pretty_N_go_0.
  - destruct (decide (x = 0%N)) as [->|N]; [rewrite pretty_N_go_0; lia|].
    rewrite pretty_N_go_step by lia. etransitivity; [apply IH|cbn; lia].
    apply N.Div0.div_lt_upper_bound. rewrite <- N.pow_succ_r'. by rewrite <- Nat2N.inj_succ.
Qed.

Lemma seq_written n : 0 < n < seq_bound -> written (JInt n) = true.
Proof.
  intros H. cbn. apply Z.leb_le. rewrite Z.abs_eq by lia.
  destruct n as [|p|p]; [lia| |lia]. change (pretty (Z.pos p)) with (pretty (Npos p)).
  unfold pretty, pretty_N. rewrite decide_False by done.
  pose proof (pretty_go_size 19 (Npos p) "") as K. cbn [String.length] in K.
  assert (N.pos p < 10 ^ N.of_nat 19)%N; [|specialize (K ltac:(done)); lia].
  unfold seq_bound in H. change (10 ^ N.of_nat 19)%N with 10000000000000000000%N. lia.
Qed.

(** An event whose record is one readable line. *)
Definition storable (e : RunEvent) : bool :=
  written (event_json e) && unbroken_json (event_json e) && bool_decide (owner e = None).

Definition storable_args (now : string) (a : EventArgs) : bool := storable (record_of a 0 now).

Lemma storable_seq now a n : storable_args now a = true -> 0 < n < seq_bound -> storable (record_of a n now) = true.
Proof.
  unfold storable_args, storable. intros [[W U]%andb_true_iff _]%andb_true_iff Hn.
  rewrite !andb_true_iff. split; [split; [|exact U]|done].
  pose proof (seq_written n Hn) as S. unfold event_json in *. cbn [written forallb fst snd] in *.
  cbn [record_of seq thread_id run_id event_type category content metadata created_at] in *.
  cbn [written] in S. rewrite S. exact W.
Qed.

Lemma event_of_json e : storable e = true -> event_of (event_json e) = Some e.
Proof. unfold storable. intros [_ O%bool_decide_eq_true]%andb_true_iff. destruct e. simpl in *. by subst. Qed.

Definition file_of (l : list RunEvent) : string := foldl write_line "" (map event_json l).

Lemma file_events_of l : Forall (fun e => storable e = true) l -> file_events (file_of l) = l.
Proof.
  intros F. unfold file_events, file_of. rewrite json_lines_write.
  - induction l as [|e l IH]; [done|]. cbn [map omap list_omap]. apply Forall_cons in F as [Fe F].
    rewrite event_of_json by done. f_equal. by apply IH.
  - intros j (e & -> & He)%list_elem_of_fmap. rewrite Forall_forall in F.
    specialize (F e He). by apply andb_true_iff in F as [F _].
Qed.

Lemma group_run names e (F : string -> list RunEvent) : NoDup names -> run_id e ∈ names ->
  concat (map (fun r => if of_run r e then e :: F r else F r) names) ≡ₚ e :: concat (map F names).
Proof.
  induction names as [|r names IH]; intros Nd He; [by apply elem_of_nil in He|].
  apply NoDup_cons in Nd as [Nr Nd]. cbn [map concat]. unfold of_run at 1.
  destruct (String.eqb_spec (run_id e) r) as [<-|N].
  - cbn [app]. constructor. apply Permutation_app_head.
    assert (map (fun r => if of_run r e then e :: F r else F r) names = map F names) as ->; [|done].
    apply map_ext_in. intros r Hr. unfold of_run. destruct (String.eqb_spec (run_id e) r) as [<-|]; [|done].
    by apply list_elem_of_In in Hr.
  - apply elem_of_cons in He as [E|He]; [congruence|]. rewrite (IH Nd He). by rewrite Permutation_middle.
Qed.

Lemma group_runs names l : NoDup names -> (forall e, e ∈ l -> run_id e ∈ names) ->
  concat (map (fun r => List.filter (of_run r) l) names) ≡ₚ l.
Proof.
  intros Nd. induction l as [|e l IH]; intros H.
  - clear. induction names as [|r names IH]; [done|]. exact IH.
  - cbn [List.filter]. rewrite (group_run names e (fun r => List.filter (of_run r) l)).
    + constructor. apply IH. intros x Hx. apply H. by right.
    + done.
    + apply H. left.
Qed.

Lemma fold_max_spec l : forall m, let M := foldl (fun m e => Z.max m (seq e)) m l in
  m <= M /\ (forall e, e ∈ l -> seq e <= M) /\ (M = m \/ exists e, e ∈ l /\ seq e = M).
Proof.
  induction l as [|e l IH]; intros m; cbn zeta; cbn [foldl].
  - split_and!; [lia| |by left]. intros e He. by apply elem_of_nil in He.
  - destruct (IH (Z.max m (seq e))) as (A & B & C). split_and!; [lia| |].
    + intros x [->|Hx]%elem_of_cons; [lia|by apply B].
    + destruct C as [C|(x & Hx & C)]; [|right; exists x; split; [by right|done]].
      rewrite C. destruct (Z.max_spec m (seq e)) as [[? ->]|[? ->]]; [right|by left].
      exists e. split; [left|done].
Qed.

Lemma max_of_log b t l l' : 0 <= b -> log_ok b t l -> l' ≡ₚ l ->
  foldl (fun m e => Z.max m (seq e)) 0 l' = top l.
Proof.
  intros Hb Lo P. destruct (fold_max_spec l' 0) as (A & B & C). set (M := foldl _ 0 l') in *.
  pose proof (top_bound b t l Hb Lo) as T.
  assert (top l <= M).
  { unfold top in *. destruct (last l) as [e|] eqn:E; [|lia].
    apply B. rewrite P. by apply last_Some_elem_of. }
  destruct C as [C|(e & He & C)]; [lia|]. rewrite P in He. pose proof (top_ge _ _ _ _ Lo He). lia.
Qed.

Lemma sort_log b t l l' : log_ok b t l -> l' ≡ₚ l -> stable_sort seq_le l' = l.
Proof.
  intros [S F] P.
  assert (StronglySorted (fun x y => seq_le x y = true) (stable_sort seq_le l')) as S1.
  { apply stable_sort_sorted; unfold seq_le.
    - intros x y. destruct (Z.le_ge_cases (seq x) (seq y)); [left|right]; apply Z.leb_le; lia.
    - intros x y z H1 H2. bprop. apply Z.leb_le. lia. }
  assert (StronglySorted (fun x y => seq_le x y = true) l) as S2.
  { clear -S. induction S as [|x l S IH G]; constructor; [done|]. eapply Forall_impl; [exact G|].
    intros y Hy. unfold seq_lt in Hy. apply Z.leb_le. lia. }
  assert (forall x y, x ∈ l -> y ∈ l -> seq x = seq y -> x = y) as Inj.
  { clear -S. induction S as [|e l S IH G]; intros x y Hx Hy E; [by apply elem_of_nil in Hx|].
    rewrite Forall_forall in G.
    apply elem_of_cons in Hx as [->|Hx]; apply elem_of_cons in Hy as [->|Hy]; [done| | |by apply IH].
    - specialize (G y Hy). unfold seq_lt in G. lia.
    - specialize (G x Hx). unfold seq_lt in G. lia. }
  eapply StronglySorted_unique_strong; [|exact S1|exact S2|by rewrite stable_sort_perm].
  intros x y Hx Hy H1 H2. rewrite stable_sort_perm, P in Hx. unfold seq_le in *. bprop.
  apply Inj; [done|done|lia].
Qed.

Definition jsonl_view (b : Z) (k : bool) (s : JsonlRunEventStore) (L : logs) : Prop :=
  0 <= b /\ forall t,
    (forall r, default "" (files s !! (t, r)) = file_of (List.filter (of_run r) (L t))) /\
    log_ok b t (L t) /\ Forall (fun e => storable e = true) (L t) /\
    match j_counters s !! t with
    | Some c => top (L t) <= c <= b /\ (k = true -> c = top (L t))
    | None => True
    end.

Definition new_jsonl_store : JsonlRunEventStore := {| files := ∅; j_counters := ∅ |}.

Lemma jsonl_view_new k : jsonl_view 0 k new_jsonl_store no_logs.
Proof.
  split; [lia|]. intros t. cbn -[file_of]. rewrite lookup_empty. split_and!; [|apply log_ok_nil|done|done].
  intros r. by rewrite lookup_empty.
Qed.

Lemma storable_filter f l : Forall (fun e => storable e = true) l ->
  Forall (fun e => storable e = true) (List.filter f l).
Proof. rewrite !Forall_forall. intros H e [He _]%filter_elem. by apply H. Qed.

Lemma read_run_view b k s L t r : jsonl_view b k s L ->
  _read_run_events t r s = List.filter (of_run r) (L t).
Proof.
  intros [Hb V]. destruct (V t) as (F & Lo & St & _). unfold _read_run_events.
  rewrite F, file_events_of by by apply storable_filter.
  apply (sort_log b t); [by apply log_ok_filter|done].
Qed.

Lemma run_files_elem t s r x : (r, x) ∈ run_files t s <-> files s !! (t, r) = Some x.
Proof.
  unfold run_files. rewrite merge_sort_Permutation, list_elem_of_omap. split.
  - intros ([[t' r'] x'] & Hin & E). apply elem_of_map_to_list in Hin. cbn in E.
    destruct (String.eqb_spec t' t) as [->|]; [|done]. by simplify_eq.
  - intros H. exists ((t, r), x). split; [by apply elem_of_map_to_list|]. cbn. by rewrite String.eqb_refl.
Qed.

Lemma run_files_nodup t s : NoDup (map fst (run_files t s)).
Proof.
  unfold run_files. rewrite merge_sort_Permutation. pose proof (NoDup_fst_map_to_list (files s)) as N.
  induction (map_to_list (files s)) as [|[[t' r'] x'] l IH]; [constructor|].
  apply NoDup_cons in N as [N1 N2]. cbn [omap list_omap]. cbn [fst snd].
  destruct (String.eqb_spec t' t) as [->|]; [|by apply IH]. cbn. apply NoDup_cons. split; [|by apply IH].
  intros ([r'' x] & E & H)%list_elem_of_fmap. cbn in E. subst r''.
  apply list_elem_of_omap in H as ([[t1 r1] x1] & H & E). cbn in E.
  destruct (String.eqb_spec t1 t) as [->|]; [|done]. simplify_eq. destruct N1.
  apply list_elem_of_fmap. eexists. by split; [|exact H].
Qed.

(** The files of a thread hold its log, grouped by run. *)
Lemma thread_files_view b k s L t : jsonl_view b k s L ->
  concat (map (fun f => file_events f.2) (run_files t s)) ≡ₚ L t.
Proof.
  intros [Hb V]. destruct (V t) as (F & Lo & St & _).
  assert (map (fun f => file_events f.2) (run_files t s) =
          map (fun r => List.filter (of_run r) (L t)) (map fst (run_files t s))) as ->.
  { rewrite map_map. apply map_ext_in. intros [r x] Hin%list_elem_of_In%run_files_elem. cbn [fst snd].
    specialize (F r). rewrite Hin in F. cbn [from_option id] in F. rewrite F.
    apply file_events_of. by apply storable_filter. }
  apply group_runs; [apply run_files_nodup|]. intros e He.
  destruct (files s !! (t, run_id e)) as [x|] eqn:E.
  - apply list_elem_of_fmap. exists (run_id e, x). split; [done|]. by apply run_files_elem.
  - specialize (F (run_id e)). rewrite E in F. cbn [from_option id] in F.
    assert (file_events (file_of (List.filter (of_run (run_id e)) (L t))) = []) as N by by rewrite <- F.
    rewrite file_events_of in N by by apply storable_filter.
    assert (e ∈ List.filter (of_run (run_id e)) (L t)) as H.
    { apply filter_elem. split; [done|]. unfold of_run. apply String.eqb_refl. }
    rewrite N in H. by apply elem_of_nil in H.
Qed.

Lemma read_thread_view b k s L t : jsonl_view b k s L -> _read_thread_events t s = L t.
Proof.
  intros V. unfold _read_thread_events. destruct V as [Hb V]. destruct (V t) as (_ & Lo & _).
  apply (sort_log b t); [done|]. apply (thread_files_view b k). by split.
Qed.

Lemma max_seq_files b k s L t : jsonl_view b k s L -> _compute_max_seq t s = top (L t).
Proof.
  intros V. unfold _compute_max_seq. apply (max_of_log b t); [apply V|apply V|].
  by apply (thread_files_view b k).
Qed.

Lemma validate_ok s : safe_id s = true -> _validate_id s = Ok tt.
Proof. intros H. unfold _validate_id. by rewrite H. Qed.

Lemma file_of_snoc l e : write_line (file_of l) (event_json e) = file_of (l ++ [e]).
Proof. unfold file_of. by rewrite map_app, foldl_app. Qed.

Definition jsonl_event_fits (now : string) (a : EventArgs) : Prop :=
  safe_id (a_thread_id a) = true /\ safe_id (a_run_id a) = true /\ storable_args now a = true.

Definition jsonl_fits (o : op) : Prop :=
  match o with
  | Put now a => jsonl_event_fits now a
  | PutBatch now l => forall a, a ∈ l -> jsonl_event_fits now a
  | ListMessages t _ _ _ | CountMessages t | DeleteByThread t => safe_id t = true
  | ListEvents t r _ | ListMessagesByRun t r _ _ _ | DeleteByRun t r => safe_id t = true /\ safe_id r = true
  end.

Lemma jsonl_put_view b k s L now a : jsonl_view b k s L -> jsonl_event_fits now a -> b + 1 < seq_bound ->
  exists e s' L', jsonl_put now a s = (Ok e, s') /\ put_spec k None now a e L L' /\ jsonl_view (b + 1) k s' L'.
Proof.
  intros V (St & Sr & Sa) B. unfold jsonl_put, _ensure_seq_loaded. set (t := a_thread_id a) in *.
  set (c := match j_counters s !! t with Some c => c | None => top (L t) end).
  assert (exists s1, match j_counters s !! t with
      | Some _ => (Ok tt, s)
      | None => match _validate_id t with
                | Ok _ => (Ok tt, with_counter t (_compute_max_seq t s) s)
                | Raise e => (Raise e, s) end
      end = (Ok tt, s1) /\ files s1 = files s /\ default 0 (j_counters s1 !! t) = c /\
      (forall t', t' <> t -> j_counters s1 !! t' = j_counters s !! t')) as (s1 & -> & F1 & C1 & O1).
  { unfold c. destruct (j_counters s !! t) as [c0|] eqn:E.
    - exists s. by rewrite E.
    - rewrite validate_ok by done. eexists. split_and!; [done|done| |].
      + cbn. rewrite lookup_insert_eq. cbn. by rewrite (max_seq_files b k s L).
      + intros t' N. cbn. by rewrite lookup_insert_ne. }
  rewrite C1. rewrite !validate_ok by done. cbn [rbind]. set (n := c + 1). set (e := record_of a n now).
  destruct V as [Hb V]. destruct (V t) as (F & Lo & Sl & C).
  pose proof (top_bound b t (L t) Hb Lo) as Tb.
  assert (top (L t) <= c <= b /\ (k = true -> c = top (L t))) as [Cb Ck].
  { unfold c. destruct (j_counters s !! t); [done|]. split; [lia|done]. }
  exists e. eexists. exists (logs_put a e L). split; [done|]. split.
  { apply (put_spec_intro _ None _ _ n); fold t; [unfold n; lia|]. intros K. unfold n. rewrite (Ck K). lia. }
  split; [lia|]. intros t'. unfold _write_record, with_counter. cbn [files j_counters].
  change (thread_id e) with t. change (run_id e) with (a_run_id a). rewrite F1.
  pose proof (logs_put_same a e L : logs_put a e L t = L t ++ [e]) as LP.
  assert (storable e = true) as Se by (apply storable_seq; [done|unfold n; lia]).
  destruct (decide (t' = t)) as [->|N].
  - rewrite !LP, lookup_insert_eq. split_and!.
    + intros r. rewrite List.filter_app. cbn [List.filter]. unfold of_run at 2. change (run_id e) with (a_run_id a).
      destruct (String.eqb_spec (a_run_id a) r) as [<-|Nr].
      * rewrite lookup_insert_eq. cbn [from_option id]. rewrite F. apply file_of_snoc.
      * rewrite lookup_insert_ne by congruence. rewrite F. by rewrite app_nil_r.
    + apply (log_put b _ None _ n); [done|lia|unfold n; lia].
    + apply Forall_app. split; [done|by constructor].
    + rewrite top_snoc. unfold e. cbn [seq record_of]. unfold n. lia.
    + unfold n. lia.
    + intros _. by rewrite top_snoc.
  - rewrite logs_put_other by done. destruct (V t') as (F' & Lo' & Sl' & C').
    rewrite lookup_insert_ne, O1 by done. split_and!; [|by apply (log_ok_mono b); [lia|]|done|].
    + intros r. rewrite lookup_insert_ne by congruence. apply F'.
    + destruct (j_counters s !! t'); [|done]. split; [lia|apply C'].
Qed.

Lemma jsonl_put_batch_view now l : forall b k s L, jsonl_view b k s L ->
  (forall a, a ∈ l -> jsonl_event_fits now a) -> b + count l < seq_bound ->
  exists es s' L', jsonl_put_batch now l s = (Ok es, s') /\ puts_spec k None now l es L L' /\
    jsonl_view (b + count l) k s' L'.
Proof.
  induction l as [|a l IH]; intros b k s L V H B.
  - exists [], s, L. unfold count. cbn. by rewrite Z.add_0_r.
  - assert (count (a :: l) = 1 + count l) as Ec by (unfold count; cbn; lia).
    assert (0 <= count l) by (unfold count; lia).
    destruct (jsonl_put_view b k s L now a V) as (e & s1 & L1 & E & P & V1); [apply H; left|lia|].
    destruct (IH _ _ _ _ V1) as (es & s2 & L2 & E2 & Q & V2); [intros; apply H; by right|lia|].
    exists (e :: es), s2, L2. cbn [jsonl_put_batch]. rewrite E, E2. split; [done|]. split; [by exists L1|].
    by replace (b + count (a :: l)) with (b + 1 + count l) by lia.
Qed.

#[export] Instance jsonl_laws : EventStoreLaws JsonlRunEventStore.
Proof.
  refine {| stamp := None; fits := jsonl_fits; view := jsonl_view |}.
  - intros b k s L [_ V] t. apply V.
  - intros b k s L o V Ok_ Fi De B. pose proof V as [Hb W].
    destruct o; cbn [exec put put_batch list_messages list_events list_messages_by_run count_messages
                      delete_by_thread delete_by_run jsonl_store fst snd puts jsonl_fits] in *;
      rewrite ?Z.add_0_r.
    + destruct (jsonl_put_view _ _ _ _ now a V Fi B) as (e & s' & L' & -> & P & V'). exists L'.
      split; [by eexists|done].
    + destruct (jsonl_put_batch_view now l _ _ _ _ V Fi B) as (es & s' & L' & -> & P & V'). exists L'.
      split; [by eexists|done].
    + exists L. split; [|done]. split; [|done]. unfold jsonl_list_messages. rewrite validate_ok by done.
      cbn [rbind]. rewrite (read_thread_view b k s L t V). unfold page. destruct Ok_ as [Hn Hc].
      destruct b0 as [x|], a as [y|]; cbn [after_ before_]; [by destruct Hc|..];
        rewrite ?pyslice_last, ?pyslice_first by lia; done.
    + exists L. split; [|done]. split; [|done]. unfold jsonl_list_events.
      rewrite !validate_ok by apply Fi. cbn [rbind]. rewrite (read_run_view b k s L t r V).
      rewrite pyslice_first, filter_events_wanted by (cbn in Ok_; lia). done.
    + exists L. split; [|done]. split; [|done]. unfold jsonl_list_messages_by_run.
      rewrite !validate_ok by apply Fi. cbn [rbind]. rewrite (read_run_view b k s L t r V). cbv zeta.
      unfold page. cbn in Ok_. fold (before_ b0 (List.filter is_message (List.filter (of_run r) (L t)))).
      destruct a as [y|]; cbn [after_ answer].
      * by rewrite pyslice_first by lia.
      * f_equal. set (X := before_ b0 _).
        destruct (Z.ltb_spec limit (Z.of_nat (length X))); [by rewrite pyslice_last|]. unfold last_n.
        assert ((length X - Z.to_nat limit)%nat = 0%nat) as -> by lia. by rewrite drop_0.
    + exists L. split; [|done]. split; [|done]. unfold jsonl_count_messages. rewrite validate_ok by done.
      cbn [rbind answer]. by rewrite (read_thread_view b k s L t V).
    + unfold jsonl_delete_by_thread. rewrite validate_ok by done. cbn [answer fst snd].
      exists (logs_set t [] L). split; [split; [by rewrite (read_thread_view b k s L t V)|done]|].
      split; [done|]. intros t'. unfold logs_set. cbn [files j_counters].
      destruct (decide (t' = t)) as [->|N].
      * rewrite lookup_delete_eq. split_and!; [|apply log_ok_nil|done|done].
        intros r. rewrite map_lookup_filter. destruct (files s !! (t, r)); cbn; [|done].
        by rewrite option_guard_False by naive_solver.
      * rewrite lookup_delete_ne by done. destruct (W t') as (F & R). split; [|exact R].
        intros r. rewrite <- F, map_lookup_filter. destruct (files s !! (t', r)); cbn; [|done].
        by rewrite option_guard_True.
    + destruct k; [by specialize (De eq_refl)|]. unfold jsonl_delete_by_run.
      rewrite !validate_ok by apply Fi. cbn [rbind answer fst snd].
      exists (logs_set t (List.filter (fun e => negb (of_run r e)) (L t)) L).
      split; [split; [by rewrite (read_run_view b false s L t r V)|done]|].
      split; [done|]. intros t'. unfold logs_set. cbn [files j_counters].
      destruct (decide (t' = t)) as [->|N].
      * destruct (W t) as (F & Lo & Sl & C). split_and!; [|by apply log_ok_filter|by apply storable_filter|].
        { intros r'. destruct (decide (r' = r)) as [->|Nr].
          - rewrite lookup_delete_eq, filter_run_removed. done.
          - rewrite lookup_delete_ne by congruence. by rewrite F, filter_run_kept. }
        destruct (j_counters s !! t) as [c|]; [|done]. split; [|done].
        pose proof (top_filter b t (fun e => negb (of_run r e)) (L t) Hb Lo). lia.
      * destruct (W t') as (F & R). split; [|exact R]. intros r'.
        rewrite lookup_delete_ne by congruence. apply F.
Defined.

(** ** The contract *)

(** The answers of the contract, on logs numbered upwards whose records have the
    [user_id] key [u]. *)
Definition keeps_contract (k : bool) (u : option (option string)) (l : list op) (outs : list output) : Prop :=
  exists L, spec_run k u no_logs l outs L /\ forall t, StronglySorted seq_lt (L t).

Lemma store_keeps_contract {St} `{EventStoreLaws St} k l s :
  view 0 k s no_logs -> Forall op_ok l -> Forall fits l ->
  (k = true -> Forall (fun o => deletes_run o = false) l) -> sumZ puts l < seq_bound ->
  keeps_contract k stamp l (exec_all l s).1.
Proof.
  intros V Ok_ Fi De B. destruct (exec_all_simulates l 0 k s no_logs V Ok_ Fi De B) as (L & R & V').
  exists L. split; [done|]. intros t. by apply (view_log _ _ _ _ V').
Qed.

Lemma db_view_new user k : db_view user 0 k [] no_logs.
Proof. split_and!; try done. intros t. split; [done|apply log_ok_nil]. Qed.

Section stores.
Context (as_string : json -> option string) (stored_time : string -> option string).
Context (max_trace_content : Z) (user : option string) (uid : user_arg).

(** A new store of each kind, and its answers to a sequence of calls. *)
Definition memory_answers (l : list op) : list output := (exec_all l new_memory_store).1.
Definition jsonl_answers (l : list op) : list output := (exec_all l new_jsonl_store).1.
Definition db_answers (l : list op) : list output :=
(@exec_all _ (db_store as_string stored_time max_trace_content user uid) l []).1.



(** Without a user the queries of the table raise, though events can be put. *)
Lemma no_user_no_answer (l : list RunEventRow) t :
user = None -> uid = AUTO ->
exists m, db_count_messages user uid t l = Raise (Exn RuntimeError m).
Proof. intros -> ->. by eexists. Qed.

(** A content that is not a text comes back from the table as it was, flagged
  as JSON. *)
Lemma db_content now n a r : written (a_content a) = true -> (forall s, a_content a <> JStr s) ->
a_category a <> "trace" ->
new_row stored_time max_trace_content user now n a = Some r ->
content (_row_to_dict r) = a_content a /\ flag "content_is_json" (metadata (_row_to_dict r)) = true.
Proof.
intros W N T. unfold new_row, _truncate_trace.
destruct (String.eqb_spec (a_category a) "trace") as [|_]; [done|]. cbn [andb].
assert (forall k d, flag k (set_key k (JBool true) d) = true) as K1.
{ intros k d. unfold flag, set_key. destruct (get k d) as [v|] eqn:G.
  - unfold get in *. clear -G. induction d as [|[k' w] d IH]; [done|]. cbn in *.
    destruct (String.eqb_spec k' k) as [->|]; cbn; rewrite ?String.eqb_refl; [done|].
    destruct (String.eqb_spec k' k); [done|]. by apply IH.
  - unfold get in *. rewrite find_app. destruct (List.find _ d); [done|]. cbn. by rewrite String.eqb_refl. }
assert (forall d, flag "content_is_json" (set_key "content_is_dict" (JBool true) d) = flag "content_is_json" d) as K2.
{ intros d. unfold flag, set_key. destruct (get "content_is_dict" d) as [v|].
  - unfold get. clear. induction d as [|[k w] d IH]; [done|]. cbn.
    destruct (String.eqb_spec k "content_is_dict") as [->|]; cbn; [done|].
    destruct (String.eqb_spec k "content_is_json"); [done|]. exact IH.
  - unfold get. rewrite find_app. by destruct (List.find _ d). }
destruct (stored_time _) as [w|]; [|by destruct (_content_to_db _ _)].
set (m := default [] (a_metadata a)). intros H.
assert (exists m', _content_to_db (a_content a) m = (dumps_text (a_content a), m') /\
          flag "content_is_json" m' = true) as (m' & E & F).
{ unfold _content_to_db. destruct (a_content a) eqn:C; try (eexists; split; [done|apply K1]).
  - by destruct (N s).
  - eexists. split; [done|]. by rewrite K2. }
rewrite E in H. cbn [option_map] in H. simplify_eq. unfold _row_to_dict. cbn [content metadata event_metadata row_content].
rewrite F. cbn [orb]. by rewrite loads_dumps.
Qed.

End stores.

(** ** On concrete calls *)

Definition demo_args (run category text : string) : EventArgs :=
  {| a_thread_id := "t1"; a_run_id := run; a_event_type := "ai_message"; a_category := category;
     a_content := JStr text; a_metadata := Some [("task_id", JStr "k1")]; a_created_at := None |}.

Definition noon : string := "2026-01-01T12:00:00+00:00".

Definition demo_ops : list op :=
  [Put noon (demo_args "r1" "message" "hello");
   PutBatch noon [demo_args "r2" "trace" "step"; demo_args "r2" "message" "world"];
   ListMessages "t1" 1 None (Some 1);
   ListEvents "t1" "r2" {| q_types := Some ["ai_message"]; q_task := Some "k1"; q_limit := 5; q_after := None |};
   ListMessagesByRun "t1" "r2" 10 (Some 9) (Some 0);
   CountMessages "t1"; DeleteByThread "t1"; CountMessages "t1"].

Definition text_only (v : json) : option string := match v with JStr s => Some s | _ => None end.

Lemma demo_ok : Forall op_ok demo_ops /\ Forall (fun o => deletes_run o = false) demo_ops /\
  Forall jsonl_fits demo_ops /\ Forall (db_fits Some 100) demo_ops.
Proof.
  assert (forall run category text, category = "message" \/ String.length text = 4%nat ->
            text_event Some 100 noon (demo_args run category text)) as T.
  { intros run category text H. split_and!; try done.
    - exists text. split; [done|]. cbn. intros ->. by destruct H as [ | ->].
    - intros v [= <-]. by eexists. }
  split_and!.
  - repeat constructor; cbn; try lia; try done; try (by right); try (by left).
    intros x y Hx Hy. repeat (apply elem_of_cons in Hx as [-> | Hx]); try by apply elem_of_nil in Hx.
    all: repeat (apply elem_of_cons in Hy as [-> | Hy]; [done|]); by apply elem_of_nil in Hy.
  - by repeat constructor.
  - repeat apply Forall_cons_2; try apply Forall_nil_2.
    2: { intros a Ha.
         repeat (apply elem_of_cons in Ha as [-> | Ha]; [unfold jsonl_event_fits; split_and!; vm_compute; reflexivity|]).
         by apply elem_of_nil in Ha. }
    all: cbn [jsonl_fits]; try unfold jsonl_event_fits; repeat apply conj; vm_compute; reflexivity.
  - repeat (apply Forall_cons; split); try exact I; [apply T; by left| |constructor].
    intros a Ha. repeat (apply elem_of_cons in Ha as [-> | Ha]; [apply T; (by left) || by right|]).
    by apply elem_of_nil in Ha.
Qed.



Example demo_numbers :
  map (fun x => match x with Stored l | Listed l => map seq l | Number n => [n] | Failed _ => [] end)
      (memory_answers demo_ops) = [[1]; [2; 3]; [3]; [2; 3]; [3]; [2]; [3]; [0]].
Proof. vm_compute. reflexivity. Qed.

(** A text with a line separator: the event is stored, and lost to every
    reader of its file. *)
Lemma jsonl_loses_event :
  let l := [Put noon (demo_args "r1" "message" ("a" +:+ bytes [0xe2; 0x80; 0xa8]%N +:+ "b")); CountMessages "t1"] in
  map (fun x => match x with Number n => n | _ => -1 end) (jsonl_answers l) = [-1; 0] /\
  map (fun x => match x with Number n => n | _ => -1 end) (memory_answers l) = [-1; 1].
Proof. vm_compute. split; reflexivity. Qed.

(** After the newest run of a thread is deleted the table gives its number
    again; the memory store does not. *)
Lemma db_reuses_number :
  let l := [Put noon (demo_args "r1" "message" "a"); DeleteByRun "t1" "r1"; Put noon (demo_args "r2" "message" "b")] in
  let numbers := map (fun x => match x with Stored es => map seq es | _ => [] end) in
  numbers (memory_answers l) = [[1]; []; [2]] /\ numbers (db_answers text_only Some 100 None (given None) l) = [[1]; []; [1]].
Proof. vm_compute. split; reflexivity. Qed.

End EventStores.
