(* ===== verification/ToolCalls.v ===== *)
(** * Repair of dangling tool calls

    [deerflow/agents/middlewares/dangling_tool_call_middleware.py]: before a
    model call the conversation is rearranged so that every tool call of an
    assistant message is answered right behind it, with a synthetic error where
    the result never came. *)
From S2P Require Import Prelude Json Errors Text Slices JsonText.
Import Json Text JsonText.

Module ToolCalls.

(** A tool message: the id it answers, its name, and the rest of it. *)
Record ToolMessage := {
  tool_call_id : string;
  tool_name : json;
  tool_content : json;
  tool_rest : json
}.

(** An assistant message: its structured calls, the payload of the provider,
    the calls that did not parse, and the rest of it. *)
Record AIMessage := {
  tool_calls : list json;
  additional_kwargs : dict;
  invalid_tool_calls : list json;
  ai_rest : json
}.

Inductive message := AI (m : AIMessage) | Tool (t : ToolMessage) | Other (j : json).

#[export] Instance message_eq_dec : EqDecision message.
Proof.
  assert (EqDecision ToolMessage) by solve_decision. assert (EqDecision AIMessage) by solve_decision.
  solve_decision.
Defined.

Definition _MAX_RECOVERY_ERROR_DETAIL_LEN : Z := 500.
Definition _UNKNOWN_TOOL_NAME : string := "unknown_tool".
Definition _EMPTY_TOOL_NAME_ERROR : string :=
  "Tool call could not be executed because its name was missing or empty.".

Definition _valid_tool_name (name : json) : bool :=
  match name with JStr s => negb (strip s =? "")%string | _ => false end.

Definition _normalize_tool_name (name : json) : string :=
  match name with
  | JStr s => if (strip s =? "")%string then _UNKNOWN_TOOL_NAME else strip s
  | _ => _UNKNOWN_TOOL_NAME
  end.

Definition _has_invalid_tool_name (name : json) : bool := negb (_valid_tool_name name).

(** [d.get(k)], with Python's [None] for a missing key. *)
Definition get_or_none (k : string) (d : dict) : json := default JNull (get k d).

(** [normalized_call["invalid_tool_name"] = True], if so. *)
Definition mark_name (name : json) (call : dict) : dict :=
  if _has_invalid_tool_name name then set_key "invalid_tool_name" (JBool true) call else call.

Definition structured_call (tc : json) : option dict :=
  match tc with
  | JObj d => let name := get_or_none "name" d in
              Some (mark_name name (set_key "name" (JStr (_normalize_tool_name name)) d))
  | _ => None
  end.

(** The name and the arguments of a provider's call, there or below [function]. *)
Definition raw_name (d : dict) : json :=
  let name := get_or_none "name" d in
  if truthy name then name
  else match get_or_none "function" d with JObj f => get_or_none "name" f | _ => name end.

Definition raw_args (d : dict) : json :=
  let args := default (JObj []) (get "args" d) in
  if truthy args then args
  else match get_or_none "function" d with
       | JObj f => match get_or_none "arguments" f with
                   | JStr text => match loads text with Some (JObj a) => JObj a | _ => JObj [] end
                   | _ => args
                   end
       | _ => args
       end.

Definition raw_call (tc : json) : option dict :=
  match tc with
  | JObj d =>
      let name := raw_name d in
      Some (mark_name name
        [("id", get_or_none "id" d); ("name", JStr (_normalize_tool_name name));
         ("args", match raw_args d with JObj a => JObj a | _ => JObj [] end)])
  | _ => None
  end.

Definition invalid_call (tc : json) : option dict :=
  match tc with
  | JObj d =>
      let name := get_or_none "name" d in
      Some (mark_name name
        [("id", get_or_none "id" d); ("name", JStr (_normalize_tool_name name)); ("args", JObj []);
         ("invalid", JBool true); ("error", get_or_none "error" d)])
  | _ => None
  end.

(** [additional_kwargs.get("tool_calls") or []], a list of the provider. *)
Definition raw_tool_calls (m : AIMessage) : list json :=
  match get_or_none "tool_calls" (additional_kwargs m) with JList l => l | _ => [] end.

Definition _message_tool_calls (m : AIMessage) : list dict :=
  omap structured_call (tool_calls m)
  ++ match tool_calls m with [] => omap raw_call (raw_tool_calls m) | _ => [] end
  ++ omap invalid_call (invalid_tool_calls m).

Definition flagged (k : string) (call : dict) : bool := truthy (get_or_none k call).

Definition _synthetic_tool_message_content (call : dict) : string :=
  if flagged "invalid_tool_name" call then
    "[" +:+ _EMPTY_TOOL_NAME_ERROR +:+ " Use one of the available tool names when retrying.]"
  else if flagged "invalid" call then
    let error_text := match get_or_none "error" call with
                      | JStr e => Slices.Slices.upto _MAX_RECOVERY_ERROR_DETAIL_LEN e
                      | _ => "" end in
    match get_or_none "name" call with
    | JStr "write_file" =>
        "[write_file failed before execution: the tool-call arguments were not valid JSON, so no file was written. This often happens when the model tries to write a very large Markdown file in a single tool call, especially when `content` contains unescaped quotes, inline JSON, backslashes, or code fences. Do not retry the same large `write_file` payload for this artifact; provide the report/content directly as normal assistant text in your next response. If a file write is still needed later, split the file into smaller sections instead of one large payload."
        +:+ (if (error_text =? "")%string then "" else " Parser error: " +:+ error_text) +:+ "]"
    | _ =>
        if (error_text =? "")%string
        then "[Tool call could not be executed because its arguments were invalid.]"
        else "[Tool call could not be executed because its arguments were invalid: " +:+ error_text +:+ "]"
    end
  else "[Tool call was interrupted and did not return a result.]".

(** ** Names sent to the model *)

(** [d["name"] = normalized], when it differs. *)
Definition with_name (d : dict) : dict :=
  let name := get_or_none "name" d in
  let normalized := _normalize_tool_name name in
  match name with
  | JStr s => if (s =? normalized)%string then d else set_key "name" (JStr normalized) d
  | _ => set_key "name" (JStr normalized) d
  end.

Definition sanitize_call (tc : json) : json := match tc with JObj d => JObj (with_name d) | _ => tc end.

Definition sanitize_raw (tc : json) : json :=
  match tc with
  | JObj d => match get_or_none "function" d with
              | JObj f => JObj (set_key "function" (JObj (with_name f)) d)
              | _ => JObj (with_name d)
              end
  | _ => tc
  end.

Definition sanitize_kwargs (d : dict) : dict :=
  match get "tool_calls" d with
  | Some (JList l) => set_key "tool_calls" (JList (map sanitize_raw l)) d
  | _ => d
  end.

Definition _sanitize_ai_message_tool_names (m : AIMessage) : AIMessage :=
  {| tool_calls := map sanitize_call (tool_calls m);
     additional_kwargs := sanitize_kwargs (additional_kwargs m);
     invalid_tool_calls := invalid_tool_calls m; ai_rest := ai_rest m |}.

Definition sanitized (m : message) : message :=
  match m with AI a => AI (_sanitize_ai_message_tool_names a) | _ => m end.

(** ** The new order *)

(** An id is a text; a call without one is not answered. *)
Definition call_id (call : dict) : option string :=
  match get_or_none "id" call with JStr s => if (s =? "")%string then None else Some s | _ => None end.

Definition calls_of (m : message) : list dict :=
  match m with AI a => _message_tool_calls a | _ => [] end.

Abbreviation queues := (gmap string (list ToolMessage)).

Definition enqueue (q : queues) (m : message) : queues :=
  match m with Tool t => <[tool_call_id t := default [] (q !! tool_call_id t) ++ [t]]> q | _ => q end.

Definition tool_messages_by_id (l : list message) : queues := foldl enqueue ∅ l.

Definition tool_call_ids (l : list message) : list string :=
  omap call_id (concat (map calls_of l)).

Definition synthetic (call : dict) (id : string) : ToolMessage :=
  {| tool_call_id := id;
     tool_name := default (JStr "unknown") (get "name" call);
     tool_content := JStr (_synthetic_tool_message_content call);
     tool_rest := JObj [("status", JStr "error")] |}.

(** The result that came for a call, renamed when neither has a name. *)
Definition renamed (call : dict) (t : ToolMessage) : ToolMessage :=
  if flagged "invalid_tool_name" call && _has_invalid_tool_name (tool_name t) then
    {| tool_call_id := tool_call_id t; tool_name := get_or_none "name" call;
       tool_content := tool_content t; tool_rest := tool_rest t |}
  else t.

Definition answer_of (call : dict) (id : string) (o : option ToolMessage) : ToolMessage :=
  match o with Some t => renamed call t | None => synthetic call id end.

Fixpoint answers (calls : list dict) (q : queues) : list ToolMessage * queues :=
  match calls with
  | [] => ([], q)
  | call :: calls =>
      match call_id call with
      | None => answers calls q
      | Some id =>
          let queue := default [] (q !! id) in
          let t := answer_of call id (head queue) in
          let q := if bool_decide (is_Some (q !! id)) then <[id := tail queue]> q else q in
          let '(ts, q) := answers calls q in (t :: ts, q)
      end
  end.

Definition claimed (ids : list string) (m : message) : bool :=
  match m with Tool t => bool_decide (tool_call_id t ∈ ids) | _ => false end.

Fixpoint regroup (ids : list string) (l : list message) (q : queues) : list message :=
  match l with
  | [] => []
  | m :: l =>
      if claimed ids m then regroup ids l q
      else let '(ts, q) := answers (calls_of m) q in
           sanitized m :: map Tool ts ++ regroup ids l q
  end.

(** The messages [wrap_model_call] hands to the model: [_build_patched_messages]
    returns them, or [None] when they are the messages it was given. *)
Definition patched (l : list message) : list message :=
  regroup (tool_call_ids l) l (tool_messages_by_id l).

Definition _build_patched_messages (l : list message) : option (list message) :=
  if decide (patched l = l) then None else Some (patched l).

Definition wrap_model_call {A} (messages : list message) (handler : list message -> A) : A :=
  handler (default messages (_build_patched_messages messages)).


(** ** Names *)

Lemma normalized_valid name : _valid_tool_name (JStr (_normalize_tool_name name)) = true.
Proof.
  unfold _valid_tool_name, _normalize_tool_name. destruct name; try reflexivity.
  destruct (String.eqb_spec (strip s) ""); [reflexivity|].
  rewrite Slices.strip_idem. by destruct (String.eqb_spec (strip s) "").
Qed.

Lemma normalize_idem name : _normalize_tool_name (JStr (_normalize_tool_name name)) = _normalize_tool_name name.
Proof.
  assert (_normalize_tool_name (JStr _UNKNOWN_TOOL_NAME) = _UNKNOWN_TOOL_NAME) as U by reflexivity.
  destruct name; try exact U. cbn [_normalize_tool_name].
  destruct (String.eqb_spec (strip s) ""); [exact U|]. rewrite Slices.strip_idem.
  by destruct (String.eqb_spec (strip s) "").
Qed.

Lemma get_none_same k v d : get_or_none k (set_key k v d) = v.
Proof. unfold get_or_none. by rewrite get_set_same. Qed.
Lemma get_none_other k k' v d : k <> k' -> get_or_none k (set_key k' v d) = get_or_none k d.
Proof. intros H. unfold get_or_none. by rewrite get_set_other. Qed.

Lemma name_of_with_name d : get_or_none "name" (with_name d) = JStr (_normalize_tool_name (get_or_none "name" d)).
Proof.
  unfold with_name. destruct (get_or_none "name" d) eqn:E; try apply get_none_same.
  destruct (String.eqb_spec s (_normalize_tool_name (JStr s))) as [<-|]; [done|apply get_none_same].
Qed.

Lemma with_name_other k d : k <> "name" -> get_or_none k (with_name d) = get_or_none k d.
Proof.
  intros H. unfold with_name. destruct (get_or_none "name" d); try by apply get_none_other.
  destruct (s =? _)%string; [done|by apply get_none_other].
Qed.

Lemma with_name_idem d : with_name (with_name d) = with_name d.
Proof. unfold with_name at 1. by rewrite name_of_with_name, normalize_idem, String.eqb_refl. Qed.

Lemma sanitize_call_idem tc : sanitize_call (sanitize_call tc) = sanitize_call tc.
Proof. destruct tc; try done. cbn. by rewrite with_name_idem. Qed.

Lemma sanitize_raw_idem tc : sanitize_raw (sanitize_raw tc) = sanitize_raw tc.
Proof.
  destruct tc as [| | | | | |d]; try done. cbn [sanitize_raw].
  destruct (get_or_none "function" d) as [| | | | | |f] eqn:F; cbn [sanitize_raw].
  1-6: rewrite with_name_other by done; rewrite F; by rewrite with_name_idem.
  rewrite get_none_same. by rewrite set_set, with_name_idem.
Qed.

Lemma sanitized_idem m : sanitized (sanitized m) = sanitized m.
Proof.
  destruct m as [m| |]; try done. cbn. unfold _sanitize_ai_message_tool_names. cbn. f_equal. f_equal.
  - rewrite map_map. apply map_ext. intros. apply sanitize_call_idem.
  - unfold sanitize_kwargs. destruct (get "tool_calls" (additional_kwargs m)) as [[]|] eqn:E; rewrite ?E; try done.
    rewrite get_set_same, set_set. f_equal. f_equal. rewrite map_map. apply map_ext. intros. apply sanitize_raw_idem.
Qed.

(** ** Calls before and after their names are made valid *)

(** Every call carries a valid name. *)
Definition named (c : dict) : Prop := _valid_tool_name (get_or_none "name" c) = true /\ is_Some (get "name" c).

Definition same_call (c c' : dict) : Prop :=
  call_id c' = call_id c /\ (flagged "invalid_tool_name" c' = true -> flagged "invalid_tool_name" c = true).

Lemma mark_name_other k name c : k <> "invalid_tool_name" -> get k (mark_name name c) = get k c.
Proof. intros H. unfold mark_name. destruct (_has_invalid_tool_name name); [by apply get_set_other|done]. Qed.

Lemma mark_name_flag name c :
  flagged "invalid_tool_name" (mark_name name c) = _has_invalid_tool_name name || flagged "invalid_tool_name" c.
Proof.
  unfold mark_name, flagged. destruct (_has_invalid_tool_name name); [|done]. by rewrite get_none_same.
Qed.

Lemma call_id_mark name c : call_id (mark_name name c) = call_id c.
Proof. unfold call_id, get_or_none. by rewrite mark_name_other. Qed.

Lemma omap_fmap {A B C} (f : A -> option B) (g : C -> A) l : omap f (map g l) = omap (fun x => f (g x)) l.
Proof. induction l as [|x l IH]; [done|]. cbn. destruct (f (g x)); by rewrite IH. Qed.

Lemma omap_related (f g : json -> option dict) l :
  (forall x, match f x, g x with Some c, Some c' => same_call c c' | None, None => True | _, _ => False end) ->
  Forall2 same_call (omap f l) (omap g l).
Proof.
  intros H. induction l as [|x l IH]; [constructor|]. cbn. specialize (H x).
  destruct (f x), (g x); try done. by constructor.
Qed.

Lemma structured_related tc :
  match structured_call tc, structured_call (sanitize_call tc) with
  | Some c, Some c' => same_call c c' | None, None => True | _, _ => False end.
Proof.
  destruct tc as [| | | | | |d]; try done. cbn [structured_call sanitize_call]. rewrite name_of_with_name.
  split.
  - rewrite !call_id_mark. unfold call_id. rewrite !get_none_other, with_name_other by done. done.
  - rewrite !mark_name_flag. unfold _has_invalid_tool_name at 1. rewrite normalized_valid. cbn [negb orb].
    unfold flagged. rewrite !get_none_other, with_name_other by done. intros ->. apply orb_true_r.
Qed.

Lemma raw_related tc :
  match raw_call tc, raw_call (sanitize_raw tc) with
  | Some c, Some c' => same_call c c' | None, None => True | _, _ => False end.
Proof.
  destruct tc as [| | | | | |d]; try done.
  assert (exists d', sanitize_raw (JObj d) = JObj d' /\ get_or_none "id" d' = get_or_none "id" d /\
    (_has_invalid_tool_name (raw_name d') = true -> _has_invalid_tool_name (raw_name d) = true)) as (d' & -> & I & N).
  { cbn [sanitize_raw]. unfold raw_name.
    destruct (get_or_none "function" d) as [| | | | | |f] eqn:F.
    1-6: exists (with_name d); split; [done|]; rewrite !with_name_other, name_of_with_name by done;
      (split; [done|]); rewrite (with_name_other "function"), F by done; unfold _has_invalid_tool_name;
      destruct (truthy (JStr _)); by rewrite normalized_valid.
    exists (set_key "function" (JObj (with_name f)) d). split; [done|].
    rewrite get_none_same, !get_none_other by done. split; [done|].
    destruct (truthy (get_or_none "name" d)); [done|]. rewrite name_of_with_name.
    unfold _has_invalid_tool_name at 1. by rewrite normalized_valid. }
  cbn [raw_call]. split.
  - rewrite !call_id_mark. unfold call_id. cbn. by rewrite I.
  - rewrite !mark_name_flag. cbn. rewrite !orb_false_r. exact N.
Qed.

Lemma calls_related m : Forall2 same_call (calls_of m) (calls_of (sanitized m)).
Proof.
  assert (forall l, Forall2 same_call l l) as R by (intros l; induction l; by constructor).
  destruct m as [m| |]; [|constructor..]. cbn [calls_of sanitized]. unfold _message_tool_calls. cbn.
  apply Forall2_app; [|apply Forall2_app; [|apply R]].
  - rewrite omap_fmap. apply omap_related. apply structured_related.
  - destruct (tool_calls m); [|constructor]. cbn. unfold raw_tool_calls. cbn.
    assert (get_or_none "tool_calls" (sanitize_kwargs (additional_kwargs m)) =
      match get_or_none "tool_calls" (additional_kwargs m) with JList l => JList (map sanitize_raw l) | v => v end) as ->.
    { unfold sanitize_kwargs, get_or_none. destruct (get "tool_calls" (additional_kwargs m)) as [[]|] eqn:E;
        rewrite ?E, ?get_set_same; done. }
    destruct (get_or_none "tool_calls" (additional_kwargs m)); try constructor.
    rewrite omap_fmap. apply omap_related. apply raw_related.
Qed.

Lemma calls_named m c : c ∈ calls_of m -> named c.
Proof.
  assert (forall name c, get "name" c = Some (JStr (_normalize_tool_name name)) ->
            named (mark_name name c)) as K.
  { intros name c0 G. unfold named, get_or_none. rewrite mark_name_other, G by done.
    split; [apply normalized_valid|by eexists]. }
  destruct m as [m| |]; cbn [calls_of]; [|intros H; by apply elem_of_nil in H..].
  unfold _message_tool_calls. rewrite !elem_of_app. intros [H|[H|H]].
  - apply list_elem_of_omap in H as ([| | | | | |d] & _ & E); try done. cbn in E. simplify_eq.
    apply K. by rewrite get_set_same.
  - destruct (tool_calls m); [|by apply elem_of_nil in H].
    apply list_elem_of_omap in H as ([| | | | | |d] & _ & E); try done. cbn in E. simplify_eq. by apply K.
  - apply list_elem_of_omap in H as ([| | | | | |d] & _ & E); try done. cbn in E. simplify_eq. by apply K.
Qed.

(** ** What is known of the repaired conversation *)

Definition tools_with (id : string) (l : list message) : list ToolMessage :=
  omap (fun m => match m with Tool t => if (tool_call_id t =? id)%string then Some t else None | _ => None end) l.

Definition is_call (id : string) (c : dict) : bool := bool_decide (call_id c = Some id).

Definition calls_with (id : string) (l : list message) : list dict :=
  List.filter (is_call id) (concat (map calls_of l)).

(** The answers to the calls of one id: the results in the order they came,
    then errors. *)
Fixpoint respond (id : string) (calls : list dict) (results : list ToolMessage) : list ToolMessage :=
  match calls with
  | [] => []
  | c :: calls => answer_of c id (head results) :: respond id calls (tail results)
  end.

(** Every message that is no answer stands alone, and every message with
    calls is followed by the answers to them, one each, in their order. *)
Inductive paired (ids : list string) : list message -> Prop :=
| paired_nil : paired ids []
| paired_cons m ts l :
    claimed ids m = false ->
    Forall2 (fun c t => call_id c = Some (tool_call_id t) /\ renamed c t = t)
            (List.filter (fun c => bool_decide (is_Some (call_id c))) (calls_of m)) ts ->
    paired ids l ->
    paired ids (m :: map Tool ts ++ l).

Definition queue (q : queues) (id : string) : list ToolMessage := default [] (q !! id).

Lemma queue_tail (q : queues) id id' :
  queue (if bool_decide (is_Some (q !! id)) then <[id := tail (queue q id)]> q else q) id' =
  if decide (id' = id) then tail (queue q id) else queue q id'.
Proof.
  unfold queue. destruct (decide (id' = id)) as [->|N].
  - destruct (bool_decide (is_Some (q !! id))) eqn:E.
    + by rewrite lookup_insert_eq.
    + apply bool_decide_eq_false in E. apply eq_None_not_Some in E. by rewrite E.
  - destruct (bool_decide _); [by rewrite lookup_insert_ne|done].
Qed.

Lemma enqueue_tools l : forall q id, queue (foldl enqueue q l) id = queue q id ++ tools_with id l.
Proof.
  induction l as [|m l IH]; intros q id; [by rewrite app_nil_r|]. cbn [foldl]. rewrite IH.
  destruct m as [|t|]; try done. cbn. destruct (String.eqb_spec (tool_call_id t) id) as [<-|N].
  - unfold queue. rewrite lookup_insert_eq. cbn. by rewrite <- app_assoc.
  - unfold queue. by rewrite lookup_insert_ne.
Qed.

Lemma by_id_tools l id : queue (tool_messages_by_id l) id = tools_with id l.
Proof. unfold tool_messages_by_id. rewrite enqueue_tools. unfold queue. by rewrite lookup_empty. Qed.

(** Queues hold messages under their own ids. *)
Definition filed (q : queues) : Prop := forall id t, t ∈ queue q id -> tool_call_id t = id.

Lemma filed_by_id l : filed (tool_messages_by_id l).
Proof.
  intros id t. rewrite by_id_tools. intros ([|t'|] & _ & E)%list_elem_of_omap; try done.
  destruct (String.eqb_spec (tool_call_id t') id); by simplify_eq.
Qed.

Lemma filed_tail q id : filed q ->
  filed (if bool_decide (is_Some (q !! id)) then <[id := tail (queue q id)]> q else q).
Proof.
  intros F id' t. rewrite queue_tail. destruct (decide (id' = id)) as [->|]; [|apply F].
  intros H. apply F. destruct (queue q id); [done|by right].
Qed.

Lemma answer_id c id (l : list ToolMessage) : (forall t, t ∈ l -> tool_call_id t = id) ->
  tool_call_id (answer_of c id (head l)) = id.
Proof.
  intros H. destruct l as [|t l]; [done|]. cbn. unfold renamed. destruct (_ && _); cbn; apply H; left.
Qed.

Lemma answer_settled c c' id o : named c -> same_call c c' -> renamed c' (answer_of c id o) = answer_of c id o.
Proof.
  intros [Nm [v Nv]] [_ S]. unfold renamed at 1.
  destruct (flagged "invalid_tool_name" c') eqn:F'; [|done]. specialize (S eq_refl).
  assert (_has_invalid_tool_name (tool_name (answer_of c id o)) = false) as ->; [|done].
  unfold _has_invalid_tool_name. destruct o as [t|]; cbn [answer_of].
  - unfold renamed. rewrite S. cbn [andb]. unfold _has_invalid_tool_name.
    destruct (_valid_tool_name (tool_name t)) eqn:V; cbn; rewrite ?Nm; [by rewrite V|done].
  - cbn. rewrite Nv. unfold get_or_none in Nm. rewrite Nv in Nm. cbn in *. by rewrite Nm.
Qed.

Definition has_id (c : dict) : bool := bool_decide (is_Some (call_id c)).

Lemma answers_spec calls : forall q ts q', filed q -> answers calls q = (ts, q') ->
  filed q' /\
  Forall2 (fun c t => call_id c = Some (tool_call_id t)) (List.filter has_id calls) ts /\
  (forall calls', Forall named calls -> Forall2 same_call calls calls' ->
     Forall2 (fun c t => call_id c = Some (tool_call_id t) /\ renamed c t = t) (List.filter has_id calls') ts) /\
  forall id, tools_with id (map Tool ts) = respond id (List.filter (is_call id) calls) (queue q id) /\
             queue q' id = drop (length (List.filter (is_call id) calls)) (queue q id).
Proof.
  induction calls as [|c calls IH]; intros q ts q' F H; cbn in H.
  - simplify_eq. split_and!; try done; try (by constructor).
    intros calls' _ R. by apply Forall2_nil_inv_l in R as ->.
  - destruct (call_id c) as [i|] eqn:E.
    + fold (queue q i) in H.
      destruct (answers calls _) as [ts0 q0] eqn:A. simplify_eq.
      destruct (IH _ _ _ (filed_tail q i F) A) as (F' & I & S & R).
      assert (tool_call_id (answer_of c i (head (queue q i))) = i) as Ti by (apply answer_id; intros; by apply F).
      split; [done|]. split; [|split].
      * cbn [List.filter]. unfold has_id at 1. rewrite E. cbn. constructor; [by rewrite Ti|done].
      * intros calls' Nm Rl. apply Forall_cons in Nm as [N1 N2].
        apply Forall2_cons_inv_l in Rl as (c' & l' & Rc & Rl & ->). cbn [List.filter].
        destruct Rc as [Rid Rfl]. unfold has_id at 1. rewrite Rid, E. cbn. constructor; [|by apply S].
        split; [by rewrite Rid, Ti|]. by apply answer_settled.
      * intros id. destruct (R id) as [R1 R2]. rewrite queue_tail in R1, R2.
        cbn [map tools_with omap list_omap List.filter]. rewrite Ti.
        assert (is_call id c = bool_decide (id = i)) as Ic.
        { unfold is_call. rewrite E. apply bool_decide_ext. naive_solver. }
        rewrite !Ic. fold (tools_with id (map Tool ts0)).
        destruct (decide (id = i)) as [->|N].
        -- rewrite String.eqb_refl, bool_decide_eq_true_2 by done. cbn [respond length].
           rewrite R1, R2. split; [done|]. destruct (queue q i); [|done]. cbn [tail]. by rewrite !drop_nil.
        -- destruct (String.eqb_spec i id); [congruence|]. rewrite bool_decide_eq_false_2 by congruence.
           by split.
    + destruct (IH _ _ _ F H) as (F' & I & S & R). split; [done|]. split; [|split].
      * cbn [List.filter]. unfold has_id at 1. by rewrite E.
      * intros calls' Nm Rl. apply Forall_cons in Nm as [N1 N2].
        apply Forall2_cons_inv_l in Rl as (c' & l' & Rc & Rl & ->). cbn [List.filter].
        destruct Rc as [Rid _]. unfold has_id at 1. rewrite Rid, E. by apply S.
      * intros id. cbn [List.filter].
        assert (is_call id c = false) as ->; [|by apply R]. unfold is_call. by rewrite E.
Qed.

Lemma tools_with_app id l l' : tools_with id (l ++ l') = tools_with id l ++ tools_with id l'.
Proof. apply omap_app. Qed.

Lemma calls_with_cons id m l : calls_with id (m :: l) = List.filter (is_call id) (calls_of m) ++ calls_with id l.
Proof. unfold calls_with. cbn. apply List.filter_app. Qed.

Lemma respond_app id a b : forall q,
  respond id (a ++ b) q = respond id a q ++ respond id b (drop (length a) q).
Proof.
  induction a as [|c a IH]; intros q; [done|]. cbn [respond app length]. rewrite IH.
  destruct q; [|done]. cbn [tail]. by rewrite !drop_nil.
Qed.

Lemma claimed_sanitized ids m : claimed ids (sanitized m) = claimed ids m.
Proof. by destruct m. Qed.

Lemma ids_cons m l : tool_call_ids (m :: l) = omap call_id (calls_of m) ++ tool_call_ids l.
Proof. unfold tool_call_ids. cbn. apply omap_app. Qed.

Lemma unclaimed_alone ids m id : claimed ids m = false -> id ∈ ids -> tools_with id [m] = [].
Proof.
  destruct m as [|t|]; try done. cbn. intros H%bool_decide_eq_false Hid.
  by destruct (String.eqb_spec (tool_call_id t) id) as [<-|].
Qed.

Lemma claimed_other ids m id : claimed ids m = true -> id ∉ ids -> tools_with id [m] = [].
Proof.
  destruct m as [|t|]; try done. cbn. intros H%bool_decide_eq_true Hid.
  by destruct (String.eqb_spec (tool_call_id t) id) as [<-|].
Qed.

Lemma tools_sanitized id m : tools_with id [sanitized m] = tools_with id [m].
Proof. by destruct m. Qed.

(** Answers all carry ids of calls. *)
Lemma answers_claimed (ids : list string) calls ts :
  Forall2 (fun c t => call_id c = Some (tool_call_id t)) (List.filter has_id calls) ts ->
  (forall id, id ∈ omap call_id calls -> id ∈ ids) ->
  Forall (fun t => tool_call_id t ∈ ids) ts.
Proof.
  intros F H. apply Forall_forall. intros t Ht. apply list_elem_of_lookup in Ht as [i Hi].
  destruct (Forall2_lookup_r _ _ _ _ _ F Hi) as (c & Hc%list_elem_of_lookup_2 & E).
  apply H. apply filter_elem in Hc as [Hc _]. apply list_elem_of_omap. by exists c.
Qed.

Lemma filter_claimed (ids : list string) ts : Forall (fun t => tool_call_id t ∈ ids) ts ->
  List.filter (fun m => negb (claimed ids m)) (map Tool ts) = [].
Proof.
  induction 1 as [|t ts H _ IH]; [done|]. cbn. by rewrite bool_decide_eq_true_2.
Qed.

Lemma regroup_spec ids l : forall q, filed q -> (forall id, id ∈ tool_call_ids l -> id ∈ ids) ->
  paired ids (regroup ids l q) /\
  List.filter (fun m => negb (claimed ids m)) (regroup ids l q) =
    map sanitized (List.filter (fun m => negb (claimed ids m)) l) /\
  (forall id, id ∈ ids -> tools_with id (regroup ids l q) = respond id (calls_with id l) (queue q id)).
Proof.
  induction l as [|m l IH]; intros q F H; [by split_and!; [constructor|..]|].
  assert (forall id, id ∈ tool_call_ids l -> id ∈ ids) as Hl.
  { intros id Hid. apply H. rewrite ids_cons. apply elem_of_app. by right. }
  cbn [regroup]. destruct (claimed ids m) eqn:C.
  - destruct (IH q F Hl) as (P & K & T). split_and!; [done|cbn [List.filter]; by rewrite C|].
    intros id Hid. rewrite (T id Hid), calls_with_cons. by destruct m.
  - destruct (answers (calls_of m) q) as [ts q'] eqn:A.
    destruct (answers_spec _ _ _ _ F A) as (F' & I & S & R). destruct (IH q' F' Hl) as (P & K & T).
    assert (Forall (fun t => tool_call_id t ∈ ids) ts) as Hts.
    { eapply answers_claimed; [exact I|]. intros id Hid. apply H. rewrite ids_cons. apply elem_of_app. by left. }
    split_and!.
    + constructor; [by rewrite claimed_sanitized| |done].
      apply S; [|apply calls_related]. apply Forall_forall. intros c. apply calls_named.
    + cbn [List.filter]. rewrite claimed_sanitized, C. cbn [negb map]. f_equal.
      rewrite List.filter_app, filter_claimed by done. exact K.
    + intros id Hid. change (sanitized m :: map Tool ts ++ regroup ids l q')
        with ([sanitized m] ++ map Tool ts ++ regroup ids l q').
      rewrite !tools_with_app, tools_sanitized, (unclaimed_alone ids) by done. cbn [app].
      destruct (R id) as [R1 R2]. by rewrite R1, (T id Hid), R2, calls_with_cons, respond_app.
Qed.

(** Calls already answered in place are answered the same way again. *)
Lemma answers_settled calls : forall ts q rest,
  Forall2 (fun c t => call_id c = Some (tool_call_id t) /\ renamed c t = t) (List.filter has_id calls) ts ->
  (forall id, queue q id = tools_with id (map Tool ts) ++ rest id) ->
  exists q', answers calls q = (ts, q') /\ forall id, queue q' id = rest id.
Proof.
  induction calls as [|c calls IH]; intros ts q rest F Q.
  - apply Forall2_nil_inv_l in F as ->. by exists q.
  - cbn [List.filter] in F. unfold has_id at 1 in F. cbn [answers].
    destruct (call_id c) as [i|] eqn:E; cbn in F; [|by apply IH].
    apply Forall2_cons_inv_l in F as (t & ts' & [Ei Rn] & F & ->). rewrite E in Ei. injection Ei as ->.
    pose proof (Q (tool_call_id t)) as Qi. cbn in Qi. rewrite String.eqb_refl in Qi. cbn in Qi.
    fold (queue q (tool_call_id t)).
    assert (head (queue q (tool_call_id t)) = Some t) as -> by by rewrite Qi.
    cbn [answer_of]. rewrite Rn.
    destruct (IH ts' (if bool_decide (is_Some (q !! tool_call_id t)) then
                <[tool_call_id t := tail (queue q (tool_call_id t))]> q else q) rest F) as (q' & A & Q').
    { intros id. rewrite queue_tail. destruct (decide (id = tool_call_id t)) as [->|N].
      - by rewrite Qi.
      - rewrite Q. cbn. by destruct (String.eqb_spec (tool_call_id t) id); [congruence|]. }
    exists q'. by rewrite A.
Qed.

Lemma regroup_paired ids l : paired ids l -> (forall m, m ∈ l -> sanitized m = m) ->
  (forall id, id ∈ tool_call_ids l -> id ∈ ids) ->
  forall q, (forall id, id ∈ ids -> queue q id = tools_with id l) -> regroup ids l q = l.
Proof.
  induction 1 as [|m ts l C F P IH]; intros Sa Hi q Q; [done|]. cbn [regroup]. rewrite C.
  assert (forall id, id ∈ omap call_id (calls_of m) -> id ∈ ids) as Hm.
  { intros id Hid. apply Hi. rewrite ids_cons. apply elem_of_app. by left. }
  assert (Forall (fun t => tool_call_id t ∈ ids) ts) as Hts.
  { eapply answers_claimed; [|exact Hm]. eapply Forall2_impl; [exact F|]. by intros ? ? [? _]. }
  set (q1 := fun id => if decide (id ∈ ids) then tools_with id l else drop (length (tools_with id (map Tool ts))) (queue q id)).
  destruct (answers_settled (calls_of m) ts q q1 F) as (q' & A & Q').
  { intros id. unfold q1. destruct (decide (id ∈ ids)) as [Hid|N].
    - rewrite (Q id Hid). change (m :: map Tool ts ++ l) with ([m] ++ map Tool ts ++ l).
      by rewrite !tools_with_app, (unclaimed_alone ids).
    - assert (tools_with id (map Tool ts) = []) as ->; [|done].
      clear -Hts N. induction Hts as [|t ts Ht _ IH]; [done|]. cbn.
      destruct (String.eqb_spec (tool_call_id t) id) as [<-|]; [done|exact IH]. }
  rewrite A, Sa by left. f_equal. f_equal.
  assert (forall l0, regroup ids (map Tool ts ++ l0) q' = regroup ids l0 q') as ->.
  { intros l0. clear -Hts. induction Hts as [|t ts Ht _ IH]; [done|]. cbn. by rewrite bool_decide_eq_true_2. }
  apply IH.
  - intros m' Hm'. apply Sa. right. apply elem_of_app. by right.
  - intros id Hid. apply Hi. rewrite ids_cons. apply elem_of_app. right.
    clear -Hid. induction ts as [|t ts IHts]; [done|]. cbn [map app]. by rewrite ids_cons.
  - intros id Hid. rewrite Q'. unfold q1. by rewrite decide_True.
Qed.

Lemma ids_regroup ids l : forall q, tool_call_ids (regroup ids l q) = tool_call_ids l.
Proof.
  assert (forall ts l0, tool_call_ids (map Tool ts ++ l0) = tool_call_ids l0) as T.
  { intros ts l0. induction ts as [|t ts IH]; [done|]. cbn [map app]. by rewrite ids_cons. }
  induction l as [|m l IH]; intros q; [done|]. cbn [regroup]. rewrite ids_cons. destruct (claimed ids m) eqn:C.
  - rewrite IH. by destruct m.
  - destruct (answers (calls_of m) q) as [ts q']. rewrite ids_cons, T, IH. f_equal.
    pose proof (calls_related m) as R. induction R as [|c c' cs cs' [E _] _ IHR]; [done|].
    cbn. rewrite E. destruct (call_id c); by rewrite IHR.
Qed.

Lemma regroup_sanitized ids l m : forall q, m ∈ regroup ids l q -> sanitized m = m.
Proof.
  induction l as [|x l IH]; intros q H; [by apply elem_of_nil in H|]. cbn [regroup] in H.
  destruct (claimed ids x); [by eapply IH|]. destruct (answers _ q) as [ts q'].
  apply elem_of_cons in H as [->|H]; [apply sanitized_idem|].
  apply elem_of_app in H as [(t & -> & _)%list_elem_of_fmap|H]; [done|by eapply IH].
Qed.

Lemma unchanged l : paired (tool_call_ids l) l -> (forall m, m ∈ l -> sanitized m = m) ->
  _build_patched_messages l = None.
Proof.
  intros P S. unfold _build_patched_messages. rewrite decide_True; [done|].
  apply regroup_paired; try done. intros id _. apply by_id_tools.
Qed.

(** Whatever the history, the messages the model is called with are well
    formed: each message with calls is followed at once by exactly one result
    per call, in the order of the calls; the results of an id are those that
    came for it, in the order they came, then errors for the calls left; every
    other message stays, in its place, with its call names made valid; and a
    history already in this form -- such as the repaired one -- is left as it
    is. *)
Theorem repair_spec (l : list message) :
  let ids := tool_call_ids l in
  let out := wrap_model_call l (fun messages => messages) in
  paired ids out /\
  List.filter (fun m => negb (claimed ids m)) out =
    map sanitized (List.filter (fun m => negb (claimed ids m)) l) /\
  (forall id, id ∈ ids -> tools_with id out = respond id (calls_with id l) (tools_with id l)) /\
  _build_patched_messages out = None /\
  (paired ids l -> (forall m, m ∈ l -> sanitized m = m) -> out = l).
Proof.
  intros ids out.
  assert (out = patched l) as E.
  { unfold out, wrap_model_call, _build_patched_messages. by destruct (decide (patched l = l)) as [->|]. }
  destruct (regroup_spec ids l (tool_messages_by_id l) (filed_by_id l) ltac:(done)) as (P & K & T).
  assert (_build_patched_messages out = None) as N.
  { rewrite E. apply unchanged; unfold patched; [by rewrite ids_regroup|].
    intros m. apply regroup_sanitized. }
  split_and!; [by rewrite E|by rewrite E| |done|].
  - intros id Hid. rewrite E. change (patched l) with (regroup ids l (tool_messages_by_id l)).
    by rewrite (T id Hid), by_id_tools.
  - intros Pl Sl. unfold out, wrap_model_call. by rewrite unchanged.
Qed.

(** ** A conversation cut short *)

Definition call (id name : string) : json := JObj [("id", JStr id); ("name", JStr name); ("args", JObj [])].
Definition ai (calls : list json) : message :=
  AI {| tool_calls := calls; additional_kwargs := []; invalid_tool_calls := []; ai_rest := JNull |}.
Definition result_of (id name text : string) : ToolMessage :=
  {| tool_call_id := id; tool_name := JStr name; tool_content := JStr text; tool_rest := JNull |}.

(** Two calls, the second without a name; a user message came before the one
    result there is. *)
Definition cut_short : list message :=
  [ai [call "c1" "search"; call "c2" " "]; Other (JStr "go on"); Tool (result_of "c2" "" "done");
   Tool (result_of "c9" "ls" "orphan")].

Example cut_short_repaired :
  patched cut_short =
  [ai [call "c1" "search"; call "c2" "unknown_tool"];
   Tool {| tool_call_id := "c1"; tool_name := JStr "search";
           tool_content := JStr "[Tool call was interrupted and did not return a result.]";
           tool_rest := JObj [("status", JStr "error")] |};
   Tool (result_of "c2" "unknown_tool" "done"); Other (JStr "go on"); Tool (result_of "c9" "ls" "orphan")].
Proof. vm_compute. reflexivity. Qed.

Lemma repair_spec_witness :
  tools_with "c2" (wrap_model_call cut_short (fun m => m)) =
    respond "c2" (calls_with "c2" cut_short) (tools_with "c2" cut_short) /\
  _build_patched_messages (wrap_model_call cut_short (fun m => m)) = None.
Proof.
  destruct (repair_spec cut_short) as (_ & _ & T & N & _). split; [|exact N].
  apply T. change (tool_call_ids cut_short) with ["c1"; "c2"]. right. left.
Defined.

End ToolCalls.
