(* ===== verification/OrderedDict.v ===== *)
(** * Ordered dictionaries

    [OrderedDict] as the list of its items, oldest first, and the bounded one of
    [deerflow/agents/middlewares/_bounded_dict.py], with the lemmas the guard
    middlewares need of them. *)
From S2P Require Import Prelude.

Module OrderedDict.
Section dict.
Context {K V : Type} `{EqDecision K}.
Implicit Types (d : list (K * V)) (k : K).

Definition keys d : list K := map fst d.

Definition lookup k d : option V := option_map snd (List.find (fun kv => bool_decide (kv.1 = k)) d).

(** [d[k] = v]: a key in the dictionary keeps its place. *)
Definition assign k (v : V) d : list (K * V) :=
  if bool_decide (k ∈ keys d)
  then map_where (fun kv => bool_decide (kv.1 = k)) (fun kv => (kv.1, v)) d
  else d ++ [(k, v)].

(** [d.pop(k, None)] *)
Definition pop k d : list (K * V) := List.filter (fun kv => negb (bool_decide (kv.1 = k))) d.

(** [d.move_to_end(k)] *)
Definition move_to_end k d : list (K * V) :=
  pop k d ++ List.filter (fun kv => bool_decide (kv.1 = k)) d.

(** [BoundedDict.__setitem__] *)
Definition bounded_assign (maxsize : Z) k (v : V) d : list (K * V) :=
  let d := if bool_decide (k ∈ keys d) then d
           else if maxsize <=? Z.of_nat (length d) then tail d else d in
  assign k v d.
End dict.
(** ** Facts of the dictionaries *)

Section dict_facts.
Context {K V : Type} `{EqDecision K}.
Implicit Types (d : list (K * V)) (k : K).

Lemma keys_filter (f : K -> bool) d : keys (List.filter (fun kv => f kv.1) d) = List.filter f (keys d).
Proof. unfold keys. induction d as [|[x v] d IH]; cbn; [done|]. destruct (f x); cbn; by rewrite IH. Qed.

Lemma nodup_filter (f : K -> bool) (l : list K) : NoDup l -> NoDup (List.filter f l).
Proof. intros H. rewrite <- (map_id (List.filter f l)). apply map_filter_nodup. by rewrite map_id. Qed.

Lemma nodup_keys_filter (f : K -> bool) d : NoDup (keys d) -> NoDup (keys (List.filter (fun kv => f kv.1) d)).
Proof. rewrite keys_filter. apply nodup_filter. Qed.

Lemma elem_keys_pop k k' d : k ∈ keys (pop k' d) <-> k ∈ keys d /\ k <> k'.
Proof.
  assert (keys (pop k' d) = List.filter (fun x => negb (bool_decide (x = k'))) (keys d)) as ->
    by exact (keys_filter (fun x : K => negb (bool_decide (x = k'))) d).
  by rewrite filter_elem, negb_true_iff, bool_decide_eq_false.
Qed.

Lemma nodup_keys_pop k d : NoDup (keys d) -> NoDup (keys (pop k d)).
Proof. exact (nodup_keys_filter (fun x : K => negb (bool_decide (x = k))) d). Qed.

Lemma keys_assign k v d : keys (assign k v d) = if bool_decide (k ∈ keys d) then keys d else keys d ++ [k].
Proof.
  unfold assign. destruct (bool_decide (k ∈ keys d)).
  - unfold keys, map_where. rewrite map_map. apply map_ext. intros [x w]. cbn. by destruct (bool_decide (x = k)).
  - unfold keys. by rewrite map_app.
Qed.

Lemma nodup_assign k v d : NoDup (keys d) -> NoDup (keys (assign k v d)).
Proof.
  intros H. rewrite keys_assign. destruct (bool_decide (k ∈ keys d)) eqn:E; [done|].
  apply bool_decide_eq_false in E. apply NoDup_app. split_and!; [done| |apply NoDup_singleton]. set_solver.
Qed.

Lemma elem_assign k v d x : x ∈ assign k v d -> x ∈ d \/ x = (k, v).
Proof.
  unfold assign. destruct (bool_decide (k ∈ keys d)).
  - intros [y [H ->]]%elem_of_map_where. destruct (bool_decide (y.1 = k)) eqn:E; [|by left].
    apply bool_decide_eq_true in E. right. by rewrite E.
  - rewrite elem_of_app, list_elem_of_singleton. done.
Qed.

Lemma pop_other k d : k ∉ keys d -> pop k d = d.
Proof.
  unfold pop, keys. induction d as [|[x v] d IH]; cbn; [done|]. intros H.
  rewrite bool_decide_eq_false_2 by (intros ->; apply H; left). cbn. f_equal. apply IH. intros E. apply H. by right.
Qed.

Lemma only_other k d : k ∉ keys d -> List.filter (fun kv => bool_decide (kv.1 = k)) d = [].
Proof.
  unfold keys. induction d as [|[x v] d IH]; cbn; [done|]. intros H.
  rewrite bool_decide_eq_false_2 by (intros ->; apply H; left). apply IH. intros E. apply H. by right.
Qed.

(** A dictionary in which [k] has one place. *)
Lemma move_at k v d1 d2 : NoDup (keys (d1 ++ (k, v) :: d2)) ->
  move_to_end k (d1 ++ (k, v) :: d2) = (d1 ++ d2) ++ [(k, v)].
Proof.
  unfold keys. rewrite map_app. cbn. intros [_ [D N]]%NoDup_app.
  apply NoDup_cons in N as [N _].
  assert (k ∉ keys d1) as H1 by (intros H; apply (D k H); left).
  unfold move_to_end. unfold pop. rewrite !List.filter_app. cbn. rewrite bool_decide_eq_true_2 by done. cbn.
  fold (pop k d1) (pop k d2). by rewrite (pop_other k d1), (pop_other k d2), (only_other k d1), (only_other k d2).
Qed.

Lemma map_where_other k v d : k ∉ keys d ->
  map_where (fun kv => bool_decide (kv.1 = k)) (fun kv => (kv.1, v)) d = d.
Proof.
  intros H. apply map_where_none. by apply only_other.
Qed.

Lemma assign_at k v w d1 d2 : NoDup (keys (d1 ++ (k, v) :: d2)) ->
  assign k w (d1 ++ (k, v) :: d2) = d1 ++ (k, w) :: d2.
Proof.
  unfold keys. rewrite map_app. cbn. intros [_ [D N]]%NoDup_app. apply NoDup_cons in N as [N _].
  unfold assign. rewrite bool_decide_eq_true_2 by (unfold keys; rewrite map_app; cbn; set_solver).
  unfold map_where. rewrite map_app. fold (map_where (fun kv => bool_decide (kv.1 = k)) (fun kv => (kv.1, w)) d1).
  cbn. fold (map_where (fun kv => bool_decide (kv.1 = k)) (fun kv => (kv.1, w)) d2).
  rewrite bool_decide_eq_true_2 by done. rewrite !map_where_other; [done|exact N|].
  intros H. apply (D k H). left.
Qed.

Lemma lookup_at k v d1 d2 : k ∉ keys d1 -> lookup k (d1 ++ (k, v) :: d2) = Some v.
Proof.
  unfold lookup. intros H. rewrite find_app. fold (keys d1) in H.
  assert (List.find (fun kv => bool_decide (kv.1 = k)) d1 = None) as ->.
  { destruct (List.find _ d1) as [[x w]|] eqn:F; [|done]. exfalso. apply find_some_elem in F as [F1 F2].
    apply bool_decide_eq_true in F2. cbn in F2. subst x. apply H. unfold keys. apply list_elem_of_fmap. by exists (k, w). }
  cbn. by rewrite bool_decide_eq_true_2.
Qed.

Lemma lookup_none k d : k ∉ keys d -> lookup k d = None.
Proof.
  unfold lookup. intros H. destruct (List.find _ d) as [[x w]|] eqn:F; [|done]. exfalso.
  apply find_some_elem in F as [F1 F2]. apply bool_decide_eq_true in F2. cbn in F2. subst x.
  apply H. unfold keys. apply list_elem_of_fmap. by exists (k, w).
Qed.

Lemma nodup_last k v w d : NoDup (keys (d ++ [(k, v)])) -> NoDup (keys (d ++ [(k, w)])).
Proof. unfold keys. by rewrite !map_app. Qed.

Lemma fresh_last k v d : NoDup (keys (d ++ [(k, v)])) -> k ∉ keys d.
Proof. unfold keys. rewrite map_app. intros [_ [D _]]%NoDup_app X. apply (D k X). left. Qed.

Lemma split_at k d : k ∈ keys d -> exists v d1 d2, d = d1 ++ (k, v) :: d2.
Proof.
  unfold keys. intros [[x v] [-> H]]%list_elem_of_fmap. apply list_elem_of_split in H as [d1 [d2 ->]]. by exists v, d1, d2.
Qed.

Lemma lookup_assign k v d : lookup k (assign k v d) = Some v.
Proof.
  unfold assign. destruct (bool_decide (k ∈ keys d)) eqn:E.
  - apply bool_decide_eq_true in E. unfold lookup. induction d as [|[x w] d IH]; [by apply elem_of_nil in E|].
    cbn. destruct (bool_decide (x = k)) eqn:X; cbn; rewrite X; [done|]. apply IH.
    apply bool_decide_eq_false in X. unfold keys in E. cbn in E. by apply elem_of_cons in E as [->|E].
  - apply bool_decide_eq_false in E. by apply lookup_at.
Qed.

Lemma length_pop_le k d : (length (pop k d) <= length d)%nat.
Proof. unfold pop. induction d as [|[x v] d IH]; cbn; [done|]. case_match; cbn; lia. Qed.

Lemma length_bounded_assign n k v d : 1 <= n -> Z.of_nat (length d) <= n ->
  Z.of_nat (length (bounded_assign n k v d)) <= n.
Proof.
  intros Hn H. unfold bounded_assign, assign. destruct (bool_decide (k ∈ keys d)) eqn:E; rewrite ?E.
  - by rewrite length_map_where.
  - set (d' := if n <=? Z.of_nat (length d) then tail d else d).
    assert (Z.of_nat (length d') + 1 <= n).
    { unfold d'. destruct (Z.leb_spec n (Z.of_nat (length d))); destruct d; cbn in *; lia. }
    destruct (bool_decide (k ∈ keys d')); rewrite ?length_map_where, ?length_app; cbn; lia.
Qed.
End dict_facts.

End OrderedDict.

