(* ===== verification/Evaluation.v ===== *)
(** * Scoring predictions

    [evaluation.py]: predictions are compared with labelled cases field by field,
    and counted by kind, by field and by tag.  The counts agree with counting
    the cases directly. *)
From S2P Require Import Prelude Json Float64 Numerals OrderedDict.
Import Json Float64 Numerals OrderedDict.OrderedDict.

Module Evaluation.

(** ** Python's [==] on the values of JSON *)

Inductive number := Exact (p q : Z) | Beyond (neg : bool) | NotANumber.

Definition number_of (j : json) : option number :=
  match j with
  | JBool b => Some (Exact (Z.b2z b) 1)
  | JInt z => Some (Exact z 1)
  | JFloat r =>
      match float_of_text r with
      | Some (Finite neg x) => Some (Exact (if neg then - num x else num x) (den x))
      | Some (Infinite neg) => Some (Beyond neg)
      | Some NaN => Some NotANumber
      | None => None
      end
  | _ => None
  end.

Definition same_number (a b : number) : bool :=
  match a, b with
  | Exact p q, Exact p' q' => p * q' =? p' * q
  | Beyond n, Beyond n' => Bool.eqb n n'
  | _, _ => false
  end.

Fixpoint py_eq (a b : json) : bool :=
  match a, b with
  | JNull, JNull => true
  | JStr x, JStr y => (x =? y)%string
  | JList l, JList l' =>
      (fix go l l' := match l, l' with
                      | [], [] => true
                      | x :: l, y :: l' => py_eq x y && go l l'
                      | _, _ => false end) l l'
  | JObj d, JObj d' =>
      (length d =? length d')%nat &&
      (fix go d := match d with
                   | [] => true
                   | (k, x) :: d => match get k d' with Some y => py_eq x y | None => false end && go d
                   end) d
  | _, _ =>
      match number_of a, number_of b with
      | Some x, Some y => same_number x y
      | _, _ => false
      end
  end.

(** ** Counters *)

Record gold_case := { case_id : string; kind : string; expect : dict; tags : list string }.

Record tally := { total : Z; covered : Z; exact : Z }.
Record field_tally := { seen : Z; matched : Z }.

Definition plus_tally (a b : tally) : tally :=
  {| total := total a + total b; covered := covered a + covered b; exact := exact a + exact b |}.
Definition plus_field (a b : field_tally) : field_tally := {| seen := seen a + seen b; matched := matched a + matched b |}.

Definition no_tally : tally := {| total := 0; covered := 0; exact := 0 |}.
Definition no_field : field_tally := {| seen := 0; matched := 0 |}.
Definition one_total : tally := {| total := 1; covered := 0; exact := 0 |}.
Definition one_covered : tally := {| total := 0; covered := 1; exact := 0 |}.
Definition one_exact : tally := {| total := 0; covered := 0; exact := 1 |}.
Definition one_seen : field_tally := {| seen := 1; matched := 0 |}.
Definition one_matched : field_tally := {| seen := 0; matched := 1 |}.

(** [d.setdefault(key, zero)], with [n] added to what is there; and for each of
    a list of keys. *)
Definition bump {C} (zero : C) (plus : C -> C -> C) (n : C) (d : list (string * C)) (key : string) : list (string * C) :=
  assign key (plus (default zero (lookup key d)) n) d.
Definition bump_kind := bump no_tally plus_tally.
Definition bump_field := bump no_field plus_field.

Record score := {
  covered_count : Z;
  exact_count : Z;
  matched_fields : Z;
  total_fields : Z;
  missing_ids : list string;
  by_kind : list (string * tally);
  by_field : list (string * field_tally);
  by_tag : list (string * tally)
}.

Definition nothing : score :=
  {| covered_count := 0; exact_count := 0; matched_fields := 0; total_fields := 0; missing_ids := []; by_kind := [];
     by_field := []; by_tag := [] |}.

(** [prediction.get(field) == value], the fields of a case that match. *)
Definition matches (prediction : dict) (field : string * json) : bool := py_eq (default JNull (get field.1 prediction)) field.2.
Definition matching (c : gold_case) (prediction : dict) : list string := map fst (List.filter (matches prediction) (expect c)).
Definition case_exact (c : gold_case) (prediction : dict) : bool :=
  (length (matching c prediction) =? length (expect c))%nat.

(** What every case adds before its prediction is looked at. *)
Definition count_case (s : score) (c : gold_case) : score :=
  {| covered_count := covered_count s; exact_count := exact_count s; matched_fields := matched_fields s;
     total_fields := total_fields s + Z.of_nat (length (expect c));
     missing_ids := missing_ids s;
     by_kind := bump_kind one_total (by_kind s) (kind c);
     by_field := foldl (bump_field one_seen) (by_field s) (map fst (expect c));
     by_tag := foldl (bump_kind one_total) (by_tag s) (tags c) |}.

Definition count_missing (s : score) (c : gold_case) : score :=
  {| covered_count := covered_count s; exact_count := exact_count s; matched_fields := matched_fields s;
     total_fields := total_fields s; missing_ids := missing_ids s ++ [case_id c]; by_kind := by_kind s; by_field := by_field s;
     by_tag := by_tag s |}.

Definition bump_tag (hit : bool) (d : list (string * tally)) (tag : string) : list (string * tally) :=
  let d := bump_kind one_covered d tag in if hit then bump_kind one_exact d tag else d.

Definition count_prediction (s : score) (c : gold_case) (prediction : dict) : score :=
  let hit := case_exact c prediction in
  let kinds := bump_kind one_covered (by_kind s) (kind c) in
  {| covered_count := covered_count s + 1;
     exact_count := exact_count s + Z.b2z hit;
     matched_fields := matched_fields s + Z.of_nat (length (matching c prediction));
     total_fields := total_fields s;
     missing_ids := missing_ids s;
     by_kind := if hit then bump_kind one_exact kinds (kind c) else kinds;
     by_field := foldl (bump_field one_matched) (by_field s) (matching c prediction);
     by_tag := foldl (bump_tag hit) (by_tag s) (tags c) |}.

Definition score_case (predictions : string -> option dict) (s : score) (c : gold_case) : score :=
  let s := count_case s c in
  match predictions (case_id c) with
  | None => count_missing s c
  | Some prediction => count_prediction s c prediction
  end.

(** The counts of all cases. *)
Definition tallies (gold_cases : list gold_case) (predictions : string -> option dict) : score :=
  foldl (score_case predictions) nothing gold_cases.

(** ** The report *)

(** [round(n / d, 6) if d else 0.0] *)
Definition ratio (n d : Z) : float := if d =? 0 then fzero else round6 (int_div n d).

Record report := {
  cases : Z;
  coverage : float;
  exact_case_accuracy : float;
  field_accuracy : float;
  kinds : list (string * tally);
  fields : list (string * (field_tally * float));
  tag_stats : list (string * (tally * float));
  missing : list string
}.

Definition by_name {A} (a b : string * A) : bool := bool_decide (String.le a.1 b.1).

Definition score_predictions (gold_cases : list gold_case) (predictions : string -> option dict) : report :=
  let s := tallies gold_cases predictions in
  let n := Z.of_nat (length gold_cases) in
  {| cases := n;
     coverage := ratio (covered_count s) n;
     exact_case_accuracy := ratio (exact_count s) n;
     field_accuracy := ratio (matched_fields s) (total_fields s);
     kinds := by_kind s;
     fields := stable_sort by_name (map (fun kv => (kv.1, (kv.2, round6 (int_div (matched kv.2) (seen kv.2))))) (by_field s));
     tag_stats := stable_sort by_name
                    (map (fun kv => (kv.1, (kv.2, round6 (int_div (exact kv.2) (total kv.2))))) (by_tag s));
     missing := missing_ids s |}.

(** ** Counting directly *)

Section counting.
Context (predictions : string -> option dict).

Definition predicted (c : gold_case) : bool := bool_decide (is_Some (predictions (case_id c))).
Definition hit (c : gold_case) : bool := match predictions (case_id c) with Some p => case_exact c p | None => false end.
Definition occurrences (x : string) (l : list string) : Z := Z.of_nat (length (List.filter (fun y => bool_decide (y = x)) l)).
Definition matching_fields (c : gold_case) : list string := match predictions (case_id c) with Some p => matching c p | None => [] end.

(** How many of the cases satisfy [f]. *)
Definition count (f : gold_case -> bool) (l : list gold_case) : Z := sumZ (fun c => Z.b2z (f c)) l.
Definition of_kind (k : string) (c : gold_case) : bool := bool_decide (kind c = k).
End counting.

(** ** Facts *)

Lemma lookup_after_assign {A} (k k' : string) (v : A) d : k <> k' -> lookup k (assign k' v d) = lookup k d.
Proof.
  intros N. unfold assign, lookup. destruct (bool_decide (k' ∈ keys d)).
  - induction d as [|[x w] d IH]; [done|]. cbn. destruct (bool_decide (x = k')) eqn:E; cbn; [|by destruct (bool_decide (x = k))].
    apply bool_decide_eq_true in E as ->. by rewrite bool_decide_eq_false_2.
  - induction d as [|[x w] d IH]; cbn; [by rewrite bool_decide_eq_false_2|]. by destruct (bool_decide (x = k)).
Qed.

Section keys.
Context {C : Type} (zero : C) (plus : C -> C -> C).

Lemma keys_bump n d k' k : k ∈ keys (bump zero plus n d k') <-> k ∈ keys d \/ k = k'.
Proof.
  unfold bump. rewrite keys_assign. destruct (bool_decide (k' ∈ keys d)) eqn:E; [apply bool_decide_eq_true in E; naive_solver|].
  rewrite elem_of_app, list_elem_of_singleton. done.
Qed.

Lemma keys_bumps n l : forall d k, k ∈ keys (foldl (bump zero plus n) d l) <-> k ∈ keys d \/ k ∈ l.
Proof.
  induction l as [|x l IH]; intros d k; cbn [foldl]; [set_solver|]. rewrite IH, keys_bump. set_solver.
Qed.
End keys.

(** A component of a counter that adds up. *)
Section component.
Context {C : Type} (zero : C) (plus : C -> C -> C) (part : C -> Z).
Context (Hzero : part zero = 0) (Hplus : forall a b, part (plus a b) = part a + part b).

Definition part_of (k : string) (d : list (string * C)) : Z := part (default zero (lookup k d)).

Lemma part_bump n d k k' : part_of k (bump zero plus n d k') = part_of k d + Z.b2z (bool_decide (k' = k)) * part n.
Proof.
  unfold part_of, bump. destruct (decide (k' = k)) as [->|N].
  - rewrite lookup_assign, bool_decide_eq_true_2 by done. cbn -[Z.mul Z.add]. rewrite Hplus. lia.
  - rewrite lookup_after_assign, bool_decide_eq_false_2 by done. cbn -[Z.mul Z.add]. lia.
Qed.

Lemma occurrences_cons x y l : occurrences x (y :: l) = Z.b2z (bool_decide (y = x)) + occurrences x l.
Proof. unfold occurrences. cbn. destruct (bool_decide (y = x)); cbn [length Z.b2z]; lia. Qed.

Lemma part_bumps n l : forall d k, part_of k (foldl (bump zero plus n) d l) = part_of k d + occurrences k l * part n.
Proof.
  induction l as [|x l IH]; intros d k; [change (occurrences k []) with 0; cbn [foldl]; lia|]. cbn [foldl]. rewrite IH, part_bump, occurrences_cons. lia.
Qed.

End component.

Lemma part_bump_tags part h l : part no_tally = 0 -> (forall a b, part (plus_tally a b) = part a + part b) -> forall d k,
  part_of no_tally part k (foldl (bump_tag h) d l) =
  part_of no_tally part k d + occurrences k l * (part one_covered + Z.b2z h * part one_exact).
Proof.
  intros Z0 P. induction l as [|x l IH]; intros d k; [change (occurrences k []) with 0; cbn [foldl]; lia|]. cbn [foldl]. rewrite IH, occurrences_cons. unfold bump_tag, bump_kind.
  destruct h; rewrite !(part_bump no_tally plus_tally part) by done; cbn [Z.b2z]; lia.
Qed.

Lemma keys_bump_tags h l : forall d k, k ∈ keys (foldl (bump_tag h) d l) <-> k ∈ keys d \/ k ∈ l.
Proof.
  induction l as [|x l IH]; intros d k; cbn [foldl]; [set_solver|]. rewrite IH. unfold bump_tag, bump_kind.
  destruct h; rewrite !keys_bump; set_solver.
Qed.

(** The counters at a key, all components at once. *)
Definition tally_at (k : string) (d : list (string * tally)) : tally := default no_tally (lookup k d).
Definition field_at (k : string) (d : list (string * field_tally)) : field_tally := default no_field (lookup k d).

Section tallies.
Context (predictions : string -> option dict).
Notation predicted := (predicted predictions).
Notation hit := (hit predictions).

Definition kind_counts (k : string) (l : list gold_case) : tally :=
  {| total := count (of_kind k) l; covered := count (fun c => of_kind k c && predicted c) l; exact := count (fun c => of_kind k c && hit c) l |}.
Definition field_counts (f : string) (l : list gold_case) : field_tally :=
  {| seen := sumZ (fun c => occurrences f (map fst (expect c))) l; matched := sumZ (fun c => occurrences f (matching_fields predictions c)) l |}.
Definition tag_counts (t : string) (l : list gold_case) : tally :=
  {| total := sumZ (fun c => occurrences t (tags c)) l;
     covered := sumZ (fun c => Z.b2z (predicted c) * occurrences t (tags c)) l;
     exact := sumZ (fun c => Z.b2z (hit c) * occurrences t (tags c)) l |}.

(** What the fold has counted of the cases so far. *)
Definition counted (l : list gold_case) (s : score) : Prop :=
  covered_count s = count predicted l /\ exact_count s = count hit l /\
  total_fields s = sumZ (fun c => Z.of_nat (length (expect c))) l /\
  matched_fields s = sumZ (fun c => Z.of_nat (length (matching_fields predictions c))) l /\
  missing_ids s = map case_id (List.filter (fun c => negb (predicted c)) l) /\
  (forall k, tally_at k (by_kind s) = kind_counts k l /\ (k ∈ keys (by_kind s) <-> k ∈ map kind l)) /\
  (forall f, field_at f (by_field s) = field_counts f l /\ (f ∈ keys (by_field s) <-> exists c, c ∈ l /\ f ∈ map fst (expect c))) /\
  (forall t, tally_at t (by_tag s) = tag_counts t l /\ (t ∈ keys (by_tag s) <-> exists c, c ∈ l /\ t ∈ tags c)).

Lemma tally_ext a b : total a = total b -> covered a = covered b -> exact a = exact b -> a = b.
Proof. destruct a, b; cbn; congruence. Qed.
Lemma field_ext a b : seen a = seen b -> matched a = matched b -> a = b.
Proof. destruct a, b; cbn; congruence. Qed.

Lemma sumZ_snoc {A} (f : A -> Z) l x : sumZ f (l ++ [x]) = sumZ f l + f x.
Proof. rewrite sumZ_app. cbn. lia. Qed.

Lemma matching_in c p f : f ∈ matching c p -> f ∈ map fst (expect c).
Proof.
  unfold matching. intros [kv [-> H]]%list_elem_of_fmap. apply filter_elem in H as [H _]. apply list_elem_of_fmap. by exists kv.
Qed.

Lemma exists_snoc {A} (P : A -> Prop) l x : (exists c, c ∈ l ++ [x] /\ P c) <-> (exists c, c ∈ l /\ P c) \/ P x.
Proof. set_solver. Qed.

(** What one case adds. *)
Definition kind_step (k : string) (c : gold_case) : tally :=
  {| total := Z.b2z (of_kind k c); covered := Z.b2z (of_kind k c && predicted c); exact := Z.b2z (of_kind k c && hit c) |}.
Definition field_step (f : string) (c : gold_case) : field_tally :=
  {| seen := occurrences f (map fst (expect c)); matched := occurrences f (matching_fields predictions c) |}.
Definition tag_step (t : string) (c : gold_case) : tally :=
  {| total := occurrences t (tags c); covered := Z.b2z (predicted c) * occurrences t (tags c);
     exact := Z.b2z (hit c) * occurrences t (tags c) |}.

Ltac predicted_or_not c :=
  unfold score_case, kind_step, field_step, tag_step, of_kind, Evaluation.predicted, Evaluation.hit, matching_fields;
  destruct (predictions (case_id c)) as [p|]; cbn -[Z.mul Z.add foldl occurrences keys lookup bump_kind bump_field tally_at field_at].

Lemma kind_added s c k :
  tally_at k (by_kind (score_case predictions s c)) = plus_tally (tally_at k (by_kind s)) (kind_step k c) /\
  (k ∈ keys (by_kind (score_case predictions s c)) <-> k ∈ keys (by_kind s) \/ k = kind c).
Proof.
  split.
  - assert (forall part, part no_tally = 0 -> (forall a b, part (plus_tally a b) = part a + part b) ->
      (part = total \/ part = covered \/ part = exact) ->
      part_of no_tally part k (by_kind (score_case predictions s c)) = part_of no_tally part k (by_kind s) + part (kind_step k c)) as P.
    { intros part P0 P H. predicted_or_not c; [destruct (case_exact c p); cbn -[Z.mul Z.add]|]; unfold bump_kind;
        rewrite !(part_bump no_tally plus_tally part) by done; destruct H as [->|[->| ->]]; destruct (bool_decide _); cbn; lia. }
    apply tally_ext; [apply (P total)|apply (P covered)|apply (P exact)]; auto.
  - predicted_or_not c; [destruct (case_exact c p)|]; unfold bump_kind; rewrite !keys_bump; naive_solver.
Qed.

Lemma field_added s c f :
  field_at f (by_field (score_case predictions s c)) = plus_field (field_at f (by_field s)) (field_step f c) /\
  (f ∈ keys (by_field (score_case predictions s c)) <-> f ∈ keys (by_field s) \/ f ∈ map fst (expect c)).
Proof.
  split.
  - assert (forall part, part no_field = 0 -> (forall a b, part (plus_field a b) = part a + part b) -> (part = seen \/ part = matched) ->
      part_of no_field part f (by_field (score_case predictions s c)) = part_of no_field part f (by_field s) + part (field_step f c)) as P.
    { intros part P0 P H. predicted_or_not c; unfold bump_field; rewrite !(part_bumps no_field plus_field part) by done;
        destruct H as [->| ->]; cbn -[occurrences Z.add Z.mul]; change (occurrences f []) with 0; lia. }
    apply field_ext; [apply (P seen)|apply (P matched)]; auto.
  - pose proof (fun p => matching_in c p f). predicted_or_not c; unfold bump_field; rewrite !keys_bumps; naive_solver.
Qed.

Lemma tag_added s c t :
  tally_at t (by_tag (score_case predictions s c)) = plus_tally (tally_at t (by_tag s)) (tag_step t c) /\
  (t ∈ keys (by_tag (score_case predictions s c)) <-> t ∈ keys (by_tag s) \/ t ∈ tags c).
Proof.
  split.
  - assert (forall part, part no_tally = 0 -> (forall a b, part (plus_tally a b) = part a + part b) ->
      (part = total \/ part = covered \/ part = exact) ->
      part_of no_tally part t (by_tag (score_case predictions s c)) = part_of no_tally part t (by_tag s) + part (tag_step t c)) as P.
    { intros part P0 P H. predicted_or_not c; unfold bump_kind; rewrite ?part_bump_tags by done; rewrite (part_bumps no_tally plus_tally part) by done;
        [destruct (case_exact c p)|]; destruct H as [->|[->| ->]]; cbn -[occurrences Z.add Z.mul]; lia. }
    apply tally_ext; [apply (P total)|apply (P covered)|apply (P exact)]; auto.
  - predicted_or_not c; unfold bump_kind; rewrite ?keys_bump_tags, ?keys_bumps; naive_solver.
Qed.

Lemma counted_case l s c : counted l s -> counted (l ++ [c]) (score_case predictions s c).
Proof.
  intros (Cv & Ex & Tf & Mf & Mi & Kd & Fd & Tg). unfold counted, count. setoid_rewrite sumZ_snoc. setoid_rewrite exists_snoc.
  rewrite map_app, List.filter_app, map_app.
  split_and!.
  1-5: unfold Evaluation.predicted, Evaluation.hit, matching_fields, score_case in *; cbn [List.filter];
    destruct (predictions (case_id c)) as [p|]; cbn; unfold count in *; rewrite ?Cv, ?Ex, ?Tf, ?Mf, ?Mi, ?app_nil_r; done || lia.
  - intros k. destruct (Kd k) as [T K], (kind_added s c k) as [-> K']. rewrite T. split.
    + by apply tally_ext; cbn; unfold count; rewrite sumZ_snoc.
    + rewrite K', K. set_solver.
  - intros f. destruct (Fd f) as [T K], (field_added s c f) as [-> K']. rewrite T. split.
    + by apply field_ext; cbn; rewrite sumZ_snoc.
    + by rewrite K', K.
  - intros t. destruct (Tg t) as [T K], (tag_added s c t) as [-> K']. rewrite T. split.
    + by apply tally_ext; cbn; rewrite sumZ_snoc.
    + by rewrite K', K.
Qed.

Lemma counted_all l : counted l (tallies l predictions).
Proof.
  unfold tallies. induction l as [|c l IH] using rev_ind; [|rewrite foldl_snoc; by apply counted_case].
  cbn. split_and!; try done; intros k; (split; [done|]); split; try (intros H; by apply elem_of_nil in H).
  - intros [c [H _]]. by apply elem_of_nil in H.
  - intros [c [H _]]. by apply elem_of_nil in H.
Qed.

(** A part of the whole is a ratio from 0 to 1. *)
Lemma ratio_bounds n d : 0 <= n <= d -> fle fzero (ratio n d) = true /\ fle (ratio n d) (of_int 1) = true.
Proof.
  intros H. unfold ratio. destruct (Z.eqb_spec d 0) as [->|D]; [by split|]. unfold round6, int_div, of_int.
  set (x := rnd n d). assert (0 < den x) as P by apply den_pos.
  assert (num x <= den x) as U.
  { pose proof (rnd_mono n d 1 1 ltac:(lia) ltac:(lia) ltac:(lia) ltac:(lia) ltac:(lia)) as M. apply Z.leb_le in M. fold x in M.
    change (num (rnd 1 1)) with (den (rnd 1 1)) in M. pose proof (den_pos (rnd 1 1)). nia. }
  assert (0 <= num x) as L.
  { pose proof (rnd_mono 0 1 n d ltac:(lia) ltac:(lia) ltac:(lia) ltac:(lia) ltac:(lia)) as M. apply Z.leb_le in M. fold x in M.
    change (num (rnd 0 1)) with 0 in M. change (den (rnd 0 1)) with 1 in M. lia. }
  assert (0 <= round_half_even (num x * 10 ^ 6) (den x) <= 10 ^ 6) as R.
  { split; [apply round_half_even_ge|apply round_half_even_le]; nia. }
  split; [apply (rnd_mono 0 1)|apply rnd_mono]; lia.
Qed.

Lemma count_le (f g : gold_case -> bool) l : (forall c, f c = true -> g c = true) -> 0 <= count f l <= count g l.
Proof.
  intros H. unfold count. induction l as [|c l IH]; [done|]. cbn [sumZ foldr]. fold (sumZ (fun c => Z.b2z (f c)) l) (sumZ (fun c => Z.b2z (g c)) l).
  specialize (H c). destruct (f c); [rewrite H by done|destruct (g c)]; cbn [Z.b2z]; lia.
Qed.

Lemma hit_predicted c : hit c = true -> predicted c = true.
Proof. unfold Evaluation.hit, Evaluation.predicted. by destruct (predictions (case_id c)). Qed.

(** Keys stay distinct. *)
Lemma nodup_bumps {C} (zero : C) plus n l : forall d, NoDup (keys d) -> NoDup (keys (foldl (bump zero plus n) d l)).
Proof. induction l as [|x l IH]; intros d H; [done|]. apply IH. by apply nodup_assign. Qed.

Lemma nodup_bump_tags h l : forall d, NoDup (keys d) -> NoDup (keys (foldl (bump_tag h) d l)).
Proof.
  induction l as [|x l IH]; intros d H; [done|]. apply IH. unfold bump_tag, bump_kind, bump. destruct h; by repeat apply nodup_assign.
Qed.

Lemma nodup_tallies l : NoDup (keys (by_field (tallies l predictions))) /\ NoDup (keys (by_tag (tallies l predictions))).
Proof.
  unfold tallies. induction l as [|c l [F T]] using rev_ind; [split; constructor|]. rewrite foldl_snoc. unfold score_case.
  destruct (predictions (case_id c)); cbn; split; unfold bump_field, bump_kind;
    repeat (apply nodup_bumps || apply nodup_bump_tags); done.
Qed.

Lemma entry_at {A} (k : string) (v : A) d : NoDup (keys d) -> (k, v) ∈ d -> lookup k d = Some v.
Proof.
  intros N H. apply list_elem_of_split in H as [d1 [d2 ->]]. apply lookup_at. intros X. unfold keys in N, X. rewrite map_app in N. cbn in N.
  apply NoDup_app in N as (_ & N & _). apply (N k X). by left.
Qed.

Lemma occurrences_nonneg x l : 0 <= occurrences x l.
Proof. unfold occurrences. lia. Qed.

Lemma occurrences_pos x l : x ∈ l -> 0 < occurrences x l.
Proof.
  induction l as [|y l IH]; intros H; [by apply elem_of_nil in H|]. rewrite occurrences_cons. pose proof (occurrences_nonneg x l).
  apply elem_of_cons in H as [->|H]; [rewrite bool_decide_eq_true_2 by done; cbn; lia|]. specialize (IH H). destruct (bool_decide _); cbn; lia.
Qed.

Lemma sumZ_pos {A} (f : A -> Z) l x : (forall y, 0 <= f y) -> x ∈ l -> 0 < f x -> 0 < sumZ f l.
Proof.
  intros P H F. apply list_elem_of_split in H as [l1 [l2 ->]]. rewrite sumZ_app. pose proof (sumZ_nonneg f l1). pose proof (sumZ_nonneg f l2).
  cbn [sumZ foldr]. fold (sumZ f l2). specialize (H (fun y _ => P y)). specialize (H0 (fun y _ => P y)). lia.
Qed.

Lemma ratio_round n d : 0 < d -> round6 (int_div n d) = ratio n d.
Proof. intros H. unfold ratio. by destruct (Z.eqb_spec d 0); [lia|]. Qed.

(** The entries of a table that is listed by name with a ratio beside each. *)
Lemma listed_entries {C} (f : C -> float) (d : list (string * C)) k x :
  (k, x) ∈ stable_sort by_name (map (fun kv => (kv.1, (kv.2, f kv.2))) d) <-> (k, x.1) ∈ d /\ x.2 = f x.1.
Proof.
  rewrite stable_sort_perm, list_elem_of_fmap. destruct x as [c r]. cbn. split.
  - by intros [[k' c'] [[= -> -> ->] H]].
  - intros [H ->]. by exists (k, c).
Qed.

Lemma listed_keys {C} (f : C -> float) (d : list (string * C)) k :
  k ∈ keys (stable_sort by_name (map (fun kv => (kv.1, (kv.2, f kv.2))) d)) <-> k ∈ keys d.
Proof.
  unfold keys. rewrite !list_elem_of_fmap. split.
  - intros [[k' x] [-> H]]. apply listed_entries in H as [H _]. by exists (k', x.1).
  - intros [[k' c] [-> H]]. exists (k', (c, f c)). split; [done|]. by apply listed_entries.
Qed.


End tallies.

End Evaluation.
