(* ===== verification/LoopDetection.v ===== *)
(** * Detection of tool-call loops

    [deerflow/agents/middlewares/loop_detection_middleware.py] with
    [_bounded_dict.py]: the fingerprint of a response's tool calls, the sliding
    window and the per-tool counters of a thread, the warnings queued for the
    next model call, and the forced stop.  Every method holds the middleware's
    lock while it touches this state, so each is one step. *)
From S2P Require Import Prelude Sha256 Json Errors Text Slices Numerals JsonText OrderedDict.
Import Sha256 Json Errors Text Slices Numerals JsonText.

Module LoopDetection.
Import OrderedDict.OrderedDict.

Record ToolCall := { tc_name : string; tc_args : json }.

Record Config := {
  warn_threshold : Z;
  hard_limit : Z;
  window_size : Z;
  max_tracked_threads : Z;
  tool_freq_warn : Z;
  tool_freq_hard_limit : Z;
  tool_freq_overrides : gmap string (Z * Z)
}.

(** [LoopDetectionConfig] and [ToolFreqOverride] *)
Definition valid_config (c : Config) : bool :=
  (1 <=? warn_threshold c) && (1 <=? hard_limit c) && (1 <=? window_size c) &&
  (1 <=? max_tracked_threads c) && (1 <=? tool_freq_warn c) && (1 <=? tool_freq_hard_limit c) &&
  (warn_threshold c <=? hard_limit c) && (tool_freq_warn c <=? tool_freq_hard_limit c) &&
  bool_decide (map_Forall (fun _ o => 1 <= o.1 /\ o.1 <= o.2) (tool_freq_overrides c)).

Definition default_config : Config :=
  {| warn_threshold := 3; hard_limit := 5; window_size := 20; max_tracked_threads := 100;
     tool_freq_warn := 30; tool_freq_hard_limit := 50; tool_freq_overrides := ∅ |}.

Definition _MAX_PENDING_WARNINGS_PER_RUN : nat := 4.
Definition _max_pending_warning_keys (c : Config) : Z := Z.max 1 (max_tracked_threads c * 2).
Definition stop_reasons_kept : Z := 1000.

(** ** The fingerprint of a response *)

(** [json.dumps(v, sort_keys=True)]: non-ASCII characters are escaped. *)
Definition hex4_text (n : N) : string :=
  String (hex_digit (Z.of_N (n / 4096))) (String (hex_digit (Z.of_N (n / 256 mod 16)))
    (String (hex_digit (Z.of_N (n / 16 mod 16))) (String (hex_digit (Z.of_N (n mod 16))) ""))).

(** The code point of the UTF-8 bytes of one character. *)
Definition code_point (c : string) : N :=
  match map N_of_ascii (String.list_ascii_of_string c) with
  | [a] => a
  | [a; b] => ((a - 0xc0) * 64 + (b - 0x80))%N
  | [a; b; d] => (((a - 0xe0) * 64 + (b - 0x80)) * 64 + (d - 0x80))%N
  | [a; b; d; e] => ((((a - 0xf0) * 64 + (b - 0x80)) * 64 + (d - 0x80)) * 64 + (e - 0x80))%N
  | _ => 0xfffd%N
  end.

Definition ascii_char (c : string) : string :=
  let n := code_point c in
  if (n <? 127)%N then escape c
  else if (n <? 0x10000)%N then backslash +:+ "u" +:+ hex4_text n
  else let m := (n - 0x10000)%N in
       backslash +:+ "u" +:+ hex4_text (0xd800 + m / 1024) +:+
       backslash +:+ "u" +:+ hex4_text (0xdc00 + m mod 1024).

Definition quoted_ascii (s : string) : string := quote +:+ text_of (map ascii_char (chars s)) +:+ quote.

Fixpoint print_ascii (j : json) : string :=
  match j with
  | JStr s => quoted_ascii s
  | JList l => "[" +:+ join ", " (map print_ascii l) +:+ "]"
  | JObj kvs => "{" +:+ join ", " (map (fun kv => quoted_ascii kv.1 +:+ ": " +:+ print_ascii kv.2) kvs) +:+ "}"
  | _ => print j
  end.

Definition dumps_ascii (j : json) : string := print_ascii (sort_keys j).

Definition _normalize_tool_call_args (raw_args : json) : dict * option string :=
  match raw_args with
  | JObj d => (d, None)
  | JStr s => match loads s with
              | None => ([], Some s)
              | Some (JObj d) => (d, None)
              | Some v => ([], Some (dumps_ascii v))
              end
  | JNull => ([], None)
  | v => ([], Some (dumps_ascii v))
  end.

(** [int(v)] with [TypeError] and [ValueError] replaced by [None]; an infinite
    float raises [OverflowError]. *)
Definition OverflowError : exn_class := Subclass "OverflowError" ArithmeticError.
Definition int_or_none (v : json) : result (option Z) :=
  match v with
  | JInt z => Ok (Some z)
  | JBool b => Ok (Some (if b then 1 else 0))
  | JStr s => Ok (int_of_text s)
  | JFloat r => match float_of_text r with
                | Some (Finite neg x) => let n := Float64.Float64.num x / Float64.Float64.den x in
                                         Ok (Some (if (neg : bool) then - n else n))
                | Some (Infinite _) => Raise (Exn OverflowError "cannot convert float infinity to integer")
                | _ => Ok None
                end
  | _ => Ok None
  end.

Definition line_or (v : option json) (otherwise : Z) : result Z :=
  match v with
  | None | Some JNull => Ok otherwise
  | Some v => n <-? int_or_none v ;; Ok (default otherwise n)
  end.

Definition salient_fields : list string := ["path"; "url"; "query"; "command"; "pattern"; "glob"; "cmd"].

Section fingerprint.

(** [str(v)] of a value that is no text, and [hashlib.md5(blob).hexdigest()]. *)
Context (py_str : json -> string) (md5 : string -> string).

Definition text_or_str (v : json) : string := match v with JStr s => s | v => py_str v end.

Definition _stable_tool_key (name : string) (args : dict) (fallback_key : option string) : result string :=
  match (name =? "read_file")%string, fallback_key with
  | true, None =>
      let path := match get "path" args with Some v => if truthy v then text_or_str v else "" | None => "" end in
      start_line <-? line_or (get "start_line" args) 1 ;;
      end_line <-? line_or (get "end_line" args) start_line ;;
      let bucket n := (Z.max n 1 - 1) / 200 in
      Ok (path +:+ ":" +:+ pretty (bucket (Z.min start_line end_line)) +:+ "-" +:+
          pretty (bucket (Z.max start_line end_line)))
  | _, _ =>
      if bool_decide (name ∈ ["write_file"; "str_replace"])
      then Ok (default (dumps_ascii (JObj args)) fallback_key)
      else
        let stable_args := omap (fun f => match get f args with
                                          | None | Some JNull => None
                                          | Some v => Some (f, v) end) salient_fields in
        match stable_args with
        | _ :: _ => Ok (dumps_ascii (JObj stable_args))
        | [] => Ok (default (dumps_ascii (JObj args)) fallback_key)
        end
  end.

Fixpoint call_keys (l : list ToolCall) : result (list string) :=
  match l with
  | [] => Ok []
  | tc :: l =>
      let '(args, fallback_key) := _normalize_tool_call_args (tc_args tc) in
      key <-? _stable_tool_key (tc_name tc) args fallback_key ;;
      keys <-? call_keys l ;;
      Ok ((tc_name tc +:+ ":" +:+ key) :: keys)
  end.

Definition text_le (a b : string) : Prop := String.le a b.
#[export] Instance text_le_dec : RelDecision text_le := String.le_dec.

Definition _hash_tool_calls (l : list ToolCall) : result string :=
  normalized <-? call_keys l ;;
  Ok (prefix 12 (md5 (dumps_ascii (JList (map JStr (merge_sort text_le normalized)))))).

End fingerprint.
(** ** The state *)

Record State := {
  _history : list (string * list string);
  _warned : gmap string (list string);
  _tool_freq : gmap string (gmap string Z);
  _tool_freq_warned : gmap string (list string);
  _pending_warnings : gmap (string * string) (list string);
  _pending_warning_touch_order : list ((string * string) * unit);
  _stop_reason : list (string * string)
}.

Definition new_state : State :=
  {| _history := []; _warned := ∅; _tool_freq := ∅; _tool_freq_warned := ∅; _pending_warnings := ∅;
     _pending_warning_touch_order := []; _stop_reason := [] |}.

Definition with_tracking h w f fw p o (s : State) : State :=
  {| _history := h; _warned := w; _tool_freq := f; _tool_freq_warned := fw; _pending_warnings := p;
     _pending_warning_touch_order := o; _stop_reason := _stop_reason s |}.

Definition with_pending p o (s : State) : State :=
  with_tracking (_history s) (_warned s) (_tool_freq s) (_tool_freq_warned s) p o s.

(** Drop the pending warnings under the keys that [f] selects. *)
Definition drop_pending (f : string * string -> bool) (s : State) : State :=
  with_pending (filter (fun kv => f kv.1 = false) (_pending_warnings s))
               (List.filter (fun kv => negb (f kv.1)) (_pending_warning_touch_order s)) s.

(** One round of [_evict_if_needed]. *)
Definition evict_oldest (s : State) : State :=
  match _history s with
  | [] => s
  | (t, _) :: h =>
      drop_pending (fun k => (k.1 =? t)%string)
        (with_tracking h (delete t (_warned s)) (delete t (_tool_freq s)) (delete t (_tool_freq_warned s))
           (_pending_warnings s) (_pending_warning_touch_order s) s)
  end.

Fixpoint evict (fuel : nat) (c : Config) (s : State) : State :=
  match fuel with
  | O => s
  | S fuel => if max_tracked_threads c <? Z.of_nat (length (_history s)) then evict fuel c (evict_oldest s) else s
  end.
Definition _evict_if_needed (c : Config) (s : State) : State := evict (length (_history s)) c s.

(** Mark a thread as the most recently used, tracking it if it is new. *)
Definition touch_thread (c : Config) (t : string) (s : State) : State :=
  if bool_decide (t ∈ keys (_history s))
  then with_tracking (move_to_end t (_history s)) (_warned s) (_tool_freq s) (_tool_freq_warned s)
         (_pending_warnings s) (_pending_warning_touch_order s) s
  else _evict_if_needed c
         (with_tracking (assign t [] (_history s)) (_warned s) (_tool_freq s) (_tool_freq_warned s)
            (_pending_warnings s) (_pending_warning_touch_order s) s).

(** [history[-n:]] once the list is longer than [n]. *)
Definition keep_last (n : Z) (l : list string) : list string := drop (length l - Z.to_nat n) l.

Definition occurrences (h : string) (l : list string) : Z := Z.of_nat (length (List.filter (String.eqb h) l)).

Definition _WARNING_MSG : string := "[LOOP DETECTED] You are repeating the same tool calls. Stop calling tools and produce your final answer now. If you cannot complete the task, summarize what you accomplished so far.".
Definition _TOOL_FREQ_WARNING_MSG (tool : string) (n : Z) : string :=
  "[LOOP DETECTED] You have called " +:+ tool +:+ " " +:+ pretty n +:+ " times without producing a final answer. Stop calling tools and produce your final answer now. If you cannot complete the task, summarize what you accomplished so far.".
Definition _HARD_STOP_MSG : string := "[FORCED STOP] Repeated tool calls exceeded the safety limit. Producing final answer with results collected so far.".
Definition _TOOL_FREQ_HARD_STOP_MSG (tool : string) (n : Z) : string :=
  "[FORCED STOP] Tool " +:+ tool +:+ " called " +:+ pretty n +:+ " times " +:+ bytes [0xe2; 0x80; 0x94]%N +:+
  " exceeded the per-tool safety limit. Producing final answer with results collected so far.".

(** What a check concludes. *)
Inductive verdict := Pass | Warn (text : string) | Stop (text : string).

Definition limits (c : Config) (name : string) : Z * Z :=
  default (tool_freq_warn c, tool_freq_hard_limit c) (tool_freq_overrides c !! name).

(** Layer 2: the counters of the tools, until one of them speaks. *)
Fixpoint count_tools (c : Config) (names : list string) (freq : gmap string Z) (warned : list string)
    : verdict * gmap string Z * list string :=
  match names with
  | [] => (Pass, freq, warned)
  | name :: names =>
      if (name =? "")%string then count_tools c names freq warned else
      let n := default 0 (freq !! name) + 1 in
      let freq := <[name := n]> freq in
      let '(eff_warn, eff_hard) := limits c name in
      if eff_hard <=? n then (Stop (_TOOL_FREQ_HARD_STOP_MSG name n), freq, warned)
      else if (eff_warn <=? n) && negb (bool_decide (name ∈ warned))
      then (Warn (_TOOL_FREQ_WARNING_MSG name n), freq, warned ++ [name])
      else count_tools c names freq warned
  end.

(** The critical section of [_track_and_check], on the fingerprint and the
    names of the response's calls. *)
Definition track (c : Config) (t call_hash : string) (names : list string) (s : State) : verdict * State :=
  let s := touch_thread c t s in
  let history := keep_last (window_size c) (default [] (lookup t (_history s)) ++ [call_hash]) in
  let warned := match _warned s !! t with
                | Some w => match List.filter (fun h => bool_decide (h ∈ history)) w with
                            | [] => delete t (_warned s)
                            | w => <[t := w]> (_warned s)
                            end
                | None => _warned s
                end in
  let s := with_tracking (assign t history (_history s)) warned (_tool_freq s) (_tool_freq_warned s)
             (_pending_warnings s) (_pending_warning_touch_order s) s in
  let n := occurrences call_hash history in
  if hard_limit c <=? n then (Stop _HARD_STOP_MSG, s)
  else if (warn_threshold c <=? n) && negb (bool_decide (call_hash ∈ default [] (warned !! t))) then
    (Warn _WARNING_MSG,
     with_tracking (_history s) (<[t := default [] (warned !! t) ++ [call_hash]]> warned) (_tool_freq s)
       (_tool_freq_warned s) (_pending_warnings s) (_pending_warning_touch_order s) s)
  else
    let freq_warned := default [] (_tool_freq_warned s !! t) in
    let '(v, freq, freq_warned') := count_tools c names (default ∅ (_tool_freq s !! t)) freq_warned in
    (v, with_tracking (_history s) (_warned s) (<[t := freq]> (_tool_freq s))
          (if bool_decide (freq_warned' = freq_warned) then _tool_freq_warned s
           else <[t := freq_warned']> (_tool_freq_warned s))
          (_pending_warnings s) (_pending_warning_touch_order s) s).

(** ** Warnings for the next call *)

Definition _prune_pending_warning_state_locked (c : Config) (protected_key : string * string) (s : State) : State :=
  let order := keys (_pending_warning_touch_order s) in
  let overflow := Z.of_nat (length order) - _max_pending_warning_keys c in
  if overflow <=? 0 then s else
  let candidates := List.filter (fun k => negb (bool_decide (k = protected_key))) order in
  drop_pending (fun k => bool_decide (k ∈ take (Z.to_nat overflow) candidates)) s.

Definition _queue_pending_warning (c : Config) (key : string * string) (warning : string) (s : State) : State :=
  let warnings := default [] (_pending_warnings s !! key) in
  let warnings := if bool_decide (warning ∈ warnings) then warnings else warnings ++ [warning] in
  let warnings := drop (length warnings - _MAX_PENDING_WARNINGS_PER_RUN) warnings in
  _prune_pending_warning_state_locked c key
    (with_pending (<[key := warnings]> (_pending_warnings s))
       (move_to_end key (assign key tt (_pending_warning_touch_order s))) s).

Definition blank_line : string := newline +:+ newline.

Definition _format_warning_message (warnings : list string) : string := join blank_line (fromkeys warnings).

Definition _drain_pending_warnings (key : string * string) (s : State) : list string * State :=
  (default [] (_pending_warnings s !! key),
   with_pending (delete key (_pending_warnings s)) (pop key (_pending_warning_touch_order s)) s).

Definition _clear_other_run_pending_warnings (key : string * string) (s : State) : State :=
  drop_pending (fun k => (k.1 =? key.1)%string && negb (k.2 =? key.2)%string) s.

Definition _clear_current_run_pending_warnings (key : string * string) (s : State) : State :=
  drop_pending (fun k => bool_decide (k = key)) s.

Definition consume_stop_reason (run_id : string) (s : State) : option string * State :=
  (lookup run_id (_stop_reason s),
   {| _history := _history s; _warned := _warned s; _tool_freq := _tool_freq s;
      _tool_freq_warned := _tool_freq_warned s; _pending_warnings := _pending_warnings s;
      _pending_warning_touch_order := _pending_warning_touch_order s;
      _stop_reason := pop run_id (_stop_reason s) |}).

Definition reset (thread_id : option string) (s : State) : State :=
  match thread_id with
  | Some t =>
      if (t =? "")%string then new_state else
      drop_pending (fun k => (k.1 =? t)%string)
        (with_tracking (pop t (_history s)) (delete t (_warned s)) (delete t (_tool_freq s))
           (delete t (_tool_freq_warned s)) (_pending_warnings s) (_pending_warning_touch_order s) s)
  | None => new_state
  end.

(** ** The hooks *)

Record AIMessage := {
  content : json;
  tool_calls : list ToolCall;
  additional_kwargs : dict;
  response_metadata : dict;
  ai_rest : json
}.

Definition without (k : string) (d : dict) : dict := List.filter (fun kv => negb (kv.1 =? k)%string) d.

Section hooks.
Context (py_str : json -> string) (md5 : string -> string).

Definition _append_text (content : json) (text : string) : json :=
  match content with
  | JNull => JStr text
  | JList l => JList (l ++ [JObj [("type", JStr "text"); ("text", JStr (blank_line +:+ text))]])
  | v => JStr (text_or_str py_str v +:+ blank_line +:+ text)
  end.

Definition _build_hard_stop_update (m : AIMessage) (content : json) : AIMessage :=
  {| content := content; tool_calls := [];
     additional_kwargs := without "function_call" (without "tool_calls" (additional_kwargs m));
     response_metadata :=
       match get "finish_reason" (response_metadata m) with
       | Some (JStr "tool_calls") => set_key "finish_reason" (JStr "stop") (response_metadata m)
       | _ => response_metadata m
       end;
     ai_rest := ai_rest m |}.

(** [after_model]: the message that replaces the last one, if any.  [last] is
    the last message when it is an assistant's. *)
Definition _apply (c : Config) (key : string * string) (last : option AIMessage) (s : State)
    : result (option AIMessage) * State :=
  match last with
  | None => (Ok None, s)
  | Some m =>
      match tool_calls m with
      | [] => (Ok None, s)
      | calls =>
          match _hash_tool_calls py_str md5 calls with
          | Raise e => (Raise e, s)
          | Ok h =>
              let '(v, s) := track c key.1 h (map tc_name calls) s in
              match v with
              | Pass => (Ok None, s)
              | Warn text => (Ok None, _queue_pending_warning c key text s)
              | Stop text =>
                  (Ok (Some (_build_hard_stop_update m (_append_text (content m) text))),
                   {| _history := _history s; _warned := _warned s; _tool_freq := _tool_freq s;
                      _tool_freq_warned := _tool_freq_warned s; _pending_warnings := _pending_warnings s;
                      _pending_warning_touch_order := _pending_warning_touch_order s;
                      _stop_reason := bounded_assign stop_reasons_kept key.2 "loop_capped" (_stop_reason s) |})
              end
          end
      end
  end.
End hooks.

(** [_augment_request]: the queued warnings go behind all messages. *)
Definition _augment_request {M} (human : string -> M) (key : string * string) (messages : list M) (s : State)
    : list M * State :=
  let '(warnings, s) := _drain_pending_warnings key s in
  (match warnings with [] => messages | _ => messages ++ [human (_format_warning_message warnings)] end, s).

(** The calls a runtime makes on the middleware; a call that raises changes
    nothing.  [key] is the thread and the run of the runtime's context. *)
Inductive hook :=
  | BeforeAgent (key : string * string)
  | AfterModel (key : string * string) (last : option AIMessage)
  | ModelCall (key : string * string)
  | AfterAgent (key : string * string)
  | ConsumeStopReason (run_id : string)
  | Reset (thread_id : option string).

Section machine.
Context (py_str : json -> string) (md5 : string -> string) (c : Config).

Definition perform (s : State) (h : hook) : State :=
  match h with
  | BeforeAgent key => _clear_other_run_pending_warnings key s
  | AfterModel key last => (_apply py_str md5 c key last s).2
  | ModelCall key => (_drain_pending_warnings key s).2
  | AfterAgent key => _clear_current_run_pending_warnings key s
  | ConsumeStopReason run_id => (consume_stop_reason run_id s).2
  | Reset thread_id => reset thread_id s
  end.

Definition performs (s : State) (hs : list hook) : State := foldl perform s hs.

(** The thread and the fingerprint that a call tracks. *)
Definition tracked (h : hook) : option (string * string) :=
  match h with
  | AfterModel key (Some m) =>
      match tool_calls m with
      | [] => None
      | calls => match _hash_tool_calls py_str md5 calls with Ok f => Some (key.1, f) | Raise _ => None end
      end
  | _ => None
  end.
End machine.

End LoopDetection.
