(* ===== verification/LoopGuard.v ===== *)
(** * The tool-call loop guard is bounded and stops repetition

    The theorems about [LoopDetection]: the place of a thread in the
    least-recently-used order, the bounds of the
    middleware's state over every history of calls, and the guarantee that a
    repeated response is stopped. *)
From S2P Require Import Prelude Json Errors Text JsonText OrderedDict LoopDetection.
Import Json Errors Text JsonText OrderedDict OrderedDict.OrderedDict LoopDetection.LoopDetection.

Module LoopGuard.

(** ** The window of a thread *)

Lemma evict_keeps c fuel : forall s k w d1 d2, (length (_history s) <= fuel)%nat ->
  _history s = d1 ++ (k, w) :: d2 -> Z.of_nat (S (length d2)) <= max_tracked_threads c ->
  exists d1', _history (evict fuel c s) = d1' ++ (k, w) :: d2 /\ (exists e, d1 = e ++ d1') /\
    Z.of_nat (length (_history (evict fuel c s))) <= Z.max (max_tracked_threads c) (Z.of_nat (length (_history s))) /\
    Z.of_nat (length (_history (evict fuel c s))) <= max_tracked_threads c.
Proof.
  induction fuel as [|fuel IH]; intros s k w d1 d2 Hf E Hd; cbn [evict].
  - rewrite E, length_app in Hf. cbn in Hf. lia.
  - destruct (Z.ltb_spec (max_tracked_threads c) (Z.of_nat (length (_history s)))) as [L|L].
    + destruct d1 as [|[t w'] d1]; [rewrite E in L; cbn in L; lia|].
      destruct (IH (evict_oldest s) k w d1 d2) as [d1' [H1 [[e H2] [H3 H4]]]].
      * unfold evict_oldest. rewrite E. rewrite E in Hf. cbn in *. lia.
      * unfold evict_oldest. by rewrite E.
      * done.
      * exists d1'. split_and!; [done| |lia|done]. exists ((t, w') :: e). cbn. by rewrite H2.
    + exists d1. split_and!; [done| |lia|lia]. by exists [].
Qed.

Lemma keep_last_length n l : 0 <= n -> Z.of_nat (length (keep_last n l)) <= n.
Proof. intros H. unfold keep_last. rewrite length_drop. lia. Qed.

(** What tracking a call does to the windows: the window of the thread moves
    to the end, and other threads are only dropped from the front. *)
Definition in_order (d d' : list (string * list string)) : Prop := exists e, d = e ++ d'.

Lemma touch_thread_history c t s : 1 <= max_tracked_threads c -> NoDup (keys (_history s)) ->
  exists d, _history (touch_thread c t s) = d ++ [(t, default [] (lookup t (_history s)))] /\
    in_order (pop t (_history s)) d /\ NoDup (keys (d ++ [(t, @nil string)])) /\
    (Z.of_nat (length (_history s)) <= max_tracked_threads c -> Z.of_nat (S (length d)) <= max_tracked_threads c) /\
    (forall k w d1 d2, k <> t -> _history s = d1 ++ (k, w) :: d2 ->
       Z.of_nat (length (pop t d2)) + 2 <= max_tracked_threads c ->
       exists d1', d = d1' ++ (k, w) :: pop t d2).
Proof.
  intros Hm Nd. unfold touch_thread. destruct (bool_decide (t ∈ keys (_history s))) eqn:E.
  - apply bool_decide_eq_true in E. destruct (split_at _ _ E) as [v [d1 [d2 H]]]. cbn [_history with_tracking].
    rewrite H in *. pose proof Nd as Nd'. unfold keys in Nd'. rewrite map_app in Nd'. cbn in Nd'.
    apply NoDup_app in Nd' as [N1 [D N]]. apply NoDup_cons in N as [N N2].
    assert (t ∉ keys d1) as Hd1 by (intros X; apply (D t X); left).
    rewrite move_at by done. rewrite lookup_at by done. exists (d1 ++ d2).
    assert (pop t (d1 ++ (t, v) :: d2) = d1 ++ d2) as P.
    { unfold pop. rewrite List.filter_app. cbn. rewrite bool_decide_eq_true_2 by done. cbn.
      fold (pop t d1) (pop t d2). by rewrite !pop_other. }
    split_and!; [done| | | |].
    + rewrite P. by exists [].
    + unfold keys. rewrite !map_app. cbn. apply NoDup_app. split_and!; [|set_solver|apply NoDup_singleton].
      apply NoDup_app. split_and!; [done|set_solver|done].
    + rewrite !length_app. cbn. lia.
    + intros k w e1 e2 Hk He _. rewrite <- P, He. unfold pop. rewrite List.filter_app. cbn.
      rewrite bool_decide_eq_false_2 by done. cbn. by exists (pop t e1).
  - apply bool_decide_eq_false in E. unfold _evict_if_needed.
    set (s' := with_tracking (assign t [] (_history s)) (_warned s) (_tool_freq s) (_tool_freq_warned s)
      (_pending_warnings s) (_pending_warning_touch_order s) s).
    assert (_history s' = _history s ++ [(t, [])]) as H'.
    { unfold s', assign. cbn [_history with_tracking]. by rewrite bool_decide_eq_false_2. }
    destruct (evict_keeps c (length (_history s')) s' t [] (_history s) []) as [d [H1 [[e H2] [H3 H4]]]];
      [lia|done|cbn; lia|].
    rewrite (lookup_none _ _ E). exists d. cbn [default]. rewrite pop_other by done. split_and!.
    + exact H1.
    + by exists e.
    + rewrite H2 in Nd, E. unfold keys in *. rewrite map_app in *. cbn. apply NoDup_app in Nd as [_ [_ Nd]].
      apply NoDup_app. split_and!; [done|set_solver|apply NoDup_singleton].
    + intros _. rewrite H1, length_app in H4. cbn in H4. lia.
    + intros k w d1 d2 Hk He Hl.
      assert (t ∉ keys d2) as Ht by (rewrite He in E; unfold keys in *; rewrite map_app in E; cbn in E; set_solver).
      rewrite pop_other in * by done.
      destruct (evict_keeps c (length (_history s')) s' k w d1 (d2 ++ [(t, [])])) as [d1' [G1 _]].
      * lia.
      * rewrite H', He. by rewrite <- app_assoc.
      * rewrite length_app. cbn. lia.
      * exists d1'. rewrite G1 in H1. change (d1' ++ (k, w) :: d2 ++ [(t, [])]) with (d1' ++ ((k, w) :: d2) ++ [(t, [])]) in H1.
        rewrite app_assoc in H1. by apply app_inj_tail in H1 as [<- _].
Qed.

(** [track] puts the new window where [touch_thread] put the thread. *)
Lemma track_history c t f names s d w : NoDup (keys (d ++ [(t, w)])) ->
  _history (touch_thread c t s) = d ++ [(t, w)] ->
  _history (track c t f names s).2 = d ++ [(t, keep_last (window_size c) (w ++ [f]))].
Proof.
  intros Nd H. unfold track. rewrite H.
  pose proof (fresh_last _ _ _ Nd) as Ht.
  rewrite (lookup_at t w d []) by done. cbn [default from_option id]. rewrite assign_at by done.
  repeat case_match; done.
Qed.

(** ** Bounds of the state *)

Record bounded (c : Config) (s : State) : Prop := {
  threads_once : NoDup (keys (_history s));
  threads_capped : Z.of_nat (length (_history s)) <= max_tracked_threads c;
  windows_capped : Forall (fun kv => Z.of_nat (length kv.2) <= window_size c) (_history s);
  queues_once : NoDup (keys (_pending_warning_touch_order s));
  queues_known k : is_Some (_pending_warnings s !! k) <-> k ∈ keys (_pending_warning_touch_order s);
  queues_capped : Z.of_nat (length (_pending_warning_touch_order s)) <= _max_pending_warning_keys c;
  warnings_capped : map_Forall (fun _ l => length l <= _MAX_PENDING_WARNINGS_PER_RUN)%nat (_pending_warnings s);
  reasons_capped : Z.of_nat (length (_stop_reason s)) <= stop_reasons_kept
}.

(** The part about the queues, which most steps only shrink. *)
Record queues_ok (n : Z) (p : gmap (string * string) (list string)) (o : list ((string * string) * unit)) : Prop := {
  q_once : NoDup (keys o);
  q_known k : is_Some (p !! k) <-> k ∈ keys o;
  q_capped : Z.of_nat (length o) <= n;
  q_warnings : map_Forall (fun _ l => length l <= _MAX_PENDING_WARNINGS_PER_RUN)%nat p
}.

Definition windows_ok (c : Config) (h : list (string * list string)) : Prop :=
  NoDup (keys h) /\ Z.of_nat (length h) <= max_tracked_threads c /\
  Forall (fun kv => Z.of_nat (length kv.2) <= window_size c) h.

Lemma bounded_parts c s : bounded c s <->
  windows_ok c (_history s) /\ queues_ok (_max_pending_warning_keys c) (_pending_warnings s) (_pending_warning_touch_order s) /\
  Z.of_nat (length (_stop_reason s)) <= stop_reasons_kept.
Proof.
  split.
  - intros []. by repeat split; try apply queues_known0.
  - intros [[? []] [[] ?]]. by constructor.
Qed.

Lemma length_filter_le {A} (f : A -> bool) l : (length (List.filter f l) <= length l)%nat.
Proof. induction l; cbn; [done|]. destruct (f a); cbn; lia. Qed.

Lemma queues_filter n m f p o : queues_ok m p o ->
  Z.of_nat (length (List.filter (fun kv => negb (f kv.1)) o)) <= n ->
  queues_ok n (filter (fun kv => f kv.1 = false) p) (List.filter (fun kv => negb (f kv.1)) o).
Proof.
  intros [H1 H2 _ H4] H3. constructor; [| |done|].
  - by apply (nodup_keys_filter (fun k => negb (f k))).
  - intros k. rewrite (keys_filter (fun k => negb (f k))), filter_elem, <- H2, negb_true_iff. split.
    + intros [l H]. apply map_lookup_filter_Some in H as [H E]. by split; [exists l|].
    + intros [[l H] E]. exists l. by apply map_lookup_filter_Some.
  - intros k l H. apply map_lookup_filter_Some in H as [H _]. by apply (H4 k).
Qed.

Lemma queues_fewer n f p o : queues_ok n p o ->
  queues_ok n (filter (fun kv => f kv.1 = false) p) (List.filter (fun kv => negb (f kv.1)) o).
Proof.
  intros H. apply (queues_filter n n); [done|]. pose proof (q_capped _ _ _ H).
  pose proof (length_filter_le (fun kv : string * string * unit => negb (f kv.1)) o). lia.
Qed.

Lemma queues_empty n : 0 <= n -> queues_ok n ∅ [].
Proof.
  constructor; [apply NoDup_nil_2| |done|done].
  intros k. rewrite lookup_empty. split; [by intros []|by intros E%elem_of_nil].
Qed.

Lemma delete_as_filter (k : string * string) (p : gmap (string * string) (list string)) :
  delete k p = filter (fun kv => bool_decide (kv.1 = k) = false) p.
Proof.
  apply map_eq. intros i. destruct (decide (i = k)) as [->|N].
  - rewrite lookup_delete_eq. symmetry. apply map_lookup_filter_None. right. intros x _. cbn.
    by rewrite bool_decide_eq_true_2.
  - rewrite lookup_delete_ne by done. destruct (p !! i) eqn:E.
    + symmetry. apply map_lookup_filter_Some. split; [done|]. cbn. by rewrite bool_decide_eq_false_2.
    + symmetry. apply map_lookup_filter_None. by left.
Qed.

(** Dropping [length o - n] keys other than [k] leaves [n] of them. *)
Lemma prune_capped {A} `{EqDecision A} (k : A) (o : list (A * unit)) n : NoDup (keys o) -> k ∈ keys o ->
  (1 <= n <= length o)%nat ->
  let gone := take (length o - n) (List.filter (fun x => negb (bool_decide (x = k))) (keys o)) in
  length (List.filter (fun kv => negb (bool_decide (kv.1 ∈ gone))) o) = n.
Proof.
  intros Nd Hk Hn gone.
  assert (length (keys o) = length o) as L by (unfold keys; apply length_map).
  set (others := List.filter (fun x => negb (bool_decide (x = k))) (keys o)) in *.
  assert (keys o ≡ₚ k :: others) as P.
  { apply NoDup_Permutation; [done| |].
    - apply NoDup_cons. split; [|by apply nodup_filter]. unfold others. rewrite filter_elem.
      intros [_ E]. by rewrite bool_decide_eq_true_2 in E.
    - intros x. rewrite elem_of_cons. unfold others. rewrite filter_elem, negb_true_iff, bool_decide_eq_false.
      destruct (decide (x = k)) as [->|]; naive_solver. }
  assert (length o = S (length others)) as Lo by (rewrite <- L, P; done).
  assert (forall l : list (A * unit), length l = length (keys l)) as LK by (intros l; unfold keys; by rewrite length_map).
  rewrite LK. etransitivity; [exact (f_equal length (keys_filter (fun x => negb (bool_decide (x ∈ gone))) o))|].
  rewrite (Permutation_length (filter_perm (fun x => negb (bool_decide (x ∈ gone))) _ _ P)).
  assert (NoDup (k :: others)) as N1 by (by rewrite <- P).
  apply NoDup_cons in N1 as [N1 N2].
  rewrite <- (take_drop (length o - n) others) at 1. fold gone.
  assert (k ∉ gone) as Hg.
  { intros X. apply N1. rewrite <- (take_drop (length o - n) others), elem_of_app. by left. }
  cbn. rewrite bool_decide_eq_false_2 by done. cbn. rewrite List.filter_app, length_app.
  rewrite <- (take_drop (length o - n) others) in N2. apply NoDup_app in N2 as [_ [D _]]. fold gone in D.
  rewrite (List.filter_ext_in _ (fun _ => false) gone).
  2: { intros x X%list_elem_of_In. by rewrite bool_decide_eq_true_2. }
  rewrite (List.filter_ext_in _ (fun _ => true) (drop _ others)).
  2: { intros x X%list_elem_of_In. rewrite bool_decide_eq_false_2; [done|]. intros Y. by apply (D x Y). }
  assert (forall l : list A, List.filter (fun _ => false) l = []) as F0 by (induction l; done).
  assert (forall l : list A, List.filter (fun _ => true) l = l) as F1 by (induction l; cbn; congruence).
  rewrite F0, F1, length_drop. cbn. lia.
Qed.

Lemma queue_bounded (c : Config) (k : string * string) (p : gmap (string * string) (list string)) (o : list ((string * string) * unit)) (ws : list string) :
  queues_ok (_max_pending_warning_keys c) p o -> (length ws <= _MAX_PENDING_WARNINGS_PER_RUN)%nat ->
  forall s, _pending_warnings s = <[k := ws]> p -> _pending_warning_touch_order s = move_to_end k (assign k tt o) ->
  queues_ok (_max_pending_warning_keys c) (_pending_warnings (_prune_pending_warning_state_locked c k s))
    (_pending_warning_touch_order (_prune_pending_warning_state_locked c k s)).
Proof.
  intros [H1 H2 H3 H4] Hw s Ep Eo.
  pose proof (nodup_assign k tt o H1) as Na.
  assert (k ∈ keys (assign k tt o)) as Hk.
  { rewrite keys_assign. destruct (bool_decide (k ∈ keys o)) eqn:E; [by apply bool_decide_eq_true in E|].
    rewrite elem_of_app. right. by left. }
  destruct (split_at _ _ Hk) as [u [d1 [d2 E]]].
  assert (move_to_end k (assign k tt o) ≡ₚ assign k tt o) as P.
  { rewrite E, move_at by (by rewrite <- E). rewrite <- Permutation_cons_append. by rewrite Permutation_middle. }
  assert (keys (_pending_warning_touch_order s) ≡ₚ keys (assign k tt o)) as Pk
    by (rewrite Eo; unfold keys; by rewrite P).
  assert (NoDup (keys (_pending_warning_touch_order s))) as Ns by (by rewrite Pk).
  assert (forall k', is_Some (_pending_warnings s !! k') <-> k' ∈ keys (_pending_warning_touch_order s)) as Hs.
  { intros k'. rewrite Pk, Ep, lookup_insert_is_Some', H2, keys_assign.
    destruct (bool_decide (k ∈ keys o)) eqn:B; [apply bool_decide_eq_true in B|]; set_solver. }
  assert (map_Forall (fun _ l => length l <= _MAX_PENDING_WARNINGS_PER_RUN)%nat (_pending_warnings s)) as Ws
    by (rewrite Ep; by apply map_Forall_insert_2).
  set (o' := _pending_warning_touch_order s) in *. unfold _prune_pending_warning_state_locked. fold o'.
  assert (length (keys o') = length o') as LK by (unfold keys; apply length_map). rewrite LK.
  assert (1 <= _max_pending_warning_keys c) as M by (unfold _max_pending_warning_keys; lia).
  set (m := _max_pending_warning_keys c) in *.
  destruct (Z.leb_spec (Z.of_nat (length o') - m) 0) as [L|L].
  - constructor; fold o'; [done|done|lia|done].
  - assert (k ∈ keys o') as Ko by (by rewrite Pk).
    pose proof (prune_capped k o' (Z.to_nat m) Ns Ko ltac:(lia)) as X. cbn zeta in X.
    replace (length o' - Z.to_nat m)%nat with (Z.to_nat (Z.of_nat (length o') - m)) in X by lia.
    apply (queues_filter m (Z.of_nat (length o'))); [by constructor|]. fold o'. lia.
Qed.

(** ** Every call keeps the bounds *)

Lemma touch_thread_spec c t s : 1 <= max_tracked_threads c -> windows_ok c (_history s) ->
  exists d w, _history (touch_thread c t s) = d ++ [(t, w)] /\ NoDup (keys (d ++ [(t, w)])) /\
    (forall f, windows_ok c (d ++ [(t, keep_last (window_size c) f)]) \/ window_size c < 0).
Proof.
  intros Hm [H1 [H2 H3]]. destruct (touch_thread_history c t s Hm H1) as [d [E [[e I] [N [L _]]]]].
  exists d, (default [] (lookup t (_history s))). unfold keys in *. rewrite map_app in *. split_and!; [done|done|].
  intros f. destruct (Z.ltb_spec (window_size c) 0) as [X|X]; [by right|left]. unfold windows_ok, keys.
  rewrite map_app, length_app. cbn. split_and!; [done|specialize (L H2); lia|].
  apply Forall_app. split; [|apply Forall_singleton; cbn; by apply keep_last_length].
  apply Forall_forall. intros x Hx. rewrite Forall_forall in H3. apply H3.
  assert (x ∈ pop t (_history s)) as Y by (rewrite I, elem_of_app; by right).
  by apply filter_elem in Y as [Y _].
Qed.

Lemma evict_queues c n fuel : forall s, queues_ok n (_pending_warnings s) (_pending_warning_touch_order s) ->
  queues_ok n (_pending_warnings (evict fuel c s)) (_pending_warning_touch_order (evict fuel c s)) /\
  _stop_reason (evict fuel c s) = _stop_reason s.
Proof.
  induction fuel as [|fuel IH]; intros s H; cbn [evict]; [done|].
  destruct (max_tracked_threads c <? _); [|done].
  assert (_stop_reason (evict_oldest s) = _stop_reason s) as <- by (unfold evict_oldest; by destruct (_history s) as [|[]]).
  apply IH. unfold evict_oldest. destruct (_history s) as [|[t w] h]; [done|]. by apply queues_fewer.
Qed.

Lemma track_queues c n t f names s : queues_ok n (_pending_warnings s) (_pending_warning_touch_order s) ->
  queues_ok n (_pending_warnings (track c t f names s).2) (_pending_warning_touch_order (track c t f names s).2) /\
  _stop_reason (track c t f names s).2 = _stop_reason s.
Proof.
  intros H. assert (queues_ok n (_pending_warnings (touch_thread c t s)) (_pending_warning_touch_order (touch_thread c t s)) /\
    _stop_reason (touch_thread c t s) = _stop_reason s) as T.
  { unfold touch_thread. case_match; [done|].
    exact (evict_queues c n _ (with_tracking _ _ _ _ _ _ s) H). }
  unfold track. repeat case_match; exact T.
Qed.

Lemma track_bounded c t f names s : 1 <= max_tracked_threads c -> 0 <= window_size c -> bounded c s ->
  bounded c (track c t f names s).2.
Proof.
  intros Hm Hw [B1 [B2 B3]]%bounded_parts. apply bounded_parts.
  destruct (track_queues c _ t f names s B2) as [Q1 Q2]. rewrite Q2. split_and!; [|done|done].
  destruct (touch_thread_spec c t s Hm B1) as [d [w [E [N W]]]].
  rewrite (track_history c t f names s d w N E). destruct (W (w ++ [f])); [done|lia].
Qed.

Lemma drop_pending_bounded c f s : bounded c s -> bounded c (drop_pending f s).
Proof. rewrite !bounded_parts. intros [B1 [B2 B3]]. split_and!; [done|by apply queues_fewer|done]. Qed.

Lemma with_reasons_bounded c r s s' : bounded c s -> Z.of_nat (length r) <= stop_reasons_kept ->
  _history s' = _history s -> _pending_warnings s' = _pending_warnings s ->
  _pending_warning_touch_order s' = _pending_warning_touch_order s -> _stop_reason s' = r -> bounded c s'.
Proof. rewrite !bounded_parts. intros [B1 [B2 B3]] Hr -> -> -> ->. done. Qed.

Lemma queue_pending_bounded c key text s : bounded c s -> bounded c (_queue_pending_warning c key text s).
Proof.
  rewrite !bounded_parts. intros [B1 [B2 B3]]. unfold _queue_pending_warning.
  set (ws := drop _ _).
  assert (length ws <= _MAX_PENDING_WARNINGS_PER_RUN)%nat as W by (unfold ws; rewrite length_drop; lia).
  pose proof (queue_bounded c key _ _ ws B2 W) as Q.
  set (s' := with_pending _ _ s). specialize (Q s' eq_refl eq_refl).
  assert (_history (_prune_pending_warning_state_locked c key s') = _history s /\
          _stop_reason (_prune_pending_warning_state_locked c key s') = _stop_reason s) as [-> ->]
    by (unfold _prune_pending_warning_state_locked; by case_match).
  done.
Qed.

Lemma new_state_bounded c : 0 <= max_tracked_threads c -> bounded c new_state.
Proof.
  intros H. apply bounded_parts. split_and!; [|apply queues_empty; unfold _max_pending_warning_keys; lia|done].
  split_and!; [apply NoDup_nil_2|cbn; lia|constructor].
Qed.

Lemma drain_as_drop key s : (_drain_pending_warnings key s).2 = drop_pending (fun k => bool_decide (k = key)) s.
Proof. unfold _drain_pending_warnings, drop_pending. cbn [snd]. by rewrite delete_as_filter. Qed.

Lemma reset_bounded c thread_id s : 0 <= max_tracked_threads c -> bounded c s -> bounded c (reset thread_id s).
Proof.
  intros Hm H. unfold reset. destruct thread_id as [t|]; [|by apply new_state_bounded].
  case_match; [by apply new_state_bounded|]. apply drop_pending_bounded.
  apply bounded_parts in H as [[B1 [B2 B3]] [B4 B5]]. apply bounded_parts. split_and!; [|done|done]. cbn [_history with_tracking].
  split_and!.
  - by apply nodup_keys_pop.
  - pose proof (length_pop_le t (_history s)). lia.
  - apply Forall_forall. intros x [Hx _]%filter_elem. rewrite Forall_forall in B3. by apply B3.
Qed.

Lemma perform_bounded py_str md5 c h s : valid_config c = true -> bounded c s -> bounded c (perform py_str md5 c s h).
Proof.
  intros V B. assert (1 <= max_tracked_threads c /\ 1 <= window_size c) as [V1 V2].
  { unfold valid_config in V. rewrite !andb_true_iff in V. lia. }
  destruct h as [key|key last|key|key|run|t]; cbn [perform].
  - by apply drop_pending_bounded.
  - unfold _apply. destruct last as [m|]; [|done]. destruct (tool_calls m) as [|call calls]; [done|].
    destruct (_hash_tool_calls _ _ _) as [f|e]; [|done].
    pose proof (track_bounded c key.1 f (map tc_name (call :: calls)) s V1 ltac:(lia) B) as T.
    destruct (track _ _ _ _ _) as [[|text|text] s']; cbn [snd] in *; [done|by apply queue_pending_bounded|].
    apply (with_reasons_bounded c (bounded_assign stop_reasons_kept key.2 "loop_capped" (_stop_reason s')) s');
      [exact T| |done..].
    apply length_bounded_assign; [done|]. by destruct T.
  - rewrite drain_as_drop. by apply drop_pending_bounded.
  - by apply drop_pending_bounded.
  - apply (with_reasons_bounded c (pop run (_stop_reason s)) s); [exact B| |done..].
    pose proof (length_pop_le run (_stop_reason s)). destruct B. lia.
  - apply reset_bounded; [lia|done].
Qed.

Lemma performs_bounded py_str md5 c hs : forall s, valid_config c = true -> bounded c s ->
  bounded c (performs py_str md5 c s hs).
Proof. induction hs as [|h hs IH]; intros s V B; [done|]. apply IH; [done|]. by apply perform_bounded. Qed.

(** ** A repeated response is stopped *)

(** Thread [t] is tracked, its window ends with [n] fingerprints [f] (or is
    full of them), and only threads of [others] were used after it. *)
Definition repeating (c : Config) (t f : string) (others : list string) (n : nat) (s : State) : Prop :=
  n = O \/ exists d1 w d2,
    _history s = d1 ++ (t, w ++ replicate (n `min` Z.to_nat (window_size c)) f) :: d2 /\
    forall k, k ∈ keys d2 -> k ∈ others.

Lemma keep_last_repeats n m w f : (1 <= n)%nat ->
  exists w', keep_last (Z.of_nat n) ((w ++ replicate (m `min` n) f) ++ [f]) = w' ++ replicate (S m `min` n) f.
Proof.
  intros Hn. rewrite <- app_assoc. rewrite <- replicate_cons_app.
  replace (f :: replicate (m `min` n) f) with (replicate (S (m `min` n)) f) by done.
  unfold keep_last. rewrite Nat2Z.id, length_app, length_replicate.
  destruct (decide (m < n)%nat) as [L|L].
  - replace (S m `min` n)%nat with (S (m `min` n)) by lia.
    exists (drop (length w + S (m `min` n) - n) w). rewrite drop_app_le by lia. done.
  - replace (S m `min` n)%nat with n by lia. replace (m `min` n)%nat with n by lia.
    replace (length w + S n - n)%nat with (length w + 1)%nat by lia.
    rewrite drop_app_ge by lia. replace (length w + 1 - length w)%nat with 1%nat by lia. by exists [].
Qed.

Lemma bounded_by_others (l others : list string) x : NoDup l -> (forall k, k ∈ l -> k ∈ others) -> x ∉ l ->
  x ∈ others -> (S (length l) <= length others)%nat.
Proof.
  intros N Sub X Y. change (S (length l)) with (length (x :: l)). apply submseteq_length, NoDup_submseteq.
  - by apply NoDup_cons.
  - intros k [->|H]%elem_of_cons; [done|by apply Sub].
Qed.

Lemma track_repeats c t f others n names s : 1 <= max_tracked_threads c -> 1 <= window_size c ->
  bounded c s -> repeating c t f others n s -> repeating c t f others (S n) (track c t f names s).2.
Proof.
  intros Hm Hw B R. destruct (touch_thread_history c t s Hm (threads_once _ _ B)) as [d [E [_ [N _]]]].
  right. exists d. set (w0 := default [] (lookup t (_history s))) in *.
  pose proof (nodup_last t [] w0 d N) as N'.
  assert (exists w m, w0 = w ++ replicate (m `min` Z.to_nat (window_size c)) f /\ (n <= m)%nat /\ (n = 0 -> m = 0)%nat /\ (n ≠ 0 -> m = n)%nat) as [w [m [W M]]].
  { destruct R as [->|[d1 [w [d2 [H _]]]]].
    - exists w0, O. rewrite app_nil_r. split_and!; [done|lia|done|done].
    - exists w, n. unfold w0. rewrite H, lookup_at; [split_and!; [done|lia|done|done]|].
      pose proof (threads_once _ _ B) as X. rewrite H in X. unfold keys in *. rewrite map_app in X. cbn in X.
      apply NoDup_app in X as [_ [D _]]. intros Y. apply (D t Y). left. }
  assert (m = n) as -> by lia.
  destruct (keep_last_repeats (Z.to_nat (window_size c)) n w f) as [w' K]; [lia|].
  exists w', []. split; [|by intros k H%elem_of_nil].
  rewrite (track_history c t f names s d w0 N' E), W. rewrite Z2Nat.id in K by lia. by rewrite K.
Qed.

Lemma track_other_repeats c t t' f f' others n names s : 1 <= max_tracked_threads c ->
  Z.of_nat (length others) < max_tracked_threads c -> t' <> t -> t' ∈ others ->
  bounded c s -> repeating c t f others n s -> repeating c t f others n (track c t' f' names s).2.
Proof.
  intros Hm Ho N T B [->|[d1 [w [d2 [E O]]]]]; [by left|]. right.
  pose proof (threads_once _ _ B) as Nd.
  assert (NoDup (keys d2)) as N2.
  { rewrite E in Nd. unfold keys in Nd. rewrite map_app in Nd. apply NoDup_app in Nd as [_ [_ Nd]].
    by apply NoDup_cons in Nd as [_ Nd]. }
  assert (Z.of_nat (length (pop t' d2)) + 2 <= max_tracked_threads c) as L.
  { assert (S (length (keys (pop t' d2))) <= length others)%nat as X.
    { apply (bounded_by_others _ _ t'); 
        [by apply nodup_keys_pop|intros k [H _]%elem_keys_pop; by apply O|by intros [_ H]%elem_keys_pop|done]. }
    unfold keys in X. rewrite length_map in X. lia. }
  destruct (touch_thread_history c t' s Hm Nd) as [d [H [_ [Nd' [_ K]]]]].
  destruct (K t _ d1 d2 ltac:(congruence) E L) as [d1' ->].
  exists d1', w. rewrite (track_history c t' f' names s _ _ (nodup_last _ _ _ _ Nd') H).
  eexists (pop t' d2 ++ [_]). rewrite <- app_assoc. split; [reflexivity|].
  intros k. unfold keys. rewrite map_app, elem_of_app. intros [H'|H'].
  - apply O. by apply elem_keys_pop in H' as [? _].
  - apply list_elem_of_singleton in H' as ->. done.
Qed.

Lemma occurrences_suffix f w n : Z.of_nat n <= occurrences f (w ++ replicate n f).
Proof.
  unfold occurrences. rewrite List.filter_app, length_app.
  assert (length (List.filter (String.eqb f) (replicate n f)) = n) as ->; [|lia].
  induction n as [|n IH]; [done|]. cbn. by rewrite String.eqb_refl; cbn; rewrite IH.
Qed.

(** Only a call that tracks the thread or resets it changes the windows. *)
Lemma same_history_repeating c t f others n s s' : _history s' = _history s ->
  repeating c t f others n s -> repeating c t f others n s'.
Proof. unfold repeating. by intros ->. Qed.

Lemma limits_positive c : valid_config c = true -> 1 <= max_tracked_threads c /\ 1 <= window_size c.
Proof. intros V. unfold valid_config in V. rewrite !andb_true_iff in V. lia. Qed.

Section repeats.
Context (py_str : json -> string) (md5 : string -> string) (c : Config) (Valid : valid_config c = true).
Context (t f : string) (others : list string) (Few : Z.of_nat (length others) < max_tracked_threads c).

Let perform := perform py_str md5 c.
Let tracked := tracked py_str md5.

(** A call that neither resets nor shows the thread another response. *)
Definition keeps_on (h : hook) : Prop :=
  (forall thread, h <> Reset thread) /\
  forall t' f', tracked h = Some (t', f') -> (t' = t /\ f' = f) \/ (t' <> t /\ t' ∈ others).

Lemma apply_history key last s : exists s',
  match tracked (AfterModel key last), last with
  | Some (t', f'), Some m => s' = (track c t' f' (map tc_name (tool_calls m)) s).2
  | _, _ => s' = s
  end /\ _history (perform s (AfterModel key last)) = _history s'.
Proof.
  unfold perform, tracked, LoopDetection.perform, LoopDetection.tracked, _apply.
  destruct last as [m|]; [|by exists s]. destruct (tool_calls m) as [|call calls]; [by exists s|].
  destruct (_hash_tool_calls py_str md5 (call :: calls)) as [f'|e]; [|by exists s].
  exists (track c key.1 f' (map tc_name (call :: calls)) s).2. split; [done|].
  destruct (track c key.1 f' _ s) as [[|text|text] s']; cbn [snd]; [done| |done].
  unfold _queue_pending_warning, _prune_pending_warning_state_locked. by case_match.
Qed.

Lemma perform_repeats h n s : keeps_on h -> bounded c s -> repeating c t f others n s ->
  repeating c t f others (if decide (tracked h = Some (t, f)) then S n else n) (perform s h).
Proof.
  intros [Hr Ht] B R. destruct (limits_positive c Valid) as [V1 V2].
  destruct h as [key|key last|key|key|run|thread]; [exact (same_history_repeating _ _ _ _ _ s _ eq_refl R)| |
    exact (same_history_repeating _ _ _ _ _ s _ eq_refl R)..|by destruct (Hr thread)].
  destruct (apply_history key last s) as [s' [E H]]. apply (same_history_repeating _ _ _ _ _ s' _ H).
  destruct (tracked (AfterModel key last)) as [[t' f']|] eqn:T.
  - destruct last as [m|]; [|done]. subst s'. destruct (Ht t' f' eq_refl) as [[-> ->]|[N O]].
    + rewrite decide_True by done. by apply track_repeats.
    + rewrite decide_False by congruence. by apply track_other_repeats.
  - subst s'. by destruct last.
Qed.

(** The calls among [hs] that show the thread's response. *)
Definition shown (hs : list hook) : nat := length (List.filter (fun h => bool_decide (tracked h = Some (t, f))) hs).

Lemma performs_repeats hs : forall n s, Forall keeps_on hs -> bounded c s -> repeating c t f others n s ->
  repeating c t f others (n + shown hs) (performs py_str md5 c s hs).
Proof.
  induction hs as [|h hs IH]; intros n s K B R; [cbn; by rewrite Nat.add_0_r|].
  apply Forall_cons in K as [K1 K2]. pose proof (perform_repeats h n s K1 B R) as R'.
  pose proof (perform_bounded py_str md5 c h s Valid B) as B'. specialize (IH _ _ K2 B' R').
  replace (n + shown (h :: hs))%nat with
    ((if decide (tracked h = Some (t, f)) then S n else n) + shown hs)%nat; [done|].
  unfold shown. cbn [List.filter]. case_decide;
    [rewrite bool_decide_eq_true_2 by done|rewrite bool_decide_eq_false_2 by done]; cbn [length]; lia.
Qed.

Lemma repeats_reach_limit n names s : bounded c s -> repeating c t f others n s ->
  hard_limit c <= Z.of_nat (S n) -> hard_limit c <= window_size c ->
  (track c t f names s).1 = Stop _HARD_STOP_MSG.
Proof.
  intros B R Hn Hw. destruct (limits_positive c Valid) as [V1 V2].
  pose proof (track_repeats c t f others n names s V1 V2 B R) as [X|[d1 [w [d2 [H _]]]]]; [done|].
  destruct (touch_thread_spec c t s V1) as [d [w0 [E [N _]]]]; [by apply bounded_parts in B as []|].
  rewrite (track_history c t f names s d w0 N E) in H.
  pose proof (fresh_last _ _ _ N) as Hd.
  assert (d2 = [] /\ keep_last (window_size c) (w0 ++ [f]) = w ++ replicate (S n `min` Z.to_nat (window_size c)) f) as [-> W].
  { destruct d2 as [|x d2 _] using rev_ind.
    - apply app_inj_tail in H as [_ H]. by injection H.
    - exfalso. rewrite app_comm_cons, app_assoc in H. apply app_inj_tail in H as [H _]. apply Hd. rewrite H.
      unfold keys. rewrite map_app, elem_of_app. right. left. }
  unfold track. rewrite E, (lookup_at t w0 d []) by done. cbn [default from_option id]. rewrite W.
  pose proof (occurrences_suffix f w (S n `min` Z.to_nat (window_size c))) as L.
  assert (hard_limit c <=? occurrences f (w ++ replicate (S n `min` Z.to_nat (window_size c)) f) = true) as ->; [apply Z.leb_le; etransitivity; [|exact L]; lia|].
  done.
Qed.
End repeats.

(** ** What passes is below the limits *)

Lemma count_tools_pass c names : forall freq warned freq' warned',
  count_tools c names freq warned = (Pass, freq', warned') ->
  (forall name, from_option id 0 (freq !! name) <= from_option id 0 (freq' !! name)) /\
  (forall name, name ∈ names -> name <> "" ->
     exists n, freq' !! name = Some n /\ from_option id 0 (freq !! name) < n < (limits c name).2) /\
  warned' = warned.
Proof.
  induction names as [|name names IH]; intros freq warned freq' warned' H; cbn [count_tools] in H.
  - simplify_eq. split_and!; [done|by intros name E%elem_of_nil|done].
  - destruct (name =? "")%string eqn:E0.
    { destruct (IH _ _ _ _ H) as [H1 [H2 H3]]. split_and!; [done| |done]. intros x [->|Hx]%elem_of_cons Nx.
      - by apply String.eqb_eq in E0.
      - by apply H2. }
    set (n := default 0 (freq !! name) + 1) in H.
    destruct (limits c name) as [eff_warn eff_hard] eqn:L. destruct (Z.leb_spec eff_hard n) as [G|G]; [done|].
    destruct ((eff_warn <=? n) && _); [done|].
    destruct (IH _ _ _ _ H) as [H1 [H2 H3]].
    assert (forall x, from_option id 0 (freq !! x) <= from_option id 0 (<[name := n]> freq !! x)) as Mono.
    { intros x. destruct (decide (x = name)) as [->|N]; [rewrite lookup_insert_eq; cbn; unfold n; cbn; lia|].
      by rewrite lookup_insert_ne. }
    split_and!; [intros x; etransitivity; [apply Mono|apply H1]| |done].
    intros x Hx Nx. destruct (decide (x ∈ names)) as [I|I].
    + destruct (H2 x I Nx) as [k [K1 K2]]. exists k. specialize (Mono x). split; [done|lia].
    + apply elem_of_cons in Hx as [->|Hx]; [|done]. exists n. rewrite L. split; [|unfold n; cbn; lia].
      (* not counted again *)
      clear -H I. revert warned H. generalize (<[name := n]> freq) (lookup_insert_eq freq name n). intros g Hg.
      revert g Hg. induction names as [|y names IH]; intros g Hg warned H; cbn [count_tools] in H; [by simplify_eq|].
      assert (y <> name /\ name ∉ names) as [Ny I'] by set_solver.
      destruct (y =? "")%string; [by eapply IH|].
      destruct (limits c y). case_match; [done|]. case_match; [done|].
      eapply IH; [done| |exact H]. by rewrite lookup_insert_ne.
Qed.

Lemma track_pass c t f names s s' : 1 <= max_tracked_threads c -> bounded c s ->
  track c t f names s = (Pass, s') ->
  (exists window, lookup t (_history s') = Some window /\ occurrences f window < hard_limit c) /\
  forall name, name ∈ names -> name <> "" ->
    exists n, _tool_freq s' !! t ≫= (fun freq => freq !! name) = Some n /\ n < (limits c name).2.
Proof.
  intros Hm B H. destruct (touch_thread_spec c t s Hm) as [d [w [E [N _]]]]; [by apply bounded_parts in B as []|].
  pose proof (track_history c t f names s d w N E) as Hh. rewrite H in Hh. cbn [snd] in Hh. rewrite Hh.
  rewrite (lookup_at t _ d []) by (by apply fresh_last in N).
  unfold track in H. rewrite E, (lookup_at t w d []) in H by (by apply fresh_last in N).
  cbn [default from_option id] in H.
  destruct (Z.leb_spec (hard_limit c) (occurrences f (keep_last (window_size c) (w ++ [f])))) as [G|G]; [done|].
  case_match; [done|]. destruct (count_tools _ _ _ _) as [[v freq] fw] eqn:C. injection H as -> <-.
  split; [by eexists|]. intros name Hn Nn. apply count_tools_pass in C as [_ [C _]].
  destruct (C name Hn Nn) as [n [C1 C2]]. exists n. cbn [_tool_freq with_tracking]. rewrite lookup_insert_eq. cbn.
  split; [done|lia].
Qed.

(** ** The fingerprint does not depend on the order of the calls *)

Section order.
Context (py_str : json -> string) (md5 : string -> string).

Lemma call_keys_perm l l' : l ≡ₚ l' -> forall ks, call_keys py_str l = Ok ks ->
  exists ks', call_keys py_str l' = Ok ks' /\ ks ≡ₚ ks'.
Proof.
  induction 1 as [|tc l l' P IH|tc1 tc2 l|l l' l'' P1 IH1 P2 IH2]; intros ks H.
  - by exists ks.
  - cbn [call_keys] in *. destruct (_normalize_tool_call_args (tc_args tc)) as [args fb].
    destruct (_stable_tool_key py_str (tc_name tc) args fb) as [key|]; [|done]. cbn [rbind] in *.
    destruct (call_keys py_str l) as [ks0|]; [|done]. destruct (IH _ eq_refl) as [ks' [-> P']].
    injection H as <-. eexists. split; [reflexivity|]. by rewrite P'.
  - cbn [call_keys] in *. destruct (_normalize_tool_call_args (tc_args tc1)) as [args1 fb1].
    destruct (_normalize_tool_call_args (tc_args tc2)) as [args2 fb2].
    destruct (_stable_tool_key py_str (tc_name tc2) args2 fb2) as [key2|]; [|done]. cbn [rbind] in *.
    destruct (_stable_tool_key py_str (tc_name tc1) args1 fb1) as [key1|]; [|done]. cbn [rbind] in *.
    destruct (call_keys py_str l) as [ks0|]; [|done]. injection H as <-. eexists. split; [reflexivity|].
    apply perm_swap.
  - destruct (IH1 ks H) as [ks1 [H1 Q1]]. destruct (IH2 ks1 H1) as [ks2 [H2 Q2]]. exists ks2. by rewrite Q1.
Qed.

Lemma merge_sort_perm (l l' : list string) : l ≡ₚ l' -> merge_sort text_le l = merge_sort text_le l'.
Proof.
  intros P. apply (StronglySorted_unique text_le).
  - apply (StronglySorted_merge_sort text_le).
  - apply (StronglySorted_merge_sort text_le).
  - by rewrite !merge_sort_Permutation.
Qed.

Lemma hash_order l l' h : l ≡ₚ l' -> _hash_tool_calls py_str md5 l = Ok h -> _hash_tool_calls py_str md5 l' = Ok h.
Proof.
  unfold _hash_tool_calls. intros P H. destruct (call_keys py_str l) as [ks|] eqn:E; [|done].
  destruct (call_keys_perm l l' P ks E) as [ks' [-> Q]]. cbn [rbind] in *. by rewrite <- (merge_sort_perm _ _ Q).
Qed.
End order.

(** ** A warning waits for the next model call *)

Lemma queued_warning_waits c key text s : bounded c s ->
  text ∈ (_drain_pending_warnings key (_queue_pending_warning c key text s)).1.
Proof.
  intros B. unfold _queue_pending_warning. set (ws := drop _ _).
  assert (text ∈ ws) as W.
  { unfold ws. case_bool_decide as E.
    - replace (_ - _)%nat with 0%nat; [done|]. destruct (_pending_warnings s !! key) as [l|] eqn:L; [|done].
      pose proof (warnings_capped _ _ B key l L). cbn in *. lia.
    - rewrite length_app. cbn [length].
      rewrite drop_app_le by (unfold _MAX_PENDING_WARNINGS_PER_RUN; lia). apply elem_of_app. right. by left. }
  clearbody ws. set (s' := with_pending _ _ s).
  assert (_pending_warnings s' !! key = Some ws) as E by (unfold s'; cbn; by rewrite lookup_insert_eq).
  clearbody s'. unfold _drain_pending_warnings. cbn [fst].
  assert (_pending_warnings (_prune_pending_warning_state_locked c key s') !! key = Some ws) as ->; [|done].
  unfold _prune_pending_warning_state_locked. case_match; [done|].
  unfold drop_pending. cbn [_pending_warnings with_pending with_tracking]. apply map_lookup_filter_Some. split; [done|].
  cbn [fst]. apply bool_decide_eq_false. intros X. apply elem_of_take in X as [i [X _]].
  apply list_elem_of_lookup_2, filter_elem in X as [_ X]. by rewrite bool_decide_eq_true_2 in X.
Qed.

(** ** The guard *)


(** The counters of the tools outlive the runs that they count. *)
Definition sample_call (path : string) : AIMessage :=
  {| content := JStr ""; tool_calls := [{| tc_name := "read_file"; tc_args := JObj [("path", JStr path)] |}];
     additional_kwargs := []; response_metadata := []; ai_rest := JNull |}.

Definition sample_config : Config :=
  {| warn_threshold := 2; hard_limit := 2; window_size := 3; max_tracked_threads := 2;
     tool_freq_warn := 2; tool_freq_hard_limit := 3; tool_freq_overrides := ∅ |}.

(** The text behind the tool's name as its own digest. *)
Definition sample_md5 (s : string) : string := String.substring 12 40 s.
Definition sample_str (_ : json) : string := "".

Lemma frequency_spans_runs :
  let key run := ("thread", run) in
  let one_run run path := [BeforeAgent (key run); AfterModel (key run) (Some (sample_call path)); AfterAgent (key run)] in
  let s := performs sample_str sample_md5 sample_config new_state
             (one_run "r1" "notes/one" ++ one_run "r2" "guide/two") in
  (track sample_config "thread" "fresh" ["read_file"] s).1 = Stop (_TOOL_FREQ_HARD_STOP_MSG "read_file" 3).
Proof. vm_compute. reflexivity. Qed.

(** An infinite line number is not caught. *)
Lemma infinite_line_raises py_str md5 :
  let call := {| tc_name := "read_file";
                 tc_args := JStr ("{" +:+ quote +:+ "start_line" +:+ quote +:+ ": Infinity}") |} in
  _hash_tool_calls py_str md5 [call] = Raise (Exn OverflowError "cannot convert float infinity to integer").
Proof. vm_compute. reflexivity. Qed.


End LoopGuard.
