(* ===== verification/TokenBudget.v ===== *)
(** * Token budgets of agent runs

    [deerflow/agents/middlewares/token_budget_middleware.py] and
    [config/token_budget_config.py]: the usage a run has accumulated, the warning
    queued for its next model call, and the forced stop.  Every method holds the
    middleware's lock while it touches this state, so each is one step. *)
From S2P Require Import Prelude Json Text Float64 OrderedDict LoopDetection.
Import Json Text Float64.Float64 OrderedDict.OrderedDict LoopDetection.LoopDetection.

Module TokenBudget.

Record TokenBudgetConfig := {
  enabled : bool;
  max_tokens : Z;
  max_input_tokens : option Z;
  max_output_tokens : option Z;
  budget_warn_threshold : float;
  hard_stop_threshold : float
}.

(** The bounds of the fields and [validate_thresholds]. *)
Definition valid_budget (c : TokenBudgetConfig) : bool :=
  (1000 <=? max_tokens c) &&
  match max_input_tokens c with Some n => 1 <=? n | None => true end &&
  match max_output_tokens c with Some n => 1 <=? n | None => true end &&
  fle fzero (budget_warn_threshold c) && fle (budget_warn_threshold c) (of_int 1) &&
  fle fzero (hard_stop_threshold c) && fle (hard_stop_threshold c) (of_int 1) &&
  fle (budget_warn_threshold c) (hard_stop_threshold c).

Record TokenUsage := { input : Z; output : Z; total : Z }.
Definition no_usage : TokenUsage := {| input := 0; output := 0; total := 0 |}.

(** A message of the conversation: [ai] is its body when it is an assistant's,
    [tokens] the input and output counts its usage metadata reports, zero where
    it reports none. *)
Record Message := { msg_id : option string; tokens : Z * Z; ai : option AIMessage }.

Abbreviation seen_map := (list (string * (Z * Z))).

Record Budgets := {
  b_warned : list (string * bool);
  b_pending : list (string * list string);
  b_seen : list (string * seen_map);
  b_usage : list (string * TokenUsage);
  b_stop : list (string * string)
}.

Definition new_budgets : Budgets := {| b_warned := []; b_pending := []; b_seen := []; b_usage := []; b_stop := [] |}.

(** [BoundedDict(1000)] *)
Definition kept : Z := 1000.

(** [d.setdefault(k, v)]: what is stored, and the dictionary. *)
Definition setdefault {V} (k : string) (v : V) (d : list (string * V)) : V * list (string * V) :=
  match lookup k d with Some w => (w, d) | None => (v, bounded_assign kept k v d) end.

Definition consume_stop_reason (run_id : string) (s : Budgets) : option string * Budgets :=
  (lookup run_id (b_stop s),
   {| b_warned := b_warned s; b_pending := b_pending s; b_seen := b_seen s; b_usage := b_usage s;
      b_stop := pop run_id (b_stop s) |}).

Definition _clear_run_state (run_id : string) (s : Budgets) : Budgets :=
  {| b_warned := pop run_id (b_warned s); b_pending := pop run_id (b_pending s); b_seen := pop run_id (b_seen s);
     b_usage := pop run_id (b_usage s); b_stop := b_stop s |}.

(** The messages that are counted: assistant messages with an id. *)
Definition counted (m : Message) : option string :=
  match ai m, msg_id m with
  | Some _, Some i => if (i =? "")%string then None else Some i
  | _, _ => None
  end.

(** [before_agent]: what is there already does not count. *)
Definition mark_seen (seen : seen_map) (m : Message) : seen_map :=
  match counted m with Some i => assign i (tokens m) seen | None => seen end.

Definition before_agent (c : TokenBudgetConfig) (run_id : string) (messages : list Message) (s : Budgets) : Budgets :=
  if negb (enabled c) then s else
  match messages with
  | [] => s
  | _ =>
      let '(seen, d) := setdefault run_id [] (b_seen s) in
      let '(_, u) := setdefault run_id no_usage (b_usage s) in
      {| b_warned := b_warned s; b_pending := b_pending s; b_seen := assign run_id (foldl mark_seen seen messages) d;
         b_usage := u; b_stop := b_stop s |}
  end.

Definition after_agent (c : TokenBudgetConfig) (run_id : string) (s : Budgets) : Budgets :=
  if negb (enabled c) then s else _clear_run_state run_id s.

(** One message of the loop of [_apply]. *)
Definition count_message (acc : TokenUsage * seen_map) (m : Message) : TokenUsage * seen_map :=
  let '(u, seen) := acc in
  match counted m with
  | None => acc
  | Some i =>
      let '(input_tokens, output_tokens) := tokens m in
      let '(prev_input, prev_output) := default (0, 0) (lookup i seen) in
      let diff_input := Z.max 0 (input_tokens - prev_input) in
      let diff_output := Z.max 0 (output_tokens - prev_output) in
      if (0 <? diff_input) || (0 <? diff_output)
      then ({| input := input u + diff_input; output := output u + diff_output; total := total u + (diff_input + diff_output) |},
            assign i (input_tokens, output_tokens) seen)
      else acc
  end.

(** The budgets in force: name, used, limit. *)
Definition fractions (c : TokenBudgetConfig) (u : TokenUsage) : list (string * Z * Z) :=
  [("total", total u, max_tokens c)] ++
  match max_input_tokens c with Some n => if n =? 0 then [] else [("input", input u, n)] | None => [] end ++
  match max_output_tokens c with Some n => if n =? 0 then [] else [("output", output u, n)] | None => [] end.

Record Trigger := { fraction : float; reason : string; used : Z; budget : Z }.

(** The first of the highest fractions. *)
Definition higher (t : Trigger) (f : string * Z * Z) : Trigger :=
  let '(name, n, limit) := f in
  let frac := int_div n limit in
  if negb (fle frac (fraction t)) then {| fraction := frac; reason := name; used := n; budget := limit |} else t.

Definition highest (c : TokenBudgetConfig) (u : TokenUsage) : Trigger :=
  foldl higher {| fraction := fzero; reason := ""; used := 0; budget := 0 |} (fractions c u).

(** [f"{n:,}"] *)
Fixpoint group_digits (n : nat) (l : list string) : list string :=
  match l with
  | [] => []
  | d :: l => (if (0 <? n)%nat && (n mod 3 =? 0)%nat then d +:+ "," else d) :: group_digits (S n) l
  end.
Definition grouped (n : Z) : string :=
  (if n <? 0 then "-" else "") +:+ text_of (rev (group_digits 0 (rev (chars (pretty (Z.abs n)))))).

Definition _BUDGET_WARNING_MSG (t : Trigger) : string :=
  "[TOKEN BUDGET WARNING] You have used " +:+ grouped (used t) +:+ " of your " +:+ grouped (budget t) +:+ " " +:+ reason t +:+
  " token budget (" +:+ pretty (round_int (fmul (fraction t) (of_int 100))) +:+
  "%). Wrap up your current work and produce a final answer. Avoid starting new tool calls unless absolutely necessary.".
Definition _BUDGET_EXCEEDED_MSG (t : Trigger) : string :=
  "[TOKEN BUDGET EXCEEDED] The " +:+ reason t +:+ " token usage (" +:+ grouped (used t) +:+
  ") has exceeded the safety limit (" +:+ grouped (budget t) +:+ "). Producing final answer with results collected so far.".

Section hooks.

(** [f"{content}"] of a content that is no text. *)
Context (py_str : json -> string).

Definition append_text (content : json) (stop_msg : string) : json :=
  match content with
  | JNull => JStr stop_msg
  | JStr s => JStr (s +:+ blank_line +:+ stop_msg)
  | JList l => JList (l ++ [JObj [("type", JStr "text"); ("text", JStr (blank_line +:+ stop_msg))]])
  | v => JStr (py_str v +:+ blank_line +:+ stop_msg)
  end.

Definition hard_stop_update (m : AIMessage) (stop_msg : string) : AIMessage :=
  _build_hard_stop_update m (append_text (content m) stop_msg).

(** What the counted usage asks for. *)
Inductive decision := Proceed | WarnOf (t : Trigger) | StopFor (t : Trigger).

Definition decide_usage (c : TokenBudgetConfig) (warned : bool) (u : TokenUsage) : decision :=
  if total u <=? 0 then Proceed else
  let t := highest c u in
  if fle (hard_stop_threshold c) (fraction t) then StopFor t
  else if fle (budget_warn_threshold c) (fraction t) && negb warned then WarnOf t
  else Proceed.

(** [_apply]: the message that replaces the last one, if any. *)
Definition apply_budget (c : TokenBudgetConfig) (run_id : string) (messages : list Message) (s : Budgets)
    : option AIMessage * Budgets :=
  if negb (enabled c) then (None, s) else
  match last messages with
  | Some {| ai := Some m |} =>
      let '(seen, d) := setdefault run_id [] (b_seen s) in
      let '(u, d') := setdefault run_id no_usage (b_usage s) in
      let '(u, seen) := foldl count_message (u, seen) messages in
      let s := {| b_warned := b_warned s; b_pending := b_pending s; b_seen := assign run_id seen d;
                  b_usage := assign run_id u d'; b_stop := b_stop s |} in
      match decide_usage c (default false (lookup run_id (b_warned s))) u with
      | Proceed => (None, s)
      | StopFor t =>
          (Some (hard_stop_update m (_BUDGET_EXCEEDED_MSG t)),
           {| b_warned := b_warned s; b_pending := b_pending s; b_seen := b_seen s; b_usage := b_usage s;
              b_stop := bounded_assign kept run_id "token_capped" (b_stop s) |})
      | WarnOf t =>
          let '(warnings, p) := setdefault run_id [] (b_pending s) in
          (None,
           {| b_warned := bounded_assign kept run_id true (b_warned s);
              b_pending := assign run_id (warnings ++ [_BUDGET_WARNING_MSG t]) p;
              b_seen := b_seen s; b_usage := b_usage s; b_stop := b_stop s |})
      end
  | _ => (None, s)
  end.

Definition drain_warnings (c : TokenBudgetConfig) (run_id : string) (s : Budgets) : list string * Budgets :=
  if negb (enabled c) then ([], s) else
  (default [] (lookup run_id (b_pending s)),
   {| b_warned := b_warned s; b_pending := pop run_id (b_pending s); b_seen := b_seen s; b_usage := b_usage s;
      b_stop := b_stop s |}).

Definition _inject_warnings {A} (human : string -> A) (messages : list A) (warnings : list string) : list A :=
  match warnings with [] => messages | _ => messages ++ [human (join blank_line warnings)] end.

(** The calls on the middleware, each for one run, and what they answer. *)
Inductive call :=
  | Before (messages : list Message)
  | AfterModel (messages : list Message)
  | BeforeModel
  | After
  | Consume.
Inductive answer :=
  | Nothing
  | Update (m : option AIMessage)
  | Drained (warnings : list string)
  | Stopped (why : option string).

Definition perform_call (c : TokenBudgetConfig) (run_id : string) (k : call) (s : Budgets) : answer * Budgets :=
  match k with
  | Before ms => (Nothing, before_agent c run_id ms s)
  | AfterModel ms => let '(m, s) := apply_budget c run_id ms s in (Update m, s)
  | BeforeModel => let '(ws, s) := drain_warnings c run_id s in (Drained ws, s)
  | After => (Nothing, after_agent c run_id s)
  | Consume => let '(why, s) := consume_stop_reason run_id s in (Stopped why, s)
  end.

End hooks.

Definition reset : Budgets := new_budgets.

End TokenBudget.
