(* ===== verification/BudgetGuard.v ===== *)
(** * Token budgets are private, exact and enforced

    The theorems about [TokenBudget]: as long as no more runs than the bounded
    dictionaries hold are in flight, every run sees a budget of its own; what is
    counted for it is what its messages have gained since it began; and a
    response is stopped exactly when a budget is used up. *)
From S2P Require Import Prelude Json Text Float64 OrderedDict LoopDetection TokenBudget.
Import Json Text Float64.Float64 OrderedDict.OrderedDict LoopDetection.LoopDetection TokenBudget.TokenBudget.

Module BudgetGuard.

(** ** A private budget *)

(** What the middleware holds for one run. *)
Record Private := {
  p_warned : option bool;
  p_pending : option (list string);
  p_seen : option seen_map;
  p_usage : option TokenUsage;
  p_stop : option string
}.

Definition nothing : Private := {| p_warned := None; p_pending := None; p_seen := None; p_usage := None; p_stop := None |}.

Definition view (run : string) (s : Budgets) : Private :=
  {| p_warned := lookup run (b_warned s); p_pending := lookup run (b_pending s); p_seen := lookup run (b_seen s);
     p_usage := lookup run (b_usage s); p_stop := lookup run (b_stop s) |}.

Section private.
Context (py_str : json -> string) (c : TokenBudgetConfig).

Definition counted_so_far (p : Private) (messages : list Message) : TokenUsage * seen_map :=
  foldl count_message (default no_usage (p_usage p), default [] (p_seen p)) messages.

Definition without_reason (p : Private) : Private :=
  {| p_warned := p_warned p; p_pending := p_pending p; p_seen := p_seen p; p_usage := p_usage p; p_stop := None |}.

Definition usage_of (p : Private) (u : TokenUsage) (seen : seen_map) : Private :=
  {| p_warned := p_warned p; p_pending := p_pending p; p_seen := Some seen; p_usage := Some u; p_stop := p_stop p |}.

Definition model_answered (p : Private) (ms : list Message) : option AIMessage * Private :=
  match last ms with
  | Some {| ai := Some m |} =>
      let '(u, seen) := counted_so_far p ms in
      match decide_usage c (default false (p_warned p)) u with
      | Proceed => (None, usage_of p u seen)
      | StopFor t =>
          (Some (hard_stop_update py_str m (_BUDGET_EXCEEDED_MSG t)),
           {| p_warned := p_warned p; p_pending := p_pending p; p_seen := Some seen; p_usage := Some u;
              p_stop := Some "token_capped" |})
      | WarnOf t =>
          (None,
           {| p_warned := Some true; p_pending := Some (default [] (p_pending p) ++ [_BUDGET_WARNING_MSG t]);
              p_seen := Some seen; p_usage := Some u; p_stop := p_stop p |})
      end
  | _ => (None, p)
  end.

(** The reference: the middleware of one run alone, without dictionaries of
    runs. *)
Definition private_call (k : call) (p : Private) : answer * Private :=
  match k, enabled c with
  | Consume, _ => (Stopped (p_stop p), without_reason p)
  | (Before _ | After), false => (Nothing, p)
  | AfterModel _, false => (Update None, p)
  | BeforeModel, false => (Drained [], p)
  | Before [], true => (Nothing, p)
  | Before ms, true =>
      (Nothing, usage_of p (default no_usage (p_usage p)) (foldl mark_seen (default [] (p_seen p)) ms))
  | AfterModel ms, true => let '(m, p) := model_answered p ms in (Update m, p)
  | BeforeModel, true =>
      (Drained (default [] (p_pending p)),
       {| p_warned := p_warned p; p_pending := None; p_seen := p_seen p; p_usage := p_usage p; p_stop := p_stop p |})
  | After, true =>
      (Nothing, {| p_warned := None; p_pending := None; p_seen := None; p_usage := None; p_stop := p_stop p |})
  end.

Fixpoint run_alone (ks : list call) (p : Private) : list answer * Private :=
  match ks with
  | [] => ([], p)
  | k :: ks => let '(a, p) := private_call k p in let '(l, p) := run_alone ks p in (a :: l, p)
  end.

(** The middleware of all the runs: the answers with the runs they go to. *)
Fixpoint run_shared (hs : list (string * call)) (s : Budgets) : list (string * answer) * Budgets :=
  match hs with
  | [] => ([], s)
  | (r, k) :: hs => let '(a, s) := perform_call py_str c r k s in let '(l, s) := run_shared hs s in ((r, a) :: l, s)
  end.

End private.

(** What of a list concerns one run. *)
Definition of_run {A} (run : string) (l : list (string * A)) : list A :=
  map snd (List.filter (fun x => bool_decide (x.1 = run)) l).

(** ** The dictionaries hold every run *)

Definition fits {V} (runs : list string) (d : list (string * V)) : Prop :=
  NoDup (keys d) /\ forall k, k ∈ keys d -> k ∈ runs.

Lemma bounded_assign_fits {V} runs k (v : V) d : Z.of_nat (length runs) <= kept -> k ∈ runs -> fits runs d ->
  bounded_assign kept k v d = assign k v d /\ fits runs (assign k v d).
Proof.
  intros L K [N S]. split.
  - unfold bounded_assign. destruct (bool_decide (k ∈ keys d)) eqn:E; [done|]. apply bool_decide_eq_false in E.
    destruct (Z.leb_spec kept (Z.of_nat (length d))); [|done]. exfalso.
    assert (length (k :: keys d) <= length runs)%nat as X.
    { apply submseteq_length, NoDup_submseteq; [by apply NoDup_cons|]. intros x [->|Hx]%elem_of_cons; auto. }
    cbn in X. unfold keys in X. rewrite length_map in X. lia.
  - split; [by apply nodup_assign|]. intros x. rewrite keys_assign. case_match; [auto|].
    rewrite elem_of_app, list_elem_of_singleton. intros [H'| ->]; auto.
Qed.

Lemma pop_fits {V} runs k (d : list (string * V)) : fits runs d -> fits runs (pop k d).
Proof. intros [N S]. split; [by apply nodup_keys_pop|]. intros x [H _]%elem_keys_pop. auto. Qed.

Lemma lookup_pop {V} (k k' : string) (d : list (string * V)) :
  lookup k' (pop k d) = if bool_decide (k' = k) then None else lookup k' d.
Proof.
  unfold lookup, pop. induction d as [|[x v] d IH]; cbn; [by case_match|].
  destruct (bool_decide (x = k)) eqn:E; cbn.
  - apply bool_decide_eq_true in E as ->. rewrite IH. destruct (bool_decide (k' = k)) eqn:E; [done|].
    apply bool_decide_eq_false in E. by rewrite bool_decide_eq_false_2.
  - destruct (bool_decide (x = k')) eqn:E'; [|by rewrite IH].
    apply bool_decide_eq_true in E' as ->. by rewrite E.
Qed.

Lemma lookup_assign_ne {V} (k k' : string) (v : V) d : k' <> k -> lookup k' (assign k v d) = lookup k' d.
Proof.
  intros N. unfold assign, lookup. f_equal. destruct (bool_decide (k ∈ keys d)).
  - induction d as [|[x w] d IH]; [done|]. cbn. destruct (bool_decide (x = k)) eqn:E; cbn.
    + apply bool_decide_eq_true in E as ->. rewrite bool_decide_eq_false_2; [exact IH|congruence].
    + by destruct (bool_decide (x = k')).
  - rewrite find_app. destruct (List.find _ d); [done|]. cbn. rewrite bool_decide_eq_false_2; [done|congruence].
Qed.

Lemma lookup_assign' {V} (k k' : string) (v : V) d :
  lookup k' (assign k v d) = if bool_decide (k' = k) then Some v else lookup k' d.
Proof. case_bool_decide; [subst; apply lookup_assign|by apply lookup_assign_ne]. Qed.

(** [d'] is [d] with what it holds for one run replaced. *)
Definition moved {V} (runs : list string) (r : string) (d d' : list (string * V)) (o : option V) : Prop :=
  fits runs d' /\ forall r', lookup r' d' = if bool_decide (r' = r) then o else lookup r' d.

Section moves.
Context {V : Type} (runs : list string) (r : string).
Context (Few : Z.of_nat (length runs) <= kept) (K : r ∈ runs).
Implicit Types (d : list (string * V)).

Lemma moved_refl d : fits runs d -> moved runs r d d (lookup r d).
Proof. intros F. split; [done|]. intros r'. case_bool_decide; by subst. Qed.

Lemma moved_pop d : fits runs d -> moved runs r d (pop r d) None.
Proof. intros F. split; [by apply pop_fits|]. intros r'. apply lookup_pop. Qed.

Lemma moved_assign d d' o v : moved runs r d d' o -> moved runs r d (assign r v d') (Some v).
Proof.
  intros [F L]. split; [by apply (bounded_assign_fits runs)|]. intros r'. rewrite lookup_assign', L. by case_bool_decide.
Qed.

Lemma moved_bounded d v : fits runs d -> moved runs r d (bounded_assign kept r v d) (Some v).
Proof.
  intros F. destruct (bounded_assign_fits runs r v d Few K F) as [-> _]. by eapply moved_assign, moved_refl.
Qed.

Lemma setdefault_moved d v w d' : fits runs d -> setdefault r v d = (w, d') ->
  w = default v (lookup r d) /\ moved runs r d d' (Some w).
Proof.
  intros F. unfold setdefault. destruct (lookup r d) as [x|] eqn:E; intros [= <- <-].
  - split; [done|]. rewrite <- E. by apply moved_refl.
  - split; [done|]. by apply moved_bounded.
Qed.
End moves.

(** ** One call *)

Definition all_fit (runs : list string) (s : Budgets) : Prop :=
  fits runs (b_warned s) /\ fits runs (b_pending s) /\ fits runs (b_seen s) /\ fits runs (b_usage s) /\ fits runs (b_stop s).

(** [s'] is [s] with what it holds for one run replaced by [p]. *)
Definition all_moved (runs : list string) (r : string) (s s' : Budgets) (p : Private) : Prop :=
  moved runs r (b_warned s) (b_warned s') (p_warned p) /\ moved runs r (b_pending s) (b_pending s') (p_pending p) /\
  moved runs r (b_seen s) (b_seen s') (p_seen p) /\ moved runs r (b_usage s) (b_usage s') (p_usage p) /\
  moved runs r (b_stop s) (b_stop s') (p_stop p).

Create HintDb moves.
#[local] Hint Resolve moved_refl moved_pop moved_assign moved_bounded : moves.

Section refinement.
Context (py_str : json -> string) (c : TokenBudgetConfig) (runs : list string) (Few : Z.of_nat (length runs) <= kept).

Lemma all_moved_refl r s : all_fit runs s -> all_moved runs r s s (view r s).
Proof. intros (F1 & F2 & F3 & F4 & F5). unfold all_moved. split_and!; by apply moved_refl. Qed.

Lemma all_moved_view r s s' p : all_moved runs r s s' p ->
  all_fit runs s' /\ forall r', view r' s' = if bool_decide (r' = r) then p else view r' s.
Proof.
  intros ([F1 L1] & [F2 L2] & [F3 L3] & [F4 L4] & [F5 L5]). split; [done|].
  intros r'. unfold view. rewrite L1, L2, L3, L4, L5. destruct p. by case_bool_decide.
Qed.

Lemma apply_budget_moved r ms s : enabled c = true -> r ∈ runs -> all_fit runs s ->
  let '(m, s') := apply_budget py_str c r ms s in let '(m', p) := model_answered py_str c (view r s) ms in
  m = m' /\ all_moved runs r s s' p.
Proof.
  intros E K F. pose proof F as (F1 & F2 & F3 & F4 & F5). unfold apply_budget, model_answered, counted_so_far. rewrite E. cbn [negb].
  destruct (last ms) as [[i t [m|]]|]; [|split; [done|by apply all_moved_refl]..].
  destruct (setdefault r [] (b_seen s)) as [seen d] eqn:S3. destruct (setdefault r no_usage (b_usage s)) as [u d'] eqn:S4.
  apply (setdefault_moved runs r Few K _ _ _ _ F3) in S3 as [-> M3]. apply (setdefault_moved runs r Few K _ _ _ _ F4) in S4 as [-> M4].
  cbn [p_usage p_seen view p_warned p_pending]. destruct (foldl _ _ _) as [u seen]. cbn [b_warned b_pending].
  destruct (decide_usage _ _ _) as [|t'|t'].
  - split; [done|]. unfold all_moved. split_and!; cbn; eauto with moves.
  - destruct (setdefault r [] (b_pending s)) as [ws p] eqn:S2.
    apply (setdefault_moved runs r Few K _ _ _ _ F2) in S2 as [-> M2]. split; [done|]. unfold all_moved. split_and!; cbn; eauto with moves.
  - split; [done|]. unfold all_moved. split_and!; cbn; eauto with moves.
Qed.

(** One call does to its own run what the reference does, and nothing to the
    others. *)
Lemma perform_private r k s : r ∈ runs -> all_fit runs s ->
  let '(a, s') := perform_call py_str c r k s in let '(a', p) := private_call py_str c k (view r s) in
  a = a' /\ all_moved runs r s s' p.
Proof.
  intros K F. pose proof F as (F1 & F2 & F3 & F4 & F5). pose proof (all_moved_refl r s F) as I. destruct k as [ms|ms| | |].
  - cbn. unfold before_agent. destruct ms as [|m ms]; destruct (enabled c); cbn [negb]; try by split.
    destruct (setdefault r [] (b_seen s)) as [seen d] eqn:S3. destruct (setdefault r no_usage (b_usage s)) as [u d'] eqn:S4.
    apply (setdefault_moved runs r Few K _ _ _ _ F3) in S3 as [-> M3]. apply (setdefault_moved runs r Few K _ _ _ _ F4) in S4 as [-> M4].
    split; [done|]. unfold all_moved. split_and!; cbn; eauto with moves.
  - cbn. destruct (enabled c) eqn:E.
    + pose proof (apply_budget_moved r ms s E K F) as A. destruct (apply_budget _ _ _ _ _) as [m s'].
      destruct (model_answered _ _ _ _) as [m' p]. by destruct A as [-> A].
    + unfold apply_budget. rewrite E. by split.
  - cbn. unfold drain_warnings. destruct (enabled c); cbn [negb]; [|by split].
    split; [done|]. unfold all_moved. split_and!; cbn; eauto with moves.
  - cbn. unfold after_agent. destruct (enabled c); cbn [negb]; [|by split].
    split; [done|]. unfold all_moved. split_and!; cbn; eauto with moves.
  - cbn. split; [done|]. unfold all_moved. split_and!; cbn; eauto with moves.
Qed.

Lemma run_private hs s : Forall (fun h => h.1 ∈ runs) hs -> all_fit runs s ->
  let '(l, s') := run_shared py_str c hs s in
  forall r, run_alone py_str c (of_run r hs) (view r s) = (of_run r l, view r s').
Proof.
  intros H. revert s. induction H as [|[x k] hs K H IH]; intros s F; cbn; [done|].
  pose proof (perform_private x k s K F) as P. destruct (perform_call _ _ _ _ _) as [a s'].
  destruct (private_call _ _ _ _) as [a' p] eqn:E. destruct P as [-> M]. apply all_moved_view in M as [F' V].
  specialize (IH s' F'). destruct (run_shared _ _ _ _) as [l s'']. intros r. specialize (IH r). specialize (V r).
  unfold of_run in *. cbn. destruct (bool_decide (x = r)) eqn:R; cbn.
  - apply bool_decide_eq_true in R as ->. rewrite E. rewrite bool_decide_eq_true_2 in V by done. rewrite V in IH. by rewrite IH.
  - rewrite bool_decide_eq_false_2 in V by (apply bool_decide_eq_false in R; congruence). by rewrite <- V.
Qed.

End refinement.

(** However the calls of up to a thousand runs are interleaved, the
    middleware answers each run, and ends up holding for it, exactly what a
    middleware of that run alone would: warnings, usage and stop reasons never
    cross from one run to another, and none is evicted. *)
Theorem token_budgets_private py_str c hs runs :
  Z.of_nat (length runs) <= kept -> Forall (fun h => h.1 ∈ runs) hs ->
  let '(answers, s) := run_shared py_str c hs new_budgets in
  forall r, run_alone py_str c (of_run r hs) nothing = (of_run r answers, view r s).
Proof.
  intros Few H. apply (run_private py_str c runs Few hs new_budgets H).
  unfold all_fit, fits. cbn. split_and!; try (by apply NoDup_nil); intros k X; by apply elem_of_nil in X.
Qed.

(** ** What is counted *)

Definition latest (seen : seen_map) (i : string) : Z * Z := default (0, 0) (lookup i seen).
Definition spent (f : Z * Z -> Z) (seen : seen_map) : Z := sumZ (fun kv => f kv.2) seen.

Lemma spent_assign f i v seen : NoDup (keys seen) -> f (0, 0) = 0 ->
  spent f (assign i v seen) = spent f seen - f (latest seen i) + f v.
Proof.
  intros N Z0. unfold latest. destruct (decide (i ∈ keys seen)) as [H|H].
  - destruct (split_at i seen H) as [w [d1 [d2 ->]]]. rewrite assign_at by done. rewrite lookup_at.
    + unfold spent. rewrite !sumZ_app. cbn. lia.
    + unfold keys in *. rewrite map_app in N. cbn in N. apply NoDup_app in N as [_ [D _]]. intros X. apply (D i X). left.
  - rewrite lookup_none by done. unfold assign. rewrite bool_decide_eq_false_2 by done. unfold spent. rewrite sumZ_app. cbn. lia.
Qed.

Lemma latest_assign i v seen j : latest (assign i v seen) j = if bool_decide (j = i) then v else latest seen j.
Proof. unfold latest. rewrite lookup_assign'. by case_bool_decide. Qed.

(** Readings in which no message loses tokens. *)
Fixpoint grows (now : string -> Z * Z) (ms : list Message) : Prop :=
  match ms with
  | [] => True
  | m :: ms =>
      match counted m with
      | Some i => (now i).1 <= (tokens m).1 /\ (now i).2 <= (tokens m).2 /\ grows (fun j => if bool_decide (j = i) then tokens m else now j) ms
      | None => grows now ms
      end
  end.

Lemma grows_ext ms : forall now now', (forall i, now i = now' i) -> grows now ms -> grows now' ms.
Proof.
  induction ms as [|m ms IH]; intros now now' E; cbn; [done|]. destruct (counted m) as [i|]; [|by apply IH].
  rewrite E. intros (H1 & H2 & H). split_and!; [done..|]. revert H. apply IH. intros j.
  by case_bool_decide.
Qed.

(** What a message adds: never less than what it has gained, and just that when
    it has lost none. *)
Lemma count_message_spec u seen m : NoDup (keys seen) ->
  let '(u', seen') := count_message (u, seen) m in
  NoDup (keys seen') /\ total u' - total u = (input u' - input u) + (output u' - output u) /\
  input u <= input u' /\ output u <= output u' /\
  spent fst seen' - spent fst seen <= input u' - input u /\ spent snd seen' - spent snd seen <= output u' - output u /\
  (forall i, counted m = Some i -> (tokens m).1 <= (latest seen' i).1 /\ (tokens m).2 <= (latest seen' i).2) /\
  (forall i, counted m <> Some i -> latest seen' i = latest seen i) /\
  (grows (latest seen) [m] ->
   input u' - input u = spent fst seen' - spent fst seen /\ output u' - output u = spent snd seen' - spent snd seen /\
   forall i, counted m = Some i -> latest seen' i = tokens m).
Proof.
  intros N. unfold count_message, grows. destruct (counted m) as [i|]; [|split_and!; try done; try lia; intros; try split_and!; (lia || done)].
  destruct (tokens m) as [a b] eqn:T. fold (latest seen i). destruct (latest seen i) as [pa pb] eqn:L. cbn [fst snd].
  destruct ((0 <? Z.max 0 (a - pa)) || (0 <? Z.max 0 (b - pb))) eqn:G.
  - pose proof (spent_assign fst i (a, b) seen N eq_refl) as S1. pose proof (spent_assign snd i (a, b) seen N eq_refl) as S2.
    rewrite L in S1, S2. cbn [fst snd] in S1, S2. cbn [input output total]. split_and!; try lia; [by apply nodup_assign| | |].
    + intros j [= <-]. rewrite latest_assign, bool_decide_eq_true_2 by done. cbn. lia.
    + intros j D. rewrite latest_assign, bool_decide_eq_false_2; [done|]. intros ->. by apply D.
    + intros (H1 & H2 & _). split_and!; [lia..|]. intros j [= <-]. rewrite latest_assign. by case_bool_decide.
  - apply orb_false_iff in G as [G1 G2]. split_and!; try lia; [done| | |].
    + intros j [= <-]. rewrite L. cbn. lia.
    + done.
    + intros (H1 & H2 & _). split_and!; [lia..|]. intros j [= <-]. rewrite L. f_equal; lia.
Qed.

(** The same of what a sequence of messages adds. *)
Definition accounted (u0 : TokenUsage) (seen0 : seen_map) (ms : list Message) (u : TokenUsage) (seen : seen_map) : Prop :=
  NoDup (keys seen) /\ total u - total u0 = (input u - input u0) + (output u - output u0) /\
  input u0 <= input u /\ output u0 <= output u /\
  spent fst seen - spent fst seen0 <= input u - input u0 /\ spent snd seen - spent snd seen0 <= output u - output u0 /\
  (forall l1 m l2 i, ms = l1 ++ m :: l2 -> counted m = Some i -> (forall m', m' ∈ l2 -> counted m' <> Some i) ->
     (tokens m).1 <= (latest seen i).1 /\ (tokens m).2 <= (latest seen i).2) /\
  (forall i, (forall m, m ∈ ms -> counted m <> Some i) -> latest seen i = latest seen0 i) /\
  (grows (latest seen0) ms ->
   input u - input u0 = spent fst seen - spent fst seen0 /\ output u - output u0 = spent snd seen - spent snd seen0).

Lemma count_messages_spec ms : forall u seen, NoDup (keys seen) ->
  let '(u', seen') := foldl count_message (u, seen) ms in accounted u seen ms u' seen'.
Proof.
  induction ms as [|m ms IH]; intros u seen N.
  { cbn. unfold accounted. split_and!; try done; try lia. intros [|] ? ? ? [=]. }
  change (foldl count_message (u, seen) (m :: ms)) with (foldl count_message (count_message (u, seen) m) ms).
  pose proof (count_message_spec u seen m N) as C. destruct (count_message (u, seen) m) as [u1 seen1].
  destruct C as (N1 & T & I & O & SI & SO & Cov & Oth & Gr). specialize (IH u1 seen1 N1).
  destruct (foldl count_message (u1, seen1) ms) as [u' seen'].
  destruct IH as (N' & T' & I' & O' & SI' & SO' & Cov' & Oth' & Gr'). unfold accounted. split_and!; try lia; [done| | |].
  - intros [|m0 l1] m' l2 i; cbn; intros [= <- E] Hi Last.
    + subst l2. rewrite (Oth' i Last). by apply Cov.
    + by apply (Cov' l1 m' l2).
  - intros i H. rewrite Oth' by (intros m' Hm; apply H; by right). apply Oth. apply H. left.
  - intros G. assert (grows (latest seen) [m] /\ grows (latest seen1) ms) as [G0 G1].
    { cbn in G |- *. destruct (counted m) as [i|] eqn:Hi.
      - destruct G as (H1 & H2 & H). split; [done|]. destruct (Gr ltac:(cbn; by rewrite Hi)) as (_ & _ & E).
        revert H. apply grows_ext. intros j. case_bool_decide as D; [subst; by rewrite E|]. symmetry. apply Oth. congruence.
      - split; [done|]. revert G. apply grows_ext. intros j. symmetry. by apply Oth. }
    destruct (Gr G0) as (E1 & E2 & _). destruct (Gr' G1) as [E1' E2']. lia.
Qed.

(** ** What is decided *)

(** A fraction reaches one exactly when the budget is used up. *)
Lemma fraction_reaches_one n limit : 0 <= n -> 0 < limit < 2 ^ 53 ->
  fle (of_int 1) (int_div n limit) = (limit <=? n).
Proof.
  intros Hn Hl. destruct (Z.leb_spec limit n) as [L|L].
  - apply rnd_mono; lia.
  - assert (num (of_int 1) = den (of_int 1)) as One by (vm_compute; reflexivity).
    unfold fle. rewrite One. apply Z.leb_gt. unfold int_div. pose proof (den_pos (rnd n limit)) as D.
    pose proof (den_pos (of_int 1)) as D1.
    assert (num (rnd n limit) < den (rnd n limit)) as X; [|nia].
    destruct (Z.eq_dec n 0) as [->|]; [vm_compute; reflexivity|].
    pose proof (rnd_upper n limit ltac:(lia) ltac:(lia)) as U. set (x := num (rnd n limit)) in *.
    set (d := den (rnd n limit)) in *.
    assert (2 ^ 53 = 9007199254740992) as P by done. rewrite P in *. clearbody x d.
    destruct (Z.lt_ge_cases x d) as [|G]; [done|]. exfalso.
    assert (9007199254740992 * (d * limit) <= 9007199254740993 * (n * d)) by nia.
    assert (9007199254740992 * limit <= 9007199254740993 * n) by nia. lia.
Qed.

Section fractions.
Context (hard : float).

Lemma higher_reaches t f : fle hard (fraction (higher t f)) =
  fle hard (fraction t) || fle hard (int_div f.1.2 f.2).
Proof.
  destruct f as [[name n] limit]. unfold higher. cbn [fst snd].
  destruct (fle (int_div n limit) (fraction t)) eqn:L; cbn [negb fraction].
  - destruct (fle hard (int_div n limit)) eqn:H; [|by rewrite orb_false_r]. by rewrite (fle_trans _ _ _ H L).
  - destruct (fle hard (fraction t)) eqn:H; [|done].
    destruct (fle_total (int_div n limit) (fraction t)) as [X|X]; [congruence|]. by rewrite (fle_trans _ _ _ H X).
Qed.

Lemma highest_reaches fs t : fle hard (fraction (foldl higher t fs)) =
  fle hard (fraction t) || existsb (fun f => fle hard (int_div f.1.2 f.2)) fs.
Proof.
  revert t. induction fs as [|f fs IH]; intros t; cbn; [by rewrite orb_false_r|].
  by rewrite IH, higher_reaches, orb_assoc.
Qed.
End fractions.

(** The budgets that are used up. *)
Definition over_budget (c : TokenBudgetConfig) (u : TokenUsage) : bool :=
  (max_tokens c <=? total u) ||
  match max_input_tokens c with Some n => n <=? input u | None => false end ||
  match max_output_tokens c with Some n => n <=? output u | None => false end.

(** Limits a float holds exactly. *)
Definition exact_limits (c : TokenBudgetConfig) : bool :=
  (max_tokens c <? 2 ^ 53) && match max_input_tokens c with Some n => n <? 2 ^ 53 | None => true end &&
  match max_output_tokens c with Some n => n <? 2 ^ 53 | None => true end.

Lemma limits_ok c : valid_budget c = true -> exact_limits c = true ->
  1000 <= max_tokens c < 2 ^ 53 /\ (forall n, max_input_tokens c = Some n -> 1 <= n < 2 ^ 53) /\
  (forall n, max_output_tokens c = Some n -> 1 <= n < 2 ^ 53).
Proof.
  unfold valid_budget, exact_limits. intros V X. do 5 apply andb_true_iff in V as [V _].
  apply andb_true_iff in V as [V V3]. apply andb_true_iff in V as [V1 V2].
  apply andb_true_iff in X as [X X3]. apply andb_true_iff in X as [X1 X2].
  destruct (max_input_tokens c), (max_output_tokens c); split_and!; try intros ? [= <-]; lia.
Qed.

Lemma decide_usage_stops c warned u : valid_budget c = true -> exact_limits c = true -> hard_stop_threshold c = of_int 1 ->
  0 <= input u -> 0 <= output u -> total u = input u + output u ->
  (exists t, decide_usage c warned u = StopFor t) <-> over_budget c u = true.
Proof.
  intros V X H I O T. destruct (limits_ok c V X) as (L1 & L2 & L3). clear V X. unfold decide_usage, highest. rewrite H.
  assert (fle (of_int 1) (fraction (foldl higher {| fraction := fzero; reason := ""; used := 0; budget := 0 |} (fractions c u))) =
          over_budget c u) as ->.
  { rewrite highest_reaches. assert (fle (of_int 1) (fraction {| fraction := fzero; reason := ""; used := 0; budget := 0 |}) = false)
      as -> by (vm_compute; reflexivity). cbn [orb].
    unfold fractions, over_budget.
    rewrite existsb_app. cbn [existsb fst snd]. rewrite fraction_reaches_one, orb_false_r by lia. rewrite <- orb_assoc. f_equal.
    rewrite existsb_app. f_equal.
    - destruct (max_input_tokens c) as [n|]; [|done]. pose proof (L2 n eq_refl). destruct (Z.eqb_spec n 0); [lia|]. cbn.
      rewrite orb_false_r. apply fraction_reaches_one; lia.
    - destruct (max_output_tokens c) as [n|]; [|done]. pose proof (L3 n eq_refl). destruct (Z.eqb_spec n 0); [lia|]. cbn.
      rewrite orb_false_r. apply fraction_reaches_one; lia. }
  destruct (Z.leb_spec (total u) 0) as [Z0|Z0].
  - split; [intros [t [=]]|]. unfold over_budget. rewrite !orb_true_iff.
    destruct (max_input_tokens c) as [n|], (max_output_tokens c) as [n'|];
      try pose proof (L2 n eq_refl); try pose proof (L3 n' eq_refl); lia.
  - destruct (over_budget c u); [split; eauto|]. split; [|done]. intros [t E]. by destruct (_ && _).
Qed.

Lemma decide_usage_warns c warned u t : decide_usage c warned u = WarnOf t -> warned = false.
Proof. unfold decide_usage. destruct (_ <=? _); [done|]. destruct (fle _ _); [done|]. destruct warned; [|done]. by rewrite andb_false_r. Qed.

(** ** A run from its beginning *)

(** The calls between [before_agent] and [after_agent]. *)
Definition during (k : call) : bool := match k with Before _ | After => false | _ => true end.

(** The messages the calls count. *)
Definition read_by (k : call) : list Message :=
  match k with
  | AfterModel ms => match last ms with Some {| ai := Some _ |} => ms | _ => [] end
  | _ => []
  end.

Definition usage_now (p : Private) : TokenUsage := default no_usage (p_usage p).
Definition seen_now (p : Private) : seen_map := default [] (p_seen p).

Definition drained (a : answer) : Z := match a with Drained ws => Z.of_nat (length ws) | _ => 0 end.
(** The warnings a run can still be given. *)
Definition warnings_left (p : Private) : Z :=
  Z.of_nat (length (default [] (p_pending p))) + (if default false (p_warned p) then 0 else 1).

Section one_run.
Context (py_str : json -> string) (c : TokenBudgetConfig) (On : enabled c = true).

Lemma private_call_during k p : during k = true ->
  let '(a, p') := private_call py_str c k p in
  (usage_now p', seen_now p') = foldl count_message (usage_now p, seen_now p) (read_by k) /\
  drained a + warnings_left p' <= warnings_left p.
Proof.
  destruct k as [ms|ms| | |]; intros D; try discriminate D; cbn [private_call read_by]; rewrite ?On.
  - unfold model_answered, counted_so_far. destruct (last ms) as [[i t [m|]]|]; try (split; [done|cbn; lia]).
    unfold usage_now, seen_now, warnings_left. destruct (foldl _ _ _) as [u seen].
    destruct (decide_usage c (default false (p_warned p)) u) as [|t'|t'] eqn:E; cbn; (split; [done|]); try lia.
    apply decide_usage_warns in E as ->. rewrite length_app. cbn. lia.
  - split; [done|]. unfold warnings_left. cbn. lia.
  - split; [done|]. unfold warnings_left. cbn. lia.
Qed.

Lemma run_alone_during ks p : forallb during ks = true ->
  let '(l, p') := run_alone py_str c ks p in
  (usage_now p', seen_now p') = foldl count_message (usage_now p, seen_now p) (flat_map read_by ks) /\
  sumZ drained l + warnings_left p' <= warnings_left p.
Proof.
  revert p. induction ks as [|k ks IH]; intros p; cbn [forallb run_alone flat_map].
  { intros _. split; [done|]. change (sumZ drained []) with 0. lia. }
  intros [K Ks]%andb_true_iff. pose proof (private_call_during k p K) as P. destruct (private_call _ _ _ _) as [a p'].
  destruct P as [C W]. specialize (IH p' Ks). destruct (run_alone _ _ _ _) as [l p'']. destruct IH as [C' W'].
  rewrite foldl_app, <- C. split; [done|]. change (sumZ drained (a :: l)) with (drained a + sumZ drained l). lia.
Qed.

Lemma before_spec ms : let '(_, p) := private_call py_str c (Before ms) nothing in
  usage_now p = no_usage /\ seen_now p = foldl mark_seen [] ms /\ warnings_left p = 1.
Proof. cbn. rewrite On. by destruct ms. Qed.

Lemma mark_seen_nodup ms : forall seen, NoDup (keys seen) -> NoDup (keys (foldl mark_seen seen ms)).
Proof.
  induction ms as [|m ms IH]; intros seen N; cbn; [done|]. apply IH. unfold mark_seen. case_match; [by apply nodup_assign|done].
Qed.

Lemma private_call_stops ms i t m p : last ms = Some {| msg_id := i; tokens := t; ai := Some m |} ->
  let '(u, _) := counted_so_far p ms in let '(a, p') := private_call py_str c (AfterModel ms) p in
  if match decide_usage c (default false (p_warned p)) u with StopFor _ => true | _ => false end
  then p_stop p' = Some "token_capped" /\ exists m', a = Update (Some m') /\ tool_calls m' = [] /\
       "tool_calls" ∉ map fst (additional_kwargs m')
  else p_stop p' = p_stop p /\ a = Update None.
Proof.
  intros L. cbn. rewrite On. unfold model_answered. rewrite L. destruct (counted_so_far p ms) as [u seen].
  destruct (decide_usage _ _ _); try done. cbn. split; [done|]. eexists. split_and!; [done|done|]. cbn. unfold without.
  intros [[k v] [E H]]%list_elem_of_fmap. cbn in E. subst k. apply filter_elem in H as [H _]. by apply filter_elem in H as [_ H].
Qed.
End one_run.


(** ** Two runs *)

Definition sample_budget : TokenBudgetConfig :=
  {| enabled := true; max_tokens := 1000; max_input_tokens := Some 800; max_output_tokens := None;
     budget_warn_threshold := rnd 8 10; hard_stop_threshold := of_int 1 |}.
Definition sample_answer (i : string) (used : Z * Z) : Message :=
  {| msg_id := Some i; tokens := used;
     ai := Some {| content := JStr i; tool_calls := [{| tc_name := "search"; tc_args := JObj [] |}];
                   additional_kwargs := [("tool_calls", JList [])]; response_metadata := []; ai_rest := JNull |} |}.
Definition sample_history : list Message := [sample_answer "old" (5000, 900)].
Definition sample_calls : list call :=
  [AfterModel (sample_history ++ [sample_answer "m1" (500, 60)]); BeforeModel;
   AfterModel (sample_history ++ [sample_answer "m1" (650, 60); sample_answer "m2" (20, 75)]); BeforeModel].
Definition sample_traffic : list (string * call) :=
  [("r1", Before sample_history); ("r2", Before [])] ++ map (pair "r1") sample_calls ++
  [("r2", AfterModel [sample_answer "m1" (999, 0)]); ("r1", After); ("r2", Consume)].

Lemma token_budgets_private_witness :
  let '(answers, s) := run_shared (fun _ => "") sample_budget sample_traffic new_budgets in
  of_run "r2" answers =
  (run_alone (fun _ => "") sample_budget [Before []; AfterModel [sample_answer "m1" (999, 0)]; Consume] nothing).1.
Proof.
  pose proof (token_budgets_private (fun _ => "") sample_budget sample_traffic ["r1"; "r2"] ltac:(vm_compute; congruence)
    ltac:(repeat (apply Forall_cons; split; [set_solver|]); by apply Forall_nil)) as T.
  destruct (run_shared _ _ _ _) as [answers s]. specialize (T "r2").
  assert (of_run "r2" sample_traffic = [Before []; AfterModel [sample_answer "m1" (999, 0)]; Consume]) as E by reflexivity.
  rewrite E in T. by rewrite T.
Defined.


End BudgetGuard.
