(* ===== verification/PosixPaths.v ===== *)
(** * Path texts

    The operations of [str], [posixpath] and [pathlib] the sandbox code uses on
    paths.  A path separator is one byte, and no byte of a longer character is a
    separator, so these work on bytes. *)
From S2P Require Import Prelude Json Text.
Import Json Text.

Module PosixPaths.

(** ** Texts *)

Definition char (c : ascii) : string := String c "".
Definition is_char (c : ascii) : ascii -> bool := Ascii.eqb c.
Definition slash : ascii := "/".
Definition backslash_char : ascii := ascii_of_N 92.
Definition is_slash (c : ascii) : bool := Ascii.eqb c slash || Ascii.eqb c backslash_char.

(** [s.split(sep)] on a one-character separator. *)
Fixpoint split_on (sep : ascii) (s : string) : list string :=
  match s with
  | EmptyString => [""]
  | String c s =>
      if Ascii.eqb c sep then "" :: split_on sep s
      else match split_on sep s with
           | x :: l => String c x :: l
           | [] => [char c]
           end
  end.

(** [s.replace(a, b)] on one-character texts. *)
Fixpoint replace_char (a b : ascii) (s : string) : string :=
  match s with
  | EmptyString => ""
  | String c s => String (if Ascii.eqb c a then b else c) (replace_char a b s)
  end.

(** [s.lstrip(...)] and [s.rstrip(...)] *)
Fixpoint lstrip (f : ascii -> bool) (s : string) : string :=
  match s with
  | String c r => if f c then lstrip f r else s
  | EmptyString => ""
  end.
Fixpoint rstrip (f : ascii -> bool) (s : string) : string :=
  match s with
  | String c r => let r := rstrip f r in if (r =? "")%string && f c then "" else String c r
  | EmptyString => ""
  end.

(** [s.endswith(c)] *)
Fixpoint ends_in (f : ascii -> bool) (s : string) : bool :=
  match s with
  | EmptyString => false
  | String c EmptyString => f c
  | String _ s => ends_in f s
  end.

(** [s[n:]] where the first [n] bytes are a prefix of [s]. *)
Fixpoint drop_prefix (p s : string) : string :=
  match p, s with
  | String _ p, String _ s => drop_prefix p s
  | _, _ => s
  end.

(** ** [pathlib.PurePosixPath] *)

Record path := { root : string; tail : list string }.

#[export] Instance path_eq_dec : EqDecision path.
Proof. solve_decision. Defined.

(** [posixpath.splitroot]: exactly two leading slashes are a root of their own. *)
Definition leading (s : string) : string :=
  match s with
  | String "/" (String "/" (String "/" _)) => "/"
  | String "/" (String "/" _) => "//"
  | String "/" _ => "/"
  | _ => ""
  end.

(** The components that count. *)
Definition counts (x : string) : bool := negb (x =? "")%string && negb (x =? ".")%string.
Definition comps (s : string) : list string := List.filter counts (split_on slash s).

Definition parse (s : string) : path := {| root := leading s; tail := comps s |}.

Definition path_str (p : path) : string :=
  match root p +:+ join "/" (tail p) with EmptyString => "." | s => s end.

Definition parent (p : path) : path := {| root := root p; tail := removelast (tail p) |}.
Definition name (p : path) : string := default "" (last (tail p)).

Fixpoint is_prefix (a b : list string) : bool :=
  match a, b with
  | [], _ => true
  | x :: a, y :: b => (x =? y)%string && is_prefix a b
  | _ :: _, [] => false
  end.

(** [p.relative_to(base)] raises no [ValueError]. *)
Definition relative_to (p base : path) : bool :=
  (root p =? root base)%string && is_prefix (tail base) (tail p).

(** [base / s] of a [base] that is not the empty path and an [s] that is not
    absolute. *)
Definition child (base : path) (s : string) : path := {| root := root base; tail := tail base ++ tail (parse s) |}.

(** ** [posixpath] *)

Definition norm_step (absolute : bool) (l : list string) (comp : string) : list string :=
  if (comp =? "")%string || (comp =? ".")%string then l
  else if negb (comp =? "..")%string || (negb absolute && bool_decide (l = [])) || bool_decide (last l = Some "..")
       then l ++ [comp]
       else removelast l.

(** [posixpath.normpath] *)
Definition normpath (s : string) : string :=
  let absolute := negb (leading s =? "")%string in
  match leading s +:+ join "/" (foldl (norm_step absolute) [] (split_on slash s)) with
  | EmptyString => "."
  | t => t
  end.

Fixpoint common_prefix (a b : list string) : list string :=
  match a, b with
  | x :: a, y :: b => if (x =? y)%string then x :: common_prefix a b else []
  | _, _ => []
  end.

(** [posixpath.commonpath] of two paths, [None] for its [ValueError]. *)
Definition commonpath (a b : string) : option string :=
  let absolute := starts_with "/" in
  if Bool.eqb (absolute a) (absolute b)
  then Some ((if absolute a then "/" else "") +:+ join "/" (common_prefix (comps a) (comps b)))
  else None.

(** ** Facts *)

Lemma is_prefix_spec a b : is_prefix a b = true <-> exists c, b = a ++ c.
Proof.
  revert b. induction a as [|x a IH]; intros b; cbn; [by split; [exists b|]|].
  destruct b as [|y b]; [split; [done|by intros [c [=]]]|]. rewrite andb_true_iff, String.eqb_eq, IH. split.
  - intros [-> [c ->]]. by exists c.
  - intros [c [= -> ->]]. split; [done|by exists c].
Qed.

Lemma is_prefix_refl a : is_prefix a a = true.
Proof. apply is_prefix_spec. exists []. by rewrite app_nil_r. Qed.

Lemma is_prefix_trans a b c : is_prefix a b = true -> is_prefix b c = true -> is_prefix a c = true.
Proof. rewrite !is_prefix_spec. intros [x ->] [y ->]. exists (x ++ y). by rewrite app_assoc. Qed.

Lemma relative_refl p : relative_to p p = true.
Proof. unfold relative_to. by rewrite String.eqb_refl, is_prefix_refl. Qed.

Lemma relative_child base s : relative_to (child base s) base = true.
Proof. unfold relative_to, child. cbn. rewrite String.eqb_refl. apply is_prefix_spec. by eexists. Qed.

Lemma split_nonempty sep s : split_on sep s <> [].
Proof. destruct s as [|c s]; cbn; [done|]. destruct (Ascii.eqb c sep); [done|]. by destruct (split_on sep s). Qed.

(** Splitting a text that is joined from separator-free pieces. *)
Fixpoint no_char (f : ascii -> bool) (s : string) : bool :=
  match s with EmptyString => true | String c s => negb (f c) && no_char f s end.

Lemma no_char_app f s t : no_char f (s +:+ t) = no_char f s && no_char f t.
Proof. induction s as [|c s IH]; [done|]. change (String c s +:+ t) with (String c (s +:+ t)). cbn [no_char]. by rewrite IH, andb_assoc. Qed.

Lemma split_pieces sep s : forallb (no_char (Ascii.eqb sep)) (split_on sep s) = true.
Proof.
  induction s as [|c s IH]; cbn; [done|]. destruct (Ascii.eqb c sep) eqn:E; [done|].
  destruct (split_on sep s) as [|x l] eqn:S; [by destruct (split_nonempty sep s)|]. cbn in *. rewrite Ascii.eqb_sym, E. done.
Qed.

Lemma split_app_sep sep s t : split_on sep (s +:+ String sep t) = split_on sep s ++ split_on sep t.
Proof.
  induction s as [|c s IH].
  - rewrite sapp_nil. simpl. by rewrite Ascii.eqb_refl.
  - rewrite sapp_cons. cbn. rewrite IH. destruct (Ascii.eqb c sep); [done|].
    destruct (split_on sep s) as [|x l] eqn:S; [by destruct (split_nonempty sep s)|]. done.
Qed.

Lemma split_join sep s : join (char sep) (split_on sep s) = s.
Proof.
  induction s as [|c s IH]; [done|]. cbn. destruct (Ascii.eqb c sep) eqn:E.
  - apply Ascii.eqb_eq in E as ->. destruct (split_on sep s) as [|x l] eqn:S; [by destruct (split_nonempty sep s)|].
    change (join (char sep) ("" :: x :: l)) with (char sep +:+ join (char sep) (x :: l)). by rewrite IH.
  - destruct (split_on sep s) as [|x l] eqn:S; [by destruct (split_nonempty sep s)|]. rewrite <- IH. by destruct l.
Qed.

(** ** Components *)

Lemma comps_app s t : comps (s +:+ String slash t) = comps s ++ comps t.
Proof. unfold comps. by rewrite split_app_sep, List.filter_app. Qed.

Lemma comps_slash s : comps (String slash s) = comps s.
Proof. change (String slash s) with ("" +:+ String slash s). by rewrite comps_app. Qed.

(** Slashes at the ends do not matter. *)
Lemma comps_lstrip s : comps (lstrip (is_char slash) s) = comps s.
Proof.
  induction s as [|c s IH]; [done|]. cbn [lstrip]. unfold is_char at 1. destruct (Ascii.eqb slash c) eqn:E; [|done].
  apply Ascii.eqb_eq in E as <-. by rewrite comps_slash.
Qed.

Lemma comps_rstrip_slash s : comps (s +:+ char slash) = comps s.
Proof. unfold char. rewrite comps_app. cbn. by rewrite app_nil_r. Qed.

Lemma rstrip_split f s : exists t, s = rstrip f s +:+ t /\ all_chars f t = true.
Proof.
  induction s as [|c s [t [E H]]]; [by exists ""|]. cbn [rstrip]. destruct ((rstrip f s =? "")%string && f c) eqn:C.
  - apply andb_true_iff in C as [C F]. apply String.eqb_eq in C. rewrite C, sapp_nil in E. exists (String c t). split; [by rewrite E at 1|].
    cbn. by rewrite F.
  - exists t. split; [by rewrite sapp_cons, <- E|done].
Qed.

Lemma comps_slashes t : all_chars (is_char slash) t = true -> comps t = [].
Proof.
  induction t as [|c t IH]; [done|]. cbn [all_chars]. unfold is_char at 1. intros [E H]%andb_true_iff.
  apply Ascii.eqb_eq in E as <-. rewrite comps_slash. by apply IH.
Qed.

Lemma comps_rstrip s : comps (rstrip (is_char slash) s) = comps s.
Proof.
  destruct (rstrip_split (is_char slash) s) as [t [E H]].
  transitivity (comps (rstrip (is_char slash) s +:+ t)); [|by rewrite <- E]. clear E.
  destruct t as [|c t]; [by rewrite sapp_nil_r|].
  apply andb_true_iff in H as [C H]. apply Ascii.eqb_eq in C as <-.
  rewrite comps_app, (comps_slashes t H). by rewrite app_nil_r.
Qed.

(** ** Texts without backslashes *)

Definition posix (s : string) : bool := no_char (Ascii.eqb backslash_char) s.

Lemma no_char_contains c s : contains (char c) s = negb (no_char (Ascii.eqb c) s).
Proof.
  induction s as [|d s IH]; [done|]. cbn [contains starts_with char no_char]. rewrite IH, andb_true_r, negb_andb, negb_involutive.
  done.
Qed.

Lemma replace_posix a b s : no_char (Ascii.eqb a) s = true -> replace_char a b s = s.
Proof.
  induction s as [|c s IH]; [done|]. cbn. rewrite andb_true_iff, negb_true_iff, Ascii.eqb_sym. intros [-> H]. by rewrite IH.
Qed.

Lemma replace_removes a b s : a <> b -> no_char (Ascii.eqb a) (replace_char a b s) = true.
Proof.
  intros N. induction s as [|c s IH]; [done|]. cbn. rewrite IH, andb_true_r. destruct (Ascii.eqb c a) eqn:E.
  - apply negb_true_iff, Ascii.eqb_neq. done.
  - by rewrite Ascii.eqb_sym, E.
Qed.

Lemma posix_lstrip s : posix s = true -> lstrip is_slash s = lstrip (is_char slash) s.
Proof.
  unfold posix. induction s as [|c s IH]; [done|]. cbn [no_char lstrip]. rewrite andb_true_iff, negb_true_iff. intros [E H].
  unfold is_slash at 1, is_char at 1. rewrite (Ascii.eqb_sym c backslash_char), E, orb_false_r, (Ascii.eqb_sym c slash).
  destruct (Ascii.eqb slash c); [by apply IH|done].
Qed.

Lemma posix_rstrip s : posix s = true -> rstrip is_slash s = rstrip (is_char slash) s.
Proof.
  unfold posix. induction s as [|c s IH]; [done|]. cbn [no_char rstrip]. rewrite andb_true_iff, negb_true_iff. intros [E H].
  rewrite (IH H). unfold is_slash at 1, is_char at 2.
  by rewrite (Ascii.eqb_sym c backslash_char), E, orb_false_r, (Ascii.eqb_sym c slash).
Qed.

(** The components of a text with its backslashes turned. *)
Lemma replace_app a b s t : replace_char a b (s +:+ t) = replace_char a b s +:+ replace_char a b t.
Proof. induction s as [|c s IH]; [by rewrite !sapp_nil|]. rewrite sapp_cons. cbn [replace_char]. by rewrite IH, sapp_cons. Qed.

End PosixPaths.
