(* ===== verification/Shlex.v ===== *)
(** * Shell words

    The lexer of the standard library the sandbox uses,
    [shlex.shlex(text, posix=True, punctuation_chars=True)] with
    [whitespace_split] and without comments, and [shlex.quote]; and that what
    [quote] makes of a text is read back as one word, wherever it stands.  All
    the characters the lexer looks for are one byte. *)
From S2P Require Import Prelude Json Text PosixPaths.
Import Json Text PosixPaths.

Module Shlex.

Definition quotemark : ascii := "'".
Definition doublequote : ascii := ascii_of_N 34.
Definition newline_char : ascii := ascii_of_N 10.

Definition white (c : ascii) : bool := existsb (Ascii.eqb c) (map ascii_of_N [32; 9; 13; 10]%N).
Definition is_quote (c : ascii) : bool := Ascii.eqb c quotemark || Ascii.eqb c doublequote.
Definition is_escape (c : ascii) : bool := Ascii.eqb c backslash_char.
Definition is_punctuation (c : ascii) : bool := existsb (Ascii.eqb c) ["("; ")"; ";"; "<"; ">"; "|"; "&"]%char.

(** The lexer's [state]; [Escaped] remembers the state it returns to. *)
Inductive state := Between | Word | Punct | InQuote (q : ascii) | Escaped (back : option ascii).

Record lexer := { st : state; token : string; quoted : bool }.
Definition fresh : lexer := {| st := Between; token := ""; quoted := false |}.

(** The end of a token: it counts when it has text or was quoted. *)
Definition emit (l : lexer) : list string :=
  if negb (token l =? "")%string || quoted l then [token l] else [].

Definition put (c : ascii) (l : lexer) (s : state) : lexer :=
  {| st := s; token := token l +:+ char c; quoted := quoted l |}.
Definition to (s : state) (l : lexer) : lexer := {| st := s; token := token l; quoted := quoted l |}.

(** One character in the state [' '], with an empty token. *)
Definition begin (c : ascii) : lexer :=
  if white c then fresh
  else if is_escape c then {| st := Escaped None; token := ""; quoted := false |}
  else if is_punctuation c then {| st := Punct; token := char c; quoted := false |}
  else if is_quote c then {| st := InQuote c; token := ""; quoted := true |}
  else {| st := Word; token := char c; quoted := false |}.

(** One character: the tokens it ends, and the next state.  A character that is
    pushed back begins the next token at once. *)
Definition next (c : ascii) (l : lexer) : list string * lexer :=
  match st l with
  | Between => ([], begin c)
  | InQuote q =>
      if Ascii.eqb c q then ([], to Word l)
      else if is_escape c && Ascii.eqb q doublequote then ([], to (Escaped (Some q)) l)
      else ([], put c l (InQuote q))
  | Escaped None => ([], put c l Word)
  | Escaped (Some q) =>
      let l := if negb (is_escape c) && negb (Ascii.eqb c q) then put backslash_char l (st l) else l in
      ([], put c l (InQuote q))
  | Word =>
      if white c then (emit l, fresh)
      else if is_quote c then ([], {| st := InQuote c; token := token l; quoted := true |})
      else if is_escape c then ([], to (Escaped None) l)
      else if is_punctuation c then (emit l, begin c)
      else ([], put c l Word)
  | Punct =>
      if white c then (emit l, fresh)
      else if is_punctuation c then ([], put c l Punct)
      else (emit l, begin c)
  end.

(** [list(lexer)]; [None] is the [ValueError] of an open quotation or escape. *)
Fixpoint lex (s : string) (l : lexer) : option (list string) :=
  match s with
  | EmptyString => match st l with InQuote _ | Escaped _ => None | _ => Some (emit l) end
  | String c s => let '(out, l) := next c l in option_map (app out) (lex s l)
  end.

Definition words (s : string) : option (list string) := lex s fresh.

(** ** [shlex.quote] *)

Definition word_char (c : ascii) : bool :=
  let n := N_of_ascii c in
  ((48 <=? n) && (n <=? 57) || (65 <=? n) && (n <=? 90) || (97 <=? n) && (n <=? 122) || (n =? 95))%N.
Definition safe (c : ascii) : bool := word_char c || existsb (Ascii.eqb c) ["@"; "%"; "+"; "="; ":"; ","; "."; "/"; "-"]%char.

(** [s.replace("'", '\'"\'"\'')] *)
Definition hidden_quote : string :=
  char quotemark +:+ char doublequote +:+ char quotemark +:+ char doublequote +:+ char quotemark.
Fixpoint hide_quotes (s : string) : string :=
  match s with
  | EmptyString => ""
  | String c s => (if Ascii.eqb c quotemark then hidden_quote else char c) +:+ hide_quotes s
  end.

Definition quote (s : string) : string :=
  if (s =? "")%string then "''"
  else if all_chars safe s then s
  else char quotemark +:+ (hide_quotes s +:+ char quotemark).

(** ** What is read back *)

Lemma lex_cons c s l : lex (String c s) l = option_map (app (next c l).1) (lex s (next c l).2).
Proof. cbn. by destruct (next c l). Qed.

Definition in_word (t : string) (q : bool) : lexer := {| st := Word; token := t; quoted := q |}.
Definition in_quote (t : string) : lexer := {| st := InQuote quotemark; token := t; quoted := true |}.

Lemma option_map_nil {A} (o : option (list A)) : option_map (app []) o = o.
Proof. by destruct o. Qed.

Lemma char_app c s : char c +:+ s = String c s.
Proof. done. Qed.

Lemma snoc_app t c s : (t +:+ char c) +:+ s = t +:+ String c s.
Proof. by rewrite sapp_assoc. Qed.

(** Inside single quotes everything but the quote is taken as it is, and a
    hidden quote is read as one. *)
Lemma lex_hidden s : forall t r, lex (hide_quotes s +:+ r) (in_quote t) = lex r (in_quote (t +:+ s)).
Proof.
  induction s as [|c s IH]; intros t r; [by rewrite sapp_nil_r|]. cbn [hide_quotes]. rewrite sapp_assoc.
  destruct (Ascii.eqb c quotemark) eqn:E.
  - apply Ascii.eqb_eq in E as ->. unfold hidden_quote. rewrite !sapp_assoc, !char_app.
    rewrite !lex_cons. cbn -[lex hide_quotes String.append char]. rewrite !option_map_nil. change {| st := _; token := _; quoted := true |} with (in_quote (t +:+ char quotemark)).
    rewrite IH. by rewrite snoc_app.
  - rewrite char_app, lex_cons. cbn [next st in_quote]. rewrite E. rewrite andb_false_r. cbn [fst snd].
    rewrite option_map_nil. change (put c (in_quote t) (InQuote quotemark)) with (in_quote (t +:+ char c)). rewrite IH.
    by rewrite snoc_app.
Qed.

(** A character a word takes as it is. *)
Definition plain (c : ascii) : bool := negb (white c) && negb (is_quote c) && negb (is_escape c) && negb (is_punctuation c).

Lemma safe_plain c : safe c = true -> plain c = true.
Proof. destruct c as [[] [] [] [] [] [] [] []]; vm_compute; congruence. Qed.

Lemma next_plain c t q : plain c = true -> next c (in_word t q) = ([], in_word (t +:+ char c) q).
Proof.
  unfold plain. rewrite !andb_true_iff, !negb_true_iff. intros [[[H1 H2] H3] H4]. unfold next. cbn [st in_word].
  by rewrite H1, H2, H3, H4.
Qed.

Lemma begin_plain c : plain c = true -> begin c = in_word (char c) false.
Proof.
  unfold plain. rewrite !andb_true_iff, !negb_true_iff. intros [[[H1 H2] H3] H4]. unfold begin.
  by rewrite H1, H2, H3, H4.
Qed.

Lemma lex_plain s : forall t q r, all_chars plain s = true -> lex (s +:+ r) (in_word t q) = lex r (in_word (t +:+ s) q).
Proof.
  induction s as [|c s IH]; intros t q r; [by rewrite sapp_nil_r|]. cbn [all_chars]. intros [P H]%andb_true_iff.
  rewrite sapp_cons, lex_cons, next_plain by done. cbn [fst snd]. rewrite option_map_nil, IH by done. by rewrite snoc_app.
Qed.

(** A word in progress takes a quoted text as its continuation. *)
Lemma lex_quote s t q r : exists q', lex (quote s +:+ r) (in_word t q) = lex r (in_word (t +:+ s) q') /\
  (q' = true \/ (q' = q /\ s <> "")).
Proof.
  unfold quote. destruct (s =? "")%string eqn:E.
  - apply String.eqb_eq in E as ->. exists true. split; [|by left]. rewrite sapp_nil_r.
    change ("''" +:+ r) with (String quotemark (String quotemark r)). rewrite !lex_cons. cbn. by rewrite !option_map_nil.
  - apply String.eqb_neq in E. destruct (all_chars safe s) eqn:S.
    + exists q. split; [|by right]. apply lex_plain. revert S. apply all_chars_mono. apply safe_plain.
    + exists true. split; [|by left]. rewrite !sapp_assoc, !char_app, lex_cons. cbn [next st in_word]. cbn [white is_quote].
      replace (white quotemark) with false by reflexivity. replace (is_quote quotemark) with true by reflexivity. cbn [fst snd].
      rewrite option_map_nil. change {| st := _; token := _; quoted := true |} with (in_quote t). rewrite lex_hidden, lex_cons.
      cbn [next st in_quote]. rewrite Ascii.eqb_refl. cbn [fst snd to token quoted]. by rewrite option_map_nil.
Qed.

(** A quoted text at the beginning of a word. *)
Lemma lex_quote_fresh s r : exists q, lex (quote s +:+ r) fresh = lex r (in_word s q) /\ (q = true \/ s <> "").
Proof.
  unfold quote. destruct (s =? "")%string eqn:E.
  - apply String.eqb_eq in E as ->. exists true. split; [|by left].
    change ("''" +:+ r) with (String quotemark (String quotemark r)). rewrite !lex_cons. cbn -[lex]. by rewrite !option_map_nil.
  - apply String.eqb_neq in E. destruct (all_chars safe s) eqn:S.
    + exists false. split; [|by right]. destruct s as [|c s]; [done|]. cbn [all_chars] in S. apply andb_true_iff in S as [C S].
      rewrite sapp_cons, lex_cons. cbn [next st fresh fst snd]. rewrite begin_plain by by apply safe_plain. rewrite option_map_nil.
      rewrite lex_plain by (revert S; apply all_chars_mono, safe_plain). by rewrite char_app.
    + exists true. split; [|by left]. rewrite !sapp_assoc, !char_app, lex_cons. cbn [next st fresh fst snd].
      rewrite option_map_nil. change (begin quotemark) with (in_quote ""). rewrite lex_hidden, lex_cons.
      cbn [next st in_quote]. rewrite Ascii.eqb_refl. cbn [fst snd to token quoted]. rewrite sapp_nil. by rewrite option_map_nil.
Qed.

Lemma emit_word s q : q = true \/ s <> "" -> emit (in_word s q) = [s].
Proof.
  intros [-> |H]; unfold emit; cbn [token quoted in_word]; [by rewrite orb_true_r|].
  apply String.eqb_neq in H. by rewrite H.
Qed.

(** A word ends at white space, and at the end. *)
Lemma lex_end s q : q = true \/ s <> "" -> lex "" (in_word s q) = Some [s].
Proof. intros H. cbn [lex st in_word]. by rewrite emit_word. Qed.

Lemma lex_space s q r : q = true \/ s <> "" -> lex (String " " r) (in_word s q) = option_map (cons s) (words r).
Proof.
  intros H. rewrite lex_cons. change (next " " (in_word s q)) with (emit (in_word s q), fresh). cbn [fst snd].
  by rewrite emit_word.
Qed.

(** And before a semicolon. *)
Lemma lex_semicolon s q r : q = true \/ s <> "" ->
  lex (String ";" (String " " r)) (in_word s q) = option_map (app [s; ";"]) (words r).
Proof.
  intros H. rewrite !lex_cons. change (next ";" (in_word s q)) with (emit (in_word s q), begin ";"). cbn [fst snd].
  rewrite emit_word by done. change (next " " (begin ";")) with ([";"], fresh). cbn [fst snd]. unfold words.
  by destruct (lex r fresh).
Qed.

(** A text of plain characters is one word. *)
Lemma lex_plain_fresh s r : s <> "" -> all_chars plain s = true -> lex (s +:+ r) fresh = lex r (in_word s false).
Proof.
  destruct s as [|c s]; [done|]. intros _. cbn [all_chars]. intros [C S]%andb_true_iff. rewrite sapp_cons, lex_cons.
  cbn [next st fresh fst snd]. rewrite begin_plain, option_map_nil, lex_plain by done. by rewrite char_app.
Qed.

End Shlex.
