(* ===== verification/SandboxPaths.v ===== *)
(** * Virtual paths of the sandbox

    The path half of [deerflow/sandbox/tools.py]: which virtual paths a tool may
    touch, how they are resolved to the host, and how host paths are masked in
    what a tool returns.  What the configuration and the file system answer is a
    record [Host]: symbolic links only show in [resolve], which stands for
    [str(Path(p).resolve())]. *)
From S2P Require Import Prelude Json Text Slices PosixPaths OrderedDict.
Import Json Text Slices PosixPaths OrderedDict.OrderedDict.

Module SandboxPaths.

(** ** Failures *)

Inductive error_kind :=
  | SandboxError | PermissionError | FileNotFoundError | NotADirectoryError | IsADirectoryError | OSError
  | UnicodeDecodeError | ReError | OtherError.

#[export] Instance error_kind_eq_dec : EqDecision error_kind.
Proof. solve_decision. Defined.

(** An exception: its class as far as the handlers tell them apart, the name of
    its type, and its text. *)
Record failure := { kind : error_kind; type_name : string; message : string }.

Inductive outcome (A : Type) := Good (a : A) | Bad (f : failure).
#[global] Arguments Good {A} a.
#[global] Arguments Bad {A} f.

Definition permission (m : string) : failure := {| kind := PermissionError; type_name := "PermissionError"; message := m |}.
Definition runtime_error (m : string) : failure := {| kind := SandboxError; type_name := "SandboxRuntimeError"; message := m |}.
Definition not_found (m : string) : failure := {| kind := FileNotFoundError; type_name := "FileNotFoundError"; message := m |}.
Definition traversal : failure := permission "Access denied: path traversal detected".

(** ** The host *)

Record Mount := { container_path : string; mount_read_only : bool }.
Record McpServer := { server_enabled : bool; server_args : list string }.

Record Host := {
  skills_container : string;
  skills_host : option string;
  user_custom_skills : string;
  user_custom_exists : bool;
  custom_mounts : list Mount;
  mcp_servers : list McpServer;
  acp_workspace : option string -> option string;
  resolve : string -> string;
  (** [None] where the lookup raises one of the handled errors. *)
  public_skill_enabled : string -> option bool;
  user_skill_enabled : string -> string -> option bool;
  skill_category : string -> string -> option (option string)
}.

Record ThreadData := { workspace_path : option string; uploads_path : option string; outputs_path : option string }.

Definition VIRTUAL_PATH_PREFIX : string := "/mnt/user-data".
Definition _ACP_WORKSPACE_VIRTUAL_PATH : string := "/mnt/acp-workspace".

(** [p == base or p.startswith(f"{base}/")] *)
Definition under (base p : string) : bool := (p =? base)%string || starts_with (base +:+ "/") p.

Definition lstrip_slash : string -> string := lstrip (is_char slash).

(** A Python text that is not empty. *)
Definition nonempty (o : option string) : option string :=
  match o with Some s => if (s =? "")%string then None else Some s | None => None end.

Section host.
Context (h : Host).

Definition _is_skills_path (p : string) : bool := under (skills_container h) p.
Definition _is_acp_workspace_path (p : string) : bool := under _ACP_WORKSPACE_VIRTUAL_PATH p.

Definition _is_custom_mount_path (p : string) : bool :=
  existsb (fun m => under (container_path m) p) (custom_mounts h).

Definition longer (p : string) (best : option Mount) (m : Mount) : option Mount :=
  if under (container_path m) p
  then match best with
       | Some b => if len (container_path b) <? len (container_path m) then Some m else best
       | None => Some m
       end
  else best.
Definition _get_custom_mount_for_path (p : string) : option Mount := foldl (longer p) None (custom_mounts h).

(** ** Skills *)

Definition relative_to_skills (p : string) : string := lstrip_slash (drop_prefix (skills_container h) p).

Definition _extract_skill_name_from_skills_path (p : string) : option string :=
  if negb (_is_skills_path p) then None else
  let relative := relative_to_skills p in
  if (relative =? "")%string then None else
  match split_on slash relative with
  | [] => None
  | [x] => if bool_decide (x ∈ ["public"; "custom"; "legacy"]) then None else Some x
  | x :: y :: _ => if bool_decide (x ∈ ["public"; "custom"; "legacy"]) then Some y else Some x
  end.

(** Access is refused when the state cannot be determined.  [user] is the user
    the storage is asked for. *)
Definition _is_disabled_skill_path (p user : string) : bool :=
  match _extract_skill_name_from_skills_path p with
  | None => false
  | Some skill =>
      let relative := relative_to_skills p in
      let category :=
        if starts_with "public/" relative then Some (Some "public")
        else if starts_with "custom/" relative then Some (Some "custom")
        else if starts_with "legacy/" relative then Some (Some "legacy")
        else skill_category h user skill in
      match category with
      | None => true
      | Some None => false
      | Some (Some category) =>
          match (if (category =? "public")%string then public_skill_enabled h skill else user_skill_enabled h user skill) with
          | Some on => negb on
          | None => true
          end
      end
  end.

(** ** Joining *)

Definition _path_separator_for_style (p : string) : ascii :=
  if contains (char backslash_char) p && negb (contains "/" p) then backslash_char else slash.

Definition _join_path_preserving_style (base relative : string) : string :=
  if (relative =? "")%string then base else
  let separator := _path_separator_for_style base in
  let other := if Ascii.eqb separator slash then backslash_char else slash in
  rstrip is_slash base +:+ char separator +:+ lstrip is_slash (replace_char other separator relative).

Definition _resolve_skills_path (p : string) : outcome string :=
  match skills_host h with
  | None => Bad (not_found ("Skills directory not available for path: " +:+ p))
  | Some host =>
      if (p =? skills_container h)%string then Good host else
      let relative := relative_to_skills p in
      if under "custom" relative
      then let custom_relative := lstrip_slash (drop_prefix "custom" relative) in
           if (custom_relative =? "")%string then Good (path_str (parse (user_custom_skills h)))
           else Good (path_str (child (parse (user_custom_skills h)) custom_relative))
      else Good (_join_path_preserving_style host relative)
  end.

(** ** Refusing *)

Definition _reject_path_traversal (p : string) : outcome unit :=
  if bool_decide (".." ∈ split_on slash (replace_char backslash_char slash p)) then Bad traversal else Good tt.

Definition _resolve_acp_workspace_path (p : string) (thread_id : option string) : outcome string :=
  match _reject_path_traversal p with
  | Bad f => Bad f
  | Good _ =>
      match acp_workspace h thread_id with
      | None => Bad (not_found ("ACP workspace directory not available for path: " +:+ p))
      | Some host =>
          if (p =? _ACP_WORKSPACE_VIRTUAL_PATH)%string then Good host else
          let relative := lstrip_slash (drop_prefix _ACP_WORKSPACE_VIRTUAL_PATH p) in
          let resolved := _join_path_preserving_style host relative in
          if contains "/" host && negb (contains (char backslash_char) host)
          then if bool_decide (commonpath (normpath host) (normpath resolved) = Some (normpath host))
               then Good resolved else Bad traversal
          else if relative_to (parse (resolve h resolved)) (parse (resolve h host))
               then Good (resolve h resolved) else Bad traversal
      end
  end.

Definition allowed_message : string :=
  "Only paths under " +:+ VIRTUAL_PATH_PREFIX +:+ "/, " +:+ skills_container h +:+ "/, " +:+ _ACP_WORKSPACE_VIRTUAL_PATH +:+
  "/, or configured mount paths are allowed".

Definition validate_local_tool_path (p : string) (td : option ThreadData) (read_only : bool) : outcome unit :=
  match td with
  | None => Bad (runtime_error "Thread data not available for local sandbox")
  | Some _ =>
      match _reject_path_traversal p with
      | Bad f => Bad f
      | Good _ =>
          if _is_skills_path p then
            if read_only then Good tt else Bad (permission ("Write access to skills path is not allowed: " +:+ p))
          else if _is_acp_workspace_path p then
            if read_only then Good tt else Bad (permission ("Write access to ACP workspace is not allowed: " +:+ p))
          else if starts_with (VIRTUAL_PATH_PREFIX +:+ "/") p then Good tt
          else if _is_custom_mount_path p then
            match _get_custom_mount_for_path p with
            | Some m => if mount_read_only m && negb read_only
                        then Bad (permission ("Write access to read-only mount is not allowed: " +:+ p)) else Good tt
            | None => Good tt
            end
          else Bad (permission allowed_message)
      end
  end.

(** ** Resolving user data *)

Definition thread_dirs (td : ThreadData) : list (option string) := [workspace_path td; uploads_path td; outputs_path td].

Definition _thread_virtual_to_actual_mappings (td : ThreadData) : list (string * string) :=
  let known sub o := match nonempty o with Some d => [(VIRTUAL_PATH_PREFIX +:+ sub, d)] | None => [] end in
  known "/workspace" (workspace_path td) ++ known "/uploads" (uploads_path td) ++ known "/outputs" (outputs_path td) ++
  match omap nonempty (thread_dirs td) with
  | [] => []
  | d :: l =>
      let common_parent := path_str (parent (parse d)) in
      if forallb (fun d => (path_str (parent (parse d)) =? common_parent)%string) (d :: l)
      then [(VIRTUAL_PATH_PREFIX, common_parent)] else []
  end.

(** [sorted(items, key=lambda i: len(i[0]), reverse=True)] *)
Definition longest_first (l : list (string * string)) : list (string * string) :=
  stable_sort (fun a b => len b.1 <=? len a.1) l.

Definition replace_one (p virtual actual : string) : option string :=
  if (p =? virtual)%string then Some actual
  else if starts_with (virtual +:+ "/") p then
    let result := _join_path_preserving_style actual (lstrip_slash (drop_prefix virtual p)) in
    Some (if ends_in (is_char slash) p && negb (ends_in is_slash result)
          then result +:+ char (_path_separator_for_style actual) else result)
  else None.

Fixpoint replace_first_of (p : string) (l : list (string * string)) : string :=
  match l with
  | [] => p
  | (virtual, actual) :: l => match replace_one p virtual actual with Some r => r | None => replace_first_of p l end
  end.

Definition replace_virtual_path (p : string) (td : option ThreadData) : string :=
  match td with
  | None => p
  | Some td => replace_first_of p (longest_first (_thread_virtual_to_actual_mappings td))
  end.

Definition _validate_resolved_user_data_path (resolved : string) (td : ThreadData) : outcome unit :=
  match omap (option_map (resolve h)) (thread_dirs td) with
  | [] => Bad (runtime_error "No allowed local sandbox directories configured")
  | roots => if existsb (fun r => relative_to (parse resolved) (parse r)) roots then Good tt else Bad traversal
  end.

Definition _resolve_and_validate_user_data_path (p : string) (td : ThreadData) : outcome string :=
  let resolved := resolve h (replace_virtual_path p (Some td)) in
  match _validate_resolved_user_data_path resolved td with
  | Good _ => Good resolved
  | Bad f => Bad f
  end.

Definition _resolve_local_read_path (p : string) (td : ThreadData) : outcome string :=
  match validate_local_tool_path p (Some td) true with
  | Bad f => Bad f
  | Good _ => if _is_skills_path p || _is_acp_workspace_path p then Good p else _resolve_and_validate_user_data_path p td
  end.

End host.

(** A host to evaluate examples on: no links, one read-only mount, a thread's
    directories. *)
Definition example_host : Host := {|
  skills_container := "/mnt/skills"; skills_host := Some "/srv/skills"; user_custom_skills := "/srv/users/u/skills";
  user_custom_exists := false; custom_mounts := [{| container_path := "/mnt/shared"; mount_read_only := true |}];
  mcp_servers := []; acp_workspace := fun _ => Some "/srv/t/acp"; resolve := fun p => p;
  public_skill_enabled := fun s => Some (negb (s =? "deploy")%string); user_skill_enabled := fun _ _ => Some true;
  skill_category := fun _ _ => Some None |}.
Definition example_thread : ThreadData := {|
  workspace_path := Some "/srv/t/user-data/workspace"; uploads_path := Some "/srv/t/user-data/uploads";
  outputs_path := Some "/srv/t/user-data/outputs" |}.

End SandboxPaths.
