(* ===== verification/SandboxOutput.v ===== *)
(** * What a sandbox tool returns

    The output half of [deerflow/sandbox/tools.py]: masking host paths, masking
    injected secrets, truncation, and the environment and the prefixes a command
    runs with ([env_policy.py], [sandbox.py]). *)
From S2P Require Import Prelude Json Text Slices PosixPaths Shlex OrderedDict SandboxPaths.
Import Json Text Slices PosixPaths Shlex OrderedDict.OrderedDict SandboxPaths.

Module SandboxOutput.

(** ** Masking host paths *)

Definition _path_variants (p : string) : list string :=
  [p; replace_char backslash_char slash p; replace_char slash backslash_char p].

Definition byte_order (a b : string) : bool := bool_decide (String.le a b).

(** The texts of the patterns of one host directory, in the order they are
    compiled. *)
Definition mask_variants (h : Host) (host_base : string) : list string :=
  fromkeys (flat_map (fun r => stable_sort byte_order (fromkeys (_path_variants r)))
    [path_str (parse host_base); path_str (parse (resolve h host_base))]).

(** A variant matched literally, with either slash for a backslash. *)
Fixpoint match_base (base s : string) : option string :=
  match base, s with
  | EmptyString, _ => Some s
  | String a base, String b s =>
      if (if Ascii.eqb a backslash_char then is_slash b else Ascii.eqb a b) then match_base base s else None
  | String _ _, EmptyString => None
  end.

(** A character neither white nor special to the shell. *)
Definition masked_char (c : string) : bool :=
  negb (is_space c) && negb (bool_decide (c ∈ [char doublequote; "'"; ";"; "&"; "|"; "<"; ">"; "("; ")"])).
Fixpoint text_run (f : string -> bool) (l : list string) : string * string :=
  match l with
  | c :: r => if f c then let '(a, b) := text_run f r in (c +:+ a, b) else ("", text_of l)
  | [] => ("", "")
  end.

(** The optional rest of a path behind its base. *)
Definition path_tail (s : string) : string * string :=
  match s with
  | String c r => if is_slash c then let '(a, b) := text_run masked_char (chars r) in (String c a, b) else ("", s)
  | EmptyString => ("", "")
  end.

(** [pattern.sub]: every round consumes a byte, so their number is enough. *)
Fixpoint mask_with (fuel : nat) (base virtual s : string) : string :=
  match fuel, s with
  | O, _ | _, EmptyString => s
  | S fuel, String c r =>
      match match_base base s with
      | Some rest =>
          let '(t, rest) := path_tail rest in
          let relative := lstrip is_slash t in
          (if (relative =? "")%string then virtual else virtual +:+ "/" +:+ relative) +:+ mask_with fuel base virtual rest
      | None => String c (mask_with fuel base virtual r)
      end
  end.

Definition mask_pattern (base virtual s : string) : string := mask_with (String.length s) base virtual s.

(** [Path(workspace_path).parent.parent.name] *)
Definition _extract_thread_id_from_thread_data (td : option ThreadData) : option string :=
  match td with
  | Some td => option_map (fun w => name (parent (parent (parse w)))) (nonempty (workspace_path td))
  | None => None
  end.

Definition _thread_actual_to_virtual_mappings (td : ThreadData) : list (string * string) :=
  foldl (fun d kv => assign kv.2 kv.1 d) [] (_thread_virtual_to_actual_mappings td).

Definition mask_sources (h : Host) (td : option ThreadData) : list (string * string) :=
  match nonempty (skills_host h) with Some s => [(s, skills_container h)] | None => [] end ++
  (if user_custom_exists h then [(user_custom_skills h, skills_container h +:+ "/custom")] else []) ++
  match nonempty (acp_workspace h (_extract_thread_id_from_thread_data td)) with
  | Some a => [(a, _ACP_WORKSPACE_VIRTUAL_PATH)]
  | None => []
  end ++
  match td with Some td => longest_first (_thread_actual_to_virtual_mappings td) | None => [] end.

Definition mask_local_paths_in_output (h : Host) (output : string) (td : option ThreadData) : string :=
  foldl (fun out src => foldl (fun out base => mask_pattern base src.2 out) out (mask_variants h src.1))
        output (mask_sources h td).

Definition _sanitize_error (h : Host) (e : failure) (local : bool) (td : option ThreadData) : string :=
  let msg := type_name e +:+ ": " +:+ message e in
  if local then mask_local_paths_in_output h msg td else msg.

(** ** Masking secrets *)

Definition _SECRET_REDACTION : string := "[redacted]".
Definition _MIN_MASK_LENGTH : Z := 8.

(** [s.replace(old, new)] of an [old] that is not empty. *)
Fixpoint replace_from (old new : string) (skip : nat) (s : string) : string :=
  match s with
  | EmptyString => ""
  | String c r =>
      match skip with
      | S k => replace_from old new k r
      | O => if starts_with old s then new +:+ replace_from old new (pred (String.length old)) r
             else String c (replace_from old new 0 r)
      end
  end.
Definition replace_text (old new s : string) : string :=
  if (old =? "")%string then new +:+ text_of (map (fun c => c +:+ new) (chars s)) else replace_from old new 0 s.

Definition longest_value_first (a b : string) : bool := len b <=? len a.
Definition secret_values (injected : list (string * string)) : list string :=
  stable_sort longest_value_first (List.filter (fun v => _MIN_MASK_LENGTH <=? len v) (map snd injected)).

Definition mask_secret_values (output : string) (injected_env : option (list (string * string))) : string :=
  match injected_env with
  | Some env => if (output =? "")%string then output
                else foldl (fun out v => replace_text v _SECRET_REDACTION out) output (secret_values env)
  | None => output
  end.

(** ** Truncation *)

Definition newline_text : string := char newline_char.

(** Both ends of a text, around a marker that names what was left out. *)
Definition middle_marker (what : string) (n : Z) : string :=
  newline_text +:+ "... [" +:+ what +:+ " truncated: " +:+ pretty n +:+ " chars skipped] ..." +:+ newline_text.

Definition truncate_middle (what output : string) (max_chars : Z) : string :=
  if max_chars =? 0 then output else
  if len output <=? max_chars then output else
  let total_len := len output in
  let kept := Z.max 0 (max_chars - len (middle_marker what total_len)) in
  if kept =? 0 then upto max_chars output else
  let head_len := kept / 2 in
  let tail_len := kept - head_len in
  upto head_len output +:+ middle_marker what (total_len - kept) +:+ (if 0 <? tail_len then suffix tail_len output else "").

Definition _truncate_bash_output : string -> Z -> string := truncate_middle "middle".
Definition _truncate_write_file_error_detail : string -> Z -> string := truncate_middle "write_file error".

Definition head_marker (kept total : Z) (hint : string) : string :=
  newline_text +:+ "... [truncated: showing first " +:+ pretty kept +:+ " of " +:+ pretty total +:+ " chars. " +:+ hint +:+ "] ...".

Definition truncate_head (hint output : string) (max_chars : Z) : string :=
  if max_chars =? 0 then output else
  if len output <=? max_chars then output else
  let total := len output in
  let kept := Z.max 0 (max_chars - len (head_marker total total hint)) in
  if kept =? 0 then upto max_chars output else upto kept output +:+ head_marker kept total hint.

Definition _truncate_read_file_output : string -> Z -> string := truncate_head "Use start_line/end_line to read a specific range".
Definition _truncate_ls_output : string -> Z -> string := truncate_head "Use a more specific path to see fewer results".

Definition _DEFAULT_WRITE_FILE_ERROR_MAX_CHARS : Z := 2000.

Definition _format_write_file_error (h : Host) (requested_path : string) (e : failure) (local : bool) (td : option ThreadData)
    (max_chars : Z) : string :=
  let header := "Error: Failed to write file '" +:+ requested_path +:+ "'" in
  let detail := _sanitize_error h e local td in
  if max_chars =? 0 then header +:+ ": " +:+ detail else
  let detail_budget := max_chars - len header - 2 in
  if detail_budget <=? 0 then _truncate_write_file_error_detail (header +:+ ": " +:+ detail) max_chars
  else header +:+ ": " +:+ _truncate_write_file_error_detail detail detail_budget.

(** ** The command that runs *)

(** Virtual paths of user data in a command. *)
Fixpoint replace_in_command (fuel : nat) (td : ThreadData) (s : string) : string :=
  match fuel, s with
  | O, _ | _, EmptyString => s
  | S fuel, String c r =>
      if starts_with VIRTUAL_PATH_PREFIX s then
        let rest := drop_prefix VIRTUAL_PATH_PREFIX s in
        let '(t, rest) :=
          match rest with
          | String "/" r => let '(a, b) := text_run masked_char (chars r) in ("/" +:+ a, b)
          | _ => ("", rest)
          end in
        replace_char backslash_char slash (replace_virtual_path (VIRTUAL_PATH_PREFIX +:+ t) (Some td)) +:+ replace_in_command fuel td rest
      else String c (replace_in_command fuel td r)
  end.

Definition replace_virtual_paths_in_command (command : string) (td : option ThreadData) : string :=
  match td with
  | Some td => replace_in_command (String.length command) td command
  | None => command
  end.

Definition _apply_cwd_prefix (command : string) (td : option ThreadData) : string :=
  match td with
  | Some td => match nonempty (workspace_path td) with
               | Some w => "cd " +:+ quote w +:+ " && " +:+ command
               | None => command
               end
  | None => command
  end.

Definition CHANNEL_USER_ID_ENV : string := "DEERFLOW_CHANNEL_USER_ID".
Definition _CHANNEL_USER_ID_MAX_LEN : Z := 256.

(** [context] is the run's context when it is a dictionary. *)
Definition _channel_identity_prefix (context : option dict) : option string :=
  match context with
  | None => None
  | Some d =>
      match get "channel_user_id" d with
      | None => None
      | Some (JStr id) =>
          if (0 <? len id) && (len id <=? _CHANNEL_USER_ID_MAX_LEN)
          then Some ("export " +:+ CHANNEL_USER_ID_ENV +:+ "=" +:+ quote id +:+ "; ")
          else Some ("unset " +:+ CHANNEL_USER_ID_ENV +:+ "; ")
      | Some _ => Some ("unset " +:+ CHANNEL_USER_ID_ENV +:+ "; ")
      end
  end.

(** ** The environment it runs in *)

Definition _SECRET_NAME_PARTS : list string := ["KEY"; "SECRET"; "TOKEN"; "PASS"; "CREDENTIAL"; "DSN"].
Definition _BLOCKED_EXACT_NAMES : list string :=
  ["DATABASE_URL"; "DATABASE_URI"; "REDIS_URL"; "MONGODB_URI"; "MONGO_URL"; "AMQP_URL"; "RABBITMQ_URL"; "POSTGRES_URL";
   "POSTGRESQL_URL"; "MYSQL_URL"; "CLICKHOUSE_URL"; "CONNECTION_STRING"; "CONN_STR"; "GH_PAT"; "GITHUB_PAT"; "MYSQL_PWD";
   "REDISCLI_AUTH"; "REDIS_AUTH"; "PGSERVICEFILE"].

Section environment.
(** [str.upper] *)
Context (upper : string -> string).

Definition is_blocked_env_name (name : string) : bool :=
  bool_decide (upper name ∈ _BLOCKED_EXACT_NAMES) || existsb (fun part => contains part (upper name)) _SECRET_NAME_PARTS.

Definition build_sandbox_env (environ : list (string * string)) (injected : option (list (string * string))) : list (string * string) :=
  foldl (fun d kv => assign kv.1 kv.2 d) (List.filter (fun kv => negb (is_blocked_env_name kv.1)) environ) (default [] injected).

End environment.

(** [_ENV_NAME_PATTERN.fullmatch] of every name. *)
Definition env_name (s : string) : bool :=
  match s with EmptyString => false | String c _ => negb (bool_decide (is_Some (digit_of c))) && all_chars word_char s end.
Definition _validate_extra_env (extra_env : option (list (string * string))) : bool :=
  forallb (fun kv => env_name kv.1) (default [] extra_env).

End SandboxOutput.
