(* ===== verification/SandboxCalls.v ===== *)
(** * Programs that call a sandbox

    A tool is a program that calls the sandbox provider, a sandbox and the file
    system: a tree of calls, each with what is done with its answer.  [run]
    gives it a provider; [calls_only] says which calls a program can make
    whatever the answers are. *)
From S2P Require Import Prelude SandboxPaths.
Import SandboxPaths.

Module SandboxCalls.

Record GrepMatch := { match_path : string; line_number : Z; line : string }.

Inductive call :=
  | Acquire (thread_id user_id : string)
  | GetSandbox (sandbox_id : string)
  | MakeDirs (dir : string)
  | ExecuteCommand (sandbox_id command : string) (env : option (list (string * string))) (timeout : option Z)
  | ListDir (sandbox_id dir : string)
  | Glob (sandbox_id dir pattern : string) (include_dirs : bool) (max_results : Z)
  | Grep (sandbox_id dir pattern : string) (glob : option string) (literal case_sensitive : bool) (max_results : Z)
  | ReadFile (sandbox_id file : string)
  | WriteFile (sandbox_id file content : string) (append : bool).

(** What a call answers. *)
Definition reply (c : call) : Type :=
  match c with
  | Acquire _ _ => outcome string
  | GetSandbox _ => bool
  | MakeDirs _ => outcome unit
  | ExecuteCommand _ _ _ _ => outcome string
  | ListDir _ _ => outcome (list string)
  | Glob _ _ _ _ _ => outcome (list string * bool)
  | Grep _ _ _ _ _ _ _ => outcome (list GrepMatch * bool)
  | ReadFile _ _ => outcome string
  | WriteFile _ _ _ _ => outcome unit
  end.

Inductive prog (A : Type) :=
  | Ret (a : A)
  | Call (c : call) (k : reply c -> prog A).
#[global] Arguments Ret {A} a.
#[global] Arguments Call {A} c k.

Fixpoint bind {A B} (p : prog A) (f : A -> prog B) : prog B :=
  match p with
  | Ret a => f a
  | Call c k => Call c (fun r => bind (k r) f)
  end.

Definition do_call (c : call) : prog (reply c) := Call c Ret.

(** ** Running *)

Section run.
Context {World : Type} (provider : forall c : call, World -> reply c * World).

Fixpoint run {A} (p : prog A) (w : World) : A * World :=
  match p with
  | Ret a => (a, w)
  | Call c k => let '(r, w) := provider c w in run (k r) w
  end.

Lemma provider_run_bind {A B} (p : prog A) (f : A -> prog B) w : run (bind p f) w = let '(a, w) := run p w in run (f a) w.
Proof. revert w. induction p as [a|c k IH]; intros w; cbn; [done|]. destruct (provider c w) as [r w']. apply IH. Qed.
End run.

(** The calls a run makes, with the last first. *)
Section trace.
Context {World : Type} (provider : forall c : call, World -> reply c * World).

Definition logging (c : call) (s : World * list call) : reply c * (World * list call) :=
  let '(r, w) := provider c s.1 in (r, (w, c :: s.2)).

Definition calls_made {A} (p : prog A) (w : World) : list call := (run logging p (w, [])).2.2.

End trace.

(** ** What a program can do *)

(** Every call satisfies [P], and every end [Q], whatever the answers are. *)
Fixpoint always {A} (P : call -> Prop) (Q : A -> Prop) (p : prog A) : Prop :=
  match p with
  | Ret a => Q a
  | Call c k => P c /\ forall r, always P Q (k r)
  end.

Section logic.
Context (P : call -> Prop).

Lemma always_weaken {A} (Q Q' : A -> Prop) p : (forall a, Q a -> Q' a) -> always P Q p -> always P Q' p.
Proof. intros H. induction p as [a|c k IH]; cbn; [auto|]. intros [C K]. split; [done|]. intros r. by apply IH. Qed.

Lemma always_bind {A B} (Q : A -> Prop) (R : B -> Prop) p f :
  always P Q p -> (forall a, Q a -> always P R (f a)) -> always P R (bind p f).
Proof.
  intros H F. induction p as [a|c k IH]; cbn in *; [by apply F|]. destruct H as [C K]. split; [done|]. intros r. by apply IH.
Qed.

(** So is every call a run makes. *)
Lemma always_calls {World A} (provider : forall c : call, World -> reply c * World) (Q : A -> Prop) p w :
  always P Q p -> Q (run provider p w).1 /\ Forall P (calls_made provider p w).
Proof.
  unfold calls_made.
  assert (forall w log, always P Q p -> Forall P log ->
    Q (run provider p w).1 /\ Forall P (run (logging provider) p (w, log)).2.2) as G; [|intros H; by apply G].
  clear w. induction p as [a|c k IH]; intros w log; cbn; [done|]. intros [C K] L.
  unfold logging at 1. cbn. destruct (provider c w) as [r w']. apply IH; [done|]. by constructor.
Qed.
End logic.

(** ** Programs that raise, over a state *)

Section state.
Context {S : Type}.

Definition M (A : Type) : Type := S -> prog (outcome A * S).

#[export] Instance M_ret : MRet M := fun A a s => Ret (Good a, s).
#[export] Instance M_bind : MBind M := fun A B k m s =>
  bind (m s) (fun r => match r.1 with Good a => k a r.2 | Bad e => Ret (Bad e, r.2) end).

Definition throw {A} (e : failure) : M A := fun s => Ret (Bad e, s).
Definition lift {A} (o : outcome A) : M A := fun s => Ret (o, s).
Definition gets {A} (f : S -> A) : M A := fun s => Ret (Good (f s), s).
Definition modify (f : S -> S) : M unit := fun s => Ret (Good tt, f s).
Definition calling {A} (p : prog (outcome A)) : M A := fun s => bind p (fun o => Ret (o, s)).
Definition asking {A} (p : prog A) : M A := fun s => bind p (fun a => Ret (Good a, s)).

(** [try: return m except e: return handler(e)], the handler in the state the
    exception left. *)
Definition try_except {A} (m : M A) (handler : failure -> S -> A) (s : S) : prog A :=
  bind (m s) (fun r => Ret (match r.1 with Good a => a | Bad e => handler e r.2 end)).

(** From [I], [m] makes only calls in [P] and answers [Q], raising or not in
    [I]. *)
Definition does {A} (P : call -> Prop) (I : S -> Prop) (m : M A) (Q : A -> S -> Prop) : Prop :=
  forall s, I s -> always P (fun r : outcome A * S => match r.1 with Good a => Q a r.2 | Bad _ => True end) (m s).

Lemma does_bind {A B} P I (m : M A) (k : A -> M B) Q R :
  does P I m Q -> (forall a, does P (Q a) (k a) R) -> does P I (m ≫= k) R.
Proof.
  intros H K s Is. eapply always_bind; [by apply H|]. intros [[a|e] s']; cbn; [|done]. intros Qs. by apply K.
Qed.

Lemma does_ret {A} P (I : S -> Prop) (a : A) (Q : A -> S -> Prop) : (forall s, I s -> Q a s) -> does P I (mret a) Q.
Proof. intros H s Is. by apply H. Qed.

Lemma does_lift {A} P (I : S -> Prop) (o : outcome A) (Q : A -> S -> Prop) :
  (forall s a, I s -> o = Good a -> Q a s) -> does P I (lift o) Q.
Proof. intros H s Is. cbn. destruct o; [by apply H|done]. Qed.

Lemma does_gets {A} P (I : S -> Prop) (f : S -> A) Q : (forall s, I s -> Q (f s) s) -> does P I (gets f) Q.
Proof. intros H s Is. by apply H. Qed.

Lemma does_modify P (I : S -> Prop) f Q : (forall s, I s -> Q tt (f s)) -> does P I (modify f) Q.
Proof. intros H s Is. by apply H. Qed.

Lemma does_throw {A} P (I : S -> Prop) e (Q : A -> S -> Prop) : does P I (throw e) Q.
Proof. done. Qed.

Lemma does_weaken {A} P (I I' : S -> Prop) (m : M A) (Q Q' : A -> S -> Prop) :
  does P I m Q -> (forall s, I' s -> I s) -> (forall a s, Q a s -> Q' a s) -> does P I' m Q'.
Proof.
  intros H HI HQ s Is. eapply always_weaken; [|by apply H, HI]. intros [[a|e] s']; cbn; [apply HQ|done].
Qed.

Lemma does_try {A} P (I : S -> Prop) (m : M A) handler Q s :
  does P I m Q -> I s -> always P (fun _ => True) (try_except m handler s).
Proof. intros H Is. eapply always_bind; [by apply H|]. done. Qed.
End state.
#[global] Arguments M : clear implicits.

End SandboxCalls.
