(* ===== verification/FilePaths.v ===== *)
(** * Where the files of a thread are

    [deerflow/config/paths.py] and [deerflow/config/runtime_paths.py]: the
    directories of users and threads on the host, the identifiers that may
    become part of a path, and the resolution of a virtual path.  No two threads
    share a directory. *)
From S2P Require Import Prelude Sha256 Json Text Slices Idempotency PosixPaths SandboxPaths.
Import Json Text Slices PosixPaths SandboxPaths.

Module FilePaths.

Definition value_error (m : string) : failure := {| kind := OtherError; type_name := "ValueError"; message := m |}.

(** ** Identifiers *)

(** [[A-Za-z0-9_\-]] *)
Definition id_char (c : ascii) : bool :=
  let n := N_of_ascii c in
  ((65 <=? n) && (n <=? 90) || (97 <=? n) && (n <=? 122) || (48 <=? n) && (n <=? 57))%N || Ascii.eqb c "_" || Ascii.eqb c "-".

(** [^...+$]: the end of a pattern is also found before a final newline. *)
Fixpoint then_end (f : ascii -> bool) (s : string) : bool :=
  match s with
  | EmptyString => true
  | String c EmptyString => f c || Ascii.eqb c (ascii_of_N 10)
  | String c s => f c && then_end f s
  end.
Definition matches_all (f : ascii -> bool) (s : string) : bool :=
  match s with String c r => f c && then_end f r | EmptyString => false end.

Definition _validate_thread_id (thread_id : string) : outcome string :=
  if matches_all id_char thread_id then Good thread_id
  else Bad (value_error ("Invalid thread_id " +:+ Idempotency.repr thread_id +:+
    ": only alphanumeric characters, hyphens, and underscores are allowed.")).
Definition _validate_user_id (user_id : string) : outcome string :=
  if matches_all id_char user_id then Good user_id
  else Bad (value_error ("Invalid user_id " +:+ Idempotency.repr user_id +:+
    ": only alphanumeric characters, hyphens, and underscores are allowed.")).

Definition _SAFE_USER_ID_DIGEST_HEX_LEN : Z := 16.

(** [_UNSAFE_USER_ID_CHAR_RE.sub("-", raw)], by code points. *)
Definition id_text (x : string) : bool := match x with String c EmptyString => id_char c | _ => false end.
Definition sanitize (raw : string) : string := text_of (map (fun x => if id_text x then x else "-") (chars raw)).

Definition make_safe_user_id (raw : string) : outcome string :=
  if (raw =? "")%string then Bad (value_error "user_id must be a non-empty string.") else
  let sanitized := sanitize raw in
  if (sanitized =? raw)%string then Good raw
  else Good (sanitized +:+ "-" +:+ upto _SAFE_USER_ID_DIGEST_HEX_LEN (Sha256.sha256 raw)).

Definition _legacy_safe_user_id (sha1 : string -> string) (raw sanitized : string) : string :=
  sanitized +:+ "-" +:+ upto _SAFE_USER_ID_DIGEST_HEX_LEN (sha1 raw).

(** ** Directories *)

(** [base / s]; an absolute [s] replaces the base. *)
Definition div (base : path) (s : string) : path := if starts_with "/" s then parse s else child base s.

Section runtime.
(** [str(Path(p).resolve())], [os.getenv], [Path.cwd()], and what exists. *)
Context (resolve : string -> string) (getenv : string -> option string) (cwd : string) (exists_ is_dir : string -> bool).

Definition env (k : string) : option string := match getenv k with Some s => nonempty (Some s) | None => None end.

Definition project_root : outcome path :=
  match env "DEER_FLOW_PROJECT_ROOT" with
  | Some env_root =>
      let root := resolve env_root in
      if negb (exists_ root)
      then Bad (value_error ("DEER_FLOW_PROJECT_ROOT is set to '" +:+ env_root +:+ "', but the resolved path '" +:+ root +:+ "' does not exist."))
      else if negb (is_dir root)
      then Bad (value_error ("DEER_FLOW_PROJECT_ROOT is set to '" +:+ env_root +:+ "', but the resolved path '" +:+ root +:+ "' is not a directory."))
      else Good (parse root)
  | None => Good (parse (resolve cwd))
  end.

Definition runtime_home : outcome path :=
  match env "DEER_FLOW_HOME" with
  | Some env_home => Good (parse (resolve env_home))
  | None => match project_root with Good r => Good (div r ".deer-flow") | Bad f => Bad f end
  end.

Definition base_dir (_base_dir : option path) : outcome path :=
  match _base_dir with
  | Some b => Good b
  | None => match env "DEER_FLOW_HOME" with Some env_home => Good (parse (resolve env_home)) | None => runtime_home end
  end.

Definition resolve_path (p : string) (base : outcome path) : outcome path :=
  if starts_with "/" p then Good (parse (resolve p))
  else match base with Good b => Good (parse (resolve (path_str (div b p)))) | Bad f => Bad f end.

(** The first of the names that is a file under the project root. *)
Definition existing_project_file (is_file : path -> bool) (names : list string) : outcome (option path) :=
  match project_root with
  | Good root => Good (List.find is_file (map (div root) names))
  | Bad f => Bad f
  end.
End runtime.

Section paths.
Context (lower : string -> string) (base : path).

Definition memory_file : path := div base "memory.json".
Definition user_md_file : path := div base "USER.md".
Definition agents_dir : path := div base "agents".
Definition agent_dir (name : string) : path := div agents_dir (lower name).
Definition agent_memory_file (name : string) : path := div (agent_dir name) "memory.json".

Definition in_dir (o : outcome path) (s : string) : outcome path := match o with Good p => Good (div p s) | Bad f => Bad f end.
Definition valid_in (o : outcome path) (id : outcome string) : outcome path :=
  match o with Good p => match id with Good s => Good (div p s) | Bad f => Bad f end | Bad f => Bad f end.

Definition user_dir (user_id : string) : outcome path := valid_in (Good (div base "users")) (_validate_user_id user_id).
Definition user_memory_file (user_id : string) : outcome path := in_dir (user_dir user_id) "memory.json".
Definition user_agents_dir (user_id : string) : outcome path := in_dir (user_dir user_id) "agents".
Definition user_agent_dir (user_id agent_name : string) : outcome path := in_dir (user_agents_dir user_id) (lower agent_name).
Definition user_agent_memory_file (user_id agent_name : string) : outcome path := in_dir (user_agent_dir user_id agent_name) "memory.json".
Definition user_skills_dir (user_id : string) : outcome path := in_dir (user_dir user_id) "skills".
Definition user_custom_skills_dir (user_id : string) : outcome path := in_dir (user_skills_dir user_id) "custom".

Definition thread_dir (user_id : option string) (thread_id : string) : outcome path :=
  match user_id with
  | Some u => valid_in (in_dir (user_dir u) "threads") (_validate_thread_id thread_id)
  | None => valid_in (Good (div base "threads")) (_validate_thread_id thread_id)
  end.

Definition sandbox_user_data_dir (user_id : option string) (thread_id : string) : outcome path := in_dir (thread_dir user_id thread_id) "user-data".
Definition sandbox_work_dir (user_id : option string) (thread_id : string) : outcome path := in_dir (sandbox_user_data_dir user_id thread_id) "workspace".
Definition sandbox_uploads_dir (user_id : option string) (thread_id : string) : outcome path := in_dir (sandbox_user_data_dir user_id thread_id) "uploads".
Definition sandbox_outputs_dir (user_id : option string) (thread_id : string) : outcome path := in_dir (sandbox_user_data_dir user_id thread_id) "outputs".
Definition acp_workspace_dir (user_id : option string) (thread_id : string) : outcome path := in_dir (thread_dir user_id thread_id) "acp-workspace".

(** [mkdir] and [chmod] of each directory, in order; what is created. *)
Definition ensure_thread_dirs (user_id : option string) (thread_id : string) : outcome (list path) :=
  match sandbox_work_dir user_id thread_id, sandbox_uploads_dir user_id thread_id, sandbox_outputs_dir user_id thread_id,
        acp_workspace_dir user_id thread_id with
  | Good w, Good u, Good o, Good a => Good [w; u; o; a]
  | Bad f, _, _, _ | _, Bad f, _, _ | _, _, Bad f, _ | _, _, _, Bad f => Bad f
  end.

(** What [shutil.rmtree] is called on, if anything. *)
Definition delete_thread_dir (exists_ : path -> bool) (user_id : option string) (thread_id : string) : outcome (option path) :=
  match thread_dir user_id thread_id with
  | Good d => Good (if exists_ d then Some d else None)
  | Bad f => Bad f
  end.

(** The safe id, and the directory that is renamed to another, if one is. *)
Definition prepare_user_dir_for_raw_id (sha1 : string -> string) (exists_ is_dir : path -> bool) (raw_user_id : string)
    : outcome (string * option (path * path)) :=
  match make_safe_user_id raw_user_id with
  | Bad f => Bad f
  | Good safe_user_id =>
      if (safe_user_id =? raw_user_id)%string then Good (safe_user_id, None) else
      let users_dir := div base "users" in
      let target_dir := div users_dir safe_user_id in
      let legacy_dir := div users_dir (_legacy_safe_user_id sha1 raw_user_id (sanitize raw_user_id)) in
      if exists_ target_dir || negb (is_dir legacy_dir) then Good (safe_user_id, None)
      else Good (safe_user_id, Some (legacy_dir, target_dir))
  end.

Definition resolve_virtual_path (resolve : string -> string) (user_id : option string) (thread_id virtual_path : string) : outcome path :=
  let stripped := lstrip_slash virtual_path in
  let prefix := lstrip_slash VIRTUAL_PATH_PREFIX in
  if negb (under prefix stripped) then Bad (value_error ("Path must start with /" +:+ prefix)) else
  let relative := lstrip_slash (drop_prefix prefix stripped) in
  match sandbox_user_data_dir user_id thread_id with
  | Bad f => Bad f
  | Good d =>
      let base := parse (resolve (path_str d)) in
      let actual := parse (resolve (path_str (div base relative))) in
      if relative_to actual base then Good actual else Bad (value_error "Access denied: path traversal detected")
  end.
End paths.

(** ** Identifiers are single components *)

Lemma id_char_plain c : id_char c = true -> Ascii.eqb c slash = false /\ Ascii.eqb c "." = false /\ continuation c = false.
Proof. intros H. destruct c as [[] [] [] [] [] [] [] []]; try (by vm_compute in H); by split_and!. Qed.

Lemma then_end_spec f s : then_end f s = true -> all_chars f s = true \/ exists t, s = t +:+ String (ascii_of_N 10) "" /\ all_chars f t = true.
Proof.
  induction s as [|c s IH]; [by left|]. destruct s as [|d s].
  - cbn. rewrite orb_true_iff. intros [->|E%Ascii.eqb_eq]; [by left|right]. exists "". by rewrite E.
  - intros [C H]%andb_true_iff. destruct (IH H) as [A|(t & E & A)]; [left; cbn in *; by rewrite C|right].
    exists (String c t). rewrite E. split; [done|]. cbn. by rewrite C.
Qed.

Lemma id_free s : all_chars id_char s = true -> no_char (Ascii.eqb slash) s = true.
Proof.
  induction s as [|c s IH]; [done|]. cbn [all_chars no_char]. intros [C H]%andb_true_iff. apply id_char_plain in C as [C _]. rewrite Ascii.eqb_sym, C. by apply IH.
Qed.

(** What is accepted as an identifier adds one component to a path. *)
Lemma id_component s : matches_all id_char s = true -> starts_with "/" s = false /\ comps s = [s].
Proof.
  destruct s as [|c s]; [done|]. cbn [matches_all]. intros [C T]%andb_true_iff. pose proof (id_char_plain c C) as (S & D & _).
  assert (no_char (Ascii.eqb slash) (String c s) = true) as F.
  { cbn [no_char]. rewrite Ascii.eqb_sym, S. cbn [negb andb]. destruct (then_end_spec _ _ T) as [A|(t & -> & A)]; [by apply id_free|].
    by rewrite no_char_app, id_free. }
  split; [change (starts_with "/" (String c s)) with (Ascii.eqb slash c && true); by rewrite Ascii.eqb_sym, S|]. unfold comps.
  assert (split_on slash (String c s) = [String c s]) as ->.
  { clear - F. revert F. generalize (String c s) as x. clear. induction x as [|c x IH]; [done|]. cbn [no_char split_on].
    intros [C H]%andb_true_iff. apply negb_true_iff in C. by rewrite Ascii.eqb_sym, C, IH. }
  cbn [List.filter]. unfold counts. assert (String c s <> ".") as N by (intros [= -> _]; by vm_compute in D). by rewrite (proj2 (String.eqb_neq _ _) N).
Qed.

Lemma div_id base s : matches_all id_char s = true -> div base s = {| root := root base; tail := tail base ++ [s] |}.
Proof. intros H. destruct (id_component s H) as [A C]. unfold div. rewrite A. unfold child, parse. cbn. by rewrite C. Qed.

(** ** No two threads share a directory *)

(** The components below the base directory. *)
Definition thread_parts (user_id : option string) (thread_id : string) : list string :=
  match user_id with Some u => ["users"; u; "threads"; thread_id] | None => ["threads"; thread_id] end.

Lemma thread_dir_parts base user_id thread_id p : thread_dir base user_id thread_id = Good p ->
  p = {| root := root base; tail := tail base ++ thread_parts user_id thread_id |}.
Proof.
  unfold thread_dir, user_dir, in_dir, valid_in, _validate_thread_id, _validate_user_id. destruct user_id as [u|].
  - destruct (matches_all id_char u) eqn:U; [|done]. destruct (matches_all id_char thread_id) eqn:T; [|done]. intros [= <-].
    rewrite (div_id _ thread_id T). cbn. rewrite (div_id _ u U). cbn. by rewrite <- !app_assoc.
  - destruct (matches_all id_char thread_id) eqn:T; [|done]. intros [= <-]. rewrite (div_id _ thread_id T). cbn. by rewrite <- !app_assoc.
Qed.

Lemma prefix_parts base parts x : relative_to x {| root := root base; tail := tail base ++ parts |} = true ->
  exists rest, tail x = tail base ++ parts ++ rest.
Proof. unfold relative_to. cbn. intros [_ [rest E]%is_prefix_spec]%andb_true_iff. exists rest. by rewrite E, app_assoc. Qed.

Lemma parts_apart u t u' t' rest rest' : thread_parts u t ++ rest = thread_parts u' t' ++ rest' -> u = u' /\ t = t'.
Proof. destruct u, u'; cbn; intros [= ]; by subst. Qed.

(** A directory of a thread, by its name. *)
Definition is_thread_dir (base : path) (user_id : option string) (thread_id : string) (d : path) : Prop :=
  thread_dir base user_id thread_id = Good d \/ sandbox_user_data_dir base user_id thread_id = Good d \/
  sandbox_work_dir base user_id thread_id = Good d \/ sandbox_uploads_dir base user_id thread_id = Good d \/
  sandbox_outputs_dir base user_id thread_id = Good d \/ acp_workspace_dir base user_id thread_id = Good d.

Lemma relative_trans p q r : relative_to p q = true -> relative_to q r = true -> relative_to p r = true.
Proof.
  unfold relative_to. intros [A%String.eqb_eq B]%andb_true_iff [C%String.eqb_eq D]%andb_true_iff. rewrite A, C, String.eqb_refl. by eapply is_prefix_trans.
Qed.

Lemma named_dir base user_id thread_id d : is_thread_dir base user_id thread_id d ->
  exists p, thread_dir base user_id thread_id = Good p /\ relative_to d p = true.
Proof.
  unfold is_thread_dir, sandbox_work_dir, sandbox_uploads_dir, sandbox_outputs_dir, sandbox_user_data_dir, acp_workspace_dir, in_dir.
  destruct (thread_dir base user_id thread_id) as [p|f]; [|naive_solver].
  intros [[= <-]|[[= <-]|[[= <-]|[[= <-]|[[= <-]|[= <-]]]]]]; (exists p; split; [done|]); [apply relative_refl|..];
    repeat (eapply relative_trans; [apply (relative_child _)|]); apply relative_refl.
Qed.

(** ** Digests *)

Lemma hex_digit_id n : 0 <= n < 16 -> id_char (Sha256.hex_digit n) = true.
Proof.
  intros H. assert (n ∈ seqZ 0 16) as E by (apply elem_of_seqZ; lia).
  assert (Forall (fun n => id_char (Sha256.hex_digit n) = true) (seqZ 0 16)) as F; [|by rewrite Forall_forall in F; apply F].
  apply Forall_forall. intros x Hx. repeat (apply elem_of_cons in Hx as [->|Hx]; [done|]). by apply elem_of_nil in Hx.
Qed.

Lemma all_chars_both f s t : all_chars f s = true -> all_chars f t = true -> all_chars f (s +:+ t) = true.
Proof. induction s as [|c s IH]; [done|]. intros [C H]%andb_true_iff T. change (String c s +:+ t) with (String c (s +:+ t)). cbn. rewrite C. by apply IH. Qed.

Lemma slength_app s t : String.length (s +:+ t) = (String.length s + String.length t)%nat.
Proof. induction s as [|c s IH]; [done|]. change (String c s +:+ t) with (String c (s +:+ t)). cbn. by rewrite IH. Qed.

Lemma hex32_id w : all_chars id_char (Sha256.hex32 w) = true /\ String.length (Sha256.hex32 w) = 8%nat.
Proof.
  split; [|done]. unfold Sha256.hex32. cbn [foldr all_chars].
  rewrite !hex_digit_id by (change 15 with (Z.ones 4); rewrite Z.land_ones by lia; apply Z.mod_pos_bound; lia). done.
Qed.

Lemma digest_id s : all_chars id_char (Sha256.sha256 s) = true.
Proof.
  unfold Sha256.sha256. generalize (Sha256.blocks (length (Sha256.words (Sha256.pad (map Sha256.byte_of (String.list_ascii_of_string s)))))
    (Sha256.words (Sha256.pad (map Sha256.byte_of (String.list_ascii_of_string s)))) Sha256.initial_hash). intros l.
  induction l as [|w l IH]; [done|]. cbn [foldr]. apply all_chars_both; [apply hex32_id|done].
Qed.

Lemma compress_length st block : length st = 8%nat -> length (Sha256.compress st block) = 8%nat.
Proof.
  intros H. unfold Sha256.compress. cbv zeta. rewrite length_zip_with.
  assert (forall kws s, length s = 8%nat -> length (foldl Sha256.round s kws) = 8%nat) as R; [|rewrite (R _ st H); lia].
  induction kws as [|kw kws IH]; intros s Hs; [done|]. apply IH. by do 9 (destruct s as [|? s]; try done).
Qed.

Lemma blocks_length fuel : forall ws st, length st = 8%nat -> length (Sha256.blocks fuel ws st) = 8%nat.
Proof. induction fuel as [|fuel IH]; intros [|w ws] st H; cbn; [done..|]. by apply IH, compress_length. Qed.

Lemma digest_length s : String.length (Sha256.sha256 s) = 64%nat.
Proof.
  unfold Sha256.sha256.
  assert (forall l, String.length (foldr (fun w acc => Sha256.hex32 w +:+ acc) "" l) = (8 * length l)%nat) as E.
  { induction l as [|w l IH]; [done|]. cbn [foldr]. rewrite slength_app, IH, (proj2 (hex32_id w)). cbn. lia. }
  rewrite E, blocks_length; done.
Qed.

(** Texts of identifier characters are their own code points. *)
Lemma id_chars_split s : all_chars id_char s = true -> chars s = map (fun c => String c "") (String.list_ascii_of_string s).
Proof.
  induction s as [|c s IH]; [done|]. intros [C H]%andb_true_iff. rewrite chars_cons, IH by done.
  destruct s as [|d s]; [done|]. cbn. apply andb_true_iff in H as [D _]. by rewrite (proj2 (proj2 (id_char_plain d D))).
Qed.

Lemma id_upto n s : 0 <= n -> all_chars id_char s = true ->
  all_chars id_char (upto n s) = true /\ String.length (upto n s) = Nat.min (Z.to_nat n) (String.length s).
Proof.
  intros N H. unfold upto, prefix. destruct (Z.ltb_spec n 0); [lia|]. rewrite id_chars_split by done. clear N H0.
  revert H. generalize (Z.to_nat n) as k. induction s as [|c s IH]; intros k H; [by destruct k|]. destruct k as [|k]; [done|].
  apply andb_true_iff in H as [C H]. destruct (IH k H) as [A L]. cbn [String.list_ascii_of_string map take].
  set (t := text_of (take k _)) in *. change (text_of _) with (String c t). cbn [all_chars String.length Nat.min]. by rewrite A, L, C.
Qed.

Lemma sanitize_ids raw : all_chars id_char (sanitize raw) = true.
Proof.
  unfold sanitize. induction (chars raw) as [|x l IH]; [done|]. cbn [map text_of foldr]. apply all_chars_both; [|exact IH].
  destruct (id_text x) eqn:E; [|done]. destruct x as [|c [|]]; [done| |done]. cbn in *. by rewrite E.
Qed.

Lemma sanitize_same raw : all_chars id_char raw = true -> sanitize raw = raw.
Proof.
  intros H. unfold sanitize. rewrite id_chars_split by done. induction raw as [|c s IH]; [done|]. apply andb_true_iff in H as [C H].
  cbn [String.list_ascii_of_string map id_text]. rewrite C. set (l := map _ (map _ _)) in *. change (text_of _) with (String c (text_of l)). by rewrite IH.
Qed.

Lemma sapp_tail_inj a b c d : String.length c = String.length d -> a +:+ c = b +:+ d -> a = b /\ c = d.
Proof.
  intros L. revert b. induction a as [|x a IH]; intros [|y b] E.
  - done.
  - exfalso. apply (f_equal String.length) in E. rewrite !slength_app in E. cbn in E. lia.
  - exfalso. apply (f_equal String.length) in E. rewrite !slength_app in E. cbn in E. lia.
  - change (String x (a +:+ c) = String y (b +:+ d)) in E. injection E as -> E. by destruct (IH b E) as [-> ->].
Qed.

Definition digest16 (s : string) : string := upto _SAFE_USER_ID_DIGEST_HEX_LEN (Sha256.sha256 s).

Lemma safe_id raw : raw <> "" -> exists id, make_safe_user_id raw = Good id /\ all_chars id_char id = true /\
  (all_chars id_char raw = true -> id = raw) /\ (id = raw \/ id = sanitize raw +:+ "-" +:+ digest16 raw).
Proof.
  intros N. unfold make_safe_user_id. rewrite (proj2 (String.eqb_neq _ _) N). destruct (String.eqb_spec (sanitize raw) raw) as [E|E].
  - exists raw. split_and!; [done|rewrite <- E; apply sanitize_ids|done|by left].
  - eexists. split; [done|]. split_and!; [|intros H; by rewrite sanitize_same in E|by right].
    apply all_chars_both; [apply sanitize_ids|]. cbn. by apply id_upto, digest_id.
Qed.

(** C30: No path lies in the directories of two threads, whoever they belong to
    and in whichever layout, every directory of a thread is inside its own, and
    what a virtual path is resolved to lies in the resolved data of the thread.
    Every outside identity is given an identifier that is accepted as a
    directory; a safe one keeps it, and two share it only if their digests
    agree in sixteen digits or one of them is the other's identifier. *)
Theorem threads_kept_apart base :
  (forall user thread p user' thread' p' x,
     thread_dir base user thread = Good p -> thread_dir base user' thread' = Good p' ->
     relative_to x p = true -> relative_to x p' = true -> user = user' /\ thread = thread') /\
  (forall user thread d, is_thread_dir base user thread d ->
     exists p, thread_dir base user thread = Good p /\ relative_to d p = true) /\
  (forall resolve user thread v q, resolve_virtual_path base resolve user thread v = Good q ->
     exists d, sandbox_user_data_dir base user thread = Good d /\ relative_to q (parse (resolve (path_str d))) = true) /\
  (forall raw, raw <> "" -> exists id d, make_safe_user_id raw = Good id /\ user_dir base id = Good d /\
     (all_chars id_char raw = true -> id = raw)) /\
  (forall raw raw' id, make_safe_user_id raw = Good id -> make_safe_user_id raw' = Good id ->
     raw = raw' \/ raw = id \/ raw' = id \/ (sanitize raw = sanitize raw' /\ digest16 raw = digest16 raw')).
Proof.
  split_and!.
  - intros user thread p user' thread' p' x D D' X X'. apply thread_dir_parts in D as ->. apply thread_dir_parts in D' as ->.
    apply prefix_parts in X as [r E]. apply prefix_parts in X' as [r' E']. rewrite E in E'. apply app_inv_head in E'. by eapply parts_apart.
  - apply named_dir.
  - intros resolve user thread v q. unfold resolve_virtual_path. destruct (negb _); [done|].
    destruct (sandbox_user_data_dir base user thread) as [d|f]; [|done]. destruct (relative_to _ _) eqn:R; [|done]. intros [= <-]. by exists d.
  - intros raw N. destruct (safe_id raw N) as (id & E & A & K & _). exists id.
    assert (matches_all id_char id = true) as M.
    { unfold make_safe_user_id in E. destruct id as [|c r].
      - rewrite (proj2 (String.eqb_neq _ _) N) in E. destruct (sanitize raw =? raw)%string; [by injection E as ->|]. injection E as E. apply (f_equal String.length) in E.
        rewrite !slength_app in E. cbn in E. lia.
      - apply andb_true_iff in A as [C A]. cbn. rewrite C. cbn. clear - A. induction r as [|c r IH]; [done|]. apply andb_true_iff in A as [C A].
        cbn. destruct r; [by rewrite C|]. rewrite C. by apply IH. }
    unfold user_dir, valid_in, _validate_user_id. rewrite M. by eexists.
  - intros raw raw' id E E'. destruct (decide (raw = "")) as [->|N]; [done|]. destruct (decide (raw' = "")) as [->|N']; [done|].
    destruct (safe_id raw N) as (i & E1 & _ & _ & K). destruct (safe_id raw' N') as (i' & E1' & _ & _ & K').
    rewrite E in E1. rewrite E' in E1'. injection E1 as <-. injection E1' as <-.
    destruct K as [->|K]; [by right; left|]. destruct K' as [->|K']; [by right; right; left|]. do 3 right. rewrite K in K'.
    assert (forall s, String.length (digest16 s) = 16%nat) as L.
    { intros s. unfold digest16. rewrite (proj2 (id_upto _SAFE_USER_ID_DIGEST_HEX_LEN _ ltac:(done) (digest_id s))), digest_length. done. }
    rewrite <- !(sapp_assoc (sanitize _)) in K'. apply sapp_tail_inj in K' as [K1 K2]; [|by rewrite !L].
    apply sapp_tail_inj in K1 as [K1 _]; done.
Qed.

Lemma threads_kept_apart_witness :
  (exists d, user_dir (parse "/srv/df") "ou_1" = Good d) /\
  relative_to (parse "/srv/df/users/alice/threads/t1/user-data/uploads/a.txt") (parse "/srv/df/users/bob/threads/t1") = false.
Proof.
  destruct (threads_kept_apart (parse "/srv/df")) as (A & _ & _ & B & _). split.
  - destruct (B "ou_1" ltac:(done)) as (id & d & _ & D & K). exists d. by rewrite <- (K ltac:(by vm_compute)).
  - destruct (relative_to _ _) eqn:E; [|done]. exfalso.
    by destruct (A (Some "alice") "t1" _ (Some "bob") "t1" _ _ eq_refl eq_refl ltac:(by vm_compute) E).
Defined.

(** An identity that is the identifier of another shares its directory. *)
Lemma bucket_shared :
  make_safe_user_id "ou:1" = Good "ou-1-d1120d0f7e80bdf6" /\ make_safe_user_id "ou-1-d1120d0f7e80bdf6" = Good "ou-1-d1120d0f7e80bdf6".
Proof. split; by vm_compute. Qed.

(** An identifier may end in a newline. *)
Lemma newline_accepted : _validate_user_id ("alice" +:+ newline) = Good ("alice" +:+ newline).
Proof. by vm_compute. Qed.

End FilePaths.
