(* ===== verification/FileSearch.v ===== *)
(** * Listing and searching files

    [deerflow/sandbox/search.py] and [deerflow/sandbox/local/list_dir.py] over a
    directory tree: the walk with its ignored names, the search by name and by
    content with its limit, and the listing.  The order of a directory's entries
    is the order the system returns them in. *)
From S2P Require Import Prelude Json Text Slices PosixPaths SandboxPaths SandboxOutput SandboxCalls.
Import Json Text Slices PosixPaths SandboxPaths SandboxOutput SandboxCalls.

Module FileSearch.

(** ** [fnmatch] *)

(** What one part of a pattern stands for. *)
Inductive glob := Star | One | Lit (c : string) | Class (negated : bool) (singles : list string) (ranges : list (string * string)).

(** The characters between brackets, cut at the hyphens that can be a range. *)
Fixpoint cut_hyphens (skip : nat) (chunk l : list string) : list (list string) :=
  match l with
  | [] => [chunk]
  | c :: l =>
      match skip with
      | S k => cut_hyphens k (chunk ++ [c]) l
      | O => if (c =? "-")%string then chunk :: cut_hyphens 2 [] l else cut_hyphens 0 (chunk ++ [c]) l
      end
  end.
(** A hyphen at the end is a character. *)
Definition close_chunks (l : list (list string)) : list (list string) :=
  match rev l with [] :: c :: l => rev ((c ++ ["-"]) :: l) | _ => l end.
(** Ranges that are empty go, with their ends. *)
Fixpoint drop_empty_ranges (l : list (list string)) : list (list string) :=
  match l with
  | [] => []
  | a :: l =>
      match drop_empty_ranges l with
      | [] => [a]
      | b :: l =>
          match last a, b with
          | Some x, y :: b' => if String.ltb y x then (removelast a ++ b') :: l else a :: b :: l
          | _, _ => a :: b :: l
          end
      end
  end.
Fixpoint ranges_between (l : list (list string)) : list (string * string) :=
  match l with
  | a :: ((b :: _) as l) => match last a, b with Some x, y :: _ => [(x, y)] | _, _ => [] end ++ ranges_between l
  | _ => []
  end.

Definition class_of (stuff : list string) : glob :=
  let first := match stuff with c :: _ => if (c =? "!")%string then 2%nat else 1%nat | [] => 1%nat end in
  let chunks := drop_empty_ranges (close_chunks (cut_hyphens first [] stuff)) in
  match concat chunks with
  | c :: singles => if (c =? "!")%string then Class true singles (ranges_between chunks) else Class false (c :: singles) (ranges_between chunks)
  | [] => Class false [] []
  end.

(** Up to a bracket that closes. *)
Fixpoint until_bracket (l : list string) : option (list string * list string) :=
  match l with
  | [] => None
  | c :: l =>
      if (c =? "]")%string then Some ([], l)
      else match until_bracket l with Some (a, b) => Some (c :: a, b) | None => None end
  end.
Definition bracketed (l : list string) : option (list string * list string) :=
  let '(bang, l) := match l with c :: r => if (c =? "!")%string then ([c], r) else ([], l) | [] => ([], l) end in
  let '(close, l) := match l with c :: r => if (c =? "]")%string then ([c], r) else ([], l) | [] => ([], l) end in
  match until_bracket l with Some (a, b) => Some (bang ++ close ++ a, b) | None => None end.

(** Every round consumes a character. *)
Fixpoint translate (fuel : nat) (l : list string) : list glob :=
  match fuel, l with
  | O, _ | _, [] => []
  | S fuel, c :: l =>
      if (c =? "*")%string then Star :: translate fuel l
      else if (c =? "?")%string then One :: translate fuel l
      else if (c =? "[")%string
      then match bracketed l with Some (stuff, rest) => class_of stuff :: translate fuel rest | None => Lit c :: translate fuel l end
      else Lit c :: translate fuel l
  end.

Definition in_class (negated : bool) (singles : list string) (ranges : list (string * string)) (c : string) : bool :=
  xorb negated (bool_decide (c ∈ singles) || existsb (fun r => negb (String.ltb c r.1) && negb (String.ltb r.2 c)) ranges).

Fixpoint glob_match (p : list glob) : list string -> bool :=
  match p with
  | [] => fun s => match s with [] => true | _ => false end
  | Star :: p => fix any (s : list string) : bool := glob_match p s || match s with [] => false | _ :: s => any s end
  | One :: p => fun s => match s with _ :: s => glob_match p s | [] => false end
  | Lit c :: p => fun s => match s with d :: s => (c =? d)%string && glob_match p s | [] => false end
  | Class n singles ranges :: p => fun s => match s with d :: s => in_class n singles ranges d && glob_match p s | [] => false end
  end.

(** [fnmatch.fnmatchcase(name, pattern)] *)
Definition fnmatch (pattern name : string) : bool :=
  glob_match (translate (length (chars pattern)) (chars pattern)) (chars name).

(** ** Names *)

Definition IGNORE_PATTERNS : list string :=
  [".git"; ".svn"; ".hg"; ".bzr"; "node_modules"; "__pycache__"; ".venv"; "venv"; ".env"; "env"; ".tox"; ".nox"; ".eggs";
   "*.egg-info"; "site-packages"; "dist"; "build"; ".next"; ".nuxt"; ".output"; ".turbo"; "target"; "out"; ".idea"; ".vscode";
   "*.swp"; "*.swo"; "*~"; ".project"; ".classpath"; ".settings"; ".DS_Store"; "Thumbs.db"; "desktop.ini"; "*.lnk"; "*.log";
   "*.tmp"; "*.temp"; ".upload-*.part"; "*.bak"; "*.cache"; ".cache"; "logs"; ".coverage"; "coverage"; ".nyc_output"; "htmlcov";
   ".pytest_cache"; ".mypy_cache"; ".ruff_cache"].

Definition magic (p : string) : bool := existsb (fun c => contains c p) ["*"; "?"; "["].
Definition _EXACT_IGNORE_NAMES : list string := List.filter (fun p => negb (magic p)) IGNORE_PATTERNS.
Definition _GLOB_IGNORE_PATTERNS : list string := List.filter magic IGNORE_PATTERNS.

(** [os.path.normcase] changes nothing here. *)
Definition should_ignore_name (name : string) : bool :=
  bool_decide (name ∈ _EXACT_IGNORE_NAMES) || existsb (fun p => fnmatch p name) _GLOB_IGNORE_PATTERNS.

Definition should_ignore_path (p : string) : bool :=
  existsb (fun x => negb (x =? "")%string && should_ignore_name x) (split_on slash (replace_char backslash_char slash p)).

(** [PurePosixPath(rel_path).match(pattern)], component by component. *)
Fixpoint all_match (patterns names : list string) : bool :=
  match patterns, names with
  | [], [] => true
  | p :: ps, x :: xs => fnmatch p x && all_match ps xs
  | _, _ => false
  end.
Definition pure_match (pattern rel_path : string) : outcome bool :=
  let p := parse pattern in
  let parts := comps rel_path in
  if negb (root p =? "")%string then Good false
  else match tail p with
       | [] => Bad {| kind := OtherError; type_name := "ValueError"; message := "empty pattern" |}
       | ps => Good ((length ps <=? length parts)%nat && all_match ps (drop (length parts - length ps) parts))
       end.

Definition path_matches (pattern rel_path : string) : outcome bool :=
  match pure_match pattern rel_path with
  | Good false => if starts_with "**/" pattern then pure_match (drop_prefix "**/" pattern) rel_path else Good false
  | o => o
  end.

(** ** The tree *)

(** A file with its bytes, if they can be read; a link, with where it resolves
    to and whether that is a directory; a directory, if it can be read. *)
Inductive node :=
  | Regular (size : Z) (data : option string)
  | Link (target : option string) (to_dir : bool)
  | Dir (entries : option (list (string * node))).

Definition is_dir (n : node) : bool := match n with Dir _ => true | Link _ b => b | Regular _ _ => false end.

(** One step of [os.walk]: where it is below the root, and the entries there.
    Links to directories are listed with the directories and not followed. *)
Record step := { rel_dir : list string; dirs : list (string * node); files : list (string * node) }.

Definition kept (e : string * node) : bool := negb (should_ignore_name e.1).

Fixpoint walk (rel : list string) (n : node) : list step :=
  match n with
  | Dir (Some es) =>
      {| rel_dir := rel; dirs := List.filter (fun e => is_dir e.2 && kept e) es; files := List.filter (fun e => negb (is_dir e.2)) es |} ::
      (fix below (es : list (string * node)) : list step :=
         match es with
         | [] => []
         | (x, m) :: es => (if should_ignore_name x then [] else walk (rel ++ [x]) m) ++ below es
         end) es
  | _ => []
  end.

(** ** Searching *)

Section search.
(** [str(Path(p).resolve())], and what is there; the text of a file's bytes;
    [re.compile(re.escape(pattern) if literal else pattern, flags).search]. *)
Context (resolve : string -> string) (at_path : string -> option node) (decode : string -> string)
        (compile : bool -> bool -> string -> outcome (string -> bool)).

Definition no_such (p : string) : failure := {| kind := FileNotFoundError; type_name := "FileNotFoundError"; message := p |}.
Definition not_directory (p : string) : failure := {| kind := NotADirectoryError; type_name := "NotADirectoryError"; message := p |}.

(** The directory a search starts in. *)
Definition start_at (root : string) : outcome (string * node) :=
  match at_path (resolve root) with
  | None => Bad (no_such (resolve root))
  | Some n => match n with Dir _ => Good (resolve root, n) | _ => Bad (not_directory (resolve root)) end
  end.

(** [matches.append(m)] for each match, up to the limit. *)
Fixpoint gather {A} (max_results : Z) (acc : list A) (l : list (outcome (list A))) : outcome (list A * bool) :=
  match l with
  | [] => Good (acc, false)
  | Bad f :: _ => Bad f
  | Good found :: l =>
      (fix each (acc found : list A) : outcome (list A * bool) :=
         match found with
         | [] => gather max_results acc l
         | m :: found =>
             if max_results <=? Z.of_nat (length (acc ++ [m])) then Good (acc ++ [m], true) else each (acc ++ [m]) found
         end) acc found
  end.

Definition below (root : string) (names : list string) : string :=
  path_str {| PosixPaths.root := PosixPaths.root (parse root); tail := tail (parse root) ++ names |}.
Definition as_posix (names : list string) : string := join "/" names.

Definition glob_entry (root pattern : string) (rel : list string) (e : string * node) : outcome (list string) :=
  match path_matches pattern (as_posix (rel ++ [e.1])) with
  | Good true => Good [below root (rel ++ [e.1])]
  | Good false => Good []
  | Bad f => Bad f
  end.
Definition glob_step (root pattern : string) (include_dirs : bool) (s : step) : list (outcome (list string)) :=
  (if include_dirs then map (glob_entry root pattern (rel_dir s)) (dirs s) else []) ++
  map (glob_entry root pattern (rel_dir s)) (List.filter kept (files s)).

Definition find_glob_matches (root pattern : string) (include_dirs : bool) (max_results : Z) : outcome (list string * bool) :=
  match start_at root with
  | Bad f => Bad f
  | Good (root, n) => gather max_results [] (flat_map (glob_step root pattern include_dirs) (walk [] n))
  end.

(** *** By content *)

Definition DEFAULT_MAX_FILE_SIZE_BYTES : Z := 1000000.
Definition DEFAULT_LINE_SUMMARY_LENGTH : Z := 200.

Definition line_end (c : ascii) : bool := Ascii.eqb c (ascii_of_N 10) || Ascii.eqb c (ascii_of_N 13).
Definition truncate_line (line : string) (max_chars : Z) : string :=
  let line := rstrip line_end line in
  if len line <=? max_chars then line else upto (max_chars - 3) line +:+ "...".

Fixpoint first_bytes (n : nat) (s : string) : string :=
  match n, s with S n, String c s => String c (first_bytes n s) | _, _ => "" end.
Definition is_binary_file (data : option string) : bool :=
  match data with
  | Some d => contains (char (ascii_of_N 0)) (first_bytes 8192 d)
  | None => true
  end.

(** The lines of an open text file: each ends in a newline, whatever ended it,
    but the last. *)
Fixpoint file_lines (line s : string) : list string :=
  match s with
  | EmptyString => if (line =? "")%string then [] else [line]
  | String c r =>
      if Ascii.eqb c (ascii_of_N 13)
      then match r with
           | String d r' => if Ascii.eqb d (ascii_of_N 10) then (line +:+ newline) :: file_lines "" r' else (line +:+ newline) :: file_lines "" r
           | EmptyString => [line +:+ newline]
           end
      else if Ascii.eqb c (ascii_of_N 10) then (line +:+ newline) :: file_lines "" r
      else file_lines (line +:+ char c) r
  end.

Fixpoint grep_lines (found : string -> bool) (file : string) (n : Z) (lines : list string) : list GrepMatch :=
  match lines with
  | [] => []
  | l :: lines =>
      (if len l <=? DEFAULT_LINE_SUMMARY_LENGTH * 10
       then if found l then [{| match_path := file; line_number := n; line := truncate_line l DEFAULT_LINE_SUMMARY_LENGTH |}] else []
       else []) ++ grep_lines found file (n + 1) lines
  end.

(** A file below the root of the walk resolves to itself. *)
Definition grep_entry (root : string) (glob_pattern : option string) (found : string -> bool) (rel : list string) (e : string * node)
    : outcome (list GrepMatch) :=
  match match glob_pattern with Some p => path_matches p (as_posix (rel ++ [e.1])) | None => Good true end with
  | Bad f => Bad f
  | Good false => Good []
  | Good true =>
      match e.2 with
      | Regular size (Some data) =>
          if (DEFAULT_MAX_FILE_SIZE_BYTES <? size) || is_binary_file (Some data) then Good []
          else Good (grep_lines found (below root (rel ++ [e.1])) 1 (file_lines "" (decode data)))
      | _ => Good []
      end
  end.

Definition find_grep_matches (root pattern : string) (glob_pattern : option string) (literal case_sensitive : bool) (max_results : Z)
    : outcome (list GrepMatch * bool) :=
  match start_at root with
  | Bad f => Bad f
  | Good (root, n) =>
      match compile literal case_sensitive pattern with
      | Bad f => Bad f
      | Good found =>
          gather max_results []
            (flat_map (fun s => map (grep_entry root glob_pattern found (rel_dir s)) (List.filter kept (files s))) (walk [] n))
      end
  end.

(** ** Listing *)

Definition within_root (root p : string) : bool := relative_to (parse p) (parse root).
Definition listed (p : string) (dir : bool) : string := p +:+ (if dir then "/" else "").

(** [_traverse], with the depth that is left: it is entered while there is some. *)
Fixpoint traverse (root : string) (rel : list string) (left : Z) (n : node) : list string :=
  match n with
  | Dir (Some es) =>
      if left <=? 0 then [] else
      (fix items (es : list (string * node)) : list string :=
         match es with
         | [] => []
         | (x, m) :: es =>
             (if should_ignore_name x then []
              else match m with
                   | Link None _ => []
                   | Link (Some target) d => if within_root root target then [listed target d] else []
                   | _ => listed (below root (rel ++ [x])) (is_dir m) :: traverse root (rel ++ [x]) (left - 1) m
                   end) ++ items es
         end) es
  | _ => []
  end.

Definition text_order (a b : string) : bool := bool_decide (String.le a b).

Definition list_dir (p : string) (max_depth : Z) : list string :=
  let root_path := resolve p in
  match at_path root_path with
  | Some n => stable_sort text_order (traverse root_path [] max_depth n)
  | None => []
  end.

End search.

End FileSearch.
