(* ===== verification/LocalSandbox.v ===== *)
(** * The local sandbox

    The path half of [deerflow/sandbox/local/local_sandbox.py]: the mappings of
    container paths to the host, the read-only mounts, the rewriting of paths in
    commands, contents and outputs, and the file operations over a file system
    that is a parameter.  That what is written stays inside the mapped
    directory and off every read-only mount.

    [LocalFiles]: the rest of that file that works on files: listing with the
    mounts inside a directory, the two searches, and the binary download and
    update. *)
From S2P Require Import Prelude Json Text Slices PosixPaths SandboxPaths SandboxOutput SandboxCalls FileSearch.
Import Json Text Slices PosixPaths SandboxPaths SandboxOutput.

Module LocalSandbox.

Record PathMapping := { mapped : string; local_path : string; read_only : bool }.

Section sandbox.
(** [str(Path(p).resolve())]; [\w] beyond ASCII; [repr] of a text. *)
Context (resolve : string -> string) (alnum : string -> bool) (repr : string -> string).
Context (path_mappings : list PathMapping).

Definition resolved_root (m : PathMapping) : string := resolve (local_path m).

(** [m.container_path.rstrip("/") or "/"] *)
Definition container_of (m : PathMapping) : string :=
  match rstrip (is_char slash) (mapped m) with EmptyString => "/" | s => s end.

Definition by_length (f : PathMapping -> string) (a b : PathMapping) : bool := len (f b) <=? len (f a).
Definition _mappings_by_container_specificity : list PathMapping := stable_sort (by_length container_of) path_mappings.
Definition _mappings_by_local_specificity : list PathMapping := stable_sort (by_length local_path) path_mappings.
Definition mappings_by_container_path : list PathMapping := stable_sort (by_length mapped) path_mappings.

(** ** Resolving *)

Fixpoint find_in (p : string) (ms : list PathMapping) : option (PathMapping * string) :=
  match ms with
  | [] => None
  | m :: ms =>
      let c := container_of m in
      if (c =? "/")%string
      then if starts_with "/" p then Some (m, lstrip_slash p) else find_in p ms
      else if under c p then Some (m, lstrip_slash (drop_prefix c p)) else find_in p ms
  end.
Definition _find_path_mapping (p : string) : option (PathMapping * string) := find_in p _mappings_by_container_specificity.

(** [[Errno 13] ...: path] *)
Definition os_error (k : error_kind) (name text p : string) : failure :=
  {| kind := k; type_name := name; message := text +:+ ": " +:+ repr p |}.
Definition escapes (p : string) : failure :=
  os_error PermissionError "PermissionError" "[Errno 13] Access denied: path escapes mounted directory" p.

Definition _resolve_path_with_mapping (p : string) : outcome (string * option PathMapping) :=
  match _find_path_mapping p with
  | None => Good (p, None)
  | Some (m, relative) =>
      let local_root := parse (resolved_root m) in
      let resolved_path := if (relative =? "")%string then path_str local_root else resolve (path_str (child local_root relative)) in
      if relative_to (parse resolved_path) local_root then Good (resolved_path, Some m) else Bad (escapes p)
  end.
Definition _resolve_path (p : string) : outcome string :=
  match _resolve_path_with_mapping p with Good r => Good r.1 | Bad f => Bad f end.

(** The most specific mapping of a host path. *)
Definition covers (q : string) (m : PathMapping) : bool := under (resolved_root m) q.
Definition more_specific (q : string) (best : option PathMapping) (m : PathMapping) : option PathMapping :=
  if covers q m
  then match best with
       | Some b => if len (resolved_root b) <? len (resolved_root m) then Some m else best
       | None => Some m
       end
  else best.
Definition _is_read_only_path (resolved_path : string) : bool :=
  match foldl (more_specific (resolve resolved_path)) None path_mappings with
  | Some m => read_only m
  | None => false
  end.
Definition _is_resolved_path_read_only (r : string * option PathMapping) : bool :=
  match r.2 with Some m => read_only m | None => false end || _is_read_only_path r.1.

(** ** Rewriting *)

(** The container path of a host path. *)
Definition reverse_of (p : string) : string :=
  let path_str := resolve (replace_char backslash_char slash p) in
  (fix go (ms : list PathMapping) : string :=
     match ms with
     | [] => path_str
     | m :: ms =>
         if under (resolved_root m) path_str
         then let relative := lstrip_slash (drop_prefix (resolved_root m) path_str) in
              if (relative =? "")%string then mapped m else mapped m +:+ "/" +:+ relative
         else go ms
     end) _mappings_by_local_specificity.
Definition _reverse_resolve_path : string -> string := reverse_of.

(** What may stand behind a mapped path: in a command, and in a text. *)
Definition command_boundary (l : list string) : bool :=
  match l with c :: _ => (c =? "/")%string || negb (masked_char c) | [] => true end.
Definition word (c : string) : bool := match c with String b EmptyString => Shlex.Shlex.word_char b | _ => alnum c end.
Definition content_boundary (l : list string) : bool :=
  match l with c :: _ => (c =? "/")%string || negb (word c || bool_decide (c ∈ ["."; "/"; "-"])) | [] => true end.

(** A literal path, a boundary and the rest of the path: the match and what is
    behind it. *)
Definition match_path (separator : ascii -> bool) (boundary : list string -> bool) (base s : string) : option (string * string) :=
  if starts_with base s
  then let rest := drop_prefix base s in
       if boundary (chars rest)
       then match rest with
            | String c r => if separator c then let '(a, b) := text_run masked_char (chars r) in Some (base +:+ String c a, b)
                            else Some (base, rest)
            | EmptyString => Some (base, rest)
            end
       else None
  else None.

Fixpoint first_match (separator : ascii -> bool) (boundary : list string -> bool) (bases : list string) (s : string)
    : option (string * string) :=
  match bases with
  | [] => None
  | b :: bases => match match_path separator boundary b s with Some r => Some r | None => first_match separator boundary bases s end
  end.

(** [pattern.sub(replace, text)] of such a pattern: a match consumes at least
    one byte, so the bytes are enough fuel; an empty path matches nothing. *)
Fixpoint substitute (fuel : nat) (find : string -> option (string * string)) (replace : string -> outcome string) (s : string)
    : outcome string :=
  match fuel, s with
  | O, _ | _, EmptyString => Good s
  | S fuel, String c r =>
      match find s with
      | Some (m, rest) =>
          match replace m, substitute fuel find replace rest with
          | Bad f, _ => Bad f
          | _, Bad f => Bad f
          | Good a, Good b => Good (a +:+ b)
          end
      | None => match substitute fuel find replace r with Good b => Good (String c b) | Bad f => Bad f end
      end
  end.

Definition forward (p : string) : outcome string :=
  match _resolve_path p with Good q => Good (replace_char backslash_char slash q) | Bad f => Bad f end.

Definition _resolve_paths_in_command (command : string) : outcome string :=
  substitute (String.length command) (first_match (is_char slash) command_boundary (map mapped mappings_by_container_path)) forward command.
Definition _resolve_paths_in_content (content : string) : outcome string :=
  substitute (String.length content) (first_match (is_char slash) content_boundary (map mapped mappings_by_container_path)) forward content.

Definition _reverse_resolve_paths_in_output (output : string) : outcome string :=
  foldl (fun out m =>
    match out with
    | Good t => substitute (String.length t) (first_match is_slash content_boundary [resolved_root m]) (fun p => Good (_reverse_resolve_path p)) t
    | Bad f => Bad f
    end) (Good output) _mappings_by_local_specificity.

(** ** Files *)

Context {F : Type}.
Context (read_text : string -> F -> outcome string) (write_text : string -> string -> bool -> F -> outcome unit * F)
        (make_dirs : string -> F -> outcome unit * F).

Record sandbox := { files : F; _agent_written_paths : list string }.

(** [raise type(e)(e.errno, e.strerror, path)] of an [OSError]; the message of a
    failure of the file system is without its path. *)
Definition is_os_error (k : error_kind) : bool :=
  match k with OSError | PermissionError | FileNotFoundError | NotADirectoryError | IsADirectoryError => true | _ => false end.
Definition renamed (p : string) (f : failure) : failure :=
  if is_os_error (kind f) then os_error (kind f) (type_name f) (message f) p else f.

Definition read_file (p : string) (s : sandbox) : outcome string :=
  match _resolve_path p with
  | Bad f => Bad f
  | Good q =>
      match read_text q (files s) with
      | Bad f => Bad (renamed p f)
      | Good content => if bool_decide (q ∈ _agent_written_paths s) then _reverse_resolve_paths_in_output content else Good content
      end
  end.

(** [os.path.dirname] *)
Definition dirname (p : string) : string :=
  match rpartition slash p with
  | Some (a, _) => let t := rstrip (is_char slash) (a +:+ "/") in if (t =? "")%string then a +:+ "/" else t
  | None => ""
  end.

Definition write_file (p content : string) (append : bool) (s : sandbox) : outcome unit * sandbox :=
  match _resolve_path_with_mapping p with
  | Bad f => (Bad f, s)
  | Good r =>
      if _is_resolved_path_read_only r then (Bad (os_error OSError "OSError" "[Errno 30] Read-only file system" p), s) else
      let '(made, fs) := if (dirname r.1 =? "")%string then (Good tt, files s) else make_dirs (dirname r.1) (files s) in
      match made with
      | Bad f => (Bad (renamed p f), {| files := fs; _agent_written_paths := _agent_written_paths s |})
      | Good _ =>
          match _resolve_paths_in_content content with
          | Bad f => (Bad (if is_os_error (kind f) then escapes p else f), {| files := fs; _agent_written_paths := _agent_written_paths s |})
          | Good resolved_content =>
              let '(o, fs) := write_text r.1 resolved_content append fs in
              match o with
              | Bad f => (Bad (renamed p f), {| files := fs; _agent_written_paths := _agent_written_paths s |})
              | Good _ => (Good tt, {| files := fs; _agent_written_paths := add_key (_agent_written_paths s) r.1 |})
              end
          end
      end
  end.

(** ** Where a write goes *)

Lemma resolved_inside p q m : _resolve_path_with_mapping p = Good (q, Some m) ->
  m ∈ path_mappings /\ relative_to (parse q) (parse (resolved_root m)) = true.
Proof.
  unfold _resolve_path_with_mapping, _find_path_mapping.
  assert (forall ms m r, find_in p ms = Some (m, r) -> m ∈ ms) as In.
  { induction ms as [|x ms IH]; intros m' r; cbn [find_in]; [done|]. cbv zeta. destruct (container_of x =? "/")%string, (under (container_of x) p), (starts_with "/" p); intros H;
      first [right; eapply IH; exact H|injection H as -> _; left]. }
  destruct (find_in p _) as [[m' r]|] eqn:E; [|done]. apply In in E. unfold _mappings_by_container_specificity in E.
  rewrite stable_sort_perm in E. cbv zeta. destruct (relative_to _ _) eqn:R; [|done]. intros [= <- <-]. done.
Qed.

(** The mapping [_is_read_only_path] judges by. *)
Lemma specific_spec q ms : forall best,
  match foldl (more_specific q) best ms with
  | Some m => (best = Some m \/ (m ∈ ms /\ covers q m = true)) /\
              (forall m', m' ∈ ms -> covers q m' = true -> len (resolved_root m') <= len (resolved_root m)) /\
              (forall b, best = Some b -> len (resolved_root b) <= len (resolved_root m))
  | None => best = None /\ forall m', m' ∈ ms -> covers q m' = false
  end.
Proof.
  induction ms as [|x ms IH]; intros best; cbn [foldl].
  { destruct best as [b|]; [|split; [done|]; intros m' H; by apply elem_of_nil in H].
    split_and!; [by left| |by intros b' [= <-]]. intros m' H. by apply elem_of_nil in H. }
  specialize (IH (more_specific q best x)). destruct (foldl (more_specific q) (more_specific q best x) ms) as [m|].
  - destruct IH as (I & L & B). unfold more_specific in I, B. destruct (covers q x) eqn:C.
    + destruct best as [b|].
      * destruct (Z.ltb_spec (len (resolved_root b)) (len (resolved_root x))) as [G|G].
        -- split_and!.
           ++ destruct I as [[= ->]|[I1 I2]]; right; (split; [|done]); [left|by right].
           ++ intros m' [->|H]%elem_of_cons C'; [by apply B|by apply L].
           ++ intros b' [= <-]. specialize (B x eq_refl). lia.
        -- split_and!.
           ++ destruct I as [I|[I1 I2]]; [by left|right; split; [by right|done]].
           ++ intros m' [->|H]%elem_of_cons C'; [specialize (B b eq_refl); lia|by apply L].
           ++ exact B.
      * split_and!; [|intros m' [->|H]%elem_of_cons C'; [by apply B|by apply L]|done].
        destruct I as [[= ->]|[I1 I2]]; right; (split; [|done]); [left|by right].
    + split_and!; [|intros m' [->|H]%elem_of_cons C'; [congruence|by apply L]|exact B].
      destruct I as [I|[I1 I2]]; [by left|right; split; [by right|done]].
  - destruct IH as [N H]. unfold more_specific in N. destruct (covers q x) eqn:C; [destruct best as [b|]; [by destruct (_ <? _)|done]|].
    split; [done|]. intros m' [->|Hm]%elem_of_cons; [done|by apply H].
Qed.

(** A write through the local sandbox leaves the file system alone, or goes
    to a path that, where a mapping applies, is inside the mapped directory with
    every symbolic link resolved; neither that mapping is read-only, nor, among
    all the mounts the path lies in, is the most specific one: a read-only mount
    is only written to where a writable one at least as specific covers the
    path. *)
Theorem local_write_confined p content append s :
  let '(o, s') := write_file p content append s in
  (files s' = files s /\ exists f, o = Bad f) \/
  (exists q m, _resolve_path_with_mapping p = Good (q, m) /\
    (forall m', m = Some m' -> m' ∈ path_mappings /\ read_only m' = false /\ relative_to (parse q) (parse (resolved_root m')) = true) /\
    (forall ro, ro ∈ path_mappings -> read_only ro = true -> covers (resolve q) ro = true ->
       exists rw, rw ∈ path_mappings /\ read_only rw = false /\ covers (resolve q) rw = true /\
         len (resolved_root ro) <= len (resolved_root rw)) /\
    let fs := if (dirname q =? "")%string then files s else (make_dirs (dirname q) (files s)).2 in
    (files s' = fs \/ exists content', _resolve_paths_in_content content = Good content' /\ files s' = (write_text q content' append fs).2)).
Proof.
  unfold write_file. destruct (_resolve_path_with_mapping p) as [[q m]|f] eqn:R; [|left; split; [done|by exists f]].
  destruct (_is_resolved_path_read_only (q, m)) eqn:RO; [left; split; [done|by eexists]|].
  unfold _is_resolved_path_read_only in RO. apply orb_false_iff in RO as [RM RP]. cbn [fst snd] in *.
  assert ((forall m', m = Some m' -> m' ∈ path_mappings /\ read_only m' = false /\ relative_to (parse q) (parse (resolved_root m')) = true) /\
    (forall ro, ro ∈ path_mappings -> read_only ro = true -> covers (resolve q) ro = true ->
       exists rw, rw ∈ path_mappings /\ read_only rw = false /\ covers (resolve q) rw = true /\
         len (resolved_root ro) <= len (resolved_root rw))) as [A B].
  { split.
    - intros m' ->. destruct (resolved_inside p q m' R) as [? ?]. done.
    - intros ro Hro Er C. unfold _is_read_only_path in RP. pose proof (specific_spec (resolve q) path_mappings None) as S.
      destruct (foldl _ None path_mappings) as [rw|].
      + destruct S as ([[=]|[S1 S2]] & L & _). exists rw. split_and!; [done..|by apply L].
      + destruct S as [_ S]. by rewrite S in C. }
  destruct (dirname q =? "")%string eqn:D.
  - destruct (_resolve_paths_in_content content) as [c'|f] eqn:RC.
    + destruct (write_text q c' append (files s)) as [[[]|f] fs] eqn:W; right; exists q, m; (split_and!; [done..|]); right; exists c';
        (split; [done|]); rewrite ?D, ?MD; cbn; rewrite W; reflexivity.
    + right. exists q, m. split_and!; [done..|]. left. by rewrite ?D, ?MD.
  - destruct (make_dirs (dirname q) (files s)) as [[[]|f] fs] eqn:MD; cycle 1.
    { right. exists q, m. split_and!; [done..|]. left. by rewrite ?D, ?MD. }
    destruct (_resolve_paths_in_content content) as [c'|f] eqn:RC.
    + destruct (write_text q c' append fs) as [[[]|f] fs'] eqn:W; right; exists q, m; (split_and!; [done..|]); right; exists c';
        (split; [done|]); rewrite ?D, ?MD; cbn; rewrite W; reflexivity.
    + right. exists q, m. split_and!; [done..|]. left. by rewrite ?D, ?MD.
Qed.

End sandbox.

End LocalSandbox.

Import Json Text Slices PosixPaths SandboxPaths SandboxOutput SandboxCalls FileSearch LocalSandbox.

Module LocalFiles.

Section files.
Context (resolve : string -> string) (repr : string -> string) (path_mappings : list PathMapping).
Context (at_path : string -> option node) (decode : string -> string)
        (compile : bool -> bool -> string -> outcome (string -> bool)).

Let _resolve_path := _resolve_path resolve repr path_mappings.
Let _reverse_resolve_path := _reverse_resolve_path resolve path_mappings.

(** ** Listing *)

(** One entry of the listing under its path in the container. *)
Definition reversed_entry (entry : string) : string :=
  let dir := ends_in is_slash entry in
  let r := if dir then _reverse_resolve_path (rstrip is_slash entry) else _reverse_resolve_path entry in
  if dir && negb (ends_in (is_char slash) r) then r +:+ "/" else r.

(** The mounts right below the directory that is asked for. *)
Definition virtual_child (container : string) (existing_dirs : list string) (m : PathMapping) : option string :=
  if starts_with (container +:+ "/") (mapped m)
  then let child_rel := drop_prefix (container +:+ "/") (mapped m) in
       if negb (contains "/" child_rel) && negb (bool_decide (child_rel ∈ existing_dirs)) &&
          match at_path (resolve (local_path m)) with Some n => is_dir n | None => false end
       then Some (mapped m +:+ "/") else None
  else None.

Definition list_dir (p : string) (max_depth : Z) : outcome (list string) :=
  match _resolve_path p with
  | Bad f => Bad f
  | Good resolved_path =>
      let result := map reversed_entry (FileSearch.list_dir resolve at_path resolved_path max_depth) in
      let existing_dirs := map (rstrip (is_char slash)) (List.filter (ends_in (is_char slash)) result) in
      Good (stable_sort text_order (result ++ omap (virtual_child (rstrip (is_char slash) p) existing_dirs) path_mappings))
  end.

(** ** Searching *)

(** [Path(self._resolve_path(path))] is where the search starts. *)
Definition glob (p pattern : string) (include_dirs : bool) (max_results : Z) : outcome (list string * bool) :=
  match _resolve_path p with
  | Bad f => Bad f
  | Good q =>
      match find_glob_matches resolve at_path (path_str (parse q)) pattern include_dirs max_results with
      | Good (matches, truncated) => Good (map _reverse_resolve_path matches, truncated)
      | Bad f => Bad f
      end
  end.

Definition grep (p pattern : string) (glob : option string) (literal case_sensitive : bool) (max_results : Z)
    : outcome (list GrepMatch * bool) :=
  match _resolve_path p with
  | Bad f => Bad f
  | Good q =>
      match find_grep_matches resolve at_path decode compile (path_str (parse q)) pattern glob literal case_sensitive max_results with
      | Good (matches, truncated) =>
          Good (map (fun m => {| SandboxCalls.match_path := _reverse_resolve_path (SandboxCalls.match_path m); line_number := line_number m; line := line m |}) matches,
                truncated)
      | Bad f => Bad f
      end
  end.

(** ** Bytes *)

Context {F : Type}.
Context (file_size : string -> F -> outcome Z) (read_bytes : string -> F -> outcome string)
        (write_bytes : string -> string -> F -> outcome unit * F) (make_dirs : string -> F -> outcome unit * F).

Definition max_download_size : Z := 100 * 1024 * 1024.

Definition downloadable (p : string) : bool := under (lstrip_slash VIRTUAL_PATH_PREFIX) (lstrip_slash (replace_char backslash_char slash p)).

Definition download_file (p : string) (s : sandbox) : outcome string :=
  if negb (downloadable p)
  then Bad (os_error repr PermissionError "PermissionError" ("[Errno 13] Access denied: path must be under '" +:+ VIRTUAL_PATH_PREFIX +:+ "'") p)
  else
    match _resolve_path p with
    | Bad f => Bad f
    | Good q =>
        match file_size q (LocalSandbox.files s) with
        | Bad f => Bad (renamed repr p f)
        | Good size =>
            if max_download_size <? size
            then Bad (os_error repr OSError "OSError" ("[Errno 27] File exceeds maximum download size of " +:+ pretty max_download_size +:+ " bytes") p)
            else match read_bytes q (LocalSandbox.files s) with Good d => Good d | Bad f => Bad (renamed repr p f) end
        end
    end.

Definition update_file (p content : string) (s : sandbox) : outcome unit * sandbox :=
  match _resolve_path_with_mapping resolve repr path_mappings p with
  | Bad f => (Bad f, s)
  | Good r =>
      if _is_resolved_path_read_only resolve path_mappings r
      then (Bad (os_error repr OSError "OSError" "[Errno 30] Read-only file system" p), s)
      else
        let '(made, fs) := if (dirname r.1 =? "")%string then (Good tt, LocalSandbox.files s) else make_dirs (dirname r.1) (LocalSandbox.files s) in
        let '(o, fs) := match made with Good _ => write_bytes r.1 content fs | Bad f => (Bad f, fs) end in
        (match o with Good _ => Good tt | Bad f => Bad (renamed repr p f) end,
         {| LocalSandbox.files := fs; _agent_written_paths := _agent_written_paths s |})
  end.

End files.

(** A mount that is below the directory it is mounted in is listed twice: the
    paths already listed are compared with the mount's name alone. *)
Lemma children_listed_twice :
  list_dir (fun p => p) (fun p => p)
    [{| mapped := "/mnt/skills"; local_path := "/srv/skills"; read_only := true |};
     {| mapped := "/mnt/skills/public"; local_path := "/srv/skills/public"; read_only := true |}]
    (fun p => if (p =? "/srv/skills")%string then Some (Dir (Some [("public", Dir (Some []))]))
              else if (p =? "/srv/skills/public")%string then Some (Dir (Some [])) else None)
    "/mnt/skills" 2 = Good ["/mnt/skills/public/"; "/mnt/skills/public/"].
Proof. by vm_compute. Qed.

End LocalFiles.
