(* ===== verification/BashGuard.v ===== *)
(** * Commands of the local sandbox

    [validate_local_bash_command_paths] of [deerflow/sandbox/tools.py] and what
    it is made of: the regular expressions over a command, its words, the
    working-directory changes and the absolute paths in it.  A text is the list
    of its characters; whether a character beyond ASCII is alphanumeric for
    [\w] is a parameter. *)
From S2P Require Import Prelude Json Text Slices PosixPaths Shlex SandboxPaths.
Import Json Text Slices PosixPaths Shlex SandboxPaths.

Module BashGuard.

(** ** Regular expressions *)

(** [re.finditer] of a pattern whose matches are not empty: [try] is given what
    is before (nearest first) and from the position on, and answers the length
    of the match there. *)
Section finditer.
Context (try : list string -> list string -> option nat).

Fixpoint finditer (skip pos : nat) (before l : list string) : list (nat * nat) :=
  match l with
  | [] => []
  | c :: r =>
      match skip with
      | S k => finditer k (S pos) (c :: before) r
      | O =>
          match try before l with
          | Some n => (pos, n) :: finditer (pred n) (S pos) (c :: before) r
          | None => finditer 0 (S pos) (c :: before) r
          end
      end
  end.
End finditer.

Fixpoint run_length (f : string -> bool) (l : list string) : nat :=
  match l with c :: l => if f c then S (run_length f l) else 0 | [] => 0 end.

(** The ASCII letter a character matches under [re.IGNORECASE]. *)
Definition letter (c : string) : option ascii :=
  match c with
  | String b EmptyString =>
      let b := lower_char b in
      if ((97 <=? N_of_ascii b) && (N_of_ascii b <=? 122))%N then Some b else None
  | _ =>
      if (c =? bytes [0xc4; 0xb0]%N)%string || (c =? bytes [0xc4; 0xb1]%N)%string then Some "i"%char
      else if (c =? bytes [0xc5; 0xbf]%N)%string then Some "s"%char
      else if (c =? bytes [0xe2; 0x84; 0xaa]%N)%string then Some "k"%char
      else None
  end.

Definition one_of (l : list string) (c : string) : bool := bool_decide (c ∈ l).
Definition digit (c : string) : bool := match c with String b EmptyString => bool_decide (is_Some (digit_of b)) | _ => false end.

(** A character of a path in a command: neither white space, nor a quote, nor an
    operator of the shell. *)
Definition path_char (c : string) : bool :=
  negb (is_space c) && negb (one_of [char doublequote; "'"; "`"; ";"; "&"; "|"; "<"; ">"; "("; ")"] c).

(** [[a-z0-9+.-]] *)
Definition scheme_char (c : string) : bool := bool_decide (is_Some (letter c)) || digit c || one_of ["+"; "."; "-"] c.

Definition is_list_prefix (p l : list string) : bool := is_prefix p l.

(** [[a-z][a-z0-9+.-]*://]: the length of the match. *)
Definition scheme (l : list string) : option nat :=
  match l with
  | c :: r =>
      if bool_decide (is_Some (letter c))
      then let n := run_length scheme_char r in
           if is_list_prefix [":"; "/"; "/"] (drop n r) then Some (S n + 3)%nat else None
      else None
  | [] => None
  end.

(** The letters of a word, without regard to case. *)
Fixpoint letters (w : list ascii) (l : list string) : option (list string) :=
  match w, l with
  | [], _ => Some l
  | a :: w, c :: l => if bool_decide (letter c = Some a) then letters w l else None
  | _ :: _, [] => None
  end.

Section guard.
(** [\w] beyond ASCII. *)
Context (alnum : string -> bool).

Definition is_word (c : string) : bool := match c with String b EmptyString => word_char b | _ => alnum c end.
Definition after_word (before : list string) : bool := match before with c :: _ => is_word c | [] => false end.

(** [_ABSOLUTE_PATH_PATTERN] *)
Definition absolute_path_at (before l : list string) : option nat :=
  match l with
  | c :: r =>
      if (c =? "/")%string && negb (after_word before) && negb (match before with b :: _ => (b =? ":")%string | [] => false end) &&
         negb (is_list_prefix ["/"; ":"] before)
      then match run_length path_char r with O => None | n => Some (S n) end
      else None
  | [] => None
  end.

(** [_URL_IN_COMMAND_PATTERN] *)
Definition url_at (before l : list string) : option nat :=
  if after_word before then None else
  match scheme l with
  | Some n => match run_length path_char (drop n l) with O => None | k => Some (n + k)%nat end
  | None => None
  end.

(** [_FILE_URL_PATTERN]: the text of the first match. *)
Definition file_url_at (before l : list string) : option nat :=
  if after_word before then None else
  match letters ["f"; "i"; "l"; "e"]%char l with
  | Some r =>
      if is_list_prefix [":"; "/"; "/"] r
      then match run_length (fun c => negb (is_space c)) (drop 3 r) with O => None | k => Some (4 + 3 + k)%nat end
      else None
  | None => None
  end.

Definition text_at (command : list string) (m : nat * nat) : string := text_of (take m.2 (drop m.1 command)).

(** [_is_non_file_url_token] *)
Definition non_file_url (value : string) : bool :=
  match scheme (chars value) with Some _ => negb (starts_with "file://" (lower value)) | None => false end.
Fixpoint after_equals (s : string) : option string :=
  match s with EmptyString => None | String c s => if Ascii.eqb c "=" then Some s else after_equals s end.
Definition _is_non_file_url_token (token : string) : bool :=
  non_file_url token || match after_equals token with Some v => non_file_url v | None => false end.

Definition _non_file_url_spans (command : list string) : list (nat * nat) :=
  List.filter (fun m => negb (starts_with "file://" (lower (text_at command m)))) (finditer url_at 0 0 [] command).
Definition _is_in_spans (position : nat) (spans : list (nat * nat)) : bool :=
  existsb (fun m => (m.1 <=? position)%nat && (position <? m.1 + m.2)%nat) spans.

(** [_DOTDOT_PATH_SEGMENT_PATTERN] *)
Definition dotdot_at (s : string) : bool :=
  match s with
  | String "." (String "." r) =>
      match r with
      | EmptyString => true
      | String c r => is_slash c || (Ascii.eqb c newline_char && (r =? "")%string)
      end
  | _ => false
  end.
Fixpoint dotdot_after (s : string) : bool :=
  match s with
  | EmptyString => false
  | String c s => (is_slash c || Ascii.eqb c "=") && dotdot_at s || dotdot_after s
  end.
Definition _has_dotdot_path_segment (token : string) : bool :=
  negb (_is_non_file_url_token token) && (dotdot_at token || dotdot_after token).

(** [\$\([^)]*\b(?:cd|pushd)\b] *)
Definition cwd_word_at (before l : list string) : bool :=
  negb (after_word before) &&
  existsb (fun w => is_list_prefix w l && negb (match drop (length w) l with c :: _ => is_word c | [] => false end))
    [["c"; "d"]; ["p"; "u"; "s"; "h"; "d"]].
Fixpoint cwd_word_in (before l : list string) : bool :=
  cwd_word_at before l ||
  match l with c :: l => negb (c =? ")")%string && cwd_word_in (c :: before) l | [] => false end.
Fixpoint substitution_changes_directory (l : list string) : bool :=
  match l with
  | [] => false
  | c :: r =>
      (c =? "$")%string && match r with d :: r => (d =? "(")%string && cwd_word_in ["("] r | [] => false end ||
      substitution_changes_directory r
  end.

(** ** Words *)

(** [command.replace("\r\n", "\n").replace("\r", "\n").replace("\n", " ; ")] *)
Definition carriage : ascii := ascii_of_N 13.
Fixpoint one_line (s : string) : string :=
  match s with
  | EmptyString => ""
  | String c r =>
      if Ascii.eqb c carriage
      then match r with
           | String d r' => if Ascii.eqb d newline_char then " ; " +:+ one_line r' else " ; " +:+ one_line r
           | EmptyString => " ; "
           end
      else if Ascii.eqb c newline_char then " ; " +:+ one_line r
      else String c (one_line r)
  end.

Definition _split_shell_tokens (command : string) : list string :=
  match words (one_line command) with Some l => l | None => split command end.

Definition _LOCAL_BASH_CWD_COMMANDS : list string := ["cd"; "pushd"].
Definition _LOCAL_BASH_COMMAND_WRAPPERS : list string := ["command"; "builtin"].
Definition _LOCAL_BASH_COMMAND_PREFIX_KEYWORDS : list string :=
  ["!"; "{"; "case"; "do"; "elif"; "else"; "for"; "if"; "select"; "then"; "time"; "until"; "while"].
Definition _LOCAL_BASH_COMMAND_END_KEYWORDS : list string := ["}"; "done"; "esac"; "fi"].
Definition _LOCAL_BASH_ROOT_PATH_COMMANDS : list string :=
  ["awk"; "cat"; "cp"; "du"; "find"; "grep"; "head"; "less"; "ln"; "ls"; "more"; "mv"; "rm"; "sed"; "tail"; "tar"].
Definition _SHELL_COMMAND_SEPARATORS : list string := [";"; "&&"; "||"; "|"; "|&"; "&"; "("; ")"].
Definition _SHELL_REDIRECTION_OPERATORS : list string := ["<"; ">"; "<<"; ">>"; "<<<"; "<>"; ">&"; "<&"; "&>"; "&>>"; ">|"].
Definition _LOCAL_BASH_SYSTEM_PATH_PREFIXES : list string :=
  ["/bin/"; "/usr/bin/"; "/usr/sbin/"; "/sbin/"; "/opt/homebrew/bin/"; "/dev/"].

Definition _is_shell_command_separator : string -> bool := one_of _SHELL_COMMAND_SEPARATORS.
Definition _is_shell_redirection_operator : string -> bool := one_of _SHELL_REDIRECTION_OPERATORS.

(** [[A-Za-z_][A-Za-z0-9_]*] *)
Definition is_identifier (s : string) : bool :=
  match s with EmptyString => false | String c _ => negb (bool_decide (is_Some (digit_of c))) && all_chars word_char s end.

Definition _is_shell_assignment (token : string) : bool :=
  match split_on "=" token with name :: _ :: _ => is_identifier name | _ => false end.

(** [token.rsplit("/", 1)[-1]] *)
Definition base_name (token : string) : string := default "" (last (split_on slash token)).

Section paths.
Context (h : Host) (allowed_paths : list string).

Definition rstrip_slash : string -> string := rstrip (is_char slash).

Definition _is_allowed_local_bash_absolute_path (p : string) (allow_system_paths : bool) : outcome bool :=
  if existsb (fun a => starts_with a p || (p =? rstrip_slash a)%string) allowed_paths ||
     under VIRTUAL_PATH_PREFIX p || _is_skills_path h p || _is_acp_workspace_path p || _is_custom_mount_path h p
  then match _reject_path_traversal p with Good _ => Good true | Bad f => Bad f end
  else Good (allow_system_paths &&
             existsb (fun a => (p =? rstrip_slash a)%string || starts_with a p) _LOCAL_BASH_SYSTEM_PATH_PREFIXES).

(** The words from an index on: the target of [cd], and what is behind it. *)
Fixpoint _next_cd_target (tokens : list string) : option string * list string :=
  match tokens with
  | [] => (None, [])
  | token :: l =>
      if _is_shell_command_separator token then (None, tokens)
      else if _is_shell_redirection_operator token then match l with [] => (None, []) | _ :: l => _next_cd_target l end
      else if (token =? "--")%string then _next_cd_target l
      else if one_of ["-L"; "-P"; "-e"; "-@"] token then _next_cd_target l
      else if starts_with "-" token && negb (token =? "-")%string then _next_cd_target l
      else (Some token, l)
  end.

Definition unsafe_cwd (what : string) : failure :=
  permission ("Unsafe working directory change in command: " +:+ what +:+ ". Use paths under " +:+ VIRTUAL_PATH_PREFIX).

Definition _validate_local_bash_cwd_target (command_name : string) (target : option string) : outcome unit :=
  match target with
  | None => Bad (unsafe_cwd command_name)
  | Some t =>
      if (t =? "-")%string then Bad (unsafe_cwd command_name)
      else if starts_with "$" t || starts_with "`" t || starts_with "~" t then Bad (unsafe_cwd (command_name +:+ " " +:+ t))
      else if starts_with "/" t then
        match _reject_path_traversal t with
        | Bad f => Bad f
        | Good _ =>
            match _is_allowed_local_bash_absolute_path t false with
            | Good true => Good tt
            | Good false => Bad (unsafe_cwd (command_name +:+ " " +:+ t))
            | Bad f => Bad f
            end
        end
      else Good tt
  end.

Fixpoint root_args (tokens : list string) : outcome unit :=
  match tokens with
  | [] => Good tt
  | token :: l =>
      if _is_shell_command_separator token then Good tt
      else if _is_shell_redirection_operator token then match l with [] => Good tt | _ :: l => root_args l end
      else if (token =? "/")%string && negb (_is_non_file_url_token token)
      then Bad (permission ("Unsafe absolute paths in command: /. Use paths under " +:+ VIRTUAL_PATH_PREFIX))
      else root_args l
  end.
Definition _validate_local_bash_root_path_args (command_name : string) (tokens : list string) : outcome unit :=
  if one_of _LOCAL_BASH_ROOT_PATH_COMMANDS command_name then root_args tokens else Good tt.

Definition andthen {A B} (o : outcome A) (k : A -> outcome B) : outcome B :=
  match o with Good a => k a | Bad f => Bad f end.

(** The loop over the words.  Every round leaves fewer words, so their number
    is enough fuel. *)
Fixpoint command_loop (fuel : nat) (at_command_start : bool) (tokens : list string) : outcome unit :=
  match fuel, tokens with
  | _, [] | O, _ => Good tt
  | S fuel, token :: l =>
      if _is_shell_command_separator token then command_loop fuel true l
      else if _is_shell_redirection_operator token then command_loop fuel at_command_start l
      else if at_command_start && _is_shell_assignment token then command_loop fuel at_command_start l
      else
        let command_name := base_name token in
        if at_command_start && one_of (_LOCAL_BASH_COMMAND_PREFIX_KEYWORDS ++ _LOCAL_BASH_COMMAND_END_KEYWORDS) command_name
        then command_loop fuel at_command_start l
        else if negb at_command_start then command_loop fuel at_command_start l
        else
          let plain :=
            if negb (one_of _LOCAL_BASH_CWD_COMMANDS command_name)
            then andthen (_validate_local_bash_root_path_args command_name l) (fun _ => command_loop fuel false l)
            else let '(target, rest) := _next_cd_target l in
                 andthen (_validate_local_bash_cwd_target command_name target) (fun _ => command_loop fuel false rest) in
          match l with
          | wrapped :: l' =>
              if one_of _LOCAL_BASH_COMMAND_WRAPPERS command_name then
                let wrapped_name := base_name wrapped in
                if one_of _LOCAL_BASH_CWD_COMMANDS wrapped_name
                then let '(target, rest) := _next_cd_target l' in
                     andthen (_validate_local_bash_cwd_target wrapped_name target) (fun _ => command_loop fuel false rest)
                else andthen (_validate_local_bash_root_path_args wrapped_name l') (fun _ => plain)
              else plain
          | [] => plain
          end
  end.

Definition dotdot_token (token : string) : bool :=
  negb (_is_shell_command_separator token) && negb (_is_shell_redirection_operator token) && _has_dotdot_path_segment token.

Definition _validate_local_bash_shell_tokens (command : string) : outcome unit :=
  if substitution_changes_directory (chars command)
  then Bad (permission ("Unsafe working directory change in command substitution. Use paths under " +:+ VIRTUAL_PATH_PREFIX))
  else
    let tokens := _split_shell_tokens command in
    if existsb dotdot_token tokens then Bad traversal else command_loop (length tokens) true tokens.

(** ** Absolute paths *)

(** [re.findall(r"\{([^{}]*)\}", fragment)]: the texts between braces. *)
Fixpoint brace_blocks (inside : option string) (s : string) : list string :=
  match s with
  | EmptyString => []
  | String c s =>
      if Ascii.eqb c "{" then brace_blocks (Some "") s
      else if Ascii.eqb c "}"
      then match inside with Some b => b :: brace_blocks None s | None => brace_blocks None s end
      else brace_blocks (option_map (fun b => b +:+ char c) inside) s
  end.
Fixpoint count_char (a : ascii) (s : string) : nat :=
  match s with EmptyString => 0 | String c s => (if Ascii.eqb c a then 1 else 0) + count_char a s end.

Definition _braces_are_identifier_placeholders_only (fragment : string) : bool :=
  if contains "${" fragment then false else
  let blocks := brace_blocks None fragment in
  (count_char "{" fragment =? length blocks)%nat && (count_char "}" fragment =? length blocks)%nat &&
  forallb is_identifier blocks.

Definition _is_non_path_literal_fragment (fragment : string) : bool :=
  if negb (all_chars (fun c => N_of_ascii c <? 128)%N fragment) then true
  else if contains "{" fragment || contains "}" fragment then _braces_are_identifier_placeholders_only fragment
  else false.

(** The loop over the absolute paths: the unsafe ones. *)
Fixpoint unsafe_paths (command : list string) (spans matches : list (nat * nat)) : outcome (list string) :=
  match matches with
  | [] => Good []
  | m :: matches =>
      let p := text_at command m in
      if _is_in_spans m.1 spans || _is_non_path_literal_fragment p then unsafe_paths command spans matches
      else
        andthen (_is_allowed_local_bash_absolute_path p true) (fun allowed =>
        andthen (unsafe_paths command spans matches) (fun l => Good (if (allowed : bool) then l else p :: l)))
  end.

Definition code_point_order (a b : string) : bool := bool_decide (String.le a b).

End paths.

Definition _get_mcp_allowed_paths (h : Host) : list string :=
  flat_map (fun s =>
    if server_enabled s && existsb (contains "server-filesystem") (server_args s)
    then omap (fun a => if starts_with "/" a then Some (rstrip_slash a +:+ "/") else None) (server_args s)
    else []) (mcp_servers h).

Definition validate_local_bash_command_paths (h : Host) (command : string) (td : option ThreadData) : outcome unit :=
  match td with
  | None => Bad (runtime_error "Thread data not available for local sandbox")
  | Some _ =>
      let text := chars command in
      match finditer file_url_at 0 0 [] text with
      | m :: _ => Bad (permission ("Unsafe file:// URL in command: " +:+ text_at text m +:+ ". Use paths under " +:+ VIRTUAL_PATH_PREFIX))
      | [] =>
          let allowed_paths := _get_mcp_allowed_paths h in
          andthen (_validate_local_bash_shell_tokens h allowed_paths command) (fun _ =>
          andthen (unsafe_paths h allowed_paths text (_non_file_url_spans text) (finditer absolute_path_at 0 0 [] text)) (fun l =>
          match stable_sort code_point_order (fromkeys l) with
          | [] => Good tt
          | unsafe => Bad (permission ("Unsafe absolute paths in command: " +:+ join ", " unsafe +:+ ". Use paths under " +:+
                                       VIRTUAL_PATH_PREFIX))
          end))
      end
  end.

End guard.

End BashGuard.
