(* ===== verification/BashSafety.v ===== *)
(** * What the validation of a command accepts

    [validate_local_bash_command_paths] is a loop over an index; here it is
    compared with a specification command by command.  With the quoting of
    [Shlex], what is put in front of an accepted command cannot change how it is
    read. *)
From S2P Require Import Prelude Json Text Slices PosixPaths Shlex SandboxPaths SandboxOutput BashGuard.
Import Json Text Slices PosixPaths Shlex SandboxPaths SandboxOutput BashGuard.

Module BashSafety.

(** ** What a command may do

    The specification, which does not use the code's tests; only the words, the
    texts that are assignments, and which matches are URLs or braces are read as
    the code reads them. *)

Definition separator (t : string) : bool := bool_decide (t ∈ [";"; "&&"; "||"; "|"; "|&"; "&"; "("; ")"]).
Definition redirection (t : string) : bool :=
  bool_decide (t ∈ ["<"; ">"; "<<"; ">>"; "<<<"; "<>"; ">&"; "<&"; "&>"; "&>>"; ">|"]).
Definition keyword (t : string) : bool :=
  bool_decide (t ∈ ["!"; "{"; "case"; "do"; "elif"; "else"; "for"; "if"; "select"; "then"; "time"; "until"; "while";
                    "}"; "done"; "esac"; "fi"]).

(** The words between the separators. *)
Fixpoint segments (tokens : list string) : list (list string) :=
  match tokens with
  | [] => [[]]
  | t :: l =>
      if separator t then [] :: segments l
      else match segments l with s :: ss => (t :: s) :: ss | [] => [[t]] end
  end.

(** The name of a command and its arguments, behind redirections, assignments
    and keywords. *)
Fixpoint head_command (segment : list string) : option (string * list string) :=
  match segment with
  | [] => None
  | t :: l =>
      if redirection t || _is_shell_assignment t || keyword (base_name t) then head_command l
      else Some (base_name t, l)
  end.

(** A redirection names a file. *)
Fixpoint redirections_ok (tokens : list string) : bool :=
  match tokens with
  | t :: ((u :: _) as l) => negb (redirection t && separator u) && redirections_ok l
  | _ => true
  end.

(** Its arguments without the redirections and their files. *)
Fixpoint arguments (l : list string) : list string :=
  match l with
  | [] => []
  | t :: l => if redirection t then match l with [] => [] | _ :: l => arguments l end else t :: arguments l
  end.
Definition option_word (t : string) : bool := starts_with "-" t && negb (t =? "-")%string.

(** At a directory or below it, by the text. *)
Definition below (base p : string) : Prop := p = base \/ exists r, p = base +:+ String slash r.
Definition no_parent (p : string) : Prop := ".." ∉ split_on slash (replace_char backslash_char slash p).

Section allowed.
Context (alnum : string -> bool) (h : Host).

(** The directories a command may name: the user's data, the skills, the agent
    workspace, the mounts, and those a file-system MCP server is started on. *)
Definition open_dir (dir : string) : Prop :=
  dir = "/mnt/user-data" \/ dir = skills_container h \/ dir = "/mnt/acp-workspace" \/
  (exists m, m ∈ custom_mounts h /\ dir = container_path m) \/
  exists server arg, server ∈ mcp_servers h /\ server_enabled server = true /\
    (exists a, a ∈ server_args server /\ contains "server-filesystem" a = true) /\
    arg ∈ server_args server /\ starts_with "/" arg = true /\ dir = rstrip_slash arg.
Definition opened (p : string) : Prop := exists dir, open_dir dir /\ below dir p.

(** A target of [cd]; and a path anywhere in the text, where the programs and
    devices of the system are allowed too. *)
Definition safe_target (t : string) : Prop :=
  t <> "-" /\ (forall c, c ∈ ["$"; "`"; "~"] -> starts_with c t = false) /\ (starts_with "/" t = true -> no_parent t /\ opened t).
Definition safe_path (p : string) : Prop :=
  (opened p -> no_parent p) /\
  (opened p \/ exists dir, dir ∈ ["/bin"; "/usr/bin"; "/usr/sbin"; "/sbin"; "/opt/homebrew/bin"; "/dev"] /\ below dir p).

Definition moves_ok (args : list string) : Prop :=
  match List.filter (fun t => negb (option_word t)) (arguments args) with t :: _ => safe_target t | [] => False end.
Definition simple_ok (name : string) (args : list string) : Prop :=
  if bool_decide (name ∈ ["cd"; "pushd"]) then moves_ok args
  else name ∈ ["awk"; "cat"; "cp"; "du"; "find"; "grep"; "head"; "less"; "ln"; "ls"; "more"; "mv"; "rm"; "sed"; "tail"; "tar"] ->
       "/" ∉ arguments args.

(** Behind [command] or [builtin] it is the very next word that counts. *)
Definition command_ok (segment : list string) : Prop :=
  match head_command segment with
  | None => True
  | Some (name, args) =>
      match bool_decide (name ∈ ["command"; "builtin"]), args with
      | true, wrapped :: args' => simple_ok (base_name wrapped) args'
      | _, _ => simple_ok name args
      end
  end.

(** [file://] and more, in any case, at the beginning of a word. *)
Definition begins_word (before : list string) : Prop := forall c, last before = Some c -> is_word alnum c = false.
Definition names_file_url (text : list string) : Prop :=
  exists before f i l e c after, text = before ++ f :: i :: l :: e :: ":" :: "/" :: "/" :: c :: after /\ begins_word before /\
    map letter [f; i; l; e] = map Some ["f"; "i"; "l"; "e"]%char /\ is_space c = false.

(** [cd] or [pushd] as a word in a command substitution, before its end. *)
Definition moves_in_substitution (text : list string) : Prop :=
  exists before inner w after, text = before ++ "$" :: "(" :: inner ++ w ++ after /\ ")" ∉ inner /\
    w ∈ [["c"; "d"]; ["p"; "u"; "s"; "h"; "d"]] /\ begins_word inner /\ (forall c r, after = c :: r -> is_word alnum c = false).

(** A [..] component of a word, at its beginning or behind [=] or a slash. *)
Definition climbs (t : string) : Prop :=
  _is_non_file_url_token t = false /\
  exists before after, t = before +:+ ".." +:+ after /\
    (before = "" \/ exists b c, before = b +:+ char c /\ c ∈ [slash; backslash_char; "="%char]) /\
    (after = "" \/ after = newline_text \/ exists c a, after = String c a /\ c ∈ [slash; backslash_char]).

(** The absolute paths of a text: a slash that neither continues a word nor a
    URL, and all the characters a path may have behind it; not within another. *)
Definition slash_starts (before : list string) : Prop :=
  (forall c, last before = Some c -> is_word alnum c = false /\ c <> ":") /\ forall b, before <> b ++ [":"; "/"].
Definition path_word (text before p : list string) : Prop :=
  exists body after, text = before ++ p ++ after /\ p = "/" :: body /\ body <> [] /\ Forall (fun c => path_char c = true) body /\
    (forall c r, after = c :: r -> path_char c = false) /\ slash_starts before /\
    forall b inner, before = b ++ "/" :: inner -> Forall (fun c => path_char c = true) inner -> ~ slash_starts b.

(** Part of a URL that is no file URL. *)
Definition in_url (text : list string) (position : nat) : Prop :=
  exists m, m ∈ finditer (url_at alnum) 0 0 [] text /\ starts_with "file://" (lower (text_at text m)) = false /\
    (m.1 <= position < m.1 + m.2)%nat.
Definition path_ok (text before p : list string) : Prop :=
  in_url text (length before) \/ _is_non_path_literal_fragment (text_of p) = true \/ safe_path (text_of p).
End allowed.

(** ** The loop over the words *)

(** The words between the separators. *)
Fixpoint loop_segments (tokens : list string) : list (list string) :=
  match tokens with
  | [] => [[]]
  | t :: l =>
      if _is_shell_command_separator t then [] :: loop_segments l
      else match loop_segments l with s :: ss => (t :: s) :: ss | [] => [[t]] end
  end.

Definition loop_keyword : string -> bool := one_of (_LOCAL_BASH_COMMAND_PREFIX_KEYWORDS ++ _LOCAL_BASH_COMMAND_END_KEYWORDS).
Definition loop_cd : string -> bool := one_of _LOCAL_BASH_CWD_COMMANDS.

(** The name of a command and its arguments, behind redirections, assignments
    and keywords. *)
Fixpoint loop_head (segment : list string) : option (string * list string) :=
  match segment with
  | [] => None
  | t :: l =>
      if _is_shell_redirection_operator t || _is_shell_assignment t || loop_keyword (base_name t) then loop_head l
      else Some (base_name t, l)
  end.

Section spec.
Context (alnum : string -> bool) (h : Host) (allowed_paths : list string).

Definition loop_cd_ok (name : string) (args : list string) : Prop :=
  _validate_local_bash_cwd_target h allowed_paths name (_next_cd_target args).1 = Good tt.
Definition loop_args_ok (name : string) (args : list string) : Prop :=
  _validate_local_bash_root_path_args name args = Good tt.
Definition loop_simple_ok (name : string) (args : list string) : Prop :=
  if loop_cd name then loop_cd_ok name args else loop_args_ok name args.

Definition loop_command_ok (segment : list string) : Prop :=
  match loop_head segment with
  | None => True
  | Some (name, args) =>
      match one_of _LOCAL_BASH_COMMAND_WRAPPERS name, args with
      | true, wrapped :: args' => loop_simple_ok (base_name wrapped) args'
      | _, _ => loop_simple_ok name args
      end
  end.

(** A redirection names a file. *)
Fixpoint loop_redirections_ok (tokens : list string) : bool :=
  match tokens with
  | t :: ((u :: _) as l) => negb (_is_shell_redirection_operator t && _is_shell_command_separator u) && loop_redirections_ok l
  | _ => true
  end.

Lemma segments_cons t l : _is_shell_command_separator t = false ->
  exists s ss, loop_segments l = s :: ss /\ loop_segments (t :: l) = (t :: s) :: ss.
Proof.
  intros E. cbn. rewrite E. destruct (loop_segments l) as [|s ss] eqn:S; [|by exists s, ss].
  exfalso. clear E. destruct l as [|u l]; cbn in S; [done|]. destruct (_is_shell_command_separator u); [done|].
  by destruct (loop_segments l).
Qed.

Lemma separator_plain w : _is_shell_command_separator w = true ->
  loop_cd (base_name w) = false /\ one_of _LOCAL_BASH_ROOT_PATH_COMMANDS (base_name w) = false /\
  _is_shell_redirection_operator w = false.
Proof.
  unfold _is_shell_command_separator, one_of. intros H%bool_decide_eq_true. unfold _SHELL_COMMAND_SEPARATORS in H.
  repeat (apply elem_of_cons in H as [->|H]; [by vm_compute|]). by apply elem_of_nil in H.
Qed.

Lemma redirections_tail t l : loop_redirections_ok (t :: l) = true -> loop_redirections_ok l = true.
Proof. destruct l as [|u l]; [done|]. cbn. by intros [_ H]%andb_true_iff. Qed.

(** The arguments of a command are those up to the separator. *)
Lemma root_args_segment n : forall l s ss, (length l <= n)%nat -> loop_redirections_ok l = true -> loop_segments l = s :: ss -> root_args l = root_args s.
Proof.
  induction n as [|n IH]; intros l s ss L R S; destruct l as [|t l]; try (cbn in L; lia); try (cbn in S; injection S as <- <-; done).
  cbn in L. destruct (_is_shell_command_separator t) eqn:E.
  { cbn in S. rewrite E in S. injection S as <- <-. cbn. by rewrite E. }
  destruct (segments_cons t l E) as (s' & ss' & S' & S2). rewrite S2 in S. injection S as <- <-. cbn. rewrite E.
  pose proof (redirections_tail _ _ R) as R'.
  destruct (_is_shell_redirection_operator t) eqn:D.
  - destruct l as [|u l]; [cbn in S'; by injection S' as <- <-|]. cbn in R. rewrite D in R.
    destruct (_is_shell_command_separator u) eqn:U; [done|]. destruct (segments_cons u l U) as (s2 & ss2 & S3 & S4).
    rewrite S4 in S'. injection S' as <- <-. cbn in L. apply (IH l s2 ss2); [lia|by eapply redirections_tail|done].
  - destruct (_ && _); [done|]. by apply (IH l s' ss'); [lia|..].
Qed.

Lemma cd_target_segment n : forall l s ss, (length l <= n)%nat -> loop_redirections_ok l = true -> loop_segments l = s :: ss ->
  let '(target, rest) := _next_cd_target l in
  target = (_next_cd_target s).1 /\ (length rest <= length l)%nat /\ loop_redirections_ok rest = true /\ tl (loop_segments rest) = ss.
Proof.
  induction n as [|n IH]; intros l s ss L R S; destruct l as [|t l]; try (cbn in L; lia); try (cbn in S; injection S as <- <-; done).
  cbn in L. destruct (_is_shell_command_separator t) eqn:E.
  { cbn in S. rewrite E in S. injection S as <- <-. cbn. rewrite E. split_and!; [done|cbn; lia|done|cbn; by rewrite ?E]. }
  destruct (segments_cons t l E) as (s' & ss' & S' & S2). rewrite S2 in S. injection S as <- <-. cbn. rewrite E.
  pose proof (redirections_tail _ _ R) as R'. pose proof (IH l s' ss' ltac:(lia) R' S') as I.
  assert (forall A (x y : A) (b : bool), (if b then x else y) = if b then x else y) as _ by done.
  destruct (_is_shell_redirection_operator t) eqn:D.
  - destruct l as [|u l]; [cbn in S'; injection S' as <- <-; cbn; split_and!; (done || lia)|]. cbn in R. rewrite D in R.
    destruct (_is_shell_command_separator u) eqn:U; [done|]. destruct (segments_cons u l U) as (s2 & ss2 & S3 & S4).
    rewrite S4 in S'. injection S' as <- <-. cbn in L. pose proof (IH l s2 ss2 ltac:(lia) (redirections_tail _ _ R') S3) as J.
    destruct (_next_cd_target l) as [target rest]. destruct J as (J1 & J2 & J3 & J4). split_and!; [done|cbn; lia|done..].
  - destruct (_next_cd_target l) as [target rest]. destruct I as (I1 & I2 & I3 & I4).
    destruct (t =? "--")%string; [split_and!; [done|lia|done..]|]. destruct (one_of _ t); [split_and!; [done|lia|done..]|].
    destruct (_ && _); [split_and!; [done|lia|done..]|]. split_and!; [done|lia|done|by rewrite S'].
Qed.

Lemma wrapper_plain name : one_of _LOCAL_BASH_COMMAND_WRAPPERS name = true ->
  loop_cd name = false /\ one_of _LOCAL_BASH_ROOT_PATH_COMMANDS name = false.
Proof.
  unfold one_of. intros H%bool_decide_eq_true. unfold _LOCAL_BASH_COMMAND_WRAPPERS in H.
  repeat (apply elem_of_cons in H as [->|H]; [by vm_compute|]). by apply elem_of_nil in H.
Qed.

Lemma andthen_good {A B} (o : outcome A) (k : A -> outcome B) b :
  andthen o k = Good b <-> exists a, o = Good a /\ k a = Good b.
Proof. destruct o; cbn; [split; [by eexists|by intros [? [[= <-] ?]]]|split; [done|by intros [? [[=] ?]]]]. Qed.

(** One command: the code's test, and what it leaves to read. *)
Lemma simple_command name l s ss fuel (IH : forall rest, (length rest <= length l)%nat -> loop_redirections_ok rest = true ->
    (command_loop h allowed_paths fuel false rest = Good tt <-> Forall loop_command_ok (tl (loop_segments rest)))) :
  loop_redirections_ok l = true -> loop_segments l = s :: ss ->
  ((if negb (loop_cd name)
    then andthen (_validate_local_bash_root_path_args name l) (fun _ => command_loop h allowed_paths fuel false l)
    else let '(target, rest) := _next_cd_target l in
         andthen (_validate_local_bash_cwd_target h allowed_paths name target) (fun _ => command_loop h allowed_paths fuel false rest))
   = Good tt <-> loop_simple_ok name s /\ Forall loop_command_ok ss).
Proof.
  intros R S. unfold loop_simple_ok, loop_cd_ok, loop_args_ok. destruct (loop_cd name); cbn [negb].
  - pose proof (cd_target_segment (length l) l s ss (le_n _) R S) as T. destruct (_next_cd_target l) as [target rest].
    destruct T as (-> & L & R' & <-). rewrite andthen_good. split.
    + intros [[] [V E]]. split; [done|]. by apply IH.
    + intros [V E]. exists tt. split; [done|]. by apply IH.
  - assert (_validate_local_bash_root_path_args name l = _validate_local_bash_root_path_args name s) as ->.
    { unfold _validate_local_bash_root_path_args. destruct (one_of _ name); [|done]. by eapply (root_args_segment (length l)). }
    rewrite andthen_good. assert (ss = tl (loop_segments l)) as -> by by rewrite S. split.
    + intros [[] [V E]]. split; [done|]. by apply IH.
    + intros [V E]. exists tt. split; [done|]. by apply IH.
Qed.

(** The loop accepts exactly the words all of whose commands are accepted. *)
Lemma command_loop_spec fuel : forall start l, (length l <= fuel)%nat -> loop_redirections_ok l = true ->
  (command_loop h allowed_paths fuel start l = Good tt <->
   Forall loop_command_ok (if (start : bool) then loop_segments l else tl (loop_segments l))).
Proof.
  induction fuel as [|fuel IH]; intros start l L R.
  { destruct l; [|cbn in L; lia]. cbn. split; [|done]. intros _. destruct start; repeat constructor. }
  destruct l as [|t l]; [cbn; split; [|done]; intros _; destruct start; repeat constructor|]. cbn in L.
  pose proof (redirections_tail _ _ R) as R'. cbn [command_loop].
  destruct (_is_shell_command_separator t) eqn:E.
  { rewrite (IH true l ltac:(lia) R'). cbn [loop_segments]. rewrite E. destruct start; [|done]. rewrite Forall_cons.
    split; [|by intros []]. intros H. by split. }
  destruct (segments_cons t l E) as (s & ss & S & S2). rewrite S2.
  assert (forall b : bool, (b = true -> loop_command_ok (t :: s) <-> loop_command_ok s) ->
    (command_loop h allowed_paths fuel b l = Good tt <-> Forall loop_command_ok (if b then (t :: s) :: ss else tl ((t :: s) :: ss)))) as Skip.
  { intros b H. rewrite (IH b l ltac:(lia) R'), S. destruct b; [|done]. rewrite !Forall_cons. by rewrite H. }
  destruct (_is_shell_redirection_operator t) eqn:D.
  { apply Skip. intros _. unfold loop_command_ok. cbn. by rewrite D. }
  destruct (start && _is_shell_assignment t) eqn:A.
  { apply andb_true_iff in A as [-> A]. apply Skip. intros _. unfold loop_command_ok. cbn. by rewrite D, A. }
  cbv zeta. destruct (start && one_of _ (base_name t)) eqn:Kw.
  { apply andb_true_iff in Kw as [-> Kw]. apply Skip. intros _. unfold loop_command_ok. cbn. unfold loop_keyword. by rewrite Kw, orb_true_r. }
  destruct start; cbn [negb andb] in *; [|by apply Skip].
  assert (loop_command_ok (t :: s) = match one_of _LOCAL_BASH_COMMAND_WRAPPERS (base_name t), s with
    | true, wrapped :: args' => loop_simple_ok (base_name wrapped) args' | _, _ => loop_simple_ok (base_name t) s end) as C.
  { unfold loop_command_ok. cbn. unfold loop_keyword. by rewrite D, A, Kw. }
  rewrite Forall_cons, C. fold (loop_cd (base_name t)).
  pose proof (fun rest (H : (length rest <= length l)%nat) => IH false rest ltac:(lia)) as IHl. cbv beta iota in IHl.
  pose proof (simple_command (base_name t) l s ss fuel IHl R' S) as Plain.
  destruct l as [|w l]; [cbn in S; injection S as <- <-; rewrite Plain; destruct (one_of _LOCAL_BASH_COMMAND_WRAPPERS (base_name t)); done|].
  destruct (one_of _LOCAL_BASH_COMMAND_WRAPPERS (base_name t)) eqn:W; [|by rewrite Plain].
  fold (loop_cd (base_name w)). destruct (wrapper_plain _ W) as [W1 W2].
  destruct (_is_shell_command_separator w) eqn:U.
  - destruct (separator_plain w U) as (U1 & U2 & _). rewrite U1. unfold _validate_local_bash_root_path_args at 1. rewrite U2. cbn [andthen].
    rewrite Plain. cbn in S. rewrite U in S. by injection S as <- <-.
  - destruct (segments_cons w l U) as (s' & ss' & S' & S3). rewrite S3 in S. injection S as <- <-.
    pose proof (redirections_tail _ _ R') as R2.
    assert (forall rest, (length rest <= length l)%nat -> loop_redirections_ok rest = true ->
      (command_loop h allowed_paths fuel false rest = Good tt <-> Forall loop_command_ok (tl (loop_segments rest)))) as IHw.
    { intros rest H. apply IHl. cbn. lia. }
    pose proof (simple_command (base_name w) l s' ss' fuel IHw R2 S') as Wrapped.
    destruct (loop_cd (base_name w)) eqn:Cd; cbn [negb] in Wrapped; [exact Wrapped|].
    rewrite W1. cbn [negb].
    assert (_validate_local_bash_root_path_args (base_name t) (w :: l) = Good tt) as ->
      by (unfold _validate_local_bash_root_path_args; by rewrite W2).
    cbn [andthen]. rewrite <- Wrapped, !andthen_good.
    assert (command_loop h allowed_paths fuel false (w :: l) = Good tt <-> command_loop h allowed_paths fuel false l = Good tt) as X.
    { rewrite (IHl (w :: l) (le_n _) R'), (IHw l (le_n _) R2), S3, S'. done. }
    split; intros [[] [V K]]; exists tt; (split; [done|]); by apply X.
Qed.

(** A path of the command that needs no further look. *)
Definition loop_path_ok (text : list string) (m : nat * nat) : Prop :=
  _is_in_spans m.1 (_non_file_url_spans alnum text) = true \/ _is_non_path_literal_fragment (text_at text m) = true \/
  _is_allowed_local_bash_absolute_path h allowed_paths (text_at text m) true = Good true.

Lemma unsafe_paths_none text ms :
  unsafe_paths h allowed_paths text (_non_file_url_spans alnum text) ms = Good [] <-> Forall (loop_path_ok text) ms.
Proof.
  induction ms as [|m ms IH]; cbn [unsafe_paths]; [by split|]. rewrite Forall_cons. unfold loop_path_ok at 1.
  destruct (_is_in_spans _ _); cbn [orb]; [rewrite IH; naive_solver|].
  destruct (_is_non_path_literal_fragment _); cbn [orb]; [rewrite IH; naive_solver|].
  destruct (_is_allowed_local_bash_absolute_path _ _ _ true) as [[]|f]; cbn [andthen].
  - rewrite <- IH. destruct (unsafe_paths _ _ _ _ ms); cbn; naive_solver.
  - destruct (unsafe_paths _ _ _ _ ms); cbn; naive_solver.
  - naive_solver.
Qed.

Lemma sorted_none {A} le (l : list A) : stable_sort le l = [] <-> l = [].
Proof. split; [|by intros ->]. intros E. apply Permutation_nil_r. rewrite <- E. symmetry. apply stable_sort_perm. Qed.

Lemma distinct_none (l : list string) : fromkeys l = [] <-> l = [].
Proof.
  split; [|by intros ->]. intros E. destruct l as [|x l]; [done|]. exfalso.
  assert (x ∈ fromkeys (x :: l)) as H by (apply elem_of_fromkeys; left). rewrite E in H. by apply elem_of_nil in H.
Qed.

(** ** Failures are refusals *)

Definition refusal {A} (o : outcome A) : Prop := match o with Good _ => True | Bad f => kind f = PermissionError end.

Lemma refusal_andthen {A B} (o : outcome A) (k : A -> outcome B) : refusal o -> (forall a, refusal (k a)) -> refusal (andthen o k).
Proof. destruct o; cbn; auto. Qed.

Lemma reject_refusal p : refusal (_reject_path_traversal p).
Proof. unfold _reject_path_traversal. by case_bool_decide. Qed.

Lemma allowed_refusal p b : refusal (_is_allowed_local_bash_absolute_path h allowed_paths p b).
Proof.
  unfold _is_allowed_local_bash_absolute_path. destruct (_ || _); [|done]. pose proof (reject_refusal p).
  by destruct (_reject_path_traversal p).
Qed.

Lemma cwd_refusal name t : refusal (_validate_local_bash_cwd_target h allowed_paths name t).
Proof.
  unfold _validate_local_bash_cwd_target. destruct t as [t|]; [|done]. destruct (_ =? _)%string; [done|]. destruct (_ || _); [done|].
  destruct (starts_with "/" t); [|done]. pose proof (reject_refusal t). destruct (_reject_path_traversal t); [|done].
  pose proof (allowed_refusal t false). by destruct (_is_allowed_local_bash_absolute_path _ _ _ _) as [[]|].
Qed.

Lemma root_refusal name : forall n l, (length l <= n)%nat -> refusal (_validate_local_bash_root_path_args name l).
Proof.
  intros n l. unfold _validate_local_bash_root_path_args. destruct (one_of _ name); [|done]. revert l.
  induction n as [|n IH]; intros [|t l] L; cbn in L |- *; try done; try lia. destruct (_is_shell_command_separator t); [done|].
  destruct (_is_shell_redirection_operator t); [destruct l as [|u l]; [done|]; apply IH; cbn in L; lia|].
  destruct (_ && _); [done|]. apply IH. lia.
Qed.

Lemma loop_refusal fuel : forall start l, refusal (command_loop h allowed_paths fuel start l).
Proof.
  induction fuel as [|fuel IH]; intros start [|t l]; cbn [command_loop]; try done.
  destruct (_is_shell_command_separator t); [apply IH|]. destruct (_is_shell_redirection_operator t); [apply IH|].
  destruct (start && _); [apply IH|]. cbv zeta. destruct (start && _); [apply IH|]. destruct (negb start); [apply IH|].
  assert (forall name l, refusal (_validate_local_bash_root_path_args name l)) as Root by (intros; by eapply root_refusal).
  match goal with |- context [one_of _LOCAL_BASH_COMMAND_WRAPPERS _] => idtac | _ => idtac end.
  assert (forall name l, refusal (let '(target, rest) := _next_cd_target l in
      andthen (_validate_local_bash_cwd_target h allowed_paths name target) (fun _ => command_loop h allowed_paths fuel false rest))) as Cd.
  { intros name l'. destruct (_next_cd_target l'). apply refusal_andthen; [apply cwd_refusal|intros; apply IH]. }
  assert (refusal (if negb (one_of _LOCAL_BASH_CWD_COMMANDS (base_name t))
            then andthen (_validate_local_bash_root_path_args (base_name t) l) (fun _ => command_loop h allowed_paths fuel false l)
            else let '(target, rest) := _next_cd_target l in
                 andthen (_validate_local_bash_cwd_target h allowed_paths (base_name t) target)
                   (fun _ => command_loop h allowed_paths fuel false rest))) as Plain.
  { destruct (negb _); [|apply Cd]. apply refusal_andthen; [apply Root|intros; apply IH]. }
  destruct l as [|w l']; [exact Plain|]. destruct (one_of _LOCAL_BASH_COMMAND_WRAPPERS _); [|exact Plain].
  destruct (one_of _LOCAL_BASH_CWD_COMMANDS (base_name w)); [apply Cd|]. apply refusal_andthen; [apply Root|by intros].
Qed.

Lemma unsafe_refusal text spans ms : refusal (unsafe_paths h allowed_paths text spans ms).
Proof.
  induction ms as [|m ms IH]; cbn [unsafe_paths]; [done|]. destruct (_ || _); [done|].
  apply refusal_andthen; [apply allowed_refusal|]. intros a. by apply refusal_andthen.
Qed.
End spec.

(** ** The loop's tests are the specification's *)

Lemma segments_is l : segments l = loop_segments l.
Proof. reflexivity. Qed.

Lemma under_below base p : under base p = true <-> below base p.
Proof.
  unfold under, below. rewrite orb_true_iff, String.eqb_eq, starts_with_spec.
  split; (intros [?|[r ->]]; [by left|right; exists r; by rewrite ?sapp_assoc]).
Qed.

Lemma rstrip_behind s : rstrip_slash (s +:+ "/") = rstrip_slash s.
Proof. unfold rstrip_slash. induction s as [|c s IH]; [done|]. rewrite sapp_cons. cbn [rstrip]. by rewrite IH. Qed.

Lemma rstrip_again s : rstrip_slash (rstrip_slash s) = rstrip_slash s.
Proof.
  unfold rstrip_slash. induction s as [|c s IH]; [done|]. cbn [rstrip].
  destruct ((rstrip (is_char slash) s =? "")%string && is_char slash c) eqn:E; [done|]. cbn [rstrip]. by rewrite IH, E.
Qed.

Lemma existsb_elem {A} (f : A -> bool) l : existsb f l = true <-> exists x, x ∈ l /\ f x = true.
Proof. rewrite existsb_exists. by setoid_rewrite <- list_elem_of_In. Qed.

Section bridge.
Context (h : Host).
#[local] Abbreviation mcp := (_get_mcp_allowed_paths h).

Lemma mcp_opened p : existsb (fun a => starts_with a p || (p =? rstrip_slash a)%string) mcp = true <->
  exists dir, (exists server arg, server ∈ mcp_servers h /\ server_enabled server = true /\
    (exists a, a ∈ server_args server /\ contains "server-filesystem" a = true) /\
    arg ∈ server_args server /\ starts_with "/" arg = true /\ dir = rstrip_slash arg) /\ below dir p.
Proof.
  rewrite existsb_elem. unfold _get_mcp_allowed_paths. split.
  - intros (a & Ha & H). apply list_elem_of_In, in_flat_map in Ha as (s & Hs & Ha). apply list_elem_of_In in Hs.
    destruct (server_enabled s && _) eqn:E; [|done]. apply andb_true_iff in E as [E X]. apply existsb_elem in X.
    apply list_elem_of_In, list_elem_of_omap in Ha as (arg & Harg & Ha). destruct (starts_with "/" arg) eqn:St; [|done]. injection Ha as <-.
    exists (rstrip_slash arg). split; [by exists s, arg|]. apply under_below. unfold under.
    by rewrite rstrip_behind, rstrip_again, orb_comm in H.
  - intros (dir & (s & arg & Hs & E & X & Harg & St & ->) & B). exists (rstrip_slash arg +:+ "/"). split.
    + apply list_elem_of_In, in_flat_map. exists s. split; [by apply list_elem_of_In|]. apply existsb_elem in X. rewrite E, X. cbn [andb].
      apply list_elem_of_In, list_elem_of_omap. exists arg. by rewrite St.
    + rewrite rstrip_behind, rstrip_again, orb_comm. by apply under_below.
Qed.

Lemma opened_is p :
  existsb (fun a => starts_with a p || (p =? rstrip_slash a)%string) mcp ||
    under VIRTUAL_PATH_PREFIX p || _is_skills_path h p || _is_acp_workspace_path p || _is_custom_mount_path h p = true <-> opened h p.
Proof.
  unfold _is_skills_path, _is_acp_workspace_path, _is_custom_mount_path. rewrite !orb_true_iff, mcp_opened, !under_below, existsb_elem.
  setoid_rewrite under_below. unfold opened, open_dir. split.
  - intros [[[[(d & M & B)|B]|B]|B]|(m & M & B)]; [exists d|exists VIRTUAL_PATH_PREFIX|exists (skills_container h)|
      exists _ACP_WORKSPACE_VIRTUAL_PATH|exists (container_path m)]; (split; [|done]); naive_solver.
  - intros (d & [->|[->|[->|[(m & M & ->)|M]]]] & B); [do 3 left; by right|by left; left; right|by left; right|right; by exists m|].
    do 4 left. by exists d.
Qed.

Lemma reject_no_parent p : _reject_path_traversal p = Good tt <-> no_parent p.
Proof. unfold _reject_path_traversal, no_parent. by case_bool_decide. Qed.

Lemma allowed_is p system : _is_allowed_local_bash_absolute_path h mcp p system = Good true <->
  (opened h p -> no_parent p) /\ (opened h p \/ system = true /\
    exists dir, dir ∈ ["/bin"; "/usr/bin"; "/usr/sbin"; "/sbin"; "/opt/homebrew/bin"; "/dev"] /\ below dir p).
Proof.
  unfold _is_allowed_local_bash_absolute_path. pose proof (opened_is p) as O.
  destruct (_ || _) eqn:E in |- *; rewrite E in O.
  - assert (opened h p) as Op by by apply O. pose proof (reject_no_parent p) as R. destruct (_reject_path_traversal p) as [[]|f].
    + split; [|done]. intros _. split; [intros _; by apply R|by left].
    + split; [done|]. intros [N _]. apply R in N; [done|done].
  - assert (~ opened h p) as Op by by intros ?%O.
    assert (existsb (fun a => (p =? rstrip_slash a)%string || starts_with a p) _LOCAL_BASH_SYSTEM_PATH_PREFIXES = true <->
      exists dir, dir ∈ ["/bin"; "/usr/bin"; "/usr/sbin"; "/sbin"; "/opt/homebrew/bin"; "/dev"] /\ below dir p) as S.
    { setoid_rewrite <- under_below. rewrite <- existsb_elem. reflexivity. }
    rewrite <- S. split.
    + intros [= H]. apply andb_true_iff in H. split; [done|by right].
    + intros [_ [?|[-> H]]]; [done|]. by rewrite H.
Qed.

(** *** Commands *)

Lemma target_is s : Forall (fun t => separator t = false) s ->
  (_next_cd_target s).1 = head (List.filter (fun t => negb (option_word t)) (arguments s)).
Proof.
  intros F. remember (length s) as n eqn:L. assert (length s <= n)%nat as Le by lia. clear L. revert s F Le.
  induction n as [|n IH]; intros [|t s] F Le; cbn in Le; try done; try lia. apply Forall_cons in F as [E F].
  cbn [_next_cd_target arguments]. fold (separator t) (redirection t).
  change (_is_shell_command_separator t) with (separator t). change (_is_shell_redirection_operator t) with (redirection t).
  rewrite E. destruct (redirection t).
  { destruct s as [|u s]; [done|]. apply Forall_cons in F as [_ F]. cbn in Le. apply IH; [done|lia]. }
  cbn [List.filter]. unfold option_word at 1.
  destruct (t =? "--")%string eqn:D; [apply String.eqb_eq in D as ->; cbn; apply IH; [done|lia]|].
  unfold one_of. case_bool_decide as O.
  { assert (starts_with "-" t && negb (t =? "-")%string = true) as ->; [|cbn; apply IH; [done|lia]].
    repeat (apply elem_of_cons in O as [->|O]; [done|]). by apply elem_of_nil in O. }
  destruct (_ && _); cbn; [apply IH; [done|lia]|done].
Qed.

Lemma root_args_is s : Forall (fun t => separator t = false) s -> root_args s = Good tt <-> "/" ∉ arguments s.
Proof.
  intros F. remember (length s) as n eqn:L. assert (length s <= n)%nat as Le by lia. clear L. revert s F Le.
  induction n as [|n IH]; intros [|t s] F Le; cbn in Le; try lia; try (split; [intros _ []%elem_of_nil|done]). apply Forall_cons in F as [E F].
  cbn [root_args arguments]. change (_is_shell_command_separator t) with (separator t). change (_is_shell_redirection_operator t) with (redirection t).
  rewrite E. destruct (redirection t).
  { destruct s as [|u s]; [split; [intros _ []%elem_of_nil|done]|]. apply Forall_cons in F as [_ F]. cbn in Le. apply IH; [done|lia]. }
  rewrite not_elem_of_cons, <- (IH s F) by lia. destruct (t =? "/")%string eqn:D.
  - apply String.eqb_eq in D as ->. split; [done|by intros []].
  - apply String.eqb_neq in D. cbn [andb]. split; [by split|by intros []].
Qed.

Lemma cwd_target_is name t : _validate_local_bash_cwd_target h mcp name (Some t) = Good tt <-> safe_target h t.
Proof.
  unfold _validate_local_bash_cwd_target, safe_target. destruct (t =? "-")%string eqn:D.
  { apply String.eqb_eq in D as ->. split; [done|by intros [[] _]]. }
  apply String.eqb_neq in D.
  assert (starts_with "$" t || starts_with "`" t || starts_with "~" t = false <-> forall c, c ∈ ["$"; "`"; "~"] -> starts_with c t = false) as S.
  { rewrite !orb_false_iff. split.
    - intros [[A B] C] c H. repeat (apply elem_of_cons in H as [->|H]; [done|]). by apply elem_of_nil in H.
    - intros H. split; [split|]; apply H; set_solver. }
  rewrite <- S. destruct (_ || _); [split; [done|by intros (_ & [=] & _)]|].
  destruct (starts_with "/" t); [|split; [intros _; by split_and!|done]]. pose proof (reject_no_parent t) as R. pose proof (allowed_is t false) as A.
  destruct (_reject_path_traversal t) as [[]|f].
  - destruct (_is_allowed_local_bash_absolute_path h mcp t false) as [[]|f].
    + split; [intros _|done]. split_and!; [done..|]. intros _. destruct (proj1 A eq_refl) as [P [O|[[=] _]]]. split; [by apply R|done].
    + split; [done|]. intros (_ & _ & H). destruct (H eq_refl) as [N O]. assert (@Good bool false = Good true) as [=]. apply A. split; [done|by left].
    + split; [done|]. intros (_ & _ & H). destruct (H eq_refl) as [N O]. assert (@Bad bool f = Good true) as [=]. apply A. split; [done|by left].
  - split; [done|]. intros (_ & _ & H). destruct (H eq_refl) as [N _]. by apply R in N.
Qed.

Lemma simple_is name s : Forall (fun t => separator t = false) s -> loop_simple_ok h mcp name s <-> simple_ok h name s.
Proof.
  intros F. unfold loop_simple_ok, simple_ok, loop_cd_ok, loop_args_ok, moves_ok. change (loop_cd name) with (bool_decide (name ∈ ["cd"; "pushd"])).
  case_bool_decide as C.
  - rewrite target_is by done. destruct (List.filter _ (arguments s)) as [|t l]; cbn [head]; [done|]. apply cwd_target_is.
  - unfold _validate_local_bash_root_path_args, one_of, _LOCAL_BASH_ROOT_PATH_COMMANDS. case_bool_decide as R.
    + rewrite root_args_is by done. naive_solver.
    + split; [by intros _ ?|done].
Qed.

Lemma head_is s : loop_head s = head_command s.
Proof. reflexivity. Qed.

Lemma head_suffix s name args : head_command s = Some (name, args) -> exists l t, s = l ++ t :: args.
Proof.
  induction s as [|t s IH]; [done|]. cbn. destruct (_ || _ || _).
  - intros (l & u & ->)%IH. by exists (t :: l), u.
  - intros [= _ ->]. by exists [], t.
Qed.

Lemma command_is s : Forall (fun t => separator t = false) s -> loop_command_ok h mcp s <-> command_ok h s.
Proof.
  intros F. unfold loop_command_ok, command_ok. rewrite head_is. destruct (head_command s) as [[name args]|] eqn:H; [|done].
  apply head_suffix in H as (l & t & ->). apply Forall_app in F as [_ F]. apply Forall_cons in F as [_ F].
  change (one_of _LOCAL_BASH_COMMAND_WRAPPERS name) with (bool_decide (name ∈ ["command"; "builtin"])).
  case_bool_decide; [|by apply simple_is]. destruct args as [|w args]; [by apply simple_is|]. apply Forall_cons in F as [_ F]. by apply simple_is.
Qed.

Lemma segments_plain l : Forall (Forall (fun t => separator t = false)) (segments l).
Proof.
  induction l as [|t l IH]; cbn [segments]; [repeat constructor|]. destruct (separator t) eqn:E; [by constructor|].
  destruct (segments l) as [|s ss]; [repeat constructor; done|]. apply Forall_cons in IH as [A B]. by repeat constructor.
Qed.

Lemma commands_are l : Forall (loop_command_ok h mcp) (loop_segments l) <-> Forall (command_ok h) (segments l).
Proof.
  rewrite <- segments_is. pose proof (segments_plain l) as P. induction P as [|s ss F P IH]; [by split|].
  by rewrite !Forall_cons, IH, command_is.
Qed.
End bridge.

(** *** Words that climb *)

Definition ends_component (after : string) : Prop :=
  after = "" \/ after = newline_text \/ exists c a, after = String c a /\ c ∈ [slash; backslash_char].

Lemma is_slash_in c : is_slash c = true <-> c ∈ [slash; backslash_char].
Proof. unfold is_slash. rewrite orb_true_iff, !Ascii.eqb_eq. set_solver. Qed.

Lemma dotdot_at_is s : dotdot_at s = true <-> exists after, s = ".." +:+ after /\ ends_component after.
Proof.
  split.
  - intros H. assert (exists after, s = ".." +:+ after) as [after ->].
    { destruct s as [|c s]; [done|]. destruct c as [[] [] [] [] [] [] [] []]; try done. destruct s as [|d s]; [done|].
      destruct d as [[] [] [] [] [] [] [] []]; try done. by exists s. }
    exists after. split; [done|]. cbn -[is_slash] in H. destruct after as [|c r]; [by left|]. right. apply orb_true_iff in H as [H|H].
    + right. exists c, r. by rewrite <- is_slash_in.
    + apply andb_true_iff in H as [->%Ascii.eqb_eq ->%String.eqb_eq]. by left.
  - intros (after & -> & [->|[->|(c & a & -> & H)]]); [done..|]. apply is_slash_in in H. change (is_slash c || (Ascii.eqb c newline_char && (a =? "")%string) = true). by rewrite H.
Qed.

Lemma dotdot_after_is s : dotdot_after s = true <-> exists b c after, s = b +:+ String c (".." +:+ after) /\
  c ∈ [slash; backslash_char; "="%char] /\ ends_component after.
Proof.
  induction s as [|c s IH]; cbn [dotdot_after].
  { split; [done|]. intros ([|] & ? & ? & [=] & _). }
  rewrite orb_true_iff, IH, andb_true_iff, orb_true_iff, Ascii.eqb_eq, dotdot_at_is, is_slash_in. split.
  - intros [[C (after & -> & E)]|(b & d & after & -> & C & E)].
    + exists "", c, after. split_and!; [done|set_solver|done].
    + exists (String c b), d, after. split_and!; [by rewrite sapp_cons|done|done].
  - intros (b & d & after & E & C & X). destruct b as [|e b].
    + left. injection E as -> ->. split; [set_solver|]. by exists after.
    + right. injection E as -> ->. by exists b, d, after.
Qed.

Lemma has_dotdot_is t : _has_dotdot_path_segment t = true <-> climbs t.
Proof.
  unfold _has_dotdot_path_segment, climbs. rewrite andb_true_iff, negb_true_iff, orb_true_iff, dotdot_at_is, dotdot_after_is.
  apply and_iff_compat_l. split.
  - intros [(after & -> & E)|(b & c & after & -> & C & E)]; [exists "", after; split_and!; [done|by left|done]|].
    exists (b +:+ char c), after. split_and!; [by rewrite sapp_assoc|right; by exists b, c|done].
  - intros (before & after & -> & [->|(b & c & -> & C)] & E); [left; by exists after|right; exists b, c, after].
    split_and!; [by rewrite sapp_assoc|done|done].
Qed.

Lemma has_dotdot_word t : _has_dotdot_path_segment t = true ->
  forall l, Forall (fun x => _has_dotdot_path_segment x = false) l -> one_of l t = false.
Proof. intros H l F. unfold one_of. case_bool_decide as B; [|done]. rewrite Forall_forall in F. by rewrite (F t B) in H. Qed.

Lemma dotdot_token_is t : dotdot_token t = true <-> climbs t.
Proof.
  rewrite <- has_dotdot_is. unfold dotdot_token. rewrite !andb_true_iff, !negb_true_iff. split; [by intros [_ ?]|]. intros H. split; [|done].
  split; apply (has_dotdot_word t H); repeat constructor.
Qed.

(** *** The text *)

Section text.
Context (alnum : string -> bool).

Lemma after_word_last inner before : after_word alnum (rev inner ++ before) =
  match last inner with Some c => is_word alnum c | None => after_word alnum before end.
Proof. destruct inner as [|c inner _] using rev_ind; [done|]. by rewrite rev_app_distr, last_snoc. Qed.

Lemma begins_word_is before : begins_word alnum before <-> after_word alnum (rev before) = false.
Proof.
  rewrite <- (app_nil_r (rev before)), after_word_last. unfold begins_word. destruct (last before) as [c|]; [|done].
  split; [by intros H; apply H|by intros H ? [= <-]].
Qed.

Lemma cwd_word_is before l : cwd_word_at alnum before l = true <->
  after_word alnum before = false /\ exists w after, l = w ++ after /\ w ∈ [["c"; "d"]; ["p"; "u"; "s"; "h"; "d"]] /\
    (forall c r, after = c :: r -> is_word alnum c = false).
Proof.
  unfold cwd_word_at. rewrite andb_true_iff, negb_true_iff, existsb_elem.
  apply and_iff_compat_l. split.
  - intros (w & Hw & H). apply andb_true_iff in H as [P%is_prefix_spec E]. destruct P as [after ->]. exists w, after. split_and!; [done..|].
    intros c r ->. rewrite drop_app_length in E. by destruct (is_word alnum c).
  - intros (w & after & -> & Hw & E). exists w. split; [done|]. apply andb_true_iff. split; [apply is_prefix_spec; by exists after|].
    rewrite drop_app_length. destruct after as [|c r]; [done|]. by rewrite (E c r).
Qed.

Lemma cwd_word_in_is l : forall before, cwd_word_in alnum before l = true <->
  exists inner w after, l = inner ++ w ++ after /\ ")" ∉ inner /\ w ∈ [["c"; "d"]; ["p"; "u"; "s"; "h"; "d"]] /\
    after_word alnum (rev inner ++ before) = false /\ (forall c r, after = c :: r -> is_word alnum c = false).
Proof.
  induction l as [|c l IH]; intros before; cbn [cwd_word_in]; rewrite orb_true_iff, cwd_word_is.
  - split; [intros [(A & w & after & E & Hw & B)|[=]]; exists [], w, after; split_and!; try done; by intros ?%elem_of_nil|].
    intros (inner & w & after & E & _ & Hw & _). destruct inner; [|done]. cbn in E. destruct w; [|done]. set_solver.
  - rewrite andb_true_iff, negb_true_iff, IH, String.eqb_neq. split.
    + intros [(A & w & after & E & Hw & B)|(N & inner & w & after & -> & Hi & Hw & A & B)].
      * exists [], w, after. split_and!; try done. by intros ?%elem_of_nil.
      * exists (c :: inner), w, after. split_and!; try done; [by intros [?|?]%elem_of_cons|]. cbn. by rewrite <- app_assoc.
    + intros (inner & w & after & E & Hi & Hw & A & B). destruct inner as [|d inner]; [left; split; [done|]; by exists w, after|].
      right. injection E as <- ->. apply not_elem_of_cons in Hi as [N Hi]. split; [done|]. exists inner, w, after. split_and!; try done.
      cbn in A. by rewrite <- app_assoc in A.
Qed.

Lemma substitution_is text : substitution_changes_directory alnum text = true <-> moves_in_substitution alnum text.
Proof.
  unfold moves_in_substitution. induction text as [|c r IH].
  { split; [done|]. intros ([|] & ? & ? & ? & [=] & _). }
  cbn [substitution_changes_directory]. rewrite orb_true_iff, IH. split.
  - intros [H|(b & i & w & a & -> & H)]; [|by exists (c :: b), i, w, a]. apply andb_true_iff in H as [->%String.eqb_eq H].
    destruct r as [|d r]; [done|]. apply andb_true_iff in H as [->%String.eqb_eq H]. apply cwd_word_in_is in H as (i & w & a & -> & Hi & Hw & A & B).
    exists [], i, w, a. split_and!; try done. intros x X. by rewrite after_word_last, X in A.
  - intros (b & i & w & a & E & Hi & Hw & A & B). destruct b as [|d b]; [|right; injection E as <- ->; by exists b, i, w, a].
    left. injection E as -> ->. apply andb_true_iff. split; [done|]. apply andb_true_iff. split; [done|]. apply cwd_word_in_is.
    exists i, w, a. split_and!; try done. rewrite after_word_last. destruct (last i) eqn:L; [by apply A|done].
Qed.

(** *** File URLs *)

Lemma finditer_none try l : forall pos before, finditer try 0 pos before l = [] <->
  forall a b, l = a ++ b -> b <> [] -> try (rev a ++ before) b = None.
Proof.
  induction l as [|c l IH]; intros pos before.
  { split; [|done]. intros _ a b E N. destruct a; cbn in E; by subst. }
  cbn [finditer]. split.
  - destruct (try before (c :: l)) eqn:T; [done|]. intros H a b E N. destruct a as [|d a]; [cbn in E; by subst|].
    injection E as <- ->. cbn. rewrite <- app_assoc. by apply (proj1 (IH (S pos) (c :: before)) H).
  - intros H. pose proof (H [] (c :: l) eq_refl ltac:(done)) as T. cbn in T. rewrite T. apply IH. intros a b -> N. specialize (H (c :: a) b eq_refl N). cbn in H.
    by rewrite <- app_assoc in H.
Qed.

Lemma letters_is w : forall l r, letters w l = Some r <-> exists p, l = p ++ r /\ map letter p = map Some w.
Proof.
  induction w as [|a w IH]; intros l r; cbn [letters].
  - split; [intros [= ->]; by exists []|]. by intros ([|] & -> & [=]).
  - destruct l as [|c l]; [split; [done|]; by intros ([|] & E & M); [|cbn in *]|]. case_bool_decide as B.
    + rewrite IH. split; [intros (p & -> & M); exists (c :: p); cbn; by rewrite B, M|].
      intros ([|d p] & E & M); [done|]. injection E as <- ->. injection M as _ M. by exists p.
    + split; [done|]. intros ([|d p] & E & M); [done|]. injection E as <- ->. by injection M.
Qed.

Lemma file_url_at_is before l : is_Some (file_url_at alnum before l) <->
  after_word alnum before = false /\ exists f i x e c r, l = f :: i :: x :: e :: ":" :: "/" :: "/" :: c :: r /\
    map letter [f; i; x; e] = map Some ["f"; "i"; "l"; "e"]%char /\ is_space c = false.
Proof.
  unfold file_url_at. destruct (after_word alnum before) eqn:A; [split; [by intros [? [=]]|by intros [[=] _]]|]. split.
  - destruct (letters _ l) as [r|] eqn:E; [|by intros [? [=]]]. apply letters_is in E as (p & -> & M).
    destruct (is_list_prefix [":"; "/"; "/"] r) eqn:P; [|by intros [? [=]]]. apply is_prefix_spec in P as [r' ->]. cbn [drop app].
    intros [n H]. split; [done|]. destruct p as [|f [|i [|x [|e [|]]]]]; try (by inversion M). destruct r' as [|c r']; [done|].
    exists f, i, x, e, c, r'. split_and!; [done..|]. cbn in H. by destruct (is_space c).
  - intros [_ (f & i & x & e & c & r & -> & M & C)].
    rewrite (proj2 (letters_is ["f"; "i"; "l"; "e"]%char _ (":" :: "/" :: "/" :: c :: r))) by by exists [f; i; x; e].
    cbn. rewrite C. by eexists.
Qed.

Lemma file_url_is text : finditer (file_url_at alnum) 0 0 [] text = [] <-> ~ names_file_url alnum text.
Proof.
  rewrite finditer_none. unfold names_file_url. split.
  - intros H (b & f & i & x & e & c & r & -> & B & M & C). apply begins_word_is in B.
    assert (is_Some (file_url_at alnum (rev b ++ []) (f :: i :: x :: e :: ":" :: "/" :: "/" :: c :: r))) as [n S].
    { apply file_url_at_is. rewrite app_nil_r. split; [done|]. by exists f, i, x, e, c, r. }
    by rewrite (H b _ eq_refl) in S.
  - intros H a b -> N. destruct (file_url_at alnum (rev a ++ []) b) eqn:E; [|done]. exfalso. apply H.
    assert (is_Some (file_url_at alnum (rev a ++ []) b)) as S by by rewrite E. rewrite app_nil_r in S.
    apply file_url_at_is in S as [A (f & i & x & e & c & r & -> & M & C)]. exists a, f, i, x, e, c, r. split_and!; [done| |done|done].
    by apply begins_word_is.
Qed.

(** *** Absolute paths *)

#[local] Abbreviation path_chars := (Forall (fun c => path_char c = true)).
#[local] Abbreviation ended after := (forall c r, after = c :: r -> path_char c = false).

Lemma run_is l : exists body after, l = body ++ after /\ path_chars body /\ ended after /\ run_length path_char l = length body.
Proof.
  induction l as [|c l (b & a & -> & F & E & R)]; [exists [], []; by split_and!|]. cbn [run_length]. destruct (path_char c) eqn:C.
  - exists (c :: b), a. split_and!; [done|by constructor|done|]. cbn. by rewrite R.
  - exists [], (c :: b ++ a). split_and!; [done|done| |done]. by intros ? ? [= <- _].
Qed.

Lemma run_unique b : forall b' a a', b ++ a = b' ++ a' -> path_chars b -> path_chars b' -> ended a -> ended a' -> b = b' /\ a = a'.
Proof.
  induction b as [|c b IH]; intros [|c' b'] a a' E F F' N N'; cbn in E.
  - done.
  - apply Forall_cons in F' as [C _]. by rewrite (N c' (b' ++ a') E) in C.
  - apply Forall_cons in F as [C _]. by rewrite (N' c (b ++ a) (eq_sym E)) in C.
  - injection E as <- E. apply Forall_cons in F as [_ F]. apply Forall_cons in F' as [_ F']. by destruct (IH b' a a' E F F' N N') as [-> ->].
Qed.

Lemma slash_starts_is before : slash_starts alnum (rev before) <->
  negb (after_word alnum before) && negb (match before with b :: _ => (b =? ":")%string | [] => false end) &&
    negb (is_list_prefix ["/"; ":"] before) = true.
Proof.
  rewrite !andb_true_iff, !negb_true_iff. unfold slash_starts. split.
  - intros [H N]. split; [split|].
    + destruct before as [|b r]; [done|]. cbn in H. rewrite last_snoc in H. by apply H.
    + destruct before as [|b r]; [done|]. cbn in H. rewrite last_snoc in H. apply String.eqb_neq. by apply H.
    + destruct (is_list_prefix ["/"; ":"] before) eqn:P; [|done]. apply is_prefix_spec in P as [r ->]. cbn in N.
      destruct (N (rev r)). by rewrite <- app_assoc.
  - intros [[A B] C]. split.
    + destruct before as [|b r]; [done|]. cbn. rewrite last_snoc. intros ? [= <-]. split; [done|]. by apply String.eqb_neq.
    + intros q E. assert (before = ["/"; ":"] ++ rev q) as -> by by rewrite <- (rev_involutive before), E, rev_app_distr.
      by rewrite (proj2 (is_prefix_spec ["/"; ":"] _)) in C by (by exists (rev q)).
Qed.

Lemma absolute_path_at_is before l n : absolute_path_at alnum before l = Some n <->
  exists body after, l = "/" :: body ++ after /\ body <> [] /\ path_chars body /\ ended after /\
    n = S (length body) /\ slash_starts alnum (rev before).
Proof.
  setoid_rewrite slash_starts_is. unfold absolute_path_at. destruct l as [|c r]; [split; [done|by intros (? & ? & [=] & _)]|].
  destruct (run_is r) as (b & a & -> & F & E & R). split.
  - destruct (_ && _) eqn:X; [|done]. rewrite R. rewrite <- !andb_assoc in X. apply andb_true_iff in X as [->%String.eqb_eq X].
    destruct b as [|x b]; [done|]. cbn [length]. intros [= <-]. exists (x :: b), a. rewrite <- andb_assoc. split_and!; try done.
  - intros (b' & a' & [= -> Eq] & N & F' & E' & -> & X). rewrite <- !andb_assoc in *. rewrite X, R. cbn [String.eqb andb].
    destruct (run_unique b b' a a' Eq F F' E E') as [<- _]. by destruct b.
Qed.

(** No path has begun in the run of characters before a position; or one has, and
    it ends in [k] characters. *)
Definition none_begun (before l : list string) : Prop :=
  forall b inner, rev before = b ++ "/" :: inner -> path_chars inner -> slash_starts alnum b -> ended l.
Definition begun (k : nat) (before l : list string) : Prop :=
  exists b inner body after, rev before = b ++ "/" :: inner /\ path_chars inner /\ slash_starts alnum b /\
    l = body ++ after /\ length body = k /\ path_chars body /\ ended after.

Lemma begun_over before l : begun 0 before l -> none_begun before l.
Proof. intros (b & i & body & a & _ & _ & _ & -> & L & _ & E) ? ? _ _ _. by destruct body. Qed.

Lemma begun_next k c before l : begun (S k) before (c :: l) -> begun k (c :: before) l.
Proof.
  intros (b & i & body & a & R & F & S & E & L & F' & N). destruct body as [|d body]; [done|]. injection E as <- ->.
  apply Forall_cons in F' as [C F']. exists b, (i ++ [c]), body, a. split_and!; try done.
  - cbn. rewrite R. by rewrite <- app_assoc.
  - apply Forall_app. split; [done|by repeat constructor].
  - by injection L.
Qed.

(** What the code finds from a position on is what begins there. *)
Lemma finditer_paths l : forall skip before, (skip = 0%nat -> none_begun before l) -> (skip <> 0%nat -> begun skip before l) ->
  forall pos n, (pos, n) ∈ finditer (absolute_path_at alnum) skip (length before) before l <->
    exists b p, path_word alnum (rev before ++ l) b p /\ pos = length b /\ n = length p /\ (length before <= length b)%nat.
Proof.
  induction l as [|c l IH]; intros skip before I0 I1 pos n.
  { cbn. split; [by intros ?%elem_of_nil|]. intros (b & p & (body & after & E & -> & _) & _ & _ & L). exfalso.
    rewrite app_nil_r in E. apply (f_equal length) in E. rewrite length_rev, !length_app in E. cbn in E. lia. }
  assert (rev before ++ c :: l = rev (c :: before) ++ l) as Text by (cbn; by rewrite <- app_assoc).
  assert (forall b p, path_word alnum (rev before ++ c :: l) b p -> length before = length b -> b = rev before) as Here.
  { intros b p (body & after & E & _) L. apply (f_equal (take (length b))) in E. rewrite <- L in E at 1.
    rewrite <- length_rev, take_app_length in E. by rewrite take_app_length in E. }
  destruct skip as [|k].
  - specialize (I0 eq_refl). cbn [finditer]. destruct (absolute_path_at alnum before (c :: l)) as [m|] eqn:T.
    + apply absolute_path_at_is in T as (body & after & E & N & F & X & -> & Sl). injection E as -> ->.
      assert (path_word alnum (rev before ++ "/" :: body ++ after) (rev before) ("/" :: body)) as P.
      { exists body, after. split_and!; try done. intros b i R Fi Sb. by specialize (I0 b i R Fi Sb "/" (body ++ after) eq_refl). }
      rewrite elem_of_cons. cbn [pred]. rewrite Text. change (S (length before)) with (length ("/" :: before)).
      rewrite (IH (length body) ("/" :: before)).
      * split.
        -- intros [[= -> ->]|(b & p & Pb & -> & -> & L)]; [|exists b, p; rewrite <- Text; split_and!; try done; [by rewrite Text|cbn in L; lia]].
           exists (rev before), ("/" :: body). rewrite <- Text. split_and!; [done|by rewrite length_rev|done|by rewrite length_rev].
        -- intros (b & p & Pb & -> & -> & L). destruct (decide (length before = length b)) as [Eb|Nb]; [left|right; exists b, p; split_and!; [done..|cbn; lia]].
           rewrite <- Text in Pb. pose proof (Here b p Pb Eb) as ->. destruct Pb as (body' & after' & E & -> & N' & F' & X' & _).
           apply app_inv_head in E. injection E as E. destruct (run_unique body body' after after' E F F' X X') as [-> _]. by rewrite length_rev.
      * intros Z. by destruct body.
      * intros _. exists (rev before), [], body, after. by split_and!.
    + rewrite Text. change (S (length before)) with (length (c :: before)). rewrite (IH 0%nat (c :: before)).
      * split; [intros (b & p & Pb & -> & -> & L); exists b, p; split_and!; try done; cbn in L; lia|].
        intros (b & p & Pb & -> & -> & L). exists b, p. split_and!; try done. cbn.
        destruct (decide (length before = length b)) as [Eb|Nb]; [exfalso|lia]. rewrite <- Text in Pb. pose proof (Here b p Pb Eb) as ->.
        destruct Pb as (body & after & E & -> & N & F & X & Sl & _). apply app_inv_head in E.
        assert (absolute_path_at alnum before (c :: l) = Some (Datatypes.S (length body))) as Y; [|congruence].
        apply absolute_path_at_is. rewrite E. by exists body, after.
      * intros _ b i R Fi Sb. cbn in R. destruct i as [|x i _] using rev_ind.
        -- apply app_inj_tail in R as [<- ->]. destruct (run_is l) as (body & after & -> & F & X & _).
           destruct body as [|y body]; [done|]. exfalso.
           assert (absolute_path_at alnum before ("/" :: (y :: body) ++ after) = Some (S (length (y :: body)))) as Y; [|congruence].
           apply absolute_path_at_is. by exists (y :: body), after.
        -- rewrite app_comm_cons, app_assoc in R. apply app_inj_tail in R as [R ->]. apply Forall_app in Fi as [Fi Fx].
           apply Forall_cons in Fx as [Fx _]. by rewrite (I0 b i R Fi Sb x l eq_refl) in Fx.
      * done.
  - specialize (I1 ltac:(done)). cbn [finditer]. rewrite Text. change (S (length before)) with (length (c :: before)).
    rewrite (IH k (c :: before)).
    + split; [intros (b & p & Pb & -> & -> & L); exists b, p; split_and!; try done; cbn in L; lia|].
      intros (b & p & Pb & -> & -> & L). exists b, p. split_and!; try done. cbn.
      destruct (decide (length before = length b)) as [Eb|Nb]; [exfalso|lia]. rewrite <- Text in Pb. pose proof (Here b p Pb Eb) as ->.
      destruct Pb as (_ & _ & _ & _ & _ & _ & _ & _ & None). destruct I1 as (b & i & _ & _ & R & Fi & Sb & _). by apply (None b i).
    + intros ->. by apply begun_over, begun_next.
    + intros _. by apply begun_next.
Qed.

Lemma in_url_is text position : _is_in_spans position (_non_file_url_spans alnum text) = true <-> in_url alnum text position.
Proof.
  unfold _is_in_spans, _non_file_url_spans, in_url. rewrite existsb_elem. split.
  - intros (m & [M N]%filter_elem & B). exists m. split; [done|]. apply negb_true_iff in N. split; [done|].
    apply andb_true_iff in B as [?%Nat.leb_le ?%Nat.ltb_lt]. lia.
  - intros (m & M & N & B). exists m. split; [apply filter_elem; split; [done|by rewrite N]|].
    apply andb_true_iff. split; [apply Nat.leb_le|apply Nat.ltb_lt]; lia.
Qed.

Lemma paths_are h text :
  Forall (loop_path_ok alnum h (_get_mcp_allowed_paths h) text) (finditer (absolute_path_at alnum) 0 0 [] text) <->
  forall before p, path_word alnum text before p -> path_ok alnum h text before p.
Proof.
  assert (forall pos n, (pos, n) ∈ finditer (absolute_path_at alnum) 0 0 [] text <->
    exists b p, path_word alnum text b p /\ pos = length b /\ n = length p) as M.
  { intros pos n. change 0%nat with (@length string []) at 2. rewrite (finditer_paths text 0 []).
    - cbn. split; intros (b & p & P & ? & ?); exists b, p; [naive_solver|]. split_and!; [done..|lia].
    - intros _ b i R. by destruct b.
    - done. }
  assert (forall before p, path_word alnum text before p -> text_at text (length before, length p) = text_of p) as T.
  { intros b p (body & after & -> & _). unfold text_at. cbn. by rewrite drop_app_length, take_app_length. }
  assert (forall before p, path_word alnum text before p ->
    loop_path_ok alnum h (_get_mcp_allowed_paths h) text (length before, length p) <-> path_ok alnum h text before p) as Ok.
  { intros b p P. unfold loop_path_ok, path_ok, safe_path. rewrite T by done. cbn. rewrite in_url_is, allowed_is. tauto. }
  rewrite Forall_forall. split.
  - intros H b p P. apply Ok; [done|]. apply H, M. by exists b, p.
  - intros H [pos n] (b & p & P & -> & ->)%M. by apply Ok, H.
Qed.
End text.

Lemma redirections_are l : redirections_ok l = loop_redirections_ok l.
Proof. reflexivity. Qed.

Lemma no_climbs tokens : existsb dotdot_token tokens = false <-> forall t, t ∈ tokens -> ~ climbs t.
Proof.
  setoid_rewrite <- dotdot_token_is. setoid_rewrite not_true_iff_false. split.
  - intros E t Ht. destruct (dotdot_token t) eqn:X; [|done]. exfalso.
    assert (existsb dotdot_token tokens = true) as Y by (apply existsb_elem; by exists t). congruence.
  - intros H. destruct (existsb dotdot_token tokens) eqn:X; [|done]. apply existsb_elem in X as [t [Ht X]]. by rewrite (H t Ht) in X.
Qed.

(** What the code makes of the paths it does not allow. *)
Lemma unsafe_end alnum h text :
  andthen (unsafe_paths h (_get_mcp_allowed_paths h) text (_non_file_url_spans alnum text) (finditer (absolute_path_at alnum) 0 0 [] text))
    (fun l => match stable_sort code_point_order (fromkeys l) with
              | [] => Good tt
              | unsafe => Bad (permission ("Unsafe absolute paths in command: " +:+ join ", " unsafe +:+ ". Use paths under " +:+ VIRTUAL_PATH_PREFIX))
              end) = Good tt <->
  Forall (loop_path_ok alnum h (_get_mcp_allowed_paths h) text) (finditer (absolute_path_at alnum) 0 0 [] text).
Proof.
  rewrite <- unsafe_paths_none, andthen_good. split.
  - intros [l [-> E]]. destruct (stable_sort code_point_order (fromkeys l)) eqn:S; [|done]. by apply sorted_none, distinct_none in S as ->.
  - intros E. by exists [].
Qed.

Lemma validate_refusal alnum h command td : refusal (validate_local_bash_command_paths alnum h command (Some td)).
Proof.
  unfold validate_local_bash_command_paths. destruct (finditer (file_url_at alnum) 0 0 [] (chars command)) as [|m ms]; [|done].
  apply refusal_andthen.
  - unfold _validate_local_bash_shell_tokens. destruct (substitution_changes_directory _ _); [done|]. destruct (existsb _ _); [done|].
    apply loop_refusal.
  - intros _. apply refusal_andthen; [apply unsafe_refusal|]. intros l. by destruct (stable_sort _ _).
Qed.


Definition example_command : string := "mkdir -p /mnt/user-data/outputs && cd /mnt/user-data/workspace && cat notes.txt > /mnt/user-data/outputs/n.txt".


(** A redirection before a command hides the command: the word behind it is taken
    for the command, so [cd] is not checked. *)
Lemma redirection_hides_cd :
  validate_local_bash_command_paths (fun _ => false) example_host "cd ~" (Some example_thread) = Bad (unsafe_cwd "cd ~") /\
  validate_local_bash_command_paths (fun _ => false) example_host ">out.txt cd ~" (Some example_thread) = Good tt.
Proof. by vm_compute. Qed.

(** Of [command] and an option the option is taken for the command. *)
Lemma wrapper_option_hides_cd :
  validate_local_bash_command_paths (fun _ => false) example_host "command cd ~" (Some example_thread) = Bad (unsafe_cwd "cd ~") /\
  validate_local_bash_command_paths (fun _ => false) example_host "command -p cd ~" (Some example_thread) = Good tt.
Proof. by vm_compute. Qed.

(** C32: what is put in front of a command is read as it was meant, whatever the
    workspace is called and whatever id the channel reports: the shell sees
    [cd], the workspace and [&&], or the export of just that id and [;], and
    behind it the words of the command itself. *)
Theorem prefixes_read_back command :
  (forall td w, nonempty (workspace_path td) = Some w ->
     words (_apply_cwd_prefix command (Some td)) = option_map (app ["cd"; w; "&&"]) (words command)) /\
  (forall context id, get "channel_user_id" context = Some (JStr id) -> 0 < len id <= _CHANNEL_USER_ID_MAX_LEN ->
     exists prefix, _channel_identity_prefix (Some context) = Some prefix /\
       words (prefix +:+ command) = option_map (app ["export"; CHANNEL_USER_ID_ENV +:+ "=" +:+ id; ";"]) (words command)).
Proof.
  split.
  - intros td w W. unfold _apply_cwd_prefix. rewrite W. unfold words at 1.
    change ("cd " +:+ quote w +:+ " && " +:+ command) with ("cd" +:+ String " " (quote w +:+ " && " +:+ command)).
    rewrite (lex_plain_fresh "cd") by done.
    rewrite lex_space by (by right). unfold words at 1. destruct (lex_quote_fresh w (" && " +:+ command)) as [q [E Q]]. rewrite E.
    change (" && " +:+ command) with (String " " (String "&" (String "&" (String " " command)))). rewrite lex_space by done.
    unfold words at 1. rewrite !lex_cons. cbn -[lex option_map]. unfold words. by destruct (lex command fresh).
  - intros context id G L. unfold _channel_identity_prefix. rewrite G.
    assert ((0 <? len id) && (len id <=? _CHANNEL_USER_ID_MAX_LEN) = true) as -> by lia. eexists. split; [done|].
    rewrite !sapp_assoc. unfold words at 1.
    match goal with |- context [lex ("export " +:+ ?x)] => change ("export " +:+ x) with ("export" +:+ String " " x) end.
    rewrite (lex_plain_fresh "export") by done. rewrite lex_space by (by right).
    unfold words at 1. rewrite (lex_plain_fresh CHANNEL_USER_ID_ENV) by done. rewrite (lex_plain "=") by done.
    destruct (lex_quote id (CHANNEL_USER_ID_ENV +:+ "=") false ("; " +:+ command)) as [q [E Q]]. rewrite E.
    change ("; " +:+ command) with (String ";" (String " " command)). rewrite lex_semicolon by (right; by destruct id).
    unfold words. rewrite sapp_assoc. by destruct (lex command fresh).
Qed.

Lemma prefixes_read_back_witness :
  words (_apply_cwd_prefix "ls -l" (Some {| workspace_path := Some "/srv/it's here"; uploads_path := None; outputs_path := None |})) =
    Some ["cd"; "/srv/it's here"; "&&"; "ls"; "-l"] /\
  exists prefix, _channel_identity_prefix (Some [("channel_user_id", JStr "u; rm -rf /")]) = Some prefix /\
    words (prefix +:+ "ls") = Some ["export"; "DEERFLOW_CHANNEL_USER_ID=u; rm -rf /"; ";"; "ls"].
Proof.
  destruct (prefixes_read_back "ls -l") as [P _]. destruct (prefixes_read_back "ls") as [_ Q]. split.
  - rewrite (P _ "/srv/it's here") by done. by vm_compute.
  - destruct (Q [("channel_user_id", JStr "u; rm -rf /")] "u; rm -rf /" eq_refl) as [p [E W]]; [by vm_compute|].
    exists p. split; [done|]. rewrite W. by vm_compute.
Defined.

End BashSafety.
