(* ===== verification/SandboxTools.v ===== *)
(** * The sandbox tools

    [bash], [ls], [glob], [grep], [read_file], [write_file] and [str_replace] of
    [deerflow/sandbox/tools.py], with the lazy acquisition of a sandbox, as
    programs of [SandboxCalls].  A tool always answers with a text. *)
From S2P Require Import Prelude Json Errors Text Slices JsonText RunEvents PosixPaths Shlex OrderedDict SandboxPaths SandboxOutput SandboxCalls BashGuard.
Import Json Text Slices PosixPaths OrderedDict.OrderedDict SandboxPaths SandboxOutput SandboxCalls BashGuard.

Module SandboxTools.

(** ** Configuration *)

Record SandboxConfig := {
  use : string;
  allow_host_bash : bool;
  bash_output_max_chars : Z;
  read_file_output_max_chars : Z;
  ls_output_max_chars : Z;
  bash_command_timeout : Z
}.

(** What the tools ask beyond the host: the application's configuration ([None]
    where it cannot be loaded, with the failure), the tools' configured limits,
    the environment variable of the size limit and whether this is Windows. *)
Record Settings := {
  app_config : option (option SandboxConfig);
  config_failure : failure;
  tool_max_results : string -> option Z;
  write_file_max_bytes : option string;
  is_windows : bool
}.

Definition _LOCAL_SANDBOX_PROVIDER_MARKERS : list string :=
  ["deerflow.sandbox.local:LocalSandboxProvider"; "deerflow.sandbox.local.local_sandbox_provider:LocalSandboxProvider"].
Definition LOCAL_HOST_BASH_DISABLED_MESSAGE : string :=
  "Host bash execution is disabled for LocalSandboxProvider because it is not a secure " +:+
  "sandbox boundary. Switch to AioSandboxProvider for isolated bash access, or set " +:+
  "sandbox.allow_host_bash: true only in a fully trusted local environment.".

Definition ends_with (suffix s : string) : bool :=
  let n := String.length suffix in let k := String.length s in
  (n <=? k)%nat && (String.substring (k - n) n s =? suffix)%string.

(** [uses_local_sandbox_provider] *)
Definition uses_local_sandbox_provider (sandbox_use : string) : bool :=
  bool_decide (sandbox_use ∈ _LOCAL_SANDBOX_PROVIDER_MARKERS) ||
  ends_with ":LocalSandboxProvider" sandbox_use && contains "deerflow.sandbox.local" sandbox_use.
Definition is_host_bash_allowed (c : option SandboxConfig) : bool :=
  match c with
  | None => false
  | Some s => negb (uses_local_sandbox_provider (use s)) || allow_host_bash s
  end.

Definition _DEFAULT_GLOB_MAX_RESULTS : Z := 200.
Definition _MAX_GLOB_MAX_RESULTS : Z := 1000.
Definition _DEFAULT_GREP_MAX_RESULTS : Z := 100.
Definition _MAX_GREP_MAX_RESULTS : Z := 500.

Definition _clamp_max_results (value default upper_bound : Z) : Z := if value <=? 0 then default else Z.min value upper_bound.
Definition _resolve_max_results (configured requested default upper_bound : Z) : Z :=
  Z.min (_clamp_max_results requested default upper_bound) (_clamp_max_results configured default upper_bound).

Definition _WRITE_FILE_CONTENT_MAX_BYTES : Z := 80 * 1024.
Definition _effective_write_file_max_bytes (raw : option string) : Z :=
  match raw with
  | None => _WRITE_FILE_CONTENT_MAX_BYTES
  | Some r => default _WRITE_FILE_CONTENT_MAX_BYTES (int_of_text r)
  end.

(** ** The runtime of a tool *)

(** The [sandbox] entry of the state with its id, if it has one. *)
Record State := { sandbox : option (option string); thread_data : option ThreadData; thread_directories_created : bool }.
Record Runtime := { state : option State; context : option dict; config_thread_id : option string }.

Definition get_thread_data (rt : Runtime) : option ThreadData := match state rt with Some s => thread_data s | None => None end.

Definition sandbox_id_of (rt : Runtime) : option string :=
  match state rt with Some s => match sandbox s with Some o => o | None => None end | None => None end.

Definition is_local_sandbox (rt : Runtime) : bool :=
  match sandbox_id_of rt with Some id => (id =? "local")%string || starts_with "local:" id | None => false end.

(** [runtime.context["sandbox_id"] = sandbox_id] *)
Definition with_sandbox_in_context (id : string) (rt : Runtime) : Runtime :=
  {| state := state rt; context := option_map (set_key "sandbox_id" (JStr id)) (context rt);
     config_thread_id := config_thread_id rt |}.
Definition with_state (s : State) (rt : Runtime) : Runtime :=
  {| state := Some s; context := context rt; config_thread_id := config_thread_id rt |}.

(** [runtime.state["sandbox"] = {"sandbox_id": sandbox_id}] *)
Definition with_sandbox (id : string) (rt : Runtime) : Runtime :=
  match state rt with
  | Some s => with_state {| sandbox := Some (Some id); thread_data := thread_data s;
                            thread_directories_created := thread_directories_created s |} rt
  | None => rt
  end.
Definition with_directories (rt : Runtime) : Runtime :=
  match state rt with
  | Some s => with_state {| sandbox := sandbox s; thread_data := thread_data s; thread_directories_created := true |} rt
  | None => rt
  end.

Definition sandbox_not_found (m : string) (id : string) : failure :=
  {| kind := SandboxError; type_name := "SandboxNotFoundError";
     message := if (id =? "")%string then m else m +:+ " (sandbox_id=" +:+ id +:+ ")" |}.

Definition context_thread_id (rt : Runtime) : option string :=
  match context rt with
  | Some d => match get "thread_id" d with Some (JStr t) => Some t | _ => config_thread_id rt end
  | None => config_thread_id rt
  end.

(** A tool over the runtime it is given, which it changes in place. *)
Abbreviation tool := (M Runtime).

Definition acquire_sandbox (user : string) : tool string :=
  thread_id ← gets context_thread_id;
  match thread_id with
  | None => throw (runtime_error "Thread ID not available in runtime context")
  | Some t =>
      id ← calling (do_call (Acquire t user));
      _ ← modify (with_sandbox id);
      found ← asking (do_call (GetSandbox id));
      if (found : bool) then _ ← modify (with_sandbox_in_context id); mret id
      else throw (sandbox_not_found "Sandbox not found after acquisition" id)
  end.

Definition ensure_sandbox_initialized (user : string) : tool string :=
  st ← gets state;
  match st with
  | None => throw (runtime_error "Tool runtime state not available")
  | Some _ =>
      known ← gets sandbox_id_of;
      match known with
      | Some id =>
          found ← asking (do_call (GetSandbox id));
          if (found : bool) then _ ← modify (with_sandbox_in_context id); mret id else acquire_sandbox user
      | None => acquire_sandbox user
      end
  end.

(** [os.makedirs] of each of the directories that is known. *)
Fixpoint make_dirs (dirs : list string) : tool unit :=
  match dirs with
  | [] => mret tt
  | d :: dirs => _ ← calling (do_call (MakeDirs d)); make_dirs dirs
  end.

Definition directories_missing (rt : Runtime) : option ThreadData :=
  match state rt with
  | Some s => if is_local_sandbox rt && negb (thread_directories_created s) then thread_data s else None
  | None => None
  end.

Definition ensure_thread_directories_exist : tool unit :=
  missing ← gets directories_missing;
  match missing with
  | Some td => _ ← make_dirs (omap nonempty (thread_dirs td)); modify with_directories
  | None => mret tt
  end.

(** Both, as every tool begins. *)
Definition prepared (user : string) : tool string :=
  id ← ensure_sandbox_initialized user; _ ← ensure_thread_directories_exist; mret id.

Section tools.
(** [\w] beyond ASCII; the user the run acts for. *)
Context (alnum : string -> bool) (h : Host) (cfg : Settings) (user : string).

Definition error_text (e : failure) : string := "Error: " +:+ message e.

(** [except Exception as e] *)
Definition unexpected (what : string) (e : failure) (rt : Runtime) : string :=
  "Error: Unexpected error " +:+ what +:+ ": " +:+ _sanitize_error h e (is_local_sandbox rt) (get_thread_data rt).

Definition max_chars (f : SandboxConfig -> Z) (d : Z) : Z := match app_config cfg with Some (Some c) => f c | _ => d end.

Definition disabled_text (p : string) : string :=
  "Error: Skill '" +:+ (match _extract_skill_name_from_skills_path h p with
                        | Some s => if (s =? "")%string then "unknown" else s
                        | None => "unknown"
                        end) +:+
  "' is disabled. Access to its files is blocked. Enable the skill in settings before using it.".

(** [thread_data] of the tools that mask: only with a local sandbox. *)
Definition masked (rt : Runtime) (s : string) : string :=
  if is_local_sandbox rt
  then match get_thread_data rt with Some td => mask_local_paths_in_output h s (Some td) | None => s end else s.

(** *** ls *)

(** The path a read goes to. *)
Definition ls_path (p : string) (td : option ThreadData) : outcome string :=
  andthen (validate_local_tool_path h p td true) (fun _ =>
  if _is_skills_path h p || _is_acp_workspace_path p || _is_custom_mount_path h p then Good p
  else match td with Some td => _resolve_and_validate_user_data_path h p td | None => Good p end).

Definition ls_body (p : string) : tool string :=
  id ← prepared user;
  rt ← gets (fun rt => rt);
  dir ← lift (if is_local_sandbox rt then ls_path p (get_thread_data rt) else Good p);
  children ← calling (do_call (ListDir id dir));
  mret match children with
       | [] => "(empty)"
       | _ => _truncate_ls_output (masked rt (join newline_text children)) (max_chars ls_output_max_chars 20000)
       end.

Definition ls_tool (p : string) (rt : Runtime) : prog string :=
  if _is_disabled_skill_path h p user then Ret (disabled_text p) else
  try_except (ls_body p) (fun e rt =>
    match kind e with
    | SandboxError => error_text e
    | FileNotFoundError => "Error: Directory not found: " +:+ p
    | PermissionError => "Error: Permission denied: " +:+ p
    | _ => unexpected "listing directory" e rt
    end) rt.

(** *** glob and grep *)

Definition found_lines (what root_path : string) (lines : list string) (n : Z) (truncated : bool) (hint : string) : string :=
  join newline_text
    (("Found " +:+ pretty n +:+ " " +:+ what +:+ " under " +:+ root_path +:+
      (if truncated then " (showing first " +:+ pretty n +:+ ")" else "")) :: lines ++
     (if truncated then [hint] else [])).

Definition _format_glob_results (root_path : string) (matches : list string) (truncated : bool) : string :=
  match matches with
  | [] => "No files matched under " +:+ root_path
  | _ => found_lines "paths" root_path (imap (fun i p => pretty (Z.of_nat (S i)) +:+ ". " +:+ p) matches)
           (Z.of_nat (length matches)) truncated "Results truncated. Narrow the path or pattern to see fewer matches."
  end.

Definition _format_grep_results (root_path : string) (matches : list GrepMatch) (truncated : bool) : string :=
  match matches with
  | [] => "No matches found under " +:+ root_path
  | _ => found_lines "matches" root_path (map (fun m => match_path m +:+ ":" +:+ pretty (line_number m) +:+ ": " +:+ line m) matches)
           (Z.of_nat (length matches)) truncated "Results truncated. Narrow the path or add a glob filter."
  end.

(** The directory a search goes to. *)
Definition search_path (p : string) (rt : Runtime) : outcome string :=
  if is_local_sandbox rt
  then match get_thread_data rt with
       | None => Bad (runtime_error "Thread data not available for local sandbox")
       | Some td => _resolve_local_read_path h p td
       end
  else Good p.

Definition max_results_of (name : string) (requested default_max upper_bound : Z) : Z :=
  _resolve_max_results (default default_max (tool_max_results cfg name)) requested default_max upper_bound.

Definition glob_body (pattern p : string) (include_dirs : bool) (max_results : Z) : tool string :=
  id ← prepared user;
  rt ← gets (fun rt => rt);
  dir ← lift (search_path p rt);
  found ← calling (do_call (Glob id dir pattern include_dirs
                     (max_results_of "glob" max_results _DEFAULT_GLOB_MAX_RESULTS _MAX_GLOB_MAX_RESULTS)));
  mret (_format_glob_results p (map (masked rt) found.1) found.2).

Definition search_error (what p : string) (e : failure) (rt : Runtime) : string :=
  match kind e with
  | SandboxError => error_text e
  | FileNotFoundError => "Error: Directory not found: " +:+ p
  | NotADirectoryError => "Error: Path is not a directory: " +:+ p
  | PermissionError => "Error: Permission denied: " +:+ p
  | _ => unexpected what e rt
  end.

Definition glob_tool (pattern p : string) (include_dirs : bool) (max_results : Z) (rt : Runtime) : prog string :=
  try_except (glob_body pattern p include_dirs max_results) (search_error "searching paths" p) rt.

Definition grep_body (pattern p : string) (glob : option string) (literal case_sensitive : bool) (max_results : Z) : tool string :=
  id ← prepared user;
  rt ← gets (fun rt => rt);
  dir ← lift (search_path p rt);
  found ← calling (do_call (Grep id dir pattern glob literal case_sensitive
                     (max_results_of "grep" max_results _DEFAULT_GREP_MAX_RESULTS _MAX_GREP_MAX_RESULTS)));
  mret (_format_grep_results p
    (map (fun m => {| match_path := masked rt (match_path m); line_number := line_number m; line := line m |}) found.1) found.2).

Definition grep_tool (pattern p : string) (glob : option string) (literal case_sensitive : bool) (max_results : Z) (rt : Runtime)
    : prog string :=
  try_except (grep_body pattern p glob literal case_sensitive max_results) (fun e rt =>
    match kind e with
    | ReError => "Error: Invalid regex pattern: " +:+ message e
    | _ => search_error "searching file contents" p e rt
    end) rt.

(** *** read_file *)

(** The path [read_current_file_content] reads. *)
Definition read_path (p : string) (td : option ThreadData) : outcome string :=
  andthen (validate_local_tool_path h p td true) (fun _ =>
  if _is_skills_path h p then _resolve_skills_path h p
  else if _is_acp_workspace_path p then _resolve_acp_workspace_path h p (_extract_thread_id_from_thread_data td)
  else if _is_custom_mount_path h p then Good p
  else match td with Some td => _resolve_and_validate_user_data_path h p td | None => Good p end).

Definition read_current_file_content (p : string) : tool string :=
  id ← prepared user;
  rt ← gets (fun rt => rt);
  file ← lift (if is_local_sandbox rt then read_path p (get_thread_data rt) else Good p);
  calling (do_call (ReadFile id file)).

(** [content.splitlines()[start_line - 1 : end_line]] when both are given. *)
Definition line_range (start_line end_line : option Z) (content : string) : string :=
  match start_line, end_line with
  | Some a, Some b => join newline_text (RunEvents.RunEvents.pyslice (JsonText.splitlines content) (Some (a - 1)) (Some b))
  | _, _ => content
  end.

Definition read_file_body (p : string) (start_line end_line : option Z) : tool string :=
  content ← read_current_file_content p;
  mret (if (content =? "")%string then "(empty)"
        else _truncate_read_file_output (line_range start_line end_line content) (max_chars read_file_output_max_chars 50000)).

Definition read_file_tool (p : string) (start_line end_line : option Z) (rt : Runtime) : prog string :=
  if _is_disabled_skill_path h p user then Ret (disabled_text p) else
  try_except (read_file_body p start_line end_line) (fun e rt =>
    match kind e with
    | SandboxError => error_text e
    | FileNotFoundError => "Error: File not found: " +:+ p
    | PermissionError => "Error: Permission denied reading file: " +:+ p
    | IsADirectoryError => "Error: Path is a directory, not a file: " +:+ p
    | UnicodeDecodeError =>
        "Error: cannot read '" +:+ p +:+ "' as text — it appears to be a binary file " +:+
        "(e.g. .xlsx, .pdf, or an image). read_file only supports UTF-8 text. Use bash with a " +:+
        "suitable library instead (pandas/openpyxl for spreadsheets), or view_image for images."
    | _ => unexpected "reading file" e rt
    end) rt.

(** *** write_file and str_replace *)

(** The path a write goes to. *)
Definition write_path (p : string) (td : option ThreadData) : outcome string :=
  andthen (validate_local_tool_path h p td false) (fun _ =>
  if _is_custom_mount_path h p then Good p
  else match td with Some td => _resolve_and_validate_user_data_path h p td | None => Good p end).

Definition too_large (content_bytes max_bytes : Z) : string :=
  "Error: write_file content (" +:+ pretty content_bytes +:+ " bytes) exceeds the " +:+
  pretty max_bytes +:+ "-byte single-call limit. Split the content into smaller " +:+
  "pieces: either (a) write the first section now, then use `str_replace` " +:+
  "for further edits, or (b) call write_file again with append=True " +:+
  "carrying the next section. See SIZE POLICY in the tool docstring " +:+
  "or issue #3189 for the rationale.".

(** [len(content.encode("utf-8"))] *)
Definition content_bytes (content : string) : Z := Z.of_nat (String.length content).

Definition write_file_body (p content : string) (append : bool) : tool string :=
  id ← prepared user;
  rt ← gets (fun rt => rt);
  file ← lift (if is_local_sandbox rt then write_path p (get_thread_data rt) else Good p);
  _ ← calling (do_call (WriteFile id file content append));
  mret "OK".

Definition oversized (content : string) (append : bool) : option string :=
  let max_bytes := _effective_write_file_max_bytes (write_file_max_bytes cfg) in
  if negb append && (0 <? max_bytes) && (max_bytes <? content_bytes content)
  then Some (too_large (content_bytes content) max_bytes) else None.

Definition write_file_tool (p content : string) (append : bool) (rt : Runtime) : prog string :=
  match oversized content append with
  | Some e => Ret e
  | None =>
      try_except (write_file_body p content append) (fun e rt =>
        match kind e with
        | PermissionError =>
            _truncate_write_file_error_detail ("Error: Permission denied writing to file: " +:+ p) _DEFAULT_WRITE_FILE_ERROR_MAX_CHARS
        | IsADirectoryError =>
            _truncate_write_file_error_detail ("Error: Path is a directory, not a file: " +:+ p) _DEFAULT_WRITE_FILE_ERROR_MAX_CHARS
        | _ => _format_write_file_error h p e (is_local_sandbox rt) (get_thread_data rt) _DEFAULT_WRITE_FILE_ERROR_MAX_CHARS
        end) rt
  end.

(** [content.replace(old, new, 1)] *)
Fixpoint replace_once (old new s : string) : string :=
  if starts_with old s then new +:+ drop_prefix old s
  else match s with String c s => String c (replace_once old new s) | EmptyString => "" end.

Definition str_replace_body (p old_str new_str : string) (replace_all : bool) : tool string :=
  id ← prepared user;
  rt ← gets (fun rt => rt);
  file ← lift (if is_local_sandbox rt then write_path p (get_thread_data rt) else Good p);
  content ← calling (do_call (ReadFile id file));
  if (content =? "")%string then mret "OK"
  else if negb (contains old_str content) then mret ("Error: String to replace not found in file: " +:+ p)
  else
    _ ← calling (do_call (WriteFile id file
          (if replace_all then replace_text old_str new_str content else replace_once old_str new_str content) false));
    mret "OK".

Definition str_replace_tool (p old_str new_str : string) (replace_all : bool) (rt : Runtime) : prog string :=
  try_except (str_replace_body p old_str new_str replace_all) (fun e rt =>
    match kind e with
    | SandboxError => error_text e
    | FileNotFoundError => "Error: File not found: " +:+ p
    | PermissionError => "Error: Permission denied accessing file: " +:+ p
    | _ => unexpected "replacing string" e rt
    end) rt.

(** *** bash *)

(** [_string_pairs] of a value of the context. *)
Definition _string_pairs (v : option json) : list (string * string) :=
  match v with
  | Some (JObj kvs) => omap (fun kv => match kv.2 with JStr s => Some (kv.1, s) | _ => None end) kvs
  | _ => []
  end.
Definition read_active_secrets (context : option dict) : list (string * string) :=
  match context with Some d => _string_pairs (get "__active_skill_secrets" d) | None => [] end.

(** The token of the context, [provided] where it is a function: what it answers,
    if it does not raise. *)
Definition _github_env_from_runtime (provided : option json) (context : option dict) : option (list (string * string)) :=
  let token := match provided with Some t => Some t | None => match context with Some d => get "github_token" d | None => None end end in
  match token with
  | Some (JStr t) => if (t =? "")%string then None else Some [("GH_TOKEN", t); ("GITHUB_TOKEN", t)]
  | _ => None
  end.

Definition injected_env (provided : option json) (rt : Runtime) : option (list (string * string)) :=
  let active := match read_active_secrets (context rt) with [] => None | l => Some l end in
  match _github_env_from_runtime provided (context rt) with
  | Some g => Some (foldl (fun d kv => assign kv.1 kv.2 d) (default [] active) g)
  | None => active
  end.

Definition with_prefix (prefix : option string) (command : string) : string :=
  match prefix with Some s => s +:+ command | None => command end.

(** The command a local sandbox is given. *)
Definition local_command (command : string) (rt : Runtime) : outcome string :=
  andthen (validate_local_bash_command_paths alnum h command (get_thread_data rt)) (fun _ =>
  let command := _apply_cwd_prefix (replace_virtual_paths_in_command command (get_thread_data rt)) (get_thread_data rt) in
  Good (if is_windows cfg then command else with_prefix (_channel_identity_prefix (context rt)) command)).

Definition bash_local (id command : string) (env : option (list (string * string))) : tool string :=
  allowed ← lift match app_config cfg with Some c => Good (is_host_bash_allowed c) | None => Bad (config_failure cfg) end;
  if negb allowed then mret ("Error: " +:+ LOCAL_HOST_BASH_DISABLED_MESSAGE) else
  _ ← ensure_thread_directories_exist;
  rt ← gets (fun rt => rt);
  command ← lift (local_command command rt);
  output ← calling (do_call (ExecuteCommand id command env
                     match app_config cfg with Some (Some c) => Some (bash_command_timeout c) | _ => None end));
  mret (_truncate_bash_output (mask_secret_values (mask_local_paths_in_output h output (get_thread_data rt)) env)
                              (max_chars bash_output_max_chars 20000)).

Definition bash_remote (id command : string) (env : option (list (string * string))) : tool string :=
  _ ← ensure_thread_directories_exist;
  rt ← gets (fun rt => rt);
  output ← calling (do_call (ExecuteCommand id (with_prefix (_channel_identity_prefix (context rt)) command) env None));
  mret (_truncate_bash_output (mask_secret_values output env) (max_chars bash_output_max_chars 20000)).

Definition bash_body (provided : option json) (command : string) : tool string :=
  id ← ensure_sandbox_initialized user;
  rt ← gets (fun rt => rt);
  if is_local_sandbox rt then bash_local id command (injected_env provided rt)
  else bash_remote id command (injected_env provided rt).

Definition bash_tool (provided : option json) (command : string) (rt : Runtime) : prog string :=
  try_except (bash_body provided command) (fun e rt =>
    match kind e with
    | SandboxError | PermissionError => error_text e
    | _ => unexpected "executing command" e rt
    end) rt.

(** *** From a coroutine *)

(** A tool behind the provider's asynchronous acquisition, whose calls are the
    same.  Every tool has a function. *)
Definition _run_sync_tool_after_async_sandbox_init (func : Runtime -> prog string) (rt : Runtime) : prog string :=
  bind (ensure_sandbox_initialized user rt) (fun r =>
    match r.1 with
    | Good _ => func r.2
    | Bad e =>
        Ret match kind e with
            | SandboxError => error_text e
            | _ => "Error: Unexpected error initializing sandbox: " +:+
                   _sanitize_error h e (is_local_sandbox r.2) (get_thread_data r.2)
            end
    end).

End tools.

End SandboxTools.
