(* ===== verification/Memory.v ===== *)
(** * The long-term memory of the agent

    [deerflow/agents/memory/updater.py]: what the memory of a user holds, what is
    taken from the answer of the model that reviews a conversation, and how the
    answer is applied to the memory -- contradicted facts leave, aged facts the
    model names leave, new facts enter, the weakest leave when there are too many,
    and groups of facts become one.

    A memory is the JSON object of its file, read without a schema, so every
    access can raise: the functions return [result].  The texts of the exceptions
    of the language are left empty. *)
From S2P Require Import Prelude Json Errors Text Slices Float64 Numerals JsonText OrderedDict Evaluation PosixPaths SandboxPaths FilePaths.
Import Json Errors Text Slices Float64.Float64 Numerals.Numerals.

Module Memory.

(** ** Python on JSON values *)

Definition AttributeError : exn_class := Subclass "AttributeError" ExceptionC.
Definition OverflowError : exn_class := Subclass "OverflowError" ArithmeticError.
Definition JSONDecodeError : exn_class := Subclass "JSONDecodeError" ValueError.
Definition raise {A} (c : exn_class) : result A := Raise (Exn c "").

Section lists.
Context {A : Type}.

Fixpoint rmap {B} (f : A -> result B) (l : list A) : result (list B) :=
  match l with
  | [] => Ok []
  | x :: l => y <-? f x ;; ys <-? rmap f l ;; Ok (y :: ys)
  end.

Fixpoint rfilter (f : A -> result bool) (l : list A) : result (list A) :=
  match l with
  | [] => Ok []
  | x :: l => b <-? f x ;; ys <-? rfilter f l ;; Ok (if b : bool then x :: ys else ys)
  end.

Fixpoint rfold {S} (f : S -> A -> result S) (s : S) (l : list A) : result S :=
  match l with
  | [] => Ok s
  | x :: l => s <-? f s x ;; rfold f s l
  end.
End lists.

(** What a method of [dict] needs, and [for x in j]. *)
Definition as_dict (j : json) : result dict := match j with JObj d => Ok d | _ => raise AttributeError end.
Definition items (j : json) : result (list json) :=
  match j with
  | JList l => Ok l
  | JObj d => Ok (map (fun kv => JStr kv.1) d)
  | JStr s => Ok (map JStr (chars s))
  | _ => raise TypeError
  end.

Definition get_or (k : string) (j : json) (d : dict) : json := default j (get k d).

(** [d[k][s] = v] *)
Definition set_inside (k s : string) (v : json) (d : dict) : result dict :=
  match get k d with
  | None => raise KeyError
  | Some (JObj e) => Ok (set_key k (JObj (set_key s v e)) d)
  | Some _ => raise TypeError
  end.

(** The key a text is in a set or a dictionary; no text equals another value,
    and lists and dictionaries cannot be looked up. *)
Definition hashed (j : json) : result (option string) :=
  match j with
  | JStr s => Ok (Some s)
  | JList _ | JObj _ => raise TypeError
  | _ => Ok None
  end.

(** [f.get("id")], as a key. *)
Definition id_of (f : json) : result (option string) := d <-? as_dict f ;; hashed (get_or "id" JNull d).

Definition in_ids (ids : list string) (o : option string) : bool :=
  match o with Some s => bool_decide (s ∈ ids) | None => false end.

(** ** Confidences *)

(** A finite float: its sign and its magnitude. *)
Definition signed : Type := bool * float.
Definition numer (x : signed) : Z := if x.1 then - num x.2 else num x.2.
Definition sle (x y : signed) : bool := numer x * den y.2 <=? numer y * den x.2.
Definition positive (x : float) : signed := (false, x).
Definition json_float (x : signed) : json := JFloat (repr_finite x.1 x.2).

Definition finite (x : pyfloat) : option signed := match x with Finite neg x => Some (neg, x) | _ => None end.

(** [float(j)] *)
Definition to_float (j : json) : result pyfloat :=
  match j with
  | JStr s | JFloat s => of_option (float_of_text s) (Exn ValueError "")
  | JInt z => if 2 ^ 1024 - 2 ^ 970 <=? Z.abs z then raise OverflowError
              else Ok (Finite (z <? 0) (of_int (Z.abs z)))
  | JBool b => Ok (Finite false (of_int (Z.b2z b)))
  | _ => raise TypeError
  end.

Definition half : float := rnd 1 2.
Definition one : float := of_int 1.
Definition nine_tenths : float := rnd 9 10.

(** [max(0.0, min(x, 1.0))] *)
Definition clamp (x : signed) : float :=
  if x.1 || (num x.2 =? 0) then fzero else if fle x.2 one then x.2 else one.

(** [min(x, y)] and [max(l)] *)
Definition fmin (x y : float) : float := if fle x y then x else y.
Definition fmax (l : list float) : float := foldl (fun m x => if fle x m then m else x) fzero l.

Definition _coerce_source_confidence (fact : dict) : result float :=
  match get_or "confidence" JNull fact with
  | JNull | JBool _ => Ok half
  | raw =>
      match to_float raw with
      | Ok x => Ok (match finite x with Some x => clamp x | None => half end)
      | Raise e => if isinstance (class_of e) TypeError || isinstance (class_of e) ValueError then Ok half else Raise e
      end
  end.

(** ** The configuration and the calls *)

(** The fields of [MemoryConfig] the update reads; a threshold is between 0 and 1. *)
Record Config := {
  enabled : bool;
  max_facts : nat;
  fact_confidence_threshold : float;
  staleness_review_enabled : bool;
  staleness_age_days : Z;
  staleness_min_candidates : nat;
  staleness_max_removals_per_cycle : nat;
  staleness_protected_categories : list string;
  consolidation_enabled : bool;
  consolidation_min_facts : nat;
  consolidation_max_groups_per_cycle : nat;
  consolidation_max_sources : nat
}.

(** What the update calls: the n-th [uuid4().hex[:8]]; [datetime.fromisoformat],
    as the instant and the offset of what it reads (a text without an offset is
    taken as UTC), [None] where it raises; [str.casefold]; the word characters
    beyond ASCII; the [str] of a value that is no text; and the order [sorted]
    gives facts when their confidences are neither all numbers nor all texts, where
    it mostly raises. *)
Record Calls := {
  hex8 : nat -> string;
  fromisoformat : string -> option (Z * Z);
  casefold : string -> string;
  word_beyond : string -> bool;
  str_of : json -> string;
  sorted_otherwise : bool -> list json -> result (list json)
}.

(** The readings of the clock: of [_apply_updates], of the review in it, and of
    a merge. *)
Record Times := { started : Z; reviewed : Z; merged : Z }.

(** ** What the model answers *)

Record NewFact := { new_content : string; new_category : string; new_confidence : signed; new_error : option string }.
Record Removal := { stale_id : string; stale_reason : string }.
Record Merge := { source_ids : list string; merge_content : string; merge_category : string; merge_confidence : signed }.

Record Update := {
  user : dict;
  history : dict;
  newFacts : list NewFact;
  factsToRemove : list string;
  staleFactsToRemove : list Removal;
  factsToConsolidate : list Merge
}.

(** The text without its margins, unless nothing is left. *)
Definition stripped (o : option json) : option string :=
  match o with
  | Some (JStr s) => if (strip s =? "")%string then None else Some (strip s)
  | _ => None
  end.

Definition new_fact_confidence (raw : json) : result (option signed) :=
  match raw with
  | JBool _ => Ok None
  | JStr s => if (strip s =? "")%string then Ok None
              else Ok (match float_of_text (strip s) with Some x => finite x | None => None end)
  | JInt _ | JFloat _ => x <-? to_float raw ;; Ok (finite x)
  | _ => Ok None
  end.

Definition _normalize_memory_update_fact (fact : json) : result (option NewFact) :=
  match fact with
  | JObj d =>
      match stripped (get "content" d) with
      | None => Ok None
      | Some content =>
          c <-? new_fact_confidence (get_or "confidence" (JFloat "0.5") d) ;;
          Ok (option_map (fun confidence =>
                {| new_content := content; new_category := default "context" (stripped (get "category" d));
                   new_confidence := confidence; new_error := stripped (get "sourceError" d) |}) c)
      end
  | _ => Ok None
  end.

Definition texts (l : list json) : list string := omap (fun j => match j with JStr s => Some s | _ => None end) l.
Definition list_of (o : option json) : list json := match o with Some (JList l) => l | _ => [] end.
Definition dict_of (o : option json) : dict := match o with Some (JObj d) => d | _ => [] end.
Definition text_or_empty (j : json) : string := match j with JStr s => s | _ => "" end.

Definition normalize_removal (entry : json) : option Removal :=
  match entry with
  | JObj d =>
      match get "id" d with
      | Some (JStr s) =>
          if (s =? "")%string then None
          else Some {| stale_id := s; stale_reason := text_or_empty (get_or "reason" (JStr "") d) |}
      | _ => None
      end
  | _ => None
  end.

Definition normalize_merge (entry : json) : result (option Merge) :=
  match entry with
  | JObj d =>
      match get "sourceIds" d with
      | Some (JList source_ids) =>
          let clean_ids := fromkeys (List.filter (fun s => negb (s =? "")%string) (texts source_ids)) in
          if (length clean_ids <? 2)%nat then Ok None else
          match get "consolidated" d with
          | Some (JObj consolidated) =>
              match stripped (get "content" consolidated) with
              | None => Ok None
              | Some content =>
                  c <-? match get_or "confidence" (JFloat "0.9") consolidated with
                        | (JInt _ | JFloat _) as raw => x <-? to_float raw ;; Ok (default (positive nine_tenths) (finite x))
                        | _ => Ok (positive nine_tenths)
                        end ;;
                  Ok (Some {| source_ids := clean_ids; merge_content := content;
                              merge_category := default "context" (stripped (get "category" consolidated));
                              merge_confidence := c |})
              end
          | _ => Ok None
          end
      | _ => Ok None
      end
  | _ => Ok None
  end.

Definition is_list (o : option json) : bool := match o with Some (JList _) => true | _ => false end.

Definition _normalize_memory_update_data (update_data : dict) : result Update :=
  let remove := texts (list_of (get "factsToRemove" update_data)) in
  facts <-? rmap _normalize_memory_update_fact (list_of (get "newFacts" update_data)) ;;
  let dropped := negb (is_list (get "newFacts" update_data)) || existsb (fun o => match o with None => true | _ => false end) facts in
  if negb (bool_decide (remove = [])) && dropped then raise JSONDecodeError else
  merges <-? rmap normalize_merge (list_of (get "factsToConsolidate" update_data)) ;;
  Ok {| user := dict_of (get "user" update_data);
        history := dict_of (get "history" update_data);
        newFacts := omap id facts;
        factsToRemove := remove;
        staleFactsToRemove := omap normalize_removal (list_of (get "staleFactsToRemove" update_data));
        factsToConsolidate := omap id merges |}.

(** [content] of the answer: a text, or blocks of it. *)
Fixpoint text_pieces (pending : list string) (blocks : list json) : list string :=
  let flush := match pending with [] => [] | _ => [text_of pending] end in
  match blocks with
  | [] => flush
  | JStr s :: blocks => text_pieces (pending ++ [s]) blocks
  | JObj d :: blocks =>
      flush ++ match get "text" d with Some (JStr s) => [s] | _ => [] end ++ text_pieces [] blocks
  | _ :: blocks => text_pieces pending blocks
  end.

Definition _extract_text (c : Calls) (content : json) : string :=
  match content with
  | JStr s => s
  | JList blocks => join newline (text_pieces [] blocks)
  | _ => str_of c content
  end.

Definition required_keys : list string := ["user"; "history"; "newFacts"; "factsToRemove"].

(** Every brace of the text may begin the object ([raw_decode]; an integer of
    more than 4300 digits, which it refuses with another error, counts as
    malformed). *)
Fixpoint first_update (s : string) : result Update :=
  match s with
  | EmptyString => raise JSONDecodeError
  | String c r =>
      if Ascii.eqb c "{" then
        match JsonText.value (S (2 * String.length s)) s with
        | Some (JObj d, _) =>
            if forallb (fun k => bool_decide (is_Some (get k d))) required_keys
            then _normalize_memory_update_data d else first_update r
        | _ => first_update r
        end
      else first_update r
  end.

Definition _parse_memory_update_response (c : Calls) (response_content : json) : result Update :=
  first_update (strip (_extract_text c response_content)).

(** ** Sentences about uploads *)

Definition terminator (x : string) : bool := bool_decide (x ∈ ["."; "!"; "?"]).

(** A code point as [re.IGNORECASE] compares it. *)
Definition fold_case (x : string) : string :=
  if (x =? bytes [0xc5; 0xbf]%N)%string then "s"
  else if bool_decide (x ∈ [bytes [0xc4; 0xb0]%N; bytes [0xc4; 0xb1]%N]) then "i"
  else lowered x.

Section uploads.
Context (word_beyond : string -> bool).

(** [\w], and [\b] between the code point before and the rest. *)
Definition is_word (x : string) : bool :=
  match x with
  | String c EmptyString =>
      let n := N_of_ascii c in
      ((48 <=? n) && (n <=? 57) || (65 <=? n) && (n <=? 90) || (97 <=? n) && (n <=? 122) || (n =? 95))%N
  | _ => word_beyond x
  end.
Definition word_at (o : option string) : bool := match o with Some x => is_word x | None => false end.
Definition boundary (prev : option string) (l : list string) : bool := negb (Bool.eqb (word_at prev) (word_at (head l))).

(** The rest behind a literal; behind [\s+]; and behind [\w+]. *)
Fixpoint literal (p l : list string) : option (list string) :=
  match p, l with
  | [], _ => Some l
  | a :: p, b :: l => if (a =? fold_case b)%string then literal p l else None
  | _, [] => None
  end.
Definition spaces (l : list string) : option (list string) :=
  match l with x :: r => if is_space x then Some (drop_while is_space r) else None | [] => None end.
Definition a_word (l : list string) : option (list string) :=
  match l with x :: r => if is_word x then Some (drop_while is_word r) else None | [] => None end.

Definition literally (p : string) (l : list string) : bool := bool_decide (is_Some (literal (chars p) l)).

(** [(?:\s+\w+){0,n}\s+(?:file|files?|document|documents?|attachment|attachments?)]:
    runs of spaces and of word characters end where the next one begins, and a
    plural begins with its singular. *)
Fixpoint object_within (n : nat) (l : list string) : bool :=
  match spaces l with
  | None => false
  | Some r =>
      existsb (fun p => literally p r) ["file"; "document"; "attachment"] ||
      match n, a_word r with S n, Some r => object_within n r | _, _ => false end
  end.

(** The four alternatives, at a place. *)
Definition mention (l : list string) : bool :=
  match literal (chars "upload") l with
  | Some r =>
      object_within 3 r ||
      existsb (fun p => match literal (chars p) r with Some r => object_within 3 r | None => false end) ["ed"; "ing"]
  | None => false
  end ||
  match literal (chars "file") l with
  | Some r => match spaces r with Some r => literally "upload" r | None => false end
  | None => false
  end ||
  literally "/mnt/user-data/uploads/" l || literally "<uploaded_files>" l.

(** One of them begins before the sentence ends. *)
Fixpoint mentioned (prev : option string) (l : list string) : bool :=
  match l with
  | [] => false
  | x :: r => negb (terminator x) && ((boundary prev l && mention l) || mentioned (Some x) r)
  end.

(** [_UPLOAD_SENTENCE_RE.search(s)] *)
Fixpoint found (prev : option string) (l : list string) : bool :=
  match l with
  | [] => false
  | x :: r => (boundary prev l && mention l) || found (Some x) r
  end.
Definition describes_upload (s : string) : bool := found None (chars s).

(** What a match takes: the sentence to its end, the mark there, and the spaces;
    none of the alternatives goes beyond the sentence. *)
Fixpoint sentence (l : list string) : list string * list string :=
  match l with
  | [] => ([], [])
  | x :: r => if terminator x then ([x], r) else let '(a, b) := sentence r in (x :: a, b)
  end.

(** [_UPLOAD_SENTENCE_RE.sub("", s)] *)
Fixpoint without_uploads (fuel : nat) (prev : option string) (l : list string) : list string :=
  match fuel, l with
  | S fuel, x :: r =>
      if mentioned prev l then
        let '(taken, rest) := sentence l in
        let after := drop_while is_space rest in
        without_uploads fuel (last (taken ++ take (length rest - length after) rest)) after
      else x :: without_uploads fuel (Some x) r
  | _, _ => []
  end.

(** [re.sub(r"  +", " ", s)] *)
Fixpoint single_spaces (s : string) : string :=
  match s with
  | String " " ((String " " _) as r) => single_spaces r
  | String c r => String c (single_spaces r)
  | EmptyString => ""
  end.

Definition clean_summary (s : string) : string :=
  single_spaces (strip (text_of (without_uploads (length (chars s)) None (chars s)))).

Definition clean_section (j : json) : result json :=
  match j with
  | JObj val =>
      match get "summary" val with
      | None => Ok j
      | Some (JStr s) => Ok (JObj (set_key "summary" (JStr (clean_summary s)) val))
      | Some _ => raise TypeError
      end
  | _ => Ok j
  end.

Definition clean_sections (mem : dict) (section : string) : result dict :=
  data <-? as_dict (get_or section (JObj []) mem) ;;
  cleaned <-? rmap (fun kv => j <-? clean_section kv.2 ;; Ok (kv.1, j)) data ;;
  Ok (match get section mem with Some _ => set_key section (JObj cleaned) mem | None => mem end).

Definition keep_fact (f : json) : result bool :=
  d <-? as_dict f ;;
  match get_or "content" (JStr "") d with
  | JStr s => Ok (negb (describes_upload s))
  | _ => raise TypeError
  end.

Definition _strip_upload_mentions_from_memory (memory_data : dict) : result dict :=
  mem <-? rfold clean_sections memory_data ["user"; "history"] ;;
  let facts := get_or "facts" (JList []) mem in
  if truthy facts then l <-? items facts ;; kept <-? rfilter keep_fact l ;; Ok (set_key "facts" (JList kept) mem)
  else Ok mem.

End uploads.

(** ** Applying an update *)

(** [datetime.now(UTC).isoformat().removesuffix("+00:00") + "Z"] *)
Definition utc_now_iso_z (now : Z) : string := Clock.json_instant now.

(** [t.isoformat().removesuffix("+00:00") + "Z"] of an instant with an offset, both
    in microseconds. *)
Definition offset_text (o : Z) : string :=
  let a := Z.abs o in
  (if o <? 0 then "-" else "+") +:+ Clock.padded 2 (a / (3600 * Clock.second)) +:+ ":" +:+
  Clock.padded 2 (a / (60 * Clock.second) mod 60) +:+
  (if a mod (60 * Clock.second) =? 0 then "" else
     ":" +:+ Clock.padded 2 (a / Clock.second mod 60) +:+
     (if a mod Clock.second =? 0 then "" else "." +:+ Clock.padded 6 (a mod Clock.second))).
Definition iso_z (t : Z * Z) : string :=
  Clock.isoformat_naive (t.1 + t.2) +:+ (if t.2 =? 0 then "" else offset_text t.2) +:+ "Z".

Section update.
Context (calls : Calls) (config : Config).

Definition _fact_content_key (content : json) : option string := option_map (casefold calls) (stripped (Some content)).

Definition _parse_fact_datetime (raw : json) : option (Z * Z) :=
  match raw with
  | JStr s => if (s =? "")%string then None else fromisoformat calls s
  | _ => None
  end.

Definition current_facts (mem : dict) : result (list json) := items (get_or "facts" (JList []) mem).

(** *** Summaries *)

Definition update_section (now : string) (key : string) (updates : dict) (mem : dict) (section : string) : result dict :=
  d <-? as_dict (get_or section (JObj []) updates) ;;
  let summary := get_or "summary" JNull d in
  if truthy (get_or "shouldUpdate" JNull d) && truthy summary
  then set_inside key section (JObj [("summary", summary); ("updatedAt", JStr now)]) mem
  else Ok mem.

Definition user_sections : list string := ["workContext"; "personalContext"; "topOfMind"].
Definition history_sections : list string := ["recentMonths"; "earlierContext"; "longTermBackground"].

Definition update_summaries (now : string) (u : Update) (mem : dict) : result dict :=
  mem <-? rfold (update_section now "user" (user u)) mem user_sections ;;
  rfold (update_section now "history" (history u)) mem history_sections.

(** *** Facts that leave *)

(** [[f for f in facts if f.get("id") not in ids]] *)
Definition without (ids : list string) : list json -> result (list json) :=
  rfilter (fun f => o <-? id_of f ;; Ok (negb (in_ids ids o))).

Definition remove_facts (ids : list string) (mem : dict) : result dict :=
  if bool_decide (ids = []) then Ok mem else
  facts <-? current_facts mem ;; kept <-? without ids facts ;; Ok (set_key "facts" (JList kept) mem).

Definition is_protected (category : json) : bool :=
  match category with JStr c => bool_decide (c ∈ staleness_protected_categories config) | _ => false end.

Definition day : Z := 86400 * Clock.second.

Definition stale (cutoff : Z) (f : json) : bool :=
  match f with
  | JObj d =>
      negb (is_protected (get_or "category" (JStr "") d)) &&
      match _parse_fact_datetime (get_or "createdAt" (JStr "") d) with
      | Some created_at => created_at.1 <? cutoff
      | None => false
      end
  | _ => false
  end.

Definition _select_stale_candidates (now : Z) (mem : dict) : result (list json) :=
  facts <-? current_facts mem ;; Ok (List.filter (stale (now - staleness_age_days config * day)) facts).

(** [sorted(facts, key=lambda f: f.get("confidence", 0), reverse=reverse)] *)
Definition confidence_key (f : json) : result json := d <-? as_dict f ;; Ok (get_or "confidence" (JInt 0) d).

Definition number_le (x y : Evaluation.number) : bool :=
  match x, y with
  | Evaluation.Exact p q, Evaluation.Exact p' q' => p * q' <=? p' * q
  | Evaluation.Beyond n, Evaluation.Beyond n' => n || negb n'
  | Evaluation.Beyond n, Evaluation.Exact _ _ => n
  | Evaluation.Exact _ _, Evaluation.Beyond n => negb n
  | _, _ => false
  end.

Definition comparable_number (j : json) : bool :=
  match Evaluation.number_of j with Some (Evaluation.Exact _ _ | Evaluation.Beyond _) => true | _ => false end.
Definition is_text (j : json) : bool := match j with JStr _ => true | _ => false end.

Definition confidence_le (x y : json) : bool :=
  match x, y with
  | JStr s, JStr t => bool_decide (String.le s t)
  | _, _ => match Evaluation.number_of x, Evaluation.number_of y with Some x, Some y => number_le x y | _, _ => false end
  end.

Definition sort_facts (reverse : bool) (facts : list json) : result (list json) :=
  keys <-? rmap confidence_key facts ;;
  let le (x y : json * json) := if reverse then confidence_le y.2 x.2 else confidence_le x.2 y.2 in
  if forallb comparable_number keys || forallb is_text keys
  then Ok (map fst (stable_sort le (zip facts keys)))
  else sorted_otherwise calls reverse facts.

(** The ids of the candidates; those that are no text are in no set of texts. *)
Definition candidate_ids (candidates : list json) : result (list string) :=
  ids <-? rmap id_of candidates ;; Ok (omap id ids).

(** The ids the review may remove, the least confident of them when there are
    more than a review removes. *)
Definition stale_ids_to_remove (now : Z) (removals : list Removal) (mem : dict) : result (list string) :=
  candidates <-? _select_stale_candidates now mem ;;
  allowed <-? candidate_ids candidates ;;
  let ids := List.filter (fun s => bool_decide (s ∈ allowed)) (fromkeys (map stale_id removals)) in
  if (staleness_max_removals_per_cycle config <? length ids)%nat then
    facts <-? current_facts mem ;;
    named <-? rfilter (fun f => o <-? id_of f ;; Ok (in_ids ids o)) facts ;;
    ordered <-? sort_facts false named ;;
    chosen <-? rmap id_of (take (staleness_max_removals_per_cycle config) ordered) ;;
    Ok (fromkeys (omap id chosen))
  else Ok ids.

Definition review_stale (now : Z) (removals : list Removal) (mem : dict) : result dict :=
  if bool_decide (map stale_id removals = []) then Ok mem else
  ids <-? stale_ids_to_remove now removals mem ;; remove_facts ids mem.

(** *** Facts that enter *)

(** [mem["facts"].append(f)] *)
Definition append_fact (f : json) (mem : dict) : result dict :=
  match get "facts" mem with
  | None => raise KeyError
  | Some (JList l) => Ok (set_key "facts" (JList (l ++ [f])) mem)
  | Some _ => raise AttributeError
  end.

Definition error_entry (o : option string) : dict := match o with Some e => [("sourceError", JStr e)] | None => [] end.
Definition fact_id (n : nat) : json := JStr ("fact_" +:+ hex8 calls n).

Definition fact_entry (now source : string) (n : nat) (f : NewFact) : json :=
  JObj ([("id", fact_id n); ("content", JStr (strip (new_content f))); ("category", JStr (new_category f));
         ("confidence", json_float (new_confidence f)); ("createdAt", JStr now); ("source", JStr source)]
        ++ error_entry (stripped (option_map JStr (new_error f)))).

(** The memory, the keys of the contents in it, and the ids drawn so far. *)
Record Adding := { a_mem : dict; a_keys : list string; a_ids : nat }.

Definition add_fact (now source : string) (s : Adding) (f : NewFact) : result Adding :=
  if sle (positive (fact_confidence_threshold config)) (new_confidence f) then
    match _fact_content_key (JStr (strip (new_content f))) with
    | None => Ok s
    | Some k =>
        if bool_decide (k ∈ a_keys s) then Ok s else
        mem <-? append_fact (fact_entry now source (a_ids s) f) (a_mem s) ;;
        Ok {| a_mem := mem; a_keys := k :: a_keys s; a_ids := S (a_ids s) |}
    end
  else Ok s.

Definition content_key (f : json) : result (option string) :=
  d <-? as_dict f ;; Ok (_fact_content_key (get_or "content" JNull d)).

Definition add_new_facts (now source : string) (fs : list NewFact) (mem : dict) : result Adding :=
  facts <-? current_facts mem ;;
  keys <-? rmap content_key facts ;;
  rfold (add_fact now source) {| a_mem := mem; a_keys := omap id keys; a_ids := 0 |} fs.

(** The limit: [len(mem["facts"])], and the most confident ones. *)
Definition sized (j : json) : result (list json) :=
  match j with JList _ | JObj _ | JStr _ => items j | _ => raise TypeError end.

Definition trim_facts (mem : dict) : result dict :=
  j <-? of_option (get "facts" mem) (Exn KeyError "facts") ;;
  facts <-? sized j ;;
  if (max_facts config <? length facts)%nat then
    sorted <-? sort_facts true facts ;; Ok (set_key "facts" (JList (take (max_facts config) sorted)) mem)
  else Ok mem.

(** *** Facts that become one *)

(** [{f.get("id"): f for f in facts if isinstance(f, dict)}], its texts: the last
    fact with an id. *)
Definition is_dict (f : json) : bool := match f with JObj _ => true | _ => false end.

Definition index_entry (f : json) : result (option (string * dict)) :=
  d <-? as_dict f ;; o <-? id_of f ;; Ok (option_map (fun s => (s, d)) o).
Definition fact_index (facts : list json) : result (list (string * dict)) :=
  l <-? rmap index_entry (List.filter is_dict facts) ;;
  Ok (foldl (fun d kv => OrderedDict.assign kv.1 kv.2 d) [] (omap id l)).

(** [by_category.setdefault(cat.strip(), []).append(fact)] *)
Definition group_fact (d : list (string * list json)) (f : json) : list (string * list json) :=
  match f with
  | JObj fields =>
      match stripped (Some (get_or "category" (JStr "context") fields)) with
      | Some cat => OrderedDict.assign cat (default [] (OrderedDict.lookup cat d) ++ [f]) d
      | None => d
      end
  | _ => d
  end.

Definition _select_consolidation_candidates (mem : dict) : result (list (string * list json)) :=
  let facts := get_or "facts" (JList []) mem in
  if truthy facts then
    l <-? items facts ;;
    Ok (List.filter (fun kv => (consolidation_min_facts config <=? length kv.2)%nat &&
                               negb (bool_decide (kv.1 ∈ staleness_protected_categories config)))
                    (foldl group_fact [] l))
  else Ok [].

(** [f["id"]], as a key. *)
Definition required_id (f : json) : result (option string) :=
  d <-? as_dict f ;; j <-? of_option (get "id" d) (Exn KeyError "id") ;; hashed j.

Definition allowed_source_ids (mem : dict) : result (list string) :=
  groups <-? _select_consolidation_candidates mem ;;
  ids <-? rmap required_id (List.concat (map snd groups)) ;;
  Ok (omap id ids).

(** The ids consumed, the facts made of them, and the ids drawn so far. *)
Record Merging := { consumed : list string; made : list json; m_ids : nat }.

Definition newest (l : list (Z * Z)) (first : Z * Z) : Z * Z := foldl (fun m x => if m.1 <? x.1 then x else m) first l.

Definition source_created (now : string) (merged_at : Z) (source : dict) : Z * Z :=
  let fallback := default (merged_at, 0) (_parse_fact_datetime (JStr now)) in
  default fallback (_parse_fact_datetime (get_or "createdAt" (JStr "") source)).

Definition newest_created (now : string) (merged_at : Z) (sources : list dict) : Z * Z :=
  match map (source_created now merged_at) sources with
  | x :: l => newest l x
  | [] => (merged_at, 0)
  end.

Definition source_errors (sources : list dict) : list string :=
  fromkeys (List.filter (fun e => negb (strip e =? "")%string) (texts (omap (get "sourceError") sources))).

Definition merged_error (sources : list dict) : option string :=
  match source_errors sources with [] => None | l => Some (join newline l) end.

(** The fact a merge makes of its sources. *)
Definition merged_fact (now : string) (merged_at : Z) (n : nat) (m : Merge) (sources : list dict) (confidence : float) : json :=
  JObj ([("id", fact_id n); ("content", JStr (strip (merge_content m))); ("category", JStr (merge_category m));
         ("confidence", json_float (positive confidence));
         ("createdAt", JStr (iso_z (newest_created now merged_at sources)));
         ("consolidatedAt", JStr now); ("source", JStr "consolidation");
         ("consolidatedFrom", JList (map JStr (source_ids m)))]
        ++ error_entry (merged_error sources)).

Definition merge_one (now : string) (merged_at : Z) (index : list (string * dict)) (allowed : list string) (s : Merging) (m : Merge) : result Merging :=
  if (consolidation_max_groups_per_cycle config <=? length (made s))%nat then Ok s else
  if existsb (fun sid => bool_decide (sid ∈ consumed s) || bool_decide (OrderedDict.lookup sid index = None) ||
                         negb (bool_decide (sid ∈ allowed))) (source_ids m) then Ok s else
  if negb ((2 <=? length (source_ids m))%nat && (length (source_ids m) <=? consolidation_max_sources config)%nat) then Ok s else
  if (strip (merge_content m) =? "")%string then Ok s else
  let sources := omap (fun sid => OrderedDict.lookup sid index) (source_ids m) in
  source_confidences <-? rmap _coerce_source_confidence sources ;;
  let fact_confidence := fmin (clamp (merge_confidence m)) (fmax source_confidences) in
  if negb (fle (fact_confidence_threshold config) fact_confidence) then Ok s else
  Ok {| consumed := consumed s ++ source_ids m;
        made := made s ++ [merged_fact now merged_at (m_ids s) m sources fact_confidence];
        m_ids := S (m_ids s) |}.

Definition consolidate (now : string) (merged_at : Z) (ids : nat) (merges : list Merge) (mem : dict) : result dict :=
  if negb (consolidation_enabled config) || (length merges =? 0)%nat then Ok mem else
  facts <-? current_facts mem ;;
  index <-? fact_index facts ;;
  allowed <-? allowed_source_ids mem ;;
  s <-? rfold (merge_one now merged_at index allowed) {| consumed := []; made := []; m_ids := ids |} merges ;;
  if bool_decide (consumed s = []) then Ok mem else
  kept <-? without (consumed s) facts ;; Ok (set_key "facts" (JList (kept ++ made s)) mem).

(** *** The whole update *)

Definition _apply_updates (times : Times) (thread_id : option string) (u : Update) (mem : dict) : result dict :=
  let now := utc_now_iso_z (started times) in
  let source := match thread_id with Some t => if (t =? "")%string then "unknown" else t | None => "unknown" end in
  mem <-? update_summaries now u mem ;;
  mem <-? remove_facts (factsToRemove u) mem ;;
  mem <-? review_stale (reviewed times) (staleFactsToRemove u) mem ;;
  added <-? add_new_facts now source (newFacts u) mem ;;
  mem <-? trim_facts (a_mem added) ;;
  consolidate now (merged times) (a_ids added) (factsToConsolidate u) mem.

(** [_finalize_update], but for the save: what is saved. *)
Definition updated_memory (times : Times) (thread_id : option string) (current_memory response_content : json) : result dict :=
  u <-? _parse_memory_update_response calls response_content ;;
  mem <-? as_dict current_memory ;;
  mem <-? _apply_updates times thread_id u mem ;;
  _strip_upload_mentions_from_memory (word_beyond calls) mem.

(** ** The prompt *)

(** [str(j)], and what [f"{j}"] gives. *)
Definition shown (j : json) : string := match j with JStr s => s | _ => str_of calls j end.

(** [f"{j:.2f}"] *)
Definition fixed2 (x : pyfloat) : string :=
  match x with
  | Finite neg x =>
      let h := round_half_even (num x * 100) (den x) in
      (if neg then "-" else "") +:+ pretty (h / 100) +:+ "." +:+ Clock.padded 2 (h mod 100)
  | Infinite neg => if neg then "-inf" else "inf"
  | NaN => "nan"
  end.
Definition two_decimals (j : json) : result string :=
  match j with
  | JBool _ | JInt _ | JFloat _ => x <-? to_float j ;; Ok (fixed2 x)
  | JStr _ => raise ValueError
  | _ => raise TypeError
  end.

Definition quotation (s : string) : string := quote +:+ s +:+ quote.
Definition category_text (d : dict) : string := let s := strip (shown (get_or "category" (JStr "context") d)) in if (s =? "")%string then "context" else s.

Definition stale_line (f : json) : result string :=
  d <-? as_dict f ;;
  conf <-? two_decimals (get_or "confidence" (JFloat "0.0") d) ;;
  let created := match get_or "createdAt" (JStr "") d with
                 | JStr s => if 10 <=? len s then prefix 10 s else s
                 | j => shown j
                 end in
  Ok ("- [" +:+ shown (get_or "id" (JStr "?") d) +:+ " | " +:+ category_text d +:+ " | " +:+ conf +:+ " | " +:+ created +:+ "] "
      +:+ quotation (shown (get_or "content" (JStr "") d))).

Definition _build_staleness_section (stale_candidates : list json) : result string :=
  lines <-? rmap stale_line stale_candidates ;; Ok (join newline lines).

Definition source_line (f : json) : result string :=
  d <-? as_dict f ;;
  conf <-? _coerce_source_confidence d ;;
  Ok ("- [" +:+ shown (get_or "id" (JStr "?") d) +:+ " | " +:+ fixed2 (Finite false conf) +:+ "] " +:+ quotation (shown (get_or "content" (JStr "") d))).

(** The largest groups first, and by name. *)
Definition group_le (x y : string * list json) : bool :=
  (length y.2 <? length x.2)%nat || (length y.2 =? length x.2)%nat && bool_decide (String.le x.1 y.1).

Definition group_part (kv : string * list json) : result string :=
  let group := take (consolidation_max_sources config) kv.2 in
  lines <-? rmap source_line group ;;
  Ok ("<consolidation_candidates category=" +:+ quotation kv.1 +:+ " count=" +:+ quotation (pretty (Z.of_nat (length group))) +:+ ">" +:+ newline
      +:+ join newline lines +:+ newline +:+ "</consolidation_candidates>").

Definition _build_consolidation_section (candidates : list (string * list json)) : result string :=
  parts <-? rmap group_part (take (consolidation_max_groups_per_cycle config) (stable_sort group_le candidates)) ;;
  Ok (join (newline +:+ newline) parts).

(** The fields of [MEMORY_UPDATE_PROMPT]; a section that is left out is empty. *)
Record Prompt := { current : json; conversation : string; correction_detected : bool; reinforcement_detected : bool;
                   staleness_section : option string; consolidation_section : option string }.

(** A message: its type, and its content. *)
Record Message := { message_type : string; message_content : json }.

(** [re.sub(r"<uploaded_files>[\s\S]*?</uploaded_files>\n*", "", s)], [fuel] at
    least the length of the text. *)
Fixpoint behind (sub s : string) : option string :=
  if starts_with sub s then Some (JsonText.drop_bytes (String.length sub) s)
  else match s with String _ r => behind sub r | EmptyString => None end.
Fixpoint drop_newlines (s : string) : string :=
  match s with String c r => if Ascii.eqb c (ascii_of_N 10) then drop_newlines r else s | EmptyString => "" end.
Fixpoint without_blocks (fuel : nat) (s : string) : string :=
  match fuel, s with
  | S fuel, String c r =>
      if starts_with "<uploaded_files>" s then
        match behind "</uploaded_files>" (JsonText.drop_bytes 16 s) with
        | Some rest => without_blocks fuel (drop_newlines rest)
        | None => String c (without_blocks fuel r)
        end
      else String c (without_blocks fuel r)
  | _, _ => s
  end.

Definition part_text (p : json) : option string :=
  match p with JStr s => Some s | JObj d => match get "text" d with Some (JStr s) => Some s | _ => None end | _ => None end.

Definition conversation_line (m : Message) : option string :=
  let content := match message_content m with
                 | JList parts => match omap part_text parts with [] => shown (message_content m) | l => join " " l end
                 | j => shown j
                 end in
  let content := if (message_type m =? "human")%string then strip (without_blocks (String.length content) content) else content in
  if (message_type m =? "human")%string && (content =? "")%string then None else
  let content := if 1000 <? len content then prefix 1000 content +:+ "..." else content in
  if (message_type m =? "human")%string then Some ("User: " +:+ content)
  else if (message_type m =? "ai")%string then Some ("Assistant: " +:+ content) else None.

Definition format_conversation_for_update (messages : list Message) : string :=
  join (newline +:+ newline) (omap conversation_line messages).

(** [_prepare_update_prompt] behind the load of the memory. *)
Definition prepare (now : Z) (messages : list Message) (correction reinforcement : bool) (memory : json) : result (option Prompt) :=
  let conversation := format_conversation_for_update messages in
  if (strip conversation =? "")%string then Ok None else
  stale <-? (if staleness_review_enabled config then
               mem <-? as_dict memory ;;
               candidates <-? _select_stale_candidates now mem ;;
               if (staleness_min_candidates config <=? length candidates)%nat
               then section <-? _build_staleness_section candidates ;; Ok (Some section) else Ok None
             else Ok None) ;;
  merges <-? (if consolidation_enabled config then
                mem <-? as_dict memory ;;
                candidates <-? _select_consolidation_candidates mem ;;
                if bool_decide (candidates = []) then Ok None
                else section <-? _build_consolidation_section candidates ;; Ok (Some section)
              else Ok None) ;;
  Ok (Some {| current := memory; conversation := conversation; correction_detected := correction;
              reinforcement_detected := reinforcement; staleness_section := stale; consolidation_section := merges |}).

End update.

End Memory.

(** * Where the memory is kept

    [deerflow/agents/memory/storage.py]: a JSON file for every user and agent, and
    a cache of what was read last with the modification time of the file.  A
    method is a sequence of calls, and others -- threads of the process, other
    processes -- may act between two of them: [between n] is what they do before
    its n-th call. *)
Module MemoryStore.
Import PosixPaths SandboxPaths Errors Memory.

(** A file is what [json.load] reads in it, [None] where it raises; a time is that
    of the last change. *)
Record File := { data : option json; mtime : Z }.

Definition key : Type := option string * option string.
Record Store := { files : gmap string File; cache : gmap key (json * option Z) }.

Definition with_files (f : gmap string File) (st : Store) : Store := {| files := f; cache := cache st |}.
Definition with_cache (k : key) (e : json * option Z) (st : Store) : Store := {| files := files st; cache := <[k := e]> (cache st) |}.

Definition create_empty_memory (now : Z) : dict :=
  let section := JObj [("summary", JStr ""); ("updatedAt", JStr "")] in
  [("version", JStr "1.0"); ("lastUpdated", JStr (utc_now_iso_z now));
   ("user", JObj [("workContext", section); ("personalContext", section); ("topOfMind", section)]);
   ("history", JObj [("recentMonths", section); ("earlierContext", section); ("longTermBackground", section)]);
   ("facts", JList [])].

(** ** The path *)

(** [^[A-Za-z0-9-]+$] *)
Definition agent_char (c : ascii) : bool := FilePaths.id_char c && negb (Ascii.eqb c "_").

Definition of_outcome {A} (o : outcome A) : result A :=
  match o with Good a => Ok a | Bad f => Raise (Exn ValueError (SandboxPaths.message f)) end.

Definition _validate_agent_name (agent_name : string) : result unit :=
  raise_if (negb (FilePaths.matches_all agent_char agent_name)) (Exn ValueError agent_name).

Section store.
Context (lower : string -> string) (base : path) (storage_path : string).

Definition is_absolute (s : string) : bool := starts_with "/" s.

Definition _get_memory_file_path (k : key) : result string :=
  p <-? match k with
        | (Some user_id, Some agent_name) =>
            ensure _validate_agent_name agent_name ;; of_outcome (FilePaths.user_agent_memory_file lower base user_id agent_name)
        | (Some user_id, None) =>
            if is_absolute storage_path then Ok (parse storage_path) else of_outcome (FilePaths.user_memory_file base user_id)
        | (None, Some agent_name) =>
            ensure _validate_agent_name agent_name ;; Ok (FilePaths.agent_memory_file lower base agent_name)
        | (None, None) =>
            if (storage_path =? "")%string then Ok (FilePaths.memory_file base) else Ok (FilePaths.div base storage_path)
        end ;;
  Ok (path_str p).

(** ** Calls on a file *)

(** [file_path.stat().st_mtime if file_path.exists() else None] *)
Definition stat (p : string) (st : Store) : option Z := option_map mtime (files st !! p).

(** [_load_memory_from_file], at the moment it reads. *)
Definition read (now : Z) (p : string) (st : Store) : json :=
  match files st !! p with
  | Some f => default (JObj (create_empty_memory now)) (data f)
  | None => JObj (create_empty_memory now)
  end.

(** [temp_path.replace(file_path)] at a time of the clock. *)
Definition replace (p : string) (j : json) (at_ : Z) (st : Store) : Store :=
  with_files (<[p := {| data := Some j; mtime := at_ |}]> (files st)) st.

(** The state monad over the store; an exception keeps what was done before. *)
Definition M (A : Type) : Type := Store -> result A * Store.
Definition ret {A} (a : A) : M A := fun st => (Ok a, st).
Definition throw {A} (e : exn) : M A := fun st => (Raise e, st).
Definition lift {A} (r : result A) : M A := fun st => (r, st).
Definition bind {A B} (m : M A) (f : A -> M B) : M B :=
  fun st => match m st with (Ok a, st) => f a st | (Raise e, st) => (Raise e, st) end.

Definition with_path {A} (k : key) (f : string -> M A) : M A := bind (lift (_get_memory_file_path k)) f.

Definition hit (k : key) (m : option Z) (st : Store) : option json :=
  match cache st !! k with
  | Some (d, m') => if bool_decide (m' = m) then Some d else None
  | None => None
  end.

(** ** The methods *)

Section calls.
Context (between : nat -> Store -> Store) (now : Z).

Definition load (k : key) : M json :=
  with_path k (fun p st =>
    let m := stat p st in
    let st := between 1 st in
    match hit k m st with
    | Some d => (Ok d, st)
    | None =>
        let st := between 2 st in
        let d := read now p st in
        let st := between 3 st in
        (Ok d, with_cache k (d, m) st)
    end).

Definition reload (k : key) : M json :=
  with_path k (fun p st =>
    let d := read now p st in
    let st := between 1 st in
    let m := stat p st in
    let st := between 2 st in
    (Ok d, with_cache k (d, m) st)).

(** What [save] writes. *)
Definition saved (memory_data : dict) : json := JObj (set_key "lastUpdated" (JStr (utc_now_iso_z now)) memory_data).

(** [save]: whether the directory, the temporary file or the replacement raises
    [OSError] is an argument. *)
Definition save (fails : bool) (at_ : Z) (memory_data : dict) (k : key) : M bool :=
  with_path k (fun p st =>
    if fails then (Ok false, st) else
    let st := between 1 (replace p (saved memory_data) at_ st) in
    let m := stat p st in
    let st := between 2 st in
    (Ok true, with_cache k (saved memory_data, m) st)).

End calls.

(** ** The functions of the updater *)

(** Nobody else acts. *)
Definition alone : nat -> Store -> Store := fun _ st => st.

Context (now at_ : Z) (fails : bool) (uuid : string) (k : key).

Definition get_memory_data : M json := load alone now k.
Definition reload_memory_data : M json := reload alone now k.

(** [storage.save(...)], which has to succeed. *)
Definition save_or_raise (memory : dict) : M unit :=
  bind (save alone now fails at_ memory k) (fun ok => if ok : bool then ret tt else throw (Exn OSError "")).

Definition import_memory_data (memory : dict) : M json := bind (save_or_raise memory) (fun _ => get_memory_data).

Definition clear_memory_data : M dict :=
  let cleared_memory := create_empty_memory now in bind (save_or_raise cleared_memory) (fun _ => ret cleared_memory).

(** [_validate_confidence] *)
Definition _validate_confidence (confidence : pyfloat) : result signed :=
  match finite confidence with
  | Some c => if sle (positive fzero) c && sle c (positive one) then Ok c else Raise (Exn ValueError "confidence")
  | None => Raise (Exn ValueError "confidence")
  end.

Definition create_memory_fact (content category : string) (confidence : pyfloat) : M dict :=
  if (strip content =? "")%string then throw (Exn ValueError "content") else
  bind (lift (_validate_confidence confidence)) (fun c =>
  bind get_memory_data (fun memory =>
  bind (lift (as_dict memory)) (fun memory =>
  bind (lift (current_facts memory)) (fun facts =>
  let fact := JObj [("id", JStr ("fact_" +:+ uuid)); ("content", JStr (strip content));
                    ("category", JStr (default "context" (stripped (Some (JStr category)))));
                    ("confidence", json_float c); ("createdAt", JStr (utc_now_iso_z now)); ("source", JStr "manual")] in
  let updated_memory := set_key "facts" (JList (facts ++ [fact])) memory in
  bind (save_or_raise updated_memory) (fun _ => ret updated_memory))))).

(** [fact.get("id") == fact_id]: a value of any kind may be compared. *)
Definition has_id (fact_id : string) (f : json) : result bool :=
  d <-? as_dict f ;; Ok (match get_or "id" JNull d with JStr s => (s =? fact_id)%string | _ => false end).

Definition delete_memory_fact (fact_id : string) : M dict :=
  bind get_memory_data (fun memory =>
  bind (lift (as_dict memory)) (fun memory =>
  bind (lift (current_facts memory)) (fun facts =>
  bind (lift (rfilter (fun f => b <-? has_id fact_id f ;; Ok (negb b)) facts)) (fun updated_facts =>
  if (length updated_facts =? length facts)%nat then throw (Exn KeyError fact_id) else
  let updated_memory := set_key "facts" (JList updated_facts) memory in
  bind (save_or_raise updated_memory) (fun _ => ret updated_memory))))).

Definition edit_fact (content category : option string) (confidence : option pyfloat) (d : dict) : result dict :=
  d <-? match content with
        | Some c => if (strip c =? "")%string then Raise (Exn ValueError "content") else Ok (set_key "content" (JStr (strip c)) d)
        | None => Ok d
        end ;;
  let d := match category with
           | Some c => set_key "category" (JStr (default "context" (stripped (Some (JStr c))))) d
           | None => d
           end in
  match confidence with
  | Some c => c <-? _validate_confidence c ;; Ok (set_key "confidence" (json_float c) d)
  | None => Ok d
  end.

Definition edit_matching (fact_id : string) (content category : option string) (confidence : option pyfloat) (f : json) : result (bool * json) :=
  d <-? as_dict f ;;
  b <-? has_id fact_id f ;;
  if b : bool then d <-? edit_fact content category confidence d ;; Ok (true, JObj d) else Ok (false, f).

Definition update_memory_fact (fact_id : string) (content category : option string) (confidence : option pyfloat) : M dict :=
  bind get_memory_data (fun memory =>
  bind (lift (as_dict memory)) (fun memory =>
  bind (lift (current_facts memory)) (fun facts =>
  bind (lift (rmap (edit_matching fact_id content category confidence) facts)) (fun updated =>
  if negb (existsb fst updated) then throw (Exn KeyError fact_id) else
  let updated_memory := set_key "facts" (JList (map snd updated)) memory in
  bind (save_or_raise updated_memory) (fun _ => ret updated_memory))))).

(** [_finalize_update]: the memory was loaded before the model was asked; what
    others did in the meantime is in the store. *)
Definition _finalize_update (calls : Calls) (config : Config) (times : Times) (thread_id : option string)
    (current_memory response_content : json) : M bool :=
  bind (lift (updated_memory calls config times thread_id current_memory response_content)) (fun memory =>
  save alone now fails at_ memory k).

(** [_do_update_memory_sync] between its try and its except. *)
Definition update_memory (calls : Calls) (config : Config) (times : Times) (thread_id : option string) (messages : list Message)
    (correction_detected reinforcement_detected : bool) (invoke : Prompt -> result json) (meanwhile : Store -> Store) : M bool :=
  if negb (enabled config) || (length messages =? 0)%nat then ret false else
  bind get_memory_data (fun current_memory =>
  bind (lift (prepare calls config now messages correction_detected reinforcement_detected current_memory)) (fun prepared =>
  match prepared with
  | None => ret false
  | Some prompt =>
      bind (fun st => (invoke prompt, meanwhile st)) (fun response_content =>
      _finalize_update calls config times thread_id current_memory response_content)
  end)).

(** Every exception is [False]. *)
Definition _do_update_memory_sync (calls : Calls) (config : Config) (times : Times) (thread_id : option string) (messages : list Message)
    (correction_detected reinforcement_detected : bool) (invoke : Prompt -> result json) (meanwhile : Store -> Store) (st : Store) : bool * Store :=
  match update_memory calls config times thread_id messages correction_detected reinforcement_detected invoke meanwhile st with
  | (Ok b, st) => (b, st)
  | (Raise _, st) => (false, st)
  end.

(** ** The endpoints

    [app/gateway/routers/memory.py]: how an exception answers. *)
Definition _map_memory_fact_value_error (msg : string) : exn :=
  HTTPError 400 (JStr (if (msg =? "confidence")%string then "Invalid confidence value; must be between 0 and 1."
                       else "Memory fact content cannot be empty.")).

Definition endpoint_error (fact_id : option string) (oserror : string) (e : exn) : exn :=
  match e with
  | Exn c m =>
      if isinstance c ValueError then _map_memory_fact_value_error m
      else match fact_id with
           | Some i => if isinstance c KeyError then HTTPError 404 (JStr ("Memory fact '" +:+ i +:+ "' not found."))
                       else if isinstance c OSError then HTTPError 500 (JStr oserror) else e
           | None => if isinstance c OSError then HTTPError 500 (JStr oserror) else e
           end
  | _ => e
  end.

End store.

End MemoryStore.

(** * The queue of memory updates

    [deerflow/agents/memory/queue.py]: conversations wait for a timer, one per
    thread, user and agent; the thread of the timer takes them all and updates the
    memory for each.  A section under the lock is one operation. *)
Module MemoryQueue.

Record ConversationContext := {
  thread_id : string;
  messages : list json;
  agent_name : option string;
  user_id : option string;
  correction_detected : bool;
  reinforcement_detected : bool
}.

Definition _queue_key (c : ConversationContext) : string * option string * option string := (thread_id c, user_id c, agent_name c).
Definition same_key (c d : ConversationContext) : bool := bool_decide (_queue_key c = _queue_key d).

(** The fields of the queue, and its threads: the timers that are armed, how many
    threads are about to process the queue, and what every worker has left. *)
Record State := {
  queue : list ConversationContext;
  timer : option nat;
  processing : bool;
  armed : list nat;
  waiting : nat;
  workers : list (list ConversationContext);
  timers : nat
}.
Definition initial : State := {| queue := []; timer := None; processing := false; armed := []; waiting := 0; workers := []; timers := 0 |}.

(** [self._timer.cancel()], if there is one; a timer that has fired does not mind. *)
Definition cancelled (s : State) : list nat :=
  match timer s with Some t => List.filter (fun u => negb (bool_decide (u = t))) (armed s) | None => armed s end.

Definition _schedule_timer (s : State) : State :=
  {| queue := queue s; timer := Some (timers s); processing := processing s; armed := cancelled s ++ [timers s];
     waiting := waiting s; workers := workers s; timers := S (timers s) |}.

Definition _enqueue_locked (c : ConversationContext) (s : State) : State :=
  let existing := List.find (fun d => same_key d c) (queue s) in
  let was (flag : ConversationContext -> bool) := match existing with Some d => flag d | None => false end in
  let context := {| thread_id := thread_id c; messages := messages c; agent_name := agent_name c; user_id := user_id c;
                    correction_detected := correction_detected c || was correction_detected;
                    reinforcement_detected := reinforcement_detected c || was reinforcement_detected |} in
  {| queue := List.filter (fun d => negb (same_key d c)) (queue s) ++ [context]; timer := timer s; processing := processing s;
     armed := armed s; waiting := waiting s; workers := workers s; timers := timers s |}.

(** [add] and [add_nowait] differ in the delay of the timer. *)
Definition add (enabled : bool) (c : ConversationContext) (s : State) : State :=
  if enabled then _schedule_timer (_enqueue_locked c s) else s.

(** The first section of [_process_queue], by a thread that waits for the lock. *)
Definition _process_queue (s : State) : State :=
  let s := {| queue := queue s; timer := timer s; processing := processing s; armed := armed s;
              waiting := pred (waiting s); workers := workers s; timers := timers s |} in
  if processing s then _schedule_timer s
  else match queue s with
       | [] => s
       | contexts => {| queue := []; timer := None; processing := true; armed := armed s; waiting := waiting s;
                        workers := workers s ++ [contexts]; timers := timers s |}
       end.

(** [flush], up to its call of [_process_queue]. *)
Definition flush (s : State) : State :=
  {| queue := queue s; timer := None; processing := processing s; armed := cancelled s; waiting := S (waiting s);
     workers := workers s; timers := timers s |}.

Definition clear (s : State) : State :=
  {| queue := []; timer := None; processing := false; armed := cancelled s; waiting := waiting s; workers := workers s; timers := timers s |}.

(** A timer fires; a worker updates the memory for its next context, and ends. *)
Definition fire (t : nat) (s : State) : State :=
  {| queue := queue s; timer := timer s; processing := processing s; armed := List.filter (fun u => negb (bool_decide (u = t))) (armed s);
     waiting := S (waiting s); workers := workers s; timers := timers s |}.
Definition set_workers (w : list (list ConversationContext)) (s : State) : State :=
  {| queue := queue s; timer := timer s; processing := processing s; armed := armed s; waiting := waiting s; workers := w; timers := timers s |}.
Definition finish (w : list (list ConversationContext)) (s : State) : State :=
  {| queue := queue s; timer := timer s; processing := false; armed := armed s; waiting := waiting s; workers := w; timers := timers s |}.

(** A step of the queue: what happens, with the context whose memory is updated.
    [clear] is for tests, and left out. *)
Inductive step : State -> option ConversationContext -> State -> Prop :=
| step_add enabled c s : step s None (add enabled c s)
| step_flush s : step s None (flush s)
| step_flush_nowait s : step s None (_schedule_timer s)
| step_fire t s : t ∈ armed s -> step s None (fire t s)
| step_process s : (0 < waiting s)%nat -> step s None (_process_queue s)
| step_work s l r c rest : workers s = l ++ (c :: rest) :: r -> step s (Some c) (set_workers (l ++ rest :: r) s)
| step_finish s l r : workers s = l ++ [] :: r -> step s None (finish (l ++ r) s).

(** Runs, with the contexts whose memory was updated, in order. *)
Inductive steps : State -> list ConversationContext -> State -> Prop :=
| steps_done s : steps s [] s
| steps_more s o s' l s'' : step s o s' -> steps s' l s'' -> steps s (match o with Some c => c :: l | None => l end) s''.

End MemoryQueue.
