(* ===== verification/MemoryFacts.v ===== *)
(** * What an update does to the memory

    The theorems about [Memory]: where the facts of an updated memory come from,
    why a fact left, and that there are never more of them than the limit. *)
From S2P Require Import Prelude Json Errors Text Slices Float64 Numerals JsonText OrderedDict Evaluation PosixPaths SandboxPaths FilePaths Memory.
Import Json Errors Text Slices Float64.Float64 Numerals.Numerals Memory.

Module MemoryFacts.

(** ** Lists in the error monad *)

Definition holds (r : result bool) : bool := match r with Ok b => b | Raise _ => false end.

Lemma rmap_ok {A B} (f : A -> result B) l : forall l', rmap f l = Ok l' -> Forall2 (fun x y => f x = Ok y) l l'.
Proof.
  induction l as [|x l IH]; intros l' H; cbn in H; [injection H as <-; constructor|].
  apply rbind_ok in H as (y&Hy&H). apply rbind_ok in H as (ys&Hys&[= <-]). constructor; [done|by apply IH].
Qed.

Lemma rmap_elem {A B} (f : A -> result B) l l' y : rmap f l = Ok l' -> y ∈ l' -> exists x, x ∈ l /\ f x = Ok y.
Proof.
  intros H%rmap_ok Hy. apply list_elem_of_lookup in Hy as [i Hi].
  eapply Forall2_lookup_r in H as (x&Hx&E); [|done]. exists x. split; [by eapply list_elem_of_lookup_2|done].
Qed.

Lemma rfilter_ok {A} (f : A -> result bool) l : forall l', rfilter f l = Ok l' -> l' = List.filter (fun x => holds (f x)) l.
Proof.
  induction l as [|x l IH]; intros l' H; cbn in H; [by injection H as <-|].
  apply rbind_ok in H as (b&Hb&H). apply rbind_ok in H as (ys&Hys&[= <-]). cbn. rewrite Hb, (IH ys) by done. by destruct b.
Qed.

Lemma rfilter_elem {A} (f : A -> result bool) l l' x : rfilter f l = Ok l' -> x ∈ l' <-> x ∈ l /\ f x = Ok true.
Proof.
  intros ->%rfilter_ok. rewrite filter_elem. unfold holds. destruct (f x) as [[]|]; naive_solver.
Qed.

Lemma rfilter_total {A} (f : A -> result bool) l l' x : rfilter f l = Ok l' -> x ∈ l -> exists b, f x = Ok b.
Proof.
  revert l'. induction l as [|y l IH]; intros l' H Hx; [by apply elem_of_nil in Hx|]. cbn in H.
  apply rbind_ok in H as (b&Hb&H). apply rbind_ok in H as (ys&Hys&_).
  apply elem_of_cons in Hx as [->|Hx]; [by exists b|by eapply IH].
Qed.

(** What every step keeps, the fold keeps. *)
Lemma rfold_inv {A S} (f : S -> A -> result S) (P : S -> Prop) l : forall s s',
  (forall s x s', x ∈ l -> P s -> f s x = Ok s' -> P s') -> P s -> rfold f s l = Ok s' -> P s'.
Proof.
  induction l as [|x l IH]; intros s s' Hf Hs H; cbn in H; [by injection H as <-|].
  apply rbind_ok in H as (t&Ht&H). eapply IH; [|by eapply Hf; [left| |]|done].
  intros a b c Hb. apply Hf. by right.
Qed.

(** ** Dictionaries *)

Lemma set_inside_other k k' s v d d' : k <> k' -> set_inside k' s v d = Ok d' -> get k d' = get k d.
Proof.
  unfold set_inside. intros N H. destruct (get k' d) as [[]|]; try done. injection H as <-. by apply get_set_other.
Qed.

Lemma lookup_in_dict {V} (k : string) (v : V) d : OrderedDict.lookup k d = Some v -> (k, v) ∈ d.
Proof.
  unfold OrderedDict.lookup. destruct (List.find _ d) as [[x y]|] eqn:F; [|done]. intros [= <-].
  apply find_some_elem in F as [F E]. cbn in E. by apply bool_decide_eq_true in E as <-.
Qed.

Lemma assign_elem {V} (k : string) (v : V) d x : x ∈ OrderedDict.assign k v d -> x ∈ d /\ x.1 <> k \/ x = (k, v).
Proof.
  unfold OrderedDict.assign. destruct (bool_decide (k ∈ OrderedDict.keys d)) eqn:K.
  - rewrite elem_of_map_where. intros (y&Hy&->). destruct (bool_decide (y.1 = k)) eqn:E.
    + apply bool_decide_eq_true in E as <-. by right.
    + apply bool_decide_eq_false in E. by left.
  - rewrite elem_of_app, list_elem_of_singleton. intros [H| ->]; [left|by right]. split; [done|]. intros <-.
    apply bool_decide_eq_false in K. apply K. by apply list_elem_of_fmap_2.
Qed.

Lemma assigns_elem {V} l : forall (d : list (string * V)) x,
  x ∈ foldl (fun d kv => OrderedDict.assign kv.1 kv.2 d) d l -> x ∈ d \/ x ∈ l.
Proof.
  induction l as [|[k v] l IH]; intros d x; cbn [foldl]; [by left|].
  intros [[[H _]| ->]%assign_elem|H]%IH; [by left|by right; left|by right; right].
Qed.

(** ** The facts of a memory *)

Definition facts_in (mem : dict) : list json := match current_facts mem with Ok l => l | Raise _ => [] end.

(** The fact has one of the ids. *)
Definition names (ids : list string) (f : json) : bool :=
  match id_of f with Ok o => in_ids ids o | Raise _ => false end.

Lemma current_facts_in mem l : current_facts mem = Ok l -> facts_in mem = l.
Proof. unfold facts_in. by intros ->. Qed.

Lemma facts_in_eq mem mem' : get "facts" mem' = get "facts" mem -> facts_in mem' = facts_in mem.
Proof. unfold facts_in, current_facts, get_or. by intros ->. Qed.

Lemma facts_in_set l mem : facts_in (set_key "facts" (JList l) mem) = l.
Proof. unfold facts_in, current_facts, get_or. by rewrite get_set_same. Qed.

Lemma names_nil f : names [] f = false.
Proof. unfold names. by destruct (id_of f) as [[]|]. Qed.

Lemma names_spec ids f : names ids f = true <-> exists s, id_of f = Ok (Some s) /\ s ∈ ids.
Proof.
  unfold names, in_ids. destruct (id_of f) as [[s|]|].
  - rewrite bool_decide_eq_true. split; [by exists s|]. by intros (?&[= <-]&?).
  - split; [done|by intros (?&[=]&_)].
  - split; [done|by intros (?&[=]&_)].
Qed.

Lemma filter_everything {A} (f : A -> bool) l : (forall x, x ∈ l -> f x = true) -> List.filter f l = l.
Proof.
  induction l as [|x l IH]; intros H; [done|]. cbn. rewrite H by left. f_equal. apply IH. intros y Hy. apply H. by right.
Qed.

Lemma filter_same {A} (f g : A -> bool) l : (forall x, x ∈ l -> f x = g x) -> List.filter f l = List.filter g l.
Proof.
  induction l as [|x l IH]; intros H; [done|]. cbn. rewrite (H x) by left. rewrite IH; [done|]. intros y Hy. apply H. by right.
Qed.

Lemma filter_length_le {A} (f : A -> bool) l : (length (List.filter f l) <= length l)%nat.
Proof. induction l as [|x l IH]; cbn; [done|]. destruct (f x); cbn; lia. Qed.

Lemma fromkeys_length {A} `{EqDecision A} (l : list A) : (length (fromkeys l) <= length l)%nat.
Proof.
  unfold fromkeys. assert (forall (l d : list A), (length (foldl add_key d l) <= length d + length l)%nat) as H.
  { clear l. induction l as [|x l IH]; intros d; cbn [foldl length]; [lia|]. etransitivity; [apply IH|].
    unfold add_key. destruct (decide _); rewrite ?length_app; cbn [length]; lia. }
  exact (H l []).
Qed.

Lemma omap_length_le {A B} (f : A -> option B) l : (length (omap f l) <= length l)%nat.
Proof. induction l as [|x l IH]; cbn; [done|]. destruct (f x); cbn; lia. Qed.

(** ** The steps of an update *)

Section steps.
Context (calls : Calls) (config : Config).
Context (sorted_permutes : forall reverse l l', sorted_otherwise calls reverse l = Ok l' -> l' ≡ₚ l).

Lemma without_ok ids l l' : without ids l = Ok l' -> l' = List.filter (fun f => negb (names ids f)) l.
Proof.
  intros H. pose proof (fun x => rfilter_total _ _ _ x H) as T. rewrite (rfilter_ok _ _ _ H).
  apply filter_same. intros x Hx. apply T in Hx as [b Hb]. unfold names. destruct (id_of x); [done|]. by cbn in Hb.
Qed.

Lemma update_summaries_facts now u mem mem' : update_summaries now u mem = Ok mem' -> facts_in mem' = facts_in mem.
Proof.
  intros H. apply facts_in_eq. unfold update_summaries in H. apply rbind_ok in H as (m&Hm&H).
  assert (forall key updates section m m', key <> "facts" -> update_section now key updates m section = Ok m' -> get "facts" m' = get "facts" m) as E.
  { intros key updates section m1 m2 N U. unfold update_section in U. apply rbind_ok in U as (d&_&U).
    destruct (_ && _); [|by injection U as <-]. by eapply set_inside_other. }
  transitivity (get "facts" m).
  - eapply (rfold_inv _ (fun m' => get "facts" m' = get "facts" m)); [|done|exact H]. intros s x s' _ <- U. by apply E in U.
  - eapply (rfold_inv _ (fun m' => get "facts" m' = get "facts" mem)); [|done|exact Hm]. intros s x s' _ <- U. by apply E in U.
Qed.

Lemma remove_facts_in ids mem mem' : remove_facts ids mem = Ok mem' ->
  facts_in mem' = List.filter (fun f => negb (names ids f)) (facts_in mem).
Proof.
  unfold remove_facts. destruct (bool_decide (ids = [])) eqn:E.
  - apply bool_decide_eq_true in E as ->. intros [= <-]. symmetry. apply filter_everything. intros x _. by rewrite names_nil.
  - intros H. apply rbind_ok in H as (l&Hl&H). apply rbind_ok in H as (l'&Hl'&[= <-]).
    by rewrite facts_in_set, (current_facts_in _ _ Hl), (without_ok _ _ _ Hl').
Qed.

Lemma sort_facts_perm reverse l l' : sort_facts calls reverse l = Ok l' -> l' ≡ₚ l.
Proof.
  unfold sort_facts. intros H. apply rbind_ok in H as (keys&K&H). destruct (_ || _); [|by apply sorted_permutes in H].
  injection H as <-. rewrite stable_sort_perm. apply rmap_ok, Forall2_length in K.
  by rewrite fst_zip by lia.
Qed.

(** *** The review of aged facts *)

Definition cutoff (now : Z) : Z := now - staleness_age_days config * day.

Lemma candidate_named now mem l allowed s : _select_stale_candidates calls config now mem = Ok l -> candidate_ids l = Ok allowed ->
  s ∈ allowed <-> exists g, g ∈ facts_in mem /\ id_of g = Ok (Some s) /\ stale calls config (cutoff now) g = true.
Proof.
  unfold _select_stale_candidates, candidate_ids. intros H I.
  apply rbind_ok in H as (facts&F&[= <-]). apply rbind_ok in I as (ids&I&[= <-]). rewrite (current_facts_in _ _ F). split.
  - intros Hs. apply list_elem_of_omap in Hs as (o&Ho&E). cbn in E. subst o.
    destruct (rmap_elem _ _ _ _ I Ho) as (g&[G S]%filter_elem&E). by exists g.
  - intros (g&G&E&S). apply list_elem_of_omap. exists (Some s). split; [|done].
    assert (g ∈ List.filter (stale calls config (cutoff now)) facts) as Hg by by apply filter_elem.
    apply rmap_ok in I. apply list_elem_of_lookup in Hg as [i Hi].
    eapply Forall2_lookup_l in I as (o&Ho&Eo); [|exact Hi]. rewrite E in Eo. injection Eo as <-. by eapply list_elem_of_lookup_2.
Qed.

(** An aged fact of [l] the model names. *)
Definition outdated (now : Z) (removals : list Removal) (l : list json) (i : string) : Prop :=
  i ∈ map stale_id removals /\ exists g, g ∈ l /\ id_of g = Ok (Some i) /\ stale calls config (cutoff now) g = true.

(** The ids one review removes: all of them, or some when there are more than it may remove. *)
Record reviewed_ids (now : Z) (removals : list Removal) (l : list json) (ids : list string) : Prop := {
  ri_cap : (length ids <= staleness_max_removals_per_cycle config)%nat;
  ri_outdated : forall i, i ∈ ids -> outdated now removals l i;
  ri_all : (forall i, outdated now removals l i -> i ∈ ids) \/
    exists more, NoDup more /\ (staleness_max_removals_per_cycle config < length more)%nat /\ Forall (outdated now removals l) more
}.

Lemma review_stale_in now removals mem mem' : review_stale calls config now removals mem = Ok mem' ->
  exists ids, facts_in mem' = List.filter (fun f => negb (names ids f)) (facts_in mem) /\ reviewed_ids now removals (facts_in mem) ids.
Proof.
  unfold review_stale. destruct (bool_decide (map stale_id removals = [])) eqn:E.
  { apply bool_decide_eq_true in E. intros [= <-]. exists []. split; [symmetry; apply filter_everything; intros x _; by rewrite names_nil|].
    constructor; [apply Nat.le_0_l|intros s Hs; by apply elem_of_nil in Hs|]. left. intros i [Hi _]. rewrite E in Hi. by apply elem_of_nil in Hi. }
  intros H. apply rbind_ok in H as (ids&I&H). exists ids. split; [by apply remove_facts_in|].
  unfold stale_ids_to_remove in I. apply rbind_ok in I as (l&L&I). apply rbind_ok in I as (allowed&A&I).
  set (named := List.filter (fun s => bool_decide (s ∈ allowed)) (fromkeys (map stale_id removals))) in *.
  assert (forall s, s ∈ named <-> outdated now removals (facts_in mem) s) as N.
  { intros s. unfold named, outdated. by rewrite filter_elem, elem_of_fromkeys, bool_decide_eq_true, (candidate_named _ _ _ _ _ L A). }
  destruct (Nat.ltb_spec (staleness_max_removals_per_cycle config) (length named)) as [X|X].
  2:{ injection I as <-. constructor; [lia|by intros i; rewrite N|left; by intros i; rewrite N]. }
  apply rbind_ok in I as (facts&F&I). apply rbind_ok in I as (fs&Fs&I). apply rbind_ok in I as (ordered&O&I).
  apply rbind_ok in I as (chosen&C&[= <-]). constructor.
  - etransitivity; [apply fromkeys_length|]. etransitivity; [apply omap_length_le|].
    apply rmap_ok, Forall2_length in C. rewrite <- C, length_take. lia.
  - intros s Hs. rewrite elem_of_fromkeys in Hs. apply list_elem_of_omap in Hs as (o&Ho&Eo). cbn in Eo. subst o.
    destruct (rmap_elem _ _ _ _ C Ho) as (g&G&Eg). apply N.
    apply elem_of_take in G as (i&G&_). apply list_elem_of_lookup_2 in G.
    rewrite (sort_facts_perm _ _ _ O), (rfilter_elem _ _ _ _ Fs) in G. destruct G as [_ G].
    rewrite Eg in G. cbn in G. injection G as G. by apply bool_decide_eq_true in G.
  - right. exists named. split; [apply NoDup_ListNoDup, List.NoDup_filter, NoDup_ListNoDup, fromkeys_nodup|]. split; [done|]. apply Forall_forall. intros i. apply N.
Qed.

(** *** New facts *)

Definition fact_key (f : json) : option string := match content_key calls f with Ok o => o | Raise _ => None end.

Definition entered (now source : string) (fs : list NewFact) (g : json) : Prop :=
  exists n f, f ∈ fs /\ g = fact_entry calls now source n f /\
    sle (positive (fact_confidence_threshold config)) (new_confidence f) = true.

Lemma content_keys l keys : rmap (content_key calls) l = Ok keys -> omap id keys = omap fact_key l.
Proof.
  intros H%rmap_ok. induction H as [|x y l keys E _ IH]; [done|]. cbn. unfold fact_key at 1. rewrite E. cbn.
  destruct y; cbn; by rewrite IH.
Qed.

Lemma append_fact_in f mem mem' : append_fact f mem = Ok mem' -> facts_in mem' = facts_in mem ++ [f].
Proof.
  unfold append_fact. destruct (get "facts" mem) as [[]|] eqn:G; try done. intros [= <-].
  rewrite facts_in_set. unfold facts_in, current_facts, get_or. by rewrite G.
Qed.

Record adding (now source : string) (fs : list NewFact) (mem : dict) (s : Adding) : Prop := {
  ad_new : exists new, facts_in (a_mem s) = facts_in mem ++ new /\ Forall (entered now source fs) new /\
    NoDup (omap fact_key new) /\ (forall k, k ∈ omap fact_key new -> k ∉ omap fact_key (facts_in mem)) /\
    forall k, k ∈ a_keys s <-> k ∈ omap fact_key new \/ k ∈ omap fact_key (facts_in mem)
}.

Lemma add_fact_adding now source fs mem s f s' : f ∈ fs -> adding now source fs mem s -> add_fact calls config now source s f = Ok s' ->
  adding now source fs mem s'.
Proof.
  clear sorted_permutes. intros Hf [(new&E&F&N&D&K)]. unfold add_fact. destruct (sle _ _) eqn:T; [|by intros [= <-]; constructor; exists new].
  destruct (_fact_content_key calls (JStr (strip (new_content f)))) as [k|] eqn:Ek; [|by intros [= <-]; constructor; exists new].
  destruct (bool_decide (k ∈ a_keys s)) eqn:B; [by intros [= <-]; constructor; exists new|].
  intros H. apply rbind_ok in H as (mem'&A&[= <-]). apply bool_decide_eq_false in B. rewrite K in B.
  assert (fact_key (fact_entry calls now source (a_ids s) f) = Some k) as Q by (unfold fact_key; cbn; exact Ek).
  constructor. exists (new ++ [fact_entry calls now source (a_ids s) f]). cbn [a_mem a_keys].
  assert (omap fact_key (new ++ [fact_entry calls now source (a_ids s) f]) = omap fact_key new ++ [k]) as O
    by (rewrite omap_app; cbn [omap list_omap]; by rewrite Q).
  rewrite (append_fact_in _ _ _ A), E, O. split; [by rewrite app_assoc|]. split.
  { apply Forall_app. split; [done|]. constructor; [|done]. by exists (a_ids s), f. }
  split; [apply NoDup_app; split; [done|]; split; [|apply NoDup_singleton]; set_solver|].
  split; [set_solver|]. intros x. rewrite elem_of_cons, K. set_solver.
Qed.

Lemma add_new_facts_in now source fs mem s : add_new_facts calls config now source fs mem = Ok s -> adding now source fs mem s.
Proof.
  clear sorted_permutes. unfold add_new_facts. intros H. apply rbind_ok in H as (l&L&H). apply rbind_ok in H as (keys&K&H).
  eapply (rfold_inv _ (adding now source fs mem)); [|constructor|exact H].
  - intros s0 f s1 Hf I E. by eapply add_fact_adding.
  - exists []. cbn [a_mem a_keys]. rewrite app_nil_r, (content_keys _ _ K), (current_facts_in _ _ L).
    split; [done|]. split; [constructor|]. split; [constructor|]. split; set_solver.
Qed.

(** A new fact that is confident enough, by the content it would be known by. *)
Definition wanted (f : NewFact) (k : string) : Prop :=
  sle (positive (fact_confidence_threshold config)) (new_confidence f) = true /\
  _fact_content_key calls (JStr (strip (new_content f))) = Some k.

Lemma add_fact_keys now source s f s' : add_fact calls config now source s f = Ok s' ->
  (forall k, k ∈ a_keys s -> k ∈ a_keys s') /\ forall k, wanted f k -> k ∈ a_keys s'.
Proof.
  clear sorted_permutes. unfold add_fact, wanted. destruct (sle _ _); [|intros [= <-]; split; [done|by intros k []]].
  destruct (_fact_content_key _ _) as [k|]; [|intros [= <-]; split; [done|by intros k' []]].
  destruct (bool_decide (k ∈ a_keys s)) eqn:B.
  - apply bool_decide_eq_true in B. intros [= <-]. split; [done|]. by intros k' [_ [= <-]].
  - intros H. apply rbind_ok in H as (mem'&_&[= <-]). cbn [a_keys]. split; [intros k' H'; by right|]. intros k' [_ [= <-]]. by left.
Qed.

Lemma add_facts_keys now source fs : forall s s', rfold (add_fact calls config now source) s fs = Ok s' ->
  (forall k, k ∈ a_keys s -> k ∈ a_keys s') /\ forall f k, f ∈ fs -> wanted f k -> k ∈ a_keys s'.
Proof.
  clear sorted_permutes. induction fs as [|f fs IH]; intros s s' H; cbn in H.
  { injection H as <-. split; [done|]. intros f k Hf. by apply elem_of_nil in Hf. }
  apply rbind_ok in H as (t&T&H). destruct (add_fact_keys _ _ _ _ _ T) as [T1 T2], (IH _ _ H) as [H1 H2]. split; [auto|].
  intros g k [->|Hg]%elem_of_cons W; [by apply H1, T2|by eapply H2].
Qed.

(** Every wanted content is in the memory afterwards. *)
Lemma wanted_facts_in now source fs mem s f k : add_new_facts calls config now source fs mem = Ok s -> f ∈ fs -> wanted f k ->
  k ∈ omap fact_key (facts_in (a_mem s)).
Proof.
  intros H Hf W. pose proof (add_new_facts_in _ _ _ _ _ H) as [(new&E&_&_&_&K)]. rewrite E, omap_app, elem_of_app.
  unfold add_new_facts in H. apply rbind_ok in H as (l&_&H). apply rbind_ok in H as (keys&_&H).
  destruct (add_facts_keys _ _ _ _ _ H) as [_ A]. specialize (A f k Hf W). apply K in A. tauto.
Qed.

(** *** The limit *)

Lemma trim_facts_in mem mem' : trim_facts calls config mem = Ok mem' ->
  (facts_in mem' = facts_in mem \/
   exists sorted, sort_facts calls true (facts_in mem) = Ok sorted /\ facts_in mem' = take (max_facts config) sorted) /\
  (length (facts_in mem') <= max_facts config)%nat.
Proof.
  unfold trim_facts. intros H. apply rbind_ok in H as (j&J&H). apply of_option_ok in J. apply rbind_ok in H as (l&L&H).
  assert (facts_in mem = l) as E.
  { unfold facts_in, current_facts, get_or. rewrite J. cbn [default]. by destruct j; cbn in *; simplify_eq/=. }
  rewrite E. destruct (Nat.ltb_spec (max_facts config) (length l)) as [X|X].
  - apply rbind_ok in H as (sorted&S&[= <-]). rewrite facts_in_set. split; [right; by exists sorted|]. rewrite length_take. lia.
  - injection H as <-. rewrite E. split; [by left|done].
Qed.

(** *** Merges *)

Definition category_of (f : json) : option string :=
  match f with JObj d => stripped (Some (get_or "category" (JStr "context") d)) | _ => None end.
Definition in_category (cat : string) (f : json) : bool := bool_decide (category_of f = Some cat).

(** A category that may be consolidated: not protected, and large enough. *)
Definition eligible (facts : list json) (g : json) : Prop :=
  exists cat, category_of g = Some cat /\ cat ∉ staleness_protected_categories config /\
    (consolidation_min_facts config <= length (List.filter (in_category cat) facts))%nat.

Lemma filter_snoc {A} (f : A -> bool) l x : List.filter f (l ++ [x]) = List.filter f l ++ (if f x then [x] else []).
Proof. rewrite List.filter_app. cbn. by destruct (f x). Qed.

Definition grouped (l : list json) (d : list (string * list json)) : Prop :=
  (forall cat group, (cat, group) ∈ d -> group = List.filter (in_category cat) l) /\
  (forall cat, OrderedDict.lookup cat d = None -> List.filter (in_category cat) l = []).

Lemma lookup_assign_cases {V} (k k' : string) (v : V) d :
  OrderedDict.lookup k' (OrderedDict.assign k v d) = if decide (k' = k) then Some v else OrderedDict.lookup k' d.
Proof.
  destruct (decide (k' = k)) as [->|N]; [apply OrderedDict.lookup_assign|by apply Evaluation.lookup_after_assign].
Qed.

Lemma group_fact_grouped l d f : grouped l d -> grouped (l ++ [f]) (group_fact d f).
Proof.
  intros [G1 G2]. assert (forall cat, category_of f <> Some cat -> List.filter (in_category cat) (l ++ [f]) = List.filter (in_category cat) l) as S.
  { intros cat N. rewrite filter_snoc. unfold in_category at 2. by rewrite bool_decide_eq_false_2, app_nil_r. }
  destruct (category_of f) as [cat|] eqn:C.
  - assert (group_fact d f = OrderedDict.assign cat (default [] (OrderedDict.lookup cat d) ++ [f]) d) as ->.
    { destruct f; try done. cbn in *. by rewrite C. }
    assert (default [] (OrderedDict.lookup cat d) ++ [f] = List.filter (in_category cat) (l ++ [f])) as E.
    { rewrite filter_snoc. unfold in_category at 2. rewrite C, bool_decide_eq_true_2 by done. f_equal.
      destruct (OrderedDict.lookup cat d) as [g|] eqn:L; cbn; [by apply G1, lookup_in_dict|by rewrite G2]. }
    split.
    + intros c g [[H N]|[= -> ->]]%assign_elem; [|done]. cbn in N. rewrite S by congruence. by apply G1.
    + intros c. rewrite lookup_assign_cases. destruct (decide (c = cat)) as [->|N]; [done|]. rewrite S by congruence. apply G2.
  - assert (group_fact d f = d) as -> by (destruct f; try done; cbn in *; by rewrite C).
    split; [intros c g H; rewrite S by done; by apply G1|intros c H; rewrite S by done; by apply G2].
Qed.

Lemma groups_grouped l : forall l0 d, grouped l0 d -> grouped (l0 ++ l) (foldl group_fact d l).
Proof.
  induction l as [|f l IH]; intros l0 d G; [by rewrite app_nil_r|]. cbn [foldl].
  replace (l0 ++ f :: l) with ((l0 ++ [f]) ++ l) by (by rewrite <- app_assoc). by apply IH, group_fact_grouped.
Qed.

Lemma allowed_eligible mem allowed s : allowed_source_ids config mem = Ok allowed -> s ∈ allowed ->
  exists g, g ∈ facts_in mem /\ id_of g = Ok (Some s) /\ eligible (facts_in mem) g.
Proof.
  unfold allowed_source_ids. intros H Hs. apply rbind_ok in H as (groups&G&H). apply rbind_ok in H as (ids&I&[= <-]).
  apply list_elem_of_omap in Hs as (o&Ho&Eo). cbn in Eo. subst o. destruct (rmap_elem _ _ _ _ I Ho) as (g&Hg&Eg).
  unfold _select_consolidation_candidates in G. destruct (truthy (get_or "facts" (JList []) mem)).
  2:{ injection G as <-. cbn in Hg. by apply elem_of_nil in Hg. }
  apply rbind_ok in G as (l&L&[= <-]). assert (facts_in mem = l) as -> by (unfold facts_in, current_facts; by rewrite L).
  apply list_elem_of_In, in_concat in Hg as (group&Hgroup%list_elem_of_In&Hg%list_elem_of_In). apply list_elem_of_fmap in Hgroup as ([cat gr]&->&K).
  apply filter_elem in K as [K B]. bprop. cbn in *.
  assert (grouped l (foldl group_fact [] l)) as [G1 _].
  { change l with ([] ++ l) at 1. apply groups_grouped. split; [intros ? ? X; by apply elem_of_nil in X|done]. }
  apply G1 in K as ->. apply filter_elem in Hg as [Hg C]. exists g. split; [done|]. split.
  - unfold required_id in Eg. unfold id_of. apply rbind_ok in Eg as (d&->&Eg). apply rbind_ok in Eg as (j&J&Eg).
    apply of_option_ok in J. cbn. unfold get_or. by rewrite J.
  - exists cat. unfold in_category in C. apply bool_decide_eq_true in C. split; [done|]. split; [done|]. by apply Nat.leb_le.
Qed.

Lemma index_elem l index s d : fact_index l = Ok index -> OrderedDict.lookup s index = Some d ->
  JObj d ∈ l /\ id_of (JObj d) = Ok (Some s).
Proof.
  unfold fact_index. intros H L. apply rbind_ok in H as (l'&H&[= <-]).
  apply lookup_in_dict, assigns_elem in L as [L|L]; [by apply elem_of_nil in L|].
  apply list_elem_of_omap in L as (o&Ho&Eo). cbn in Eo. subst o. destruct (rmap_elem _ _ _ _ H Ho) as (g&Hg&Eg).
  apply filter_elem in Hg as [Hg _]. unfold index_entry in Eg. apply rbind_ok in Eg as (d'&D&Eg).
  apply rbind_ok in Eg as (o&O&Eg). destruct o as [s'|]; [|done]. injection Eg as -> ->.
  destruct g; try done. injection D as ->. done.
Qed.

(** The fact [g] is the merge [m] of facts: what it is made of, and how confident
    it may be. *)
Definition merge_of (now : string) (merged_at : Z) (facts : list json) (m : Merge) (g : json) : Prop :=
  exists n sources confidences c, g = merged_fact calls now merged_at n m sources c /\
    (2 <= length (source_ids m) <= consolidation_max_sources config)%nat /\
    Forall2 (fun i d => JObj d ∈ facts /\ id_of (JObj d) = Ok (Some i)) (source_ids m) sources /\
    rmap _coerce_source_confidence sources = Ok confidences /\
    fle c (fmax confidences) = true /\ fle c one = true /\ fle (fact_confidence_threshold config) c = true.

Record merging (now : string) (merged_at : Z) (facts : list json) (allowed : list string) (ms done : list Merge) (s : Merging) : Prop := {
  mg_done : Forall (fun m => m ∈ ms) done;
  mg_consumed : consumed s = List.concat (map source_ids done);
  mg_nodup : NoDup (consumed s);
  mg_allowed : Forall (fun i => i ∈ allowed) (consumed s);
  mg_groups : (length (made s) <= consolidation_max_groups_per_cycle config)%nat;
  mg_made : Forall2 (merge_of now merged_at facts) done (made s)
}.

Lemma fle_fmin_l x y : fle (fmin x y) x = true.
Proof. unfold fmin. destruct (fle x y) eqn:E; [unfold fle; lia|]. destruct (fle_total x y); congruence. Qed.

Lemma fle_fmin_r x y : fle (fmin x y) y = true.
Proof. unfold fmin. destruct (fle x y) eqn:E; [done|unfold fle; lia]. Qed.

Lemma clamp_le_one x : fle (clamp x) one = true.
Proof. unfold clamp. destruct (_ || _); [reflexivity|]. destruct (fle x.2 one) eqn:E; [done|reflexivity]. Qed.

Lemma sources_in facts index ids : fact_index facts = Ok index ->
  Forall (fun d => JObj d ∈ facts) (omap (fun sid => OrderedDict.lookup sid index) ids).
Proof.
  intros X. apply Forall_forall. intros d Hd. apply list_elem_of_omap in Hd as (sid&_&L). by eapply index_elem.
Qed.

Lemma sources_of facts index ids : fact_index facts = Ok index -> (forall i, i ∈ ids -> is_Some (OrderedDict.lookup i index)) ->
  Forall2 (fun i d => JObj d ∈ facts /\ id_of (JObj d) = Ok (Some i)) ids (omap (fun sid => OrderedDict.lookup sid index) ids).
Proof.
  intros X. induction ids as [|i ids IH]; intros K; cbn; [constructor|]. destruct (K i ltac:(left)) as [d L]. rewrite L.
  constructor; [by eapply index_elem|]. apply IH. intros j Hj. apply K. by right.
Qed.

Lemma merge_one_merging now merged_at facts index allowed ms s m s' :
  fact_index facts = Ok index -> m ∈ ms -> NoDup (source_ids m) ->
  (exists done, merging now merged_at facts allowed ms done s) ->
  merge_one calls config now merged_at index allowed s m = Ok s' -> exists done, merging now merged_at facts allowed ms done s'.
Proof.
  intros X Hm Nm M. unfold merge_one. destruct (Nat.leb_spec (consolidation_max_groups_per_cycle config) (length (made s))) as [G|G]; [by intros [= <-]|].
  destruct (existsb _ (source_ids m)) eqn:Ex; [by intros [= <-]|].
  destruct (negb _) eqn:Len; [by intros [= <-]|]. destruct (_ =? _)%string; [by intros [= <-]|].
  intros H. apply rbind_ok in H as (confs&C&H). destruct (negb (fle _ _)) eqn:T; [by injection H as <-|]. injection H as <-.
  bprop. rewrite Nat.leb_le in *.
  assert (forall i, i ∈ source_ids m -> i ∉ consumed s /\ is_Some (OrderedDict.lookup i index) /\ i ∈ allowed) as K.
  { intros i Hi. assert (existsb (fun sid => bool_decide (sid ∈ consumed s) || bool_decide (OrderedDict.lookup sid index = None) ||
                         negb (bool_decide (sid ∈ allowed))) (source_ids m) <> true) as N by congruence.
    rewrite existsb_exists in N. destruct (decide (i ∉ consumed s /\ is_Some (OrderedDict.lookup i index) /\ i ∈ allowed)) as [D|D]; [done|].
    exfalso. apply N. exists i. split; [by apply list_elem_of_In|]. rewrite !orb_true_iff, negb_true_iff, !bool_decide_eq_true, bool_decide_eq_false.
    destruct (OrderedDict.lookup i index) eqn:L; [|by left; right]. destruct (decide (i ∈ consumed s)); [by left; left|]. right. intros A. apply D. by split_and!. }
  destruct M as [done [M1 M2 M3 M4 M5 M6]]. exists (done ++ [m]). constructor; cbn [consumed made].
  - apply Forall_app. by split; [|constructor].
  - rewrite map_app, concat_app. cbn. by rewrite app_nil_r, M2.
  - apply NoDup_app. split; [done|]. split; [|done]. intros i Hi Hi'. by apply K in Hi' as [].
  - apply Forall_app. split; [done|]. apply Forall_forall. intros i Hi. by apply K.
  - rewrite length_app. cbn. lia.
  - apply Forall2_app; [done|]. constructor; [|done]. eexists (m_ids s), _, confs, _. split; [done|].
    split; [lia|]. split; [apply sources_of; [done|]; intros i Hi; by apply K|]. split; [done|]. split; [apply fle_fmin_r|]. split; [|done].
    eapply fle_trans; [apply fle_fmin_l|apply clamp_le_one].
Qed.

Lemma named_length ids facts : NoDup ids -> (forall i, i ∈ ids -> exists g, g ∈ facts /\ id_of g = Ok (Some i)) ->
  (length ids <= length (List.filter (names ids) facts))%nat.
Proof.
  intros N H. etransitivity; [|apply (omap_length_le (fun g => match id_of g with Ok o => o | Raise _ => None end))].
  apply NoDup_incl_length; [by apply NoDup_ListNoDup|]. intros i Hi%list_elem_of_In. apply list_elem_of_In, list_elem_of_omap.
  destruct (H i Hi) as (g&Hg&E). exists g. rewrite E. split; [|done]. apply filter_elem. split; [done|]. apply names_spec. by exists i.
Qed.

Lemma filter_split {A} (f : A -> bool) l : (length (List.filter f l) + length (List.filter (fun x => negb (f x)) l) = length l)%nat.
Proof. induction l as [|x l IH]; cbn; [done|]. destruct (f x); cbn; lia. Qed.

Definition merged_ids (done : list Merge) : list string := List.concat (map source_ids done).

(** The merges [done] of the facts [l], and the facts they make: each of the merges
    [ms] the model names at most once, of facts of their own, if merging is on and
    their categories may be merged. *)
Record merges (now : string) (merged_at : Z) (ms : list Merge) (l : list json) (done : list Merge) (new : list json) : Prop := {
  me_named : Forall (fun m => m ∈ ms) done;
  me_enabled : done <> [] -> consolidation_enabled config = true;
  me_made : Forall2 (merge_of now merged_at l) done new;
  me_apart : NoDup (merged_ids done);
  me_eligible : Forall (fun i => exists g, g ∈ l /\ id_of g = Ok (Some i) /\ eligible l g) (merged_ids done);
  me_groups : (length new <= consolidation_max_groups_per_cycle config)%nat
}.

Lemma no_merges now merged_at ms l : merges now merged_at ms l [] [].
Proof. constructor; [constructor|done|constructor|constructor|constructor|apply Nat.le_0_l]. Qed.

Lemma not_merged l : List.filter (fun f => negb (names (merged_ids []) f)) l ++ [] = l.
Proof. rewrite app_nil_r. apply filter_everything. intros x _. by rewrite names_nil. Qed.

Lemma consolidate_in now merged_at n ms mem mem' : Forall (fun m => NoDup (source_ids m)) ms ->
  consolidate calls config now merged_at n ms mem = Ok mem' ->
  exists done new, merges now merged_at ms (facts_in mem) done new /\
    facts_in mem' = List.filter (fun f => negb (names (merged_ids done) f)) (facts_in mem) ++ new.
Proof.
  intros Nms.
  unfold consolidate. destruct (negb _ || _) eqn:En; [intros [= <-]; exists [], []; split; [apply no_merges|by rewrite not_merged]|]. bprop.
  intros R. apply rbind_ok in R as (facts&F&R). apply rbind_ok in R as (index&X&R). apply rbind_ok in R as (allowed&A&R).
  apply rbind_ok in R as (s&S&R). pose proof (current_facts_in _ _ F) as Ef.
  assert (exists done, merging now merged_at facts allowed ms done s) as [done [M1 M2 M3 M4 M5 M6]].
  { eapply (rfold_inv _ (fun s => exists done, merging now merged_at facts allowed ms done s)); [| |exact S].
    - intros t m t' Hm It Et. eapply merge_one_merging; [done|done| |exact It|exact Et]. rewrite Forall_forall in Nms. by apply Nms.
    - exists []. constructor; cbn [consumed made]; [constructor|done|constructor|constructor|apply Nat.le_0_l|constructor]. }
  destruct (bool_decide (consumed s = [])) eqn:Em.
  { injection R as <-. exists [], []. split; [apply no_merges|by rewrite not_merged]. }
  apply rbind_ok in R as (kept&K&[= <-]). rewrite Ef. exists done, (made s). unfold merged_ids. rewrite <- M2. split.
  - constructor; [done|done|done|unfold merged_ids; by rewrite <- M2| |done]. unfold merged_ids. rewrite <- M2. eapply Forall_impl; [exact M4|].
    cbn. intros i Hi. rewrite <- Ef. by eapply allowed_eligible.
  - by rewrite facts_in_set, (without_ok _ _ _ K).
Qed.

(** A merge makes one fact of two at least: merging never adds to the memory. *)
Lemma merges_shrink now merged_at ms l done new : merges now merged_at ms l done new ->
  (length (List.filter (fun f => negb (names (merged_ids done) f)) l ++ new) <= length l)%nat.
Proof.
  intros [_ _ Mm Ma Me _]. rewrite length_app. pose proof (filter_split (names (merged_ids done)) l).
  enough (length new <= length (merged_ids done))%nat as L.
  { enough (length (merged_ids done) <= length (List.filter (names (merged_ids done)) l))%nat by lia. apply named_length; [done|].
    intros i Hi. rewrite Forall_forall in Me. destruct (Me i Hi) as (g&?&?&_). by exists g. }
  clear - Mm. induction Mm as [|m g done new (n&src&cs&c&_&[L _]&_) _ IH]; unfold merged_ids in *; cbn; [done|]. rewrite length_app. lia.
Qed.

End steps.

(** ** Sorting by confidence *)

Definition numeric (l : list json) : Prop := forall f k, f ∈ l -> confidence_key f = Ok k -> comparable_number k = true.
(** The confidence of [g] is not below that of [f]. *)
Definition outranks (g f : json) : Prop :=
  forall x y, confidence_key f = Ok x -> confidence_key g = Ok y -> confidence_le x y = true.

Definition rank (j : json) : Evaluation.number :=
  match Evaluation.number_of j with
  | Some (Evaluation.Exact p q) => Evaluation.Exact p q
  | Some (Evaluation.Beyond n) => Evaluation.Beyond n
  | _ => Evaluation.Exact 0 1
  end.
Definition rank_le (x y : json) : bool := number_le (rank x) (rank y).

Lemma rank_pos j p q : rank j = Evaluation.Exact p q -> 0 < q.
Proof.
  unfold rank. destruct j as [|b|z|r|s|l|d]; cbn; try (intros [= <- <-]; lia).
  destruct (float_of_text r) as [[neg x| |]|]; cbn; try (intros [= <- <-]; lia); try done.
  intros [= <- <-]. apply den_pos.
Qed.

Lemma rank_number j : rank j <> Evaluation.NotANumber.
Proof. unfold rank. by destruct (Evaluation.number_of j) as [[]|]. Qed.

Lemma rank_le_total x y : rank_le x y = true \/ rank_le y x = true.
Proof.
  unfold rank_le. pose proof (rank_number x). pose proof (rank_number y).
  destruct (rank x) as [p q|[]|], (rank y) as [p' q'|[]|]; cbn; try done; try (by left); try (by right).
  rewrite !Z.leb_le. lia.
Qed.

Lemma rank_le_trans x y z : rank_le x y = true -> rank_le y z = true -> rank_le x z = true.
Proof.
  unfold rank_le. destruct (rank x) as [p q|[]|] eqn:X, (rank y) as [p' q'|[]|] eqn:Y, (rank z) as [p'' q''|[]|] eqn:Z; cbn; try done.
  apply rank_pos in X, Y, Z. rewrite !Z.leb_le. intros H1 H2.
  assert (p * q' * q'' <= p' * q * q'') by (apply Z.mul_le_mono_nonneg_r; lia).
  assert (p' * q'' * q <= p'' * q' * q) by (apply Z.mul_le_mono_nonneg_r; lia).
  apply (Z.mul_le_mono_pos_r _ _ q'); nia.
Qed.

Lemma confidence_rank x y : comparable_number x = true -> comparable_number y = true -> confidence_le x y = rank_le x y.
Proof.
  unfold comparable_number, rank_le, rank, confidence_le.
  destruct (Evaluation.number_of x) as [[]|] eqn:X, (Evaluation.number_of y) as [[]|] eqn:Y; try done; intros _ _; destruct x, y; done.
Qed.

Lemma insert_sorted_same {A} (le le' : A -> A -> bool) x l : (forall y, y ∈ l -> le x y = le' x y) -> insert_sorted le x l = insert_sorted le' x l.
Proof.
  induction l as [|y l IH]; intros H; cbn; [done|]. rewrite (H y) by left. destruct (le' x y); [done|]. rewrite IH; [done|].
  intros z Hz. apply H. by right.
Qed.

Lemma stable_sort_same {A} (le le' : A -> A -> bool) l : (forall x y, x ∈ l -> y ∈ l -> le x y = le' x y) -> stable_sort le l = stable_sort le' l.
Proof.
  induction l as [|x l IH]; intros H; cbn; [done|]. unfold stable_sort in IH. rewrite IH.
  - apply insert_sorted_same. intros y Hy. apply H; [left|]. right. by rewrite <- (stable_sort_perm le' l).
  - intros a b Ha Hb. apply H; by right.
Qed.

Lemma rmap_zip {A B} (f : A -> result B) l l' x y : rmap f l = Ok l' -> (x, y) ∈ zip l l' -> x ∈ l /\ f x = Ok y.
Proof.
  intros H%rmap_ok. induction H as [|a b l l' E _ IH]; cbn; intros Hx; [by apply elem_of_nil in Hx|].
  apply elem_of_cons in Hx as [[= -> ->]|Hx]; [split; [left|done]|]. destruct (IH Hx). split; [by right|done].
Qed.

(** What is cut off ranks below what is kept. *)
Lemma cut_outranked calls l sorted n f g : numeric l -> sort_facts calls true l = Ok sorted ->
  f ∈ drop n sorted -> g ∈ take n sorted -> outranks g f.
Proof.
  unfold sort_facts. intros N H Hf Hg. apply rbind_ok in H as (keys&K&H).
  assert (forallb comparable_number keys = true) as C.
  { apply forallb_forall. intros k Hk%list_elem_of_In. destruct (rmap_elem _ _ _ _ K Hk) as (x&Hx&E). eauto. }
  rewrite C in H. cbn [orb] in H. injection H as <-.
  set (le := fun x y : json * json => confidence_le y.2 x.2) in *. set (le' := fun x y : json * json => rank_le y.2 x.2).
  assert (stable_sort le (zip l keys) = stable_sort le' (zip l keys)) as E.
  { apply stable_sort_same. intros [x kx] [y ky] Hx Hy. unfold le, le'. cbn.
    destruct (rmap_zip _ _ _ _ _ K Hx), (rmap_zip _ _ _ _ _ K Hy). apply confidence_rank; eauto. }
  rewrite E in *. rewrite <- fmap_drop in Hf. rewrite <- fmap_take in Hg.
  apply list_elem_of_fmap in Hf as ([f' kf]&->&Hf), Hg as ([g' kg]&->&Hg). cbn.
  assert (StronglySorted (fun x y => le' x y = true) (stable_sort le' (zip l keys))) as S.
  { apply stable_sort_sorted; [intros x y; apply rank_le_total|intros x y z H1 H2; exact (rank_le_trans _ _ _ H2 H1)]. }
  rewrite <- (take_drop n (stable_sort le' (zip l keys))) in S.
  assert (le' (g', kg) (f', kf) = true) as L by (exact (StronglySorted_app_1_elem_of _ _ _ _ _ S Hg Hf)).
  assert ((f', kf) ∈ zip l keys /\ (g', kg) ∈ zip l keys) as [Zf Zg].
  { split; rewrite <- (stable_sort_perm le' (zip l keys)); [by eapply subseteq_drop|by eapply subseteq_take]. }
  destruct (rmap_zip _ _ _ _ _ K Zf) as [If Ef], (rmap_zip _ _ _ _ _ K Zg) as [Ig Eg].
  intros x y Hx Hy. rewrite Ef in Hx. rewrite Eg in Hy. injection Hx as <-. injection Hy as <-.
  rewrite confidence_rank by (eauto). exact L.
Qed.

(** ** Confidences *)

Lemma rnd_nonneg p q : 0 <= p -> 0 < q -> 0 <= num (rnd p q).
Proof. intros P Q. destruct (Z.eq_dec p 0) as [->|N]; [done|]. pose proof (rnd_positive p q ltac:(lia) Q). lia. Qed.

Definition nonneg (x : signed) : Prop := 0 <= num x.2.

Lemma of_decimal_nonneg neg m e b x : 0 <= m -> of_decimal neg m e = Finite b x -> 0 <= num x.
Proof.
  unfold of_decimal. intros M. destruct (_ <=? _); [done|]. intros [= _ <-].
  apply rnd_nonneg; [apply Z.mul_nonneg_nonneg; [done|apply Z.pow_nonneg; lia]|apply Z.pow_pos_nonneg; lia].
Qed.

Lemma digit_nonneg c d : digit_of c = Some d -> 0 <= d.
Proof. unfold digit_of. destruct (_ && _) eqn:E; [|done]. intros [= <-]. apply andb_true_iff in E as [E%N.leb_le _]. lia. Qed.

Lemma digit_run_nonneg s : forall a n, 0 <= a -> 0 <= (digit_run a n s).1.1.
Proof.
  induction s as [|c s IH]; intros a n H; [done|]. cbn. destruct (digit_of c) as [d|] eqn:D.
  - apply digit_nonneg in D. apply IH. lia.
  - destruct s; [done|]. destruct (_ && _); [|done]. by apply IH.
Qed.

Lemma decimal_nonneg neg m k n rest b x : 0 <= m ->
  (if n =? 0 then None else option_map (fun e => of_decimal neg m (e - k)) (exponent_part rest)) = Some (Finite b x) -> 0 <= num x.
Proof.
  intros M. destruct (n =? 0); [done|]. destruct (exponent_part rest); [|done]. intros [= E]. by eapply of_decimal_nonneg.
Qed.

Lemma unsigned_nonneg neg s b x : unsigned_float neg s = Some (Finite b x) -> 0 <= num x.
Proof.
  unfold unsigned_float. destruct (bool_decide _); [done|]. destruct (_ =? _)%string; [done|].
  pose proof (digit_run_nonneg s 0 0 ltac:(lia)) as H. destruct (digit_run 0 0 s) as [[m n] rest]. cbn in H.
  destruct (match rest with String c _ => Ascii.eqb c "." | _ => false end) eqn:Dot; [|rewrite dot_match by done; by apply decimal_nonneg].
  destruct rest as [|c r]; [done|]. apply Ascii.eqb_eq in Dot as ->.
  destruct (match r with String c _ => Ascii.eqb c "_" | _ => false end) eqn:Us.
  - destruct r as [|c r]; [done|]. apply Ascii.eqb_eq in Us as ->. by apply decimal_nonneg.
  - rewrite underscore_match by done. pose proof (digit_run_nonneg r m 0 H) as H'.
    destruct (digit_run m 0 r) as [[m2 k2] r2]. by apply decimal_nonneg.
Qed.

Lemma float_of_text_nonneg s b x : float_of_text s = Some (Finite b x) -> 0 <= num x.
Proof. unfold float_of_text. destruct (strip s) as [|[[] [] [] [] [] [] [] []] t]; apply unsigned_nonneg. Qed.

Lemma to_float_nonneg j x y : to_float j = Ok x -> finite x = Some y -> nonneg y.
Proof.
  unfold nonneg. destruct j as [|b|z|r|s|l|d]; cbn; try done.
  - intros [= <-] [= <-]. destruct b; cbn; by vm_compute.
  - destruct (_ <=? _); [done|]. intros [= <-] [= <-]. apply rnd_nonneg; lia.
  - intros H. apply of_option_ok in H. destruct x; try done. intros [= <-]. by eapply float_of_text_nonneg.
  - intros H. apply of_option_ok in H. destruct x; try done. intros [= <-]. by eapply float_of_text_nonneg.
Qed.

Lemma number_of_float x : nonneg x -> comparable_number (json_float x) = true.
Proof.
  intros H. unfold comparable_number, json_float, Evaluation.number_of.
  destruct (repr_reads x.1 x.2 H) as (m&e&->). unfold of_decimal. by destruct (_ <=? _).
Qed.

Lemma clamp_nonneg x : nonneg x -> 0 <= num (clamp x).
Proof. intros H. unfold clamp. destruct (_ || _); [done|]. destruct (fle x.2 one); [done|by vm_compute]. Qed.

Lemma coerce_nonneg d c : _coerce_source_confidence d = Ok c -> 0 <= num c.
Proof.
  assert (forall j c, match to_float j with
      | Ok x => Ok (match finite x with Some x => clamp x | None => half end)
      | Raise e => if isinstance (class_of e) TypeError || isinstance (class_of e) ValueError then Ok half else Raise e
      end = Ok c -> 0 <= num c) as H.
  { intros j c'. destruct (to_float j) as [x|e] eqn:E.
    - intros [= <-]. destruct (finite x) as [y|] eqn:F; [|by vm_compute]. by eapply clamp_nonneg, to_float_nonneg.
    - destruct (_ || _); [|done]. intros [= <-]. by vm_compute. }
  unfold _coerce_source_confidence. destruct (get_or "confidence" JNull d); try (intros [= <-]; by vm_compute); apply H.
Qed.

Lemma fmax_nonneg l : Forall (fun c => 0 <= num c) l -> 0 <= num (fmax l).
Proof.
  unfold fmax. assert (0 <= num fzero) as Z by done. revert Z. generalize fzero. induction l as [|x l IH]; intros m M F; [done|].
  apply Forall_cons in F as [X F]. cbn. apply IH; [|done]. by destruct (fle x m).
Qed.

Lemma fmin_nonneg x y : 0 <= num x -> 0 <= num y -> 0 <= num (fmin x y).
Proof. intros X Y. unfold fmin. by destruct (fle x y). Qed.

(** What the update of a conversation is, once normalised. *)
Record sound (u : Update) : Prop := {
  sound_new : Forall (fun f => nonneg (new_confidence f)) (newFacts u);
  sound_merges : Forall (fun m => NoDup (source_ids m) /\ nonneg (merge_confidence m)) (factsToConsolidate u)
}.

Lemma normalize_fact_sound j f : _normalize_memory_update_fact j = Ok (Some f) -> nonneg (new_confidence f).
Proof.
  unfold _normalize_memory_update_fact. destruct j as [| | | | | |d]; try done. destruct (stripped _); [|done].
  intros H. apply rbind_ok in H as (c&C&H). destruct c as [c|]; [|done]. injection H as <-. cbn.
  unfold new_fact_confidence in C. destruct (get_or "confidence" (JFloat "0.5") d) as [|b|z|r|t|l|e] eqn:G; try done.
  - apply rbind_ok in C as (x&X&[= C]). by eapply to_float_nonneg.
  - apply rbind_ok in C as (x&X&[= C]). by eapply to_float_nonneg.
  - destruct (_ =? _)%string; [done|]. injection C as C. destruct (float_of_text (strip t)) as [[]|] eqn:F; try done.
    injection C as <-. by eapply float_of_text_nonneg.
Qed.

Lemma normalize_merge_sound j m : normalize_merge j = Ok (Some m) -> NoDup (source_ids m) /\ nonneg (merge_confidence m).
Proof.
  unfold normalize_merge. destruct j as [| | | | | |d]; try done. destruct (get "sourceIds" d) as [[| | | | |ids|]|]; try done.
  destruct (_ <? _)%nat; [done|]. destruct (get "consolidated" d) as [[| | | | | |e]|]; try done. destruct (stripped _); [|done].
  intros H. apply rbind_ok in H as (c&C&[= <-]). cbn. split; [apply fromkeys_nodup|].
  assert (nonneg (positive nine_tenths)) as N by by vm_compute.
  destruct (get_or "confidence" _ e); try (injection C as <-; exact N); apply rbind_ok in C as (x&X&[= <-]);
    (destruct (finite x) as [y|] eqn:F; [by eapply to_float_nonneg|exact N]).
Qed.

Lemma normalize_sound d u : _normalize_memory_update_data d = Ok u -> sound u.
Proof.
  unfold _normalize_memory_update_data. intros H. apply rbind_ok in H as (facts&F&H). destruct (_ && _); [done|].
  apply rbind_ok in H as (merges&M&[= <-]). constructor; cbn [newFacts factsToConsolidate]; apply Forall_forall.
  - intros f Hf. apply list_elem_of_omap in Hf as (o&Ho&E). cbn in E. subst o.
    destruct (rmap_elem _ _ _ _ F Ho) as (j&_&J). by eapply normalize_fact_sound.
  - intros m Hm. apply list_elem_of_omap in Hm as (o&Ho&E). cbn in E. subst o.
    destruct (rmap_elem _ _ _ _ M Ho) as (j&_&J). by eapply normalize_merge_sound.
Qed.

Lemma first_update_sound s u : first_update s = Ok u -> sound u.
Proof.
  induction s as [|c s IH]; cbn -[JsonText.value required_keys forallb]; [done|]. destruct (Ascii.eqb c "{"); [|done].
  destruct (JsonText.value _ _) as [[[] ?]|]; try done. destruct (forallb _ required_keys); [|done]. apply normalize_sound.
Qed.

(** ** Uploads *)

Section spec.
Context (calls : Calls) (config : Config) (times : Times).
Context (sorted_permutes : forall reverse l l', sorted_otherwise calls reverse l = Ok l' -> l' ≡ₚ l).

Definition about_upload (f : json) : bool :=
  match f with
  | JObj d => match get_or "content" (JStr "") d with JStr s => describes_upload (word_beyond calls) s | _ => false end
  | _ => false
  end.

Lemma clean_sections_facts mem section mem' : section <> "facts" -> clean_sections (word_beyond calls) mem section = Ok mem' ->
  get "facts" mem' = get "facts" mem.
Proof.
  unfold clean_sections. intros N H. apply rbind_ok in H as (data&_&H). apply rbind_ok in H as (c&_&[= <-]).
  destruct (get section mem); [|done]. by rewrite get_set_other.
Qed.

Lemma strip_facts mem mem' : _strip_upload_mentions_from_memory (word_beyond calls) mem = Ok mem' ->
  facts_in mem' = List.filter (fun f => negb (about_upload f)) (facts_in mem).
Proof.
  unfold _strip_upload_mentions_from_memory. intros H. apply rbind_ok in H as (m&M&H).
  assert (get "facts" m = get "facts" mem) as E.
  { cbn in M. apply rbind_ok in M as (m1&M1&M). apply rbind_ok in M as (m2&M2&[= <-]).
    by rewrite (clean_sections_facts m1 "history" m2 ltac:(discriminate) M2), (clean_sections_facts mem "user" m1 ltac:(discriminate) M1). }
  rewrite <- (facts_in_eq _ _ E). destruct (truthy (get_or "facts" (JList []) m)) eqn:T.
  - apply rbind_ok in H as (l&L&H). apply rbind_ok in H as (kept&K&[= <-]). rewrite facts_in_set.
    assert (facts_in m = l) as -> by (unfold facts_in, current_facts; by rewrite L).
    rewrite (rfilter_ok _ _ _ K). apply filter_same. intros x Hx. destruct (rfilter_total _ _ _ x K Hx) as [b Hb].
    unfold keep_fact in *. unfold about_upload. destruct x; try done. cbn in *. by destruct (get_or "content" (JStr "") kvs).
  - injection H as <-. assert (facts_in m = []) as ->; [|done]. unfold facts_in, current_facts.
    destruct (get_or "facts" (JList []) m) as [|b|z|r|t|l|d]; cbn in *; try done.
    + apply negb_false_iff, String.eqb_eq in T. by subst t.
    + apply negb_false_iff, bool_decide_eq_true in T. by destruct l.
    + apply negb_false_iff, bool_decide_eq_true in T. by destruct d.
Qed.

(** ** Where facts go, and where they come from *)

Definition source_of (thread_id : option string) : string :=
  match thread_id with Some t => if (t =? "")%string then "unknown" else t | None => "unknown" end.

(** The facts that stay when those the model says are contradicted, and then the
    [aged] ones, have left.  Facts are named by their ids, which another fact may
    share. *)
Definition remaining (u : Update) (l : list json) : list json := List.filter (fun f => negb (names (factsToRemove u) f)) l.
Definition stayed (u : Update) (l : list json) (aged : list string) : list json := List.filter (fun f => negb (names aged f)) (remaining u l).

(** The facts [l'] that an update makes of the facts [l]:
    - the contradicted ones and the [aged] ones leave;
    - the [new] ones enter: each is one the model gave, confident enough, with a
      content unlike all others; and every confident one is there, or its content was;
    - when there are more than the limit allows, [cut] is what leaves, and as many as
      the limit allows are [held]: every fact is one or the other, and none that is
      cut ranks above one that is held;
    - the merges [done] replace their sources by the facts [made];
    - facts about uploads leave. *)
Record course (u : Update) (thread_id : option string) (l l' : list json)
    (aged : list string) (new held cut : list json) (done : list Merge) (made : list json) : Prop := {
  co_aged : reviewed_ids calls config (reviewed times) (staleFactsToRemove u) (remaining u l) aged;
  co_new : Forall (entered calls config (utc_now_iso_z (started times)) (source_of thread_id) (newFacts u)) new;
  co_distinct : NoDup (omap (fact_key calls) new);
  co_fresh : forall k, k ∈ omap (fact_key calls) new -> k ∉ omap (fact_key calls) (stayed u l aged);
  co_wanted : forall f k, f ∈ newFacts u -> wanted calls config f k -> k ∈ omap (fact_key calls) (stayed u l aged ++ new);
  co_parts : held ++ cut ≡ₚ stayed u l aged ++ new;
  co_limit : length held = Nat.min (max_facts config) (length (stayed u l aged ++ new));
  co_ranked : numeric l -> forall f g, f ∈ cut -> g ∈ held -> outranks g f;
  co_merges : merges calls config (utc_now_iso_z (started times)) (merged times) (factsToConsolidate u) held done made;
  co_result : l' = List.filter (fun f => negb (about_upload f)) (List.filter (fun f => negb (names (merged_ids done) f)) held ++ made)
}.

(** A fact with one of these ids. *)
Definition known_by (ids : list string) (f : json) : Prop := exists i, id_of f = Ok (Some i) /\ i ∈ ids.

Lemma entered_numeric now source u l : sound u -> numeric l -> forall new, Forall (entered calls config now source (newFacts u)) new -> numeric (l ++ new).
Proof.
  intros [S _] N new E f k Hf Hk. apply elem_of_app in Hf as [Hf|Hf]; [by eapply N|].
  rewrite Forall_forall in E. destruct (E f Hf) as (n&nf&Hn&->&_). unfold confidence_key in Hk. cbn -[json_float] in Hk.
  injection Hk as <-. apply number_of_float. rewrite Forall_forall in S. by apply S.
Qed.

(** The step of the limit. *)
Lemma trim_parts mem mem' : trim_facts calls config mem = Ok mem' ->
  exists cut, facts_in mem' ++ cut ≡ₚ facts_in mem /\ length (facts_in mem') = Nat.min (max_facts config) (length (facts_in mem)) /\
    (numeric (facts_in mem) -> forall f g, f ∈ cut -> g ∈ facts_in mem' -> outranks g f).
Proof.
  intros T. apply trim_facts_in in T as [[E|(sorted&O&E)] L]; rewrite E in *.
  { exists []. rewrite app_nil_r. split; [done|]. split; [lia|]. intros _ f g Hf. by apply elem_of_nil in Hf. }
  pose proof (sort_facts_perm calls sorted_permutes _ _ _ O) as P. exists (drop (max_facts config) sorted). rewrite take_drop.
  split; [done|]. split; [by rewrite length_take, P|]. intros N f g. by apply (cut_outranked calls (facts_in mem)).
Qed.

Lemma stayed_in u l aged f : f ∈ stayed u l aged -> f ∈ l.
Proof. unfold stayed, remaining. by intros [[H _]%filter_elem _]%filter_elem. Qed.

(** When the answer of the model can be applied, the facts take their course. *)
Lemma update_accounted thread_id mem response mem' :
  updated_memory calls config times thread_id (JObj mem) response = Ok mem' ->
  exists u aged new held cut done made, _parse_memory_update_response calls response = Ok u /\
    course u thread_id (facts_in mem) (facts_in mem') aged new held cut done made.
Proof.
  unfold updated_memory. intros H. apply rbind_ok in H as (u&U&H). apply rbind_ok in H as (m&[= <-]&H).
  apply rbind_ok in H as (m6&A&X). pose proof (first_update_sound _ _ U) as S. apply strip_facts in X as E7.
  unfold _apply_updates in A. change (match thread_id with Some t => if (t =? "")%string then "unknown" else t | None => "unknown" end) with (source_of thread_id) in A.
  apply rbind_ok in A as (m1&A1&A). apply rbind_ok in A as (m2&A2&A). apply rbind_ok in A as (m3&A3&A).
  apply rbind_ok in A as (s&A4&A). apply rbind_ok in A as (m5&A5&A6).
  apply update_summaries_facts in A1 as E1. apply remove_facts_in in A2 as E2. rewrite E1 in E2. fold (remaining u (facts_in mem)) in E2.
  destruct (review_stale_in calls config sorted_permutes _ _ _ _ A3) as (aged&E3&R). rewrite E2 in E3, R. fold (stayed u (facts_in mem) aged) in E3.
  pose proof (fun f k => wanted_facts_in calls config _ _ _ _ _ f k A4) as W.
  apply add_new_facts_in in A4 as [(new&E4&Fn&Nn&Dn&_)]. rewrite E4, E3 in W. rewrite E3 in Dn.
  destruct (trim_parts _ _ A5) as (cut&P&L&K). rewrite E4, E3 in P, L, K.
  apply consolidate_in in A6 as (done&made&M&E6); [|eapply Forall_impl; [exact (sound_merges _ S)|]; by intros ? []].
  exists u, aged, new, (facts_in m5), cut, done, made. split; [done|]. constructor; try done.
  - intros N. apply K. eapply entered_numeric; [done| |done]. intros f k Hf. eapply N, stayed_in, Hf.
  - by rewrite E7, E6.
Qed.

Lemma known_by_names ids f : names ids f = true -> known_by ids f.
Proof. intros (i&E&H)%names_spec. by exists i. Qed.

Lemma kept_filter (p : json -> bool) l f : f ∈ l -> f ∈ List.filter (fun x => negb (p x)) l \/ p f = true.
Proof. intros H. destruct (p f) eqn:E; [by right|left]. apply filter_elem. by rewrite E. Qed.

(** Why a fact is gone. *)
Lemma course_gone u thread_id l l' aged new held cut done made f : course u thread_id l l' aged new held cut done made -> f ∈ l ->
  f ∈ l' \/ known_by (factsToRemove u) f \/ known_by aged f \/ f ∈ cut \/ known_by (merged_ids done) f \/ about_upload f = true.
Proof.
  intros C Hf. destruct (kept_filter (names (factsToRemove u)) _ _ Hf) as [F1|G]; [|apply known_by_names in G; tauto].
  destruct (kept_filter (names aged) _ _ F1) as [F2|G]; [|apply known_by_names in G; tauto].
  assert (f ∈ held ++ cut) as F3 by (rewrite (co_parts _ _ _ _ _ _ _ _ _ _ C); apply elem_of_app; by left).
  apply elem_of_app in F3 as [F3|F3]; [|tauto].
  destruct (kept_filter (names (merged_ids done)) _ _ F3) as [F4|G]; [|apply known_by_names in G; tauto].
  rewrite (co_result _ _ _ _ _ _ _ _ _ _ C). destruct (about_upload f) eqn:U; [tauto|]. left. apply filter_elem. rewrite U. split; [|done].
  apply elem_of_app. by left.
Qed.

Lemma course_limit u thread_id l l' aged new held cut done made : course u thread_id l l' aged new held cut done made ->
  (length l' <= max_facts config)%nat.
Proof.
  intros C. rewrite (co_result _ _ _ _ _ _ _ _ _ _ C). etransitivity; [apply filter_length_le|].
  etransitivity; [eapply merges_shrink, (co_merges _ _ _ _ _ _ _ _ _ _ C)|]. rewrite (co_limit _ _ _ _ _ _ _ _ _ _ C). lia.
Qed.

End spec.

(** ** A well-formed memory is updated *)

Lemma rmap_total {A B} (f : A -> result B) l : (forall x, x ∈ l -> exists y, f x = Ok y) -> exists l', rmap f l = Ok l'.
Proof.
  induction l as [|x l IH]; intros H; cbn; [by eexists|]. destruct (H x ltac:(left)) as [y ->].
  destruct IH as [l' ->]; [intros z Hz; apply H; by right|]. by eexists.
Qed.

Lemma rfilter_succeeds {A} (f : A -> result bool) l : (forall x, x ∈ l -> exists b, f x = Ok b) -> exists l', rfilter f l = Ok l'.
Proof.
  induction l as [|x l IH]; intros H; cbn; [by eexists|]. destruct (H x ltac:(left)) as [y ->].
  destruct IH as [l' ->]; [intros z Hz; apply H; by right|]. by eexists.
Qed.

Lemma rfold_total {A S} (f : S -> A -> result S) (P : S -> Prop) l : forall s,
  (forall s x, x ∈ l -> P s -> exists s', f s x = Ok s' /\ P s') -> P s -> exists s', rfold f s l = Ok s' /\ P s'.
Proof.
  induction l as [|x l IH]; intros s Hf Hs; cbn; [by eexists|]. destruct (Hf s x ltac:(left) Hs) as (t&->&Ht). cbn.
  apply IH; [|done]. intros a b Hb. apply Hf. by right.
Qed.

(** A fact with a text for an id and a content, and a number for its confidence. *)
Record fact_ok (f : json) : Prop := {
  fo_dict : exists d i c, f = JObj d /\ get "id" d = Some (JStr i) /\ get "content" d = Some (JStr c) /\
    comparable_number (get_or "confidence" (JInt 0) d) = true /\ exists x, _coerce_source_confidence d = Ok x
}.

(** A section: its summary, if any, is a text. *)
Definition summary_ok (j : json) : Prop := exists j', clean_section (fun _ => false) j = Ok j'.
Definition sections_ok (d : dict) : Prop := Forall (fun kv : string * json => summary_ok kv.2) d.

Record well_formed (mem : dict) : Prop := {
  wf_user : exists d, get "user" mem = Some (JObj d) /\ sections_ok d;
  wf_history : exists d, get "history" mem = Some (JObj d) /\ sections_ok d;
  wf_facts : exists l, get "facts" mem = Some (JList l) /\ Forall fact_ok l
}.

(** The summaries the model gives are texts of dictionaries. *)
Definition polite_section (d : dict) (section : string) : Prop :=
  match get section d with
  | None => True
  | Some (JObj e) => match get "summary" e with None | Some JNull | Some (JStr _) => True | _ => False end
  | _ => False
  end.
Definition polite (u : Update) : Prop := Forall (polite_section (user u)) user_sections /\ Forall (polite_section (history u)) history_sections.

Lemma set_key_elem k v d x : x ∈ set_key k v d -> x ∈ d \/ x = (k, v).
Proof.
  unfold set_key. destruct (get k d).
  - rewrite elem_of_map_where. intros (y&Hy&->). destruct (y.1 =? k)%string eqn:E; [|by left]. apply String.eqb_eq in E as <-. by right.
  - rewrite elem_of_app, list_elem_of_singleton. done.
Qed.

Lemma set_sections section v d : sections_ok d -> summary_ok v -> sections_ok (set_key section v d).
Proof.
  unfold sections_ok. rewrite !Forall_forall. intros H V x Hx. apply set_key_elem in Hx as [Hx| ->]; [by apply H|done].
Qed.

Definition holds_sections (key : string) (mem : dict) : Prop := exists d, get key mem = Some (JObj d) /\ sections_ok d.

Lemma update_section_total now key updates mem section : holds_sections key mem -> polite_section updates section ->
  exists mem', update_section now key updates mem section = Ok mem' /\ holds_sections key mem' /\ forall k, k <> key -> get k mem' = get k mem.
Proof.
  intros (d&G&S) P. unfold update_section, polite_section, get_or in *.
  assert (forall e, (match get "summary" e with None | Some JNull | Some (JStr _) => True | _ => False end) ->
    exists mem', (if truthy (default JNull (get "shouldUpdate" e)) && truthy (default JNull (get "summary" e))
                  then set_inside key section (JObj [("summary", default JNull (get "summary" e)); ("updatedAt", JStr now)]) mem else Ok mem) = Ok mem' /\
      holds_sections key mem' /\ forall k, k <> key -> get k mem' = get k mem) as Q.
  { intros e He. destruct (truthy (default JNull (get "shouldUpdate" e)) && truthy (default JNull (get "summary" e))) eqn:T.
    2:{ exists mem. split; [done|]. split; [by exists d|done]. }
    bprop. unfold set_inside. rewrite G. eexists. split; [done|]. split.
    - eexists. rewrite get_set_same. split; [done|]. apply set_sections; [done|]. unfold summary_ok, clean_section.
      destruct (get "summary" e) as [[]|]; try done. cbn. by eexists.
    - intros k N. by rewrite get_set_other. }
  destruct (get section updates) as [[| | | | | |e]|]; try done; cbn [default as_dict]; cbn [rbind]; [by apply Q|apply (Q []); done].
Qed.

Lemma update_sections_total now key updates sections mem : holds_sections key mem -> Forall (polite_section updates) sections ->
  exists mem', rfold (update_section now key updates) mem sections = Ok mem' /\ holds_sections key mem' /\ forall k, k <> key -> get k mem' = get k mem.
Proof.
  intros H P. rewrite Forall_forall in P.
  apply (rfold_total _ (fun m => holds_sections key m /\ forall k, k <> key -> get k m = get k mem)); [|done].
  intros m section Hs [Hm Em]. destruct (update_section_total now key updates m section Hm (P _ Hs)) as (m'&E&H'&O).
  exists m'. split; [done|]. split; [done|]. intros k N. by rewrite O, Em.
Qed.

Lemma update_summaries_total now u mem : well_formed mem -> polite u -> exists mem', update_summaries now u mem = Ok mem' /\ well_formed mem'.
Proof.
  intros [U H (l&F&Fl)] [P1 P2]. unfold update_summaries.
  destruct (update_sections_total now "user" (user u) user_sections mem U P1) as (m1&->&U1&O1). cbn [rbind].
  assert (holds_sections "history" m1) as H1 by (destruct H as (d&G&S); exists d; split; [by rewrite O1|done]).
  destruct (update_sections_total now "history" (history u) history_sections m1 H1 P2) as (m2&->&H2&O2). exists m2. split; [done|].
  constructor; [destruct U1 as (d&G&S); exists d; by rewrite O2|done|]. exists l. by rewrite O2, O1.
Qed.

(** What only changes the facts keeps a memory well-formed. *)
Lemma set_facts_ok l mem : well_formed mem -> Forall fact_ok l -> well_formed (set_key "facts" (JList l) mem).
Proof.
  intros [(d&U&S) (h&H&T) _] F. constructor; [exists d; by rewrite get_set_other|exists h; by rewrite get_set_other|].
  exists l. by rewrite get_set_same.
Qed.

Lemma well_formed_facts mem : well_formed mem -> current_facts mem = Ok (facts_in mem) /\ get "facts" mem = Some (JList (facts_in mem)) /\ Forall fact_ok (facts_in mem).
Proof.
  intros [_ _ (l&G&F)]. assert (current_facts mem = Ok l) as E by (unfold current_facts, get_or; by rewrite G).
  by rewrite (current_facts_in _ _ E).
Qed.

Lemma fact_ok_id f : fact_ok f -> exists i, id_of f = Ok (Some i).
Proof. intros [(d&i&c&->&I&_)]. exists i. unfold id_of, get_or. cbn. by rewrite I. Qed.

Lemma filter_facts_ok {P : json -> Prop} (p : json -> bool) l : Forall P l -> Forall P (List.filter p l).
Proof. rewrite !Forall_forall. intros H x [Hx _]%filter_elem. by apply H. Qed.

Lemma without_total ids l : Forall fact_ok l -> exists l', without ids l = Ok l' /\ Forall fact_ok l'.
Proof.
  intros F. destruct (rfilter_succeeds (fun f => o <-? id_of f ;; Ok (negb (in_ids ids o))) l) as [l' E].
  - intros x Hx. rewrite Forall_forall in F. destruct (fact_ok_id x (F x Hx)) as [i ->]. by eexists.
  - exists l'. split; [exact E|]. rewrite (rfilter_ok _ _ _ E). by apply filter_facts_ok.
Qed.

Lemma remove_facts_total ids mem : well_formed mem -> exists mem', remove_facts ids mem = Ok mem' /\ well_formed mem'.
Proof.
  intros W. unfold remove_facts. destruct (bool_decide _); [by exists mem|]. destruct (well_formed_facts mem W) as (->&_&F).
  cbn [rbind]. destruct (without_total ids _ F) as (l'&->&F'). eexists. split; [done|]. by apply set_facts_ok.
Qed.

Lemma numeric_ok l : Forall fact_ok l -> numeric l.
Proof.
  intros F f k Hf Hk. rewrite Forall_forall in F. destruct (F f Hf) as [(d&i&c&->&_&_&N&_)]. cbn in Hk. by injection Hk as <-.
Qed.

Lemma sort_facts_total calls reverse l : Forall fact_ok l -> exists l', sort_facts calls reverse l = Ok l' /\ l' ≡ₚ l.
Proof.
  intros F. unfold sort_facts. destruct (rmap_total confidence_key l) as [keys K].
  - intros x Hx. rewrite Forall_forall in F. destruct (F x Hx) as [(d&i&c&->&_)]. by eexists.
  - rewrite K. cbn [rbind]. assert (forallb comparable_number keys = true) as ->.
    { apply forallb_forall. intros k Hk%list_elem_of_In. destruct (rmap_elem _ _ _ _ K Hk) as (x&Hx&E). by eapply numeric_ok. }
    eexists. split; [done|]. rewrite stable_sort_perm. apply rmap_ok, Forall2_length in K. by rewrite fst_zip by lia.
Qed.

Lemma ids_total l : Forall fact_ok l -> exists ids, rmap id_of l = Ok ids.
Proof. intros F. apply rmap_total. intros x Hx. rewrite Forall_forall in F. destruct (fact_ok_id x (F x Hx)) as [i ->]. by eexists. Qed.

Lemma perm_facts_ok l l' : l' ≡ₚ l -> Forall fact_ok l -> Forall fact_ok l'.
Proof. by intros ->. Qed.

Lemma review_total calls config now removals mem : well_formed mem -> exists mem', review_stale calls config now removals mem = Ok mem' /\ well_formed mem'.
Proof.
  intros W. unfold review_stale. destruct (bool_decide _); [by exists mem|]. destruct (well_formed_facts mem W) as (E&_&F).
  assert (exists ids, stale_ids_to_remove calls config now removals mem = Ok ids) as [ids ->]; [|by apply remove_facts_total].
  unfold stale_ids_to_remove, _select_stale_candidates, candidate_ids. rewrite E. cbn [rbind].
  set (cs := List.filter _ (facts_in mem)). destruct (ids_total cs (filter_facts_ok _ _ F)) as [l ->]. cbn [rbind].
  destruct (_ <? _)%nat; [|by eexists].
  match goal with |- context [rfilter ?p (facts_in mem)] => destruct (rfilter_succeeds p (facts_in mem)) as [named N] end.
  { intros x Hx. rewrite Forall_forall in F. destruct (fact_ok_id x (F x Hx)) as [i ->]. by eexists. }
  rewrite N. cbn [rbind]. assert (Forall fact_ok named) as Fn by (rewrite (rfilter_ok _ _ _ N); by apply filter_facts_ok).
  destruct (sort_facts_total calls false named Fn) as (ordered&->&P). cbn [rbind].
  destruct (ids_total (take (staleness_max_removals_per_cycle config) ordered)) as [chosen ->]; [apply Forall_take; by eapply perm_facts_ok|]. by eexists.
Qed.

Lemma coerce_written d x : nonneg x -> get_or "confidence" JNull d = json_float x -> exists y, _coerce_source_confidence d = Ok y.
Proof.
  intros N E. unfold _coerce_source_confidence. rewrite E. unfold json_float, to_float. destruct (repr_reads x.1 x.2 N) as (m&e&->). by eexists.
Qed.

Lemma entry_ok calls now source n f : nonneg (new_confidence f) -> fact_ok (fact_entry calls now source n f).
Proof.
  intros N. constructor. eexists _, _, _. split; [reflexivity|]. split; [reflexivity|]. split; [reflexivity|]. split; [by apply number_of_float|].
  by eapply (coerce_written _ (new_confidence f)).
Qed.

Lemma merged_ok calls now merged_at n m sources c : 0 <= num c -> fact_ok (merged_fact calls now merged_at n m sources c).
Proof.
  intros N. constructor. eexists _, _, _. split; [reflexivity|]. split; [reflexivity|]. split; [reflexivity|].
  split; [by apply (number_of_float (positive c))|]. by eapply (coerce_written _ (positive c)).
Qed.

Lemma add_new_facts_total calls config now source fs mem : well_formed mem -> Forall (fun f => nonneg (new_confidence f)) fs ->
  exists s, add_new_facts calls config now source fs mem = Ok s /\ well_formed (a_mem s).
Proof.
  intros W N. unfold add_new_facts. destruct (well_formed_facts mem W) as (->&_&F). cbn [rbind].
  destruct (rmap_total (content_key calls) (facts_in mem)) as [keys ->].
  { intros x Hx. rewrite Forall_forall in F. destruct (F x Hx) as [(d&i&c&->&_)]. by eexists. }
  cbn [rbind]. apply (rfold_total _ (fun s => well_formed (a_mem s))); [|done]. intros s f Hf Ws. unfold add_fact.
  destruct (sle _ _); [|by exists s]. destruct (_fact_content_key calls (JStr (strip (new_content f)))); [|by exists s].
  destruct (bool_decide _); [by exists s|]. destruct (well_formed_facts _ Ws) as (_&G&Fs). unfold append_fact. rewrite G. cbn [rbind].
  eexists. split; [done|]. apply set_facts_ok; [done|]. apply Forall_app. split; [done|]. constructor; [|done]. apply entry_ok.
  rewrite Forall_forall in N. by apply N.
Qed.

Lemma trim_total calls config mem : well_formed mem -> exists mem', trim_facts calls config mem = Ok mem' /\ well_formed mem'.
Proof.
  intros W. destruct (well_formed_facts mem W) as (_&G&F). unfold trim_facts. rewrite G. cbn [of_option rbind sized items].
  destruct (_ <? _)%nat; [|by exists mem]. destruct (sort_facts_total calls true _ F) as (sorted&->&P). cbn [rbind].
  eexists. split; [done|]. apply set_facts_ok; [done|]. apply Forall_take. by eapply perm_facts_ok.
Qed.

Lemma index_total l : Forall fact_ok l -> exists index, fact_index l = Ok index.
Proof.
  intros F. unfold fact_index. destruct (rmap_total index_entry (List.filter is_dict l)) as [l' ->]; [|by eexists].
  intros x [Hx _]%filter_elem. rewrite Forall_forall in F. unfold index_entry. destruct (fact_ok_id x (F x Hx)) as [i ->].
  destruct (F x Hx) as [(d&j&c&->&_)]. by eexists.
Qed.

Lemma allowed_total config mem : well_formed mem -> exists allowed, allowed_source_ids config mem = Ok allowed.
Proof.
  intros W. destruct (well_formed_facts mem W) as (E&G&F). unfold allowed_source_ids.
  assert (exists groups, _select_consolidation_candidates config mem = Ok groups /\ forall kv f, kv ∈ groups -> f ∈ kv.2 -> f ∈ facts_in mem) as (groups&->&K).
  { unfold _select_consolidation_candidates. destruct (truthy _); [|exists []; split; [done|intros kv f Hkv; by apply elem_of_nil in Hkv]].
    unfold current_facts in E. rewrite E. cbn [rbind]. eexists. split; [done|]. intros [cat gr] f [Hg _]%filter_elem Hf. cbn in Hf.
    assert (grouped (facts_in mem) (foldl group_fact [] (facts_in mem))) as [G1 _].
    { change (facts_in mem) with ([] ++ facts_in mem) at 1. apply groups_grouped. split; [intros ? ? X; by apply elem_of_nil in X|done]. }
    apply G1 in Hg as ->. by apply filter_elem in Hf as [Hf _]. }
  cbn [rbind]. destruct (rmap_total required_id (List.concat (map snd groups))) as [ids ->]; [|by eexists].
  intros f Hf. apply list_elem_of_In, in_concat in Hf as (gr&Hgr%list_elem_of_In&Hf%list_elem_of_In).
  apply list_elem_of_fmap in Hgr as (kv&->&Hkv). rewrite Forall_forall in F.
  destruct (F f (K kv f Hkv Hf)) as [(d&i&c&->&I&_)]. unfold required_id. cbn. rewrite I. by eexists.
Qed.

Lemma consolidate_total calls config now merged_at n ms mem : well_formed mem ->
  Forall (fun m => NoDup (source_ids m) /\ nonneg (merge_confidence m)) ms ->
  exists mem', consolidate calls config now merged_at n ms mem = Ok mem' /\ well_formed mem'.
Proof.
  intros W M. unfold consolidate. destruct (_ || _); [by exists mem|]. destruct (well_formed_facts mem W) as (->&_&F). cbn [rbind].
  destruct (index_total _ F) as [index X]. rewrite X. destruct (allowed_total config mem W) as [allowed ->]. cbn [rbind].
  match goal with |- context [rfold ?f ?s0 ms] => destruct (rfold_total f (fun s => Forall fact_ok (made s)) ms s0) as (s&->&S) end; [|constructor|].
  - intros s m Hm Fs. rewrite !Forall_forall in M. destruct (M m Hm) as [_ Nm]. unfold merge_one.
    destruct (_ <=? _)%nat; [by exists s|]. destruct (existsb _ _); [by exists s|]. destruct (negb _); [by exists s|]. destruct (_ =? _)%string; [by exists s|].
    set (sources := omap _ (source_ids m)). destruct (rmap_total _coerce_source_confidence sources) as [confs C].
    { intros d Hd. pose proof (sources_in (facts_in mem) index (source_ids m) X) as Hs. rewrite Forall_forall in Hs. rewrite Forall_forall in F.
      destruct (F _ (Hs d Hd)) as [(d'&i&c&[= <-]&_&_&_&E)]. exact E. }
    rewrite C. cbn [rbind]. destruct (negb _); [by exists s|]. eexists. split; [done|]. cbn. apply Forall_app. split; [done|].
    constructor; [|done]. apply merged_ok, fmin_nonneg; [by apply clamp_nonneg|]. apply fmax_nonneg, Forall_forall. intros c Hc.
    destruct (rmap_elem _ _ _ _ C Hc) as (d&_&E). by eapply coerce_nonneg.
  - cbn [rbind]. destruct (bool_decide _); [by exists mem|]. destruct (without_total (consumed s) _ F) as (kept&->&Fk). cbn [rbind].
    eexists. split; [done|]. apply set_facts_ok; [done|]. by apply Forall_app.
Qed.

Lemma clean_section_total w j : summary_ok j -> exists j', clean_section w j = Ok j' /\ summary_ok j'.
Proof.
  intros [j0 H]. unfold summary_ok, clean_section in *.
  destruct j as [|bo|z|r|t|l|d]; try (eexists; split; [reflexivity|eexists; reflexivity]).
  destruct (get "summary" d) as [[|bo|z|r|t|l|e]|] eqn:G; try done; (eexists; split; [reflexivity|]); cbn; rewrite ?get_set_same, ?G; by eexists.
Qed.

Lemma clean_sections_total w mem section : holds_sections section mem ->
  exists mem', clean_sections w mem section = Ok mem' /\ holds_sections section mem' /\ forall k, k <> section -> get k mem' = get k mem.
Proof.
  intros (d&G&S). unfold clean_sections, get_or. rewrite G. change (as_dict (default (JObj []) (Some (JObj d)))) with (Ok d). cbn [rbind].
  match goal with |- context [rmap ?f d] => assert (exists d', rmap f d = Ok d' /\ sections_ok d') as (d'&->&S') end.
  { clear G. induction S as [|[k j] d Hj _ (d'&IH&S')]; cbn [rmap]; [exists []; split; [done|constructor]|].
    destruct (clean_section_total w j Hj) as (j'&E&Hj'). cbn [fst snd] in *. rewrite E. cbn [rbind]. rewrite IH. cbn [rbind].
    eexists. split; [done|]. by constructor. }
  cbn [rbind]. eexists. split; [done|]. split; [exists d'; by rewrite get_set_same|]. intros k N. by rewrite get_set_other.
Qed.

Lemma strip_total w mem : well_formed mem -> exists mem', _strip_upload_mentions_from_memory w mem = Ok mem' /\ well_formed mem'.
Proof.
  intros [U H (l&G&F)]. unfold _strip_upload_mentions_from_memory. cbn [rfold].
  destruct (clean_sections_total w mem "user" U) as (m1&->&U1&O1). cbn [rbind].
  assert (holds_sections "history" m1) as H1 by (destruct H as (d&Gh&S); exists d; by rewrite O1).
  destruct (clean_sections_total w m1 "history" H1) as (m2&->&H2&O2). cbn [rbind].
  assert (well_formed m2) as W2.
  { constructor; [destruct U1 as (d&Gu&S); exists d; by rewrite O2|done|]. exists l. by rewrite O2, O1. }
  destruct (truthy _); [|by exists m2]. destruct (well_formed_facts m2 W2) as (E&_&F2). unfold current_facts in E. rewrite E. cbn [rbind].
  destruct (rfilter_succeeds (keep_fact w) (facts_in m2)) as [kept K].
  { intros x Hx. rewrite Forall_forall in F2. destruct (F2 x Hx) as [(d&i&c&->&_&C&_)]. unfold keep_fact, get_or. cbn. rewrite C. by eexists. }
  rewrite K. cbn [rbind]. eexists. split; [done|]. apply set_facts_ok; [done|]. rewrite (rfilter_ok _ _ _ K). by apply filter_facts_ok.
Qed.

(** Whatever facts, removals and merges the model answers, nothing raises, as long
    as the summaries it gives are texts. *)
Lemma update_succeeds calls config times thread_id mem response u :
  well_formed mem -> _parse_memory_update_response calls response = Ok u -> polite u ->
  exists mem', updated_memory calls config times thread_id (JObj mem) response = Ok mem' /\ well_formed mem'.
Proof.
  intros W E P. destruct (first_update_sound _ _ E) as [Sn Sm]. unfold updated_memory. rewrite E. cbn [rbind as_dict]. unfold _apply_updates.
  destruct (update_summaries_total (utc_now_iso_z (started times)) u mem W P) as (m1&->&W1). cbn [rbind].
  destruct (remove_facts_total (factsToRemove u) m1 W1) as (m2&->&W2). cbn [rbind].
  destruct (review_total calls config (reviewed times) (staleFactsToRemove u) m2 W2) as (m3&->&W3). cbn [rbind].
  match goal with |- context [add_new_facts calls config ?now ?source ?fs m3] => destruct (add_new_facts_total calls config now source fs m3 W3 Sn) as (s&->&W4) end.
  cbn [rbind]. destruct (trim_total calls config (a_mem s) W4) as (m5&->&W5). cbn [rbind].
  match goal with |- context [consolidate calls config ?now ?at_ ?n ?ms m5] => destruct (consolidate_total calls config now at_ n ms m5 W5 Sm) as (m6&->&W6) end.
  cbn [rbind]. by apply strip_total.
Qed.


(** ** An update *)

Definition demo_calls : Calls := {|
  hex8 n := "0000000" +:+ pretty (Z.of_nat n);
  fromisoformat s := if (s =? "2020-01-01T00:00:00Z")%string then Some (1577836800 * Clock.second, 0) else None;
  casefold := lower; word_beyond _ := false; str_of _ := ""; sorted_otherwise _ _ := Raise (Exn TypeError "") |}.
Definition demo_config : Config := {|
  enabled := true; max_facts := 6; fact_confidence_threshold := rnd 7 10; staleness_review_enabled := true;
  staleness_age_days := 90; staleness_min_candidates := 1; staleness_max_removals_per_cycle := 1;
  staleness_protected_categories := ["correction"]; consolidation_enabled := true; consolidation_min_facts := 3;
  consolidation_max_groups_per_cycle := 3; consolidation_max_sources := 8 |}.
Definition demo_times : Times := let t := 1700000000 * Clock.second in {| started := t; reviewed := t; merged := t |}.

Definition fact (id content category confidence : string) : json :=
  JObj [("id", JStr id); ("content", JStr content); ("category", JStr category); ("confidence", JFloat confidence);
        ("createdAt", JStr "2020-01-01T00:00:00Z")].
Definition demo_memory (facts : list json) : dict := [("user", JObj []); ("history", JObj []); ("facts", JList facts)].
Definition demo_facts : list json :=
  [fact "f1" "Likes tea" "preference" "0.8"; fact "f2" "Likes black tea" "preference" "0.9"; fact "f3" "Likes cake" "preference" "0.75";
   fact "f4" "Say please" "correction" "0.95"; fact "f5" "Works in Bonn" "context" "0.9"].
Definition answer (more : dict) : json :=
  JStr (print (JObj ([("user", JObj []); ("history", JObj []); ("factsToRemove", JList [])] ++ more))).
Definition demo_answer : json := answer
  [("newFacts", JList [JObj [("content", JStr " Moved to Kiel "); ("confidence", JFloat "0.95")];
                       JObj [("content", JStr "Uploaded a file"); ("confidence", JFloat "0.9")];
                       JObj [("content", JStr "likes TEA"); ("confidence", JFloat "0.9")]]);
   ("staleFactsToRemove", JList [JObj [("id", JStr "f5")]; JObj [("id", JStr "f4")]]);
   ("factsToConsolidate", JList [JObj [("sourceIds", JList [JStr "f1"; JStr "f2"]);
                                       ("consolidated", JObj [("content", JStr "Likes tea, best black"); ("category", JStr "preference"); ("confidence", JFloat "1.5")])]])].

Lemma demo_well_formed : well_formed (demo_memory demo_facts).
Proof.
  constructor; [exists []; by repeat constructor|exists []; by repeat constructor|]. exists demo_facts. split; [done|].
  unfold demo_facts. repeat constructor; (eexists _, _, _; split; [reflexivity|]; split; [reflexivity|]; split; [reflexivity|]; split; [vm_compute; reflexivity|eexists; vm_compute; reflexivity]).
Qed.

Definition contents (m : dict) : list (option json) := map (fun f => match f with JObj d => get "content" d | _ => None end) (facts_in m).


(** ** What the code does not do *)

(** One fact without an id, in a category that is large enough, makes every update
    with a merge fail: the review of aged facts guards against such facts, the
    consolidation does not. *)
Lemma idless_fact_blocks_merges :
  let idless := JObj [("content", JStr "Likes pie"); ("category", JStr "preference"); ("confidence", JFloat "0.9")] in
  let merge := answer [("newFacts", JList []);
                       ("factsToConsolidate", JList [JObj [("sourceIds", JList [JStr "f1"; JStr "f2"]);
                                                           ("consolidated", JObj [("content", JStr "Likes tea")])]])] in
  updated_memory demo_calls demo_config demo_times None (JObj (demo_memory (demo_facts ++ [idless]))) merge = Raise (Exn KeyError "id").
Proof. vm_compute. reflexivity. Qed.

(** A new fact keeps whatever confidence the model gives it. *)
Lemma new_confidence_unbounded : exists mem',
  updated_memory demo_calls demo_config demo_times None (JObj (demo_memory []))
    (answer [("newFacts", JList [JObj [("content", JStr "Likes tea"); ("confidence", JInt 5)]])]) = Ok mem' /\
  map (fun f => match f with JObj d => get "confidence" d | _ => None end) (facts_in mem') = [Some (JFloat "5.0")].
Proof. eexists. split; [vm_compute; reflexivity|vm_compute; reflexivity]. Qed.

(** A path of uploads, behind a space, is no mention of an upload. *)
Lemma upload_path_unnoticed :
  let s := "The report is at /mnt/user-data/uploads/t1/report.csv" in
  describes_upload (fun _ => false) s = false /\ clean_summary (fun _ => false) s = s.
Proof. split; vm_compute; reflexivity. Qed.

(** A dot in a file name ends the sentence that is removed. *)
Lemma half_a_sentence_left : clean_summary (fun _ => false) "User uploaded the file plan.pdf today. Likes tea." = "pdf today. Likes tea.".
Proof. vm_compute. reflexivity. Qed.

(** Facts about uploads leave after the limit was enforced: they have pushed out
    other facts by then. *)
Lemma uploads_push_facts_out : exists mem',
  updated_memory demo_calls demo_config demo_times None (JObj (demo_memory (demo_facts ++ [fact "f6" "Likes jazz" "context" "0.7"])))
    (answer [("newFacts", JList [JObj [("content", JStr "Uploaded a file"); ("confidence", JFloat "0.9")]])]) = Ok mem' /\
  contents mem' = map (fun s => Some (JStr s)) ["Say please"; "Likes black tea"; "Works in Bonn"; "Likes tea"; "Likes cake"].
Proof. eexists. split; [vm_compute; reflexivity|vm_compute; reflexivity]. Qed.

(** An instant with an offset gets a text with two zones. *)
Lemma two_zones : iso_z (0, 7200 * Clock.second) = "1970-01-01T02:00:00+02:00Z".
Proof. vm_compute. reflexivity. Qed.

(** One aged fact whose confidence is null makes every update fail before the
    model is asked. *)
Lemma null_confidence_blocks_updates :
  let f := JObj [("id", JStr "f1"); ("content", JStr "Likes tea"); ("confidence", JNull); ("createdAt", JStr "2020-01-01T00:00:00Z")] in
  prepare demo_calls demo_config (started demo_times) [{| message_type := "human"; message_content := JStr "Hello" |}] false false
    (JObj (demo_memory [f])) = Raise (Exn TypeError "").
Proof. vm_compute. reflexivity. Qed.

End MemoryFacts.

(** * The store of memories *)
Module StoreFacts.
Import PosixPaths Errors Memory MemoryStore MemoryFacts.

(** What a version of a file shows: its memory, or an empty one. *)
Definition shows (o : option json) (d : json) : Prop :=
  match o with Some d' => d = d' | None => exists now, d = JObj (create_empty_memory now) end.

Section store.
Context (lower : string -> string) (base : path) (storage_path : string).
(** Every version a file ever has: its path, its time and what it holds. *)
Context (versions : string -> Z -> option json -> Prop).
Notation path_of := (_get_memory_file_path lower base storage_path).

(** [d] is a version of the file that is not older than [m]. *)
Definition not_older (p : string) (m : Z) (d : json) : Prop := exists m' o, m <= m' /\ versions p m' o /\ shows o d.

(** The files are versions; what the cache holds is not older than the time it
    holds it under. *)
Record fresh (st : Store) : Prop := {
  fr_files : forall p f, files st !! p = Some f -> versions p (mtime f) (data f);
  fr_cache : forall k d m p, cache st !! k = Some (d, Some m) -> path_of k = Ok p -> not_older p m d
}.

(** Files are not removed, and their times do not go back. *)
Definition later (st st' : Store) : Prop := forall p m, stat p st = Some m -> exists m', stat p st' = Some m' /\ m <= m'.

(** What others do keeps the store fresh, and goes forward in time. *)
Definition honest (between : nat -> Store -> Store) : Prop := forall n st, fresh st -> fresh (between n st) /\ later st (between n st).

Lemma read_not_older now p m st : fresh st -> (exists m', stat p st = Some m' /\ m <= m') -> not_older p m (read now p st).
Proof.
  intros [F _] (m'&E&L). unfold stat in E. destruct (files st !! p) as [f|] eqn:G; [|done]. injection E as <-.
  exists (mtime f), (data f). split; [done|]. split; [by apply F|]. unfold read. rewrite G. destruct (data f); [done|by exists now].
Qed.

Lemma with_cache_fresh k d m p st : fresh st -> path_of k = Ok p -> (forall t, m = Some t -> not_older p t d) -> fresh (with_cache k (d, m) st).
Proof.
  intros [F C] P N. constructor; [exact F|]. intros k' d' m' p' H P'. cbn in H. destruct (decide (k = k')) as [<-|D].
  - rewrite lookup_insert_eq in H. injection H as <- ->. rewrite P in P'. injection P' as <-. by apply N.
  - rewrite lookup_insert_ne in H by done. by eapply C.
Qed.

(** [load] never answers with a version older than the one that was there when it
    began, whatever others do meanwhile, and leaves the cache fresh. *)
Lemma load_fresh between now k p m st d st' : honest between -> fresh st -> path_of k = Ok p -> stat p st = Some m ->
  load lower base storage_path between now k st = (Ok d, st') -> fresh st' /\ not_older p m d.
Proof.
  intros H F P S. unfold load, with_path, bind, lift. rewrite P, S. cbn zeta.
  destruct (H 1%nat st F) as [F1 L1]. unfold hit. destruct (cache (between 1%nat st) !! k) as [[d0 m0]|] eqn:C.
  - case_bool_decide as B; [intros [= <- <-]; subst m0; split; [done|]; by eapply fr_cache|].
    destruct (H 2%nat _ F1) as [F2 L2]. destruct (H 3%nat _ F2) as [F3 L3]. intros [= <- <-].
    assert (not_older p m (read now p (between 2%nat (between 1%nat st)))) as N.
    { apply read_not_older; [done|]. destruct (L1 _ _ S) as (m1&S1&?). destruct (L2 _ _ S1) as (m2&S2&?). exists m2. split; [done|lia]. }
    split; [|done]. eapply with_cache_fresh; [done|done|]. by intros t [= <-].
  - destruct (H 2%nat _ F1) as [F2 L2]. destruct (H 3%nat _ F2) as [F3 L3]. intros [= <- <-].
    assert (not_older p m (read now p (between 2%nat (between 1%nat st)))) as N.
    { apply read_not_older; [done|]. destruct (L1 _ _ S) as (m1&S1&?). destruct (L2 _ _ S1) as (m2&S2&?). exists m2. split; [done|lia]. }
    split; [|done]. eapply with_cache_fresh; [done|done|]. by intros t [= <-].
Qed.

End store.

(** ** Edits, when nobody else acts *)

Section edits.
Context (lower : string -> string) (base : path) (storage_path : string).
Context (now at_ : Z) (fails : bool) (uuid : string) (k : key).
Notation get_memory_data := (get_memory_data lower base storage_path now k).
Notation save_or_raise := (save_or_raise lower base storage_path now at_ fails k).
Notation path_of := (_get_memory_file_path lower base storage_path).

(** An operation that leaves the files alone. *)
Definition reads {A} (m : M A) : Prop := forall st r st', m st = (r, st') -> files st' = files st.

Lemma reads_lift {A} (r : result A) : reads (lift r).
Proof. by intros st x st' [= <- <-]. Qed.

Lemma reads_bind {A B} (m : M A) (f : A -> M B) : reads m -> (forall a, reads (f a)) -> reads (bind m f).
Proof.
  intros Hm Hf st r st'. unfold bind. destruct (m st) as [[a|e] s1] eqn:E.
  - intros H. rewrite (Hf a _ _ _ H). by eapply Hm.
  - intros [= <- <-]. by eapply Hm.
Qed.

Lemma reads_load : reads get_memory_data.
Proof.
  apply reads_bind; [apply reads_lift|]. intros p st r st'. cbn zeta. unfold alone. destruct (hit k (stat p st) st); by intros [= <- <-].
Qed.

Lemma get_after_save st st' memory : save_or_raise memory st = (Ok tt, st') ->
  exists p, path_of k = Ok p /\ fails = false /\
    files st' = <[p := {| data := Some (saved now memory); mtime := at_ |}]> (files st) /\ get_memory_data st' = (Ok (saved now memory), st').
Proof.
  unfold save_or_raise, save, with_path, bind, lift. destruct (path_of k) as [p|e] eqn:P; [|done].
  destruct fails eqn:F; [done|]. unfold alone, ret. intros [= <-]. exists p. split; [done|]. split; [done|]. split; [done|].
  unfold get_memory_data, load, with_path, bind, lift. rewrite P. unfold stat, hit, alone. cbn [files cache with_files with_cache replace].
  rewrite !lookup_insert_eq. cbn. by rewrite bool_decide_eq_true_2.
Qed.

(** ** The edits of the API *)

Inductive edit :=
| Create (content category : string) (confidence : pyfloat)
| Delete (fact_id : string)
| Change (fact_id : string) (content category : option string) (confidence : option pyfloat)
| Import (memory : dict)
| Clear.

Definition as_json (m : M dict) : M json := bind m (fun d => ret (JObj d)).

Definition perform (e : edit) : M json :=
  match e with
  | Create content category confidence => as_json (create_memory_fact lower base storage_path now at_ fails uuid k content category confidence)
  | Delete fact_id => as_json (delete_memory_fact lower base storage_path now at_ fails k fact_id)
  | Change fact_id content category confidence => as_json (update_memory_fact lower base storage_path now at_ fails k fact_id content category confidence)
  | Import memory => import_memory_data lower base storage_path now at_ fails k memory
  | Clear => as_json (clear_memory_data lower base storage_path now at_ fails k)
  end.

(** What an edit makes of the memory: everything but the facts stays. *)
Definition only_facts (mem mem' : dict) : Prop := forall x, x <> "facts" -> get x mem' = get x mem.
Definition is_id (fact_id : string) (f : json) : bool := holds (has_id fact_id f).

Definition effect (e : edit) (before : json) (mem' : dict) : Prop :=
  match e with
  | Create content category confidence =>
      exists mem c, before = JObj mem /\ _validate_confidence confidence = Ok c /\ strip content <> "" /\ only_facts mem mem' /\
        facts_in mem' = facts_in mem ++
          [JObj [("id", JStr ("fact_" +:+ uuid)); ("content", JStr (strip content));
                 ("category", JStr (default "context" (stripped (Some (JStr category))))); ("confidence", json_float c);
                 ("createdAt", JStr (utc_now_iso_z now)); ("source", JStr "manual")]]
  | Delete i =>
      exists mem, before = JObj mem /\ only_facts mem mem' /\ facts_in mem' = List.filter (fun f => negb (is_id i f)) (facts_in mem) /\
        exists f, f ∈ facts_in mem /\ is_id i f = true
  | Change i content category confidence =>
      exists mem, before = JObj mem /\ only_facts mem mem' /\ (exists f, f ∈ facts_in mem /\ is_id i f = true) /\
        Forall2 (fun f g => if is_id i f then exists d d', f = JObj d /\ edit_fact content category confidence d = Ok d' /\ g = JObj d' else g = f)
          (facts_in mem) (facts_in mem')
  | Import memory => mem' = memory
  | Clear => mem' = create_empty_memory now
  end.

(** An edit that raises writes nothing; one that returns has written one memory. *)
Definition edited (e : edit) (st : Store) (r : result json) (st' : Store) : Prop :=
  match r with
  | Raise _ => files st' = files st
  | Ok _ => exists p before mem', path_of k = Ok p /\ fails = false /\
      match e with Import _ | Clear => True | _ => (get_memory_data st).1 = Ok before end /\ effect e before mem' /\
      files st' = <[p := {| data := Some (saved now mem'); mtime := at_ |}]> (files st) /\
      (get_memory_data st').1 = Ok (saved now mem')
  end.

Lemma bind_cases {A B} (m : M A) (f : A -> M B) st r st' : bind m f st = (r, st') ->
  (exists e, m st = (Raise e, st') /\ r = Raise e) \/ exists a s1, m st = (Ok a, s1) /\ f a s1 = (r, st').
Proof. unfold bind. destruct (m st) as [[a|e] s1]; [right; by exists a, s1|]. intros [= <- <-]. left. by exists e. Qed.

Lemma save_raises memory st e st' : save_or_raise memory st = (Raise e, st') -> files st' = files st.
Proof.
  unfold save_or_raise, save, with_path, bind, lift. destruct (path_of k); [|by intros [= <- <-]]. destruct fails; [by intros [= <- <-]|done].
Qed.

Lemma only_set_facts l mem : only_facts mem (set_key "facts" (JList l) mem).
Proof. intros x N. by apply get_set_other. Qed.

(** The edits of single facts load the memory, change its facts and save it. *)
Definition edit_by (g : list json -> result (list json)) : M dict :=
  bind get_memory_data (fun memory =>
  bind (lift (as_dict memory)) (fun memory =>
  bind (lift (current_facts memory)) (fun facts =>
  bind (lift (g facts)) (fun l =>
  bind (save_or_raise (set_key "facts" (JList l) memory)) (fun _ => ret (set_key "facts" (JList l) memory)))))).

Lemma edit_by_spec g st r st' : edit_by g st = (r, st') ->
  match r with
  | Raise _ => files st' = files st
  | Ok _ => exists p mem l, path_of k = Ok p /\ fails = false /\ (get_memory_data st).1 = Ok (JObj mem) /\ g (facts_in mem) = Ok l /\
      files st' = <[p := {| data := Some (saved now (set_key "facts" (JList l) mem)); mtime := at_ |}]> (files st) /\
      (get_memory_data st').1 = Ok (saved now (set_key "facts" (JList l) mem))
  end.
Proof.
  unfold edit_by. intros [(e&G&->)|(before&s1&G&H)]%bind_cases; [by eapply reads_load|]. apply reads_load in G as F1.
  unfold bind at 1, lift at 1 in H. destruct (as_dict before) as [mem|] eqn:D; [|by injection H as <- <-].
  unfold bind at 1, lift at 1 in H. destruct (current_facts mem) as [facts|] eqn:C; [|by injection H as <- <-].
  unfold bind at 1, lift at 1 in H. destruct (g facts) as [l|] eqn:E; [|by injection H as <- <-].
  apply bind_cases in H as [(e&S&->)|([]&s2&S&[= <- <-])]; [apply save_raises in S; congruence|].
  destruct (get_after_save _ _ _ S) as (p&P&Fa&Fi&L). exists p, mem, l. rewrite G, (current_facts_in _ _ C), L.
  destruct before; try done. injection D as ->. split_and!; try done. by rewrite Fi, F1.
Qed.

Lemma as_json_spec (m : M dict) st r st' : as_json m st = (r, st') ->
  exists r', m st = (r', st') /\ match r' with Ok d => r = Ok (JObj d) | Raise e => r = Raise e end.
Proof.
  unfold as_json. intros [(e&E&->)|(d&s1&E&[= <- <-])]%bind_cases; [by exists (Raise e)|by exists (Ok d)].
Qed.

(** What an edit of single facts does follows from what it makes of them. *)
Lemma edited_by e g (m : M dict) st r st' :
  match e with Import _ | Clear => False | _ => True end ->
  (m st = edit_by g st \/ exists x, m st = (Raise x, st)) ->
  (forall mem l, g (facts_in mem) = Ok l -> effect e (JObj mem) (set_key "facts" (JList l) mem)) ->
  as_json m st = (r, st') -> edited e st r st'.
Proof.
  intros He Hm Hg (r'&E&R)%as_json_spec. destruct Hm as [Hm|(x&Hm)]; rewrite Hm in E.
  - apply edit_by_spec in E. destruct r' as [d|x]; subst r; [|exact E]. destruct E as (p&mem&l&P&Fa&G&Eg&Fi&L).
    exists p, (JObj mem), (set_key "facts" (JList l) mem). split_and!; try done; [by destruct e|by apply Hg].
  - injection E as <- <-. by subst r.
Qed.

Lemma created content category confidence st r st' : perform (Create content category confidence) st = (r, st') -> edited (Create content category confidence) st r st'.
Proof.
  intros H. destruct (strip content =? "")%string eqn:S.
  { eapply (edited_by _ (fun _ => Raise (Exn ValueError ""))); [done| |done|exact H]. right. unfold create_memory_fact. rewrite S. by eexists. }
  destruct (_validate_confidence confidence) as [c|x] eqn:V.
  2:{ eapply (edited_by _ (fun _ => Raise (Exn ValueError ""))); [done| |done|exact H]. right. unfold create_memory_fact. rewrite S, V. by eexists. }
  set (fact := JObj [("id", JStr ("fact_" +:+ uuid)); ("content", JStr (strip content));
                 ("category", JStr (default "context" (stripped (Some (JStr category))))); ("confidence", json_float c);
                 ("createdAt", JStr (utc_now_iso_z now)); ("source", JStr "manual")]).
  eapply (edited_by _ (fun facts => Ok (facts ++ [fact]))); [done| | |exact H].
  - left. unfold create_memory_fact. rewrite S, V. reflexivity.
  - intros mem l [= <-]. exists mem, c. apply String.eqb_neq in S. split_and!; try done; [apply only_set_facts|by rewrite facts_in_set].
Qed.

Lemma holds_negated fact_id f b : has_id fact_id f = Ok b -> holds (b0 <-? has_id fact_id f ;; Ok (negb b0)) = negb (is_id fact_id f).
Proof. unfold is_id. by intros ->. Qed.

Lemma deleted fact_id st r st' : perform (Delete fact_id) st = (r, st') -> edited (Delete fact_id) st r st'.
Proof.
  set (g := fun facts => u <-? rfilter (fun f => b <-? has_id fact_id f ;; Ok (negb b)) facts ;;
                         if (length u =? length facts)%nat then Raise (Exn KeyError fact_id) else Ok u).
  apply (edited_by _ g); [done| |].
  - left. unfold delete_memory_fact, edit_by, bind, lift, g. destruct (get_memory_data st) as [[b|] s1]; [|done].
    destruct (as_dict b); [|done]. destruct (current_facts a); [|done]. destruct (rfilter _ a0); [|done]. cbn. by destruct (_ =? _)%nat.
  - intros mem l H. unfold g in H. apply rbind_ok in H as (u&U&H). destruct (Nat.eqb_spec (length u) (length (facts_in mem))) as [|N]; [done|]. injection H as <-.
    assert (u = List.filter (fun f => negb (is_id fact_id f)) (facts_in mem)) as E.
    { rewrite (rfilter_ok _ _ _ U). apply filter_same. intros f Hf. destruct (rfilter_total _ _ _ f U Hf) as [b Hb].
      apply rbind_ok in Hb as (b0&B&_). by eapply holds_negated. }
    exists mem. split; [done|]. split; [apply only_set_facts|]. rewrite facts_in_set. split; [done|].
    destruct (List.filter (is_id fact_id) (facts_in mem)) as [|f rest] eqn:Fl.
    + exfalso. apply N. pose proof (filter_split (is_id fact_id) (facts_in mem)) as Sp. rewrite Fl, <- E in Sp. exact Sp.
    + exists f. apply filter_elem. rewrite Fl. left.
Qed.

Lemma changed fact_id content category confidence st r st' :
  perform (Change fact_id content category confidence) st = (r, st') -> edited (Change fact_id content category confidence) st r st'.
Proof.
  set (g := fun facts => u <-? rmap (edit_matching fact_id content category confidence) facts ;;
                         if negb (existsb fst u) then Raise (Exn KeyError fact_id) else Ok (map snd u)).
  apply (edited_by _ g); [done| |].
  - left. unfold update_memory_fact, edit_by, bind, lift, g. destruct (get_memory_data st) as [[b|] s1]; [|done].
    destruct (as_dict b); [|done]. destruct (current_facts a); [|done]. destruct (rmap _ a0); [|done]. cbn. by destruct (negb _).
  - intros mem l H. unfold g in H. apply rbind_ok in H as (u&U&H). destruct (existsb fst u) eqn:X; [|done]. injection H as <-.
    exists mem. split; [done|]. split; [apply only_set_facts|]. rewrite facts_in_set. apply rmap_ok in U.
    assert (Forall2 (fun f (bg : bool * json) => bg.1 = is_id fact_id f /\
      if is_id fact_id f then exists d d', f = JObj d /\ edit_fact content category confidence d = Ok d' /\ bg.2 = JObj d' else bg.2 = f) (facts_in mem) u) as W.
    { eapply Forall2_impl; [exact U|]. intros f [b j] E. unfold edit_matching in E. apply rbind_ok in E as (d&D&E). apply rbind_ok in E as (b'&B&E).
      destruct f as [| | | | | |d0]; try done. cbn in D. injection D as ->. unfold is_id. rewrite B. cbn. destruct b'; [|by injection E as <- <-].
      apply rbind_ok in E as (d'&E'&[= <- <-]). split; [done|]. by exists d, d'. }
    split.
    + apply existsb_exists in X as ((b&j)&Hin%list_elem_of_In&Hb). cbn in Hb. subst b. apply list_elem_of_lookup in Hin as [i Hi].
      eapply Forall2_lookup_r in W as (f&Hf&E&_); [|done]. exists f. split; [by eapply list_elem_of_lookup_2|done].
    + apply Forall2_fmap_r. eapply Forall2_impl; [exact W|]. by intros f bg [_ ?].
Qed.

Lemma import_spec memory st r st' : perform (Import memory) st = (r, st') -> edited (Import memory) st r st'.
Proof.
  cbn [perform]. unfold import_memory_data. intros [(e&S&->)|([]&s1&S&H)]%bind_cases; [by eapply save_raises|].
  destruct (get_after_save _ _ _ S) as (p&P&Fa&Fi&L). rewrite L in H. injection H as <- <-.
  exists p, JNull, memory. rewrite L. by split_and!.
Qed.

Lemma cleared st r st' : perform Clear st = (r, st') -> edited Clear st r st'.
Proof.
  cbn [perform]. intros (r'&E&R)%as_json_spec. unfold clear_memory_data in E.
  apply bind_cases in E as [(e&S&->)|([]&s1&S&[= <- <-])]; subst r; [by eapply save_raises|].
  destruct (get_after_save _ _ _ S) as (p&P&Fa&Fi&L). exists p, JNull, (create_empty_memory now). rewrite L. by split_and!.
Qed.

(** C27: What the edits of the API do to the memory of a user: an edit that raises
    has written nothing; one that returns has written one memory, to the file of the
    user and agent it is for and no other, in which exactly the facts it speaks of
    have changed -- one created, those with the id deleted or changed -- and the
    next read answers with that memory. *)
Theorem memory_edits_spec e st r st' : perform e st = (r, st') -> edited e st r st'.
Proof. destruct e; [apply created|apply deleted|apply changed|apply import_spec|apply cleared]. Qed.

End edits.

(** ** A store *)

Definition home : path := parse "/home/flow".
Definition alice : key := (Some "alice", None).
Definition no_store : Store := {| files := ∅; cache := ∅ |}.
Definition tea : edit := Create " Likes tea " "" (Finite false one).
Definition create_tea : M json := perform id home "" 1000000 7 false "0a0b0c0d" alice tea.

Lemma memory_edits_spec_witness :
  edited id home "" 1000000 7 false "0a0b0c0d" alice tea no_store (create_tea no_store).1 (create_tea no_store).2 /\
  is_ok (create_tea no_store).1 = true /\
  fst <$> map_to_list (files (create_tea no_store).2) = ["/home/flow/users/alice/memory.json"].
Proof.
  split; [apply (memory_edits_spec id home "" 1000000 7 false "0a0b0c0d" alice tea no_store); exact (surjective_pairing (create_tea no_store))|].
  split; [vm_compute; reflexivity|vm_compute; reflexivity].
Defined.

(** ** What the code does not do *)

Definition a_memory (s : string) : dict := [("facts", JList [JStr s])].
Definition memory_path : string := "/home/flow/users/alice/memory.json".
Definition some_store : Store := {| files := {[ memory_path := {| data := Some (JObj (a_memory "old")); mtime := 1 |} ]}; cache := ∅ |}.
(** Another writer comes before the n-th call. *)
Definition overtaken (n : nat) : nat -> Store -> Store :=
  fun i st => if (i =? n)%nat then replace memory_path (JObj (a_memory "new")) 9 st else st.
Definition facts_read (r : result json) : option json := match r with Ok (JObj d) => get "facts" d | _ => None end.

(** A save that is overtaken by another writer keeps its own memory in the cache,
    under the time of the other's: from then on, the cache is what is read. *)
Lemma save_hides_newer :
  let st := (save id home "" (overtaken 1) 0 false 5 (a_memory "mine") alice some_store).2 in
  data <$> files st !! memory_path = Some (Some (JObj (a_memory "new"))) /\
  facts_read (get_memory_data id home "" 0 alice st).1 = Some (JList [JStr "mine"]).
Proof. split; vm_compute; reflexivity. Qed.

(** So does a reload, which reads before it looks at the time. *)
Lemma reload_hides_newer :
  let st := (reload id home "" (overtaken 1) 0 alice some_store).2 in
  data <$> files st !! memory_path = Some (Some (JObj (a_memory "new"))) /\
  facts_read (get_memory_data id home "" 0 alice st).1 = Some (JList [JStr "old"]).
Proof. split; vm_compute; reflexivity. Qed.

(** A fact created while the model is asked is gone when it has answered: the
    memory that is saved was loaded before. *)
Lemma created_fact_lost :
  let memory := MemoryFacts.demo_memory [] in
  let st := {| files := {[ memory_path := {| data := Some (JObj memory); mtime := 1 |} ]}; cache := ∅ |} in
  let r := _do_update_memory_sync id home "" 0 8 false alice MemoryFacts.demo_calls MemoryFacts.demo_config MemoryFacts.demo_times None
             [{| message_type := "human"; message_content := JStr "Hello" |}] false false
             (fun _ => Ok (MemoryFacts.answer [("newFacts", JList [])])) (fun st => (create_tea st).2) st in
  r.1 = true /\ facts_read (get_memory_data id home "" 0 alice (create_tea st).2).1 <> Some (JList []) /\
  facts_read (get_memory_data id home "" 0 alice r.2).1 = Some (JList []).
Proof. split; [vm_compute; reflexivity|split; [by vm_compute|vm_compute; reflexivity]]. Qed.

End StoreFacts.

(** * The queue of updates *)
Module QueueFacts.
Import Memory.MemoryQueue.

Record sane (s : State) : Prop := {
  sn_keys : NoDup (map _queue_key (queue s));
  sn_worker : workers s = if processing s then [default [] (head (workers s))] else [];
  sn_awaited : queue s <> [] -> armed s <> [] \/ (0 < waiting s)%nat
}.

Lemma scheduled_armed s : armed (_schedule_timer s) <> [].
Proof. cbn. by destruct (cancelled s). Qed.

Lemma initial_sane : sane initial.
Proof. constructor; [constructor|done|done]. Qed.

Lemma keys_without c l : NoDup (map _queue_key l) ->
  NoDup (map _queue_key (List.filter (fun d => negb (same_key d c)) l)) /\
  _queue_key c ∉ map _queue_key (List.filter (fun d => negb (same_key d c)) l).
Proof.
  intros N. split; [by apply map_filter_nodup|]. intros (d&E&D)%list_elem_of_fmap. apply filter_elem in D as [_ D].
  unfold same_key in D. rewrite bool_decide_eq_true_2 in D; done.
Qed.

Lemma step_sane s o s' : step s o s' -> sane s -> sane s'.
Proof.
  intros H [K W A]. destruct H as [enabled c s|s|s|t s T|s P|s l r c rest E|s l r E].
  - unfold add. destruct enabled; [|by constructor]. constructor; [|exact W|intros _; left; apply scheduled_armed].
    cbn. rewrite map_app. destruct (keys_without c (queue s) K) as [N1 N2]. apply NoDup_app. split; [done|]. split; [|apply NoDup_singleton].
    intros x Hx Hx'%list_elem_of_singleton. cbn in Hx'. subst x. by apply N2.
  - constructor; [exact K|exact W|]. intros _. right. cbn. lia.
  - constructor; [exact K|exact W|]. intros _. left. apply scheduled_armed.
  - constructor; [exact K|exact W|]. intros _. right. cbn. lia.
  - unfold _process_queue. cbn. destruct (processing s) eqn:Pr; [constructor; [exact K|exact W|intros _; left; apply scheduled_armed]|].
    destruct (queue s) as [|c q] eqn:Q; constructor; cbn; rewrite ?Q; try done; [constructor|by rewrite W].
  - rewrite W in E. destruct (processing s) eqn:Pr; [|by destruct l].
    destruct l as [|x l]; [|destruct l; done]. destruct r as [|y r]; [|done]. constructor; cbn; [exact K|by rewrite Pr|exact A].
  - rewrite W in E. destruct (processing s) eqn:Pr; [|by destruct l].
    destruct l as [|x l]; [|destruct l; done]. destruct r as [|y r]; [|done]. constructor; cbn; [exact K|done|exact A].
Qed.

Lemma steps_sane s l s' : steps s l s' -> sane s -> sane s'.
Proof. induction 1 as [|s o s' l s'' H _ IH]; [done|]. intros I. apply IH. by eapply step_sane. Qed.

(** ** What is pending *)

(** The conversations still to come: what the workers have left, then the queue. *)
Definition pending (s : State) : list ConversationContext := List.concat (workers s) ++ queue s.
Definition done_with (o : option ConversationContext) : list ConversationContext := match o with Some c => [c] | None => [] end.

(** The steps of the timers and of the threads they started, and those of a worker:
    what happens when nothing is added and nobody flushes. *)
Inductive by_timer (s : State) : State -> Prop :=
| timer_fires t : t ∈ armed s -> by_timer s (fire t s)
| timer_processes : (0 < waiting s)%nat -> by_timer s (_process_queue s).
Inductive by_worker (s : State) : option ConversationContext -> State -> Prop :=
| worker_works l r c rest : workers s = l ++ (c :: rest) :: r -> by_worker s (Some c) (set_workers (l ++ rest :: r) s)
| worker_finishes l r : workers s = l ++ [] :: r -> by_worker s None (finish (l ++ r) s).
Inductive own_step (s : State) : option ConversationContext -> State -> Prop :=
| own_timer s' : by_timer s s' -> own_step s None s'
| own_worker o s' : by_worker s o s' -> own_step s o s'.

(** Runs of these steps, with the conversations whose update was tried, in order. *)
Inductive own_steps : State -> list ConversationContext -> State -> Prop :=
| own_done s : own_steps s [] s
| own_more s o s' l s'' : own_step s o s' -> own_steps s' l s'' -> own_steps s (done_with o ++ l) s''.

Lemma own_step_step s o s' : own_step s o s' -> step s o s'.
Proof.
  destruct 1 as [s' [t T|W]|o s' [l r c rest E|l r E]]; [by apply step_fire|by apply step_process|by apply step_work|by apply step_finish].
Qed.

Lemma lone_worker s l w r : sane s -> workers s = l ++ w :: r -> l = [] /\ r = [] /\ processing s = true.
Proof.
  intros [_ W _] E. rewrite E in W. destruct (processing s); [|by destruct l]. destruct l as [|x l]; [|by destruct l]. by destruct r.
Qed.

Lemma own_sane s o s' : own_step s o s' -> sane s -> sane s'.
Proof. intros H. eapply step_sane, own_step_step, H. Qed.

(** The queue's own steps touch nothing that is pending, but for the worker that
    takes the next of it. *)
Lemma own_pending s o s' : own_step s o s' -> sane s -> pending s = done_with o ++ pending s'.
Proof.
  intros H I. unfold pending. destruct H as [s' [t T|P]|o s' [l r c rest E|l r E]]; [done| | |].
  - pose proof (sn_worker _ I) as W. unfold _process_queue. cbn. destruct (processing s); [done|]. rewrite W.
    destruct (queue s) as [|c q]; cbn; by rewrite ?app_nil_r.
  - destruct (lone_worker _ _ _ _ I E) as (->&->&_). by rewrite E.
  - destruct (lone_worker _ _ _ _ I E) as (->&->&_). by rewrite E.
Qed.

(** Of all steps only an addition does more. *)
Lemma step_pending s o s' : step s o s' -> sane s ->
  pending s = done_with o ++ pending s' \/ exists c, o = None /\ s' = add true c s.
Proof.
  destruct 1 as [[] c s|s|s|t s T|s P|s l r c rest E|s l r E]; intros I; try (left; reflexivity); [right; by exists c| | |]; left.
  - by apply (own_pending _ None); [apply own_timer, timer_processes|].
  - by eapply own_pending; [by apply own_worker, worker_works|].
  - by eapply own_pending; [by apply own_worker, worker_finishes|].
Qed.

Lemma own_steps_pending s l s' : own_steps s l s' -> sane s -> sane s' /\ pending s = l ++ pending s'.
Proof.
  induction 1 as [|s o s' l s'' H _ IH]; intros I; [done|]. destruct (IH (own_sane _ _ _ H I)) as [I' E]. split; [done|].
  by rewrite (own_pending _ _ _ H I), E, app_assoc.
Qed.

(** ** What is pending is done *)

(** Runs without end of the queue's own steps; where none can be made, nothing
    happens any more. *)
Definition schedule (f : nat -> State) : Prop :=
  forall n, (exists o, own_step (f n) o (f (S n))) \/ ((forall o s', ~ own_step (f n) o s') /\ f (S n) = f n).
(** A worker that is there takes a step some time. *)
Definition fair (f : nat -> State) : Prop :=
  forall n, workers (f n) <> [] -> exists m o, (n <= m)%nat /\ by_worker (f m) o (f (S m)).
Definition idle (s : State) : Prop := queue s = [] /\ workers s = [].

(** What is left to do: a conversation costs more in the queue than in the hands of
    a worker. *)
Definition work (s : State) : nat := 5 * length (queue s) + 3 * length (List.concat (workers s)) + length (workers s).
(** What may happen before a worker starts. *)
Definition alarms (s : State) : nat := 2 * length (armed s) + waiting s.

Lemma timer_work s s' : by_timer s s' -> sane s -> (work s' <= work s)%nat.
Proof.
  intros [t T|P] I; [done|]. pose proof (sn_worker _ I) as W. unfold work, _process_queue. cbn. destruct (processing s); [done|]. rewrite W.
  destruct (queue s) as [|c q] eqn:Q; cbn; rewrite ?Q, ?app_nil_r; cbn; lia.
Qed.

Lemma worker_work s o s' : by_worker s o s' -> (work s' < work s)%nat.
Proof.
  intros [l r c rest E|l r E]; unfold work; cbn; rewrite E, ?concat_app, !length_app; cbn; rewrite ?length_app; lia.
Qed.

(** With no worker, a step of a timer starts one or brings it nearer. *)
Lemma timer_nears s s' : by_timer s s' -> sane s -> workers s = [] -> queue s <> [] ->
  (work s' < work s)%nat \/ (queue s' = queue s /\ workers s' = [] /\ alarms s' < alarms s)%nat.
Proof.
  intros H I W Q. destruct H as [t T|P].
  - right. split; [done|]. split; [done|]. unfold alarms. cbn.
    pose proof (MemoryFacts.filter_split (fun u => bool_decide (u = t)) (armed s)) as L.
    enough (0 < length (List.filter (fun u => bool_decide (u = t)) (armed s)))%nat by lia.
    destruct (List.filter _ (armed s)) eqn:F; cbn; [|lia]. exfalso.
    assert (t ∈ List.filter (fun u => bool_decide (u = t)) (armed s)) as Ht by (apply filter_elem; by rewrite bool_decide_eq_true_2).
    rewrite F in Ht. by apply elem_of_nil in Ht.
  - left. pose proof (sn_worker _ I) as E. unfold work, _process_queue. cbn. destruct (processing s); [by rewrite W in E|].
    destruct (queue s) as [|c q]; [done|]. cbn. rewrite W. cbn. rewrite app_nil_r. cbn. lia.
Qed.

(** What is queued has somebody who comes for it. *)
Lemma queue_awaited s : sane s -> queue s <> [] -> exists s', own_step s None s'.
Proof.
  intros I Q. destruct (sn_awaited _ I Q) as [A|A].
  - destruct (armed s) as [|t l] eqn:E; [done|]. exists (fire t s). apply own_timer, timer_fires. rewrite E. left.
  - exists (_process_queue s). by apply own_timer, timer_processes.
Qed.

Section schedules.
Context (f : nat -> State) (F : schedule f) (fairly : fair f) (I0 : sane (f 0%nat)).

Lemma scheduled n : exists l, own_steps (f 0%nat) l (f n) /\ sane (f n).
Proof.
  assert (forall n m, exists l, own_steps (f n) l (f (m + n)%nat)) as H.
  { intros k m. revert k. induction m as [|m IH]; intros k; [exists []; constructor|].
    destruct (IH (S k)) as [l H]. replace (S m + k)%nat with (m + S k)%nat by lia. destruct (F k) as [[o Ho]|[_ E]].
    - exists (done_with o ++ l). by eapply own_more.
    - exists l. by rewrite <- E. }
  destruct (H 0%nat n) as [l R]. rewrite Nat.add_0_r in R. exists l. split; [done|]. by apply (own_steps_pending _ _ _ R).
Qed.

Lemma scheduled_sane n : sane (f n).
Proof. by destruct (scheduled n) as (l&_&I). Qed.

Lemma work_shrinks n m : (n <= m)%nat -> (work (f m) <= work (f n))%nat.
Proof.
  induction 1 as [|m _ IH]; [done|]. etransitivity; [|exact IH]. destruct (F m) as [[o [s' H|o' s' H]]|[_ ->]]; [| |done].
  - apply timer_work; [done|apply scheduled_sane].
  - apply worker_work in H. lia.
Qed.

(** With no worker and a queue, some step makes the work less. *)
Lemma worker_starts k : forall n, (alarms (f n) <= k)%nat -> workers (f n) = [] -> queue (f n) <> [] ->
  exists m, (n <= m)%nat /\ (work (f (S m)) < work (f n))%nat.
Proof.
  induction k as [|k IH]; intros n K W Q; (destruct (F n) as [[o H]|[N _]]; [|destruct (queue_awaited _ (scheduled_sane n) Q) as [s' H]; by apply N in H]);
    (inversion H as [s' T|o' s' B]; subst; [|destruct B as [l r c rest E|l r E]; rewrite W in E; by destruct l]);
    destruct (timer_nears _ _ T (scheduled_sane n) W Q) as [L|(Q'&W'&L)]; try (by exists n); [lia|].
  destruct (IH (S n)) as (m&M&Lm); [lia|done|by rewrite Q'|]. exists m. split; [lia|].
  eapply Nat.lt_le_trans; [exact Lm|]. apply work_shrinks. lia.
Qed.

(** Every fair schedule comes to an end of the work. *)
Lemma fair_idle : exists n, idle (f n).
Proof.
  enough (forall k n, (work (f n) <= k)%nat -> exists m, idle (f m)) as H by by apply (H (work (f 0%nat)) 0%nat).
  induction k as [k IH] using lt_wf_ind. intros n K.
  assert (forall m, (work (f m) < work (f n))%nat -> exists m, idle (f m)) as Less by (intros m L; apply (IH (work (f m))) with (n := m); lia).
  destruct (decide (workers (f n) = [])) as [W|W].
  - destruct (decide (queue (f n) = [])) as [Q|Q]; [by exists n|].
    destruct (worker_starts (alarms (f n)) n) as (m&_&L); [done|done|done|]. by eapply Less.
  - destruct (fairly n W) as (m&o&M&B). apply (Less (S m)). apply worker_work in B. pose proof (work_shrinks n m M). lia.
Qed.

End schedules.

(** ** There are such schedules *)

(** What the queue does next: its worker's work, or the next thread's or timer's. *)
Definition next (s : State) : State :=
  match workers s with
  | (c :: rest) :: r => set_workers (rest :: r) s
  | [] :: r => finish r s
  | [] => match waiting s, armed s with
          | S _, _ => _process_queue s
          | O, t :: _ => fire t s
          | O, [] => s
          end
  end.

Definition worker_first (s : State) (n : nat) : State := Nat.iter n next s.

Lemma worker_next s : workers s <> [] -> exists o, by_worker s o (next s).
Proof.
  unfold next. destruct (workers s) as [|[|c rest] r] eqn:E; [done| |]; intros _.
  - eexists. exact (worker_finishes s [] r E).
  - eexists. exact (worker_works s [] r c rest E).
Qed.

Lemma worker_first_fair s : schedule (worker_first s) /\ fair (worker_first s).
Proof.
  split; intros n.
  - change (worker_first s (S n)) with (next (worker_first s n)). generalize (worker_first s n). clear s n. intros s.
    destruct (decide (workers s = [])) as [W|W]; [|left; destruct (worker_next s W) as [o H]; exists o; by apply own_worker].
    unfold next. rewrite W. destruct (waiting s) as [|k] eqn:K; [destruct (armed s) as [|t l] eqn:A|].
    + right. split; [|done]. intros o s' [s'' [t T|P]|o' s'' [l r c rest E|l r E]].
      * rewrite A in T. by apply elem_of_nil in T.
      * lia.
      * rewrite W in E. by destruct l.
      * rewrite W in E. by destruct l.
    + left. exists None. apply own_timer, timer_fires. rewrite A. left.
    + left. exists None. apply own_timer, timer_processes. lia.
  - intros W. destruct (worker_next _ W) as [o H]. by exists n, o.
Qed.

(** What an addition makes of the queue [q]. *)
Record enqueued (c : ConversationContext) (q q' : list ConversationContext) : Prop := {
  en_others : List.filter (fun d => negb (same_key d c)) q' = List.filter (fun d => negb (same_key d c)) q;
  en_one : exists d, List.filter (fun d => same_key d c) q' = [d] /\ _queue_key d = _queue_key c /\ messages d = messages c /\
    correction_detected d = correction_detected c || existsb (fun e => same_key e c && correction_detected e) q /\
    reinforcement_detected d = reinforcement_detected c || existsb (fun e => same_key e c && reinforcement_detected e) q
}.

Lemma found_flag c q flag : NoDup (map _queue_key q) ->
  match List.find (fun d => same_key d c) q with Some d => flag d | None => false end = existsb (fun e => same_key e c && flag e) q.
Proof.
  induction q as [|x q IH]; intros N; [done|]. cbn in N. apply NoDup_cons in N as [N1 N2]. cbn.
  destruct (same_key x c) eqn:S; cbn; [|by apply IH]. enough (existsb (fun e => same_key e c && flag e) q = false) as -> by (by rewrite orb_false_r).
  destruct (existsb _ q) eqn:X; [|done]. apply existsb_exists in X as (y&Hy%list_elem_of_In&Y). bprop.
  exfalso. apply N1. unfold same_key in *. bprop. match goal with H : _queue_key x = _, H' : _queue_key y = _ |- _ => rewrite H, <- H' end. by apply list_elem_of_fmap_2.
Qed.

Lemma added c s : sane s -> enqueued c (queue s) (queue (add true c s)).
Proof.
  intros [K _ _]. cbn. assert (forall d, _queue_key d = _queue_key c -> same_key d c = true) as E by (intros d D; by apply bool_decide_eq_true).
  constructor.
  - rewrite List.filter_app, filter_filter. cbn. rewrite E by done. rewrite app_nil_r. apply MemoryFacts.filter_same. intros d _. by destruct (same_key d c).
  - eexists. rewrite List.filter_app, filter_filter, filter_none by (intros d _; by destruct (same_key d c)). cbn. rewrite E by done.
    split; [reflexivity|]. cbn. by rewrite !found_flag.
Qed.


Definition conversation (m : string) (correction : bool) : ConversationContext :=
  {| thread_id := "t1"; messages := [Json.JStr m]; agent_name := None; user_id := Some "alice";
     correction_detected := correction; reinforcement_detected := false |}.


(** What is queued before a summary removes it is lost when the next turn is
    queued before a worker has come: its messages take the place of the others. *)
Lemma flushed_messages_lost :
  let s := add true (conversation "next turn" false) (add true (conversation "about to be removed" false) initial) in
  forall c, c ∈ queue s -> messages c <> [Json.JStr "about to be removed"].
Proof. vm_compute. intros c Hc. apply list_elem_of_singleton in Hc as ->. discriminate. Qed.

End QueueFacts.
