(* ===== verification/Uploads.v ===== *)
(** * Uploaded files

    [UploadDir]: the calls of the file system the upload code makes, on one
    directory that a sandbox may have mounted.  The directory maps names to
    files by number, links and other entries; a file carries its contents, its
    mode and how many names it has elsewhere.  Before every call anybody else
    may act, and every call may fail; a log keeps what the program itself did.
    On top of the calls is a state monad with exceptions.

    [Uploads]: [deerflow/uploads/manager.py], the router
    [app/gateway/routers/uploads.py] and, of [utils/file_conversion.py], the
    function that writes the converted text.  A request writes every file under
    a temporary name and renames it.  Only the POSIX branch of the exclusive
    open is here; permission decorators and the conversion of documents are
    not. *)
From S2P Require Import Prelude Json Text PosixPaths Idempotency Errors Slices LoopDetection SandboxPaths SandboxTools FilePaths.
Import Json Text PosixPaths.

Module UploadDir.

(** ** Exceptions *)

Inductive exn :=
  | HTTPException (status_code : Z) (detail : string)
  | UnsafeUploadPathError (m : string)
  | PathTraversalError (m : string)
  | ValueError (m : string)
  | FileNotFoundError (m : string)
  | OsError (errno : Z) (m : string)
  | Exception_ (m : string).

(** [str(e)]; Starlette's [HTTPException] shows its status first. *)
Definition str_exn (e : exn) : string :=
  match e with
  | HTTPException status_code detail => pretty status_code +:+ ": " +:+ detail
  | UnsafeUploadPathError m | PathTraversalError m | ValueError m | FileNotFoundError m | OsError _ m | Exception_ m => m
  end.

(** Both upload errors are subclasses of [ValueError]. *)
Definition is_value_error (e : exn) : bool :=
  match e with UnsafeUploadPathError _ | PathTraversalError _ | ValueError _ => true | _ => false end.
Definition is_os_error (e : exn) : bool := match e with FileNotFoundError _ | OsError _ _ => true | _ => false end.
Definition is_not_found (e : exn) : bool := match e with FileNotFoundError _ => true | _ => false end.

Inductive outcome (A : Type) := Done (a : A) | Fails (e : exn).
#[global] Arguments Done {A} a.
#[global] Arguments Fails {A} e.

(** ** Files *)

(** An entry that is neither a file, a link nor a directory: a pipe or a device;
    [ready] says that opening it for writing succeeds. *)
Inductive entry := Inode (i : Z) | Symlink (target : string) | Directory | Special (ready : bool).

#[export] Instance entry_eq_dec : EqDecision entry.
Proof. solve_decision. Defined.

Record inode := { data : string; mode : Z; mtime : Z; links : Z }.

Record FS := { names : gmap string entry; inodes : gmap Z inode }.

Definition with_names (f : gmap string entry -> gmap string entry) (s : FS) : FS := {| names := f (names s); inodes := inodes s |}.
Definition with_inodes (f : gmap Z inode -> gmap Z inode) (s : FS) : FS := {| names := names s; inodes := f (inodes s) |}.

(** The names of a file in the directory, and how many it has at all. *)
Definition names_of (i : Z) (s : FS) : gmap string entry := filter (fun x => x.2 = Inode i) (names s).
Definition nlink (i : Z) (s : FS) : Z :=
  Z.of_nat (size (names_of i s)) + match inodes s !! i with Some n => links n | None => 0 end.

(** What the program did: to a file by its number, or to a path outside the
    directory, and what it sent to the sandbox. *)
Inductive event :=
  | Wrote (i : Z) (data : string)
  | Truncated (i : Z)
  | Chmod (i : Z) (mode : Z)
  | WroteOutside (p : string) (data : string)
  | ChmodOutside (p : string)
  | Sent (virtual_path : string) (data : string).

Record World := { fs : FS; tick : nat; log : list event }.

(** Everybody else, the failures, and what the calls depend on. *)
Record Env := {
  (** what anybody else does to the directory before the [k]-th call *)
  interference : nat -> FS -> FS;
  (** the exception the [k]-th call raises in place of its work, if it does *)
  fault : nat -> option exn;
  (** the candidates of [tempfile] *)
  random : nat -> nat -> string;
  now : nat -> Z;
  (** [str((dir / name).resolve())] and [str(dir.resolve())] *)
  resolve : FS -> string -> string;
  resolve_dir : string;
  (** [os.chmod in os.supports_follow_symlinks] *)
  chmod_nofollow : bool;
  (** what is at a path outside the directory *)
  is_file_outside : FS -> string -> bool;
  read_outside : FS -> string -> outcome string
}.

Definition M (A : Type) : Type := World -> outcome A * World.

#[export] Instance M_ret : MRet M := fun A a w => (Done a, w).
#[export] Instance M_bind : MBind M := fun A B k m w =>
  match m w with
  | (Done a, w) => k a w
  | (Fails e, w) => (Fails e, w)
  end.

Definition raise {A} (e : exn) : M A := fun w => (Fails e, w).
Definition lift {A} (o : outcome A) : M A := fun w => (o, w).

(** [try: ... except E as e: handler]; the handler says which it takes. *)
Definition catch {A} (m : M A) (handler : exn -> option (M A)) : M A := fun w =>
  match m w with
  | (Fails e, w) => match handler e with Some h => h w | None => (Fails e, w) end
  | r => r
  end.
(** [try: m finally: c] *)
Definition finally {A} (m : M A) (c : M unit) : M A := fun w =>
  let '(o, w) := m w in
  match c w with
  | (Done _, w) => (o, w)
  | (Fails e, w) => (Fails e, w)
  end.

Section calls.
Context (env : Env) (dir : path).

(** One call: the others act, then it fails or does its work. *)
Definition call {A} (f : nat -> FS -> outcome A * FS * list event) : M A := fun w =>
  let s := interference env (tick w) (fs w) in
  match fault env (tick w) with
  | Some e => (Fails e, {| fs := s; tick := S (tick w); log := log w |})
  | None => let '(o, s, evs) := f (tick w) s in (o, {| fs := s; tick := S (tick w); log := log w ++ evs |})
  end.

(** [PosixPath.__repr__] of [dir / name] in the text of an error. *)
Definition shown (name : string) : string := "PosixPath(" +:+ Idempotency.repr (path_str (child dir name)) +:+ ")".
Definition missing (name : string) : exn := FileNotFoundError ("[Errno 2] No such file or directory: " +:+ shown name).
Definition too_long (name : string) : exn := OsError 36 ("[Errno 36] File name too long: " +:+ shown name).
Definition is_directory (name : string) : exn := OsError 21 ("[Errno 21] Is a directory: " +:+ shown name).
Definition too_many_links (name : string) : exn := OsError 40 ("[Errno 40] Too many levels of symbolic links: " +:+ shown name).
Definition no_device (name : string) : exn := OsError 6 ("[Errno 6] No such device or address: " +:+ shown name).

(** The names no call takes. *)
Definition refused (name : string) : option exn :=
  if negb (no_char (Ascii.eqb (ascii_of_N 0)) name) then Some (ValueError "embedded null byte")
  else if (255 <? String.length name)%nat then Some (too_long name)
  else None.

Record stat_result := { S_ISREG : bool; S_ISLNK : bool; st_nlink : Z; st_mode : Z; st_size : Z; st_mtime : Z }.

Definition stat_of (s : FS) (e : entry) : stat_result :=
  match e with
  | Inode i =>
      match inodes s !! i with
      | Some n => {| S_ISREG := true; S_ISLNK := false; st_nlink := nlink i s; st_mode := mode n;
                     st_size := Z.of_nat (String.length (data n)); st_mtime := mtime n |}
      | None => {| S_ISREG := true; S_ISLNK := false; st_nlink := nlink i s; st_mode := 0; st_size := 0; st_mtime := 0 |}
      end
  | Symlink t => {| S_ISREG := false; S_ISLNK := true; st_nlink := 1; st_mode := 511; st_size := Z.of_nat (String.length t); st_mtime := 0 |}
  | Directory | Special _ => {| S_ISREG := false; S_ISLNK := false; st_nlink := 1; st_mode := 511; st_size := 0; st_mtime := 0 |}
  end.

(** [os.lstat] *)
Definition lstat (name : string) : M stat_result :=
  call (fun _ s =>
    match refused name with
    | Some e => (Fails e, s, [])
    | None => match names s !! name with
              | Some e => (Done (stat_of s e), s, [])
              | None => (Fails (missing name), s, [])
              end
    end).

(** An open file: one of the directory by its number, one outside by its path,
    or something that is no file. *)
Inductive fd := At (i : Z) | Outside (p : string) | Device.

Definition new_file (m : Z) (t : nat) (s : FS) : Z * FS :=
  let i := fresh (dom (inodes s)) in
  (i, with_inodes <[i := {| data := ""; mode := m; mtime := now env t; links := 0 |}]> s).

(** [os.open(name, O_WRONLY | O_CREAT | O_NOFOLLOW | O_NONBLOCK, 0o600)] *)
Definition open_nofollow (name : string) : M fd :=
  call (fun t s =>
    match names s !! name with
    | Some (Inode i) => (Done (At i), s, [])
    | Some (Symlink _) => (Fails (too_many_links name), s, [])
    | Some Directory => (Fails (is_directory name), s, [])
    | Some (Special true) => (Done Device, s, [])
    | Some (Special false) => (Fails (no_device name), s, [])
    | None => let '(i, s) := new_file 384 t s in (Done (At i), with_names <[name := Inode i]> s, [])
    end).

Definition fstat (f : fd) : M stat_result :=
  call (fun _ s => (Done (match f with At i => stat_of s (Inode i) | _ => stat_of s (Special true) end), s, [])).

Definition alter_data (i : Z) (t : nat) (f : string -> string) (s : FS) : FS :=
  with_inodes (alter (fun n => {| data := f (data n); mode := mode n; mtime := now env t; links := links n |}) i) s.

Definition ftruncate (f : fd) : M unit :=
  call (fun t s =>
    match f with
    | At i => (Done tt, alter_data i t (fun _ => "") s, [Truncated i])
    | Outside p => (Done tt, s, [WroteOutside p ""])
    | Device => (Fails (OsError 22 "[Errno 22] Invalid argument"), s, [])
    end).

(** The buffer of a handle is written through. *)
Definition write (f : fd) (chunk : string) : M unit :=
  call (fun t s =>
    match f with
    | At i => (Done tt, alter_data i t (fun d => d +:+ chunk) s, [Wrote i chunk])
    | Outside p => (Done tt, s, [WroteOutside p chunk])
    | Device => (Done tt, s, [])
    end).

(** A call that touches nothing of the directory: closing a handle, making the
    directory, reading the request. *)
Definition pass : M unit := call (fun _ s => (Done tt, s, [])).

Definition unlink (name : string) : M unit :=
  call (fun _ s =>
    match names s !! name with
    | None => (Fails (missing name), s, [])
    | Some Directory => (Fails (is_directory name), s, [])
    | Some _ => (Done tt, with_names (delete name) s, [])
    end).

(** [os.replace]; nothing happens between two names of one file. *)
Definition replace (src dst : string) : M unit :=
  call (fun _ s =>
    match names s !! src, names s !! dst with
    | None, _ => (Fails (missing src), s, [])
    | Some (Inode i), Some (Inode j) => if i =? j then (Done tt, s, []) else (Done tt, with_names (fun m => <[dst := Inode i]> (delete src m)) s, [])
    | Some Directory, Some Directory => (Done tt, with_names (delete src) s, [])
    | Some Directory, Some _ => (Fails (OsError 20 ("[Errno 20] Not a directory: " +:+ shown src)), s, [])
    | Some _, Some Directory => (Fails (is_directory src), s, [])
    | Some e, _ => (Done tt, with_names (fun m => <[dst := e]> (delete src m)) s, [])
    end).

(** [tempfile.mkstemp]: the first candidate nobody has. *)
Definition TMP_MAX : nat := Z.to_nat 10000.
Fixpoint first_free (fuel k : nat) (name_of : nat -> string) (s : FS) : option string :=
  match fuel with
  | O => None
  | S fuel => match names s !! name_of k with
              | None => Some (name_of k)
              | Some _ => first_free fuel (S k) name_of s
              end
  end.
Definition mkstemp (prefix suffix : string) : M (fd * string) :=
  call (fun t s =>
    match first_free TMP_MAX 0 (fun k => prefix +:+ random env t k +:+ suffix) s with
    | None => (Fails (OsError 17 "[Errno 17] No usable temporary file name found"), s, [])
    | Some x => let '(i, s) := new_file 384 t s in (Done (At i, x), with_names <[x := Inode i]> s, [])
    end).

(** Where a name leads when links are followed. *)
Inductive location := Here (name : string) | There (p : string).
Definition inside (p : string) : option string :=
  let base := parse (resolve_dir env) in
  if relative_to (parse p) base then Some (join "/" (drop (length (tail base)) (tail (parse p)))) else None.
Definition locate (name : string) (s : FS) : location :=
  match names s !! name with
  | Some (Symlink _) => match inside (resolve env s name) with Some x => Here x | None => There (resolve env s name) end
  | _ => Here name
  end.

(** [open(name, "w")] *)
Definition open_truncated (name : string) : M fd :=
  call (fun t s =>
    match locate name s with
    | There p => (Done (Outside p), s, [WroteOutside p ""])
    | Here x =>
        match names s !! x with
        | Some (Inode i) => (Done (At i), alter_data i t (fun _ => "") s, [Truncated i])
        | Some (Symlink _) => (Fails (too_many_links x), s, [])
        | Some Directory => (Fails (is_directory name), s, [])
        | Some (Special _) => (Done Device, s, [])
        | None => let '(i, s) := new_file 420 t s in (Done (At i), with_names <[x := Inode i]> s, [])
        end
    end).

(** [Path.read_bytes] *)
Definition read_bytes (name : string) : M string :=
  call (fun _ s =>
    match locate name s with
    | There p => (read_outside env s p, s, [])
    | Here x =>
        match names s !! x with
        | Some (Inode i) => (Done (default "" (data <$> inodes s !! i)), s, [])
        | Some (Symlink _) => (Fails (too_many_links x), s, [])
        | Some Directory => (Fails (is_directory name), s, [])
        | Some (Special _) => (Done "", s, [])
        | None => (Fails (missing name), s, [])
        end
    end).

(** [Path.is_file] *)
Definition is_file (name : string) : M bool :=
  call (fun _ s =>
    (Done match locate name s with
          | There p => is_file_outside env s p
          | Here x => match names s !! x with Some (Inode _) => true | _ => false end
          end, s, [])).

(** [os.chmod(name, m)]; without [follow_symlinks] a link is followed. *)
Definition chmod (name : string) (m : Z) : M unit :=
  let set i t s := (Done tt, with_inodes (alter (fun n => {| data := data n; mode := m; mtime := mtime n; links := links n |}) i) s, [Chmod i m]) in
  call (fun t s =>
    match names s !! name, chmod_nofollow env with
    | None, _ => (Fails (missing name), s, [])
    | Some (Inode i), _ => set i t s
    | Some (Symlink _), true => (Done tt, s, [])
    | Some (Symlink _), false =>
        match locate name s with
        | There p => (Done tt, s, [ChmodOutside p])
        | Here x => match names s !! x with Some (Inode i) => set i t s | Some _ => (Done tt, s, []) | None => (Fails (missing name), s, []) end
        end
    | Some _, _ => (Done tt, s, [])
    end).

(** [(dir / name).resolve()] *)
Definition resolved (name : string) : M path := call (fun _ s => (Done (parse (resolve env s name)), s, [])).

(** The entries of [os.scandir], in the order of their names. *)
Definition scandir : M (list (string * entry)) :=
  call (fun _ s => (Done (merge_sort (fun a b => String.le a.1 b.1) (List.filter (fun x => no_char (Ascii.eqb slash) x.1) (map_to_list (names s)))), s, [])).

Definition send (virtual_path d : string) : M unit := call (fun _ s => (Done tt, s, [Sent virtual_path d])).

End calls.

End UploadDir.

Import Json Text PosixPaths UploadDir.

Module Uploads.

(** ** Names *)

Definition UPLOAD_STAGING_PREFIX : string := ".upload-".
Definition UPLOAD_STAGING_SUFFIX : string := ".part".

Definition thread_char (c : ascii) : bool := FilePaths.id_char c || Ascii.eqb c ".".

Definition validate_thread_id (thread_id : string) : outcome unit :=
  if (thread_id =? "")%string || negb (FilePaths.matches_all thread_char thread_id)
  then Fails (ValueError ("Invalid thread_id: " +:+ Idempotency.repr thread_id))
  else Done tt.

(** [get_paths()] is the directory [paths]. *)
Definition get_uploads_dir (paths : path) (user_id : option string) (effective thread_id : string) : outcome path :=
  match validate_thread_id thread_id with
  | Fails e => Fails e
  | Done _ =>
      let user := match user_id with Some u => if (u =? "")%string then effective else u | None => effective end in
      match FilePaths.sandbox_uploads_dir paths (Some user) thread_id with
      | SandboxPaths.Good p => Done p
      | SandboxPaths.Bad f => Fails (ValueError (SandboxPaths.message f))
      end
  end.

Definition normalize_filename (filename : string) : outcome string :=
  if (filename =? "")%string then Fails (ValueError "Filename is empty") else
  let safe := name (parse filename) in
  if (safe =? "")%string || bool_decide (safe ∈ [".";  ".."])
  then Fails (ValueError ("Filename is unsafe: " +:+ Idempotency.repr filename))
  else if contains (char backslash_char) safe then Fails (ValueError ("Filename contains backslash: " +:+ Idempotency.repr filename))
  else if (255 <? String.length safe)%nat then Fails (ValueError ("Filename too long: " +:+ pretty (len safe) +:+ " chars"))
  else Done safe.

(** [Path(name).stem] and [Path(name).suffix] of a single component: a dot that
    is neither its first nor its last character. *)
Definition stem_suffix (n : string) : string * string :=
  match rpartition "." n with
  | Some (a, b) => if (a =? "")%string || (b =? "")%string then (n, "") else (a, "." +:+ b)
  | None => (n, "")
  end.
Definition suffix_of (n : string) : string := (stem_suffix n).2.
(** [with_suffix] *)
Definition with_suffix (s n : string) : string := (stem_suffix n).1 +:+ s.

Definition candidate (n : string) (counter : Z) : string :=
  (stem_suffix n).1 +:+ "_" +:+ pretty counter +:+ (stem_suffix n).2.

(** The loop from [counter] on; a set of names that many is exhausted before the
    fuel is. *)
Fixpoint next_free (fuel : nat) (n : string) (counter : Z) (seen : gset string) : string :=
  if decide (candidate n counter ∈ seen)
  then match fuel with O => candidate n counter | S fuel => next_free fuel n (counter + 1) seen end
  else candidate n counter.

Definition claim_unique_filename (n : string) (seen : gset string) : string * gset string :=
  if decide (n ∈ seen)
  then let c := next_free (size seen) n 1 seen in (c, {[ c ]} ∪ seen)
  else (n, {[ n ]} ∪ seen).

Definition is_upload_staging_file (filename : string) : bool :=
  starts_with UPLOAD_STAGING_PREFIX filename && SandboxTools.ends_with UPLOAD_STAGING_SUFFIX filename.

(** [quote(s, safe="")] *)
Definition unreserved (c : ascii) : bool :=
  FilePaths.id_char c || Ascii.eqb c "." || Ascii.eqb c "~".
Definition upper_hex (n : N) : ascii := ascii_of_N (if (n <? 10)%N then n + 48 else n + 55)%N.
Fixpoint percent (s : string) : string :=
  match s with
  | EmptyString => ""
  | String c r =>
      if unreserved c then String c (percent r)
      else String "%" (String (upper_hex (N_of_ascii c / 16)) (String (upper_hex (N_of_ascii c mod 16)) (percent r)))
  end.

Definition upload_artifact_url (thread_id filename : string) : string :=
  "/api/threads/" +:+ thread_id +:+ "/artifacts" +:+ SandboxPaths.VIRTUAL_PATH_PREFIX +:+ "/uploads/" +:+ percent filename.
Definition upload_virtual_path (filename : string) : string := SandboxPaths.VIRTUAL_PATH_PREFIX +:+ "/uploads/" +:+ filename.

(** ** Files *)

Record UploadedFileInfo := {
  filename : string;
  size : Z;
  path_text : string;
  virtual_path : string;
  artifact_url : string;
  extension : option string;
  modified : option Z;
  original_filename : option string;
  markdown_file : option string;
  markdown_path : option string;
  markdown_virtual_path : option string;
  markdown_artifact_url : option string
}.

Section manager.
Context (env : Env) (dir : path).

(** The position of a name for messages: [dir / name]. *)
Definition in_uploads (n : string) : string := path_str (child dir n).

(** [try: os.lstat(dest) except FileNotFoundError: None] *)
Definition lstat_or_none (n : string) : M (option stat_result) :=
  catch (s ← lstat env dir n; mret (Some s)) (fun e => if is_not_found e then Some (mret None) else None).

Definition check_traversal (p : path) : M unit :=
  if relative_to p (parse (resolve_dir env)) then mret tt else raise (PathTraversalError "Path traversal detected").

Definition validate_path_traversal (n : string) : M unit := p ← resolved env n; check_traversal p.

(** The name stands for the destination [dir / name]. *)
Definition validate_upload_destination (f : string) : M string :=
  safe_name ← lift (normalize_filename f);
  st ← lstat_or_none safe_name;
  (match st with
   | Some st =>
       if negb (S_ISREG st) then raise (UnsafeUploadPathError ("Upload destination is not a regular file: " +:+ safe_name))
       else if 1 <? st_nlink st then raise (UnsafeUploadPathError ("Upload destination has multiple links: " +:+ safe_name))
       else mret tt
   | None => mret tt
   end);;
  validate_path_traversal safe_name;;
  mret safe_name.

(** [ELOOP], [EISDIR], [ENOTDIR], [ENXIO], [EAGAIN] *)
Definition unsafe_errnos : list Z := [40; 21; 20; 6; 11].

Definition open_upload_file_no_symlink (f : string) : M (string * fd) :=
  safe_name ← lift (normalize_filename f);
  dest ← validate_upload_destination safe_name;
  _ ← lstat_or_none dest;
  h ← catch (open_nofollow env dir dest)
    (fun e => match e with
              | OsError errno _ => if bool_decide (errno ∈ unsafe_errnos)
                                   then Some (raise (UnsafeUploadPathError ("Unsafe upload destination: " +:+ safe_name))) else None
              | _ => None
              end);
  (catch (st ← fstat env h;
          (if negb (S_ISREG st) || negb (st_nlink st =? 1)
           then raise (UnsafeUploadPathError ("Upload destination is not an exclusive regular file: " +:+ safe_name)) else mret tt);;
          ftruncate env h)
     (fun e => Some (pass env;; raise e)));;
  mret (dest, h).

Definition write_upload_file_no_symlink (f data : string) : M string :=
  r ← open_upload_file_no_symlink f;
  finally (write env r.2 data) (pass env);;
  mret r.1.

(** [os.unlink] of one stale file: a missing one is ignored, another failure
    logged. *)
Definition remove_stale (n : string) : M Z :=
  catch (unlink env dir n;; mret 1) (fun e => if is_os_error e then Some (mret 0) else None).

Fixpoint remove_all (l : list (string * entry)) : M Z :=
  match l with
  | [] => mret 0
  | x :: l =>
      if is_upload_staging_file x.1 && match x.2 with Inode _ => true | _ => false end
      then k ← remove_stale x.1; n ← remove_all l; mret (k + n)
      else remove_all l
  end.

(** One of the upload directories. *)
Definition cleanup_stale_upload_staging_files : M Z :=
  catch (l ← scandir env; remove_all l) (fun e => if is_os_error e then Some (mret 0) else None).

Definition listed (n : string) (st : stat_result) : UploadedFileInfo :=
  {| filename := n; size := st_size st; path_text := in_uploads n; virtual_path := ""; artifact_url := "";
     extension := Some (suffix_of n); modified := Some (st_mtime st); original_filename := None; markdown_file := None;
     markdown_path := None; markdown_virtual_path := None; markdown_artifact_url := None |}.

Fixpoint list_entries (l : list (string * entry)) : M (list UploadedFileInfo) :=
  match l with
  | [] => mret []
  | x :: l =>
      if is_upload_staging_file x.1 || negb match x.2 with Inode _ => true | _ => false end
      then list_entries l
      else st ← lstat env dir x.1; r ← list_entries l; mret (listed x.1 st :: r)
  end.

(** [directory.is_dir()] is the argument. *)
Definition list_files_in_dir (is_dir : bool) : M (list UploadedFileInfo) :=
  if is_dir then l ← scandir env; list_entries l else mret [].

Definition enrich (thread_id : string) (f : UploadedFileInfo) : UploadedFileInfo :=
  {| filename := filename f; size := size f; path_text := path_text f; virtual_path := upload_virtual_path (filename f);
     artifact_url := upload_artifact_url thread_id (filename f); extension := extension f; modified := modified f;
     original_filename := original_filename f; markdown_file := markdown_file f; markdown_path := markdown_path f;
     markdown_virtual_path := markdown_virtual_path f; markdown_artifact_url := markdown_artifact_url f |}.
Definition enrich_file_listing (thread_id : string) (l : list UploadedFileInfo) : list UploadedFileInfo := map (enrich thread_id) l.

Definition CONVERTIBLE_EXTENSIONS : list string := [".pdf"; ".ppt"; ".pptx"; ".xls"; ".xlsx"; ".doc"; ".docx"].
Definition convertible (n : string) : bool := bool_decide (lowered (suffix_of n) ∈ CONVERTIBLE_EXTENSIONS).

(** The last component of a relative path with another suffix. *)
Definition sibling (s x : string) : string :=
  match rpartition "/" x with Some (d, n) => d +:+ "/" +:+ with_suffix s n | None => with_suffix s x end.
Definition base_of (x : string) : string := match rpartition "/" x with Some (_, n) => n | None => x end.

(** A path that lies outside when it is first resolved and inside when it is
    resolved again is not followed. *)
Definition delete_file_safe (f : string) (conversions : bool) : M string :=
  p ← resolved env f;
  validate_path_traversal (path_str p);;
  let x := default "" (inside env (path_str p)) in
  there ← (if (x =? "")%string then mret false else is_file env x);
  (if there : bool then mret tt else raise (FileNotFoundError ("File not found: " +:+ f)));;
  unlink env dir x;;
  (if conversions && convertible (base_of x)
   then catch (unlink env dir (sibling ".md" x)) (fun e => if is_not_found e then Some (mret tt) else None)
   else mret tt);;
  mret ("Deleted " +:+ f).
End manager.

(** ** The router *)

Definition UPLOAD_CHUNK_SIZE : nat := Z.to_nat 8192.
Definition DEFAULT_MAX_FILES : Z := 10.
Definition DEFAULT_MAX_FILE_SIZE : Z := 50 * 1024 * 1024.
Definition DEFAULT_MAX_TOTAL_SIZE : Z := 100 * 1024 * 1024.

Record UploadResponse := { success : bool; files : list UploadedFileInfo; message : string; skipped_files : list string }.
Record UploadLimits := { max_files : Z; max_file_size : Z; max_total_size : Z }.

(** The uploads part of the configuration, a dictionary or an object. *)
Definition _get_uploads_config_value (config : dict) (key : string) (d : json) : json := default d (get key config).

Definition _get_upload_limit (config : dict) (key : string) (d : Z) (legacy_key : option string) : Z :=
  let value := _get_uploads_config_value config key JNull in
  let value := match value, legacy_key with JNull, Some k => _get_uploads_config_value config k JNull | _, _ => value end in
  let value := match value with JNull => JInt d | _ => value end in
  match LoopDetection.int_or_none value with
  | Errors.Ok (Some limit) => if limit <=? 0 then d else limit
  | _ => d
  end.

Definition _get_upload_limits (config : dict) : UploadLimits :=
  {| max_files := _get_upload_limit config "max_files" DEFAULT_MAX_FILES (Some "max_file_count");
     max_file_size := _get_upload_limit config "max_file_size" DEFAULT_MAX_FILE_SIZE (Some "max_single_file_size");
     max_total_size := _get_upload_limit config "max_total_size" DEFAULT_MAX_TOTAL_SIZE None |}.

Definition _auto_convert_documents_enabled (config : dict) : bool :=
  match _get_uploads_config_value config "auto_convert_documents" (JBool false) with
  | JStr raw => bool_decide (lowered (strip raw) ∈ ["1"; "true"; "yes"; "on"])
  | raw => truthy raw
  end.

Record UploadFile := { upload_filename : option string; body : string }.

(** The first [n] bytes and the rest: [file.read(n)]. *)
Fixpoint split_bytes (n : nat) (s : string) : string * string :=
  match n, s with
  | S n, String c s => let '(a, b) := split_bytes n s in (String c a, b)
  | _, _ => ("", s)
  end.

Record _UploadTempFile := { file_path : string; temp_path : string; handle : fd }.

Section router.
Context (env : Env) (dir : path).

Definition _make_file_sandbox (bits : Z) (n : string) : M unit :=
  st ← lstat env dir n;
  if S_ISLNK st then mret tt else chmod env dir n (Z.lor (st_mode st) bits).
(** [S_IWUSR | S_IWGRP | S_IWOTH | S_IRGRP | S_IROTH] and [S_IRGRP | S_IROTH] *)
Definition _make_file_sandbox_writable : string -> M unit := _make_file_sandbox 182.
Definition _make_file_sandbox_readable : string -> M unit := _make_file_sandbox 36.

Definition ignoring_missing (m : M unit) : M unit := catch m (fun e => if is_not_found e then Some (mret tt) else None).

Fixpoint cleanup_each (l : list string) : M unit :=
  match l with
  | [] => mret tt
  | n :: l => catch (unlink env dir n) (fun _ => Some (mret tt));; cleanup_each l
  end.
Definition _cleanup_uploaded_paths (paths : list string) : M unit := cleanup_each (rev paths).

Definition _prepare_upload_destination (display_filename : string) : M _UploadTempFile :=
  dest ← validate_upload_destination env dir display_filename;
  r ← mkstemp env UPLOAD_STAGING_PREFIX UPLOAD_STAGING_SUFFIX;
  catch (pass env)
    (fun e => Some (catch (pass env) (fun e => if is_os_error e then Some (mret tt) else None);; ignoring_missing (unlink env dir r.2);; raise e));;
  mret {| file_path := dest; temp_path := r.2; handle := r.1 |}.

Definition _abort_upload_temp (t : _UploadTempFile) : M unit :=
  finally (pass env) (ignoring_missing (unlink env dir (temp_path t))).

Definition _commit_upload_temp (t : _UploadTempFile) : M unit :=
  pass env;;
  catch (replace env dir (temp_path t) (file_path t))
    (fun e => Some (ignoring_missing (unlink env dir (temp_path t));; raise e)).

(** The loop over the chunks of a body; every turn but the last reads a byte or
    more.  What it returns are the two sizes. *)
Fixpoint write_chunks (fuel : nat) (t : _UploadTempFile) (display_filename rest : string)
    (max_single_file_size max_total_size file_size total_size : Z) : M (Z * Z) :=
  pass env;;
  let '(chunk, rest) := split_bytes UPLOAD_CHUNK_SIZE rest in
  if (chunk =? "")%string then mret (file_size, total_size) else
  let file_size := file_size + Z.of_nat (String.length chunk) in
  let total_size := total_size + Z.of_nat (String.length chunk) in
  if max_single_file_size <? file_size then raise (HTTPException 413 ("File too large: " +:+ display_filename))
  else if max_total_size <? total_size then raise (HTTPException 413 "Total upload size too large")
  else
    write env (handle t) chunk;;
    match fuel with
    | O => mret (file_size, total_size)
    | S fuel => write_chunks fuel t display_filename rest max_single_file_size max_total_size file_size total_size
    end.

Definition _write_upload_file_with_limits (f : UploadFile) (display_filename : string)
    (max_single_file_size max_total_size total_size : Z) : M (string * Z * Z) :=
  t ← _prepare_upload_destination display_filename;
  r ← catch (r ← write_chunks (String.length (body f)) t display_filename (body f) max_single_file_size max_total_size 0 total_size;
             _commit_upload_temp t;;
             mret r)
        (fun e => Some (_abort_upload_temp t;; raise e));
  mret (file_path t, r.1, r.2).

(** The size of the file is taken first.  What the converters make of a file is a
    parameter; their choice by size and kind is not modelled. *)
Definition convert_file_to_markdown (do_convert : FS -> string -> outcome string) (n : string) : M (option string) :=
  catch (read_bytes env dir n;;
         text ← call env (fun _ s => (do_convert s n, s, []));
         h ← open_truncated env dir (with_suffix ".md" n);
         finally (write env h text) (pass env);;
         mret (Some (with_suffix ".md" n)))
    (fun _ => Some (mret None)).

Definition _sync_upload_to_sandbox (n virtual_path : string) : M unit :=
  _make_file_sandbox_writable n;;
  d ← read_bytes env dir n;
  send env virtual_path d.

(** The loop's variables. *)
Record progress := {
  uploaded_files : list UploadedFileInfo;
  written_paths : list string;
  sandbox_sync_targets : list (string * string);
  skipped : list string;
  total_size : Z;
  seen_filenames : gset string
}.

Definition with_seen (seen : gset string) (p : progress) : progress :=
  {| uploaded_files := uploaded_files p; written_paths := written_paths p; sandbox_sync_targets := sandbox_sync_targets p;
     skipped := skipped p; total_size := total_size p; seen_filenames := seen |}.

Definition file_info (thread_id original_filename safe_filename : string) (file_size : Z) (md : option string) : UploadedFileInfo :=
  {| filename := safe_filename; size := file_size; path_text := in_uploads dir safe_filename;
     virtual_path := upload_virtual_path safe_filename; artifact_url := upload_artifact_url thread_id safe_filename;
     extension := None; modified := None;
     original_filename := if (safe_filename =? original_filename)%string then None else Some original_filename;
     markdown_file := md; markdown_path := in_uploads dir <$> md; markdown_virtual_path := upload_virtual_path <$> md;
     markdown_artifact_url := upload_artifact_url thread_id <$> md |}.

(** One file of the request; the writes to [written_paths] before an exception
    are what the handlers clean up. *)
Definition upload_one (limits : UploadLimits) (do_convert : FS -> string -> outcome string) (auto_convert_documents sync_to_sandbox : bool)
    (thread_id : string) (p : progress) (f : UploadFile) : M progress :=
  match upload_filename f with
  | None | Some EmptyString => mret p
  | Some name =>
      match normalize_filename name with
      | Fails _ => mret p
      | Done original_filename =>
          let '(safe_filename, seen) := claim_unique_filename original_filename (seen_filenames p) in
          let p := with_seen seen p in
          catch
            (r ← _write_upload_file_with_limits f safe_filename (max_file_size limits) (max_total_size limits) (total_size p);
             let '(path, file_size, total) := r in
             let written := written_paths p ++ [path] in
             let targets := sandbox_sync_targets p ++ if sync_to_sandbox then [(path, upload_virtual_path safe_filename)] else [] in
             md ← (if auto_convert_documents && convertible path then convert_file_to_markdown do_convert path else mret None);
             mret {| uploaded_files := uploaded_files p ++ [file_info thread_id original_filename safe_filename file_size md];
                     written_paths := written ++ option_list md;
                     sandbox_sync_targets := targets ++
                       (if sync_to_sandbox then map (fun m => (m, upload_virtual_path m)) (option_list md) else []);
                     skipped := skipped p; total_size := total; seen_filenames := seen |})
            (fun e => Some
               match e with
               | HTTPException _ _ => _cleanup_uploaded_paths (written_paths p);; raise e
               | UnsafeUploadPathError _ =>
                   mret {| uploaded_files := uploaded_files p; written_paths := written_paths p;
                           sandbox_sync_targets := sandbox_sync_targets p; skipped := skipped p ++ [safe_filename];
                           total_size := total_size p; seen_filenames := seen |}
               | e => _cleanup_uploaded_paths (written_paths p);;
                      raise (HTTPException 500 ("Failed to upload " +:+ name +:+ ": " +:+ str_exn e))
               end)
      end
  end.

Fixpoint upload_all (limits : UploadLimits) (do_convert : FS -> string -> outcome string) (auto_convert_documents sync_to_sandbox : bool)
    (thread_id : string) (p : progress) (l : list UploadFile) : M progress :=
  match l with
  | [] => mret p
  | f :: l => p ← upload_one limits do_convert auto_convert_documents sync_to_sandbox thread_id p f;
              upload_all limits do_convert auto_convert_documents sync_to_sandbox thread_id p l
  end.

Fixpoint each {A} (f : A -> M unit) (l : list A) : M unit :=
  match l with [] => mret tt | x :: l => f x;; each f l end.
Definition _make_uploaded_paths_sandbox_readable : list string -> M unit := each _make_file_sandbox_readable.

Definition nothing_yet : progress :=
  {| uploaded_files := []; written_paths := []; sandbox_sync_targets := []; skipped := []; total_size := 0; seen_filenames := ∅ |}.

Definition shown_count (n : nat) : string := pretty (Z.of_nat n).

(** The endpoint from the files on, in the directory that was made. *)
Definition upload_into (config : dict) (do_convert : FS -> string -> outcome string) (sync_to_sandbox : bool) (thread_id : string)
    (l : list UploadFile) : M UploadResponse :=
  p ← upload_all (_get_upload_limits config) do_convert (_auto_convert_documents_enabled config) sync_to_sandbox thread_id nothing_yet l;
  _make_uploaded_paths_sandbox_readable (written_paths p);;
  (if sync_to_sandbox then each (fun t => _sync_upload_to_sandbox t.1 t.2) (sandbox_sync_targets p) else mret tt);;
  mret {| success := bool_decide (skipped p = []); files := uploaded_files p;
          message := "Successfully uploaded " +:+ shown_count (length (uploaded_files p)) +:+ " file(s)" +:+
            (if bool_decide (skipped p = []) then "" else "; skipped " +:+ shown_count (length (skipped p)) +:+ " unsafe file(s)");
          skipped_files := skipped p |}.
End router.

(** What [get_sandbox_provider] and its sandbox answer. *)
Record Provider := {
  uses_thread_data_mounts : bool;
  acquire : string -> string -> outcome string;
  sandbox_exists : string -> bool
}.

Section endpoints.
Context (env : Env) (paths : path) (effective_user_id : string).

Definition bad_request {A} (o : outcome A) : outcome A :=
  match o with Fails e => if is_value_error e then Fails (HTTPException 400 (str_exn e)) else Fails e | o => o end.

(** The sandbox to write into, where files are not mounted. *)
Definition sync_target (provider : outcome Provider) (thread_id : string) : outcome bool :=
  match provider with
  | Fails e => Fails e
  | Done pr =>
      if uses_thread_data_mounts pr then Done false
      else match acquire pr thread_id effective_user_id with
           | Fails e => Fails e
           | Done sandbox_id => if sandbox_exists pr sandbox_id then Done true else Fails (HTTPException 500 "Failed to acquire sandbox")
           end
  end.

Definition upload_files (config : dict) (provider : outcome Provider) (do_convert : FS -> string -> outcome string) (thread_id : string)
    (l : list UploadFile) : M UploadResponse :=
  if bool_decide (length l = 0%nat) then raise (HTTPException 400 "No files provided") else
  let limits := _get_upload_limits config in
  if max_files limits <? Z.of_nat (length l)
  then raise (HTTPException 413 ("Too many files: maximum is " +:+ pretty (max_files limits))) else
  dir ← lift (bad_request (get_uploads_dir paths (Some effective_user_id) effective_user_id thread_id));
  catch (pass env) (fun e => if is_value_error e then Some (raise (HTTPException 400 (str_exn e))) else None);;
  sync ← lift (sync_target provider thread_id);
  upload_into env dir config do_convert sync thread_id l.

Definition get_upload_limits (config : dict) : UploadLimits := _get_upload_limits config.

Definition with_path (f : UploadedFileInfo) (p : string) : UploadedFileInfo :=
  {| filename := filename f; size := size f; path_text := p; virtual_path := virtual_path f; artifact_url := artifact_url f;
     extension := extension f; modified := modified f; original_filename := original_filename f; markdown_file := markdown_file f;
     markdown_path := markdown_path f; markdown_virtual_path := markdown_virtual_path f; markdown_artifact_url := markdown_artifact_url f |}.

Definition _list_uploaded_files_for_thread (is_dir : bool) (thread_id : string) : M (list UploadedFileInfo) :=
  dir ← lift (get_uploads_dir paths (Some effective_user_id) effective_user_id thread_id);
  l ← list_files_in_dir env dir is_dir;
  mret (map (fun f => with_path f (path_str (child dir (filename f)))) (enrich_file_listing thread_id l)).

Definition list_uploaded_files (is_dir : bool) (thread_id : string) : M (list UploadedFileInfo) :=
  catch (_list_uploaded_files_for_thread is_dir thread_id)
    (fun e => if is_value_error e then Some (raise (HTTPException 400 (str_exn e))) else None).

Definition delete_uploaded_file (thread_id f : string) : M string :=
  catch (dir ← lift (get_uploads_dir paths (Some effective_user_id) effective_user_id thread_id); delete_file_safe env dir f true)
    (fun e => Some
       match e with
       | FileNotFoundError _ => raise (HTTPException 404 ("File not found: " +:+ f))
       | PathTraversalError _ => raise (HTTPException 400 "Invalid path")
       | UnsafeUploadPathError m | ValueError m => raise (HTTPException 400 m)
       | e => raise (HTTPException 500 ("Failed to delete " +:+ f +:+ ": " +:+ str_exn e))
       end).
End endpoints.

End Uploads.
