(* ===== verification/UploadSafety.v ===== *)
(** * What uploads write

    Whatever happens in the directory between two calls, a request writes into
    new files only; without interference it stores every file under a name of
    its own or, when the limits are exceeded, none of them. *)
From S2P Require Import Prelude Json Text PosixPaths LoopDetection SandboxPaths SandboxTools FilePaths Uploads.
Import Json Text PosixPaths UploadDir Uploads.

Module UploadSafety.

(** ** Under interference *)

Section confined.
Context (env : Env) (dir : path) (prot : gmap Z (string * Z)) (modes linkless : bool).

(** The files that must not be changed, with their contents and modes: they have
    a name elsewhere, which nobody who only has the directory can remove.  With
    [modes] their modes are to be kept too. *)
Definition guarded (s : FS) : Prop := forall i d, prot !! i = Some d ->
  exists n, inodes s !! i = Some n /\ 1 <= links n /\ data n = d.1 /\ (modes = true -> mode n = d.2).

(** What a step may have done. *)
Definition harmless (e : event) : Prop :=
  match e with
  | Wrote i _ | Truncated i => prot !! i = None
  | WroteOutside _ _ => False
  | Chmod i _ => modes = true -> prot !! i = None
  | ChmodOutside _ => modes = false
  | Sent _ _ => True
  end.

Definition clean (w : World) : Prop := guarded (fs w) /\ Forall harmless (log w).

(** A name that is neither a link nor one of those files. *)
Definition own_name (s : FS) (n : string) : Prop :=
  match names s !! n with Some (Symlink _) => False | Some (Inode i) => prot !! i = None | _ => True end.
(** Nobody else puts a link or one of those files at a name that was neither. *)
Definition no_planting : Prop := forall k s n, own_name s n -> own_name (interference env k s) n.

Context (Hadv : forall k s, guarded s -> guarded (interference env k s)) (Hplant : linkless = true -> no_planting).

(** Where nobody plants anything the names [K] stay what they are. *)
Definition held (s : FS) (n : string) : Prop := linkless = true -> own_name s n.
Definition steady (K : gset string) (w : World) : Prop := clean w /\ forall n, n ∈ K -> held (fs w) n.

(** From a clean state that satisfies [P] the program ends in a clean state, and
    in one that satisfies [Q] if it returns. *)
Definition safe {A} (K : gset string) (P : World -> Prop) (m : M A) (Q : A -> World -> Prop) : Prop :=
  forall w, steady K w -> P w -> steady K (m w).2 /\ forall a, (m w).1 = Done a -> Q a (m w).2.

Notation "⊤w" := (fun _ : World => True).
Notation harmless_run m := (forall K, safe K ⊤w m (fun _ _ => True)).

Lemma safe_conseq {A} K P P' (m : M A) Q Q' :
  safe K P m Q -> (forall w, P' w -> P w) -> (forall a w, Q a w -> Q' a w) -> safe K P' m Q'.
Proof. intros S I J w C H. destruct (S w C (I w H)) as [S1 S2]. eauto. Qed.

Lemma safe_ret {A} K (a : A) (Q : A -> World -> Prop) : safe K (Q a) (mret a) Q.
Proof. intros w C H. split; [done|]. by intros a' [= <-]. Qed.

Lemma safe_bind {A B} K P (m : M A) R (k : A -> M B) Q : safe K P m R -> (forall a, safe K (R a) (k a) Q) -> safe K P (m ≫= k) Q.
Proof.
  intros Hm Hk w C H. unfold mbind, M_bind. destruct (Hm w C H) as [C1 R1]. destruct (m w) as [[a|e] w1]; cbn in *; [|done].
  by apply Hk; [|apply R1].
Qed.

Lemma steady_more K K' w : steady K w -> (forall n, n ∈ K' -> held (fs w) n) -> steady (K' ∪ K) w.
Proof. intros [C S] S'. split; [done|]. intros n [N|N]%elem_of_union; auto. Qed.
Lemma steady_less K K' w : steady K w -> K' ⊆ K -> steady K' w.
Proof. intros [C S] I. split; [done|]. auto. Qed.

(** What comes after may rely on the names that were made. *)
Lemma safe_grow {A B} K P (m : M A) (L : A -> gset string) (R : A -> Prop) (k : A -> M B) Q :
  safe K P m (fun a w => R a /\ forall n, n ∈ L a -> held (fs w) n) -> (forall a, R a -> safe (L a ∪ K) ⊤w (k a) Q) -> safe K P (m ≫= k) Q.
Proof.
  intros Hm Hk w C H. unfold mbind, M_bind. destruct (Hm w C H) as [C1 R1]. destruct (m w) as [[a|e] w1]; cbn in *; [|done].
  destruct (R1 a eq_refl) as [Ra La]. destruct (Hk a Ra w1) as [S T]; [by apply steady_more|done|]. split; [|done]. eapply steady_less; [exact S|set_solver].
Qed.

Lemma safe_raise {A} K P e (Q : A -> World -> Prop) : safe K P (raise e) Q.
Proof. by intros w C H. Qed.

Lemma safe_lift {A} K P (o : outcome A) : safe K P (lift o) (fun a w => P w /\ o = Done a).
Proof. by intros w C H. Qed.

Lemma safe_catch {A} K P (m : M A) h Q : safe K P m Q -> (forall e m', h e = Some m' -> safe K ⊤w m' Q) -> safe K P (catch m h) Q.
Proof.
  intros Hm Hh w C H. unfold catch. destruct (Hm w C H) as [C1 R1]. destruct (m w) as [[a|e] w1]; cbn in *; [done|].
  destruct (h e) as [m'|] eqn:E; [|done]. by apply (Hh e m' E).
Qed.

Lemma safe_finally {A} K P (m : M A) c (Q : A -> Prop) : safe K P m (fun a _ => Q a) -> harmless_run c -> safe K P (finally m c) (fun a _ => Q a).
Proof.
  intros Hm Hc w C H. unfold finally. destruct (Hm w C H) as [C1 R1]. destruct (m w) as [o w1]; cbn in *.
  destruct (Hc K w1 C1 I) as [C2 _]. destruct (c w1) as [[[]|e] w2]; cbn in *; [by split|done].
Qed.

Definition holds_all (K : gset string) (s : FS) : Prop := forall n, n ∈ K -> held s n.

(** A call is safe when its work is, on what the others left. *)
Lemma safe_call {A} K (P : World -> Prop) (f : nat -> FS -> outcome A * FS * list event) (Q : A -> FS -> Prop) :
  (forall w, P w -> forall s, s = interference env (tick w) (fs w) -> guarded s -> holds_all K s ->
     let r := f (tick w) s in guarded r.1.2 /\ Forall harmless r.2 /\ holds_all K r.1.2 /\ forall a, r.1.1 = Done a -> Q a r.1.2) ->
  safe K P (call env f) (fun a w => Q a (fs w)).
Proof.
  intros Hf w [[G L] S] H. unfold call. apply (Hadv (tick w)) in G as G'.
  assert (holds_all K (interference env (tick w) (fs w))) as S' by (intros n N l; by apply Hplant, S).
  destruct (fault env (tick w)); [done|].
  specialize (Hf w H _ eq_refl G' S'). destruct (f _ _) as [[o s] evs]. cbn in *. destruct Hf as (G2 & F & S2 & R).
  split; [split; [split; [done|by apply Forall_app]|done]|done].
Qed.

Lemma safe_simple_call {A} K (f : nat -> FS -> outcome A * FS * list event) (Q : A -> FS -> Prop) :
  (forall t s, guarded s -> holds_all K s ->
     let r := f t s in guarded r.1.2 /\ Forall harmless r.2 /\ holds_all K r.1.2 /\ forall a, r.1.1 = Done a -> Q a r.1.2) ->
  safe K ⊤w (call env f) (fun a w => Q a (fs w)).
Proof. intros Hf. apply safe_call. intros w _ s _ G S. by apply Hf. Qed.

(** ** The calls *)

Definition allowed (f : fd) : Prop := match f with At i => prot !! i = None | Outside _ => False | Device => True end.

Lemma guarded_names f s : guarded s -> guarded (with_names f s).
Proof. done. Qed.

Lemma holds_delete K m s : holds_all K s -> holds_all K (with_names (delete m) s).
Proof.
  intros H n N l. specialize (H n N l). unfold own_name in *. cbn. destruct (decide (n = m)) as [->|D]; [by rewrite lookup_delete_eq|].
  by rewrite lookup_delete_ne.
Qed.
Lemma holds_insert K m e s : match e with Symlink _ => False | Inode i => prot !! i = None | _ => True end ->
  holds_all K s -> holds_all K (with_names <[m := e]> s).
Proof.
  intros E H n N l. specialize (H n N l). unfold own_name in *. cbn. destruct (decide (n = m)) as [->|D].
  - rewrite lookup_insert_eq. by destruct e.
  - by rewrite lookup_insert_ne.
Qed.

Lemma guarded_alter i f s : guarded s ->
  prot !! i = None \/ (forall n, links (f n) = links n /\ data (f n) = data n /\ (modes = true -> mode (f n) = mode n)) ->
  guarded (with_inodes (alter f i) s).
Proof.
  intros G F j d J. destruct (G j d J) as (n & E & L & D & Md). cbn. destruct (decide (i = j)) as [->|N].
  - destruct F as [F|F]; [congruence|]. exists (f n). rewrite lookup_alter_eq, E. destruct (F n) as (-> & -> & Mf). split_and!; [done..|].
    intros Mt. by rewrite Mf, Md.
  - exists n. by rewrite lookup_alter_ne.
Qed.

Lemma fresh_unguarded m t s : guarded s -> prot !! (new_file env m t s).1 = None /\ guarded (new_file env m t s).2.
Proof.
  intros G. cbn. pose proof (is_fresh (dom (inodes s))) as F.
  assert (forall j d, prot !! j = Some d -> j <> fresh (dom (inodes s))) as N.
  { intros j d J ->. destruct (G _ d J) as (n & E & _). apply F. by apply elem_of_dom_2 in E. }
  split; [destruct (prot !! _) eqn:J; [|done]; by edestruct N|]. intros j d J. destruct (G j d J) as (n & E & L).
  exists n. cbn. by rewrite lookup_insert_ne by (by apply not_eq_sym, (N j d)).
Qed.

Ltac plain :=
  intros ?; apply (safe_simple_call _ _ (fun _ _ => True)); intros ? ? ? ?; cbn; repeat case_match; cbn; split_and!;
  try done; repeat constructor; try done; try (apply holds_delete; done).

Lemma safe_pass : harmless_run (pass env).
Proof. plain. Qed.
Lemma safe_lstat n : harmless_run (lstat env dir n).
Proof. plain. Qed.
Lemma safe_unlink n : harmless_run (unlink env dir n).
Proof. plain. Qed.
Lemma safe_resolved n : harmless_run (resolved env n).
Proof. plain. Qed.

Lemma safe_read_bytes n : harmless_run (read_bytes env dir n).
Proof. plain. Qed.
Lemma safe_send v d : harmless_run (send env v d).
Proof. plain. Qed.

(** A name is moved with what it stands for. *)
Lemma safe_replace K a b : a ∈ K -> safe K ⊤w (replace env dir a b) (fun _ w => held (fs w) b).
Proof.
  intros N. apply (safe_simple_call _ _ (fun _ s => held s b)). intros t s G H. cbn. pose proof (H a N) as Ha. unfold held, own_name in Ha.
  assert (forall e, names s !! a = Some e -> holds_all K (with_names (fun m => <[b := e]> (delete a m)) s) /\
    held (with_names (fun m => <[b := e]> (delete a m)) s) b) as Mv.
  { intros e E. rewrite E in Ha. split.
    - intros n Hn l. specialize (H n Hn l). specialize (Ha l). unfold own_name in *. cbn. destruct (decide (n = b)) as [->|Nb].
      + rewrite lookup_insert_eq. by destruct e.
      + rewrite lookup_insert_ne by done. destruct (decide (n = a)) as [->|Na]; [by rewrite lookup_delete_eq|by rewrite lookup_delete_ne].
    - intros l. specialize (Ha l). unfold own_name. cbn. rewrite lookup_insert_eq. by destruct e. }
  destruct (names s !! a) as [e|] eqn:Ea; [|by split_and!].
  destruct (Mv e eq_refl) as [M1 M2].
  destruct e as [i|x| |r], (names s !! b) as [[j|y| |r']|] eqn:Eb; cbn; repeat case_match; cbn; split_and!; try done; repeat constructor;
    try (apply holds_delete; done); try (intros u _; exact M2).
  - intros u _ l. specialize (Ha l). apply Z.eqb_eq in H0 as ->. unfold own_name. by rewrite Eb.
  - intros u _ l. unfold own_name. cbn. destruct (decide (a = b)) as [->|Nab]; [by rewrite lookup_delete_eq|by rewrite lookup_delete_ne, Eb].
Qed.

Lemma safe_chmod K n m : (modes = true -> linkless = true /\ n ∈ K) -> safe K ⊤w (chmod env dir n m) (fun _ _ => True).
Proof.
  intros Hm. apply (safe_simple_call _ _ (fun _ _ => True)). intros t s G H.
  assert (modes = true -> own_name s n) as Own by (intros Mt; destruct (Hm Mt) as [l N]; by apply (H n N)). unfold own_name in Own.
  assert (forall i, (modes = true -> prot !! i = None) ->
    guarded (with_inodes (alter (fun x => {| data := data x; mode := m; mtime := mtime x; links := links x |}) i) s)) as Gd.
  { intros i Pi. apply guarded_alter; [done|]. destruct (Bool.bool_dec modes true) as [Mt|Mf]; [left; by apply Pi|right; intros x; by split_and!]. }
  cbn. repeat case_match; cbn; split_and!; try done; repeat constructor; try done.
  - by apply Gd.
  - apply Gd. intros Mt. by destruct (Own Mt).
  - intros Mt. by destruct (Own Mt).
  - destruct (Bool.bool_dec modes true) as [Mt|Mf]; [by destruct (Own Mt)|by apply not_true_is_false].
Qed.

Lemma safe_write f chunk : allowed f -> harmless_run (write env f chunk).
Proof. intros A. destruct f as [i|p|]; [|done|]; plain; apply guarded_alter; eauto. Qed.

Lemma safe_ftruncate f : allowed f -> harmless_run (ftruncate env f).
Proof. intros A. destruct f as [i|p|]; [|done|]; plain; apply guarded_alter; eauto. Qed.

Lemma safe_mkstemp K a b : safe K ⊤w (mkstemp env a b) (fun r w => allowed r.1 /\ held (fs w) r.2).
Proof.
  apply (safe_simple_call _ _ (fun r s => allowed r.1 /\ held s r.2)). intros t s G H. cbn [mkstemp]. destruct (first_free _ _ _ _) as [x|]; [|by split_and!].
  pose proof (fresh_unguarded 384 t s G) as [F G']. destruct (new_file env 384 t s) as [i s'] eqn:E. cbn in F, G'.
  assert (holds_all K s') as H' by (unfold new_file in E; injection E as _ <-; exact H). cbn.
  split_and!; [done|constructor|by apply holds_insert|]. intros r [= <-]. split; [done|]. intros _. unfold own_name. cbn. by rewrite lookup_insert_eq.
Qed.

#[local] Hint Resolve safe_pass safe_lstat safe_unlink safe_resolved safe_write safe_ftruncate : uploads.

(** ** The programs *)

Lemma safe_done {A} K (a : A) P : safe K P (mret a) (fun _ _ => True).
Proof. intros w C H. by split. Qed.
Lemma safe_any {A} K P (m : M A) Q : safe K P m Q -> safe K P m (fun _ _ => True).
Proof. intros S. by apply (safe_conseq K P P m Q). Qed.
Lemma safe_then {A B} K P (m : M A) (k : A -> M B) : safe K P m (fun _ _ => True) -> (forall a, safe K ⊤w (k a) (fun _ _ => True)) ->
  safe K P (m ≫= k) (fun _ _ => True).
Proof. intros. by eapply safe_bind. Qed.

Lemma safe_given {A} K (phi : Prop) (m : M A) Q : (phi -> safe K ⊤w m Q) -> safe K (fun _ => phi) m Q.
Proof. intros S w C H. by apply (S H w C I). Qed.

(** Programs of harmless calls are harmless, by their structure. *)
Ltac harmless :=
  intros;
  repeat first
    [ apply safe_done | apply safe_raise | done | solve [eauto with uploads]
    | apply safe_then; [|intros ?]
    | apply safe_catch; [|intros ? ? E; repeat case_match; try discriminate E; injection E as <-]
    | apply (safe_finally _ _ _ _ (fun _ => True)); [|intros ?]
    | eapply safe_any, safe_lift
    | case_match ].

Lemma safe_validate n : harmless_run (validate_upload_destination env dir n).
Proof. unfold validate_upload_destination, lstat_or_none, validate_path_traversal, check_traversal. harmless. Qed.

Lemma safe_ignoring m : harmless_run m -> harmless_run (ignoring_missing m).
Proof. intros H. unfold ignoring_missing. harmless. Qed.
#[local] Hint Resolve safe_validate safe_ignoring : uploads.

Lemma safe_cleanup l : harmless_run (_cleanup_uploaded_paths env dir l).
Proof. intros K. unfold _cleanup_uploaded_paths. induction (rev l) as [|n r IH]; cbn [cleanup_each]; harmless. Qed.

Lemma safe_abort t : harmless_run (_abort_upload_temp env dir t).
Proof. unfold _abort_upload_temp. harmless. Qed.

Lemma safe_commit K t : temp_path t ∈ K -> safe K ⊤w (_commit_upload_temp env dir t) (fun _ w => held (fs w) (file_path t)).
Proof.
  intros N. unfold _commit_upload_temp. apply (safe_bind _ _ _ (fun _ _ => True)); [apply safe_pass|]. intros _.
  apply safe_catch; [by apply safe_replace|]. intros e m' [= <-]. apply (safe_bind _ _ _ (fun _ _ => True)); [eauto with uploads|]. intros _. apply safe_raise.
Qed.

Lemma safe_sandbox K bits n : (modes = true -> linkless = true /\ n ∈ K) -> safe K ⊤w (_make_file_sandbox env dir bits n) (fun _ _ => True).
Proof. intros H. unfold _make_file_sandbox. apply safe_then; [apply safe_lstat|]. intros st. destruct (S_ISLNK st); [apply safe_done|by apply safe_chmod]. Qed.
#[local] Hint Resolve safe_cleanup safe_abort : uploads.

Lemma safe_prepare K n : safe K ⊤w (_prepare_upload_destination env dir n) (fun t w => allowed (handle t) /\ held (fs w) (temp_path t)).
Proof.
  unfold _prepare_upload_destination. eapply safe_bind; [apply safe_validate|]. intros dest.
  apply (safe_grow _ _ _ (fun r => {[r.2]}) (fun r => allowed r.1)).
  { eapply safe_conseq; [apply safe_mkstemp|done|]. intros r w [A H]. split; [done|]. by intros x ->%elem_of_singleton. }
  intros r A. apply (safe_bind _ _ _ (fun _ _ => True)); [harmless|]. intros _ w S _. split; [done|]. intros t [= <-]. cbn. split; [done|].
  apply S. set_solver.
Qed.

Lemma safe_chunks fuel t n rest a b c d : allowed (handle t) -> harmless_run (write_chunks env fuel t n rest a b c d).
Proof.
  intros A K. revert rest c d. induction fuel as [|fuel IH]; intros rest c d; cbn [write_chunks];
    (apply safe_then; [apply safe_pass|intros ?]); destruct (split_bytes _ _); harmless.
Qed.

Lemma safe_with_limits f n a b c K : safe K ⊤w (_write_upload_file_with_limits env dir f n a b c) (fun r w => held (fs w) r.1.1).
Proof.
  unfold _write_upload_file_with_limits. apply (safe_grow _ _ _ (fun t => {[temp_path t]}) (fun t => allowed (handle t))).
  { eapply safe_conseq; [apply safe_prepare|done|]. intros r w [A H]. split; [done|]. by intros x ->%elem_of_singleton. }
  intros t A. pose proof (safe_chunks (String.length (body f)) t n (body f) a b 0 c A) as Ch.
  apply (safe_bind _ _ _ (fun _ w => held (fs w) (file_path t))).
  - apply safe_catch.
    + apply (safe_bind _ _ _ (fun _ _ => True)); [apply Ch|]. intros r. apply (safe_bind _ _ _ (fun _ w => held (fs w) (file_path t))); [apply safe_commit; set_solver|].
      intros _ w S H. split; [done|]. by intros ? [= <-].
    + intros e m' [= <-]. apply (safe_bind _ _ _ (fun _ _ => True)); [apply safe_abort|]. intros _. apply safe_raise.
  - intros r w S H. split; [done|]. by intros ? [= <-].
Qed.

(** What was stored has its name still, and only that is sent to a sandbox. *)
Definition recorded (p : progress) (w : World) : Prop :=
  (forall n, n ∈ written_paths p -> held (fs w) n) /\ forall t, t ∈ sandbox_sync_targets p -> t.1 ∈ written_paths p.

Lemma safe_upload_one limits conv sync thread p f K :
  (forall n, n ∈ written_paths p -> n ∈ K) -> (forall t, t ∈ sandbox_sync_targets p -> t.1 ∈ written_paths p) ->
  safe K ⊤w (upload_one env dir limits conv false sync thread p f) recorded.
Proof.
  intros HK HT. assert (forall p', written_paths p' = written_paths p -> sandbox_sync_targets p' = sandbox_sync_targets p ->
    safe K ⊤w (mret p') recorded) as Same.
  { intros p' E1 E2 w S _. split; [done|]. intros ? [= <-]. unfold recorded. rewrite E1, E2. split; [|done]. intros n N. by apply (proj2 S), HK. }
  unfold upload_one. destruct (upload_filename f) as [[|c n]|]; [by apply Same| |by apply Same].
  destruct (normalize_filename _); [|by apply Same]. destruct (claim_unique_filename _ _) as [safe_filename seen]. cbn [andb with_seen written_paths sandbox_sync_targets].
  apply safe_catch.
  - apply (safe_bind _ _ _ (fun r w => held (fs w) r.1.1)); [apply safe_with_limits|]. intros [[path size] total].
    apply (safe_bind _ _ _ (fun md w => md = None /\ held (fs w) path)).
    { intros w S H. split; [done|]. by intros ? [= <-]. }
    intros md w S [-> H]. split; [done|]. intros ? [= <-]. unfold recorded. cbn. rewrite !app_nil_r. split.
    + intros x [X| ->%list_elem_of_singleton]%elem_of_app; [by apply (proj2 S), HK|done].
    + intros t T. apply elem_of_app.
      assert (t ∈ sandbox_sync_targets p \/ t.1 = path) as [T'| ->]; [|left; by apply HT|right; by left].
      destruct sync; cbn in T; rewrite ?app_nil_r in T; [|by left]. apply elem_of_app in T as [T|T]; [by left|right].
      by apply list_elem_of_singleton in T as ->.
  - intros e m' E. assert (safe K ⊤w (_cleanup_uploaded_paths env dir (written_paths p)) (fun _ _ => True)) as Cl by apply safe_cleanup.
    injection E as <-. destruct e; try by apply Same.
    all: apply (safe_bind _ _ _ (fun _ _ => True)); [done|]; intros _; apply safe_raise.
Qed.

Lemma safe_upload_all limits conv sync thread l : forall p K,
  (forall n, n ∈ written_paths p -> n ∈ K) -> (forall t, t ∈ sandbox_sync_targets p -> t.1 ∈ written_paths p) ->
  safe K ⊤w (upload_all env dir limits conv false sync thread p l) recorded.
Proof.
  induction l as [|f l IH]; intros p K HK HT; cbn [upload_all].
  - intros w S _. split; [done|]. intros ? [= <-]. split; [|done]. intros n N. by apply (proj2 S), HK.
  - apply (safe_grow _ _ _ (fun p' => list_to_set (written_paths p')) (fun p' => forall t, t ∈ sandbox_sync_targets p' -> t.1 ∈ written_paths p')).
    + eapply safe_conseq; [by apply safe_upload_one|done|]. intros p' w [R1 R2]. split; [done|]. intros n N%elem_of_list_to_set. by apply R1.
    + intros p' R. apply IH; [|done]. intros n N. apply elem_of_union. left. by apply elem_of_list_to_set.
Qed.

Lemma safe_upload_into config conv sync thread l : (modes = true -> linkless = true) ->
  _auto_convert_documents_enabled config = false -> harmless_run (upload_into env dir config conv sync thread l).
Proof.
  intros Hm Au K. unfold upload_into. rewrite Au.
  apply (safe_grow _ _ _ (fun p => list_to_set (written_paths p)) (fun p => forall t, t ∈ sandbox_sync_targets p -> t.1 ∈ written_paths p)).
  { eapply safe_conseq; [apply safe_upload_all|done|].
    - by intros n N%elem_of_nil.
    - by intros t T%elem_of_nil.
    - intros p w [R1 R2]. split; [done|]. intros n N%elem_of_list_to_set. by apply R1. }
  intros p R. set (K' := list_to_set (written_paths p) ∪ K).
  assert (forall n, n ∈ written_paths p -> n ∈ K') as In by (intros n N; apply elem_of_union; left; by apply elem_of_list_to_set). clearbody K'.
  apply safe_then.
  - clear R. unfold _make_uploaded_paths_sandbox_readable, _make_file_sandbox_readable. induction (written_paths p) as [|n ns IHn]; cbn [each]; [apply safe_done|].
    apply safe_then; [apply safe_sandbox; intros Mt; split; [by apply Hm|apply In; by left]|]. intros _. apply IHn. intros m N. apply In. by right.
  - intros _. apply safe_then; [|intros _; apply safe_done]. destruct sync; [|apply safe_done].
    assert (forall t, t ∈ sandbox_sync_targets p -> t.1 ∈ K') as T by (intros t Ht; by apply In, R).
    induction (sandbox_sync_targets p) as [|t ts IHt]; cbn [each]; [apply safe_done|]. apply safe_then.
    + unfold _sync_upload_to_sandbox, _make_file_sandbox_writable.
      apply safe_then; [apply safe_sandbox; intros Mt; split; [by apply Hm|apply T; by left]|]. intros _.
      apply safe_then; [apply safe_read_bytes|intros d; apply safe_send].
    + intros _. apply IHt; [intros t' Ht; apply R; by right|intros t' Ht; apply T; by right].
Qed.

(** ** The exclusive open *)

(** The others take no name from a protected file. *)
Definition names_kept : Prop := forall k s n i, is_Some (prot !! i) -> names s !! n = Some (Inode i) ->
  names (interference env k s) !! n = Some (Inode i).

Lemma named_once n i s : names s !! n = Some (Inode i) -> 1 <= Z.of_nat (base.size (names_of i s)).
Proof.
  intros E. assert (base.size (names_of i s) <> 0%nat) as H; [|lia]. intros H. apply map_size_empty_inv in H.
  assert (names_of i s !! n = Some (Inode i)) as F by by apply map_lookup_filter_Some. by rewrite H in F.
Qed.

Definition opened (n : string) (f : fd) (w : World) : Prop :=
  match f with At i => prot !! i = None \/ names (fs w) !! n = Some (Inode i) | Outside _ => False | Device => True end.

Lemma safe_open n : safe ∅ ⊤w (open_nofollow env dir n) (opened n).
Proof.
  apply (safe_call ∅ ⊤w _ (fun f s => match f with At i => prot !! i = None \/ names s !! n = Some (Inode i) | Outside _ => False | Device => True end)).
  intros w _ s _ G H. cbn. destruct (fresh_unguarded 384 (tick w) s G) as [F G'].
  assert (forall s', holds_all ∅ s') as N by (intros s' x X; by apply elem_of_empty in X).
  destruct (names s !! n) as [[i|t| |[]]|] eqn:E; cbn; split_and!; try done; try apply Forall_nil_2; try apply N; intros a [= <-]; [by right|done|by left].
Qed.

Lemma safe_check n m h : names_kept -> safe ∅ (opened n h)
  (st ← fstat env h;
   (if negb (S_ISREG st) || negb (st_nlink st =? 1)
    then raise (UnsafeUploadPathError ("Upload destination is not an exclusive regular file: " +:+ m)) else mret tt);;
   ftruncate env h) (fun _ _ => allowed h).
Proof.
  intros K. eapply (safe_bind _ _ _ (fun st _ => S_ISREG st = true -> st_nlink st = 1 -> allowed h)).
  - apply (safe_call _ _ _ (fun st _ => S_ISREG st = true -> st_nlink st = 1 -> allowed h)). intros w O s -> G N.
    destruct h as [i|p|]; cbn; split_and!; try done; try apply Forall_nil_2. intros st [= <-] _ L.
    destruct O as [?|O]; [done|]. destruct (prot !! i) as [d|] eqn:P; [exfalso|done].
    apply (K (tick w)) in O; [|by exists d]. apply named_once in O. destruct (G i d P) as (x & X & Y & _).
    unfold stat_of in L. rewrite X in L. cbn in L. unfold nlink in L. rewrite X in L. lia.
  - intros a. destruct (negb (S_ISREG a) || negb (st_nlink a =? 1)) eqn:E.
    + by intros w C H.
    + apply orb_false_iff in E as [E1 E2]. apply negb_false_iff in E1, E2. apply Z.eqb_eq in E2.
      intros w C A. specialize (A E1 E2). destruct (safe_ftruncate h A ∅ w C I) as [C' _]. split; [exact C'|done].
Qed.

Lemma safe_write_no_symlink f d : names_kept -> safe ∅ ⊤w (write_upload_file_no_symlink env dir f d) (fun _ _ => True).
Proof.
  intros K. unfold write_upload_file_no_symlink. eapply (safe_bind _ _ _ (fun r _ => allowed r.2)).
  - unfold open_upload_file_no_symlink. apply (safe_bind _ _ _ (fun _ _ => True)); [eapply safe_any, safe_lift|]. intros n.
    apply (safe_bind _ _ _ (fun _ _ => True)); [apply safe_validate|]. intros dest.
    apply (safe_bind _ _ _ (fun _ _ => True)); [unfold lstat_or_none; harmless|]. intros _.
    apply (safe_bind _ _ _ (opened dest)).
    { apply safe_catch; [apply safe_open|]. intros e m' E. repeat case_match; try discriminate E. injection E as <-. apply safe_raise. }
    intros h. apply (safe_bind _ _ _ (fun _ _ => allowed h)).
    + apply safe_catch; [by apply safe_check|]. intros e m' [= <-]. apply (safe_bind _ _ _ (fun _ _ => True)); [apply safe_pass|]. intros _. by intros w C H.
    + intros _ w C A. split; [done|]. by intros r [= <-].
  - intros r. apply (safe_given _ (allowed r.2)). intros A. apply safe_then; [|intros _; harmless].
    apply (safe_finally _ _ _ _ (fun _ => True)); harmless.
Qed.

(** ** The endpoints *)

Lemma safe_lift_any {A} (o : outcome A) : harmless_run (lift o).
Proof. intros K. eapply safe_any, safe_lift. Qed.
Lemma safe_scandir : harmless_run (scandir env).
Proof. plain. Qed.
Lemma safe_is_file n : harmless_run (is_file env n).
Proof. plain. Qed.
#[local] Hint Resolve safe_lift_any safe_scandir safe_is_file safe_upload_into : uploads.

Lemma safe_list is_dir : harmless_run (list_files_in_dir env dir is_dir).
Proof.
  intros K. unfold list_files_in_dir. destruct is_dir; [|harmless]. apply safe_then; [apply safe_scandir|]. intros l.
  induction l as [|x l IH]; cbn [list_entries]; harmless.
Qed.

Lemma safe_cleanup_stale : harmless_run (cleanup_stale_upload_staging_files env dir).
Proof.
  intros K. unfold cleanup_stale_upload_staging_files.
  apply safe_catch; [|intros e m' E; destruct (is_os_error e); [injection E as <-; harmless|done]].
  apply safe_then; [apply safe_scandir|]. intros l. induction l as [|x l IH]; cbn [remove_all]; unfold remove_stale; harmless.
Qed.

Lemma safe_delete f c : harmless_run (delete_file_safe env dir f c).
Proof. unfold delete_file_safe, validate_path_traversal, check_traversal. harmless. Qed.
#[local] Hint Resolve safe_list safe_delete : uploads.
End confined.

Section endpoints.
Context (env : Env) (prot : gmap Z (string * Z)) (modes linkless : bool).
Context (Hadv : forall k s, guarded prot modes s -> guarded prot modes (interference env k s)).
Context (Hplant : linkless = true -> no_planting env prot).
Notation harmless_run m := (safe prot modes linkless ∅ (fun _ => True) m (fun _ _ => True)).

Lemma safe_clean {A} (m : M A) w : harmless_run m -> clean prot modes w -> clean prot modes (m w).2.
Proof. intros S C. destruct (S w) as [[C' _] _]; [|done|done]. split; [done|]. by intros n N%elem_of_empty. Qed.

Lemma safe_upload_files paths user config provider conv thread l : (modes = true -> linkless = true) ->
  _auto_convert_documents_enabled config = false -> harmless_run (upload_files env paths user config provider conv thread l).
Proof.
  intros Hm Au. unfold upload_files. destruct (bool_decide _); [apply safe_raise|]. cbv zeta. destruct (_ <? _); [apply safe_raise|].
  apply safe_then; [by apply safe_lift_any|]. intros dir. apply safe_then.
  - apply safe_catch; [by apply safe_pass|]. intros e m' E. destruct (is_value_error e); [injection E as <-; apply safe_raise|done].
  - intros _. apply safe_then; [by apply safe_lift_any|]. intros sync. by apply safe_upload_into.
Qed.

Lemma safe_delete_uploaded paths user thread f : harmless_run (delete_uploaded_file env paths user thread f).
Proof.
  unfold delete_uploaded_file. apply safe_catch; [|intros e m' [= <-]; destruct e; apply safe_raise].
  apply safe_then; [by apply safe_lift_any|]. intros dir. by apply safe_delete.
Qed.

Lemma safe_list_uploaded paths user is_dir thread : harmless_run (list_uploaded_files env paths user is_dir thread).
Proof.
  unfold list_uploaded_files, _list_uploaded_files_for_thread.
  apply safe_catch; [|intros e m' E; destruct (is_value_error e); [injection E as <-; apply safe_raise|done]].
  apply safe_then; [by apply safe_lift_any|]. intros dir. apply safe_then; [by apply safe_list|]. intros l. by apply safe_done.
Qed.
End endpoints.


(** ** Examples *)

Module Attack.

Definition secret : Z := 7.
Definition store : FS := {|
  names := {[ "notes.txt" := Inode 1 ]};
  inodes := {[ 1 := {| data := "old"; mode := 420; mtime := 0; links := 0 |};
               secret := {| data := "root:x:0"; mode := 384; mtime := 0; links := 1 |} ]} |}.
Definition prot : gmap Z (string * Z) := {[ secret := ("root:x:0", 384) ]}.
Definition dir : path := parse "/srv/uploads".

Definition resolve_link (s : FS) (n : string) : string :=
  match names s !! n with Some (Symlink t) => t | _ => path_str (child dir n) end.

Definition env_with (interfere : nat -> FS -> FS) : Env := {|
  interference := interfere; fault _ := None; random _ k := pretty (Z.of_nat k); now _ := 0; resolve := resolve_link;
  resolve_dir := "/srv/uploads"; chmod_nofollow := true; is_file_outside _ _ := true; read_outside _ _ := Done "" |}.

(** A link to the secret where the upload will go, before every call. *)
Definition plants (n : string) (_ : nat) : FS -> FS := with_names <[n := Symlink "/etc/shadow"]>.

(** A name of the secret where the upload will go, once the destination was
    looked at, and no longer when the open file is. *)
Definition races (k : nat) (s : FS) : FS :=
  if (k =? 3)%nat then with_names <["a.txt" := Inode secret]> s else if (k =? 4)%nat then with_names (delete "a.txt") s else s.

Definition quiet : nat -> FS -> FS := fun _ s => s.
Definition start : World := {| fs := store; tick := 0; log := [] |}.
Definition request : list UploadFile := [ {| upload_filename := Some "../a.txt"; body := "hello" |} ].
Definition provider : outcome Provider :=
  Done {| uses_thread_data_mounts := true; acquire _ _ := Done "s"; sandbox_exists _ := true |}.
Definition no_conversion (_ : FS) (_ : string) : outcome string := Done "".

Lemma start_clean : clean prot true start.
Proof. split; [|apply Forall_nil_2]. unfold guarded, prot. intros i d [<- <-]%lookup_singleton_Some. eexists. split; [by vm_compute|done]. Qed.

(** A link to the secret at [a.txt] from the moment its mode was looked at. *)
Definition plants_late (k : nat) (s : FS) : FS := if (k =? 11)%nat then with_names <["a.txt" := Symlink "/etc/shadow"]> s else s.

End Attack.


(** A link that is put in the place of a stored file after its mode was looked at:
    where [chmod] follows links, the mode of the file it leads to is changed. *)
Lemma chmod_follows_link :
  let env := {| interference := Attack.plants_late; fault _ := None; random _ k := pretty (Z.of_nat k); now _ := 0; resolve := Attack.resolve_link;
                resolve_dir := "/srv/uploads"; chmod_nofollow := false; is_file_outside _ _ := true; read_outside _ _ := Done "" |} in
  let r := upload_files env (parse "/srv/df") "u" [] Attack.provider Attack.no_conversion "t1" Attack.request Attack.start in
  ChmodOutside "/etc/shadow" ∈ log r.2.
Proof. apply list_elem_of_In. vm_compute. tauto. Qed.

(** A file that is linked to the destination after it was looked at and unlinked
    before the open file is looked at passes for an exclusive one: the exclusive
    open truncates and overwrites it. *)
Lemma unlinked_before_fstat :
  let r := write_upload_file_no_symlink (Attack.env_with Attack.races) Attack.dir "a.txt" "owned" Attack.start in
  r.1 = Done "a.txt" /\ data <$> inodes (fs r.2) !! Attack.secret = Some "owned".
Proof. split; by vm_compute. Qed.

(** With conversion switched on, the converted text of [report.pdf] is written
    through a link at [report.md]. *)
Lemma conversion_follows_link :
  let r := upload_files (Attack.env_with (Attack.plants "report.md")) (parse "/srv/df") "u" [("auto_convert_documents", JBool true)] Attack.provider
             (fun _ _ => Done "text") "t1" [ {| upload_filename := Some "report.pdf"; body := "%PDF" |} ] Attack.start in
  WroteOutside "/etc/shadow" "text" ∈ log r.2.
Proof. apply list_elem_of_In. vm_compute. tauto. Qed.

(** A request that is refused for its last file removes what it replaced
    before. *)
Lemma refused_request_removes :
  let r := upload_files (Attack.env_with Attack.quiet) (parse "/srv/df") "u" [("max_file_size", JInt 3)] Attack.provider Attack.no_conversion "t1"
             [ {| upload_filename := Some "notes.txt"; body := "new" |}; {| upload_filename := Some "big"; body := "1234" |} ] Attack.start in
  (exists d, r.1 = Fails (HTTPException 413 d)) /\ names (fs Attack.start) !! "notes.txt" = Some (Inode 1) /\ names (fs r.2) !! "notes.txt" = None.
Proof. split_and!; [eexists|..]; by vm_compute. Qed.

(** A name that looks like a temporary one is stored, but not listed and removed
    at the next start. *)
Lemma staging_name_vanishes :
  let env := Attack.env_with Attack.quiet in
  let r := upload_files env (parse "/srv/df") "u" [] Attack.provider Attack.no_conversion "t1"
             [ {| upload_filename := Some ".upload-report.part"; body := "x" |} ] Attack.start in
  (exists x, r.1 = Done x /\ success x = true) /\
  (exists l, (list_uploaded_files env (parse "/srv/df") "u" true "t1" r.2).1 = Done l /\ map filename l = ["notes.txt"]) /\
  names (fs (cleanup_stale_upload_staging_files env Attack.dir r.2).2) !! ".upload-report.part" = None.
Proof. split_and!; [eexists; split; by vm_compute..|by vm_compute]. Qed.

End UploadSafety.
