(* ===== verification/UploadSpec.v ===== *)
(** * What an upload leaves behind

    Without interference and failures a request stores every file under a name
    of its own and changes nothing else, or it is refused and the names it had
    stored are gone. *)
From S2P Require Import Prelude Json Text PosixPaths LoopDetection SandboxPaths SandboxTools FilePaths Uploads UploadSafety.
Import Json Text PosixPaths UploadDir Uploads.

Module UploadSpec.

Notation card := base.size.

(** ** Claimed names *)

Lemma app_tail_inj c : forall a b, a +:+ c = b +:+ c -> a = b.
Proof. intros a b E. by apply FilePaths.sapp_tail_inj in E as [E _]. Qed.

Lemma candidate_inj n i j : candidate n i = candidate n j -> i = j.
Proof. unfold candidate. intros E. apply (inj _) in E. apply (inj _) in E. apply app_tail_inj in E. by apply (inj pretty) in E. Qed.

(** Distinct members of a set are not more than it has. *)
Lemma distinct_members (l : list string) (seen : gset string) : NoDup l -> (forall x, x ∈ l -> x ∈ seen) -> (length l <= card seen)%nat.
Proof.
  intros N S. rewrite <- (size_list_to_set (C := gset string)) by done. apply subseteq_size. intros x X. apply S. by apply elem_of_list_to_set in X.
Qed.

Lemma candidates_many n c (seen : gset string) : (forall k, 1 <= k < c -> candidate n k ∈ seen) -> 1 <= c -> c - 1 <= Z.of_nat (card seen).
Proof.
  intros S C. assert (length (map (candidate n) (seqZ 1 (c - 1))) <= card seen)%nat as L.
  - apply distinct_members; [apply NoDup_fmap_2, NoDup_seqZ; intros i j; apply candidate_inj|].
    intros x (k & -> & K)%list_elem_of_fmap. apply elem_of_seqZ in K. apply S. lia.
  - rewrite length_map, length_seqZ in L. lia.
Qed.

Lemma next_free_fresh fuel n : forall counter (seen : gset string),
  (forall k, 1 <= k < counter -> candidate n k ∈ seen) -> 1 <= counter -> Z.of_nat (card seen) < counter + Z.of_nat fuel ->
  next_free fuel n counter seen ∉ seen /\ exists k, next_free fuel n counter seen = candidate n k.
Proof.
  induction fuel as [|fuel IH]; intros counter seen S C F; cbn [next_free]; destruct (decide (candidate n counter ∈ seen)) as [E|E];
    try (split; [done|by eexists]).
  - exfalso. pose proof (candidates_many n (counter + 1) seen) as L.
    assert (counter + 1 - 1 <= Z.of_nat (card seen)); [|lia]. apply L; [|lia]. intros k K. destruct (decide (k = counter)) as [->|]; [done|apply S; lia].
  - apply IH; [|lia|lia]. intros k K. destruct (decide (k = counter)) as [->|]; [done|apply S; lia].
Qed.

(** The loop of the claim finds a name that nobody has. *)
Lemma claim_fresh n (seen : gset string) :
  (claim_unique_filename n seen).1 ∉ seen /\ (claim_unique_filename n seen).2 = {[ (claim_unique_filename n seen).1 ]} ∪ seen /\
  ((claim_unique_filename n seen).1 = n \/ exists k, (claim_unique_filename n seen).1 = candidate n k).
Proof.
  unfold claim_unique_filename. destruct (decide (n ∈ seen)) as [E|E]; cbn; [|by split_and!; [|done|left]].
  destruct (next_free_fresh (card seen) n 1 seen) as [F K]; [intros k; lia|lia|lia|]. split_and!; [done|done|by right].
Qed.

(** A name that is taken as it is: a single component. *)
Definition plain (n : string) : Prop :=
  no_char (Ascii.eqb slash) n = true /\ n <> "" /\ n <> "." /\ n <> ".." /\ no_char (Ascii.eqb backslash_char) n = true.

Lemma split_one n : no_char (Ascii.eqb slash) n = true -> split_on slash n = [n].
Proof.
  induction n as [|c n IH]; [done|]. cbn [no_char split_on]. intros [C F]%andb_true_iff.
  rewrite Ascii.eqb_sym. apply negb_true_iff in C. by rewrite C, IH.
Qed.

Lemma plain_parse n : no_char (Ascii.eqb slash) n = true -> n <> "" -> n <> "." -> parse n = {| root := ""; tail := [n] |}.
Proof.
  intros F N D. unfold parse, comps. rewrite split_one by done. cbn. unfold counts. rewrite (proj2 (String.eqb_neq _ _) N), (proj2 (String.eqb_neq _ _) D). cbn. f_equal.
    destruct n as [|c n]; [done|]. cbn in F. apply andb_true_iff in F as [C _]. unfold leading. destruct c as [[] [] [] [] [] [] [] []]; done.
Qed.

Lemma contains_char c s : contains (char c) s = negb (no_char (Ascii.eqb c) s).
Proof.
  induction s as [|x s IH]; [done|]. unfold char in *. cbn [contains starts_with no_char]. rewrite IH, andb_true_r.
  by destruct (Ascii.eqb c x), (no_char (Ascii.eqb c) s).
Qed.

Lemma normalize_plain n : plain n -> (String.length n <= 255)%nat -> normalize_filename n = Done n.
Proof.
  intros (F & N & D & DD & B) L. unfold normalize_filename. assert (name (parse n) = n) as -> by by rewrite plain_parse.
  rewrite (proj2 (String.eqb_neq _ _) N), bool_decide_eq_false_2, contains_char, B, (proj2 (Nat.ltb_ge _ _)) by (done || set_solver). done.
Qed.

(** The name the code takes, and every name made from it, is plain. *)
Lemma normalize_spec f n : normalize_filename f = Done n -> plain n /\ (String.length n <= 255)%nat.
Proof.
  unfold normalize_filename. destruct (f =? "")%string; [done|]. set (x := name (parse f)).
  destruct (String.eqb_spec x "") as [|N]; [done|]. destruct (bool_decide _) eqn:D; [done|]. destruct (contains _ x) eqn:B; [done|].
  destruct (Nat.ltb_spec 255 (String.length x)) as [|L]; [done|]. intros [= <-]. apply bool_decide_eq_false in D.
  split; [|lia]. split_and!; [|done|intros E; apply D; rewrite E; set_solver..|by rewrite contains_char in B; apply negb_false_iff in B].
  subst x. unfold name, parse in *. cbn [tail] in *. destruct (last (comps f)) as [y|] eqn:E; [|done]. cbn in *.
  apply last_Some_elem_of, list_elem_of_In in E. unfold comps in E. apply filter_In in E as [E _]. pose proof (split_pieces slash f) as P. by rewrite forallb_forall in P; apply P.
Qed.

Lemma stem_suffix_app n : (stem_suffix n).1 +:+ (stem_suffix n).2 = n.
Proof.
  unfold stem_suffix. assert (forall s a b, rpartition "." s = Some (a, b) -> a +:+ String "." b = s) as R.
  { induction s as [|c s IH]; [done|]. cbn [rpartition]. intros a b. destruct (rpartition "." s) as [[x y]|].
    - intros [= <- <-]. change (String c x +:+ String "." y) with (String c (x +:+ String "." y)). by rewrite (IH x y).
    - destruct (Ascii.eqb_spec c "."); [|done]. by intros [= <- <-]; subst. }
  destruct (rpartition "." n) as [[a b]|] eqn:E; cbn; [|apply sapp_nil_r]. destruct (_ || _); cbn; [apply sapp_nil_r|by apply R].
Qed.

Lemma free_number c z : intchar c = false -> no_char (Ascii.eqb c) (pretty (z : Z)) = true.
Proof.
  intros N. pose proof (pretty_Z_intchars z) as H. induction (pretty z) as [|x s IH]; [done|]. cbn [all_chars no_char] in *.
  apply andb_true_iff in H as [X H]. rewrite IH by done. destruct (Ascii.eqb_spec c x); [congruence|done].
Qed.

Lemma candidate_free c n k : intchar c = false -> Ascii.eqb c "_" = false -> no_char (Ascii.eqb c) n = true ->
  no_char (Ascii.eqb c) (candidate n k) = true.
Proof.
  intros N U F. unfold candidate. rewrite <- (stem_suffix_app n), no_char_app in F. apply andb_true_iff in F as [F1 F2].
  rewrite !no_char_app, F1, F2, free_number by done. cbn [no_char]. by rewrite U.
Qed.

Lemma candidate_marked n k : exists a b, candidate n k = a +:+ String "_" b.
Proof. unfold candidate. by eexists _, _. Qed.

Lemma plain_candidate n k : plain n -> plain (candidate n k).
Proof.
  intros (F & _ & _ & _ & B). destruct (candidate_marked n k) as (a & b & E).
  assert (forall t, no_char (Ascii.eqb "_") t = true -> candidate n k <> t) as D.
  { intros t T X. rewrite <- X, E, no_char_app in T. cbn in T. by rewrite andb_false_r in T. }
  split_and!; [by apply candidate_free|by apply D..|by apply candidate_free].
Qed.

(** A claimed name is plain. *)
Lemma claim_plain n seen : plain n -> plain (claim_unique_filename n seen).1.
Proof. intros P. destruct (claim_fresh n seen) as (_ & _ & [->|[k ->]]); [done|by apply plain_candidate]. Qed.
(** ** The files of a request *)

Definition wf (s : FS) : Prop := forall n i, names s !! n = Some (Inode i) -> exists x, inodes s !! i = Some x /\ 0 <= links x.

(** A destination the upload refuses. *)
Definition unsafe_at (s : FS) (n : string) : bool :=
  match names s !! n with
  | Some (Inode i) => 1 <? nlink i s
  | Some _ => true
  | None => false
  end.

Record claim := { cl_original : string; cl_name : string; cl_body : string }.

(** The text behind a name. *)
Definition content (s : FS) (n : string) : option string :=
  match names s !! n with Some (Inode i) => data <$> inodes s !! i | _ => None end.

Definition fits (max_single max_total file_size total : Z) (d : string) : bool :=
  (file_size + Z.of_nat (String.length d) <=? max_single) && (total + Z.of_nat (String.length d) <=? max_total).

Lemma fits_app a b fsz tot u v : fits a b fsz tot (u +:+ v) =
  fits a b fsz tot u && fits a b (fsz + Z.of_nat (String.length u)) (tot + Z.of_nat (String.length u)) v.
Proof.
  unfold fits. rewrite FilePaths.slength_app. apply eq_true_iff_eq. rewrite !andb_true_iff, !Z.leb_le. lia.
Qed.

(** The names the files of a request are given. *)
Fixpoint plan (seen : gset string) (l : list UploadFile) : list claim :=
  match l with
  | [] => []
  | f :: l =>
      match upload_filename f with
      | None | Some EmptyString => plan seen l
      | Some n =>
          match normalize_filename n with
          | Fails _ => plan seen l
          | Done original =>
              let '(c, seen) := claim_unique_filename original seen in
              {| cl_original := original; cl_name := c; cl_body := body f |} :: plan seen l
          end
      end
  end.

Definition bytes_of (x : claim) : Z := Z.of_nat (String.length (cl_body x)).
Definition writable (s : FS) (x : claim) : bool := negb (unsafe_at s (cl_name x)).
Definition good (s : FS) : list claim -> list claim := List.filter (writable s).
Definition bad (s : FS) : list claim -> list claim := List.filter (fun x => unsafe_at s (cl_name x)).

(** Every file is within its limit, and all together are within theirs. *)
Definition all_within (a b tot : Z) (l : list claim) : bool :=
  forallb (fun x => bytes_of x <=? a) l && (tot + sumZ bytes_of l <=? b).

Lemma within_cons a b tot x l : all_within a b tot (x :: l) = fits a b 0 tot (cl_body x) && all_within a b (tot + bytes_of x) l.
Proof.
  assert (0 <= sumZ bytes_of l) as P by (apply sumZ_nonneg; intros; unfold bytes_of; lia).
  unfold all_within, fits. cbn [forallb sumZ foldr]. fold (bytes_of x). apply eq_true_iff_eq. rewrite !andb_true_iff, !Z.leb_le.
  unfold sumZ in *. cbn [foldr]. intuition lia.
Qed.

Lemma plan_fresh l : forall seen, NoDup (map cl_name (plan seen l)) /\ forall x, x ∈ plan seen l -> cl_name x ∉ seen /\ plain (cl_name x).
Proof.
  induction l as [|f l IH]; intros seen; cbn [plan]; [split; [constructor|by intros x X%not_elem_of_nil]|].
  destruct (upload_filename f) as [[|c n]|]; [apply IH| |apply IH]. destruct (normalize_filename _) as [o|e] eqn:N; [|apply IH].
  apply normalize_spec in N as [N _]. pose proof (claim_plain o seen N) as P. destruct (claim_fresh o seen) as (F & S & _).
  destruct (claim_unique_filename o seen) as [m seen']. cbn in *. subst seen'. destruct (IH ({[m]} ∪ seen)) as [D K]. split.
  - constructor; [|done]. intros (x & X & E)%list_elem_of_fmap. apply K in E as [E _]. set_solver.
  - intros x [-> |X]%elem_of_cons; [by split|]. apply K in X as [X ?]. set_solver.
Qed.

(** ** Without interference *)

Section quiet.
Context (env : Env) (dir : path).
Context (Hq : forall k s, interference env k s = s) (Hf : forall k, fault env k = None).
Context (Hr : forall t, Inj eq eq (random env t)).
(** A name that is no link lies in the directory. *)
Context (Hres : forall s n, plain n -> (forall t, names s !! n <> Some (Symlink t)) ->
  relative_to (parse (resolve env s n)) (parse (resolve_dir env)) = true).

(** From the files [s] the program ends with an outcome and files that satisfy
    [Q]. *)
Definition runs {A} (m : M A) (s : FS) (Q : outcome A -> FS -> Prop) : Prop := forall w, fs w = s -> Q (m w).1 (fs (m w).2).

Lemma runs_weaken {A} (m : M A) s Q Q' : runs m s Q -> (forall o s', Q o s' -> Q' o s') -> runs m s Q'.
Proof. intros R I w W. by apply I, R. Qed.

Lemma runs_ret {A} (a : A) s (Q : outcome A -> FS -> Prop) : Q (Done a) s -> runs (mret a) s Q.
Proof. intros H w <-. done. Qed.

Lemma runs_raise {A} e s (Q : outcome A -> FS -> Prop) : Q (Fails e) s -> runs (raise e) s Q.
Proof. intros H w <-. done. Qed.

Lemma runs_lift {A} (o : outcome A) s (Q : outcome A -> FS -> Prop) : Q o s -> runs (lift o) s Q.
Proof. intros H w <-. done. Qed.

Lemma runs_bind {A B} (m : M A) (k : A -> M B) s Q :
  runs m s (fun o s' => match o with Done a => runs (k a) s' Q | Fails e => Q (Fails e) s' end) -> runs (m ≫= k) s Q.
Proof. intros R w W. specialize (R w W). unfold mbind, M_bind. destruct (m w) as [[a|e] w1]; cbn in *; [by apply R|done]. Qed.

Lemma runs_catch {A} (m : M A) h s Q :
  runs m s (fun o s' => match o with Fails e => match h e with Some m' => runs m' s' Q | None => Q (Fails e) s' end | Done a => Q (Done a) s' end) ->
  runs (catch m h) s Q.
Proof.
  intros R w W. specialize (R w W). unfold catch. destruct (m w) as [[a|e] w1]; cbn in *; [done|]. destruct (h e); [by apply R|done].
Qed.

Lemma runs_finally {A} (m : M A) c s Q :
  runs m s (fun o s' => runs c s' (fun o' s'' => match o' with Done _ => Q o s'' | Fails e => Q (Fails e) s'' end)) -> runs (finally m c) s Q.
Proof.
  intros R w W. specialize (R w W). unfold finally. destruct (m w) as [o w1]; cbn in *. specialize (R w1 eq_refl).
  destruct (c w1) as [[a|e] w2]; cbn in *; done.
Qed.

Lemma runs_call {A} (f : nat -> FS -> outcome A * FS * list event) s Q :
  (forall t, Q (f t s).1.1 (f t s).1.2) -> runs (call env f) s Q.
Proof. intros R w <-. unfold call. rewrite Hq, Hf. specialize (R (tick w)). by destruct (f _ _) as [[o s] evs]. Qed.

Lemma runs_pass s Q : Q (Done tt) s -> runs (pass env) s Q.
Proof. intros H. by apply runs_call. Qed.

(** ** The destination *)

Definition usable (n : string) : Prop := plain n /\ refused dir n = None.

Lemma usable_normal n : usable n -> normalize_filename n = Done n.
Proof.
  intros [P R]. apply normalize_plain; [done|]. unfold refused in R. destruct (negb _); [done|].
  destruct (Nat.ltb_spec 255 (String.length n)); [done|lia].
Qed.

Lemma runs_validate s n : usable n ->
  runs (validate_upload_destination env dir n) s (fun o s' => s' = s /\
    if unsafe_at s n then exists m, o = Fails (UnsafeUploadPathError m) else o = Done n).
Proof.
  intros U. pose proof (usable_normal n U) as N. destruct U as [P R]. unfold validate_upload_destination. rewrite N.
  apply runs_bind, runs_lift. apply runs_bind. apply runs_catch, runs_bind. unfold lstat. apply runs_call. intros t. rewrite R.
  assert (names s !! n = None \/ (exists i, names s !! n = Some (Inode i)) ->
    runs (validate_path_traversal env n;; mret n) s (fun o s' => s' = s /\ o = Done n)) as T.
  { intros L. unfold validate_path_traversal. apply runs_bind, runs_bind. apply runs_call. intros t'. cbn [fst snd].
    unfold check_traversal. rewrite Hres; [by apply runs_ret, runs_ret|done|]. intros x X. destruct L as [L|[i L]]; congruence. }
  unfold unsafe_at. destruct (names s !! n) as [[i|x| |r]|] eqn:E; cbn [fst snd stat_of].
  - apply runs_ret. apply runs_bind. destruct (inodes s !! i); cbn [S_ISREG st_nlink negb];
      (destruct (1 <? nlink i s); [apply runs_raise; eauto|apply runs_ret, T; eauto]).
  - apply runs_ret, runs_bind, runs_raise. eauto.
  - apply runs_ret, runs_bind, runs_raise. eauto.
  - apply runs_ret, runs_bind, runs_raise. eauto.
  - cbn [is_not_found missing]. apply runs_ret, runs_bind, runs_ret, T. by left.
Qed.
(** ** The temporary file *)

Lemma first_free_found fuel name_of s : Inj eq eq name_of -> forall k,
  (forall j, (j < k)%nat -> is_Some (names s !! name_of j)) -> (card (names s) < k + fuel)%nat ->
  exists x, first_free fuel k name_of s = Some x /\ names s !! x = None.
Proof.
  intros Inj. induction fuel as [|fuel IH]; intros k T L.
  - exfalso. assert (length (map name_of (seq 0 k)) <= card (dom (names s) : gset string))%nat as B.
    + apply distinct_members; [apply NoDup_fmap_2, NoDup_seq; done|]. intros x (j & -> & J)%list_elem_of_fmap. apply elem_of_dom, T.
      apply elem_of_seq in J. lia.
    + rewrite length_map, length_seq, size_dom in B. lia.
  - cbn [first_free]. destruct (names s !! name_of k) as [e|] eqn:E; [|by exists (name_of k)].
    apply IH; [|lia]. intros j J. destruct (decide (j = k)) as [->|]; [by exists e|apply T; lia].
Qed.

Definition room (s : FS) : Prop := (card (names s) < TMP_MAX)%nat.
Definition file (d : string) (t : nat) : inode := {| data := d; mode := 384; mtime := now env t; links := 0 |}.
Definition next_inode (s : FS) : Z := fresh (dom (inodes s)).

Lemma runs_mkstemp s a b : room s ->
  runs (mkstemp env a b) s (fun o s' => exists x t, o = Done (At (next_inode s), x) /\ names s !! x = None /\
    s' = {| names := <[x := Inode (next_inode s)]> (names s); inodes := <[next_inode s := file "" t]> (inodes s) |}).
Proof.
  intros R. apply runs_call. intros t.
  destruct (first_free_found TMP_MAX (fun k => a +:+ random env t k +:+ b) s) with (k := 0%nat) as (x & E & F).
  - intros i j E. apply (inj _) in E. apply app_tail_inj in E. by apply (Hr t) in E.
  - intros j J. lia.
  - exact R.
  - rewrite E. exists x, t. done.
Qed.

Lemma runs_prepare s n : usable n -> room s ->
  runs (_prepare_upload_destination env dir n) s (fun o s' =>
    if unsafe_at s n then s' = s /\ exists m, o = Fails (UnsafeUploadPathError m)
    else exists x t, o = Done {| file_path := n; temp_path := x; handle := At (next_inode s) |} /\ names s !! x = None /\
      s' = {| names := <[x := Inode (next_inode s)]> (names s); inodes := <[next_inode s := file "" t]> (inodes s) |}).
Proof.
  intros U R. unfold _prepare_upload_destination. apply runs_bind. eapply runs_weaken; [by apply runs_validate|]. cbn beta.
  intros o s' [-> H]. destruct (unsafe_at s n); [destruct H as [m ->]; eauto|]. rewrite H. clear H. apply runs_bind.
  eapply runs_weaken; [by apply runs_mkstemp|]. cbn beta. intros o' s' (x & t & -> & F & ->).
  apply runs_bind, runs_catch, runs_pass, runs_ret. exists x, t. done.
Qed.

(** ** The chunks *)

Lemma split_bytes_app n : forall s, (split_bytes n s).1 +:+ (split_bytes n s).2 = s.
Proof.
  induction n as [|n IH]; intros [|c s]; try done. cbn [split_bytes]. specialize (IH s). destruct (split_bytes n s) as [a b]. cbn in *.
  change (String c a +:+ b) with (String c (a +:+ b)). by rewrite IH.
Qed.

Lemma split_bytes_some n c s : (0 < n)%nat -> exists a, (split_bytes n (String c s)).1 = String c a.
Proof. destruct n; [lia|]. intros _. cbn [split_bytes]. destruct (split_bytes n s) as [a b]. by exists a. Qed.

Lemma same_file s i n : inodes s !! i = Some n -> {| names := names s; inodes := <[i := n]> (inodes s) |} = s.
Proof. intros E. destruct s as [a b]. cbn in *. by rewrite insert_id. Qed.

Lemma alter_file s i d t t' f : inodes s !! i = Some (file d t) ->
  alter_data env i t' f s = {| names := names s; inodes := <[i := file (f d) t']> (inodes s) |}.
Proof.
  intros E. unfold alter_data, with_inodes. f_equal. apply map_eq. intros j. destruct (decide (i = j)) as [->|N].
  - by rewrite lookup_alter_eq, lookup_insert_eq, E.
  - by rewrite lookup_alter_ne, lookup_insert_ne.
Qed.

Lemma runs_chunks fuel i n x y a b : forall rest s d t fsz tot, (String.length rest <= fuel)%nat -> fsz <= a -> tot <= b ->
  inodes s !! i = Some (file d t) ->
  runs (write_chunks env fuel {| file_path := x; temp_path := y; handle := At i |} n rest a b fsz tot) s (fun o s' =>
    exists d' t', s' = {| names := names s; inodes := <[i := file d' t']> (inodes s) |} /\
      if fits a b fsz tot rest
      then o = Done (fsz + Z.of_nat (String.length rest), tot + Z.of_nat (String.length rest)) /\ d' = d +:+ rest
      else exists m, o = Fails (HTTPException 413 m)).
Proof.
  induction fuel as [|fuel IH]; intros rest s d t fsz tot L F T D; cbn [write_chunks]; apply runs_bind, runs_pass;
    (destruct rest as [|c r];
     [assert (split_bytes UPLOAD_CHUNK_SIZE "" = ("", "")) as -> by (unfold UPLOAD_CHUNK_SIZE; by destruct (Z.to_nat 8192));
      apply runs_ret; exists d, t; split; [by rewrite same_file|]; unfold fits; cbn [String.length]; rewrite !Z.add_0_r, !(proj2 (Z.leb_le _ _)) by done;
      by rewrite sapp_nil_r|]); [cbn in L; lia|].
  pose proof (split_bytes_app UPLOAD_CHUNK_SIZE (String c r)) as A. destruct (split_bytes_some UPLOAD_CHUNK_SIZE c r) as [u U]; [unfold UPLOAD_CHUNK_SIZE; lia|].
  destruct (split_bytes _ _) as [chunk rest]. cbn [fst snd] in A, U. rewrite <- A in L |- *. clear A. rewrite FilePaths.slength_app in L.
  rewrite fits_app. subst chunk. set (chunk := String c u) in *. change (chunk =? "")%string with false. cbn iota.
  unfold fits at 1. rewrite (Z.ltb_antisym _ a), (Z.ltb_antisym _ b). destruct (fsz + _ <=? a) eqn:E1; cbn [negb andb].
  - destruct (tot + _ <=? b) eqn:E2; cbn [negb andb].
    + apply Z.leb_le in E1, E2. apply runs_bind, runs_call. intros t'. cbn [handle fst snd]. rewrite (alter_file _ _ d t) by done.
      eapply runs_weaken; [apply (IH rest _ (d +:+ chunk) t'); [subst chunk; cbn [String.length] in L; lia|done|done|apply lookup_insert_eq]|].
      intros o s' (d' & t2 & -> & H). exists d', t2. cbn [names inodes]. rewrite insert_insert_eq. split; [done|].
      destruct (fits _ _ _ _ rest); [|done]. destruct H as [-> ->]. rewrite FilePaths.slength_app, sapp_assoc. split; [|done]. do 2 f_equal; lia.
    + apply runs_raise. exists d, t. split; [by rewrite same_file|]. eauto.
  - apply runs_raise. exists d, t. split; [by rewrite same_file|]. eauto.
Qed.

(** ** One file *)

Lemma next_unnamed s n : wf s -> names s !! n <> Some (Inode (next_inode s)).
Proof.
  intros W E. destruct (W _ _ E) as (x & X & _). apply (is_fresh (dom (inodes s))). apply elem_of_dom. by exists x.
Qed.

(** The temporary name becomes the destination's. *)
Lemma runs_commit s n x d t : wf s -> unsafe_at s n = false -> names s !! x = None ->
  let i := next_inode s in
  runs (_commit_upload_temp env dir {| file_path := n; temp_path := x; handle := At i |})
    {| names := <[x := Inode i]> (names s); inodes := <[i := file d t]> (inodes s) |}
    (fun o s' => o = Done tt /\ s' = {| names := <[n := Inode i]> (names s); inodes := <[i := file d t]> (inodes s) |}).
Proof.
  intros W U X i. unfold _commit_upload_temp. apply runs_bind, runs_pass, runs_catch, runs_call. intros _. cbn [names inodes temp_path file_path].
  rewrite lookup_insert_eq. destruct (decide (n = x)) as [->|N].
  - rewrite lookup_insert_eq, Z.eqb_refl. done.
  - rewrite lookup_insert_ne by done. unfold with_names. cbn [names inodes]. rewrite delete_insert_id by done.
    unfold unsafe_at in U. destruct (names s !! n) as [[j| | |]|] eqn:E; try done. destruct (Z.eqb_spec i j) as [<-|]; [|done].
    by apply next_unnamed in E.
Qed.

(** What a file leaves behind. *)
Definition stores (s s' : FS) (n d : string) : Prop :=
  exists t, s' = {| names := <[n := Inode (next_inode s)]> (names s); inodes := <[next_inode s := file d t]> (inodes s) |}.
(** Nothing but an unnamed file. *)
Definition nothing_new (s s' : FS) : Prop :=
  s' = s \/ exists d t, s' = {| names := names s; inodes := <[next_inode s := file d t]> (inodes s) |}.

Lemma runs_with_limits s f n a b tot : usable n -> wf s -> room s -> 0 <= a -> tot <= b ->
  runs (_write_upload_file_with_limits env dir f n a b tot) s (fun o s' =>
    if unsafe_at s n then s' = s /\ exists m, o = Fails (UnsafeUploadPathError m)
    else if fits a b 0 tot (body f)
         then o = Done (n, Z.of_nat (String.length (body f)), tot + Z.of_nat (String.length (body f))) /\ stores s s' n (body f)
         else nothing_new s s' /\ exists m, o = Fails (HTTPException 413 m)).
Proof.
  intros U W R A T. unfold _write_upload_file_with_limits. apply runs_bind. eapply runs_weaken; [by apply runs_prepare|]. cbn beta.
  intros o s' H. destruct (unsafe_at s n) eqn:Un; [by destruct H as [-> [m ->]]; eauto|].
  destruct H as (x & t & -> & X & ->). apply runs_bind, runs_catch, runs_bind.
  eapply runs_weaken; [apply (runs_chunks _ _ n n x a b (body f) _ "" t); [done..|apply lookup_insert_eq]|]. cbn beta.
  intros o s' (d & t' & -> & H). cbn [names inodes]. rewrite insert_insert_eq. destruct (fits a b 0 tot (body f)).
  - destruct H as [-> ->]. apply runs_bind. eapply runs_weaken; [by apply runs_commit|]. cbn beta. intros o s' [-> ->].
    apply runs_ret. cbn [fst snd file_path]. apply runs_ret. split; [done|]. by exists t'.
  - destruct H as [m ->]. apply runs_bind. unfold _abort_upload_temp. apply runs_finally, runs_pass.
    unfold ignoring_missing. apply runs_catch, runs_call. intros _. cbn [temp_path names]. rewrite lookup_insert_eq. cbn [fst snd].
    apply runs_raise. split; [|by exists m]. right. exists d, t'. unfold with_names. cbn [names inodes]. by rewrite delete_insert_id.
Qed.

(** ** What was stored so far *)

Record Stored (s0 : FS) (ok : list claim) (s : FS) : Prop := {
  st_wf : wf s;
  st_new : forall x, x ∈ ok -> content s (cl_name x) = Some (cl_body x) /\ exists i, names s !! cl_name x = Some (Inode i);
  st_old : forall n, n ∉ map cl_name ok -> names s !! n = names s0 !! n;
  st_files : forall i x, inodes s0 !! i = Some x -> inodes s !! i = Some x;
  st_unsafe : forall n, n ∉ map cl_name ok -> unsafe_at s n = unsafe_at s0 n;
  st_room : (card (names s) <= card (names s0) + length ok)%nat
}.

Lemma stored_nothing s : wf s -> Stored s [] s.
Proof. intros W. split; try done; [by intros x X%not_elem_of_nil|lia]. Qed.

Lemma two_names s i n m : n <> m -> names s !! n = Some (Inode i) -> names s !! m = Some (Inode i) -> (2 <= card (names_of i s))%nat.
Proof.
  intros N A B. assert (card (<[n := Inode i]> {[m := Inode i]} : gmap string entry) = 2%nat) as E.
  { rewrite map_size_insert_None, map_size_singleton; [done|]. by rewrite lookup_singleton_ne. }
  rewrite <- E. apply map_subseteq_size. apply map_subseteq_spec. intros k e [[<- <-]|[_ [<- <-]%lookup_singleton_Some]]%lookup_insert_Some;
    by apply map_lookup_filter_Some.
Qed.

Lemma next_known s i x : inodes s !! i = Some x -> i <> next_inode s.
Proof. intros E ->. apply (is_fresh (dom (inodes s))), elem_of_dom. by exists x. Qed.

(** A destination that may be replaced is the only name of its file, so the other
    files keep the number of their names. *)
Lemma links_kept s s' n d m j : wf s -> stores s s' n d -> unsafe_at s n = false -> m <> n -> names s !! m = Some (Inode j) ->
  nlink j s' = nlink j s.
Proof.
  intros W [t ->] U N M. destruct (W _ _ M) as (x & X & L). pose proof (next_known _ _ _ X) as J. unfold nlink, names_of. cbn [names inodes].
  rewrite lookup_insert_ne, X by done. rewrite map_filter_insert_not'; [done|by intros [= E]|]. cbn. intros y Y ->.
  unfold unsafe_at in U. rewrite Y in U. apply Z.ltb_ge in U. unfold nlink in U. rewrite X in U.
  pose proof (two_names s j m n N M Y). lia.
Qed.

Lemma stored_more s0 ok s s' x : Stored s0 ok s -> stores s s' (cl_name x) (cl_body x) -> cl_name x ∉ map cl_name ok ->
  unsafe_at s (cl_name x) = false -> Stored s0 (ok ++ [x]) s'.
Proof.
  intros [W New Old Fi Un Ro] St F U. pose proof St as [t ->].
  assert (forall n i, names s !! n = Some (Inode i) -> i <> next_inode s) as K.
  { intros n i E. destruct (W n i E) as (y & Y & _). by apply next_known in Y. }
  split; unfold wf; cbn [names inodes].
  - intros n i [[<- [= <-]]|[N E]]%lookup_insert_Some; [eexists; rewrite lookup_insert_eq; by split|].
    rewrite lookup_insert_ne by (by apply not_eq_sym, (K n)). by apply (W n).
  - intros y [Y| ->%list_elem_of_singleton]%elem_of_app.
    + destruct (New y Y) as [C [i I]]. assert (cl_name x <> cl_name y) as N by (intros E; apply F; rewrite E; by apply list_elem_of_fmap_2).
      unfold content in *. cbn [names inodes]. rewrite lookup_insert_ne, I in * by done. rewrite lookup_insert_ne by (by apply not_eq_sym, (K (cl_name y))).
      split; [done|by exists i].
    + unfold content. cbn [names inodes]. rewrite !lookup_insert_eq. split; [done|by eexists].
  - intros n N. rewrite map_app in N. rewrite lookup_insert_ne by set_solver. apply Old. set_solver.
  - intros i y Y. pose proof (next_known s i y (Fi i y Y)). rewrite lookup_insert_ne by done. by apply Fi.
  - intros n N. rewrite map_app in N. rewrite <- Un by set_solver. unfold unsafe_at. cbn [names]. rewrite lookup_insert_ne by set_solver.
    destruct (names s !! n) as [[j| | |]|] eqn:E; try done. by rewrite (links_kept s _ (cl_name x) (cl_body x) n j W St U) by set_solver.
  - rewrite length_app. cbn [length]. rewrite map_size_insert. destruct (names s !! cl_name x); unfold id; lia.
Qed.

Lemma stored_same s0 ok s s' : Stored s0 ok s -> nothing_new s s' -> Stored s0 ok s'.
Proof.
  intros S [->|(d & t & ->)]; [done|]. destruct S as [W New Old Fi Un Ro].
  assert (forall n i, names s !! n = Some (Inode i) -> <[next_inode s := file d t]> (inodes s) !! i = inodes s !! i) as K.
  { intros n i E. destruct (W n i E) as (y & Y & _). apply next_known in Y. by rewrite lookup_insert_ne. }
  split; unfold wf; cbn [names inodes]; try done.
  - intros n i E. rewrite (K n) by done. by apply (W n).
  - intros x X. destruct (New x X) as [C [i I]]. split; [|by exists i]. unfold content in *. cbn [names inodes]. rewrite I in *. by rewrite (K (cl_name x)).
  - intros i x X. pose proof (next_known s i x (Fi i x X)). rewrite lookup_insert_ne by done. by apply Fi.
  - intros n N. rewrite <- Un by done. unfold unsafe_at. cbn [names]. destruct (names s !! n) as [[j| | |]|] eqn:E; try done.
    unfold nlink, names_of. cbn [names inodes]. by rewrite (K n).
Qed.

(** ** Undoing *)

Lemma runs_cleanup l : forall s, (forall n, n ∈ l -> names s !! n = None \/ exists i, names s !! n = Some (Inode i)) ->
  runs (cleanup_each env dir l) s (fun o s' => o = Done tt /\ inodes s' = inodes s /\
    forall n, names s' !! n = if decide (n ∈ l) then None else names s !! n).
Proof.
  induction l as [|m l IH]; intros s H; cbn [cleanup_each]; [by apply runs_ret|].
  assert (forall s', inodes s' = inodes s -> (forall n, names s' !! n = if decide (n = m) then None else names s !! n) ->
    runs (cleanup_each env dir l) s' (fun o s' => o = Done tt /\ inodes s' = inodes s /\
      forall n, names s' !! n = if decide (n ∈ m :: l) then None else names s !! n)) as G.
  { intros s' I N. eapply runs_weaken; [apply IH|].
    - intros n E. rewrite N. destruct (decide (n = m)); [by left|]. apply H. by right.
    - cbn beta. intros o s2 (-> & -> & K). split_and!; [done|done|]. intros n. rewrite K, N.
      destruct (decide (n ∈ l)), (decide (n = m)), (decide (n ∈ m :: l)); try done; set_solver. }
  apply runs_bind, runs_catch, runs_call. intros _. destruct (names s !! m) as [e|] eqn:E.
  - destruct (H m ltac:(by left)) as [?|[i I]]; [congruence|]. rewrite I in E. injection E as <-. cbn [fst snd].
    apply G; [done|]. intros n. unfold with_names. cbn [names]. destruct (decide (n = m)) as [->|]; [by rewrite lookup_delete_eq|by rewrite lookup_delete_ne].
  - cbn [fst snd]. apply runs_ret, G; [done|]. intros n. by destruct (decide (n = m)) as [->|].
Qed.

(** The names that were stored are gone, the others are as they were. *)
Definition removed (s0 : FS) (ok : list claim) (s : FS) : Prop :=
  (forall n, names s !! n = if decide (n ∈ map cl_name ok) then None else names s0 !! n) /\
  forall i x, inodes s0 !! i = Some x -> inodes s !! i = Some x.

Lemma runs_undo s0 ok s : Stored s0 ok s ->
  runs (_cleanup_uploaded_paths env dir (map cl_name ok)) s (fun o s' => o = Done tt /\ removed s0 ok s').
Proof.
  intros S. unfold _cleanup_uploaded_paths. eapply runs_weaken; [apply runs_cleanup|].
  - intros n E. apply list_elem_of_In, in_rev, list_elem_of_In, list_elem_of_fmap in E as (x & -> & X). right. by apply (st_new _ _ _ S).
  - cbn beta. intros o s' (-> & I & N). split; [done|]. split; [|rewrite I; apply S]. intros n. rewrite N.
    assert (n ∈ rev (map cl_name ok) <-> n ∈ map cl_name ok) as R by (rewrite !list_elem_of_In; symmetry; apply in_rev).
    destruct (decide (n ∈ rev _)) as [E|E]; rewrite R in E; (destruct (decide (n ∈ map cl_name ok)); [|]; try done).
    by apply (st_old _ _ _ S).
Qed.

Section request.
Context (limits : UploadLimits) (do_convert : FS -> string -> outcome string) (thread_id : string) (s0 : FS).
Context (Hsize : 0 < max_file_size limits).
Notation within := (all_within (max_file_size limits) (max_total_size limits)).

Definition info (x : claim) : UploadedFileInfo := file_info dir thread_id (cl_original x) (cl_name x) (bytes_of x) None.

(** The variables of the loop when [ok] was stored and [skip] passed over. *)
Definition reached (ok skip : list claim) (p : progress) : Prop :=
  uploaded_files p = map info ok /\ written_paths p = map cl_name ok /\ skipped p = map cl_name skip /\
  total_size p = sumZ bytes_of ok /\ sandbox_sync_targets p = [] /\ forall x, x ∈ ok -> cl_name x ∈ seen_filenames p.

(** One claimed file. *)
Lemma runs_one f n original p s ok skip : upload_filename f = Some n -> n <> "" -> normalize_filename n = Done original ->
  let c := claim_unique_filename original (seen_filenames p) in
  let x := {| cl_original := original; cl_name := c.1; cl_body := body f |} in
  Stored s0 ok s -> reached ok skip p -> usable c.1 -> room s -> total_size p <= max_total_size limits ->
  runs (upload_one env dir limits do_convert false false thread_id p f) s (fun o s' =>
    if unsafe_at s0 c.1 then exists p', o = Done p' /\ Stored s0 ok s' /\ reached ok (skip ++ [x]) p' /\ seen_filenames p' = c.2
    else if fits (max_file_size limits) (max_total_size limits) 0 (total_size p) (body f)
         then exists p', o = Done p' /\ Stored s0 (ok ++ [x]) s' /\ reached (ok ++ [x]) skip p' /\ seen_filenames p' = c.2
         else (exists m, o = Fails (HTTPException 413 m)) /\ removed s0 ok s').
Proof.
  intros F N0 N c x S (R1 & R2 & R3 & R4 & R5 & R6) U Ro T. unfold upload_one. rewrite F. destruct n as [|c0 n0]; [done|]. rewrite N.
  destruct (claim_fresh original (seen_filenames p)) as (Fr & Se & _). fold c in Fr, Se |- *. rewrite (surjective_pairing c). cbn [fst snd].
  assert (c.1 ∉ map cl_name ok) as Nc by (intros (y & E & Y)%list_elem_of_fmap; apply Fr; rewrite E; by apply R6).
  rewrite <- (st_unsafe _ _ _ S) by done. apply runs_catch, runs_bind. cbn [with_seen total_size].
  eapply runs_weaken; [apply (runs_with_limits s f c.1); [done|by apply S|done|lia|done]|]. cbn beta. intros o s' H.
  destruct (unsafe_at s c.1) eqn:Un; [|destruct (fits _ _ _ _ _)].
  - destruct H as [-> [m ->]]. apply runs_ret. eexists. split; [done|]. cbn. rewrite Se. split_and!; [done| |done].
    unfold reached. cbn -[map]. rewrite map_app, R3. split_and!; try done. set_solver.
  - destruct H as [-> St]. cbn [andb]. apply runs_bind, runs_ret, runs_ret. eexists. split; [done|]. cbn -[map].
    split; [apply (stored_more s0 ok s s' x); done|]. split; [|done].
    unfold reached. cbn -[map]. rewrite R1, R2, R4, !app_nil_r, !map_app, sumZ_app. split_and!; try done; [cbn; unfold bytes_of; cbn; lia|].
    rewrite Se. intros y [Y| ->%list_elem_of_singleton]%elem_of_app; set_solver.
  - destruct H as [Sa [m ->]]. apply runs_bind. cbn [with_seen written_paths]. rewrite R2.
    eapply runs_weaken; [apply runs_undo, (stored_same s0 ok s s' S Sa)|]. cbn beta. intros o s2 [-> Re]. apply runs_raise. eauto.
Qed.

Lemma runs_all l : forall p s ok skip, Stored s0 ok s -> reached ok skip p -> total_size p <= max_total_size limits ->
  Forall (fun x => refused dir (cl_name x) = None) (plan (seen_filenames p) l) ->
  (card (names s0) + length ok + length l < TMP_MAX)%nat ->
  let l' := plan (seen_filenames p) l in
  runs (upload_all env dir limits do_convert false false thread_id p l) s (fun o s' =>
    if within (total_size p) (good s0 l')
    then exists p', o = Done p' /\ Stored s0 (ok ++ good s0 l') s' /\ reached (ok ++ good s0 l') (skip ++ bad s0 l') p'
    else (exists m, o = Fails (HTTPException 413 m)) /\ exists ok', ok' `prefix_of` ok ++ good s0 l' /\ removed s0 ok' s').
Proof.
  induction l as [|f l IH]; intros p s ok skip S R T Us L l'.
  - subst l'. cbn. unfold all_within. cbn. rewrite Z.add_0_r, (proj2 (Z.leb_le _ _)) by done. rewrite !app_nil_r.
    apply runs_ret. eauto.
  - cbn [upload_all]. apply runs_bind. cbn [length] in L. subst l'. cbn [plan] in *.
    destruct (upload_filename f) as [[|c0 n0]|] eqn:F.
    { unfold upload_one. rewrite F. apply runs_ret. apply IH; try done. lia. }
    2: { unfold upload_one. rewrite F. apply runs_ret. apply IH; try done. lia. }
    set (n := String c0 n0) in *. destruct (normalize_filename n) as [original|e] eqn:N.
    2: { unfold upload_one. rewrite F. subst n. cbn iota. rewrite N. apply runs_ret. apply IH; try done. lia. }
    apply normalize_spec in N as Pl. destruct Pl as [Pl _]. pose proof (claim_plain original (seen_filenames p) Pl) as Pc.
    destruct (claim_unique_filename original (seen_filenames p)) as [c seen] eqn:C. apply Forall_cons in Us as [Uc Us]. cbn in Uc, Pc.
    set (x := {| cl_original := original; cl_name := c; cl_body := body f |}) in *.
    eapply runs_weaken; [apply (runs_one f n original p s ok skip F ltac:(done) N S R); [rewrite C; by split| |done]|].
    { pose proof (st_room _ _ _ S). unfold room. lia. }
    rewrite C. cbn [fst snd]. intros o s' H. unfold good, bad, writable. cbn [List.filter]. change (cl_name x) with c.
    destruct (unsafe_at s0 c) eqn:Un; cbn [negb].
    + destruct H as (p' & -> & S' & R' & E). specialize (IH p' s' ok (skip ++ [x]) S' R'). rewrite E in IH.
      assert (total_size p' = total_size p) as Tp by (destruct R as (_ & _ & _ & -> & _), R' as (_ & _ & _ & -> & _); done).
      rewrite Tp, <- app_assoc in IH. cbn [app] in IH. by apply IH; [|..|lia].
    + rewrite within_cons. change (cl_body x) with (body f). destruct (fits _ _ _ _ (body f)) eqn:Fi; cbn [andb].
      * destruct H as (p' & -> & S' & R' & E). specialize (IH p' s' (ok ++ [x]) skip S' R'). rewrite E in IH.
        assert (total_size p' = total_size p + bytes_of x) as Tp.
        { destruct R as (_ & _ & _ & -> & _), R' as (_ & _ & _ & -> & _). rewrite sumZ_app. subst x. unfold sumZ. cbn [foldr]. lia. }
        rewrite Tp, <- !app_assoc in IH. cbn [app] in IH. apply IH; [|done|rewrite length_app; cbn; lia].
        apply andb_true_iff in Fi as [_ Fi]. apply Z.leb_le in Fi. exact Fi.
      * destruct H as [[m ->] Re]. split; [by exists m|]. exists ok. split; [by apply prefix_app_r|done].
Qed.
End request.

Lemma runs_readable l : forall s, (forall n, n ∈ l -> refused dir n = None /\ exists i, names s !! n = Some (Inode i)) ->
  runs (_make_uploaded_paths_sandbox_readable env dir l) s (fun o s' => o = Done tt /\ names s' = names s /\
    forall i, data <$> inodes s' !! i = data <$> inodes s !! i).
Proof.
  unfold _make_uploaded_paths_sandbox_readable. induction l as [|n l IH]; intros s H; cbn [each]; [by apply runs_ret|].
  destruct (H n ltac:(by left)) as [R [i E]]. apply runs_bind. unfold _make_file_sandbox_readable, _make_file_sandbox.
  apply runs_bind, runs_call. intros _. rewrite R, E. cbn [fst snd].
  assert (S_ISLNK (stat_of s (Inode i)) = false) as -> by (cbn [stat_of]; by destruct (inodes s !! i)).
  apply runs_call. intros _. rewrite E. cbn [fst snd]. eapply runs_weaken; [apply IH; intros m M; apply H; by right|].
  cbn beta. intros o s' (-> & -> & D). split_and!; [done|done|]. intros j. rewrite D. cbn [inodes with_inodes].
  destruct (decide (i = j)) as [->|N]; [rewrite lookup_alter_eq; by destruct (inodes s !! j)|by rewrite lookup_alter_ne].
Qed.
End quiet.

(** ** The endpoint *)

Record Quiet (env : Env) : Prop := {
  quiet_interference : forall k s, interference env k s = s;
  quiet_fault : forall k, fault env k = None;
  quiet_random : forall t, Inj eq eq (random env t);
  quiet_resolve : forall s n, plain n -> (forall t, names s !! n <> Some (Symlink t)) ->
    relative_to (parse (resolve env s n)) (parse (resolve_dir env)) = true
}.

Lemma limit_positive config key d k : 0 < d -> 0 < _get_upload_limit config key d k.
Proof.
  intros D. unfold _get_upload_limit. destruct (LoopDetection.int_or_none _) as [[z|]|]; [|done|done]. by destruct (Z.leb_spec z 0).
Qed.

Lemma content_kept s s' n : names s' !! n = names s !! n -> (forall i, data <$> inodes s' !! i = data <$> inodes s !! i) -> content s' n = content s n.
Proof. intros N D. unfold content. rewrite N. destruct (names s !! n) as [[i| | |]|]; auto. Qed.

Lemma content_old s0 s n : wf s0 -> names s !! n = names s0 !! n -> (forall i x, inodes s0 !! i = Some x -> inodes s !! i = Some x) ->
  content s n = content s0 n.
Proof.
  intros W N I. unfold content. rewrite N. destruct (names s0 !! n) as [[i| | |]|] eqn:E; try done.
  destruct (W n i E) as (x & X & _). by rewrite X, (I i x X).
Qed.


(** ** Examples *)

Import UploadSafety.

Lemma quiet_attack : Quiet (Attack.env_with Attack.quiet).
Proof.
  split; [done|done|intros t i j E; cbn in E; by apply (inj pretty), (inj Z.of_nat) in E|].
  intros s n (F & N & D & _) L. cbn [resolve resolve_dir Attack.env_with]. unfold Attack.resolve_link.
  assert (match names s !! n with Some (Symlink t) => t | _ => path_str (child Attack.dir n) end = path_str (child Attack.dir n)) as ->.
  { destruct (names s !! n) as [[i|t| |b]|] eqn:X; try done. by destruct (L t). }
  assert (path_str (child Attack.dir n) = "/srv/uploads/" +:+ n) as -> by (unfold child; rewrite (plain_parse n F N D); rewrite <- (sapp_nil_r n) at 2; vm_compute; reflexivity).
  assert (split_on slash ("/srv/uploads/" +:+ n) = [""; "srv"; "uploads"; n]) as E.
  { pose proof (split_one n F) as S. change ("/srv/uploads/" +:+ n) with (String "/" (String "s" (String "r" (String "v" (String "/" (String "u" (String "p" (String "l" (String "o" (String "a" (String "d" (String "s" (String "/" n))))))))))))).
    cbn. by rewrite S. }
  unfold relative_to, parse, comps. rewrite E. done.
Qed.


(** The second file of a name of 255 bytes is given a name that is too long: the
    whole request fails, and the first one is removed again. *)
Lemma long_duplicate_fails :
  let n := text_of (repeat "a" 255) in
  let f := {| upload_filename := Some n; body := "x" |} in
  let r := upload_files (Attack.env_with Attack.quiet) (parse "/srv/df") "u" [] Attack.provider Attack.no_conversion "t1" [f; f] Attack.start in
  (exists m, r.1 = Fails (HTTPException 500 m)) /\ names (fs r.2) !! n = None.
Proof. split; [eexists|]; by vm_compute. Qed.

End UploadSpec.
