(* ===== verification/SandboxSafety.v ===== *)
(** * The sandbox tools stay inside

    The theorems about [SandboxPaths] and [SandboxTools]: whatever path and
    command the model asks for, and whatever the sandbox answers, the calls that
    reach a local sandbox are inside the directories the thread may touch. *)
From S2P Require Import Prelude Json Text Slices PosixPaths Shlex OrderedDict SandboxPaths SandboxOutput SandboxCalls BashGuard SandboxTools.
Import Json Text Slices PosixPaths SandboxPaths SandboxOutput SandboxCalls BashGuard SandboxTools.

Module SandboxSafety.

(** ** Paths without [..] *)

Definition turned (p : string) : string := replace_char backslash_char slash p.
Definition no_dotdot (p : string) : Prop := ".." ∉ split_on slash (turned p).

Lemma reject_ok p : _reject_path_traversal p = Good tt <-> no_dotdot p.
Proof. unfold _reject_path_traversal, no_dotdot. by case_bool_decide. Qed.

Lemma split_slash s : split_on slash (String slash s) = "" :: split_on slash s.
Proof. done. Qed.

(** Leading slashes bring no new component. *)
Lemma lstrip_pieces s x : x ∈ split_on slash (turned (lstrip_slash s)) -> x ∈ split_on slash (turned s).
Proof.
  induction s as [|c s IH]; [done|]. unfold lstrip_slash. cbn [lstrip]. unfold is_char at 1.
  destruct (Ascii.eqb slash c) eqn:E; [|done]. apply Ascii.eqb_eq in E as <-. intros H.
  change (turned (String slash s)) with (String slash (turned s)). rewrite split_slash. right. by apply IH.
Qed.

Lemma drop_prefix_app p s : drop_prefix p (p +:+ s) = s.
Proof. induction p as [|c p IH]; [by destruct s|]. by rewrite sapp_cons. Qed.

Lemma under_cases base p : under base p = true -> p = base \/ exists r, p = base +:+ String slash r.
Proof.
  unfold under. rewrite orb_true_iff, String.eqb_eq, starts_with_spec. intros [->|[r ->]]; [by left|]. right.
  exists r. by rewrite sapp_assoc.
Qed.

Lemma turned_slash s t : turned (s +:+ String slash t) = turned s +:+ String slash (turned t).
Proof. unfold turned. by rewrite replace_app. Qed.

(** What is behind a virtual prefix has no [..] either. *)
Lemma no_dotdot_rest base p : under base p = true -> no_dotdot p -> no_dotdot (lstrip_slash (drop_prefix base p)).
Proof.
  intros [-> |[r ->]]%under_cases N H.
  - assert (drop_prefix base base = "") as E by (rewrite <- (sapp_nil_r base) at 2; apply drop_prefix_app).
    rewrite E in H. cbn in H. set_solver.
  - apply N. rewrite turned_slash, split_app_sep. apply elem_of_app. right.
    rewrite drop_prefix_app in H. apply lstrip_pieces in H. change (turned (String slash r)) with (String slash (turned r)) in H.
    rewrite split_slash in H. apply elem_of_cons in H as [[=]|H]. done.
Qed.

(** A component that has no backslash is one of the turned text too. *)
Lemma turned_pieces s :
  match split_on slash s, split_on slash (turned s) with
  | x :: l, y :: m => (posix x = true -> y = x) /\ forall z, z ∈ l -> posix z = true -> z ∈ m
  | _, _ => False
  end.
Proof.
  induction s as [|c s IH]; [done|]. cbn [turned replace_char split_on] in *. fold (turned s).
  destruct (split_on slash s) as [|x l]; [done|]. destruct (split_on slash (turned s)) as [|y m]; [done|].
  destruct IH as [H1 H2]. assert (forall z, z ∈ x :: l -> posix z = true -> z ∈ y :: m) as H3.
  { intros z [->|Hz]%elem_of_cons P; [rewrite (H1 P); left|right; by apply H2]. }
  destruct (Ascii.eqb c slash) eqn:E.
  - apply Ascii.eqb_eq in E as ->. change (Ascii.eqb slash backslash_char) with false. cbv iota. rewrite Ascii.eqb_refl. done.
  - destruct (Ascii.eqb c backslash_char) eqn:B.
    + rewrite Ascii.eqb_refl. apply Ascii.eqb_eq in B as ->. split; [done|]. intros z Hz P. apply H3; [by right|done].
    + rewrite E. split; [|done]. intros P. unfold posix in P. cbn [no_char] in P. apply andb_true_iff in P as [_ P]. by rewrite H1.
Qed.

Lemma no_dotdot_comps s : no_dotdot s -> ".." ∉ comps s.
Proof.
  intros N H. apply filter_elem in H as [H _]. apply N. pose proof (turned_pieces s) as T.
  destruct (split_on slash s) as [|x l]; [done|]. destruct (split_on slash (turned s)) as [|y m]; [done|]. destruct T as [T1 T2].
  apply elem_of_cons in H as [<-|H]; [rewrite T1 by done; left|right; by apply T2].
Qed.

(** ** Inside a directory *)

(** An absolute path below [dir], by its text. *)
Definition inside (dir p : string) : Prop :=
  starts_with "/" p = true /\ exists rest, comps p = comps dir ++ rest /\ ".." ∉ rest.

(** A directory of the host: absolute, in the style of POSIX. *)
Definition host_dir (dir : string) : Prop := starts_with "/" dir = true /\ posix dir = true.

Lemma inside_refl dir : host_dir dir -> inside dir dir.
Proof. intros [A _]. split; [done|]. exists []. rewrite app_nil_r. set_solver. Qed.

Lemma rstrip_head f s c r : rstrip f s = String c r -> exists r', s = String c r'.
Proof. destruct s as [|d s]; cbn; [done|]. destruct (_ && _); [done|]. intros [= -> _]. by exists s. Qed.

Lemma separator_posix dir : host_dir dir -> _path_separator_for_style dir = slash.
Proof.
  intros [_ P]. unfold posix in P. unfold _path_separator_for_style. by rewrite (no_char_contains backslash_char), P.
Qed.

Lemma join_inside dir rel : host_dir dir -> no_dotdot rel -> inside dir (_join_path_preserving_style dir rel).
Proof.
  intros D N. unfold _join_path_preserving_style. destruct (rel =? "")%string; [by apply inside_refl|].
  rewrite separator_posix by done. rewrite Ascii.eqb_refl. cbv zeta. destruct D as [A P]. rewrite posix_rstrip by done.
  rewrite posix_lstrip by by apply replace_removes. fold (turned rel).
  change (char slash +:+ lstrip (is_char slash) (turned rel)) with (String slash (lstrip (is_char slash) (turned rel))). split.
  - destruct (rstrip (is_char slash) dir) as [|c r] eqn:E; [done|]. apply rstrip_head in E as [r' ->].
    by destruct c as [[] [] [] [] [] [] [] []].
  - exists (comps (turned rel)). rewrite comps_app, comps_rstrip, comps_lstrip. split; [done|].
    intros H. apply filter_elem in H as [H _]. by apply N.
Qed.

Definition component (x : string) : Prop := counts x = true /\ no_char (Ascii.eqb slash) x = true.

Lemma comps_components s : Forall component (comps s).
Proof.
  apply Forall_forall. intros x H. unfold comps in H. apply filter_elem in H as [H C]. split; [done|].
  pose proof (split_pieces slash s) as S. rewrite forallb_forall in S. apply S. by apply list_elem_of_In.
Qed.

Lemma split_piece sep x : no_char (Ascii.eqb sep) x = true -> split_on sep x = [x].
Proof.
  induction x as [|c x IH]; [done|]. cbn [no_char split_on]. rewrite andb_true_iff, negb_true_iff, Ascii.eqb_sym. intros [-> H].
  by rewrite IH.
Qed.

Lemma comps_join l : Forall component l -> comps (join "/" l) = l.
Proof.
  induction 1 as [|x l [C N] _ IH]; [done|]. assert (comps x = [x]) as X by (unfold comps; rewrite split_piece by done; cbn; by rewrite C).
  destruct l as [|y l]; [unfold join; cbn [map foldr]; rewrite sapp_nil_r; exact X|]. change (join "/" (x :: y :: l)) with (x +:+ String slash (join "/" (y :: l))).
  by rewrite comps_app, X, IH.
Qed.

Lemma leading_slashes s : starts_with "/" s = true -> leading s = "/" \/ leading s = "//".
Proof.
  unfold leading. destruct s as [|c s]; [done|]. destruct c as [[] [] [] [] [] [] [] []]; try done. intros _.
  destruct s as [|c s]; [by left|]. destruct c as [[] [] [] [] [] [] [] []]; try by left.
  destruct s as [|c s]; [by right|]. destruct c as [[] [] [] [] [] [] [] []]; (by right) || by left.
Qed.

Lemma path_str_inside dir l : host_dir dir -> ".." ∉ l -> Forall component l ->
  inside dir (path_str {| root := leading dir; tail := comps dir ++ l |}).
Proof.
  intros [A _] N F. unfold path_str. cbn [root tail].
  assert (Forall component (comps dir ++ l)) as F' by (apply Forall_app; split; [apply comps_components|done]).
  destruct (leading_slashes dir A) as [-> | ->].
  - change ("/" +:+ join "/" (comps dir ++ l)) with (String slash (join "/" (comps dir ++ l))). split; [done|].
    exists l. by rewrite comps_slash, comps_join.
  - change ("//" +:+ join "/" (comps dir ++ l)) with (String slash (String slash (join "/" (comps dir ++ l)))). split; [done|].
    exists l. by rewrite !comps_slash, comps_join.
Qed.

(** ** What a call may touch *)

(** The host's own directories are POSIX paths. *)
Definition host_ok (h : Host) : Prop :=
  (forall dir, skills_host h = Some dir -> host_dir dir) /\ host_dir (user_custom_skills h) /\
  forall t dir, acp_workspace h t = Some dir -> host_dir dir.

Section policy.
Context (h : Host) (td : option ThreadData).

(** The thread's own name: its workspace is [<name>/user-data/workspace]. *)
Definition thread_name : option string :=
  match td with
  | Some t => match nonempty (workspace_path t) with Some w => Some (default "" (rev (comps w) !! 2%nat)) | None => None end
  | None => None
  end.

Lemma third_from_last {A} (l : list A) : last (removelast (removelast l)) = rev l !! 2%nat.
Proof.
  destruct l as [|a l _] using rev_ind; [done|]. rewrite removelast_last, rev_app_distr. cbn.
  destruct l as [|b l _] using rev_ind; [done|]. rewrite removelast_last, rev_app_distr. cbn.
  destruct l as [|c l _] using rev_ind; [done|]. rewrite last_snoc, rev_app_distr. done.
Qed.

Lemma thread_name_ok : _extract_thread_id_from_thread_data td = thread_name.
Proof.
  unfold _extract_thread_id_from_thread_data, thread_name. destruct td as [t|]; [|done].
  destruct (nonempty (workspace_path t)) as [w|]; [|done]. cbn. unfold name, parent. cbn. by rewrite third_from_last.
Qed.

(** One of the directories the thread may read: the public skills, the user's own
    ones, and the agent workspace of this thread. *)
Definition shared_dir (dir : string) : Prop :=
  skills_host h = Some dir \/ dir = user_custom_skills h \/ acp_workspace h thread_name = Some dir.

(** Resolved into one of the directories of the thread. *)
Definition in_thread (p : string) : Prop :=
  exists t d, td = Some t /\ Some d ∈ thread_dirs t /\ relative_to (parse p) (parse (resolve h d)) = true.

(** A virtual path the sandbox resolves itself. *)
Definition mounted (p : string) : Prop := no_dotdot p /\ _is_custom_mount_path h p = true.

Definition readable (p : string) : Prop :=
  in_thread p \/ mounted p \/ (no_dotdot p /\ (_is_skills_path h p || _is_acp_workspace_path p) = true) \/
  (exists dir, shared_dir dir /\ inside dir p).

(** Below [/mnt/user-data] the flag of a mount is left to the sandbox. *)
Definition writable (p : string) : Prop :=
  in_thread p \/
  (mounted p /\ _is_skills_path h p = false /\ _is_acp_workspace_path p = false /\
   (starts_with (VIRTUAL_PATH_PREFIX +:+ "/") p = true \/
    forall m, _get_custom_mount_for_path h p = Some m -> mount_read_only m = false)).

Lemma path_validated p ro : validate_local_tool_path h p td ro = Good tt ->
  no_dotdot p /\ is_Some td /\
  (ro = false -> _is_skills_path h p = false /\ _is_acp_workspace_path p = false /\
     (starts_with (VIRTUAL_PATH_PREFIX +:+ "/") p = true \/
      (_is_custom_mount_path h p = true /\ forall m, _get_custom_mount_for_path h p = Some m -> mount_read_only m = false))).
Proof.
  unfold validate_local_tool_path. destruct td as [t|]; [|done].
  destruct (_reject_path_traversal p) as [[]|f] eqn:R; [|done]. apply reject_ok in R. intros H. split_and!; [done|done|]. intros ->.
  destruct (_is_skills_path h p); [done|]. destruct (_is_acp_workspace_path p); [done|]. split_and!; [done..|].
  destruct (starts_with _ p); [by left|]. destruct (_is_custom_mount_path h p); [|done]. right. split; [done|].
  intros m E. rewrite E in H. by destruct (mount_read_only m).
Qed.

Lemma resolved_in_thread p t q : td = Some t -> _resolve_and_validate_user_data_path h p t = Good q -> in_thread q.
Proof.
  intros E. unfold _resolve_and_validate_user_data_path, _validate_resolved_user_data_path.
  set (r := resolve h (replace_virtual_path p (Some t))).
  destruct (omap (option_map (resolve h)) (thread_dirs t)) as [|x l] eqn:O; [done|].
  destruct (existsb _ (x :: l)) eqn:X; [|done]. intros [= <-]. apply existsb_exists in X as [y [Hy X]].
  apply list_elem_of_In in Hy. rewrite <- O in Hy. apply list_elem_of_omap in Hy as [[d|] [Hd [= <-]]]. by exists t, d.
Qed.

Lemma ls_path_readable p q : ls_path h p td = Good q -> readable q.
Proof.
  unfold ls_path, andthen. destruct (validate_local_tool_path h p td true) as [[]|f] eqn:V; [|done].
  apply path_validated in V as (N & [t0 T0] & _). destruct (_is_skills_path h p || _is_acp_workspace_path p) eqn:S.
  { intros [= <-]. right. right. by left. }
  rewrite orb_false_l. destruct (_is_custom_mount_path h p) eqn:C; [intros [= <-]; right; by left|].
  rewrite T0. intros H. left. by eapply resolved_in_thread.
Qed.

Lemma search_path_readable p t q : td = Some t -> _resolve_local_read_path h p t = Good q -> readable q.
Proof.
  intros E. unfold _resolve_local_read_path. rewrite <- E. destruct (validate_local_tool_path h p td true) as [[]|f] eqn:V; [|done].
  apply path_validated in V as (N & [t0 T0] & _). destruct (_is_skills_path h p || _is_acp_workspace_path p) eqn:S.
  { intros [= <-]. right. right. by left. }
  intros H. left. exact (resolved_in_thread p t q E H).
Qed.

Lemma write_path_writable p q : write_path h p td = Good q -> writable q.
Proof.
  unfold write_path, andthen. destruct (validate_local_tool_path h p td false) as [[]|f] eqn:V; [|done].
  apply path_validated in V as (N & [t0 T0] & R). destruct (R eq_refl) as (S & A & U). destruct (_is_custom_mount_path h p) eqn:C.
  { intros [= <-]. right. split_and!; [by split|done|done|]. destruct U as [U|[_ U]]; [by left|by right]. }
  rewrite T0. intros H. left. by eapply resolved_in_thread.
Qed.

Lemma shared_host dir : host_ok h -> shared_dir dir -> host_dir dir.
Proof. intros (S & C & A) [H|[->|H]]; [by apply S|done|by eapply A]. Qed.

Lemma skills_inside p q : host_ok h -> no_dotdot p -> _is_skills_path h p = true -> _resolve_skills_path h p = Good q ->
  exists dir, shared_dir dir /\ inside dir q.
Proof.
  intros H N S. unfold _resolve_skills_path. destruct (skills_host h) as [dir|] eqn:D; [|done].
  assert (shared_dir dir) as Sd by by left. assert (shared_dir (user_custom_skills h)) as Sc by (right; by left).
  destruct (p =? skills_container h)%string; [intros [= <-]; exists dir; split; [done|]; by apply inside_refl, shared_host|].
  pose proof (no_dotdot_rest _ _ S N) as R. fold (relative_to_skills h p) in R. destruct (under "custom" _) eqn:U.
  - pose proof (no_dotdot_rest _ _ U R) as R'. intros E. exists (user_custom_skills h). split; [done|].
    destruct (_ =? "")%string; injection E as <-.
    + pose proof (path_str_inside (user_custom_skills h) [] (shared_host _ H Sc) ltac:(set_solver) ltac:(constructor)) as X.
      rewrite app_nil_r in X. exact X.
    + apply path_str_inside; [by apply shared_host|by apply no_dotdot_comps|apply comps_components].
  - intros [= <-]. exists dir. split; [done|]. apply join_inside; [by apply shared_host|done].
Qed.

Lemma acp_inside p q : host_ok h -> _is_acp_workspace_path p = true ->
  _resolve_acp_workspace_path h p (_extract_thread_id_from_thread_data td) = Good q ->
  exists dir, shared_dir dir /\ inside dir q.
Proof.
  rewrite thread_name_ok. set (t := thread_name). intros H A. unfold _resolve_acp_workspace_path. destruct (_reject_path_traversal p) as [[]|f] eqn:R; [|done].
  apply reject_ok in R. destruct (acp_workspace h t) as [dir|] eqn:D; [|done].
  assert (shared_dir dir) as Sd by (by right; right). pose proof (shared_host dir H Sd) as HD.
  destruct (p =? _)%string; [intros [= <-]; exists dir; split; [done|]; by apply inside_refl|].
  assert (contains "/" dir && negb (contains (char backslash_char) dir) = true) as ->.
  { destruct HD as [Ab P]. rewrite (no_char_contains backslash_char), negb_involutive. unfold posix in P. rewrite P, andb_true_r.
    apply contains_spec. apply starts_with_spec in Ab as [r ->]. by exists "", r. }
  cbv zeta. destruct (bool_decide _); [|done]. intros E.
  assert (q = _join_path_preserving_style dir (lstrip_slash (drop_prefix _ACP_WORKSPACE_VIRTUAL_PATH p))) as -> by congruence.
  exists dir. split; [done|]. apply join_inside; [done|]. by apply no_dotdot_rest.
Qed.

Lemma read_path_readable p q : host_ok h -> read_path h p td = Good q -> readable q.
Proof.
  intros H. unfold read_path, andthen. destruct (validate_local_tool_path h p td true) as [[]|f] eqn:V; [|done].
  apply path_validated in V as (N & [t0 T0] & _). destruct (_is_skills_path h p) eqn:S.
  { intros E. right. right. right. by eapply skills_inside. }
  destruct (_is_acp_workspace_path p) eqn:A; [intros E; right; right; right; by eapply acp_inside|].
  destruct (_is_custom_mount_path h p) eqn:C; [intros [= <-]; right; by left|].
  rewrite T0. intros H'. left. by eapply resolved_in_thread.
Qed.
End policy.

(** ** The tools *)

Definition local_id (id : string) : bool := (id =? "local")%string || starts_with "local:" id.

(** The tools and their arguments. *)
Inductive request :=
  | Ls (p : string)
  | GlobFor (pattern p : string) (include_dirs : bool) (max_results : Z)
  | GrepFor (pattern p : string) (glob : option string) (literal case_sensitive : bool) (max_results : Z)
  | Read (p : string) (start_line end_line : option Z)
  | Write (p content : string) (append : bool)
  | StrReplace (p old_str new_str : string) (replace_all : bool)
  | Bash (provided : option json) (command : string).

Definition answer (alnum : string -> bool) (h : Host) (cfg : Settings) (user : string) (r : request) : Runtime -> prog string :=
  match r with
  | Ls p => ls_tool h cfg user p
  | GlobFor pattern p dirs n => glob_tool h cfg user pattern p dirs n
  | GrepFor pattern p glob literal sensitive n => grep_tool h cfg user pattern p glob literal sensitive n
  | Read p a b => read_file_tool h cfg user p a b
  | Write p content append => write_file_tool h cfg user p content append
  | StrReplace p old new every => str_replace_tool h user p old new every
  | Bash provided command => bash_tool alnum h cfg user provided command
  end.

(** A tool, called directly or from a coroutine. *)
Definition serve (alnum : string -> bool) (h : Host) (cfg : Settings) (user : string) (from_coroutine : bool) (r : request) : Runtime -> prog string :=
  if from_coroutine then _run_sync_tool_after_async_sandbox_init h user (answer alnum h cfg user r) else answer alnum h cfg user r.

Definition writes (r : request) : bool := match r with Write _ _ _ | StrReplace _ _ _ _ => true | _ => false end.
Definition command_of (r : request) : option string := match r with Bash _ command => Some command | _ => None end.

(** The member of the run's context that says who is speaking. *)
Definition speaker (rt : Runtime) : option json :=
  match context rt with Some d => get "channel_user_id" d | None => None end.

(** What is put in front of a command for them: nothing where there is no such
    member, and its text, if it is a proper one, as one shell word. *)
Definition speaker_prefix (who : option json) : string :=
  match who with
  | None => ""
  | Some (JStr id) => if (1 <=? len id) && (len id <=? 256) then "export DEERFLOW_CHANNEL_USER_ID=" +:+ Shlex.quote id +:+ "; "
                      else "unset DEERFLOW_CHANNEL_USER_ID; "
  | Some _ => "unset DEERFLOW_CHANNEL_USER_ID; "
  end.

(** And the change into the workspace. *)
Definition workspace_prefix (td : option ThreadData) : string :=
  match td with
  | Some t => match nonempty (workspace_path t) with Some w => "cd " +:+ Shlex.quote w +:+ " && " | None => "" end
  | None => ""
  end.

Lemma identity_prefix_ok rt command : with_prefix (_channel_identity_prefix (context rt)) command = speaker_prefix (speaker rt) +:+ command.
Proof.
  unfold speaker, speaker_prefix, _channel_identity_prefix. destruct (context rt) as [d|]; [|done].
  destruct (get "channel_user_id" d) as [[]|]; try done. replace (1 <=? len s) with (0 <? len s) by lia.
  change _CHANNEL_USER_ID_MAX_LEN with 256. by destruct (_ && _).
Qed.

Lemma cwd_prefix_ok td command : _apply_cwd_prefix command td = workspace_prefix td +:+ command.
Proof.
  unfold _apply_cwd_prefix, workspace_prefix. destruct td as [t|]; [|done]. destruct (nonempty _) as [w|]; [|done].
  by rewrite !sapp_assoc.
Qed.

Section tools.
Context (alnum : string -> bool) (h : Host) (cfg : Settings) (user : string).
Context (td : option ThreadData) (who : option json) (req : request).

(** The calls a tool may make for a thread: none writes that was not asked to, and
    what a shell is given is the command that was asked for, with the virtual
    paths in it replaced, behind the two prefixes and nothing else. *)
Definition allowed (c : call) : Prop :=
  match c with
  | Acquire _ u => u = user
  | GetSandbox _ => True
  | MakeDirs d => exists t, td = Some t /\ Some d ∈ thread_dirs t
  | ListDir id p | Glob id p _ _ _ | Grep id p _ _ _ _ _ | ReadFile id p => local_id id = true -> readable h td p \/ writable h td p
  | WriteFile id p _ _ => writes req = true /\ (local_id id = true -> writable h td p)
  | ExecuteCommand id command _ _ =>
      exists asked, command_of req = Some asked /\
      if local_id id then
        (exists c, app_config cfg = Some c /\ is_host_bash_allowed c = true) /\
        validate_local_bash_command_paths alnum h asked td = Good tt /\
        command = (if is_windows cfg then "" else speaker_prefix who) +:+ workspace_prefix td +:+
                  replace_virtual_paths_in_command asked td
      else command = speaker_prefix who +:+ asked
  end.

(** The thread data and the speaker never change while a tool runs. *)
Definition thread_is (rt : Runtime) : Prop := is_Some (state rt) /\ get_thread_data rt = td /\ speaker rt = who.
Definition uses_sandbox (id : string) (rt : Runtime) : Prop := thread_is rt /\ sandbox_id_of rt = Some id.

(** A step that asks the world, and one that only reads the runtime. *)
Local Ltac ask := intros rt Hrt; cbn; split; [first [done|naive_solver]|]; intros [?|?]; cbn; try done.
Local Ltac look := apply does_gets; intros rt Hrt; first [exact Hrt|done].

Lemma with_sandbox_ok id rt : thread_is rt -> uses_sandbox id (with_sandbox id rt).
Proof. intros [[st S] [T W]]. unfold uses_sandbox, thread_is, with_sandbox, get_thread_data, sandbox_id_of in *. rewrite S in *. by split_and!. Qed.

Lemma with_sandbox_in_context_ok id j rt : uses_sandbox id rt -> uses_sandbox id (with_sandbox_in_context j rt).
Proof.
  intros [(S & T & W) I]. split; [|done]. split_and!; [done|done|]. rewrite <- W. unfold speaker. cbn.
  destruct (context rt) as [d|]; [|done]. cbn. by rewrite get_set_other.
Qed.

Lemma acquire_does : does allowed thread_is (acquire_sandbox user) uses_sandbox.
Proof.
  eapply (does_bind _ _ _ _ (fun _ => thread_is)); [look|]. intros [t|]; [|apply does_throw].
  eapply (does_bind _ _ _ _ (fun _ => thread_is)); [ask|]. intros id.
  eapply (does_bind _ _ _ _ (fun _ => uses_sandbox id)); [apply does_modify; intros; by apply with_sandbox_ok|]. intros _.
  eapply (does_bind _ _ _ _ (fun _ => uses_sandbox id)); [intros rt Hrt; by split|]. intros [].
  - eapply (does_bind _ _ _ _ (fun _ => uses_sandbox id)); [apply does_modify; intros; by apply with_sandbox_in_context_ok|]. intros _. by apply does_ret.
  - apply does_throw.
Qed.

Lemma ensure_does : does allowed thread_is (ensure_sandbox_initialized user) uses_sandbox.
Proof.
  eapply (does_bind _ _ _ _ (fun _ => thread_is)); [look|]. intros [st|]; [|apply does_throw].
  eapply (does_bind _ _ _ _ (fun o rt => thread_is rt /\ sandbox_id_of rt = o)); [by apply does_gets|].
  intros [id|]; [|eapply does_weaken; [exact acquire_does|by intros ? []|done]].
  eapply (does_bind _ _ _ _ (fun _ => uses_sandbox id)); [intros rt Hrt; by split|]. intros [].
  - eapply (does_bind _ _ _ _ (fun _ => uses_sandbox id)); [apply does_modify; intros; by apply with_sandbox_in_context_ok|]. intros _. by apply does_ret.
  - eapply does_weaken; [exact acquire_does|by intros ? []|done].
Qed.

Lemma make_dirs_does id dirs : (forall d, d ∈ dirs -> exists t, td = Some t /\ Some d ∈ thread_dirs t) ->
  does allowed (uses_sandbox id) (make_dirs dirs) (fun _ => uses_sandbox id).
Proof.
  induction dirs as [|d dirs IH]; intros H; [by apply does_ret|]. cbn [make_dirs].
  eapply (does_bind _ _ _ _ (fun _ => uses_sandbox id)).
  - intros rt Hrt. cbn. split; [apply H; left|]. by intros [?|?].
  - intros _. apply IH. intros d' Hd. apply H. by right.
Qed.

Lemma directories_do id : does allowed (uses_sandbox id) ensure_thread_directories_exist (fun _ => uses_sandbox id).
Proof.
  eapply (does_bind _ _ _ _ (fun o rt => uses_sandbox id rt /\ forall t, o = Some t -> td = Some t)).
  { apply does_gets. intros rt U. split; [done|]. intros t. destruct U as [(_ & T & _) _]. unfold directories_missing, get_thread_data in *.
    destruct (state rt) as [st|]; [|done]. destruct (_ && _); [|done]. congruence. }
  intros [t|]; [|apply does_ret; by intros ? []].
  eapply does_weaken with (I := fun rt => td = Some t /\ uses_sandbox id rt); [|intros rt [U H]; split; [by apply H|exact U]|intros a rt U; exact U].
  intros rt [E U]. revert rt U. change (does allowed (uses_sandbox id) (make_dirs (omap nonempty (thread_dirs t)) ≫= fun _ => modify with_directories)
    (fun _ => uses_sandbox id)).
  eapply (does_bind _ _ _ _ (fun _ => uses_sandbox id)).
  - apply make_dirs_does. intros d Hd. exists t. split; [done|]. apply list_elem_of_omap in Hd as [[x|] [Hx N]]; [|done]. cbn in N.
    destruct (x =? "")%string; [done|]. by injection N as ->.
  - intros _. apply does_modify. intros rt [([st S] & T & W) I]. unfold uses_sandbox, thread_is, with_directories, get_thread_data, sandbox_id_of in *.
    rewrite S in *. by split_and!.
Qed.

Lemma prepared_does : does allowed thread_is (prepared user) uses_sandbox.
Proof.
  eapply does_bind; [exact ensure_does|]. intros id. eapply does_bind; [apply directories_do|]. intros []. by apply does_ret.
Qed.

(** A tool that prepares and then works on the runtime as it is. *)
Lemma tool_does {A} (body : string -> Runtime -> M Runtime A) :
  (forall id rt, uses_sandbox id rt -> does allowed (eq rt) (body id rt) (fun _ _ => True)) ->
  does allowed thread_is (id ← prepared user; rt ← gets (fun rt => rt); body id rt) (fun _ _ => True).
Proof.
  intros H. eapply does_bind; [exact prepared_does|]. intros id.
  eapply (does_bind _ _ _ _ (fun r rt => r = rt /\ uses_sandbox id rt)); [by apply does_gets|]. intros rt.
  intros rt' [<- U]. by apply (H id rt U).
Qed.

Lemma local_is id rt : uses_sandbox id rt -> is_local_sandbox rt = local_id id.
Proof. intros [_ E]. unfold is_local_sandbox. by rewrite E. Qed.

Lemma thread_data_is id rt : uses_sandbox id rt -> get_thread_data rt = td.
Proof. by intros [(_ & T & _) _]. Qed.

(** Resolving a path and one call with it. *)
Lemma resolved_call {A} rt (o : outcome string) (k : string -> M Runtime A) (P : string -> Prop) :
  (forall p, o = Good p -> P p) -> (forall p, P p -> does allowed (eq rt) (k p) (fun _ _ => True)) ->
  does allowed (eq rt) (p ← lift o; k p) (fun _ _ => True).
Proof.
  intros Ho K. eapply (does_bind _ _ _ _ (fun p r => rt = r /\ P p)); [apply does_lift; intros s p <- E; split; [done|by apply Ho]|].
  intros p s [<- Hp]. by apply (K p Hp).
Qed.

Lemma ls_does p : does allowed thread_is (ls_body h cfg user p) (fun _ _ => True).
Proof.
  apply tool_does. intros id rt U. rewrite (local_is id rt U), (thread_data_is id rt U).
  apply (resolved_call rt _ _ (fun q => local_id id = true -> readable h td q)).
  - intros q E L. rewrite L in E. by eapply ls_path_readable.
  - intros q Hq rt' <-. cbn. split; [intros L; left; by apply Hq|]. by intros [?|?].
Qed.

Lemma search_readable id rt p q : uses_sandbox id rt -> search_path h p rt = Good q -> local_id id = true -> readable h td q.
Proof.
  intros U. unfold search_path. rewrite (local_is id rt U), (thread_data_is id rt U). intros E L. rewrite L in E.
  destruct td as [t|] eqn:T; [|done]. by eapply search_path_readable.
Qed.

Lemma glob_does pattern p dirs n : does allowed thread_is (glob_body h cfg user pattern p dirs n) (fun _ _ => True).
Proof.
  apply tool_does. intros id rt U. apply (resolved_call rt _ _ (fun q => local_id id = true -> readable h td q)).
  - intros q E L. by eapply search_readable.
  - intros q Hq rt' <-. cbn. split; [intros L; left; by apply Hq|]. by intros [?|?].
Qed.

Lemma grep_does pattern p glob literal sensitive n :
  does allowed thread_is (grep_body h cfg user pattern p glob literal sensitive n) (fun _ _ => True).
Proof.
  apply tool_does. intros id rt U. apply (resolved_call rt _ _ (fun q => local_id id = true -> readable h td q)).
  - intros q E L. by eapply search_readable.
  - intros q Hq rt' <-. cbn. split; [intros L; left; by apply Hq|]. by intros [?|?].
Qed.

Lemma read_does p a b : host_ok h -> does allowed thread_is (read_file_body h cfg user p a b) (fun _ _ => True).
Proof.
  intros H. eapply does_bind; [|by intros; apply does_ret].
  apply tool_does. intros id rt U. rewrite (local_is id rt U), (thread_data_is id rt U).
  apply (resolved_call rt _ _ (fun q => local_id id = true -> readable h td q)).
  - intros q E L. rewrite L in E. by eapply read_path_readable.
  - intros q Hq rt' <-. cbn. split; [intros L; left; by apply Hq|]. by intros [?|?].
Qed.

Lemma write_does p content append : writes req = true -> does allowed thread_is (write_file_body h user p content append) (fun _ _ => True).
Proof.
  intros Wr. apply tool_does. intros id rt U. rewrite (local_is id rt U), (thread_data_is id rt U).
  apply (resolved_call rt _ _ (fun q => local_id id = true -> writable h td q)).
  - intros q E L. rewrite L in E. by eapply write_path_writable.
  - intros q Hq rt' <-. cbn. split; [by split|]. by intros [?|?].
Qed.

Lemma str_replace_does p old new every : writes req = true -> does allowed thread_is (str_replace_body h user p old new every) (fun _ _ => True).
Proof.
  intros Wr. apply tool_does. intros id rt U. rewrite (local_is id rt U), (thread_data_is id rt U).
  apply (resolved_call rt _ _ (fun q => local_id id = true -> writable h td q)).
  - intros q E L. rewrite L in E. by eapply write_path_writable.
  - intros q Hq rt' <-. cbn. split; [intros L; right; by apply Hq|]. intros [content|?]; [|done]. cbn.
    destruct (content =? "")%string; [done|]. destruct (negb _); [done|]. cbn. split; [by split|]. by intros [?|?].
Qed.

Lemma bash_remote_does id command env : command_of req = Some command -> local_id id = false ->
  does allowed (uses_sandbox id) (bash_remote cfg id command env) (fun _ _ => True).
Proof.
  intros Asked L. eapply does_bind; [apply directories_do|]. intros [] rt U. cbn. split; [|by intros [?|?]].
  exists command. rewrite L. split; [done|]. rewrite identity_prefix_ok. by destruct U as [(_ & _ & ->) _].
Qed.

Lemma local_command_ok command rt q : thread_is rt -> local_command alnum h cfg command rt = Good q ->
  validate_local_bash_command_paths alnum h command td = Good tt /\
  q = (if is_windows cfg then "" else speaker_prefix who) +:+ workspace_prefix td +:+ replace_virtual_paths_in_command command td.
Proof.
  intros (_ & T & W). unfold local_command, andthen. rewrite T. destruct (validate_local_bash_command_paths alnum h command td) as [[]|] eqn:V; [|done].
  intros [= <-]. split; [done|]. rewrite cwd_prefix_ok, identity_prefix_ok, W. by destruct (is_windows cfg).
Qed.

Lemma bash_local_does id command env : command_of req = Some command -> local_id id = true -> does allowed (uses_sandbox id) (bash_local alnum h cfg id command env) (fun _ _ => True).
Proof.
  intros Asked L. eapply (does_bind _ _ _ _ (fun ok r => uses_sandbox id r /\ exists c, app_config cfg = Some c /\ is_host_bash_allowed c = ok)).
  { apply does_lift. intros s ok U. destruct (app_config cfg) as [c|]; [|done]. intros [= <-]. split; [done|by exists c]. }
  intros [|]; [|by apply does_ret]. cbn [negb].
  eapply (does_bind _ _ _ _ (fun _ r => uses_sandbox id r /\ exists c, app_config cfg = Some c /\ is_host_bash_allowed c = true)).
  { intros rt [U C]. eapply always_weaken; [|exact (directories_do id rt U)]. intros [[[]|?] r]; cbn; [by split|done]. }
  intros [] rt [U C]. unfold mbind, M_bind. cbn. destruct (local_command alnum h cfg command rt) as [q|] eqn:E; [|exact I]. cbn. split.
  - exists command. rewrite L. split; [done|]. split; [done|]. eapply local_command_ok; [apply U|exact E].
  - by intros [?|?].
Qed.

Lemma bash_does provided command : command_of req = Some command -> does allowed thread_is (bash_body alnum h cfg user provided command) (fun _ _ => True).
Proof.
  intros Asked. eapply does_bind; [exact ensure_does|]. intros id rt U. unfold mbind, M_bind. cbn.
  rewrite (local_is id rt U). destruct (local_id id) eqn:L.
  - by apply bash_local_does.
  - by apply bash_remote_does.
Qed.

Lemma answer_does rt : host_ok h -> get_thread_data rt = td -> speaker rt = who ->
  always allowed (fun _ => True) (answer alnum h cfg user req rt).
Proof.
  intros H T W.
  assert (forall A (m : M Runtime A) handler, does allowed thread_is m (fun _ _ => True) ->
    (state rt = None -> exists e, m rt = Ret (Bad e, rt)) -> always allowed (fun _ => True) (try_except m handler rt)) as G.
  { intros A m handler D N. destruct (state rt) as [st|] eqn:S; [|destruct (N eq_refl) as [e E]; unfold try_except; by rewrite E].
    eapply does_try; [exact D|]. split_and!; [by rewrite S|done|done]. }
  assert (forall A (body : string -> M Runtime A), state rt = None ->
    exists e, (id ← prepared user; body id) rt = Ret (Bad e, rt)) as N.
  { intros A body S. eexists. unfold prepared, ensure_sandbox_initialized, mbind, M_bind. cbn. by rewrite S. }
  enough (forall r, r = req -> always allowed (fun _ => True) (answer alnum h cfg user r rt)) as X by by apply X. intros r Q.
  destruct r as [p|pattern p dirs n|pattern p glob literal sensitive n|p a b|p content append|p old new every|provided command]; cbn.
  - unfold ls_tool. destruct (_is_disabled_skill_path h p user); [done|]. apply G; [apply ls_does|intros S; by apply N].
  - apply G; [apply glob_does|intros S; by apply N].
  - apply G; [apply grep_does|intros S; by apply N].
  - unfold read_file_tool. destruct (_is_disabled_skill_path h p user); [done|]. apply G; [by apply read_does|].
    intros S. eexists. unfold read_file_body, read_current_file_content, prepared, ensure_sandbox_initialized, mbind, M_bind. cbn. by rewrite S.
  - unfold write_file_tool. destruct (oversized cfg content append); [done|]. apply G; [apply write_does; by rewrite <- Q|intros S; by apply N].
  - apply G; [apply str_replace_does; by rewrite <- Q|intros S; by apply N].
  - apply G; [apply bash_does; by rewrite <- Q|]. intros S. eexists. unfold bash_body, ensure_sandbox_initialized, mbind, M_bind. cbn. by rewrite S.
Qed.

Lemma serve_does asynchronous rt : host_ok h -> get_thread_data rt = td -> speaker rt = who ->
  always allowed (fun _ => True) (serve alnum h cfg user asynchronous req rt).
Proof.
  intros H T W. destruct asynchronous; [|by apply answer_does]. unfold serve, _run_sync_tool_after_async_sandbox_init.
  destruct (state rt) as [st|] eqn:S.
  - eapply always_bind with (Q := fun r : outcome string * Runtime => match r.1 with Good id => uses_sandbox id r.2 | Bad _ => True end);
      [apply ensure_does; split_and!; [by rewrite S|done|done]|]. intros [[id|e] rt']; cbn; [|done].
    intros [(_ & T' & W') _]. by apply answer_does.
  - unfold ensure_sandbox_initialized, mbind, M_bind. cbn. by rewrite S.
Qed.

End tools.

(** C19: whatever tool the model calls with whatever arguments, directly or from a
    coroutine, and whatever the provider, the sandbox and the file system answer:
    every file call that reaches a local sandbox is on a path resolved into one
    of the thread's own directories, on a mounted virtual path without [..], or,
    for reading only, below the skills or the agent workspace of this very
    thread; only the two tools that write make a call that writes; only the
    thread's directories are created; and only [bash] runs a command: the one that
    was asked for, after its validation and where the operator allows host
    commands, its virtual paths replaced, behind the export of the speaker's id
    and the change into the thread's workspace and nothing else.  The host's own
    directories are POSIX paths. *)
Theorem sandbox_tools_confined {World} (provider : forall c : call, World -> reply c * World) alnum h cfg user from_coroutine r rt w :
  host_ok h -> Forall (allowed alnum h cfg user (get_thread_data rt) (speaker rt) r)
                      (calls_made provider (serve alnum h cfg user from_coroutine r rt) w).
Proof. intros H. eapply always_calls. by apply serve_does. Qed.

(** ** Examples *)

Definition example_settings : Settings := {|
  app_config := Some None; config_failure := runtime_error ""; tool_max_results := fun _ => None; write_file_max_bytes := None;
  is_windows := false |}.
Definition example_runtime : Runtime := {|
  state := Some {| sandbox := Some (Some "local"); thread_data := Some example_thread; thread_directories_created := true |};
  context := Some []; config_thread_id := Some "t" |}.

(** A provider that has every sandbox, where every file is empty. *)
Definition example_provider (c : call) (w : unit) : reply c * unit :=
  (match c return reply c with
   | Acquire _ _ => Good "local"
   | GetSandbox _ => true
   | MakeDirs _ => Good tt
   | ExecuteCommand _ _ _ _ => Good ""
   | ListDir _ _ => Good []
   | Glob _ _ _ _ _ => Good ([], false)
   | Grep _ _ _ _ _ _ _ => Good ([], false)
   | ReadFile _ _ => Good ""
   | WriteFile _ _ _ _ => Good tt
   end, w).

Definition example_calls (r : request) : list call :=
  calls_made example_provider (answer (fun _ => false) example_host example_settings "u" r example_runtime) tt.
Definition example_answer (r : request) : string :=
  (run example_provider (answer (fun _ => false) example_host example_settings "u" r example_runtime) tt).1.

Lemma example_host_ok : host_ok example_host.
Proof. split_and!; [intros dir [= <-]; by vm_compute|by vm_compute|intros t dir [= <-]; by vm_compute]. Qed.

Definition example_bash : request := Bash None "cat /mnt/user-data/workspace/a.txt".
Definition example_speaker : Runtime := {|
  state := state example_runtime; context := Some [("channel_user_id", JStr "u1")]; config_thread_id := Some "t" |}.
Definition example_trusting : Settings := {|
  app_config := Some (Some {| use := "deerflow.sandbox.local:LocalSandboxProvider"; allow_host_bash := true; bash_output_max_chars := 20000;
                              read_file_output_max_chars := 50000; ls_output_max_chars := 20000; bash_command_timeout := 600 |});
  config_failure := runtime_error ""; tool_max_results := fun _ => None; write_file_max_bytes := None; is_windows := false |}.

(** A file written, a path refused, and a command run. *)
Lemma sandbox_tools_confined_witness :
  let r := Write "/mnt/user-data/outputs/a.txt" "hello" false in
  (Forall (allowed (fun _ => false) example_host example_settings "u" (Some example_thread) None r) (example_calls r) /\
   example_calls r = [WriteFile "local" "/srv/t/user-data/outputs/a.txt" "hello" false; GetSandbox "local"] /\
   example_calls (Write "/mnt/user-data/../a.txt" "hello" false) = [GetSandbox "local"]) /\
  let calls := calls_made example_provider
    (answer (fun _ => false) example_host example_trusting "u" example_bash example_speaker) tt in
  Forall (allowed (fun _ => false) example_host example_trusting "u" (Some example_thread) (Some (JStr "u1")) example_bash) calls /\
  calls = [ExecuteCommand "local"
             "export DEERFLOW_CHANNEL_USER_ID=u1; cd /srv/t/user-data/workspace && cat /srv/t/user-data/workspace/a.txt" None (Some 600);
           GetSandbox "local"].
Proof.
  intros r. split; [split; [|split; by vm_compute]|].
  - exact (sandbox_tools_confined example_provider (fun _ => false) example_host example_settings "u" false r example_runtime tt example_host_ok).
  - intros calls. split; [|by vm_compute].
    exact (sandbox_tools_confined example_provider (fun _ => false) example_host example_trusting "u" false example_bash example_speaker tt example_host_ok).
Defined.

(** A mount can be listed and read, not searched: the search resolves its path as
    user data. *)
Lemma mounts_not_searched :
  example_calls (Ls "/mnt/shared/d") = [ListDir "local" "/mnt/shared/d"; GetSandbox "local"] /\
  example_calls (Read "/mnt/shared/d/f" None None) = [ReadFile "local" "/mnt/shared/d/f"; GetSandbox "local"] /\
  example_calls (GlobFor "*.md" "/mnt/shared/d" false 10) = [GetSandbox "local"] /\
  example_answer (GlobFor "*.md" "/mnt/shared/d" false 10) = "Error: Permission denied: /mnt/shared/d".
Proof. by vm_compute. Qed.

(** The files of a disabled skill are blocked under its plain path only; and a
    search does not ask. *)
Lemma disabled_skill_read :
  example_calls (Read "/mnt/skills/public/deploy/SKILL.md" None None) = [] /\
  example_calls (Read "/mnt/skills/./public/deploy/SKILL.md" None None) =
    [ReadFile "local" "/srv/skills/./public/deploy/SKILL.md"; GetSandbox "local"] /\
  example_calls (GrepFor "token" "/mnt/skills/public/deploy" None true true 10) =
    [Grep "local" "/mnt/skills/public/deploy" "token" None true true 10; GetSandbox "local"].
Proof. by vm_compute. Qed.

(** An empty file is answered as if the replacement had been made. *)
Lemma replace_in_empty_file :
  example_answer (StrReplace "/mnt/user-data/outputs/a.txt" "old" "new" false) = "OK" /\
  example_calls (StrReplace "/mnt/user-data/outputs/a.txt" "old" "new" false) =
    [ReadFile "local" "/srv/t/user-data/outputs/a.txt"; GetSandbox "local"].
Proof. by vm_compute. Qed.

(** Only the first of several occurrences is replaced. *)
Lemma replaces_first_of_many : replace_once "a" "b" "a a" = "b a".
Proof. by vm_compute. Qed.

End SandboxSafety.
