(* ===== verification/SearchSafety.v ===== *)
(** * What a search finds

    The theorems about [FileSearch]: a search finds exactly what matches below
    its root, ignored names and links apart, up to its limit; a listing stays
    below its root. *)
From S2P Require Import Prelude Json Text Slices PosixPaths SandboxPaths SandboxOutput SandboxCalls FileSearch.
Import Json Text Slices PosixPaths SandboxPaths SandboxOutput SandboxCalls FileSearch.

Module SearchSafety.

(** ** Below a directory *)

(** From a node, through directories that can be read and names that are not
    ignored; never through a link. *)
Inductive reaches : node -> list string -> node -> Prop :=
  | reaches_here n : reaches n [] n
  | reaches_below es x m names n :
      (x, m) ∈ es -> should_ignore_name x = false -> reaches m names n -> reaches (Dir (Some es)) (x :: names) n.

Section node_rect.
Context (P : node -> Prop) (HR : forall size data, P (Regular size data)) (HL : forall target d, P (Link target d))
        (HN : P (Dir None)) (HD : forall es, Forall (fun e => P e.2) es -> P (Dir (Some es))).

Fixpoint node_induction (n : node) : P n :=
  match n with
  | Regular size data => HR size data
  | Link target d => HL target d
  | Dir None => HN
  | Dir (Some es) =>
      HD es ((fix all (es : list (string * node)) : Forall (fun e => P e.2) es :=
                match es with
                | [] => @List.Forall_nil _ _
                | e :: es => @List.Forall_cons _ _ e es (node_induction e.2) (all es)
                end) es)
  end.
End node_rect.

Definition step_at (rel : list string) (es : list (string * node)) : step :=
  {| rel_dir := rel; dirs := List.filter (fun e => is_dir e.2 && kept e) es; files := List.filter (fun e => negb (is_dir e.2)) es |}.

Lemma walk_below rel es s :
  s ∈ walk rel (Dir (Some es)) <->
  s = step_at rel es \/ exists x m, (x, m) ∈ es /\ should_ignore_name x = false /\ s ∈ walk (rel ++ [x]) m.
Proof.
  cbn [walk]. rewrite elem_of_cons. fold (step_at rel es). f_equiv. generalize rel. clear rel. intros rel.
  induction es as [|[x m] es IH]; [split; [by intros ?%elem_of_nil|by intros (? & ? & ?%elem_of_nil & _)]|].
  rewrite elem_of_app, IH. split.
  - intros [H|(y & m' & H & I & W)].
    + destruct (should_ignore_name x) eqn:E; [by apply elem_of_nil in H|]. exists x, m. split; [left|done].
    + exists y, m'. split; [by right|done].
  - intros (y & m' & [[= -> ->]|H]%elem_of_cons & I & W); [left; by rewrite I|right; by exists y, m'].
Qed.

(** The walk visits exactly the directories that are reached. *)
Lemma walk_spec n : forall rel s,
  s ∈ walk rel n <-> exists names es, reaches n names (Dir (Some es)) /\ s = step_at (rel ++ names) es.
Proof.
  induction n as [size data|target d| |es IH] using node_induction; intros rel s.
  1-3: split; [by intros ?%elem_of_nil|]; intros (names & es & R & _); inversion R.
  rewrite walk_below. split.
  - intros [->|(x & m & H & I & W)]; [exists [], es; split; [constructor|by rewrite app_nil_r]|].
    rewrite Forall_forall in IH. apply (IH _ H) in W as (names & es' & R & ->).
    exists (x :: names), es'. split; [by econstructor|]. by rewrite <- app_assoc.
  - intros (names & es' & R & ->). inversion R as [|es0 x m names' n' H I R']; subst; [left; by rewrite app_nil_r|].
    right. exists x, m. split_and!; [done..|]. rewrite Forall_forall in IH. apply (IH _ H). exists names', es'. split; [done|].
    by rewrite <- app_assoc.
Qed.

(** The entries the walk looks at are those that are reached. *)
Lemma reaches_snoc n names x m : reaches n (names ++ [x]) m <->
  exists es, reaches n names (Dir (Some es)) /\ (x, m) ∈ es /\ should_ignore_name x = false.
Proof.
  revert n. induction names as [|y names IH]; intros n; cbn [app].
  - split.
    + intros R. inversion R as [|es ? m' ? ? H I R']; subst. inversion R'; subst. exists es. by split; [constructor|].
    + intros (es & R & H & I). inversion R; subst. econstructor; [done|done|constructor].
  - split.
    + intros R. inversion R as [|es ? m' ? ? H I R']; subst. apply IH in R' as (es' & R' & K). exists es'. split; [|done]. by econstructor.
    + intros (es & R & K). inversion R as [|es0 ? m' ? ? H I R']; subst. econstructor; [done..|]. apply IH. by exists es.
Qed.

(** ** The limit *)

Definition limit (max_results : Z) : nat := Z.to_nat (Z.max 1 max_results).

Lemma gather_spec {A} max_results (fs : list (list A)) : forall acc, (length acc < limit max_results)%nat ->
  let all := acc ++ concat fs in
  gather max_results acc (map Good fs) =
  if (limit max_results <=? length all)%nat then Good (take (limit max_results) all, true) else Good (all, false).
Proof.
  induction fs as [|found fs IH]; intros acc L; cbn [map gather concat].
  - rewrite app_nil_r. destruct (Nat.leb_spec (limit max_results) (length acc)); [lia|done].
  - revert acc L. induction found as [|m found IHf]; intros acc L; [by apply IH|].
    assert (acc ++ (m :: found) ++ concat fs = (acc ++ [m]) ++ found ++ concat fs) as -> by by rewrite <- app_assoc.
    destruct (Z.leb_spec max_results (Z.of_nat (length (acc ++ [m])))) as [H|H].
    + assert (limit max_results = length (acc ++ [m])) as E by (unfold limit in *; rewrite length_app in *; cbn in *; lia).
      rewrite E, (proj2 (Nat.leb_le _ _)) by (rewrite (length_app (acc ++ [m])); lia).
      rewrite take_app_le, take_ge by lia. done.
    + apply IHf. unfold limit in *. rewrite length_app in *. cbn in *. lia.
Qed.

Lemma gather_good {A B} max_results (f : B -> list A) (l : list B) :
  gather max_results [] (map (fun v => Good (f v)) l) =
  Good (take (limit max_results) (flat_map f l), (limit max_results <=? length (flat_map f l))%nat).
Proof.
  rewrite <- (map_map f Good). rewrite gather_spec by (unfold limit; cbn; lia). cbn [app]. rewrite <- flat_map_concat_map.
  destruct (Nat.leb_spec (limit max_results) (length (flat_map f l))); [done|]. by rewrite take_ge by lia.
Qed.

(** ** The candidates *)

(** A pattern that names something: [match] raises otherwise. *)
Definition names_something (p : path) : bool := negb (PosixPaths.root p =? "")%string || negb (bool_decide (tail p = [])).
Definition usable (pattern : string) : bool :=
  names_something (parse pattern) &&
  (negb (starts_with "**/" pattern) || names_something (parse (drop_prefix "**/" pattern))).

Lemma pure_match_good pattern rel : names_something (parse pattern) = true -> exists b, pure_match pattern rel = Good b.
Proof.
  unfold names_something, pure_match. destruct (PosixPaths.root (parse pattern) =? "")%string; [|by eexists]. cbn [negb orb].
  destruct (tail (parse pattern)); [by rewrite bool_decide_true|by eexists].
Qed.

Lemma path_matches_good pattern rel : usable pattern = true -> exists b, path_matches pattern rel = Good b.
Proof.
  unfold usable, path_matches. rewrite andb_true_iff, orb_true_iff, negb_true_iff. intros [U V].
  destruct (pure_match_good pattern rel U) as [[] ->]; [by eexists|]. destruct V as [->|V]; [by eexists|].
  destruct (starts_with _ _); [|by eexists]. by apply pure_match_good.
Qed.

Lemma kept_ok e : kept e = true <-> should_ignore_name e.1 = false.
Proof. unfold kept. by rewrite negb_true_iff. Qed.

(** ** What a search goes over *)

#[local] Opaque should_ignore_name.

Definition at_ (rel : list string) (e : string * node) : list string * node := (rel ++ [e.1], e.2).

(** Everything below a directory with the names that lead to it: its directories
    (and links to some), its other entries, and then what is below each of its
    directories, all in the order of the entries and without ignored names. *)
Fixpoint visited (rel : list string) (n : node) : list (list string * node) :=
  match n with
  | Dir (Some es) =>
      map (at_ rel) (List.filter (fun e => is_dir e.2 && negb (should_ignore_name e.1)) es) ++
      map (at_ rel) (List.filter (fun e => negb (is_dir e.2) && negb (should_ignore_name e.1)) es) ++
      flat_map (fun e => if should_ignore_name e.1 then [] else visited (rel ++ [e.1]) e.2) es
  | _ => []
  end.

Definition deeper (rel : list string) (e : string * node) : list (list string * node) :=
  if should_ignore_name e.1 then [] else visited (rel ++ [e.1]) e.2.

Lemma visited_dir rel es : visited rel (Dir (Some es)) =
  map (at_ rel) (List.filter (fun e => is_dir e.2 && negb (should_ignore_name e.1)) es) ++
  map (at_ rel) (List.filter (fun e => negb (is_dir e.2) && negb (should_ignore_name e.1)) es) ++ flat_map (deeper rel) es.
Proof. reflexivity. Qed.

Definition step_entries (s : step) : list (list string * node) :=
  map (at_ (rel_dir s)) (dirs s) ++ map (at_ (rel_dir s)) (List.filter kept (files s)).

Lemma visited_walk n : forall rel, visited rel n = flat_map step_entries (walk rel n).
Proof.
  induction n as [size data|target d| |es IH] using node_induction; intros rel; [done..|]. cbn [visited walk flat_map].
  unfold step_entries at 1. cbn [rel_dir dirs files]. rewrite filter_filter. unfold kept. rewrite <- app_assoc. f_equal. f_equal.
  induction IH as [|[x m] es H _ IHes]; [done|]. cbn [flat_map]. rewrite flat_map_app. cbn [fst snd] in H |- *. rewrite <- IHes. f_equal.
  destruct (should_ignore_name x); [done|apply H].
Qed.

Lemma in_steps {A} (f : step -> list A) x l : x ∈ flat_map f l <-> exists s, s ∈ l /\ x ∈ f s.
Proof. rewrite list_elem_of_In, in_flat_map. split; intros (s & H & X); exists s; by rewrite <- !list_elem_of_In in *. Qed.

(** Exactly what is reached. *)
Lemma visited_reached tree names n : (names, n) ∈ visited [] tree <-> names <> [] /\ reaches tree names n.
Proof.
  rewrite visited_walk, in_steps. split.
  - intros (s & (rel & es & R & ->)%walk_spec & H). unfold step_entries in H. cbn in H. apply elem_of_app in H as [H|H].
    + apply list_elem_of_fmap in H as ([x m] & [= -> ->] & H). apply filter_elem in H as [H [_ K%kept_ok]%andb_true_iff].
      split; [by destruct rel|]. apply reaches_snoc. by exists es.
    + apply list_elem_of_fmap in H as ([x m] & [= -> ->] & H). apply filter_elem in H as [H K%kept_ok]. apply filter_elem in H as [H _].
      split; [by destruct rel|]. apply reaches_snoc. by exists es.
  - intros [N R]. destruct names as [|x rel _] using rev_ind; [done|]. apply reaches_snoc in R as (es & R & H & I).
    exists (step_at rel es). split; [apply walk_spec; by exists rel, es|]. unfold step_entries. cbn. apply elem_of_app.
    assert (kept (x, n) = true) as K by by apply kept_ok. destruct (is_dir n) eqn:D; [left|right]; apply list_elem_of_fmap; exists (x, n); (split; [done|]).
    + apply filter_elem. cbn [snd]. by rewrite D, K.
    + apply filter_elem. split; [|done]. apply filter_elem. cbn [snd]. by rewrite D.
Qed.

(** The names in every directory are different, as those of a file system are. *)
Inductive distinct : node -> Prop :=
  | distinct_file size data : distinct (Regular size data)
  | distinct_link target d : distinct (Link target d)
  | distinct_unread : distinct (Dir None)
  | distinct_dir es : NoDup (map fst es) -> (forall x m, (x, m) ∈ es -> distinct m) -> distinct (Dir (Some es)).

Lemma visited_below n : forall rel v, v ∈ visited rel n -> exists x names, v.1 = rel ++ x :: names.
Proof.
  intros rel v H. rewrite visited_walk in H. apply in_steps in H as (s & (names & es & _ & ->)%walk_spec & H). unfold step_entries in H. cbn in H.
  assert (exists e, v = at_ (rel ++ names) e) as [[x m] ->]
    by (apply elem_of_app in H as [H|H]; apply list_elem_of_fmap in H as (e & -> & _); by exists e).
  cbn. destruct names as [|y names]; [exists x, []; by rewrite app_nil_r|]. exists y, (names ++ [x]). by rewrite <- app_assoc.
Qed.

(** Nothing is visited twice. *)
Lemma visited_once n : distinct n -> forall rel, NoDup (map fst (visited rel n)).
Proof.
  induction n as [size data|target d| |es IH] using node_induction; intros D rel; [constructor..|]. inversion D as [| | |es0 N Sub]; subst.
  rewrite visited_dir, !map_app, !map_map. cbn [at_ fst].
  assert (forall f : string * node -> bool, NoDup (map (fun e => rel ++ [e.1]) (List.filter f es))) as Level.
  { intros f. rewrite <- (map_map fst (fun x => rel ++ [x])). apply NoDup_fmap_2; [intros a b E; by apply app_inv_head in E; injection E|].
    clear -N. induction es as [|e es IH]; [constructor|]. cbn in N |- *. apply NoDup_cons in N as [Ne N]. destruct (f e); [|by apply IH].
    cbn. apply NoDup_cons. split; [|by apply IH]. intros (e' & E & H)%list_elem_of_fmap. apply filter_elem in H as [H _]. destruct Ne.
    rewrite E. by apply list_elem_of_fmap_2. }
  assert (forall es', (forall e, e ∈ es' -> e ∈ es) -> NoDup (map fst es') ->
    NoDup (map fst (flat_map (deeper rel) es')) /\
    forall v, v ∈ flat_map (deeper rel) es' -> exists x y names, x ∈ map fst es' /\ v.1 = rel ++ x :: y :: names) as Deep.
  { induction es' as [|[x m] es' IHes]; intros S N'; [split; [constructor|by intros v ?%elem_of_nil]|]. cbn in N'. apply NoDup_cons in N' as [Nx N'].
    destruct (IHes ltac:(intros e He; apply S; by right) N') as [Nd In]. rewrite Forall_forall in IH.
    assert (forall v, v ∈ deeper rel (x, m) -> exists y names, v.1 = rel ++ x :: y :: names) as Here.
    { intros v Hv. unfold deeper in Hv. cbn in Hv. destruct (should_ignore_name x); [by apply elem_of_nil in Hv|]. apply visited_below in Hv as (y & names & ->).
      exists y, names. by rewrite <- app_assoc. }
    split.
    - cbn [flat_map]. rewrite map_app. apply NoDup_app. split_and!; [| |exact Nd].
      + unfold deeper. cbn. destruct (should_ignore_name x); [constructor|]. apply (IH (x, m)); [apply S; left|]. apply (Sub x), S. left.
      + intros k (v & -> & Hv)%list_elem_of_fmap (v' & E & Hv')%list_elem_of_fmap. apply Here in Hv as (y & ns & E1). apply In in Hv' as (x' & y' & ns' & Hx & E2).
        rewrite E1, E2 in E. apply app_inv_head in E. by injection E as -> _.
    - intros v [Hv|Hv]%elem_of_app.
      + apply Here in Hv as (y & ns & E). exists x, y, ns. split; [left|done].
      + apply In in Hv as (x' & y & ns & Hx & E). exists x', y, ns. split; [by right|done]. }
  destruct (Deep es ltac:(done) N) as [Nd In].
  set (deep := flat_map (deeper rel) es) in *.
  assert (forall f k, k ∈ map (fun e : string * node => rel ++ [e.1]) (List.filter f es) -> k ∉ map fst deep) as Apart;
    [intros f k (e & -> & _)%list_elem_of_fmap (v & E & (x & y & ns & _ & E2)%In)%list_elem_of_fmap; rewrite E2 in E; by apply app_inv_head in E|].
  apply NoDup_app. split_and!; [apply Level| |apply NoDup_app; split_and!; [apply Level|intros k; apply Apart|exact Nd]].
  intros k Hk [Hk'|Hk']%elem_of_app; [|by eapply Apart]. apply list_elem_of_fmap in Hk as ([x m] & -> & [H [Dm _]%andb_true_iff]%filter_elem).
  apply list_elem_of_fmap in Hk' as ([x' m'] & E & [H' [Dm' _]%andb_true_iff]%filter_elem). apply app_inv_head in E. cbn in *. injection E as <-.
  assert (m = m') as <-; [|by rewrite Dm in Dm']. clear -N H H'. induction es as [|[y w] es IH]; [by apply elem_of_nil in H|]. cbn in N. apply NoDup_cons in N as [Ny N].
  assert (forall v, (y, v) ∉ es) as None_ by (intros v Hv; apply Ny, list_elem_of_fmap; by exists (y, v)).
  apply elem_of_cons in H as [E|H]; apply elem_of_cons in H' as [E'|H']; [congruence| | |by apply IH].
  - injection E as -> ->. by destruct (None_ m').
  - injection E' as -> ->. by destruct (None_ m).
Qed.

(** ** All that matches *)

Definition name_matches (pattern : string) (names : list string) : bool :=
  match path_matches pattern (as_posix names) with Good b => b | Bad _ => false end.

(** By name. *)
Definition named (root pattern : string) (include_dirs : bool) (tree : node) : list string :=
  map (fun v => below root v.1)
    (List.filter (fun v => (include_dirs || negb (is_dir v.2)) && name_matches pattern v.1) (visited [] tree)).

(** The lines of a file, the first with number [n], that are found and have at
    most 2000 characters. *)
Fixpoint found_lines_from (n : Z) (found : string -> bool) (file : string) (lines : list string) : list GrepMatch :=
  match lines with
  | [] => []
  | l :: lines =>
      if (len l <=? 2000) && found l
      then {| match_path := file; line_number := n; line := truncate_line l 200 |} :: found_lines_from (n + 1) found file lines
      else found_lines_from (n + 1) found file lines
  end.

(** And by content: those of every text file of at most a million bytes whose name
    matches. *)
Definition lines_found (decode : string -> string) (glob_pattern : option string) (found : string -> bool) (root : string) (tree : node)
    : list GrepMatch :=
  flat_map (fun v =>
    if match glob_pattern with Some p => name_matches p v.1 | None => true end
    then match v.2 with
         | Regular size (Some data) =>
             if (size <=? 1000000) && negb (is_binary_file (Some data))
             then found_lines_from 1 found (below root v.1) (file_lines "" (decode data)) else []
         | _ => []
         end
    else []) (visited [] tree).

Lemma grep_lines_is found file lines : forall n, grep_lines found file n lines = found_lines_from n found file lines.
Proof.
  induction lines as [|l lines IH]; intros n; [done|]. cbn [grep_lines found_lines_from]. change (DEFAULT_LINE_SUMMARY_LENGTH * 10) with 2000.
  change DEFAULT_LINE_SUMMARY_LENGTH with 200. rewrite IH. by destruct (len l <=? 2000), (found l).
Qed.

(** A search of [all], from a root that is a directory. *)
Definition searched {A} (at_path : string -> option node) (root : string) (max_results : Z) (all : node -> list A)
    (o : outcome (list A * bool)) : Prop :=
  match at_path root with
  | None => exists f, o = Bad f /\ kind f = FileNotFoundError
  | Some (Dir _ as tree) => o = Good (take (limit max_results) (all tree), (limit max_results <=? length (all tree))%nat)
  | Some _ => exists f, o = Bad f /\ kind f = NotADirectoryError
  end.

Lemma name_matches_ok pattern names : usable pattern = true -> path_matches pattern (as_posix names) = Good (name_matches pattern names).
Proof. intros U. unfold name_matches. by destruct (path_matches_good pattern (as_posix names) U) as [b ->]. Qed.

Lemma flat_map_filter {A B} (f : A -> bool) (g : A -> B) l : flat_map (fun v => if f v then [g v] else []) l = map g (List.filter f l).
Proof. induction l as [|x l IH]; [done|]. cbn. by destruct (f x); cbn; rewrite IH. Qed.

Lemma map_filter_all {A B} (f : A -> bool) (g : A -> B) l : Forall (fun x => f x = true) l -> map g (List.filter f l) = map g l.
Proof. induction 1 as [|x l E _ IH]; [done|]. cbn. rewrite E. cbn. by rewrite IH. Qed.
Lemma walk_sorts rel n s : s ∈ walk rel n -> Forall (fun e => is_dir e.2 = true) (dirs s) /\ Forall (fun e => is_dir e.2 = false) (files s).
Proof.
  intros (names & es & _ & ->)%walk_spec. split; apply Forall_forall; intros e [_ H]%filter_elem; [by apply andb_true_iff in H as [H _]|by apply negb_true_iff].
Qed.

Lemma glob_spec root pattern include_dirs max_results tree : usable pattern = true ->
  gather max_results [] (flat_map (glob_step root pattern include_dirs) (walk [] tree)) =
  Good (take (limit max_results) (named root pattern include_dirs tree),
        (limit max_results <=? length (named root pattern include_dirs tree))%nat).
Proof.
  intros U. unfold named. rewrite <- filter_filter. rewrite <- flat_map_filter.
  rewrite <- gather_good. f_equal. rewrite visited_walk.
  assert (forall l, (forall s, s ∈ l -> s ∈ walk [] tree) -> flat_map (glob_step root pattern include_dirs) l =
    map (fun v => Good (if name_matches pattern v.1 then [below root v.1] else []))
      (List.filter (fun v => include_dirs || negb (is_dir v.2)) (flat_map step_entries l))) as G; [|by apply G].
  induction l as [|s l IH]; intros S; [done|]. cbn [flat_map]. rewrite IH by (intros s' Hs; apply S; by right).
  rewrite List.filter_app, map_app. f_equal. clear IH. destruct (walk_sorts [] tree s) as [D F]; [apply S; left|].
  assert (forall e, glob_entry root pattern (rel_dir s) e = Good (if name_matches pattern (at_ (rel_dir s) e).1 then [below root (at_ (rel_dir s) e).1] else [])) as E.
  { intros e. unfold glob_entry. rewrite name_matches_ok by done. cbn. by destruct (name_matches _ _). }
  assert (forall l, map (glob_entry root pattern (rel_dir s)) l =
    map (fun v => Good (if name_matches pattern v.1 then [below root v.1] else [])) (map (at_ (rel_dir s)) l)) as M.
  { intros l'. rewrite map_map. apply map_ext. exact E. }
  unfold glob_step, step_entries. rewrite List.filter_app, map_app. f_equal.
  - destruct include_dirs; cbn [orb].
    + rewrite (map_filter_all (fun _ => true)) by (by apply Forall_forall). apply M.
    + rewrite filter_none; [done|]. intros v (e & -> & H)%list_elem_of_fmap. rewrite Forall_forall in D. cbn. by rewrite (D e H).
  - rewrite (map_filter_all (fun v => include_dirs || negb (is_dir v.2))); [apply M|]. apply Forall_forall. intros v (e & -> & [H _]%filter_elem)%list_elem_of_fmap. rewrite Forall_forall in F. cbn.
    rewrite (F e H). by rewrite orb_true_r.
Qed.

Lemma grep_spec decode root glob_pattern found max_results tree : (forall p, glob_pattern = Some p -> usable p = true) ->
  gather max_results []
    (flat_map (fun s => map (grep_entry decode root glob_pattern found (rel_dir s)) (List.filter kept (files s))) (walk [] tree)) =
  Good (take (limit max_results) (lines_found decode glob_pattern found root tree),
        (limit max_results <=? length (lines_found decode glob_pattern found root tree))%nat).
Proof.
  intros U. unfold lines_found. set (f := fun v : list string * node => _ : list GrepMatch).
  assert (flat_map f (visited [] tree) = flat_map f (flat_map (fun s => map (at_ (rel_dir s)) (List.filter kept (files s))) (walk [] tree))) as ->.
  { rewrite visited_walk. assert (forall l, (forall s, s ∈ l -> s ∈ walk [] tree) -> flat_map f (flat_map step_entries l) =
      flat_map f (flat_map (fun s => map (at_ (rel_dir s)) (List.filter kept (files s))) l)) as G; [|by apply G].
    induction l as [|s l IH]; intros S; [done|]. cbn [flat_map]. rewrite !flat_map_app, IH by (intros s' Hs; apply S; by right). f_equal.
    unfold step_entries. rewrite flat_map_app. assert (flat_map f (map (at_ (rel_dir s)) (dirs s)) = []) as ->; [|done].
    destruct (walk_sorts [] tree s) as [D _]; [apply S; left|]. induction D as [|[x m] ds Dm _ IHd]; [done|]. cbn [map flat_map]. rewrite IHd, app_nil_r.
    subst f. cbn in Dm |- *. destruct m; [done|by destruct (match glob_pattern with Some _ => _ | None => _ end)..]. }
  rewrite <- gather_good. f_equal. induction (walk [] tree) as [|s l IH]; [done|]. cbn [flat_map]. rewrite map_app, IH. f_equal. rewrite map_map.
  apply map_ext. intros e. unfold grep_entry. subst f. cbn [at_ fst snd].
  assert (match glob_pattern with Some p => path_matches p (as_posix (rel_dir s ++ [e.1])) | None => Good true end =
    Good match glob_pattern with Some p => name_matches p (rel_dir s ++ [e.1]) | None => true end) as ->.
  { destruct glob_pattern as [p|]; [|done]. apply name_matches_ok. by apply U. }
  destruct (match glob_pattern with Some p => _ | None => true end); [|done]. destruct e.2 as [size [data|]| |]; try done.
  rewrite grep_lines_is. change DEFAULT_MAX_FILE_SIZE_BYTES with 1000000. rewrite Z.ltb_antisym. destruct (size <=? 1000000), (is_binary_file _); done.
Qed.


(** ** Examples *)

Definition example_tree : node :=
  Dir (Some [("notes.md", Regular 30 (Some ("first" +:+ newline +:+ "find me" +:+ newline)));
             ("node_modules", Dir (Some [("x.md", Regular 1 (Some "find me"))]));
             ("passwd.md", Link (Some "/etc/passwd") false);
             ("src", Dir (Some [("a.md", Regular 8 (Some "find me too")); ("deep", Dir (Some [("b.md", Regular 1 (Some ""))]))]))]).
Definition example_at (p : string) : option node := if (p =? "/srv/t")%string then Some example_tree else None.


(** ** The listing *)

(** What is listed is an entry that is reached, at most that deep, or where a
    link among those resolves to, when that is below the root. *)
Lemma traverse_spec root n : forall rel left p, p ∈ traverse root rel left n ->
  exists names m, names <> [] /\ Z.of_nat (length names) <= left /\ reaches n names m /\
    match m with
    | Link target d => exists t, target = Some t /\ within_root root t = true /\ p = listed t d
    | _ => p = listed (below root (rel ++ names)) (is_dir m)
    end.
Proof.
  induction n as [size data|target d| |es IH] using node_induction; intros rel left p; [by intros ?%elem_of_nil..|].
  cbn [traverse]. destruct (Z.leb_spec left 0) as [|L]; [by intros ?%elem_of_nil|].
  assert (forall l, (forall e, e ∈ l -> e ∈ es) ->
    p ∈ (fix items (es : list (string * node)) : list string :=
         match es with
         | [] => []
         | (x, m) :: es =>
             (if should_ignore_name x then []
              else match m with
                   | Link None _ => []
                   | Link (Some target) d => if within_root root target then [listed target d] else []
                   | _ => listed (below root (rel ++ [x])) (is_dir m) :: traverse root (rel ++ [x]) (left - 1) m
                   end) ++ items es
         end) l ->
    exists x m, (x, m) ∈ es /\ should_ignore_name x = false /\
      match m with
      | Link target d => exists t, target = Some t /\ within_root root t = true /\ p = listed t d
      | _ => p = listed (below root (rel ++ [x])) (is_dir m) \/ p ∈ traverse root (rel ++ [x]) (left - 1) m
      end) as G.
  { intros l. induction l as [|[x m] l IHl]; intros S; [by intros ?%elem_of_nil|]. intros [H|H]%elem_of_app.
    - exists x, m. split; [apply S; left|]. destruct (should_ignore_name x); [by apply elem_of_nil in H|]. split; [done|].
      destruct m as [size data|[t|] d|es']; [by apply elem_of_cons in H| |by apply elem_of_nil in H|by apply elem_of_cons in H].
      destruct (within_root root t) eqn:W; [|by apply elem_of_nil in H]. apply list_elem_of_singleton in H. by exists t.
    - apply IHl; [|done]. intros e He. apply S. by right. }
  intros (x & m & H & I & M)%G; [|done]. rewrite Forall_forall in IH.
  assert (p = listed (below root (rel ++ [x])) (is_dir m) \/ p ∈ traverse root (rel ++ [x]) (left - 1) m \/ (exists target d, m = Link target d)) as C
    by (destruct m; naive_solver).
  destruct C as [C|[C|(target & d & ->)]].
  - destruct m as [| |]; cbn in M.
    all: exists [x]; eexists; split_and!; [done|cbn; lia|econstructor; [done|done|constructor]|]; try done.
  - apply (IH _ H) in C as (names & m' & N & Le & R & Q). exists (x :: names), m'. split_and!; [done|cbn; lia|by econstructor|].
    by rewrite <- app_assoc in Q.
  - exists [x], (Link target d). split_and!; [done|cbn; lia|econstructor; [done|done|constructor]|done].
Qed.

End SearchSafety.
