(* ===== verification/ToolResults.v ===== *)
(** * What a tool result means

    [deerflow/agents/middlewares/tool_result_meta.py]: every result of a tool is
    classified once, from its status and its text, and carries the
    classification to the middlewares outside. *)
From S2P Require Import Prelude Json Errors Text Slices JsonText Sha256 PosixPaths BashGuard.
Import Json Text JsonText.

Module ToolResults.

Record ToolMessage := {
  content : json;
  status : string;
  additional_kwargs : dict;
  tool_call_id : string;
  message_name : string
}.

(** A message of the conversation, as far as tools go. *)
Inductive message := Tool (m : ToolMessage) | Other (j : json).

(** What a tool returns: its message, or a command with an update of the
    conversation ([None] where it has no messages). *)
Inductive result := Message (m : ToolMessage) | Command (messages : option (list message)).

Definition with_kwargs (kwargs : dict) (m : ToolMessage) : ToolMessage :=
  {| content := content m; status := status m; additional_kwargs := kwargs; tool_call_id := tool_call_id m; message_name := message_name m |}.

Definition TOOL_META_KEY : string := "deerflow_tool_meta".
Definition _ERROR_PREFIX : string := "Error:".
Definition _PARTIAL_MARKERS : list string :=
  ["partial results"; "limited results"; "truncated"; "results may be incomplete"; "no results found"; "no content found"; "no images found"].

(** [error_type], [recoverable_by_model] and [recommended_next_action]. *)
Definition attrs : Type := string * bool * string.

Definition _ERROR_RULES : list (list string * attrs) :=
  [(["401"; "403"; "unauthorized"; "authentication"; "invalid api key"], ("auth", false, "stop"));
   (["rate limit"; "rate limited"; "rate_limit"], ("rate_limited", false, "summarize"));
   (["timeout"; "timed out"; "connection"; "network error"; "temporarily unavailable"], ("transient", false, "try_alternative"));
   (["not configured"; "not installed"; "missing required"; "disabled"; "no api key"], ("config", false, "stop"));
   (["permission denied"; "access denied"; "path traversal"; "forbidden"], ("permission", true, "try_alternative"));
   (["no results found"; "no content found"; "no images found"; "no results"], ("no_results", true, "rewrite_query"));
   (["not found"; "no such file"; "does not exist"; "404"], ("not_found", true, "rewrite_query"));
   (["unexpected error"; "internal error"; "500"], ("internal", false, "stop"))].
Definition _UNKNOWN_ERROR : attrs := ("unknown", true, "try_alternative").

Definition _SEMANTIC_ZERO_ERROR_STRINGS : list string := ["none"; "null"; "false"; "no"; "ok"; "success"; "n/a"; ""].

(** [json.dumps(j)]: beyond ASCII only escapes. *)
Definition code_point (c : string) : N :=
  match map N_of_ascii (String.list_ascii_of_string c) with
  | [a] => a
  | [a; b] => ((a - 192) * 64 + (b - 128))%N
  | [a; b; d] => ((a - 224) * 4096 + (b - 128) * 64 + (d - 128))%N
  | [a; b; d; e] => ((a - 240) * 262144 + (b - 128) * 4096 + (d - 128) * 64 + (e - 128))%N
  | _ => 0%N
  end.
Definition escape_unit (n : N) : string :=
  let digit k := String (Sha256.hex_digit (Z.of_N ((n / k) mod 16))) "" in
  backslash +:+ "u" +:+ digit 4096%N +:+ digit 256%N +:+ digit 16%N +:+ digit 1%N.
Definition escape_ascii (c : string) : string :=
  let n := code_point c in
  if (n <? 128)%N then c
  else if (n <? 65536)%N then escape_unit n
  else escape_unit (55296 + (n - 65536) / 1024)%N +:+ escape_unit (56320 + (n - 65536) mod 1024)%N.
Definition dumps (j : json) : string := text_of (map escape_ascii (chars (dumps_text j))).

Definition _extract_json_error_text (content : string) : option string :=
  match loads content with
  | Some (JObj d) =>
      match get "error" d with
      | Some error =>
          if truthy error
          then match error with
               | JStr s => if bool_decide (strip (lowered s) ∈ _SEMANTIC_ZERO_ERROR_STRINGS) then None else Some s
               | _ => Some (dumps error)
               end
          else None
      | None => None
      end
  | _ => None
  end.

Section words.
(** [\w] beyond ASCII; lower-casing keeps it. *)
Context (alnum : string -> bool).

(** [\bkw\b] somewhere. *)
Fixpoint whole_word (kw before l : list string) : bool :=
  PosixPaths.PosixPaths.is_prefix kw l && negb (BashGuard.BashGuard.after_word alnum before) &&
  negb (match drop (length kw) l with c :: _ => BashGuard.BashGuard.is_word alnum c | [] => false end) ||
  match l with c :: l => whole_word kw (c :: before) l | [] => false end.

Definition numeric (kw : string) : bool := bool_decide (kw ∈ ["401"; "403"; "404"; "500"]).

Definition _match_keyword (kw lower : string) : bool :=
  if numeric kw then whole_word (chars kw) [] (chars lower) else contains kw lower.

Definition _classify_error_text (text : string) : attrs :=
  let lower := lowered text in
  match List.find (fun rule => existsb (fun kw => _match_keyword kw lower) rule.1) _ERROR_RULES with
  | Some rule => rule.2
  | None => _UNKNOWN_ERROR
  end.

Definition _make_meta (status source : string) (error_type : json) (recoverable : bool) (action : string) : json :=
  JObj [("status", JStr status); ("error_type", error_type); ("recoverable_by_model", JBool recoverable);
        ("recommended_next_action", JStr action); ("source", JStr source)].
Definition error_meta (source : string) (a : attrs) : json :=
  let '(error_type, recoverable, action) := a in _make_meta "error" source (JStr error_type) recoverable action.

Definition stamped (meta : json) (m : ToolMessage) : ToolMessage := with_kwargs (set_key TOOL_META_KEY meta (additional_kwargs m)) m.

Definition stamp_exception_meta (m : ToolMessage) (exc_info : string) : ToolMessage :=
  stamped (error_meta "exception" (_classify_error_text exc_info)) m.

Definition text_content (m : ToolMessage) : string := match content m with JStr s => s | _ => "" end.

(** The classification of a message that has none. *)
Definition meta_of (status content : string) : json :=
  if (status =? "error")%string && negb (starts_with _ERROR_PREFIX content)
  then error_meta "tool_return"
         match _extract_json_error_text content with
         | Some e => _classify_error_text e
         | None => match loads content with Some (JObj _) => _UNKNOWN_ERROR | _ => _classify_error_text content end
         end
  else if starts_with _ERROR_PREFIX content
  then error_meta "tool_return" (_classify_error_text (PosixPaths.PosixPaths.drop_prefix _ERROR_PREFIX content))
  else
    match _extract_json_error_text content with
    | Some e => error_meta "tool_return" (_classify_error_text e)
    | None =>
        if existsb (fun m => contains m (lowered content)) _PARTIAL_MARKERS
        then _make_meta "partial_success" "content_analysis" JNull true "rewrite_query"
        else _make_meta "success" "content_analysis" JNull true "continue"
    end.

Definition normalize_tool_message (m : ToolMessage) : ToolMessage :=
  match default JNull (get TOOL_META_KEY (additional_kwargs m)) with
  | JNull => stamped (meta_of (status m) (text_content m)) m
  | _ => m
  end.

Definition normalize_tool_result (r : result) : result :=
  match r with Message m => Message (normalize_tool_message m) | Command _ => r end.

End words.

(** Only the field of an error counts, not what stands beside it. *)
Example numbers_beside_an_error :
  _extract_json_error_text (Json.print (JObj [("user_id", JInt 401); ("error", JStr "None")])) = None /\
  _classify_error_text (fun _ => false) "took 500ms" = _UNKNOWN_ERROR /\
  _classify_error_text (fun _ => false) "HTTP 500" = ("internal", false, "stop").
Proof. by vm_compute. Qed.

End ToolResults.
