(* ===== verification/WriteGate.v ===== *)
(** * The read-before-write gate

    [deerflow/agents/middlewares/read_before_write_middleware.py]: a tool that
    changes an existing file runs only when the conversation holds a read of the
    file's current version.  The tool calls of a message run concurrently: every
    call is the list of its segments between two awaits, and a pool of them is
    interleaved by [step].  The store of files, the reader and the tools behind
    the middleware are parameters. *)
From S2P Require Import Prelude Json Errors Text Sha256 PosixPaths SandboxPaths ToolResults.
Import Json Text PosixPaths SandboxPaths ToolResults.

Module WriteGate.

Definition READ_MARK_KEY : string := "deerflow_read_mark".
Definition _READ_TOOLS : list string := ["read_file"].
Definition _GATED_WRITE_TOOLS : list string := ["write_file"; "str_replace"].
Definition _UNINSPECTABLE_CONTENT_PREFIX : string := "Error:".

(** What the middleware sees of a request: the call, the runtime's context and
    the conversation with the sandbox of the state. *)
Record request := { tool_call : dict; context : option dict; messages : list message; sandbox_state : option dict }.

Definition name_in (names : list string) (r : request) : bool :=
  match get "name" (tool_call r) with Some (JStr n) => bool_decide (n ∈ names) | _ => false end.

(** A text that is not empty. *)
Definition text_at (k : string) (d : option dict) : option string :=
  match d with
  | Some d => match get k d with Some (JStr s) => if (s =? "")%string then None else Some s | _ => None end
  | None => None
  end.

Definition _requested_path (r : request) : option string :=
  match get "args" (tool_call r) with Some (JObj args) => text_at "path" (Some args) | _ => None end.

Definition _lock_scope (r : request) : string :=
  match text_at "thread_id" (context r) with
  | Some t => t
  | None => default "global" (text_at "sandbox_id" (sandbox_state r))
  end.

Definition _normalize_mark_path : string -> string := normpath.
Definition _content_hash : string -> string := Sha256.sha256.

(** [str(tool_call.get(key, default))] *)
Definition text_or (key d : string) (call : dict) : string :=
  match get key call with
  | None => d
  | Some (JStr s) => s
  | Some JNull => "None"
  | Some j => Json.print j
  end.

Definition _BLOCK_MESSAGE (tool_name path : string) : string :=
  "Error: " +:+ tool_name +:+ " blocked " +:+ bytes [226; 128; 148]%N +:+ " " +:+ path +:+
  " already exists and you have not read its current version. " +:+
  "Any write invalidates earlier reads, so re-read before every modification. " +:+
  "Call read_file on it (a ranged read of the relevant section is enough, e.g. the last ~30 lines " +:+
  "before an append), check what is already there, then retry.".

(** The hash of the latest mark of a path. *)
Fixpoint mark_among (l : list message) (norm_path : string) : option string :=
  match l with
  | [] => None
  | Tool m :: l =>
      match get READ_MARK_KEY (additional_kwargs m) with
      | Some (JObj mark) =>
          if bool_decide (get "path" mark = Some (JStr norm_path))
          then match get "hash" mark with Some (JStr h) => Some h | _ => None end
          else mark_among l norm_path
      | _ => mark_among l norm_path
      end
  | Other _ :: l => mark_among l norm_path
  end.
Definition _latest_mark_hash (l : list message) (norm_path : string) : option string := mark_among (rev l) norm_path.

Section gate.
(** [\w] beyond ASCII. *)
Context (alnum : string -> bool) {W : Type}.
(** The middleware's [content_reader], and what is behind the middleware. *)
Context (content_reader : request -> string -> W -> outcome string) (handler : request -> W -> outcome result * W).

(** ** Checking and marking *)

Definition _check_write_gate (r : request) (w : W) : option ToolMessage :=
  match _requested_path r with
  | None => None
  | Some path =>
      match content_reader r path w with
      | Bad _ => None
      | Good current =>
          if starts_with _UNINSPECTABLE_CONTENT_PREFIX current then None
          else if bool_decide (_latest_mark_hash (messages r) (_normalize_mark_path path) = Some (_content_hash current)) then None
          else let tool_name := text_or "name" "write" (tool_call r) in
               Some {| content := JStr (_BLOCK_MESSAGE tool_name path); status := "error"; additional_kwargs := [];
                       tool_call_id := text_or "id" "" (tool_call r); message_name := tool_name |}
      end
  end.

Definition mark_of (path content : string) : json :=
  JObj [("path", JStr (_normalize_mark_path path)); ("hash", JStr (_content_hash content))].

(** [message.additional_kwargs[READ_MARK_KEY] = ...] *)
Definition marked (mark : json) (m : ToolMessage) : ToolMessage :=
  with_kwargs (set_key READ_MARK_KEY mark (additional_kwargs m)) m.

(** [_extract_tool_message], and the result with that message changed in place. *)
Fixpoint last_tool (l : list message) : option ToolMessage :=
  match l with
  | [] => None
  | Tool m :: l => match last_tool l with Some m' => Some m' | None => Some m end
  | Other _ :: l => last_tool l
  end.
Fixpoint change_last (f : ToolMessage -> ToolMessage) (l : list message) : list message :=
  match l with
  | [] => []
  | Tool m :: l => match last_tool l with Some _ => Tool m :: change_last f l | None => Tool (f m) :: l end
  | Other j :: l => Other j :: change_last f l
  end.
Definition _extract_tool_message (res : result) : option ToolMessage :=
  match res with
  | Message m => Some m
  | Command (Some l) => last_tool l
  | Command None => None
  end.
Definition in_place (f : ToolMessage -> ToolMessage) (res : result) : result :=
  match res with
  | Message m => Message (f m)
  | Command o => Command (option_map (change_last f) o)
  end.

Definition _attach_read_mark (r : request) (res : result) (w : W) : result :=
  match _requested_path r, _extract_tool_message res with
  | Some path, Some m =>
      if (status m =? "error")%string then res
      else match content_reader r path w with
           | Bad _ => res
           | Good content => if starts_with _UNINSPECTABLE_CONTENT_PREFIX content then res else in_place (marked (mark_of path content)) res
           end
  | _, _ => res
  end.

(** ** A call *)

Definition key : Type := string * string.

(** The path of a call that takes the lock. *)
Definition guarded (r : request) : option string :=
  if name_in _GATED_WRITE_TOOLS r || name_in _READ_TOOLS r then _requested_path r else None.
Definition key_of (r : request) (path : string) : key := (_lock_scope r, _normalize_mark_path path).

(** Where [awrap_tool_call] awaits: for the lock; with the lock, for the check of
    a write or for the tool of a read; with the gate passed, for the tool; with
    the answer of a read, for its mark; and before it lets the lock go. *)
Inductive phase :=
  | Start
  | Holding
  | Allowed
  | Answered (res : result)
  | Leaving (o : outcome result)
  | Finished (o : outcome result).

Record shared := { world : W; locks : list key }.

(** One segment; [None] where the call waits for a lock or is over. *)
Definition advance (r : request) (ph : phase) (s : shared) : option (phase * shared) :=
  let '(o, w) := handler r (world s) in
  let ran := {| world := w; locks := locks s |} in
  match ph with
  | Start =>
      match guarded r with
      | None => Some (Finished o, ran)
      | Some path => if bool_decide (key_of r path ∈ locks s) then None
                     else Some (Holding, {| world := world s; locks := key_of r path :: locks s |})
      end
  | Holding =>
      if name_in _GATED_WRITE_TOOLS r
      then match _check_write_gate r (world s) with
           | Some blocked => Some (Leaving (Good (normalize_tool_result alnum (Message blocked))), s)
           | None => Some (Allowed, s)
           end
      else Some (match o with Good res => Answered res | Bad f => Leaving (Bad f) end, ran)
  | Allowed => Some (Leaving o, ran)
  | Answered res => Some (Leaving (Good (_attach_read_mark r res (world s))), s)
  | Leaving o =>
      match guarded r with
      | Some path => Some (Finished o, {| world := world s; locks := List.filter (fun k => negb (bool_decide (k = key_of r path))) (locks s) |})
      | None => Some (Finished o, s)
      end
  | Finished _ => None
  end.

(** ** The calls of a message *)

Record pool := { calls : list (request * phase); store : shared }.

Definition begin (requests : list request) (w : W) : pool :=
  {| calls := map (fun r => (r, Start)) requests; store := {| world := w; locks := [] |} |}.

Inductive step (i : nat) : pool -> pool -> Prop :=
  | step_call c r ph ph' s' :
      calls c !! i = Some (r, ph) -> advance r ph (store c) = Some (ph', s') ->
      step i c {| calls := <[i := (r, ph')]> (calls c); store := s' |}.

Definition any_step (c c' : pool) : Prop := exists i, step i c c'.

(** The same, as a function of the calls that are scheduled. *)
Fixpoint schedule (order : list nat) (c : pool) : pool :=
  match order with
  | [] => c
  | i :: order =>
      schedule order
        match calls c !! i with
        | Some (r, ph) =>
            match advance r ph (store c) with
            | Some (ph', s') => {| calls := <[i := (r, ph')]> (calls c); store := s' |}
            | None => c
            end
        | None => c
        end
  end.

Lemma schedule_taken order : forall c, rtc any_step c (schedule order c).
Proof.
  induction order as [|i order IH]; intros c; [done|]. cbn [schedule]. destruct (calls c !! i) as [[r ph]|] eqn:C; [|apply IH].
  destruct (advance r ph (store c)) as [[ph' s']|] eqn:A; [|apply IH]. eapply rtc_l; [|apply IH]. exists i. by econstructor.
Qed.

End gate.

End WriteGate.
