(* ===== verification/GateSafety.v ===== *)
(** * Writes happen on the version that was read

    The theorems about [WriteGate]: whatever the order in which the calls of a
    message run, a file changes only by a call that passed the gate for its
    current content, and every schedule ends with every call answered. *)
From S2P Require Import Prelude Json Errors Text Sha256 PosixPaths SandboxPaths ToolResults WriteGate.
Import Json Text PosixPaths SandboxPaths ToolResults WriteGate.

Module GateSafety.

(** What the gate relies on: a guarded call touches the file at its own path
    only, in whatever spelling, and a read changes no file and returns, unmarked, what it shows of the
    content. *)
Class FileTools {W : Type} (content_reader : request -> string -> W -> outcome string)
    (handler : request -> W -> outcome result * W) (shown : request -> outcome string -> string) : Prop := {
  touches_own r path r' path' w :
    guarded r = Some path -> guarded r' = Some path' -> normpath path <> normpath path' ->
    content_reader r' path' (handler r w).2 = content_reader r' path' w;
  read_is_quiet r path r' path' w :
    guarded r = Some path -> name_in _GATED_WRITE_TOOLS r = false -> guarded r' = Some path' ->
    content_reader r' path' (handler r w).2 = content_reader r' path' w;
  read_shows r path w m :
    guarded r = Some path -> name_in _GATED_WRITE_TOOLS r = false -> (handler r w).1 = Good (Message m) ->
    text_content m = shown r (content_reader r path w) /\ get READ_MARK_KEY (additional_kwargs m) = None
}.

Section safety.
Context (alnum : string -> bool) {W : Type} (content_reader : request -> string -> W -> outcome string)
        (handler : request -> W -> outcome result * W) (shown : request -> outcome string -> string).
Context `{!FileTools content_reader handler shown}.

#[local] Abbreviation advance := (advance alnum content_reader handler).
#[local] Abbreviation step := (step alnum content_reader handler).
#[local] Abbreviation reaches := (rtc (any_step alnum content_reader handler)).

(** A call without a path, or of another tool, leaves the guarded files alone. *)
Definition quiet (requests : list request) : Prop :=
  forall r r' path' w, r ∈ requests -> guarded r = None -> guarded r' = Some path' ->
    content_reader r' path' (handler r w).2 = content_reader r' path' w.

(** The calls of one message are made for one thread in one sandbox. *)
Definition one_message (requests : list request) : Prop :=
  forall r r', r ∈ requests -> r' ∈ requests -> context r = context r' /\ sandbox_state r = sandbox_state r'.

(** Two of them that name one file, in whatever spelling, share their lock. *)
Lemma same_lock requests r r' path path' : one_message requests -> r ∈ requests -> r' ∈ requests ->
  normpath path = normpath path' -> key_of r path = key_of r' path'.
Proof.
  intros O H H' N. destruct (O r r' H H') as [C S]. unfold key_of, _lock_scope, _normalize_mark_path. by rewrite C, S, N.
Qed.

(** A message that carries a mark of a path, and the hash the latest such message
    of a conversation has. *)
Definition marks (m : ToolMessage) (path : string) (mark : dict) : Prop :=
  get READ_MARK_KEY (additional_kwargs m) = Some (JObj mark) /\ get "path" mark = Some (JStr path).
Definition last_read (conversation : list message) (path hash : string) : Prop :=
  exists earlier m later mark, conversation = earlier ++ Tool m :: later /\ marks m path mark /\
    get "hash" mark = Some (JStr hash) /\ forall m' mark', Tool m' ∈ later -> ~ marks m' path mark'.

Lemma mark_among_snoc l x path : mark_among (rev (l ++ [x])) path =
  match x with
  | Tool m => match get READ_MARK_KEY (additional_kwargs m) with
              | Some (JObj mark) => if bool_decide (get "path" mark = Some (JStr path))
                                    then match get "hash" mark with Some (JStr h) => Some h | _ => None end
                                    else mark_among (rev l) path
              | _ => mark_among (rev l) path
              end
  | Other _ => mark_among (rev l) path
  end.
Proof. rewrite rev_app_distr. by destruct x. Qed.

Lemma last_read_snoc l x path h : (forall m mark, x = Tool m -> ~ marks m path mark) -> last_read (l ++ [x]) path h <-> last_read l path h.
Proof.
  intros N. split.
  - intros (e & m & la & mark & E & M & H & A). destruct la as [|y la _] using rev_ind.
    + apply app_inj_tail in E as [-> ->]. by destruct (N m mark eq_refl).
    + rewrite app_comm_cons, app_assoc in E. apply app_inj_tail in E as [-> ->]. exists e, m, la, mark. split_and!; try done.
      intros m' mark' Hm. apply A. apply elem_of_app. by left.
  - intros (e & m & la & mark & -> & M & H & A). exists e, m, (la ++ [x]), mark. split_and!; try done; [by rewrite <- app_assoc|].
    intros m' mark' [Hm|Hm%list_elem_of_singleton]%elem_of_app; [by apply A|]. by apply N.
Qed.

Lemma last_read_ok l path h : _latest_mark_hash l path = Some h <-> last_read l path h.
Proof.
  unfold _latest_mark_hash. induction l as [|x l IH] using rev_ind.
  { split; [done|]. by intros (e & m & la & mark & E & _); destruct e. }
  rewrite mark_among_snoc. destruct x as [m|j]; [|rewrite last_read_snoc; [done|by intros]].
  destruct (get READ_MARK_KEY (additional_kwargs m)) as [j|] eqn:K; [|rewrite last_read_snoc; [done|intros ? ? [= <-] [M _]; congruence]].
  destruct j as [| | | | | |mark]; try (rewrite last_read_snoc; [done|intros ? ? [= <-] [M _]; congruence]).
  case_bool_decide as B; [|rewrite last_read_snoc; [done|intros ? mark' [= <-] [M P]; congruence]]. clear IH. split.
  - destruct (get "hash" mark) as [[]|] eqn:G; intros [= <-]. exists l, m, [], mark. split_and!; try done. by intros ? ? ?%elem_of_nil.
  - intros (e & m0 & la & mark0 & E & [M P] & H & A). destruct la as [|y la _] using rev_ind.
    + apply app_inj_tail in E as [-> [= <-]]. rewrite K in M. injection M as <-. by rewrite H.
    + rewrite app_comm_cons, app_assoc in E. apply app_inj_tail in E as [-> <-]. destruct (A m mark); [|by split].
      apply elem_of_app. right. by apply list_elem_of_singleton.
Qed.

(** The gate is open: the file cannot be inspected, or the conversation's
    latest mark of its path is of its content. *)
Definition gate_open (r : request) (path : string) (w : W) : Prop :=
  match content_reader r path w with
  | Bad _ => True
  | Good current => starts_with _UNINSPECTABLE_CONTENT_PREFIX current = true \/
                    last_read (messages r) (normpath path) (Sha256.sha256 current)
  end.

Lemma check_open r path w : guarded r = Some path -> name_in _GATED_WRITE_TOOLS r = true ->
  _check_write_gate content_reader r w = None <-> gate_open r path w.
Proof.
  unfold guarded, _check_write_gate, gate_open. intros G N. rewrite N in G. cbn in G. rewrite G.
  destruct (content_reader r path w) as [current|]; [|done]. destruct (starts_with _UNINSPECTABLE_CONTENT_PREFIX current); [by split; [left|]|].
  rewrite <- last_read_ok. case_bool_decide as B; [by split; [right|]|]. split; [done|]. by intros [?|?].
Qed.

(** ** The invariant *)

Definition holds (ph : phase) : bool := match ph with Start | Finished _ => false | _ => true end.

(** A mark shows the version the model was shown. *)
Definition faithful_mark (r : request) (path : string) (m : ToolMessage) : Prop :=
  match get READ_MARK_KEY (additional_kwargs m) with
  | None => True
  | Some mark => exists content, mark = JObj [("path", JStr (normpath path)); ("hash", JStr (Sha256.sha256 content))] /\ text_content m = shown r (Good content)
  end.

(** What is known of a call between two segments. *)
Definition call_ok (s : shared) (r : request) (ph : phase) : Prop :=
  forall path, guarded r = Some path ->
    (holds ph = true -> key_of r path ∈ locks s) /\
    match ph with
    | Allowed => name_in _GATED_WRITE_TOOLS r = true /\ gate_open r path (world s)
    | Answered (Message m) =>
        name_in _GATED_WRITE_TOOLS r = false /\
        get READ_MARK_KEY (additional_kwargs m) = None /\ text_content m = shown r (content_reader r path (world s))
    | Answered _ => name_in _GATED_WRITE_TOOLS r = false
    | Leaving (Good (Message m)) | Finished (Good (Message m)) =>
        name_in _GATED_WRITE_TOOLS r = false -> faithful_mark r path m
    | _ => True
    end.

(** Two calls that hold a lock hold different ones. *)
Definition exclusive (l : list (request * phase)) : Prop :=
  forall i j r r' ph ph' path path', i <> j -> l !! i = Some (r, ph) -> l !! j = Some (r', ph') ->
    guarded r = Some path -> guarded r' = Some path' -> holds ph = true -> holds ph' = true -> key_of r path <> key_of r' path'.

Definition pool_ok (c : pool (W := W)) : Prop :=
  (forall i r ph, calls c !! i = Some (r, ph) -> call_ok (store c) r ph) /\ exclusive (calls c) /\
  (forall k, k ∈ locks (store c) -> exists i r ph path, calls c !! i = Some (r, ph) /\ holds ph = true /\ guarded r = Some path /\ k = key_of r path) /\
  quiet (map fst (calls c)) /\ one_message (map fst (calls c)).

Lemma in_pool (c : pool (W := W)) i r ph : calls c !! i = Some (r, ph) -> r ∈ map fst (calls c).
Proof. intros H. apply list_elem_of_fmap. exists (r, ph). split; [done|]. by eapply list_elem_of_lookup_2. Qed.

Lemma advance_apart r ph s ph' s' requests : quiet requests -> r ∈ requests ->
  advance r ph s = Some (ph', s') ->
  (forall path, guarded r = Some path -> ph = Holding \/ ph = Allowed \/ world s' = world s) /\
  forall r' path', guarded r' = Some path' ->
    (forall path, guarded r = Some path -> (ph = Holding \/ ph = Allowed) -> normpath path <> normpath path') ->
    content_reader r' path' (world s') = content_reader r' path' (world s).
Proof.
  intros Q R. unfold WriteGate.advance. pose proof (fun path r' path' => touches_own r path r' path' (world s)) as T.
  destruct (handler r (world s)) as [o w] eqn:H. cbn [fst snd] in T.
  pose proof (Q r) as Qr. specialize (Qr) with (w := world s). rewrite H in Qr. cbn in Qr.
  destruct ph as [| | |res|o'|o'].
  - destruct (guarded r) as [path|] eqn:G.
    + case_bool_decide; [done|]. intros [= <- <-]. split; [by auto|done].
    + intros [= <- <-]. split; [done|]. intros r' path' G' _. by apply Qr.
  - intros E. split; [by auto|]. intros r' path' G' K. destruct (name_in _GATED_WRITE_TOOLS r) eqn:N.
    + destruct (_check_write_gate content_reader r (world s)); by injection E as <- <-.
    + injection E as <- <-. cbn. destruct (guarded r) as [path|] eqn:G; [|by apply Qr]. apply (T path); [done..|]. apply K; auto.
  - intros [= <- <-]. split; [by auto|]. intros r' path' G' K. cbn. destruct (guarded r) as [path|] eqn:G; [|by apply Qr].
    apply (T path); [done..|]. apply K; auto.
  - intros [= <- <-]. by split; [auto|].
  - destruct (guarded r); intros [= <- <-]; by split; [auto|].
  - done.
Qed.

(** What a segment does to the locks. *)
Lemma advance_locks r ph s ph' s' path : guarded r = Some path -> advance r ph s = Some (ph', s') ->
  match ph with
  | Start => ph' = Holding /\ key_of r path ∉ locks s /\ locks s' = key_of r path :: locks s
  | Leaving o => ph' = Finished o /\ locks s' = List.filter (fun k => negb (bool_decide (k = key_of r path))) (locks s)
  | Finished _ => False
  | _ => locks s' = locks s /\ holds ph' = true
  end.
Proof.
  intros G. unfold WriteGate.advance. rewrite G. destruct (handler r (world s)) as [o w]. destruct ph as [| | |res|o'|o'].
  - case_bool_decide; [done|]. by intros [= <- <-].
  - destruct (name_in _ r); [destruct (_check_write_gate _ _ _)|destruct o]; by intros [= <- <-].
  - by intros [= <- <-].
  - by intros [= <- <-].
  - by intros [= <- <-].
  - done.
Qed.

(** A call that takes no lock has two phases. *)
Lemma mark_attached r path res w : guarded r = Some path ->
  match res with
  | Message m => get READ_MARK_KEY (additional_kwargs m) = None /\ text_content m = shown r (content_reader r path w)
  | Command _ => True
  end ->
  match _attach_read_mark content_reader r res w with Message m => faithful_mark r path m | Command _ => True end.
Proof.
  intros G H. assert (_requested_path r = Some path) as P by (unfold guarded in G; by destruct (_ || _)).
  unfold _attach_read_mark. rewrite P. destruct res as [m|o]; cbn [_extract_tool_message].
  - destruct H as [N T]. unfold faithful_mark. destruct (status m =? "error")%string; [by rewrite N|].
    destruct (content_reader r path w) as [content|] eqn:C; [|by rewrite N]. destruct (starts_with _UNINSPECTABLE_CONTENT_PREFIX content); [by rewrite N|].
    cbn. rewrite get_set_same. by exists content.
  - destruct (match o with Some l => last_tool l | None => None end) as [m|]; [|done].
    destruct (status m =? "error")%string; [done|]. destruct (content_reader r path w) as [content|]; [|done].
    by destruct (starts_with _UNINSPECTABLE_CONTENT_PREFIX content).
Qed.

(** The call that ran. *)
Lemma advance_ok r ph s ph' s' : call_ok s r ph -> advance r ph s = Some (ph', s') -> call_ok s' r ph'.
Proof.
  intros C A path G. specialize (C path G) as [C1 C2]. pose proof (advance_locks r ph s ph' s' path G A) as L.
  split.
  { intros Hh. destruct ph as [| | |res|o|o]; cbn in *.
    - destruct L as (-> & _ & ->). left.
    - destruct L as [-> _]. by apply C1.
    - destruct L as [-> _]. by apply C1.
    - destruct L as [-> _]. by apply C1.
    - by destruct L as [-> _].
    - done. }
  unfold WriteGate.advance in A. pose proof (fun N => read_is_quiet r path r path (world s) G N G) as Quiet. pose proof (read_shows r path (world s)) as Shows.
  destruct (handler r (world s)) as [o w]. cbn in Quiet, Shows. destruct ph as [| | |res|o'|o']; cbn in *.
  - rewrite G in A. case_bool_decide; [done|]. by injection A as <- <-.
  - destruct (name_in _GATED_WRITE_TOOLS r) eqn:N.
    + destruct (_check_write_gate content_reader r (world s)) eqn:K; injection A as <- <-; [done|].
      split; [done|]. by apply (proj1 (check_open r path (world s) G N)).
    + destruct o as [res|]; injection A as <- <-; [|done]. destruct res as [m|]; [|done]. split; [done|].
      destruct (Shows m G eq_refl eq_refl) as [T M]. split; [done|]. cbn. by rewrite Quiet.
  - injection A as <- <-. destruct o as [[m|]|]; [|done..]. destruct C2 as [-> _]. done.
  - injection A as <- <-. pose proof (mark_attached r path res (world s) G) as M.
    destruct res as [m|o']; [|by destruct (_attach_read_mark _ _ _ _) as [|]; [intros _; apply M|]].
    destruct C2 as (_ & N & T). destruct (_attach_read_mark _ _ _ _) as [|]; [intros _; by apply M|done].
  - rewrite G in A. by injection A as <- <-.
  - done.
Qed.

Lemma quiet_pool (l : list (request * phase)) i r ph ph' : l !! i = Some (r, ph) -> map fst (<[i := (r, ph')]> l) = map fst l.
Proof.
  revert i. induction l as [|[r0 ph0] l IH]; intros [|i] H; cbn in *; [done..|by injection H as -> _|]. f_equal. by apply IH.
Qed.

(** The other calls. *)
Lemma others_ok c i r ph ph' s' j r' ph2 : pool_ok c -> calls c !! i = Some (r, ph) -> advance r ph (store c) = Some (ph', s') ->
  i <> j -> calls c !! j = Some (r', ph2) -> call_ok s' r' ph2.
Proof.
  intros (C & X & _ & Q & One) Hi A N Hj path' G'. destruct (C j r' ph2 Hj path' G') as [C1 C2].
  assert (forall path, guarded r = Some path -> holds ph = true -> holds ph2 = true -> key_of r path <> key_of r' path') as K
    by (intros path G H1 H2; by apply (X i j r r' ph ph2)).
  assert (holds ph2 = true -> content_reader r' path' (world s') = content_reader r' path' (world (store c))) as V.
  { intros H2. destruct (advance_apart r ph (store c) ph' s' (map fst (calls c)) Q) as [_ P]; [|done|].
    - by eapply in_pool.
    - apply P; [done|]. intros path G Hp E. apply (K path G); [by destruct Hp as [->| ->]|done|].
      eapply same_lock; [exact One|by eapply in_pool|by eapply in_pool|exact E]. }
  split.
  - intros H2. specialize (C1 H2). destruct (guarded r) as [path|] eqn:G.
    + pose proof (advance_locks r ph (store c) ph' s' path G A) as L. destruct ph as [| | |res|o|o]; try (by destruct L as [-> _]).
      * destruct L as (_ & _ & ->). by right.
      * destruct L as [_ ->]. apply filter_elem. split; [done|]. rewrite bool_decide_eq_false_2; [done|].
        intros E. exact (K path eq_refl eq_refl H2 (eq_sym E)).
      * done.
    + unfold WriteGate.advance in A. rewrite G in A. destruct (handler r (world (store c))) as [o w].
      destruct ph; try (by injection A as <- <-); try done.
      destruct (name_in _ r); [destruct (_check_write_gate _ _ _)|]; by injection A as <- <-.
  - destruct ph2 as [| | |[m|o]|[[m|o]|f]|[[m|o]|f]]; try done.
    + unfold gate_open in *. by rewrite (V eq_refl).
    + by rewrite (V eq_refl).
Qed.

Lemma step_ok i c c' : pool_ok c -> step i c c' -> pool_ok c'.
Proof.
  intros I S. revert I. destruct S as [c0 r ph ph' s' Hi A]. intros I. pose proof I as (C & X & O & Q & One). pose proof (lookup_lt_Some _ _ _ Hi) as Li.
  assert (forall j r' ph2, j <> i -> <[i := (r, ph')]> (calls c0) !! j = Some (r', ph2) -> calls c0 !! j = Some (r', ph2)) as Other
    by (intros; by rewrite list_lookup_insert_ne in * by done).
  assert (forall r' ph2, <[i := (r, ph')]> (calls c0) !! i = Some (r', ph2) -> r' = r /\ ph2 = ph') as Same
    by (intros r' ph2 H; rewrite list_lookup_insert_eq in H by done; by injection H as <- <-).
  assert (forall path, guarded r = Some path -> holds ph' = true -> holds ph = true \/ key_of r path ∉ locks (store c0)) as New.
  { intros path G Hh. pose proof (advance_locks r ph _ ph' s' path G A) as L. destruct ph; cbn in *; try (by left).
    right. by destruct L as (_ & ? & _). }
  assert (forall j r' ph2 path path', j <> i -> calls c0 !! j = Some (r', ph2) -> guarded r = Some path -> guarded r' = Some path' ->
    holds ph' = true -> holds ph2 = true -> key_of r path <> key_of r' path') as Apart.
  { intros j r' ph2 path path' N Hj G G' H1 H2. destruct (New path G H1) as [H|H].
    - apply (X i j r r' ph ph2); [congruence|done..].
    - intros E. apply H. rewrite E. by apply (C j r' ph2 Hj path' G'). }
  split_and!; cbn.
  - intros j r' ph2 Hj. destruct (decide (j = i)) as [->|N].
    + destruct (Same _ _ Hj) as [-> ->]. eapply advance_ok; [by eapply C|done].
    + eapply others_ok; [exact I|exact Hi|exact A|done|by apply Other].
  - intros j k r1 r2 ph1 ph2 p1 p2 N Hj Hk G1 G2 H1 H2. destruct (decide (j = i)) as [->|Nj].
    + destruct (Same _ _ Hj) as [-> ->]. by apply (Apart k r2 ph2 p1 p2); [congruence|apply Other; [congruence|]|..].
    + destruct (decide (k = i)) as [->|Nk].
      * destruct (Same _ _ Hk) as [-> ->]. apply not_eq_sym. by apply (Apart j r1 ph1 p2 p1); [|apply Other|..].
      * by apply (X j k r1 r2 ph1 ph2); [|apply Other|apply Other|..].
  - intros k Hk. assert (k ∈ locks (store c0) -> (forall path, guarded r = Some path -> holds ph' = false -> k <> key_of r path) ->
      exists i0 r0 ph0 path, <[i:=(r, ph')]> (calls c0) !! i0 = Some (r0, ph0) /\ holds ph0 = true /\ guarded r0 = Some path /\ k = key_of r0 path) as Keep.
    { intros Ho Hn. destruct (O k Ho) as (j & r0 & ph0 & path & Hj & Hh & G & ->). destruct (decide (j = i)) as [->|N].
      - rewrite Hi in Hj. injection Hj as <- <-. exists i, r, ph', path. rewrite list_lookup_insert_eq by done. split_and!; try done.
        destruct (holds ph') eqn:E; [done|]. exfalso. by apply (Hn path G).
      - exists j, r0, ph0, path. by rewrite list_lookup_insert_ne. }
    destruct (guarded r) as [path|] eqn:G.
    + pose proof (advance_locks r ph _ ph' s' path G A) as L. destruct ph as [| | |res|o|o]; try (destruct L as [L L']; rewrite L in Hk; apply Keep; [done|]; congruence).
      * destruct L as (-> & _ & L). rewrite L in Hk. apply elem_of_cons in Hk as [->|Hk]; [|by apply Keep].
        exists i, r, Holding, path. by rewrite list_lookup_insert_eq.
      * destruct L as [-> L]. rewrite L in Hk. apply filter_elem in Hk as [Hk K]. apply Keep; [done|]. intros ? [= <-] _ ->.
        by rewrite bool_decide_true in K.
      * done.
    + apply Keep; [|done]. clear Keep. revert A. unfold WriteGate.advance. rewrite G. destruct (handler r (world (store c0))) as [o w].
      destruct ph; try (by intros [= <- <-]); try done.
      destruct (name_in _ r); [destruct (_check_write_gate _ _ _)|]; by intros [= <- <-].
  - by rewrite (quiet_pool _ _ _ ph).
  - by rewrite (quiet_pool _ _ _ ph).
Qed.

Lemma begin_ok requests w : quiet requests -> one_message requests -> pool_ok (begin requests w).
Proof.
  intros Q One. assert (forall i r ph, calls (begin requests w) !! i = Some (r, ph) -> ph = Start) as S.
  { intros i r ph H. cbn in H. rewrite list_lookup_fmap in H. destruct (requests !! i); cbn in H; congruence. }
  split_and!.
  - intros i r ph ->%S. intros path _. done.
  - intros i j r r' ph ph' path path' _ ->%S _ _ _ [=].
  - cbn. by intros k ?%elem_of_nil.
  - cbn. rewrite map_map. cbn. by rewrite map_id.
  - cbn. rewrite map_map. cbn. by rewrite map_id.
Qed.

Lemma reaches_ok c c' : pool_ok c -> reaches c c' -> pool_ok c'.
Proof. intros I R. induction R as [|c1 c2 c3 [i S] _ IH]; [done|]. apply IH. by eapply step_ok. Qed.

(** ** Every schedule ends *)

Definition segments_left (ph : phase) : nat :=
  match ph with Start => 4 | Holding => 3 | Allowed | Answered _ => 2 | Leaving _ => 1 | Finished _ => 0 end.
Definition work_left (c : pool (W := W)) : nat := sum_list_with (fun x => segments_left x.2) (calls c).

Lemma advance_progress r ph s ph' s' : advance r ph s = Some (ph', s') -> (segments_left ph' < segments_left ph)%nat.
Proof.
  unfold WriteGate.advance. destruct (handler r (world s)) as [o w]. destruct ph as [| | |res|o'|o'].
  - destruct (guarded r); [case_bool_decide; [done|]|]; intros [= <- <-]; cbn; lia.
  - destruct (name_in _ r); [destruct (_check_write_gate _ _ _)|destruct o]; intros [= <- <-]; cbn; lia.
  - intros [= <- <-]; cbn; lia.
  - intros [= <- <-]; cbn; lia.
  - destruct (guarded r); intros [= <- <-]; cbn; lia.
  - done.
Qed.

Lemma work_insert (l : list (request * phase)) i x y : l !! i = Some x -> (segments_left y.2 < segments_left x.2)%nat ->
  (sum_list_with (fun z => segments_left z.2) (<[i := y]> l) < sum_list_with (fun z => segments_left z.2) l)%nat.
Proof.
  revert i. induction l as [|z l IH]; intros [|i] H L; [done..| |].
  - injection H as ->. cbn. lia.
  - exact (proj1 (Nat.add_lt_mono_l _ _ _) (IH i H L)).
Qed.

Lemma step_progress i c c' : step i c c' -> (work_left c' < work_left c)%nat.
Proof. intros [c0 r ph ph' s' Hi A]. unfold work_left. cbn. eapply work_insert; [exact Hi|]. cbn. by eapply advance_progress. Qed.

Lemma holding_runs r ph s : holds ph = true -> exists ph' s', advance r ph s = Some (ph', s').
Proof.
  unfold WriteGate.advance. destruct (handler r (world s)) as [o w]. destruct ph as [| | |res|o'|o']; try done; intros _; try (by eexists _, _).
  - destruct (name_in _ r); [|by eexists _, _]. by destruct (_check_write_gate _ _ _); eexists _, _.
  - by destruct (guarded r); eexists _, _.
Qed.

Lemma start_runs r s : (forall path, guarded r = Some path -> key_of r path ∉ locks s) -> exists ph' s', advance r Start s = Some (ph', s').
Proof.
  intros F. unfold WriteGate.advance. destruct (handler r (world s)) as [o w]. destruct (guarded r) as [path|]; [|by eexists _, _].
  rewrite bool_decide_false by by apply F. by eexists _, _.
Qed.

(** Some call can go on until all are over. *)
Lemma never_stuck c : pool_ok c -> (exists r ph, (r, ph) ∈ calls c /\ forall o, ph <> Finished o) -> exists i c', step i c c'.
Proof.
  intros (C & _ & O & _ & _) (r & ph & H & N). apply list_elem_of_lookup in H as [i Hi].
  assert (forall i r ph, calls c !! i = Some (r, ph) -> holds ph = true -> exists i c', step i c c') as Run.
  { intros j r0 ph0 Hj Hh. destruct (holding_runs r0 ph0 (store c) Hh) as (ph' & s' & A). exists j. eexists. by econstructor. }
  destruct (holds ph) eqn:Hh; [by eapply Run|]. destruct ph as [| | |res|o|o]; try done; [|by destruct (N o)].
  destruct (guarded r) as [path|] eqn:G.
  - destruct (decide (key_of r path ∈ locks (store c))) as [L|L].
    + destruct (O _ L) as (j & r0 & ph0 & _ & Hj & H0 & _). by eapply Run.
    + destruct (start_runs r (store c)) as (ph' & s' & A); [by intros ? [= <-]%(eq_trans (eq_sym G))|]. exists i. eexists. by econstructor.
  - destruct (start_runs r (store c)) as (ph' & s' & A); [by intros ? [=]%(eq_trans (eq_sym G))|]. exists i. eexists. by econstructor.
Qed.

(** ** The contract *)


(** The gate cannot block a conversation: as long as a call of the message is
    not over some call can go on, and however the calls are interleaved all are
    over after at most four segments each. *)
Theorem write_gate_finishes requests w :
  quiet requests -> one_message requests ->
  (forall c, reaches (begin requests w) c -> (forall i c', ~ step i c c') ->
     forall r ph, (r, ph) ∈ calls c -> exists o, ph = Finished o) /\
  (forall n c, nsteps (any_step alnum content_reader handler) n (begin requests w) c -> (n <= 4 * length requests)%nat).
Proof.
  intros Q One. split.
  - intros c R Stuck r ph H. pose proof (reaches_ok _ _ (begin_ok requests w Q One) R) as I.
    destruct ph as [| | |res|o|o]; [..|by exists o]; exfalso; destruct (never_stuck c I) as (i & c' & S); try (by apply (Stuck i c'));
      eexists _, _; (split; [exact H|done]).
  - assert (forall n c c', nsteps (any_step alnum content_reader handler) n c c' -> (n + work_left c' <= work_left c)%nat) as B.
    { intros n c c' N. induction N as [|n c1 c2 c3 [i S] _ IH]; [done|]. pose proof (step_progress i c1 c2 S). lia. }
    intros n c N%B. assert (work_left (begin requests w) = (4 * length requests)%nat) as E; [|lia].
    clear. unfold work_left. cbn. induction requests as [|r l IH]; cbn in *; lia.
Qed.

End safety.

(** ** A store of files *)

Module Store.

(** Every file under its lock. *)
Abbreviation files := (gmap (string * string) string).

Definition read (r : request) (path : string) (w : files) : outcome string :=
  match w !! key_of r path with
  | Some c => Good c
  | None => Bad (not_found path)
  end.

Definition argument (name : string) (r : request) : string :=
  match get "args" (tool_call r) with Some (JObj args) => match get name args with Some (JStr s) => s | _ => "" end | _ => "" end.
Definition answer (text : string) : outcome result :=
  Good (Message {| content := JStr text; status := "success"; additional_kwargs := []; tool_call_id := ""; message_name := "" |}).
Definition shown (_ : request) (o : outcome string) : string := match o with Good c => c | Bad f => "Error: " +:+ SandboxPaths.message f end.

(** The two tools, and a shell that writes where it likes. *)
Definition tool (r : request) (w : files) : outcome result * files :=
  if name_in _GATED_WRITE_TOOLS r
  then match guarded r with
       | Some path => (answer "OK", <[key_of r path := argument "content" r]> w)
       | None => (answer "Error", w)
       end
  else if name_in _READ_TOOLS r
  then match guarded r with Some path => (answer (shown r (read r path w)), w) | None => (answer "Error", w) end
  else if name_in ["bash"] r
  then (answer "", <[(_lock_scope r, argument "target" r) := argument "content" r]> w)
  else (answer "", w).

#[global] Instance tools_ok : FileTools read tool shown.
Proof.
  split.
  - intros r path r' path' w G G' K. unfold tool. rewrite G. destruct (name_in _GATED_WRITE_TOOLS r) eqn:N.
    + cbn [snd]. unfold read. rewrite lookup_insert_ne; [done|]. unfold key_of, _normalize_mark_path. congruence.
    + destruct (name_in _READ_TOOLS r) eqn:E; [done|]. unfold guarded in G. by rewrite N, E in G.
  - intros r path r' path' w G N G'. unfold tool. rewrite N, G. destruct (name_in _READ_TOOLS r) eqn:E; [done|].
    unfold guarded in G. by rewrite N, E in G.
  - intros r path w m G N. unfold tool. rewrite N, G. destruct (name_in _READ_TOOLS r) eqn:E; [by intros [= <-]|].
    unfold guarded in G. by rewrite N, E in G.
Qed.

Definition call (name path content : string) (conversation : list message) : request :=
  {| tool_call := [("name", JStr name); ("id", JStr "c"); ("args", JObj [("path", JStr path); ("target", JStr path); ("content", JStr content)])];
     context := Some [("thread_id", JStr "t")]; messages := conversation; sandbox_state := None |}.
Definition was_read (path content : string) : message :=
  Tool {| content := JStr content; status := "success"; additional_kwargs := [(READ_MARK_KEY, mark_of path content)];
          tool_call_id := "c"; message_name := "read_file" |}.

Definition run (requests : list request) (order : list nat) (w : files) : pool :=
  schedule (fun _ => false) read tool order (begin requests w).
Definition outcomes (c : pool (W := files)) : list string :=
  map (fun x => match x.2 with Finished (Good (Message m)) => text_content m | _ => "?" end) (calls c).

(** Two appends of one message, after one read. *)
Definition conversation : list message := [was_read "/f" "v1"].
Definition appends : list request := [call "write_file" "/f" "v1+a" conversation; call "write_file" "/./f" "v1+b" conversation].
Definition before : files := {[ ("t", "/f") := "v1" ]}.

Lemma appends_quiet : quiet read tool appends.
Proof.
  intros r r' path' w [->|[->|H]%elem_of_cons]%elem_of_cons G; [by vm_compute in G|by vm_compute in G|by apply elem_of_nil in H].
Qed.

Lemma appends_one : one_message appends.
Proof. intros r r' [->|[->|[]%elem_of_nil]%elem_of_cons]%elem_of_cons [->|[->|[]%elem_of_nil]%elem_of_cons]%elem_of_cons; by split. Qed.

End Store.


Lemma write_gate_finishes_witness :
  (forall n c, nsteps (any_step (fun _ => false) Store.read Store.tool) n (begin Store.appends Store.before) c -> (n <= 8)%nat) /\
  Store.outcomes (Store.run Store.appends [0; 1; 0; 0; 0; 1; 1]%nat Store.before) <>
    Store.outcomes (Store.run Store.appends [0; 1; 0; 0; 0; 1; 1; 1]%nat Store.before).
Proof.
  split; [|by vm_compute].
  exact (proj2 (write_gate_finishes (fun _ => false) Store.read Store.tool Store.shown Store.appends Store.before Store.appends_quiet Store.appends_one)).
Defined.

(** A shell command takes no lock: between what a read shows and its mark it can
    change the file, and a write on what was shown then overwrites it. *)
Lemma shell_between_read_and_mark :
  let c := Store.run [Store.call "read_file" "/f" "" []; Store.call "bash" "/f" "v2" []] [0; 0; 1; 0; 0]%nat Store.before in
  Store.outcomes c = ["v1"; ""] /\
  match calls c with
  | (_, Finished (Good (Message m))) :: _ => get READ_MARK_KEY (additional_kwargs m) = Some (mark_of "/f" "v2")
  | _ => False
  end.
Proof. by vm_compute. Qed.

End GateSafety.
