(* ===== verification/ToolOutput.v ===== *)
(** * The budget of a tool's output

    [deerflow/agents/middlewares/tool_output_budget_middleware.py]: a result
    that is too long is saved to a file and replaced by a preview that names it,
    or, where it cannot be saved, by its two ends.  Disk, sandbox and random
    names are the operations of a [Backend]. *)
From S2P Require Import Prelude Json Errors Text Slices JsonText Shlex PosixPaths SandboxPaths SandboxOutput LocalSandbox BashGuard ToolResults.
Import Json Text Slices PosixPaths SandboxPaths SandboxOutput ToolResults.

Module ToolOutput.

Definition _VIRTUAL_OUTPUTS_BASE : string := "/mnt/user-data/outputs".

Record ToolOutputConfig := {
  enabled : bool;
  externalize_min_chars : Z;
  preview_head_chars : Z;
  preview_tail_chars : Z;
  fallback_max_chars : Z;
  fallback_head_chars : Z;
  fallback_tail_chars : Z;
  storage_subdir : string;
  exempt_tools : list string;
  tool_overrides : gmap string Z
}.

Definition default_config : ToolOutputConfig := {|
  enabled := true; externalize_min_chars := 12000; preview_head_chars := 2000; preview_tail_chars := 1000;
  fallback_max_chars := 30000; fallback_head_chars := 8000; fallback_tail_chars := 3000;
  storage_subdir := ".tool-results"; exempt_tools := ["read_file"; "read_file_tool"]; tool_overrides := ∅ |}.

(** ** Texts *)

Fixpoint pieces (parts : list json) : option (list string) :=
  match parts with
  | [] => Some []
  | JStr s :: parts => cons s <$> pieces parts
  | JObj o :: parts => match get "text" o with Some (JStr s) => cons s <$> pieces parts | _ => None end
  | _ => None
  end.

Definition _message_text (content : json) : option string :=
  match content with
  | JStr s => Some s
  | JList parts => match pieces parts with Some (x :: l) => Some (join newline_text (x :: l)) | _ => None end
  | _ => None
  end.

(** Where the newlines are; the last and the first of them from [lo] to below
    [hi], as [rfind] and [find] look for them. *)
Fixpoint newlines (i : Z) (l : list string) : list Z :=
  match l with
  | [] => []
  | x :: l => if (x =? newline_text)%string then i :: newlines (i + 1) l else newlines (i + 1) l
  end.
Definition newlines_in (text : string) (lo hi : Z) : list Z :=
  List.filter (fun i => (lo <=? i) && (i <? hi)) (newlines 0 (chars text)).

Definition _snap_to_line_boundary (text : string) (pos : Z) : Z :=
  if (pos <=? 0) || (len text <=? pos) then pos
  else match last (newlines_in text (pos / 2) pos) with Some nl => nl + 1 | None => pos end.

Definition _snap_start_to_line_boundary (text : string) (pos : Z) : Z :=
  if (pos <=? 0) || (len text <=? pos) then pos
  else match head (newlines_in text pos (pos + (len text - pos) / 2)) with Some nl => nl + 1 | None => pos end.

(** [text[pos:]] for [0 <= pos] *)
Definition since (pos : Z) (text : string) : string := text_of (drop (Z.to_nat pos) (chars text)).
Definition tail_from (text : string) (pos : Z) : string := if pos <? len text then since pos text else "".

Definition reference (tool_name virtual_path : string) (total omitted : Z) : string :=
  newline_text +:+ newline_text +:+ "[Full " +:+ tool_name +:+ " output saved to " +:+ virtual_path +:+ " (" +:+ pretty total +:+
  " chars, ~" +:+ pretty (total / 4) +:+ " tokens). Use read_file with start_line and end_line to access specific sections. " +:+
  pretty omitted +:+ " chars omitted from this preview.]" +:+ newline_text +:+ newline_text.

Definition _build_preview (content tool_name virtual_path : string) (head_chars tail_chars : Z) : string :=
  let total := len content in
  let head_end := _snap_to_line_boundary content (Z.min head_chars total) in
  let tail_start := Z.max head_end (total - tail_chars) in
  let snapped := _snap_to_line_boundary content tail_start in
  let tail_start := if head_end <? snapped then snapped else tail_start in
  let head := upto head_end content in
  let tail := tail_from content tail_start in
  head +:+ reference tool_name virtual_path total (total - len head - len tail) +:+ tail.

Definition marker (n : Z) (tool_name : string) : string :=
  newline_text +:+ newline_text +:+ "[... " +:+ pretty n +:+ " chars omitted from " +:+ tool_name +:+
  " output. Persistent storage unavailable. Consider narrowing the query or using more specific parameters.]" +:+
  newline_text +:+ newline_text.

Definition _build_fallback (content tool_name : string) (max_chars head_chars tail_chars : Z) : string :=
  let total := len content in
  if (max_chars <=? 0) || (total <=? max_chars) then content else
  let marker_overhead := len (marker total tool_name) in
  if max_chars <=? marker_overhead then upto max_chars content else
  let budget := max_chars - marker_overhead in
  let effective_head := Z.min head_chars budget in
  let effective_tail := Z.min tail_chars (Z.max 0 (budget - effective_head)) in
  let head_end := _snap_to_line_boundary content (Z.min effective_head total) in
  let tail_start := _snap_start_to_line_boundary content (Z.max head_end (total - effective_tail)) in
  let head := upto head_end content in
  let tail := tail_from content tail_start in
  head +:+ marker (total - len head - len tail) tool_name +:+ tail.

(** ** Saving *)

Definition _EXT_MAP : gmap string string := {[ "bash" := "log"; "bash_tool" := "log"; "web_fetch" := "log" ]}.

Definition _sanitize_tool_name (name : string) : string :=
  let base := BashGuard.base_name name in
  let safe := replace_text "\" "_" (replace_text "/" "_" (replace_text ".." "" base)) in
  if (safe =? "")%string then "unknown" else safe.

Definition _build_externalized_filename (tool_name uuid_hex : string) : string :=
  _sanitize_tool_name tool_name +:+ "-" +:+ upto 12 uuid_hex +:+ "." +:+ default "txt" (_EXT_MAP !! tool_name).

(** [os.path.join] of two *)
Definition os_join (a b : string) : string :=
  if starts_with "/" b then b
  else if (a =? "")%string || ends_in (is_char slash) a then a +:+ b else a +:+ "/" +:+ b.

(** What the host and the sandbox do, and may raise. *)
Record Backend (W : Type) := {
  make_dirs : string -> W -> outcome unit * W;
  write_text : string -> string -> W -> outcome unit * W;
  execute_command : string -> string -> W -> outcome json * W;
  sandbox_write : string -> string -> string -> W -> outcome unit * W;
  uuid_hex : W -> string * W;
  get_sandbox : string -> W -> outcome bool;
  uses_thread_data_mounts : W -> outcome bool;
  abspath : string -> string
}.
#[global] Arguments make_dirs {W}.
#[global] Arguments write_text {W}.
#[global] Arguments execute_command {W}.
#[global] Arguments sandbox_write {W}.
#[global] Arguments uuid_hex {W}.
#[global] Arguments get_sandbox {W}.
#[global] Arguments uses_thread_data_mounts {W}.
#[global] Arguments abspath {W}.

Definition misplaced (subdir : string) : bool := starts_with "/" subdir || contains ".." subdir.

Section budget.
Context {W : Type} (b : Backend W) (config : ToolOutputConfig).

(** [try: ... except OSError: return None] around one operation. *)
Definition or_none (o : outcome unit) (w : W) (k : W -> outcome (option string) * W) : outcome (option string) * W :=
  match o with
  | Good _ => k w
  | Bad f => (if LocalSandbox.is_os_error (kind f) then Good None else Bad f, w)
  end.

Definition _externalize (content tool_name outputs_path : string) (w : W) : outcome (option string) * W :=
  if misplaced (storage_subdir config) then (Good None, w) else
  let storage_dir := os_join outputs_path (storage_subdir config) in
  let '(o, w) := make_dirs b storage_dir w in
  or_none o w (fun w =>
    let '(id, w) := uuid_hex b w in
    let filename := _build_externalized_filename tool_name id in
    let filepath := os_join storage_dir filename in
    if negb (starts_with (abspath b storage_dir) (abspath b filepath)) then (Good None, w) else
    let '(o, w) := write_text b filepath content w in
    or_none o w (fun w => (Good (Some (_VIRTUAL_OUTPUTS_BASE +:+ "/" +:+ storage_subdir config +:+ "/" +:+ filename)), w))).

Definition landed (check : json) : bool := match check with JStr s => (strip s =? "OK")%string | _ => false end.

Definition _externalize_to_sandbox (content tool_name sandbox : string) (w : W) : option string * W :=
  if misplaced (storage_subdir config) then (None, w) else
  let '(id, w) := uuid_hex b w in
  let virtual_dir := _VIRTUAL_OUTPUTS_BASE +:+ "/" +:+ storage_subdir config in
  let virtual_path := virtual_dir +:+ "/" +:+ _build_externalized_filename tool_name id in
  let '(o, w) := execute_command b sandbox ("mkdir -p " +:+ Shlex.quote virtual_dir) w in
  match o with
  | Bad _ => (None, w)
  | Good _ =>
      let '(o, w) := sandbox_write b sandbox virtual_path content w in
      match o with
      | Bad _ => (None, w)
      | Good _ =>
          let '(o, w) := execute_command b sandbox ("test -s " +:+ Shlex.quote virtual_path +:+ " && echo OK || echo MISSING") w in
          match o with
          | Good check => (if landed check then Some virtual_path else None, w)
          | Bad _ => (None, w)
          end
      end
  end.

(** ** Requests *)

(** [request.runtime.state], if there is one and it is a dictionary. *)
Definition _resolve_outputs_path (state : option dict) : option string :=
  match state with
  | Some s => match get "thread_data" s with
              | Some (JObj td) => match get "outputs_path" td with Some (JStr p) => Some p | _ => None end
              | _ => None
              end
  | None => None
  end.

Definition _resolve_sandbox (state : option dict) (w : W) : option string :=
  match state with
  | Some s =>
      match get "sandbox" s with
      | Some (JObj sb) =>
          match get "sandbox_id" sb with
          | Some (JStr id) =>
              if (id =? "")%string then None
              else match get_sandbox b id w with Good true => Some id | _ => None end
          | _ => None
          end
      | _ => None
      end
  | None => None
  end.

(** ** The budget *)

Definition threshold_of (tool_name : string) : Z := default (externalize_min_chars config) (tool_overrides config !! tool_name).

Definition externalized (content tool_name : string) (outputs_path sandbox : option string) (w : W) : outcome (option string) * W :=
  let to_host w := match outputs_path with
                   | Some p => if (p =? "")%string then (Good None, w) else _externalize content tool_name p w
                   | None => (Good None, w)
                   end in
  match sandbox with
  | Some sb =>
      match uses_thread_data_mounts b w with
      | Good true => to_host w
      | _ => let '(v, w) := _externalize_to_sandbox content tool_name sb w in (Good v, w)
      end
  | None => to_host w
  end.

Definition truncated (content tool_name : string) : option string :=
  if (0 <? fallback_max_chars config) && (fallback_max_chars config <? len content)
  then Some (_build_fallback content tool_name (fallback_max_chars config) (fallback_head_chars config) (fallback_tail_chars config))
  else None.

Definition _budget_content (content tool_name : string) (outputs_path sandbox : option string) (w : W) : outcome (option string) * W :=
  let threshold := threshold_of tool_name in
  if (threshold <=? 0) && (fallback_max_chars config <=? 0) then (Good None, w) else
  if (len content <=? threshold) && (len content <=? fallback_max_chars config) then (Good None, w) else
  if (0 <? threshold) && (threshold <? len content)
  then let '(o, w) := externalized content tool_name outputs_path sandbox w in
       match o with
       | Bad f => (Bad f, w)
       | Good (Some virtual_path) =>
           (Good (Some (_build_preview content tool_name virtual_path (preview_head_chars config) (preview_tail_chars config))), w)
       | Good None => (Good (truncated content tool_name), w)
       end
  else (Good (truncated content tool_name), w).

(** ** Messages *)

Definition named (m : ToolMessage) : string := if (message_name m =? "")%string then "unknown" else message_name m.
Definition exempt (name : string) : bool := bool_decide (name ∈ exempt_tools config).

Definition with_text (text : string) (m : ToolMessage) : ToolMessage :=
  {| content := JStr text; status := status m; additional_kwargs := additional_kwargs m; tool_call_id := tool_call_id m;
     message_name := message_name m |}.

(** The message that replaces this one, if one does. *)
Definition _patch_tool_message (m : ToolMessage) (outputs_path sandbox : option string) (w : W) : outcome (option ToolMessage) * W :=
  if exempt (named m) then (Good None, w) else
  match _message_text (content m) with
  | None => (Good None, w)
  | Some text =>
      let '(o, w) := _budget_content text (named m) outputs_path sandbox w in
      (match o with Good r => Good ((fun t => with_text t m) <$> r) | Bad f => Bad f end, w)
  end.

Definition _effective_trigger (tool_name : string) : Z :=
  let externalize := threshold_of tool_name in
  match (if 0 <? externalize then [externalize] else []) ++ (if 0 <? fallback_max_chars config then [fallback_max_chars config] else []) with
  | x :: l => foldl Z.min x l
  | [] => -1
  end.

Definition _tool_message_over_budget (m : ToolMessage) : bool :=
  if exempt (message_name m) then false else
  let trigger := _effective_trigger (message_name m) in
  if trigger <? 0 then false else
  match _message_text (content m) with Some text => trigger <? len text | None => false end.

Definition over_budget (x : message) : bool := match x with Tool m => _tool_message_over_budget m | Other _ => false end.

Definition _needs_budget (r : result) : bool :=
  match r with
  | Message m => _tool_message_over_budget m
  | Command (Some l) => existsb over_budget l
  | Command None => false
  end.

(** One after the other; whether one of them was replaced. *)
Fixpoint patch_messages (l : list message) (outputs_path sandbox : option string) (w : W) : outcome (list message * bool) * W :=
  match l with
  | [] => (Good ([], false), w)
  | Other j :: l =>
      let '(o, w) := patch_messages l outputs_path sandbox w in
      (match o with Good (l, changed) => Good (Other j :: l, changed) | Bad f => Bad f end, w)
  | Tool m :: l =>
      let '(o, w) := _patch_tool_message m outputs_path sandbox w in
      match o with
      | Bad f => (Bad f, w)
      | Good r =>
          let '(o, w) := patch_messages l outputs_path sandbox w in
          (match o with
           | Good (l, changed) => Good (Tool (default m r) :: l, bool_decide (is_Some r) || changed)
           | Bad f => Bad f
           end, w)
      end
  end.

Definition _patch_result (r : result) (outputs_path sandbox : option string) (w : W) : outcome result * W :=
  match r with
  | Message m =>
      let '(o, w) := _patch_tool_message m outputs_path sandbox w in
      (match o with Good p => Good (Message (default m p)) | Bad f => Bad f end, w)
  | Command None => (Good r, w)
  | Command (Some l) =>
      let '(o, w) := patch_messages l outputs_path sandbox w in
      (match o with Good (l', changed) => Good (if changed then Command (Some l') else r) | Bad f => Bad f end, w)
  end.

Definition _patch_model_messages (l : list message) (w : W) : outcome (option (list message)) * W :=
  if negb (existsb over_budget l) then (Good None, w) else
  let '(o, w) := patch_messages l None None w in
  (match o with Good (l', changed) => Good (if changed then Some l' else None) | Bad f => Bad f end, w).

(** ** The middleware *)

Definition wrap_tool_call (state : option dict) (handler : W -> outcome result * W) (w : W) : outcome result * W :=
  let '(o, w) := handler w in
  match o with
  | Bad f => (Bad f, w)
  | Good r =>
      if negb (enabled config) then (Good r, w) else
      if negb (_needs_budget r) then (Good r, w) else
      _patch_result r (_resolve_outputs_path state) (_resolve_sandbox state w) w
  end.

(** The messages the model is asked with. *)
Definition wrap_model_call (l : list message) (w : W) : outcome (list message) * W :=
  if enabled config
  then let '(o, w) := _patch_model_messages l w in
       (match o with Good p => Good (default l p) | Bad f => Bad f end, w)
  else (Good l, w).

End budget.

End ToolOutput.
