(* ===== verification/ToolProgress.v ===== *)
(** * Progress of tools

    [deerflow/agents/middlewares/tool_progress_middleware.py]: for every tool of
    a thread a machine counts results that brought nothing, warns the model and
    in the end blocks the tool for the rest of the run.  The middleware's two
    dictionaries are one state, and what it does under its lock is one
    operation on it. *)
From S2P Require Import Prelude Json Errors Text Slices Float64 OrderedDict BashGuard ToolResults.
Import Json Text Slices Float64.Float64 OrderedDict.OrderedDict ToolResults.

Module ToolProgress.

Definition _MAX_PENDING_PER_RUN : Z := 3.
Definition _MAX_CONTENT_FOR_WORDSET : Z := 8192.

Record Config := {
  _stagnation_threshold : Z;
  _warn_escalation : Z;
  _inject_assessment : bool;
  _jaccard_threshold : float;
  _min_words : Z;
  _exempt_tools : list string;
  _max_tracked_threads : Z
}.

Inductive Phase := Active | Warned | Blocked.

#[export] Instance phase_eq_dec : EqDecision Phase.
Proof. solve_decision. Defined.

Record ToolPhaseState := {
  phase : Phase;
  consecutive_problems : Z;
  block_reason : option string;
  recent_word_sets : list (gset string)
}.
Definition fresh_state : ToolPhaseState := {| phase := Active; consecutive_problems := 0; block_reason := None; recent_word_sets := [] |}.

(** ** The classification of a result *)

Record ToolResultMeta := { meta_status : json; error_type : json; recoverable_by_model : json; recommended_next_action : json; source : json }.

(** [ToolResultMeta( **meta_dict)]: its five keys and no other. *)
Definition _parse_tool_meta (j : option json) : option ToolResultMeta :=
  match j with
  | Some (JObj d) =>
      match get "status" d, get "error_type" d, get "recoverable_by_model" d, get "recommended_next_action" d, get "source" d with
      | Some s, Some e, Some r, Some a, Some o =>
          if bool_decide (length d = 5%nat)
          then Some {| meta_status := s; error_type := e; recoverable_by_model := r; recommended_next_action := a; source := o |}
          else None
      | _, _, _, _, _ => None
      end
  | _ => None
  end.

Definition is_text (s : string) (j : json) : bool := match j with JStr t => (t =? s)%string | _ => false end.

(** A table looked up by a value of the classification. *)
Definition table (l : list (string * string)) (d : string) (j : json) : string :=
  match j with JStr k => default d (lookup k l) | _ => d end.

Definition _format_hint (m : ToolResultMeta) : string :=
  let base := table
    [("no_results", "[PROGRESS HINT] Your search returned no results.");
     ("not_found", "[PROGRESS HINT] The resource was not found repeatedly.");
     ("rate_limited", "[PROGRESS HINT] The tool is being rate-limited.");
     ("transient", "[PROGRESS HINT] The tool encountered repeated transient failures.");
     ("partial_success", "[PROGRESS HINT] The tool has returned incomplete results multiple times.");
     ("success", "[PROGRESS HINT] The tool is returning duplicate results.")]
    "[PROGRESS HINT] The tool is not producing new information."
    (if truthy (error_type m) then error_type m else meta_status m) in
  let suffix := table
    [("rewrite_query", "Try rephrasing your search query with different keywords or approach.");
     ("try_alternative", "Consider using a different tool or strategy.");
     ("summarize", "Consider summarizing your current findings and moving forward.");
     ("stop", "Do not retry this operation " +:+ bytes [226; 128; 148]%N +:+ " it is not recoverable.");
     ("continue", "Try rephrasing your query or using a different search term.")] "" (recommended_next_action m) in
  strip (base +:+ " " +:+ suffix).

Definition _block_reason (m : ToolResultMeta) : string :=
  let dash := " " +:+ bytes [226; 128; 148]%N +:+ " " in
  table
    [("no_results", "Repeated no-results" +:+ dash +:+ "rewrite your query or try a different tool.");
     ("not_found", "Repeated not-found" +:+ dash +:+ "rewrite your query or try a different resource.");
     ("rate_limited", "Repeated rate-limiting" +:+ dash +:+ "summarize current findings and proceed.");
     ("transient", "Repeated transient failures" +:+ dash +:+ "try a different approach.");
     ("auth", "Authentication failure" +:+ dash +:+ "this tool cannot be used.");
     ("config", "Tool is not configured" +:+ dash +:+ "this tool cannot be used.");
     ("internal", "Repeated internal errors" +:+ dash +:+ "this tool is unavailable.")]
    ("Tool has not produced new information after multiple attempts" +:+ dash +:+ "summarize and move on.") (error_type m).

Section progress.
(** [\w] beyond ASCII; [str.lower]. *)
Context (alnum : string -> bool) (lower : string -> string) (cfg : Config).

(** ** Near duplicates *)

(** The runs of word characters. *)
Fixpoint word_runs (run l : list string) : list (list string) :=
  match l with
  | [] => [run]
  | c :: l => if BashGuard.BashGuard.is_word alnum c then word_runs (run ++ [c]) l else run :: word_runs [] l
  end.
Definition word_set (content : string) : gset string :=
  list_to_set (map text_of (List.filter (fun r => (3 <=? length r)%nat) (word_runs [] (chars (lower (upto _MAX_CONTENT_FOR_WORDSET content)))))).

(** [l[-3:]] *)
Definition last_three {A} (l : list A) : list A := drop (length l - 3) l.

Definition similar (current prev : gset string) : bool :=
  negb (Z.of_nat (size prev) <? _min_words cfg) &&
  let union := size (current ∪ prev) in
  negb (union =? 0)%nat && fle (_jaccard_threshold cfg) (int_div (Z.of_nat (size (current ∩ prev))) (Z.of_nat union)).
Definition is_near_duplicate (current : gset string) (recent : list (gset string)) : bool :=
  negb (Z.of_nat (size current) <? _min_words cfg) && existsb (similar current) (last_three recent).

(** ** The machine *)

Definition replace (s : ToolPhaseState) (ph : Phase) (count : Z) (reason : option string) : ToolPhaseState :=
  {| phase := ph; consecutive_problems := count; block_reason := reason; recent_word_sets := recent_word_sets s |}.

Definition _assess_and_transition (s : ToolPhaseState) (m : ToolResultMeta) (content : string) : ToolPhaseState * option string :=
  if bool_decide (phase s = Blocked) then (s, None) else
  let new_count := consecutive_problems s + 1 in
  if negb (truthy (recoverable_by_model m)) && is_text "stop" (recommended_next_action m)
  then (replace s Blocked new_count (Some (_block_reason m)), None) else
  let success := is_text "success" (meta_status m) in
  let ws := if success then word_set content else ∅ in
  let is_problem := is_text "error" (meta_status m) || is_text "partial_success" (meta_status m) ||
                    success && is_near_duplicate ws (recent_word_sets s) in
  if negb is_problem
  then ({| phase := Active; consecutive_problems := 0; block_reason := block_reason s;
           recent_word_sets := last_three (recent_word_sets s ++ [ws]) |}, None)
  else if _stagnation_threshold cfg + _warn_escalation cfg <=? new_count
  then if truthy (recoverable_by_model m)
       then (replace s Warned new_count (block_reason s), Some (_format_hint m))
       else (replace s Blocked new_count (Some (_block_reason m)), None)
  else if _stagnation_threshold cfg <=? new_count
  then (replace s Warned new_count (block_reason s), Some (_format_hint m))
  else (replace s (phase s) new_count (block_reason s), None).

(** ** The middleware's state *)

Record tracker := {
  _phase_states : list (string * list (string * ToolPhaseState));
  _pending : list ((string * string) * list string)
}.
Definition new_tracker : tracker := {| _phase_states := []; _pending := [] |}.

Definition evict_oldest (t : tracker) : tracker :=
  match _phase_states t with
  | [] => t
  | (thread, _) :: l => {| _phase_states := l; _pending := List.filter (fun kv => negb (bool_decide (kv.1.1 = thread))) (_pending t) |}
  end.
(** Every round takes a thread away. *)
Fixpoint evict (fuel : nat) (t : tracker) : tracker :=
  match fuel with
  | O => t
  | S fuel => if _max_tracked_threads cfg <? Z.of_nat (length (_phase_states t)) then evict fuel (evict_oldest t) else t
  end.

(** [_get_state]: the thread's place, and the tool's state there. *)
Definition touch (thread : string) (t : tracker) : tracker :=
  let t := if bool_decide (thread ∈ keys (_phase_states t)) then t
           else let t := {| _phase_states := assign thread [] (_phase_states t); _pending := _pending t |} in
                evict (length (_phase_states t)) t in
  {| _phase_states := move_to_end thread (_phase_states t); _pending := _pending t |}.
Definition state_of (thread tool : string) (t : tracker) : option ToolPhaseState :=
  match lookup thread (_phase_states t) with Some tools => lookup tool tools | None => None end.
Definition _set_state (thread tool : string) (s : ToolPhaseState) (t : tracker) : tracker :=
  {| _phase_states := assign thread (assign tool s (default [] (lookup thread (_phase_states t)))) (_phase_states t);
     _pending := _pending t |}.

Definition _get_block_reason (thread tool : string) (t : tracker) : option string :=
  match state_of thread tool t with
  | Some s => if bool_decide (phase s = Blocked) then block_reason s else None
  | None => None
  end.

Definition _queue_assessment (thread run text : string) (t : tracker) : tracker :=
  if negb (bool_decide (thread ∈ keys (_phase_states t))) then t else
  let queue := default [] (lookup (thread, run) (_pending t)) in
  {| _phase_states := _phase_states t;
     _pending := assign (thread, run) (if Z.of_nat (length queue) <? _MAX_PENDING_PER_RUN then queue ++ [text] else queue) (_pending t) |}.

(** The thread and the run of a runtime. *)
Definition str_or_default (k : string) (context : option dict) : string :=
  match context with
  | Some d => match get k d with
              | Some (JStr s) => if (s =? "")%string then "default" else s
              | Some j => if truthy j then Json.print j else "default"
              | None => "default"
              end
  | None => "default"
  end.
Definition _thread_id : option dict -> string := str_or_default "thread_id".
Definition _run_id : option dict -> string := str_or_default "run_id".

(** The two sections under the lock, one after the other. *)
Definition record_result (thread tool : string) (m : ToolResultMeta) (content : string) (t : tracker) : tracker * option string :=
  let t := touch thread t in
  let '(s, hint) := _assess_and_transition (default fresh_state (state_of thread tool t)) m content in
  (_set_state thread tool s t, hint).
Definition _update_state_from_result (res : result) (tool : string) (context : option dict) (t : tracker) : tracker :=
  match res with
  | Command _ => t
  | Message msg =>
      match _parse_tool_meta (get TOOL_META_KEY (additional_kwargs msg)) with
      | None => t
      | Some m =>
          let '(t, hint) := record_result (_thread_id context) tool m (text_content msg) t in
          match hint with
          | Some text => if _inject_assessment cfg then _queue_assessment (_thread_id context) (_run_id context) text t else t
          | None => t
          end
      end
  end.

Definition _make_blocked_message (call_id tool reason : string) : ToolMessage :=
  {| content := JStr ("[TOOL_BLOCKED] " +:+ reason); status := "error";
     additional_kwargs := [(TOOL_META_KEY, _make_meta "error" "progress_middleware" (JStr "blocked_by_progress_guard") true "summarize")];
     tool_call_id := call_id; message_name := tool |}.

(** [context] is [None] where the request has no runtime.  What the tool behind
    answers is [handler], over a state of its own. *)
Definition wrap_tool_call {W} (call_id tool : string) (runtime : option (option dict)) (handler : W -> result * W) (s : tracker * W)
    : result * (tracker * W) :=
  let pass := let '(r, w) := handler s.2 in (r, (s.1, w)) in
  if (tool =? "")%string || bool_decide (tool ∈ _exempt_tools cfg) then pass else
  match runtime with
  | None => pass
  | Some context =>
      match _get_block_reason (_thread_id context) tool s.1 with
      | Some (String _ _ as reason) => (Message (_make_blocked_message call_id tool reason), s)
      | _ => let '(r, w) := handler s.2 in (r, (_update_state_from_result r tool context s.1, w))
      end
  end.

(** ** The model's turn *)

Definition _drain_pending (context : option dict) (t : tracker) : list string * tracker :=
  let k := (_thread_id context, _run_id context) in
  (default [] (lookup k (_pending t)), {| _phase_states := _phase_states t; _pending := pop k (_pending t) |}).

(** The hint appended to the messages, if there is one. *)
Definition _augment_request (context : option dict) (t : tracker) : option string * tracker :=
  let '(hints, t) := _drain_pending context t in
  (match hints with [] => None | _ => Some (join (newline +:+ newline) (fromkeys hints)) end, t).

Definition _clear_stale_pending (context : option dict) (t : tracker) : tracker :=
  {| _phase_states := _phase_states t;
     _pending := List.filter (fun kv => negb (bool_decide (kv.1.1 = _thread_id context) && negb (bool_decide (kv.1.2 = _run_id context))))
                   (_pending t) |}.
Definition reset_state (_ : ToolPhaseState) : ToolPhaseState := fresh_state.
Definition _reset_run_states (context : option dict) (t : tracker) : tracker :=
  {| _phase_states := map_where (fun kv => bool_decide (kv.1 = _thread_id context))
                        (fun kv => (kv.1, map (fun tool => (tool.1, reset_state tool.2)) kv.2)) (_phase_states t);
     _pending := _pending t |}.
Definition before_agent (context : option dict) (t : tracker) : tracker := _reset_run_states context (_clear_stale_pending context t).

End progress.

End ToolProgress.
