(* ===== verification/ProgressGuard.v ===== *)
(** * The progress guard blocks what cannot recover

    The theorems about [ToolProgress]: over every history of results, model
    turns and runs the middleware's state is bounded and consistent, a tool is
    blocked only for results the model cannot mend, and a blocked tool is not
    called. *)
From S2P Require Import Prelude Json Errors Text Slices Float64 OrderedDict ToolResults ToolProgress.
Import Json Text Slices OrderedDict.OrderedDict ToolResults ToolProgress.

Module ProgressGuard.

(** ** Dictionaries *)

Section dict.
Context {K V : Type} `{EqDecision K}.
Implicit Types (d : list (K * V)) (k : K).

Lemma lookup_elem k v d : NoDup (keys d) -> (k, v) ∈ d <-> lookup k d = Some v.
Proof.
  unfold keys, lookup. induction d as [|[x w] d IH]; cbn; [split; [by intros ?%elem_of_nil|done]|].
  intros [N ND]%NoDup_cons. rewrite elem_of_cons. case_bool_decide as E; cbn.
  - subst x. split; [intros [[= ->]|H]; [done|]|intros [= ->]; by left]. destruct N. by apply (list_elem_of_fmap_2 fst _ (k, v)).
  - rewrite <- IH by done. split; [intros [[= ? ?]|H]; [congruence|done]|by right].
Qed.

Lemma elem_keys k d : k ∈ keys d <-> exists v, (k, v) ∈ d.
Proof. unfold keys. rewrite list_elem_of_fmap. split; [intros ([x v] & -> & H); by exists v|intros [v H]; by exists (k, v)]. Qed.

Lemma lookup_assign_other k k' v d : k <> k' -> lookup k (assign k' v d) = lookup k d.
Proof.
  intros N. unfold assign, lookup, map_where. destruct (bool_decide (k' ∈ keys d)).
  - induction d as [|[x w] d IH]; cbn; [done|]. destruct (bool_decide (x = k')) eqn:E; cbn.
    + apply bool_decide_eq_true in E as ->. rewrite bool_decide_eq_false_2 by done. done.
    + destruct (bool_decide (x = k)); [done|exact IH].
  - induction d as [|[x w] d IH]; cbn; [by rewrite bool_decide_eq_false_2 by done|]. destruct (bool_decide (x = k)); [done|exact IH].
Qed.

Lemma assign_spec k v k' w d : NoDup (keys d) -> (k', w) ∈ assign k v d <-> (k' = k /\ w = v) \/ (k' <> k /\ (k', w) ∈ d).
Proof.
  intros N. rewrite lookup_elem by by apply nodup_assign. destruct (decide (k' = k)) as [->|E].
  - rewrite lookup_assign. naive_solver.
  - rewrite lookup_assign_other, <- lookup_elem by done. naive_solver.
Qed.

Lemma move_perm k d : move_to_end k d ≡ₚ d.
Proof.
  unfold move_to_end, pop. induction d as [|[x v] d IH]; [done|]. cbn. destruct (bool_decide (x = k)); cbn; [|by rewrite IH].
  rewrite <- Permutation_middle. by rewrite IH.
Qed.

Lemma keys_perm d d' : d ≡ₚ d' -> keys d ≡ₚ keys d'.
Proof. intros H. unfold keys. by rewrite H. Qed.
End dict.

Section guard.
Context (alnum : string -> bool) (lower : string -> string) (cfg : Config).
Context (Threads : 1 <= _max_tracked_threads cfg) (Threshold : 1 <= _stagnation_threshold cfg)
        (Escalation : 1 <= _warn_escalation cfg).

(** ** The invariant *)

Definition state_ok (s : ToolPhaseState) : Prop :=
  match phase s with
  | Active => 0 <= consecutive_problems s < _stagnation_threshold cfg /\ block_reason s = None
  | Warned => _stagnation_threshold cfg <= consecutive_problems s /\ block_reason s = None
  | Blocked => exists c r, block_reason s = Some (String c r)
  end /\ (length (recent_word_sets s) <= 3)%nat.

Definition tracker_ok (t : tracker) : Prop :=
  NoDup (keys (_phase_states t)) /\ Z.of_nat (length (_phase_states t)) <= _max_tracked_threads cfg /\
  (forall thread tools, (thread, tools) ∈ _phase_states t -> NoDup (keys tools) /\ forall tool s, (tool, s) ∈ tools -> state_ok s) /\
  NoDup (keys (_pending t)) /\
  (forall k queue, (k, queue) ∈ _pending t -> k.1 ∈ keys (_phase_states t) /\ Z.of_nat (length queue) <= _MAX_PENDING_PER_RUN).

Lemma fresh_ok : state_ok fresh_state.
Proof. split; [split; [cbn; lia|done]|cbn; lia]. Qed.

Lemma table_text l d j : forallb (fun kv => negb (kv.2 =? "")%string) l = true -> d <> "" -> table l d j <> "".
Proof.
  unfold table, lookup. intros H D. destruct j as [| | | |k| |]; try done. induction l as [|[x v] l IH]; cbn in *; [done|].
  apply andb_true_iff in H as [Hv Hl]. apply negb_true_iff, String.eqb_neq in Hv. destruct (bool_decide (x = k)); [done|by apply IH].
Qed.

Lemma reason_text m : exists c r, _block_reason m = String c r.
Proof.
  assert (_block_reason m <> "") as N by by apply table_text. destruct (_block_reason m) as [|c r]; [done|by exists c, r].
Qed.

Lemma last_three_length {A} (l : list A) : (length (last_three l) <= 3)%nat.
Proof. unfold last_three. rewrite length_drop. lia. Qed.

Lemma assess_ok s m content : state_ok s -> state_ok (_assess_and_transition alnum lower cfg s m content).1.
Proof.
  intros [P R]. unfold _assess_and_transition. destruct (bool_decide (phase s = Blocked)) eqn:B; [done|].
  apply bool_decide_eq_false in B. destruct (reason_text m) as (c & r & E).
  destruct (negb _ && _); [split; [cbn -[_block_reason]; rewrite E; by eexists _, _|done]|]. cbv zeta. destruct (negb _).
  { split; [|apply last_three_length]. cbn. destruct (phase s); [..|done]; destruct P as [P Q]; (split; [lia|done]). }
  destruct (Z.leb_spec (_stagnation_threshold cfg + _warn_escalation cfg) (consecutive_problems s + 1)) as [L|L].
  - destruct (truthy _); (split; [cbn -[_block_reason]|done]); [|rewrite E; by eexists _, _].
    destruct (phase s); [..|done]; destruct P as [P Q]; (split; [|done]).
    + lia.
    + lia.
  - destruct (Z.leb_spec (_stagnation_threshold cfg) (consecutive_problems s + 1)) as [L2|L2]; (split; [cbn|done]).
    + by destruct (phase s); [..|done]; destruct P as [P Q].
    + destruct (phase s); [..|done]; destruct P as [P Q]; (split; [lia|done]).
Qed.

(** ** The operations keep it *)

Lemma evict_once t fuel : Z.of_nat (length (_phase_states t)) <= _max_tracked_threads cfg + 1 ->
  evict cfg (S fuel) t = if _max_tracked_threads cfg <? Z.of_nat (length (_phase_states t)) then evict_oldest t else t.
Proof.
  intros L. cbn [evict]. destruct (Z.ltb_spec (_max_tracked_threads cfg) (Z.of_nat (length (_phase_states t)))) as [E|E]; [|done].
  destruct fuel as [|fuel]; [done|]. cbn [evict]. assert (Z.of_nat (length (_phase_states (evict_oldest t))) <= _max_tracked_threads cfg) as B.
  { unfold evict_oldest. destruct (_phase_states t) as [|[x v] l]; cbn [_phase_states length] in *; lia. }
  destruct (Z.ltb_spec (_max_tracked_threads cfg) (Z.of_nat (length (_phase_states (evict_oldest t))))); [lia|done].
Qed.

Lemma move_ok thread t : tracker_ok t -> tracker_ok {| _phase_states := move_to_end thread (_phase_states t); _pending := _pending t |}.
Proof.
  intros (N & L & S & NP & P). unfold tracker_ok. cbn [_phase_states _pending]. split_and!; [|by rewrite move_perm| |done|].
  - by rewrite (keys_perm _ _ (move_perm thread _)).
  - intros k tools. rewrite move_perm. apply S.
  - intros k queue H. rewrite (keys_perm _ _ (move_perm thread _)). by apply P.
Qed.

(** A thread that is added pushes out the oldest one at most. *)
Lemma add_ok thread t : tracker_ok t -> thread ∉ keys (_phase_states t) ->
  let t1 := {| _phase_states := assign thread [] (_phase_states t); _pending := _pending t |} in
  let t2 := evict cfg (length (_phase_states t1)) t1 in
  tracker_ok t2 /\ thread ∈ keys (_phase_states t2) /\ (forall x, x ∈ _phase_states t2 -> x ∈ _phase_states t \/ x = (thread, [])).
Proof.
  intros (N & L & S & NP & P) E. cbv zeta. set (t1 := {| _phase_states := assign thread [] (_phase_states t); _pending := _pending t |}).
  assert (_phase_states t1 = _phase_states t ++ [(thread, [])]) as E1 by (cbn; unfold assign; by rewrite bool_decide_eq_false_2).
  assert (NoDup (keys (_phase_states t1))) as N1 by (cbn; by apply nodup_assign).
  assert (length (_phase_states t1) = Datatypes.S (length (_phase_states t))) as L1 by (rewrite E1, length_app; cbn; lia).
  assert (_pending t1 = _pending t) as P1 by done. clearbody t1. rewrite L1, evict_once by lia.
  assert (forall x, x ∈ _phase_states t1 -> x ∈ _phase_states t \/ x = (thread, [])) as In1
    by (rewrite E1; intros x [H|H%list_elem_of_singleton]%elem_of_app; by auto).
  assert (forall k tools, (k, tools) ∈ _phase_states t1 -> NoDup (keys tools) /\ forall tool s, (tool, s) ∈ tools -> state_ok s) as S1.
  { intros k tools [H|[= -> ->]]%In1; [by apply (S k)|]. split; [constructor|]. by intros tool s ?%elem_of_nil. }
  destruct (Z.ltb_spec (_max_tracked_threads cfg) (Z.of_nat (length (_phase_states t1)))) as [Lt|Ge].
  - unfold evict_oldest. rewrite E1 in *. rewrite P1. destruct (_phase_states t) as [|[x v] l] eqn:F; [cbn in Lt; lia|].
    cbn [app] in *. unfold keys in N1. cbn [map fst] in N1. apply NoDup_cons in N1 as [Nx N1]. split; [|split].
    + unfold tracker_ok. cbn [_phase_states _pending]. split_and!; [done|rewrite length_app in *; cbn in *; lia|intros k tools H; apply (S1 k); by right| |].
      * exact (nodup_keys_filter (fun k : string * string => negb (bool_decide (k.1 = x))) _ NP).
      * intros k queue [H B]%filter_elem. apply negb_true_iff, bool_decide_eq_false in B. cbn in B.
        destruct (P k queue H) as [Pk Pq]. split; [|done]. apply elem_of_cons in Pk as [Pk|Pk]; [done|]. unfold keys. rewrite map_app.
        apply elem_of_app. by left.
    + cbn [_phase_states]. unfold keys. rewrite map_app. apply elem_of_app. right. by left.
    + intros y H. apply In1. by right.
  - assert (forall k, k ∈ keys (_phase_states t) \/ k = thread -> k ∈ keys (_phase_states t1)) as K1.
    { intros k H. rewrite E1. unfold keys. rewrite map_app. apply elem_of_app. destruct H as [H| ->]; [by left|right; by left]. }
    split; [|split; [apply K1; by right|exact In1]]. unfold tracker_ok. rewrite P1. split_and!; [done|lia|done|done|].
    intros k queue H. destruct (P k queue H) as [Pk Pq]. split; [|done]. apply K1. by left.
Qed.

(** The thread is there, in the last place; nothing else is new. *)
Lemma touch_spec thread t : tracker_ok t ->
  let t' := touch cfg thread t in
  tracker_ok t' /\ thread ∈ keys (_phase_states t') /\
  (forall k v, (k, v) ∈ _phase_states t' -> (k, v) ∈ _phase_states t \/ (k = thread /\ v = [] /\ thread ∉ keys (_phase_states t))) /\
  (forall v, (thread, v) ∈ _phase_states t -> (thread, v) ∈ _phase_states t').
Proof.
  intros T. unfold touch. destruct (bool_decide (thread ∈ keys (_phase_states t))) eqn:E.
  - apply bool_decide_eq_true in E. cbv zeta. split; [by apply move_ok|]. cbn [_phase_states].
    rewrite (keys_perm _ _ (move_perm thread _)). split_and!; [done| |]; intros *; rewrite move_perm; by auto.
  - apply bool_decide_eq_false in E. destruct (add_ok thread t T E) as (O & Th & In). cbv zeta. split; [by apply move_ok|].
    cbn [_phase_states]. rewrite (keys_perm _ _ (move_perm thread _)). split_and!; [done| |].
    + intros k v. rewrite move_perm. intros [H|[= -> ->]]%In; [by left|by right].
    + intros v H. destruct E. apply elem_keys. by exists v.
Qed.

Lemma keys_set thread tool s t : thread ∈ keys (_phase_states t) -> keys (_phase_states (_set_state thread tool s t)) = keys (_phase_states t).
Proof. intros H. unfold _set_state. cbn [_phase_states]. rewrite keys_assign. by rewrite bool_decide_eq_true_2. Qed.

Lemma set_ok thread tool s t : tracker_ok t -> thread ∈ keys (_phase_states t) -> state_ok s -> tracker_ok (_set_state thread tool s t).
Proof.
  intros (N & L & S & NP & P) H O. pose proof (keys_set thread tool s t H) as K.
  unfold tracker_ok. rewrite K. split_and!; [done| | |done|done].
  - unfold _set_state, assign at 1. cbn [_phase_states]. by rewrite bool_decide_eq_true_2, length_map_where.
  - intros k tools [[-> ->]|[_ M]]%assign_spec; [|by apply (S k)|done]. apply elem_keys in H as [tools H]. pose proof H as H'.
    apply lookup_elem in H' as ->; [|done]. cbn. destruct (S thread tools H) as [NT ST]. split; [by apply nodup_assign|].
    intros tl s' [[-> ->]|[_ M]]%assign_spec; [done|by apply (ST tl)|done].
Qed.

Lemma same_states_ok t p : tracker_ok t -> NoDup (keys p) ->
  (forall k queue, (k, queue) ∈ p -> k.1 ∈ keys (_phase_states t) /\ Z.of_nat (length queue) <= _MAX_PENDING_PER_RUN) ->
  tracker_ok {| _phase_states := _phase_states t; _pending := p |}.
Proof. intros (N & L & S & _ & _) NP P. by split_and!. Qed.

Lemma queue_ok thread run text t : tracker_ok t -> tracker_ok (_queue_assessment thread run text t).
Proof.
  intros T. pose proof T as (_ & _ & _ & NP & P). unfold _queue_assessment. destruct (bool_decide (thread ∈ keys (_phase_states t))) eqn:E; [|done].
  apply bool_decide_eq_true in E. apply same_states_ok; [done|by apply nodup_assign|].
  intros k queue [[-> ->]|[_ M]]%assign_spec; [|by apply P|done]. split; [done|].
  assert (Z.of_nat (length (default [] (lookup (thread, run) (_pending t)))) <= _MAX_PENDING_PER_RUN) as Q.
  { destruct (lookup (thread, run) (_pending t)) as [q|] eqn:F; [|by vm_compute]. apply lookup_elem in F; [|done]. by apply P in F as [_ ?]. }
  destruct (Z.ltb_spec (Z.of_nat (length (default [] (lookup (thread, run) (_pending t))))) _MAX_PENDING_PER_RUN) as [B|B]; [|done].
  rewrite length_app. cbn [length]. lia.
Qed.

Lemma state_of_elem thread tool s t : tracker_ok t ->
  state_of thread tool t = Some s <-> exists tools, (thread, tools) ∈ _phase_states t /\ (tool, s) ∈ tools.
Proof.
  intros (N & _ & S & _). unfold state_of. split.
  - destruct (lookup thread (_phase_states t)) as [tools|] eqn:E; [|done]. apply lookup_elem in E; [|done]. intros F. exists tools.
    split; [done|]. apply lookup_elem; [|done]. by apply (S thread).
  - intros (tools & H & F). pose proof H as H'. apply lookup_elem in H' as ->; [|done]. apply lookup_elem; [|done]. by apply (S thread).
Qed.

Lemma state_ok_of thread tool t : tracker_ok t -> state_ok (default fresh_state (state_of thread tool t)).
Proof.
  intros T. destruct (state_of thread tool t) as [s|] eqn:E; [|apply fresh_ok]. apply state_of_elem in E as (tools & H & F); [|done].
  destruct T as (_ & _ & S & _). by apply (proj2 (S thread tools H) tool).
Qed.

(** ** Histories *)

Inductive event :=
  | Answered (context : option dict) (tool : string) (res : result)
  | ModelTurn (context : option dict)
  | RunStarts (context : option dict).

Definition perform (e : event) (t : tracker) : tracker :=
  match e with
  | Answered context tool res => _update_state_from_result alnum lower cfg res tool context t
  | ModelTurn context => (_augment_request context t).2
  | RunStarts context => before_agent context t
  end.
Definition history (l : list event) : tracker := foldl (fun t e => perform e t) new_tracker l.

Lemma reset_ok thread t : tracker_ok t ->
  tracker_ok {| _phase_states := map_where (fun kv => bool_decide (kv.1 = thread)) (fun kv => (kv.1, map (fun tool => (tool.1, reset_state tool.2)) kv.2)) (_phase_states t);
                _pending := _pending t |}.
Proof.
  intros (N & L & S & NP & P).
  assert (forall d : list (string * list (string * ToolPhaseState)),
    keys (map_where (fun kv => bool_decide (kv.1 = thread)) (fun kv => (kv.1, map (fun tool => (tool.1, reset_state tool.2)) kv.2)) d) = keys d) as K.
  { intros d. unfold keys, map_where. rewrite map_map. apply map_ext. intros [x v]. cbn. by destruct (bool_decide (x = thread)). }
  unfold tracker_ok. cbn [_phase_states _pending]. rewrite K. split_and!; [done|by rewrite length_map_where| |done|done].
  intros k tools [[k' v] [H E]]%elem_of_map_where. cbn in E. destruct (S k' v H) as [NV SV].
  destruct (bool_decide (k' = thread)); injection E as -> ->; [|done]. split.
  - unfold keys in *. by rewrite map_map.
  - intros tool s ([x v'] & [= -> ->] & _)%list_elem_of_fmap. apply fresh_ok.
Qed.

Lemma perform_ok e t : tracker_ok t -> tracker_ok (perform e t).
Proof.
  intros T. destruct e as [context tool [msg|o]|context|context]; cbn [perform]; [|done| |].
  - unfold _update_state_from_result, record_result. destruct (_parse_tool_meta _) as [m|]; [|done].
    destruct (touch_spec (_thread_id context) t T) as (T' & Th & _ & _). set (t' := touch cfg (_thread_id context) t) in *.
    pose proof (assess_ok _ m (text_content msg) (state_ok_of (_thread_id context) tool t' T')) as O.
    destruct (_assess_and_transition _ _ _ _ _ _) as [s hint]. cbn in O. pose proof (set_ok (_thread_id context) tool s t' T' Th O) as T2.
    destruct hint; [|done]. destruct (_inject_assessment cfg); [by apply queue_ok|done].
  - pose proof T as (_ & _ & _ & NP & P). cbn. apply same_states_ok; [done|by apply nodup_keys_pop|].
    intros k queue [H _]%filter_elem. by apply P.
  - pose proof T as (_ & _ & _ & NP & P). unfold before_agent, _reset_run_states. apply reset_ok.
    apply (same_states_ok t); [done| |].
    + exact (nodup_keys_filter (fun k : string * string => negb (bool_decide (k.1 = _thread_id context) && negb (bool_decide (k.2 = _run_id context)))) _ NP).
    + intros k queue [H _]%filter_elem. by apply P.
Qed.

Lemma history_ok l : tracker_ok (history l).
Proof.
  unfold history. assert (tracker_ok new_tracker) as T.
  { split_and!; cbn; [constructor|lia|by intros ? ? ?%elem_of_nil|constructor|by intros ? ? ?%elem_of_nil]. }
  revert T. generalize new_tracker. induction l as [|e l IH]; intros t T; [done|]. apply IH. by apply perform_ok.
Qed.

(** ** What the history of a tool amounts to *)

(** A result that is classified: its thread, its tool, the class and the text. *)
Definition judged (e : event) : option (string * string * ToolResultMeta * string) :=
  match e with
  | Answered context tool (Message msg) =>
      match _parse_tool_meta (get TOOL_META_KEY (additional_kwargs msg)) with
      | Some m => Some (_thread_id context, tool, m, text_content msg)
      | None => None
      end
  | _ => None
  end.
Definition restarts (thread : string) (e : event) : bool :=
  match e with RunStarts context => bool_decide (_thread_id context = thread) | _ => false end.

(** The threads in the order of their latest result, the last [max] of them. *)
Definition latest (x : string) (order : list string) : list string :=
  let order := List.filter (fun y => negb (bool_decide (y = x))) order ++ [x] in
  drop (length order - Z.to_nat (_max_tracked_threads cfg)) order.

(** With them, newest first, the results of a tool since its thread began a run or
    was forgotten. *)
Definition hear (thread tool : string) (st : list string * list (ToolResultMeta * string)) (e : event) :
    list string * list (ToolResultMeta * string) :=
  let order := match judged e with Some (x, _, _, _) => latest x st.1 | None => st.1 end in
  (order,
   if negb (bool_decide (thread ∈ order)) || restarts thread e then [] else
   match judged e with
   | Some (x, y, m, content) => if bool_decide ((x, y) = (thread, tool)) then (m, content) :: st.2 else st.2
   | None => st.2
   end).
Definition heard (thread tool : string) (l : list event) : list string * list (ToolResultMeta * string) :=
  foldl (hear thread tool) ([], []) l.

(** A result is a problem if it is an error or partial, or repeats what one of the
    last three results that were none had brought. *)
Definition problem (brought : list (gset string)) (r : ToolResultMeta * string) : bool :=
  match meta_status r.1 with
  | JStr s => (s =? "error")%string || (s =? "partial_success")%string ||
              (s =? "success")%string && is_near_duplicate cfg (word_set alnum lower r.2) (last_three brought)
  | _ => false
  end.
Fixpoint brought (rs : list (ToolResultMeta * string)) : list (gset string) :=
  match rs with
  | [] => []
  | r :: before =>
      if problem (brought before) r then brought before
      else brought before ++ [if is_text "success" (meta_status r.1) then word_set alnum lower r.2 else ∅]
  end.

(** The problems in a row up to the latest result. *)
Fixpoint streak (rs : list (ToolResultMeta * string)) : Z :=
  match rs with
  | [] => 0
  | r :: before => if problem (brought before) r then streak before + 1 else 0
  end.

(** The result that blocked the tool: the first one the model cannot mend that
    either says so or ends a row of threshold and escalation. *)
Fixpoint blocking (rs : list (ToolResultMeta * string)) : option ToolResultMeta :=
  match rs with
  | [] => None
  | r :: before =>
      match blocking before with
      | Some m => Some m
      | None =>
          if negb (truthy (recoverable_by_model r.1)) &&
             (is_text "stop" (recommended_next_action r.1) ||
              problem (brought before) r && (_stagnation_threshold cfg + _warn_escalation cfg <=? streak rs))
          then Some r.1 else None
      end
  end.

(** The latest result earns a hint. *)
Definition warns (rs : list (ToolResultMeta * string)) : bool :=
  match blocking rs, rs with
  | None, r :: before => problem (brought before) r && (_stagnation_threshold cfg <=? streak rs)
  | _, _ => false
  end.

(** The state of a tool after its results. *)
Definition agrees (rs : list (ToolResultMeta * string)) (s : ToolPhaseState) : Prop :=
  match blocking rs with
  | Some m => phase s = Blocked /\ block_reason s = Some (_block_reason m)
  | None => phase s = (if _stagnation_threshold cfg <=? streak rs then Warned else Active) /\
            consecutive_problems s = streak rs /\ block_reason s = None /\ recent_word_sets s = last_three (brought rs)
  end.

Lemma last_three_again {A} (l : list A) : last_three (last_three l) = last_three l.
Proof. unfold last_three. rewrite drop_drop, length_drop. f_equal. lia. Qed.

Lemma last_three_snoc {A} (l : list A) x : last_three (last_three l ++ [x]) = last_three (l ++ [x]).
Proof.
  unfold last_three. set (n := (length l - 3)%nat).
  assert (l ++ [x] = take n l ++ (drop n l ++ [x])) as E by by rewrite app_assoc, take_drop.
  rewrite E, (drop_app_ge (take n l)) by (rewrite !length_app, length_take, length_drop; cbn [length]; lia). f_equal.
  rewrite !length_app, !length_take, !length_drop. cbn [length]. lia.
Qed.

Lemma problem_is s m content before : recent_word_sets s = last_three (brought before) ->
  is_text "error" (meta_status m) || is_text "partial_success" (meta_status m) ||
    is_text "success" (meta_status m) &&
    is_near_duplicate cfg (if is_text "success" (meta_status m) then word_set alnum lower content else ∅) (recent_word_sets s) =
  problem (brought before) (m, content).
Proof.
  intros ->. unfold problem. cbn [fst snd]. destruct (meta_status m) as [| | | |x| |]; try done. cbn [is_text].
  by destruct (x =? "success")%string.
Qed.

Lemma agrees_next before s m content : agrees before s ->
  let rs := (m, content) :: before in
  agrees rs (_assess_and_transition alnum lower cfg s m content).1 /\
  (_assess_and_transition alnum lower cfg s m content).2 = if warns rs then Some (_format_hint m) else None.
Proof.
  intros A rs. unfold agrees in A. unfold _assess_and_transition, agrees, warns. subst rs. cbn [blocking].
  destruct (blocking before) as [m'|]; [by destruct A as [A B]; rewrite bool_decide_eq_true_2 by done; split_and!|].
  destruct A as (P & C & B & R). rewrite bool_decide_eq_false_2 by (rewrite P; by destruct (_ <=? _)).
  pose proof (problem_is s m content before R) as Pr. cbn [fst snd streak brought].
  destruct (truthy (recoverable_by_model m)) eqn:T; cbn [negb andb];
    [|destruct (is_text "stop" _) eqn:St; cbn [orb]; [by split|]];
    cbv zeta; rewrite Pr, C; destruct (problem (brought before) (m, content)) eqn:Q; cbn [negb andb].
  - assert (streak before + 1 <=? streak before + 1 = true) as _ by lia.
    destruct (Z.leb_spec (_stagnation_threshold cfg + _warn_escalation cfg) (streak before + 1)).
    + rewrite (proj2 (Z.leb_le (_stagnation_threshold cfg) (streak before + 1))) by lia. by split_and!.
    + destruct (Z.leb_spec (_stagnation_threshold cfg) (streak before + 1)); [by split_and!|]. split; [|done]. split_and!; try done.
      cbn. rewrite P. by rewrite (proj2 (Z.leb_gt (_stagnation_threshold cfg) (streak before))) by lia.
  - split; [|done]. rewrite (proj2 (Z.leb_gt (_stagnation_threshold cfg) 0)) by lia. split_and!; try done. cbn. by rewrite R, last_three_snoc.
  - destruct (Z.leb_spec (_stagnation_threshold cfg + _warn_escalation cfg) (streak before + 1)); [by split|].
    destruct (Z.leb_spec (_stagnation_threshold cfg) (streak before + 1)); [by split_and!|]. split; [|done]. split_and!; try done.
    cbn. rewrite P. by rewrite (proj2 (Z.leb_gt (_stagnation_threshold cfg) (streak before))) by lia.
  - split; [|done]. rewrite (proj2 (Z.leb_gt (_stagnation_threshold cfg) 0)) by lia. split_and!; try done. cbn. by rewrite R, last_three_snoc.
Qed.

(** ** The table of threads *)

Lemma keys_pop k (d : list (string * list (string * ToolPhaseState))) :
  keys (pop k d) = List.filter (fun y => negb (bool_decide (y = k))) (keys d).
Proof.
  unfold keys, pop. induction d as [|[x v] d IH]; [done|]. cbn. destruct (bool_decide (x = k)); cbn; [exact IH|by rewrite IH].
Qed.

Lemma keys_move thread (d : list (string * list (string * ToolPhaseState))) : NoDup (keys d) -> thread ∈ keys d ->
  keys (move_to_end thread d) = List.filter (fun y => negb (bool_decide (y = thread))) (keys d) ++ [thread].
Proof.
  intros N H. unfold move_to_end. unfold keys at 1. rewrite map_app. fold (keys (pop thread d)). rewrite keys_pop. f_equal.
  induction d as [|[x v] d IH]; [by apply elem_of_nil in H|]. unfold keys in N, H. cbn in N, H. apply NoDup_cons in N as [Nx N]. cbn.
  destruct (decide (x = thread)) as [->|Ne].
  - rewrite bool_decide_eq_true_2 by done. cbn. f_equal. clear -Nx. induction d as [|[y w] d IH]; [done|]. cbn in Nx |- *.
    apply not_elem_of_cons in Nx as [Ny Nx]. rewrite bool_decide_eq_false_2 by congruence. by apply IH.
  - rewrite bool_decide_eq_false_2 by done. apply IH; [done|]. by apply elem_of_cons in H as [->|H].
Qed.

Lemma touch_keys x t : tracker_ok t -> keys (_phase_states (touch cfg x t)) = latest x (keys (_phase_states t)).
Proof.
  intros T. pose proof T as (N & L & _). unfold touch, latest.
  set (f := fun y : string => negb (bool_decide (y = x))). set (ks := keys (_phase_states t)).
  assert (length ks = length (_phase_states t)) as Lk by apply length_map.
  destruct (bool_decide (x ∈ ks)) eqn:E.
  - apply bool_decide_eq_true in E. cbn [_phase_states]. rewrite keys_move by done. fold ks f.
    assert (length (List.filter f ks) < length ks)%nat as Lt.
    { clear -E. subst f. induction ks as [|y ks IH]; [by apply elem_of_nil in E|]. cbn. destruct (bool_decide (y = x)) eqn:Y; cbn.
      - pose proof (filter_length_le (fun y0 : string => negb (bool_decide (y0 = x))) ks). lia.
      - apply elem_of_cons in E as [->|E]; [by rewrite bool_decide_eq_true_2 in Y|]. specialize (IH E). lia. }
    rewrite length_app. cbn [length]. replace (_ - _)%nat with 0%nat by lia. done.
  - apply bool_decide_eq_false in E. destruct (add_ok x t T E) as (T2 & Th & _). cbv zeta in *.
    set (t1 := {| _phase_states := assign x [] (_phase_states t); _pending := _pending t |}) in *.
    assert (_phase_states t1 = _phase_states t ++ [(x, [])]) as E1 by (cbn; unfold assign; by rewrite bool_decide_eq_false_2).
    assert (List.filter f ks = ks) as Same.
    { clear -E. subst f. induction ks as [|y ks IH]; [done|]. apply not_elem_of_cons in E as [Ny E]. cbn.
      rewrite bool_decide_eq_false_2 by congruence. cbn. by rewrite IH. }
    rewrite Same. cbn [_phase_states]. rewrite keys_move by (done || apply T2).
    assert (length (_phase_states t1) = Datatypes.S (length (_phase_states t))) as L1 by (rewrite E1, length_app; cbn; lia).
    assert (keys (_phase_states (evict cfg (length (_phase_states t1)) t1)) = drop (length (ks ++ [x]) - Z.to_nat (_max_tracked_threads cfg)) ks ++ [x]) as K.
    { rewrite L1, evict_once by lia. rewrite length_app. cbn [length]. destruct (Z.ltb_spec (_max_tracked_threads cfg) (Z.of_nat (length (_phase_states t1)))).
      - replace (length ks + 1 - _)%nat with 1%nat by lia. unfold evict_oldest. rewrite E1. subst ks. destruct (_phase_states t) as [|[y v] d]; [cbn in *; lia|].
        cbn [app _phase_states]. unfold keys. by rewrite map_app.
      - replace (length ks + 1 - _)%nat with 0%nat by lia. rewrite E1. unfold keys. by rewrite map_app. }
    rewrite K. change (fun y : string => negb (bool_decide (y = x))) with f. rewrite (drop_app_le ks [x]) by (rewrite length_app; cbn [length]; lia).
    rewrite List.filter_app. assert (List.filter f [x] = []) as -> by (cbn; subst f; cbn; by rewrite bool_decide_eq_true_2). rewrite app_nil_r. f_equal.
    clear -E. subst f. set (n := (_ - _)%nat). clearbody n. revert n. induction ks as [|y ks IH]; intros n; [by rewrite drop_nil|].
    apply not_elem_of_cons in E as [Ny E]. destruct n as [|n]; [|by apply IH]. cbn. rewrite bool_decide_eq_false_2 by congruence. cbn. f_equal.
    by apply (IH E 0%nat).
Qed.

(** A thread that is still there has its states. *)
Lemma touch_state x thread tool t : tracker_ok t -> thread ∈ keys (_phase_states (touch cfg x t)) ->
  state_of thread tool (touch cfg x t) = state_of thread tool t.
Proof.
  intros T H. destruct (touch_spec x t T) as (T' & _ & In & _). pose proof T as (N & _). pose proof T' as (N' & _).
  apply elem_keys in H as [v H]. unfold state_of. pose proof H as L. apply lookup_elem in L as ->; [|done].
  destruct (In _ _ H) as [H'|(-> & -> & Nx)]; [apply lookup_elem in H' as ->; done|].
  destruct (lookup x (_phase_states t)) as [w|] eqn:F; [|done]. apply lookup_elem in F; [|done]. destruct Nx. apply elem_keys. by exists w.
Qed.

Lemma state_of_set thread tool thread' tool' s t :
  state_of thread tool (_set_state thread' tool' s t) =
  if bool_decide ((thread, tool) = (thread', tool')) then Some s else state_of thread tool t.
Proof.
  unfold state_of, _set_state. cbn [_phase_states]. destruct (decide (thread = thread')) as [->|N].
  - rewrite lookup_assign. destruct (decide (tool = tool')) as [->|N]; [by rewrite lookup_assign, bool_decide_eq_true_2|].
    rewrite lookup_assign_other by done. rewrite bool_decide_eq_false_2 by congruence. by destruct (lookup thread' (_phase_states t)).
  - rewrite lookup_assign_other by done. by rewrite bool_decide_eq_false_2 by congruence.
Qed.

Lemma unknown_state thread tool t : thread ∉ keys (_phase_states t) -> state_of thread tool t = None.
Proof.
  intros N. unfold state_of. destruct (lookup thread (_phase_states t)) as [tools|] eqn:E; [|done]. destruct N.
  unfold lookup in E. destruct (find _ _) as [[x v]|] eqn:F; [|done]. apply find_some in F as [F B]. apply bool_decide_eq_true in B. cbn in B. subst x.
  apply elem_keys. exists v. by apply list_elem_of_In.
Qed.

(** One result. *)
Lemma answered_state context tool' msg m t : tracker_ok t -> _parse_tool_meta (get TOOL_META_KEY (additional_kwargs msg)) = Some m ->
  let x := _thread_id context in
  let t' := perform (Answered context tool' (Message msg)) t in
  let r := _assess_and_transition alnum lower cfg (default fresh_state (state_of x tool' t)) m (text_content msg) in
  keys (_phase_states t') = latest x (keys (_phase_states t)) /\
  (forall thread tool, thread ∈ keys (_phase_states t') ->
     state_of thread tool t' = if bool_decide ((thread, tool) = (x, tool')) then Some r.1 else state_of thread tool t) /\
  _pending t' = _pending (match r.2 with
                          | Some hint => if _inject_assessment cfg then _queue_assessment x (_run_id context) hint (touch cfg x t) else touch cfg x t
                          | None => touch cfg x t
                          end).
Proof.
  intros T P x t' r. destruct (touch_spec x t T) as (T1 & Th & _). pose proof (touch_state x x tool' t T Th) as St. subst t'.
  cbn [perform]. unfold _update_state_from_result, record_result. rewrite P. fold x. rewrite St. fold r. destruct r as [s hint]. cbn [fst snd].
  assert (forall q, q = _set_state x tool' s (touch cfg x t) -> keys (_phase_states q) = latest x (keys (_phase_states t)) /\
    forall thread tool, thread ∈ keys (_phase_states q) -> state_of thread tool q = if bool_decide ((thread, tool) = (x, tool')) then Some s else state_of thread tool t) as Set_.
  { intros q ->. rewrite keys_set by done. split; [by apply touch_keys|]. intros thread tool H. rewrite state_of_set. case_bool_decide; [done|].
    by apply touch_state. }
  destruct (Set_ _ eq_refl) as [K S].
  assert (forall hint, let q := _queue_assessment x (_run_id context) hint (_set_state x tool' s (touch cfg x t)) in
    _phase_states q = _phase_states (_set_state x tool' s (touch cfg x t)) /\ _pending q = _pending (_queue_assessment x (_run_id context) hint (touch cfg x t))) as Q.
  { intros h. unfold _queue_assessment. rewrite keys_set by done. rewrite bool_decide_eq_true_2 by done. done. }
  destruct hint as [h|]; [destruct (_inject_assessment cfg)|]; [|by split_and!..]. destruct (Q h) as [Q1 Q2]. split_and!; [by rewrite Q1| |exact Q2].
  intros thread tool. unfold state_of. rewrite Q1. apply S.
Qed.

Lemma lookup_where {V} x (f : V -> V) k (d : list (string * V)) :
  lookup k (map_where (fun kv => bool_decide (kv.1 = x)) (fun kv => (kv.1, f kv.2)) d) =
  if bool_decide (k = x) then option_map f (lookup k d) else lookup k d.
Proof.
  unfold lookup, map_where. induction d as [|[y v] d IH]; [by case_bool_decide|]. cbn. destruct (decide (y = x)) as [->|N].
  - rewrite (bool_decide_eq_true_2 (x = x)) by done. cbn. destruct (decide (x = k)) as [->|Nk].
    + by rewrite !bool_decide_eq_true_2.
    + rewrite (bool_decide_eq_false_2 (x = k)) by done. exact IH.
  - rewrite (bool_decide_eq_false_2 (y = x)) by done. cbn. destruct (decide (y = k)) as [->|Nk].
    + rewrite (bool_decide_eq_true_2 (k = k)) by done. by rewrite bool_decide_eq_false_2.
    + rewrite (bool_decide_eq_false_2 (y = k)) by done. exact IH.
Qed.

Lemma lookup_mapped {V V'} (f : V -> V') k (d : list (string * V)) :
  lookup k (map (fun kv => (kv.1, f kv.2)) d) = option_map f (lookup k d).
Proof. unfold lookup. induction d as [|[x v] d IH]; [done|]. cbn. by case_bool_decide. Qed.

(** The beginning of a run. *)
Lemma before_agent_state context thread tool t : state_of thread tool (before_agent context t) =
  if bool_decide (thread = _thread_id context) then option_map reset_state (state_of thread tool t) else state_of thread tool t.
Proof.
  unfold before_agent, _reset_run_states, state_of. cbn [_phase_states _clear_stale_pending].
  rewrite (lookup_where _ (map (fun tl : string * ToolPhaseState => (tl.1, reset_state tl.2)))).
  case_bool_decide; destruct (lookup thread (_phase_states t)) as [tools|]; cbn [option_map]; try done. apply lookup_mapped.
Qed.

(** The state of every tool is that of its history. *)
Lemma heard_ok thread tool l :
  keys (_phase_states (history l)) = (heard thread tool l).1 /\
  agrees (heard thread tool l).2 (default fresh_state (state_of thread tool (history l))) /\
  (thread ∉ (heard thread tool l).1 -> (heard thread tool l).2 = []).
Proof.
  induction l as [|e l IH] using rev_ind.
  { split_and!; [done| |done]. unfold agrees. cbn. by rewrite (proj2 (Z.leb_gt (_stagnation_threshold cfg) 0)) by lia. }
  pose proof (history_ok l) as T. pose proof (history_ok (l ++ [e])) as T'. unfold history, heard in *. rewrite !foldl_app in *. cbn [foldl] in *.
  set (t := foldl (fun t e => perform e t) new_tracker l) in *. set (st := foldl (hear thread tool) ([], []) l) in *. clearbody t st.
  destruct IH as (K & A & Z0). unfold hear. cbn [fst snd].
  assert (agrees [] fresh_state) as Fresh by (unfold agrees; cbn; by rewrite (proj2 (Z.leb_gt (_stagnation_threshold cfg) 0)) by lia).
  set (order := match judged e with Some (x, _, _, _) => latest x st.1 | None => st.1 end).
  assert (keys (_phase_states (perform e t)) = order) as K'.
  { subst order. destruct e as [context tl [msg|o]|context|context]; cbn [judged]; [|done| |].
    - destruct (_parse_tool_meta _) as [m|] eqn:P; [|by cbn; rewrite P]. rewrite <- K. by destruct (answered_state context tl msg m t T P) as (-> & _).
    - done.
    - rewrite <- K. cbn. unfold _reset_run_states. cbn [_phase_states]. unfold keys, map_where. rewrite map_map. apply map_ext.
      intros [y v]. cbn. by destruct (bool_decide (y = _thread_id context)). }
  split; [done|]. destruct (bool_decide (thread ∈ order)) eqn:In; cbn [negb orb].
  - apply bool_decide_eq_true in In. split; [|done]. destruct e as [context tl [msg|o]|context|context]; cbn [restarts judged] in *.
    + destruct (_parse_tool_meta _) as [m|] eqn:P; [|by cbn; rewrite P].
      destruct (answered_state context tl msg m t T P) as (_ & S & _). rewrite S by by rewrite K'.
      case_bool_decide as B; case_bool_decide as B'; [|congruence..|done]. injection B as -> ->. cbn [default]. by apply agrees_next.
    + done.
    + done.
    + case_bool_decide as R.
      * cbn. rewrite before_agent_state, bool_decide_eq_true_2 by done. by destruct (state_of thread tool t).
      * cbn. by rewrite before_agent_state, bool_decide_eq_false_2 by congruence.
  - apply bool_decide_eq_false in In. split; [|done]. rewrite unknown_state; [done|by rewrite K'].
Qed.

(** The hints that wait for the model after a result. *)
Lemma hints_ok context tool msg m t rs : tracker_ok t -> _parse_tool_meta (get TOOL_META_KEY (additional_kwargs msg)) = Some m ->
  agrees rs (default fresh_state (state_of (_thread_id context) tool t)) ->
  let k := (_thread_id context, _run_id context) in
  let waiting := default [] (lookup k (_pending t)) in
  default [] (lookup k (_pending (perform (Answered context tool (Message msg)) t))) =
  if _inject_assessment cfg && warns ((m, text_content msg) :: rs) && (length waiting <? 3)%nat then waiting ++ [_format_hint m] else waiting.
Proof.
  intros T P A k waiting. destruct (answered_state context tool msg m t T P) as (_ & _ & ->).
  destruct (agrees_next rs _ m (text_content msg) A) as [_ ->]. set (x := _thread_id context) in *.
  destruct (touch_spec x t T) as (_ & Th & _).
  assert (default [] (lookup k (_pending (touch cfg x t))) = waiting) as W.
  { subst waiting. unfold touch. destruct (bool_decide (x ∈ keys (_phase_states t))) eqn:E; [done|]. cbn [_pending]. apply bool_decide_eq_false in E.
    assert (forall w, (k, w) ∉ _pending t) as None_ by (intros w H; destruct T as (_ & _ & _ & _ & Pn); by destruct (Pn k w H)).
    assert (forall p : list ((string * string) * list string), (forall w, (k, w) ∉ p) -> lookup k p = None) as Miss.
    { intros p H. unfold lookup. destruct (find _ p) as [[k' w]|] eqn:F; [|done]. apply find_some in F as [F B]. apply bool_decide_eq_true in B. cbn in B. subst k'.
      destruct (H w). by apply list_elem_of_In. }
    rewrite (Miss (_pending t)) by done. rewrite Miss; [done|]. intros w H. apply (None_ w). revert H.
    set (t1 := {| _phase_states := assign x [] (_phase_states t); _pending := _pending t |}). change (_pending t) with (_pending t1). clearbody t1. clear.
    generalize (length (_phase_states t1)) as n. intros n. revert t1. induction n as [|n IH]; intros t1; cbn [evict]; [done|].
    destruct (_ <? _); [|done]. intros H%IH. unfold evict_oldest in H. destruct (_phase_states t1) as [|[y v] d]; [done|]. cbn in H. by apply filter_elem in H as [H _]. }
  destruct (warns _); [|by rewrite andb_false_r]. destruct (_inject_assessment cfg); [|done]. unfold _queue_assessment.
  rewrite bool_decide_eq_true_2 by done. cbn [negb _pending andb]. fold k. rewrite lookup_assign, W. cbn [default].
  change _MAX_PENDING_PER_RUN with 3. destruct (Z.ltb_spec (Z.of_nat (length waiting)) 3); destruct (Nat.ltb_spec (length waiting) 3); (done || lia).
Qed.

(** C22: over every history of results, model turns and runs, for every thread and
    tool: the threads remembered are the latest ones, at most the configured
    number; the tool's counter is the number of problems in a row since its
    latest good result (an error, a partial result, or a repetition of one of
    the last three good ones is a problem), counted from the run's start or from
    when the thread was forgotten; the tool is active below the threshold and
    warned from it on, and blocked from the first result the model cannot mend
    that says to stop or that ends a row of threshold and escalation; a call of a
    blocked tool is answered without the tool, with that result's reason, and any
    other call reaches the tool and counts its result; each result that leaves
    the tool warned queues its hint for the model unless three wait already, and
    the model's next turn is given those that wait. *)
Theorem tool_progress_spec l thread tool :
  let t := history l in
  let rs := (heard thread tool l).2 in
  keys (_phase_states t) = (heard thread tool l).1 /\ Z.of_nat (length (_phase_states t)) <= _max_tracked_threads cfg /\
  agrees rs (default fresh_state (state_of thread tool t)) /\
  (forall context, _thread_id context = thread ->
     let k := (thread, _run_id context) in
     let waiting := default [] (lookup k (_pending t)) in
     Z.of_nat (length waiting) <= 3 /\
     (_augment_request context t).1 = match waiting with [] => None | _ => Some (join (newline +:+ newline) (fromkeys waiting)) end /\
     (forall msg m, _parse_tool_meta (get TOOL_META_KEY (additional_kwargs msg)) = Some m ->
        default [] (lookup k (_pending (perform (Answered context tool (Message msg)) t))) =
        if _inject_assessment cfg && warns ((m, text_content msg) :: rs) && (length waiting <? 3)%nat then waiting ++ [_format_hint m] else waiting) /\
     (forall W (w : W) handler call_id, tool <> "" -> tool ∉ _exempt_tools cfg ->
        wrap_tool_call alnum lower cfg call_id tool (Some context) handler (t, w) =
        match blocking rs with
        | Some m => (Message (_make_blocked_message call_id tool (_block_reason m)), (t, w))
        | None => ((handler w).1, (perform (Answered context tool (handler w).1) t, (handler w).2))
        end)).
Proof.
  intros t rs. pose proof (history_ok l) as T. destruct (heard_ok thread tool l) as (K & A & _). fold t rs in T, K, A |- *.
  split_and!; [done|apply T|done|]. intros context X k waiting. split_and!.
  - subst waiting. destruct (lookup k (_pending t)) as [q|] eqn:E; [|by vm_compute]. destruct T as (_ & _ & _ & NP & P). apply lookup_elem in E; [|done].
    by destruct (P k q E).
  - unfold _augment_request, _drain_pending. cbn. by rewrite X.
  - intros msg m P. subst waiting k. rewrite <- X in A |- *. by apply hints_ok.
  - intros W w handler call_id N Ex. unfold wrap_tool_call. rewrite (proj2 (String.eqb_neq _ _) N), bool_decide_eq_false_2 by done. cbn [orb fst snd].
    unfold _get_block_reason. rewrite X. unfold agrees in A. destruct (blocking rs) as [m|].
    + destruct (state_of thread tool t) as [s|]; [|by destruct A]. change (default fresh_state (Some s)) with s in A. destruct A as [-> ->]. cbn.
      destruct (reason_text m) as (c & r & E). by rewrite E.
    + assert (match state_of thread tool t with Some s => if bool_decide (phase s = Blocked) then block_reason s else None | None => None end = None) as ->;
        [|by destruct (handler w)].
      destruct (state_of thread tool t) as [s|]; [|done]. destruct A as (_ & _ & B & _). cbn in B. by case_bool_decide.
Qed.

End guard.

(** ** Examples *)

Definition default_config : Config := {|
  _stagnation_threshold := 3; _warn_escalation := 2; _inject_assessment := true; _jaccard_threshold := Float64.fmul (Float64.of_int 4) (Float64.int_div 1 5);
  _min_words := 10; _exempt_tools := ["ask_clarification"; "write_todos"; "present_files"; "task"]; _max_tracked_threads := 100 |}.

Definition example_context : option dict := Some [("thread_id", JStr "t"); ("run_id", JStr "r")].
Definition text_result (text : string) : result :=
  normalize_tool_result (fun _ => false)
    (Message {| content := JStr text; status := "success"; additional_kwargs := []; tool_call_id := "c"; message_name := "" |}).
Definition phases (texts : list string) : option Phase :=
  option_map phase (state_of "t" "web_search"
    (history (fun _ => false) lower default_config (map (fun x => Answered example_context "web_search" (text_result x)) texts))).

(** What the model can mend is warned of, again and again; what it cannot is
    blocked after five times, or at once. *)
Example escalation :
  phases ["Error: nothing not found"; "Error: nothing not found"] = Some Active /\
  phases (repeat "Error: nothing not found" 9) = Some Warned /\
  phases (repeat "Error: connection reset" 4) = Some Warned /\
  phases (repeat "Error: connection reset" 5) = Some Blocked /\
  phases ["Error: 401"] = Some Blocked /\
  phases ["Error: connection reset"; "a page"; "Error: connection reset"; "Error: connection reset"] = Some Active.
Proof. by vm_compute. Qed.

Lemma tool_progress_spec_witness :
  let events := [Answered example_context "web_search" (text_result "Error: connection reset"); Answered example_context "web_search" (text_result "a page");
                 Answered example_context "web_search" (text_result "Error: connection reset"); Answered example_context "web_search" (text_result "Error: 401")] in
  let t := history (fun _ => false) lower default_config events in
  let before := history (fun _ => false) lower default_config (take 3 events) in
  option_map consecutive_problems (state_of "t" "web_search" before) = Some 1 /\
  streak (fun _ => false) lower default_config (heard default_config "t" "web_search" (take 3 events)).2 = 1 /\
  exists m, wrap_tool_call (fun _ => false) lower default_config "c2" "web_search" (Some example_context) (fun w : unit => (text_result "a page", w)) (t, tt) =
    (Message (_make_blocked_message "c2" "web_search" (_block_reason m)), (t, tt)).
Proof.
  intros events t before. split; [by vm_compute|]. split; [by vm_compute|].
  pose proof (tool_progress_spec (fun _ => false) lower default_config ltac:(vm_compute; discriminate) ltac:(vm_compute; discriminate)
    ltac:(vm_compute; discriminate) events "t" "web_search") as S. cbv zeta in S. fold t in S.
  set (rs := (heard default_config "t" "web_search" events).2) in S.
  assert (exists m, blocking (fun _ => false) lower default_config rs = Some m) as [m E] by (vm_compute; by eexists).
  apply proj2, proj2, proj2 in S. specialize (S example_context ltac:(by vm_compute)). apply proj2, proj2, proj2 in S.
  specialize (S unit tt (fun w => (text_result "a page", w)) "c2" ltac:(done)). rewrite E in S. exists m. apply S.
  apply (bool_decide_eq_false_1 ("web_search" ∈ _exempt_tools default_config)). by vm_compute.
Defined.

(** A result is judged by its text: a file that was read, and begins like an
    error, blocks the tool that read it for the rest of the run. *)
Lemma log_file_blocks_reading :
  let t := history (fun _ => false) lower default_config [Answered example_context "read_file" (text_result "Error: upstream answered 401, retried")] in
  option_map phase (state_of "t" "read_file" t) = Some Blocked /\
  let wrapped := wrap_tool_call (fun _ => false) lower default_config "c2" "read_file" (Some example_context) (fun w : unit => (text_result "# Notes", w)) (t, tt) in
  match wrapped.1 with Message m => status m = "error" | Command _ => False end.
Proof. by vm_compute. Qed.

End ProgressGuard.
