(* ===== verification/OutputSafety.v ===== *)
(** * What leaves a sandbox tool is bounded and carries no secret

    The theorems about [SandboxOutput]: truncated texts keep to their limit and
    to the ends they promise, and no injected secret is left in the output of a
    command. *)
From S2P Require Import Prelude Json Text Slices PosixPaths Shlex SandboxPaths SandboxOutput.
Import Json Text Slices PosixPaths Shlex SandboxPaths SandboxOutput.

Module OutputSafety.

(** ** Decimal numbers grow with their digits *)

Lemma pretty_go_grows x s : (String.length s <= String.length (pretty_N_go x s))%nat.
Proof.
  revert s. induction (N.lt_wf_0 x) as [x _ IH]. intros s. destruct (decide (x = 0%N)) as [->|N]; [by rewrite pretty_N_go_0|].
  rewrite pretty_N_go_step by lia. specialize (IH (x `div` 10)%N ltac:(apply N.div_lt; lia) (String (pretty_N_char (x mod 10)) s)).
  cbn [String.length] in IH. lia.
Qed.

Lemma pretty_go_mono y : forall x s t, (x <= y)%N ->
  (String.length (pretty_N_go x s) + String.length t <= String.length (pretty_N_go y t) + String.length s)%nat.
Proof.
  induction (N.lt_wf_0 y) as [y _ IH]. intros x s t L. destruct (decide (x = 0%N)) as [->|N].
  { rewrite pretty_N_go_0. pose proof (pretty_go_grows y t). lia. }
  rewrite (pretty_N_go_step x), (pretty_N_go_step y) by lia.
  specialize (IH (y `div` 10)%N ltac:(apply N.div_lt; lia) (x `div` 10)%N (String (pretty_N_char (x mod 10)) s)
    (String (pretty_N_char (y mod 10)) t) ltac:(apply N.Div0.div_le_mono; lia)). cbn [String.length] in IH. lia.
Qed.

Lemma length_list_ascii s : length (String.list_ascii_of_string s) = String.length s.
Proof. induction s as [|c s IH]; [done|]. cbn. by rewrite IH. Qed.

Lemma len_digits s : all_digits s = true -> len s = Z.of_nat (String.length s).
Proof. intros [E _]%all_digits_chars. unfold len. by rewrite E, length_map, length_list_ascii. Qed.

Lemma len_pretty_mono a b : 0 <= a <= b -> len (pretty a) <= len (pretty b).
Proof.
  intros H. rewrite !len_digits by (apply pretty_digits; lia). apply inj_le.
  assert (forall z, 0 <= z -> pretty z = pretty (Z.to_N z)) as E by (intros [|p|p] Hz; (done || lia)).
  rewrite !E by lia. unfold pretty, pretty_N. destruct (decide (Z.to_N a = 0%N)) as [|Na], (decide (Z.to_N b = 0%N)) as [|Nb]; [done| |lia|].
  - rewrite pretty_N_go_step by lia. pose proof (pretty_go_grows (Z.to_N b `div` 10) (String (pretty_N_char (Z.to_N b mod 10)) "")) as G.
    cbn [String.length] in *. lia.
  - pose proof (pretty_go_mono (Z.to_N b) (Z.to_N a) "" "" ltac:(lia)). lia.
Qed.

Lemma pretty_starts z : 0 <= z -> starts_continuation (pretty z) = false.
Proof.
  intros H. pose proof (pretty_digits z H) as D. destruct (pretty z) as [|c s]; [done|]. cbn in D.
  destruct (digit_of c) as [d|] eqn:E; [|done]. by apply (digit_alone c d).
Qed.

(** ** Truncation *)

(** Texts that begin with a whole character. *)
Definition whole (s : string) : bool := negb (starts_continuation s).

Lemma len_app' s t : whole t = true -> len (s +:+ t) = len s + len t.
Proof. intros H%negb_true_iff. by apply len_app. Qed.

Lemma whole_app s t : whole s = true -> whole t = true -> whole (s +:+ t) = true.
Proof. destruct s; [by rewrite sapp_nil|done]. Qed.

Lemma whole_pretty z s : 0 <= z -> whole s = true -> whole (pretty z +:+ s) = true.
Proof. intros H W. apply whole_app; [unfold whole; by rewrite pretty_starts|done]. Qed.

(** The pieces of a marker are whole. *)
Ltac whole_pieces :=
  lazymatch goal with
  | |- whole (pretty _ +:+ _) = true => apply whole_pretty; [lia|whole_pieces]
  | |- whole (pretty _) = true => unfold whole; rewrite pretty_starts by lia; reflexivity
  | |- whole (_ +:+ _) = true => apply whole_app; whole_pieces
  | |- _ => assumption || reflexivity
  end.

Lemma middle_marker_len what n : whole what = true -> 0 <= n -> exists k, forall m, 0 <= m -> len (middle_marker what m) = k + len (pretty m).
Proof.
  intros W _. exists (len newline_text + len "... [" + len what + len " truncated: " + (len " chars skipped] ..." + len newline_text)).
  intros m Hm. unfold middle_marker. repeat (rewrite len_app'; [|whole_pieces]).
  lia.
Qed.

Lemma middle_marker_whole what n : whole (middle_marker what n) = true.
Proof. done. Qed.

Lemma head_marker_len hint : whole hint = true -> exists k, forall a b, 0 <= a -> 0 <= b -> len (head_marker a b hint) = k + len (pretty a) + len (pretty b).
Proof.
  intros W. exists (len newline_text + len "... [truncated: showing first " + len " of " + len " chars. " + len hint + len "] ...").
  intros a b Ha Hb. unfold head_marker.
  repeat (rewrite len_app'; [|whole_pieces]). lia.
Qed.

(** Both ends are kept. *)
Lemma truncate_middle_spec what output n : whole what = true -> 0 < n ->
  let r := truncate_middle what output n in
  len r <= n /\ (len output <= n -> r = output) /\
  (n < len output -> len (middle_marker what (len output)) < n ->
   exists head skipped tail, output = head +:+ skipped +:+ tail /\ 0 <= len skipped /\
     r = head +:+ middle_marker what (len output - (n - len (middle_marker what (len output)))) +:+ tail).
Proof.
  intros W Hn r. subst r. unfold truncate_middle. destruct (Z.eqb_spec n 0); [lia|].
  destruct (Z.leb_spec (len output) n) as [L|L]; [split_and!; [done|done|lia]|].
  set (total := len output) in *. set (m := len (middle_marker what total)). pose proof (len_nonneg (middle_marker what total)) as M0. fold m in M0.
  destruct (Z.eqb_spec (Z.max 0 (n - m)) 0) as [K|K].
  { split_and!; [rewrite len_upto by lia; lia|lia|lia]. }
  assert (Z.max 0 (n - m) = n - m) as -> by lia. set (kept := n - m) in *. cbv zeta. assert (0 < kept < total) as Kb by lia.
  assert (0 <= kept / 2 <= kept) as Hd by (split; [apply Z.div_pos; lia|apply Z.div_le_upper_bound; lia]).
  assert (kept / 2 < kept) as Ht by (apply Z.div_lt_upper_bound; lia).
  assert (0 <? kept - kept / 2 = true) as -> by lia. set (tail_len := kept - kept / 2) in *.
  assert (whole (suffix tail_len output) = true) as Ws by (unfold whole; rewrite suffix_starts; [done|]; fold total; lia).
  destruct (middle_marker_len what 0 W (Z.le_refl 0)) as [k Mk].
  split_and!; [|lia|].
  - rewrite len_app' by (apply whole_app; [apply middle_marker_whole|done]). rewrite len_app' by done.
    rewrite len_upto, len_suffix by (fold total; lia). fold total. rewrite (Mk (total - kept)) by lia.
    pose proof (len_pretty_mono (total - kept) total ltac:(lia)). assert (m = k + len (pretty total)) by (apply Mk; lia). lia.
  - intros _ _. fold m. fold kept. exists (upto (kept / 2) output), (text_of (take (Z.to_nat (total - kept)) (drop (Z.to_nat (kept / 2)) (chars output)))),
      (suffix tail_len output). split_and!; [|apply len_nonneg|done].
    unfold upto, prefix, suffix. destruct (Z.ltb_spec (kept / 2) 0); [lia|]. fold total.
    rewrite <- (text_of_chars output) at 1.
    rewrite <- (take_drop (Z.to_nat (kept / 2)) (chars output)) at 1.
    rewrite <- (take_drop (Z.to_nat (total - kept)) (drop (Z.to_nat (kept / 2)) (chars output))) at 1.
    rewrite drop_drop. replace (Z.to_nat (kept / 2) + Z.to_nat (total - kept))%nat with (Z.to_nat (total - tail_len)) by lia.
    assert (forall a b, text_of (a ++ b) = text_of a +:+ text_of b) as T.
    { intros a b. induction a as [|x a IH]; [by rewrite sapp_nil|]. cbn. fold (text_of (a ++ b)) (text_of a). by rewrite IH, sapp_assoc. }
    by rewrite !T.
Qed.

(** The head is kept. *)
Lemma truncate_head_spec hint output n : whole hint = true -> 0 < n ->
  let r := truncate_head hint output n in
  len r <= n /\ (len output <= n -> r = output) /\
  (n < len output -> len (head_marker (len output) (len output) hint) < n ->
   let kept := n - len (head_marker (len output) (len output) hint) in
   r = upto kept output +:+ head_marker kept (len output) hint).
Proof.
  intros W Hn r. subst r. unfold truncate_head. destruct (Z.eqb_spec n 0); [lia|].
  destruct (Z.leb_spec (len output) n) as [L|L]; [split_and!; [done|done|lia]|].
  set (total := len output) in *. set (m := len (head_marker total total hint)). pose proof (len_nonneg (head_marker total total hint)) as M0. fold m in M0.
  destruct (Z.eqb_spec (Z.max 0 (n - m)) 0) as [K|K].
  { split_and!; [rewrite len_upto by lia; lia|lia|lia]. }
  assert (Z.max 0 (n - m) = n - m) as -> by lia. destruct (head_marker_len hint W) as [k Mk].
  split_and!; [|lia|done].
  rewrite len_app' by done. rewrite len_upto by lia. fold total. rewrite (Mk (n - m) total) by lia.
  pose proof (len_pretty_mono (n - m) total ltac:(lia)). assert (m = k + len (pretty total) + len (pretty total)) by (apply Mk; lia). lia.
Qed.

(** The four truncations return at most their limit, return what fits
    unchanged, and otherwise keep the promised ends of the text around a marker
    that fits the limit too: both ends for the output of a command and for the
    detail of a write error, the beginning for a file and a listing. *)
Theorem truncations_bounded output n : 0 < n ->
  (let r := _truncate_bash_output output n in
   len r <= n /\ (len output <= n -> r = output) /\
   (n < len output -> len (middle_marker "middle" (len output)) < n ->
    exists head skipped tail, output = head +:+ skipped +:+ tail /\ 0 <= len skipped /\
      r = head +:+ middle_marker "middle" (len output - (n - len (middle_marker "middle" (len output)))) +:+ tail)) /\
  len (_truncate_write_file_error_detail output n) <= n /\
  (let r := _truncate_read_file_output output n in
   len r <= n /\ (len output <= n -> r = output) /\
   (n < len output -> len (head_marker (len output) (len output) "Use start_line/end_line to read a specific range") < n ->
    exists kept rest, output = upto kept output +:+ rest /\
      r = upto kept output +:+ head_marker kept (len output) "Use start_line/end_line to read a specific range")) /\
  len (_truncate_ls_output output n) <= n.
Proof.
  intros H. split_and!.
  - by apply truncate_middle_spec.
  - by apply truncate_middle_spec.
  - destruct (truncate_head_spec "Use start_line/end_line to read a specific range" output n eq_refl H) as (B & F & T).
    cbv zeta. unfold _truncate_read_file_output. split_and!; [done|done|]. intros L M. specialize (T L M). cbv zeta in T.
    set (kept := n - _) in *. exists kept, (text_of (drop (Z.to_nat kept) (chars output))). split; [|exact T].
    unfold upto, prefix. destruct (Z.ltb_spec kept 0); [lia|].
    rewrite <- (text_of_chars output) at 1. rewrite <- (take_drop (Z.to_nat kept) (chars output)) at 1.
    generalize (take (Z.to_nat kept) (chars output)). intros a. induction a as [|x a IH]; [by rewrite sapp_nil|].
    cbn. unfold text_of in IH. by rewrite IH, sapp_assoc.
  - by apply truncate_head_spec.
Qed.

Lemma truncations_bounded_witness :
  let long := "0123456789012345678901234567890123456789012345678901234567890123456789012345678901234567890123456789" in
  len (_truncate_bash_output long 60) <= 60 /\ _truncate_bash_output "short" 60 = "short" /\
  _truncate_bash_output long 60 <> long.
Proof.
  cbv zeta. match goal with |- len (_ ?l 60) <= 60 /\ _ => destruct (truncations_bounded l 60 eq_refl) as [[B _] _] end.
  destruct (truncations_bounded "short" 60 eq_refl) as [(_ & F & _) _]. split_and!; [exact B|apply F; by vm_compute|by vm_compute].
Defined.

(** ** Secrets *)

(** A text that cannot overlap the edges of the marker. *)
Definition bracket (c : ascii) : bool := Ascii.eqb c "[" || Ascii.eqb c "]".
Definition maskable (v : string) : bool := no_char bracket v && negb (contains v "redacted") && negb (v =? "")%string.

Lemma starts_drop p s : starts_with p s = true -> s = p +:+ drop_prefix p s.
Proof. intros [r ->]%starts_with_spec. f_equal. induction p as [|c p IH]; [by destruct r|]. by rewrite sapp_cons. Qed.

Section masking.
Context (v : string) (V : maskable v = true).

(** A bracket-free text that a masked text begins with was there before. *)
Lemma starts_masked w : forall s, no_char bracket w = true -> starts_with w (replace_from v _SECRET_REDACTION 0 s) = true ->
  starts_with w s = true.
Proof.
  induction w as [|a w IH]; intros s N H; [done|]. cbn [no_char] in N. apply andb_true_iff in N as [A N].
  destruct s as [|c s]; [done|]. cbn [replace_from] in H. destruct (starts_with v (String c s)).
  - exfalso. cbn [starts_with] in H. apply andb_true_iff in H as [H _]. apply Ascii.eqb_eq in H as ->. done.
  - cbn [starts_with] in *. apply andb_true_iff in H as [-> H]. by apply IH.
Qed.

Lemma starts_masked_cons w c s : no_char bracket w = true ->
  starts_with w (String c (replace_from v _SECRET_REDACTION 0 s)) = true -> starts_with w (String c s) = true.
Proof.
  destruct w as [|a w]; [done|]. cbn [no_char starts_with]. intros [_ N]%andb_true_iff [-> H]%andb_true_iff. by apply starts_masked.
Qed.

(** A maskable text in a text behind a marker is behind it. *)
Lemma contains_marker w s : maskable w = true -> contains w (_SECRET_REDACTION +:+ s) = true -> contains w s = true.
Proof.
  unfold maskable. rewrite !andb_true_iff, !negb_true_iff, String.eqb_neq. intros [[N R] E] [l [r H]]%contains_spec.
  assert (forall w k, no_char bracket w = true -> forall x y, x +:+ String "]" y = w +:+ k -> exists w', x = w +:+ w') as Split.
  { clear. induction w as [|a w IH]; intros k N x y E; [by exists x|]. cbn [no_char] in N. apply andb_true_iff in N as [A N].
    destruct x as [|b x]; [injection E as <- _; done|]. rewrite !sapp_cons in E. injection E as -> E.
    destruct (IH k N x y E) as [w' ->]. by exists w'. }
  destruct l as [|b l]; [destruct w as [|a w]; [done|]; injection H as <- _; cbn in N; done|].
  assert (_SECRET_REDACTION +:+ s = String "[" ("redacted" +:+ String "]" s)) as X by reflexivity. rewrite X in H.
  rewrite sapp_cons in H. injection H as <- H. clear X.
  assert (forall x, x +:+ String "]" s = l +:+ (w +:+ r) ->
    contains w x = true \/ contains w s = true) as G.
  { clear H R. revert l. intros l x. revert l. induction x as [|c x IH]; intros l H.
    - destruct l as [|b l]; [destruct w as [|a w]; [done|]; injection H as <- _; done|].
      injection H as <- H. right. apply contains_spec. by exists l, r.
    - destruct l as [|b l].
      + left. destruct (Split w r N (String c x) s H) as [w' ->]. apply contains_spec. by exists "", w'.
      + rewrite !sapp_cons in H. injection H as -> H. destruct (IH l H) as [C|C]; [left|by right]. cbn [contains]. by rewrite C, orb_true_r. }
  destruct (G "redacted" H) as [C|C]; [congruence|done].
Qed.

(** What a masked text contains was in the text. *)
Lemma contains_masked w : maskable w = true -> forall s k, contains w (replace_from v _SECRET_REDACTION k s) = true -> contains w s = true.
Proof.
  intros W. pose proof W as W'. unfold maskable in W'. rewrite !andb_true_iff in W'. destruct W' as [[N _] _].
  induction s as [|c s IH]; intros k H; [by destruct k|]. cbn [contains]. destruct k as [|k]; cbn [replace_from] in H.
  - destruct (starts_with v (String c s)).
    + apply contains_marker in H; [|done]. by rewrite (IH _ H), orb_true_r.
    + cbn [contains] in H. apply orb_true_iff in H as [H|H]; [|by rewrite (IH _ H), orb_true_r].
      by rewrite (starts_masked_cons w c s N H).
  - by rewrite (IH _ H), orb_true_r.
Qed.

(** And the masked value is gone. *)
Lemma masked_gone s : forall k, contains v (replace_from v _SECRET_REDACTION k s) = false.
Proof.
  pose proof V as V'. unfold maskable in V'. rewrite !andb_true_iff, !negb_true_iff in V'. destruct V' as [[N R] E].
  induction s as [|c s IH]; intros k.
  { destruct v as [|a v']; [done|]. by destruct k. }
  destruct k as [|k]; cbn [replace_from]; [|apply IH]. destruct (starts_with v (String c s)) eqn:S.
  - destruct (contains v (_SECRET_REDACTION +:+ _)) eqn:C; [|done]. apply contains_marker in C; [|done]. by rewrite IH in C.
  - cbn [contains]. rewrite IH, orb_false_r. destruct (starts_with v (String c (replace_from v _SECRET_REDACTION 0 s))) eqn:T; [|done].
    by rewrite (starts_masked_cons v c s N T) in S.
Qed.
End masking.

Lemma masked_all vs : forall s, Forall (fun v => maskable v = true) vs ->
  let out := foldl (fun out v => replace_text v _SECRET_REDACTION out) s vs in
  (forall w, maskable w = true -> contains w out = true -> contains w s = true) /\
  Forall (fun v => contains v out = false) vs.
Proof.
  induction vs as [|v vs IH]; intros s H; [by split|]. cbn [foldl]. apply Forall_cons in H as [V H].
  assert (replace_text v _SECRET_REDACTION s = replace_from v _SECRET_REDACTION 0 s) as E.
  { unfold replace_text. unfold maskable in V. rewrite !andb_true_iff, negb_true_iff in V. destruct V as [_ V].
    apply negb_true_iff in V. by rewrite V. }
  rewrite E. destruct (IH (replace_from v _SECRET_REDACTION 0 s) H) as [K G]. split.
  - intros w W C. apply (contains_masked v w W s 0). by apply K.
  - constructor; [|done]. destruct (contains v (foldl _ _ vs)) eqn:C; [|done]. apply K in C; [|done]. by rewrite masked_gone in C.
Qed.

(** No value of at least eight characters that was injected into the
    environment of a command is left in what the command returns, as long as no
    value holds a bracket or is a part of the word the marker itself is made
    of. *)
Theorem secrets_masked output env :
  Forall (fun v => maskable v = true) (secret_values env) ->
  forall name v, (name, v) ∈ env -> _MIN_MASK_LENGTH <= len v -> contains v (mask_secret_values output (Some env)) = false.
Proof.
  intros H name v Hv L.
  assert (v ∈ secret_values env) as M.
  { unfold secret_values. rewrite stable_sort_perm. apply filter_elem. split; [|by apply Z.leb_le].
    apply list_elem_of_fmap. by exists (name, v). }
  unfold mask_secret_values. destruct (String.eqb_spec output "") as [->|N].
  - destruct v as [|c v]; [by cbn in L|done].
  - destruct (masked_all (secret_values env) output H) as [_ F]. by eapply Forall_forall in F.
Qed.

Lemma secrets_masked_witness :
  contains "hunter2hunter2" (mask_secret_values "token hunter2hunter2!" (Some [("TOKEN", "hunter2hunter2"); ("N", "1")])) = false /\
  mask_secret_values "token hunter2hunter2!" (Some [("TOKEN", "hunter2hunter2"); ("N", "1")]) = "token [redacted]!".
Proof.
  split; [|by vm_compute]. eapply (secrets_masked _ _ _ "TOKEN"); [left|by vm_compute].
  Unshelve. apply Forall_cons. split; [by vm_compute|]. by vm_compute.
Defined.

(** A secret that is a part of the marker is not masked. *)
Lemma marker_shows_secret :
  contains "redacted" (mask_secret_values "it is redacted" (Some [("TOKEN", "redacted")])) = true.
Proof. by vm_compute. Qed.

(** A host path is masked in the middle of a name too: a directory beside the
    thread's becomes a path no tool accepts. *)
Lemma sibling_masked :
  mask_local_paths_in_output example_host "/srv/t/user-data-old/a.txt" (Some example_thread) = "/mnt/user-data-old/a.txt" /\
  validate_local_tool_path example_host "/mnt/user-data-old/a.txt" (Some example_thread) true = Bad (permission (allowed_message example_host)).
Proof. by vm_compute. Qed.

End OutputSafety.
