(* ===== verification/OutputBudget.v ===== *)
(** * No tool output blows the budget

    The theorems about [ToolOutput]: what reaches the model is within the limit,
    or is a preview of a text that was saved under the outputs of the thread;
    both keep the beginning and the end of the text and say how much lies
    between. *)
From S2P Require Import Prelude Json Text Slices Shlex PosixPaths SandboxPaths SandboxOutput LocalSandbox BashGuard ToolResults OutputSafety ToolOutput.
Import Json Text Slices PosixPaths SandboxPaths SandboxOutput ToolResults OutputSafety ToolOutput.

Module OutputBudget.

(** ** Slices *)

Lemma len_cons c s : len (String c s) = len s + (if starts_continuation s then 0 else 1).
Proof.
  unfold len. rewrite chars_cons. pose proof (starts_text_of _ (proper_chars s)) as S. rewrite text_of_chars in S. rewrite S.
  destruct (chars s) as [|x l]; [done|]. destruct (starts_continuation x); cbn [length]; lia.
Qed.

(** Putting texts together can join what was cut inside a code point, never
    make more of them. *)
Lemma len_app_le s t : len (s +:+ t) <= len s + len t.
Proof.
  induction s as [|c s IH]; [by rewrite sapp_nil|]. change (String c s +:+ t) with (String c (s +:+ t)). rewrite !len_cons.
  destruct s as [|d s]; [rewrite sapp_nil in *; cbn; destruct (starts_continuation t); lia|].
  change (starts_continuation (String d s +:+ t)) with (starts_continuation (String d s)). lia.
Qed.

Lemma since_suffix pos s : 0 <= pos <= len s -> since pos s = suffix (len s - pos) s.
Proof. intros H. unfold since, suffix. do 3 f_equal. lia. Qed.

Lemma len_tail_from s pos : 0 <= pos <= len s -> len (tail_from s pos) = len s - pos.
Proof.
  intros H. unfold tail_from. destruct (Z.ltb_spec pos (len s)).
  - rewrite since_suffix, len_suffix by lia. lia.
  - change (len "") with 0. lia.
Qed.

Lemma tail_whole s pos : 0 < pos -> whole (tail_from s pos) = true.
Proof.
  intros H. unfold tail_from, whole. destruct (Z.ltb_spec pos (len s)); [|done].
  rewrite since_suffix by lia. rewrite suffix_starts; [done|lia].
Qed.

Lemma text_of_app l l' : text_of (l ++ l') = text_of l +:+ text_of l'.
Proof.
  unfold text_of. induction l as [|x l IH]; cbn; [by rewrite sapp_nil|]. by rewrite IH, sapp_assoc.
Qed.

(** What lies between two positions. *)
Lemma cut text a b : 0 <= a <= b -> b <= len text ->
  exists mid, text = upto a text +:+ mid +:+ tail_from text b /\ len mid = b - a.
Proof.
  intros A B. set (mid := text_of (take (Z.to_nat (b - a)) (drop (Z.to_nat a) (chars text)))). exists mid. split.
  - assert (tail_from text b = text_of (drop (Z.to_nat b) (chars text))) as ->.
    { unfold tail_from, since. destruct (Z.ltb_spec b (len text)); [done|]. rewrite drop_ge; [done|]. unfold len in *. lia. }
    unfold upto, prefix. destruct (Z.ltb_spec a 0); [lia|]. subst mid. rewrite <- !text_of_app. rewrite <- (text_of_chars text) at 1. f_equal.
    rewrite <- (take_drop (Z.to_nat a) (chars text)) at 1. f_equal.
    rewrite <- (take_drop (Z.to_nat (b - a)) (drop (Z.to_nat a) (chars text))) at 1. f_equal. rewrite drop_drop. f_equal. lia.
  - subst mid. unfold len at 1. rewrite chars_text_of by apply proper_take, proper_drop, proper_chars.
    rewrite length_take, length_drop. unfold len in *. lia.
Qed.

(** ** Line boundaries *)

Definition newline_at (text : string) (i : Z) : Prop := 0 <= i /\ chars text !! Z.to_nat i = Some newline_text.

(** Where a text is cut that is to end at [want]: behind the last newline of the
    second half before it, or right there if there is none. *)
Inductive cut_back (text : string) (want : Z) : Z -> Prop :=
| back_edge : want <= 0 \/ len text <= want -> cut_back text want want
| back_plain : 0 < want < len text -> (forall i, want / 2 <= i < want -> ~ newline_at text i) -> cut_back text want want
| back_line i : 0 < want < len text -> want / 2 <= i < want -> newline_at text i ->
    (forall j, i < j < want -> ~ newline_at text j) -> cut_back text want (i + 1).

(** Where a text begins that is to begin at [want]: behind the first newline of the
    first half after it, or right there if there is none. *)
Inductive cut_forward (text : string) (want : Z) : Z -> Prop :=
| forward_edge : want <= 0 \/ len text <= want -> cut_forward text want want
| forward_plain : 0 < want < len text -> (forall i, want <= i < want + (len text - want) / 2 -> ~ newline_at text i) -> cut_forward text want want
| forward_line i : 0 < want < len text -> want <= i < want + (len text - want) / 2 -> newline_at text i ->
    (forall j, want <= j < i -> ~ newline_at text j) -> cut_forward text want (i + 1).

Lemma elem_of_newlines l : forall k i, i ∈ newlines k l <-> k <= i /\ l !! Z.to_nat (i - k) = Some newline_text.
Proof.
  induction l as [|x l IH]; intros k i; cbn [newlines].
  - rewrite elem_of_nil, lookup_nil. naive_solver.
  - assert (i ∈ newlines (k + 1) l <-> k < i /\ (x :: l) !! Z.to_nat (i - k) = Some newline_text) as E.
    { rewrite IH. split; intros [H1 H2]; (split; [lia|]).
      - replace (Z.to_nat (i - k)) with (S (Z.to_nat (i - (k + 1)))) by lia. exact H2.
      - replace (Z.to_nat (i - k)) with (S (Z.to_nat (i - (k + 1)))) in H2 by lia. exact H2. }
    assert (i = k -> (x :: l) !! Z.to_nat (i - k) = Some x) as K by (intros ->; by rewrite Z.sub_diag).
    destruct (x =? newline_text)%string eqn:X; [apply String.eqb_eq in X as ->; rewrite elem_of_cons, E|rewrite E; apply String.eqb_neq in X].
    + split; [intros [->|[H1 H2]]; [split; [lia|by apply K]|split; [lia|done]]|]. intros [H1 H2].
      destruct (decide (i = k)); [by left|right; split; [lia|done]].
    + split; intros [H1 H2]; (split; [|done]); [lia|]. destruct (decide (i = k)) as [D|D]; [|lia]. rewrite (K D) in H2. congruence.
Qed.

Lemma newlines_in_spec text lo hi i : 0 <= lo -> i ∈ newlines_in text lo hi <-> lo <= i < hi /\ newline_at text i.
Proof.
  intros L. unfold newlines_in, newline_at. rewrite filter_elem, elem_of_newlines, Z.sub_0_r, andb_true_iff, Z.leb_le, Z.ltb_lt. intuition lia.
Qed.

Lemma newlines_sorted l : forall k, StronglySorted Z.lt (newlines k l).
Proof.
  induction l as [|x l IH]; intros k; cbn [newlines]; [constructor|]. destruct (x =? newline_text)%string; [|apply IH].
  constructor; [apply IH|]. apply Forall_forall. intros i [H _]%elem_of_newlines. lia.
Qed.

Lemma newlines_in_sorted text lo hi : StronglySorted Z.lt (newlines_in text lo hi).
Proof. apply StronglySorted_filter, newlines_sorted. Qed.

Lemma last_greatest l i j : StronglySorted Z.lt l -> last l = Some i -> j ∈ l -> j <= i.
Proof.
  intros S (l' & ->)%last_Some Hj. apply elem_of_app in Hj as [Hj|Hj%list_elem_of_singleton]; [|lia].
  assert (j < i) by (exact (StronglySorted_app_1_elem_of _ _ _ _ _ S Hj ltac:(left))). lia.
Qed.

Lemma head_least l i j : StronglySorted Z.lt l -> head l = Some i -> j ∈ l -> i <= j.
Proof.
  intros S (l' & ->)%head_Some Hj. apply elem_of_cons in Hj as [->|Hj]; [done|]. inversion S as [|? ? _ F]; subst.
  rewrite Forall_forall in F. specialize (F j Hj). lia.
Qed.

Lemma snap_cut_back text want : cut_back text want (_snap_to_line_boundary text want).
Proof.
  unfold _snap_to_line_boundary. destruct (_ || _) eqn:E; [apply back_edge; lia|]. apply orb_false_iff in E as [E1 E2].
  assert (0 < want < len text) as B by lia. pose proof (Z.div_pos want 2). destruct (last _) as [nl|] eqn:L.
  - pose proof (last_Some_elem_of _ _ L) as H'. apply newlines_in_spec in H' as [R N]; [|lia]. apply back_line; try done.
    intros j J Nj. pose proof (last_greatest _ _ j (newlines_in_sorted text (want / 2) want) L) as G. rewrite newlines_in_spec in G by lia.
    specialize (G ltac:(split; [lia|done])). lia.
  - apply back_plain; [done|]. intros i I Ni. apply last_None in L. assert (i ∈ newlines_in text (want / 2) want) as X by (apply newlines_in_spec; [lia|done]).
    rewrite L in X. by apply elem_of_nil in X.
Qed.

Lemma snap_cut_forward text want : cut_forward text want (_snap_start_to_line_boundary text want).
Proof.
  unfold _snap_start_to_line_boundary. destruct (_ || _) eqn:E; [apply forward_edge; lia|]. apply orb_false_iff in E as [E1 E2].
  assert (0 < want < len text) as B by lia. destruct (head _) as [nl|] eqn:L.
  - pose proof (head_Some_elem_of _ _ L) as H'. apply newlines_in_spec in H' as [R N]; [|lia]. apply forward_line; try done.
    intros j J Nj. pose proof (head_least _ _ j (newlines_in_sorted text want (want + (len text - want) / 2)) L) as G.
    rewrite newlines_in_spec in G by lia. specialize (G ltac:(split; [lia|done])). lia.
  - apply forward_plain; [done|]. intros i I Ni. apply head_None in L.
    assert (i ∈ newlines_in text want (want + (len text - want) / 2)) as X by (apply newlines_in_spec; [lia|done]). rewrite L in X. by apply elem_of_nil in X.
Qed.

Lemma cut_back_bounds text want k : cut_back text want k -> 0 <= want -> 0 <= k <= want /\ want <= 2 * k.
Proof. intros [E|B N|i B R N L] W; [lia|lia|]. pose proof (Z.div_mod want 2). pose proof (Z.mod_pos_bound want 2). lia. Qed.

Lemma cut_forward_bounds text want k : cut_forward text want k -> 0 <= want <= len text ->
  want <= k <= len text /\ len text - want <= 2 * (len text - k) + 1.
Proof.
  intros [E|B N|i B R N L] W; [lia|lia|]. pose proof (Z.div_mod (len text - want) 2). pose proof (Z.mod_pos_bound (len text - want) 2). lia.
Qed.

(** ** The two texts *)

(** The first [a] characters of a text and those from [b] on, around a note that is
    told how many lie between them. *)
Definition around (text : string) (note : Z -> string) (a b : Z) (r : string) : Prop :=
  0 <= a <= b /\ b <= len text /\
  exists head mid tail, text = head +:+ mid +:+ tail /\ len head = a /\ len mid = b - a /\ len tail = len text - b /\
    r = head +:+ note (b - a) +:+ tail.

(** A preview: its head has [head_chars] characters, or ends with a line in the second
    half of these; its tail has [tail_chars] characters, or what is there behind the
    head, or begins with a line before that, behind the head. *)
Definition preview_of (text : string) (note : Z -> string) (head_chars tail_chars : Z) (r : string) : Prop :=
  exists a b0 b, let from := Z.max a (len text - tail_chars) in
    cut_back text (Z.min head_chars (len text)) a /\ cut_back text from b0 /\
    (a < b0 /\ b = b0 \/ b0 <= a /\ b = from) /\ around text note a b r.

(** A text cut to [max_chars] characters: if the note would leave room, a head of
    [head_chars] characters, or as many as there is room for, or ending with a line in
    the second half of these; and a tail of [tail_chars] characters, or as many as there
    is room for, or beginning with a line in the first half of these.  Without room for
    the note, the beginning alone. *)
Definition fallback_of (text tool : string) (max_chars head_chars tail_chars : Z) (r : string) : Prop :=
  let room := max_chars - len (marker (len text) tool) in
  let head_room := Z.min head_chars room in
  let tail_room := Z.min tail_chars (room - head_room) in
  (room <= 0 /\ r = upto max_chars text) \/
  (0 < room /\ exists a b, cut_back text head_room a /\ cut_forward text (Z.max a (len text - tail_room)) b /\
     around text (fun n => marker n tool) a b r).

Lemma around_cut text note a b : 0 <= a <= b -> b <= len text ->
  around text note a b (upto a text +:+ note (len text - len (upto a text) - len (tail_from text b)) +:+ tail_from text b).
Proof.
  intros A B. destruct (cut text a b A B) as (mid & E & M). split; [done|]. split; [done|]. exists (upto a text), mid, (tail_from text b).
  assert (len (upto a text) = a) as U by (rewrite len_upto; lia). assert (len (tail_from text b) = len text - b) as T by (apply len_tail_from; lia).
  split_and!; [done..|]. do 2 f_equal. rewrite U, T. f_equal. lia.
Qed.

Lemma preview_keeps text tool p head_chars tail_chars : 0 <= head_chars -> 0 <= tail_chars ->
  preview_of text (reference tool p (len text)) head_chars tail_chars (_build_preview text tool p head_chars tail_chars).
Proof.
  intros H T. unfold _build_preview. cbv zeta. pose proof (len_nonneg text) as N.
  pose proof (snap_cut_back text (Z.min head_chars (len text))) as S1. set (a := _snap_to_line_boundary text (Z.min head_chars (len text))) in *.
  set (s := Z.max a (len text - tail_chars)). pose proof (snap_cut_back text s) as S2. set (b0 := _snap_to_line_boundary text s) in *.
  destruct (cut_back_bounds _ _ _ S1 ltac:(lia)) as [B1 _]. destruct (cut_back_bounds _ _ _ S2 ltac:(lia)) as [B2 _].
  exists a, b0, (if a <? b0 then b0 else s). cbv zeta. split; [done|]. split; [done|].
  destruct (Z.ltb_spec a b0); (split; [lia|apply around_cut; lia]).
Qed.

Lemma marker_grows tool a b : 0 <= a <= b -> len (marker a tool) <= len (marker b tool).
Proof.
  intros H. unfold marker. pose proof (len_pretty_mono a b H).
  rewrite <- !(sapp_assoc newline_text newline_text), <- !(sapp_assoc (newline_text +:+ newline_text) "[... ").
  rewrite !(len_app' (_ +:+ "[... ")) by (apply whole_pretty; [lia|done]). rewrite !(len_app' (pretty _)) by done. lia.
Qed.

(** The limit is kept. *)
Lemma fallback_spec text tool max_chars head_chars tail_chars :
  0 < max_chars < len text -> 0 <= head_chars -> 0 <= tail_chars ->
  let r := _build_fallback text tool max_chars head_chars tail_chars in
  len r <= max_chars /\ fallback_of text tool max_chars head_chars tail_chars r.
Proof.
  intros M H T r. subst r. unfold _build_fallback, fallback_of. cbv zeta.
  assert ((max_chars <=? 0) || (len text <=? max_chars) = false) as -> by lia. pose proof (len_nonneg (marker (len text) tool)) as O.
  set (budget := max_chars - len (marker (len text) tool)) in *.
  destruct (Z.leb_spec max_chars (len (marker (len text) tool))) as [L|L]; [split; [rewrite len_upto; lia|left; split; [lia|done]]|].
  set (eh := Z.min head_chars budget) in *.
  replace (Z.min eh (len text)) with eh by lia. replace (Z.max 0 (budget - eh)) with (budget - eh) by lia. set (et := Z.min tail_chars (budget - eh)) in *.
  pose proof (snap_cut_back text eh) as S1. set (a := _snap_to_line_boundary text eh) in *. destruct (cut_back_bounds _ _ _ S1 ltac:(lia)) as [B1 _].
  pose proof (snap_cut_forward text (Z.max a (len text - et))) as S2. set (b := _snap_start_to_line_boundary text _) in *.
  destruct (cut_forward_bounds _ _ _ S2 ltac:(lia)) as [B2 _].
  split; [|right; split; [lia|]; exists a, b; split; [done|]; split; [done|]; apply (around_cut text (fun n => marker n tool)); lia].
  assert (len (upto a text) = a) as U by (rewrite len_upto; lia). assert (len (tail_from text b) = len text - b) as V by (apply len_tail_from; lia).
  rewrite U, V. rewrite len_app', len_app' by (try apply tail_whole; try done; lia). rewrite U, V.
  pose proof (marker_grows tool (len text - a - (len text - b)) (len text) ltac:(lia)). lia.
Qed.

(** ** Names of files *)

Lemma no_char_replace f old new s : (old =? "")%string = false -> no_char f new = true -> no_char f s = true -> no_char f (replace_text old new s) = true.
Proof.
  intros O N. unfold replace_text. rewrite O. generalize 0%nat as k. induction s as [|c s IH]; intros k H; [done|]. cbn [no_char] in H.
  apply andb_true_iff in H as [C H]. cbn [replace_from]. destruct k as [|k]; [|by apply IH].
  destruct (starts_with old (String c s)); [rewrite no_char_app, N; by apply IH|]. cbn [no_char]. rewrite C. by apply IH.
Qed.

Lemma no_char_take f n l : no_char f (text_of l) = true -> no_char f (text_of (take n l)) = true.
Proof.
  rewrite <- (take_drop n l) at 1. rewrite text_of_app, no_char_app. by intros [? _]%andb_true_iff.
Qed.

Lemma no_char_upto f n s : no_char f s = true -> no_char f (upto n s) = true.
Proof. intros H. unfold upto, prefix. apply no_char_take. by rewrite text_of_chars. Qed.

Notation slash_free := (no_char (Ascii.eqb slash)).

Lemma base_name_free name : slash_free (BashGuard.base_name name) = true.
Proof.
  unfold BashGuard.base_name. pose proof (split_pieces slash name) as P. destruct (last (split_on slash name)) as [x|] eqn:L; [|done]. cbn.
  apply last_Some_elem_of in L. rewrite forallb_forall in P. apply P. by apply list_elem_of_In.
Qed.

Lemma sanitized_free name : slash_free (_sanitize_tool_name name) = true.
Proof.
  unfold _sanitize_tool_name. cbv zeta. destruct (_ =? "")%string; [done|]. by repeat (apply no_char_replace; [done..|]); try apply base_name_free.
Qed.

Lemma extension_free name : slash_free (default "txt" (_EXT_MAP !! name)) = true.
Proof.
  unfold _EXT_MAP. destruct (decide (name = "bash")) as [->|N1]; [done|]. destruct (decide (name = "bash_tool")) as [->|N2]; [done|].
  destruct (decide (name = "web_fetch")) as [->|N3]; [done|]. by rewrite !lookup_insert_ne, lookup_singleton_ne by done.
Qed.

(** Where a saved text lies: a file of that name right in the storage
    directory. *)
Definition file_name_ok (name : string) : Prop := comps name = [name] /\ name <> "..".

Lemma file_name tool id : slash_free id = true -> file_name_ok (_build_externalized_filename tool id).
Proof.
  intros H. unfold _build_externalized_filename. set (n := _ +:+ _).
  assert (slash_free n = true) as F.
  { subst n. rewrite !no_char_app, sanitized_free, extension_free, no_char_upto by done. done. }
  assert (exists a b, n = a +:+ String "-" b) as (a & b & E) by (eexists _, _; done).
  assert (forall s, slash_free s = true -> split_on slash s = [s]) as S.
  { clear. induction s as [|c s IH]; [done|]. cbn [no_char split_on]. intros [C H]%andb_true_iff. rewrite Ascii.eqb_sym.
    apply negb_true_iff in C. by rewrite C, IH. }
  assert (forall t, contains "-" t = false -> n <> t) as D.
  { intros t T ->. rewrite E in T. assert (contains "-" (a +:+ String "-" b) = true) as X by (apply contains_spec; by exists a, b). congruence. }
  split; [|by apply D]. unfold comps. rewrite S by done. cbn. unfold counts.
  rewrite (proj2 (String.eqb_neq n "")), (proj2 (String.eqb_neq n ".")) by (by apply D). done.
Qed.

(** ** The budget *)

(** What the configuration is validated for, and what the random names are made
    of. *)
Definition config_ok (config : ToolOutputConfig) : Prop :=
  0 <= preview_head_chars config /\ 0 <= preview_tail_chars config /\ 0 <= fallback_max_chars config /\
  0 <= fallback_head_chars config /\ 0 <= fallback_tail_chars config.

Section budget.
Context {W : Type} (b : Backend W) (config : ToolOutputConfig).
Context (C : config_ok config) (Hex : forall w, slash_free (uuid_hex b w).1 = true).

(** The last thing that happened was that the text was written to the file the
    path names, on the host or in the sandbox, which then found it there. *)
Definition saved (text p : string) (w' : W) : Prop :=
  exists filename, file_name_ok filename /\ misplaced (storage_subdir config) = false /\
    p = _VIRTUAL_OUTPUTS_BASE +:+ "/" +:+ storage_subdir config +:+ "/" +:+ filename /\
    ((exists outputs w, write_text b (os_join (os_join outputs (storage_subdir config)) filename) text w = (Good tt, w')) \/
     (exists sandbox w w1 check, sandbox_write b sandbox p text w = (Good tt, w1) /\
        execute_command b sandbox ("test -s " +:+ Shlex.quote p +:+ " && echo OK || echo MISSING") w1 = (Good check, w') /\
        landed check = true)).

(** Only what is no [OSError] of the disk is raised. *)
Definition passes_errors {A} (o : outcome A) : Prop := match o with Bad f => LocalSandbox.is_os_error (kind f) = false | Good _ => True end.

Lemma externalize_spec text tool outputs w :
  let r := _externalize b config text tool outputs w in
  passes_errors r.1 /\ (forall p, r.1 = Good (Some p) -> saved text p r.2).
Proof.
  unfold _externalize. destruct (misplaced (storage_subdir config)) eqn:M; [done|]. cbv zeta.
  destruct (make_dirs _ _ _) as [[[]|f] w1]; cbn [or_none]; [|by destruct (LocalSandbox.is_os_error (kind f)) eqn:E; cbn].
  pose proof (Hex w1) as F. destruct (uuid_hex b w1) as [id w2]. cbn in F. destruct (negb _); [done|].
  destruct (write_text b _ text w2) as [[[]|f] w3] eqn:Wr; cbn [or_none]; [|by destruct (LocalSandbox.is_os_error (kind f)) eqn:E; cbn].
  split; [done|]. cbn. intros p [= <-]. exists (_build_externalized_filename tool id).
  split_and!; [by apply file_name|done|done|]. left. by eexists _, _.
Qed.

Lemma to_sandbox_spec text tool sandbox w :
  let r := _externalize_to_sandbox b config text tool sandbox w in forall p, r.1 = Some p -> saved text p r.2.
Proof.
  unfold _externalize_to_sandbox. destruct (misplaced (storage_subdir config)) eqn:M; [done|].
  pose proof (Hex w) as F. destruct (uuid_hex b w) as [id w1]. cbn in F. cbv zeta. intros p.
  destruct (execute_command b sandbox ("mkdir -p " +:+ _) w1) as [[o1|f] w2]; [|done].
  destruct (sandbox_write _ _ _ _ _) as [[[]|f] w3] eqn:Wr; [|done].
  destruct (execute_command b sandbox ("test -s " +:+ _) w3) as [[check|f] w4] eqn:Ck; [|done].
  destruct (landed check) eqn:L; [|done]. cbn. intros [= <-].
  exists (_build_externalized_filename tool id). split_and!; [by apply file_name|done|by rewrite !sapp_assoc|]. right.
  by exists sandbox, w2, w3, check.
Qed.

Lemma externalized_spec text tool outputs sandbox w :
  let r := externalized b config text tool outputs sandbox w in
  passes_errors r.1 /\ (forall p, r.1 = Good (Some p) -> saved text p r.2).
Proof.
  assert (let r := match outputs with
                   | Some p => if (p =? "")%string then (Good None, w) else _externalize b config text tool p w
                   | None => (Good None, w)
                   end in passes_errors r.1 /\ (forall p, r.1 = Good (Some p) -> saved text p r.2)) as H.
  { destruct outputs as [p|]; [|done]. destruct (p =? "")%string; [done|]. apply externalize_spec. }
  unfold externalized. destruct sandbox as [sb|]; [|exact H].
  pose proof (to_sandbox_spec text tool sb w) as S. cbv zeta in S.
  destruct (uses_thread_data_mounts b w) as [[]|f]; [exact H| |]; destruct (_externalize_to_sandbox _ _ _ _ _ _) as [v w']; cbn in *;
    (split; [done|]); intros p [= ->]; by apply S.
Qed.

(** The text that replaces another: a preview of a saved one, or its ends within
    the limit. *)
Definition cut_to_limit (tool text r : string) : Prop :=
  fallback_max_chars config < len text /\ len r <= fallback_max_chars config /\
  fallback_of text tool (fallback_max_chars config) (fallback_head_chars config) (fallback_tail_chars config) r.
Definition replacement (tool text : string) (w' : W) (r : string) : Prop :=
  (exists p, saved text p w' /\ preview_of text (reference tool p (len text)) (preview_head_chars config) (preview_tail_chars config) r) \/
  cut_to_limit tool text r.

(** A text that needs nothing. *)
Definition within (text : string) : Prop := fallback_max_chars config = 0 \/ len text <= fallback_max_chars config.
Definition short (tool text : string) : Prop :=
  (threshold_of config tool <= 0 \/ len text <= threshold_of config tool) /\ within text.

Lemma cut_spec tool text r : truncated config text tool = Some r -> cut_to_limit tool text r.
Proof.
  destruct C as (_ & _ & F & H & T). unfold truncated, cut_to_limit. destruct (_ && _) eqn:E; [|done]. intros [= <-].
  split; [lia|]. apply fallback_spec; lia.
Qed.

Lemma truncated_spec tool text w' :
  match truncated config text tool with Some r => replacement tool text w' r | None => within text end.
Proof.
  destruct (truncated config text tool) as [r|] eqn:E; [right; by apply cut_spec|].
  destruct C as (_ & _ & F & _). unfold truncated in E. unfold within. destruct (_ && _) eqn:X; [done|lia].
Qed.

Lemma budget_spec text tool outputs sandbox w :
  let r := _budget_content b config text tool outputs sandbox w in
  passes_errors r.1 /\ (short tool text -> r = (Good None, w)) /\
  match r.1 with
  | Good (Some t) => replacement tool text r.2 t
  | Good None => within text
  | Bad _ => True
  end.
Proof.
  pose proof C as (PH & PT & F & _). unfold _budget_content, short, within. set (th := threshold_of config tool).
  pose proof (truncated_spec tool text) as T. pose proof (externalized_spec text tool outputs sandbox w) as E. cbv zeta.
  destruct (_ && _) eqn:E1; [split_and!; [done|done|cbn; lia]|]. destruct ((len text <=? th) && _) eqn:E2; [split_and!; [done|done|cbn; lia]|].
  destruct ((0 <? th) && (th <? len text)) eqn:E3.
  - destruct (externalized _ _ _ _ _ _ _) as [[[p|]|f] w'] eqn:X; cbn in E |- *; destruct E as [E Es].
    + split_and!; [done|intros ?; lia|]. left. exists p. split; [by apply Es|by apply preview_keeps].
    + split_and!; [done|intros ?; lia|]. specialize (T w'). by destruct (truncated config text tool).
    + split_and!; [done|intros ?; lia|done].
  - cbn. split_and!; [done| |].
    + intros [S1 S2]. specialize (T w). unfold within in *. destruct (truncated config text tool) as [t|] eqn:X; [|done]. unfold truncated in X.
      destruct (_ && _) eqn:Y in X; [lia|done].
    + specialize (T w). by destruct (truncated config text tool).
Qed.

(** ** Messages *)

(** The pre-scan misses no message that has a name. *)
Lemma scan_finds m text : message_name m <> "" -> exempt config (message_name m) = false -> _message_text (content m) = Some text ->
  _tool_message_over_budget config m = false -> short (message_name m) text.
Proof.
  intros N X T. pose proof C as (_ & _ & F & _). unfold _tool_message_over_budget, _effective_trigger, short, within. rewrite X, T.
  set (th := threshold_of config (message_name m)).
  destruct (Z.ltb_spec 0 th), (Z.ltb_spec 0 (fallback_max_chars config)); cbn; try lia;
    destruct (Z.ltb_spec (Z.min th (fallback_max_chars config)) 0), (Z.ltb_spec th 0), (Z.ltb_spec (fallback_max_chars config) 0); lia.
Qed.

Lemma scan_loses_nothing m text : message_name m <> "" -> exempt config (message_name m) = false -> _message_text (content m) = Some text ->
  ~ within text -> _tool_message_over_budget config m = true.
Proof.
  intros N X T L. destruct (_tool_message_over_budget config m) eqn:E; [done|]. by destruct (scan_finds m text N X T E).
Qed.

Lemma named_self m : message_name m <> "" -> named m = message_name m.
Proof. intros N. unfold named. by rewrite (proj2 (String.eqb_neq _ _) N). Qed.

Lemma patch_spec m outputs sandbox w :
  let r := _patch_tool_message b config m outputs sandbox w in
  passes_errors r.1 /\
  forall text, exempt config (named m) = false -> _message_text (content m) = Some text ->
    (short (named m) text -> r = (Good None, w)) /\
    match r.1 with
    | Good (Some m') => exists t, m' = with_text t m /\ replacement (named m) text r.2 t
    | Good None => within text
    | Bad _ => True
    end.
Proof.
  unfold _patch_tool_message. destruct (exempt config (named m)); [done|]. destruct (_message_text (content m)) as [text|]; [|done].
  pose proof (budget_spec text (named m) outputs sandbox w) as (E & S & R). cbv zeta in *.
  destruct (_budget_content _ _ _ _ _ _ _) as [o w']. cbn in *. split; [by destruct o|]. intros ? _ [= <-]. split.
  - intros H. by injection (S H) as -> ->.
  - destruct o as [[t|]|f]; cbn; [by exists t|done..].
Qed.

(** Without a place to save it a text is only cut, and nothing is raised. *)
Lemma history_patch m w : exists r, _patch_tool_message b config m None None w = (Good r, w).
Proof.
  unfold _patch_tool_message. destruct (exempt _ _); [by eexists|]. destruct (_message_text _) as [text|]; [|by eexists].
  unfold _budget_content. destruct (_ && _); [by eexists|]. destruct (_ && _); [by eexists|].
  destruct (_ && _); cbn; by eexists.
Qed.

(** A message of the history that is within the limit. *)
Definition budgeted (x : message) : Prop :=
  match x with
  | Tool m => message_name m <> "" -> exempt config (message_name m) = false ->
              forall text, _message_text (content m) = Some text -> within text
  | Other _ => True
  end.

(** What may become of a message of the history. *)
Definition only_cut (x y : message) : Prop :=
  y = x \/ exists m text t, x = Tool m /\ y = Tool (with_text t m) /\ _message_text (content m) = Some text /\ cut_to_limit (named m) text t.

Lemma history_message m w r : _patch_tool_message b config m None None w = (Good r, w) ->
  only_cut (Tool m) (Tool (default m r)) /\ budgeted (Tool (default m r)).
Proof.
  intros E. pose proof (patch_spec m None None w) as [_ P]. rewrite E in P. cbn in P.
  assert (forall t text, _message_text (content m) = Some text -> exempt config (named m) = false ->
    r = Some (with_text t m) -> cut_to_limit (named m) text t) as L.
  { intros t text T X ->. unfold _patch_tool_message in E. rewrite X, T in E. apply cut_spec.
    unfold _budget_content in E. destruct (_ && _); [done|]. destruct (_ && _); [done|].
    destruct (_ && _); cbn in E; (destruct (truncated config text (named m)) as [t'|]; [|done]); cbn in E; by injection E as ->. }
  destruct (exempt config (named m)) eqn:X.
  { unfold _patch_tool_message in E. rewrite X in E. injection E as <-. cbn. split; [by left|]. intros N. rewrite named_self in X by done. congruence. }
  destruct (_message_text (content m)) as [text|] eqn:T; cycle 1.
  { unfold _patch_tool_message in E. rewrite X, T in E. injection E as <-. cbn. split; [by left|]. intros _ _ t. congruence. }
  destruct (P text eq_refl eq_refl) as [_ P']. destruct r as [m'|]; cbn.
  - destruct P' as (t & -> & R). pose proof (L t text eq_refl eq_refl eq_refl) as Lt. split; [right; by exists m, text, t|].
    intros _ _ t' [= <-]. right. apply Lt.
  - split; [by left|]. intros _ _ t. rewrite T. by intros [= <-].
Qed.

Lemma history_messages l w : exists l' changed, patch_messages b config l None None w = (Good (l', changed), w) /\
  Forall2 only_cut l l' /\ Forall budgeted l' /\ (changed = false -> l' = l).
Proof.
  induction l as [|[m|j] l (l' & changed & E & F & B & U)]; [by exists [], false|..]; cbn [patch_messages].
  - destruct (history_patch m w) as [r P]. rewrite P, E. eexists _, _. split; [done|].
    destruct (history_message m w r P) as [O G]. split_and!; [by constructor|by constructor|]. destruct r; [done|]. cbn. intros H. by rewrite U.
  - rewrite E. eexists _, _. split; [done|]. split_and!; [constructor; [by left|done]|by constructor|]. intros H. by rewrite U.
Qed.

Lemma untouched_budgeted l : existsb (over_budget config) l = false -> Forall budgeted l.
Proof.
  intros H. apply Forall_forall. intros [m|j] Hx; [|done]. intros N X text T.
  destruct (_tool_message_over_budget config m) eqn:O; [|by apply (scan_finds m text)].
  exfalso. assert (existsb (over_budget config) l = true) as Y; [|congruence]. apply existsb_exists. exists (Tool m). split; [by apply list_elem_of_In|done].
Qed.

(** C29: A result of a tool that is not exempt reaches the model unchanged when
    it is short, and otherwise as a preview of a text that was just saved to a file
    right in the storage directory, or cut to the limit.  A preview shows the first
    [preview_head_chars] characters, or as far as the last line end in the second half
    of these, then where the text lies and exactly how many characters are left out,
    then the last [preview_tail_chars] characters, or from the beginning of a line
    before that on.  A text that is cut does the same with the fallback's lengths and
    note, as far as the limit leaves room beside the note, its tail beginning with a
    line after that; if the limit has no room for the note, only the beginning is left.
    Of the history every message that is too long is cut so and nothing else is
    changed.  No failure of the disk or the sandbox is raised. *)
Theorem output_budget_spec state handler w :
  enabled config = true ->
  (forall m w1, handler w = (Good (Message m), w1) ->
     let r := wrap_tool_call b config state handler w in
     passes_errors r.1 /\
     forall text, message_name m <> "" -> exempt config (message_name m) = false -> _message_text (content m) = Some text ->
       (short (message_name m) text -> r = (Good (Message m), w1)) /\
       forall out, r.1 = Good out ->
         (out = Message m /\ within text) \/
         (exists t, out = Message (with_text t m) /\ replacement (message_name m) text r.2 t)) /\
  (forall l, exists l', wrap_model_call b config l w = (Good l', w) /\ Forall2 only_cut l l' /\ Forall budgeted l').
Proof.
  intros En. split.
  - intros m w1 H. unfold wrap_tool_call. rewrite H, En. cbv zeta. cbn [negb _needs_budget].
    destruct (_tool_message_over_budget config m) eqn:O; cbn [negb].
    + cbn [_patch_result]. pose proof (patch_spec m (_resolve_outputs_path state) (_resolve_sandbox b state w1) w1) as [E P]. cbv zeta in *.
      destruct (_patch_tool_message _ _ _ _ _ _) as [o w']. cbn in E, P |- *. split; [by destruct o|]. intros text N X T.
      rewrite named_self in P by done. destruct (P text X T) as [S R]. split.
      * intros Sh. by injection (S Sh) as -> ->.
      * intros out. destruct o as [[m'|]|f]; [intros [= <-]; destruct R as (t & -> & R); right; by exists t|intros [= <-]; by left|done].
    + split; [done|]. intros text N X T. split; [done|]. intros out [= <-]. left. split; [done|]. by apply (scan_finds m text).
  - intros l. unfold wrap_model_call. rewrite En. unfold _patch_model_messages.
    destruct (existsb (over_budget config) l) eqn:O; cbn [negb].
    + destruct (history_messages l w) as (l' & changed & -> & F & B & U). destruct changed; eexists; (split; [done|]); [by split|].
      cbn. by rewrite U in F, B by done.
    + exists l. split; [done|]. split; [|by apply untouched_budgeted]. clear. induction l; constructor; [by left|done].
Qed.

End budget.

(** ** Examples *)

Module Disk.

(** A disk where every write works. *)
Definition disk : Backend (gmap string string) := {|
  make_dirs _ w := (Good tt, w);
  write_text p text w := (Good tt, <[p := text]> w);
  execute_command _ _ w := (Good (JStr "OK"), w);
  sandbox_write _ p text w := (Good tt, <[p := text]> w);
  uuid_hex w := ("0123456789abcdef", w);
  get_sandbox _ _ := Good true;
  uses_thread_data_mounts _ := Good true;
  abspath p := p |}.

Definition small : ToolOutputConfig := {|
  enabled := true; externalize_min_chars := 20; preview_head_chars := 8; preview_tail_chars := 4; fallback_max_chars := 200;
  fallback_head_chars := 20; fallback_tail_chars := 10; storage_subdir := ".tool-results"; exempt_tools := ["read_file"];
  tool_overrides := {[ "unknown" := 5 ]} |}.

Definition message_of (name text : string) : ToolMessage :=
  {| content := JStr text; status := "success"; additional_kwargs := []; tool_call_id := "c"; message_name := name |}.
Definition state_with (outputs : string) : option dict := Some [("thread_data", JObj [("outputs_path", JStr outputs)])].
Definition letters : string := "abcdefghijklmnopqrstuvwxyz".

End Disk.

Lemma output_budget_spec_witness :
  let r := wrap_tool_call Disk.disk Disk.small (Disk.state_with "/srv/out") (fun w => (Good (Message (Disk.message_of "bash" Disk.letters)), w)) ∅ in
  r.2 !! "/srv/out/.tool-results/bash-0123456789ab.log" = Some Disk.letters /\
  exists t, r.1 = Good (Message (Disk.message_of "bash" t)) /\ replacement Disk.disk Disk.small "bash" Disk.letters r.2 t.
Proof.
  assert (config_ok Disk.small) as C by (split_and!; by vm_compute).
  pose proof (output_budget_spec Disk.disk Disk.small C (fun _ => eq_refl) (Disk.state_with "/srv/out")
    (fun w => (Good (Message (Disk.message_of "bash" Disk.letters)), w)) ∅ eq_refl) as [P _].
  specialize (P _ _ eq_refl). cbv zeta in P. destruct P as [_ P]. specialize (P Disk.letters ltac:(done) ltac:(by vm_compute) eq_refl) as [_ P].
  intros r. split; [by vm_compute|]. destruct (P _ ltac:(vm_compute; reflexivity)) as [[E _]|(t & E & R)]; [by vm_compute in E|].
  exists t. split; [|done]. change (Disk.message_of "bash" t) with (with_text t (Disk.message_of "bash" Disk.letters)). rewrite <- E. by vm_compute.
Defined.

(** The tail of a preview is moved back to a line boundary, which makes it
    longer: of a text whose last newline is in its middle half the text is
    shown, however few characters the tail may have. *)
Lemma preview_tail_grows :
  let text := "0123456789" +:+ newline_text +:+ "0123456789" in
  exists head mid tail, _build_preview text "t" "p" 2 1 = head +:+ reference "t" "p" 21 (len mid) +:+ tail /\ text = head +:+ mid +:+ tail /\
    len tail = 10.
Proof. exists "01", ("23456789" +:+ newline_text), "0123456789". split_and!; by vm_compute. Qed.

(** A message without a name is budgeted as [unknown] and scanned under the
    empty name: the scan misses it. *)
Lemma nameless_missed :
  let m := Disk.message_of "" "abcdefgh" in
  _needs_budget Disk.small (Message m) = false /\
  (_patch_tool_message Disk.disk Disk.small m (Some "/srv/out") None ∅).1 <> Good None.
Proof. split; by vm_compute. Qed.

End OutputBudget.
