(* ===== verification/RunManager.v ===== *)
(** * The registry of runs

    [deerflow/runtime/runs/manager.py]: the in-memory registry that admits,
    tracks and cancels the runs of a process, over an optional store.  Every
    method changes the registry under one lock, so what it does under the lock
    is one function here -- [create] and [create_or_reject] keep the lock while
    the row is written, and get that outcome as an argument -- and what follows
    (persisting a status) is a function of the store.  A worker's task is the
    stage it has reached in [runtime/runs/worker.py]. *)
From S2P Require Import Prelude Json Errors Text RunStore.
Import Json Errors RunStore.

Module RunManager.

(** ** schemas.py *)

Inductive RunStatus := pending | running | success | error | timeout | interrupted.
Inductive DisconnectMode := disconnect_cancel | disconnect_continue.

#[export] Instance run_status_eq_dec : EqDecision RunStatus.
Proof. solve_decision. Defined.

Definition status_value (s : RunStatus) : string :=
  match s with
  | pending => "pending" | running => "running" | success => "success" | error => "error"
  | timeout => "timeout" | interrupted => "interrupted"
  end.

Definition status_of_value (v : string) : option RunStatus :=
  List.find (fun s => (status_value s =? v)%string) [pending; running; success; error; timeout; interrupted].

(** ** Records *)

(** The background task of a run: not attached yet; created but not begun, also
    after a cancellation, which then keeps the body from ever beginning; in the
    body before it has marked the run running, and after; in its cleanup after a
    cancellation; past the final status; over. *)
Inductive task_stage := NoTask | Scheduled | Doomed | Began | Streaming | Cleaning | Settled | Done.

#[export] Instance task_stage_eq_dec : EqDecision task_stage.
Proof. solve_decision. Defined.

(** [usage]: the token counters and message fields of the record. *)
Record RunRecord := {
  run_id : string;
  thread_id : string;
  assistant_id : option string;
  status : RunStatus;
  on_disconnect : DisconnectMode;
  multitask_strategy : string;
  metadata : dict;
  kwargs : dict;
  user_id : option string;
  created_at : Z;
  updated_at : Z;
  task : task_stage;
  abort_event : bool;
  abort_action : string;
  run_error : option string;
  model_name : option string;
  store_only : bool;
  usage : dict;
  finalizing : bool
}.

(** What the methods below change of a record. *)
Definition with_record (st : RunStatus) (now : Z) (tk : task_stage) (ab : bool) (act : string)
    (err : option string) (fin : bool) (r : RunRecord) : RunRecord :=
  {| run_id := run_id r; thread_id := thread_id r; assistant_id := assistant_id r; status := st;
     on_disconnect := on_disconnect r; multitask_strategy := multitask_strategy r; metadata := metadata r;
     kwargs := kwargs r; user_id := user_id r; created_at := created_at r; updated_at := now; task := tk;
     abort_event := ab; abort_action := act; run_error := err; model_name := model_name r;
     store_only := store_only r; usage := usage r; finalizing := fin |}.

Definition with_details (name : option string) (u : dict) (err : option string) (now : Z) (r : RunRecord)
  : RunRecord :=
  {| run_id := run_id r; thread_id := thread_id r; assistant_id := assistant_id r; status := status r;
     on_disconnect := on_disconnect r; multitask_strategy := multitask_strategy r; metadata := metadata r;
     kwargs := kwargs r; user_id := user_id r; created_at := created_at r; updated_at := now; task := task r;
     abort_event := abort_event r; abort_action := abort_action r; run_error := err; model_name := name;
     store_only := store_only r; usage := u; finalizing := finalizing r |}.

(** [_runs] in insertion order and [_runs_by_thread]. *)
Record Registry := { runs : list RunRecord; runs_by_thread : gmap string (list string) }.

Definition empty_registry : Registry := {| runs := []; runs_by_thread := ∅ |}.

Definition find_run (m : Registry) (id : string) : option RunRecord :=
  List.find (fun r => (run_id r =? id)%string) (runs m).

Definition on_run (id : string) (f : RunRecord -> RunRecord) (m : Registry) : Registry :=
  {| runs := map_where (fun r => (run_id r =? id)%string) f (runs m); runs_by_thread := runs_by_thread m |}.

(** [self._runs[run_id] = record] and [_index_run_locked], on a fresh id. *)
Definition insert_run (r : RunRecord) (m : Registry) : Registry :=
  {| runs := runs m ++ [r]; runs_by_thread := index_run (run_id r) (thread_id r) (runs_by_thread m) |}.

(** [self._runs.pop(run_id)] and [_unindex_run_locked]. *)
Definition remove_run (id : string) (m : Registry) : Registry :=
  match find_run m id with
  | Some r => {| runs := List.filter (fun x => negb (run_id x =? id)%string) (runs m);
                 runs_by_thread := unindex_run id (thread_id r) (runs_by_thread m) |}
  | None => m
  end.

Definition _thread_records_locked (m : Registry) (t : string) : list RunRecord :=
  thread_items run_id (runs m) (runs_by_thread m) t.

(** ** Status, progress and cancellation *)

(** An unknown run is only logged. *)
Definition set_status (id : string) (st : RunStatus) (err : option string) (now : Z) (m : Registry) : Registry :=
  on_run id (fun r => with_record st now (task r) (abort_event r) (abort_action r)
                        (match err with Some _ => err | None => run_error r end) (finalizing r) r) m.

Definition set_finalizing (id : string) (fin : bool) (now : Z) (m : Registry) : Registry :=
  on_run id (fun r => with_record (status r) now (task r) (abort_event r) (abort_action r) (run_error r) fin r) m.

Definition update_model_name (id : string) (name : option string) (now : Z) (m : Registry) : Registry :=
  on_run id (fun r => with_details name (usage r) (run_error r) now r) m.

(** The part of [update_run_completion] under the lock. *)
Definition record_completion (id : string) (err : option string) (values : dict) (now : Z) (m : Registry)
  : Registry :=
  on_run id (fun r => with_details (model_name r) (merge_usage values (usage r))
                        (match err with Some _ => err | None => run_error r end) now r) m.

(** The part of [update_run_progress] under the lock, and whether the snapshot
    is persisted: an unknown run's is. *)
Definition record_progress (id : string) (values : dict) (now : Z) (m : Registry) : bool * Registry :=
  match find_run m id with
  | None => (true, m)
  | Some r =>
      if bool_decide (status r = running)
      then (true, on_run id (fun r => with_details (model_name r) (merge_usage values (usage r))
                                        (run_error r) now r) m)
      else (false, m)
  end.

Definition active (st : RunStatus) : bool := bool_decide (st ∈ [pending; running]).

Definition task_active (t : task_stage) : bool := negb (bool_decide (t ∈ [NoTask; Done])).

(** [task.cancel()]: a task that has not begun never will; the body of one that
    has gets a [CancelledError] at its next step. *)
Definition cancel_task (t : task_stage) : task_stage :=
  match t with Scheduled => Doomed | _ => t end.

(** What cancelling does to a record. *)
Definition abort (action : string) (now : Z) (r : RunRecord) : RunRecord :=
  with_record interrupted now (cancel_task (task r)) true action (run_error r) (task_active (task r)) r.

Definition cancel (id action : string) (now : Z) (m : Registry) : bool * Registry :=
  match find_run m id with
  | None => (false, m)
  | Some r =>
      if bool_decide (status r = interrupted) then (true, m)
      else if negb (active (status r)) then (false, m)
      else (true, on_run id (abort action now) m)
  end.

(** ** Admission *)

Record RunRequest := {
  rq_thread_id : string;
  rq_assistant_id : option string;
  rq_on_disconnect : DisconnectMode;
  rq_metadata : dict;
  rq_kwargs : dict;
  rq_multitask_strategy : string;
  rq_model_name : option string;
  rq_user_id : option string
}.

(** [id]: the fresh uuid. *)
Definition new_record (id : string) (now : Z) (q : RunRequest) (name : option string) : RunRecord :=
  {| run_id := id; thread_id := rq_thread_id q; assistant_id := rq_assistant_id q; status := pending;
     on_disconnect := rq_on_disconnect q; multitask_strategy := rq_multitask_strategy q;
     metadata := rq_metadata q; kwargs := rq_kwargs q; user_id := rq_user_id q; created_at := now;
     updated_at := now; task := NoTask; abort_event := false; abort_action := "interrupt";
     run_error := None; model_name := name; store_only := false; usage := []; finalizing := false |}.

(** The record is inserted, persisted -- [persisted] is that outcome, an
    exception after the last attempt or a cancellation -- and taken back when
    that fails. *)
Definition register (persisted : result unit) (r : RunRecord) (m : Registry) : result RunRecord * Registry :=
  let m := insert_run r m in
  match persisted with
  | Ok _ => (Ok r, m)
  | Raise e => (Raise e, remove_run (run_id r) m)
  end.

Definition create (persisted : result unit) (id : string) (now : Z) (q : RunRequest) (m : Registry)
  : result RunRecord * Registry :=
  register persisted (new_record id now q None) m.

Definition ConflictError : exn_class := Subclass "ConflictError" ExceptionC.
Definition UnsupportedStrategyError : exn_class := Subclass "UnsupportedStrategyError" ExceptionC.

Definition supported : list string := ["reject"; "interrupt"; "rollback"].

Definition inflight (r : RunRecord) : bool := active (status r) || finalizing r.

(** The loop over the inflight runs; one in its cleanup is left to finish. *)
Definition interrupt_run (strategy : string) (now : Z) (r : RunRecord) : RunRecord :=
  if finalizing r then r else abort strategy now r.

Definition interrupt_all (strategy : string) (now : Z) (ids : list string) (m : Registry) : Registry :=
  foldl (fun m id => on_run id (interrupt_run strategy now) m) m ids.

(** The outcome, the registry, and the ids of the runs that were interrupted,
    whose status is persisted afterwards. *)
Definition create_or_reject (persisted : result unit) (id : string) (now : Z) (q : RunRequest) (m : Registry)
  : result RunRecord * Registry * list string :=
  let strategy := rq_multitask_strategy q in
  if negb (bool_decide (strategy ∈ supported))
  then (Raise (Exn UnsupportedStrategyError
          ("Multitask strategy '" +:+ strategy +:+ "' is not yet supported. Supported strategies: reject, interrupt, rollback")),
        m, [])
  else
    let others := List.filter inflight (_thread_records_locked m (rq_thread_id q)) in
    if (strategy =? "reject")%string && negb (bool_decide (others = []))
    then (Raise (Exn ConflictError ("Thread " +:+ rq_thread_id q +:+ " already has an active run")), m, [])
    else
      match register persisted (new_record id now q (rq_model_name q)) m with
      | (Raise e, m) => (Raise e, m, [])
      | (Ok r, m) =>
          if (strategy =? "reject")%string then (Ok r, m, [])
          else (Ok r, interrupt_all strategy now (map run_id others) m,
                map run_id (List.filter (fun x => negb (finalizing x)) others))
      end.

(** ** Queries on a thread *)

Definition has_inflight (m : Registry) (t : string) : bool :=
  existsb inflight (_thread_records_locked m t).

(** The records before and after the run, in order of admission. *)
Fixpoint before_run (id : string) (l : list RunRecord) : option (list RunRecord) :=
  match l with
  | [] => None
  | r :: l => if (run_id r =? id)%string then Some []
              else option_map (cons r) (before_run id l)
  end.

Fixpoint after_run (id : string) (l : list RunRecord) : list RunRecord :=
  match l with
  | [] => []
  | r :: l => if (run_id r =? id)%string then l else after_run id l
  end.

(** One poll of [wait_for_prior_finalizing]: whether it stops waiting. *)
Definition may_proceed (m : Registry) (t id : string) : bool :=
  match before_run id (_thread_records_locked m t) with
  | None => true
  | Some prior => negb (existsb finalizing prior)
  end.

Definition has_later_run (m : Registry) (t id : string) : bool :=
  negb (bool_decide (after_run id (_thread_records_locked m t) = [])).

Definition has_later_started_run (m : Registry) (t id : string) : bool :=
  existsb (fun r => negb (bool_decide (status r = pending)) || finalizing r)
    (after_run id (_thread_records_locked m t)).

(** [cleanup], after its delay. *)
Definition cleanup (id : string) (m : Registry) : Registry := remove_run id m.

(** ** Shutdown *)

Definition draining (r : RunRecord) : bool := active (status r) && task_active (task r).

(** The first section: every run with a task is told to stop; its status is
    decided after the drain. *)
Definition begin_shutdown (now : Z) (m : Registry) : Registry :=
  {| runs := map_where draining (fun r => with_record (status r) (updated_at r) (cancel_task (task r)) true
                                            "interrupt" (run_error r) (finalizing r) r) (runs m);
     runs_by_thread := runs_by_thread m |}.

(** The second: [settled] are the drained runs whose task completed by itself.
    The ids are those persisted as interrupted. *)
Definition end_shutdown (drained settled : list string) (now : Z) (m : Registry) : Registry * list string :=
  let unsettled := List.filter (fun i => negb (bool_decide (i ∈ settled))) drained in
  ({| runs := map_where (fun r => bool_decide (run_id r ∈ unsettled) && active (status r))
                (fun r => with_record interrupted now (task r) (abort_event r) (abort_action r) (run_error r)
                            (finalizing r) r) (runs m);
      runs_by_thread := runs_by_thread m |}, unsettled).

(** ** The store behind the registry

    A write that still fails after its attempts is an exception in [outcome]:
    it leaves the store alone, is logged, and reported as [false]. *)

(** [_store_put_payload] as the row it becomes. *)
Definition _store_put_payload (r : RunRecord) (err : option string) (now : Z) : RunRow :=
  {| row_run_id := run_id r; row_thread_id := thread_id r; row_assistant_id := assistant_id r;
     row_user_id := user_id r; row_model_name := model_name r; row_status := status_value (status r);
     row_multitask_strategy := multitask_strategy r; row_metadata := metadata r; row_kwargs := kwargs r;
     row_error := match err with Some _ => err | None => run_error r end;
     row_created_at := created_at r; row_updated_at := now; row_usage := [] |}.

Definition _persist_snapshot_to_store (outcome : result unit) (row : RunRow) (s : MemoryRunStore)
  : bool * MemoryRunStore :=
  match outcome with Ok _ => (true, put row s) | Raise _ => (false, s) end.

(** The status is updated; a row that is missing is put back from the record
    as it was when the update began. *)
Definition _persist_status (updating recreating : result unit) (r : RunRecord) (st : RunStatus)
    (err : option string) (now : Z) (s : MemoryRunStore) : bool * MemoryRunStore :=
  match updating with
  | Raise _ => (false, s)
  | Ok _ =>
      match update_status (run_id r) (status_value st) err now s with
      | (true, s) => (true, s)
      | (false, s) => _persist_snapshot_to_store recreating (_store_put_payload r err now) s
      end
  end.

(** The rest of [update_run_completion]: [record] is the run in memory after
    its part under the lock, if it was known. *)
Definition persist_completion (updating recreating again : result unit) (record : option RunRecord)
    (id st : string) (err : option string) (values : dict) (now : Z) (s : MemoryRunStore) : MemoryRunStore :=
  match updating with
  | Raise _ => s
  | Ok _ =>
      match update_run_completion id st err values now s, record with
      | (true, s), _ => s
      | (false, s), None => s
      | (false, s), Some r =>
          match _persist_snapshot_to_store recreating (_store_put_payload r err now) s, again with
          | (true, s), Ok _ => (update_run_completion id st err values now s).2
          | (_, s), _ => s
          end
      end
  end.

(** A row as a read-only record; an unknown status raises. *)
Definition _record_from_store (row : RunRow) : option RunRecord :=
  match (if (row_status row =? "")%string then Some pending else status_of_value (row_status row)) with
  | None => None
  | Some st =>
      Some {| run_id := row_run_id row; thread_id := row_thread_id row; assistant_id := row_assistant_id row;
              status := st; on_disconnect := disconnect_cancel;
              multitask_strategy := if (row_multitask_strategy row =? "")%string then "reject"
                                    else row_multitask_strategy row;
              metadata := row_metadata row; kwargs := row_kwargs row; user_id := row_user_id row;
              created_at := row_created_at row; updated_at := row_updated_at row; task := NoTask;
              abort_event := false; abort_action := "interrupt"; run_error := row_error row;
              model_name := row_model_name row; store_only := true; usage := row_usage row;
              finalizing := false |}
  end.

(** [get]: the registry first; [reading] is the outcome of the read. *)
Definition get_run (m : Registry) (store : option (result unit * MemoryRunStore)) (id : string)
    (user : option string) : option RunRecord :=
  match find_run m id with
  | Some r => Some r
  | None =>
      match store with
      | Some (Ok _, s) => match RunStore.get id user s with
                          | Some row => _record_from_store row
                          | None => None
                          end
      | _ => None
      end
  end.

(** Store rows under the ids that memory does not have. *)
Definition hydrate (acc : list RunRecord) (row : RunRow) : list RunRecord :=
  if (row_run_id row =? "")%string || existsb (fun r => (run_id r =? row_run_id row)%string) acc then acc
  else match _record_from_store row with Some r => acc ++ [r] | None => acc end.

Definition list_runs (m : Registry) (store : option (result unit * MemoryRunStore)) (t : string)
    (user : option string) (limit : Z) : list RunRecord :=
  let memory := _thread_records_locked m t in
  let all := match store with
             | Some (Ok _, s) =>
                 foldl hydrate memory
                   (RunStore.list_by_thread t user (Z.max 0 (limit - Z.of_nat (length memory))) s)
             | _ => memory
             end in
  first_of limit (newest_first created_at all).

(** [reconcile_orphaned_inflight_runs]: the rows a former process left active
    become errors, unless a live run of this process has that id; a row whose
    update fails is skipped. *)
Definition reconcile_row (m : Registry) (err : string) (now : Z) (outcome : string -> result unit)
    (acc : list RunRecord * MemoryRunStore) (row : RunRow) : list RunRecord * MemoryRunStore :=
  match _record_from_store row with
  | None => acc
  | Some r =>
      if match find_run m (run_id r) with Some live => active (status live) | None => false end then acc
      else
        let r := with_record error now (task r) (abort_event r) (abort_action r) (Some err) (finalizing r) r in
        match _persist_status (outcome (run_id r)) (outcome (run_id r)) r error (Some err) now acc.2 with
        | (true, s) => (acc.1 ++ [r], s)
        | (false, s) => (acc.1, s)
        end
  end.

Definition reconcile_orphaned_inflight_runs (m : Registry) (err : string) (before now : Z)
    (outcome : string -> result unit) (s : MemoryRunStore) : list RunRecord * MemoryRunStore :=
  foldl (reconcile_row m err now outcome) ([], s) (list_inflight before s).

(** The runs in memory also take up the rows asked of the store: here two of
    the three runs of a thread are in memory, all three in the store, and a
    listing of up to three leaves the oldest out. *)
Lemma history_hidden :
  let q := {| rq_thread_id := "t"; rq_assistant_id := None; rq_on_disconnect := disconnect_cancel;
              rq_metadata := []; rq_kwargs := []; rq_multitask_strategy := "reject";
              rq_model_name := None; rq_user_id := None |} in
  let r i n := new_record i n q None in
  let m := insert_run (r "c" 3) (insert_run (r "b" 2) empty_registry) in
  let s := foldl (fun s r => put (_store_put_payload r None 9) s) empty_store [r "a" 1; r "b" 2; r "c" 3] in
  map run_id (list_runs m (Some (Ok tt, s)) "t" None 3) = ["c"; "b"] /\
  map row_run_id (RunStore.list_by_thread "t" None 3 s) = ["c"; "b"; "a"].
Proof. vm_compute. split; reflexivity. Qed.

(** ** The index *)

Definition registry_ok (m : Registry) : Prop := lockstep run_id thread_id (runs m) (runs_by_thread m).

Definition fresh (id : string) (m : Registry) : Prop := id ∉ map run_id (runs m).

Lemma find_run_elem m id r : find_run m id = Some r -> r ∈ runs m /\ run_id r = id.
Proof. intros [H E]%find_some_elem. split; [done|by apply String.eqb_eq]. Qed.

Lemma find_run_of m r : registry_ok m -> r ∈ runs m -> find_run m (run_id r) = Some r.
Proof. intros [N _] H. by apply find_by_id. Qed.

Lemma registry_ok_empty : registry_ok empty_registry.
Proof. apply lockstep_empty. Qed.

Lemma registry_ok_on id f m :
  (forall r, run_id (f r) = run_id r /\ thread_id (f r) = thread_id r) ->
  registry_ok m -> registry_ok (on_run id f m).
Proof. intros F K. by apply lockstep_update. Qed.

Lemma registry_ok_insert r m : fresh (run_id r) m -> registry_ok m -> registry_ok (insert_run r m).
Proof. intros F K. by apply lockstep_snoc. Qed.

Lemma registry_ok_remove id m : registry_ok m -> registry_ok (remove_run id m).
Proof.
  intros K. unfold remove_run. destruct (find_run m id) as [r|] eqn:E; [|done].
  apply find_run_elem in E as [Hr <-]. by apply (lockstep_remove run_id thread_id).
Qed.

(** The methods see a thread's runs as a scan of the registry would. *)
Lemma thread_records m t : registry_ok m -> _thread_records_locked m t = of_thread thread_id t (runs m).
Proof. apply thread_items_scan. Qed.

Lemma interrupt_run_ids s now r :
  run_id (interrupt_run s now r) = run_id r /\ thread_id (interrupt_run s now r) = thread_id r.
Proof. unfold interrupt_run. by destruct (finalizing r). Qed.

(** The loop over ids is one pass over the records. *)
Lemma runs_interrupt_all s now ids : forall m,
  NoDup ids ->
  runs (interrupt_all s now ids m) =
    map_where (fun r => bool_decide (run_id r ∈ ids)) (interrupt_run s now) (runs m) /\
  runs_by_thread (interrupt_all s now ids m) = runs_by_thread m.
Proof.
  induction ids as [|i ids IH]; intros m N; simpl.
  { split; [|done]. unfold map_where. by rewrite map_id. }
  apply NoDup_cons in N as [Ni N]. destruct (IH (on_run i (interrupt_run s now) m) N) as [-> ->].
  split; [|done]. unfold on_run, map_where. simpl. rewrite map_map. apply map_ext. intros r.
  destruct (String.eqb_spec (run_id r) i) as [<-|Ne].
  - destruct (interrupt_run_ids s now r) as [-> _].
    by rewrite (bool_decide_eq_false_2 _ Ni), bool_decide_eq_true_2 by set_solver.
  - rewrite (bool_decide_ext (run_id r ∈ i :: ids) (run_id r ∈ ids)) by set_solver. done.
Qed.

Lemma registry_ok_interrupt_all s now ids m :
  registry_ok m -> registry_ok (interrupt_all s now ids m).
Proof.
  unfold interrupt_all. revert m. induction ids as [|i ids IH]; intros m K; simpl; [done|].
  apply IH, registry_ok_on; [apply interrupt_run_ids|done].
Qed.

(** Taking back what was just inserted. *)
Lemma register_raise e r m : fresh (run_id r) m -> runs (register (Raise e) r m).2 = runs m.
Proof.
  intros F. unfold register, remove_run, find_run, insert_run. simpl. rewrite find_app.
  assert (forall l, run_id r ∉ map run_id l ->
            List.filter (fun x => negb (run_id x =? run_id r)%string) l = l /\
            List.find (fun x => (run_id x =? run_id r)%string) l = None) as H.
  { induction l as [|x l IH]; simpl; [done|]. intros [Nx N]%not_elem_of_cons.
    rewrite (proj2 (String.eqb_neq _ _)) by congruence. simpl. by destruct (IH N) as [-> ->]. }
  destruct (H (runs m) F) as [E ->]. simpl. rewrite String.eqb_refl. simpl.
  rewrite List.filter_app, E. simpl. rewrite String.eqb_refl. simpl. apply app_nil_r.
Qed.

(** ** Admission, on every branch *)

Lemma filter_empty {A} (f : A -> bool) l : List.filter f l = [] <-> existsb f l = false.
Proof. induction l as [|x l IH]; simpl; [done|]. destruct (f x); simpl; [done|apply IH]. Qed.

(** The runs a new one on thread [t] competes with. *)
Definition competes (t : string) (r : RunRecord) : bool := (thread_id r =? t)%string && inflight r.

Lemma filter_competes t l : List.filter inflight (of_thread thread_id t l) = List.filter (competes t) l.
Proof.
  unfold of_thread, competes. induction l as [|x l IH]; simpl; [done|].
  destruct (thread_id x =? t)%string; simpl; [destruct (inflight x); congruence|done].
Qed.

(** Admission of a run, against a plain scan of the registry.  An unknown
    strategy and, under "reject", a thread with an active or finalizing run
    change nothing; so does a record that cannot be persisted.  Otherwise the
    new pending run is added at the end, and under "interrupt" and "rollback"
    the inflight runs of the thread -- and no other -- that are not already in
    their cleanup are told to stop; the index stays the index of the runs. *)
Theorem create_or_reject_spec persisted id now q m :
  registry_ok m -> fresh id m ->
  let '(outcome, m', stopped) := create_or_reject persisted id now q m in
  let others := List.filter (competes (rq_thread_id q)) (runs m) in
  let r := new_record id now q (rq_model_name q) in
  registry_ok m' /\
  match outcome with
  | Raise e =>
      runs m' = runs m /\ stopped = [] /\
      (rq_multitask_strategy q ∉ supported \/ rq_multitask_strategy q = "reject" /\ others <> [] \/
       persisted = Raise e)
  | Ok a =>
      a = r /\ rq_multitask_strategy q ∈ supported /\ persisted = Ok tt /\
      (rq_multitask_strategy q = "reject" -> others = []) /\
      runs m' = map_where (competes (rq_thread_id q)) (interrupt_run (rq_multitask_strategy q) now) (runs m)
                ++ [r] /\
      stopped = map run_id (List.filter (fun x => negb (finalizing x)) others)
  end.
Proof.
  intros K F. unfold create_or_reject. rewrite (thread_records m), filter_competes by done.
  set (others := List.filter (competes _) _). set (r := new_record id now q (rq_model_name q)).
  destruct (decide (rq_multitask_strategy q ∈ supported)) as [S|S].
  2: { rewrite bool_decide_eq_false_2 by done. simpl. split_and!; auto. }
  rewrite bool_decide_eq_true_2 by done. simpl negb. cbv iota.
  destruct ((rq_multitask_strategy q =? "reject")%string && negb (bool_decide (others = []))) eqn:C.
  { apply andb_true_iff in C as [C1 C2]. apply String.eqb_eq in C1.
    apply negb_true_iff, bool_decide_eq_false in C2. split_and!; auto. }
  destruct persisted as [[]|e].
  2: { pose proof (register_raise e r m F) as E. unfold register in *. simpl in *.
       split; [by apply registry_ok_remove, registry_ok_insert|]. split_and!; auto. }
  unfold register. destruct (String.eqb_spec (rq_multitask_strategy q) "reject") as [R|R].
  - simpl in C. apply negb_false_iff, bool_decide_eq_true in C. split; [by apply registry_ok_insert|].
    split_and!; try done; simpl; [by rewrite map_where_none|by rewrite C].
  - assert (registry_ok (insert_run r m)) as K' by (by apply registry_ok_insert).
    assert (forall x, x ∈ others -> x ∈ runs m) as Ho.
    { intros x [Hx _]%filter_elem. done. }
    split; [by apply registry_ok_interrupt_all|]. split_and!; try done.
    destruct (runs_interrupt_all (rq_multitask_strategy q) now (map run_id others) (insert_run r m)) as [-> _].
    { apply map_filter_nodup. by destruct K. }
    simpl. unfold map_where. rewrite map_app. simpl. f_equal.
    + apply map_ext_in. intros x Hx%list_elem_of_In.
      destruct (competes (rq_thread_id q) x) eqn:Cx.
      * rewrite bool_decide_eq_true_2; [done|]. by apply list_elem_of_fmap_2, filter_elem.
      * rewrite bool_decide_eq_false_2; [done|]. intros (y&E&Hy)%list_elem_of_fmap.
        pose proof (find_run_of m x K Hx) as F1. pose proof (find_run_of m y K (Ho y Hy)) as F2.
        apply filter_elem in Hy as [_ Hy]. rewrite E in F1. congruence.
    + rewrite bool_decide_eq_false_2; [done|]. intros (y&E&Hy)%list_elem_of_fmap. apply F.
      assert (id = run_id y) as -> by exact E. by apply list_elem_of_fmap_2, Ho.
Qed.

Lemma create_or_reject_spec_witness :
  let q s := {| rq_thread_id := "t"; rq_assistant_id := None; rq_on_disconnect := disconnect_cancel;
              rq_metadata := []; rq_kwargs := []; rq_multitask_strategy := s;
              rq_model_name := None; rq_user_id := None |} in
  let m := insert_run (new_record "a" 1 (q "reject") None) empty_registry in
  let '(o, m', stopped) := create_or_reject (Ok tt) "b" 2 (q "interrupt") m in
  registry_ok m' /\ stopped = ["a"] /\ map status (runs m') = [interrupted; pending].
Proof.
  intros q m.
  assert (registry_ok m) as K by (apply registry_ok_insert, registry_ok_empty; apply not_elem_of_nil).
  assert (fresh "b" m) as F by (unfold fresh; simpl; set_solver).
  pose proof (create_or_reject_spec (Ok tt) "b" 2 (q "interrupt") m K F) as H.
  destruct (create_or_reject (Ok tt) "b" 2 (q "interrupt") m) as [[o m'] stopped] eqn:E.
  destruct H as [K' _]. split; [exact K'|]. vm_compute in E. injection E as <- <- <-. split; reflexivity.
Defined.

(** ** Runs and their workers

    The events of a process: requests on the registry, [start_run] attaching
    the task it has created to the record it was given, and the steps of
    [run_agent] -- marking the run running once no earlier run of the thread is
    finalizing; marking it finalizing, when it finds that it was told to stop or
    on any [CancelledError], whoever raised it; writing its final status; the
    end of its [finally], also when a second cancellation kept the status from
    being written; and ending. *)
Inductive event :=
| Admit (persisted : result unit) (id : string) (now : Z) (q : RunRequest)
| Create (persisted : result unit) (id : string) (now : Z) (q : RunRequest)
| Attach (id : string)
| Begin (id : string)
| Drop (id : string)
| MarkRunning (id : string) (now : Z)
| MarkFinalizing (id : string) (now : Z)
| Finish (id : string) (st : RunStatus) (err : option string) (now : Z)
| ClearFinalizing (id : string) (now : Z)
| Exit (id : string)
| Cancel (id action : string) (now : Z)
| Details (id : string) (name err : option string) (values : dict) (now : Z)
| Cleanup (id : string)
| ShutdownBegin (now : Z)
| ShutdownEnd (drained settled : list string) (now : Z).

Definition at_stage (t : task_stage) (r : RunRecord) : RunRecord :=
  with_record (status r) (updated_at r) t (abort_event r) (abort_action r) (run_error r) (finalizing r) r.

(** The step of the run [id] whose task is at one of the stages. *)
Definition at_run (id : string) (stages : list task_stage) (guard : RunRecord -> bool)
    (f : RunRecord -> RunRecord) (m : Registry) : option Registry :=
  match find_run m id with
  | Some r => if bool_decide (task r ∈ stages) && guard r then Some (on_run id f m) else None
  | None => None
  end.

Definition always (r : RunRecord) : bool := true.

(** [set_status] from the worker, which then is at stage [t]. *)
Definition worker_status (st : RunStatus) (err : option string) (now : Z) (t : task_stage) (r : RunRecord)
  : RunRecord :=
  with_record st now t (abort_event r) (abort_action r)
    (match err with Some _ => err | None => run_error r end) (finalizing r) r.

Definition worker_finalizing (fin : bool) (now : Z) (t : task_stage) (r : RunRecord) : RunRecord :=
  with_record (status r) now t (abort_event r) (abort_action r) (run_error r) fin r.

Definition act (e : event) (m : Registry) : option Registry :=
  match e with
  | Admit persisted id now q =>
      if bool_decide (fresh id m) then Some (create_or_reject persisted id now q m).1.2 else None
  | Create persisted id now q =>
      if bool_decide (fresh id m) then Some (create persisted id now q m).2 else None
  | Attach id => at_run id [NoTask] always (at_stage Scheduled) m
  | Begin id => at_run id [Scheduled] always (at_stage Began) m
  | Drop id => at_run id [Doomed] always (at_stage Done) m
  | MarkRunning id now =>
      at_run id [Began] (fun r => may_proceed m (thread_id r) id) (worker_status running None now Streaming) m
  | MarkFinalizing id now => at_run id [Began; Streaming; Settled] always (worker_finalizing true now Cleaning) m
  | Finish id st err now =>
      at_run id [Began; Streaming; Cleaning; Settled] (fun _ => negb (active st)) (worker_status st err now Settled) m
  | ClearFinalizing id now =>
      at_run id [Began; Streaming; Cleaning; Settled] always (worker_finalizing false now Settled) m
  | Exit id => at_run id [Began; Streaming; Cleaning; Settled] always (at_stage Done) m
  | Cancel id action now => Some (cancel id action now m).2
  | Details id name err values now =>
      Some (on_run id (fun r => with_details name (merge_usage values (usage r))
                                  (match err with Some _ => err | None => run_error r end) now r) m)
  | Cleanup id => Some (cleanup id m)
  | ShutdownBegin now => Some (begin_shutdown now m)
  | ShutdownEnd drained settled now =>
      if forallb (fun r => negb (bool_decide (run_id r ∈ drained)) || abort_event r) (runs m)
      then Some (end_shutdown drained settled now m).1 else None
  end.

Definition play (m : Registry) (l : list event) : option Registry :=
  foldl (fun o e => match o with Some m => act e m | None => None end) (Some m) l.

Lemma play_none l : foldl (fun o e => match o with Some m => act e m | None => None end) None l = None.
Proof. by induction l. Qed.

Lemma play_cons m e l m' : play m (e :: l) = Some m' <-> exists m1, act e m = Some m1 /\ play m1 l = Some m'.
Proof.
  unfold play. simpl. destruct (act e m) as [m1|].
  - split; [eauto|]. by intros (?&[= ->]&?).
  - rewrite play_none. naive_solver.
Qed.

(** Induction over the events of a trace. *)
Lemma play_invariant (P : Registry -> Prop) (ok : event -> Prop) l : forall m m',
  (forall e m m', ok e -> P m -> act e m = Some m' -> P m') ->
  Forall ok l -> play m l = Some m' -> P m -> P m'.
Proof.
  induction l as [|e l IH]; intros m m' S F; [by intros [= <-]|].
  apply Forall_cons in F as [Fe F]. intros (m1&E&E')%play_cons H. by eapply IH, S.
Qed.

(** The worker is yet to begin or in the body. *)
Definition in_body (t : task_stage) : bool :=
  match t with NoTask | Scheduled | Doomed | Began | Streaming => true | Cleaning | Settled | Done => false end.

Definition early (t : task_stage) : bool :=
  match t with NoTask | Scheduled | Doomed | Began => true | _ => false end.

(** A run that goes on: active, not told to stop, its worker not past the body. *)
Definition live (r : RunRecord) : bool := active (status r) && negb (abort_event r) && in_body (task r).

Definition stopping (r : RunRecord) : Prop := abort_event r = true \/ in_body (task r) = false.

Lemma stopping_dead r : stopping r -> live r = false.
Proof. unfold live. intros [->| ->]; by rewrite ?andb_false_r. Qed.

(** Runs are admitted through [create_or_reject], as everywhere in the source. *)
Definition guarded (e : event) : Prop := match e with Create _ _ _ _ => False | _ => True end.

Record inv (m : Registry) : Prop := {
  in_ok : registry_ok m;
  in_finalizing : forall r, r ∈ runs m -> finalizing r = true -> stopping r;
  in_early : forall r, r ∈ runs m -> early (task r) = true ->
    status r = pending \/ abort_event r = true;
  in_live : forall r1 r2, r1 ∈ runs m -> r2 ∈ runs m -> thread_id r1 = thread_id r2 ->
    live r1 = true -> live r2 = true -> run_id r1 = run_id r2
}.

Lemma inv_empty : inv empty_registry.
Proof. split; [apply registry_ok_empty|..]; simpl; intros; by edestruct @not_elem_of_nil. Qed.

(** A change of records that keeps what the invariant says of each, and makes
    none live that was not. *)
Definition harmless (r' r : RunRecord) : Prop :=
  run_id r' = run_id r /\ thread_id r' = thread_id r /\
  (live r' = true -> live r = true) /\
  (finalizing r' = true -> stopping r') /\
  (early (task r') = true -> status r' = pending \/ abort_event r' = true).

Definition good (m : Registry) (r : RunRecord) : Prop :=
  r ∈ runs m /\ (finalizing r = true -> stopping r) /\
  (early (task r) = true -> status r = pending \/ abort_event r = true).

Lemma inv_map_where f g m :
  inv m -> (forall r, run_id (g r) = run_id r /\ thread_id (g r) = thread_id r) ->
  (forall r, good m r -> f r = true -> harmless (g r) r) ->
  inv {| runs := map_where f g (runs m); runs_by_thread := runs_by_thread m |}.
Proof.
  intros [K Fi Ea Li] I H.
  assert (forall r', r' ∈ map_where f g (runs m) -> exists r, good m r /\
    run_id r' = run_id r /\ thread_id r' = thread_id r /\ (live r' = true -> live r = true) /\
    (finalizing r' = true -> stopping r') /\
    (early (task r') = true -> status r' = pending \/ abort_event r' = true)) as A.
  { intros r' (r&Hr&->)%elem_of_map_where. exists r.
    assert (good m r) as G by (split_and!; auto). split; [done|].
    destruct (f r) eqn:E; [exact (H r G E)|]. destruct G as (_&?&?). done. }
  split; simpl.
  - by apply lockstep_update.
  - intros r' Hr. destruct (A r' Hr) as (_&_&_&_&_&?&_). done.
  - intros r' Hr. destruct (A r' Hr) as (_&_&_&_&_&_&?). done.
  - intros r1 r2 H1 H2 E L1 L2. destruct (A r1 H1) as (a&(Ha&_)&->&Ta&La&_).
    destruct (A r2 H2) as (b&(Hb&_)&->&Tb&Lb&_). apply Li; auto. congruence.
Qed.

Lemma inv_at_run id stages guard g m m' :
  inv m -> (forall r, run_id (g r) = run_id r /\ thread_id (g r) = thread_id r) ->
  (forall r, good m r -> task r ∈ stages -> guard r = true -> harmless (g r) r) ->
  at_run id stages guard g m = Some m' -> inv m'.
Proof.
  intros K I H. unfold at_run. destruct (find_run m id) as [r|] eqn:E; [|done].
  destruct (bool_decide (task r ∈ stages) && guard r) eqn:G; [|done]. intros [= <-].
  apply andb_true_iff in G as [G1 G2]. apply bool_decide_eq_true in G1.
  apply inv_map_where; [done|done|]. intros x Gx Ex%String.eqb_eq. apply find_run_elem in E as [Hr Er].
  assert (x = r) as ->; [|by apply H].
  destruct Gx as [Hx _]. pose proof (find_run_of m x (in_ok _ K) Hx) as F1.
  pose proof (find_run_of m r (in_ok _ K) Hr) as F2. rewrite Ex, <-Er in F1. congruence.
Qed.

Ltac record_step := unfold harmless, good, live, stopping, at_stage, worker_status, worker_finalizing, abort; simpl.

(** Cases on the stage a worker can be at. *)
Ltac stage_of T :=
  repeat (apply elem_of_cons in T as [T|T]); [..|by apply not_elem_of_nil in T]; rewrite T in *; simpl in *.

Lemma abort_harmless action now r : harmless (abort action now r) r.
Proof. record_step. naive_solver. Qed.

Lemma inv_admit persisted id now q m :
  inv m -> fresh id m -> inv (create_or_reject persisted id now q m).1.2.
Proof.
  intros K F. pose proof (create_or_reject_spec persisted id now q m (in_ok _ K) F) as S.
  destruct (create_or_reject persisted id now q m) as [[outcome m'] stopped]. simpl in *.
  destruct S as [Ok' S]. destruct outcome as [a|e].
  - destruct S as (_&_&_&R&E&_). set (n := new_record id now q (rq_model_name q)) in *.
    set (g := interrupt_run (rq_multitask_strategy q) now) in *.
    assert (inv {| runs := map_where (competes (rq_thread_id q)) g (runs m);
                   runs_by_thread := runs_by_thread m |}) as K'.
    { apply inv_map_where; [done|intros r; apply interrupt_run_ids|]. intros r (Hr&Fr&Er) C.
      unfold g, interrupt_run. destruct (finalizing r) eqn:Fin; [|apply abort_harmless].
      record_step. rewrite Fin. naive_solver. }
    assert (forall r, r ∈ map_where (competes (rq_thread_id q)) g (runs m) ->
              thread_id r = rq_thread_id q -> live r = false) as Q.
    { intros r' (r&Hr&->)%elem_of_map_where T. destruct (competes (rq_thread_id q) r) eqn:C.
      - unfold g, interrupt_run in *. destruct (finalizing r) eqn:Fin.
        + by apply stopping_dead, (in_finalizing _ K r Hr Fin).
        + apply stopping_dead. by left.
      - unfold competes, inflight in C. rewrite T, String.eqb_refl in C. simpl in C.
        apply orb_false_iff in C as [C _]. unfold live. by rewrite C. }
    split; [done|..]; rewrite E.
    + intros r [Hr| ->%list_elem_of_singleton]%elem_of_app; [by apply (in_finalizing _ K')|done].
    + intros r [Hr| ->%list_elem_of_singleton]%elem_of_app; [by apply (in_early _ K')|by left].
    + intros r1 r2 [H1| ->%list_elem_of_singleton]%elem_of_app [H2| ->%list_elem_of_singleton]%elem_of_app T L1 L2.
      * by apply (in_live _ K').
      * by rewrite (Q r1 H1 T) in L1.
      * by rewrite (Q r2 H2 (eq_sym T)) in L2.
      * done.
  - destruct S as (E&_). destruct K as [_ Fi Ea Li]. by split; [done|rewrite E..].
Qed.

Lemma inv_remove id m : inv m -> inv (remove_run id m).
Proof.
  intros K. pose proof (registry_ok_remove id m (in_ok _ K)) as K'.
  assert (forall r, r ∈ runs (remove_run id m) -> r ∈ runs m) as S.
  { unfold remove_run. destruct (find_run m id) as [x|]; [|done]. simpl. intros r [Hr _]%filter_elem. done. }
  destruct K as [_ Fi Ea Li]. split; [done|..]; eauto.
Qed.

Lemma inv_act e m m' : guarded e -> inv m -> act e m = Some m' -> inv m'.
Proof.
  intros G K. destruct e; simpl act.
  - destruct (bool_decide (fresh id m)) eqn:F; [|done]. intros [= <-]. apply inv_admit; [done|].
    by apply bool_decide_eq_true in F.
  - done.
  - apply inv_at_run; [done|done|]. record_step. intros r (Hr&Fr&Er) T _. stage_of T. by split_and!.
  - apply inv_at_run; [done|done|]. record_step. intros r (Hr&Fr&Er) T _. stage_of T. by split_and!.
  - apply inv_at_run; [done|done|]. record_step. intros r (Hr&Fr&Er) _ _. rewrite andb_false_r. split_and!; by auto.
  - apply inv_at_run; [done|done|]. record_step. intros r (Hr&Fr&Er) T _. stage_of T. split_and!; try done.
    by destruct (Er eq_refl) as [->| ->].
  - apply inv_at_run; [done|done|]. record_step. intros r (Hr&Fr&Er) _ _. rewrite andb_false_r. split_and!; by auto.
  - apply inv_at_run; [done|done|]. record_step. intros r (Hr&Fr&Er) _ _. rewrite andb_false_r. split_and!; by auto.
  - apply inv_at_run; [done|done|]. record_step. intros r (Hr&Fr&Er) _ _. rewrite andb_false_r. split_and!; by auto.
  - apply inv_at_run; [done|done|]. record_step. intros r (Hr&Fr&Er) _ _. rewrite andb_false_r. split_and!; by auto.
  - intros [= <-]. unfold cancel. destruct (find_run m id) as [r|]; [|done].
    destruct (bool_decide _); [done|]. destruct (negb _); [done|]. simpl.
    apply inv_map_where; [done|done|]. intros x _ _. apply abort_harmless.
  - intros [= <-]. apply inv_map_where; [done|done|]. record_step. naive_solver.
  - intros [= <-]. by apply inv_remove.
  - intros [= <-]. apply inv_map_where; [done|done|]. record_step. intros. rewrite andb_false_r. naive_solver.
  - destruct (forallb _ (runs m)) eqn:D; [|done]. intros [= <-]. apply inv_map_where; [done|done|].
    record_step. intros r (Hr&Fr&Er) A. split_and!; try done. intros _. right.
    rewrite forallb_forall in D. specialize (D r). rewrite <-list_elem_of_In in D. specialize (D Hr).
    apply andb_true_iff in A as [A _]. apply bool_decide_eq_true, filter_elem in A as [A _].
    by rewrite bool_decide_eq_true_2 in D.
Qed.

Lemma inv_play l m m' : Forall guarded l -> play m l = Some m' -> inv m -> inv m'.
Proof. apply (play_invariant inv guarded). apply inv_act. Qed.


(** ** A demonstration *)

Definition demo_request (strategy : string) : RunRequest :=
  {| rq_thread_id := "t"; rq_assistant_id := None; rq_on_disconnect := disconnect_cancel;
     rq_metadata := []; rq_kwargs := []; rq_multitask_strategy := strategy;
     rq_model_name := None; rq_user_id := None |}.

Definition demo : list event :=
  [Admit (Ok tt) "a" 1 (demo_request "reject"); Attach "a"; Begin "a"; MarkRunning "a" 2;
   Admit (Ok tt) "b" 3 (demo_request "rollback"); Attach "b"; Begin "b"; MarkFinalizing "a" 4;
   Finish "a" error (Some "Rolled back by user") 5; ClearFinalizing "a" 6; MarkRunning "b" 7;
   MarkFinalizing "b" 8; Admit (Ok tt) "c" 9 (demo_request "interrupt"); ClearFinalizing "b" 10; Attach "c"; Begin "c";
   MarkRunning "c" 11].


(** [create] does not look at the thread's other runs. *)
Lemma create_overlaps :
  match play empty_registry [Create (Ok tt) "a" 1 (demo_request "reject"); Create (Ok tt) "b" 2 (demo_request "reject")] with
  | Some m => map (fun r => (run_id r, live r)) (runs m) = [("a", true); ("b", true)]
  | None => False
  end.
Proof. vm_compute. reflexivity. Qed.

(** A run cancelled before its task is attached starts all the same: the
    thread has two running runs, of which one was told to stop. *)
Lemma interrupted_run_starts :
  match play empty_registry
    [Admit (Ok tt) "a" 1 (demo_request "reject"); Cancel "a" "interrupt" 2;
     Admit (Ok tt) "b" 3 (demo_request "reject"); Attach "a"; Begin "a"; MarkRunning "a" 4;
     Attach "b"; Begin "b"; MarkRunning "b" 5] with
  | Some m => map (fun r => (status r, abort_event r)) (runs m) = [(running, true); (running, false)]
  | None => False
  end.
Proof. vm_compute. reflexivity. Qed.

(** ** A run cancelled before its first step *)

(** The task never runs, so nothing clears the mark [cancel] has left. *)
Definition doomed (id t : string) (m : Registry) : Prop :=
  registry_ok m /\ exists r, r ∈ runs m /\ run_id r = id /\ thread_id r = t /\ status r = interrupted /\
    finalizing r = true /\ task r ∈ [Doomed; Done].

Definition not_cleanup (id : string) (e : event) : Prop :=
  match e with Cleanup i => i <> id | _ => True end.

Lemma doomed_map_where id t f g m :
  doomed id t m -> (forall r, run_id (g r) = run_id r /\ thread_id (g r) = thread_id r) ->
  (forall r, run_id r = id -> r ∈ runs m -> status r = interrupted -> finalizing r = true ->
     task r ∈ [Doomed; Done] -> f r = true ->
     status (g r) = interrupted /\ finalizing (g r) = true /\ task (g r) ∈ [Doomed; Done]) ->
  doomed id t {| runs := map_where f g (runs m); runs_by_thread := runs_by_thread m |}.
Proof.
  intros (K&r&Hr&I&T&St&Fi&Ta) Ig H. split; [by apply lockstep_update|].
  exists (if f r then g r else r). split; [by apply elem_of_map_where; exists r|].
  destruct (f r) eqn:E; [|done]. destruct (Ig r) as [-> ->]. destruct (H r) as (?&?&?); done.
Qed.

Lemma doomed_at_run id t i stages guard g m m' :
  doomed id t m -> (forall r, run_id (g r) = run_id r /\ thread_id (g r) = thread_id r) ->
  (forall r, status r = interrupted -> finalizing r = true -> task r ∈ [Doomed; Done] -> task r ∈ stages ->
     status (g r) = interrupted /\ finalizing (g r) = true /\ task (g r) ∈ [Doomed; Done]) ->
  at_run i stages guard g m = Some m' -> doomed id t m'.
Proof.
  intros D Ig H. unfold at_run. destruct (find_run m i) as [x|] eqn:E; [|done].
  destruct (bool_decide (task x ∈ stages) && guard x) eqn:G; [|done]. intros [= <-].
  apply andb_true_iff in G as [G _]. apply bool_decide_eq_true in G.
  apply doomed_map_where; [done|done|]. intros r _ Hr St Fi Ta Er%String.eqb_eq.
  apply H; try done. apply find_run_elem in E as [Hx Ex].
  assert (r = x) as ->; [|done]. destruct D as [K _].
  pose proof (find_run_of m x K Hx) as F1. pose proof (find_run_of m r K Hr) as F2. rewrite Er, <-Ex in F2. congruence.
Qed.

(** Two disjoint sets of stages. *)
Ltac stage_clash :=
  intros; exfalso; repeat match goal with
  | H : _ ∈ _ :: _ |- _ => apply elem_of_cons in H as [H|H]
  | H : _ ∈ [] |- _ => by apply not_elem_of_nil in H
  end; congruence.

Lemma doomed_act id t e m m' : not_cleanup id e -> doomed id t m -> act e m = Some m' -> doomed id t m'.
Proof.
  intros N D. destruct e; simpl act.
  - destruct (bool_decide (fresh id0 m)) eqn:F; [|done]. apply bool_decide_eq_true in F. intros [= <-].
    pose proof (create_or_reject_spec persisted id0 now q m (proj1 D) F) as S.
    destruct (create_or_reject persisted id0 now q m) as [[outcome m'] stopped]. simpl in *.
    destruct S as [K' S]. destruct D as (K&r&Hr&I&T&St&Fi&Ta). split; [done|]. exists r.
    destruct outcome; [|destruct S as (->&_); done].
    destruct S as (_&_&_&_&->&_). split_and!; try done. apply elem_of_app. left. apply elem_of_map_where.
    exists r. split; [done|]. destruct (competes _ _); [|done]. unfold interrupt_run. by rewrite Fi.
  - destruct (bool_decide (fresh id0 m)) eqn:F; [|done]. apply bool_decide_eq_true in F. intros [= <-].
    destruct D as (K&r&Hr&D). assert (registry_ok (insert_run (new_record id0 now q None) m)) as K' by by apply registry_ok_insert.
    pose proof (fun e => register_raise e (new_record id0 now q None) m F) as R. unfold create, register in *.
    destruct persisted as [[]|e]; simpl in *; [|specialize (R e)].
    + split; [done|]. exists r. split; [|done]. apply elem_of_app. by left.
    + split; [by apply registry_ok_remove|]. exists r. by rewrite R.
  - apply doomed_at_run; [done|done|stage_clash].
  - apply doomed_at_run; [done|done|stage_clash].
  - apply doomed_at_run; [done|done|]. simpl. intros. split_and!; try done. set_solver.
  - apply doomed_at_run; [done|done|stage_clash].
  - apply doomed_at_run; [done|done|stage_clash].
  - apply doomed_at_run; [done|done|stage_clash].
  - apply doomed_at_run; [done|done|stage_clash].
  - apply doomed_at_run; [done|done|stage_clash].
  - intros [= <-]. unfold cancel. destruct (find_run m id0) as [x|] eqn:E; [|done].
    destruct (bool_decide (status x = interrupted)) eqn:B; [done|]. destruct (negb _); [done|]. simpl.
    apply doomed_map_where; [done|done|]. intros r _ Hr St _ _ Er%String.eqb_eq. exfalso.
    apply bool_decide_eq_false in B. apply B. apply find_run_elem in E as [Hx Ex].
    pose proof (find_run_of m x (proj1 D) Hx) as F1. pose proof (find_run_of m r (proj1 D) Hr) as F2.
    rewrite Er, <-Ex in F2. congruence.
  - intros [= <-]. by apply doomed_map_where.
  - intros [= <-]. unfold cleanup. destruct D as (K&r&Hr&I&T&D). split; [by apply registry_ok_remove|].
    exists r. split; [|done]. unfold remove_run. destruct (find_run m id0); [|done]. simpl.
    apply filter_elem. split; [done|]. apply negb_true_iff, String.eqb_neq. simpl in N. congruence.
  - intros [= <-]. apply doomed_map_where; [done|done|]. simpl. intros r _ Hr St Fi Ta A.
    unfold draining in A. by rewrite St in A.
  - destruct (forallb _ (runs m)); [|done]. intros [= <-]. by apply doomed_map_where.
Qed.

(** A run cancelled before its task's first step blocks its thread for as
    long as it is in the registry.  Its task ends without entering the body, so
    it stays marked as finalizing whatever happens: every later run asked for
    with "reject" is refused, and one admitted with another strategy waits for
    ever before it starts. *)
Theorem cancelled_unstarted_blocks id t m l m' :
  doomed id t m -> Forall (not_cleanup id) l -> play m l = Some m' ->
  (forall persisted i now q, rq_thread_id q = t -> rq_multitask_strategy q = "reject" ->
     exists e, (create_or_reject persisted i now q m').1.1 = Raise e /\ class_of e = ConflictError) /\
  (forall i l1 r l2, of_thread thread_id t (runs m') = l1 ++ r :: l2 -> run_id r = id ->
     i ∈ map run_id l2 -> may_proceed m' t i = false).
Proof.
  intros D F E. assert (doomed id t m') as (K&r&Hr&I&T&St&Fi&Ta).
  { eapply (play_invariant (doomed id t) (not_cleanup id)); [|done|done|done]. intros. by eapply doomed_act. }
  split.
  - intros persisted i now q Q R. unfold create_or_reject. rewrite thread_records, Q, R by done. simpl.
    assert (List.filter inflight (of_thread thread_id t (runs m')) <> []) as N.
    { intros Em. assert (r ∈ List.filter inflight (of_thread thread_id t (runs m'))) as H.
      { apply filter_elem. split; [apply filter_elem; split; [done|by apply String.eqb_eq]|].
        unfold inflight. by rewrite Fi, orb_true_r. }
      rewrite Em in H. by apply not_elem_of_nil in H. }
    rewrite bool_decide_eq_false_2 by done. simpl. by eexists.
  - intros i l1 x l2 El Ex Hi. unfold may_proceed. rewrite thread_records, El by done.
    assert (NoDup (map run_id (l1 ++ x :: l2))) as ND.
    { rewrite <-El. apply map_filter_nodup. by destruct K. }
    assert (x = r) as ->.
    { assert (x ∈ runs m') as Hx.
      { assert (x ∈ of_thread thread_id t (runs m')) as H by (rewrite El; set_solver).
        by apply filter_elem in H as [H _]. }
      pose proof (find_run_of m' x K Hx) as F1. pose proof (find_run_of m' r K Hr) as F2.
      rewrite Ex in F1. rewrite I in F2. congruence. }
    clear El. assert (exists prior, before_run i (l1 ++ r :: l2) = Some prior /\ r ∈ prior) as (prior&->&Hp).
    { induction l1 as [|y l1 IH]; simpl in *; apply NoDup_cons in ND as [Ny ND].
      - destruct (String.eqb_spec (run_id r) i) as [<-|_]; [done|].
        assert (forall l, i ∈ map run_id l -> exists p, before_run i l = Some p) as B.
        { clear. induction l as [|z l IH]; simpl; [by intros ?%not_elem_of_nil|].
          destruct (String.eqb_spec (run_id z) i) as [|Nz]; [by eexists|].
          intros [?|H]%elem_of_cons; [congruence|]. destruct (IH H) as [p ->]. by eexists. }
        destruct (B l2 Hi) as [p ->]. eexists. split; [done|]. left.
      - destruct (String.eqb_spec (run_id y) i) as [<-|_].
        + destruct Ny. rewrite map_app. apply elem_of_app. right. by right.
        + destruct (IH ND) as (p&->&Hp). eexists. split; [done|]. by right. }
    apply negb_false_iff, existsb_exists. exists r. by rewrite <-list_elem_of_In.
Qed.

Lemma cancelled_unstarted_blocks_witness :
  exists m m', play empty_registry
      [Admit (Ok tt) "a" 1 (demo_request "reject"); Attach "a"; Cancel "a" "interrupt" 2] = Some m /\
    play m [Drop "a"; Admit (Ok tt) "b" 3 (demo_request "interrupt"); Attach "b"; Begin "b"] = Some m' /\
    may_proceed m' "t" "b" = false /\
    exists e, (create_or_reject (Ok tt) "c" 4 (demo_request "reject") m').1.1 = Raise e /\ class_of e = ConflictError.
Proof.
  set (setup := [Admit (Ok tt) "a" 1 (demo_request "reject"); Attach "a"; Cancel "a" "interrupt" 2]).
  set (later := [Drop "a"; Admit (Ok tt) "b" 3 (demo_request "interrupt"); Attach "b"; Begin "b"]).
  assert (option_map (fun m => map (fun r => (run_id r, status r, finalizing r, task r)) (runs m))
            (play empty_registry setup) = Some [("a", interrupted, true, Doomed)]) as S by (vm_compute; reflexivity).
  destruct (play empty_registry setup) as [m|] eqn:E; [|discriminate S]. injection S as S.
  assert (option_map (fun m => length (runs m)) (play m later) = Some 2%nat) as L.
  { pose proof E as E'. vm_compute in E'. injection E' as <-. vm_compute. reflexivity. }
  destruct (play m later) as [m'|] eqn:E'; [|discriminate L].
  exists m, m'. split; [reflexivity|]. split; [exact E'|].
  assert (doomed "a" "t" m) as D.
  { split; [exact (in_ok _ (inv_play setup _ _ ltac:(repeat constructor) E inv_empty))|].
    pose proof E as F. vm_compute in F. injection F as <-. eexists. split; [left|]. split_and!; try reflexivity. left. }
  destruct (cancelled_unstarted_blocks "a" "t" m later m' D ltac:(repeat constructor) E') as [C W].
  split; [|apply C; reflexivity].
  pose proof E as F. vm_compute in F. injection F as <-. vm_compute in E'. injection E' as <-.
  eapply (W "b" [] _ [_]); [reflexivity|reflexivity|left].
Defined.
End RunManager.
