(* ===== verification/Coroutines.v ===== *)
(** * Coroutines of an event loop

    A coroutine runs alone until it awaits, and at every [await] other
    coroutines may run.  A program is a resumption over the state all
    coroutines share: it runs one segment, then either is done or waits to be
    resumed, in whatever state the others have left, once a condition holds (a
    lock is free).  [run] resumes it at once every time; [pool_step]
    interleaves any number of coroutines.
    The second half is a rely/guarantee logic over these programs, and the
    theorem that it is sound for every interleaving. *)
From S2P Require Import Prelude Errors.
Import Errors.

Module Coroutines.

Section programs.
Context {Shared : Type}.

(** ** Programs *)

(** A coroutine between two segments: finished, or waiting to be resumed once
    it is [ready]. *)
Inductive Co (A : Type) :=
| Done (r : result A)
| Await (ready : Shared -> bool) (resume : Shared -> Co A * Shared).
Arguments Done {A} r.
Arguments Await {A} ready resume.

(** A program: its first segment. *)
Definition M (A : Type) : Type := Shared -> Co A * Shared.

Definition ret {A} (a : A) : M A := fun s => (Done (Ok a), s).
Definition raise {A} (e : exn) : M A := fun s => (Done (Raise e), s).
Definition lift {A} (r : result A) : M A := fun s => (Done r, s).

(** Continue with [k] once [c] is done. *)
Fixpoint andthen {A B} (c : Co A) (k : result A -> M B) (s : Shared) : Co B * Shared :=
  match c with
  | Done r => k r s
  | Await b m => (Await b (fun s1 => let '(c', s2) := m s1 in andthen c' k s2), s)
  end.

Definition bind {A B} (m : M A) (k : A -> M B) : M B :=
  fun s => let '(c, s') := m s in
           andthen c (fun r => match r with Ok a => k a | Raise e => raise e end) s'.

(** [try: m except e: h(e)] *)
Definition catch {A} (m : M A) (h : exn -> M A) : M A :=
  fun s => let '(c, s') := m s in
           andthen c (fun r => match r with Ok a => ret a | Raise e => h e end) s'.

(** A step that touches only the shared state. *)
Definition atomic {A} (f : Shared -> result A * Shared) : M A :=
  fun s => let '(r, s') := f s in (Done r, s').
Definition gets {A} (f : Shared -> A) : M A := atomic (fun s => (Ok (f s), s)).
Definition modify (f : Shared -> Shared) : M unit := atomic (fun s => (Ok tt, f s)).

(** [await]: the other coroutines run. *)
Definition await : M unit := fun s => (Await (fun _ => true) (fun s' => (Done (Ok tt), s')), s).

Definition finally {A} (m : M A) (f : Shared -> Shared) : M A :=
  fun s => let '(c, s') := m s in andthen c (fun r => bind (modify f) (fun _ => lift r)) s'.

(** Nobody else runs: [None] when the program waits for what only another
    could give it. *)
Fixpoint run_co {A} (c : Co A) (s : Shared) : option (result A * Shared) :=
  match c with
  | Done r => Some (r, s)
  | Await ready m => if ready s then let '(c', s') := m s in run_co c' s' else None
  end.

Definition run {A} (m : M A) (s : Shared) : option (result A * Shared) :=
  let '(c, s') := m s in run_co c s'.

(** Induction on the segments of a coroutine. *)
Lemma Co_ind' {A} (P : Co A -> Prop) :
  (forall r, P (Done r)) -> (forall b m, (forall s, P (m s).1) -> P (Await b m)) -> forall c, P c.
Proof.
  intros HD HA. fix IH 1. intros [r|b m]; [apply HD|]. apply HA. intros s.
  destruct (m s) as [c s']. apply IH.
Qed.

(** *** A program that runs alone *)

Lemma run_andthen {A B} (m : M A) (k : result A -> M B) s :
  run (fun s => let '(c, s') := m s in andthen c k s') s
  = match run m s with Some (r, s') => run (k r) s' | None => None end.
Proof.
  unfold run. destruct (m s) as [c s1]. revert s1.
  induction c as [r|b m' IH] using Co_ind'; intros s1; simpl; [done|].
  destruct (b s1); [|done]. specialize (IH s1). destruct (m' s1) as [c' s2]. simpl in *. apply IH.
Qed.

Lemma run_bind {A B} (m : M A) (k : A -> M B) s :
  run (bind m k) s = match run m s with
                     | Some (Ok a, s') => run (k a) s'
                     | Some (Raise e, s') => Some (Raise e, s')
                     | None => None
                     end.
Proof. unfold bind. rewrite run_andthen. by destruct (run m s) as [[[a|e] s']|]. Qed.

Lemma run_catch {A} (m : M A) (h : exn -> M A) s :
  run (catch m h) s = match run m s with
                      | Some (Ok a, s') => Some (Ok a, s')
                      | Some (Raise e, s') => run (h e) s'
                      | None => None
                      end.
Proof. unfold catch. rewrite run_andthen. by destruct (run m s) as [[[a|e] s']|]. Qed.

Lemma run_finally {A} (m : M A) f s :
  run (finally m f) s = match run m s with
                        | Some (r, s') => Some (r, f s')
                        | None => None
                        end.
Proof. unfold finally. rewrite run_andthen. by destruct (run m s) as [[[a|e] s']|]. Qed.

Lemma run_ret {A} (a : A) s : run (ret a) s = Some (Ok a, s).
Proof. done. Qed.
Lemma run_raise {A} e s : run (@raise A e) s = Some (Raise e, s).
Proof. done. Qed.
Lemma run_lift {A} (r : result A) s : run (lift r) s = Some (r, s).
Proof. done. Qed.
Lemma run_atomic {A} (f : Shared -> result A * Shared) s : run (atomic f) s = Some (f s).
Proof. unfold run, atomic. by destruct (f s). Qed.
Lemma run_gets {A} (f : Shared -> A) s : run (gets f) s = Some (Ok (f s), s).
Proof. done. Qed.
Lemma run_modify f s : run (modify f) s = Some (Ok tt, f s).
Proof. done. Qed.
Lemma run_await s : run await s = Some (Ok tt, s).
Proof. done. Qed.
Lemma run_if {A} (b : bool) (m1 m2 : M A) s :
  run (if b then m1 else m2) s = if b then run m1 s else run m2 s.
Proof. by destruct b. Qed.

Fixpoint for_each {A} (l : list A) (f : A -> M unit) : M unit :=
  match l with [] => ret tt | x :: l => bind (f x) (fun _ => for_each l f) end.

Fixpoint map_m {A B} (f : A -> M B) (l : list A) : M (list B) :=
  match l with
  | [] => ret []
  | x :: l => bind (f x) (fun y => bind (map_m f l) (fun ys => ret (y :: ys)))
  end.

End programs.

#[global] Arguments Done {Shared A} r.
#[global] Arguments Await {Shared A} ready resume.
End Coroutines.

Notation "'let!' x ':=' m 'in' k" := (Coroutines.bind m (fun x => k))
  (at level 200, x name, m at level 99, k at level 200) : afterflow_scope.
Notation "'do!' m ';;' k" := (Coroutines.bind m (fun _ : unit => k))
  (at level 200, m at level 99, k at level 200) : afterflow_scope.

Create Rewrite HintDb run.

(** ** A rely/guarantee logic

    A protocol is an invariant of the shared state together with a preorder
    that bounds what one atomic step of any coroutine may do to it. *)
Module RelyGuarantee.
Import Coroutines.

Section protocol.
Context {Shared : Type}.

Record Protocol := {
  inv : Shared -> Prop;
  rely : Shared -> Shared -> Prop;
  rely_refl s : rely s s;
  rely_trans s1 s2 s3 : rely s1 s2 -> rely s2 s3 -> rely s1 s3
}.

End protocol.
#[global] Arguments Protocol : clear implicits.

Section logic.
Context {Shared : Type} (Pr : Protocol Shared).
#[local] Abbreviation M := (@M Shared).
#[local] Abbreviation Co := (@Co Shared).

(** Resumed in whatever state the protocol allows, every segment of [c]
  keeps the protocol, and the last one ends in [Q]. *)
Fixpoint safe {A} (s : Shared) (c : Co A) (Q : result A -> Shared -> Prop) : Prop :=
match c with
| Done r => Q r s
| Await b m => forall s1, inv Pr s1 -> rely Pr s s1 -> b s1 = true ->
    match m s1 with (c', s2) => inv Pr s2 /\ rely Pr s1 s2 /\ safe s2 c' Q end
end.

(** Started where [P] holds, every segment of [m] keeps the protocol,
  whatever the others do in between, and [m] ends in [Q]. *)
Definition triple {A} (P : Shared -> Prop) (m : M A) (Q : result A -> Shared -> Prop) : Prop :=
forall s, inv Pr s -> P s ->
let '(c, s') := m s in inv Pr s' /\ rely Pr s s' /\ safe s' c Q.

(** Facts no coroutine can invalidate. *)
Definition stable (P : Shared -> Prop) : Prop :=
forall s s', inv Pr s -> inv Pr s' -> rely Pr s s' -> P s -> P s'.

Definition on_ok {A} (Q : A -> Shared -> Prop) : result A -> Shared -> Prop :=
fun r s => match r with Ok a => Q a s | Raise _ => True end.

Definition any {A} : A -> Shared -> Prop := fun _ _ => True.

Lemma safe_weaken {A} (c : Co A) s Q Q' :
safe s c Q -> (forall r s, inv Pr s -> Q r s -> Q' r s) -> inv Pr s -> safe s c Q'.
Proof.
intros H W. revert s H. induction c as [r|b m IH] using Co_ind'; intros s H I; simpl in *; [auto|].
intros s1 I1 R1 B1. specialize (H s1 I1 R1 B1). specialize (IH s1).
destruct (m s1) as [c' s2]. destruct H as (?&?&?). split_and!; auto.
Qed.

Lemma triple_weaken {A} (P P' : Shared -> Prop) (m : M A) (Q Q' : result A -> Shared -> Prop) :
triple P m Q -> (forall s, inv Pr s -> P' s -> P s) ->
(forall r s, inv Pr s -> Q r s -> Q' r s) -> triple P' m Q'.
Proof.
intros T HP HQ s I Pw. specialize (T s I (HP _ I Pw)).
destruct (m s) as [c s']. destruct T as (?&?&?). split_and!; eauto using safe_weaken.
Qed.

Lemma triple_post {A} (P : Shared -> Prop) (m : M A) (Q Q' : result A -> Shared -> Prop) :
triple P m Q -> (forall r s, inv Pr s -> Q r s -> Q' r s) -> triple P m Q'.
Proof. intros T H. eapply triple_weaken; eauto. Qed.

Lemma triple_pre {A} (P P' : Shared -> Prop) (m : M A) (Q : result A -> Shared -> Prop) :
triple P m Q -> (forall s, inv Pr s -> P' s -> P s) -> triple P' m Q.
Proof. intros T H. eapply triple_weaken; eauto. Qed.

Lemma triple_lift {A} (P : Shared -> Prop) (r : result A) (Q : result A -> Shared -> Prop) :
(forall s, inv Pr s -> P s -> Q r s) -> triple P (lift r) Q.
Proof. intros H s I Ps. simpl. split_and!; auto using rely_refl. Qed.

Lemma triple_ret {A} (P : Shared -> Prop) (a : A) (Q : result A -> Shared -> Prop) :
(forall s, inv Pr s -> P s -> Q (Ok a) s) -> triple P (ret a) Q.
Proof. apply triple_lift. Qed.

Lemma triple_raise {A} (P : Shared -> Prop) e (Q : result A -> Shared -> Prop) :
(forall s, inv Pr s -> P s -> Q (Raise e) s) -> triple P (raise e) Q.
Proof. apply (triple_lift P (Raise e)). Qed.

Lemma safe_andthen {A B} (c : Co A) (k : result A -> M B) R (Q : result B -> Shared -> Prop) s :
inv Pr s -> safe s c R -> (forall r, triple (R r) (k r) Q) ->
let '(c', s') := andthen c k s in inv Pr s' /\ rely Pr s s' /\ safe s' c' Q.
Proof.
intros I H T. revert s I H. induction c as [r|b m IH] using Co_ind'; intros s I H; simpl in *.
- by apply T.
- split_and!; [done|apply rely_refl|]. intros s1 I1 R1 B1. specialize (H s1 I1 R1 B1).
  specialize (IH s1). destruct (m s1) as [c' s2]. destruct H as (I2&R2&H2).
  specialize (IH s2 I2 H2). simpl in IH. destruct (andthen c' k s2) as [c3 s3].
  destruct IH as (?&?&?). split_and!; auto. by eapply rely_trans.
Qed.

Lemma triple_andthen {A B} P (m : M A) (k : result A -> M B) R (Q : result B -> Shared -> Prop) :
triple P m R -> (forall r, triple (R r) (k r) Q) ->
triple P (fun s => let '(c, s') := m s in andthen c k s') Q.
Proof.
intros Tm Tk s I Ps. specialize (Tm s I Ps). destruct (m s) as [c s1].
destruct Tm as (I1&R1&H1). pose proof (safe_andthen c k R Q s1 I1 H1 Tk) as X.
destruct (andthen c k s1) as [c' s2]. destruct X as (?&?&?). split_and!; auto.
by eapply rely_trans.
Qed.

Lemma triple_bind {A B} P (m : M A) (k : A -> M B) (R : A -> Shared -> Prop)
  (Q : result B -> Shared -> Prop) :
triple P m (fun r s => match r with Ok a => R a s | Raise e => Q (Raise e) s end) ->
(forall a, triple (R a) (k a) Q) -> triple P (bind m k) Q.
Proof.
intros Tm Tk. eapply triple_andthen; [exact Tm|]. intros [a|e]; [apply Tk|].
by apply triple_raise.
Qed.

Lemma triple_catch {A} P (m : M A) (h : exn -> M A) (R : exn -> Shared -> Prop)
  (Q : result A -> Shared -> Prop) :
triple P m (fun r s => match r with Ok a => Q (Ok a) s | Raise e => R e s end) ->
(forall e, triple (R e) (h e) Q) -> triple P (catch m h) Q.
Proof.
intros Tm Th. eapply triple_andthen; [exact Tm|]. intros [a|e]; [|apply Th].
by apply triple_ret.
Qed.

Lemma triple_atomic {A} (P : Shared -> Prop) (f : Shared -> result A * Shared)
  (Q : result A -> Shared -> Prop) :
(forall s, inv Pr s -> P s ->
   inv Pr (f s).2 /\ rely Pr s (f s).2 /\ Q (f s).1 (f s).2) ->
triple P (atomic f) Q.
Proof.
intros H s I Ps. unfold atomic. specialize (H _ I Ps). by destruct (f s) as [r s'].
Qed.

Lemma triple_gets {A} (P : Shared -> Prop) (f : Shared -> A) (Q : result A -> Shared -> Prop) :
(forall s, inv Pr s -> P s -> Q (Ok (f s)) s) -> triple P (gets f) Q.
Proof. intros H. apply triple_atomic. intros s I Ps. simpl. auto using rely_refl. Qed.

Lemma triple_await P : stable P -> triple P await (fun r s => r = Ok tt /\ P s).
Proof.
intros S s I Ps. simpl. split_and!; [done|apply rely_refl|]. intros s1 I1 R1 _.
split_and!; [done|apply rely_refl|done|]. exact (S _ _ I I1 R1 Ps).
Qed.

(** A stable fact is kept by every program that keeps the protocol. *)
Lemma safe_frame {A} (F : Shared -> Prop) (c : Co A) s Q :
stable F -> inv Pr s -> F s -> safe s c Q -> safe s c (fun r s => F s /\ Q r s).
Proof.
intros S. revert s. induction c as [r|b m IH] using Co_ind'; intros s I Fs H; simpl in *; [done|].
intros s1 I1 R1 B1. specialize (H s1 I1 R1 B1). specialize (IH s1).
destruct (m s1) as [c' s2]. destruct H as (I2&R2&H2). split_and!; auto.
apply IH; auto. exact (S _ _ I1 I2 R2 (S _ _ I I1 R1 Fs)).
Qed.

Lemma triple_frame {A} (F P : Shared -> Prop) (m : M A) (Q : result A -> Shared -> Prop) :
stable F -> triple P m Q ->
triple (fun s => F s /\ P s) m (fun r s => F s /\ Q r s).
Proof.
intros S T s I [Fs Ps]. specialize (T s I Ps).
destruct (m s) as [c s']. destruct T as (I'&R'&H). split_and!; auto.
apply safe_frame; auto. exact (S _ _ I I' R' Fs).
Qed.

Lemma stable_and P Q : stable P -> stable Q -> stable (fun s => P s /\ Q s).
Proof. intros SP SQ s s' I I' R [HP HQ]. exact (conj (SP _ _ I I' R HP) (SQ _ _ I I' R HQ)). Qed.
Lemma stable_pure (P : Prop) : stable (fun _ => P).
Proof. by intros s s' _ _ _. Qed.
Lemma stable_since s0 : stable (rely Pr s0).
Proof. intros s s' _ _ R H. by eapply rely_trans. Qed.
Lemma stable_all {A} (P : A -> Shared -> Prop) :
(forall a, stable (P a)) -> stable (fun s => forall a, P a s).
Proof. intros H s s' I I' R HP a. exact (H a _ _ I I' R (HP a)). Qed.
Lemma stable_impl (P : Prop) (Q : Shared -> Prop) : stable Q -> stable (fun s => P -> Q s).
Proof. intros H s s' I I' R HP p. exact (H _ _ I I' R (HP p)). Qed.

(** Sequencing when only the normal outcome matters. *)
Lemma triple_seq_ok {A B} P (m : M A) (k : A -> M B) (R : A -> Shared -> Prop)
  (Q : B -> Shared -> Prop) :
triple P m (on_ok R) -> (forall a, triple (R a) (k a) (on_ok Q)) ->
triple P (bind m k) (on_ok Q).
Proof.
intros Tm Tk. eapply triple_bind; [|exact Tk].
eapply triple_weaken; [exact Tm|done|]. by intros [a|e].
Qed.

(** ... keeping a stable fact across the first program. *)
Lemma triple_seq_keep {A B} (F P : Shared -> Prop) (m : M A) (k : A -> M B)
  (R : A -> Shared -> Prop) (Q : B -> Shared -> Prop) :
stable F -> triple P m (on_ok R) ->
(forall a, triple (fun s => F s /\ R a s) (k a) (on_ok Q)) ->
triple (fun s => F s /\ P s) (bind m k) (on_ok Q).
Proof.
intros S Tm Tk. eapply triple_seq_ok; [|exact Tk].
eapply triple_weaken; [by apply (triple_frame F)|done|]. intros [a|e] s _ [? ?]; done.
Qed.

Lemma triple_if {A} (b : bool) P (m1 m2 : M A) Q :
(b = true -> triple P m1 Q) -> (b = false -> triple P m2 Q) ->
triple P (if b then m1 else m2) Q.
Proof. destruct b; auto. Qed.

Lemma triple_fail {A} P e (Q : A -> Shared -> Prop) : triple P (raise e) (on_ok Q).
Proof. by apply triple_raise. Qed.

Lemma triple_await_ok P : stable P -> triple P await (on_ok (fun _ => P)).
Proof.
intros S. eapply triple_weaken; [by apply triple_await|done|]. by intros r s _ [-> ?].
Qed.

(** A program that ends in [finally f], where [f] keeps the protocol and what
  is known. *)
Lemma triple_finally {A} (P : Shared -> Prop) (m : M A) (f : Shared -> Shared)
  (Q : A -> Shared -> Prop) :
triple P m (on_ok Q) ->
(forall s, inv Pr s -> inv Pr (f s) /\ rely Pr s (f s)) ->
(forall a s, inv Pr s -> Q a s -> Q a (f s)) -> triple P (finally m f) (on_ok Q).
Proof.
intros T Hf HQ. unfold finally. eapply triple_andthen; [exact T|].
intros r. eapply (triple_bind _ _ _ (fun _ => on_ok Q r)).
- apply triple_atomic. intros s I Qs. destruct (Hf s I). split_and!; [done..|].
  simpl. destruct r; simpl in *; auto.
- intros _. by apply triple_lift.
Qed.

Lemma triple_lift_ok {A} P (r : result A) (Q : A -> Shared -> Prop) :
(forall a s, r = Ok a -> inv Pr s -> P s -> Q a s) -> triple P (lift r) (on_ok Q).
Proof. intros H. apply triple_lift. intros s I Ps. destruct r; simpl; auto. Qed.

Lemma triple_gets_ok {A} P (f : Shared -> A) (Q : A -> Shared -> Prop) :
(forall s, inv Pr s -> P s -> Q (f s) s) -> triple P (gets f) (on_ok Q).
Proof. intros H. by apply triple_gets. Qed.

Lemma triple_ret_ok {A} (P : Shared -> Prop) (a : A) (Q : A -> Shared -> Prop) :
(forall s, inv Pr s -> P s -> Q a s) -> triple P (ret a) (on_ok Q).
Proof. intros H. by apply (triple_ret P a (on_ok Q)). Qed.

(** Handlers that only change the error. *)
Lemma triple_catch_fail {A} P (m : M A) (h : exn -> M A) (Q : A -> Shared -> Prop) :
triple P m (on_ok Q) -> (forall e, triple (fun _ => True) (h e) (on_ok Q)) ->
triple P (catch m h) (on_ok Q).
Proof.
intros T H. eapply triple_catch; [|exact H].
eapply triple_post; [exact T|]. by intros [a|e].
Qed.

(** Sequencing where nothing about the first result is needed. *)
Lemma triple_seq_any {A B} P (m : M A) (k : A -> M B) (R : A -> Shared -> Prop)
  (Q : B -> Shared -> Prop) :
triple (fun _ => True) m (on_ok R) -> (forall a, triple (fun _ => True) (k a) (on_ok Q)) ->
triple P (bind m k) (on_ok Q).
Proof.
intros Tm Tk. apply (triple_pre (fun _ => True)); [|done]. eapply triple_seq_ok; [exact Tm|].
intros a. apply (triple_pre (fun _ => True)); [apply Tk|done].
Qed.

Lemma triple_given {A} (phi : Prop) (P : Shared -> Prop) (m : M A) Q :
(phi -> triple P m Q) -> triple (fun s => phi /\ P s) m Q.
Proof. intros H s I [F Ps]. by apply H. Qed.

Lemma triple_given_only {A} (phi : Prop) (m : M A) Q :
(phi -> triple (fun _ => True) m Q) -> triple (fun _ => phi) m Q.
Proof. intros H s I F. by apply H. Qed.

Lemma triple_top {A} P (m : M A) (Q : A -> Shared -> Prop) :
triple P m (on_ok Q) -> triple P m (on_ok (fun _ _ => True)).
Proof. intros T. eapply triple_post; [exact T|]. by intros [a|e]. Qed.

(** What is known before can be used after, when it is stable. *)
Lemma triple_keep {A} (F P : Shared -> Prop) (m : M A) (Q : A -> Shared -> Prop) :
stable F -> triple P m (on_ok Q) -> triple (fun s => F s /\ P s) m (on_ok (fun a s => F s /\ Q a s)).
Proof.
intros S T. eapply triple_post; [by apply triple_frame|]. intros [a|e] s _ H; [done|done].
Qed.

Lemma triple_for_each {A} (P : Shared -> Prop) (l : list A) (f : A -> M unit) :
stable P -> (forall x, x ∈ l -> triple P (f x) (on_ok (fun _ _ => True))) ->
triple P (for_each l f) (on_ok (fun _ => P)).
Proof.
intros SP. induction l as [|x l IH]; intros H; simpl; [by apply triple_ret_ok|].
eapply (triple_seq_ok _ _ _ (fun _ s => P s /\ True)).
- apply (triple_pre (fun s => P s /\ P s)); [|done].
  apply triple_keep; [done|apply H; by left].
- intros u. apply (triple_pre P); [apply IH; intros y Hy; apply H; by right|by intros s _ [? _]].
Qed.

End logic.

Create HintDb stable.
#[export] Hint Resolve stable_and stable_pure stable_since stable_impl : stable.

End RelyGuarantee.

(** ** Any number of coroutines, in any order *)
Module Pools.
Import Coroutines RelyGuarantee.

Section pool.
Context {Shared A : Type}.
#[local] Abbreviation M := (@M Shared).
#[local] Abbreviation Co := (@Co Shared).

Record Pool := { state : Shared; threads : list (Co A) }.

(** What the event loop can do: start a program, resume a waiting coroutine,
  or let time pass. *)
Inductive pool_step (program : M A -> Prop) (passes : Shared -> Shared -> Prop)
: Pool -> Pool -> Prop :=
| pool_start s ts m c s' :
  program m -> m s = (c, s') ->
  pool_step program passes {| state := s; threads := ts |}
                           {| state := s'; threads := ts ++ [c] |}
| pool_resume s ts i b m c s' :
  ts !! i = Some (Await b m) -> b s = true -> m s = (c, s') ->
  pool_step program passes {| state := s; threads := ts |}
                           {| state := s'; threads := <[i := c]> ts |}
| pool_wait s ts s' :
  passes s s' ->
  pool_step program passes {| state := s; threads := ts |} {| state := s'; threads := ts |}.

Context (Pr : Protocol Shared) (program : M A -> Prop) (passes : Shared -> Shared -> Prop).
Context (Hprogram : forall m, program m -> triple Pr (fun _ => True) m (fun _ _ => True)).
Context (Hpasses : forall s s', inv Pr s -> passes s s' -> inv Pr s' /\ rely Pr s s').

(** Every suspended coroutine has been safe since some earlier state. *)
Definition pool_inv (p : Pool) : Prop :=
inv Pr (state p) /\
forall c, c ∈ threads p -> exists s0, rely Pr s0 (state p) /\ safe Pr s0 c (fun _ _ => True).

Lemma pool_step_inv p q :
pool_step program passes p q -> pool_inv p -> pool_inv q /\ rely Pr (state p) (state q).
Proof.
intros S [I T]. destruct S as [s ts m c s' Pm E|s ts i b m c s' Hi Hb E|s ts s' W]; simpl in *.
- pose proof (Hprogram m Pm s I Logic.I) as X. rewrite E in X. destruct X as (I'&R'&S').
  split; [|done]. split; [done|]. simpl. intros x [Hx|Hx%list_elem_of_singleton]%elem_of_app.
  + destruct (T x Hx) as (s0&R0&S0). exists s0. split; [by eapply rely_trans|done].
  + subst. exists s'. split; [apply rely_refl|done].
- destruct (T (Await b m)) as (s0&R0&S0); [by eapply list_elem_of_lookup_2|].
  specialize (S0 s I R0 Hb). rewrite E in S0. destruct S0 as (I'&R'&S').
  split; [|done]. split; [done|]. simpl. intros x Hx.
  apply list_elem_of_lookup in Hx as [j Hj]. destruct (decide (i = j)) as [->|N].
  + rewrite list_lookup_insert_eq in Hj by (by eapply lookup_lt_Some). simplify_eq.
    exists s'. split; [apply rely_refl|done].
  + rewrite list_lookup_insert_ne in Hj by done.
    destruct (T x) as (s1&R1&S1); [by eapply list_elem_of_lookup_2|].
    exists s1. split; [by eapply rely_trans|done].
- destruct (Hpasses s s' I W) as [I' R']. split; [|done]. split; [done|]. simpl.
  intros x Hx. destruct (T x Hx) as (s0&R0&S0). exists s0. split; [by eapply rely_trans|done].
Qed.

(** Programs that keep the protocol one by one keep it in every
  interleaving. *)
Lemma pool_sound p q :
rtc (pool_step program passes) p q -> pool_inv p -> pool_inv q /\ rely Pr (state p) (state q).
Proof.
induction 1 as [p|p x q S _ IH]; intros P; [split; [done|apply rely_refl]|].
destruct (pool_step_inv p x S P) as [P' R]. destruct (IH P') as [? R'].
split; [done|]. by eapply rely_trans.
Qed.

(** *** Schedules: executable interleavings *)

Definition start (m : M A) (p : Pool) : Pool :=
let '(c, s') := m (state p) in {| state := s'; threads := threads p ++ [c] |}.

Definition resume (i : nat) (p : Pool) : Pool :=
match threads p !! i with
| Some (Await ready m) =>
    if ready (state p) then
      let '(c, s') := m (state p) in {| state := s'; threads := <[i := c]> (threads p) |}
    else p
| _ => p
end.

Definition schedule (order : list nat) (p : Pool) : Pool := foldl (fun p i => resume i p) p order.

Lemma start_step m p : program m -> pool_step program passes p (start m p).
Proof.
intros Pm. destruct p as [s ts]. unfold start. simpl. destruct (m s) eqn:E.
by eapply pool_start.
Qed.

Lemma schedule_steps order p : rtc (pool_step program passes) p (schedule order p).
Proof.
revert p. induction order as [|i order IH]; intros p; simpl; [done|].
etransitivity; [|apply IH]. destruct p as [s ts]. unfold resume. simpl.
destruct (ts !! i) as [[r|b m]|] eqn:E; [done| |done].
destruct (b s) eqn:Eb; [|done]. destruct (m s) eqn:Em. apply rtc_once. by eapply pool_resume.
Qed.
End pool.

#[global] Arguments Pool : clear implicits.

End Pools.

(** ** Contracts

    A contract names what a program assumes of the steps of the others and what
    it guarantees of its own.  The two relations need not agree, so one program
    can be bound by more than the others are. *)
Module Contracts.
Import Coroutines.

Section contracts.
Context {Shared : Type} (E G : Shared -> Shared -> Prop).
#[local] Abbreviation M := (@M Shared).
#[local] Abbreviation Co := (@Co Shared).

(** Resumed after steps of the others in [E], every segment is a step in [G],
    and the last one ends in [Q]. *)
Fixpoint obeys {A} (s : Shared) (c : Co A) (Q : result A -> Shared -> Prop) : Prop :=
  match c with
  | Done r => Q r s
  | Await b m => forall s1, E s s1 -> b s1 = true ->
      match m s1 with (c', s2) => G s1 s2 /\ obeys s2 c' Q end
  end.

Definition contract {A} (P : Shared -> Prop) (m : M A) (Q : result A -> Shared -> Prop) : Prop :=
  forall s, P s -> match m s with (c, s') => G s s' /\ obeys s' c Q end.

(** What the others cannot invalidate. *)
Definition steady (P : Shared -> Prop) : Prop := forall s s', E s s' -> P s -> P s'.

Context (G_refl : forall s, G s s) (G_trans : forall s1 s2 s3, G s1 s2 -> G s2 s3 -> G s1 s3).

Lemma obeys_weaken {A} (c : Co A) s (Q Q' : result A -> Shared -> Prop) :
  obeys s c Q -> (forall r s', Q r s' -> Q' r s') -> obeys s c Q'.
Proof.
  intros H W. revert s H. induction c as [r|b m IH] using Co_ind'; intros s H; simpl in *; [auto|].
  intros s1 E1 B1. specialize (H s1 E1 B1). specialize (IH s1). destruct (m s1) as [c' s2].
  destruct H as [H1 H2]. split; [done|]. by apply IH.
Qed.

Lemma contract_post {A} P (m : M A) (Q Q' : result A -> Shared -> Prop) :
  contract P m Q -> (forall r s, Q r s -> Q' r s) -> contract P m Q'.
Proof.
  intros T W s Ps. specialize (T s Ps). destruct (m s) as [c s']. destruct T as [T1 T2].
  split; [done|]. by eapply obeys_weaken.
Qed.

Lemma contract_pre {A} (P P' : Shared -> Prop) (m : M A) (Q : result A -> Shared -> Prop) :
  contract P m Q -> (forall s, P' s -> P s) -> contract P' m Q.
Proof. intros T W s Ps. by apply T, W. Qed.

Lemma obeys_andthen {A B} (c : Co A) (k : result A -> M B) R Q s :
  obeys s c R -> (forall r, contract (R r) (k r) Q) ->
  match andthen c k s with (c', s') => G s s' /\ obeys s' c' Q end.
Proof.
  intros H T. revert s H. induction c as [r|b m IH] using Co_ind'; intros s H; simpl in *.
  - by apply T.
  - split; [apply G_refl|]. intros s1 E1 B1. specialize (H s1 E1 B1). specialize (IH s1).
    destruct (m s1) as [c' s2]. destruct H as [H1 H2]. specialize (IH s2 H2). simpl in IH.
    destruct (andthen c' k s2) as [c3 s3]. destruct IH. split; [by eapply G_trans|done].
Qed.

Lemma contract_andthen {A B} P (m : M A) (k : result A -> M B) R Q :
  contract P m R -> (forall r, contract (R r) (k r) Q) ->
  contract P (fun s => let '(c, s') := m s in andthen c k s') Q.
Proof.
  intros Tm Tk s Ps. specialize (Tm s Ps). destruct (m s) as [c s1]. destruct Tm as [T1 T2].
  pose proof (obeys_andthen c k R Q s1 T2 Tk) as X. destruct (andthen c k s1) as [c' s2].
  destruct X. split; [by eapply G_trans|done].
Qed.

Lemma contract_lift {A} (P : Shared -> Prop) (r : result A) (Q : result A -> Shared -> Prop) :
  (forall s, P s -> Q r s) -> contract P (lift r) Q.
Proof. intros H s Ps. split; [apply G_refl|by apply H]. Qed.

Lemma contract_ret {A} (P : Shared -> Prop) (a : A) (Q : result A -> Shared -> Prop) :
  (forall s, P s -> Q (Ok a) s) -> contract P (ret a) Q.
Proof. apply (contract_lift P (Ok a)). Qed.

Lemma contract_raise {A} (P : Shared -> Prop) e (Q : result A -> Shared -> Prop) :
  (forall s, P s -> Q (Raise e) s) -> contract P (raise e) Q.
Proof. apply (contract_lift P (Raise e)). Qed.

Lemma contract_bind {A B} P (m : M A) (k : A -> M B) (R : A -> Shared -> Prop) Q :
  contract P m (fun r s => match r with Ok a => R a s | Raise e => Q (Raise e) s end) ->
  (forall a, contract (R a) (k a) Q) -> contract P (bind m k) Q.
Proof.
  intros Tm Tk. eapply contract_andthen; [exact Tm|]. intros [a|e]; [apply Tk|]. by apply contract_raise.
Qed.

Lemma contract_catch {A} P (m : M A) (h : exn -> M A) (R : exn -> Shared -> Prop) Q :
  contract P m (fun r s => match r with Ok a => Q (Ok a) s | Raise e => R e s end) ->
  (forall e, contract (R e) (h e) Q) -> contract P (catch m h) Q.
Proof.
  intros Tm Tk. eapply contract_andthen; [exact Tm|]. intros [a|e]; [by apply contract_ret|apply Tk].
Qed.

Lemma contract_atomic {A} (P : Shared -> Prop) (f : Shared -> result A * Shared) Q :
  (forall s, P s -> G s (f s).2 /\ Q (f s).1 (f s).2) -> contract P (atomic f) Q.
Proof. intros H s Ps. specialize (H s Ps). unfold atomic. by destruct (f s). Qed.

Lemma contract_gets {A} (P : Shared -> Prop) (f : Shared -> A) (Q : result A -> Shared -> Prop) :
  (forall s, P s -> Q (Ok (f s)) s) -> contract P (gets f) Q.
Proof. intros H. apply contract_atomic. intros s Ps. split; [apply G_refl|by apply H]. Qed.

Lemma contract_await (P : Shared -> Prop) (Q : result unit -> Shared -> Prop) :
  steady P -> (forall s, P s -> Q (Ok tt) s) -> contract P await Q.
Proof.
  intros St H s Ps. split; [apply G_refl|]. intros s1 E1 _. split; [apply G_refl|]. apply H. by eapply St.
Qed.

Lemma contract_for_each {A} (I : list A -> Shared -> Prop) (f : A -> M unit) (Q : result unit -> Shared -> Prop) l :
  (forall x l, contract (I (x :: l)) (f x) (fun r s => match r with Ok _ => I l s | Raise e => Q (Raise e) s end)) ->
  (forall s, I [] s -> Q (Ok tt) s) -> contract (I l) (for_each l f) Q.
Proof.
  intros Hf Hn. induction l as [|x l IH]; simpl; [by apply contract_ret|].
  eapply (contract_bind _ _ _ (fun _ => I l)); [apply Hf|by intros _].
Qed.
End contracts.

(** One program [main] among any number of others: its steps are in [Gm] and it
    counts on [Em]; theirs are in [Go] and they count on [Eo]. *)
Section together.
Context {Shared A : Type} (Em Gm Eo Go : Shared -> Shared -> Prop).
Context (Em_trans : forall s1 s2 s3, Em s1 s2 -> Em s2 s3 -> Em s1 s3) (Em_refl : forall s, Em s s).
Context (Eo_trans : forall s1 s2 s3, Eo s1 s2 -> Eo s2 s3 -> Eo s1 s3) (Eo_refl : forall s, Eo s s).
Context (Go_Em : forall s s', Go s s' -> Em s s') (Go_Eo : forall s s', Go s s' -> Eo s s')
  (Gm_Eo : forall s s', Gm s s' -> Eo s s').
Context (program : @M Shared A -> Prop) (passes : Shared -> Shared -> Prop).
Context (Hprogram : forall m, program m -> contract Eo Go (fun _ => True) m (fun _ _ => True)).
Context (Hpasses : forall s s', passes s s' -> Go s s').

Import Pools.

Definition obeyed (E G : Shared -> Shared -> Prop) (s : Shared) (c : @Co Shared A) : Prop :=
  exists s0, E s0 s /\ obeys E G s0 c (fun _ _ => True).

(** The main program is the first thread. *)
Definition together (p : Pools.Pool Shared A) : Prop :=
  (exists c, threads p !! 0%nat = Some c /\ obeyed Em Gm (state p) c) /\
  forall i c, threads p !! S i = Some c -> obeyed Eo Go (state p) c.

Lemma obeyed_later (E G : Shared -> Shared -> Prop) s s' c :
  (forall s1 s2 s3, E s1 s2 -> E s2 s3 -> E s1 s3) -> E s s' -> obeyed E G s c -> obeyed E G s' c.
Proof. intros T Es [s0 [E0 H]]. exists s0. split; [by eapply T|done]. Qed.

Lemma obeyed_resume (E G : Shared -> Shared -> Prop) s b m c s' :
  (forall s, E s s) -> obeyed E G s (Await b m) -> b s = true -> m s = (c, s') -> G s s' /\ obeyed E G s' c.
Proof.
  intros R [s0 [E0 H]] B Em'. specialize (H s E0 B). rewrite Em' in H. destruct H as [H1 H2].
  split; [done|]. by exists s'.
Qed.

Lemma together_step p q : pool_step program passes p q -> together p ->
  together q /\ (Gm (state p) (state q) \/ Go (state p) (state q)).
Proof.
  intros S [[c0 [H0 O0]] T]. destruct S as [s ts m c s' Pm Em'|s ts i b m c s' Hi Hb Em'|s ts s' W]; simpl in *.
  - pose proof (Hprogram m Pm s Logic.I) as X. rewrite Em' in X. destruct X as [X1 X2]. split; [|by right]. split; simpl.
    + exists c0. split; [by apply lookup_app_l_Some|]. by apply (obeyed_later Em Gm s s'); [done|apply Go_Em|].
    + intros j d Hd. destruct (decide (S j < length ts)%nat) as [L|L].
      * rewrite lookup_app_l in Hd by done. apply (obeyed_later Eo Go s s'); [done|by apply Go_Eo|by apply (T j)].
      * rewrite lookup_app_r in Hd by lia. apply list_lookup_singleton_Some in Hd as [_ <-]. by exists s'.
  - destruct i as [|i].
    + rewrite H0 in Hi. injection Hi as ->. destruct (obeyed_resume Em Gm s b m c s' Em_refl O0 Hb Em') as [X1 X2].
      split; [|by left]. split; simpl.
      * exists c. split; [|done]. apply list_lookup_insert_eq. by eapply lookup_lt_Some.
      * intros j d Hd. rewrite list_lookup_insert_ne in Hd by done.
        apply (obeyed_later Eo Go s s'); [done|by apply Gm_Eo|by apply (T j)].
    + destruct (obeyed_resume Eo Go s b m c s' Eo_refl (T i _ Hi) Hb Em') as [X1 X2].
      split; [|by right]. split; simpl.
      * exists c0. split; [by rewrite list_lookup_insert_ne|]. by apply (obeyed_later Em Gm s s'); [done|apply Go_Em|].
      * intros j d Hd. destruct (decide (i = j)) as [->|N].
        -- rewrite list_lookup_insert_eq in Hd by (by eapply lookup_lt_Some). by injection Hd as <-.
        -- rewrite list_lookup_insert_ne in Hd by congruence.
           apply (obeyed_later Eo Go s s'); [done|by apply Go_Eo|by apply (T j)].
  - pose proof (Hpasses s s' W) as X. split; [|by right]. split; simpl.
    + exists c0. split; [done|]. by apply (obeyed_later Em Gm s s'); [done|apply Go_Em|].
    + intros j d Hd. apply (obeyed_later Eo Go s s'); [done|by apply Go_Eo|by apply (T j)].
Qed.

(** What every step of either kind preserves holds throughout. *)
Lemma together_sound (I : Shared -> Prop) p q :
  (forall s s', Gm s s' -> I s -> I s') -> (forall s s', Go s s' -> I s -> I s') ->
  rtc (pool_step program passes) p q -> together p -> I (state p) -> I (state q) /\ together q.
Proof.
  intros Hm Ho. induction 1 as [p|p x q S _ IH]; intros T Ip; [done|].
  destruct (together_step p x S T) as [Tx [X|X]]; apply IH; eauto.
Qed.
End together.

End Contracts.
