(* ===== verification/Scheduler.v ===== *)
(** * The scheduler of agent runs

    [Schedules]: [deerflow/scheduler/schedules.py] and the rows of
    [persistence/scheduled_tasks] and [persistence/scheduled_task_runs]: when a
    task is due next, the columns of both tables, and what writing some columns
    of a loaded row does to the row that is stored.

    [Scheduler]: [persistence/scheduled_tasks/sql.py],
    [persistence/scheduled_task_runs/sql.py], [app/scheduler/service.py] and
    [app/gateway/routers/scheduled_tasks.py]: the two repositories, the poller
    that claims due tasks and dispatches them, the hook that a finished run
    calls, and the endpoints, as coroutines over the two tables.  A session
    loads a row with one statement and writes the changed columns with another,
    so others can run in between. *)
From S2P Require Import Prelude Json Errors Text Slices Coroutines.
Import Json Errors Text Slices.

Module Schedules.

(** ** When a task is due *)

(** What the scheduler asks of the time zone database, of [datetime] texts and
    of the cron library.  [zone_info] is [ZoneInfo(name)]; [fromisoformat]
    reads an instant, or a wall-clock time without an offset, which
    [local_instant] places in a zone; [cron_next] is the next match after an
    instant in a zone; [text_column] is what the database driver makes of a
    text bound to a timestamp column. *)
Record Calendar := {
  zone_info : string -> result unit;
  fromisoformat : string -> result (Z + Z);
  local_instant : string -> Z -> Z;
  cron_next : string -> string -> Z -> result Z;
  isoformat : Z -> string;
  text_column : string -> result Z;
  py_str : json -> string
}.

Definition ZoneInfoNotFoundError : exn_class := Subclass "ZoneInfoNotFoundError" KeyError.

Section schedules.
Context (cal : Calendar).

Definition validate_timezone (timezone_name : string) : result string :=
  match zone_info cal timezone_name with
  | Ok _ => Ok timezone_name
  | Raise e => if isinstance (class_of e) ZoneInfoNotFoundError
               then Raise (Exn ValueError ("Unknown timezone: " +:+ timezone_name))
               else Raise e
  end.

Definition normalize_cron_expression (expr : string) : result string :=
  let parts := split expr in
  if bool_decide (length parts = 5%nat) then Ok (join " " parts)
  else Raise (Exn ValueError "Cron expression must contain exactly 5 fields").

Definition next_run_at (schedule_type : string) (schedule_spec : dict) (timezone_name : string) (now : Z)
    : result (option Z) :=
  _ <-? validate_timezone timezone_name ;;
  if (schedule_type =? "once")%string then
    match get "run_at" schedule_spec with
    | Some (JStr run_at_raw) =>
        t <-? fromisoformat cal run_at_raw ;;
        let run_at := match t with inl instant => instant | inr wall => local_instant cal timezone_name wall end in
        Ok (if now <? run_at then Some run_at else None)
    | _ => Raise (Exn ValueError "once schedule requires run_at")
    end
  else if (schedule_type =? "cron")%string then
    cron_expr <-? normalize_cron_expression
                    (match get "cron" schedule_spec with Some (JStr s) => s | Some v => py_str cal v | None => "" end) ;;
    t <-? cron_next cal cron_expr timezone_name now ;;
    Ok (Some t)
  else Raise (Exn ValueError ("Unsupported schedule_type: " +:+ schedule_type)).

End schedules.

(** ** The rows *)

Record TaskRow := mkTask {
  id : string;
  user_id : string;
  thread_id : option string;
  context_mode : string;
  assistant_id : option string;
  title : string;
  prompt : string;
  schedule_type : string;
  schedule_spec : dict;
  timezone : string;
  status : string;
  overlap_policy : string;
  task_next_run_at : option Z;
  last_run_at : option Z;
  last_run_id : option string;
  last_thread_id : option string;
  last_error : option string;
  lease_owner : option string;
  lease_expires_at : option Z;
  run_count : Z;
  created_at : Z;
  updated_at : Z
}.

Record RunRow := mkRun {
  run_row_id : string;
  task_id : string;
  run_thread_id : string;
  run_id : option string;
  scheduled_for : Z;
  trigger : string;
  run_status : string;
  error : option string;
  started_at : option Z;
  finished_at : option Z;
  run_created_at : Z
}.

(** An assignment to an attribute of a loaded row. *)
Inductive task_field :=
  | SetThreadId (v : option string) | SetContextMode (v : string) | SetTitle (v : string) | SetPrompt (v : string)
  | SetScheduleSpec (v : dict) | SetTimezone (v : string) | SetStatus (v : string)
  | SetNextRunAt (v : option Z) | SetLastRunAt (v : option Z) | SetLastRunId (v : option string)
  | SetLastThreadId (v : option string) | SetLastError (v : option string) | SetLeaseOwner (v : option string)
  | SetLeaseExpiresAt (v : option Z) | SetRunCount (v : Z) | SetUpdatedAt (v : Z).

Definition set_task (r : TaskRow) (f : task_field) : TaskRow :=
  let '(mkTask i u th cm a ti p ty sp tz st op nx la lr lt le lo lx n c up) := r in
  match f with
  | SetThreadId v => mkTask i u v cm a ti p ty sp tz st op nx la lr lt le lo lx n c up
  | SetContextMode v => mkTask i u th v a ti p ty sp tz st op nx la lr lt le lo lx n c up
  | SetTitle v => mkTask i u th cm a v p ty sp tz st op nx la lr lt le lo lx n c up
  | SetPrompt v => mkTask i u th cm a ti v ty sp tz st op nx la lr lt le lo lx n c up
  | SetScheduleSpec v => mkTask i u th cm a ti p ty v tz st op nx la lr lt le lo lx n c up
  | SetTimezone v => mkTask i u th cm a ti p ty sp v st op nx la lr lt le lo lx n c up
  | SetStatus v => mkTask i u th cm a ti p ty sp tz v op nx la lr lt le lo lx n c up
  | SetNextRunAt v => mkTask i u th cm a ti p ty sp tz st op v la lr lt le lo lx n c up
  | SetLastRunAt v => mkTask i u th cm a ti p ty sp tz st op nx v lr lt le lo lx n c up
  | SetLastRunId v => mkTask i u th cm a ti p ty sp tz st op nx la v lt le lo lx n c up
  | SetLastThreadId v => mkTask i u th cm a ti p ty sp tz st op nx la lr v le lo lx n c up
  | SetLastError v => mkTask i u th cm a ti p ty sp tz st op nx la lr lt v lo lx n c up
  | SetLeaseOwner v => mkTask i u th cm a ti p ty sp tz st op nx la lr lt le v lx n c up
  | SetLeaseExpiresAt v => mkTask i u th cm a ti p ty sp tz st op nx la lr lt le lo v n c up
  | SetRunCount v => mkTask i u th cm a ti p ty sp tz st op nx la lr lt le lo lx v c up
  | SetUpdatedAt v => mkTask i u th cm a ti p ty sp tz st op nx la lr lt le lo lx n c v
  end.

Inductive run_field :=
  | SetRunStatus (v : string) | SetRunId (v : option string) | SetError (v : option string)
  | SetStartedAt (v : option Z) | SetFinishedAt (v : option Z).

Definition set_run (r : RunRow) (f : run_field) : RunRow :=
  let '(mkRun i t th rid sf tr st er sa fa c) := r in
  match f with
  | SetRunStatus v => mkRun i t th rid sf tr v er sa fa c
  | SetRunId v => mkRun i t th v sf tr st er sa fa c
  | SetError v => mkRun i t th rid sf tr st v sa fa c
  | SetStartedAt v => mkRun i t th rid sf tr st er v fa c
  | SetFinishedAt v => mkRun i t th rid sf tr st er sa v c
  end.

#[export] Instance TaskRow_eq_dec : EqDecision TaskRow.
Proof. solve_decision. Defined.
#[export] Instance RunRow_eq_dec : EqDecision RunRow.
Proof. solve_decision. Defined.

(** The columns an [UPDATE] names: the attributes whose value differs from the
    loaded one, each set to its last assignment. *)
Definition changed {Row Field} `{EqDecision Row} (set : Row -> Field -> Row) (loaded : Row) (fs : list Field) : list Field :=
  List.filter (fun f => negb (bool_decide (set loaded f = loaded))) fs.

(** [ACTIVE_RUN_STATUSES], [TERMINAL_RUN_STATUSES], [TERMINAL_TASK_STATUSES] *)
Definition ACTIVE_RUN_STATUSES : list string := ["queued"; "running"].
Definition TERMINAL_RUN_STATUSES : list string := ["success"; "failed"; "skipped"; "interrupted"].
Definition TERMINAL_TASK_STATUSES : list string := ["completed"; "failed"; "cancelled"].

Definition active (r : RunRow) : bool := bool_decide (run_status r ∈ ACTIVE_RUN_STATUSES).

End Schedules.

Import Json Errors Text Coroutines Schedules.

Module Scheduler.

(** ** The shared state *)

Record LaunchRequest := {
  lr_thread_id : string;
  lr_assistant_id : option string;
  lr_prompt : string;
  lr_owner_user_id : string;
  lr_task_id : string;
  lr_task_run_id : string;
  lr_trigger : string
}.

Record LaunchResult := { launched_run_id : string; launched_thread_id : string }.

(** [launches] records the calls of [launch_run], in order. *)
Record Store := {
  tasks : list TaskRow;
  task_runs : list RunRow;
  clock : Z;
  uuids : nat -> string;
  next_uuid : nat;
  launches : list LaunchRequest
}.

Abbreviation M := (@Coroutines.M Store).
Abbreviation Co := (@Coroutines.Co Store).

Definition set_tasks (s : Store) (l : list TaskRow) : Store :=
  {| tasks := l; task_runs := task_runs s; clock := clock s; uuids := uuids s; next_uuid := next_uuid s; launches := launches s |}.
Definition set_task_runs (s : Store) (l : list RunRow) : Store :=
  {| tasks := tasks s; task_runs := l; clock := clock s; uuids := uuids s; next_uuid := next_uuid s; launches := launches s |}.
Definition bump_uuid (s : Store) : Store :=
  {| tasks := tasks s; task_runs := task_runs s; clock := clock s; uuids := uuids s; next_uuid := S (next_uuid s); launches := launches s |}.
Definition add_launch (s : Store) (r : LaunchRequest) : Store :=
  {| tasks := tasks s; task_runs := task_runs s; clock := clock s; uuids := uuids s; next_uuid := next_uuid s; launches := launches s ++ [r] |}.

Definition find_task (task_id : string) (l : list TaskRow) : option TaskRow := List.find (fun r => (id r =? task_id)%string) l.
Definition find_run (run_record_id : string) (l : list RunRow) : option RunRow :=
  List.find (fun r => (run_row_id r =? run_record_id)%string) l.

Definition StaleDataError : exn_class := Subclass "StaleDataError" ExceptionC.
Definition InvalidRequestError : exn_class := Subclass "InvalidRequestError" ExceptionC.
Definition ConflictError : exn_class := Subclass "ConflictError" ExceptionC.

(** ** Sessions *)

Definition datetime_now : M Z := gets clock.
Definition uuid4 : M string := atomic (fun s => (Ok (uuids s (next_uuid s)), bump_uuid s)).

Definition query {A} (f : Store -> A) : M A := do! await ;; gets f.

Definition get_task (task_id : string) : M (option TaskRow) := query (fun s => find_task task_id (tasks s)).
Definition get_run (run_record_id : string) : M (option RunRow) := query (fun s => find_run run_record_id (task_runs s)).

(** One row of a flush: an [UPDATE] of the changed columns, which must find the
    row. *)
Definition flush_task (loaded : TaskRow) (fs : list task_field) (l : list TaskRow) : result (list TaskRow) :=
  match changed set_task loaded fs with
  | [] => Ok l
  | fs => match find_task (id loaded) l with
          | None => Raise (Exn StaleDataError "UPDATE statement on table 'scheduled_tasks' expected to update 1 row(s)")
          | Some _ => Ok (map_where (fun r => (id r =? id loaded)%string) (fun r => foldl set_task r fs) l)
          end
  end.

Definition flush_run (loaded : RunRow) (fs : list run_field) (l : list RunRow) : result (list RunRow) :=
  match changed set_run loaded fs with
  | [] => Ok l
  | fs => match find_run (run_row_id loaded) l with
          | None => Raise (Exn StaleDataError "UPDATE statement on table 'scheduled_task_runs' expected to update 1 row(s)")
          | Some _ => Ok (map_where (fun r => (run_row_id r =? run_row_id loaded)%string) (fun r => foldl set_run r fs) l)
          end
  end.

Fixpoint flush_all {Row Field} (flush : Row -> list Field -> list Row -> result (list Row)) (dirty : list Row)
    (fs : list Field) (l : list Row) : result (list Row) :=
  match dirty with
  | [] => Ok l
  | r :: dirty => l <-? flush r fs l ;; flush_all flush dirty fs l
  end.

(** [session.commit()]: the flush and the commit are one transaction. *)
Definition commit_tasks (dirty : list TaskRow) (fs : list task_field) : M unit :=
  do! await ;;
  atomic (fun s => match flush_all flush_task dirty fs (tasks s) with
                   | Ok l => (Ok tt, set_tasks s l)
                   | Raise e => (Raise e, s)
                   end).

Definition commit_runs (dirty : list RunRow) (fs : list run_field) : M unit :=
  do! await ;;
  atomic (fun s => match flush_all flush_run dirty fs (task_runs s) with
                   | Ok l => (Ok tt, set_task_runs s l)
                   | Raise e => (Raise e, s)
                   end).

(** [session.refresh(row)] *)
Definition refresh_task (task_id : string) : M TaskRow :=
  let! r := get_task task_id in
  lift (of_option r (Exn InvalidRequestError "Could not refresh instance")).

(** ** ScheduledTaskRepository *)
Module TaskRepo.

Definition create (new_id user : string) (thread : option string) (mode : string) (assistant : option string)
    (ttl prmpt stype : string) (spec : dict) (tz : string) (next_at : option Z) : M TaskRow :=
  let! now := datetime_now in
  let row := {| id := new_id; user_id := user; thread_id := thread; context_mode := mode; assistant_id := assistant;
                title := ttl; prompt := prmpt; schedule_type := stype; schedule_spec := spec; timezone := tz;
                status := "enabled"; overlap_policy := "skip"; task_next_run_at := next_at; last_run_at := None;
                last_run_id := None; last_thread_id := None; last_error := None; lease_owner := None;
                lease_expires_at := None; run_count := 0; created_at := now; updated_at := now |} in
  do! await ;;
  do! atomic (fun s => match find_task new_id (tasks s) with
                       | Some _ => (Raise (Exn IntegrityError "UNIQUE constraint failed: scheduled_tasks.id"), s)
                       | None => (Ok tt, set_tasks s (tasks s ++ [row]))
                       end) ;;
  refresh_task new_id.

Definition get (task : string) (user : string) : M (option TaskRow) :=
  let! r := get_task task in
  ret (match r with Some r => if (user_id r =? user)%string then Some r else None | None => None end).

(** [ORDER BY created_at DESC, id DESC] *)
Definition newer (a b : TaskRow) : bool :=
  (created_at b <? created_at a) || ((created_at a =? created_at b) && bool_decide (String.le (id b) (id a))).

Definition list_by_user (user : string) : M (list TaskRow) :=
  query (fun s => stable_sort newer (List.filter (fun r => (user_id r =? user)%string) (tasks s))).

Definition list_by_user_and_thread (user thread : string) : M (list TaskRow) :=
  query (fun s => stable_sort newer (List.filter (fun r => (user_id r =? user)%string &&
                                                           bool_decide (thread_id r = Some thread)) (tasks s))).

Definition update (task user : string) (updates : list task_field) : M (option TaskRow) :=
  let! r := get_task task in
  match r with
  | None => ret None
  | Some row =>
      if negb (user_id row =? user)%string then ret None else
      let! now := datetime_now in
      do! commit_tasks [row] (updates ++ [SetUpdatedAt now]) ;;
      let! row := refresh_task task in ret (Some row)
  end.

Definition delete (task user : string) : M bool :=
  let! r := get_task task in
  match r with
  | None => ret false
  | Some row =>
      if negb (user_id row =? user)%string then ret false else
      do! await ;;
      do! modify (fun s => set_tasks s (List.filter (fun r => negb (id r =? task)%string) (tasks s))) ;;
      ret true
  end.

(** The [WHERE] of [claim_due_tasks]. *)
Definition claimable (now : Z) (r : TaskRow) : bool :=
  match task_next_run_at r with
  | Some t => (t <=? now) &&
      (((status r =? "enabled")%string && match lease_expires_at r with None => true | Some l => l <? now end) ||
       ((status r =? "running")%string && match lease_expires_at r with None => false | Some l => l <? now end))
  | None => false
  end.

(** [ORDER BY next_run_at, id] *)
Definition due_before (a b : TaskRow) : bool :=
  let at_ r := default 0 (task_next_run_at r) in
  (at_ a <? at_ b) || ((at_ a =? at_ b) && bool_decide (String.le (id a) (id b))).

Definition picked (now : Z) (limit : Z) (l : list TaskRow) : list TaskRow :=
  take (Z.to_nat limit) (stable_sort due_before (List.filter (claimable now) l)).

Definition second : Z := 1000000.

Definition claim_fields (now : Z) (owner : string) (lease_seconds clock : Z) : list task_field :=
  [SetLeaseOwner (Some owner); SetLeaseExpiresAt (Some (now + lease_seconds * second)); SetStatus "running"; SetUpdatedAt clock].

(** The selected rows are locked until the commit: one transaction. *)
Definition claim_due_tasks (now : Z) (owner : string) (lease_seconds limit : Z) : M (list TaskRow) :=
  do! await ;;
  atomic (fun s =>
    let rows := picked now limit (tasks s) in
    let claim r := foldl set_task r (claim_fields now owner lease_seconds (clock s)) in
    (Ok (map claim rows),
     set_tasks s (map_where (fun r => bool_decide (id r ∈ map id rows)) claim (tasks s)))).

(** [last_run] is what binding [last_run_at] to its column gives. *)
Definition update_after_launch (task st : string) (next_at : option Z) (last_run : result (option Z))
    (last_run_id last_thread_id last_error : option string) (increment_run_count protect_terminal : bool) : M unit :=
  let! r := get_task task in
  match r with
  | None => ret tt
  | Some row =>
      let! now := datetime_now in
      do! await ;;
      let! last_run := lift last_run in
      atomic (fun s =>
        match flush_task row
                ((if protect_terminal && bool_decide (status row ∈ TERMINAL_TASK_STATUSES) then []
                  else [SetStatus st; SetLastError last_error]) ++
                 [SetNextRunAt next_at; SetLastRunAt last_run; SetLastRunId last_run_id; SetLastThreadId last_thread_id] ++
                 (if increment_run_count : bool then [SetRunCount (run_count row + 1)] else []) ++
                 [SetLeaseOwner None; SetLeaseExpiresAt None; SetUpdatedAt now]) (tasks s) with
        | Ok l => (Ok tt, set_tasks s l)
        | Raise e => (Raise e, s)
        end)
  end.

Definition stuck (r : TaskRow) : bool :=
  (schedule_type r =? "once")%string && (status r =? "running")%string && bool_decide (lease_expires_at r = None).

Definition cancel_stuck_once_tasks (err : string) : M Z :=
  let! rows := query (fun s => List.filter stuck (tasks s)) in
  let! now := datetime_now in
  do! commit_tasks rows [SetStatus "cancelled"; SetLastError (Some err); SetUpdatedAt now] ;;
  ret (Z.of_nat (length rows)).

End TaskRepo.

(** ** ScheduledTaskRunRepository *)
Module RunRepo.

Definition create_run (new_id task thread : string) (for_ : Z) (trig st : string) : M unit :=
  let! now := datetime_now in
  let row := {| run_row_id := new_id; task_id := task; run_thread_id := thread; run_id := None; scheduled_for := for_;
                trigger := trig; run_status := st; error := None; started_at := None; finished_at := None;
                run_created_at := now |} in
  do! await ;;
  do! atomic (fun s => match find_run new_id (task_runs s) with
                       | Some _ => (Raise (Exn IntegrityError "UNIQUE constraint failed: scheduled_task_runs.id"), s)
                       | None => (Ok tt, set_task_runs s (task_runs s ++ [row]))
                       end) ;;
  await.

Definition newer_run (a b : RunRow) : bool :=
  (run_created_at b <? run_created_at a) ||
  ((run_created_at a =? run_created_at b) && bool_decide (String.le (run_row_id b) (run_row_id a))).

Definition list_by_task (task : string) (limit offset : Z) : M (list RunRow) :=
  query (fun s => take (Z.to_nat limit) (drop (Z.to_nat offset)
                    (stable_sort newer_run (List.filter (fun r => (task_id r =? task)%string) (task_runs s))))).

Definition count_active_runs : M Z := query (fun s => Z.of_nat (length (List.filter active (task_runs s)))).

Definition has_active_runs (task : string) : M bool :=
  query (fun s => existsb (fun r => (task_id r =? task)%string && active r) (task_runs s)).

Definition given {A F} (f : option A -> F) (v : option A) : list F := match v with Some _ => [f v] | None => [] end.

Definition update_status (run_record_id st : string) (run : option string) (err : option string)
    (started finished : option Z) (protect_terminal : bool) : M unit :=
  let! r := get_run run_record_id in
  match r with
  | None => ret tt
  | Some row =>
      if protect_terminal && bool_decide (run_status row ∈ TERMINAL_RUN_STATUSES)
      then commit_runs [row] ((match run_id row with None => given SetRunId run | Some _ => [] end) ++
                              (match started_at row with None => given SetStartedAt started | Some _ => [] end))
      else commit_runs [row] ([SetRunStatus st; SetRunId run; SetError err] ++
                              given SetStartedAt started ++ given SetFinishedAt finished)
  end.

Definition mark_stale_active_runs (err : string) : M Z :=
  let! now := datetime_now in
  let! rows := query (fun s => List.filter active (task_runs s)) in
  do! commit_runs rows [SetRunStatus "interrupted"; SetError (Some err); SetFinishedAt (Some now)] ;;
  ret (Z.of_nat (length rows)).

End RunRepo.

(** ** ScheduledTaskService *)

Inductive outcome := Launched | Failed | Conflict | Skipped.
#[export] Instance outcome_eq_dec : EqDecision outcome.
Proof. solve_decision. Defined.

Record Dispatch := {
  d_outcome : outcome;
  d_task_run_id : option string;
  d_run_id : option string;
  d_thread_id : string;
  d_error : option string
}.

Record Service := {
  poll_interval_seconds : Z;
  lease_seconds : Z;
  max_concurrent_runs : Z;
  owner : string
}.

(** What [handle_run_completion] reads of a finished run. *)
Record Completed := {
  c_scheduled_task_id : option json;
  c_scheduled_task_run_id : option json;
  c_user_id : option string;
  c_status : string;
  c_run_id : string;
  c_error : option string
}.

Section service.
Context (cal : Calendar) (answer : nat -> LaunchRequest -> result LaunchResult) (svc : Service).

(** [self._launch_run(...)]: the gateway starts a run of the agent.  It does
    not touch the two tables, and answers or raises. *)
Definition launch_run (r : LaunchRequest) : M LaunchResult :=
  do! await ;;
  let! n := gets (fun s => length (launches s)) in
  do! modify (fun s => add_launch s r) ;;
  do! await ;;
  lift (answer n r).

(** [str(exc)] *)
Definition exc_text (e : exn) : string :=
  match e with
  | Exn _ m => m
  | HTTPError code d => pretty code +:+ ": " +:+ match d with JStr s => s | d => py_str cal d end
  end.

Definition _is_overlap_conflict (e : exn) : bool :=
  isinstance (class_of e) ConflictError || match e with HTTPError code _ => code =? 409 | Exn _ _ => false end.

Definition _task_status_for_failure (task : TaskRow) (trig : string) : string :=
  if (trig =? "manual")%string then (if (status task =? "")%string then "enabled" else status task)
  else if (schedule_type task =? "once")%string then "failed" else "enabled".

Definition _task_status_for_skip (task : TaskRow) : string :=
  if (schedule_type task =? "once")%string then "failed" else "enabled".

Definition due_next (task : TaskRow) (now : Z) : M (option Z) :=
  lift (next_run_at cal (schedule_type task) (schedule_spec task) (timezone task) now).

(** A task given as a dictionary holds its instants as texts. *)
Definition column_of (v : option Z) : result (option Z) :=
  match v with
  | None => Ok None
  | Some t => t <-? text_column cal (isoformat cal t) ;; Ok (Some t)
  end.

Definition _finalize_skip (task : TaskRow) (task_run_id thread : string) (now : Z) (err : string) : M Dispatch :=
  let! next_at := due_next task now in
  do! RunRepo.update_status task_run_id "skipped" None (Some err) (Some now) (Some now) false ;;
  do! TaskRepo.update_after_launch (id task) (_task_status_for_skip task) next_at (column_of (last_run_at task))
        (last_run_id task) (last_thread_id task)
        (if (schedule_type task =? "once")%string then Some err else None) false false ;;
  ret {| d_outcome := Skipped; d_task_run_id := Some task_run_id; d_run_id := None; d_thread_id := thread;
         d_error := Some err |}.

Definition launch_status (task : TaskRow) (trig : string) : string :=
  if (schedule_type task =? "once")%string then "running"
  else if (trig =? "manual")%string && (status task =? "paused")%string then "paused"
  else "enabled".

(** The body of the [try]. *)
Definition launch_task (task : TaskRow) (task_run_id thread : string) (now : Z) (trig : string) : M Dispatch :=
  let! res := launch_run {| lr_thread_id := thread; lr_assistant_id := assistant_id task; lr_prompt := prompt task;
                            lr_owner_user_id := user_id task; lr_task_id := id task; lr_task_run_id := task_run_id;
                            lr_trigger := trig |} in
  let! next_at := due_next task now in
  do! RunRepo.update_status task_run_id "running" (Some (launched_run_id res)) None (Some now) None true ;;
  do! TaskRepo.update_after_launch (id task) (launch_status task trig) next_at (Ok (Some now))
        (Some (launched_run_id res)) (Some (launched_thread_id res)) None true true ;;
  ret {| d_outcome := Launched; d_task_run_id := Some task_run_id; d_run_id := Some (launched_run_id res);
         d_thread_id := launched_thread_id res; d_error := None |}.

(** The [except Exception]. *)
Definition launch_failed (task : TaskRow) (task_run_id thread : string) (now : Z) (trig : string) (e : exn) : M Dispatch :=
  if negb (isinstance (class_of e) ExceptionC) then raise e else
  let! next_at := due_next task now in
  if _is_overlap_conflict e && (trig =? "scheduled")%string && (overlap_policy task =? "skip")%string
  then _finalize_skip task task_run_id thread now (exc_text e)
  else
    do! RunRepo.update_status task_run_id "failed" None (Some (exc_text e)) (Some now) (Some now) false ;;
    do! TaskRepo.update_after_launch (id task) (_task_status_for_failure task trig) next_at (Ok (Some now))
          None (Some thread) (Some (exc_text e)) false false ;;
    ret {| d_outcome := if _is_overlap_conflict e then Conflict else Failed; d_task_run_id := Some task_run_id;
           d_run_id := None; d_thread_id := thread; d_error := Some (exc_text e) |}.

Definition execution_thread (task : TaskRow) : M string :=
  match thread_id task with
  | Some t => if (context_mode task =? "fresh_thread_per_run")%string || (t =? "")%string then uuid4 else ret t
  | None => uuid4
  end.

Definition overlapping (task : TaskRow) : M bool :=
  if (overlap_policy task =? "skip")%string then RunRepo.has_active_runs (id task) else ret false.

(** The dispatch once its run row has an id. *)
Definition dispatch_run (task : TaskRow) (task_run_id thread : string) (now : Z) (trig : string) (skip : bool) : M Dispatch :=
  do! RunRepo.create_run task_run_id (id task) thread now trig "queued" ;;
  if skip then _finalize_skip task task_run_id thread now "skipped: a previous run of this task is still active"
  else catch (launch_task task task_run_id thread now trig) (launch_failed task task_run_id thread now trig).

Definition dispatch_task (task : TaskRow) (now : Z) (trig : string) : M Dispatch :=
  let! thread := execution_thread task in
  let! skip := overlapping task in
  if skip && (trig =? "manual")%string
  then ret {| d_outcome := Conflict; d_task_run_id := None; d_run_id := None; d_thread_id := thread;
              d_error := Some "task already has an active run" |}
  else
    let! u := uuid4 in
    dispatch_run task ("task-run-" +:+ u) thread now trig skip.

Definition run_once (now : Z) : M unit :=
  let! active := RunRepo.count_active_runs in
  let budget := max_concurrent_runs svc - active in
  if budget <=? 0 then ret tt else
  let! claimed := TaskRepo.claim_due_tasks now (owner svc) (lease_seconds svc) budget in
  for_each claimed (fun task => let! _ := dispatch_task task now "scheduled" in ret tt).

(** [n] rounds of [_run_loop]; the pause between two rounds is an await. *)
Fixpoint _run_loop (n : nat) : M unit :=
  match n with
  | O => ret tt
  | S n =>
      let! now := datetime_now in
      do! catch (run_once now) (fun e => if isinstance (class_of e) ExceptionC then ret tt else raise e) ;;
      do! await ;;
      _run_loop n
  end.

Definition restart_error : string := "interrupted: gateway restarted before the run reached a terminal state".

Definition logged {A} (m : M A) : M unit :=
  catch (let! _ := m in ret tt) (fun e => if isinstance (class_of e) ExceptionC then ret tt else raise e).

(** [start], and [n] rounds of the loop it creates. *)
Definition start (n : nat) : M unit :=
  do! logged (RunRepo.mark_stale_active_runs restart_error) ;;
  do! logged (TaskRepo.cancel_stuck_once_tasks restart_error) ;;
  do! await ;;
  _run_loop n.

(** [handle_run_completion]: how a run ended, and what is reported of it. *)
Definition terminal_outcome (r : Completed) : option (string * option string) :=
  if (c_status r =? "success")%string then Some ("success", None)
  else if (c_status r =? "interrupted")%string
  then Some ("interrupted", Some (match c_error r with
                                  | Some e => if (e =? "")%string then "run was interrupted before completion" else e
                                  | None => "run was interrupted before completion" end))
  else if bool_decide (c_status r ∈ ["error"; "timeout"]) then Some ("failed", c_error r)
  else None.

Definition once_status (terminal : string) : string :=
  if (terminal =? "success")%string then "completed"
  else if (terminal =? "interrupted")%string then "cancelled" else "failed".

Definition handle_run_completion (r : Completed) : M unit :=
  match c_scheduled_task_id r, c_scheduled_task_run_id r, c_user_id r with
  | Some (JStr task), Some (JStr task_run), Some user =>
      if (user =? "")%string then ret tt else
      match terminal_outcome r with
      | None => ret tt
      | Some (terminal, err) =>
          let! now := datetime_now in
          do! RunRepo.update_status task_run terminal (Some (c_run_id r)) err None (Some now) false ;;
          let! t := TaskRepo.get task user in
          match t with
          | None => ret tt
          | Some t =>
              let! _ := TaskRepo.update task user
                          (SetLastError err ::
                           (if (schedule_type t =? "once")%string then [SetStatus (once_status terminal)] else [])) in
              ret tt
          end
      end
  | _, _, _ => ret tt
  end.

End service.

(** ** The endpoints *)

Record CreateRequest := {
  cr_thread_id : option string; cr_context_mode : string; cr_title : string; cr_prompt : string;
  cr_schedule_type : string; cr_schedule_spec : dict; cr_timezone : string
}.

Record UpdateRequest := {
  ur_context_mode : option string; ur_thread_id : option string; ur_title : option string;
  ur_prompt : option string; ur_schedule_spec : option dict; ur_timezone : option string
}.

Section endpoints.
Context (cal : Calendar) (answer : nat -> LaunchRequest -> result LaunchResult).

(** [check_access] answers whether a thread exists and is the user's. *)
Context (check_access : string -> string -> bool) (min_once_delay_seconds : Z).

Definition http {A} (code : Z) (detail : string) : M A := raise (HTTPError code (JStr detail)).

(** The authenticated user of the request. *)
Definition authenticated (user : option string) : M string :=
  match user with Some u => ret u | None => http 401 "Authentication required" end.

Definition found (task user : string) : M TaskRow :=
  let! r := TaskRepo.get task user in
  match r with Some r => ret r | None => http 404 "Scheduled task not found" end.

Definition _ensure_task_mutable (task : TaskRow) : M unit :=
  if (status task =? "running")%string
  then http 409 "Scheduled task is currently running; retry after the active execution finishes" else ret tt.

(** [except ValueError as exc: raise HTTPException(422, str(exc))] *)
Definition value_error_422 {A} (m : M A) : M A :=
  catch m (fun e => if isinstance (class_of e) ValueError then http 422 (exc_text cal e) else raise e).

Definition context_modes : list string := ["fresh_thread_per_run"; "reuse_thread"].

Definition check_thread (thread : option string) (user : string) : M unit :=
  match thread with
  | Some t => if (t =? "")%string then http 422 "reuse_thread requires thread_id" else
              do! await ;;
              if check_access t user then ret tt else http 404 "Thread not found"
  | None => http 422 "reuse_thread requires thread_id"
  end.

(** The schedule as it is stored and its next instant; creation checks the
    time zone before the cron text. *)
Definition checked_schedule (validate : bool) (stype : string) (spec : dict) (tz : string) : M (dict * option Z) :=
  let! now := datetime_now in
  let! res := value_error_422
    (let! _ := lift (if validate then validate_timezone cal tz else Ok tz) in
     let! spec := (if (stype =? "cron")%string
                   then match Json.get "cron" spec with
                        | Some (JStr raw_cron) => let! c := lift (normalize_cron_expression raw_cron) in
                                                  ret (set_key "cron" (JStr c) spec)
                        | _ => http 422 "cron schedule requires schedule_spec.cron"
                        end
                   else ret spec) in
     let! next_at := lift (next_run_at cal stype spec tz now) in
     ret (spec, next_at)) in
  if (stype =? "once")%string then
    match res.2 with
    | None => http 422 "once schedule must be in the future"
    | Some t => if t - now <? min_once_delay_seconds * TaskRepo.second
                then http 422 ("once schedule must be at least " +:+ pretty min_once_delay_seconds +:+ " seconds in the future")
                else ret res
    end
  else ret res.

Definition list_scheduled_tasks (user : option string) : M (list TaskRow) :=
  match user with None => ret [] | Some u => TaskRepo.list_by_user u end.

Definition create_scheduled_task (user : option string) (body : CreateRequest) : M TaskRow :=
  let! u := authenticated user in
  if negb (bool_decide (cr_context_mode body ∈ context_modes)) then http 422 "Unsupported context_mode" else
  do! (if (cr_context_mode body =? "reuse_thread")%string then check_thread (cr_thread_id body) u else ret tt) ;;
  if negb (bool_decide (cr_schedule_type body ∈ ["once"; "cron"])) then http 422 "Unsupported schedule_type" else
  let! sched := checked_schedule true (cr_schedule_type body) (cr_schedule_spec body) (cr_timezone body) in
  let! new_id := uuid4 in
  TaskRepo.create ("task-" +:+ new_id) u (cr_thread_id body) (cr_context_mode body) (Some "lead_agent") (cr_title body)
    (cr_prompt body) (cr_schedule_type body) sched.1 (cr_timezone body) sched.2.

Definition get_scheduled_task (user : option string) (task : string) : M TaskRow :=
  let! u := authenticated user in found task u.

Definition opt_field {A} (f : A -> task_field) (v : option A) : list task_field :=
  match v with Some v => [f v] | None => [] end.

Definition update_scheduled_task (user : option string) (task : string) (body : UpdateRequest) : M (option TaskRow) :=
  let! u := authenticated user in
  let! existing := found task u in
  do! _ensure_task_mutable existing ;;
  do! (match ur_context_mode body with
       | Some m => if bool_decide (m ∈ context_modes) then ret tt else http 422 "Unsupported context_mode"
       | None => ret tt
       end) ;;
  let mode := default (context_mode existing) (ur_context_mode body) in
  let! thread_fields :=
    (if (mode =? "reuse_thread")%string
     then do! check_thread (match ur_thread_id body with Some t => Some t | None => thread_id existing end) u ;;
          ret (opt_field (fun t => SetThreadId (Some t)) (ur_thread_id body))
     else if (mode =? "fresh_thread_per_run")%string then ret [SetThreadId None]
     else ret (opt_field (fun t => SetThreadId (Some t)) (ur_thread_id body))) in
  do! (match ur_timezone body with
       | Some tz => value_error_422 (let! _ := lift (validate_timezone cal tz) in ret tt)
       | None => ret tt
       end) ;;
  let! schedule_fields :=
    (match ur_schedule_spec body, ur_timezone body with
     | None, None => ret []
     | spec, tz =>
         let! sched := checked_schedule false (schedule_type existing) (default (schedule_spec existing) spec)
                         (default (timezone existing) tz) in
         ret ([SetScheduleSpec sched.1; SetNextRunAt sched.2] ++
              match sched.2 with
              | Some _ => if bool_decide (status existing ∈ TERMINAL_TASK_STATUSES) then [SetStatus "enabled"] else []
              | None => []
              end)
     end) in
  TaskRepo.update task u
    (opt_field SetContextMode (ur_context_mode body) ++ thread_fields ++ opt_field SetTitle (ur_title body) ++
     opt_field SetPrompt (ur_prompt body) ++ opt_field SetTimezone (ur_timezone body) ++ schedule_fields).

(** [pause] and [resume] *)
Definition set_status (user : option string) (task st : string) : M TaskRow :=
  let! u := authenticated user in
  let! existing := found task u in
  do! _ensure_task_mutable existing ;;
  let! updated := TaskRepo.update task u [SetStatus st] in
  match updated with Some r => ret r | None => http 404 "Scheduled task not found" end.

Definition pause_scheduled_task (user : option string) (task : string) : M TaskRow := set_status user task "paused".
Definition resume_scheduled_task (user : option string) (task : string) : M TaskRow := set_status user task "enabled".

Definition trigger_scheduled_task (user : option string) (task : string) : M unit :=
  let! u := authenticated user in
  let! t := found task u in
  let! now := datetime_now in
  let! res := dispatch_task cal answer t now "manual" in
  match d_outcome res with
  | Conflict => http 409 (match d_error res with
                          | Some e => if (e =? "")%string then "Scheduled task trigger conflicted with an active run" else e
                          | None => "Scheduled task trigger conflicted with an active run" end)
  | Failed => http 502 (match d_error res with
                        | Some e => if (e =? "")%string then "Scheduled task trigger failed" else e
                        | None => "Scheduled task trigger failed" end)
  | _ => ret tt
  end.

Definition delete_scheduled_task (user : option string) (task : string) : M unit :=
  let! u := authenticated user in
  let! deleted := TaskRepo.delete task u in
  if deleted : bool then ret tt else http 404 "Scheduled task not found".

Definition list_scheduled_task_runs (user : option string) (task : string) (limit offset : Z) : M (list RunRow) :=
  let! u := authenticated user in
  let! _ := found task u in
  RunRepo.list_by_task task limit offset.

Definition list_thread_scheduled_tasks (user : option string) (thread : string) : M (list TaskRow) :=
  let! u := authenticated user in TaskRepo.list_by_user_and_thread u thread.

End endpoints.

End Scheduler.
