(* ===== verification/SchedulerFacts.v ===== *)
(** * What the scheduler guarantees

    The theorems about [Scheduler]: the number of scheduled runs stays under its
    cap whatever the gateway does beside the poller; one user's endpoints leave
    the tasks of the others alone; and what one dispatch does on every branch. *)
From S2P Require Import Prelude Json Errors Text Coroutines Scheduler.
Import Json Errors Text Coroutines Schedules Scheduler.Scheduler.

Module SchedulerFacts.
Import Contracts.

(** ** Rows of the run table *)

Definition tag (r : RunRow) : string * string := (run_row_id r, trigger r).
Definition tags (s : Store) : list (string * string) := map tag (task_runs s).

Definition is_scheduled (r : RunRow) : bool := active r && (trigger r =? "scheduled")%string.

(** The active runs that the poller has started. *)
Definition scheduled_ids (l : list RunRow) : list string := map run_row_id (List.filter is_scheduled l).
Definition scheduled_active (s : Store) : list string := scheduled_ids (task_runs s).

(** How a flush changes one row. *)
Definition touched (dirty : list string) (fs : list run_field) (x y : RunRow) : Prop :=
  tag y = tag x /\ (run_status y = run_status x \/ (run_row_id x ∈ dirty /\ SetRunStatus (run_status y) ∈ fs)).

Lemma set_run_tag r f : tag (set_run r f) = tag r.
Proof. by destruct r, f. Qed.

Lemma set_run_status r f : run_status (set_run r f) = run_status r \/ f = SetRunStatus (run_status (set_run r f)).
Proof. destruct r, f; cbn; first [by left|by right]. Qed.

Lemma fold_run_touched fs r : tag (foldl set_run r fs) = tag r /\
  (run_status (foldl set_run r fs) = run_status r \/ SetRunStatus (run_status (foldl set_run r fs)) ∈ fs).
Proof.
  revert r. induction fs as [|f fs IH]; intros r; cbn [foldl]; [split; [done|by left]|].
  destruct (IH (set_run r f)) as [I1 I2]. rewrite set_run_tag in I1. split; [done|].
  destruct I2 as [I2|I2]; [|right; by right]. rewrite I2. destruct (set_run_status r f) as [->|E]; [by left|].
  right. rewrite <- E. left.
Qed.

Lemma changed_sub {Row Field} `{EqDecision Row} (set : Row -> Field -> Row) r fs f : f ∈ changed set r fs -> f ∈ fs.
Proof. intros [H _]%filter_elem. done. Qed.

Lemma touched_refl dirty fs x : touched dirty fs x x.
Proof. split; [done|by left]. Qed.

Lemma flush_run_touched row fs l l' : flush_run row fs l = Ok l' -> Forall2 (touched [run_row_id row] fs) l l'.
Proof.
  unfold flush_run. destruct (changed set_run row fs) as [|f fs'] eqn:C.
  - intros [= ->]. apply Forall2_same_length_lookup_2; [done|]. intros i x y Hx Hy. simplify_eq. apply touched_refl.
  - destruct (find_run _ l); [|done]. intros [= <-]. unfold map_where. apply Forall2_fmap_r, Forall_Forall2_diag, Forall_forall.
    intros x _. cbn. destruct (run_row_id x =? run_row_id row)%string eqn:E; [|apply touched_refl].
    apply String.eqb_eq in E. destruct (fold_run_touched (f :: fs') x) as [T1 T2]. split; [done|].
    destruct T2 as [T2|T2]; [by left|right]. split; [rewrite E; by left|]. apply (changed_sub set_run row). by rewrite C.
Qed.

Lemma touched_trans d1 d2 fs x y z : touched d1 fs x y -> touched d2 fs y z -> touched (d1 ++ d2) fs x z.
Proof.
  intros [T1 S1] [T2 S2]. split; [congruence|]. assert (run_row_id y = run_row_id x) as I by (injection T1; done).
  destruct S2 as [S2|[S2 S3]].
  - rewrite S2. destruct S1 as [S1|[S1 S3]]; [by left|right]. rewrite elem_of_app. split; [by left|done].
  - right. rewrite elem_of_app, <- I. split; [by right|done].
Qed.

Lemma Forall2_compose {A} (P Q R : A -> A -> Prop) l1 l2 l3 : (forall x y z, P x y -> Q y z -> R x z) ->
  Forall2 P l1 l2 -> Forall2 Q l2 l3 -> Forall2 R l1 l3.
Proof. intros H F. revert l3. induction F; intros l3 F3; inversion F3; subst; constructor; eauto. Qed.

Lemma flush_all_touched fs dirty : forall l l', flush_all flush_run dirty fs l = Ok l' ->
  Forall2 (touched (map run_row_id dirty) fs) l l'.
Proof.
  induction dirty as [|r dirty IH]; intros l l' H; cbn [flush_all] in H.
  - injection H as <-. apply Forall_Forall2_diag, Forall_forall. intros x _. apply touched_refl.
  - apply rbind_ok in H as [l1 [H1 H2]]. apply flush_run_touched in H1. apply IH in H2.
    eapply Forall2_compose; [|exact H1|exact H2]. intros x y z. apply (touched_trans [run_row_id r]).
Qed.

Lemma touched_tags dirty fs l l' : Forall2 (touched dirty fs) l l' -> map tag l' = map tag l.
Proof. induction 1 as [|x y l l' [H _] _ IH]; cbn; [done|]. by rewrite H, IH. Qed.

Lemma elem_scheduled x l : x ∈ scheduled_ids l <-> exists r, r ∈ l /\ run_row_id r = x /\ is_scheduled r = true.
Proof.
  unfold scheduled_ids. rewrite list_elem_of_fmap. setoid_rewrite filter_elem. naive_solver.
Qed.

(** A row becomes active only if an active status is written to it. *)
Lemma touched_scheduled dirty fs l l' x : Forall2 (touched dirty fs) l l' -> x ∈ scheduled_ids l' ->
  x ∈ scheduled_ids l \/ (x ∈ dirty /\ (x, "scheduled") ∈ map tag l /\ exists st, SetRunStatus st ∈ fs /\ st ∈ ACTIVE_RUN_STATUSES).
Proof.
  intros F. rewrite !elem_scheduled. intros [y [Hy [Iy Sy]]]. apply list_elem_of_lookup in Hy as [i Hi].
  destruct (Forall2_lookup_r _ _ _ _ _ F Hi) as [r [Hr [T S]]].
  unfold is_scheduled in Sy. apply andb_true_iff in Sy as [Ay Ty]. apply String.eqb_eq in Ty.
  unfold tag in T. injection T as T1 T2. unfold active in Ay. apply bool_decide_eq_true in Ay.
  apply list_elem_of_lookup_2 in Hr as Er. destruct S as [S|[S1 S2]].
  - left. exists r. split_and!; [done|congruence|]. unfold is_scheduled, active. rewrite <- S.
    rewrite bool_decide_eq_true_2 by done. cbn. apply String.eqb_eq. congruence.
  - right. split_and!; [congruence| |by eexists]. apply list_elem_of_fmap. exists r. split; [|done]. unfold tag. congruence.
Qed.

(** ** Steps *)

(** Run rows are never removed, keep their trigger, and get fresh ids. *)
Definition grows (s s' : Store) : Prop :=
  exists new, tags s' = tags s ++ new /\ NoDup (map fst new) /\ (forall k, k ∈ map fst new -> k ∉ map fst (tags s)).

(** A step that starts no scheduled run. *)
Definition quiet (s s' : Store) : Prop :=
  grows s s' /\ forall k, k ∈ scheduled_active s' -> k ∈ scheduled_active s.

Lemma grows_same s s' : tags s' = tags s -> grows s s'.
Proof. intros E. exists []. rewrite E, app_nil_r. split_and!; [done|apply NoDup_nil_2|by intros k H%elem_of_nil]. Qed.

Lemma grows_refl s : grows s s.
Proof. by apply grows_same. Qed.

Lemma grows_trans s1 s2 s3 : grows s1 s2 -> grows s2 s3 -> grows s1 s3.
Proof.
  intros [l1 [E1 [N1 D1]]] [l2 [E2 [N2 D2]]]. exists (l1 ++ l2). rewrite E2, E1, app_assoc.
  assert (forall k, k ∈ map fst l2 -> k ∉ map fst (tags s1) /\ k ∉ map fst l1) as D.
  { intros k H. apply D2 in H. rewrite E1, map_app, elem_of_app in H. naive_solver. }
  split_and!; [done| |].
  - rewrite map_app. apply NoDup_app. split_and!; [done|intros k H H'; by apply D in H' as [_ H']|done].
  - intros k. rewrite map_app, elem_of_app. intros [H|H]; [by apply D1|by apply D in H as [? _]].
Qed.

Lemma quiet_refl s : quiet s s.
Proof. split; [apply grows_refl|done]. Qed.

Lemma quiet_trans s1 s2 s3 : quiet s1 s2 -> quiet s2 s3 -> quiet s1 s3.
Proof. intros [G1 Q1] [G2 Q2]. split; [by eapply grows_trans|]. intros k H. by apply Q1, Q2. Qed.

Definition ids_once (s : Store) : Prop := NoDup (map fst (tags s)).

Lemma grows_once s s' : grows s s' -> ids_once s -> ids_once s'.
Proof.
  unfold ids_once. intros [l [-> [N D]]] H. rewrite map_app. apply NoDup_app. split_and!; [done| |done].
  intros k H1 H2. by apply (D k).
Qed.

Lemma scheduled_nodup s : ids_once s -> NoDup (scheduled_active s).
Proof.
  unfold ids_once, tags, scheduled_active, scheduled_ids. rewrite map_map. intros H.
  by apply (map_filter_nodup run_row_id).
Qed.

Lemma same_runs_quiet s s' : task_runs s' = task_runs s -> quiet s s'.
Proof. intros E. split; [apply grows_same; unfold tags; by rewrite E|]. unfold scheduled_active. by rewrite E. Qed.

Definition insert_run (s : Store) (row : RunRow) : Store := set_task_runs s (task_runs s ++ [row]).

Lemma insert_grows s row : find_run (run_row_id row) (task_runs s) = None -> grows s (insert_run s row).
Proof.
  intros N. exists [tag row]. split_and!; [unfold tags; cbn; by rewrite map_app|apply NoDup_singleton|].
  intros k [->|H%elem_of_nil]%elem_of_cons; [|done]. unfold tags. rewrite map_map. intros [r [E Hr]]%list_elem_of_fmap.
  pose proof (find_none_elem _ _ r N Hr) as X. cbn in E. cbn in X. apply String.eqb_neq in X. congruence.
Qed.

Lemma insert_scheduled s row k : k ∈ scheduled_active (insert_run s row) ->
  k ∈ scheduled_active s \/ (k = run_row_id row /\ trigger row = "scheduled").
Proof.
  unfold scheduled_active, scheduled_ids. cbn. rewrite List.filter_app, map_app, elem_of_app. intros [H|H]; [by left|].
  cbn in H. destruct (is_scheduled row) eqn:E; cbn in H; [|by apply elem_of_nil in H].
  apply list_elem_of_singleton in H. right. unfold is_scheduled in E. apply andb_true_iff in E as [_ E].
  split; [done|by apply String.eqb_eq].
Qed.


(** ** Programs that keep what is known *)

Section kept.
Context (E G : Store -> Store -> Prop) (G_refl : forall s, G s s)
  (G_trans : forall s1 s2 s3, G s1 s2 -> G s2 s3 -> G s1 s3)
  (G_runs : forall s s', task_runs s' = task_runs s -> G s s').
Context (P : Store -> Prop) (P_steady : steady E P) (P_runs : forall s s', task_runs s' = task_runs s -> P s -> P s').

Definition kept {A} (m : M A) : Prop := contract E G P m (fun _ => P).

Lemma kept_lift {A} (r : result A) : kept (lift r).
Proof. by apply contract_lift. Qed.
Lemma kept_ret {A} (a : A) : kept (ret a).
Proof. by apply contract_ret. Qed.
Lemma kept_raise {A} e : kept (@raise Store A e).
Proof. by apply contract_raise. Qed.
Lemma kept_bind {A B} (m : M A) (k : A -> M B) : kept m -> (forall a, kept (k a)) -> kept (bind m k).
Proof.
  intros Hm Hk. eapply (contract_bind E G G_refl G_trans _ _ _ (fun _ => P)); [|exact Hk].
  eapply contract_post; [exact Hm|]. by intros [a|e].
Qed.
Lemma kept_catch {A} (m : M A) (h : exn -> M A) : kept m -> (forall e, kept (h e)) -> kept (catch m h).
Proof.
  intros Hm Hh. eapply (contract_catch E G G_refl G_trans _ _ _ (fun _ => P)); [|exact Hh].
  eapply contract_post; [exact Hm|]. by intros [a|e].
Qed.
Lemma kept_await : kept await.
Proof. by apply contract_await. Qed.
Lemma kept_gets {A} (f : Store -> A) : kept (gets f).
Proof. by apply contract_gets. Qed.
Lemma kept_atomic {A} (f : Store -> result A * Store) : (forall s, task_runs (f s).2 = task_runs s) -> kept (atomic f).
Proof. intros H. apply contract_atomic. intros s Ps. split; [by apply G_runs, H|by apply (P_runs s); [apply H|]]. Qed.
Lemma kept_query {A} (f : Store -> A) : kept (query f).
Proof. apply kept_bind; [apply kept_await|intros _; apply kept_gets]. Qed.
Lemma kept_uuid4 : kept uuid4.
Proof. by apply kept_atomic. Qed.
Lemma kept_if {A} (b : bool) (m1 m2 : M A) : kept m1 -> kept m2 -> kept (if b then m1 else m2).
Proof. by destruct b. Qed.
End kept.

Ltac keep :=
  repeat first
    [ apply kept_bind; [done|done| |intros ?] | apply kept_catch; [done|done| |intros ?]
    | apply kept_query; done | apply kept_await; done | apply kept_gets; done | apply kept_ret; done
    | apply kept_raise; done | apply kept_lift; done | apply kept_uuid4; done
    | apply kept_atomic; [done|done|intros ?; cbn; repeat case_match; done]
    | apply kept_if | case_match ].

Section programs.
Context (E G : Store -> Store -> Prop) (G_refl : forall s, G s s)
  (G_trans : forall s1 s2 s3, G s1 s2 -> G s2 s3 -> G s1 s3)
  (G_runs : forall s s', task_runs s' = task_runs s -> G s s').
Context (P : Store -> Prop) (P_steady : steady E P) (P_runs : forall s s', task_runs s' = task_runs s -> P s -> P s').

Let kept_ {A} (m : M A) := kept E G P m.

(** *** The task table *)

Lemma commit_tasks_kept dirty fs : kept_ (commit_tasks dirty fs).
Proof using All. unfold kept_, commit_tasks. keep. Qed.

Lemma refresh_task_kept task : kept_ (refresh_task task).
Proof using All. unfold kept_, refresh_task, get_task. keep. Qed.

Lemma task_get_kept task user : kept_ (TaskRepo.get task user).
Proof using All. unfold kept_, TaskRepo.get, get_task. keep. Qed.

Lemma task_update_kept task user fs : kept_ (TaskRepo.update task user fs).
Proof using All.
  unfold kept_, TaskRepo.update, get_task, datetime_now. keep.
Qed.

Lemma task_create_kept i u th m a t p ty sp tz n : kept_ (TaskRepo.create i u th m a t p ty sp tz n).
Proof using All. unfold kept_, TaskRepo.create, datetime_now. keep. Qed.

Lemma task_delete_kept task user : kept_ (TaskRepo.delete task user).
Proof using All. unfold kept_, TaskRepo.delete, get_task, modify. keep. Qed.

Lemma update_after_launch_kept task st nx la lr lt le b1 b2 :
  kept_ (TaskRepo.update_after_launch task st nx la lr lt le b1 b2).
Proof using All. unfold kept_, TaskRepo.update_after_launch, get_task, datetime_now. keep. Qed.

Lemma cancel_stuck_kept err : kept_ (TaskRepo.cancel_stuck_once_tasks err).
Proof using All. unfold kept_, TaskRepo.cancel_stuck_once_tasks, datetime_now. keep. Qed.

(** *** The run table *)

Context (statuses : string -> Prop) (r : string).
Context (P_touch : forall s fs l, P s -> (forall st, SetRunStatus st ∈ fs -> statuses st) ->
  Forall2 (touched [r] fs) (task_runs s) l -> G s (set_task_runs s l) /\ P (set_task_runs s l)).

Lemma commit_run_kept row fs : run_row_id row = r -> (forall st, SetRunStatus st ∈ fs -> statuses st) ->
  kept_ (commit_runs [row] fs).
Proof using All.
  intros Hr Hf. apply kept_bind; [done|done|by apply kept_await|intros _]. apply contract_atomic. intros s Ps.
  destruct (flush_all flush_run [row] fs (task_runs s)) as [l|e] eqn:F; [|by split].
  apply flush_all_touched in F. cbn in F. rewrite Hr in F. by apply (P_touch s fs).
Qed.

Lemma given_elem {A F} (f : option A -> F) v x : x ∈ RunRepo.given f v -> x = f v.
Proof. destruct v; cbn; [by intros ->%list_elem_of_singleton|by intros ?%elem_of_nil]. Qed.

Lemma update_status_kept st run err sa fa b : statuses st -> kept_ (RunRepo.update_status r st run err sa fa b).
Proof using All.
  intros Hst. unfold RunRepo.update_status.
  assert (forall row, run_row_id row = r -> kept_
    (if b && bool_decide (run_status row ∈ TERMINAL_RUN_STATUSES)
     then commit_runs [row] ((match run_id row with None => RunRepo.given SetRunId run | Some _ => [] end) ++
                              (match started_at row with None => RunRepo.given SetStartedAt sa | Some _ => [] end))
     else commit_runs [row] ([SetRunStatus st; SetRunId run; SetError err] ++
                              RunRepo.given SetStartedAt sa ++ RunRepo.given SetFinishedAt fa))) as K.
  { intros row Hr. apply kept_if; apply commit_run_kept; try done; intros st' H.
    - apply elem_of_app in H as [H|H]; case_match; try (by apply elem_of_nil in H); by apply given_elem in H.
    - rewrite !elem_of_app in H. destruct H as [H|[H|H]]; [|by apply given_elem in H..].
      rewrite !elem_of_cons in H. by destruct H as [[= ->]|[?|[?|?%elem_of_nil]]]. }
  apply (contract_bind E G G_refl G_trans _ _ _ (fun o s => P s /\ forall row, o = Some row -> run_row_id row = r)).
  - unfold get_run, query. apply (contract_bind E G G_refl G_trans _ _ _ (fun _ => P)).
    + apply contract_await; done.
    + intros _. apply contract_gets; [done|]. intros s Ps. split; [done|]. intros row H.
      apply find_some_elem in H as [_ H]. by apply String.eqb_eq in H.
  - intros [row|]; [|apply contract_ret; [done|by intros s [? _]]].
    intros s [Ps Hr]. by apply (K row (Hr row eq_refl)).
Qed.

End programs.

(** ** The cap on scheduled runs *)

#[local] Opaque RunRepo.update_status RunRepo.create_run.

(** The dispatch of a task whose run row exists: everything after its creation
    keeps what [P] says, if writing a status to that row does. *)
Section dispatched.
Context (cal : Calendar) (answer : nat -> LaunchRequest -> result LaunchResult).
Context (E G : Store -> Store -> Prop) (G_refl : forall s, G s s)
  (G_trans : forall s1 s2 s3, G s1 s2 -> G s2 s3 -> G s1 s3)
  (G_runs : forall s s', task_runs s' = task_runs s -> G s s').
Context (P : Store -> Prop) (P_steady : steady E P) (P_runs : forall s s', task_runs s' = task_runs s -> P s -> P s').
Context (r : string).
Context (P_touch : forall s fs l, P s -> (forall st, SetRunStatus st ∈ fs -> True) ->
  Forall2 (touched [r] fs) (task_runs s) l -> G s (set_task_runs s l) /\ P (set_task_runs s l)).

Lemma own_status_kept st run err sa fa b : kept E G P (RunRepo.update_status r st run err sa fa b).
Proof using All. by apply (update_status_kept E G G_refl G_trans G_runs P P_steady P_runs (fun _ => True) r P_touch). Qed.

Lemma launched_kept task thread now trig (skip : bool) :
  kept E G P (if skip then _finalize_skip cal task r thread now "skipped: a previous run of this task is still active"
              else catch (launch_task cal answer task r thread now trig) (launch_failed cal task r thread now trig)).
Proof using All.
  unfold launch_task, launch_failed, _finalize_skip, launch_run, due_next, modify, TaskRepo.update_after_launch,
    get_task, datetime_now.
  keep; apply own_status_kept.
Qed.
End dispatched.

Section cap.
Context (cap : Z).

Definition under_cap (s : Store) : Prop := ids_once s /\ Z.of_nat (length (scheduled_active s)) <= cap.

(** What the poller guarantees of its steps. *)
Definition paced (s s' : Store) : Prop := grows s s' /\ (under_cap s -> under_cap s').

(** The active scheduled runs are among [S], which leaves room for [k] more. *)
Definition room (k : nat) (s : Store) : Prop :=
  ids_once s /\ exists S, (forall x, x ∈ scheduled_active s -> x ∈ S) /\ Z.of_nat (length S + k) <= cap.

(** ... and [r] is counted in already. *)
Definition counted (r : string) (k : nat) (s : Store) : Prop :=
  ids_once s /\ exists S, (forall x, x ∈ scheduled_active s -> x ∈ S) /\ r ∈ S /\ Z.of_nat (length S + k) <= cap.

Lemma room_under_cap k s : room k s -> under_cap s.
Proof.
  intros [N [S [Sub L]]]. split; [done|].
  assert (length (scheduled_active s) <= length S)%nat; [|lia].
  apply submseteq_length, NoDup_submseteq; [by apply scheduled_nodup|exact Sub].
Qed.

Lemma counted_room r k s : counted r k s -> room k s.
Proof. intros [N [S [H1 [H2 H3]]]]. split; [done|]. by exists S. Qed.

Lemma room_less k k' s : (k' <= k)%nat -> room k s -> room k' s.
Proof. intros L [N [S [H1 H2]]]. split; [done|]. exists S. split; [done|lia]. Qed.

Lemma under_cap_room s : under_cap s -> room 0 s.
Proof. intros [N L]. split; [done|]. exists (scheduled_active s). split; [done|lia]. Qed.

Lemma paced_refl s : paced s s.
Proof. split; [apply grows_refl|done]. Qed.
Lemma paced_trans s1 s2 s3 : paced s1 s2 -> paced s2 s3 -> paced s1 s3.
Proof. intros [G1 H1] [G2 H2]. split; [by eapply grows_trans|auto]. Qed.
Lemma paced_runs s s' : task_runs s' = task_runs s -> paced s s'.
Proof.
  intros E. destruct (same_runs_quiet s s' E) as [G _]. split; [done|]. intros [N L].
  split; [by eapply grows_once|]. unfold scheduled_active in *. by rewrite E.
Qed.

Lemma room_steady k : steady quiet (room k).
Proof. intros s s' [G Q] [N [S [H1 H2]]]. split; [by eapply grows_once|]. exists S. split; [|done]. auto. Qed.
Lemma counted_steady r k : steady quiet (counted r k).
Proof. intros s s' [G Q] [N [S [H1 H2]]]. split; [by eapply grows_once|]. exists S. split; [|done]. auto. Qed.
Lemma room_runs k s s' : task_runs s' = task_runs s -> room k s -> room k s'.
Proof. intros E. apply room_steady. by apply same_runs_quiet. Qed.
Lemma counted_runs r k s s' : task_runs s' = task_runs s -> counted r k s -> counted r k s'.
Proof. intros E. apply counted_steady. by apply same_runs_quiet. Qed.

Lemma counted_touch r k s fs l : counted r k s -> Forall2 (touched [r] fs) (task_runs s) l ->
  paced s (set_task_runs s l) /\ counted r k (set_task_runs s l).
Proof.
  intros C F. assert (tags (set_task_runs s l) = tags s) as T by (apply (touched_tags _ _ _ _ F)).
  assert (counted r k (set_task_runs s l)) as C'.
  { destruct C as [N [S [H1 [H2 H3]]]]. split; [unfold ids_once; by rewrite T|]. exists S. split_and!; [|done|done].
    intros x Hx. destruct (touched_scheduled _ _ _ _ _ F Hx) as [Hx'|[Hx' _]]; [by apply H1|].
    by apply list_elem_of_singleton in Hx' as ->. }
  split; [|done]. split; [by apply grows_same|]. intros _. eapply room_under_cap, counted_room, C'.
Qed.

Context (cal : Calendar) (answer : nat -> LaunchRequest -> result LaunchResult).

(** The outcome of one dispatch: room for one run less, or an error. *)
Definition leaves {A} (k : nat) (r : result A) (s : Store) : Prop :=
  match r with Ok _ => room k s | Raise _ => room 0 s end.

Lemma create_counts k r task thread now :
  contract quiet paced (room (S k)) (RunRepo.create_run r task thread now "scheduled" "queued")
    (fun res s => match res with Ok _ => counted r k s | Raise _ => room 0 s end).
Proof.
  with_strategy transparent [RunRepo.create_run] unfold RunRepo.create_run, datetime_now.
  eapply (contract_bind _ _ paced_refl paced_trans _ _ _ (fun _ => room (S k))); [by apply contract_gets; [apply paced_refl|]|].
  intros t. eapply (contract_bind _ _ paced_refl paced_trans _ _ _ (fun _ => room (S k)));
    [apply contract_await; [apply paced_refl|apply room_steady|done]|]. intros _.
  eapply (contract_bind _ _ paced_refl paced_trans _ _ _ (fun _ => counted r k)).
  2: { intros _. apply contract_await; [apply paced_refl|apply counted_steady|done]. }
  apply contract_atomic. intros s R. destruct (find_run r (task_runs s)) as [x|] eqn:F.
  - split; [apply paced_refl|]. by apply (room_less (S k)); [lia|].
  - cbn [fst snd]. set (row := {| run_row_id := r |}). fold (insert_run s row).
    assert (counted r k (insert_run s row)) as C.
    { destruct R as [N [S [H1 H2]]]. split; [eapply grows_once; [by apply (insert_grows s row)|done]|].
      exists (r :: S). split_and!; [|by left|cbn in *; lia].
      intros x Hx. destruct (insert_scheduled s row x Hx) as [H|[-> _]]; [right; by apply H1|by left]. }
    split; [|done]. split; [by apply (insert_grows s row)|]. intros _. eapply room_under_cap, counted_room, C.
Qed.

Lemma dispatch_takes_one k task now :
  contract quiet paced (room (S k)) (dispatch_task cal answer task now "scheduled") (leaves k).
Proof.
  assert (forall A (m : M A), kept quiet paced (room (S k)) m ->
    contract quiet paced (room (S k)) m (fun r s => match r with Ok _ => room (S k) s | Raise _ => room 0 s end)) as W.
  { intros A m H. eapply contract_post; [exact H|]. intros [a|e] s; [done|]. apply room_less. lia. }
  assert (forall A (m : M A), kept quiet paced (room (S k)) m ->
    contract quiet paced (room (S k)) m (leaves k)) as W'.
  { intros A m H. eapply contract_post; [exact H|]. intros [a|e] s; apply room_less; lia. }
  pose proof paced_refl as Gr. pose proof paced_trans as Gt. pose proof paced_runs as Gs.
  pose proof (room_steady (S k)) as Ps. pose proof (room_runs (S k)) as Pr.
  unfold dispatch_task.
  eapply contract_bind; [done|done|apply W; unfold execution_thread; keep|intros thread].
  eapply contract_bind; [done|done|apply W; unfold overlapping, RunRepo.has_active_runs; keep|intros skip].
  cbn beta. change ("scheduled" =? "manual")%string with false. rewrite andb_false_r.
  eapply contract_bind; [done|done|apply W; keep|intros u]. unfold dispatch_run.
  eapply (contract_bind _ _ Gr Gt _ _ _ (fun _ => counted ("task-run-" +:+ u) k)).
  - eapply contract_post; [apply create_counts|]. by intros [a|e].
  - intros _. eapply contract_post.
    + apply launched_kept; [done|done|done|apply counted_steady|apply counted_runs|].
      intros s fs l C _ F. by apply (counted_touch _ _ s fs).
    + intros [a|e] s C; cbn; apply counted_room in C; [done|]. by apply (room_less k); [lia|].
Qed.

(** One round of the poller, and the whole of it. *)
Lemma picked_length now limit l : (length (TaskRepo.picked now limit l) <= Z.to_nat limit)%nat.
Proof. unfold TaskRepo.picked. rewrite length_take. lia. Qed.

(** The poller has seen [n] active runs. *)
Definition seen (n : Z) (s : Store) : Prop :=
  room 0 s /\ exists S, (forall x, x ∈ scheduled_active s -> x ∈ S) /\ Z.of_nat (length S) <= n.

Lemma seen_steady n : steady quiet (seen n).
Proof. intros s s' Q [R [S [H1 H2]]]. split; [by apply (room_steady 0 s)|]. exists S. split; [|done]. destruct Q. auto. Qed.

Lemma count_leaves_room : contract quiet paced (room 0) RunRepo.count_active_runs
  (fun r s => match r with Ok n => seen n s | Raise _ => room 0 s end).
Proof.
  eapply (contract_bind _ _ paced_refl paced_trans _ _ _ (fun _ => room 0));
    [apply contract_await; [apply paced_refl|apply room_steady|done]|intros _].
  apply contract_gets; [apply paced_refl|]. intros s R. split; [done|]. exists (scheduled_active s). split; [done|].
  apply inj_le. unfold scheduled_active, scheduled_ids. rewrite length_map.
  clear. induction (task_runs s) as [|r l IH]; cbn; [done|]. unfold is_scheduled at 1.
  destruct (active r); cbn; [destruct (_ =? _)%string; cbn; lia|done].
Qed.

Context (svc : Service) (Max : max_concurrent_runs svc = cap).

Lemma claim_fits n now : 0 < cap - n ->
  contract quiet paced (seen n) (TaskRepo.claim_due_tasks now (owner svc) (lease_seconds svc) (cap - n))
    (fun r s => match r with Ok claimed => room (length claimed) s | Raise _ => room 0 s end).
Proof.
  intros Pos. eapply (contract_bind _ _ paced_refl paced_trans _ _ _ (fun _ => seen n));
    [apply contract_await; [apply paced_refl|apply seen_steady|done]|intros _].
  apply contract_atomic. intros s [[N _] [S [H1 H2]]]. cbn [fst snd]. split; [by apply paced_runs|].
  split; [done|]. exists S. split; [done|]. rewrite length_map.
  pose proof (picked_length now (cap - n) (tasks s)). lia.
Qed.

Lemma run_once_paced now : contract quiet paced (room 0) (run_once cal answer svc now) (fun _ => room 0).
Proof.
  pose proof paced_refl as Gr. pose proof paced_trans as Gt. unfold run_once. rewrite Max.
  eapply contract_bind; [done|done|exact count_leaves_room|intros n]. cbn beta.
  destruct (Z.leb_spec (cap - n) 0) as [L|L]; [by apply contract_ret; [|intros s []]|].
  eapply contract_bind; [done|done|apply (claim_fits n now); lia|intros claimed]. cbn beta.
  apply (contract_for_each quiet paced Gr Gt (fun l => room (length l))); [|done].
  intros task l. eapply contract_bind; [done|done|apply (dispatch_takes_one (length l))|intros d].
  by apply contract_ret.
Qed.

Lemma room_kept {A} (m : M A) : kept quiet paced (room 0) m -> contract quiet paced (room 0) m (fun _ => room 0).
Proof. done. Qed.

Lemma run_loop_paced n : kept quiet paced (room 0) (_run_loop cal answer svc n).
Proof.
  pose proof paced_refl as Gr. pose proof paced_trans as Gt. pose proof paced_runs as Gs.
  pose proof (room_steady 0) as Ps. pose proof (room_runs 0) as Pr.
  induction n as [|n IH]; cbn [_run_loop]; unfold datetime_now; [by apply kept_ret|].
  apply kept_bind; [done|done|by apply kept_gets|intros now].
  apply kept_bind; [done|done|apply kept_catch; [done|done|apply run_once_paced|intros e; keep]|intros _].
  apply kept_bind; [done|done|by apply kept_await|intros _]. exact IH.
Qed.

(** Writing a status that is not active. *)
Lemma settled_status st : bool_decide (st ∈ ACTIVE_RUN_STATUSES) = false -> st ∉ ACTIVE_RUN_STATUSES.
Proof. apply bool_decide_eq_false. Qed.

Lemma settled_touch k dirty s fs l : (forall st, SetRunStatus st ∈ fs -> st ∉ ACTIVE_RUN_STATUSES) ->
  room k s -> Forall2 (touched dirty fs) (task_runs s) l ->
  quiet s (set_task_runs s l) /\ room k (set_task_runs s l).
Proof.
  intros Hf R F. assert (quiet s (set_task_runs s l)) as Q.
  { split; [by apply grows_same, (touched_tags _ _ _ _ F)|]. intros x Hx.
    destruct (touched_scheduled _ _ _ _ _ F Hx) as [H|[_ [_ [st [H1 H2]]]]]; [done|]. by apply Hf in H1. }
  split; [done|]. by apply (room_steady k s).
Qed.

Lemma mark_stale_paced err : kept quiet paced (room 0) (RunRepo.mark_stale_active_runs err).
Proof.
  pose proof paced_refl as Gr. pose proof paced_trans as Gt. pose proof paced_runs as Gs.
  pose proof (room_steady 0) as Ps. pose proof (room_runs 0) as Pr.
  unfold RunRepo.mark_stale_active_runs, datetime_now.
  apply kept_bind; [done|done|by apply kept_gets|intros now].
  apply kept_bind; [done|done|by apply kept_query|intros rows].
  apply kept_bind; [done|done| |intros _; by apply kept_ret]. unfold commit_runs.
  apply kept_bind; [done|done|by apply kept_await|intros _]. apply contract_atomic. intros s R.
  destruct (flush_all _ _ _ _) as [l|e] eqn:F; cbn [fst snd]; [|by split].
  apply flush_all_touched in F. edestruct (settled_touch 0) as [Q R']; [|exact R|exact F|].
  - intros st. rewrite !elem_of_cons. intros [[= ->]|[?|[?|?%elem_of_nil]]]; [|done..]. by apply settled_status.
  - split; [|done]. split; [apply Q|]. intros _. by apply (room_under_cap 0).
Qed.

Lemma start_paced n : kept quiet paced (room 0) (start cal answer svc n).
Proof.
  pose proof paced_refl as Gr. pose proof paced_trans as Gt. pose proof paced_runs as Gs.
  pose proof (room_steady 0) as Ps. pose proof (room_runs 0) as Pr.
  unfold start, logged.
  apply kept_bind; [done|done| |intros _].
  { apply kept_catch; [done|done|apply kept_bind; [done|done|apply mark_stale_paced|intros ?; keep]|intros e; keep]. }
  apply kept_bind; [done|done| |intros _].
  { unfold TaskRepo.cancel_stuck_once_tasks, datetime_now, commit_tasks. keep. }
  apply kept_bind; [done|done|by apply kept_await|intros _]. apply run_loop_paced.
Qed.
End cap.

(** ** The programs beside the poller start no scheduled run *)

(** The row [r] is of a manual run, and stays so. *)
Definition manual (r : string) (s : Store) : Prop :=
  (r, "manual") ∈ tags s /\ forall t, (r, t) ∈ tags s -> t = "manual".

Lemma manual_steady r : steady grows (manual r).
Proof.
  intros s s' [new [E [_ D]]] [M1 M2]. unfold manual. rewrite E. split; [apply elem_of_app; by left|].
  intros t [H|H]%elem_of_app; [by apply M2|].
  exfalso. apply (D r); [apply list_elem_of_fmap; by exists (r, t)|apply list_elem_of_fmap; by exists (r, "manual")].
Qed.

Lemma manual_touch r s fs l : manual r s -> Forall2 (touched [r] fs) (task_runs s) l ->
  quiet s (set_task_runs s l) /\ manual r (set_task_runs s l).
Proof.
  intros C F. assert (tags (set_task_runs s l) = tags s) as T by (apply (touched_tags _ _ _ _ F)).
  split; [split; [by apply grows_same|]|unfold manual; by rewrite T].
  intros x Hx. destruct (touched_scheduled _ _ _ _ _ F Hx) as [H|[H1 [H2 _]]]; [done|].
  apply list_elem_of_singleton in H1 as ->. destruct C as [_ C]. by apply C in H2.
Qed.

Section beside.
Context (cal : Calendar) (answer : nat -> LaunchRequest -> result LaunchResult).
Context (check_access : string -> string -> bool) (delay : Z).

Let P (_ : Store) : Prop := True.

Lemma nothing_steady : steady grows P.
Proof. done. Qed.
Lemma nothing_runs s s' : task_runs s' = task_runs s -> P s -> P s'.
Proof. done. Qed.

Lemma create_manual r task thread now :
  contract grows quiet P (RunRepo.create_run r task thread now "manual" "queued")
    (fun res s => match res with Ok _ => manual r s | Raise _ => True end).
Proof.
  pose proof quiet_refl as Gr. pose proof quiet_trans as Gt.
  with_strategy transparent [RunRepo.create_run] unfold RunRepo.create_run, datetime_now.
  eapply (contract_bind _ _ Gr Gt _ _ _ (fun _ => P)); [by apply contract_gets|intros t].
  eapply (contract_bind _ _ Gr Gt _ _ _ (fun _ => P)); [by apply contract_await|intros _].
  eapply (contract_bind _ _ Gr Gt _ _ _ (fun _ => manual r)).
  2: { intros _. apply contract_await; [done|apply manual_steady|done]. }
  apply contract_atomic. intros s _. destruct (find_run r (task_runs s)) as [x|] eqn:F; [by split|].
  cbn [fst snd]. set (row := {| run_row_id := r |}). fold (insert_run s row).
  pose proof (insert_grows s row F) as G. split.
  - split; [done|]. intros x Hx. destruct (insert_scheduled s row x Hx) as [H|[_ H]]; [done|]. cbn in H. done.
  - destruct G as [new [E [_ D]]]. assert (new = [(r, "manual")]) as ->.
    { apply (app_inv_head (tags s)). rewrite <- E. unfold tags, insert_run. cbn. by rewrite map_app. }
    split; [rewrite E; apply elem_of_app; right; by left|]. intros t'. rewrite E.
    intros [H|H]%elem_of_app; [|apply list_elem_of_singleton in H; by injection H].
    exfalso. apply (D r); [by left|]. apply list_elem_of_fmap. by exists (r, t').
Qed.

Lemma dispatch_manual task now : contract grows quiet P (dispatch_task cal answer task now "manual") (fun _ => P).
Proof.
  pose proof quiet_refl as Gr. pose proof quiet_trans as Gt. pose proof same_runs_quiet as Gs.
  pose proof nothing_steady as Ps. pose proof nothing_runs as Pr.
  unfold dispatch_task.
  apply kept_bind; [done|done|unfold execution_thread; keep|intros thread].
  apply kept_bind; [done|done|unfold overlapping, RunRepo.has_active_runs; keep|intros skip].
  apply kept_if; [by apply kept_ret|]. apply kept_bind; [done|done|by apply kept_uuid4|intros u]. unfold dispatch_run.
  eapply (contract_bind _ _ Gr Gt _ _ _ (fun _ => manual ("task-run-" +:+ u))); [apply create_manual|intros _].
  eapply contract_post.
  - apply launched_kept; [done|done|done|apply manual_steady| |].
    + intros s s' E. apply manual_steady. by apply same_runs_quiet.
    + intros s fs l C _ F. by apply (manual_touch _ s fs).
  - done.
Qed.

Lemma settled_quiet dirty s fs l : (forall st, SetRunStatus st ∈ fs -> st ∉ ACTIVE_RUN_STATUSES) ->
  Forall2 (touched dirty fs) (task_runs s) l -> quiet s (set_task_runs s l).
Proof.
  intros Hf F. split; [by apply grows_same, (touched_tags _ _ _ _ F)|]. intros x Hx.
  destruct (touched_scheduled _ _ _ _ _ F Hx) as [H|[_ [_ [st [H1 H2]]]]]; [done|]. by apply Hf in H1.
Qed.

Lemma terminal_settled c st e : terminal_outcome c = Some (st, e) -> st ∉ ACTIVE_RUN_STATUSES.
Proof.
  unfold terminal_outcome. intros H. apply settled_status. repeat case_match; simplify_eq; vm_compute; reflexivity.
Qed.

Lemma completion_quiet c : kept grows quiet P (handle_run_completion c).
Proof.
  pose proof quiet_refl as Gr. pose proof quiet_trans as Gt. pose proof same_runs_quiet as Gs.
  pose proof nothing_steady as Ps. pose proof nothing_runs as Pr.
  unfold handle_run_completion. case_match; [|by apply kept_ret]. case_match; try by apply kept_ret.
  case_match; [|by apply kept_ret]. case_match; try by apply kept_ret. case_match; [|by apply kept_ret].
  apply kept_if; [by apply kept_ret|]. destruct (terminal_outcome c) as [[st e]|] eqn:T; [|by apply kept_ret].
  apply kept_bind; [done|done|unfold datetime_now; by apply kept_gets|intros now].
  apply kept_bind; [done|done| |intros _].
  - apply (update_status_kept _ _ Gr Gt Gs _ Ps Pr (fun st => st ∉ ACTIVE_RUN_STATUSES)); [|by eapply terminal_settled].
    intros st0 fs rows _ Hf F. split; [by eapply settled_quiet|done].
  - unfold TaskRepo.get, get_task, TaskRepo.update, datetime_now. keep.
Qed.

(** What runs beside the poller: the completion hook and the endpoints. *)
Inductive served : M unit -> Prop :=
  | served_completion c : served (handle_run_completion c)
  | served_trigger user task : served (trigger_scheduled_task cal answer user task)
  | served_create user body : served (let! _ := create_scheduled_task cal check_access delay user body in ret tt)
  | served_update user task body : served (let! _ := update_scheduled_task cal check_access delay user task body in ret tt)
  | served_status user task st : served (let! _ := set_status user task st in ret tt)
  | served_delete user task : served (delete_scheduled_task user task)
  | served_read user task : served (let! _ := get_scheduled_task user task in ret tt)
  | served_list user : served (let! _ := list_scheduled_tasks user in ret tt)
  | served_runs user task limit offset : served (let! _ := list_scheduled_task_runs user task limit offset in ret tt)
  | served_thread user thread : served (let! _ := list_thread_scheduled_tasks user thread in ret tt).

Lemma trigger_quiet user task : kept grows quiet P (trigger_scheduled_task cal answer user task).
Proof.
  pose proof quiet_refl as Gr. pose proof quiet_trans as Gt. pose proof same_runs_quiet as Gs.
  pose proof nothing_steady as Ps. pose proof nothing_runs as Pr.
  unfold trigger_scheduled_task.
  apply kept_bind; [done|done|unfold authenticated, http; keep|intros u].
  apply kept_bind; [done|done|unfold found, TaskRepo.get, get_task, http; keep|intros t].
  apply kept_bind; [done|done|unfold datetime_now; by apply kept_gets|intros now].
  apply kept_bind; [done|done|apply dispatch_manual|intros d]. unfold http. keep.
Qed.

Lemma served_quiet m : served m -> contract grows quiet P m (fun _ => P).
Proof.
  pose proof quiet_refl as Gr. pose proof quiet_trans as Gt. pose proof same_runs_quiet as Gs.
  pose proof nothing_steady as Ps. pose proof nothing_runs as Pr.
  destruct 1; [apply completion_quiet|apply trigger_quiet|..].
  - unfold create_scheduled_task, authenticated, check_thread, checked_schedule, value_error_422, http, datetime_now. keep.
  - unfold update_scheduled_task, authenticated, found, _ensure_task_mutable, check_thread, checked_schedule,
      value_error_422, http, datetime_now. keep.
  - unfold set_status, authenticated, found, _ensure_task_mutable, http, datetime_now. keep.
  - unfold delete_scheduled_task, authenticated, http, TaskRepo.delete, get_task, modify. keep.
  - unfold get_scheduled_task, authenticated, found, http. keep.
  - unfold list_scheduled_tasks, TaskRepo.list_by_user. keep.
  - unfold list_scheduled_task_runs, authenticated, found, http, RunRepo.list_by_task. keep.
  - unfold list_thread_scheduled_tasks, authenticated, http, TaskRepo.list_by_user_and_thread. keep.
Qed.
End beside.

(** Time passes. *)
Definition ticks (s s' : Store) : Prop :=
  tasks s' = tasks s /\ task_runs s' = task_runs s /\ launches s' = launches s /\ clock s <= clock s'.

(** C14: However the gateway's endpoints, the hooks of finishing runs and the
    poller interleave, the runs that the poller has started and that are still
    active never exceed [max_concurrent_runs]. *)
Theorem scheduled_runs_capped (cal : Calendar) (answer : nat -> LaunchRequest -> result LaunchResult)
    (check_access : string -> string -> bool) (delay : Z) (svc : Service) (rounds : nat) (s0 : Store) p :
  under_cap (max_concurrent_runs svc) s0 ->
  (let '(poller, s1) := start cal answer svc rounds s0 in
   rtc (Pools.pool_step (served cal answer check_access delay) ticks)
     {| Pools.state := s1; Pools.threads := [poller] |} p) ->
  Z.of_nat (length (scheduled_active (Pools.state p))) <= max_concurrent_runs svc.
Proof.
  intros U. pose proof (start_paced _ cal answer svc eq_refl rounds s0 (under_cap_room _ s0 U)) as K.
  destruct (start cal answer svc rounds s0) as [poller s1]. destruct K as [[_ K1] K2]. intros R.
  assert (under_cap (max_concurrent_runs svc) (Pools.state p)) as [_ H]; [|done].
  refine (proj1 (together_sound quiet (paced (max_concurrent_runs svc)) grows quiet quiet_trans quiet_refl grows_trans
    grows_refl _ _ _ (served cal answer check_access delay) ticks _ _ (under_cap (max_concurrent_runs svc)) _ p _ _ R _ _)).
  - done.
  - by intros s s' [].
  - by intros s s' [].
  - intros m Hm. eapply contract_post; [exact (served_quiet _ _ _ _ m Hm)|done].
  - intros s s' [_ [E _]]. by apply same_runs_quiet.
  - intros s s' [_ H]. exact H.
  - intros s s' Q R'. apply (room_under_cap _ 0), (room_steady _ 0 s); [done|]. by apply under_cap_room.
  - split; cbn; [|by intros i c H]. exists poller. split; [done|]. exists s1. split; [apply quiet_refl|].
    eapply obeys_weaken; [exact K2|done].
  - cbn. by apply K1.
Qed.

(** ** One dispatch, alone *)

Definition attribute (f : task_field) : nat :=
  match f with
  | SetThreadId _ => 0 | SetContextMode _ => 1 | SetTitle _ => 2 | SetPrompt _ => 3 | SetScheduleSpec _ => 4
  | SetTimezone _ => 5 | SetStatus _ => 6 | SetNextRunAt _ => 7 | SetLastRunAt _ => 8 | SetLastRunId _ => 9
  | SetLastThreadId _ => 10 | SetLastError _ => 11 | SetLeaseOwner _ => 12 | SetLeaseExpiresAt _ => 13
  | SetRunCount _ => 14 | SetUpdatedAt _ => 15
  end%nat.

Definition run_attribute (f : run_field) : nat :=
  match f with
  | SetRunStatus _ => 0 | SetRunId _ => 1 | SetError _ => 2 | SetStartedAt _ => 3 | SetFinishedAt _ => 4
  end%nat.

Lemma set_task_other r f g : attribute f <> attribute g -> set_task r f = r -> set_task (set_task r g) f = set_task r g.
Proof. destruct r, f, g; cbn; intros N [=]; subst; congruence. Qed.

Lemma set_run_other r f g : run_attribute f <> run_attribute g -> set_run r f = r -> set_run (set_run r g) f = set_run r g.
Proof. destruct r, f, g; cbn; intros N [=]; subst; congruence. Qed.

(** Leaving out the assignments that change nothing changes nothing. *)
Lemma fold_changed {Row Field} `{EqDecision Row} (set : Row -> Field -> Row) (attr : Field -> nat) :
  (forall r f g, attr f <> attr g -> set r f = r -> set (set r g) f = set r g) ->
  forall fs r0 r, NoDup (map attr fs) -> (forall f, f ∈ fs -> set r0 f = r0 -> set r f = r) ->
  foldl set r (changed set r0 fs) = foldl set r fs.
Proof.
  intros O. induction fs as [|f fs IH]; intros r0 r Nd H; [done|]. cbn in Nd. apply NoDup_cons in Nd as [N1 N2].
  cbn [foldl]. unfold changed. cbn [List.filter].
  assert (forall g, g ∈ fs -> attr g <> attr f) as Nf.
  { intros g Hg E. apply N1. rewrite <- E. apply list_elem_of_fmap. by exists g. }
  destruct (bool_decide (set r0 f = r0)) eqn:B; cbn [negb].
  - apply bool_decide_eq_true in B. rewrite (H f) by (by left || done). apply IH; [done|]. intros g Hg. apply H. by right.
  - apply IH; [done|]. intros g Hg E. apply O; [by apply Nf|]. apply H; [by right|done].
Qed.

Lemma id_unique l x y : NoDup (map id l) -> x ∈ l -> y ∈ l -> id x = id y -> x = y.
Proof.
  induction l as [|z l IH]; cbn; intros N Hx Hy E; [by apply elem_of_nil in Hx|]. apply NoDup_cons in N as [N1 N2].
  assert (forall w, w ∈ l -> id w ∈ map id l) as I by (intros w Hw; apply list_elem_of_fmap; by exists w).
  apply elem_of_cons in Hx as [->|Hx]; apply elem_of_cons in Hy as [->|Hy]; [done| | |by apply IH].
  - rewrite E in N1. by apply I in Hy.
  - rewrite <- E in N1. by apply I in Hx.
Qed.

Lemma flush_task_alone row fs l : find_task (id row) l = Some row -> NoDup (map id l) -> NoDup (map attribute fs) ->
  flush_task row fs l = Ok (map_where (fun r => (id r =? id row)%string) (fun _ => foldl set_task row fs) l).
Proof.
  intros F Nl Nf. assert (forall x, x ∈ l -> (id x =? id row)%string = true -> x = row) as U.
  { intros x Hx E. apply String.eqb_eq in E. apply find_some_elem in F as [Hr _]. by apply (id_unique l). }
  assert (map_where (fun r => (id r =? id row)%string) (fun r => foldl set_task r (changed set_task row fs)) l =
    map_where (fun r => (id r =? id row)%string) (fun _ => foldl set_task row fs) l) as E.
  { unfold map_where. apply List.map_ext_in. intros x Hx. destruct (id x =? id row)%string eqn:B; [|done].
    rewrite (U x) by (by apply list_elem_of_In || done). by apply (fold_changed _ _ set_task_other). }
  unfold flush_task. destruct (changed set_task row fs) as [|f fs'] eqn:C; rewrite ?F, <- E; [|done].
  cbn [foldl]. f_equal. unfold map_where. symmetry. rewrite <- (map_id l) at 2. apply List.map_ext. intros x. by case_match.
Qed.

(** The run row of this dispatch is the last one. *)
Lemma find_run_last r l : find_run (run_row_id r) l = None -> find_run (run_row_id r) (l ++ [r]) = Some r.
Proof. unfold find_run. intros H. rewrite find_app, H. cbn. by rewrite String.eqb_refl. Qed.

Lemma flush_run_last row fs l : find_run (run_row_id row) l = None -> NoDup (map run_attribute fs) ->
  flush_run row fs (l ++ [row]) = Ok (l ++ [foldl set_run row fs]).
Proof.
  intros F Nf. pose proof (find_run_last row l F) as L.
  assert (map_where (fun r => (run_row_id r =? run_row_id row)%string) (fun r => foldl set_run r (changed set_run row fs)) (l ++ [row])
    = l ++ [foldl set_run row fs]) as E.
  { unfold map_where. rewrite map_app. cbn [map]. rewrite String.eqb_refl.
    rewrite (fold_changed _ _ set_run_other) by done. f_equal.
    rewrite <- (map_id l) at 2. apply List.map_ext_in. intros x Hx%list_elem_of_In.
    by rewrite (find_none_elem _ _ x F Hx). }
  unfold flush_run. destruct (changed set_run row fs) as [|f fs'] eqn:C; rewrite ?L, <- E; [|done].
  f_equal. cbn [foldl]. unfold map_where. rewrite <- (map_id (l ++ [row])) at 1. apply List.map_ext. intros x. by case_match.
Qed.

Section alone.
Context (cal : Calendar) (answer : nat -> LaunchRequest -> result LaunchResult).

(** The thread of a run, and the number of the next fresh identifier. *)
Definition planned_thread (task : TaskRow) (s : Store) : string * nat :=
  match thread_id task with
  | Some t => if (context_mode task =? "fresh_thread_per_run")%string || (t =? "")%string
              then (uuids s (next_uuid s), S (next_uuid s)) else (t, next_uuid s)
  | None => (uuids s (next_uuid s), S (next_uuid s))
  end.

Definition overlap (task : TaskRow) (s : Store) : bool :=
  (overlap_policy task =? "skip")%string && existsb (fun r => (task_id r =? id task)%string && active r) (task_runs s).

(** The store a dispatch leaves behind. *)
Definition leaves_store (s : Store) (task : TaskRow) (fs : list task_field) (row : option RunRow) (u : nat)
    (sent : list LaunchRequest) : Store :=
  {| tasks := map_where (fun r => (id r =? id task)%string) (fun r => foldl set_task r fs) (tasks s);
     task_runs := match row with Some row => task_runs s ++ [row] | None => task_runs s end;
     clock := clock s; uuids := uuids s; next_uuid := u; launches := launches s ++ sent |}.

(** What a dispatch does: the answer, the columns it writes, its run row, and
    the launches it asked for. *)
Definition dispatch_effect (task : TaskRow) (now : Z) (trig : string) (s : Store) (next : option Z)
    : result Dispatch * Store :=
  let '(thread, u) := planned_thread task s in
  let rid := "task-run-" +:+ uuids s u in
  let row st run err sa fa :=
    {| run_row_id := rid; task_id := id task; run_thread_id := thread; run_id := run; scheduled_for := now;
       trigger := trig; run_status := st; error := err; started_at := sa; finished_at := fa;
       run_created_at := clock s |} in
  let answered o run th err :=
    Ok {| d_outcome := o; d_task_run_id := Some rid; d_run_id := run; d_thread_id := th; d_error := err |} in
  let finished := [SetLeaseOwner None; SetLeaseExpiresAt None; SetUpdatedAt (clock s)] in
  let skipped sent err :=
    let r := Some (row "skipped" None (Some err) (Some now) (Some now)) in
    match column_of cal (last_run_at task) with
    | Raise e => (Raise e, leaves_store s task [] r (S u) sent)
    | Ok last_run =>
        (answered Skipped None thread (Some err),
         leaves_store s task
           ([SetStatus (_task_status_for_skip task);
             SetLastError (if (schedule_type task =? "once")%string then Some err else None);
             SetNextRunAt next; SetLastRunAt last_run; SetLastRunId (last_run_id task);
             SetLastThreadId (last_thread_id task)] ++ finished) r (S u) sent)
    end in
  if overlap task s then
    if (trig =? "manual")%string
    then (Ok {| d_outcome := Conflict; d_task_run_id := None; d_run_id := None; d_thread_id := thread;
                d_error := Some "task already has an active run" |}, leaves_store s task [] None u [])
    else skipped [] "skipped: a previous run of this task is still active"
  else
    let req := {| lr_thread_id := thread; lr_assistant_id := assistant_id task; lr_prompt := prompt task;
                  lr_owner_user_id := user_id task; lr_task_id := id task; lr_task_run_id := rid; lr_trigger := trig |} in
    match answer (length (launches s)) req with
    | Ok l =>
        (answered Launched (Some (launched_run_id l)) (launched_thread_id l) None,
         leaves_store s task
           ((if bool_decide (status task ∈ TERMINAL_TASK_STATUSES) then []
             else [SetStatus (launch_status task trig); SetLastError None]) ++
            [SetNextRunAt next; SetLastRunAt (Some now); SetLastRunId (Some (launched_run_id l));
             SetLastThreadId (Some (launched_thread_id l)); SetRunCount (run_count task + 1)] ++ finished)
           (Some (row "running" (Some (launched_run_id l)) None (Some now) None)) (S u) [req])
    | Raise e =>
        if negb (isinstance (class_of e) ExceptionC)
        then (Raise e, leaves_store s task [] (Some (row "queued" None None None None)) (S u) [req])
        else if _is_overlap_conflict e && (trig =? "scheduled")%string && (overlap_policy task =? "skip")%string
        then skipped [req] (exc_text cal e)
        else
          (answered (if _is_overlap_conflict e then Conflict else Failed) None thread (Some (exc_text cal e)),
           leaves_store s task
             ([SetStatus (_task_status_for_failure task trig); SetLastError (Some (exc_text cal e)); SetNextRunAt next;
               SetLastRunAt (Some now); SetLastRunId None; SetLastThreadId (Some thread)] ++ finished)
             (Some (row "failed" None (Some (exc_text cal e)) (Some now) (Some now))) (S u) [req])
    end.


Lemma nodup_bool (l : list nat) : bool_decide (NoDup l) = true -> NoDup l.
Proof. by intros ?%bool_decide_eq_true. Qed.

Lemma run_update_status s l row st run_id' err sa fa b :
  task_runs s = l ++ [row] -> find_run (run_row_id row) l = None ->
  b && bool_decide (run_status row ∈ TERMINAL_RUN_STATUSES) = false ->
  run (RunRepo.update_status (run_row_id row) st run_id' err sa fa b) s =
  Some (Ok tt, set_task_runs s (l ++ [foldl set_run row ([SetRunStatus st; SetRunId run_id'; SetError err] ++
                                       RunRepo.given SetStartedAt sa ++ RunRepo.given SetFinishedAt fa)])).
Proof.
  intros E F B. with_strategy transparent [RunRepo.update_status] unfold RunRepo.update_status.
  rewrite run_bind. unfold get_run, query. rewrite run_bind, run_await, run_gets, E, find_run_last by done.
  cbn beta iota. rewrite B. unfold commit_runs. rewrite run_bind, run_await, run_atomic. cbn beta iota.
  rewrite E. cbn [flush_all]. rewrite flush_run_last; [done|done|]. apply nodup_bool. by destruct sa, fa.
Qed.

Lemma run_update_after_launch s task st nx lr lrid lt le inc b :
  find_task (id task) (tasks s) = Some task -> NoDup (map id (tasks s)) ->
  run (TaskRepo.update_after_launch (id task) st nx lr lrid lt le inc b) s =
  match lr with
  | Raise e => Some (Raise e, s)
  | Ok lr =>
      Some (Ok tt, set_tasks s (map_where (fun r => (id r =? id task)%string) (fun _ => foldl set_task task
        ((if b && bool_decide (status task ∈ TERMINAL_TASK_STATUSES) then [] else [SetStatus st; SetLastError le]) ++
         [SetNextRunAt nx; SetLastRunAt lr; SetLastRunId lrid; SetLastThreadId lt] ++
         (if inc then [SetRunCount (run_count task + 1)] else []) ++
         [SetLeaseOwner None; SetLeaseExpiresAt None; SetUpdatedAt (clock s)])) (tasks s)))
  end.
Proof.
  intros F N. unfold TaskRepo.update_after_launch, get_task, query, datetime_now.
  rewrite !run_bind, run_await, run_gets, F. cbn beta iota. rewrite !run_bind, run_gets. cbn beta iota.
  rewrite !run_bind, run_await. cbn beta iota. rewrite !run_bind, run_lift. destruct lr as [lr|e]; [|done]. cbn beta iota.
  rewrite run_atomic, flush_task_alone; [done|done|done|]. apply nodup_bool. by destruct (b && _), inc.
Qed.

Lemma run_create s rid task thread now trig :
  find_run rid (task_runs s) = None ->
  run (RunRepo.create_run rid task thread now trig "queued") s =
  Some (Ok tt, set_task_runs s (task_runs s ++
    [{| run_row_id := rid; task_id := task; run_thread_id := thread; run_id := None; scheduled_for := now;
        trigger := trig; run_status := "queued"; error := None; started_at := None; finished_at := None;
        run_created_at := clock s |}])).
Proof.
  intros F. with_strategy transparent [RunRepo.create_run] unfold RunRepo.create_run, datetime_now.
  rewrite run_bind, run_gets. cbn beta iota. rewrite run_bind, run_await. cbn beta iota.
  rewrite run_bind, run_atomic, F. cbn beta iota. by rewrite run_await.
Qed.

Lemma map_where_row task fs l : find_task (id task) l = Some task -> NoDup (map id l) ->
  map_where (fun r => (id r =? id task)%string) (fun _ => foldl set_task task fs) l =
  map_where (fun r => (id r =? id task)%string) (fun r => foldl set_task r fs) l.
Proof.
  intros F N. unfold map_where. apply List.map_ext_in. intros x Hx%list_elem_of_In.
  destruct (id x =? id task)%string eqn:E; [|done]. apply String.eqb_eq in E.
  apply find_some_elem in F as [Hr _]. by rewrite (id_unique l x task).
Qed.

Lemma map_where_id {A} (f : A -> bool) (l : list A) : map_where f (fun r => r) l = l.
Proof. unfold map_where. rewrite <- (map_id l) at 2. apply List.map_ext. intros x. by case_match. Qed.

(** Skipping, once the run row exists. *)
Lemma run_finalize_skip s l row task thread now err next :
  find_task (id task) (tasks s) = Some task -> NoDup (map id (tasks s)) ->
  next_run_at cal (schedule_type task) (schedule_spec task) (timezone task) now = Ok next ->
  task_runs s = l ++ [row] -> find_run (run_row_id row) l = None ->
  run (_finalize_skip cal task (run_row_id row) thread now err) s =
  let s' := set_task_runs s (l ++ [foldl set_run row [SetRunStatus "skipped"; SetRunId None; SetError (Some err);
                                   SetStartedAt (Some now); SetFinishedAt (Some now)]]) in
  match column_of cal (last_run_at task) with
  | Raise e => Some (Raise e, s')
  | Ok lr =>
      Some (Ok {| d_outcome := Skipped; d_task_run_id := Some (run_row_id row); d_run_id := None; d_thread_id := thread;
                  d_error := Some err |},
            set_tasks s' (map_where (fun r => (id r =? id task)%string) (fun r => foldl set_task r
              [SetStatus (_task_status_for_skip task);
               SetLastError (if (schedule_type task =? "once")%string then Some err else None);
               SetNextRunAt next; SetLastRunAt lr; SetLastRunId (last_run_id task); SetLastThreadId (last_thread_id task);
               SetLeaseOwner None; SetLeaseExpiresAt None; SetUpdatedAt (clock s)]) (tasks s)))
  end.
Proof.
  intros F N X E R. unfold _finalize_skip, due_next. rewrite X, run_bind, run_lift. cbn beta iota.
  rewrite run_bind, (run_update_status s l row) by done. cbn beta iota zeta. rewrite run_bind, run_update_after_launch by done.
  destruct (column_of cal (last_run_at task)) as [lr|e]; [|done]. cbn beta iota. rewrite run_ret.
  cbn [andb app tasks set_task_runs clock]. by rewrite map_where_row.
Qed.

Lemma run_launch_run s req :
  run (launch_run answer req) s = Some (answer (length (launches s)) req, add_launch s req).
Proof. unfold launch_run, modify. by rewrite run_bind, run_await; cbn beta iota; rewrite run_bind, run_gets. Qed.

Lemma run_execution_thread task s :
  exists s', run (execution_thread task) s = Some (Ok (planned_thread task s).1, s') /\
    tasks s' = tasks s /\ task_runs s' = task_runs s /\ clock s' = clock s /\ uuids s' = uuids s /\
    launches s' = launches s /\ next_uuid s' = (planned_thread task s).2.
Proof.
  unfold execution_thread, planned_thread, uuid4. destruct (thread_id task) as [t|]; [|by eexists].
  destruct (_ || _); by eexists.
Qed.

Lemma run_overlapping task s : run (overlapping task) s = Some (Ok (overlap task s), s).
Proof.
  unfold overlapping, overlap, RunRepo.has_active_runs, query. destruct (overlap_policy task =? "skip")%string; [|done].
  by rewrite run_bind, run_await.
Qed.

End alone.

Lemma set_task_id r fs : id (foldl set_task r fs) = id r.
Proof. revert r. induction fs as [|f fs IH]; intros r; cbn; [done|]. rewrite IH. by destruct r, f. Qed.

Lemma find_updated task fs l : find_task (id task) l = Some task ->
  find_task (id task) (map_where (fun r => (id r =? id task)%string) (fun r => foldl set_task r fs) l) = Some (foldl set_task task fs).
Proof.
  unfold find_task, map_where. induction l as [|x l IH]; cbn; [done|].
  destruct (id x =? id task)%string eqn:E; cbn; [|by rewrite E].
  rewrite set_task_id, E. by intros [= ->].
Qed.

(** C15: A dispatch that runs alone does what [dispatch_effect] says, on every
    branch: a fresh launch, a launch that fails, an overlapping run, a manual
    trigger against one.  Afterwards a task whose dispatch was answered holds no
    lease and is due when its schedule says, so a task that was due once cannot
    be claimed again at any time. *)
Theorem dispatch_task_spec (cal : Calendar) (answer : nat -> LaunchRequest -> result LaunchResult)
    (task : TaskRow) (now : Z) (trig : string) (s : Store) (next : option Z) :
  find_task (id task) (tasks s) = Some task -> NoDup (map id (tasks s)) ->
  next_run_at cal (schedule_type task) (schedule_spec task) (timezone task) now = Ok next ->
  find_run ("task-run-" +:+ uuids s (planned_thread task s).2) (task_runs s) = None ->
  run (dispatch_task cal answer task now trig) s = Some (dispatch_effect cal answer task now trig s next) /\
  (forall d s' t, dispatch_effect cal answer task now trig s next = (Ok d, s') -> d_task_run_id d <> None ->
     next = None -> exists row, find_task (id task) (tasks s') = Some row /\ lease_expires_at row = None /\
       lease_owner row = None /\ TaskRepo.claimable t row = false).
Proof.
  intros F N X R. split.
  - destruct (run_execution_thread task s) as [s1 [E1 [T1 [R1 [C1 [U1 [L1 I1]]]]]]].
    unfold dispatch_task, dispatch_effect. destruct (planned_thread task s) as [thread u]. cbn [fst snd] in *.
    rewrite run_bind, E1. cbn beta iota. rewrite run_bind, run_overlapping. cbn beta iota.
    assert (overlap task s1 = overlap task s) as -> by (unfold overlap; by rewrite R1).
    destruct s1 as [tk rs ck us iu la]. cbn in *. subst.
    unfold uuid4, dispatch_run.
    destruct (overlap task s) eqn:O; cbn [andb].
    + destruct (trig =? "manual")%string eqn:M.
      { rewrite run_ret. unfold leaves_store. by rewrite map_where_id, app_nil_r. }
      rewrite run_bind, run_atomic. cbn beta iota. cbn [uuids next_uuid]. rewrite run_bind, run_create by done. cbn beta iota.
      set (row := {| run_row_id := _ |}).
      match goal with |- run _ ?st = _ =>
        pose proof (run_finalize_skip cal st (task_runs s) row task thread now
          "skipped: a previous run of this task is still active" next F N X eq_refl R) as K end.
      cbn [run_row_id row] in K. rewrite K. cbn zeta.
      destruct (column_of cal (last_run_at task)) as [lr|e]; unfold leaves_store; rewrite ?app_nil_r, ?map_where_id; reflexivity.
    + rewrite run_bind, run_atomic. cbn beta iota. cbn [uuids next_uuid]. rewrite run_bind, run_create by done. cbn beta iota.
      set (row := {| run_row_id := _ |}). rewrite run_catch. unfold launch_task. rewrite run_bind, run_launch_run.
      cbn [launches set_task_runs bump_uuid]. set (req := {| lr_thread_id := thread |}).
      destruct (answer (length (launches s)) req) as [l|e]; cbn beta iota.
      * unfold due_next. rewrite X, run_bind, run_lift. cbn beta iota. rewrite run_bind.
        rewrite (run_update_status _ (task_runs s) row) by done. cbn beta iota. rewrite run_bind.
        rewrite run_update_after_launch by done. cbn beta iota. rewrite run_ret. unfold leaves_store.
        rewrite map_where_row by done. destruct (bool_decide (status task ∈ TERMINAL_TASK_STATUSES)); reflexivity.
      * unfold launch_failed. rewrite run_if. destruct (isinstance (class_of e) ExceptionC); cbn [negb].
        2: { rewrite run_raise. unfold leaves_store. by rewrite map_where_id. }
        unfold due_next. rewrite X, run_bind, run_lift. cbn beta iota. rewrite run_if.
        destruct (_is_overlap_conflict e && (trig =? "scheduled")%string && (overlap_policy task =? "skip")%string).
        -- match goal with |- run _ ?st = _ =>
             pose proof (run_finalize_skip cal st (task_runs s) row task thread now (exc_text cal e) next F N X eq_refl R) as K
           end.
           cbn [run_row_id row] in K. rewrite K. cbn zeta.
           destruct (column_of cal (last_run_at task)) as [lr|e']; unfold leaves_store; rewrite ?map_where_id; reflexivity.
        -- rewrite run_bind, (run_update_status _ (task_runs s) row) by done. cbn beta iota. rewrite run_bind.
           rewrite run_update_after_launch by done. cbn beta iota. rewrite run_ret. unfold leaves_store.
           by rewrite map_where_row.
  - intros d s' t. unfold dispatch_effect. destruct (planned_thread task s) as [thread u].
    intros H Nd ->. repeat case_match; simplify_eq; cbn [tasks leaves_store]; try done;
      rewrite find_updated by done; eexists; (split; [reflexivity|]); destruct task; cbn; done.
Qed.

(** ** Concrete runs *)

(** A calendar in which every zone is known, texts are read as no instant, a
    cron schedule matches once a minute, and the driver refuses a text in a
    timestamp column. *)
Definition demo_calendar : Calendar :=
  {| zone_info := fun _ => Ok tt;
     fromisoformat := fun _ => Ok (inl 1000);
     local_instant := fun _ t => t;
     cron_next := fun _ _ t => Ok (t + 60 * TaskRepo.second);
     isoformat := fun _ => "2026-01-01T00:00:00+00:00";
     text_column := fun _ => Raise (Exn TypeError "DateTime type only accepts Python datetime objects as input.");
     py_str := fun _ => "" |}.

Definition demo_answer (_ : nat) (r : LaunchRequest) : result LaunchResult :=
  Ok {| launched_run_id := "run-1"; launched_thread_id := lr_thread_id r |}.

Definition demo_task (stype : string) (last : option Z) : TaskRow :=
  {| id := "task-1"; user_id := "alice"; thread_id := Some "thread-1"; context_mode := "reuse_thread";
     assistant_id := Some "lead_agent"; title := "report"; prompt := "write the report"; schedule_type := stype;
     schedule_spec := [("run_at", JStr "2026-01-01T00:00:00"); ("cron", JStr "* * * * *")]; timezone := "UTC";
     status := "enabled"; overlap_policy := "skip"; task_next_run_at := Some 1000; last_run_at := last;
     last_run_id := None; last_thread_id := None; last_error := None; lease_owner := None; lease_expires_at := None;
     run_count := 0; created_at := 0; updated_at := 0 |}.

Definition demo_store (stype : string) (last : option Z) : Store :=
  {| tasks := [demo_task stype last]; task_runs := []; clock := 2000; uuids := fun n => "u" +:+ pretty n; next_uuid := 0;
     launches := [] |}.

Definition demo_service : Service :=
  {| poll_interval_seconds := 5; lease_seconds := 120; max_concurrent_runs := 1; owner := "host" |}.

(** The poller started alone on the demo store, after thirty segments. *)
Definition demo_pool : Pools.Pool Store unit :=
  let '(poller, s1) := start demo_calendar demo_answer demo_service 2 (demo_store "cron" None) in
  Pools.schedule (replicate 30 0%nat) {| Pools.state := s1; Pools.threads := [poller] |}.

Lemma demo_launched : map run_status (task_runs (Pools.state demo_pool)) = ["running"] /\
  length (launches (Pools.state demo_pool)) = 1%nat.
Proof. vm_compute. done. Qed.

Lemma scheduled_runs_capped_witness : Z.of_nat (length (scheduled_active (Pools.state demo_pool))) <= 1.
Proof.
  apply (scheduled_runs_capped demo_calendar demo_answer (fun _ _ => true) 60 demo_service 2 (demo_store "cron" None)).
  - split; [vm_compute; apply NoDup_nil_2|vm_compute; discriminate].
  - unfold demo_pool. destruct (start demo_calendar demo_answer demo_service 2 (demo_store "cron" None)) as [poller s1].
    apply Pools.schedule_steps.
Defined.

Lemma dispatch_task_spec_witness :
  run (dispatch_task demo_calendar demo_answer (demo_task "once" None) 2000 "scheduled") (demo_store "once" None) =
    Some (dispatch_effect demo_calendar demo_answer (demo_task "once" None) 2000 "scheduled" (demo_store "once" None) None) /\
  exists row, find_task "task-1" (tasks (dispatch_effect demo_calendar demo_answer (demo_task "once" None) 2000 "scheduled"
                                      (demo_store "once" None) None).2) = Some row /\ TaskRepo.claimable 5000 row = false.
Proof.
  destruct (dispatch_task_spec demo_calendar demo_answer (demo_task "once" None) 2000 "scheduled" (demo_store "once" None) None)
    as [A B]; [reflexivity|apply NoDup_singleton|reflexivity|reflexivity|].
  split; [exact A|]. destruct (dispatch_effect _ _ _ _ _ _ _) as [[d|e] s'] eqn:D; [|vm_compute in D; discriminate].
  destruct (B d s' 5000 eq_refl) as [row [R1 [_ [_ R2]]]]; [|done|by exists row].
  vm_compute in D. injection D as <- _. done.
Defined.

(** The hook of a fast run finishes between the statement that reads the run
    row and the one that marks it running: the finished run stays active, and
    with the skip policy the task is never dispatched again. *)
Definition overtaken : Pools.Pool Store unit :=
  let p := Pools.start (let! _ := dispatch_task demo_calendar demo_answer (demo_task "cron" None) 2000 "scheduled" in ret tt)
             {| Pools.state := demo_store "cron" None; Pools.threads := [] |} in
  let p := Pools.schedule (replicate 6 0%nat) p in
  let hook := handle_run_completion
    {| c_scheduled_task_id := Some (JStr "task-1"); c_scheduled_task_run_id := Some (JStr "task-run-u0");
       c_user_id := Some "alice"; c_status := "success"; c_run_id := "run-1"; c_error := None |} in
  let p := Pools.schedule (replicate 10 1%nat) (Pools.start hook p) in
  Pools.schedule (replicate 10 0%nat) p.

Lemma finished_run_stays_active :
  map (fun r => (run_status r, finished_at r)) (task_runs (Pools.state overtaken)) = [("running", Some 2000)] /\
  overlap (demo_task "cron" None) (Pools.state overtaken) = true.
Proof. vm_compute. done. Qed.

(** A driver that refuses a text in a timestamp column makes every skip of a
    task that ran before fail: the occurrence is recorded as skipped, but the
    task keeps its lease and its due instant. *)
Lemma skip_of_used_task_fails :
  let busy := set_task_runs (demo_store "cron" (Some 500)) [{| run_row_id := "old"; task_id := "task-1"; run_thread_id := "t";
    run_id := None; scheduled_for := 0; trigger := "scheduled"; run_status := "running"; error := None;
    started_at := None; finished_at := None; run_created_at := 0 |}] in
  exists e s', run (dispatch_task demo_calendar demo_answer (demo_task "cron" (Some 500)) 2000 "scheduled") busy
    = Some (Raise e, s') /\ class_of e = TypeError /\ map run_status (task_runs s') = ["running"; "skipped"] /\
      tasks s' = tasks busy.
Proof. eexists _, _. split; [vm_compute; reflexivity|]. by vm_compute. Qed.

End SchedulerFacts.
