(* ===== verification/World.v ===== *)
(** * The shared state of the gateway, and its handlers as coroutines

    The state every coroutine of the after-sales service shares, the lock of
    [async with], transactions on the database, and the rules of the
    rely/guarantee logic for them. *)
From S2P Require Import Prelude Json Errors Ledger Reverse Metrics Idempotency Observability Tables Coroutines.
Import Json Errors.

Module World.

(** ** State *)

Record Shared := {
  db : Tables.Db;
  refunds : Ledger.RefundExecutor;
  outbounds : ReverseExecution.ReverseExecutor;
  metrics : Metrics.Metrics;
  idem : Idempotency.SqlIdempotencyStore;
  audits : ToolAudit.SqlToolCallAuditor;
  clock : Z;
  uuids : nat -> string;
  next_uuid : nat;
  locks : list (string * string)
}.

Definition set_db (s : Shared) (d : Tables.Db) : Shared :=
  {| db := d; refunds := refunds s; outbounds := outbounds s; metrics := metrics s;
     idem := idem s; audits := audits s; clock := clock s; uuids := uuids s;
     next_uuid := next_uuid s; locks := locks s |}.
Definition set_refunds (s : Shared) (e : Ledger.RefundExecutor) : Shared :=
  {| db := db s; refunds := e; outbounds := outbounds s; metrics := metrics s;
     idem := idem s; audits := audits s; clock := clock s; uuids := uuids s;
     next_uuid := next_uuid s; locks := locks s |}.
Definition set_outbounds (s : Shared) (e : ReverseExecution.ReverseExecutor) : Shared :=
  {| db := db s; refunds := refunds s; outbounds := e; metrics := metrics s;
     idem := idem s; audits := audits s; clock := clock s; uuids := uuids s;
     next_uuid := next_uuid s; locks := locks s |}.
Definition set_metrics (s : Shared) (m : Metrics.Metrics) : Shared :=
  {| db := db s; refunds := refunds s; outbounds := outbounds s; metrics := m;
     idem := idem s; audits := audits s; clock := clock s; uuids := uuids s;
     next_uuid := next_uuid s; locks := locks s |}.
Definition set_idem (s : Shared) (i : Idempotency.SqlIdempotencyStore) : Shared :=
  {| db := db s; refunds := refunds s; outbounds := outbounds s; metrics := metrics s;
     idem := i; audits := audits s; clock := clock s; uuids := uuids s;
     next_uuid := next_uuid s; locks := locks s |}.
Definition set_audits (s : Shared) (a : ToolAudit.SqlToolCallAuditor) : Shared :=
  {| db := db s; refunds := refunds s; outbounds := outbounds s; metrics := metrics s;
     idem := idem s; audits := a; clock := clock s; uuids := uuids s;
     next_uuid := next_uuid s; locks := locks s |}.
Definition set_clock (s : Shared) (t : Z) : Shared :=
  {| db := db s; refunds := refunds s; outbounds := outbounds s; metrics := metrics s;
     idem := idem s; audits := audits s; clock := t; uuids := uuids s;
     next_uuid := next_uuid s; locks := locks s |}.
Definition bump_uuid (s : Shared) : Shared :=
  {| db := db s; refunds := refunds s; outbounds := outbounds s; metrics := metrics s;
     idem := idem s; audits := audits s; clock := clock s; uuids := uuids s;
     next_uuid := S (next_uuid s); locks := locks s |}.

Definition set_locks (s : Shared) (l : list (string * string)) : Shared :=
  {| db := db s; refunds := refunds s; outbounds := outbounds s; metrics := metrics s;
     idem := idem s; audits := audits s; clock := clock s; uuids := uuids s;
     next_uuid := next_uuid s; locks := l |}.

(** ** Programs *)

Export Coroutines.
Abbreviation Co := (@Coroutines.Co Shared).
Abbreviation M := (@Coroutines.M Shared).

(** [async with lock: m]: wait until nobody holds the lock, and release it
    however [m] ends. *)
Definition acquire (l : string * string) : M unit :=
  fun s => (Await (fun s' => negb (bool_decide (l ∈ locks s')))
                  (fun s' => (Done (Ok tt), set_locks s' (l :: locks s'))), s).

Definition release_lock (l : string * string) (s : Shared) : Shared :=
  set_locks s (List.filter (fun l' => negb (bool_decide (l' = l))) (locks s)).

Definition with_lock {A} (l : string * string) (m : M A) : M A :=
  bind (acquire l) (fun _ => finally m (release_lock l)).

Lemma release_acquired l s :
  l ∉ locks s -> locks (release_lock l (set_locks s (l :: locks s))) = locks s.
Proof.
  intros N. unfold release_lock. simpl. rewrite bool_decide_eq_true_2 by done. simpl.
  induction (locks s) as [|l' ls IH]; simpl; [done|].
  apply not_elem_of_cons in N as [N1 N2]. rewrite bool_decide_eq_false_2 by done. simpl.
  by rewrite IH.
Qed.

Lemma run_with_lock {A} l (m : M A) s :
  l ∉ locks s ->
  run (with_lock l m) s = match run m (set_locks s (l :: locks s)) with
                          | Some (r, s') => Some (r, release_lock l s')
                          | None => None
                          end.
Proof.
  intros N. unfold with_lock. rewrite run_bind. unfold run at 1, acquire. simpl.
  rewrite bool_decide_eq_false_2 by done. simpl. by rewrite run_finally.
Qed.

End World.

Module Effects.
Import World.

Definition datetime_now : M Z := gets clock.

Definition uuid4 : M string :=
  atomic (fun s => (Ok (uuids s (next_uuid s)), bump_uuid s)).

(** One transaction on the database: it takes effect at one instant, after an
    await. *)
Definition transaction {A} (f : Tables.Db -> result A * Tables.Db) : M A :=
  do! await ;;
  atomic (fun s => let '(r, d) := f (db s) in (r, set_db s d)).

Definition query {A} (f : Tables.Db -> A) : M A :=
  do! await ;; gets (fun s => f (db s)).

Definition inc_metrics (name : string) (labels : list (string * string)) : M unit :=
  modify (fun s => set_metrics s (Metrics.inc (metrics s) name labels)).

Lemma run_transaction {A} (f : Tables.Db -> result A * Tables.Db) s :
  run (transaction f) s = Some ((f (db s)).1, set_db s (f (db s)).2).
Proof. unfold transaction. rewrite run_bind, run_await, run_atomic. by destruct (f (db s)). Qed.
Lemma run_query {A} (f : Tables.Db -> A) s : run (query f) s = Some (Ok (f (db s)), s).
Proof. done. Qed.
Lemma run_uuid4 s : run uuid4 s = Some (Ok (uuids s (next_uuid s)), bump_uuid s).
Proof. done. Qed.
Lemma run_now s : run datetime_now s = Some (Ok (clock s), s).
Proof. done. Qed.

#[export] Hint Rewrite @run_bind @run_catch @run_finally @run_ret @run_raise @run_lift @run_atomic @run_gets
  @run_modify @run_await @run_if @run_transaction @run_query run_uuid4 run_now : run.

End Effects.

(** ** Rules for transactions *)
Module Logic.
Export RelyGuarantee.
Import World Effects.
Abbreviation Protocol := (RelyGuarantee.Protocol Shared).

Section logic.
Context (Pr : Protocol).

Lemma triple_transaction {A} (P : Shared -> Prop) (f : Tables.Db -> result A * Tables.Db)
  (Q : result A -> Shared -> Prop) :
stable Pr P ->
(forall s, inv Pr s -> P s ->
   inv Pr (set_db s (f (db s)).2) /\ rely Pr s (set_db s (f (db s)).2) /\
   Q (f (db s)).1 (set_db s (f (db s)).2)) ->
triple Pr P (transaction f) Q.
Proof.
intros S H. eapply (triple_bind Pr _ _ _ (fun _ => P)).
- eapply triple_weaken; [by apply triple_await|done|]. by intros r s _ [-> ?].
- intros _. apply triple_atomic. intros s I Ps. specialize (H s I Ps).
  by destruct (f (db s)).
Qed.

Lemma triple_query {A} (P : Shared -> Prop) (f : Tables.Db -> A) (Q : result A -> Shared -> Prop) :
stable Pr P -> (forall s, inv Pr s -> P s -> Q (Ok (f (db s))) s) -> triple Pr P (query f) Q.
Proof.
intros S H. eapply (triple_bind Pr _ _ _ (fun _ => P)).
- eapply triple_weaken; [by apply triple_await|done|]. by intros r s _ [-> ?].
- intros _. by apply triple_gets.
Qed.

End logic.
End Logic.

Module Pool.
Export Pools.
Abbreviation Pool := (@Pools.Pool World.Shared).
End Pool.
