(* ===== verification/Repository.v ===== *)
(** * The repository

    [repository.py]: cases, actions and the append-only event chain over the
    tables, as programs that await at every statement. *)
From S2P Require Import Prelude Sha256 Json Errors Schemas Ledger Actions Tables Text Coroutines World.
Import Sha256 Json Errors Actions Tables World Effects.

Module Repository.

Definition concurrent (msg : string) : exn := Exn ConcurrentActionError msg.

(** ** Cases *)

(** The arguments of [create_case]. *)
Record NewCase := {
  n_user_id : string;
  n_thread_id : option string;
  n_order_id : option string;
  n_issue_type : option string;
  n_evidence : dict;
  n_decision : dict;
  n_complaint_text : string;
  n_customer_expectation : option string;
  n_status : string;
  n_next_step : string;
  n_reply_draft : string
}.

Definition create_case (n : NewCase) : M ServiceCaseRow :=
  let! new_id := uuid4 in
  do! await ;;
  let! now := datetime_now in
  let row := {|
    c_id := new_id; c_user_id := n_user_id n; c_thread_id := n_thread_id n;
    c_order_id := n_order_id n; c_issue_type := n_issue_type n; c_status := n_status n;
    c_complaint_text := n_complaint_text n; c_customer_expectation := n_customer_expectation n;
    c_next_step := n_next_step n; c_reply_draft := n_reply_draft n;
    c_evidence_json := n_evidence n; c_decision_json := n_decision n;
    c_version := 1; c_created_at := now; c_updated_at := now |} in
  do! transaction (insert_case row) ;;
  query (fun d => default row (select_case d new_id)). (* session.refresh *)

(** [ORDER BY updated_at DESC, id DESC] *)
Definition recent_le (a b : ServiceCaseRow) : bool :=
  if c_updated_at a =? c_updated_at b then bool_decide (String.le (c_id b) (c_id a))
  else c_updated_at b <? c_updated_at a.

Definition list_cases (user_id : string) (limit : nat) : M (list ServiceCaseRow) :=
  query (fun d => take limit (stable_sort recent_le
                    (List.filter (fun c => (c_user_id c =? user_id)%string) (cases d)))).

Definition get_case (case_id : string) (user_id : option string) : M (option ServiceCaseRow) :=
  query (fun d => List.find (fun c => (c_id c =? case_id)%string && owned user_id c) (cases d)).

Definition get_case_by_thread (thread_id user_id : string) : M (option ServiceCaseRow) :=
  query (fun d => List.find (fun c => bool_decide (c_thread_id c = Some thread_id) &&
                                      (c_user_id c =? user_id)%string) (cases d)).

(** [values] of an [update_case]: what it does to the columns it names. *)
Definition set_progress (st next : string) (c : ServiceCaseRow) : ServiceCaseRow :=
  {| c_id := c_id c; c_user_id := c_user_id c; c_thread_id := c_thread_id c;
     c_order_id := c_order_id c; c_issue_type := c_issue_type c; c_status := st;
     c_complaint_text := c_complaint_text c; c_customer_expectation := c_customer_expectation c;
     c_next_step := next; c_reply_draft := c_reply_draft c;
     c_evidence_json := c_evidence_json c; c_decision_json := c_decision_json c;
     c_version := c_version c; c_created_at := c_created_at c; c_updated_at := c_updated_at c |}.

Definition set_reply (reply : string) (c : ServiceCaseRow) : ServiceCaseRow :=
  {| c_id := c_id c; c_user_id := c_user_id c; c_thread_id := c_thread_id c;
     c_order_id := c_order_id c; c_issue_type := c_issue_type c; c_status := c_status c;
     c_complaint_text := c_complaint_text c; c_customer_expectation := c_customer_expectation c;
     c_next_step := c_next_step c; c_reply_draft := reply;
     c_evidence_json := c_evidence_json c; c_decision_json := c_decision_json c;
     c_version := c_version c; c_created_at := c_created_at c; c_updated_at := c_updated_at c |}.

Definition set_intake (text : string) (order_id issue_type expectation : option string)
    (evidence decision : dict) (c : ServiceCaseRow) : ServiceCaseRow :=
  {| c_id := c_id c; c_user_id := c_user_id c; c_thread_id := c_thread_id c;
     c_order_id := order_id; c_issue_type := issue_type; c_status := c_status c;
     c_complaint_text := text; c_customer_expectation := expectation;
     c_next_step := c_next_step c; c_reply_draft := c_reply_draft c;
     c_evidence_json := evidence; c_decision_json := decision;
     c_version := c_version c; c_created_at := c_created_at c; c_updated_at := c_updated_at c |}.

(** [{"version": v, "updated_at": now}] *)
Definition set_version (v now : Z) (c : ServiceCaseRow) : ServiceCaseRow :=
  {| c_id := c_id c; c_user_id := c_user_id c; c_thread_id := c_thread_id c;
     c_order_id := c_order_id c; c_issue_type := c_issue_type c; c_status := c_status c;
     c_complaint_text := c_complaint_text c; c_customer_expectation := c_customer_expectation c;
     c_next_step := c_next_step c; c_reply_draft := c_reply_draft c;
     c_evidence_json := c_evidence_json c; c_decision_json := c_decision_json c;
     c_version := v; c_created_at := c_created_at c; c_updated_at := now |}.

(** An update that must match exactly one row, or is rolled back. *)
Definition exactly_one (conflict : exn) (upd : Db -> result Z * Db) (d : Db) : result unit * Db :=
  match upd d with
  | (Ok n, d') => if n =? 1 then (Ok tt, d') else (Raise conflict, d)
  | (Raise e, _) => (Raise e, d)
  end.

Definition update_case (case_id user_id : string) (expected_version : Z)
    (values : ServiceCaseRow -> ServiceCaseRow) : M ServiceCaseRow :=
  let! now := datetime_now in
  do! transaction (exactly_one (concurrent "case version conflict")
        (update_cases
           (fun c => (c_id c =? case_id)%string && (c_user_id c =? user_id)%string &&
                     (c_version c =? expected_version))
           (fun c => set_version (expected_version + 1) now (values c)))) ;;
  let! saved := get_case case_id (Some user_id) in
  lift (of_option saved (concurrent "case disappeared after update")).

(** ** Actions *)

Definition get_action (action_id : string) (user_id : option string) : M (option ActionRequest) :=
  query (fun d =>
    match select_action d action_id with
    | Some a =>
        match user_id with
        | None => Some a
        | Some _ => if case_owner d (act_case_id a) user_id then Some a else None
        end
    | None => None
    end).

Definition create_action (action : ActionRequest) (user_id : string) : M ActionRequest :=
  let! case_exists := query (fun d => case_owner d (act_case_id action) (Some user_id)) in
  if negb case_exists then raise (Exn KeyError "case not found") else
  let! active := query (fun d =>
    existsb (fun a => (act_case_id a =? act_case_id action)%string && active a) (actions d)) in
  if (active : bool) then raise (concurrent "case already has an active action") else
  do! catch (transaction (insert_action action))
        (fun e => if isinstance (class_of e) IntegrityError
                  then raise (concurrent "case already has an active action") else raise e) ;;
  query (fun d => default action (select_action d (act_id action))). (* session.refresh *)

Definition expiry_le (a b : ActionRequest) : bool := expires_at a <=? expires_at b.

Definition status_filter (st : option string) (a : ActionRequest) : bool :=
  match st with Some s => (status_value (status a) =? s)%string | None => true end.

Definition list_actions (st : option string) (limit : nat) : M (list ActionRequest) :=
  query (fun d => take limit (stable_sort expiry_le (List.filter (status_filter st) (actions d)))).

(** The join of actions with their cases. *)
Definition with_case (d : Db) (l : list ActionRequest) : list (ActionRequest * ServiceCaseRow) :=
  omap (fun a => option_map (fun c => (a, c)) (select_case d (act_case_id a))) l.

Definition list_actions_with_cases (st : option string) (limit : nat)
  : M (list (ActionRequest * ServiceCaseRow)) :=
  query (fun d => take limit (with_case d
                    (stable_sort expiry_le (List.filter (status_filter st) (actions d))))).

Definition list_case_actions (case_id user_id : string) : M (list ActionRequest) :=
  query (fun d => stable_sort (fun a b => expiry_le b a)
    (List.filter (fun a => (act_case_id a =? case_id)%string &&
                           case_owner d (act_case_id a) (Some user_id)) (actions d))).

Definition save_action (action : ActionRequest) (user_id : option string) (expected_version : Z)
  : M ActionRequest :=
  do! transaction (fun d =>
    exactly_one (concurrent "action version conflict")
      (update_actions
         (fun a => (act_id a =? act_id action)%string && (version a =? expected_version) &&
                   match user_id with
                   | None => true
                   | Some _ => case_owner d (act_case_id a) user_id
                   end)
         (fun a => with_case_id action (act_case_id a))) d) ;;
  let! saved := get_action (act_id action) user_id in
  lift (of_option saved (concurrent "action disappeared after update")).

Definition invalidate_active_actions (case_id user_id why : string) : M (list ActionRequest) :=
  let! l := list_case_actions case_id user_id in
  map_m (fun a => save_action (copy_invalidated a why) (Some user_id) (version a))
        (List.filter (fun a => bool_decide (status_value (status a) ∈
                                            ["pending_approval"; "approved"])) l).

Definition list_expired_reserved_actions (now : Z) : M (list (ActionRequest * option string)) :=
  query (fun d => map (fun ac => (ac.1, c_order_id ac.2))
    (with_case d (List.filter (fun a => act_reserved a && active a && (expires_at a <? now))
                    (actions d)))).

(** [release_expired_reservations]: how many were released. *)
Fixpoint release_all (l : list (ActionRequest * option string)) (released : Z) : M Z :=
  match l with
  | [] => ret released
  | (action, order_id) :: l =>
      let! amount := lift (amount_of (payload action)) in
      do! modify (fun s => set_refunds s
            (Ledger.release (refunds s) (default "" order_id) amount)) ;;
      let! _saved := save_action (copy_reserved action false) None (version action) in
      release_all l (released + 1)
  end.

Definition release_expired_reservations (now : option Z) : M Z :=
  let! t := match now with Some t => ret t | None => datetime_now end in
  let! expired := list_expired_reserved_actions t in
  release_all expired 0.

(** ** Events *)

Definition _MAX_APPEND_ATTEMPTS : nat := 8.

(** What [append_event] is asked to record. *)
Record NewEvent := {
  e_case_id : string;
  e_actor : string;
  e_event_type : string;
  e_run_id : option string;
  e_trace_id : option string;
  e_metadata : dict
}.

Definition event_payload (prev case_id event_type actor : string) (run_id trace_id : option string)
    (metadata : dict) : string :=
  prev +:+ ":" +:+ case_id +:+ ":" +:+ event_type +:+ ":" +:+ actor +:+ ":" +:+
  default "" run_id +:+ ":" +:+ default "" trace_id +:+ ":" +:+ dumps (JObj metadata).

Definition hash_event (prev case_id event_type actor : string) (run_id trace_id : option string)
    (metadata : dict) : string :=
  sha256 (event_payload prev case_id event_type actor run_id trace_id metadata).

Definition new_event_row (new_id : string) (e : NewEvent) (last_row : option CaseEventRow)
    (now : Z) : CaseEventRow :=
  let prev := match last_row with Some r => ev_event_hash r | None => "" end in
  {| ev_id := new_id; ev_case_id := e_case_id e; ev_event_type := e_event_type e;
     ev_actor := e_actor e; ev_run_id := e_run_id e; ev_trace_id := e_trace_id e;
     ev_metadata := e_metadata e; ev_prev_hash := prev;
     ev_event_hash := hash_event prev (e_case_id e) (e_event_type e) (e_actor e)
                        (e_run_id e) (e_trace_id e) (e_metadata e);
     ev_created_at := now;
     ev_seq := match last_row with Some r => ev_seq r + 1 | None => 1 end |}.

(** One attempt: [None] when the commit lost the race for the sequence number. *)
Definition append_attempt (e : NewEvent) (user_id : string) : M (option CaseEventRow) :=
  let! case_exists := query (fun d => case_owner d (e_case_id e) (Some user_id)) in
  if negb case_exists then raise (Exn KeyError "case not found") else
  let! last_row := query (fun d => last (chain_of d (e_case_id e))) in
  let! now := datetime_now in
  let! new_id := uuid4 in
  let row := new_event_row new_id e last_row now in
  let! committed := catch (do! transaction (insert_event row) ;; ret true)
    (fun x => if isinstance (class_of x) IntegrityError then do! await ;; ret false else raise x) in
  if (committed : bool) then do! await ;; ret (Some row) else ret None.

(** The loop with [left] attempts to go; between attempts it sleeps. *)
Fixpoint append_loop (left : nat) (e : NewEvent) (user_id : string) : M CaseEventRow :=
  match left with
  | O => raise (concurrent "append_event exhausted retry loop without committing")
  | S left' =>
      let! done := append_attempt e user_id in
      match done with
      | Some row => ret row
      | None =>
          match left' with
          | O => raise (concurrent
                   "case_event seq collision persisted across 8 append_event attempts")
          | S _ => do! await ;; append_loop left' e user_id
          end
      end
  end.

Definition append_event (e : NewEvent) (user_id : string) : M CaseEventRow :=
  append_loop _MAX_APPEND_ATTEMPTS e user_id.

(** [verify_event_chain]: the index of the first broken event, if any. *)
Fixpoint first_broken (prev : string) (index : Z) (rows : list CaseEventRow) : option Z :=
  match rows with
  | [] => None
  | r :: rows =>
      let expected := hash_event prev (ev_case_id r) (ev_event_type r) (ev_actor r)
                        (ev_run_id r) (ev_trace_id r) (ev_metadata r) in
      if negb (ev_prev_hash r =? prev)%string || negb (ev_event_hash r =? expected)%string
      then Some index
      else first_broken (ev_event_hash r) (index + 1) rows
  end.

Record ChainReport := { valid : bool; broken_at : option Z; count : Z }.

Definition verify_rows (rows : list CaseEventRow) : ChainReport :=
  let b := first_broken "" 0 rows in
  {| valid := bool_decide (b = None); broken_at := b; count := Z.of_nat (length rows) |}.

Definition verify_event_chain (case_id : string) : M ChainReport :=
  query (fun d => verify_rows (chain_of d case_id)).

Definition list_events (case_id user_id : string) : M (list CaseEventRow) :=
  query (fun d => if case_owner d case_id (Some user_id) then chain_of d case_id else []).

End Repository.
