(* ===== verification/Guardrail.v ===== *)
(** * Authorization before a tool runs

    [guardrail.py]: the fail-closed provider that decides whether the agent may
    call a protected tool, its audited wrapper, and the middleware of
    [deerflow/guardrails/middleware.py] that asks the provider before it lets a
    tool run. *)
From S2P Require Import Prelude Json Errors Actions Metrics Observability Tables Coroutines World Repository.
Import Json Errors Actions Tables World Effects Repository.

Module Guardrail.

(** ** deerflow/guardrails/provider.py *)

Record GuardrailRequest := {
  gr_tool_name : string;
  gr_tool_input : dict;
  gr_is_subagent : bool;
  gr_user_id : option string;
  gr_user_role : option string;
  gr_run_id : option string
}.

Record GuardrailReason := { reason_code : string; reason_message : string }.

Record GuardrailDecision := {
  allow : bool;
  reasons : list GuardrailReason;
  policy_id : option string
}.

(** ** AfterSalesGuardrailProvider *)

Definition _allow : GuardrailDecision :=
  {| allow := true; reasons := [{| reason_code := "after_sales.allowed"; reason_message := "" |}];
     policy_id := Some "after-sales-v1" |}.

Definition _deny (code message : string) : GuardrailDecision :=
  {| allow := false; reasons := [{| reason_code := code; reason_message := message |}];
     policy_id := Some "after-sales-v1" |}.

Definition _protected : list string :=
  ["create_after_sales_case"; "update_after_sales_case"; "create_after_sales_action";
   "execute_approved_action"].

(** [not value] on an optional text *)
Definition missing (o : option string) : bool := (default "" o =? "")%string.

(** The synchronous path; [current_user] is the user of the context variable. *)
Definition evaluate (current_user : option string) (r : GuardrailRequest) : GuardrailDecision :=
  if negb (bool_decide (gr_tool_name r ∈ _protected)) then _allow
  else if gr_is_subagent r
  then _deny "after_sales.subagent_forbidden" "subagents cannot modify AfterFlow cases or actions"
  else if missing (gr_user_id r) && bool_decide (current_user = None)
  then _deny "after_sales.authentication_required" "authenticated user is required"
  else if negb (gr_tool_name r =? "execute_approved_action")%string then _allow
  else _deny "after_sales.async_required" "protected AfterFlow tools require async authorization".

(** [isinstance(v, int)]: Python's booleans are integers. *)
Definition int_of (j : option json) : option Z :=
  match j with
  | Some (JInt z) => Some z
  | Some (JBool b) => Some (if b then 1 else 0)
  | _ => None
  end.

(** The arguments of [execute_approved_action]. *)
Definition execution_arguments (input : dict) : option (string * Z * dict) :=
  match get "action_id" input, int_of (get "expected_version" input), get "payload" input with
  | Some (JStr id), Some v, Some (JObj p) => Some (id, v, p)
  | _, _, _ => None
  end.

(** The checks on the stored action. *)
Definition check_action (found : option ActionRequest) (expected_version : Z) (submitted : dict)
    (now : Z) : GuardrailDecision :=
  match found with
  | None => _deny "after_sales.action_not_found" "action was not found"
  | Some a =>
      if negb (bool_decide (status a = APPROVED))
      then _deny "after_sales.action_not_approved" "action is not approved"
      else if negb (version a =? expected_version)
      then _deny "after_sales.version_conflict" "action version changed"
      else if expires_at a <=? now then _deny "after_sales.action_expired" "action approval expired"
      else if negb (payload_hash (payload a) =? act_payload_hash a)%string
              || negb (payload_hash submitted =? act_payload_hash a)%string
      then _deny "after_sales.payload_mismatch" "action payload does not match the approved hash"
      else _allow
  end.

(** [persistent]: a repository was given or can be made from a session factory. *)
Definition aevaluate (persistent : bool) (r : GuardrailRequest) : M GuardrailDecision :=
  if negb (bool_decide (gr_tool_name r ∈ _protected)) then ret _allow
  else if gr_is_subagent r
  then ret (_deny "after_sales.subagent_forbidden" "subagents cannot request or execute refund actions")
  else if missing (gr_user_id r)
  then ret (_deny "after_sales.authentication_required" "authenticated user is required")
  else if bool_decide (gr_tool_name r ∈ ["create_after_sales_case"; "update_after_sales_case";
                                          "create_after_sales_action"]) then ret _allow
  else if negb (bool_decide (gr_user_role r = Some "admin"))
  then ret (_deny "after_sales.supervisor_required" "after-sales supervisor role is required")
  else match execution_arguments (gr_tool_input r) with
  | None => ret (_deny "after_sales.invalid_request" "action_id, expected_version, and payload are required")
  | Some (action_id, expected_version, submitted) =>
      if negb persistent
      then ret (_deny "after_sales.persistence_unavailable" "AfterFlow persistence is unavailable")
      else
        let! found := get_action action_id None in
        let! now := datetime_now in
        ret (check_action found expected_version submitted now)
  end.

(** ** AuditedAfterSalesGuardrailProvider

    The provider is asked, then the decision is counted and recorded.
    [case_id_resolver] is the constructor's argument of that name. *)
Section audited.
Context (case_id_resolver : GuardrailRequest -> option string).

Definition audit_of (r : GuardrailRequest) (d : GuardrailDecision) (latency_ms now : Z)
: ToolAudit.ToolCallAudit :=
{| ToolAudit.au_case_id := if missing (case_id_resolver r) then "_unscoped"
                         else default "" (case_id_resolver r);
 ToolAudit.au_actor := if missing (gr_user_id r) then "unknown" else default "" (gr_user_id r);
 ToolAudit.au_user_role := if missing (gr_user_role r) then "unknown" else default "" (gr_user_role r);
 ToolAudit.au_tool_name := gr_tool_name r;
 ToolAudit.au_params_hash := ToolAudit.fingerprint_params (gr_tool_input r);
 ToolAudit.au_decision := if allow d then ToolAudit.ALLOW else ToolAudit.DENY;
 ToolAudit.au_reason_code := option_map reason_code (head (reasons d));
 ToolAudit.au_latency_ms := latency_ms;
 ToolAudit.au_recorded_at := now;
 ToolAudit.au_metadata := [("is_subagent", JBool (gr_is_subagent r)); ("run_id", jopt (gr_run_id r))] |}.

(** [auditor.record]: one transaction of its own, dated by the database. *)
Definition record_audit (r : GuardrailRequest) (d : GuardrailDecision) (latency_ms : Z) : M unit :=
do! await ;;
modify (fun s => set_audits s (ToolAudit.sql_record (audits s) (audit_of r d latency_ms (clock s)))).

Definition audited_aevaluate (persistent : bool) (r : GuardrailRequest) : M GuardrailDecision :=
let! started := datetime_now in
let! decision := aevaluate persistent r in
let! ended := datetime_now in
do! inc_metrics "tool_audit_total"
    [("decision", ToolAudit.decision_value (if allow decision then ToolAudit.ALLOW else ToolAudit.DENY))] ;;
do! record_audit r decision ((ended - started) / 1000) ;;
ret decision.
End audited.

(** ** deerflow/guardrails/middleware.py

    The tool call as the model made it, and the run's context. *)
Record ToolCall := { tc_name : string; tc_args : dict; tc_id : option string }.

Record Context := {
  ctx_user_id : option string;
  ctx_user_role : option string;
  ctx_is_subagent : bool;
  ctx_thread_id : option string;
  ctx_run_id : option string;
  ctx_trace_id : option string
}.

Definition _build_request (c : ToolCall) (ctx : Context) : GuardrailRequest :=
  {| gr_tool_name := tc_name c; gr_tool_input := tc_args c; gr_is_subagent := ctx_is_subagent ctx;
     gr_user_id := ctx_user_id ctx; gr_user_role := ctx_user_role ctx; gr_run_id := ctx_run_id ctx |}.

(** The error message the agent sees instead of a result. *)
Definition _build_denied_message (c : ToolCall) (d : GuardrailDecision) : json :=
  let code := match reasons d with r :: _ => reason_code r | [] => "oap.denied" end in
  let text := match reasons d with r :: _ => reason_message r | [] => "blocked by guardrail policy" end in
  JObj [("content", JStr ("Guardrail denied: tool '" +:+ tc_name c +:+ "' was blocked (" +:+ code +:+
                          "). Reason: " +:+ text +:+ ". Choose an alternative approach."));
        ("tool_call_id", JStr (default "missing_id" (tc_id c))); ("name", JStr (tc_name c));
        ("status", JStr "error")].

Definition evaluator_error (allowed : bool) : GuardrailDecision :=
  {| allow := allowed;
     reasons := [{| reason_code := "oap.evaluator_error";
                    reason_message := if allowed then "guardrail provider error (fail-open)"
                                      else "guardrail provider error (fail-closed)" |}];
     policy_id := None |}.

(** LangGraph's control-flow signal passes through. *)
Definition GraphBubbleUp : exn_class := Subclass "GraphBubbleUp" ExceptionC.

(** [awrap_tool_call]: the provider, then the tool. *)
Definition awrap_tool_call (fail_closed : bool) (provider : GuardrailRequest -> M GuardrailDecision)
    (ctx : Context) (c : ToolCall) (handler : M json) : M json :=
  let! decision := catch (provider (_build_request c ctx))
    (fun e => if isinstance (class_of e) GraphBubbleUp then raise e
              else if isinstance (class_of e) ExceptionC
              then ret (evaluator_error (negb fail_closed))
              else raise e) in
  if negb (allow decision) then ret (_build_denied_message c decision) else handler.

(** ** Properties *)

(** Who may run an approved refund, and which one. *)
Definition may_execute (persistent : bool) (r : GuardrailRequest) (s : Shared) : Prop :=
  gr_is_subagent r = false /\ default "" (gr_user_id r) <> "" /\ gr_user_role r = Some "admin" /\
  persistent = true /\
  exists id v p a, execution_arguments (gr_tool_input r) = Some (id, v, p) /\
    select_action (db s) id = Some a /\ status a = APPROVED /\ version a = v /\
    clock s < expires_at a /\ payload_hash (payload a) = act_payload_hash a /\
    payload_hash p = act_payload_hash a.

Lemma check_action_allows found v p now :
  allow (check_action found v p now) = true <->
  exists a, found = Some a /\ status a = APPROVED /\ version a = v /\ now < expires_at a /\
    payload_hash (payload a) = act_payload_hash a /\ payload_hash p = act_payload_hash a.
Proof.
  unfold check_action. destruct found as [a|]; [|split; [done|by intros (a&[=]&_)]].
  destruct (decide (status a = APPROVED)) as [St|St].
  - rewrite bool_decide_eq_true_2 by done. simpl.
    destruct (Z.eqb_spec (version a) v) as [V|V]; simpl; [|split; [done|by intros (?&[= <-]&_&?&_)]].
    destruct (Z.leb_spec (expires_at a) now) as [T|T]; [split; [done|intros (?&[= <-]&_&_&?&_); lia]|].
    destruct (String.eqb_spec (payload_hash (payload a)) (act_payload_hash a)) as [H1|H1],
      (String.eqb_spec (payload_hash p) (act_payload_hash a)) as [H2|H2]; simpl;
      (split; [|by intros (?&[= <-]&_&_&_&?&?)]); try done. intros _. by exists a.
  - rewrite bool_decide_eq_false_2 by done. simpl. split; [done|by intros (?&[= <-]&?&_)].
Qed.

Lemma missing_false o : missing o = false <-> default "" o <> "".
Proof. unfold missing. by rewrite String.eqb_neq. Qed.

(** The provider only reads, always answers, and lets an execution through
    exactly when it is authorized. *)
Lemma aevaluate_spec persistent r s :
  exists d, run (aevaluate persistent r) s = Some (Ok d, s) /\
    (gr_tool_name r = "execute_approved_action" -> (allow d = true <-> may_execute persistent r s)).
Proof.
  unfold aevaluate, may_execute.
  destruct (bool_decide (gr_tool_name r ∈ _protected)) eqn:Pr; simpl.
  2: { eexists. split; [done|]. intros E. rewrite E in Pr. done. }
  destruct (gr_is_subagent r); [eexists; split; [done|]; intros _; simpl; naive_solver|].
  destruct (missing (gr_user_id r)) eqn:U.
  { eexists. split; [done|]. intros _. unfold missing in U. apply String.eqb_eq in U. simpl. naive_solver. }
  apply missing_false in U.
  destruct (bool_decide (gr_tool_name r ∈ ["create_after_sales_case"; _; _])) eqn:Ot.
  { eexists. split; [done|]. intros E. rewrite E in Ot. done. }
  destruct (decide (gr_user_role r = Some "admin")) as [Ro|Ro].
  2: { rewrite bool_decide_eq_false_2 by done. eexists. split; [done|]. intros _. simpl. naive_solver. }
  rewrite bool_decide_eq_true_2 by done. simpl.
  destruct (execution_arguments (gr_tool_input r)) as [[[id v] p]|] eqn:Ar.
  2: { eexists. split; [done|]. intros _. simpl. naive_solver. }
  destruct persistent; simpl; [|eexists; split; [done|]; intros _; simpl; naive_solver].
  eexists. split; [unfold get_action; by autorewrite with run|]. intros _.
  rewrite check_action_allows. destruct (select_action (db s) id) as [a|] eqn:Se; naive_solver.
Qed.

Lemma run_awrap (provider : GuardrailRequest -> M GuardrailDecision) ctx c handler s x s' :
  run (provider (_build_request c ctx)) s = Some (x, s') ->
  run (awrap_tool_call true provider ctx c handler) s =
  match x with
  | Ok d => if allow d then run handler s' else Some (Ok (_build_denied_message c d), s')
  | Raise e => if isinstance (class_of e) GraphBubbleUp || negb (isinstance (class_of e) ExceptionC)
               then Some (Raise e, s')
               else Some (Ok (_build_denied_message c (evaluator_error false)), s')
  end.
Proof.
  intros E. unfold awrap_tool_call. autorewrite with run. rewrite E. destruct x as [d|e].
  - autorewrite with run. by destruct (allow d).
  - destruct (isinstance (class_of e) GraphBubbleUp); autorewrite with run; [done|].
    by destruct (isinstance (class_of e) ExceptionC).
Qed.

(** The trace a decision leaves: one count and one audit row. *)
Definition audited (case_id_resolver : GuardrailRequest -> option string) (r : GuardrailRequest)
    (d : GuardrailDecision) (s : Shared) : Shared :=
  set_audits
    (set_metrics s (Metrics.inc (metrics s) "tool_audit_total"
       [("decision", ToolAudit.decision_value (if allow d then ToolAudit.ALLOW else ToolAudit.DENY))]))
    (ToolAudit.sql_record (audits s) (audit_of case_id_resolver r d 0 (clock s))).

Lemma run_audited resolver persistent r s :
  exists d, run (aevaluate persistent r) s = Some (Ok d, s) /\
    run (audited_aevaluate resolver persistent r) s = Some (Ok d, audited resolver r d s) /\
    (gr_tool_name r = "execute_approved_action" -> (allow d = true <-> may_execute persistent r s)).
Proof.
  destruct (aevaluate_spec persistent r s) as (d&E&A). exists d. split_and!; [done| |done].
  unfold audited_aevaluate, record_audit, inc_metrics. autorewrite with run. rewrite E.
  autorewrite with run. by rewrite Z.sub_diag.
Qed.

(** C7: no execution without authorization.  Behind the middleware and the
    audited provider, the tool that pays runs exactly when the caller is an
    authenticated supervisor, not a subagent, and the named action is stored,
    approved, unexpired, at the named version, intact, and has the submitted
    payload; otherwise the agent gets an error and nothing at all happens to
    cases, actions, ledgers or stock.  Every protected call, allowed or
    denied, leaves one audit row and one count. *)
Theorem guarded_tool_call resolver persistent ctx c handler s :
  let r := _build_request c ctx in
  exists d,
    run (awrap_tool_call true (audited_aevaluate resolver persistent) ctx c handler) s =
      (if allow d then run handler (audited resolver r d s)
       else Some (Ok (_build_denied_message c d), audited resolver r d s)) /\
    (tc_name c = "execute_approved_action" -> (allow d = true <-> may_execute persistent r s)) /\
    (gr_is_subagent r = true \/ default "" (gr_user_id r) = "" -> tc_name c ∈ _protected -> allow d = false).
Proof.
  intros r. destruct (run_audited resolver persistent r s) as (d&E&E'&A). exists d.
  split_and!; [by rewrite (run_awrap _ _ _ _ _ _ _ E')|done|].
  intros H Pr. unfold aevaluate in E. change (gr_tool_name r) with (tc_name c) in E.
  rewrite (bool_decide_eq_true_2 (tc_name c ∈ _)) in E by done.
  destruct (gr_is_subagent r); [by injection E as <-|]. destruct H as [|H]; [done|].
  replace (missing (gr_user_id r)) with true in E; [by injection E as <-|].
  unfold missing. by rewrite H.
Qed.

(** The synchronous path never lets an execution through. *)
Lemma evaluate_denies_execution u r :
  gr_tool_name r = "execute_approved_action" -> allow (evaluate u r) = false.
Proof.
  intros E. unfold evaluate. rewrite E. simpl. destruct (gr_is_subagent r); [done|].
  by destruct (missing (gr_user_id r) && bool_decide (u = None)).
Qed.

End Guardrail.
