(* ===== verification/Guarantee.v ===== *)
(** * What the repository guarantees under interference

    The protocol all after-sales coroutines follow: the tables satisfy their
    constraints, every event chain is linked, the decision of every case is a
    sanctioned one, every stored action descends by legal steps from one created
    from such a decision; and from one instant to the next chains only grow,
    actions only take legal steps, and a case changes only with its version.  Each repository method keeps the protocol whatever other
    coroutines do in between. *)
From S2P Require Import Prelude Sha256 Json Errors Schemas Ledger Reverse Actions Approval Codec Tables Text Coroutines World Repository.
Import Sha256 Json Errors Actions Approval Tables World Effects Logic Repository.

Module Guarantee.

(** ** Event chains *)

(** The chain that follows an event with hash [prev] and number [n - 1]. *)
Fixpoint linked (prev : string) (n : Z) (l : list CaseEventRow) : Prop :=
  match l with
  | [] => True
  | r :: l =>
      ev_seq r = n /\ ev_prev_hash r = prev /\
      ev_event_hash r = hash_event prev (ev_case_id r) (ev_event_type r) (ev_actor r)
                          (ev_run_id r) (ev_trace_id r) (ev_metadata r) /\
      linked (ev_event_hash r) (n + 1) l
  end.

Definition chains_ok (d : Db) : Prop := forall cid, linked "" 1 (chain_of d cid).

Definition last_hash (prev : string) (l : list CaseEventRow) : string :=
  match last l with Some r => ev_event_hash r | None => prev end.

Lemma last_hash_cons prev r l : last_hash prev (r :: l) = last_hash (ev_event_hash r) l.
Proof.
  unfold last_hash. destruct l as [|y l]; [done|]. rewrite last_cons_cons.
  destruct (last (y :: l)) eqn:E; [done|]. by apply last_None in E.
Qed.

Lemma linked_snoc prev n l r :
  linked prev n l -> ev_seq r = n + Z.of_nat (length l) -> ev_prev_hash r = last_hash prev l ->
  ev_event_hash r = hash_event (last_hash prev l) (ev_case_id r) (ev_event_type r) (ev_actor r)
                      (ev_run_id r) (ev_trace_id r) (ev_metadata r) ->
  linked prev n (l ++ [r]).
Proof.
  revert prev n. induction l as [|x l IH]; intros prev n L S P H.
  - unfold last_hash in *. simpl in *. split_and!; (done || lia).
  - destruct L as (L1&L2&L3&L4). rewrite last_hash_cons in *. simpl in *.
    split_and!; try done. apply IH; try done. lia.
Qed.

Lemma linked_seq prev n l r :
  linked prev n l -> r ∈ l -> n <= ev_seq r < n + Z.of_nat (length l).
Proof.
  revert prev n. induction l as [|x l IH]; intros prev n L Hr; [by apply not_elem_of_nil in Hr|].
  destruct L as (L1&L2&L3&L4). simpl. apply elem_of_cons in Hr as [->|Hr]; [lia|].
  specialize (IH _ _ L4 Hr). lia.
Qed.

Lemma linked_has_seq prev n l k :
  linked prev n l -> n <= k < n + Z.of_nat (length l) -> exists r, r ∈ l /\ ev_seq r = k.
Proof.
  revert prev n. induction l as [|x l IH]; intros prev n L Hk; simpl in Hk; [lia|].
  destruct L as (L1&L2&L3&L4). destruct (decide (k = n)) as [->|N].
  - exists x. split; [by left|done].
  - destruct (IH _ _ L4) as (r&Hr&E); [lia|]. exists r. split; [by right|done].
Qed.

Lemma linked_last_seq l r n prev :
  linked prev n l -> last l = Some r -> ev_seq r = n + Z.of_nat (length l) - 1.
Proof.
  revert prev n. induction l as [|x l IH]; intros prev n L E; [done|].
  destruct L as (L1&L2&L3&L4). destruct l as [|y l]; [by simplify_eq/=; lia|].
  rewrite last_cons_cons in E. specialize (IH _ _ L4 E). simpl in *. lia.
Qed.

Lemma stable_sort_snoc {A} (le : A -> A -> bool) l x :
  (forall y, y ∈ l -> le y x = true) -> stable_sort le (l ++ [x]) = stable_sort le l ++ [x].
Proof.
  induction l as [|y l IH]; simpl; intros H; [done|].
  rewrite IH by (intros z Hz; apply H; by right).
  specialize (H y (list_elem_of_here _ _)). clear IH.
  induction (stable_sort le l) as [|z m IHm]; simpl; [by rewrite H|].
  destruct (le y z); [done|]. by rewrite IHm.
Qed.

Lemma chain_elem d cid r : r ∈ chain_of d cid <-> r ∈ events d /\ ev_case_id r = cid.
Proof.
  unfold chain_of. rewrite stable_sort_perm, filter_elem, String.eqb_eq. done.
Qed.

Lemma chain_insert d row cid :
  (forall r, r ∈ chain_of d (ev_case_id row) -> ev_seq r <= ev_seq row) ->
  chain_of (with_events d (events d ++ [row])) cid
  = chain_of d cid ++ (if bool_decide (ev_case_id row = cid) then [row] else []).
Proof.
  intros H. unfold chain_of. simpl. rewrite List.filter_app. simpl.
  destruct (String.eqb_spec (ev_case_id row) cid) as [E|E].
  - subst. rewrite bool_decide_eq_true_2 by done. apply stable_sort_snoc.
    intros y Hy. apply Z.leb_le, H. unfold chain_of. by rewrite stable_sort_perm.
  - rewrite bool_decide_eq_false_2 by done. by rewrite !app_nil_r.
Qed.

(** An event computed from the chain as it was at an earlier time can only be
    committed when that chain is still the whole chain, and then extends it. *)
Lemma insert_event_links d row e new_id old now :
  chains_ok d -> db_ok d ->
  old `prefix_of` chain_of d (e_case_id e) ->
  row = new_event_row new_id e (last old) now ->
  (insert_event row d).1 = Ok tt ->
  chains_ok (insert_event row d).2 /\
  forall cid, chain_of (insert_event row d).2 cid
    = chain_of d cid ++ (if bool_decide (e_case_id e = cid) then [row] else []).
Proof.
  intros C Ok_d [suffix P] -> I. unfold insert_event in *. set (row := new_event_row _ _ _ _) in *.
  destruct (events_ok _ && _) eqn:G; [|done]. simpl in *. bprop.
  match goal with H : events_ok _ = true |- _ =>
    unfold events_ok in H; apply andb_true_iff in H as [_ N%bool_decide_eq_true] end.
  rewrite map_app in N. apply NoDup_app in N as (_&N&_).
  pose proof (C (e_case_id e)) as L.
  assert (linked "" 1 old) as Lo.
  { rewrite P in L. clear -L. revert L. generalize "" 1. induction old as [|x old IH]; simpl; [done|].
    intros ?? (?&?&?&?). split_and!; eauto. }
  assert (ev_seq row = 1 + Z.of_nat (length old)) as S.
  { unfold row, new_event_row. simpl. destruct (last old) as [r|] eqn:E.
    - rewrite (linked_last_seq old r 1 "") by done. lia.
    - apply last_None in E. by subst. }
  assert (suffix = []) as ->.
  { destruct suffix as [|x suffix]; [done|exfalso].
    destruct (linked_has_seq "" 1 (chain_of d (e_case_id e)) (ev_seq row)) as (r&Hr&E); [done| |].
    - rewrite P, length_app, length_cons. lia.
    - apply chain_elem in Hr as [Hr1 Hr2]. apply (N (ev_case_id r, ev_seq r)).
      + apply list_elem_of_fmap. by exists r.
      + apply list_elem_of_singleton. unfold row in *. simpl in *. congruence. }
  rewrite app_nil_r in P.
  assert (forall cid, chain_of (with_events d (events d ++ [row])) cid
    = chain_of d cid ++ (if bool_decide (e_case_id e = cid) then [row] else [])) as X.
  { intros cid. apply chain_insert. intros r Hr. change (ev_case_id row) with (e_case_id e) in Hr.
    pose proof (linked_seq _ _ _ _ L Hr) as B. rewrite P in B. lia. }
  split; [|done]. intros cid. rewrite X. case_bool_decide as E; [|rewrite app_nil_r; apply C].
  subst cid. apply linked_snoc; try done.
  - rewrite P. lia.
  - unfold row, last_hash. simpl. by rewrite P.
  - unfold row, last_hash. simpl. by rewrite P.
Qed.

(** ** Actions under stale copies *)

Section system.
Context (roles_of : string -> list string).
(** What the stored decision of a case may be, of its owner and its order. *)
Context (sanctioned : string -> option string -> dict -> Prop).
Definition fitting (c : ServiceCaseRow) : Prop := sanctioned (c_user_id c) (c_order_id c) (c_decision_json c).
Notation step := (lifecycle_step roles_of).

Lemma copy_reserved_id a : copy_reserved a (act_reserved a) = a.
Proof. by destruct a. Qed.

Lemma reserved_step a b : step a (copy_reserved a b).
Proof. apply (step_reserved _ a b (version a)). lia. Qed.

Lemma reserved_to x y b : y = copy_reserved x b -> step x y.
Proof. intros ->. apply reserved_step. Qed.

(** A step does not look at the reservation flag, so it can be taken from a
copy that has another one. *)
Lemma step_transfer a u b : step a u -> rtc step (copy_reserved a b) u.
Proof.
intros H. inversion H as [? id v now note bc ? A|? id v note now ? A
|? sub v bal e now ? e' A|? sub v e now ? e' A|? why A|? b' v A]; subst.
- apply approve_action_ok in A as (A1&_&A2&->).
eapply rtc_l; [apply (step_approve _ _ id v now note None);
  apply approve_action_ok; split_and!; [exact A1|done|exact A2|reflexivity]|].
by apply rtc_once, (reserved_to _ _ (act_reserved a)).
- apply reject_action_ok in A as (A1&A2&->).
eapply rtc_l; [apply (step_reject _ _ id v note now);
  apply reject_action_ok; split_and!; [exact A1|exact A2|reflexivity]|].
by apply rtc_once, (reserved_to _ _ (act_reserved a)).
- apply execute_ok in A as (o&z&r&A1&A2&->).
eapply rtc_l; [apply (step_execute _ _ sub v bal e now _ e');
  apply execute_ok; exists o, z, r; split_and!; [exact A1|exact A2|reflexivity]|].
by apply rtc_once, (reserved_to _ _ (act_reserved a)).
- apply execute_resend_ok in A as (o&z&r&A1&A2&->).
eapply rtc_l; [apply (step_resend _ _ sub v e now _ e');
  apply execute_resend_ok; exists o, z, r; split_and!; [exact A1|exact A2|reflexivity]|].
by apply rtc_once, (reserved_to _ _ (act_reserved a)).
- eapply rtc_l; [by apply (step_invalidate _ (copy_reserved a b) why)|].
by apply rtc_once, (reserved_to _ _ (act_reserved a)).
- apply rtc_once. by apply (step_reserved _ (copy_reserved a b) b' v).
Qed.

Lemma rtc_transfer a u b : rtc step a u -> rtc step (copy_reserved a b) u.
Proof.
intros H. destruct H as [a|a x u S H].
- apply rtc_once, (reserved_to _ _ (act_reserved a)). by destruct a.
- etransitivity; [by apply step_transfer|done].
Qed.

(** A step either moves the version up or only sets the reservation flag. *)
Lemma step_version a u :
step a u -> version a < version u \/ u = copy_reserved a (act_reserved u).
Proof.
intros H. inversion H as [? id v now note bc ? A|? id v note now ? A
|? sub v bal e now ? e' A|? sub v e now ? e' A|? why A|? b' v A]; subst; simpl.
- apply approve_action_ok in A as (_&_&_&->). simpl. lia.
- apply reject_action_ok in A as (_&_&->). simpl. lia.
- apply execute_ok in A as (?&?&?&_&_&->). simpl. lia.
- apply execute_resend_ok in A as (?&?&?&_&_&->). simpl. lia.
- lia.
- destruct (decide (v = version a)) as [->|]; [by right|lia].
Qed.

Lemma rtc_version a u :
rtc step a u ->
version a < version u \/ (version a = version u /\ u = copy_reserved a (act_reserved u)).
Proof.
refine (rtc_ind_r (fun u => _) a _ _ u).
- right. by rewrite copy_reserved_id.
- intros y z _ S IH. destruct (step_same _ _ _ S) as [_ V].
destruct (step_version y z S) as [?|E]; [left; lia|].
destruct IH as [?|[E1 E2]]; [left; lia|]. right. rewrite E. simpl. split; [done|].
by rewrite E2.
Qed.

(** A step computed from an old copy is a legal step of the stored row, as
long as that row still has the old version. *)
Lemma stale_step a0 cur u :
rtc step a0 cur -> rtc step a0 u -> version cur = version a0 -> rtc step cur u.
Proof.
intros H1 H2 V. destruct (rtc_version a0 cur H1) as [?|[_ ->]]; [lia|].
by apply rtc_transfer.
Qed.

Lemma rtc_same a u : rtc step a u -> same_request a u.
Proof.
refine (rtc_ind_r (same_request a) a _ _ u); [reflexivity|].
intros y z _ S IH. destruct (step_same _ _ _ S) as [? _]. by transitivity y.
Qed.

Lemma rtc_ids a u : rtc step a u -> act_id u = act_id a /\ act_case_id u = act_case_id a.
Proof. intros (?&?&_)%rtc_same. done. Qed.

(** ** The protocol *)

(** An action as the two constructors make it. *)
Definition created (a : ActionRequest) : Prop :=
(exists nid cid o req j d now ttl, sanctioned req o j /\ Codec.decision_of j = Ok d /\
 create_refund_action nid cid (default "" o) req d now ttl = Ok a) \/
(exists nid cid oid sku req cost now ttl,
 a = create_resend_action nid cid oid sku req cost now ttl).

Definition lawful (a : ActionRequest) : Prop := exists a0, created a0 /\ rtc step a0 a.

Record system_inv (s : Shared) : Prop := {
inv_db : db_ok (db s);
inv_chains : chains_ok (db s);
inv_lawful : forall a, a ∈ actions (db s) -> lawful a;
inv_sanctioned : forall c, c ∈ cases (db s) -> fitting c;
inv_solvent : Ledger.solvent (refunds s)
}.

Definition case_evolves (c c' : ServiceCaseRow) : Prop :=
c_id c' = c_id c /\ c_user_id c' = c_user_id c /\ (c' = c \/ c_version c < c_version c').

Record db_rely (d d' : Db) : Prop := {
rely_chain cid : chain_of d cid `prefix_of` chain_of d' cid;
rely_action id a : select_action d id = Some a ->
exists a', select_action d' id = Some a' /\ rtc step a a';
rely_case id c : select_case d id = Some c ->
exists c', select_case d' id = Some c' /\ case_evolves c c'
}.

(** No transaction is forgotten and no money appears. *)
Definition ledger_rely (e e' : Ledger.RefundExecutor) : Prop :=
(forall k r, Ledger.transactions e !! k = Some r -> Ledger.transactions e' !! k = Some r) /\
(forall o, Ledger.balance_of e' o + Ledger.reserved_of e' o
         <= Ledger.balance_of e o + Ledger.reserved_of e o).

Definition ledger_keeps (e e' : Ledger.RefundExecutor) : Prop :=
Ledger.solvent e -> Ledger.solvent e' /\ ledger_rely e e'.

Record system_rely (s s' : Shared) : Prop := {
rely_db : db_rely (db s) (db s');
rely_ledger : ledger_rely (refunds s) (refunds s');
rely_clock : clock s <= clock s'
}.

Lemma case_evolves_refl c : case_evolves c c.
Proof. split_and!; auto. Qed.

Lemma case_evolves_trans c1 c2 c3 :
case_evolves c1 c2 -> case_evolves c2 c3 -> case_evolves c1 c3.
Proof.
intros (?&?&[->|?]) (?&?&[->|?]); split_and!; try congruence; auto. right. lia.
Qed.

Lemma db_rely_refl d : db_rely d d.
Proof. split; [done|eauto using rtc_refl|eauto using case_evolves_refl]. Qed.

Lemma db_rely_trans d1 d2 d3 : db_rely d1 d2 -> db_rely d2 d3 -> db_rely d1 d3.
Proof.
intros [A1 A2 A3] [B1 B2 B3]. split.
- intros cid. by transitivity (chain_of d2 cid).
- intros id a H. destruct (A2 _ _ H) as (a'&H'&S). destruct (B2 _ _ H') as (a''&H''&S').
exists a''. split; [done|]. by transitivity a'.
- intros id c H. destruct (A3 _ _ H) as (c'&H'&S). destruct (B3 _ _ H') as (c''&H''&S').
exists c''. split; [done|]. by eapply case_evolves_trans.
Qed.

Lemma ledger_rely_refl e : ledger_rely e e.
Proof. split; [done|]. intros o. lia. Qed.

Lemma ledger_rely_trans e1 e2 e3 : ledger_rely e1 e2 -> ledger_rely e2 e3 -> ledger_rely e1 e3.
Proof.
intros [A1 A2] [B1 B2]. split; [by auto|]. intros o. specialize (A2 o). specialize (B2 o). lia.
Qed.

Lemma ledger_keeps_refl e : ledger_keeps e e.
Proof. intros S. split; [done|apply ledger_rely_refl]. Qed.

Lemma op_keeps e op : 0 <= Ledger.op_amount op -> ledger_keeps e (Ledger.apply_op e op).
Proof.
intros N S. split; [by apply Ledger.apply_op_solvent|]. split.
- intros k r. apply Ledger.transactions_persist.
- intros o. pose proof (Ledger.apply_op_balance e op o).
pose proof (Ledger.captured_bounds e op o N (proj2 (S o))). lia.
Qed.

Lemma system_rely_refl s : system_rely s s.
Proof. split; [apply db_rely_refl|apply ledger_rely_refl|lia]. Qed.

Lemma system_rely_trans s1 s2 s3 : system_rely s1 s2 -> system_rely s2 s3 -> system_rely s1 s3.
Proof.
intros [A1 A2 A3] [B1 B2 B3].
split; [by eapply db_rely_trans|by eapply ledger_rely_trans|lia].
Qed.

Definition system : Protocol := {|
inv := system_inv; rely := system_rely;
rely_refl := system_rely_refl; rely_trans := system_rely_trans
|}.

(** *** Stable facts *)

(** [a] is the stored row of its id, as it was at some earlier time. *)
Definition past_action (a : ActionRequest) (s : Shared) : Prop :=
exists cur, select_action (db s) (act_id a) = Some cur /\ rtc step a cur.

Definition past_case (c : ServiceCaseRow) (s : Shared) : Prop :=
exists cur, select_case (db s) (c_id c) = Some cur /\ case_evolves c cur.

Definition past_chain (cid : string) (l : list CaseEventRow) (s : Shared) : Prop :=
l `prefix_of` chain_of (db s) cid.

Definition recorded (r : CaseEventRow) (s : Shared) : Prop :=
r ∈ chain_of (db s) (ev_case_id r).

Lemma past_action_stable a : stable system (past_action a).
Proof.
intros s s' _ _ R (cur&H&S). destruct (rely_action _ _ (rely_db _ _ R) _ _ H) as (a'&H'&S').
exists a'. split; [done|]. by transitivity cur.
Qed.
Lemma past_case_stable c : stable system (past_case c).
Proof.
intros s s' _ _ R (cur&H&S). destruct (rely_case _ _ (rely_db _ _ R) _ _ H) as (a'&H'&S').
exists a'. split; [done|]. by eapply case_evolves_trans.
Qed.
Lemma past_chain_stable cid l : stable system (past_chain cid l).
Proof. intros s s' _ _ R H. unfold past_chain in *. etransitivity; [exact H|]. apply (rely_chain _ _ (rely_db _ _ R)). Qed.
Lemma recorded_stable r : stable system (recorded r).
Proof.
intros s s' _ _ R H. destruct (rely_chain _ _ (rely_db _ _ R) (ev_case_id r)) as [l E].
unfold recorded. rewrite E. apply elem_of_app. by left.
Qed.

(** *** Statements keep the protocol *)

(** What a transaction must do to the tables. *)
Definition allowed (d d' : Db) : Prop :=
db_ok d' /\ chains_ok d' /\ (forall a, a ∈ actions d' -> lawful a) /\
(forall c, c ∈ cases d' -> fitting c) /\ db_rely d d'.

Lemma allowed_refl s : system_inv s -> allowed (db s) (db s).
Proof. intros [? ? ? ? ?]. split_and!; auto using db_rely_refl. Qed.

Lemma allowed_write s d :
system_inv s -> allowed (db s) d -> system_inv (set_db s d) /\ system_rely s (set_db s d).
Proof.
intros [? ? ? ? ?] (?&?&?&?&?). split; [by split|].
split; simpl; [done|apply ledger_rely_refl|lia].
Qed.

Lemma insert_case_allowed s row :
system_inv s -> fitting row -> allowed (db s) (insert_case row (db s)).2.
Proof.
intros I Sn. pose proof (allowed_refl s I) as Rf. destruct I as [I1 I2 I3 I4 I5].
pose proof (insert_case_ok row _ I1) as K. unfold insert_case in *.
destruct (cases_ok _); [|done]. simpl in *. split_and!; [done..| |].
{ intros c [Hc|Hc%list_elem_of_singleton]%elem_of_app; subst; auto. }
split; simpl; [done|intros id a H; exists a; split; [exact H|done]|].
intros id c H. exists c. split; [|apply case_evolves_refl].
unfold select_case in *. simpl. by rewrite find_app, H.
Qed.

Lemma insert_action_allowed s row :
system_inv s -> lawful row -> allowed (db s) (insert_action row (db s)).2.
Proof.
intros I L. pose proof (allowed_refl s I) as Rf. destruct I as [I1 I2 I3 I4 I5].
pose proof (insert_action_ok row _ I1) as K. unfold insert_action in *.
destruct (_ && _); [|done]. simpl in *. split_and!; [done|done| |done|].
- intros a [Ha|Ha%list_elem_of_singleton]%elem_of_app; subst; auto.
- split; simpl; [done| |intros id c H; exists c; split; [exact H|apply case_evolves_refl]].
intros id a H. exists a. split; [|done]. unfold select_action in *. simpl.
by rewrite find_app, H.
Qed.

Lemma insert_event_allowed s row e new_id old now :
system_inv s -> past_chain (e_case_id e) old s ->
row = new_event_row new_id e (last old) now ->
allowed (db s) (insert_event row (db s)).2 /\
((insert_event row (db s)).1 = Ok tt -> recorded row (set_db s (insert_event row (db s)).2)).
Proof.
intros I P E. pose proof (allowed_refl s I) as Rf. destruct I as [I1 I2 I3 I4 I5].
pose proof (insert_event_ok row _ I1) as K.
destruct ((insert_event row (db s)).1) as [[]|x] eqn:R; [|split; [|done]].
- destruct (insert_event_links _ _ _ _ _ _ I2 I1 P E R) as [C X]. split.
+ split_and!; [done|done| | |split].
  * unfold insert_event in *. by destruct (_ && _).
  * unfold insert_event in *. by destruct (_ && _).
  * intros cid. rewrite X. by exists (if bool_decide (e_case_id e = cid) then [row] else []).
  * intros id a H. exists a. split; [|done]. unfold insert_event. by destruct (_ && _).
  * intros id c H. exists c. split; [|apply case_evolves_refl].
    unfold insert_event. by destruct (_ && _).
+ intros _. unfold recorded. simpl. rewrite X. apply elem_of_app. right.
  rewrite E. simpl. rewrite bool_decide_eq_true_2 by done. by left.
- unfold insert_event in *. by destruct (_ && _).
Qed.

(** What [exactly_one] does: nothing, or the update. *)
Lemma exactly_one_cases conflict upd d :
(exactly_one conflict upd d).2 = d \/
((exactly_one conflict upd d).1 = Ok tt /\ (exactly_one conflict upd d).2 = (upd d).2).
Proof.
unfold exactly_one. destruct (upd d) as [[n|e] d']; [|by left].
destruct (n =? 1); [by right|by left].
Qed.

Lemma update_cases_allowed s cond upd :
system_inv s ->
(forall c, cond c = true -> c_id (upd c) = c_id c /\ c_user_id (upd c) = c_user_id c /\
                          c_version c < c_version (upd c)) ->
(forall c, cond c = true -> fitting c -> fitting (upd c)) ->
allowed (db s) (update_cases cond upd (db s)).2.
Proof.
intros I U Us. pose proof (allowed_refl s I) as Rf. destruct I as [I1 I2 I3 I4 I5].
pose proof (update_cases_ok cond upd _ I1) as K. unfold update_cases in *.
destruct (cases_ok _); [|done]. simpl in *. split_and!; [done..| |].
{ intros c (x&Hx&->)%elem_of_map_where. destruct (cond x) eqn:E; auto. }
split; simpl; [done|intros id a H; exists a; split; [exact H|done]|].
intros id c H. unfold select_case in *. simpl. rewrite find_map_where, H.
- simpl. eexists. split; [done|]. destruct (cond c) eqn:E; [|apply case_evolves_refl].
destruct (U c E) as (?&?&?). split_and!; auto.
- intros x E. by destruct (U x E) as (->&_&_).
Qed.

Lemma update_actions_allowed s cond upd :
system_inv s ->
(forall a, a ∈ actions (db s) -> cond a = true -> rtc step a (upd a)) ->
(forall a, cond a = true -> act_id (upd a) = act_id a) ->
allowed (db s) (update_actions cond upd (db s)).2.
Proof.
intros I U Ui. pose proof (allowed_refl s I) as Rf. destruct I as [I1 I2 I3 I4 I5].
pose proof (update_actions_ok cond upd _ I1) as K. unfold update_actions in *.
destruct (actions_ok _); [|done]. simpl in *. split_and!; [done|done| |done|split].
- intros a (x&Hx&->)%elem_of_map_where. destruct (cond x) eqn:E; [|auto].
destruct (I3 x Hx) as (a0&C&S). exists a0. split; [done|]. etransitivity; eauto.
- done.
- intros id a H. unfold select_action in *. simpl. rewrite find_map_where, H.
+ simpl. eexists. split; [done|]. destruct (cond a) eqn:E; [|done].
  apply U; [|done]. by apply find_some_elem in H as [? _].
+ intros x E. by rewrite Ui.
- intros id c H. exists c. split; [exact H|apply case_evolves_refl].
Qed.

(** *** Programs keep the protocol *)

Notation triple := (triple system).
Notation top := (fun _ : Shared => True).

(** A transaction whose every outcome is allowed. *)
Lemma triple_write {A} P (f : Db -> result A * Db) (Q : A -> Shared -> Prop) :
stable system P ->
(forall s, system_inv s -> P s -> allowed (db s) (f (db s)).2 /\
 forall a, (f (db s)).1 = Ok a -> Q a (set_db s (f (db s)).2)) ->
triple P (transaction f) (on_ok Q).
Proof.
intros S H. apply triple_transaction; [done|]. intros s I Ps.
destruct (H s I Ps) as [A1 A2]. destruct (allowed_write _ _ I A1). split_and!; [done..|].
destruct (f (db s)) as [[a|e] d]; simpl in *; auto.
Qed.

Lemma select_case_past s id c : select_case (db s) id = Some c -> past_case c s.
Proof.
intros H. destruct (select_case_some _ _ _ H) as [_ E]. exists c.
rewrite E. split; [done|apply case_evolves_refl].
Qed.

Lemma elem_case_past s c : system_inv s -> c ∈ cases (db s) -> past_case c s.
Proof. intros I H. eapply select_case_past, select_case_elem; [apply I|done]. Qed.

Lemma elem_action_past s a : system_inv s -> a ∈ actions (db s) -> past_action a s.
Proof.
intros I H. exists a. split; [|done]. apply select_action_elem; [apply I|done].
Qed.

(** What a lookup of a case returns. *)
Definition found_case (case_id : string) (u : option string) (o : option ServiceCaseRow)
(s : Shared) : Prop :=
match o with
| Some c => past_case c s /\ c_id c = case_id /\ owned u c = true /\
          fitting c
| None => True
end.

Lemma get_case_triple case_id u :
triple top (get_case case_id u) (on_ok (found_case case_id u)).
Proof.
apply triple_query; [apply stable_pure|]. intros s I _. simpl. unfold found_case.
destruct (List.find _ (cases (db s))) as [c|] eqn:E; [|done].
apply find_some_elem in E as [E1 E2]. bprop. split_and!; auto using elem_case_past.
by apply (inv_sanctioned s).
Qed.

Lemma create_case_triple n :
sanctioned (n_user_id n) (n_order_id n) (n_decision n) ->
triple top (create_case n) (on_ok (fun c s => past_case c s /\ c_user_id c = n_user_id n)).
Proof.
intros Sn. unfold create_case. eapply triple_seq_ok.
{ apply triple_atomic. intros s I _. simpl. instantiate (1 := fun _ _ => True).
split_and!; [by destruct I|split; simpl; [apply db_rely_refl|apply ledger_rely_refl|lia]|done]. }
intros new_id. eapply triple_seq_ok; [apply triple_await_ok, stable_pure|]. intros [].
eapply triple_seq_ok; [by apply triple_gets with (Q := on_ok (fun _ _ => True))|].
intros now. set (row := {| c_id := new_id |}). eapply (triple_seq_ok _ _ _ _ (fun _ => past_case row)).
{ apply triple_write; [apply stable_pure|]. intros s I _.
pose proof (insert_case_allowed s row I Sn) as A. split; [done|]. intros [] E.
apply elem_case_past.
- by eapply allowed_write.
- unfold insert_case in *. destruct (cases_ok _); [|done]. simpl.
  apply elem_of_app. right. by left. }
intros _. apply triple_query; [apply past_case_stable|]. intros s I (c&E&Ev). simpl.
change (c_id row) with new_id in E. rewrite E. simpl.
split; [by eapply select_case_past|]. by destruct Ev as (_&->&_).
Qed.

Lemma update_case_triple case_id u v values :
(forall c, c_id (values c) = c_id c /\ c_user_id (values c) = c_user_id c) ->
(forall c, c_user_id c = u -> fitting c -> fitting (values c)) ->
triple top (update_case case_id u v values)
(on_ok (fun c s => past_case c s /\ c_id c = case_id /\ c_user_id c = u)).
Proof.
intros V Vs. unfold update_case.
eapply triple_seq_ok; [by apply triple_gets with (Q := on_ok (fun _ _ => True))|].
intros now. eapply (triple_seq_ok _ _ _ _ (fun _ => top)).
{ apply triple_write; [apply stable_pure|]. intros s I _. split; [|done].
match goal with |- context [exactly_one ?c ?f ?d] =>
  destruct (exactly_one_cases c f d) as [->|[_ ->]] end; [by apply allowed_refl|].
apply update_cases_allowed; [done| |]; intros c Hc; bprop; simpl.
- destruct (V c) as [-> ->]. split_and!; [done..|lia].
- by apply Vs. }
intros []. eapply triple_seq_ok; [apply get_case_triple|]. intros o.
apply triple_lift. intros s I H. unfold of_option. destruct o as [c|]; [|done].
destruct H as (?&?&?&?). simpl in *. bprop. by split_and!.
Qed.

Lemma get_action_triple id u :
triple top (get_action id u)
(on_ok (fun o s => forall a, o = Some a -> past_action a s /\ act_id a = id /\ lawful a)).
Proof.
apply triple_query; [apply stable_pure|]. intros s I _ a. simpl.
destruct (select_action (db s) id) as [x|] eqn:E; [|done].
apply select_action_some in E as [E1 E2].
intros H. assert (x = a) as -> by (destruct u; [by case_match; simplify_eq|by simplify_eq]).
split_and!; [by apply elem_action_past|done|by apply I].
Qed.

(** A change outside the tables, the ledger and the clock. *)
Lemma modify_other_triple P (f : Shared -> Shared) :
(forall s, db (f s) = db s /\ refunds (f s) = refunds s /\ clock (f s) = clock s) ->
(forall s, P s -> P (f s)) -> triple P (modify f) (on_ok (fun _ => P)).
Proof.
intros H HP. apply triple_atomic. intros s I Ps. simpl. destruct (H s) as (E1&E2&E3).
destruct I as [I1 I2 I3 I4 I5]. split_and!; auto; split; rewrite ?E1, ?E2, ?E3; auto.
- apply db_rely_refl.
- apply ledger_rely_refl.
- lia.
Qed.

(** The amount of a stored action is not negative. *)
Lemma lawful_amount a z : lawful a -> amount_of (payload a) = Ok z -> 0 <= z.
Proof.
intros (a0&C&S) E. destruct (rtc_same _ _ S) as (_&_&_&Ep&_). rewrite Ep in E.
destruct C as [(nid&cid&oid&rq&j&d&now&ttl&_&_&Hc)|(nid&cid&oid&sku&rq&cost&now&ttl&->)]; [|done].
apply create_refund_ok in Hc as (_&Hp&_&Hpay&_). rewrite Hpay in E.
apply amount_of_ok in E. rewrite refund_payload_amount in E. injection E as <-. lia.
Qed.

Lemma past_amount s a z :
system_inv s -> past_action a s -> amount_of (payload a) = Ok z -> 0 <= z.
Proof.
intros I (cur&E&S). apply select_action_some in E as [E _].
destruct (rtc_same _ _ S) as (_&_&_&Ep&_). rewrite <-Ep. intros A.
eapply lawful_amount; [|exact A]. by apply I.
Qed.

Lemma amount_triple P a :
triple (fun s => past_action a s /\ P s) (lift (amount_of (payload a)))
(on_ok (fun z s => 0 <= z /\ past_action a s /\ P s)).
Proof.
apply triple_lift_ok. intros z s E I [Pa Ps]. split; [by eapply past_amount|done].
Qed.

(** A segment that leaves the tables alone and forgets no transaction. *)
Lemma local_triple {A} P (f : Shared -> result A * Shared) (R : A -> Prop) :
stable system P ->
(forall s, system_inv s -> P s ->
 db (f s).2 = db s /\ clock (f s).2 = clock s /\ ledger_keeps (refunds s) (refunds (f s).2)) ->
(forall s a, (f s).1 = Ok a -> R a) ->
triple P (atomic f) (on_ok (fun a s => R a /\ P s)).
Proof.
intros St H HR. apply triple_atomic. intros s I Ps. destruct (H s I Ps) as (E1&E2&E3).
destruct (E3 (inv_solvent s I)) as [E4 E5]. assert (system_inv (f s).2) as I'.
{ destruct I as [I1 I2 I3 I4 I5]. split; by rewrite ?E1. }
assert (system_rely s (f s).2) as R'.
{ split; [rewrite E1; apply db_rely_refl|done|lia]. }
split_and!; [done..|]. destruct (f s).1 as [a|] eqn:E; simpl; [|done].
split; [by eapply HR|]. exact (St _ _ I I' R' Ps).
Qed.

(** A change of the ledger by one of its operations. *)
Lemma ledger_triple P op (z : Z) :
stable system P -> Ledger.op_amount op = z -> 0 <= z ->
triple P (modify (fun s => set_refunds s (Ledger.apply_op (refunds s) op))) (on_ok (fun _ => P)).
Proof.
intros St E N. eapply triple_post; [apply (local_triple P _ (fun _ => True)); [done| |done]|].
- intros s _ _. simpl. split_and!; [done|done|]. apply op_keeps. lia.
- by intros [a|e] s _ Q; [destruct Q|].
Qed.

(** Changes outside the tables, the ledger and the clock. *)
Lemma other_inv s s' :
db s' = db s -> refunds s' = refunds s -> clock s' = clock s ->
system_inv s -> system_inv s' /\ system_rely s s'.
Proof.
intros E1 E2 E3 [I1 I2 I3 I4 I5]. split; split; rewrite ?E1, ?E2, ?E3; auto.
- apply db_rely_refl.
- apply ledger_rely_refl.
- lia.
Qed.

Lemma uuid4_triple P : stable system P -> triple P uuid4 (on_ok (fun _ => P)).
Proof.
intros S. eapply triple_post; [apply (local_triple P _ (fun _ => True)); [done| |done]|].
- intros s _ _. simpl. split_and!; [done|done|apply ledger_keeps_refl].
- by intros [a|e] s _ Q; [destruct Q|].
Qed.

Lemma create_action_triple a u :
lawful a ->
triple top (create_action a u)
(on_ok (fun saved s => past_action saved s /\ rtc step a saved)).
Proof.
intros L. unfold create_action.
eapply (triple_seq_ok _ _ _ _ (fun _ => top));
[by apply triple_query; [apply stable_pure|]|]. intros b1.
apply triple_if; intros _; [apply triple_fail|].
eapply (triple_seq_ok _ _ _ _ (fun _ => top));
[by apply triple_query; [apply stable_pure|]|]. intros b2.
apply triple_if; intros _; [apply triple_fail|].
eapply (triple_seq_ok _ _ _ _ (fun _ => past_action a)).
{ eapply (triple_catch _ _ _ _ (fun _ => top)).
- eapply triple_post.
  + apply (triple_write top _ (fun _ => past_action a)); [apply stable_pure|].
    intros s I _. pose proof (insert_action_allowed s a I L) as A. split; [done|].
    intros [] E. apply elem_action_past; [by eapply allowed_write|].
    unfold insert_action in *. destruct (_ && _); [|done]. simpl.
    apply elem_of_app. right. by left.
  + by intros [[]|e] s.
- intros e. apply triple_if; intros _; apply triple_fail. }
intros []. apply triple_query; [apply past_action_stable|]. intros s I (cur&E&S). simpl.
rewrite E. simpl. split; [|done]. apply select_action_some in E as [E _].
by apply elem_action_past.
Qed.

Lemma get_action_after a u :
triple (past_action a) (get_action (act_id a) u)
(on_ok (fun o s => forall x, o = Some x -> past_action x s /\ rtc step a x)).
Proof.
apply triple_query; [apply past_action_stable|]. intros s I (cur&E&S) x. simpl. rewrite E.
intros H. assert (cur = x) as -> by (destruct u; [by case_match; simplify_eq|by simplify_eq]).
split; [|done]. apply select_action_some in E as [E _]. by apply elem_action_past.
Qed.

(** Saving what legal steps made of an earlier copy of the row. *)
Lemma save_action_triple a0 a u v :
rtc step a0 a -> version a0 = v ->
triple (past_action a0) (save_action a u v)
(on_ok (fun saved s => past_action saved s /\ rtc step a saved)).
Proof.
intros S V. destruct (rtc_ids _ _ S) as [Ei Ec]. unfold save_action.
eapply (triple_seq_ok _ _ _ _ (fun _ => past_action a)).
{ apply triple_write; [apply past_action_stable|]. intros s I (cur&E&Sc).
match goal with |- context [exactly_one ?c ?f ?d] => set (conflict := c); set (upd := f) end.
set (d := db s).
assert (forall x, x ∈ actions d -> act_id x = act_id a -> x = cur) as Uq.
{ intros x Hx Ex. apply select_action_elem in Hx; [|apply I].
  rewrite Ex, Ei in Hx. unfold d in *. congruence. }
assert (act_case_id cur = act_case_id a) as Ecc.
{ destruct (rtc_ids _ _ Sc) as [_ ->]. congruence. }
assert (forall x, x ∈ actions d -> act_id x = act_id a -> version x = v ->
          rtc step x (with_case_id a (act_case_id x))) as Ust.
{ intros x Hx Ex Vx. assert (x = cur) as -> by auto. rewrite Ecc.
  assert (with_case_id a (act_case_id a) = a) as -> by (by destruct a).
  eapply stale_step; [exact Sc|exact S|]. congruence. }
assert (allowed d (upd d).2) as A.
{ apply update_actions_allowed; [done| |].
  - intros x Hx C. bprop. by apply Ust.
  - intros x C. bprop. simpl. congruence. }
split; [destruct (exactly_one_cases conflict upd d) as [->|[_ ->]]; [by apply allowed_refl|done]|].
intros [] Er. unfold exactly_one in *. destruct (upd d) as [[n|?] d'] eqn:Eu; [|done].
destruct (Z.eqb_spec n 1) as [->|]; [|done]. simpl in *.
unfold upd, update_actions in Eu. destruct (actions_ok _); [|done].
injection Eu as En <-. simpl. exists a. split; [|done].
unfold select_action. simpl. rewrite find_map_where.
- fold (select_action d (act_id a)). rewrite Ei. unfold d. rewrite E. simpl.
  match goal with |- Some (if ?b then _ else _) = _ => destruct b eqn:Eb end.
  + rewrite Ecc. by destruct a.
  + exfalso. match type of En with Z.of_nat (length ?l) = 1 => destruct l as [|x l'] eqn:El end;
      [done|]. assert (x ∈ x :: l') as Hx by left. rewrite <-El in Hx.
    apply filter_elem in Hx as [Hx1 Hx2]. assert (x = cur) as ->.
    { apply Uq; [done|]. bprop. congruence. }
    rewrite Ei in Hx2. unfold d in *. congruence.
- intros x C. simpl. bprop. congruence. }
intros []. eapply triple_seq_ok; [apply get_action_after|]. intros o.
apply triple_lift. intros s I H. unfold of_option. destruct o as [x|]; [|done].
by apply H.
Qed.

Lemma map_m_triple {A B} (P : Shared -> Prop) (f : A -> M B) (R : B -> Shared -> Prop) (l : list A) :
stable system P -> (forall b, stable system (R b)) ->
(forall x, x ∈ l -> triple P (f x) (on_ok R)) ->
triple P (map_m f l) (on_ok (fun ys s => forall y, y ∈ ys -> R y s)).
Proof.
intros SP SR. induction l as [|x l IH]; intros H; simpl.
{ apply triple_ret. intros s _ _ y Hy. by apply not_elem_of_nil in Hy. }
apply (triple_pre _ (fun s => P s /\ P s)); [|by intros s].
eapply triple_seq_keep; [done|apply H; by left|]. intros y.
eapply triple_seq_ok.
{ apply (triple_pre _ (fun s => R y s /\ P s)); [|by intros s _ [? ?]].
eapply triple_post; [apply triple_frame; [apply SR|apply IH; intros z Hz; apply H; by right]|].
intros [ys|e] s _ Q; [|done]. exact Q. }
intros ys. apply triple_ret. intros s _ [HR Hys] z Hz.
apply elem_of_cons in Hz as [->|Hz]; [done|by apply Hys].
Qed.

Lemma list_case_actions_triple cid u :
triple top (list_case_actions cid u)
(on_ok (fun l s => forall a, a ∈ l -> past_action a s)).
Proof.
apply triple_query; [apply stable_pure|]. intros s I _ a. simpl.
rewrite stable_sort_perm, filter_elem. intros [H _]. by apply elem_action_past.
Qed.

Lemma invalidate_triple cid u why :
triple top (invalidate_active_actions cid u why)
(on_ok (fun l s => forall a, a ∈ l -> past_action a s)).
Proof.
unfold invalidate_active_actions. eapply triple_seq_ok; [apply list_case_actions_triple|].
intros l. apply map_m_triple.
- apply stable_all. intros a. apply stable_impl, past_action_stable.
- apply past_action_stable.
- intros a [Ha Act]%filter_elem. eapply triple_pre; [eapply triple_post;
  [apply (save_action_triple a)|]|].
+ apply rtc_once, step_invalidate. bprop. destruct (status a); set_solver.
+ done.
+ by intros [x|e] s _ Q; [destruct Q|].
+ intros s _ H. by apply H.
Qed.

Lemma release_all_triple l n :
triple (fun s => forall x, x ∈ l -> past_action x.1 s) (release_all l n) (on_ok (fun _ => top)).
Proof.
revert n. induction l as [|[a o] l IH]; intros n; simpl; [by apply triple_ret|].
set (P := fun s => forall x : ActionRequest * option string, x ∈ (a, o) :: l -> past_action x.1 s).
assert (stable system P) as SP.
{ apply stable_all. intros x. apply stable_impl, past_action_stable. }
eapply (triple_seq_ok _ _ _ _ (fun z s => 0 <= z /\ P s)).
{ apply triple_lift_ok. intros z s E I Ps. split; [|done].
eapply past_amount; [done| |exact E]. apply (Ps (a, o)). by left. }
intros amount. apply triple_given. intros N. eapply (triple_seq_ok _ _ _ _ (fun _ => P)).
{ by apply (ledger_triple P (Ledger.OpRelease (default "" o) amount) amount). }
intros []. apply (triple_pre _ (fun s => P s /\ past_action a s)).
- eapply triple_seq_keep; [done|apply (save_action_triple a)|].
+ apply rtc_once, reserved_step.
+ done.
+ intros saved. eapply triple_pre; [apply IH|]. intros s _ [HP _] x Hx. apply HP. by right.
- intros s _ H. split; [done|]. apply (H (a, o)). by left.
Qed.

Lemma release_expired_triple t :
triple top (release_expired_reservations t) (on_ok (fun _ => top)).
Proof.
unfold release_expired_reservations. eapply (triple_seq_ok _ _ _ _ (fun _ => top)).
{ destruct t; [by apply triple_ret|by apply triple_gets]. }
intros now. eapply triple_seq_ok; [|intros l; apply release_all_triple].
apply triple_query; [apply stable_pure|]. intros s I _ [x ord]. simpl.
intros (ac&E&H)%list_elem_of_fmap. injection E as -> ->.
unfold with_case in H. apply list_elem_of_omap in H as (a&Ha&E).
destruct (select_case (db s) (act_case_id a)) as [c|]; [|done]. simpl in E. injection E as <-.
apply filter_elem in Ha as [Ha _]. by apply elem_action_past.
Qed.

Lemma append_attempt_triple e u :
triple top (append_attempt e u)
(on_ok (fun o s => forall row, o = Some row -> recorded row s)).
Proof.
unfold append_attempt. eapply (triple_seq_ok _ _ _ _ (fun _ => top));
[by apply triple_query; [apply stable_pure|]|]. intros b.
apply triple_if; intros _; [apply triple_fail|].
eapply (triple_seq_ok _ _ _ _ (fun o s => exists old, o = last old /\ past_chain (e_case_id e) old s)).
{ apply triple_query; [apply stable_pure|]. intros s I _. simpl. exists (chain_of (db s) (e_case_id e)). split; [done|]. by unfold past_chain. }
intros o. set (P := fun s => exists old, o = last old /\ past_chain (e_case_id e) old s).
assert (stable system P) as SP.
{ intros s s' I I' R (old&E&H). exists old. split; [done|]. exact (past_chain_stable _ _ _ _ I I' R H). }
eapply (triple_seq_ok _ _ _ _ (fun _ => P)); [by apply triple_gets|]. intros now.
eapply (triple_seq_ok _ _ _ _ (fun _ => P)).
{ apply triple_atomic. intros s I Ps. simpl. split_and!; [by destruct I| |done].
split; simpl; [apply db_rely_refl|apply ledger_rely_refl|lia]. }
intros new_id. set (row := new_event_row new_id e o now).
eapply (triple_seq_ok _ _ _ _ (fun (b : bool) s => b = true -> recorded row s)).
- eapply (triple_catch _ _ _ _ (fun _ => top)).
+ eapply triple_post.
  * eapply (triple_seq_ok _ P _ _ (fun _ => recorded row)).
    -- apply triple_write; [done|]. intros s I (old&->&H).
       destruct (insert_event_allowed s row e new_id old now I H eq_refl) as [A1 A2].
       split; [exact A1|]. intros [] E. by apply A2.
    -- intros []. apply (triple_ret _ _ _ (on_ok (fun b s => b = true -> recorded row s))). intros s _ H _. exact H.
  * by intros [b'|x] s.
+ intros x. apply triple_if; intros _; [|apply triple_fail].
  eapply triple_seq_ok; [apply triple_await_ok, stable_pure|]. intros [].
  by apply triple_ret.
- intros b'. destruct b'.
+ eapply (triple_seq_ok _ _ _ _ (fun _ => recorded row)).
  * eapply triple_pre; [apply triple_await_ok, recorded_stable|]. intros s _ H. by apply H.
  * intros []. apply triple_ret. intros s _ H row' [= <-]. done.
+ by apply triple_ret.
Qed.

Lemma append_event_triple e u :
triple top (append_event e u) (on_ok (fun row => recorded row)).
Proof.
unfold append_event. generalize _MAX_APPEND_ATTEMPTS.
intros n. induction n as [|n IH]; simpl; [apply triple_fail|].
eapply triple_seq_ok; [apply append_attempt_triple|]. intros [row|].
- apply triple_ret. intros s _ H. by apply H.
- destruct n; [apply triple_fail|].
eapply (triple_seq_ok _ _ _ _ (fun _ => top)); [|intros []; exact IH].
eapply triple_pre; [apply triple_await_ok, stable_pure|done].
Qed.
End system.

#[export] Hint Resolve past_action_stable past_case_stable past_chain_stable recorded_stable : stable.

End Guarantee.
