(* ===== verification/Chain.v ===== *)
(** * The audit chain

    What [append_event] and [verify_event_chain] of [repository.py] promise:
    concurrent appends never fork a chain, an append alone succeeds, and a
    chain that still verifies with the same length and last hash is the chain
    that was written, up to a SHA-256 collision -- provided no field contains
    the separator, which the hashed text does not escape. *)
From S2P Require Import Prelude Sha256 Json Errors Schemas Ledger Reverse Actions Approval Tables Text Coroutines World Repository Guarantee Metrics Idempotency Observability.
Import Sha256 Json Errors Actions Approval Tables World Effects Logic Pool Repository Guarantee.

Module Chain.

(** ** Verification *)

(** [verify_event_chain] accepts exactly the chains whose hashes are linked. *)
Fixpoint hash_linked (prev : string) (l : list CaseEventRow) : Prop :=
  match l with
  | [] => True
  | r :: l =>
      ev_prev_hash r = prev /\
      ev_event_hash r = hash_event prev (ev_case_id r) (ev_event_type r) (ev_actor r)
                          (ev_run_id r) (ev_trace_id r) (ev_metadata r) /\
      hash_linked (ev_event_hash r) l
  end.

Lemma first_broken_none prev i l : first_broken prev i l = None <-> hash_linked prev l.
Proof.
  revert prev i. induction l as [|r l IH]; intros prev i; simpl; [done|].
  destruct (String.eqb_spec (ev_prev_hash r) prev) as [E|E]; simpl; [|naive_solver].
  destruct (String.eqb_spec (ev_event_hash r) (hash_event prev (ev_case_id r) (ev_event_type r)
    (ev_actor r) (ev_run_id r) (ev_trace_id r) (ev_metadata r))) as [E'|E']; simpl;
    [rewrite IH|]; naive_solver.
Qed.

Lemma verify_valid l : valid (verify_rows l) = true <-> hash_linked "" l.
Proof. unfold verify_rows. simpl. rewrite bool_decide_eq_true. apply first_broken_none. Qed.

Lemma linked_hashes prev n l : linked prev n l -> hash_linked prev l.
Proof.
  revert prev n. induction l as [|r l IH]; intros prev n; simpl; [done|].
  intros (_&?&?&?). split_and!; eauto.
Qed.

Lemma linked_numbers prev n l : linked prev n l -> map ev_seq l = seqZ n (Z.of_nat (length l)).
Proof.
  revert prev n. induction l as [|r l IH]; intros prev n C; [done|].
  destruct C as (E&_&_&C). simpl map. rewrite (IH _ _ C), E.
  rewrite length_cons, Nat2Z.inj_succ, (seqZ_cons n) by lia. f_equal. f_equal; lia.
Qed.

(** The reported index is that of the first event whose link is wrong. *)
Lemma first_broken_some prev i l k :
  first_broken prev i l = Some k ->
  exists l1 r l2, l = l1 ++ r :: l2 /\ k = i + Z.of_nat (length l1) /\ hash_linked prev l1 /\
    ~ hash_linked (last_hash prev l1) [r].
Proof.
  revert prev i. induction l as [|r l IH]; intros prev i; simpl; [done|].
  destruct (_ || _) eqn:B.
  - intros [= <-]. exists [], r, l. simpl. split_and!; [done|lia|done|].
    unfold last_hash. simpl. intros (E1&E2&_).
    apply String.eqb_eq in E1. apply String.eqb_eq in E2. rewrite E1, E2 in B. done.
  - intros H. apply orb_false_iff in B as [B1 B2]. bprop.
    destruct (IH _ _ H) as (l1&x&l2&->&->&L&N). exists (r :: l1), x, l2.
    rewrite last_hash_cons. split_and!; [done|simpl; lia|simpl; by split_and!|done].
Qed.

(** ** The hashed text *)

Definition no_colon (s : string) : bool := all_chars (fun c => negb (Ascii.eqb c ":")) s.

Lemma field_split a b r r' :
  no_colon a = true -> no_colon b = true -> a +:+ (":" +:+ r) = b +:+ (":" +:+ r') ->
  a = b /\ r = r'.
Proof.
  intros Ha Hb E. destruct (span_inj _ a b (":" +:+ r) (":" +:+ r') Ha Hb eq_refl eq_refl E) as [-> E'].
  split; [done|]. by injection E'.
Qed.

Lemma all_chars_app f s t : all_chars f (s +:+ t) = all_chars f s && all_chars f t.
Proof. induction s as [|c s IH]; [done|]. rewrite sapp_cons. simpl. by rewrite IH, andb_assoc. Qed.

Lemma hex_digit_no_colon n : 0 <= n < 16 -> Ascii.eqb (hex_digit n) ":" = false.
Proof.
  intros H. destruct n as [|p|p]; [done| |lia].
  do 4 (destruct p as [p|p|]; try done; try lia).
Qed.

Lemma hex32_no_colon w : no_colon (hex32 w) = true.
Proof.
  unfold hex32, no_colon. generalize [7; 6; 5; 4; 3; 2; 1; 0]. intros l.
  induction l as [|i l IH]; [done|]. cbn [foldr all_chars].
  rewrite IH, hex_digit_no_colon; [done|]. change 15 with (Z.ones 4).
  rewrite Z.land_ones by lia. apply Z.mod_pos_bound. lia.
Qed.

Lemma sha256_no_colon s : no_colon (sha256 s) = true.
Proof.
  unfold sha256. cbv zeta. set (l := blocks _ _ _). clearbody l.
  induction l as [|w l IH]; [done|]. cbn [foldr]. unfold no_colon in *.
  rewrite all_chars_app. apply andb_true_iff. split; [apply hex32_no_colon|done].
Qed.

(** The audited content of an event; a missing run or trace id is hashed as
    the empty text. *)
Definition same_content (r r' : CaseEventRow) : Prop :=
  ev_case_id r = ev_case_id r' /\ ev_event_type r = ev_event_type r' /\
  ev_actor r = ev_actor r' /\ default "" (ev_run_id r) = default "" (ev_run_id r') /\
  default "" (ev_trace_id r) = default "" (ev_trace_id r') /\
  same_value (JObj (ev_metadata r)) (JObj (ev_metadata r')) /\
  ev_prev_hash r = ev_prev_hash r' /\ ev_event_hash r = ev_event_hash r'.

(** No field contains the separator, and the metadata is a dictionary. *)
Definition clean (r : CaseEventRow) : Prop :=
  no_colon (ev_case_id r) = true /\ no_colon (ev_event_type r) = true /\
  no_colon (ev_actor r) = true /\ no_colon (default "" (ev_run_id r)) = true /\
  no_colon (default "" (ev_trace_id r)) = true /\ jwf (JObj (ev_metadata r)) = true.

Definition row_payload (r : CaseEventRow) : string :=
  event_payload (ev_prev_hash r) (ev_case_id r) (ev_event_type r) (ev_actor r)
    (ev_run_id r) (ev_trace_id r) (ev_metadata r).

Lemma payload_inj r r' :
  clean r -> clean r' -> no_colon (ev_prev_hash r) = true -> no_colon (ev_prev_hash r') = true ->
  ev_event_hash r = ev_event_hash r' -> row_payload r = row_payload r' -> same_content r r'.
Proof.
  intros (?&?&?&?&?&?) (?&?&?&?&?&?) Hp Hp' Hh E. unfold row_payload, event_payload in E.
  apply field_split in E as [E1 E]; [|done..]. apply field_split in E as [E2 E]; [|done..].
  apply field_split in E as [E3 E]; [|done..]. apply field_split in E as [E4 E]; [|done..].
  apply field_split in E as [E5 E]; [|done..]. apply field_split in E as [E6 E]; [|done..].
  apply dumps_inj in E; [|done..]. by split_and!.
Qed.

Lemma hash_linked_app prev l r :
  hash_linked prev (l ++ [r]) <->
  hash_linked prev l /\ ev_prev_hash r = last_hash prev l /\
  ev_event_hash r = hash_event (last_hash prev l) (ev_case_id r) (ev_event_type r) (ev_actor r)
                      (ev_run_id r) (ev_trace_id r) (ev_metadata r).
Proof.
  revert prev. induction l as [|x l IH]; intros prev; simpl.
  - unfold last_hash. simpl. naive_solver.
  - rewrite IH, last_hash_cons. naive_solver.
Qed.

Lemma last_hash_no_colon l : hash_linked "" l -> no_colon (last_hash "" l) = true.
Proof.
  induction l as [|r l _] using rev_ind; [done|]. intros (_&_&E)%hash_linked_app.
  unfold last_hash. rewrite last_snoc. rewrite E. apply sha256_no_colon.
Qed.

(** ** Properties *)

(** C11: the audit chain is tamper evident.  If a stored chain still verifies,
    has as many events as the chain that was written and ends in the same
    hash, then every event is as it was written -- case, type, actor, run,
    trace, metadata and links -- or the two histories contain a SHA-256
    collision; provided the fields are free of the separator ':'. *)
Theorem chain_tamper_evident written stored
    (Hw : valid (verify_rows written) = true) (Hs : valid (verify_rows stored) = true)
    (Hlen : length written = length stored)
    (Hlast : last_hash "" written = last_hash "" stored)
    (Cw : Forall clean written) (Cs : Forall clean stored) :
  Forall2 same_content written stored \/
  exists r r', r ∈ written /\ r' ∈ stored /\ collision (row_payload r) (row_payload r').
Proof.
  apply verify_valid in Hw, Hs. revert stored Hs Hlen Hlast Cs.
  induction written as [|r written IH] using rev_ind; intros stored Hs Hlen Hlast Cs.
  { destruct stored; [left; constructor|done]. }
  destruct stored as [|r' stored _] using rev_ind.
  { rewrite length_app in Hlen. simpl in Hlen. lia. }
  rewrite !length_app in Hlen. simpl in Hlen.
  apply hash_linked_app in Hw as (Hw&Pw&Ew), Hs as (Hs&Ps&Es).
  apply Forall_app in Cw as [Cw Cr], Cs as [Cs Cr']. rewrite Forall_singleton in Cr, Cr'.
  unfold last_hash in Hlast. rewrite !last_snoc in Hlast.
  assert (sha256 (row_payload r) = sha256 (row_payload r')) as E.
  { unfold row_payload. rewrite Pw, Ps. unfold hash_event in Ew, Es. congruence. }
  apply sha256_eq_or_collision in E as [E|E].
  - apply payload_inj in E; [|done|done|rewrite Pw; by apply last_hash_no_colon
      |rewrite Ps; by apply last_hash_no_colon|done].
    pose proof E as (_&_&_&_&_&_&Ep&_). rewrite Pw, Ps in Ep.
    destruct (IH Hw Cw stored Hs) as [F|(x&x'&Hx&Hx'&C)]; [lia|done|done| |].
    + left. by apply Forall2_app; [|constructor].
    + right. exists x, x'. split_and!; [apply elem_of_app; by left|apply elem_of_app; by left|done].
  - right. exists r, r'. split_and!; [apply elem_of_app; right; by left..|done].
Qed.

Definition demo_event (actor : string) (run_id trace_id : option string) : NewEvent :=
  {| e_case_id := "case-1"; e_actor := actor; e_event_type := "approval_granted";
     e_run_id := run_id; e_trace_id := trace_id; e_metadata := [("action_id", JStr "a1")] |}.

Definition demo_chain : list CaseEventRow :=
  let r1 := new_event_row "e1" (demo_event "sup" None (Some "t1")) None 0 in
  [r1; new_event_row "e2" (demo_event "sup" (Some "r1") None) (Some r1) 1].

Lemma chain_tamper_evident_witness :
  valid (verify_rows demo_chain) = true /\
  (Forall2 same_content demo_chain demo_chain \/
   exists r r', r ∈ demo_chain /\ r' ∈ demo_chain /\ collision (row_payload r) (row_payload r')).
Proof.
  assert (valid (verify_rows demo_chain) = true) as V by (vm_compute; reflexivity).
  assert (Forall clean demo_chain) as C.
  { repeat (constructor; [repeat split|]). constructor. }
  split; [exact V|]. exact (chain_tamper_evident demo_chain demo_chain V V eq_refl eq_refl C C).
Defined.

(** The separator is not escaped.  Two different events, with different
    actors and run ids, have the same hashed text, so either can replace the
    other in a chain that still verifies: the hypothesis of the tamper-evidence theorem on the
    separator cannot be dropped. *)
Theorem audit_separator_ambiguous :
  let r := new_event_row "e1" (demo_event "alice:r1" (Some "r2") (Some "t")) None 0 in
  let r' := new_event_row "e1" (demo_event "alice" (Some "r1:r2") (Some "t")) None 0 in
  valid (verify_rows [r]) = true /\ valid (verify_rows [r']) = true /\
  ev_event_hash r = ev_event_hash r' /\ ev_actor r <> ev_actor r' /\ ev_run_id r <> ev_run_id r'.
Proof.
  cbv zeta. split; [vm_compute; reflexivity|]. split; [vm_compute; reflexivity|].
  split; [vm_compute; reflexivity|]. by split.
Qed.

(** Time passes. *)
Definition ticks (s s' : Shared) : Prop := exists t, clock s <= t /\ s' = set_clock s t.

Lemma ticks_allowed roles_of sanctioned s s' :
  system_inv roles_of sanctioned s -> ticks s s' ->
  system_inv roles_of sanctioned s' /\ system_rely roles_of s s'.
Proof.
  intros I (t&T&->). split; [by destruct I|]. split; simpl; [apply db_rely_refl|apply ledger_rely_refl|done].
Qed.

Definition appends (m : M CaseEventRow) : Prop := exists e u, m = append_event e u.

(** Concurrent appends never fork a chain.  Start any number of
    [append_event] calls, on any cases, at any time, and let the event loop
    interleave their segments in any order: at every moment every chain of
    every case verifies and is numbered 1, 2, 3, ..., and extends what it was. *)
Theorem appends_never_fork roles_of s0 p
    (Hinv : system_inv roles_of (fun _ _ _ => True) s0)
    (Hrun : rtc (pool_step appends ticks) {| state := s0; threads := [] |} p) cid :
  let c := chain_of (db (state p)) cid in
  valid (verify_rows c) = true /\ map ev_seq c = seqZ 1 (Z.of_nat (length c)) /\
  chain_of (db s0) cid `prefix_of` c.
Proof.
  cbv zeta.
  destruct (pool_sound (system roles_of (fun _ _ _ => True)) appends ticks) with (3 := Hrun) as [[I _] R].
  - intros m (e&u&->). eapply triple_post; [apply append_event_triple|]. by intros [r|x].
  - apply ticks_allowed.
  - split; [done|]. by intros c ?%not_elem_of_nil.
  - simpl in *. destruct I as [_ C _ _ _]. specialize (C cid). split_and!.
    + by eapply verify_valid, linked_hashes.
    + by eapply linked_numbers.
    + apply R.
Qed.

Definition demo_case_row : ServiceCaseRow :=
  {| c_id := "case-1"; c_user_id := "u"; c_thread_id := None; c_order_id := Some "ORDER-1";
     c_issue_type := None; c_status := "decided"; c_complaint_text := "";
     c_customer_expectation := None; c_next_step := ""; c_reply_draft := "";
     c_evidence_json := []; c_decision_json := []; c_version := 1; c_created_at := 0;
     c_updated_at := 0 |}.

Definition demo_shared : Shared :=
  {| db := {| cases := [demo_case_row]; actions := []; events := [] |};
     refunds := Ledger.new_executor ∅;
     outbounds := {| ReverseExecution.outbound := ∅; ReverseExecution.inventory := None |};
     metrics := Metrics.empty_metrics; idem := Idempotency.demo_store;
     audits := {| ToolAudit.tr_rows := []; ToolAudit.tr_next_id := 1 |};
     clock := 0; uuids := fun n => "uuid-" +:+ pretty n; next_uuid := 0; locks := [] |}.

Lemma demo_shared_inv roles_of : system_inv roles_of (fun _ _ _ => True) demo_shared.
Proof.
  split; [by split_and!|by intros cid|by intros a ?%not_elem_of_nil|done|done].
Qed.

(** Two appends in lock step: both read an empty chain, one commits, the other
    loses the race for number 1, retries and commits number 2. *)
Definition demo_race : Pool CaseEventRow :=
  schedule [0; 1; 0; 1; 0; 1; 0; 1; 1; 1; 1; 1; 1; 1]%nat
    (start (append_event (demo_event "bob" None None) "u")
      (start (append_event (demo_event "alice" None None) "u")
        {| state := demo_shared; threads := [] |})).

Lemma appends_never_fork_witness :
  map ev_actor (chain_of (db (state demo_race)) "case-1") = ["alice"; "bob"] /\
  Forall (fun c => exists row, c = Done (Ok row)) (threads demo_race) /\
  valid (verify_rows (chain_of (db (state demo_race)) "case-1")) = true.
Proof.
  split; [vm_compute; reflexivity|]. split.
  - vm_compute. repeat (constructor; [eexists; reflexivity|]). constructor.
  - destruct (appends_never_fork (fun _ => []) demo_shared demo_race (demo_shared_inv _)) with (cid := "case-1")
      as [V _]; [|exact V].
    eapply rtc_l; [apply start_step; eexists _, _; reflexivity|].
    eapply rtc_l; [apply start_step; eexists _, _; reflexivity|].
    apply schedule_steps.
Defined.

(** An append that meets no interference succeeds at its first attempt.
    For an owned case and an unused event id, [append_event] run alone returns
    the new event, which is the chain's next link with the given content; the
    other chains, the cases and the actions are untouched. *)
Theorem append_event_alone roles_of s e u
    (Hinv : system_inv roles_of (fun _ _ _ => True) s)
    (Hown : case_owner (db s) (e_case_id e) (Some u) = true)
    (Hid : uuids s (next_uuid s) ∉ map ev_id (events (db s))) :
  let row := new_event_row (uuids s (next_uuid s)) e (last (chain_of (db s) (e_case_id e))) (clock s) in
  exists s', run (append_event e u) s = Some (Ok row, s') /\
  cases (db s') = cases (db s) /\ actions (db s') = actions (db s) /\
  forall cid, chain_of (db s') cid
    = chain_of (db s) cid ++ (if bool_decide (e_case_id e = cid) then [row] else []).
Proof.
  destruct Hinv as [Id Ic _ _ _]. cbv zeta.
  set (row := new_event_row _ _ _ _).
  assert (insert_event row (db s) = (Ok tt, with_events (db s) (events (db s) ++ [row]))) as E.
  { unfold insert_event. unfold case_owner in Hown.
    assert (case_exists (db s) (ev_case_id row) = true) as ->.
    { destruct (select_case (db s) (e_case_id e)) as [c|] eqn:Ec; [|done].
      apply select_case_some in Ec as [Ec1 Ec2]. apply existsb_exists. exists c.
      split; [by apply list_elem_of_In|]. simpl. by apply String.eqb_eq. }
    assert (events_ok (events (db s) ++ [row]) = true) as ->; [|done].
    destruct (db_ok_parts _ Id) as (_&_&_&_&N1&N2). unfold events_ok.
    rewrite andb_true_iff, !bool_decide_eq_true, !map_app, !NoDup_app. simpl.
    split_and!; try done; try apply NoDup_singleton.
    - by intros x Hx ->%list_elem_of_singleton.
    - intros x Hx ->%list_elem_of_singleton. apply list_elem_of_fmap in Hx as (r&Er&Hr).
      injection Er as E1 E2. pose proof (Ic (e_case_id e)) as L.
      assert (r ∈ chain_of (db s) (e_case_id e)) as Hc by (by apply chain_elem).
      pose proof (linked_seq _ _ _ _ L Hc) as B.
      destruct (last (chain_of (db s) (e_case_id e))) as [x|] eqn:El.
      + pose proof (linked_last_seq _ _ _ _ L El). lia.
      + apply last_None in El. rewrite El in Hc. by apply not_elem_of_nil in Hc. }
  assert (chains_ok (insert_event row (db s)).2 /\ forall cid, chain_of (insert_event row (db s)).2 cid
    = chain_of (db s) cid ++ (if bool_decide (e_case_id e = cid) then [row] else [])) as [_ X].
  { eapply insert_event_links; [done|done|done|reflexivity|by rewrite E]. }
  rewrite E in X. simpl in X.
  unfold append_event. simpl append_loop. autorewrite with run.
  unfold append_attempt. autorewrite with run. rewrite Hown. simpl negb. cbv iota.
  autorewrite with run. simpl. fold row. rewrite E. simpl. eexists. by split_and!.
Qed.

Lemma append_event_alone_witness :
  exists s', run (append_event (demo_event "alice" None None) "u") demo_shared
    = Some (Ok (new_event_row "uuid-0" (demo_event "alice" None None) None 0), s') /\
  cases (db s') = [demo_case_row].
Proof.
  destruct (append_event_alone (fun _ => []) demo_shared (demo_event "alice" None None) "u"
    (demo_shared_inv _) eq_refl) as (s'&H1&H2&_); [apply not_elem_of_nil|].
  exists s'. split; [exact H1|exact H2].
Defined.

End Chain.
