(* ===== verification/Operations.v ===== *)
(** * Case and action operations

    [operations.py]: what the HTTP endpoints and the agent tools do with a case
    and its action -- intake, continuation, action creation and execution -- as
    programs over the repository, the refund ledger and the outbound adapter. *)
From S2P Require Import Prelude Json Errors Schemas Ledger Reverse Actions Codec Tables Text Workflow Intake Coroutines World Repository.
Import Json Errors Actions Tables World Effects Repository Intake MockData.

Module Operations.

Definition attribute_error : exn := Exn (Subclass "AttributeError" ExceptionC) "get".

(** [a or b] on optional texts *)
Definition or_text (a b : option string) : option string := if absent a then b else a.

(** [d[k1][k2] = v], where [d[k1]] is a dictionary. *)
Definition set_in (k1 k2 : string) (v : json) (d : dict) : dict :=
  match get k1 d with
  | Some (JObj inner) => set_key k1 (JObj (set_key k2 v inner)) d
  | _ => d
  end.

(** The use of [d.get(k, {})] as a dictionary *)
Definition sub_dict (k : string) (d : dict) : result dict :=
  match get k d with
  | None => Ok []
  | Some (JObj inner) => Ok inner
  | Some _ => Raise attribute_error
  end.

Definition jfield (k : string) (d : dict) : json := default JNull (get k d).

Definition jtext (j : json) : option string := match j with JStr s => Some s | _ => None end.
Definition jflag (j : json) : option bool := match j with JBool b => Some b | _ => None end.

(** ** create_intake_case *)

Record IntakeCall := {
  ic_user_id : string;
  ic_user_role : option string;
  ic_complaint_text : string;
  ic_thread_id : option string;
  ic_order_id : option string;
  ic_issue_type : option string;
  ic_customer_expectation : option string;
  ic_run_id : option string;
  ic_trace_id : option string;
  ic_structured_source : string
}.

Section intake.
Context `{UnicodeClasses}.

(** The order, issue and expectation a case is opened with: a model's own
structured fields are ignored in favour of what the text says. *)
Definition intake_fields (c : IntakeCall) : option string * option string * option string :=
let x := extract_intake (ic_complaint_text c) in
if (ic_structured_source c =? "model")%string then
(x_order_id x, x_issue_type x, x_expectation x)
else
(or_text (ic_order_id c) (x_order_id x),
 or_text (normalize_issue_type (ic_issue_type c)) (x_issue_type x),
 if bool_decide (ic_customer_expectation c ∈ [Some "refund"; Some "replacement"])
 then ic_customer_expectation c else x_expectation x).

Definition intake_inputs (c : IntakeCall) : IntakeInputs :=
let '(o, i, x) := intake_fields c in
{| i_complaint_text := ic_complaint_text c; i_order_id := o; i_issue_type := i;
 i_customer_expectation := x;
 i_operator_refund_limit := resolve_operator_refund_limit (ic_user_role c);
 i_visual_evidence_confirmed := false; i_damage_level := None; i_serial_matches := None;
 i_revision := 1 |}.

Definition create_intake_case (c : IntakeCall) : M ServiceCaseRow :=
let i := intake_inputs c in
let! now := datetime_now in
let! evaluated := lift (evaluate_intake i now) in
let evidence := set_in "intake" "structured_source" (JStr (ic_structured_source c))
                (r_evidence evaluated) in
let! case := create_case
{| n_user_id := ic_user_id c; n_thread_id := ic_thread_id c; n_order_id := i_order_id i;
   n_issue_type := i_issue_type i; n_evidence := evidence; n_decision := r_decision evaluated;
   n_complaint_text := ic_complaint_text c;
   n_customer_expectation := i_customer_expectation i; n_status := r_status evaluated;
   n_next_step := r_next_step evaluated; n_reply_draft := r_reply_draft evaluated |} in
let! _e := append_event
{| e_case_id := c_id case; e_actor := ic_user_id c; e_event_type := "intake_created";
   e_run_id := ic_run_id c; e_trace_id := ic_trace_id c;
   e_metadata := [("thread_id", jopt (ic_thread_id c)); ("missing", jfield "missing" evidence)] |}
(ic_user_id c) in
match r_decision evaluated with
| [] => ret case
| _ :: _ =>
  let! _e := append_event
    {| e_case_id := c_id case; e_actor := ic_user_id c; e_event_type := "decision_generated";
       e_run_id := ic_run_id c; e_trace_id := ic_trace_id c;
       e_metadata := [("evidence_revision", jfield "revision" evidence)] |}
    (ic_user_id c) in
  ret case
end.
End intake.

(** ** continue_intake_case *)

Record Supplement := {
  su_actor_id : string;
  su_user_role : option string;
  su_note : string;
  su_complaint_text : option string;
  su_order_id : option string;
  su_issue_type : option string;
  su_customer_expectation : option string;
  su_visual_evidence_confirmed : option bool;
  su_damage_level : option string;
  su_serial_matches : option bool;
  su_run_id : option string;
  su_trace_id : option string;
  su_clear_fields : list string
}.

(** [None if name in clear_fields else new or old] *)
Definition merged (su : Supplement) (name : string) (new old : option string) : option string :=
  if bool_decide (name ∈ su_clear_fields su) then None else or_text new old.

(** [int(evidence.get("revision", 1)) + 1] *)
Definition next_revision (evidence : dict) : result Z :=
  match get "revision" evidence with
  | None => Ok 2
  | Some (JInt z) => Ok (z + 1)
  | Some _ => Raise (Exn TypeError "revision")
  end.

Definition supplement_inputs (su : Supplement) (case : ServiceCaseRow) : result IntakeInputs :=
  intake <-? sub_dict "intake" (c_evidence_json case) ;;
  rev <-? next_revision (c_evidence_json case) ;;
  Ok {| i_complaint_text := default "" (or_text (su_complaint_text su) (Some (c_complaint_text case)));
        i_order_id := merged su "order_id" (su_order_id su) (c_order_id case);
        i_issue_type := merged su "issue_type" (su_issue_type su) (c_issue_type case);
        i_customer_expectation := merged su "customer_expectation" (su_customer_expectation su)
                                    (c_customer_expectation case);
        i_operator_refund_limit := resolve_operator_refund_limit (su_user_role su);
        i_visual_evidence_confirmed :=
          match su_visual_evidence_confirmed su with
          | Some b => b
          | None => truthy (jfield "visual_evidence_confirmed" intake)
          end;
        i_damage_level := or_text (su_damage_level su) (jtext (jfield "damage_level" intake));
        i_serial_matches := match su_serial_matches su with
                            | Some b => Some b
                            | None => jflag (jfield "serial_matches" intake)
                            end;
        i_revision := rev |}.

(** The reservations of the invalidated actions go back to the order the case
    had before the supplement. *)
Definition release_invalidated (order_id : option string) (actor_id : string) (a : ActionRequest)
  : M unit :=
  if (action_type a =? "refund")%string && act_reserved a then
    let! amount := lift (amount_of (payload a)) in
    do! modify (fun s => set_refunds s (Ledger.release (refunds s) (default "" order_id) amount)) ;;
    let! _saved := save_action (copy_version (copy_reserved a false) (version a + 1)) (Some actor_id)
                     (version a) in
    ret tt
  else ret tt.

Definition invalidation_reason : string := "案件信息已更新，原方案失效".

Definition continue_intake_case (su : Supplement) (case : ServiceCaseRow) : M ServiceCaseRow :=
  let! i := lift (supplement_inputs su case) in
  let! now := datetime_now in
  let! evaluated := lift (evaluate_intake i now) in
  let! invalidated := invalidate_active_actions (c_id case) (su_actor_id su) invalidation_reason in
  do! for_each invalidated (release_invalidated (c_order_id case) (su_actor_id su)) ;;
  let! case := update_case (c_id case) (su_actor_id su) (c_version case)
    (fun c => set_progress (r_status evaluated) (r_next_step evaluated)
                (set_reply (r_reply_draft evaluated)
                   (set_intake (i_complaint_text i) (i_order_id i) (i_issue_type i)
                      (i_customer_expectation i) (r_evidence evaluated) (r_decision evaluated) c))) in
  let! _e := append_event
    {| e_case_id := c_id case; e_actor := su_actor_id su; e_event_type := "evidence_supplemented";
       e_run_id := su_run_id su; e_trace_id := su_trace_id su;
       e_metadata := [("note", JStr (su_note su));
                      ("evidence_revision", jfield "revision" (r_evidence evaluated))] |}
    (su_actor_id su) in
  let! _e := append_event
    {| e_case_id := c_id case; e_actor := su_actor_id su; e_event_type := "case_reassessed";
       e_run_id := su_run_id su; e_trace_id := su_trace_id su;
       e_metadata := [("status", JStr (r_status evaluated));
                      ("invalidated_actions", Codec.strings (map act_id invalidated))] |}
    (su_actor_id su) in
  ret case.

(** ** create_case_action *)

(** The action a decided case asks for, before it is reserved or stored. *)
Definition requested_action (case : ServiceCaseRow) (actor_id new_id : string) (now : Z)
  : result ActionRequest :=
  ensure raise_if (negb (c_status case =? "decided")%string || bool_decide (c_decision_json case = []))
                  (Exn ActionConflict "case is not ready for an action") ;;
  let d := c_decision_json case in
  match (if bool_decide (jtext (jfield "route" d) = Some "reverse") then jfield "reverse" d
         else JNull) with
  | JObj r =>
      ensure raise_if (negb (bool_decide (jtext (jfield "action" r) = Some "resend_without_return")))
                      (Exn ValueError "this reverse plan requires manual fulfillment") ;;
      order <-? of_option (lookup (default "" (c_order_id case)) ORDERS)
                  (Exn ValueError "order is unavailable") ;;
      sku <-? text_item "sku" order ;;
      cost <-? of_option (get "estimated_resolution_cost" r)
                 (Exn KeyError "estimated_resolution_cost") ;;
      cost <-? Codec.as_int "estimated_cost" cost ;;
      Ok (create_resend_action new_id (c_id case) (default "" (c_order_id case)) sku actor_id cost
            now day)
  | JNull =>
      decision <-? Codec.decision_of d ;;
      create_refund_action new_id (c_id case) (default "" (c_order_id case)) actor_id decision
        now day
  | _ => Raise attribute_error
  end.

Definition reserve_funds (order_id : option string) (amount : Z) : M bool :=
  atomic (fun s => let '(b, e) := Ledger.reserve (refunds s) (default "" order_id) amount in
                   (Ok b, set_refunds s e)).

Definition release_funds (order_id : option string) (amount : Z) : M unit :=
  modify (fun s => set_refunds s (Ledger.release (refunds s) (default "" order_id) amount)).

(** [except Exception: <undo>; raise] *)
Definition on_failure {A} (m : M A) (undo : M unit) : M A :=
  catch m (fun e => if isinstance (class_of e) ExceptionC then do! undo ;; raise e else raise e).

Definition is_refund (a : ActionRequest) : bool := (action_type a =? "refund")%string.

Definition create_case_action (case : ServiceCaseRow) (actor_id : string) : M ActionRequest :=
  let! now := datetime_now in
  let! new_id := uuid4 in
  let! action := lift (requested_action case actor_id new_id now) in
  let! action :=
    if is_refund action && bool_decide (status action = APPROVED) then
      let! amount := lift (amount_of (payload action)) in
      let! reserved := reserve_funds (c_order_id case) amount in
      if reserved then ret (copy_reserved action true)
      else raise (Exn ActionConflict "insufficient available balance to fund this refund")
    else ret action in
  let! saved := on_failure (create_action action actor_id)
    (if is_refund action && act_reserved action then
       let! amount := lift (amount_of (payload action)) in release_funds (c_order_id case) amount
     else ret tt) in
  let! _case := update_case (c_id case) actor_id (c_version case)
    (set_progress (status_value (status saved))
       (if bool_decide (status saved = PENDING_APPROVAL) then "supervisor_review"
        else "execute_action")) in
  ret saved.

(** ** execute_case_action *)

Definition perform_refund (a : ActionRequest) (order_id : option string) (submitted : dict)
    (expected_version : Z) : M ActionRequest :=
  atomic (fun s =>
    let '(r, e) := execute_approved_action a submitted expected_version
                     (Ledger.reserved_of (refunds s) (default "" order_id)) (refunds s) (clock s) in
    (u <-? r ;; Ok (copy_reserved u false), set_refunds s e)).

Definition perform_resend (a : ActionRequest) (submitted : dict) (expected_version : Z)
  : M ActionRequest :=
  atomic (fun s =>
    let '(r, e) := execute_approved_resend a submitted expected_version (outbounds s) (clock s) in
    (r, set_outbounds s e)).

(** f-string of an optional text *)
Definition shown (o : option string) : string := default "None" o.

Definition execute_case_action (a : ActionRequest) (case : ServiceCaseRow) (submitted : dict)
    (expected_version : Z) : M ActionRequest :=
  let resend := (action_type a =? "resend")%string in
  let! updated := if resend then perform_resend a submitted expected_version
                  else perform_refund a (c_order_id case) submitted expected_version in
  let! saved := save_action updated None expected_version in
  let! _case := update_case (c_id case) (c_user_id case) (c_version case)
    (fun c => set_reply
       (if resend then "补发已安排，出库凭证：" +:+ shown (external_transaction_id saved) +:+ "。"
        else "退款已提交至原支付渠道，当前处理中，凭证：" +:+ shown (external_transaction_id saved) +:+ "。")
       (set_progress (if resend then "completed" else "execution_processing")
          (if resend then "done" else "await_payment_confirmation") c)) in
  ret saved.

End Operations.
