(* ===== verification/Tools.v ===== *)
(** * The agent's tools

    [tools.py]: the tools that give the agent the case operations and the
    read-only views of the dataset.  A tool answers with a JSON value (the
    source returns its text); errors of the operations become error values. *)
From S2P Require Import Prelude Json Errors Schemas Reverse Actions Text Codec Tables Workflow Intake Coroutines World Repository Guardrail Operations.
Import Json Errors Actions Tables World Effects Repository MockData Operations.

Module Tools.

Definition error_json (kvs : list (string * string)) : json :=
  JObj (map (fun kv => (kv.1, JStr kv.2)) kvs).

(** ** Views of the dataset *)

Definition _lookup (records : list (string * dict)) (key error field : string) : json :=
  match lookup key records with
  | Some record => JObj record
  | None => error_json [("error", error); (field, key)]
  end.

Definition get_order_context_tool (order_id : string) : json :=
  _lookup ORDERS order_id "ORDER_NOT_FOUND" "order_id".
Definition get_payment_context_tool (order_id : string) : json :=
  _lookup PAYMENTS order_id "PAYMENT_NOT_FOUND" "order_id".
Definition get_logistics_evidence_tool (order_id : string) : json :=
  _lookup LOGISTICS order_id "LOGISTICS_NOT_FOUND" "order_id".
Definition get_customer_risk_context_tool (customer_id : string) : json :=
  _lookup CUSTOMER_RISK customer_id "CUSTOMER_NOT_FOUND" "customer_id".
Definition get_policy_snapshot_tool (region : string) : json :=
  _lookup POLICIES region "POLICY_NOT_FOUND" "region".

(** A view keyed by the sku of an order. *)
Definition lookup_sku (records : list (string * dict)) (error order_id : string) : result json :=
  match lookup order_id ORDERS with
  | None => Ok (error_json [("error", "ORDER_NOT_FOUND"); ("order_id", order_id)])
  | Some order => sku <-? text_item "sku" order ;; Ok (_lookup records sku error "sku")
  end.

Definition get_replacement_inventory_tool : string -> result json :=
  lookup_sku INVENTORY "INVENTORY_NOT_FOUND".
Definition get_reverse_fulfillment_costs_tool : string -> result json :=
  lookup_sku REVERSE_COSTS "REVERSE_COST_NOT_FOUND".

(** ** Evaluations *)

Definition checked_reverse (c : Reverse.ReverseInput) : result Reverse.ReverseInput :=
  if Reverse.reverse_input_valid c then Ok c else Raise (Exn ValidationError "ReverseInput").

Definition evaluate_reverse_fulfillment_tool (order_id issue_type customer_preference damage_level : string)
    (human_confirmed : bool) (serial_matches : option bool) : result json :=
  match lookup order_id ORDERS, lookup order_id PAYMENTS with
  | Some order, Some payment =>
      sku <-? text_item "sku" order ;;
      match lookup sku INVENTORY, lookup sku REVERSE_COSTS with
      | Some inventory, Some costs =>
          issue <-? Schemas.issue_of_value issue_type ;;
          item <-? Workflow.item_int "item_paid" order ;;
          bal <-? Workflow.item_int "refundable_balance" payment ;;
          rs <-? Workflow.item_int "return_shipping_cost" costs ;;
          hc <-? Workflow.item_int "handling_cost" costs ;;
          rv <-? Workflow.item_int "expected_recovery_value" costs ;;
          ru <-? Workflow.item_int "replacement_unit_cost" inventory ;;
          rp <-? Workflow.item_int "replacement_shipping_cost" costs ;;
          av <-? Workflow.item_int "available" inventory ;;
          pref <-? Workflow.preference_of_value customer_preference ;;
          dmg <-? Workflow.damage_of_value damage_level ;;
          case <-? checked_reverse
            {| Reverse.ri_issue_type := issue; Reverse.item_value := item;
               Reverse.ri_refund_amount := Z.min item bal; Reverse.return_shipping_cost := rs;
               Reverse.handling_cost := hc; Reverse.expected_recovery_value := rv;
               Reverse.replacement_unit_cost := ru; Reverse.replacement_shipping_cost := rp;
               Reverse.replacement_inventory := av; Reverse.customer_preference := pref;
               Reverse.visual_evidence :=
                 Some {| Reverse.damage_level := dmg; Reverse.serial_matches := serial_matches;
                         Reverse.human_confirmed := human_confirmed |} |} ;;
          Ok (JObj (Codec.reverse_json (Reverse.decide_reverse_fulfillment case)))
      | _, _ => Ok (error_json [("error", "REVERSE_CONTEXT_NOT_FOUND"); ("sku", sku)])
      end
  | _, _ => Ok (error_json [("error", "ORDER_OR_PAYMENT_NOT_FOUND"); ("order_id", order_id)])
  end.

(** [_json(d)] of an error dictionary or of the decision. *)
Definition evaluate_after_sales_case_tool (system_role : option string) (order_id issue_type : string)
    (visual_evidence_confirmed : bool) : result json :=
  match Intake.normalize_issue_type (Some issue_type) with
  | None => Ok (error_json [("error", "UNSUPPORTED_ISSUE_TYPE")])
  | Some issue =>
      evaluated <-? Workflow.evaluate_mock_case order_id issue
        (resolve_operator_refund_limit system_role) visual_evidence_confirmed ;;
      match evaluated with
      | inl error => Ok (JObj error)
      | inr (decision, _) =>
          Ok (JObj (Codec.decision_json decision ++
                    [("decision_source", JStr "deterministic_policy_engine")]))
      end
  end.

(** ** Tools on cases and actions

    [user]: the current user's id and role, when the context variable is set;
    [ctx]: the run's context; [current_trace]: the request's trace id. *)
Section tools.
Context `{Intake.UnicodeClasses} (persistent : bool) (user : option (string * string))
(ctx : Guardrail.Context) (current_trace : option string).

Definition _repository : result unit :=
if persistent then Ok tt else Raise (Exn RuntimeError "AfterFlow persistence is unavailable").

Definition get_effective_user_id : string := match user with Some u => u.1 | None => "default" end.

Definition resolve_runtime_user_id : string :=
if Intake.absent (Guardrail.ctx_user_id ctx) then get_effective_user_id
else default "" (Guardrail.ctx_user_id ctx).

Definition user_role : option string := or_text (option_map snd user) (Guardrail.ctx_user_role ctx).

(** The id of the current user, else that of the run. *)
Definition acting_user : string :=
match user with Some u => u.1 | None => default "" (Guardrail.ctx_user_id ctx) end.

Definition trace : option string := or_text (Guardrail.ctx_trace_id ctx) current_trace.

(** [_json(case)] writes instants with [str]. *)
Definition case_text (c : ServiceCaseRow) : json := JObj (Codec.case_dict Clock.str_naive c).

(** [try: m except classes as error: return {"error": code, "detail": str(error)}] *)
Definition reporting {A} (classes : list exn_class) (code : string) (m : M A) (k : A -> M json) : M json :=
let! outcome := catch (let! a := m in ret (inl a))
(fun e => if existsb (isinstance (class_of e)) classes
          then ret (inr (JObj [("error", JStr code); ("detail", message e)]))
          else raise e) in
match outcome with inl a => k a | inr error => ret error end.

Definition create_after_sales_case_tool (complaint_text : string)
(order_id issue_type customer_expectation : option string) : M json :=
do! lift _repository ;;
let! case := create_intake_case
{| ic_user_id := resolve_runtime_user_id; ic_user_role := user_role;
   ic_complaint_text := complaint_text; ic_thread_id := Guardrail.ctx_thread_id ctx;
   ic_order_id := order_id; ic_issue_type := issue_type;
   ic_customer_expectation := customer_expectation; ic_run_id := Guardrail.ctx_run_id ctx;
   ic_trace_id := trace; ic_structured_source := "model" |} in
ret (case_text case).

Definition case_not_found (case_id : string) : json :=
error_json [("error", "CASE_NOT_FOUND"); ("case_id", case_id)].

Definition update_after_sales_case_tool (case_id note : string)
(complaint_text order_id issue_type customer_expectation : option string) : M json :=
do! lift _repository ;;
let! found := get_case case_id (Some resolve_runtime_user_id) in
match found with
| None => ret (case_not_found case_id)
| Some case =>
  reporting [ValueError; ConcurrentActionError] "CASE_NOT_UPDATED"
    (continue_intake_case
       {| su_actor_id := resolve_runtime_user_id; su_user_role := user_role; su_note := note;
          su_complaint_text := complaint_text; su_order_id := order_id;
          su_issue_type := issue_type; su_customer_expectation := customer_expectation;
          su_visual_evidence_confirmed := None; su_damage_level := None;
          su_serial_matches := None; su_run_id := Guardrail.ctx_run_id ctx;
          su_trace_id := trace; su_clear_fields := [] |} case)
    (fun case => ret (case_text case))
end.

Definition subagent_forbidden : json := error_json [("error", "SUBAGENT_ACTION_FORBIDDEN")].

Definition create_after_sales_action_tool (case_id : string) : M json :=
if Guardrail.ctx_is_subagent ctx then ret subagent_forbidden
else if (acting_user =? "")%string then ret (error_json [("error", "AUTHENTICATION_REQUIRED")])
else
do! lift _repository ;;
let! found := get_case case_id (Some acting_user) in
match found with
| None => ret (case_not_found case_id)
| Some case =>
    reporting [ValueError; ConcurrentActionError] "ACTION_NOT_CREATED"
      (create_case_action case acting_user)
      (fun action =>
         let! _e := append_event
           {| e_case_id := case_id; e_actor := acting_user;
              e_event_type := if bool_decide (status action = PENDING_APPROVAL)
                              then "approval_requested" else "action_approved";
              e_run_id := Guardrail.ctx_run_id ctx; e_trace_id := trace;
              e_metadata := [("action_id", JStr (act_id action))] |}
           acting_user in
         ret (JObj (Codec.action_json action)))
end.

Definition payment_unavailable : json := error_json [("error", "PAYMENT_STATE_UNAVAILABLE")].

Definition execute_approved_action_tool (action_id : string) (expected_version : Z) (submitted : dict)
: M json :=
if Guardrail.ctx_is_subagent ctx then ret subagent_forbidden
else if negb (bool_decide (user_role = Some "admin")) || (acting_user =? "")%string
then ret (error_json [("error", "SUPERVISOR_REQUIRED")])
else
do! lift _repository ;;
let! found := get_action action_id None in
match found with
| None => ret (error_json [("error", "ACTION_NOT_FOUND"); ("action_id", action_id)])
| Some action =>
    let! found := get_case (act_case_id action) None in
    match found with
    | None => ret payment_unavailable
    | Some case =>
        if bool_decide (lookup (default "" (c_order_id case)) PAYMENTS = None)
        then ret payment_unavailable
        else
          reporting [ValueError; PermissionError; ConcurrentActionError] "ACTION_NOT_EXECUTED"
            (execute_case_action action case submitted expected_version)
            (fun updated =>
               let! _e := append_event
                 {| e_case_id := c_id case; e_actor := acting_user;
                    e_event_type := "execution_succeeded";
                    e_run_id := Guardrail.ctx_run_id ctx; e_trace_id := trace;
                    e_metadata := [("action_id", JStr action_id);
                                   ("transaction_id", jopt (external_transaction_id updated))] |}
                 (c_user_id case) in
               ret (JObj (Codec.action_json updated)))
    end
end.
End tools.

(** ** The reverse tool and the graph *)

Import Workflow.

Lemma item_str_text k d v : item_str k d = Ok v -> text_item k d = Ok v.
Proof. unfold item_str, text_item. by destruct (get k d) as [[]|]. Qed.

(** The graph reaches a reverse decision through the same data and the same
    constructors as the tool. *)
Lemma reverse_run i s r :
  run_case_evaluation i = Ok s -> s_reverse s = Some r ->
  exists o p sku inventory costs c rc,
    lookup (in_order_id i) ORDERS = Some o /\ lookup (in_order_id i) PAYMENTS = Some p /\
    text_item "sku" o = Ok sku /\ lookup sku INVENTORY = Some inventory /\
    lookup sku REVERSE_COSTS = Some costs /\
    item_int "item_paid" o = Ok (Schemas.item_paid (Schemas.order c)) /\
    item_int "refundable_balance" p = Ok (Schemas.refundable_balance (Schemas.payment c)) /\
    Schemas.issue_of_value (in_issue_type i) = Ok (Schemas.issue_type c) /\
    Schemas.decision_input_valid c = true /\
    reverse_context i c inventory costs (default "" (in_customer_preference i)) = Ok rc /\
    r = Reverse.decide_reverse_fulfillment rc.
Proof.
  unfold run_case_evaluation. intros H Hr. apply rbind_ok in H as (s0&B&H).
  apply rbind_ok in H as (route&_&H). pose proof B as S. apply build_context_spec in S as (_&R0&S).
  unfold _build_context in B.
  destruct (lookup (in_order_id i) ORDERS) as [o|] eqn:Eo; [|injection B as <-; injection H as <-; done].
  destruct (lookup (in_order_id i) PAYMENTS) as [p|] eqn:Ep; [|injection B as <-; injection H as <-; done].
  apply rbind_ok in B as (region&_&B).
  destruct (lookup region POLICIES) as [pd|]; [|injection B as <-; injection H as <-; done].
  apply rbind_ok in B as (cust&_&B). apply rbind_ok in B as (sku&Hs&B).
  apply rbind_ok in B as (issue&Hi&B). apply rbind_ok in B as (oc&Ho&B).
  apply rbind_ok in B as (bal&Hb&B). apply rbind_ok in B as (lg&_&B).
  apply rbind_ok in B as (cr&_&B). apply rbind_ok in B as (pol&_&B).
  apply rbind_ok in B as (c&Hc&B). injection B as <-. cbn [s_case] in H.
  unfold checked_input in Hc. destruct (Schemas.decision_input_valid _) eqn:V; [|done].
  injection Hc as <-.
  destruct (route =? "reverse")%string; [|destruct (route =? "refund")%string; by injection H as <-].
  unfold _decide_reverse in H. simpl in H.
  destruct (lookup sku INVENTORY) as [inv|] eqn:Ei; simpl in H;
    [|apply rbind_ok in H as (?&_&H); by injection H as <-].
  destruct (lookup sku REVERSE_COSTS) as [costs|] eqn:Ec; simpl in H;
    [|apply rbind_ok in H as (?&_&H); by injection H as <-].
  apply rbind_ok in H as (rc&Hrc&H). injection H as <-. injection Hr as <-.
  match type of V with Schemas.decision_input_valid ?c = true => exists o, p, sku, inv, costs, c, rc end.
  split_and!; try done; [by apply item_str_text|].
  apply rbind_ok in Ho as (?&_&Ho). apply rbind_ok in Ho as (?&?&Ho).
  apply rbind_ok in Ho as (?&_&Ho). by injection Ho as <-.
Qed.

(** The dataset has no negative quantity. *)
Definition natural (d : dict) : bool :=
  forallb (fun kv => match kv.2 with JInt z => 0 <=? z | _ => true end) d.

Lemma natural_item k d z : natural d = true -> item_int k d = Ok z -> 0 <= z.
Proof.
  unfold item_int, get, natural. rewrite forallb_forall. intros H E.
  destruct (List.find _ d) as [[k' v]|] eqn:F; simpl in E; [|done].
  apply find_some in F as [F _]. specialize (H _ F). simpl in H. destruct v; try done.
  injection E as <-. by apply Z.leb_le.
Qed.

Lemma natural_row k (l : list (string * dict)) d :
  forallb (fun kv => natural kv.2) l = true -> lookup k l = Some d -> natural d = true.
Proof.
  unfold lookup. rewrite forallb_forall. intros H E.
  destruct (List.find _ l) as [kv|] eqn:F; simpl in E; [|done]. injection E as <-.
  apply find_some in F as [F _]. by apply (H kv).
Qed.

Lemma costs_valid sku inventory costs i c pref rc :
  lookup sku INVENTORY = Some inventory -> lookup sku REVERSE_COSTS = Some costs ->
  Schemas.decision_input_valid c = true ->
  reverse_context i c inventory costs pref = Ok rc -> Reverse.reverse_input_valid rc = true.
Proof.
  intros Ei%natural_row Ec%natural_row V E; [|done..].
  unfold Schemas.decision_input_valid, Schemas.order_valid, Schemas.payment_valid in V. bprop.
  unfold reverse_context in E.
  apply rbind_ok in E as (?&?%natural_item&E); [|done]. apply rbind_ok in E as (?&?%natural_item&E); [|done].
  apply rbind_ok in E as (?&?%natural_item&E); [|done]. apply rbind_ok in E as (?&?%natural_item&E); [|done].
  apply rbind_ok in E as (?&?%natural_item&E); [|done]. apply rbind_ok in E as (?&?%natural_item&E); [|done].
  apply rbind_ok in E as (?&_&E). apply rbind_ok in E as (?&_&E). injection E as <-.
  unfold Reverse.reverse_input_valid. simpl. rewrite !andb_true_iff, !Z.leb_le. lia.
Qed.

(** The agent's tool and the graph agree.  Whenever the case graph takes a
    reverse decision, the tool called with the same order, issue, preference,
    damage, confirmation and serial check answers with that decision, whatever
    the operator's limit or the intake say. *)
Theorem reverse_tool_agrees i s r (H : run_case_evaluation i = Ok s) (Hr : s_reverse s = Some r) :
  evaluate_reverse_fulfillment_tool (in_order_id i) (in_issue_type i)
    (default "" (in_customer_preference i)) (or_else (in_damage_level i) "none")
    (default false (in_human_confirmed i)) (in_serial_matches i)
  = Ok (JObj (Codec.reverse_json r)).
Proof.
  destruct (reverse_run i s r H Hr) as (o&p&sku&inv&costs&c&rc&Eo&Ep&Es&Ei&Ec&Hi&Hb&Hiss&V&E&->).
  pose proof (costs_valid _ _ _ _ _ _ _ Ei Ec V E) as Rv.
  unfold evaluate_reverse_fulfillment_tool. rewrite Eo, Ep, Es. simpl. rewrite Ei, Ec, Hiss, Hi, Hb.
  unfold reverse_context in E. repeat (apply rbind_ok in E as (?&->&E)). injection E as <-.
  simpl. unfold checked_reverse. by rewrite Rv.
Qed.

Lemma reverse_tool_agrees_witness :
  match run_case_evaluation (demo_inputs "ORDER-1003" "quality_issue" (Some "replacement")) with
  | Ok s => match s_reverse s with
            | Some r => evaluate_reverse_fulfillment_tool "ORDER-1003" "quality_issue" "replacement"
                          "minor" true None = Ok (JObj (Codec.reverse_json r))
            | None => False
            end
  | Raise _ => False
  end.
Proof.
  destruct (run_case_evaluation _) as [s|e] eqn:E; [|vm_compute in E; discriminate E].
  destruct (s_reverse s) as [r|] eqn:R.
  - apply (reverse_tool_agrees _ _ _ E R).
  - vm_compute in E. injection E as <-. discriminate R.
Defined.

End Tools.
