(* ===== verification/Router.v ===== *)
(** * The HTTP endpoints

    [app/gateway/routers/after_sales.py]: authentication, the Idempotency-Key
    wrapper and the endpoints for cases, approvals and executions.  A request
    arrives with its authenticated user, its Idempotency-Key header, its trace
    id and a body the framework has validated. *)
From S2P Require Import Prelude Json Errors Schemas Ledger Reverse Actions Idempotency Codec Tables Text Workflow Intake Coroutines World Repository Operations.
Import Idempotency Json Errors Actions Tables World Effects Repository MockData Operations.

Module Router.

Record User := { user_id : string; system_role : string }.

Record Request := {
  req_user : option User;
  idempotency_header : option string;
  req_trace_id : option string
}.

(** What the lifespan has put on [app.state]. *)
Record App := { repo_wired : bool; store_wired : bool }.

(** ** Request bodies *)

Record CaseCreateRequest := {
  cc_order_id : string;
  cc_issue_type : Schemas.IssueType;
  cc_visual_evidence_confirmed : bool;
  cc_thread_id : option string
}.

Record CaseIntakeRequest := {
  ci_complaint_text : string;
  ci_thread_id : option string;
  ci_order_id : option string;
  ci_issue_type : option Schemas.IssueType;
  ci_customer_expectation : option string
}.

(** [cs_explicit]: the fields the client has set ([model_fields_set]). *)
Record CaseSupplementRequest := {
  cs_complaint_text : option string;
  cs_order_id : option string;
  cs_issue_type : option Schemas.IssueType;
  cs_customer_expectation : option string;
  cs_visual_evidence_confirmed : option bool;
  cs_damage_level : option string;
  cs_serial_matches : option bool;
  cs_note : string;
  cs_explicit : list string
}.

Record ApprovalRequest := { ap_expected_version : Z; ap_comment : option string }.
Record RejectionRequest := { rj_expected_version : Z; rj_comment : string }.
Record ExecutionRequest := { ex_expected_version : Z; ex_payload : dict }.

(** [model_dump()] *)
Definition issue_json (i : option Schemas.IssueType) : json := jopt (option_map Schemas.issue_value i).

Definition create_body (b : CaseCreateRequest) : dict :=
  [("order_id", JStr (cc_order_id b)); ("issue_type", JStr (Schemas.issue_value (cc_issue_type b)));
   ("visual_evidence_confirmed", JBool (cc_visual_evidence_confirmed b));
   ("thread_id", jopt (cc_thread_id b))].

Definition intake_body (b : CaseIntakeRequest) : dict :=
  [("complaint_text", JStr (ci_complaint_text b)); ("thread_id", jopt (ci_thread_id b));
   ("order_id", jopt (ci_order_id b)); ("issue_type", issue_json (ci_issue_type b));
   ("customer_expectation", jopt (ci_customer_expectation b))].

Definition supplement_body (case_id : string) (b : CaseSupplementRequest) : dict :=
  [("case_id", JStr case_id); ("complaint_text", jopt (cs_complaint_text b));
   ("order_id", jopt (cs_order_id b)); ("issue_type", issue_json (cs_issue_type b));
   ("customer_expectation", jopt (cs_customer_expectation b));
   ("visual_evidence_confirmed", Intake.jbool (cs_visual_evidence_confirmed b));
   ("damage_level", jopt (cs_damage_level b));
   ("serial_matches", Intake.jbool (cs_serial_matches b)); ("note", JStr (cs_note b))].

(** The fields a supplement clears: set by the client, and to null. *)
Definition clear_fields (b : CaseSupplementRequest) : list string :=
  let null {A} (name : string) (o : option A) :=
    if bool_decide (name ∈ cs_explicit b) then match o with None => [name] | Some _ => [] end else [] in
  null "order_id" (cs_order_id b) ++ null "issue_type" (cs_issue_type b) ++
  null "customer_expectation" (cs_customer_expectation b).

(** ** Errors *)

(** [_raise_action_error]: what an error becomes. *)
Definition _raise_action_error (e : exn) : exn :=
  if isinstance (class_of e) ActionForbidden then HTTPError 403 (message e)
  else if isinstance (class_of e) ActionConflict || isinstance (class_of e) ConcurrentActionError
  then HTTPError 409 (message e)
  else if isinstance (class_of e) ValueError then HTTPError 422 (message e)
  else e.

(** [try: m except classes as error: _raise_action_error(error)] *)
Definition translating {A} (classes : list exn_class) (m : M A) : M A :=
  catch m (fun e => if existsb (isinstance (class_of e)) classes then raise (_raise_action_error e)
                    else raise e).

Definition action_errors : list exn_class :=
  [ActionConflict; ActionForbidden; ConcurrentActionError; ValueError].

Definition http {A} (code : Z) (detail : string) : result A := Raise (HTTPError code (JStr detail)).

Section endpoints.
Context `{Intake.UnicodeClasses} (app : App) (req : Request).

Definition _repo : result unit :=
if repo_wired app then Ok tt else http 503 "AfterFlow persistence is unavailable".

(** The user's id and role. *)
Definition _actor : result (string * string) :=
match req_user req with
| None => http 401 "Authentication required"
| Some u => Ok (user_id u, system_role u)
end.

Definition _require_admin : result string :=
who <-? _actor ;;
if (who.2 =? "admin")%string then Ok who.1 else http 403 "After-sales supervisor role required".

Definition trace := req_trace_id req.

(** ** The Idempotency-Key *)

(** The lookup: the store's statements, under the lock of the key. *)
Definition idem_apply (key endpoint : string) (body : dict) : M Idempotency.IdempotencyOutcome :=
do! await ;;
atomic (fun s => let '(r, i) := Idempotency.apply_idempotency (idem s) (Some key) endpoint body (clock s) in
               (r, set_idem s i)).

Definition idem_record (key endpoint : string) (body : dict) (response : json) (status_code : Z) : M unit :=
let! now := datetime_now in
do! await ;;
modify (fun s => set_idem s (Idempotency.store (idem s) key endpoint body response status_code now)).

Definition scoped_endpoint (who : string * string) (endpoint : string) : string :=
who.1 +:+ ":" +:+ who.2 +:+ ":" +:+ endpoint.

Definition _idem_replay_or_run (endpoint : string) (body : dict) (run : M json) (response_status : Z)
: M json :=
let! who := lift _actor in
let key := default "" (idempotency_header req) in
if negb (store_wired app) || (key =? "")%string then run
else
let endpoint := scoped_endpoint who endpoint in
with_lock (key, endpoint)
  (let! outcome := catch (idem_apply key endpoint body)
     (fun e => if isinstance (class_of e) IdempotencyConflict
               then do! inc_metrics "idempotency_total" [("result", "conflict")] ;;
                    raise (HTTPError 422 (message e))
               else raise e) in
   if Idempotency.replay outcome then
     do! inc_metrics "idempotency_total" [("result", "hit")] ;;
     ret (default JNull (Idempotency.cached_response outcome))
   else
     do! inc_metrics "idempotency_total" [("result", "miss")] ;;
     let! response := run in
     do! idem_record key endpoint body response response_status ;;
     ret response).

(** ** Cases *)

Definition _aggregate_case (case : ServiceCaseRow) (owner : string) : M json :=
let! acts := list_case_actions (c_id case) owner in
let! evs := list_events (c_id case) owner in
ret (JObj (Codec.case_json case ++
         [("actions", JList (map (fun a => JObj (Codec.action_json a)) acts));
          ("events", JList (map (fun e => JObj (Codec.event_json e)) evs))])).

Definition not_found {A} (o : option A) (what : string) : result A :=
of_option o (HTTPError 404 (JStr what)).

Definition list_cases : M json :=
let! who := lift _actor in
do! lift _repo ;;
let! l := Repository.list_cases who.1 100 in
ret (JList (map (fun c => JObj (Codec.case_json c)) l)).

Definition intake_case (b : CaseIntakeRequest) : M json :=
_idem_replay_or_run "/api/after-sales/cases/intake" (intake_body b)
(let! who := lift _actor in
 do! lift _repo ;;
 let! case := create_intake_case
   {| ic_user_id := who.1; ic_user_role := Some who.2; ic_complaint_text := ci_complaint_text b;
      ic_thread_id := ci_thread_id b; ic_order_id := ci_order_id b;
      ic_issue_type := option_map Schemas.issue_value (ci_issue_type b);
      ic_customer_expectation := ci_customer_expectation b; ic_run_id := None;
      ic_trace_id := trace; ic_structured_source := "trusted_ui" |} in
 ret (JObj (Codec.case_json case)))
201.

Definition create_case (b : CaseCreateRequest) : M json :=
_idem_replay_or_run "/api/after-sales/cases" (create_body b)
(let! who := lift _actor in
 let! evaluated := lift (Workflow.evaluate_mock_case (cc_order_id b)
   (Schemas.issue_value (cc_issue_type b)) (resolve_operator_refund_limit (Some who.2))
   (cc_visual_evidence_confirmed b)) in
 match evaluated with
 | inl error => raise (HTTPError 404 (JObj error))
 | inr (decision, evidence) =>
     do! inc_metrics "decisions_total"
           [("outcome", Schemas.eligibility_value (Schemas.eligibility decision))] ;;
     do! lift _repo ;;
     let! case := Repository.create_case
       {| n_user_id := who.1; n_thread_id := cc_thread_id b; n_order_id := Some (cc_order_id b);
          n_issue_type := Some (Schemas.issue_value (cc_issue_type b)); n_evidence := evidence;
          n_decision := Codec.decision_json decision; n_complaint_text := "";
          n_customer_expectation := None; n_status := "decided";
          n_next_step := "review_decision"; n_reply_draft := "" |} in
     let! _e := append_event
       {| e_case_id := c_id case; e_actor := who.1; e_event_type := "decision_generated";
          e_run_id := None; e_trace_id := trace;
          e_metadata := [("policy_refs", Codec.strings (Schemas.policy_refs decision))] |}
       who.1 in
     ret (JObj (Codec.case_json case))
 end)
201.

Definition get_case (case_id : string) : M json :=
let! who := lift _actor in
do! lift _repo ;;
let! found := Repository.get_case case_id (if (who.2 =? "admin")%string then None else Some who.1) in
let! case := lift (not_found found "Case not found") in
_aggregate_case case (c_user_id case).

Definition supplement_of (who : string * string) (b : CaseSupplementRequest) : Supplement :=
{| su_actor_id := who.1; su_user_role := Some who.2; su_note := cs_note b;
 su_complaint_text := cs_complaint_text b; su_order_id := cs_order_id b;
 su_issue_type := option_map Schemas.issue_value (cs_issue_type b);
 su_customer_expectation := cs_customer_expectation b;
 su_visual_evidence_confirmed := cs_visual_evidence_confirmed b;
 su_damage_level := cs_damage_level b; su_serial_matches := cs_serial_matches b;
 su_run_id := None; su_trace_id := trace; su_clear_fields := clear_fields b |}.

Definition supplement_case (case_id : string) (b : CaseSupplementRequest) : M json :=
_idem_replay_or_run ("/api/after-sales/cases/" +:+ case_id +:+ "/supplements")
(supplement_body case_id b)
(let! who := lift _actor in
 do! lift _repo ;;
 let! found := Repository.get_case case_id (Some who.1) in
 let! case := lift (not_found found "Case not found") in
 let! case := continue_intake_case (supplement_of who b) case in
 _aggregate_case case who.1)
200.

Definition create_action (case_id : string) : M json :=
_idem_replay_or_run ("/api/after-sales/cases/" +:+ case_id +:+ "/actions")
[("case_id", JStr case_id)]
(let! who := lift _actor in
 do! lift _repo ;;
 let! found := Repository.get_case case_id (Some who.1) in
 let! case := lift (not_found found "Case not found") in
 let! action := translating [ValueError; ConcurrentActionError]
                  (create_case_action case who.1) in
 do! inc_metrics "actions_created_total" [("status", status_value (status action))] ;;
 let! _e := append_event
   {| e_case_id := case_id; e_actor := who.1;
      e_event_type := if bool_decide (status action = PENDING_APPROVAL)
                      then "approval_requested" else "action_approved";
      e_run_id := None; e_trace_id := trace;
      e_metadata := [("action_id", JStr (act_id action))] |}
   who.1 in
 ret (JObj (Codec.action_json action)))
201.

(** ** Approval and execution *)

(** [_admin_action]: the acting user, the action and its case. *)
Definition _admin_action (action_id : string) : M ((string * string) * ActionRequest * ServiceCaseRow) :=
let! who := lift _actor in
if negb (who.2 =? "admin")%string then lift (http 403 "After-sales supervisor role required") else
do! lift _repo ;;
let! found := get_action action_id None in
let! action := lift (not_found found "Action not found") in
let! found := Repository.get_case (act_case_id action) None in
let! case := lift (not_found found "Case not found") in
ret (who, action, case).

Definition fund_needed (a : ActionRequest) : bool := is_refund a && negb (act_reserved a).

(** The part of [approve] between reading the action and saving it: no await,
so one segment. *)
Definition approve_and_reserve (who : string * string) (a : ActionRequest) (case : ServiceCaseRow)
(b : ApprovalRequest) : M ActionRequest :=
do! (if fund_needed a then
     let! e := gets refunds in
     lift (o <-? payload_order_id (payload a) ;; amount <-? amount_of (payload a) ;;
           check_balance_before_approve e o amount)
   else ret tt) ;;
let! now := datetime_now in
let! updated := lift (approve_action a who.1 [who.2] (ap_expected_version b) now (ap_comment b) None) in
if fund_needed a then
let! amount := lift (amount_of (payload updated)) in
let! funded := reserve_funds (c_order_id case) amount in
if funded then ret (copy_reserved updated true)
else lift (http 409 "Insufficient available balance to fund this refund")
else ret updated.

Definition approve (action_id : string) (b : ApprovalRequest) : M json :=
_idem_replay_or_run ("/api/after-sales/actions/" +:+ action_id +:+ "/approve")
[("action_id", JStr action_id); ("expected_version", JInt (ap_expected_version b));
 ("comment", jopt (ap_comment b))]
(let! got := _admin_action action_id in
 let '(who, action, case) := got in
 let! updated := translating action_errors
   (let! updated := approve_and_reserve who action case b in
    on_failure (save_action updated None (ap_expected_version b))
      (if is_refund action && act_reserved updated then
         let! amount := lift (amount_of (payload updated)) in release_funds (c_order_id case) amount
       else ret tt)) in
 do! inc_metrics "approvals_total" [("decision", "granted")] ;;
 let! _e := append_event
   {| e_case_id := c_id case; e_actor := who.1; e_event_type := "approval_granted";
      e_run_id := None; e_trace_id := trace; e_metadata := [("action_id", JStr action_id)] |}
   (c_user_id case) in
 let! _case := update_case (c_id case) (c_user_id case) (c_version case)
   (set_progress (status_value (status updated))
      (if bool_decide (status updated = APPROVED) then "execute_action"
       else "additional_approval")) in
 ret (JObj (Codec.action_json updated)))
200.

Fixpoint repeat_m (n : nat) (m : M unit) : M unit :=
match n with O => ret tt | S n => do! m ;; repeat_m n m end.

Definition list_actions (action_status : option string) : M json :=
let! _admin := lift _require_admin in
do! lift _repo ;;
let! released := release_expired_reservations None in
do! repeat_m (Z.to_nat released) (inc_metrics "reservation_reaped_total" []) ;;
let! rows := list_actions_with_cases action_status 100 in
ret (JList (map (fun ac => JObj (Codec.action_json ac.1 ++ [("case", JObj (Codec.case_json ac.2))]))
              rows)).

Definition rejection_reply : string := "处理方案未获批准，客服将根据审批意见继续处理。".

Definition reject (action_id : string) (b : RejectionRequest) : M json :=
_idem_replay_or_run ("/api/after-sales/actions/" +:+ action_id +:+ "/reject")
[("action_id", JStr action_id); ("expected_version", JInt (rj_expected_version b));
 ("comment", JStr (rj_comment b))]
(let! got := _admin_action action_id in
 let '(who, action, case) := got in
 let! updated := translating action_errors
   (let! now := datetime_now in
    let! updated := lift (reject_action action who.1 [who.2] (rj_expected_version b)
                            (rj_comment b) now) in
    let! updated :=
      if is_refund action && act_reserved action then
        let! amount := lift (amount_of (payload updated)) in
        do! release_funds (c_order_id case) amount ;;
        ret (copy_reserved updated false)
      else ret updated in
    save_action updated None (rj_expected_version b)) in
 do! inc_metrics "approvals_total" [("decision", "rejected")] ;;
 let! _e := append_event
   {| e_case_id := c_id case; e_actor := who.1; e_event_type := "approval_rejected";
      e_run_id := None; e_trace_id := trace;
      e_metadata := [("action_id", JStr action_id); ("comment", JStr (rj_comment b))] |}
   (c_user_id case) in
 let! _case := update_case (c_id case) (c_user_id case) (c_version case)
   (fun c => set_reply rejection_reply (set_progress "rejected" "operator_review" c)) in
 ret (JObj (Codec.action_json updated)))
200.

Definition execute (action_id : string) (b : ExecutionRequest) : M json :=
_idem_replay_or_run ("/api/after-sales/actions/" +:+ action_id +:+ "/execute")
[("action_id", JStr action_id); ("expected_version", JInt (ex_expected_version b));
 ("payload", JObj (ex_payload b))]
(let! got := _admin_action action_id in
 let '(who, action, case) := got in
 let! updated := translating action_errors
   (execute_case_action action case (ex_payload b) (ex_expected_version b)) in
 do! inc_metrics "executions_total" [("outcome", "succeeded")] ;;
 let! _e := append_event
   {| e_case_id := c_id case; e_actor := who.1; e_event_type := "execution_succeeded";
      e_run_id := None; e_trace_id := trace;
      e_metadata := [("action_id", JStr action_id);
                     ("transaction_id", jopt (external_transaction_id updated))] |}
   (c_user_id case) in
 ret (JObj (Codec.action_json updated ++
            (if is_refund action then
               [("refund_status", JStr "processing");
                ("refund_channel", JStr Ledger.REFUND_CHANNEL);
                ("refund_eta_hours", JInt Ledger.REFUND_ETA_HOURS)]
             else []))))
200.

End endpoints.

End Router.
