(* ===== verification/System.v ===== *)
(** * The whole service under interference

    The operations, the endpoints and the agent's tools keep the protocol of
    [Guarantee]: whatever requests of whatever users and agents are in flight,
    interleaved at every await, each segment of each of them leaves the
    invariant in place.  From this follow
    the properties of every state the service can reach. *)
From S2P Require Import Prelude Sha256 Json Errors Schemas Decision Ledger Reverse Actions Approval Idempotency Codec Tables Text Workflow Intake Metrics Coroutines World Repository Guardrail Guarantee Chain Operations Tools Router.
Import Json Errors Schemas Actions Approval Tables World Effects Logic Repository Guarantee Chain Operations Tools Router.

Module System.

(** A refund that needs no human: within the limit, below the policy's review
    and high-value amounts, on a claim with no decisive signal and a low score. *)
Record needs_nobody (c : DecisionInput) (amount : Z) : Prop := {
  nn_limit : amount <= operator_refund_limit c;
  nn_review : amount < manual_review_amount (policy c);
  nn_high : amount < high_value_amount (policy c);
  nn_claims : not_received_claims_180d (customer_risk c) < 2;
  nn_proof : ~ Intake.contradicted c;
  nn_score : risk_score (Decision.decide_resolution c) < 30
}.

(** One that two humans must sign. *)
Definition needs_two (c : DecisionInput) (amount : Z) : Prop :=
  (3 <= not_received_claims_180d (customer_risk c) \/ Intake.contradicted c) /\ 500000 <= amount.

(** What a case asks for, capped by what can be refunded. *)
Definition due (c : DecisionInput) : Z :=
  Z.min (item_paid (order c) + (if bool_decide (issue_type c ∈ refund_shipping_issues (policy c))
                                then shipping_paid (order c) else 0))
        (refundable_balance (Schemas.payment c)).

Lemma proof_conflict c : RiskScoring.pod_conflict (Decision.risk_signals_of c) = true <-> Intake.contradicted c.
Proof.
  unfold RiskScoring.pod_conflict, Intake.contradicted, Decision.has_pod. simpl. unfold Decision.has_pod.
  rewrite andb_true_iff, bool_decide_eq_true. destruct (Schemas.logistics c) as [l|]; [|naive_solver].
  split; [intros [? ?]; split; [done|by exists l]|]. by intros [? (?&[= <-]&?)].
Qed.

(** How an eligible decision was reached. *)
Lemma eligible_decision c : eligibility (Decision.decide_resolution c) ∈ [ELIGIBLE; ELIGIBLE_WITH_APPROVAL] ->
  let d := Decision.decide_resolution c in
  let a := RiskScoring.assess_risk (Decision.risk_signals_of c) (Decision.refund_of c)
             RiskScoring.DEFAULT_DUAL_APPROVAL_THRESHOLD in
  refund_amount d = due c /\ risk_tier d = RiskScoring.tier a /\ risk_score d = RiskScoring.score a /\
  (approval_required d = false -> Decision.approval_reasons_of c a = []).
Proof.
  unfold Decision.decide_resolution, Decision.rejected. cbv zeta.
  destruct (negb (bool_decide (issue_type c ∈ _))); simpl; [set_solver|].
  destruct (negb (bool_decide (Decision._missing_evidence c = []))); simpl; [set_solver|].
  destruct (refundable_balance (Schemas.payment c) =? 0); simpl; [set_solver|]. intros _.
  split_and!; [done..|]. by intros ?%negb_false_iff%bool_decide_eq_true.
Qed.

Lemma unapproved_needs_nobody c : eligibility (Decision.decide_resolution c) ∈ [ELIGIBLE; ELIGIBLE_WITH_APPROVAL] ->
  approval_required (Decision.decide_resolution c) = false -> needs_nobody c (due c).
Proof.
  intros (_&_&S&R)%eligible_decision A. specialize (R A). apply Decision.approval_reasons_nil in R as (R1&R2&_&R3).
  apply RiskScoring.risk_scorecard_tiers in R3 as (T1&T2&T3&T4&T5). cbv zeta in S. rewrite <-S in T3.
  unfold RiskScoring.repeat_claimant in T1. simpl in T1, T4, T5. bprop.
  change (Decision.refund_of c) with (due c) in *. split; [done..|lia| |done].
  intros X%proof_conflict. congruence.
Qed.

Lemma two_are_needed c : eligibility (Decision.decide_resolution c) ∈ [ELIGIBLE; ELIGIBLE_WITH_APPROVAL] ->
  needs_two c (due c) -> risk_tier (Decision.decide_resolution c) = FOUR_EYES.
Proof.
  intros (_&T&_&_)%eligible_decision [K A]. rewrite T.
  pose proof (RiskScoring.risk_scorecard_tiers (Decision.risk_signals_of c) (Decision.refund_of c)
    RiskScoring.DEFAULT_DUAL_APPROVAL_THRESHOLD) as (_&_&_&X). apply X.
  change (Decision.refund_of c) with (due c). split; [|done].
  destruct K as [K|K]; [left|right; left; by apply proof_conflict].
  by apply Z.leb_le.
Qed.

(** The limit of a role. *)
Lemma role_limit role :
  MockData.resolve_operator_refund_limit role = if bool_decide (role = Some "admin") then 1000000 else 20000.
Proof.
  destruct role as [r|]; [|done]. unfold MockData.resolve_operator_refund_limit, MockData.lookup, MockData.ROLE_REFUND_LIMITS.
  change (default "" (Some r)) with r. cbn [List.find fst].
  destruct (String.eqb_spec "user" r) as [<-|]; [done|]. destruct (String.eqb_spec "admin" r) as [<-|N]; [done|].
  rewrite bool_decide_eq_false_2; [done|congruence].
Qed.

Section sanctioned.
(** [vouched u role]: a request or a run on behalf of [u] may carry [role]. *)
Context (vouched : string -> option string -> Prop).

(** What the stored decision of a case can be: nothing yet, a reverse plan, or
    the resolution of its order's context under the limit of a role that its
    owner has. *)
Definition sanctioned (owner : string) (oid : option string) (j : dict) : Prop :=
  j = [] \/ (exists rc, j = Intake.reverse_decision (Reverse.decide_reverse_fulfillment rc)) \/
  exists i c role, vouched owner role /\ Workflow.in_order_id i = default "" oid /\ Workflow.context_of i c /\
    Workflow.in_operator_refund_limit i = MockData.resolve_operator_refund_limit role /\
    j = Codec.decision_json (Decision.decide_resolution c).

Lemma intake_sanctioned i owner role now r :
  vouched owner role ->
  Intake.i_operator_refund_limit i = MockData.resolve_operator_refund_limit role ->
  Intake.evaluate_intake i now = Ok r -> sanctioned owner (Intake.i_order_id i) (Intake.r_decision r).
Proof.
  intros V L H. apply Intake.evaluate_intake_outcome in H as [_ _ D|c _ C _ D _|c rc _ _ _ _ D _];
    rewrite D; [by left| |by right; left; eexists].
  right; right. exists (Intake.case_inputs i), c, role. by split_and!.
Qed.

Lemma mock_case_sanctioned owner o issue role visual d evidence :
  vouched owner role ->
  Workflow.evaluate_mock_case o issue (MockData.resolve_operator_refund_limit role) visual
    = Ok (inr (d, evidence)) -> sanctioned owner (Some o) (Codec.decision_json d).
Proof.
  unfold Workflow.evaluate_mock_case. intros V H. apply rbind_ok in H as (s&Hs&H).
  apply Workflow.case_evaluation_cases in Hs.
  destruct (Workflow.s_error s); [done|]. destruct (Workflow.s_decision s) as [d'|]; [|done].
  injection H as <- _. destruct Hs as (c&C&_&[(_&[= ->]&_)|(_&rc&_&E&_)]); [|done].
  right; right. eexists _, c, role. split_and!; [exact V| |exact C|done|done]. done.
Qed.

(** A decision read back from a case is the resolution that was stored. *)
Lemma sanctioned_decision owner o j d :
  sanctioned owner o j -> Codec.decision_of j = Ok d ->
  exists i c role, vouched owner role /\ Workflow.in_order_id i = default "" o /\ Workflow.context_of i c /\
    Workflow.in_operator_refund_limit i = MockData.resolve_operator_refund_limit role /\
    d = Decision.decide_resolution c.
Proof.
  intros [->|[(rc&->)|(i&c&role&V&Ho&C&L&->)]] H; [done|done|].
  rewrite Codec.decision_read in H.
  - injection H as <-. by exists i, c, role.
  - destruct C as (?&?&?&?&C). by apply Decision.decide_resolution_valid, (Workflow.ctx_valid _ _ _ _ _ _ C).
Qed.
End sanctioned.

Section safety.
Context `{Intake.UnicodeClasses} (roles_of : string -> list string).
Context (vouched : string -> option string -> Prop).
Hypothesis roles_vouched : forall u role, role ∈ roles_of u -> vouched u (Some role).

Notation sanctioned := (sanctioned vouched).
Notation fitting := (fitting sanctioned).
Notation step := (lifecycle_step roles_of).
Notation protocol := (system roles_of sanctioned).
Notation triple := (triple protocol).
Notation top := (fun _ : Shared => True).
Notation past_action := (past_action roles_of).
Notation lawful := (lawful roles_of sanctioned).

Lemma now_triple P : triple P datetime_now (on_ok (fun _ => P)).
Proof. by apply triple_gets_ok. Qed.

Lemma metric_triple P name labels :
stable protocol P -> triple P (inc_metrics name labels) (on_ok (fun _ => P)).
Proof.
intros St. eapply triple_post; [apply (local_triple _ _ P _ (fun _ => True)); [done| |done]|].
- intros s _ _. simpl. split_and!; [done|done|apply ledger_keeps_refl].
- by intros [a|e] s _ Q; [destruct Q|].
Qed.

Lemma on_failure_triple {A} P (m : M A) (undo : M unit) Q :
triple P m (on_ok Q) -> triple top undo (on_ok (fun _ => top)) ->
triple P (on_failure m undo) (on_ok Q).
Proof.
intros T U. apply triple_catch_fail; [done|]. intros e. apply triple_if; intros _; [|apply triple_fail].
eapply triple_seq_any; [exact U|]. intros _. apply triple_fail.
Qed.

Lemma release_triple o a :
lawful a ->
triple top (let! amount := lift (amount_of (payload a)) in release_funds o amount)
  (on_ok (fun _ => top)).
Proof.
intros L. eapply (triple_seq_ok _ _ _ _ (fun z _ => 0 <= z)).
{ apply triple_lift_ok. intros z s E _ _. by eapply (lawful_amount roles_of sanctioned). }
intros z. apply triple_given_only. intros N.
apply (ledger_triple _ _ top (Ledger.OpRelease (default "" o) z) z); [apply stable_pure|done..].
Qed.

Lemma lawful_step a u : lawful a -> rtc step a u -> lawful u.
Proof. intros (a0&C&S) S'. exists a0. split; [done|]. by transitivity a. Qed.

(** ** The operations *)

Lemma create_intake_case_triple c :
vouched (ic_user_id c) (ic_user_role c) -> triple top (create_intake_case c) (on_ok (fun _ => top)).
Proof.
intros V. unfold create_intake_case. eapply triple_seq_any; [apply now_triple|]. intros now.
eapply (triple_seq_ok _ _ _ _ (fun ev _ => sanctioned (ic_user_id c) (Intake.i_order_id (intake_inputs c)) (Intake.r_decision ev))).
{ apply triple_lift_ok. intros ev s E _ _. eapply (intake_sanctioned _ _ _ (ic_user_role c)); [exact V| |exact E].
  unfold intake_inputs. by destruct (intake_fields c) as [[??]?]. }
intros ev. apply triple_given_only. intros Sn.
eapply triple_seq_any; [by apply create_case_triple|]. intros case.
eapply triple_seq_any; [apply append_event_triple|]. intros _.
destruct (Intake.r_decision ev); [by apply triple_ret_ok|].
eapply triple_seq_any; [apply append_event_triple|]. intros _. by apply triple_ret_ok.
Qed.

Lemma release_invalidated_triple o u a :
triple (past_action a) (release_invalidated o u a) (on_ok (fun _ => top)).
Proof.
unfold release_invalidated. apply triple_if; intros _; [|by apply triple_ret_ok].
eapply (triple_seq_ok _ _ _ _ (fun z s => 0 <= z /\ past_action a s)).
{ apply triple_lift_ok. intros z s E I Pa. split; [|done]. by eapply (past_amount roles_of sanctioned). }
intros z. apply triple_given. intros N. eapply (triple_seq_ok _ _ _ _ (fun _ => past_action a)).
{ apply (ledger_triple _ _ _ (Ledger.OpRelease (default "" o) z) z); [apply past_action_stable|done..]. }
intros []. eapply triple_seq_ok; [apply (save_action_triple roles_of sanctioned a)|].
- apply rtc_once, step_reserved. lia.
- done.
- intros saved. by apply triple_ret_ok.
Qed.

Lemma continue_intake_case_triple su case :
vouched (su_actor_id su) (su_user_role su) ->
triple top (continue_intake_case su case) (on_ok (fun _ => top)).
Proof.
intros V. unfold continue_intake_case.
eapply (triple_seq_ok _ _ _ _ (fun i _ => Intake.i_operator_refund_limit i
                               = MockData.resolve_operator_refund_limit (su_user_role su))).
{ apply triple_lift_ok. intros i s E _ _. unfold supplement_inputs in E.
  apply rbind_ok in E as (x&_&E). apply rbind_ok in E as (y&_&E). by injection E as <-. }
intros i. apply triple_given_only. intros L.
eapply triple_seq_any; [apply now_triple|]. intros now.
eapply (triple_seq_ok _ _ _ _ (fun ev _ => sanctioned (su_actor_id su) (Intake.i_order_id i) (Intake.r_decision ev))).
{ apply triple_lift_ok. intros ev s E _ _. by eapply intake_sanctioned. }
intros ev. apply triple_given_only. intros Sn.
eapply triple_seq_ok; [apply invalidate_triple|]. intros l.
eapply (triple_seq_ok _ _ _ _ (fun _ => top)).
{ eapply triple_top, triple_for_each.
  - apply stable_all. intros a. apply stable_impl, past_action_stable.
  - intros a Ha. eapply triple_pre; [apply release_invalidated_triple|]. intros s _ P. by apply P. }
intros u. eapply triple_seq_any; [apply update_case_triple; [done|]|].
{ intros c E _. unfold fitting. simpl. by rewrite E. }
intros c. eapply triple_seq_any; [apply append_event_triple|]. intros _.
eapply triple_seq_any; [apply append_event_triple|]. intros _. by apply triple_ret_ok.
Qed.

Lemma requested_action_created case actor nid now a :
fitting case -> c_user_id case = actor -> requested_action case actor nid now = Ok a ->
created sanctioned a.
Proof.
intros Sn <- E. unfold requested_action in E. apply ensure_ok in E as [_ E].
destruct (if bool_decide _ then _ else _) as [| | | | | |r]; try done.
- apply rbind_ok in E as (d&Hd&E). left. by eexists _, _, _, _, _, d, _, _.
- apply ensure_ok in E as [_ E]. apply rbind_ok in E as (o&_&E). apply rbind_ok in E as (sku&_&E).
  apply rbind_ok in E as (c&_&E). apply rbind_ok in E as (z&_&E). injection E as <-.
  right. by eexists _, _, _, _, _, _, _, _.
Qed.

Lemma reserve_funds_triple P o z :
0 <= z -> stable protocol P -> triple P (reserve_funds o z) (on_ok (fun _ => P)).
Proof.
intros N St. eapply triple_post; [apply (local_triple _ _ P _ (fun _ => True)); [done| |done]|].
- intros s _ _. pose proof (op_keeps (refunds s) (Ledger.OpReserve (default "" o) z) N) as K.
  simpl in K. destruct (Ledger.reserve _ _ _). by split_and!.
- by intros [a|e] s _ Q; [destruct Q|].
Qed.

Lemma create_case_action_triple case actor :
fitting case -> c_user_id case = actor ->
triple top (create_case_action case actor) (on_ok (fun _ => top)).
Proof.
intros Sn Ow. unfold create_case_action. eapply triple_seq_any; [apply now_triple|]. intros now.
eapply triple_seq_any; [apply uuid4_triple, stable_pure|]. intros nid.
eapply (triple_seq_ok _ _ _ _ (fun a _ => lawful a)).
{ apply triple_lift_ok. intros a s E _ _. exists a. split; [|done].
  by eapply requested_action_created. }
intros a0. apply triple_given_only. intros L0.
eapply (triple_seq_ok _ _ _ _ (fun a _ => lawful a)).
{ apply triple_if; intros _; [|by apply triple_ret_ok].
  eapply (triple_seq_ok _ _ _ _ (fun z _ => 0 <= z)).
  { apply triple_lift_ok. intros z s E _ _. by eapply (lawful_amount roles_of sanctioned). }
  intros z. apply triple_given_only. intros N.
  eapply triple_seq_any; [apply reserve_funds_triple; [done|apply stable_pure]|]. intros b.
  apply triple_if; intros _; [|apply triple_fail]. apply triple_ret_ok. intros s _ _.
  destruct L0 as (x&C&S). exists x. split; [done|]. etransitivity; [exact S|].
  apply rtc_once, reserved_step. }
intros a. apply triple_given_only. intros La. eapply triple_seq_any.
{ apply on_failure_triple; [by apply create_action_triple|].
  apply triple_if; intros _; [by apply release_triple|by apply triple_ret_ok]. }
intros saved. eapply triple_seq_any; [by apply update_case_triple|]. intros _. by apply triple_ret_ok.
Qed.

Lemma perform_refund_triple a o sub v :
triple (past_action a) (perform_refund a o sub v)
  (on_ok (fun u s => (rtc step a u /\ version a = v) /\ past_action a s)).
Proof.
apply local_triple; [apply past_action_stable| |].
- intros s I Pa. destruct (execute_approved_action _ _ _ _ _ _) as [r e] eqn:E. simpl.
  split_and!; [done|done|]. destruct r as [u|x'].
  + apply execute_ok in E as (o'&z&rf&(_&_&_&Hz&_)%refund_guards_ok&E&_).
    pose proof (op_keeps (refunds s) (Ledger.OpRefund o' z (idempotency_key a))) as K.
    simpl in K. rewrite E in K. apply K. eapply past_amount; [done|exact Pa|by apply amount_of_ok].
  + apply execute_raise in E. subst. apply ledger_keeps_refl.
- intros s u. destruct (execute_approved_action _ _ _ _ _ _) as [r e] eqn:E. simpl.
  intros H1. apply rbind_ok in H1 as (w&->&[= <-]). split.
  + eapply rtc_l; [by eapply step_execute|]. apply rtc_once, reserved_step.
  + by apply execute_ok in E as (?&?&?&((_&?&_)&_)%refund_guards_ok&_).
Qed.

Lemma perform_resend_triple a sub v :
triple (past_action a) (perform_resend a sub v)
  (on_ok (fun u s => (rtc step a u /\ version a = v) /\ past_action a s)).
Proof.
apply local_triple; [apply past_action_stable| |].
- intros s _ _. destruct (execute_approved_resend _ _ _ _ _) as [r e]. simpl.
  split_and!; [done|done|apply ledger_keeps_refl].
- intros s u. destruct (execute_approved_resend _ _ _ _ _) as [r e] eqn:E. simpl. intros ->.
  split; [apply rtc_once; by eapply step_resend|].
  by apply execute_resend_ok in E as (?&?&?&(_&(_&?&_)&_)%resend_guards_ok&_).
Qed.

Lemma execute_case_action_triple a case sub v :
triple (past_action a) (execute_case_action a case sub v) (on_ok (fun _ => top)).
Proof.
unfold execute_case_action.
eapply (triple_seq_ok _ _ _ _ (fun u s => (rtc step a u /\ version a = v) /\ past_action a s)).
{ apply triple_if; intros _; [apply perform_resend_triple|apply perform_refund_triple]. }
intros u. apply triple_given. intros [S V].
eapply triple_seq_ok; [by apply (save_action_triple _ _ a)|]. intros saved.
eapply triple_seq_any; [by apply update_case_triple|]. intros _. by apply triple_ret_ok.
Qed.

(** ** The endpoints *)

(** Requests carry the role their user has. *)
Definition authentic (req : Request) : Prop :=
forall u, req_user req = Some u -> roles_of (user_id u) = [system_role u].

Context (app : App) (req : Request) (Hreq : authentic req).

Lemma actor_role who : _actor req = Ok who -> roles_of who.1 = [who.2].
Proof. unfold _actor. destruct (req_user req) as [u|] eqn:E; intros [= <-]. by apply Hreq. Qed.

Lemma actor_triple : triple top (lift (_actor req)) (on_ok (fun who _ => vouched who.1 (Some who.2))).
Proof.
apply triple_lift_ok. intros who s E _ _. apply roles_vouched. rewrite (actor_role who E). by left.
Qed.

Lemma translating_triple {A} P classes (m : M A) Q :
triple P m (on_ok Q) -> triple P (translating classes m) (on_ok Q).
Proof.
intros T. apply triple_catch_fail; [done|]. intros e. apply triple_if; intros _; apply triple_fail.
Qed.

Lemma idem_triple endpoint body m code :
triple top m (on_ok (fun _ => top)) ->
triple top (_idem_replay_or_run app req endpoint body m code) (on_ok (fun _ => top)).
Proof.
intros T. unfold _idem_replay_or_run.
eapply triple_seq_any with (R := fun _ => top); [by apply triple_lift_ok|]. intros who. cbv zeta.
apply triple_if; intros _; [done|]. unfold with_lock.
eapply (triple_seq_any _ _ _ _ (fun _ => top)).
{ intros s I _. simpl. split_and!; [done|apply system_rely_refl|]. intros s1 I1 R1 _. simpl.
  destruct (other_inv roles_of sanctioned s1 (set_locks s1 ((default "" (idempotency_header req),
    scoped_endpoint who endpoint) :: locks s1))); try done. }
intros _. apply triple_finally; [|intros s; by apply other_inv|done].
eapply triple_seq_any with (R := fun _ => top).
{ apply triple_catch_fail.
  - eapply triple_seq_any; [apply triple_await_ok, stable_pure|]. intros _.
    eapply triple_top, (local_triple _ _ top _ (fun _ => True)); [apply stable_pure| |done].
    intros s _ _. destruct (Idempotency.apply_idempotency _ _ _ _ _). simpl.
    split_and!; [done|done|apply ledger_keeps_refl].
  - intros e. apply triple_if; intros _; [|apply triple_fail].
    eapply triple_seq_any; [apply metric_triple, stable_pure|]. intros _. apply triple_fail. }
intros outcome. apply triple_if; intros _.
{ eapply triple_seq_any; [apply metric_triple, stable_pure|]. intros _. by apply triple_ret_ok. }
eapply triple_seq_any; [apply metric_triple, stable_pure|]. intros _.
eapply triple_seq_any; [exact T|]. intros r. eapply triple_seq_any with (R := fun _ => top).
{ eapply triple_seq_any; [apply now_triple|]. intros now.
  eapply triple_seq_any; [apply triple_await_ok, stable_pure|]. intros _.
  apply modify_other_triple; done. }
intros _. by apply triple_ret_ok.
Qed.

Lemma lift_triple {A} (r : result A) : triple top (lift r) (on_ok (fun a _ => r = Ok a)).
Proof. by apply triple_lift_ok. Qed.

Lemma aggregate_triple case owner : triple top (_aggregate_case case owner) (on_ok (fun _ => top)).
Proof.
eapply triple_seq_any; [apply list_case_actions_triple|]. intros l.
eapply triple_seq_any with (R := fun _ => top); [apply triple_query; [apply stable_pure|done]|].
intros evs. by apply triple_ret_ok.
Qed.

(** What [_admin_action] gives an endpoint. *)
Definition fetched (g : (string * string) * ActionRequest * ServiceCaseRow) (s : Shared) : Prop :=
(roles_of g.1.1.1 = [g.1.1.2] /\ lawful g.1.2) /\ past_action g.1.2 s.

Lemma admin_action_triple id : triple top (_admin_action app req id) (on_ok fetched).
Proof.
unfold _admin_action.
eapply (triple_seq_ok _ _ _ _ (fun who _ => _actor req = Ok who)); [apply lift_triple|].
intros who.
apply triple_given_only. intros Hw. apply triple_if; intros _; [by apply triple_lift_ok|].
eapply triple_seq_any; [apply lift_triple|]. intros _.
eapply triple_seq_ok; [apply get_action_triple|]. intros o.
eapply (triple_seq_ok _ _ _ _ (fun a s => lawful a /\ past_action a s)).
{ apply triple_lift_ok. intros a s E _ P. apply of_option_ok in E. by destruct (P a E) as (?&_&?). }
intros a. apply triple_given. intros L. eapply (triple_seq_ok _ _ _ _ (fun _ => past_action a)).
{ apply triple_query; [apply past_action_stable|done]. }
intros oc. eapply (triple_seq_ok _ _ _ _ (fun _ => past_action a)); [by apply triple_lift_ok|].
intros case. apply triple_ret_ok. intros s _ P. split; [|done]. split; [by apply actor_role|done].
Qed.
Lemma approve_and_reserve_triple who a case b :
roles_of who.1 = [who.2] -> lawful a ->
triple (past_action a) (approve_and_reserve who a case b)
  (on_ok (fun u s => (rtc step a u /\ version a = ap_expected_version b) /\ past_action a s)).
Proof.
intros Hr L. unfold approve_and_reserve.
eapply (triple_seq_ok _ _ _ _ (fun _ => past_action a)).
{ apply triple_if; intros _; [|by apply triple_ret_ok].
  eapply (triple_seq_ok _ _ _ _ (fun _ => past_action a)); [by apply triple_gets_ok|].
  intros e. by apply triple_lift_ok. }
intros []. eapply triple_seq_ok; [apply now_triple|]. intros now.
eapply (triple_seq_ok _ _ _ _ (fun u s => (step a u /\ version a = ap_expected_version b) /\ past_action a s)).
{ apply triple_lift_ok. intros u s E _ P. split; [|done]. split.
  - apply (step_approve _ _ who.1 (ap_expected_version b) now (ap_comment b) None). by rewrite Hr.
  - by apply approve_action_ok in E as ((_&?&_)%check_decision_ok&_). }
intros u. apply triple_given. intros [S V]. apply triple_if; intros _.
- eapply (triple_seq_ok _ _ _ _ (fun z s => 0 <= z /\ past_action a s)).
  { apply triple_lift_ok. intros z s E _ P. split; [|done].
    eapply lawful_amount; [|exact E]. by eapply lawful_step, rtc_once. }
  intros z. apply triple_given. intros N.
  eapply triple_seq_ok; [apply reserve_funds_triple; [done|apply past_action_stable]|]. intros ok.
  apply triple_if; intros _; [|by apply triple_lift_ok]. apply triple_ret_ok. intros s _ P.
  split; [|done]. split; [|done]. eapply rtc_l; [exact S|]. apply rtc_once, reserved_step.
- apply triple_ret_ok. intros s _ P. split; [|done]. split; [by apply rtc_once|done].
Qed.

Lemma approve_triple id b : triple top (approve app req id b) (on_ok (fun _ => top)).
Proof.
apply idem_triple. eapply triple_seq_ok; [apply admin_action_triple|].
intros [[who a] case]. apply triple_given. simpl. intros [Hr L].
eapply (triple_seq_ok _ _ _ _ (fun _ => top)).
- apply translating_triple. eapply triple_seq_ok; [by apply approve_and_reserve_triple|].
  intros u. apply triple_given. intros [S V]. apply on_failure_triple.
  + by eapply triple_top, (save_action_triple _ _ a).
  + apply triple_if; intros _; [|by apply triple_ret_ok].
    by apply release_triple, (lawful_step a).
- intros u. eapply triple_seq_any; [apply metric_triple, stable_pure|]. intros _.
  eapply triple_seq_any; [apply append_event_triple|]. intros _.
  eapply triple_seq_any; [by apply update_case_triple|]. intros _. by apply triple_ret_ok.
Qed.

Lemma reject_triple id b : triple top (reject app req id b) (on_ok (fun _ => top)).
Proof.
apply idem_triple. eapply triple_seq_ok; [apply admin_action_triple|].
intros [[who a] case]. apply triple_given. simpl. intros [Hr L].
eapply (triple_seq_ok _ _ _ _ (fun _ => top)).
- apply translating_triple. eapply triple_seq_ok; [apply now_triple|]. intros now.
  eapply (triple_seq_ok _ _ _ _ (fun u s => (step a u /\ version a = rj_expected_version b) /\ past_action a s)).
  { apply triple_lift_ok. intros u s E _ P. split; [|done]. split.
    - apply (step_reject _ _ who.1 (rj_expected_version b) (rj_comment b) now). by rewrite Hr.
    - by apply reject_action_ok in E as (_&(_&?&_)%check_decision_ok&_). }
  intros u. apply triple_given. intros [S V].
  eapply (triple_seq_ok _ _ _ _ (fun w s => rtc step a w /\ past_action a s)).
  + apply triple_if; intros _; [|apply triple_ret_ok; intros s _ P; split; [by apply rtc_once|done]].
    eapply (triple_seq_ok _ _ _ _ (fun z s => 0 <= z /\ past_action a s)).
    { apply triple_lift_ok. intros z s E _ P. split; [|done].
      eapply lawful_amount; [|exact E]. by eapply lawful_step, rtc_once. }
    intros z. apply triple_given. intros N.
    eapply (triple_seq_ok _ _ _ _ (fun _ => past_action a)).
    { apply (ledger_triple _ _ _ (Ledger.OpRelease (default "" (c_order_id case)) z) z);
        [apply past_action_stable|done..]. }
    intros []. apply triple_ret_ok. intros s _ P. split; [|done].
    eapply rtc_l; [exact S|]. apply rtc_once, reserved_step.
  + intros w. apply triple_given. intros Sw. by eapply triple_top, (save_action_triple _ _ a).
- intros u. eapply triple_seq_any; [apply metric_triple, stable_pure|]. intros _.
  eapply triple_seq_any; [apply append_event_triple|]. intros _.
  eapply triple_seq_any; [by apply update_case_triple|]. intros _. by apply triple_ret_ok.
Qed.

Lemma execute_triple id b : triple top (execute app req id b) (on_ok (fun _ => top)).
Proof.
apply idem_triple. eapply triple_seq_ok; [apply admin_action_triple|].
intros [[who a] case]. apply triple_given. simpl. intros [Hr L].
eapply (triple_seq_ok _ _ _ _ (fun _ => top)).
- apply translating_triple, execute_case_action_triple.
- intros u. eapply triple_seq_any; [apply metric_triple, stable_pure|]. intros _.
  eapply triple_seq_any; [apply append_event_triple|]. intros _. by apply triple_ret_ok.
Qed.

(** What finding a case or answering 404 leaves. *)
Lemma found_triple case_id u o what :
triple (found_case sanctioned case_id u o) (lift (not_found o what))
  (on_ok (fun c _ => fitting c /\ owned u c = true)).
Proof.
apply triple_lift_ok. intros c s E _ F. apply of_option_ok in E. subst. by destruct F as (_&_&?&?).
Qed.

Lemma repo_triple : triple top (lift (_repo app)) (on_ok (fun _ => top)).
Proof. by apply triple_lift_ok. Qed.

Lemma list_cases_triple : triple top (list_cases app req) (on_ok (fun _ => top)).
Proof.
eapply triple_seq_any; [apply lift_triple|]. intros who.
eapply triple_seq_any; [apply repo_triple|]. intros _.
eapply triple_seq_any with (R := fun _ => top); [apply triple_query; [apply stable_pure|done]|].
intros l. by apply triple_ret_ok.
Qed.

Lemma intake_case_triple b : triple top (intake_case app req b) (on_ok (fun _ => top)).
Proof.
apply idem_triple. eapply (triple_seq_ok _ _ _ _ (fun who _ => vouched who.1 (Some who.2))); [apply actor_triple|]. intros who. apply triple_given_only. intros V.
eapply triple_seq_any; [apply repo_triple|]. intros _.
eapply triple_seq_any; [by apply create_intake_case_triple|]. intros c. by apply triple_ret_ok.
Qed.

Lemma create_case_triple' b : triple top (Router.create_case app req b) (on_ok (fun _ => top)).
Proof.
apply idem_triple. eapply (triple_seq_ok _ _ _ _ (fun who _ => vouched who.1 (Some who.2))); [apply actor_triple|]. intros who. apply triple_given_only. intros V.
eapply (triple_seq_ok _ _ _ _ (fun e _ => match e with
  | inl _ => True | inr (d, _) => sanctioned who.1 (Some (cc_order_id b)) (Codec.decision_json d) end)).
{ apply triple_lift_ok. intros [e|[d ev]] s E _ _; [done|]. by eapply mock_case_sanctioned. }
intros [e|[d ev]]; [apply triple_fail|]. apply triple_given_only. intros Sn.
eapply triple_seq_any; [apply metric_triple, stable_pure|]. intros _.
eapply triple_seq_any; [apply repo_triple|]. intros _.
eapply triple_seq_any; [by apply create_case_triple|]. intros c.
eapply triple_seq_any; [apply append_event_triple|]. intros _. by apply triple_ret_ok.
Qed.

Lemma get_case_triple' id : triple top (Router.get_case app req id) (on_ok (fun _ => top)).
Proof.
eapply triple_seq_any; [apply lift_triple|]. intros who.
eapply triple_seq_any; [apply repo_triple|]. intros _.
eapply triple_seq_ok; [apply get_case_triple|]. intros o.
eapply (triple_seq_ok _ _ _ _ (fun _ => top)); [eapply triple_top, found_triple|]. intros c.
apply aggregate_triple.
Qed.

Lemma supplement_case_triple id b : triple top (supplement_case app req id b) (on_ok (fun _ => top)).
Proof.
apply idem_triple. eapply (triple_seq_ok _ _ _ _ (fun who _ => vouched who.1 (Some who.2))); [apply actor_triple|]. intros who. apply triple_given_only. intros V.
eapply triple_seq_any; [apply repo_triple|]. intros _.
eapply triple_seq_ok; [apply get_case_triple|]. intros o.
eapply (triple_seq_ok _ _ _ _ (fun _ => top)); [eapply triple_top, found_triple|]. intros c.
eapply triple_seq_any; [by apply continue_intake_case_triple|]. intros c'. apply aggregate_triple.
Qed.

Lemma create_action_triple' id : triple top (Router.create_action app req id) (on_ok (fun _ => top)).
Proof.
apply idem_triple. eapply triple_seq_any; [apply lift_triple|]. intros who.
eapply triple_seq_any; [apply repo_triple|]. intros _.
eapply triple_seq_ok; [apply get_case_triple|]. intros o.
eapply (triple_seq_ok _ _ _ _ (fun c _ => fitting c /\ owned (Some who.1) c = true)); [apply found_triple|].
intros c. apply triple_given_only. intros [Sn Ow%String.eqb_eq].
eapply triple_seq_any; [by apply translating_triple, create_case_action_triple|]. intros a.
eapply triple_seq_any; [apply metric_triple, stable_pure|]. intros _.
eapply triple_seq_any; [apply append_event_triple|]. intros _. by apply triple_ret_ok.
Qed.

Lemma repeat_triple n name :
triple top (repeat_m n (inc_metrics name [])) (on_ok (fun _ => top)).
Proof.
induction n as [|n IH]; simpl; [by apply triple_ret_ok|].
eapply triple_seq_any; [apply metric_triple, stable_pure|]. intros _. exact IH.
Qed.

Lemma list_actions_triple st : triple top (list_actions app req st) (on_ok (fun _ => top)).
Proof.
eapply triple_seq_any; [apply lift_triple|]. intros who.
eapply triple_seq_any; [apply repo_triple|]. intros _.
eapply triple_seq_any; [apply release_expired_triple|]. intros n.
eapply triple_seq_any; [apply repeat_triple|]. intros _.
eapply triple_seq_any with (R := fun _ => top); [apply triple_query; [apply stable_pure|done]|].
intros l. by apply triple_ret_ok.
Qed.

(** ** The agent's tools *)

Lemma reporting_triple {A} P classes code (m : M A) (k : A -> M json) R :
triple P m (on_ok R) -> (forall a, triple (R a) (k a) (on_ok (fun _ => top))) ->
triple P (Tools.reporting classes code m k) (on_ok (fun _ => top)).
Proof.
intros T K. unfold Tools.reporting.
eapply (triple_seq_ok _ _ _ _ (fun o s => match o with inl a => R a s | inr _ => True end)).
- eapply triple_catch; [eapply (triple_seq_ok _ _ _ _ R); [exact T|]; intros a; by apply triple_ret_ok|].
  intros e. apply triple_if; intros _; [by apply triple_ret_ok|apply triple_fail].
- intros [a|j]; [apply K|by apply triple_ret_ok].
Qed.

Section agent.
Context (persistent : bool) (user : option (string * string)) (ctx : Guardrail.Context)
(current_trace : option string).

(** The run acts for its user. *)
Definition for_user : Prop := vouched (Tools.resolve_runtime_user_id user ctx) (Tools.user_role user ctx).

Lemma tool_repo_triple : triple top (lift (Tools._repository persistent)) (on_ok (fun _ => top)).
Proof. by apply triple_lift_ok. Qed.

Lemma create_case_tool_triple text o i e : for_user ->
triple top (Tools.create_after_sales_case_tool persistent user ctx current_trace text o i e)
(on_ok (fun _ => top)).
Proof.
intros V. eapply triple_seq_any; [apply tool_repo_triple|]. intros _.
eapply triple_seq_any; [by apply create_intake_case_triple|]. intros c. by apply triple_ret_ok.
Qed.

Lemma update_case_tool_triple id note text o i e : for_user ->
triple top (Tools.update_after_sales_case_tool persistent user ctx current_trace id note text o i e)
(on_ok (fun _ => top)).
Proof.
intros V. eapply triple_seq_any; [apply tool_repo_triple|]. intros _.
eapply triple_seq_ok; [apply get_case_triple|]. intros [c|]; [|by apply triple_ret_ok].
eapply (triple_pre _ top); [|done].
apply (reporting_triple top _ _ _ _ (fun _ => top)); [by apply continue_intake_case_triple|].
intros c'. by apply triple_ret_ok.
Qed.

Lemma create_action_tool_triple id :
triple top (Tools.create_after_sales_action_tool persistent user ctx current_trace id)
(on_ok (fun _ => top)).
Proof.
unfold Tools.create_after_sales_action_tool.
apply triple_if; intros _; [by apply triple_ret_ok|].
apply triple_if; intros _; [by apply triple_ret_ok|].
eapply triple_seq_any; [apply tool_repo_triple|]. intros _.
eapply triple_seq_ok; [apply get_case_triple|]. intros [c|]; [|by apply triple_ret_ok].
eapply (triple_pre _ (fun s => (fitting c /\ owned (Some (Tools.acting_user user ctx)) c = true) /\ top s));
  [|by intros s _ (_&_&F&F'); split_and!].
apply triple_given. intros [Sn Ow%String.eqb_eq].
apply (reporting_triple top _ _ _ _ (fun _ => top)); [by apply create_case_action_triple|].
intros a. eapply triple_seq_any; [apply append_event_triple|]. intros _. by apply triple_ret_ok.
Qed.

Lemma execute_tool_triple id v p :
triple top (Tools.execute_approved_action_tool persistent user ctx current_trace id v p)
(on_ok (fun _ => top)).
Proof.
unfold Tools.execute_approved_action_tool.
apply triple_if; intros _; [by apply triple_ret_ok|].
apply triple_if; intros _; [by apply triple_ret_ok|].
eapply triple_seq_any; [apply tool_repo_triple|]. intros _.
eapply triple_seq_ok; [apply get_action_triple|]. intros [a|]; [|by apply triple_ret_ok].
eapply (triple_seq_ok _ _ _ _ (fun _ => past_action a)).
{ eapply triple_pre; [apply (triple_query _ (past_action a)); [apply past_action_stable|done]|].
intros s _ P. by apply (P a). }
intros [c|]; [|by apply triple_ret_ok]. apply triple_if; intros _; [by apply triple_ret_ok|].
apply (reporting_triple _ _ _ _ _ (fun _ => top)); [apply execute_case_action_triple|].
intros u. eapply triple_seq_any; [apply append_event_triple|]. intros _. by apply triple_ret_ok.
Qed.
End agent.

(** A tool behind the guardrail keeps the protocol if the tool does. *)
Lemma guarded_triple resolver persistent closed ctx c (m : M json) :
triple top m (on_ok (fun _ => top)) ->
triple top (Guardrail.awrap_tool_call closed (Guardrail.audited_aevaluate resolver persistent) ctx c m)
  (on_ok (fun _ => top)).
Proof.
intros T. unfold Guardrail.awrap_tool_call. eapply triple_seq_any with (R := fun _ => top).
- apply triple_catch_fail.
  + eapply triple_seq_any; [apply now_triple|]. intros t.
    eapply triple_seq_any with (R := fun _ => top).
    { unfold Guardrail.aevaluate. repeat (apply triple_if; intros _; [by apply triple_ret_ok|]).
      destruct (Guardrail.execution_arguments _) as [[[id v] p]|]; [|by apply triple_ret_ok].
      apply triple_if; intros _; [by apply triple_ret_ok|].
      eapply triple_seq_ok; [apply get_action_triple|]. intros o.
      eapply (triple_seq_any _ _ _ _ (fun _ => top)); [by apply triple_gets_ok|]. intros now.
      by apply triple_ret_ok. }
    intros d. eapply triple_seq_any; [apply now_triple|]. intros t'.
    eapply triple_seq_any; [apply metric_triple, stable_pure|]. intros _.
    eapply triple_seq_any with (R := fun _ => top).
    { eapply triple_seq_any; [apply triple_await_ok, stable_pure|]. intros _.
      apply modify_other_triple; done. }
    intros _. by apply triple_ret_ok.
  + intros e. apply triple_if; intros _; [apply triple_fail|].
    apply triple_if; intros _; [by apply triple_ret_ok|apply triple_fail].
- intros d. apply triple_if; intros _; [by apply triple_ret_ok|exact T].
Qed.

End safety.

(** ** Every request *)

Section served.
Context `{Intake.UnicodeClasses} (roles_of : string -> list string) (vouched : string -> option string -> Prop) (app : App).
Hypothesis roles_vouched : forall u role, role ∈ roles_of u -> vouched u (Some role).
Notation sanctioned := (sanctioned vouched).

(** The programs the gateway runs: an endpoint for a request of an
  authenticated user, a tool for a run of the agent, on a context whose role is
  vouched for where a case is evaluated, and a tool behind the guardrail. *)
Inductive served : M json -> Prop :=
| srv_list_cases req : authentic roles_of req -> served (list_cases app req)
| srv_intake req b : authentic roles_of req -> served (intake_case app req b)
| srv_create_case req b : authentic roles_of req -> served (Router.create_case app req b)
| srv_get_case req id : authentic roles_of req -> served (Router.get_case app req id)
| srv_supplement req id b : authentic roles_of req -> served (supplement_case app req id b)
| srv_create_action req id : authentic roles_of req -> served (Router.create_action app req id)
| srv_approve req id b : authentic roles_of req -> served (approve app req id b)
| srv_list_actions req st : authentic roles_of req -> served (list_actions app req st)
| srv_reject req id b : authentic roles_of req -> served (reject app req id b)
| srv_execute req id b : authentic roles_of req -> served (execute app req id b)
| srv_tool_create persistent user ctx tr text o i e : for_user vouched user ctx ->
  served (Tools.create_after_sales_case_tool persistent user ctx tr text o i e)
| srv_tool_update persistent user ctx tr id note text o i e : for_user vouched user ctx ->
  served (Tools.update_after_sales_case_tool persistent user ctx tr id note text o i e)
| srv_tool_action persistent user ctx tr id :
  served (Tools.create_after_sales_action_tool persistent user ctx tr id)
| srv_tool_execute persistent user ctx tr id v p :
  served (Tools.execute_approved_action_tool persistent user ctx tr id v p)
| srv_guarded resolver persistent closed ctx c m : served m ->
  served (Guardrail.awrap_tool_call closed (Guardrail.audited_aevaluate resolver persistent) ctx c m).

Lemma served_triple_ok m :
served m -> triple (system roles_of sanctioned) (fun _ => True) m (on_ok (fun _ _ => True)).
Proof.
induction 1; [by apply list_cases_triple|by apply intake_case_triple|by apply create_case_triple'
  |by apply get_case_triple'|by apply supplement_case_triple|by apply create_action_triple'
  |by apply approve_triple|by apply list_actions_triple|by apply reject_triple|by apply execute_triple
  |by apply create_case_tool_triple|by apply update_case_tool_triple|by apply create_action_tool_triple
  |by apply execute_tool_triple|by apply guarded_triple].
Qed.

Lemma served_triple m :
served m -> triple (system roles_of sanctioned) (fun _ => True) m (fun _ _ => True).
Proof.
intros Sm. eapply triple_post with (Q := on_ok (fun _ _ => True)); [by apply served_triple_ok|].
by intros [a|e].
Qed.

(** A run of the service: any requests, in any order of segments. *)
Definition serves : Pool.Pool json -> Pool.Pool json -> Prop :=
rtc (Pools.pool_step served ticks).

Lemma serves_inv p q :
Pools.pool_inv (system roles_of sanctioned) p -> serves p q ->
Pools.pool_inv (system roles_of sanctioned) q /\
system_rely roles_of (Pools.state p) (Pools.state q).
Proof.
intros I R. apply (Pools.pool_sound (system roles_of sanctioned) served ticks) with (3 := R);
  [exact served_triple| |done]. intros s s'. apply ticks_allowed.
Qed.

Lemma fresh_pool s0 :
system_inv roles_of sanctioned s0 ->
Pools.pool_inv (system roles_of sanctioned) ({| Pools.state := s0; Pools.threads := [] |} : Pool.Pool json).
Proof. intros I. split; [done|]. by intros c ?%not_elem_of_nil. Qed.

Lemma serves_sound s0 p :
system_inv roles_of sanctioned s0 -> serves {| Pools.state := s0; Pools.threads := [] |} p ->
system_inv roles_of sanctioned (Pools.state p) /\ system_rely roles_of s0 (Pools.state p).
Proof. intros I R. destruct (serves_inv _ _ (fresh_pool s0 I) R) as [[? _] ?]. done. Qed.

Lemma serves_later s0 p q :
system_inv roles_of sanctioned s0 -> serves {| Pools.state := s0; Pools.threads := [] |} p ->
serves p q -> system_rely roles_of (Pools.state p) (Pools.state q).
Proof.
intros I R R'. destruct (serves_inv _ _ (fresh_pool s0 I) R) as [P _].
by destruct (serves_inv _ _ P R').
Qed.

End served.

Lemma empty_inv vouched roles_of s :
  db s = empty_db -> Ledger.solvent (refunds s) -> system_inv roles_of (sanctioned vouched) s.
Proof.
  intros E S. split; rewrite ?E; [apply db_ok_empty|by intros cid| | |done].
  - by intros a ?%not_elem_of_nil.
  - by intros c ?%not_elem_of_nil.
Qed.

(** ** A run of the service *)

#[export] Instance demo_unicode : Intake.UnicodeClasses :=
  {| Intake.unicode_word _ := false; Intake.unicode_digit _ := false |}.

(** Nothing is known of the roles that runs carry; or they are their users' own. *)
Definition anyone (u : string) (role : option string) : Prop := True.
Lemma anyone_vouched (roles_of : string -> list string) u role : role ∈ roles_of u -> anyone u (Some role).
Proof. done. Qed.
Definition own_role (roles_of : string -> list string) (u : string) (role : option string) : Prop :=
  match role with Some r => r ∈ roles_of u | None => True end.

Definition demo_app : App := {| repo_wired := true; store_wired := true |}.

Definition demo_roles (u : string) : list string := if (u =? "alice")%string then ["user"] else ["admin"].

Definition demo_vouched : string -> option string -> Prop := own_role demo_roles.
Lemma demo_roles_vouched u role : role ∈ demo_roles u -> demo_vouched u (Some role).
Proof. done. Qed.

Definition request_of (u : string) (key : option string) : Request :=
  {| req_user := Some {| user_id := u; system_role := if (u =? "alice")%string then "user" else "admin" |};
     idempotency_header := key; req_trace_id := Some "trace-1" |}.

Lemma request_authentic u key : authentic demo_roles (request_of u key).
Proof. intros w [= <-]. unfold demo_roles. simpl. by destruct (u =? "alice")%string. Qed.

(** The empty database, with the payments of the dataset to refund from. *)
Definition start_state : Shared :=
  {| db := empty_db;
     refunds := Ledger.new_executor {["ORDER-1004" := 800000]};
     outbounds := {| ReverseExecution.outbound := ∅; ReverseExecution.inventory := None |};
     metrics := Metrics.empty_metrics; idem := Idempotency.demo_store;
     audits := {| Observability.ToolAudit.tr_rows := []; Observability.ToolAudit.tr_next_id := 1 |};
     clock := 0; uuids := fun n => "uuid-" +:+ pretty n; next_uuid := 0; locks := [] |}.

Definition start_pool : Pool.Pool json := {| Pools.state := start_state; Pools.threads := [] |}.

(** Start a request and let it run to its end. *)
Definition serve (m : M json) (p : Pool.Pool json) : Pool.Pool json :=
  Pools.schedule (replicate 40 (length (Pools.threads p))) (Pools.start m p).

Lemma serves_then vouched m p q :
  served demo_roles vouched demo_app m -> serves demo_roles vouched demo_app p q ->
  serves demo_roles vouched demo_app p (serve m q).
Proof.
  intros S R. etransitivity; [exact R|]. eapply rtc_l; [by apply Pools.start_step|].
  apply Pools.schedule_steps.
Qed.

(** Alice reports a laptop that does not work and asks for the refund. *)
Definition demo_case_request : CaseCreateRequest :=
  {| cc_order_id := "ORDER-1004"; cc_issue_type := QUALITY_ISSUE;
     cc_visual_evidence_confirmed := false; cc_thread_id := None |}.

Definition demo_refund : dict := [("order_id", JStr "ORDER-1004"); ("amount", JInt 800000)].

Definition requested_pool : Pool.Pool json :=
  serve (Router.create_action demo_app (request_of "alice" (Some "k2")) "uuid-0")
    (serve (Router.create_case demo_app (request_of "alice" (Some "k1")) demo_case_request) start_pool).

Definition demo_approval (u : string) (v : Z) : M json :=
  approve demo_app (request_of u None) "uuid-2" {| ap_expected_version := v; ap_comment := None |}.

Definition approved_pool : Pool.Pool json :=
  serve (demo_approval "carol" 2) (serve (demo_approval "bob" 1) requested_pool).

Definition paid_pool : Pool.Pool json :=
  serve (execute demo_app (request_of "bob" None) "uuid-2"
           {| ex_expected_version := 3; ex_payload := demo_refund |}) approved_pool.

Lemma approved_run vouched : serves demo_roles vouched demo_app start_pool approved_pool.
Proof.
  unfold approved_pool, requested_pool, demo_approval.
  apply serves_then; [apply srv_approve, request_authentic|].
  apply serves_then; [apply srv_approve, request_authentic|].
  apply serves_then; [apply srv_create_action, request_authentic|].
  apply serves_then; [apply srv_create_case, request_authentic|]. apply rtc_refl.
Qed.

(** ** Properties of every reachable state *)

(** C1: four eyes, end to end.  Serve any requests of authenticated users and
    any tool calls of the agent whose runs carry a role vouched for their user,
    in any interleaving, from an empty database.  Every refund action that is then
    approved or completed is for one order, and pays what the case asked for --
    the article, and the shipping where the region's policy refunds it -- capped
    by that order's refundable balance.  Either nobody approved it, and then it
    needed nobody: it is within the limit of a role of its requester, below the
    policy's review and high-value amounts, and the record of the order's own
    customer, the carrier's evidence and the score are inconspicuous; or distinct
    admins other than the requester approved it, and two of them when a repeated
    claimant or a contradicted claim asked for 5000 or more. *)
Theorem service_four_eyes `{Intake.UnicodeClasses} roles_of vouched app s0 p a
    (Hv : forall u role, role ∈ roles_of u -> vouched u (Some role))
    (H0 : db s0 = empty_db) (Hl : Ledger.solvent (refunds s0))
    (Hrun : serves roles_of vouched app {| Pools.state := s0; Pools.threads := [] |} p)
    (Ha : a ∈ actions (db (Pools.state p))) (Ht : action_type a = "refund")
    (Hs : status a ∈ [APPROVED; COMPLETED]) :
  exists i c role, vouched (requested_by a) role /\ Workflow.context_of i c /\
    operator_refund_limit c = (if bool_decide (role = Some "admin") then 1000000 else 20000) /\
    get "order_id" (payload a) = Some (JStr (Workflow.in_order_id i)) /\
    get "amount" (payload a) = Some (JInt (due c)) /\
    (approver_ids a = [] /\ needs_nobody c (due c) \/
     NoDup (approver_ids a) /\
     Forall (fun id => id <> requested_by a /\ "admin" ∈ roles_of id) (approver_ids a) /\
     (1 <= length (approver_ids a))%nat /\ (needs_two c (due c) -> (2 <= length (approver_ids a))%nat)).
Proof.
  destruct (serves_sound roles_of vouched app Hv s0 p (empty_inv _ _ _ H0 Hl) Hrun) as [[_ _ L _ _] _].
  destruct (L a Ha) as (a0&[(nid&cid&o&rq&j&d&now&ttl&Sn&Hd&Hc)|(nid&cid&oid&sku&rq&cost&now&ttl&Hc)]&R).
  - destruct (sanctioned_decision _ _ _ j d Sn Hd) as (i&c&role&V&Ho&C&Lim&->). exists i, c, role.
    destruct (refund_controls _ _ _ _ _ _ _ _ _ _ Hc R Hs) as (->&->&K).
    apply create_refund_ok in Hc as (He&_). destruct (eligible_decision c He) as (Ed&_&_&_). do 2 (split; [done|]).
    split. { destruct C as (?&?&?&?&C). by rewrite (Workflow.ctx_limit _ _ _ _ _ _ C), Lim, role_limit. }
    split; [by rewrite Ho|]. split; [by rewrite refund_payload_amount, Ed|].
    destruct K as [(K1&K2&K3)|(K1&K2&K3)]; [left; split; [done|by apply unapproved_needs_nobody]|right].
    split_and!; [done|done|case_bool_decide; lia|]. intros T%two_are_needed; [|done].
    rewrite bool_decide_eq_true_2 in K3 by done. lia.
  - destruct (rtc_same _ _ _ R) as (_&_&E&_). rewrite Hc in E. simpl in E. congruence.
Qed.

(** C5: the audit trail of every case, end to end.  In every state the service
    reaches from an empty database, under any interleaving, the event chain of
    every case verifies and is numbered without gaps. *)
Theorem service_audit_sound `{Intake.UnicodeClasses} roles_of app s0 p cid
    (H0 : db s0 = empty_db) (Hl : Ledger.solvent (refunds s0))
    (Hrun : serves roles_of anyone app {| Pools.state := s0; Pools.threads := [] |} p) :
  let c := chain_of (db (Pools.state p)) cid in
  valid (verify_rows c) = true /\ map ev_seq c = seqZ 1 (Z.of_nat (length c)).
Proof.
  destruct (serves_sound roles_of anyone app (anyone_vouched _) s0 p (empty_inv _ _ _ H0 Hl) Hrun) as [[_ C _ _ _] _].
  specialize (C cid). cbv zeta. split; [by eapply verify_valid, linked_hashes|by eapply linked_numbers].
Qed.

(** C6: nothing the service has recorded is taken back.  From any state the
    service can be in to any later one, whatever runs in between: every event
    stays in its chain, every transaction reference stays under its key, every
    action keeps its request and its version never decreases, and a rejected
    or completed action keeps its status, approvers and transaction. *)
Theorem service_keeps_records `{Intake.UnicodeClasses} roles_of app s0 p q
    (H0 : db s0 = empty_db) (Hl : Ledger.solvent (refunds s0))
    (Hp : serves roles_of anyone app {| Pools.state := s0; Pools.threads := [] |} p)
    (Hq : serves roles_of anyone app p q) :
  let d := db (Pools.state p) in let d' := db (Pools.state q) in
  (forall cid, chain_of d cid `prefix_of` chain_of d' cid) /\
  (forall k r, Ledger.transactions (refunds (Pools.state p)) !! k = Some r ->
               Ledger.transactions (refunds (Pools.state q)) !! k = Some r) /\
  forall id a, select_action d id = Some a ->
    exists a', select_action d' id = Some a' /\ same_request a a' /\ version a <= version a' /\
      (status a ∈ [REJECTED; COMPLETED] ->
         status a' = status a /\ approver_ids a' = approver_ids a /\
         external_transaction_id a' = external_transaction_id a).
Proof.
  destruct (serves_later roles_of anyone app (anyone_vouched _) s0 p q (empty_inv _ _ _ H0 Hl) Hp Hq) as [[Rc Ra _] [Rl _] _].
  cbv zeta. split_and!; [done|done|]. intros id a E. destruct (Ra id a E) as (a'&E'&S).
  exists a'. destruct (lifecycle_facts _ _ _ S) as (?&?&?&_). by split_and!.
Qed.

(** C3: the service creates no money.  In every state reached from solvent
    pools, whatever interleaving of requests led there, no pool of any order is
    negative, and what is available or reserved for an order is at most what it
    was at the start. *)
Theorem service_solvent `{Intake.UnicodeClasses} roles_of app s0 p o
    (H0 : db s0 = empty_db) (Hl : Ledger.solvent (refunds s0))
    (Hrun : serves roles_of anyone app {| Pools.state := s0; Pools.threads := [] |} p) :
  let e := refunds (Pools.state p) in
  0 <= Ledger.balance_of e o /\ 0 <= Ledger.reserved_of e o /\
  Ledger.balance_of e o + Ledger.reserved_of e o
    <= Ledger.balance_of (refunds s0) o + Ledger.reserved_of (refunds s0) o.
Proof.
  destruct (serves_sound roles_of anyone app (anyone_vouched _) s0 p (empty_inv _ _ _ H0 Hl) Hrun) as [[_ _ _ _ S] [_ [_ R] _]].
  cbv zeta. destruct (S o). by split_and!.
Qed.

(** ** Witnesses *)

Lemma start_solvent : Ledger.solvent (refunds start_state).
Proof.
  intros o. split; [|done]. unfold Ledger.balance_of. simpl.
  destruct (decide (o = "ORDER-1004")) as [->|N]; [done|]. by rewrite lookup_singleton_ne.
Qed.

Definition demo_action : option ActionRequest := head (actions (db (Pools.state approved_pool))).

Lemma demo_action_elem a : demo_action = Some a -> a ∈ actions (db (Pools.state approved_pool)).
Proof.
  unfold demo_action. generalize (actions (db (Pools.state approved_pool))). intros l E.
  destruct l; [done|]. injection E as ->. by left.
Qed.

Lemma service_four_eyes_witness :
  exists a, demo_action = Some a /\ requested_by a = "alice" /\ approver_ids a = ["bob"; "carol"] /\
  exists i c, Workflow.in_order_id i = "ORDER-1004" /\ Workflow.context_of i c /\ operator_refund_limit c = 20000 /\
    due c = 800000 /\ ~ needs_nobody c (due c).
Proof.
  destruct demo_action as [a|] eqn:E; [|vm_compute in E; discriminate E].
  exists a. split; [done|].
  assert (requested_by a = "alice" /\ approver_ids a = ["bob"; "carol"] /\ action_type a = "refund" /\ status a = APPROVED /\
          payload a = demo_refund) as (K0&K1&K2&K3&K4) by (vm_compute in E; injection E as <-; split_and!; reflexivity).
  split; [exact K0|]. split; [exact K1|].
  destruct (service_four_eyes demo_roles demo_vouched demo_app start_state approved_pool a demo_roles_vouched eq_refl
    start_solvent (approved_run _)) as (i&c&role&V&C&L&O&A&_); [exact (demo_action_elem a E)|exact K2|rewrite K3; left|].
  clear E. rewrite K4 in O, A. injection O as O. injection A as A. exists i, c.
  assert (operator_refund_limit c = 20000) as L'.
  { rewrite L. rewrite K0 in V. destruct role as [r|]; [|reflexivity]. apply list_elem_of_singleton in V as ->. reflexivity. }
  split; [by symmetry|]. split; [exact C|]. split; [exact L'|]. split; [by symmetry|].
  intros [N _ _ _ _ _]. rewrite L', <-A in N. lia.
Defined.

Lemma service_audit_sound_witness :
  let c := chain_of (db (Pools.state approved_pool)) "uuid-0" in
  map ev_event_type c
    = ["decision_generated"; "approval_requested"; "approval_granted"; "approval_granted"] /\
  valid (verify_rows c) = true.
Proof.
  cbv zeta. split; [vm_compute; reflexivity|].
  apply (service_audit_sound demo_roles demo_app start_state approved_pool "uuid-0" eq_refl
    start_solvent (approved_run _)).
Defined.

Lemma service_solvent_witness :
  Ledger.reserved_of (refunds (Pools.state approved_pool)) "ORDER-1004" = 800000 /\
  Ledger.balance_of (refunds (Pools.state approved_pool)) "ORDER-1004" +
  Ledger.reserved_of (refunds (Pools.state approved_pool)) "ORDER-1004" <= 800000.
Proof.
  split; [vm_compute; reflexivity|].
  apply (service_solvent demo_roles demo_app start_state approved_pool "ORDER-1004" eq_refl
    start_solvent (approved_run _)).
Defined.

Lemma paid_run vouched : serves demo_roles vouched demo_app approved_pool paid_pool.
Proof. apply serves_then; [apply srv_execute, request_authentic|apply rtc_refl]. Qed.

Lemma service_keeps_records_witness :
  map act_id (actions (db (Pools.state approved_pool))) = ["uuid-2"] /\
  map status (actions (db (Pools.state paid_pool))) = [COMPLETED] /\
  chain_of (db (Pools.state approved_pool)) "uuid-0" `prefix_of`
  chain_of (db (Pools.state paid_pool)) "uuid-0".
Proof.
  split; [vm_compute; reflexivity|]. split; [vm_compute; reflexivity|].
  apply (service_keeps_records demo_roles demo_app start_state approved_pool paid_pool eq_refl
    start_solvent (approved_run _) (paid_run _)).
Defined.

(** ** A race *)

(** After bob's approval reserved the funds, carol and dave approve the same
    version at the same time: both read the action before either saves it. *)
Definition race_pool : Pool.Pool json :=
  Pools.schedule (concat (replicate 20 [3; 4]%nat))
    (Pools.start (demo_approval "dave" 2)
      (Pools.start (demo_approval "carol" 2) (serve (demo_approval "bob" 1) requested_pool))).

(** Losing a race for the second approval unfunds the action.  There is
    an interleaving of three supervisors' approvals after which the action is
    approved and stored as reserved, while nothing is reserved for its order
    any more -- the loser's error path released the funds that the first
    approval had reserved -- and its execution is refused. *)
Theorem losing_approver_unfunds :
  serves demo_roles demo_vouched demo_app start_pool race_pool /\
  exists a, actions (db (Pools.state race_pool)) = [a] /\
    status a = APPROVED /\ act_reserved a = true /\
    amount_of (payload a) = Ok 800000 /\
    Ledger.reserved_of (refunds (Pools.state race_pool)) "ORDER-1004" = 0 /\
    is_ok (execute_approved_action a (payload a) (version a)
             (Ledger.reserved_of (refunds (Pools.state race_pool)) "ORDER-1004")
             (refunds (Pools.state race_pool)) 0).1 = false.
Proof.
  split.
  - unfold race_pool. etransitivity; [|apply Pools.schedule_steps].
    eapply rtc_r; [|apply Pools.start_step; apply srv_approve, request_authentic].
    eapply rtc_r; [|apply Pools.start_step; apply srv_approve, request_authentic].
    unfold requested_pool, demo_approval.
    apply serves_then; [apply srv_approve, request_authentic|].
    apply serves_then; [apply srv_create_action, request_authentic|].
    apply serves_then; [apply srv_create_case, request_authentic|]. apply rtc_refl.
  - eexists. split; [vm_compute; reflexivity|]. vm_compute. repeat split; reflexivity.
Qed.

End System.
